(* ===== verification/_CoqProject ===== *)
-Q . S2P
Prelude.v
Utf8.v
Primitives.v
Topic.v
CodecBase.v
V4Base.v
V4Acks.v
V4Publish.v
V4Subscribe.v
V4Connect.v
V4Packet.v
Scheduler.v
Admission.v
FixedBitSet.v
PacketIds.v
SessionIO.v
V4SessionFormat.v
V4SessionTypes.v
V4State.v
V4Clean.v
V4Invariant.v
V4Handlers.v
V4Session.v
V4CleanProofs.v
V4Reachable.v
V4Safety.v
V4Delivery.v
V4Reconnect.v
V4Persist.v
V4Restore.v
V4Recovery.v
V4LoopTypes.v
V4LoopSession.v
V4EventLoop.v
V4LoopState.v
V4LoopInv.v
V4LoopQueues.v
V4LoopRequests.v
V4LoopPoll.v
V4LoopSafety.v
V4LoopOrder.v
V4LoopLive.v
V5Base.v
V5Properties.v
V5Acks.v
V5SubAck.v
V5Subscribe.v
V5Publish.v
V5ConnAck.v
V5ConnectProps.v
V5Connect.v
V5Disconnect.v
V5Auth.v
V5Packet.v
V5CodecFindings.v
V5SessionFormat.v
V5Persist.v
V5Admission.v
V5AdmissionSystem.v
V5AdmissionSafety.v
V5AdmissionLive.v
V5SessionTypes.v
V5AuthLifecycle.v
V5TopicAlias.v
V5StateRecord.v
V5State.v
V5Incoming.v
V5Clean.v
V5AliasCache.v
V5Frame.v
V5AliasAgreement.v
V5Invariant.v
V5Handlers.v
V5Requests.v
V5CleanProofs.v
V5SessionSafety.v
V5Delivery.v
Reconnect.v
V5Srv.v
V5Redirect.v
