(* ===== verification/Prelude.v ===== *)
(** * A verification of the rumqtt MQTT client

    rumqtt is a workspace of Rust crates.  This library models its core in Rocq, as executable
    definitions translated from the source, and proves what makes that core correct.

    ** The program

    - [mqttbytes-core]: fixed headers, variable-length integers, length-prefixed strings,
      topics.  Used by both protocol versions.
    - [mqttbytes-v4] (and [mqttbytes-v5]): the packets of MQTT 3.1.1 (and 5), each with [size],
      [read] and [write], the [Packet] sum with its dispatch, and the tokio [Codec].
    - [rumqttc-core]: the scheduler that orders outbound requests, the admission gate and its
      lanes through which clients hand requests to the event loop, and transports.
    - [rumqttc-v4] (and [rumqttc-v5]): [MqttState], the session state machine; the event loop
      that feeds it requests from the scheduler and packets from the network; client handles.
    - [native-wrappers]: the client for other languages, with a reconnect policy of its own.

    A request goes from a client through an admission lane into the scheduler; the event loop
    pops it when the state says it is ready, calls [handle_outgoing_packet_with_notice] on the
    state, saves the session in the store the application provides, and writes the packet
    returned; packets from the network go through [Packet::read] into
    [handle_incoming_packet_with_effects], whose answer is written back.  On a disconnection
    [clean] collects what is unfinished; it is put back into the queues of the loop and replayed
    on the next connection, or dropped by a reset.

    ** The model

    Fallible code is a function into [outcome E A] ([Ok], [Err] or [Panic]); code with a
    mutable receiver or buffer is a computation in the state monad [M S E A], which returns the
    state on error paths too.  Panics (indexing, [expect], integer under- and overflow) are
    values, so their absence is a theorem.  Machine integers are [Z], with their range or their
    wrap-around written out; buffers are lists of bytes; [VecDeque] and [Vec] are lists;
    [BTreeMap] is [gmap] with an explicit key order; logging is left out.

    - [Prelude]: integers, buffers, the monad, weakest preconditions ([wp]), and the relations
      [writes] and [reads] along which round trips compose.
    - [Utf8]: [core::str::from_utf8] and its specification by scalar values.
    - [Primitives]: [mqttbytes-core/src/primitives.rs], [qos.rs], [ping.rs].
    - [Topic]: [mqttbytes-core/src/topic.rs].
    - [CodecBase]: what the two codecs share: transactional writes, writers that only append and
      do not panic, framing.
    - [V4Base]: [mqttbytes-v4/src/lib.rs], and the class [WirePacket] with its laws, the
      interface between the packet types and the dispatch.
    - [V4Acks], [V4Publish], [V4Subscribe], [V4Connect]: the packet types under
      [mqttbytes-v4/src/v4], each an instance of the interface.
    - [V4Packet]: [v4/mod.rs] and [v4/codec.rs].
    - [Scheduler]: [rumqttc-core/src/scheduler.rs].
    - [Admission]: [rumqttc-core/src/admission.rs] as a transition system whose steps are the
      critical sections of senders, receivers and the gate.
    - [FixedBitSet]: the interface of the [fixedbitset] crate, a class of operations with their
      laws, and an instance by which every witness is evaluated.
    - [PacketIds]: what the session states of the two versions share: tracking vectors, the search
      for a free packet identifier and its specification.
    - [V4SessionTypes], [V4State], [V4Clean]: [rumqttc-v4/src/state.rs], with the types it
      takes from [lib.rs], [notice.rs] and [eventloop.rs].  One definition per method; a method
      with several loops or shared blocks is cut at those.
    - [V4Invariant], [V4Handlers], [V4Session],
      [V4CleanProofs]: the invariant [inv] of the state and the rules of every handler.
    - [V4Reachable]: the session as a transition system and its reachable states; what no operation undoes.
    - [V4Safety], [V4Delivery], [V4Reconnect]: the theorems about sessions.
    - [SessionIO]: the writer and the reader of persisted sessions, which the two
      versions share, and the laws along which formats compose.
    - [V4SessionFormat]: [rumqttc-v4/src/session.rs], the binary format of a
      persisted session, and its round trip and canonicity.
    - [V4Persist], [V4Restore], [V4Recovery]: the checkpoint of a session and restoring from
      one, in [state.rs], and what a restart recovers.
    - [V4LoopTypes], [V4LoopSession], [V4EventLoop]: [rumqttc-v4/src/eventloop.rs]
      and [framed.rs] with the default features, one definition per method.  The record
      [EventLoop] is the struct with its receivers; what the loop waits for is an environment.
    - [V4LoopState], [V4LoopInv], [V4LoopQueues], [V4LoopRequests], [V4LoopPoll]: the invariant [linv] of the loop, which ties the session state to the
      requests in its queues, and that every operation keeps it on every path.
    - [V4LoopSafety], [V4LoopOrder], [V4LoopLive]: the theorems about the loop, the last with runs
      in which it does not do what is promised.
    - [V5Base]: [mqttbytes-v5/src/lib.rs], and the MQTT 5 version of the class [WirePacket].
    - [V5Properties]: the property loop every packet runs ([read_properties], over the packet's
      own [match]), and the class [PropertySet], the interface between packets and properties.
    - [V5Acks], [V5SubAck], [V5Subscribe], [V5Publish], [V5ConnAck], [V5ConnectProps],
      [V5Connect], [V5Disconnect], [V5Auth]: the packet types under [mqttbytes-v5/src/v5] with
      their properties, instances of the two interfaces.  Files of the source that are copies of
      one program over different enumerations are one section with its instances.
    - [V5Packet]: [v5/mod.rs], [v5/ping.rs] and [v5/codec.rs], with the theorems of the codec.
    - [V5CodecFindings]: frames the MQTT 5 decoder loses or misreads.
    - [V5SessionFormat]: [rumqttc-v5/src/session.rs].
    - [V5Persist]: the conversions between requests and their persisted form in
      [rumqttc-v5/src/state.rs].
    - [V5Admission], [V5AdmissionSystem]: [rumqttc-v5/src/publish_budget.rs] and
      [publish_admission.rs] with the senders of [client.rs]; producers and the event loop are a
      transition system whose steps are the critical sections.  [V5AdmissionSafety] and
      [V5AdmissionLive] have the theorems.
    - [V5SessionTypes], [V5AuthLifecycle], [V5TopicAlias], [V5StateRecord], [V5State],
      [V5Incoming], [V5Clean]: [rumqttc-v5/src/state.rs] and [auth.rs], with the types of
      [lib.rs], [notice.rs] and [redirect.rs].  The authenticator of the application is a class.
    - [V5Frame]: what the operations of the MQTT 5 session state leave alone.
    - [V5AliasCache], [V5AliasAgreement]: topic aliases.
    - [V5Invariant], [V5Handlers], [V5Requests], [V5CleanProofs]: the invariant of the MQTT 5
      session state, with its publish quotas, and the rules of every operation.
    - [V5SessionSafety]: the MQTT 5 session as a transition system, and its theorems;
      [V5Delivery]: that it reports an incoming QoS 2 publish exactly once.
    - [Reconnect]: [native-wrappers/wrapper-core/src/reconnect.rs], when and how often a wrapper
      connects again; the wrapper's error type is a class.
    - [V5Srv]: the answers of [rumqttc-v5/src/srv.rs], with the parser of IP addresses of the
      standard library; the generator of random numbers is a class with its laws.
    - [V5Redirect]: [rumqttc-v5/src/redirect.rs], server references, endpoint keys and target
      profiles; the parser [http::Uri] is a parameter.

    The environment [Env] of the loop is a parameter of its operations: wherever the loop reads
    the clock or waits, the next [Answer] says what has arrived in the channels, what the socket
    has, and how the transport or store operation ends: done, failed, timed out, or not before
    the application drops the poll ([Dropped]).  A store operation that fails or is dropped may
    have taken effect.  Theorems hold for every environment [env_ok], one whose frames are what
    the codec decodes, whose requests are what client handles send, and whose clock and disconnect
    timeouts stay below half the range of [Instant], since [Instant::now() + timeout] panics on
    overflow.  The store and the
    settled notices are in the [World] that outlives a poll.

    ** What is shown

    - Primitives and topics: encodings round-trip, decoding is bounded and total, string
      validation decides its declarative specification, and so does topic matching, except that
      [$] topics are matched by no filter ([dollar_divergence]).
    - Codec: every valid packet round-trips at exactly its announced size; reading arbitrary
      bytes never panics, yields only valid packets, and is independent of how the stream is
      cut; writing is transactional.  The same holds of MQTT 5, with two exceptions that are
      theorems of their own: frames without a property length disappear, and PUBLISH reads back
      only with subscription identifiers that [ids_fit] (at most two of them always do).
    - Scheduler: every run is the pushed sequence with control requests moved ahead of blocked
      flow-controlled publishes and nothing else; fences are barriers.
    - Admission: lanes are bounded FIFO queues, admission numbers are consecutive, closing is
      permanent, and the lock-free views agree with the locked state.
    - Sessions: over every sequence of requests, packets, disconnections and resets no
      operation panics, identifiers stay unique and accounted for, the window is respected,
      refused packets change nothing, acknowledgements complete exactly their own flow, QoS 2
      publishes are reported exactly once with automatic acknowledgements, [clean] loses nothing
      and replay restores the session.
    - Persisted sessions: the format round-trips and every accepted encoding is the canonical
      one; a checkpoint is accepted exactly when it fits the options and its identifiers are
      distinct, non-zero and within the window; a restart from the checkpoint of a reachable
      session recovers every unfinished request, its identifiers and the QoS 2 receipts.
    - Event loop: over every sequence of polls, in every environment and dropped at any wait, it
      never panics; identifiers in the state and in the queues are distinct and exactly the
      reserved ones; everything it ever leaves in the store can be restored; a request is on the
      wire only after it is in the store, and notices complete only after that too; a lost
      connection loses no request, and the order of retransmission is kept when no other one is
      under way; a request that may be sent is sent by the next poll; a ready frame is passed over
      at most nine times.

    - MQTT 5 publish admission: the budget is exact in every reachable state, what is queued was
      allowed by the capabilities in force, no wake-up is lost but those of two drains that announce
      nothing ([silent_drain_strands]), and a refusal leaves no trace.
    - MQTT 5 topic aliases: over any requests and packets of a connection the broker resolves
      every publish to the topic it was asked for; which topics are sent by alias alone is what
      a list of the first, or of the most recently used, topics says.
    - MQTT 5 sessions: over every sequence of connections, requests, replayed requests, packets,
      disconnections, resets and restorations, with a synchronous or asynchronous authenticator
      that answers anything, no operation panics; identifiers stay unique and accounted for; the
      publishes in flight in either direction are counted exactly and within the receive maximum;
      with automatic acknowledgements a QoS 2 publish received is refused with the right reason or
      reported exactly once; a
      checkpoint is accepted exactly when it fits, and restored whole or refused without a trace.

    - Reconnect policy: delays are the capped exponential of the failures since the last reset;
      retries are counted exactly and never exceed the budget.
    - Redirects: an accepted authority is read back from what it prints; a profile is made exactly
      for the transports of the reference's scheme and carries no credentials; the targets of an
      SRV answer are all the usable ones, in the order of their priorities.

    ** Bounds and fuel

    The loops over bytes recurse on the bytes; the remaining-length writer has fuel four plus
    one, which suffices because a length has at most four groups of seven bits (proved with the
    round trip); [find_free_loop] has as many steps as there are blocks in the range, which is
    what its [while] loop is bounded by; the property loop of MQTT 5 and its loops over codes and
    filters have one step per byte left, and each step consumes one or fails; [trailing_zeros] has fuel 64, the width of a block.
    The loop of [select], which has no bound in the code, has a number of turns; every theorem
    about polls is for all numbers of turns, a poll that has used them up counts as dropped, and
    [poll_turns] shows that once a poll ends more turns change nothing.  The other loops of the
    event loop are bounded in the code by the batch sizes their definitions recurse on.  The loops
    over SRV targets have one turn per target, and each turn removes one.

    ** What is not modelled

    Transports (sockets, TLS, proxies, websockets), the diagnostics of the event loop and its
    features [ordered-shutdown], [session-recovery] and [tracing], the blocking and async
    variants of sending into a lane, client handles, the MQTT 5 event loop with its handling of redirects
    and lookups, the file store, and of the native wrappers everything but the reconnect policy.  Of MQTT 5 admission, the variant without [bounded-publish] and rendezvous
    channels; of persisted sessions, [allocated_size].  The loop theorems leave out two public operations in states in which they break
    the invariant ([V4LoopLive]): [reset_session_state] while connected and
    [drain_pending_as_failed] while requests wait to be sent again.  The next parts planned are
    the event loop of MQTT 5, then the client handles. *)

From Stdlib Require Export ZArith Lia ZifyBool.
From stdpp Require Export base list gmap.

#[global] Open Scope Z_scope.

(** * Machine integers

    [u8], [u16], [u32], [u64] and [usize] values are [Z]s; the predicates below say when a [Z] is a
    value of the type.  Arithmetic that the code can overflow is written out where it occurs. *)

Abbreviation u8 := Z (only parsing).
Abbreviation u16 := Z (only parsing).
Abbreviation u32 := Z (only parsing).
Abbreviation u64 := Z (only parsing).
Abbreviation usize := Z (only parsing).

Definition is_u8 (x : Z) : Prop := 0 ≤ x < 256.
Definition is_u16 (x : Z) : Prop := 0 ≤ x < 65536.
Definition is_u32 (x : Z) : Prop := 0 ≤ x < 4294967296.

Definition u16_MAX : Z := 65535.

(** * Byte buffers

    A [Bytes], [BytesMut], [&[u8]] or [String] value is the sequence of bytes it holds. *)

Abbreviation Bytes := (list Z) (only parsing).

Definition blen {A} (bs : list A) : Z := Z.of_nat (length bs).

(** * Results, panics and the state monad

    [outcome E A] is Rust's [Result<A, E>] with a third constructor for a panic (an
    out-of-bounds index, a failed [expect], an arithmetic overflow).  [M S E A] is a method with
    a [&mut S] receiver: the state is returned on the error paths too, so what an operation
    leaves behind when it fails is part of the model. *)

Inductive outcome (E A : Type) : Type :=
| Ok (a : A)
| Err (e : E)
| Panic.
Arguments Ok {E A} a.
Arguments Err {E A} e.
Arguments Panic {E A}.

Definition M (S E A : Type) : Type := S → outcome E A * S.

#[global] Instance outcome_ret E : MRet (outcome E) := λ A a, Ok a.
#[global] Instance outcome_bind E : MBind (outcome E) := λ A B k m,
  match m with Ok a => k a | Err e => Err e | Panic => Panic end.

#[global] Instance M_ret S E : MRet (M S E) := λ A a s, (Ok a, s).
#[global] Instance M_bind S E : MBind (M S E) := λ A B k m s,
  match m s with
  | (Ok a, s') => k a s'
  | (Err e, s') => (Err e, s')
  | (Panic, s') => (Panic, s')
  end.

Definition lift {S E A} (r : outcome E A) : M S E A := λ s, (r, s).
Definition mfail {S E A} (e : E) : M S E A := lift (Err e).
Definition mpanic {S E A} : M S E A := lift Panic.
Definition mget {S E} : M S E S := λ s, (Ok s, s).
Definition mput {S E} (s : S) : M S E unit := λ _, (Ok tt, s).
Definition mmodify {S E} (f : S → S) : M S E unit := λ s, (Ok tt, f s).

(** [Result::map_err]. *)
Definition outcome_map_err {E E' A} (f : E → E') (r : outcome E A) : outcome E' A :=
  match r with Ok a => Ok a | Err e => Err (f e) | Panic => Panic end.
Definition map_err {S E E' A} (f : E → E') (m : M S E A) : M S E' A :=
  λ s, let '(r, s') := m s in (outcome_map_err f r, s').

(** [Option::ok_or]. *)
Definition ok_or {E A} (o : option A) (e : E) : outcome E A :=
  match o with Some a => Ok a | None => Err e end.

(** [Option::expect], [Vec] indexing: a panic on [None]. *)
Definition expect {E A} (o : option A) : outcome E A :=
  match o with Some a => Ok a | None => Panic end.

Definition is_ok {E A} (r : outcome E A) : bool :=
  match r with Ok _ => true | _ => false end.

Definition no_panic {E A} (r : outcome E A) : Prop := r ≠ Panic.

Lemma bind_run {S E A B} (m : M S E A) (k : A → M S E B) s :
  (m ≫= k) s = match m s with
               | (Ok a, s') => k a s'
               | (Err e, s') => (Err e, s')
               | (Panic, s') => (Panic, s')
               end.
Proof. reflexivity. Qed.

Lemma bind_ok {S E A B} (m : M S E A) (k : A → M S E B) s a s' :
  m s = (Ok a, s') → (m ≫= k) s = k a s'.
Proof. intros H. by rewrite bind_run, H. Qed.

Lemma bind_err {S E A B} (m : M S E A) (k : A → M S E B) s e s' :
  m s = (Err e, s') → (m ≫= k) s = (Err e, s').
Proof. intros H. by rewrite bind_run, H. Qed.

Lemma map_err_run {S E E' A} (f : E → E') (m : M S E A) s :
  map_err f m s = (outcome_map_err f (m s).1, (m s).2).
Proof. unfold map_err. by destruct (m s). Qed.

Lemma ret_run {S E A} (a : A) (s : S) : (mret a : M S E A) s = (Ok a, s).
Proof. reflexivity. Qed.

(** * Weakest preconditions

    [wp m Q X s]: running [m] from [s] does not panic, establishes [Q] when it returns [Ok] and
    [X] when it returns [Err].  Both postconditions see the final state. *)

Definition wp {S E A} (m : M S E A) (Q : A → S → Prop) (X : E → S → Prop) (s : S) : Prop :=
  match m s with
  | (Ok a, s') => Q a s'
  | (Err e, s') => X e s'
  | (Panic, _) => False
  end.

Section Wp.
  Context {S E A B : Type}.
  Implicit Types (m : M S E A) (k : A → M S E B) (Q : B → S → Prop) (X : E → S → Prop).

Lemma wp_ret (a : A) (Q : A → S → Prop) X s : Q a s → wp (mret a) Q X s.
  Proof. done. Qed.

Lemma wp_bind m k Q X s :
    wp m (λ a s', wp (k a) Q X s') X s → wp (m ≫= k) Q X s.
  Proof. unfold wp. rewrite bind_run. by destruct (m s) as [[]]. Qed.

Lemma wp_bind_inv m k Q X s :
    wp (m ≫= k) Q X s → wp m (λ a s', wp (k a) Q X s') X s.
  Proof. unfold wp. rewrite bind_run. by destruct (m s) as [[]]. Qed.

Lemma wp_mono m (Q Q' : A → S → Prop) X X' s :
    wp m Q X s →
    (∀ a s', Q a s' → Q' a s') → (∀ e s', X e s' → X' e s') →
    wp m Q' X' s.
  Proof. unfold wp. destruct (m s) as [[]]; naive_solver. Qed.

Lemma wp_fail (e : E) (Q : A → S → Prop) X s : X e s → wp (mfail e) Q X s.
  Proof. done. Qed.

Lemma wp_get (Q : S → S → Prop) X s : Q s s → wp (mget (E:=E)) Q X s.
  Proof. done. Qed.

Lemma wp_modify f (Q : unit → S → Prop) X s : Q tt (f s) → wp (mmodify (E:=E) f) Q X s.
  Proof. done. Qed.

Lemma wp_lift (r : outcome E A) (Q : A → S → Prop) X s :
    match r with Ok a => Q a s | Err e => X e s | Panic => False end → wp (lift r) Q X s.
  Proof. unfold wp, lift. by destruct r. Qed.

Lemma wp_no_panic m (R : A → S → Prop) X s : wp m R X s → (m s).1 ≠ Panic.
  Proof. unfold wp. by destruct (m s) as [[]]. Qed.

Lemma wp_ok m (R : A → S → Prop) X s a s' : wp m R X s → m s = (Ok a, s') → R a s'.
  Proof. unfold wp. intros H Hm. by rewrite Hm in H. Qed.

Lemma wp_err m (R : A → S → Prop) X s e s' : wp m R X s → m s = (Err e, s') → X e s'.
  Proof. unfold wp. intros H Hm. by rewrite Hm in H. Qed.
End Wp.

Lemma wp_map_err {S E E' A} (f : E → E') (m : M S E A) Q X s :
  wp m Q (λ e s', X (f e) s') s → wp (map_err f m) Q X s.
Proof. unfold wp, map_err. by destruct (m s) as [[]]. Qed.

(** * Encoders and decoders

    [writes m out a]: [m] appends exactly [out] to any buffer and returns [a].
    [reads m inp a]: [m] consumes exactly [inp] from the front of any stream that starts with
    it and returns [a].  Both compose along [mbind], which is how every round trip of the codec
    is proved. *)

Definition writes {E A} (m : M Bytes E A) (out : Bytes) (a : A) : Prop :=
  ∀ s, m s = (Ok a, s ++ out).

Definition reads {E A} (m : M Bytes E A) (inp : Bytes) (a : A) : Prop :=
  ∀ rest, m (inp ++ rest) = (Ok a, rest).

Section Codec.
  Context {E A B : Type}.
  Implicit Types (m : M Bytes E A) (k : A → M Bytes E B).

Lemma writes_ret (a : A) : writes (E:=E) (mret a) [] a.
  Proof. intros s. by rewrite app_nil_r. Qed.

Lemma writes_bind m k o1 o2 a b :
    writes m o1 a → writes (k a) o2 b → writes (m ≫= k) (o1 ++ o2) b.
  Proof. intros Hm Hk s. by rewrite bind_run, Hm, Hk, (assoc_L _). Qed.

Lemma writes_lift (r : outcome E A) a : r = Ok a → writes (lift r) [] a.
  Proof. intros -> s. by rewrite app_nil_r. Qed.

Lemma reads_ret (a : A) : reads (E:=E) (mret a) [] a.
  Proof. done. Qed.

Lemma reads_bind m k i1 i2 a b :
    reads m i1 a → reads (k a) i2 b → reads (m ≫= k) (i1 ++ i2) b.
  Proof. intros Hm Hk rest. by rewrite bind_run, <- (assoc_L _), Hm. Qed.

Lemma reads_bind_nil m k i a b :
    reads m [] a → reads (k a) i b → reads (m ≫= k) i b.
  Proof. apply (reads_bind m k [] i). Qed.

Lemma reads_lift (r : outcome E A) a : r = Ok a → reads (lift r) [] a.
  Proof. by intros ->. Qed.
End Codec.

Lemma writes_map_err {E E' A} (f : E → E') (m : M Bytes E A) out a :
  writes m out a → writes (map_err f m) out a.
Proof. intros H s. by rewrite map_err_run, H. Qed.

Lemma reads_map_err {E E' A} (f : E → E') (m : M Bytes E A) inp a :
  reads m inp a → reads (map_err f m) inp a.
Proof. intros H s. by rewrite map_err_run, H. Qed.

Create HintDb codec.
#[export] Hint Resolve writes_ret reads_ret writes_map_err reads_map_err : codec.

(** * Lists and lengths *)

Lemma blen_nil {A} : blen (@nil A) = 0.
Proof. done. Qed.

Lemma blen_cons {A} (x : A) l : blen (x :: l) = 1 + blen l.
Proof. unfold blen. simpl. lia. Qed.

Lemma blen_app {A} (l k : list A) : blen (l ++ k) = blen l + blen k.
Proof. unfold blen. rewrite length_app. lia. Qed.

Lemma blen_nonneg {A} (l : list A) : 0 ≤ blen l.
Proof. unfold blen. lia. Qed.

Lemma blen_to_nat {A} (l : list A) : Z.to_nat (blen l) = length l.
Proof. unfold blen. lia. Qed.

Lemma blen_zero {A} (l : list A) : blen l = 0 → l = [].
Proof. unfold blen. destruct l; simpl; [done | lia]. Qed.

Lemma blen_map {A B} (f : A → B) l : blen (map f l) = blen l.
Proof. unfold blen. by rewrite length_map. Qed.

Lemma blen_drop {A} n (l : list A) : 0 ≤ n ≤ blen l → blen (drop (Z.to_nat n) l) = blen l - n.
Proof. unfold blen. rewrite length_drop. lia. Qed.

Lemma blen_take {A} n (l : list A) : 0 ≤ n ≤ blen l → blen (take (Z.to_nat n) l) = n.
Proof. unfold blen. rewrite length_take. lia. Qed.

Create Rewrite HintDb blen.
#[global] Hint Rewrite @blen_nil @blen_cons @blen_app @blen_map : blen.

(** Decide linear goals over buffer lengths. *)
Ltac blia :=
  repeat match goal with
  | l : list _ |- _ =>
      lazymatch goal with
      | H : 0 ≤ blen l |- _ => fail
      | _ => pose proof (blen_nonneg l)
      end
  end;
  autorewrite with blen in *; lia.

(** * Bit operations on bytes *)

Lemma land_7F b : Z.land b 0x7F = b mod 128.
Proof. apply (Z.land_ones b 7). lia. Qed.

Lemma land_FF n : Z.land n 0xFF = n mod 256.
Proof. apply (Z.land_ones n 8). lia. Qed.

Lemma shiftr_8 n : Z.shiftr n 8 = n / 256.
Proof. by rewrite Z.shiftr_div_pow2. Qed.

(** [Z.lor] of a multiple of [2^k] and a value below it is their sum. *)
Lemma lor_shiftl_add a b k : 0 ≤ k → 0 ≤ b < 2 ^ k → Z.lor (Z.shiftl a k) b = a * 2 ^ k + b.
Proof.
  intros Hk Hb. rewrite <- Z.shiftl_mul_pow2 by lia. symmetry. apply Z.add_nocarry_lor.
  apply Z.bits_inj'. intros i Hi. rewrite Z.land_spec, Z.bits_0, Z.shiftl_spec by lia.
  destruct (Z.lt_ge_cases i k).
  - by rewrite (Z.testbit_neg_r a) by lia.
  - destruct (decide (b = 0)) as [->|]; [by rewrite Z.bits_0, andb_false_r|].
    rewrite (Z.bits_above_log2 b), andb_false_r; [done|lia|].
    apply Z.log2_lt_pow2; [lia|].
    apply Z.lt_le_trans with (2 ^ k); [lia|]. apply Z.pow_le_mono_r; lia.
Qed.

Lemma lor_shiftl_8 a b : is_u8 b → Z.lor (Z.shiftl a 8) b = a * 256 + b.
Proof. intros [??]. apply (lor_shiftl_add a b 8); lia. Qed.

(** A property of a byte is decided by evaluating it on the 256 bytes. *)
Lemma forall_u8 (f : Z → bool) :
  forallb f (seqZ 0 256) = true → ∀ b, is_u8 b → f b = true.
Proof.
  intros Hf b Hb. rewrite forallb_forall in Hf. apply Hf.
  apply list_elem_of_In, elem_of_seqZ. unfold is_u8 in Hb. lia.
Qed.

(** [byte_dec f b]: prove [f b = true] for a byte [b] by evaluation. *)
Ltac byte_dec f b := apply (forall_u8 f); [vm_compute; reflexivity|try assumption].

Lemma land_80_zero b : is_u8 b → (Z.land b 0x80 =? 0) = (b <? 128).
Proof.
  intros Hb. apply eqb_prop.
  byte_dec (λ b, Bool.eqb (Z.land b 0x80 =? 0) (b <? 128)) b.
Qed.

Lemma lor_80 b : 0 ≤ b < 128 → Z.lor b 128 = 128 + b.
Proof.
  intros Hb. rewrite Z.lor_comm. change 128 with (Z.shiftl 1 7) at 1.
  rewrite lor_shiftl_add by lia. lia.
Qed.

Lemma length_concat_map_ge {A B} (g : A → list B) (l : list A) :
  (∀ a, g a ≠ []) → (length l ≤ length (concat (map g l)))%nat.
Proof.
  intros Hg. induction l as [|a l IH]; simpl; [done|].
  rewrite length_app. specialize (Hg a). destruct (g a); [done|]. simpl. lia.
Qed.
