(* ===== verification/Utf8.v ===== *)
(** UTF-8: the validator behind [core::str::from_utf8] and a reference encoder.

    The packet codec accepts and produces MQTT strings through [core::str::from_utf8].  This
    file writes out the validation loop of the Rust core library, with the error it reports,
    and proves that it accepts exactly the encodings of sequences of Unicode scalar values. *)

From S2P Require Import Prelude.

(** [core::str::Utf8Error]. *)
Record Utf8Error := { valid_up_to : usize; error_len : option Z }.

#[global] Instance Utf8Error_eq_dec : EqDecision Utf8Error.
Proof. solve_decision. Defined.

(** [utf8_char_width]: the length a leading byte promises, [0] for an invalid one. *)
Definition utf8_char_width (b : u8) : Z :=
  if b <? 128 then 1
  else if (194 <=? b) && (b <=? 223) then 2
  else if (224 <=? b) && (b <=? 239) then 3
  else if (240 <=? b) && (b <=? 244) then 4
  else 0.

(** [(b as i8) < -64]: a continuation byte [0b10xx_xxxx]. *)
Definition is_cont (b : u8) : bool := (128 <=? b) && (b <=? 191).

Definition second3_ok (first b : u8) : bool :=
  ((first =? 224) && (160 <=? b) && (b <=? 191))
  || ((225 <=? first) && (first <=? 236) && (128 <=? b) && (b <=? 191))
  || ((first =? 237) && (128 <=? b) && (b <=? 159))
  || ((238 <=? first) && (first <=? 239) && (128 <=? b) && (b <=? 191)).

Definition second4_ok (first b : u8) : bool :=
  ((first =? 240) && (144 <=? b) && (b <=? 191))
  || ((241 <=? first) && (first <=? 243) && (128 <=? b) && (b <=? 191))
  || ((first =? 244) && (128 <=? b) && (b <=? 143)).

(** [run_utf8_validation]: [None] when the whole of [v] is valid. *)
Fixpoint run_utf8_validation (v : Bytes) (index : usize) : option Utf8Error :=
  let err n := Some {| valid_up_to := index; error_len := n |} in
  match v with
  | [] => None
  | first :: t1 =>
      if first <? 128 then run_utf8_validation t1 (index + 1)
      else if utf8_char_width first =? 2 then
        match t1 with
        | [] => err None
        | b1 :: t2 =>
            if is_cont b1 then run_utf8_validation t2 (index + 2) else err (Some 1)
        end
      else if utf8_char_width first =? 3 then
        match t1 with
        | [] => err None
        | b1 :: t2 =>
            if second3_ok first b1 then
              match t2 with
              | [] => err None
              | b2 :: t3 =>
                  if is_cont b2 then run_utf8_validation t3 (index + 3) else err (Some 2)
              end
            else err (Some 1)
        end
      else if utf8_char_width first =? 4 then
        match t1 with
        | [] => err None
        | b1 :: t2 =>
            if second4_ok first b1 then
              match t2 with
              | [] => err None
              | b2 :: t3 =>
                  if is_cont b2 then
                    match t3 with
                    | [] => err None
                    | b3 :: t4 =>
                        if is_cont b3 then run_utf8_validation t4 (index + 4)
                        else err (Some 3)
                    end
                  else err (Some 2)
              end
            else err (Some 1)
        end
      else err (Some 1)
  end.

Definition from_utf8 (v : Bytes) : outcome Utf8Error Bytes :=
  match run_utf8_validation v 0 with
  | Some e => Err e
  | None => Ok v
  end.

(** A byte string that is a Rust [String]. *)
Definition utf8 (v : Bytes) : Prop := run_utf8_validation v 0 = None.

(** * The reference encoder *)

Definition scalar_value (c : Z) : Prop :=
  0 ≤ c < 0xD800 ∨ 0xE000 ≤ c < 0x110000.

Definition encode_char (c : Z) : Bytes :=
  if c <? 0x80 then [c]
  else if c <? 0x800 then [192 + c / 64; 128 + c mod 64]
  else if c <? 0x10000 then [224 + c / 4096; 128 + c / 64 mod 64; 128 + c mod 64]
  else [240 + c / 262144; 128 + c / 4096 mod 64; 128 + c / 64 mod 64; 128 + c mod 64].

Definition encode_str (cs : list Z) : Bytes := concat (map encode_char cs).

Lemma run_utf8_index v i j :
  run_utf8_validation v i = None → run_utf8_validation v j = None.
Proof.
  revert i j. induction v as [v IH] using (induction_ltof1 _ length). unfold ltof in IH.
  intros i j. destruct v as [|a [|b [|c [|d v]]]]; simpl;
    repeat case_match; try done; eapply IH; simpl; lia.
Qed.

(** Encodings are accepted. *)
Lemma run_utf8_encode_char c rest i :
  scalar_value c →
  run_utf8_validation (encode_char c ++ rest) i = None ↔ run_utf8_validation rest i = None.
Proof.
  intros Hc.
  cut (∃ k, run_utf8_validation (encode_char c ++ rest) i = run_utf8_validation rest k).
  { intros [k ->]. split; apply run_utf8_index. }
  unfold encode_char, scalar_value in *.
  destruct (Z.ltb_spec c 0x80); [|destruct (Z.ltb_spec c 0x800);
    [|destruct (Z.ltb_spec c 0x10000)]]; simpl; eexists.
  - by rewrite (proj2 (Z.ltb_lt _ _)).
  - rewrite (proj2 (Z.ltb_ge _ _)) by (Z.div_mod_to_equations; lia).
    replace (utf8_char_width _) with 2
      by (unfold utf8_char_width; repeat case_match; Z.div_mod_to_equations; lia).
    simpl. replace (is_cont _) with true by (unfold is_cont; Z.div_mod_to_equations; lia).
    reflexivity.
  - rewrite (proj2 (Z.ltb_ge _ _)) by (Z.div_mod_to_equations; lia).
    replace (utf8_char_width _) with 3
      by (unfold utf8_char_width; repeat case_match; Z.div_mod_to_equations; lia).
    simpl. replace (second3_ok _ _) with true
      by (unfold second3_ok; Z.div_mod_to_equations; lia).
    replace (is_cont _) with true by (unfold is_cont; Z.div_mod_to_equations; lia).
    reflexivity.
  - rewrite (proj2 (Z.ltb_ge _ _)) by (Z.div_mod_to_equations; lia).
    replace (utf8_char_width _) with 4
      by (unfold utf8_char_width; repeat case_match; Z.div_mod_to_equations; lia).
    simpl. replace (second4_ok _ _) with true
      by (unfold second4_ok; Z.div_mod_to_equations; lia).
    replace (is_cont _) with true by (unfold is_cont; Z.div_mod_to_equations; lia).
    replace (is_cont (128 + c mod 64)) with true by (unfold is_cont; Z.div_mod_to_equations; lia).
    reflexivity.
Qed.

Lemma run_utf8_encode_str cs rest i :
  Forall scalar_value cs →
  run_utf8_validation (encode_str cs ++ rest) i = None ↔ run_utf8_validation rest i = None.
Proof.
  induction 1 as [|c cs Hc Hcs IH]; [done|].
  unfold encode_str in *. simpl. rewrite <- (assoc_L _), run_utf8_encode_char by done. done.
Qed.

Lemma utf8_char_width_inv b w :
  (utf8_char_width b =? w) = true → 2 ≤ w →
  (w = 2 ∧ 194 ≤ b ≤ 223) ∨ (w = 3 ∧ 224 ≤ b ≤ 239) ∨ (w = 4 ∧ 240 ≤ b ≤ 244).
Proof. unfold utf8_char_width. repeat case_match; lia. Qed.

(** One step of the validator peels off the encoding of one scalar value. *)
Lemma run_utf8_step v i :
  Forall is_u8 v → v ≠ [] → run_utf8_validation v i = None →
  ∃ c rest, scalar_value c ∧ v = encode_char c ++ rest ∧
    run_utf8_validation rest i = None.
Proof.
  intros Hv Hne Hrun.
  cut (∃ c rest k, scalar_value c ∧ v = encode_char c ++ rest ∧
    run_utf8_validation rest k = None).
  { intros (c & rest & k & ? & ? & ?). exists c, rest. eauto using run_utf8_index. }
  destruct v as [|a t1]; [done|]. simpl in Hrun.
  apply Forall_cons in Hv as [Ha Hv]. unfold is_u8 in Ha.
  case_match.
  { exists a, t1. eexists. repeat split; [unfold scalar_value; lia| |exact Hrun].
    unfold encode_char. by rewrite (proj2 (Z.ltb_lt a 0x80)) by lia. }
  destruct (_ =? 2) eqn:Hw; [|clear Hw; destruct (_ =? 3) eqn:Hw;
    [|clear Hw; destruct (_ =? 4) eqn:Hw; [|done]]];
    apply utf8_char_width_inv in Hw; try lia.
  - destruct t1 as [|b t2]; [done|]. case_match; [|done].
    unfold is_cont in *.
    exists ((a - 192) * 64 + (b - 128)), t2. eexists.
    repeat split; [unfold scalar_value; lia| |exact Hrun].
    unfold encode_char.
    rewrite (proj2 (Z.ltb_ge _ 0x80)), (proj2 (Z.ltb_lt _ 0x800)) by lia.
    simpl. repeat f_equal; Z.div_mod_to_equations; lia.
  - destruct t1 as [|b t2]; [done|]. case_match; [|done].
    destruct t2 as [|c t3]; [done|]. case_match; [|done].
    unfold is_cont, second3_ok in *.
    exists ((a - 224) * 4096 + (b - 128) * 64 + (c - 128)), t3. eexists.
    repeat split; [unfold scalar_value; lia| |exact Hrun].
    unfold encode_char.
    rewrite (proj2 (Z.ltb_ge _ 0x80)), (proj2 (Z.ltb_ge _ 0x800)),
      (proj2 (Z.ltb_lt _ 0x10000)) by lia.
    simpl. repeat f_equal; Z.div_mod_to_equations; lia.
  - destruct t1 as [|b t2]; [done|]. case_match; [|done].
    destruct t2 as [|c t3]; [done|]. case_match; [|done].
    destruct t3 as [|d t4]; [done|]. case_match; [|done].
    unfold is_cont, second4_ok in *.
    exists ((a - 240) * 262144 + (b - 128) * 4096 + (c - 128) * 64 + (d - 128)), t4. eexists.
    repeat split; [unfold scalar_value; lia| |exact Hrun].
    unfold encode_char.
    rewrite (proj2 (Z.ltb_ge _ 0x80)), (proj2 (Z.ltb_ge _ 0x800)),
      (proj2 (Z.ltb_ge _ 0x10000)) by lia.
    simpl. repeat f_equal; Z.div_mod_to_equations; lia.
Qed.

Lemma encode_char_nonempty c : encode_char c ≠ [].
Proof. unfold encode_char. by repeat case_match. Qed.

Lemma encode_char_u8 c : scalar_value c → Forall is_u8 (encode_char c).
Proof.
  intros Hc. unfold scalar_value, encode_char, is_u8 in *.
  repeat case_match; repeat constructor; Z.div_mod_to_equations; lia.
Qed.

(** The validator accepts exactly the encodings of scalar-value sequences. *)
Lemma utf8_spec v :
  Forall is_u8 v → utf8 v ↔ ∃ cs, Forall scalar_value cs ∧ v = encode_str cs.
Proof.
  intros Hv. split.
  - revert Hv. unfold utf8.
    induction v as [v IH] using (induction_ltof1 _ length). unfold ltof in IH.
    intros Hv Hrun. destruct (decide (v = [])) as [->|Hne]; [by exists []|].
    destruct (run_utf8_step v 0 Hv Hne Hrun) as (c & rest & Hc & -> & Hrest).
    apply Forall_app in Hv as [_ Hv].
    destruct (IH rest) as (cs & Hcs & ->); [|done..|].
    { rewrite length_app. pose proof (encode_char_nonempty c).
      destruct (encode_char c); [done|]. simpl. lia. }
    exists (c :: cs). split; [by constructor|done].
  - intros (cs & Hcs & ->). unfold utf8.
    rewrite <- (app_nil_r (encode_str cs)). by apply run_utf8_encode_str.
Qed.

(** An ASCII byte occurs in an encoding exactly where its character does, so searching the
    bytes of a [String] for an ASCII character is searching its characters. *)
Lemma encode_char_ascii c b :
  scalar_value c → 0 ≤ b < 128 → b ∈ encode_char c ↔ c = b.
Proof.
  intros Hc Hb. unfold encode_char, scalar_value in *.
  repeat case_match; rewrite ?elem_of_cons, elem_of_nil;
    (split; [intros; Z.div_mod_to_equations; lia|intros; subst; lia]).
Qed.

Lemma encode_str_ascii cs b :
  Forall scalar_value cs → 0 ≤ b < 128 → b ∈ encode_str cs ↔ b ∈ cs.
Proof.
  intros Hcs Hb. induction Hcs as [|c cs Hc Hcs IH]; [done|].
  unfold encode_str in *. simpl.
  rewrite elem_of_app, elem_of_cons, IH, encode_char_ascii by done. intuition congruence.
Qed.

