(* ===== verification/Primitives.v ===== *)
(** [mqttbytes-core/src/primitives.rs], [ping.rs] and [qos.rs]: fixed headers, the variable
    byte integer, length-prefixed fields and the scalar readers every packet is built from.

    A function with a [&mut Bytes] or [&mut BytesMut] argument is an [M Bytes Error _] action on
    that buffer; an [Iter<u8>] is passed by value, so its functions are plain. *)

From S2P Require Import Prelude.
From S2P Require Import Utf8.

(** * Data *)

(** [primitives::Error]. *)
Inductive PrimitiveError :=
| PE_PayloadTooLong (actual max : usize)
| PE_BoundaryCrossed (n : usize)
| PE_MalformedPacket
| PE_MalformedRemainingLength
| PE_TopicNotUtf8 (source : Utf8Error)
| PE_InsufficientBytes (n : usize).

Record ParsedFixedHeader := {
  pfh_byte1 : u8;
  pfh_remaining_len_len : usize;
  pfh_remaining_len : usize;
}.

Definition ParsedFixedHeader_frame_length (h : ParsedFixedHeader) : usize :=
  1 + pfh_remaining_len_len h + pfh_remaining_len h.

(** [qos.rs]. *)
Inductive QoS := AtMostOnce | AtLeastOnce | ExactlyOnce.

#[global] Instance QoS_eq_dec : EqDecision QoS.
Proof. solve_decision. Defined.

(** [qos as u8]. *)
Definition QoS_as_u8 (q : QoS) : u8 :=
  match q with AtMostOnce => 0 | AtLeastOnce => 1 | ExactlyOnce => 2 end.

Definition core_qos (num : u8) : option QoS :=
  if num =? 0 then Some AtMostOnce
  else if num =? 1 then Some AtLeastOnce
  else if num =? 2 then Some ExactlyOnce
  else None.

(** * Buffer accessors of [bytes::{Buf, BufMut}]

    [advance] and [split_to] panic past the end, the [get_*] are big endian. *)

Section Buffer.
  Context {E : Type}.

Definition get_u8 : M Bytes E u8 := λ s,
    match s with
    | b :: rest => (Ok b, rest)
    | _ => (Panic, s)
    end.

Definition get_u16 : M Bytes E u16 := λ s,
    match s with
    | a :: b :: rest => (Ok (Z.lor (Z.shiftl a 8) b), rest)
    | _ => (Panic, s)
    end.

Definition get_u32 : M Bytes E u32 := λ s,
    match s with
    | a :: b :: c :: d :: rest =>
        (Ok (Z.lor (Z.shiftl (Z.lor (Z.shiftl (Z.lor (Z.shiftl a 8) b) 8) c) 8) d), rest)
    | _ => (Panic, s)
    end.

Definition advance (n : usize) : M Bytes E unit := λ s,
    if blen s <? n then (Panic, s) else (Ok tt, drop (Z.to_nat n) s).

Definition split_to (n : usize) : M Bytes E Bytes := λ s,
    if blen s <? n then (Panic, s) else (Ok (take (Z.to_nat n) s), drop (Z.to_nat n) s).

Definition put_slice (bs : Bytes) : M Bytes E unit := mmodify (λ s, s ++ bs).

Definition put_u8 (b : u8) : M Bytes E unit := put_slice [b].

Definition put_u16 (n : u16) : M Bytes E unit :=
    put_slice [Z.shiftr n 8; Z.land n 0xFF].

Definition put_u32 (n : u32) : M Bytes E unit :=
    put_slice [Z.shiftr n 24; Z.land (Z.shiftr n 16) 0xFF; Z.land (Z.shiftr n 8) 0xFF;
               Z.land n 0xFF].

  (** [buffer[i] = b]. *)
Definition set_index (i : usize) (b : u8) : M Bytes E unit := λ s,
    if (0 <=? i) && (i <? blen s) then (Ok tt, <[Z.to_nat i := b]> s) else (Panic, s).

Definition truncate (n : usize) : M Bytes E unit := mmodify (take (Z.to_nat n)).
End Buffer.

(** * Framing *)

(** The loop of [length]; [done] is [false] on entry, so running out of bytes is
    [InsufficientBytes(1)]. *)
Fixpoint length_loop (stream : Bytes) (len len_len shift : usize)
    : outcome PrimitiveError (usize * usize) :=
  match stream with
  | [] => Err (PE_InsufficientBytes 1)
  | byte :: rest =>
      let len_len := len_len + 1 in
      let len := len + Z.shiftl (Z.land byte 0x7F) shift in
      if Z.land byte 0x80 =? 0 then Ok (len_len, len)
      else
        let shift := shift + 7 in
        if 21 <? shift then Err PE_MalformedRemainingLength
        else length_loop rest len len_len shift
  end.

(** [primitives::length]. *)
Definition length_ (stream : Bytes) : outcome PrimitiveError (usize * usize) :=
  length_loop stream 0 0 0.

Definition core_parse_fixed_header (stream : Bytes)
    : outcome PrimitiveError ParsedFixedHeader :=
  let stream_len := blen stream in
  if stream_len <? 2 then Err (PE_InsufficientBytes (2 - stream_len))
  else
    match stream with
    | [] => Err (PE_InsufficientBytes 1)
    | byte1 :: stream =>
        '(remaining_len_len, remaining_len) ← length_ stream;
        Ok {| pfh_byte1 := byte1;
              pfh_remaining_len_len := remaining_len_len;
              pfh_remaining_len := remaining_len |}
    end.

(** [primitives::check]. *)
Definition core_check (stream : Bytes) : outcome PrimitiveError ParsedFixedHeader :=
  let stream_len := blen stream in
  fixed_header ← core_parse_fixed_header stream;
  let frame_length := ParsedFixedHeader_frame_length fixed_header in
  if stream_len <? frame_length
  then Err (PE_InsufficientBytes (frame_length - stream_len))
  else Ok fixed_header.

Definition core_read_u16 : M Bytes PrimitiveError u16 := λ s,
  if blen s <? 2 then (Err PE_MalformedPacket, s) else get_u16 s.

Definition core_read_u8 : M Bytes PrimitiveError u8 := λ s,
  if blen s =? 0 then (Err PE_MalformedPacket, s) else get_u8 s.

Definition core_read_u32 : M Bytes PrimitiveError u32 := λ s,
  if blen s <? 4 then (Err PE_MalformedPacket, s) else get_u32 s.

Definition core_read_mqtt_bytes : M Bytes PrimitiveError Bytes :=
  len ← core_read_u16;
  stream ← mget;
  if blen stream <? len then mfail (PE_BoundaryCrossed len)
  else split_to len.

(** [bytes.contains(&0)]. *)
Definition contains_byte (b : u8) (bs : Bytes) : bool := existsb (Z.eqb b) bs.

Definition validate_mqtt_string (bytes : Bytes) : outcome PrimitiveError Bytes :=
  string ← outcome_map_err PE_TopicNotUtf8 (from_utf8 bytes);
  if contains_byte 0 bytes then Err PE_MalformedPacket else Ok string.

Definition core_read_mqtt_string : M Bytes PrimitiveError Bytes :=
  s ← core_read_mqtt_bytes;
  lift (validate_mqtt_string s).

Definition core_write_mqtt_bytes (bytes : Bytes) : M Bytes PrimitiveError unit :=
  if u16_MAX <? blen bytes then mfail (PE_PayloadTooLong (blen bytes) u16_MAX)
  else
    put_u16 (blen bytes);;
    put_slice bytes.

Definition core_write_mqtt_string (string : Bytes) : M Bytes PrimitiveError unit :=
  core_write_mqtt_bytes string.

Definition MAX_REMAINING_LENGTH : usize := 268435455.

(** The [while !done] loop of [write_remaining_length].  The fuel is an upper bound on the
    number of iterations; [writes_remaining_length] shows that it is never used up. *)
Fixpoint write_remaining_length_loop (fuel : nat) (x count : usize)
    : M Bytes PrimitiveError usize :=
  match fuel with
  | O => mpanic
  | S fuel =>
      let byte := x mod 128 in
      let x := x / 128 in
      let byte := if 0 <? x then Z.lor byte 128 else byte in
      put_u8 byte;;
      let count := count + 1 in
      if x =? 0 then mret count else write_remaining_length_loop fuel x count
  end.

Definition core_write_remaining_length (len : usize) : M Bytes PrimitiveError usize :=
  if MAX_REMAINING_LENGTH <? len
  then mfail (PE_PayloadTooLong len MAX_REMAINING_LENGTH)
  else write_remaining_length_loop 4 len 0.

Definition len_len (len : usize) : usize :=
  if 2097152 <=? len then 4
  else if 16384 <=? len then 3
  else if 128 <=? len then 2
  else 1.

(** [ping.rs]. *)
Definition PINGREQ_FRAME : Bytes := [0xC0; 0x00].
Definition PINGRESP_FRAME : Bytes := [0xD0; 0x00].

Definition write_pingreq {E} : M Bytes E usize :=
  put_slice PINGREQ_FRAME;; mret (blen PINGREQ_FRAME).
Definition write_pingresp {E} : M Bytes E usize :=
  put_slice PINGRESP_FRAME;; mret (blen PINGRESP_FRAME).

(** * The variable byte integer *)

(** Reference encoding: base-128 digits, least significant first, the top bit of every digit
    but the last set. *)
Definition remaining_length_bytes (n : Z) : Bytes :=
  if n <? 128 then [n]
  else if n <? 16384 then [128 + n mod 128; n / 128]
  else if n <? 2097152 then [128 + n mod 128; 128 + n / 128 mod 128; n / 16384]
  else [128 + n mod 128; 128 + n / 128 mod 128; 128 + n / 16384 mod 128; n / 2097152].

#[global] Arguments remaining_length_bytes : simpl never.

Lemma writes_put_slice {E} bs : writes (E:=E) (put_slice bs) bs tt.
Proof. done. Qed.

Lemma writes_put_u8 {E} b : writes (E:=E) (put_u8 b) [b] tt.
Proof. done. Qed.

Lemma writes_put_u32 {E} n :
  writes (E:=E) (put_u32 n) [n / 2 ^ 24; n / 2 ^ 16 mod 256; n / 256 mod 256; n mod 256] tt.
Proof.
  unfold put_u32. rewrite !land_FF, !Z.shiftr_div_pow2 by lia. apply writes_put_slice.
Qed.

Lemma writes_put_u16 {E} n : writes (E:=E) (put_u16 n) [n / 256; n mod 256] tt.
Proof. unfold put_u16. rewrite shiftr_8, land_FF. apply writes_put_slice. Qed.

#[export] Hint Resolve writes_put_slice writes_put_u8 writes_put_u16 writes_put_u32 : codec.

Lemma blen_remaining_length_bytes n : blen (remaining_length_bytes n) = len_len n.
Proof. unfold remaining_length_bytes, len_len, blen. repeat case_match; simpl; lia. Qed.

Lemma remaining_length_bytes_u8 n :
  0 ≤ n ≤ MAX_REMAINING_LENGTH → Forall is_u8 (remaining_length_bytes n).
Proof.
  unfold remaining_length_bytes, MAX_REMAINING_LENGTH, is_u8. intros.
  repeat case_match; repeat constructor; Z.div_mod_to_equations; lia.
Qed.

(** One iteration of the writing loop. *)
Lemma write_remaining_length_loop_step fuel x count :
  0 ≤ x →
  write_remaining_length_loop (S fuel) x count =
    if x <? 128 then (put_u8 x;; mret (count + 1))
    else (put_u8 (128 + x mod 128);; write_remaining_length_loop fuel (x / 128) (count + 1)).
Proof.
  intros Hx. simpl. destruct (Z.ltb_spec x 128).
  - rewrite Z.div_small, Z.mod_small by lia. done.
  - rewrite lor_80 by (Z.div_mod_to_equations; lia).
    rewrite (proj2 (Z.ltb_lt 0 (x / 128))) by (Z.div_mod_to_equations; lia).
    by rewrite (proj2 (Z.eqb_neq (x / 128) 0)) by (Z.div_mod_to_equations; lia).
Qed.

Lemma writes_remaining_length n :
  0 ≤ n ≤ MAX_REMAINING_LENGTH →
  writes (core_write_remaining_length n) (remaining_length_bytes n) (len_len n).
Proof.
  intros Hn s. unfold MAX_REMAINING_LENGTH in *.
  unfold core_write_remaining_length, MAX_REMAINING_LENGTH.
  rewrite (proj2 (Z.ltb_ge 268435455 n)) by lia.
  unfold remaining_length_bytes, len_len.
  rewrite write_remaining_length_loop_step by lia.
  destruct (Z.ltb_spec n 128).
  { by rewrite (proj2 (Z.leb_gt _ _)), (proj2 (Z.leb_gt _ _)), (proj2 (Z.leb_gt _ _)) by lia. }
  rewrite write_remaining_length_loop_step by (Z.div_mod_to_equations; lia).
  destruct (Z.ltb_spec n 16384).
  { rewrite (proj2 (Z.leb_gt _ _)), (proj2 (Z.leb_gt _ _)), (proj2 (Z.leb_le _ _)) by lia.
    rewrite (proj2 (Z.ltb_lt _ _)) by (Z.div_mod_to_equations; lia).
    unfold put_u8, put_slice, mmodify. rewrite !bind_run. by rewrite <- (assoc_L (++)). }
  rewrite (proj2 (Z.ltb_ge (n / 128) 128)) by (Z.div_mod_to_equations; lia).
  rewrite write_remaining_length_loop_step by (Z.div_mod_to_equations; lia).
  rewrite !Z.div_div by lia.
  destruct (Z.ltb_spec n 2097152).
  { rewrite (proj2 (Z.leb_gt _ _)), (proj2 (Z.leb_le _ _)) by lia.
    rewrite (proj2 (Z.ltb_lt _ _)) by (Z.div_mod_to_equations; lia).
    unfold put_u8, put_slice, mmodify. rewrite !bind_run. by rewrite <- !(assoc_L (++)). }
  rewrite (proj2 (Z.leb_le _ _)) by lia.
  rewrite (proj2 (Z.ltb_ge _ 128)) by (Z.div_mod_to_equations; lia).
  rewrite write_remaining_length_loop_step by (Z.div_mod_to_equations; lia).
  rewrite !Z.div_div by lia.
  rewrite (proj2 (Z.ltb_lt _ _)) by (Z.div_mod_to_equations; lia).
  unfold put_u8, put_slice, mmodify. rewrite !bind_run. by rewrite <- !(assoc_L (++)).
Qed.

(** Arithmetic form of one iteration of the reading loop. *)
Lemma length_loop_cons byte rest len ll shift :
  is_u8 byte → 0 ≤ shift →
  length_loop (byte :: rest) len ll shift =
    if byte <? 128 then Ok (ll + 1, len + byte * 2 ^ shift)
    else if 21 <? shift + 7 then Err PE_MalformedRemainingLength
    else length_loop rest (len + (byte - 128) * 2 ^ shift) (ll + 1) (shift + 7).
Proof.
  intros Hb Hs. simpl. rewrite land_80_zero, land_7F, Z.shiftl_mul_pow2 by done.
  unfold is_u8 in Hb. destruct (Z.ltb_spec byte 128).
  - by rewrite Z.mod_small by lia.
  - replace (byte mod 128) with (byte - 128) by (Z.div_mod_to_equations; lia). done.
Qed.

Lemma length_remaining_length_bytes n rest :
  0 ≤ n ≤ MAX_REMAINING_LENGTH →
  length_ (remaining_length_bytes n ++ rest) = Ok (len_len n, n).
Proof.
  unfold MAX_REMAINING_LENGTH. intros Hn. unfold length_, remaining_length_bytes, len_len.
  destruct (Z.ltb_spec n 128); [|destruct (Z.ltb_spec n 16384);
    [|destruct (Z.ltb_spec n 2097152)]]; cbn [app].
  all: repeat (rewrite length_loop_cons by (unfold is_u8; Z.div_mod_to_equations; lia);
    first [rewrite (proj2 (Z.ltb_lt _ 128)) by (Z.div_mod_to_equations; lia)
          |rewrite (proj2 (Z.ltb_ge _ 128)) by (Z.div_mod_to_equations; lia);
           rewrite (proj2 (Z.ltb_ge 21 _)) by lia]).
  all: repeat case_match; try lia; repeat f_equal; Z.div_mod_to_equations; lia.
Qed.

(** A decoded length uses at most four bytes, fits in 28 bits, and does not depend on what
    follows; the accumulator cannot overflow a 32-bit [usize]. *)
Lemma length_loop_ok stream len ll shift k n :
  Forall is_u8 stream → 0 ≤ shift ≤ 21 → 0 ≤ len < 2 ^ shift →
  length_loop stream len ll shift = Ok (k, n) →
  ll < k ∧ shift + 7 * (k - ll) ≤ 28 ∧ 0 ≤ n < 2 ^ (shift + 7 * (k - ll)) ∧
  k - ll ≤ blen stream ∧
  ∀ t, length_loop (stream ++ t) len ll shift = Ok (k, n).
Proof.
  intros Hall. revert len ll shift. induction Hall as [|b stream Hb Hall IH]; [done|].
  intros len ll shift Hs Hlen. rewrite length_loop_cons by (done || lia).
  assert (H7 : 2 ^ (shift + 7) = 2 ^ shift * 128) by (rewrite Z.pow_add_r; lia).
  pose proof (Z.pow_pos_nonneg 2 shift). unfold is_u8 in Hb.
  destruct (Z.ltb_spec b 128).
  - intros [= <- <-]. replace (shift + 7 * (ll + 1 - ll)) with (shift + 7) by lia.
    rewrite blen_cons. pose proof (blen_nonneg stream). repeat split; try nia.
    intros t. cbn [app]. rewrite length_loop_cons by (unfold is_u8; lia).
    by rewrite (proj2 (Z.ltb_lt b 128)).
  - destruct (Z.ltb_spec 21 (shift + 7)); [done|]. intros Hk.
    apply IH in Hk as (? & ? & Hn & ? & Ht); [|lia|nia].
    replace (shift + 7 + 7 * (k - (ll + 1))) with (shift + 7 * (k - ll)) in * by lia.
    rewrite blen_cons. repeat split; try lia.
    intros t. cbn [app]. rewrite length_loop_cons by (unfold is_u8; lia).
    rewrite (proj2 (Z.ltb_ge b 128)), (proj2 (Z.ltb_ge 21 _)) by lia. apply Ht.
Qed.

Lemma length_ok stream k n :
  Forall is_u8 stream → length_ stream = Ok (k, n) →
  1 ≤ k ≤ 4 ∧ 0 ≤ n ≤ MAX_REMAINING_LENGTH ∧ k ≤ blen stream ∧
  ∀ t, length_ (stream ++ t) = Ok (k, n).
Proof.
  intros Hall Hl. apply length_loop_ok in Hl as (? & ? & [??] & ? & ?); try done; try lia.
  unfold MAX_REMAINING_LENGTH.
  assert (2 ^ (0 + 7 * (k - 0)) ≤ 2 ^ 28) by (apply Z.pow_le_mono_r; lia).
  repeat split; try lia. done.
Qed.

(** * Length-prefixed fields *)

(** What a length-prefixed field can hold. *)
Definition mqtt_bytes (bs : Bytes) : Prop := Forall is_u8 bs ∧ blen bs ≤ u16_MAX.
Definition mqtt_string (s : Bytes) : Prop := mqtt_bytes s ∧ utf8 s ∧ 0 ∉ s.

(** Reference encoding of a field. *)
Definition u16_bytes (n : Z) : Bytes := [n / 256; n mod 256].
Definition field_bytes (bs : Bytes) : Bytes := u16_bytes (blen bs) ++ bs.

Definition be32_bytes (n : Z) : Bytes := [n / 2 ^ 24; n / 2 ^ 16 mod 256; n / 256 mod 256; n mod 256].

#[global] Arguments u16_bytes : simpl never.
#[global] Arguments be32_bytes : simpl never.
#[global] Arguments field_bytes : simpl never.

Lemma u16_bytes_u8 n : is_u16 n → Forall is_u8 (u16_bytes n).
Proof.
  unfold u16_bytes, is_u16, is_u8. intros. repeat constructor; Z.div_mod_to_equations; lia.
Qed.

Lemma be32_bytes_u8 n : is_u32 n → Forall is_u8 (be32_bytes n).
Proof.
  unfold be32_bytes, is_u32, is_u8. intros. repeat constructor; Z.div_mod_to_equations; lia.
Qed.

Lemma blen_u16_bytes n : blen (u16_bytes n) = 2.
Proof. done. Qed.

Lemma blen_be32_bytes n : blen (be32_bytes n) = 4.
Proof. done. Qed.

Lemma blen_field_bytes bs : blen (field_bytes bs) = 2 + blen bs.
Proof. unfold field_bytes. by rewrite blen_app, blen_u16_bytes. Qed.

#[global] Hint Rewrite blen_u16_bytes blen_be32_bytes blen_field_bytes blen_remaining_length_bytes : blen.

Lemma field_bytes_u8 bs : mqtt_bytes bs → Forall is_u8 (field_bytes bs).
Proof.
  intros [Hbs Hl]. apply Forall_app. split; [|done].
  apply u16_bytes_u8. unfold is_u16, u16_MAX in *. pose proof (blen_nonneg bs). lia.
Qed.

Lemma contains_byte_iff b bs : contains_byte b bs = true ↔ b ∈ bs.
Proof.
  unfold contains_byte. rewrite existsb_exists. setoid_rewrite <- list_elem_of_In.
  setoid_rewrite Z.eqb_eq. naive_solver.
Qed.

Lemma contains_byte_false b bs : contains_byte b bs = false ↔ b ∉ bs.
Proof. rewrite <- contains_byte_iff. by rewrite not_true_iff_false. Qed.

Lemma validate_mqtt_string_ok s : utf8 s → 0 ∉ s → validate_mqtt_string s = Ok s.
Proof.
  intros Hu Hz. unfold validate_mqtt_string, from_utf8. rewrite Hu. simpl.
  by rewrite (proj2 (contains_byte_false _ _)).
Qed.

Lemma validate_mqtt_string_inv s r :
  validate_mqtt_string s = Ok r → r = s ∧ utf8 s ∧ 0 ∉ s.
Proof.
  unfold validate_mqtt_string, from_utf8, utf8. destruct (run_utf8_validation s 0); [done|].
  simpl. destruct (contains_byte 0 s) eqn:Hz; [done|].
  intros [= <-]. by apply contains_byte_false in Hz.
Qed.

Lemma reads_read_u8 b : reads core_read_u8 [b] b.
Proof.
  intros rest. unfold core_read_u8. cbn [app]. rewrite blen_cons.
  pose proof (blen_nonneg rest). by rewrite (proj2 (Z.eqb_neq _ _)) by lia.
Qed.

Lemma reads_read_u16 n : is_u16 n → reads core_read_u16 (u16_bytes n) n.
Proof.
  intros Hn rest. unfold core_read_u16, u16_bytes. cbn [app]. rewrite !blen_cons.
  pose proof (blen_nonneg rest). rewrite (proj2 (Z.ltb_ge _ _)) by lia.
  simpl. unfold is_u16 in Hn.
  rewrite lor_shiftl_8 by (unfold is_u8; Z.div_mod_to_equations; lia).
  repeat f_equal. Z.div_mod_to_equations; lia.
Qed.

Lemma get_u32_value a b c d :
  is_u8 a → is_u8 b → is_u8 c → is_u8 d →
  Z.lor (Z.shiftl (Z.lor (Z.shiftl (Z.lor (Z.shiftl a 8) b) 8) c) 8) d =
  ((a * 256 + b) * 256 + c) * 256 + d.
Proof. intros. by rewrite !lor_shiftl_8 by done. Qed.

Lemma reads_read_u32 n : is_u32 n → reads core_read_u32 (be32_bytes n) n.
Proof.
  intros Hn rest. unfold core_read_u32, be32_bytes. cbn [app]. rewrite !blen_cons.
  pose proof (blen_nonneg rest). rewrite (proj2 (Z.ltb_ge _ _)) by lia.
  unfold get_u32. unfold is_u32 in Hn.
  rewrite get_u32_value by (unfold is_u8; Z.div_mod_to_equations; lia).
  repeat f_equal. Z.div_mod_to_equations; lia.
Qed.

Lemma reads_split_to {E} bs : reads (E:=E) (split_to (blen bs)) bs bs.
Proof.
  intros rest. unfold split_to. rewrite blen_app. pose proof (blen_nonneg rest).
  rewrite (proj2 (Z.ltb_ge _ _)) by lia.
  by rewrite blen_to_nat, take_app_length, drop_app_length.
Qed.

Lemma reads_advance {E} bs : reads (E:=E) (advance (blen bs)) bs tt.
Proof.
  intros rest. unfold advance. rewrite blen_app. pose proof (blen_nonneg rest).
  rewrite (proj2 (Z.ltb_ge _ _)) by lia. by rewrite blen_to_nat, drop_app_length.
Qed.

Lemma reads_mqtt_bytes bs : mqtt_bytes bs → reads core_read_mqtt_bytes (field_bytes bs) bs.
Proof.
  intros [_ Hl]. pose proof (blen_nonneg bs). unfold core_read_mqtt_bytes, field_bytes.
  eapply reads_bind; [apply reads_read_u16; unfold is_u16, u16_MAX in *; lia|].
  intros rest. rewrite bind_run. simpl. rewrite blen_app. pose proof (blen_nonneg rest).
  rewrite (proj2 (Z.ltb_ge _ _)) by lia. apply reads_split_to.
Qed.

Lemma reads_mqtt_string s : mqtt_string s → reads core_read_mqtt_string (field_bytes s) s.
Proof.
  intros (Hb & Hu & Hz). rewrite <- (app_nil_r (field_bytes s)).
  eapply reads_bind; [by apply reads_mqtt_bytes|].
  apply reads_lift. by apply validate_mqtt_string_ok.
Qed.

Lemma writes_mqtt_bytes bs :
  blen bs ≤ u16_MAX → writes (core_write_mqtt_bytes bs) (field_bytes bs) tt.
Proof.
  intros Hl. unfold core_write_mqtt_bytes. rewrite (proj2 (Z.ltb_ge _ _)) by lia.
  eapply writes_bind; [apply writes_put_u16|]. apply writes_put_slice.
Qed.

#[export] Hint Resolve reads_read_u8 reads_read_u16 reads_read_u32 reads_mqtt_bytes reads_mqtt_string
  writes_mqtt_bytes writes_remaining_length : codec.

(** * Safety of the readers

    [consumed n s s']: [s'] is what is left of [s] after its first [n] bytes. *)

Definition consumed (n : Z) (s s' : Bytes) : Prop := ∃ p, s = p ++ s' ∧ blen p = n.

Lemma consumed_u8 n s s' : consumed n s s' → Forall is_u8 s → Forall is_u8 s'.
Proof. intros (p & -> & _) H. by apply Forall_app in H as [_ ?]. Qed.

Lemma consumed_blen n s s' : consumed n s s' → blen s' = blen s - n.
Proof. intros (p & -> & Hp). rewrite blen_app. lia. Qed.

Lemma consumed_trans n m s s' s'' :
  consumed n s s' → consumed m s' s'' → consumed (n + m) s s''.
Proof.
  intros (p & -> & Hp) (q & -> & Hq). exists (p ++ q).
  rewrite blen_app, (assoc_L (++)). split; [done|lia].
Qed.

Lemma wp_read_u8 s :
  wp core_read_u8 (λ b s', s = b :: s') (λ e s', e = PE_MalformedPacket ∧ s' = s ∧ s = []) s.
Proof.
  unfold wp, core_read_u8. destruct (Z.eqb_spec (blen s) 0) as [H|H].
  - by apply blen_zero in H as ->.
  - by destruct s.
Qed.

Lemma wp_read_u16 s :
  Forall is_u8 s →
  wp core_read_u16 (λ n s', is_u16 n ∧ s = u16_bytes n ++ s')
    (λ e s', e = PE_MalformedPacket ∧ s' = s ∧ blen s < 2) s.
Proof.
  intros Hs. unfold wp, core_read_u16. destruct (Z.ltb_spec (blen s) 2) as [H|H]; [done|].
  destruct s as [|a [|b s]]; [done..|]. simpl.
  apply Forall_cons in Hs as [Ha Hs]. apply Forall_cons in Hs as [Hb Hs].
  rewrite lor_shiftl_8 by done. unfold is_u8, is_u16, u16_bytes in *. split; [lia|].
  cbn [app]. repeat f_equal; Z.div_mod_to_equations; lia.
Qed.

Lemma wp_read_u32 s :
  Forall is_u8 s →
  wp core_read_u32 (λ n s', is_u32 n ∧ s = be32_bytes n ++ s')
    (λ e s', e = PE_MalformedPacket ∧ s' = s ∧ blen s < 4) s.
Proof.
  intros Hs. unfold wp, core_read_u32. destruct (Z.ltb_spec (blen s) 4) as [H|H]; [done|].
  destruct s as [|a [|b [|c [|d s]]]]; [done..|]. unfold get_u32.
  do 4 (apply Forall_cons in Hs as [? Hs]). rewrite get_u32_value by done.
  unfold is_u8, is_u32, be32_bytes in *. split; [lia|].
  cbn [app]. repeat f_equal; Z.div_mod_to_equations; lia.
Qed.

Lemma wp_split_to {E} n s (X : E → Bytes → Prop) :
  0 ≤ n ≤ blen s → wp (split_to n) (λ bs s', s = bs ++ s' ∧ blen bs = n) X s.
Proof.
  intros Hn. unfold wp, split_to. rewrite (proj2 (Z.ltb_ge _ _)) by lia.
  rewrite take_drop, blen_take by lia. done.
Qed.

Lemma wp_advance {E} n s (X : E → Bytes → Prop) :
  0 ≤ n ≤ blen s → wp (advance n) (λ _ s', consumed n s s') X s.
Proof.
  intros Hn. unfold wp, advance. rewrite (proj2 (Z.ltb_ge _ _)) by lia.
  exists (take (Z.to_nat n) s). by rewrite take_drop, blen_take by lia.
Qed.

Lemma wp_read_mqtt_bytes s :
  Forall is_u8 s →
  wp core_read_mqtt_bytes (λ bs s', mqtt_bytes bs ∧ s = field_bytes bs ++ s')
    (λ e s', e = PE_MalformedPacket ∨ ∃ n, e = PE_BoundaryCrossed n) s.
Proof.
  intros Hs. unfold core_read_mqtt_bytes. apply wp_bind.
  eapply wp_mono; [by apply wp_read_u16| |naive_solver]. intros n s1 [Hn ->].
  apply Forall_app in Hs as [_ Hs].
  apply wp_bind, wp_get. destruct (Z.ltb_spec (blen s1) n).
  - apply wp_fail. eauto.
  - eapply wp_mono; [apply (wp_split_to _ _ (λ _ _, False)); unfold is_u16 in Hn; lia| |done].
    intros bs s2 [-> Hbs]. apply Forall_app in Hs as [Hs _].
    unfold mqtt_bytes, field_bytes, is_u16, u16_MAX in *. rewrite Hbs, (assoc_L (++)).
    repeat split; [done|lia].
Qed.

Lemma wp_read_mqtt_string s :
  Forall is_u8 s →
  wp core_read_mqtt_string (λ bs s', mqtt_string bs ∧ s = field_bytes bs ++ s')
    (λ e s', ∀ n, e ≠ PE_InsufficientBytes n) s.
Proof.
  intros Hs. unfold core_read_mqtt_string. apply wp_bind.
  eapply wp_mono; [by apply wp_read_mqtt_bytes| |by intros e s' [->|[? ->]]].
  intros bs s1 [Hbs ->].
  apply wp_lift. destruct (validate_mqtt_string bs) eqn:Hv; try done.
  - apply validate_mqtt_string_inv in Hv as (-> & ? & ?). done.
  - revert Hv. unfold validate_mqtt_string, from_utf8.
    destruct (run_utf8_validation bs 0); simpl; [by intros [= <-]|].
    destruct (contains_byte 0 bs); [by intros [= <-]|done].
  - revert Hv. unfold validate_mqtt_string, from_utf8.
    destruct (run_utf8_validation bs 0); [done|]. simpl. by destruct (contains_byte 0 bs).
Qed.

(** * Claims *)

(** The variable-length integer of the fixed header round-trips: for every length up to
    268,435,455 the encoder appends between one and four bytes, returns their number, which is
    [len_len], and the decoder recovers both numbers whatever follows; a greater length is
    refused and the buffer is left as it was. *)
Theorem remaining_length_roundtrip n s :
  0 ≤ n →
  if n <=? MAX_REMAINING_LENGTH then
    ∃ out, core_write_remaining_length n s = (Ok (len_len n), s ++ out) ∧
      blen out = len_len n ∧ 1 ≤ len_len n ≤ 4 ∧
      ∀ rest, length_ (out ++ rest) = Ok (len_len n, n)
  else ∃ e, core_write_remaining_length n s = (Err e, s).
Proof.
  intros Hn. destruct (Z.leb_spec n MAX_REMAINING_LENGTH).
  - exists (remaining_length_bytes n). split_and!.
    + by apply writes_remaining_length.
    + apply blen_remaining_length_bytes.
    + unfold len_len. repeat case_match; lia.
    + unfold len_len. repeat case_match; lia.
    + intros rest. by apply length_remaining_length_bytes.
  - unfold core_write_remaining_length. rewrite (proj2 (Z.ltb_lt _ _)) by done. eauto.
Qed.

Lemma remaining_length_roundtrip_witness :
  ∃ out, core_write_remaining_length 321 [7] = (Ok 2, [7] ++ out) ∧ blen out = 2 ∧ 1 ≤ 2 ≤ 4 ∧
    ∀ rest, length_ (out ++ rest) = Ok (2, 321).
Proof. apply (remaining_length_roundtrip 321 [7]). lia. Defined.

(** Whatever bytes follow the first byte of a stream, a decoded remaining length occupies
    one to four bytes that are present and fits in 28 bits, so the accumulator never
    overflows, and appending bytes to the stream does not change it. *)
Theorem length_bounds stream k n :
  Forall is_u8 stream → length_ stream = Ok (k, n) →
  1 ≤ k ≤ 4 ∧ k ≤ blen stream ∧ 0 ≤ n < 2 ^ 28 ∧ ∀ t, length_ (stream ++ t) = Ok (k, n).
Proof.
  intros Hs Hl. apply length_ok in Hl as (? & Hn & ? & ?); [|done].
  unfold MAX_REMAINING_LENGTH in Hn. repeat split; try lia; done.
Qed.

Lemma length_bounds_witness :
  Forall is_u8 [0xC1; 0x02] ∧ length_ [0xC1; 0x02] = Ok (2, 321) ∧ 321 < 2 ^ 28.
Proof.
  assert (H : Forall is_u8 [0xC1; 0x02]) by (repeat constructor; unfold is_u8; lia).
  split; [exact H|]. split; [reflexivity|].
  apply (length_bounds [0xC1; 0x02] 2 321 H eq_refl).
Defined.

(** A string field is accepted exactly when it is the UTF-8 encoding of a sequence of
    Unicode scalar values (so no surrogates and no overlong forms) that does not contain
    U+0000; it is then returned unchanged. *)
Theorem validate_mqtt_string_spec s r :
  Forall is_u8 s →
  validate_mqtt_string s = Ok r ↔
  r = s ∧ ∃ cs, Forall scalar_value cs ∧ s = encode_str cs ∧ 0 ∉ cs.
Proof.
  intros Hs. split.
  - intros (-> & Hu & Hz)%validate_mqtt_string_inv. split; [done|].
    apply utf8_spec in Hu as (cs & Hcs & ->); [|done]. exists cs. split_and!; [done..|].
    by rewrite <- encode_str_ascii.
  - intros (-> & cs & Hcs & -> & Hz). apply validate_mqtt_string_ok.
    + apply utf8_spec; eauto.
    + by rewrite encode_str_ascii.
Qed.

Lemma validate_mqtt_string_spec_witness :
  validate_mqtt_string [0xC3; 0xA9; 0x41] = Ok [0xC3; 0xA9; 0x41] ∧
  ∃ cs, Forall scalar_value cs ∧ [0xC3; 0xA9; 0x41] = encode_str cs ∧ 0 ∉ cs.
Proof.
  assert (H : Forall is_u8 [0xC3; 0xA9; 0x41]) by (repeat constructor; unfold is_u8; lia).
  split; [reflexivity|].
  apply (validate_mqtt_string_spec [0xC3; 0xA9; 0x41] [0xC3; 0xA9; 0x41] H). reflexivity.
Defined.

(** A length-prefixed string round-trips: writing one appends a two-byte length and its
    bytes, and reading gives back the string and the rest of the stream; reading any stream of
    bytes never panics, and what is read is a valid string that was on the stream. *)
Theorem mqtt_string_roundtrip str s rest :
  mqtt_string str → Forall is_u8 s →
  (∃ out, core_write_mqtt_string str s = (Ok tt, s ++ out) ∧ blen out = 2 + blen str ∧
     core_read_mqtt_string (out ++ rest) = (Ok str, rest)) ∧
  match core_read_mqtt_string s with
  | (Ok str', s') => mqtt_string str' ∧ ∃ out, s = out ++ s' ∧ blen out = 2 + blen str'
  | (Err _, _) => True
  | (Panic, _) => False
  end.
Proof.
  intros Hstr Hs. split.
  - exists (field_bytes str). split_and!.
    + apply writes_mqtt_bytes, Hstr.
    + by autorewrite with blen.
    + by apply reads_mqtt_string.
  - pose proof (wp_read_mqtt_string s Hs) as Hw. unfold wp in Hw.
    destruct (core_read_mqtt_string s) as [[str'|e|] s']; [|done..]. destruct Hw as [? ->].
    split; [done|]. exists (field_bytes str'). by autorewrite with blen.
Qed.

Lemma mqtt_string_roundtrip_witness :
  ∃ out, core_write_mqtt_string [0x61] [1] = (Ok tt, [1] ++ out) ∧ blen out = 2 + 1 ∧
     core_read_mqtt_string (out ++ [9]) = (Ok [0x61], [9]).
Proof.
  apply (mqtt_string_roundtrip [0x61] [1] [9]).
  - repeat split; try done; [repeat constructor; unfold is_u8; lia|].
    by apply contains_byte_false.
  - repeat constructor; unfold is_u8; lia.
Defined.
