(* ===== verification/Topic.v ===== *)
(** [mqttbytes-core/src/topic.rs]: topic names, topic filters and matching.

    A [&str] is its bytes.  The characters looked for are ASCII, and in a UTF-8 string an ASCII
    byte only occurs as that character ([Utf8.encode_str_ascii]). *)

From S2P Require Import Prelude.
From S2P Require Import Utf8.
From S2P Require Import Primitives.

Definition SLASH : u8 := 47.
Definition PLUS : u8 := 43.
Definition HASH : u8 := 35.
Definition DOLLAR : u8 := 36.

(** [str::split(c)]: always at least one piece. *)
Fixpoint split_on (c : u8) (s : Bytes) : list Bytes :=
  match s with
  | [] => [[]]
  | b :: t =>
      if b =? c then [] :: split_on c t
      else match split_on c t with
           | [] => [[b]]
           | l :: ls => (b :: l) :: ls
           end
  end.

(** [str::starts_with(c)]. *)
Definition starts_with (c : u8) (s : Bytes) : bool :=
  match s with b :: _ => b =? c | [] => false end.

(** Equality of [&str]. *)
Definition str_eqb (a b : Bytes) : bool := bool_decide (a = b).

Definition has_wildcards (s : Bytes) : bool :=
  contains_byte PLUS s || contains_byte HASH s.

Definition valid_topic (topic : Bytes) : bool :=
  if contains_byte PLUS topic || contains_byte HASH topic then false else true.

(** The [for entry in hirerarchy] loop of [valid_filter]. *)
Fixpoint valid_filter_entries (hirerarchy : list Bytes) : bool :=
  match hirerarchy with
  | [] => true
  | entry :: rest =>
      if contains_byte HASH entry then false
      else if (1 <? blen entry) && contains_byte PLUS entry then false
      else valid_filter_entries rest
  end.

Definition valid_filter (filter : Bytes) : bool :=
  match filter with
  | [] => false
  | _ =>
      match rev (split_on SLASH filter) with
      | [] => false
      | last :: hirerarchy =>
          if negb (blen last =? 1) && (contains_byte HASH last || contains_byte PLUS last)
          then false
          else valid_filter_entries hirerarchy
      end
  end.

(** The [for f in filter.split('/')] loop of [matches], with the [topics] iterator. *)
Fixpoint matches_loop (topics filters : list Bytes) {struct filters} : bool :=
  match filters with
  | [] => match topics with [] => true | _ => false end
  | f :: fs =>
      if str_eqb f [HASH] then true
      else
        match topics with
        | [] => false
        | t :: ts =>
            if str_eqb t [HASH] then false
            else if negb (str_eqb f [PLUS]) && negb (str_eqb f t) then false
            else matches_loop ts fs
        end
  end.

Definition matches (topic filter : Bytes) : bool :=
  if starts_with DOLLAR topic then false
  else matches_loop (split_on SLASH topic) (split_on SLASH filter).

(** * Splitting *)

Fixpoint join_with (c : u8) (ls : list Bytes) : Bytes :=
  match ls with
  | [] => []
  | [l] => l
  | l :: ls => l ++ c :: join_with c ls
  end.

Lemma split_on_ne c s : split_on c s ≠ [].
Proof. destruct s as [|b s]; simpl; [done|]. destruct (b =? c); [done|]. by case_match. Qed.

Lemma join_split c s : join_with c (split_on c s) = s.
Proof.
  induction s as [|b s IH]; [done|]. simpl. destruct (Z.eqb_spec b c) as [->|].
  - pose proof (split_on_ne c s). simpl. destruct (split_on c s); [done|]. by rewrite IH.
  - destruct (split_on c s) as [|l ls] eqn:Hs; [by apply split_on_ne in Hs|].
    destruct ls as [|l' ls]; simpl in *; by rewrite <- IH.
Qed.

Lemma elem_of_split c s l b : l ∈ split_on c s → b ∈ l → b ∈ s.
Proof.
  revert l. induction s as [|a s IH]; intros l; simpl.
  { by intros ->%list_elem_of_singleton ?%elem_of_nil. }
  destruct (a =? c).
  - intros [->|Hl]%elem_of_cons Hb; [by apply elem_of_nil in Hb|]. right. eauto.
  - destruct (split_on c s) as [|l' ls] eqn:Hs; [by apply split_on_ne in Hs|].
    intros [->|Hl]%elem_of_cons Hb.
    + apply elem_of_cons in Hb as [->|Hb]; [by left|]. right. eapply IH; [by left|done].
    + right. eapply IH; [by right|done].
Qed.

Lemma elem_of_split_inv c s b : b ∈ s → b ≠ c → ∃ l, l ∈ split_on c s ∧ b ∈ l.
Proof.
  intros Hb Hne. induction s as [|x s IH]; [by apply elem_of_nil in Hb|]. simpl.
  apply elem_of_cons in Hb as [<-|Hb].
  - rewrite (proj2 (Z.eqb_neq _ _)) by done.
    destruct (split_on c s) as [|l ls]; eexists; split; by left.
  - destruct (x =? c); destruct (IH Hb) as (l & Hl & Hbl).
    + exists l. by split; [right|].
    + destruct (split_on c s) as [|l' ls]; [by apply elem_of_nil in Hl|].
      apply elem_of_cons in Hl as [->|Hl].
      * exists (x :: l'). split; [by left|by right].
      * exists l. by split; [right|].
Qed.

(** * What a filter means

    A level of a filter is a literal, [+] or, at the end only, [#]. *)

Definition plain_level (l : Bytes) : Prop := (PLUS ∉ l) ∧ (HASH ∉ l).

Definition well_formed_levels (init : list Bytes) (last : Bytes) : Prop :=
  Forall (λ l, (l = [PLUS]) ∨ plain_level l) init ∧
  (last = [PLUS] ∨ last = [HASH] ∨ plain_level last).

(** A literal level matches itself and [+] matches any level. *)
Definition level_matches (f t : Bytes) : Prop := f = [PLUS] ∨ f = t.

(** The filter with levels [init ++ [last]] denotes the topic with levels [ts]. *)
Definition denotes (init : list Bytes) (last : Bytes) (ts : list Bytes) : Prop :=
  if decide (last = [HASH])
  then ∃ pre more, ts = pre ++ more ∧ Forall2 level_matches init pre
  else Forall2 level_matches (init ++ [last]) ts.

Lemma blen_one (l : Bytes) b : blen l ≤ 1 → b ∈ l → l = [b].
Proof.
  destruct l as [|x [|y l]]; unfold blen; simpl; [by intros ? ?%elem_of_nil| |lia].
  by intros _ ->%list_elem_of_singleton.
Qed.

Lemma valid_filter_entries_spec ls :
  valid_filter_entries ls = true ↔ Forall (λ l, (l = [PLUS]) ∨ plain_level l) ls.
Proof.
  induction ls as [|l ls IH]; simpl; [by split|].
  rewrite Forall_cons, <- IH. clear IH. unfold plain_level.
  destruct (contains_byte HASH l) eqn:Hh.
  { apply contains_byte_iff in Hh. split; [done|].
    intros [[->|[_ ?]] _]; [|done]. by apply list_elem_of_singleton in Hh. }
  apply contains_byte_false in Hh.
  destruct (contains_byte PLUS l) eqn:Hp.
  - apply contains_byte_iff in Hp. rewrite andb_true_r.
    destruct (Z.ltb_spec 1 (blen l)).
    + split; [done|]. intros [[->|[? _]] _]; [|done]. by unfold blen in *; simpl in *; lia.
    + rewrite (blen_one l PLUS) by (lia || done). naive_solver.
  - apply contains_byte_false in Hp. rewrite andb_false_r. naive_solver.
Qed.

Lemma last_level_spec (last : Bytes) :
  negb (blen last =? 1) && (contains_byte HASH last || contains_byte PLUS last) = false ↔
  last = [PLUS] ∨ last = [HASH] ∨ plain_level last.
Proof.
  unfold plain_level. rewrite <- !contains_byte_false. split.
  - intros [Hl|Hc]%andb_false_iff.
    + apply negb_false_iff, Z.eqb_eq in Hl. unfold blen in Hl.
      destruct last as [|b [|]]; simpl in Hl; try lia.
      destruct (decide (b = PLUS)) as [->|]; [by left|].
      destruct (decide (b = HASH)) as [->|]; [by right; left|].
      right; right. rewrite !contains_byte_false, !list_elem_of_singleton. done.
    + apply orb_false_iff in Hc. naive_solver.
  - intros [->|[->|[-> ->]]]; [done..|]. by rewrite andb_false_r.
Qed.

Lemma valid_filter_levels (filter : Bytes) :
  valid_filter filter = true ↔
  filter ≠ [] ∧ ∃ init last, split_on SLASH filter = init ++ [last] ∧
    well_formed_levels init last.
Proof.
  assert (Hsplit : ∃ init last, split_on SLASH filter = init ++ [last]).
  { pose proof (split_on_ne SLASH filter) as Hne.
    destruct (split_on SLASH filter) as [|last init _] using rev_ind; [done|eauto]. }
  destruct Hsplit as (init & last & Hs).
  unfold valid_filter. destruct filter as [|b filter]; [naive_solver|].
  rewrite Hs, rev_app_distr. simpl.
  destruct (negb _ && _) eqn:Hlast.
  - split; [done|]. intros (_ & init' & last' & [-> ->%eq_sym]%app_inj_tail & _ & Hl).
    apply last_level_spec in Hl. by rewrite Hl in Hlast.
  - apply last_level_spec in Hlast. rewrite valid_filter_entries_spec.
    split.
    + intros Hinit%Forall_rev. rewrite rev_involutive in Hinit.
      split; [done|]. by exists init, last.
    + intros (_ & init' & last' & [-> ->%eq_sym]%app_inj_tail & ? & _). by apply Forall_rev.
Qed.

Lemma matches_loop_plain ts init last :
  Forall (λ l, HASH ∉ l) ts → Forall (λ l, HASH ∉ l) init →
  matches_loop ts (init ++ [last]) = true ↔ denotes init last ts.
Proof.
  intros Hts Hinit. unfold denotes. revert ts Hts.
  induction Hinit as [|f init Hf Hinit IH]; intros ts Hts; cbn [app matches_loop];
    unfold str_eqb.
  - case_decide as Hh.
    { rewrite Hh, bool_decide_eq_true_2 by done. split; [|done]. intros _. by exists [], ts. }
    rewrite bool_decide_eq_false_2 by done.
    destruct Hts as [|t ts Ht Hts].
    { split; [done|]. intros H%Forall2_length. done. }
    rewrite (bool_decide_eq_false_2 (t = [HASH])) by (intros ->; set_solver).
    rewrite Forall2_cons. unfold level_matches.
    assert (Hts' : Forall2 level_matches [] ts ↔ ts = []).
    { destruct ts; split; try done; by inversion 1. }
    rewrite Hts'. repeat case_bool_decide; destruct ts; naive_solver.
  - rewrite (bool_decide_eq_false_2 (f = [HASH])) by (intros ->; set_solver).
    destruct Hts as [|t ts Ht Hts].
    { split; [done|]. case_decide.
      - intros (pre & more & Hpre & Hf2). destruct pre; [by inversion Hf2|done].
      - by inversion 1. }
    rewrite (bool_decide_eq_false_2 (t = [HASH])) by (intros ->; set_solver).
    assert (Hcons : (if decide (last = [HASH])
      then ∃ pre more, t :: ts = pre ++ more ∧ Forall2 level_matches (f :: init) pre
      else Forall2 level_matches ((f :: init) ++ [last]) (t :: ts)) ↔
      level_matches f t ∧ if decide (last = [HASH])
      then ∃ pre more, ts = pre ++ more ∧ Forall2 level_matches init pre
      else Forall2 level_matches (init ++ [last]) ts).
    { case_decide; [|by rewrite <- Forall2_cons]. split.
      - intros (pre & more & Hpre & Hf2). inversion Hf2; subst. simplify_eq/=. naive_solver.
      - intros (? & pre & more & -> & ?). exists (t :: pre), more. split; [done|].
        by constructor. }
    rewrite Hcons, <- IH by done. unfold level_matches.
    repeat case_bool_decide; naive_solver.
Qed.

Lemma valid_topic_iff t : valid_topic t = true ↔ (PLUS ∉ t) ∧ (HASH ∉ t).
Proof.
  unfold valid_topic. rewrite <- !contains_byte_false.
  destruct (contains_byte PLUS t), (contains_byte HASH t); naive_solver.
Qed.

Lemma levels_without s b : b ∉ s → Forall (λ l, b ∉ l) (split_on SLASH s).
Proof. intros Hb. apply Forall_forall. intros l Hl ?. eauto using elem_of_split. Qed.

Lemma matches_denotes (topic filter : Bytes) (init : list Bytes) (last : Bytes) :
  valid_topic topic = true → valid_filter filter = true →
  split_on SLASH filter = init ++ [last] →
  matches topic filter = true ↔
  starts_with DOLLAR topic = false ∧ denotes init last (split_on SLASH topic).
Proof.
  intros Ht Hf Hs. apply valid_topic_iff in Ht as [_ Ht].
  apply valid_filter_levels in Hf as (_ & init' & last' & Hs' & [Hinit _]).
  rewrite Hs in Hs'. apply app_inj_tail in Hs' as [<- <-].
  unfold matches. destruct (starts_with DOLLAR topic); [naive_solver|].
  rewrite Hs, matches_loop_plain; [naive_solver|by apply levels_without|].
  eapply Forall_impl; [exact Hinit|]. intros l [->|[_ ?]]; [|done].
  intros H%list_elem_of_singleton. discriminate.
Qed.

Lemma Forall2_level_refl ls : Forall2 level_matches ls ls.
Proof. induction ls; constructor; [by right|done]. Qed.

(** A non-empty valid topic name is a valid filter, and as a filter it matches itself
    unless it starts with [$]. *)
Theorem topic_matches_itself (topic : Bytes) :
  valid_topic topic = true → topic ≠ [] →
  valid_filter topic = true ∧ matches topic topic = negb (starts_with DOLLAR topic).
Proof.
  intros Ht Hne. pose proof Ht as [Hp Hh]%valid_topic_iff.
  assert (∃ init last, split_on SLASH topic = init ++ [last] ∧ (last ≠ [HASH]) ∧
    well_formed_levels init last) as (init & last & Hs & Hl & Hwf).
  { pose proof (split_on_ne SLASH topic) as Hsne.
    pose proof (levels_without topic PLUS Hp) as Hp'.
    pose proof (levels_without topic HASH Hh) as Hh'.
    destruct (split_on SLASH topic) as [|last init _] using rev_ind; [done|].
    apply Forall_app in Hp' as [Hp1 Hp2%List.Forall_inv].
    apply Forall_app in Hh' as [Hh1 Hh2%List.Forall_inv].
    exists init, last. repeat split.
    - intros ->. by apply Hh2, list_elem_of_singleton.
    - apply Forall_forall. intros l Hl. right.
      rewrite Forall_forall in Hp1, Hh1. split; auto.
    - right; right. done. }
  assert (Hf : valid_filter topic = true).
  { apply valid_filter_levels. split; [done|]. by exists init, last. }
  split; [done|].
  pose proof (matches_denotes topic topic init last Ht Hf Hs) as Hm.
  unfold denotes in Hm. rewrite decide_False, Hs in Hm by done.
  pose proof (Forall2_level_refl (init ++ [last])).
  destruct (matches topic topic), (starts_with DOLLAR topic); naive_solver.
Qed.

Lemma topic_matches_itself_witness :
  valid_filter [97; 47; 98] = true ∧ matches [97; 47; 98] [97; 47; 98] = true.
Proof. apply (topic_matches_itself [97; 47; 98]); [reflexivity|discriminate]. Defined.

(** [valid_filter] accepts exactly the non-empty filters in which [#] is, if anywhere,
    the whole last level and [+] occupies whole levels. *)
Theorem valid_filter_spec (filter : Bytes) :
  valid_filter filter = true ↔
  filter ≠ [] ∧ ∃ init last, split_on SLASH filter = init ++ [last] ∧
    well_formed_levels init last.
Proof. apply valid_filter_levels. Qed.

(** What section 4.7 of the MQTT specification says a filter with the levels [init] and [last]
    receives: [denotes], except that a filter that begins with a wildcard receives nothing from a
    topic that begins with [$]. *)
Definition wildcard_first (filter : Bytes) : bool := starts_with PLUS filter || starts_with HASH filter.
Definition receives (filter : Bytes) (init : list Bytes) (last : Bytes) (topic : Bytes) : Prop :=
  (starts_with DOLLAR topic = true → wildcard_first filter = false) ∧ denotes init last (split_on SLASH topic).

(** C40: for a valid topic name and a valid topic filter, [matches] decides what the MQTT specification
    says the filter receives: every literal level equals the topic's level, [+] stands for exactly
    one level, a final [#] stands for the parent and any number of further levels, and a filter that
    begins with a wildcard does not receive topics that begin with [$].  Not covered are topics that
    begin with [$] together with filters that begin with a literal level, such as [$SYS/#], where
    the code differs from the specification ([dollar_never_matched]). *)
Theorem matches_spec (topic filter : Bytes) (init : list Bytes) (last : Bytes) :
  valid_topic topic = true → valid_filter filter = true →
  split_on SLASH filter = init ++ [last] →
  starts_with DOLLAR topic = false ∨ wildcard_first filter = true →
  matches topic filter = true ↔ receives filter init last topic.
Proof.
  intros Ht Hf Hs Hd. rewrite (matches_denotes topic filter init last Ht Hf Hs). unfold receives.
  destruct (starts_with DOLLAR topic), (wildcard_first filter); naive_solver.
Qed.

(** No filter matches a topic that begins with [$], not even the ones that should receive it. *)
Lemma dollar_never_matched (topic filter : Bytes) :
  starts_with DOLLAR topic = true → matches topic filter = false.
Proof. unfold matches. by intros ->. Qed.

(** [$SYS/a] and [$SYS/#] *)
Lemma dollar_divergence :
  let topic := [36; 83; 89; 83; 47; 97] in
  let filter := [36; 83; 89; 83; 47; 35] in
  valid_topic topic = true ∧ valid_filter filter = true ∧
  receives filter [[36; 83; 89; 83]] [35] topic ∧ matches topic filter = false.
Proof.
  split_and!; [done..| |done]. split; [done|]. unfold denotes. rewrite decide_True by done.
  exists [[36; 83; 89; 83]], [[97]]. split; [done|]. constructor; [by right|constructor].
Qed.

Lemma matches_spec_witness :
  (* a/b against a/+, a/b/c against a/#, and $a against + *)
  matches [97; 47; 98] [97; 47; 43] = true ∧ matches [97; 47; 98; 47; 99] [97; 47; 35] = true ∧
  matches [36; 97] [43] ≠ true.
Proof.
  split_and!.
  - apply (proj2 (matches_spec [97; 47; 98] [97; 47; 43] [[97]] [43] eq_refl eq_refl eq_refl (or_introl eq_refl))).
    split; [discriminate|]. unfold denotes. rewrite decide_False by discriminate.
    constructor; [right; reflexivity|]. constructor; [left; reflexivity|constructor].
  - apply (proj2 (matches_spec [97; 47; 98; 47; 99] [97; 47; 35] [[97]] [35]
      eq_refl eq_refl eq_refl (or_introl eq_refl))).
    split; [discriminate|]. unfold denotes. rewrite decide_True by reflexivity.
    exists [[97]], [[98]; [99]]. split; [reflexivity|].
    constructor; [right; reflexivity|constructor].
  - rewrite (matches_spec [36; 97] [43] [] [43] eq_refl eq_refl eq_refl (or_intror eq_refl)).
    intros [H _]. discriminate (H eq_refl).
Defined.
