(* ===== verification/CodecBase.v ===== *)
(** What the codecs of both protocol versions share: [transactional_write] (the same function in
    [mqttbytes-v4/src/lib.rs] and [mqttbytes-v5/src/lib.rs]), readers that take their bytes by
    value, and the rules for writers that only append and for writers that do not panic.

    Everything is polymorphic in the error type, since each crate has its own. *)

From S2P Require Import Prelude.
From S2P Require Import Utf8.
From S2P Require Import Primitives.

Definition transactional_write {E T} (write : M Bytes E T) : M Bytes E T := λ stream,
  let initial_len := blen stream in
  match write stream with
  | (Ok written, stream) => (Ok written, stream)
  | (Err error, stream) => (Err error, (truncate (E:=E) initial_len stream).2)
  | (Panic, stream) => (Panic, stream)
  end.

(** A reader that takes its [Bytes] by value: what is left of them is dropped. *)
Definition run_on {E A} (bytes : Bytes) (m : M Bytes E A) : outcome E A := (m bytes).1.

(** A writer that only appends, whatever it returns. *)
Definition appends {E A} (m : M Bytes E A) : Prop :=
  ∀ s, ∃ out, (m s).2 = s ++ out.

(** Totality of the writers. *)
Definition total {E A} (m : M Bytes E A) : Prop := ∀ s, (m s).1 ≠ Panic.

(** * Framing *)

Lemma core_parse_fixed_header_cons b1 s :
  s ≠ [] →
  core_parse_fixed_header (b1 :: s) =
    '(k, n) ← length_ s;
    Ok {| pfh_byte1 := b1; pfh_remaining_len_len := k; pfh_remaining_len := n |}.
Proof.
  intros Hs. unfold core_parse_fixed_header. rewrite blen_cons.
  rewrite (proj2 (Z.ltb_ge _ _)); [done|].
  destruct s; [done|]. rewrite blen_cons. pose proof (blen_nonneg s). lia.
Qed.

Lemma length_loop_insufficient s len ll shift n :
  length_loop s len ll shift = Err (PE_InsufficientBytes n) → n = 1.
Proof.
  revert len ll shift. induction s as [|b s IH]; intros len ll shift; simpl.
  - by intros [= <-].
  - repeat case_match; try done. apply IH.
Qed.

Lemma length_loop_err_stable s len ll shift e t :
  length_loop s len ll shift = Err e → (∀ n, e ≠ PE_InsufficientBytes n) →
  length_loop (s ++ t) len ll shift = Err e.
Proof.
  intros Hl He. revert len ll shift Hl. induction s as [|b s IH]; intros len ll shift; simpl.
  - intros [= <-]. by destruct (He 1).
  - repeat case_match; try done. apply IH.
Qed.

(** [parse_fixed_header] inspects the first byte and the length field only. *)
Lemma core_parse_ok s h :
  Forall is_u8 s → core_parse_fixed_header s = Ok h →
  is_u8 (pfh_byte1 h) ∧ 1 ≤ pfh_remaining_len_len h ≤ 4 ∧
  0 ≤ pfh_remaining_len h ≤ MAX_REMAINING_LENGTH ∧
  1 + pfh_remaining_len_len h ≤ blen s ∧ ∀ t, core_parse_fixed_header (s ++ t) = Ok h.
Proof.
  intros Hs. destruct s as [|b1 [|b2 s]]; [done..|].
  rewrite core_parse_fixed_header_cons by done. apply Forall_cons in Hs as [Hb1 Hs].
  destruct (length_ (b2 :: s)) as [[k n]| |] eqn:Hl; try done. simpl. intros [= <-].
  apply length_ok in Hl as (Hk & Hn & Hle & Ht); [|done]. simpl. rewrite (blen_cons b1).
  repeat split; try lia; try apply Hb1. intros t.
  rewrite !app_comm_cons, <- (app_comm_cons (b2 :: s)).
  rewrite core_parse_fixed_header_cons by done. by rewrite Ht.
Qed.

Lemma core_parse_frame b1 content rest :
  blen content ≤ MAX_REMAINING_LENGTH →
  core_parse_fixed_header (b1 :: remaining_length_bytes (blen content) ++ content ++ rest) =
  Ok {| pfh_byte1 := b1; pfh_remaining_len_len := len_len (blen content);
        pfh_remaining_len := blen content |}.
Proof.
  intros Hc. pose proof (blen_nonneg content). rewrite core_parse_fixed_header_cons.
  2: { unfold remaining_length_bytes. by repeat case_match. }
  by rewrite length_remaining_length_bytes by lia.
Qed.

Lemma core_parse_insufficient s n :
  core_parse_fixed_header s = Err (PE_InsufficientBytes n) → n = 1 ∨ s = [] ∧ n = 2.
Proof.
  destruct s as [|b1 [|b2 s]].
  - intros [= <-]. by right.
  - intros [= <-]. by left.
  - rewrite core_parse_fixed_header_cons by done.
    destruct (length_ (b2 :: s)) as [[k m]|e|] eqn:Hl; try done. simpl.
    intros [= ->]. left. by apply length_loop_insufficient in Hl.
Qed.

Lemma core_parse_err_stable s e t :
  core_parse_fixed_header s = Err e → (∀ n, e ≠ PE_InsufficientBytes n) →
  core_parse_fixed_header (s ++ t) = Err e.
Proof.
  intros Hp He. destruct s as [|b1 [|b2 s]]; [injection Hp as <-; by edestruct He..|].
  rewrite core_parse_fixed_header_cons in Hp by done.
  change ((b1 :: b2 :: s) ++ t) with (b1 :: (b2 :: s) ++ t).
  rewrite core_parse_fixed_header_cons by done.
  destruct (length_ (b2 :: s)) as [[]|e'|] eqn:Hl; try done. simpl in Hp. injection Hp as <-.
  unfold length_ in *. by rewrite (length_loop_err_stable _ _ _ _ e').
Qed.

Lemma length_loop_no_panic s len ll shift : length_loop s len ll shift ≠ Panic.
Proof.
  revert len ll shift. induction s as [|b s IH]; intros; simpl; [done|]. by repeat case_match.
Qed.

Lemma core_parse_no_panic s : core_parse_fixed_header s ≠ Panic.
Proof.
  unfold core_parse_fixed_header. case_match; [done|]. destruct s as [|b s]; [done|].
  unfold length_. pose proof (length_loop_no_panic s 0 0 0).
  by destruct (length_loop s 0 0 0) as [[]| |].
Qed.

(** * Appending writers *)

Lemma writes_transactional {E T} (m : M Bytes E T) out a :
  writes m out a → writes (transactional_write m) out a.
Proof. intros H s. unfold transactional_write. by rewrite H. Qed.

Lemma transactional_total {E T} (m : M Bytes E T) s :
  (m s).1 ≠ Panic → (transactional_write m s).1 ≠ Panic.
Proof. unfold transactional_write. by destruct (m s) as [[] ?]. Qed.

Lemma writes_appends {E A} (m : M Bytes E A) out a s : writes m out a → (m s).2 = s ++ out.
Proof. intros H. by rewrite H. Qed.

Lemma appends_bind {E A B} (m : M Bytes E A) (k : A → M Bytes E B) :
  appends m → (∀ a, appends (k a)) → appends (m ≫= k).
Proof.
  intros Hm Hk s. rewrite bind_run. destruct (Hm s) as [o1 Ho1].
  destruct (m s) as [[a|e|] s1]; simpl in *; subst; try by eauto.
  destruct (Hk a (s ++ o1)) as [o2 ->]. exists (o1 ++ o2). by rewrite (assoc_L (++)).
Qed.

Lemma appends_same {E A} (m : M Bytes E A) : (∀ s, (m s).2 = s) → appends m.
Proof. intros H s. exists []. by rewrite H, app_nil_r. Qed.

Lemma appends_lift {E A} (r : outcome E A) : appends (lift r).
Proof. by apply appends_same. Qed.

Lemma appends_ret {E A} (a : A) : appends (E:=E) (mret a).
Proof. by apply appends_same. Qed.

Lemma appends_fail {E A} (e : E) : appends (mfail (A:=A) e).
Proof. by apply appends_same. Qed.

Lemma appends_put_slice {E} bs : appends (E:=E) (put_slice bs).
Proof. intros s. by exists bs. Qed.

Lemma appends_put_u8 {E} b : appends (E:=E) (put_u8 b).
Proof. apply appends_put_slice. Qed.

Lemma appends_put_u16 {E} n : appends (E:=E) (put_u16 n).
Proof. apply appends_put_slice. Qed.

Lemma appends_put_u32 {E} n : appends (E:=E) (put_u32 n).
Proof. apply appends_put_slice. Qed.

Lemma appends_map_err {E E' A} (f : E → E') (m : M Bytes E A) :
  appends m → appends (map_err f m).
Proof. intros Hm s. rewrite map_err_run. apply Hm. Qed.

Lemma appends_core_write_mqtt_bytes bs : appends (core_write_mqtt_bytes bs).
Proof.
  unfold core_write_mqtt_bytes. case_match; [apply appends_fail|].
  apply appends_bind; [apply appends_put_u16|intros _; apply appends_put_slice].
Qed.

Lemma appends_remaining_length_loop fuel x c s :
  ∃ out, (write_remaining_length_loop fuel x c s).2 = s ++ out.
Proof.
  revert x c s. induction fuel as [|fuel IH]; intros x c s; simpl.
  { exists []. by rewrite app_nil_r. }
  rewrite bind_run. simpl. destruct (x / 128 =? 0); [simpl; eauto|].
  edestruct IH as [out ->]. rewrite <- (assoc_L (++)). eauto.
Qed.

Lemma appends_core_write_remaining_length n : appends (core_write_remaining_length n).
Proof.
  unfold core_write_remaining_length. case_match; [apply appends_fail|].
  intros s. apply appends_remaining_length_loop.
Qed.

Lemma transactional_err {E T} (m : M Bytes E T) s e s' :
  appends m → transactional_write m s = (Err e, s') → s' = s.
Proof.
  intros Hm. unfold transactional_write. destruct (Hm s) as [out Ho].
  destruct (m s) as [[a|e'|] s1]; simpl in *; try done. intros [= <- <-]. subst.
  rewrite blen_to_nat. apply take_app_length.
Qed.

Lemma appends_transactional {E T} (m : M Bytes E T) :
  appends m → appends (transactional_write m).
Proof.
  intros Hm s. unfold transactional_write. destruct (Hm s) as [out Ho].
  destruct (m s) as [[a|e'|] s1]; simpl in *; subst; eauto.
  exists []. by rewrite blen_to_nat, app_nil_r, take_app_length.
Qed.

(** * Total writers *)

Lemma total_bind {E A B} (m : M Bytes E A) (k : A → M Bytes E B) :
  total m → (∀ a, total (k a)) → total (m ≫= k).
Proof.
  intros Hm Hk s. rewrite bind_run. specialize (Hm s).
  destruct (m s) as [[a|e|] s1]; simpl in *; [apply Hk|done..].
Qed.

Lemma total_ret {E A} (a : A) : total (E:=E) (mret a).
Proof. done. Qed.
Lemma total_fail {E A} (e : E) : total (mfail (A:=A) e).
Proof. done. Qed.
Lemma total_put_slice {E} bs : total (E:=E) (put_slice bs).
Proof. done. Qed.
Lemma total_put_u8 {E} b : total (E:=E) (put_u8 b).
Proof. done. Qed.
Lemma total_put_u16 {E} n : total (E:=E) (put_u16 n).
Proof. done. Qed.

Lemma total_put_u32 {E} n : total (E:=E) (put_u32 n).
Proof. done. Qed.

Lemma total_map_err {E E' A} (f : E → E') (m : M Bytes E A) : total m → total (map_err f m).
Proof. intros Hm s. rewrite map_err_run. specialize (Hm s). by destruct (m s) as [[] ?]. Qed.

Lemma total_core_write_mqtt_bytes bs : total (core_write_mqtt_bytes bs).
Proof. intros s. unfold core_write_mqtt_bytes. by case_match. Qed.

Lemma total_validate_mqtt_string {E} (f : PrimitiveError → E) bs :
  total (lift (outcome_map_err f (validate_mqtt_string bs))).
Proof.
  intros s. unfold lift. simpl. unfold validate_mqtt_string, from_utf8.
  by destruct (run_utf8_validation bs 0), (contains_byte 0 bs).
Qed.

Lemma total_core_write_remaining_length n : 0 ≤ n → total (core_write_remaining_length n).
Proof.
  intros Hn s. destruct (Z.lt_ge_cases MAX_REMAINING_LENGTH n).
  - unfold core_write_remaining_length. by rewrite (proj2 (Z.ltb_lt _ _)).
  - by rewrite writes_remaining_length by lia.
Qed.

Lemma total_transactional {E T} (m : M Bytes E T) : total m → total (transactional_write m).
Proof. intros Hm s. apply transactional_total, Hm. Qed.

Create HintDb appends.
#[export] Hint Resolve appends_bind appends_lift appends_ret appends_fail appends_put_slice
  appends_put_u8 appends_put_u16 appends_put_u32 appends_transactional : appends.
#[export] Hint Resolve total_bind total_ret total_fail total_put_slice total_put_u8 total_put_u16
  total_put_u32 total_validate_mqtt_string total_transactional : appends.
#[export] Hint Resolve writes_transactional : codec.

(** A total appending writer, as a precondition transformer. *)
Lemma wp_writer {E A} (m : M Bytes E A) s :
  total m → appends m →
  wp m (λ _ s', ∃ out, s' = s ++ out) (λ _ s', ∃ out, s' = s ++ out) s.
Proof.
  intros Ht Ha. unfold wp. specialize (Ht s). destruct (Ha s) as [out Ho].
  destruct (m s) as [[] ?]; simpl in *; eauto.
Qed.

Lemma writes_last {E A B} (m : M Bytes E A) (k : A → M Bytes E B) out a b :
  writes m out a → (∀ s, k a s = (Ok b, s)) → writes (m ≫= k) out b.
Proof. intros Hm Hk s. by rewrite bind_run, Hm, Hk. Qed.

(** * Readers of a whole packet *)

Lemma run_on_reads {E A} (m : M Bytes E A) inp a : reads m inp a → run_on inp m = Ok a.
Proof. intros Hm. specialize (Hm []). rewrite app_nil_r in Hm. unfold run_on. by rewrite Hm. Qed.

Lemma run_on_bind {E A B} (m : M Bytes E A) (k : A → M Bytes E B) i1 i2 a :
  reads m i1 a → run_on (i1 ++ i2) (m ≫= k) = run_on i2 (k a).
Proof. intros Hm. unfold run_on. by rewrite bind_run, Hm. Qed.

Lemma run_on_skip_header {E A} hdr (k : M Bytes E A) inp :
  run_on (hdr ++ inp) (advance (blen hdr);; k) = run_on inp k.
Proof. apply run_on_bind with (a := tt), reads_advance. Qed.

(** Skipping the fixed header of a frame. *)
Lemma wp_skip_header {E A} n (k : M Bytes E A) (Q : A → Bytes → Prop) X bytes :
  Forall is_u8 bytes → 0 ≤ n ≤ blen bytes →
  (∀ s, Forall is_u8 s → blen s = blen bytes - n → wp k Q X s) →
  wp (advance n;; k) Q X bytes.
Proof.
  intros Hb Hn Hk. apply wp_bind.
  eapply wp_mono; [by apply (wp_advance _ _ (λ _ _, False))| |done].
  intros u s Hc. apply Hk; [exact (consumed_u8 _ _ _ Hc Hb)|by apply consumed_blen].
Qed.

Lemma reads_skip_header {E A} hdr (k : M Bytes E A) inp a :
  reads k inp a → reads (advance (blen hdr);; k) (hdr ++ inp) a.
Proof. intros. eapply reads_bind; [apply reads_advance|done]. Qed.

(** * Shared facts about packet contents *)

Definition pkid_valid (pkid : u16) : Prop := is_u16 pkid ∧ pkid ≠ 0.

(** A running sum is the length of the concatenation. *)
Lemma fold_left_blen {A} (f : A → Z) (g : A → Bytes) l acc :
  (∀ a, f a = blen (g a)) →
  fold_left (λ s t, s + f t) l acc = acc + blen (concat (map g l)).
Proof.
  intros Hfg. revert acc. induction l as [|a l IH]; intros acc; simpl.
  - rewrite blen_nil. lia.
  - rewrite IH, Hfg, blen_app. lia.
Qed.

Lemma set_index_app {E} (a t : Bytes) x b :
  set_index (E:=E) (blen a) b (a ++ x :: t) = (Ok tt, a ++ b :: t).
Proof.
  unfold set_index. rewrite blen_app, blen_cons. pose proof (blen_nonneg a).
  pose proof (blen_nonneg t).
  rewrite (proj2 (Z.leb_le _ _)), (proj2 (Z.ltb_lt _ _)) by lia. simpl.
  by rewrite blen_to_nat, insert_app_r_alt, Nat.sub_diag by lia.
Qed.

Lemma split_to_app {E} a b : split_to (E:=E) (blen a) (a ++ b) = (Ok a, b).
Proof.
  unfold split_to. rewrite blen_app, (proj2 (Z.ltb_ge _ _)) by (pose proof (blen_nonneg b); lia).
  by rewrite blen_to_nat, take_app_length, drop_app_length.
Qed.
