(* ===== verification/V4Base.v ===== *)
(** [mqttbytes-v4/src/lib.rs]: errors, packet types, the fixed header and the wrappers of the
    core primitives, and the interface every MQTT 3.1.1 packet body implements. *)

From S2P Require Import Prelude.
From S2P Require Import Utf8.
From S2P Require Import Primitives.
From S2P Require Import CodecBase.

(** MQTT packet type. *)
Inductive PacketType :=
| PT_Connect | PT_ConnAck | PT_Publish | PT_PubAck | PT_PubRec | PT_PubRel | PT_PubComp
| PT_Subscribe | PT_SubAck | PT_Unsubscribe | PT_UnsubAck | PT_PingReq | PT_PingResp
| PT_Disconnect.

#[global] Instance PacketType_eq_dec : EqDecision PacketType.
Proof. solve_decision. Defined.

(** Errors of serialization and deserialization.  [Io] carries a [std::io::Error] that this
    crate never builds. *)
Inductive Error :=
| NotConnect (t : PacketType)
| UnexpectedConnect
| InvalidConnectReturnCode (n : u8)
| InvalidProtocol
| InvalidProtocolLevel (n : u8)
| IncorrectPacketFormat
| InvalidPacketType (n : u8)
| InvalidPropertyType (n : u8)
| InvalidQoS (n : u8)
| InvalidSubscribeReasonCode (n : u8)
| PacketIdZero
| PayloadSizeIncorrect
| PayloadTooLong
| PayloadSizeLimitExceeded (n : usize)
| PayloadRequired
| TopicNotUtf8 (source : Utf8Error)
| BoundaryCrossed (n : usize)
| MalformedPacket
| MalformedRemainingLength
| EmptySubscription
| EmptyUnsubscription
| InsufficientBytes (n : usize)
| Io
| OutgoingPacketTooLarge (pkt_size max : usize).

(** [impl From<PrimitiveError> for Error]. *)
Definition Error_from (error : PrimitiveError) : Error :=
  match error with
  | PE_PayloadTooLong _ _ => PayloadTooLong
  | PE_BoundaryCrossed len => BoundaryCrossed len
  | PE_MalformedPacket => MalformedPacket
  | PE_MalformedRemainingLength => MalformedRemainingLength
  | PE_TopicNotUtf8 source => TopicNotUtf8 source
  | PE_InsufficientBytes required => InsufficientBytes required
  end.

Record FixedHeader := {
  byte1 : u8;
  header_len : usize;
  remaining_len : usize;
}.

Definition FixedHeader_new (byte1 : u8) (remaining_len_len remaining_len : usize) : FixedHeader :=
  {| byte1 := byte1; header_len := remaining_len_len + 1; remaining_len := remaining_len |}.

Definition FixedHeader_packet_type (h : FixedHeader) : outcome Error PacketType :=
  let num := Z.shiftr (byte1 h) 4 in
  match num with
  | 1 => Ok PT_Connect
  | 2 => Ok PT_ConnAck
  | 3 => Ok PT_Publish
  | 4 => Ok PT_PubAck
  | 5 => Ok PT_PubRec
  | 6 => Ok PT_PubRel
  | 7 => Ok PT_PubComp
  | 8 => Ok PT_Subscribe
  | 9 => Ok PT_SubAck
  | 10 => Ok PT_Unsubscribe
  | 11 => Ok PT_UnsubAck
  | 12 => Ok PT_PingReq
  | 13 => Ok PT_PingResp
  | 14 => Ok PT_Disconnect
  | _ => Err (InvalidPacketType num)
  end.

Definition FixedHeader_frame_length (h : FixedHeader) : usize :=
  header_len h + remaining_len h.

Definition parse_fixed_header (stream : Bytes) : outcome Error FixedHeader :=
  fixed_header ← outcome_map_err Error_from (core_parse_fixed_header stream);
  Ok (FixedHeader_new (pfh_byte1 fixed_header) (pfh_remaining_len_len fixed_header)
        (pfh_remaining_len fixed_header)).

Definition check (stream : Bytes) (max_packet_size : usize) : outcome Error FixedHeader :=
  let stream_len := blen stream in
  fixed_header ← parse_fixed_header stream;
  if max_packet_size <? remaining_len fixed_header
  then Err (PayloadSizeLimitExceeded (remaining_len fixed_header))
  else
    let frame_length := FixedHeader_frame_length fixed_header in
    if stream_len <? frame_length then Err (InsufficientBytes (frame_length - stream_len))
    else Ok fixed_header.

Definition read_mqtt_bytes : M Bytes Error Bytes := map_err Error_from core_read_mqtt_bytes.
Definition read_mqtt_string : M Bytes Error Bytes := map_err Error_from core_read_mqtt_string.
Definition write_mqtt_bytes (bytes : Bytes) : M Bytes Error unit :=
  map_err Error_from (core_write_mqtt_bytes bytes).
Definition write_mqtt_string (string : Bytes) : M Bytes Error unit :=
  _ ← lift (outcome_map_err Error_from (validate_mqtt_string string));
  map_err Error_from (core_write_mqtt_string string).
Definition write_remaining_length (len : usize) : M Bytes Error usize :=
  map_err Error_from (core_write_remaining_length len).

Definition qos (num : u8) : outcome Error QoS := ok_or (core_qos num) (InvalidQoS num).

Definition read_u16 : M Bytes Error u16 := map_err Error_from core_read_u16.
Definition read_u8 : M Bytes Error u8 := map_err Error_from core_read_u8.

(** * Packet bodies

    What the packet-level code ([v4/mod.rs]) relies on.  [wire_content] is the variable header
    and payload, [wire_valid] what [wire_read] establishes, and [wire_sendable] what
    [wire_write] checks beyond it. *)

Class WirePacket (A : Type) := {
  wire_read : FixedHeader → Bytes → outcome Error A;
  wire_write : A → M Bytes Error usize;
  wire_size : A → usize;
  wire_byte1 : A → u8;
  wire_content : A → Bytes;
  wire_valid : A → Prop;
  wire_sendable : A → Prop;
}.

(** The frame of a packet: first byte, remaining length, content. *)
Definition frame_bytes `{WirePacket A} (a : A) : Bytes :=
  wire_byte1 a :: remaining_length_bytes (blen (wire_content a)) ++ wire_content a.

Class WirePacketLaws (A : Type) `{WirePacket A} : Prop := {
  wire_write_ok a : wire_valid a → wire_sendable a →
    writes (wire_write a) (frame_bytes a) (wire_size a);
  wire_read_ok a hdr : wire_valid a →
    wire_read {| byte1 := wire_byte1 a; header_len := blen hdr;
                 remaining_len := blen (wire_content a) |} (hdr ++ wire_content a) = Ok a;
  wire_size_ok a : wire_valid a → wire_size a = blen (frame_bytes a);
  wire_valid_content a : wire_valid a →
    Forall is_u8 (wire_content a) ∧ 0 < blen (wire_content a) ≤ MAX_REMAINING_LENGTH;
  wire_read_safe h bytes :
    Forall is_u8 bytes → is_u8 (byte1 h) → 0 ≤ header_len h →
    0 < remaining_len h ≤ MAX_REMAINING_LENGTH →
    blen bytes = header_len h + remaining_len h →
    match wire_read h bytes with
    | Ok a => wire_valid a
    | Err e => ∀ n, e ≠ InsufficientBytes n
    | Panic => False
    end;
  wire_write_total a s : (wire_write a s).1 ≠ Panic;
  wire_write_appends a : appends (wire_write a);
}.

(** * Framing *)

(** [parse_fixed_header] inspects the first byte and the length field only. *)
Lemma parse_fixed_header_ok s h :
  Forall is_u8 s → parse_fixed_header s = Ok h →
  is_u8 (byte1 h) ∧ 2 ≤ header_len h ≤ 5 ∧ 0 ≤ remaining_len h ≤ MAX_REMAINING_LENGTH ∧
  header_len h ≤ blen s ∧ ∀ t, parse_fixed_header (s ++ t) = Ok h.
Proof.
  intros Hs. unfold parse_fixed_header.
  destruct (core_parse_fixed_header s) as [h'| |] eqn:Hp; try done.
  apply core_parse_ok in Hp as (? & ? & ? & ? & Ht); [|done]. intros [= <-].
  cbn [byte1 header_len remaining_len FixedHeader_new]. split_and!; try done; try lia.
  intros t. by rewrite Ht.
Qed.

Lemma parse_fixed_header_frame b1 content rest :
  blen content ≤ MAX_REMAINING_LENGTH →
  parse_fixed_header (b1 :: remaining_length_bytes (blen content) ++ content ++ rest) =
  Ok {| byte1 := b1; header_len := blen (b1 :: remaining_length_bytes (blen content));
        remaining_len := blen content |}.
Proof.
  intros Hc. unfold parse_fixed_header. rewrite core_parse_frame by done.
  cbn [mbind outcome_bind outcome_map_err FixedHeader_new].
  by rewrite blen_cons, blen_remaining_length_bytes, Z.add_comm.
Qed.

Lemma check_frame b1 content rest max :
  blen content ≤ MAX_REMAINING_LENGTH → blen content ≤ max →
  check (b1 :: remaining_length_bytes (blen content) ++ content ++ rest) max =
  Ok {| byte1 := b1; header_len := blen (b1 :: remaining_length_bytes (blen content));
        remaining_len := blen content |}.
Proof.
  intros Hc Hm. unfold check. rewrite parse_fixed_header_frame by done. simpl.
  rewrite (proj2 (Z.ltb_ge _ _)) by done. unfold FixedHeader_frame_length. simpl.
  rewrite (proj2 (Z.ltb_ge _ _)); [done|].
  rewrite !blen_cons, !blen_app. pose proof (blen_nonneg rest). lia.
Qed.

Lemma check_ok s max h :
  Forall is_u8 s → check s max = Ok h →
  is_u8 (byte1 h) ∧ 2 ≤ header_len h ≤ 5 ∧ 0 ≤ remaining_len h ≤ MAX_REMAINING_LENGTH ∧
  remaining_len h ≤ max ∧ FixedHeader_frame_length h ≤ blen s ∧
  ∀ t, check (s ++ t) max = Ok h.
Proof.
  intros Hs. unfold check. destruct (parse_fixed_header s) as [h'| |] eqn:Hp; try done. simpl.
  apply parse_fixed_header_ok in Hp as (? & ? & ? & ? & Ht); [|done].
  destruct (Z.ltb_spec max (remaining_len h')); [done|].
  destruct (Z.ltb_spec (blen s) (FixedHeader_frame_length h')); [done|].
  intros [= <-]. repeat split; try lia; try apply H. intros t. rewrite Ht. simpl.
  rewrite (proj2 (Z.ltb_ge _ _)), (proj2 (Z.ltb_ge _ _)); [done| |lia].
  rewrite blen_app. pose proof (blen_nonneg t). lia.
Qed.

Lemma parse_fixed_header_insufficient s n :
  parse_fixed_header s = Err (InsufficientBytes n) → n = 1 ∨ s = [] ∧ n = 2.
Proof.
  unfold parse_fixed_header. destruct (core_parse_fixed_header s) as [h|e|] eqn:Hp; try done.
  destruct e; try done. intros [= <-]. by apply core_parse_insufficient in Hp.
Qed.

(** [check] asks for a number of bytes without which it cannot go on. *)
Lemma check_insufficient s max n t :
  Forall is_u8 s → check s max = Err (InsufficientBytes n) → blen t < n →
  1 ≤ n ∧ check (s ++ t) max = Err (InsufficientBytes (n - blen t)).
Proof.
  intros Hs. unfold check. destruct (parse_fixed_header s) as [h| e|] eqn:Hp; try done; simpl.
  - apply parse_fixed_header_ok in Hp as (? & ? & ? & ? & Ht); [|done].
    destruct (Z.ltb_spec max (remaining_len h)); [done|].
    destruct (Z.ltb_spec (blen s) (FixedHeader_frame_length h)); [|done].
    intros [= <-] Hlt. rewrite Ht. simpl. rewrite blen_app.
    rewrite (proj2 (Z.ltb_ge max _)), (proj2 (Z.ltb_lt _ _)) by lia.
    split; [lia|]. do 2 f_equal. lia.
  - intros [= ->] Hlt. pose proof (blen_nonneg t).
    apply parse_fixed_header_insufficient in Hp as Hn. split; [lia|].
    destruct (decide (t = [])) as [->|Hne].
    + rewrite app_nil_r, Hp. simpl. by rewrite Z.sub_0_r.
    + destruct Hn as [->|[-> ->]].
      * destruct t; [done|]. rewrite blen_cons in Hlt. pose proof (blen_nonneg t). lia.
      * destruct t as [|x [|y t]]; [done|done|].
        rewrite !blen_cons in Hlt. pose proof (blen_nonneg t). lia.
Qed.

Lemma check_no_panic s max : check s max ≠ Panic.
Proof.
  unfold check, parse_fixed_header. pose proof (core_parse_no_panic s).
  destruct (core_parse_fixed_header s); simpl; try done. by repeat case_match.
Qed.

(** * The wrapped primitives *)

Lemma appends_write_mqtt_bytes bs : appends (write_mqtt_bytes bs).
Proof. apply appends_map_err, appends_core_write_mqtt_bytes. Qed.

Lemma appends_write_mqtt_string bs : appends (write_mqtt_string bs).
Proof. apply appends_bind; [apply appends_lift|]. intros _. apply appends_write_mqtt_bytes. Qed.

Lemma appends_write_remaining_length n : appends (write_remaining_length n).
Proof. apply appends_map_err, appends_core_write_remaining_length. Qed.

Lemma total_write_mqtt_bytes bs : total (write_mqtt_bytes bs).
Proof. apply total_map_err, total_core_write_mqtt_bytes. Qed.

Lemma total_write_mqtt_string bs : total (write_mqtt_string bs).
Proof.
  apply total_bind; [apply total_validate_mqtt_string|intros _; apply total_write_mqtt_bytes].
Qed.

Lemma total_write_remaining_length n : 0 ≤ n → total (write_remaining_length n).
Proof. intros. by apply total_map_err, total_core_write_remaining_length. Qed.

#[export] Hint Resolve appends_write_mqtt_bytes appends_write_mqtt_string
  appends_write_remaining_length total_write_mqtt_bytes total_write_mqtt_string
  total_write_remaining_length : appends.

(** ** Encoders and decoders of the fields *)

Lemma writes_v4_mqtt_bytes bs : mqtt_bytes bs → writes (write_mqtt_bytes bs) (field_bytes bs) tt.
Proof. intros [_ ?]. by apply writes_map_err, writes_mqtt_bytes. Qed.

Lemma writes_v4_mqtt_string bs :
  mqtt_string bs → writes (write_mqtt_string bs) (field_bytes bs) tt.
Proof.
  intros ([_ ?] & ? & ?). unfold write_mqtt_string.
  change (field_bytes bs) with ([] ++ field_bytes bs).
  eapply writes_bind; [by apply writes_lift; rewrite validate_mqtt_string_ok|].
  by apply writes_map_err, writes_mqtt_bytes.
Qed.

Lemma writes_v4_remaining_length n :
  0 ≤ n ≤ MAX_REMAINING_LENGTH →
  writes (write_remaining_length n) (remaining_length_bytes n) (len_len n).
Proof. intros. by apply writes_map_err, writes_remaining_length. Qed.

Lemma reads_v4_u8 b : reads read_u8 [b] b.
Proof. apply reads_map_err, reads_read_u8. Qed.

Lemma reads_v4_u16 n : is_u16 n → reads read_u16 (u16_bytes n) n.
Proof. intros. by apply reads_map_err, reads_read_u16. Qed.

Lemma reads_v4_mqtt_bytes bs : mqtt_bytes bs → reads read_mqtt_bytes (field_bytes bs) bs.
Proof. intros. by apply reads_map_err, reads_mqtt_bytes. Qed.

Lemma reads_v4_mqtt_string bs : mqtt_string bs → reads read_mqtt_string (field_bytes bs) bs.
Proof. intros. by apply reads_map_err, reads_mqtt_string. Qed.

#[export] Hint Resolve writes_v4_mqtt_bytes writes_v4_mqtt_string writes_v4_remaining_length
  reads_v4_u8 reads_v4_u16 reads_v4_mqtt_bytes reads_v4_mqtt_string : codec.

(** The head of every frame: the first byte, then the remaining length. *)
Lemma writes_frame {A} b1 len (k : usize → M Bytes Error A) content a :
  0 ≤ len ≤ MAX_REMAINING_LENGTH → writes (k (len_len len)) content a →
  writes (put_u8 b1;; count ← write_remaining_length len; k count)
    (b1 :: remaining_length_bytes len ++ content) a.
Proof.
  intros Hlen Hk.
  change (b1 :: remaining_length_bytes len ++ content)
    with ([b1] ++ remaining_length_bytes len ++ content).
  eapply writes_bind; [apply writes_put_u8|].
  eapply writes_bind; [by apply writes_v4_remaining_length|done].
Qed.

(** ** Safety of the readers *)

(** A body error is never the framing error [InsufficientBytes]. *)
Definition body_error (e : Error) : Prop := ∀ n, e ≠ InsufficientBytes n.

Lemma wp_v4_read_u8 s :
  Forall is_u8 s →
  wp read_u8 (λ b s', is_u8 b ∧ Forall is_u8 s' ∧ s = b :: s') (λ e s', body_error e) s.
Proof.
  intros Hs. apply wp_map_err. eapply wp_mono; [apply wp_read_u8| |].
  - intros b s' ->. apply Forall_cons in Hs as [??]. done.
  - by intros e s' [-> _] n.
Qed.

Lemma wp_v4_read_u16 s :
  Forall is_u8 s →
  wp read_u16 (λ n s', is_u16 n ∧ Forall is_u8 s' ∧ s = u16_bytes n ++ s')
    (λ e s', body_error e) s.
Proof.
  intros Hs. apply wp_map_err. eapply wp_mono; [by apply wp_read_u16| |].
  - intros n s' [? ->]. by apply Forall_app in Hs as [_ ?].
  - by intros e s' [-> _] n.
Qed.

Lemma wp_v4_read_mqtt_bytes s :
  Forall is_u8 s →
  wp read_mqtt_bytes (λ bs s', mqtt_bytes bs ∧ Forall is_u8 s' ∧ s = field_bytes bs ++ s')
    (λ e s', body_error e) s.
Proof.
  intros Hs. apply wp_map_err. eapply wp_mono; [by apply wp_read_mqtt_bytes| |].
  - intros n s' [? ->]. by apply Forall_app in Hs as [_ ?].
  - by intros e s' [->|[? ->]] n.
Qed.

Lemma wp_v4_read_mqtt_string s :
  Forall is_u8 s →
  wp read_mqtt_string (λ bs s', mqtt_string bs ∧ Forall is_u8 s' ∧ s = field_bytes bs ++ s')
    (λ e s', body_error e) s.
Proof.
  intros Hs. apply wp_map_err. eapply wp_mono; [by apply wp_read_mqtt_string| |].
  - intros n s' [? ->]. by apply Forall_app in Hs as [_ ?].
  - intros e s' He n. specialize (He n). destruct e; simpl; congruence.
Qed.

Lemma run_on_wp {A} (m : M Bytes Error A) (Q : A → Prop) bytes :
  wp m (λ a _, Q a) (λ e _, body_error e) bytes →
  match run_on bytes m with
  | Ok a => Q a
  | Err e => body_error e
  | Panic => False
  end.
Proof. unfold wp, run_on. by destruct (m bytes) as [[] ?]. Qed.

(** Apply the [wp] rule of the next reader. *)
Ltac wp_read :=
  apply wp_bind;
  eapply wp_mono;
  [first [apply wp_v4_read_u8|apply wp_v4_read_u16|apply wp_v4_read_mqtt_bytes
         |apply wp_v4_read_mqtt_string]; assumption
  | |intros ? ? ?; assumption].

(** ** Framing errors are final *)

(** A malformed or oversized fixed header is reported whatever follows. *)
Lemma check_err_stable s max e t :
  Forall is_u8 s → check s max = Err e → body_error e → check (s ++ t) max = Err e.
Proof.
  intros Hs Hc He. unfold check in *.
  destruct (parse_fixed_header s) as [h|e'|] eqn:Hp; try done; simpl in Hc.
  - apply parse_fixed_header_ok in Hp as (? & ? & ? & ? & Ht); [|done]. rewrite Ht. simpl.
    destruct (Z.ltb_spec max (remaining_len h)); [done|]. case_match; [|done].
    injection Hc as <-. by edestruct He.
  - injection Hc as ->. unfold parse_fixed_header in *.
    destruct (core_parse_fixed_header s) as [h|e'|] eqn:Hp'; try done.
    simpl in Hp. injection Hp as <-.
    rewrite (core_parse_err_stable _ _ t Hp'); [done|]. intros n ->. by apply (He n).
Qed.
