(* ===== verification/V4Acks.v ===== *)
(** The acknowledgement packets of [mqttbytes-v4/src/v4/]: [connack.rs], [puback.rs],
    [pubrec.rs], [pubrel.rs], [pubcomp.rs], [suback.rs], [unsuback.rs], and the two-byte
    packets of [ping.rs] and [disconnect.rs]. *)

From S2P Require Import Prelude.
From S2P Require Import Utf8.
From S2P Require Import Primitives.
From S2P Require Import CodecBase.
From S2P Require Import V4Base.

(** * PUBACK, PUBREC, PUBREL, PUBCOMP *)

Record PubAck := mkPubAck { puback_pkid : u16 }.
Record PubRec := mkPubRec { pubrec_pkid : u16 }.
Record PubRel := mkPubRel { pubrel_pkid : u16 }.
Record PubComp := mkPubComp { pubcomp_pkid : u16 }.

Definition PubAck_len : usize := 2.
Definition PubAck_size (_ : PubAck) : usize :=
  let len := PubAck_len in
  let remaining_len_size := len_len len in
  1 + remaining_len_size + len.

Definition PubAck_read (fixed_header : FixedHeader) (bytes : Bytes) : outcome Error PubAck :=
  if negb (remaining_len fixed_header =? PubAck_len) then Err PayloadSizeIncorrect
  else run_on bytes (
    advance (header_len fixed_header);;
    pkid ← read_u16;
    if pkid =? 0 then mfail PacketIdZero else mret (mkPubAck pkid)).

Definition PubAck_write (self : PubAck) : M Bytes Error usize :=
  if puback_pkid self =? 0 then mfail PacketIdZero
  else
    let len := PubAck_len in
    put_u8 0x40;;
    count ← write_remaining_length len;
    put_u16 (puback_pkid self);;
    mret (1 + count + len).

Definition PubRec_len : usize := 2.
Definition PubRec_size (_ : PubRec) : usize :=
  let len := PubRec_len in
  let remaining_len_size := len_len len in
  1 + remaining_len_size + len.

Definition PubRec_read (fixed_header : FixedHeader) (bytes : Bytes) : outcome Error PubRec :=
  if negb (remaining_len fixed_header =? PubRec_len) then Err PayloadSizeIncorrect
  else run_on bytes (
    advance (header_len fixed_header);;
    pkid ← read_u16;
    if pkid =? 0 then mfail PacketIdZero else mret (mkPubRec pkid)).

Definition PubRec_write (self : PubRec) : M Bytes Error usize :=
  if pubrec_pkid self =? 0 then mfail PacketIdZero
  else
    let len := PubRec_len in
    put_u8 0x50;;
    count ← write_remaining_length len;
    put_u16 (pubrec_pkid self);;
    mret (1 + count + len).

Definition PubRel_len : usize := 2.
Definition PubRel_size (_ : PubRel) : usize :=
  let len := PubRel_len in
  let remaining_len_size := len_len len in
  1 + remaining_len_size + len.

Definition PubRel_read (fixed_header : FixedHeader) (bytes : Bytes) : outcome Error PubRel :=
  if negb (remaining_len fixed_header =? PubRel_len) then Err PayloadSizeIncorrect
  else run_on bytes (
    advance (header_len fixed_header);;
    pkid ← read_u16;
    if pkid =? 0 then mfail PacketIdZero else mret (mkPubRel pkid)).

Definition PubRel_write (self : PubRel) : M Bytes Error usize :=
  if pubrel_pkid self =? 0 then mfail PacketIdZero
  else
    let len := PubRel_len in
    put_u8 0x62;;
    count ← write_remaining_length len;
    put_u16 (pubrel_pkid self);;
    mret (1 + count + len).

Definition PubComp_len : usize := 2.
Definition PubComp_size (_ : PubComp) : usize :=
  let len := PubComp_len in
  let remaining_len_size := len_len len in
  1 + remaining_len_size + len.

Definition PubComp_read (fixed_header : FixedHeader) (bytes : Bytes) : outcome Error PubComp :=
  if negb (remaining_len fixed_header =? PubComp_len) then Err PayloadSizeIncorrect
  else run_on bytes (
    advance (header_len fixed_header);;
    pkid ← read_u16;
    if pkid =? 0 then mfail PacketIdZero else mret (mkPubComp pkid)).

Definition PubComp_write (self : PubComp) : M Bytes Error usize :=
  if pubcomp_pkid self =? 0 then mfail PacketIdZero
  else
    let len := PubComp_len in
    put_u8 0x70;;
    count ← write_remaining_length len;
    put_u16 (pubcomp_pkid self);;
    mret (1 + count + len).

(** * UNSUBACK *)

Record UnsubAck := mkUnsubAck { unsuback_pkid : u16 }.

Definition UnsubAck_size (_ : UnsubAck) : usize := 4.

Definition UnsubAck_read (fixed_header : FixedHeader) (bytes : Bytes) : outcome Error UnsubAck :=
  if negb (remaining_len fixed_header =? 2) then Err PayloadSizeIncorrect
  else run_on bytes (
    advance (header_len fixed_header);;
    pkid ← read_u16;
    if pkid =? 0 then mfail PacketIdZero else mret (mkUnsubAck pkid)).

Definition UnsubAck_write (self : UnsubAck) : M Bytes Error usize :=
  if unsuback_pkid self =? 0 then mfail PacketIdZero
  else
    put_slice [0xB0; 0x02];;
    put_u16 (unsuback_pkid self);;
    mret 4.

(** * CONNACK *)

Inductive ConnectReturnCode :=
| CRC_Success | CRC_RefusedProtocolVersion | CRC_BadClientId | CRC_ServiceUnavailable
| CRC_BadUserNamePassword | CRC_NotAuthorized.

#[global] Instance ConnectReturnCode_eq_dec : EqDecision ConnectReturnCode.
Proof. solve_decision. Defined.

Definition ConnectReturnCode_as_u8 (c : ConnectReturnCode) : u8 :=
  match c with
  | CRC_Success => 0 | CRC_RefusedProtocolVersion => 1 | CRC_BadClientId => 2
  | CRC_ServiceUnavailable => 3 | CRC_BadUserNamePassword => 4 | CRC_NotAuthorized => 5
  end.

Record ConnAck := mkConnAck { session_present : bool; code : ConnectReturnCode }.

Definition ConnAck_len : usize := 1 + 1.

Definition connect_return (num : u8) : outcome Error ConnectReturnCode :=
  match num with
  | 0 => Ok CRC_Success
  | 1 => Ok CRC_RefusedProtocolVersion
  | 2 => Ok CRC_BadClientId
  | 3 => Ok CRC_ServiceUnavailable
  | 4 => Ok CRC_BadUserNamePassword
  | 5 => Ok CRC_NotAuthorized
  | num => Err (InvalidConnectReturnCode num)
  end.

Definition ConnAck_read (fixed_header : FixedHeader) (bytes : Bytes) : outcome Error ConnAck :=
  if negb (remaining_len fixed_header =? ConnAck_len) then Err PayloadSizeIncorrect
  else run_on bytes (
    advance (header_len fixed_header);;
    flags ← read_u8;
    return_code ← read_u8;
    if negb (Z.land flags 0xFE =? 0) then mfail IncorrectPacketFormat
    else
      let session_present := Z.land flags 0x01 =? 1 in
      code ← lift (connect_return return_code);
      if negb (bool_decide (code = CRC_Success)) && session_present
      then mfail IncorrectPacketFormat
      else mret (mkConnAck session_present code)).

Definition ConnAck_write (self : ConnAck) : M Bytes Error usize :=
  if negb (bool_decide (code self = CRC_Success)) && session_present self
  then mfail IncorrectPacketFormat
  else
    let len := ConnAck_len in
    put_u8 0x20;;
    count ← write_remaining_length len;
    put_u8 (Z.b2z (session_present self));;
    put_u8 (ConnectReturnCode_as_u8 (code self));;
    mret (1 + count + len).

Definition ConnAck_size (_ : ConnAck) : usize :=
  let len := ConnAck_len in
  let remaining_len_size := len_len len in
  1 + remaining_len_size + len.

(** * SUBACK *)

Inductive SubscribeReasonCode :=
| SRC_Success (q : QoS)
| SRC_Failure.

#[global] Instance SubscribeReasonCode_eq_dec : EqDecision SubscribeReasonCode.
Proof. solve_decision. Defined.

Definition SubscribeReasonCode_try_from (value : u8) : outcome Error SubscribeReasonCode :=
  match value with
  | 0 => Ok (SRC_Success AtMostOnce)
  | 1 => Ok (SRC_Success AtLeastOnce)
  | 2 => Ok (SRC_Success ExactlyOnce)
  | 128 => Ok SRC_Failure
  | v => Err (InvalidSubscribeReasonCode v)
  end.

(** The closure of [SubAck::write_inner]. *)
Definition SubscribeReasonCode_as_u8 (c : SubscribeReasonCode) : u8 :=
  match c with
  | SRC_Success q => QoS_as_u8 q
  | SRC_Failure => 0x80
  end.

Record SubAck := mkSubAck { suback_pkid : u16; return_codes : list SubscribeReasonCode }.

Definition SubAck_len (self : SubAck) : usize := 2 + blen (return_codes self).
Definition SubAck_size (self : SubAck) : usize :=
  let len := SubAck_len self in
  let remaining_len_size := len_len len in
  1 + remaining_len_size + len.

(** [while bytes.has_remaining()]; each iteration consumes a byte, so the number of bytes is
    enough fuel. *)
Fixpoint SubAck_read_loop (fuel : nat) (return_codes : list SubscribeReasonCode)
    : M Bytes Error (list SubscribeReasonCode) :=
  bytes ← mget;
  if blen bytes =? 0 then mret return_codes
  else
    match fuel with
    | O => mpanic
    | S fuel =>
        return_code ← read_u8;
        c ← lift (SubscribeReasonCode_try_from return_code);
        SubAck_read_loop fuel (return_codes ++ [c])
    end.

Definition SubAck_read (fixed_header : FixedHeader) (bytes : Bytes) : outcome Error SubAck :=
  run_on bytes (
    advance (header_len fixed_header);;
    pkid ← read_u16;
    if pkid =? 0 then mfail PacketIdZero
    else
      bytes ← mget;
      if blen bytes =? 0 then mfail MalformedPacket
      else
        return_codes ← SubAck_read_loop (length bytes) [];
        mret (mkSubAck pkid return_codes)).

Definition SubAck_write_inner (self : SubAck) : M Bytes Error usize :=
  if suback_pkid self =? 0 then mfail PacketIdZero
  else if blen (return_codes self) =? 0 then mfail PayloadRequired
  else
    put_u8 0x90;;
    let remaining_len := SubAck_len self in
    remaining_len_bytes ← write_remaining_length remaining_len;
    put_u16 (suback_pkid self);;
    let p := map SubscribeReasonCode_as_u8 (return_codes self) in
    put_slice p;;
    mret (1 + remaining_len_bytes + remaining_len).

Definition SubAck_write (self : SubAck) : M Bytes Error usize :=
  transactional_write (SubAck_write_inner self).

(** * PINGREQ, PINGRESP, DISCONNECT *)

Definition PingReq_size : usize := 2.
Definition PingReq_write : M Bytes Error usize := write_pingreq.
Definition PingResp_size : usize := 2.
Definition PingResp_write : M Bytes Error usize := write_pingresp.
Definition Disconnect_size : usize := 2.
Definition Disconnect_write : M Bytes Error usize :=
  put_slice [0xE0; 0x00];; mret 2.

(** * The packet-body interface *)

(** The common shape of the packets that carry a packet identifier and nothing else. *)
Section PkidPacket.
  Context {A : Type} (mk : u16 → A).

Lemma pkid_read_ok pkid hdr :
    is_u16 pkid → pkid ≠ 0 →
    run_on (hdr ++ u16_bytes pkid) (
      advance (blen hdr);;
      pkid ← read_u16;
      if pkid =? 0 then mfail PacketIdZero else mret (mk pkid)) = Ok (mk pkid).
  Proof.
    intros Hp Hne. apply run_on_reads, reads_skip_header.
    rewrite <- (app_nil_r (u16_bytes pkid)). eapply reads_bind; [by apply reads_v4_u16|].
    rewrite (proj2 (Z.eqb_neq _ _)) by done. apply reads_ret.
  Qed.

Lemma pkid_read_safe (n : usize) bytes :
    Forall is_u8 bytes → 0 ≤ n ≤ blen bytes →
    match run_on bytes (
      advance n;;
      pkid ← read_u16;
      if pkid =? 0 then mfail PacketIdZero else mret (mk pkid)) with
    | Ok a => ∃ pkid, a = mk pkid ∧ is_u16 pkid ∧ pkid ≠ 0
    | Err e => body_error e
    | Panic => False
    end.
  Proof.
    intros Hb Hn. apply run_on_wp, wp_skip_header; [done..|].
    intros s Hs _. wp_read. intros pkid s' (? & ? & ->).
    destruct (Z.eqb_spec pkid 0); [by apply wp_fail|]. apply wp_ret. eauto.
  Qed.

Lemma pkid_write_ok b1 pkid :
    writes (put_u8 b1;; count ← write_remaining_length 2; put_u16 pkid;; mret (1 + count + 2))
      (b1 :: remaining_length_bytes 2 ++ u16_bytes pkid) 4.
  Proof.
    change (b1 :: remaining_length_bytes 2 ++ u16_bytes pkid)
      with ([b1] ++ remaining_length_bytes 2 ++ u16_bytes pkid).
    rewrite <- (app_nil_r (u16_bytes pkid)).
    eapply writes_bind; [apply writes_put_u8|].
    eapply writes_bind; [by apply writes_v4_remaining_length|].
    eapply writes_bind; [apply writes_put_u16|]. apply writes_ret.
  Qed.
End PkidPacket.

#[global] Instance PubAck_wire : WirePacket PubAck := {|
  wire_read := PubAck_read; wire_write := PubAck_write; wire_size := PubAck_size;
  wire_byte1 _ := 0x40; wire_content a := u16_bytes (puback_pkid a);
  wire_valid a := pkid_valid (puback_pkid a); wire_sendable _ := True |}.
#[global] Instance PubRec_wire : WirePacket PubRec := {|
  wire_read := PubRec_read; wire_write := PubRec_write; wire_size := PubRec_size;
  wire_byte1 _ := 0x50; wire_content a := u16_bytes (pubrec_pkid a);
  wire_valid a := pkid_valid (pubrec_pkid a); wire_sendable _ := True |}.
#[global] Instance PubRel_wire : WirePacket PubRel := {|
  wire_read := PubRel_read; wire_write := PubRel_write; wire_size := PubRel_size;
  wire_byte1 _ := 0x62; wire_content a := u16_bytes (pubrel_pkid a);
  wire_valid a := pkid_valid (pubrel_pkid a); wire_sendable _ := True |}.
#[global] Instance PubComp_wire : WirePacket PubComp := {|
  wire_read := PubComp_read; wire_write := PubComp_write; wire_size := PubComp_size;
  wire_byte1 _ := 0x70; wire_content a := u16_bytes (pubcomp_pkid a);
  wire_valid a := pkid_valid (pubcomp_pkid a); wire_sendable _ := True |}.
#[global] Instance UnsubAck_wire : WirePacket UnsubAck := {|
  wire_read := UnsubAck_read; wire_write := UnsubAck_write; wire_size := UnsubAck_size;
  wire_byte1 _ := 0xB0; wire_content a := u16_bytes (unsuback_pkid a);
  wire_valid a := pkid_valid (unsuback_pkid a); wire_sendable _ := True |}.

(** Discharge the laws of a packet that is a packet identifier. *)
Ltac pkid_packet mk unf :=
  split;
  [ intros [pkid] [? ?] _; simpl; unf; simpl;
    rewrite (proj2 (Z.eqb_neq pkid 0)) by done; apply pkid_write_ok
  | intros [pkid] hdr [? ?]; simpl; unf; simpl; by apply (pkid_read_ok mk)
  | by intros [pkid] _
  | intros [pkid] [? ?]; split; [by apply u16_bytes_u8|done]
  | intros h bytes ? ? ? ? ?; simpl; unf;
    destruct (negb _); [done|];
    pose proof (pkid_read_safe mk (header_len h) bytes) as Hs;
    specialize (Hs ltac:(done) ltac:(lia));
    destruct (run_on _ _); [|done|done]; destruct Hs as (? & -> & ?); done
  | intros [pkid] s; simpl; unf; simpl; destruct (pkid =? 0); [done|];
    apply (total_bind (put_u8 _)); [apply total_put_u8|]; intros _;
    apply total_bind; [apply total_write_remaining_length; lia|]; done
  | intros [pkid]; simpl; unf; simpl; destruct (pkid =? 0); auto 10 with appends ].

#[global] Instance PubAck_laws : WirePacketLaws PubAck.
Proof. pkid_packet mkPubAck ltac:(unfold PubAck_read, PubAck_write, PubAck_len). Qed.
#[global] Instance PubRec_laws : WirePacketLaws PubRec.
Proof. pkid_packet mkPubRec ltac:(unfold PubRec_read, PubRec_write, PubRec_len). Qed.
#[global] Instance PubRel_laws : WirePacketLaws PubRel.
Proof. pkid_packet mkPubRel ltac:(unfold PubRel_read, PubRel_write, PubRel_len). Qed.
#[global] Instance PubComp_laws : WirePacketLaws PubComp.
Proof. pkid_packet mkPubComp ltac:(unfold PubComp_read, PubComp_write, PubComp_len). Qed.

#[global] Instance UnsubAck_laws : WirePacketLaws UnsubAck.
Proof.
  split.
  - intros [pkid] [? ?] _. simpl. unfold UnsubAck_write. simpl.
    rewrite (proj2 (Z.eqb_neq pkid 0)) by done.
    change (frame_bytes (mkUnsubAck pkid)) with ([0xB0; 0x02] ++ u16_bytes pkid ++ []).
    eapply writes_bind; [apply writes_put_slice|].
    eapply writes_bind; [apply writes_put_u16|]. apply writes_ret.
  - intros [pkid] hdr [? ?]. simpl. unfold UnsubAck_read. by apply (pkid_read_ok mkUnsubAck).
  - by intros [pkid] _.
  - intros [pkid] [? ?]. split; [by apply u16_bytes_u8|done].
  - intros h bytes ? ? ? ? ?. simpl. unfold UnsubAck_read. destruct (negb _); [done|].
    pose proof (pkid_read_safe mkUnsubAck (header_len h) bytes) as Hs.
    specialize (Hs ltac:(done) ltac:(lia)).
    destruct (run_on _ _); [|done|done]. by destruct Hs as (? & -> & ?).
  - intros [pkid] s. simpl. unfold UnsubAck_write. by destruct (_ =? 0).
  - intros [pkid]. simpl. unfold UnsubAck_write. destruct (_ =? 0); auto 10 with appends.
Qed.

(** ** CONNACK *)

#[global] Instance ConnAck_wire : WirePacket ConnAck := {|
  wire_read := ConnAck_read; wire_write := ConnAck_write; wire_size := ConnAck_size;
  wire_byte1 _ := 0x20;
  wire_content a := [Z.b2z (session_present a); ConnectReturnCode_as_u8 (code a)];
  wire_valid a := session_present a = true → code a = CRC_Success; wire_sendable _ := True |}.

Lemma connect_return_as_u8 c : connect_return (ConnectReturnCode_as_u8 c) = Ok c.
Proof. by destruct c. Qed.

Lemma connect_return_safe n :
  match connect_return n with Ok _ => True | Err e => body_error e | Panic => False end.
Proof. unfold connect_return, body_error. repeat case_match; try done; congruence. Qed.

#[global] Instance ConnAck_laws : WirePacketLaws ConnAck.
Proof.
  split.
  - intros [sp c] Hv _. simpl in *. unfold ConnAck_write. simpl.
    assert (negb (bool_decide (c = CRC_Success)) && sp = false) as ->.
    { destruct sp; [rewrite Hv by done|]; by destruct c. }
    change (frame_bytes (mkConnAck sp c)) with
      ([0x20] ++ remaining_length_bytes 2 ++ [Z.b2z sp] ++ [ConnectReturnCode_as_u8 c] ++ []).
    eapply writes_bind; [apply writes_put_u8|].
    eapply writes_bind; [by apply writes_v4_remaining_length|].
    do 2 (eapply writes_bind; [apply writes_put_u8|]). apply writes_ret.
  - intros [sp c] hdr Hv. simpl in *. unfold ConnAck_read. simpl.
    apply run_on_reads, reads_skip_header.
    change [Z.b2z sp; ConnectReturnCode_as_u8 c]
      with ([Z.b2z sp] ++ [ConnectReturnCode_as_u8 c] ++ []).
    do 2 (eapply reads_bind; [apply reads_v4_u8|]).
    replace (Z.land (Z.b2z sp) 254 =? 0) with true by (by destruct sp). simpl.
    eapply reads_bind_nil; [apply reads_lift, connect_return_as_u8|].
    replace (Z.land (Z.b2z sp) 1 =? 1) with sp by (by destruct sp).
    assert (negb (bool_decide (c = CRC_Success)) && sp = false) as ->.
    { destruct sp; [rewrite Hv by done|]; by destruct c. }
    apply reads_ret.
  - by intros [sp c] _.
  - intros [sp c] _. simpl. split; [|done].
    repeat constructor; unfold is_u8; destruct sp, c; simpl; lia.
  - intros h bytes ? ? ? ? ?. simpl. unfold ConnAck_read. destruct (negb _); [done|].
    apply (run_on_wp _ (λ a, session_present a = true → code a = CRC_Success)).
    apply wp_skip_header; [done|lia|]. intros s Hs _.
    wp_read. intros flags s1 (? & ? & ->). wp_read. intros rc s2 (? & ? & ->).
    destruct (negb _); [by apply wp_fail|]. apply wp_bind, wp_lift.
    pose proof (connect_return_safe rc). destruct (connect_return rc) as [c| |]; [|done|done].
    destruct (negb _ && _) eqn:Hn; [by apply wp_fail|]. apply wp_ret. simpl. intros Hsp.
    rewrite Hsp, andb_true_r in Hn. apply negb_false_iff in Hn. by apply bool_decide_eq_true in Hn.
  - intros [sp c] s. simpl. unfold ConnAck_write. destruct (_ && _); [done|].
    apply (total_bind (put_u8 _)); [done|]. intros _.
    apply total_bind; [by apply total_write_remaining_length|]. done.
  - intros [sp c]. simpl. unfold ConnAck_write. destruct (_ && _); auto 10 with appends.
Qed.

(** ** SUBACK *)

#[global] Instance SubAck_wire : WirePacket SubAck := {|
  wire_read := SubAck_read; wire_write := SubAck_write; wire_size := SubAck_size;
  wire_byte1 _ := 0x90;
  wire_content a := u16_bytes (suback_pkid a) ++ map SubscribeReasonCode_as_u8 (return_codes a);
  wire_valid a := pkid_valid (suback_pkid a) ∧ return_codes a ≠ [] ∧
    SubAck_len a ≤ MAX_REMAINING_LENGTH;
  wire_sendable _ := True |}.

Lemma reason_code_as_u8 c : SubscribeReasonCode_try_from (SubscribeReasonCode_as_u8 c) = Ok c.
Proof. by destruct c as [[]|]. Qed.

Lemma reason_code_u8 c : is_u8 (SubscribeReasonCode_as_u8 c).
Proof. unfold is_u8. destruct c as [[]|]; simpl; lia. Qed.

Lemma reason_code_safe n :
  match SubscribeReasonCode_try_from n with
  | Ok _ => True | Err e => body_error e | Panic => False
  end.
Proof.
  unfold SubscribeReasonCode_try_from, body_error. repeat case_match; try done; congruence.
Qed.

Lemma SubAck_read_loop_ok codes fuel acc :
  (length codes ≤ fuel)%nat →
  SubAck_read_loop fuel acc (map SubscribeReasonCode_as_u8 codes) = (Ok (acc ++ codes), []).
Proof.
  revert fuel acc. induction codes as [|c codes IH]; intros fuel acc Hf; simpl in Hf.
  { destruct fuel; simpl; by rewrite app_nil_r. }
  destruct fuel as [|fuel]; [lia|]. cbn [SubAck_read_loop map].
  rewrite bind_run. cbn [mget]. rewrite blen_cons. rewrite (proj2 (Z.eqb_neq _ _))
    by (pose proof (blen_nonneg (map SubscribeReasonCode_as_u8 codes)); lia).
  pose proof (reads_v4_u8 (SubscribeReasonCode_as_u8 c) (map SubscribeReasonCode_as_u8 codes))
    as Hr. cbn [app] in Hr. rewrite bind_run, Hr.
  rewrite bind_run. unfold lift. rewrite reason_code_as_u8, IH by lia.
  by rewrite <- (assoc_L (++)).
Qed.

Lemma SubAck_read_loop_safe fuel acc s :
  (length s ≤ fuel)%nat → Forall is_u8 s →
  wp (SubAck_read_loop fuel acc) (λ codes _, blen codes = blen acc + blen s)
    (λ e _, body_error e) s.
Proof.
  revert acc s. induction fuel as [|fuel IH]; intros acc s Hf Hs;
    cbn [SubAck_read_loop]; apply wp_bind, wp_get.
  { destruct s; simpl in Hf; [|lia]. apply wp_ret. by rewrite blen_nil, Z.add_0_r. }
  destruct (Z.eqb_spec (blen s) 0) as [H0|H0].
  { apply wp_ret. lia. }
  wp_read. intros b s' (? & ? & ->). apply wp_bind, wp_lift.
  pose proof (reason_code_safe b). destruct (SubscribeReasonCode_try_from b); [|done|done].
  simpl in Hf. eapply wp_mono; [apply IH; [lia|done]| |done].
  intros codes _ ->. rewrite blen_app, !blen_cons, blen_nil. lia.
Qed.

#[global] Instance SubAck_laws : WirePacketLaws SubAck.
Proof.
  assert (Hlen : ∀ a : SubAck, blen (wire_content a) = SubAck_len a).
  { intros a. simpl. unfold SubAck_len. autorewrite with blen. lia. }
  split.
  - intros a ([? ?] & Hne & Hlim) _. unfold frame_bytes. rewrite Hlen.
    cbn [wire_write wire_byte1 wire_content wire_size SubAck_wire].
    apply writes_transactional. unfold SubAck_write_inner.
    rewrite (proj2 (Z.eqb_neq _ 0)) by done.
    rewrite (proj2 (Z.eqb_neq _ 0)) by (by intros ?%blen_zero).
    pose proof (blen_nonneg (return_codes a)).
    apply writes_frame; [unfold SubAck_len in *; lia|].
    eapply writes_bind; [apply writes_put_u16|].
    eapply writes_last; [apply writes_put_slice|done].
  - intros [pkid codes] hdr ([? ?] & Hne & Hlim).
    cbn [wire_read wire_byte1 wire_content SubAck_wire suback_pkid return_codes] in *.
    unfold SubAck_read. cbn [header_len].
    rewrite run_on_skip_header. erewrite run_on_bind by (by apply reads_v4_u16).
    rewrite (proj2 (Z.eqb_neq _ 0)) by done.
    unfold run_on. rewrite bind_run. cbn [mget]. rewrite blen_map.
    rewrite (proj2 (Z.eqb_neq _ 0)) by (by intros ?%blen_zero).
    by rewrite bind_run, length_map, SubAck_read_loop_ok.
  - intros a (? & ? & ?). unfold frame_bytes. simpl wire_size. unfold SubAck_size.
    rewrite blen_cons, blen_app, blen_remaining_length_bytes, Hlen. lia.
  - intros a ([? ?] & ? & ?). rewrite Hlen. unfold SubAck_len in *.
    pose proof (blen_nonneg (return_codes a)). split; [|lia].
    cbn [wire_content SubAck_wire]. apply Forall_app. split; [by apply u16_bytes_u8|].
    apply Forall_map, Forall_forall. intros c _. apply reason_code_u8.
  - intros h bytes ? ? ? ? Hb. simpl. unfold SubAck_read.
    apply run_on_wp. apply wp_skip_header; [done|lia|]. intros s Hs Hls.
    wp_read. intros pkid s1 (? & ? & ->). destruct (Z.eqb_spec pkid 0); [by apply wp_fail|].
    apply wp_bind, wp_get. destruct (Z.eqb_spec (blen s1) 0); [by apply wp_fail|].
    apply wp_bind. eapply wp_mono; [by apply SubAck_read_loop_safe| |done].
    intros codes s2 Hcodes. apply wp_ret. rewrite blen_nil in Hcodes.
    rewrite blen_app, blen_u16_bytes in Hls. unfold SubAck_len. simpl.
    split; [by split|]. split; [|lia]. intros ->. rewrite blen_nil in Hcodes. lia.
  - intros a s. simpl. apply total_transactional. unfold SubAck_write_inner.
    destruct (_ =? 0); [done|]. destruct (_ =? 0); [done|].
    pose proof (blen_nonneg (return_codes a)).
    apply (total_bind (put_u8 _)); [done|]. intros _. apply total_bind; [|done].
    apply total_write_remaining_length. unfold SubAck_len. lia.
  - intros a. simpl. unfold SubAck_write, SubAck_write_inner. apply appends_transactional.
    destruct (_ =? 0); [auto with appends|]. destruct (_ =? 0); auto 10 with appends.
Qed.
