(* ===== verification/V4Publish.v ===== *)
(** [mqttbytes-v4/src/v4/publish.rs]. *)

From S2P Require Import Prelude.
From S2P Require Import Utf8.
From S2P Require Import Primitives.
From S2P Require Import Topic.
From S2P Require Import CodecBase.
From S2P Require Import V4Base.
From S2P Require Import V4Acks.

Record Publish := mkPublish {
  dup : bool;
  pub_qos : QoS;
  retain : bool;
  topic : Bytes;
  pub_pkid : u16;
  payload : Bytes;
}.

#[global] Instance Publish_eq_dec : EqDecision Publish.
Proof. solve_decision. Defined.

(** [Publish::new] and [Publish::from_bytes]. *)
Definition Publish_new (topic : Bytes) (qos : QoS) (payload : Bytes) : Publish :=
  {| dup := false; pub_qos := qos; retain := false; pub_pkid := 0;
     topic := topic; payload := payload |}.

Definition Publish_len (self : Publish) : usize :=
  let len := 2 + blen (topic self) + blen (payload self) in
  if negb (bool_decide (pub_qos self = AtMostOnce)) && negb (pub_pkid self =? 0)
  then len + 2 else len.

Definition Publish_size (self : Publish) : usize :=
  let len := Publish_len self in
  let remaining_len_size := len_len len in
  1 + remaining_len_size + len.

Definition validate_publish_topic_name (topic : Bytes) : outcome Error unit :=
  if blen topic =? 0 then Err IncorrectPacketFormat
  else if existsb (λ b, (b =? 43) || (b =? 35)) topic then Err IncorrectPacketFormat
  else
    topic ← outcome_map_err TopicNotUtf8 (from_utf8 topic);
    if contains_byte 0 topic then Err MalformedPacket else Ok tt.

Definition Publish_read (fixed_header : FixedHeader) (bytes : Bytes) : outcome Error Publish :=
  q ← qos (Z.shiftr (Z.land (byte1 fixed_header) 6) 1);
  let dup := negb (Z.land (byte1 fixed_header) 8 =? 0) in
  let retain := negb (Z.land (byte1 fixed_header) 1 =? 0) in
  if bool_decide (q = AtMostOnce) && dup then Err IncorrectPacketFormat
  else run_on bytes (
    advance (header_len fixed_header);;
    topic ← read_mqtt_bytes;
    lift (validate_publish_topic_name topic);;
    pkid ← match q with
           | AtMostOnce => mret 0
           | AtLeastOnce | ExactlyOnce => read_u16
           end;
    if negb (bool_decide (q = AtMostOnce)) && (pkid =? 0) then mfail PacketIdZero
    else
      bytes ← mget;
      mret {| dup := dup; retain := retain; pub_qos := q; pub_pkid := pkid;
              topic := topic; payload := bytes |}).

(** [write_inner::<VALIDATE_TOPIC>]. *)
Definition Publish_write_inner (validate_topic : bool) (self : Publish) : M Bytes Error usize :=
  if bool_decide (pub_qos self = AtMostOnce) && dup self then mfail IncorrectPacketFormat
  else
    let len := Publish_len self in
    let dup := Z.b2z (dup self) in
    let qos := QoS_as_u8 (pub_qos self) in
    let retain := Z.b2z (retain self) in
    put_u8 (Z.lor (Z.lor (Z.lor 0x30 retain) (Z.shiftl qos 1)) (Z.shiftl dup 3));;
    (if validate_topic then lift (validate_publish_topic_name (topic self)) else mret tt);;
    count ← write_remaining_length len;
    write_mqtt_bytes (topic self);;
    (if negb (bool_decide (pub_qos self = AtMostOnce))
     then
       let pkid := pub_pkid self in
       if pkid =? 0 then mfail PacketIdZero else put_u16 pkid
     else mret tt);;
    put_slice (payload self);;
    mret (1 + count + len).

Definition Publish_write (self : Publish) : M Bytes Error usize :=
  transactional_write (Publish_write_inner true self).

(** [Publish::write_prevalidated]. *)
Definition Publish_write_prevalidated (self : Publish) : M Bytes Error usize :=
  transactional_write (Publish_write_inner false self).

(** * Laws *)

Definition publish_topic (t : Bytes) : Prop :=
  mqtt_string t ∧ t ≠ [] ∧ (PLUS ∉ t) ∧ (HASH ∉ t).

Definition Publish_valid (p : Publish) : Prop :=
  publish_topic (topic p) ∧ Forall is_u8 (payload p) ∧
  Publish_len p ≤ MAX_REMAINING_LENGTH ∧
  match pub_qos p with
  | AtMostOnce => dup p = false ∧ pub_pkid p = 0
  | _ => pkid_valid (pub_pkid p)
  end.

Definition Publish_byte1 (p : Publish) : u8 :=
  Z.lor (Z.lor (Z.lor 0x30 (Z.b2z (retain p))) (Z.shiftl (QoS_as_u8 (pub_qos p)) 1))
    (Z.shiftl (Z.b2z (dup p)) 3).

Definition Publish_content (p : Publish) : Bytes :=
  field_bytes (topic p) ++
  (match pub_qos p with AtMostOnce => [] | _ => u16_bytes (pub_pkid p) end ++ payload p).

#[global] Instance Publish_wire : WirePacket Publish := {|
  wire_read := Publish_read; wire_write := Publish_write; wire_size := Publish_size;
  wire_byte1 := Publish_byte1; wire_content := Publish_content;
  wire_valid := Publish_valid; wire_sendable _ := True |}.

Lemma no_wildcard_bytes t :
  existsb (λ b, (b =? 43) || (b =? 35)) t = false ↔ (PLUS ∉ t) ∧ (HASH ∉ t).
Proof.
  rewrite <- !contains_byte_false. unfold contains_byte.
  induction t as [|b t IH]; cbn [existsb]; [done|].
  rewrite !orb_false_iff, IH, (Z.eqb_sym b 43), (Z.eqb_sym b 35). fold PLUS HASH. tauto.
Qed.

Lemma validate_publish_topic_ok t :
  publish_topic t → validate_publish_topic_name t = Ok tt.
Proof.
  intros ((_ & Hu & Hz) & Hne & Hw). unfold validate_publish_topic_name.
  rewrite (proj2 (Z.eqb_neq _ 0)) by (by intros ?%blen_zero).
  rewrite (proj2 (no_wildcard_bytes t)) by done. unfold from_utf8. rewrite Hu. simpl.
  by rewrite (proj2 (contains_byte_false _ _)).
Qed.

Lemma validate_publish_topic_safe t :
  mqtt_bytes t →
  match validate_publish_topic_name t with
  | Ok _ => publish_topic t
  | Err e => body_error e
  | Panic => False
  end.
Proof.
  intros Ht. unfold validate_publish_topic_name.
  destruct (Z.eqb_spec (blen t) 0) as [|Hl]; [done|].
  destruct (existsb _ t) eqn:Hw; [done|]. apply no_wildcard_bytes in Hw.
  unfold from_utf8. destruct (run_utf8_validation t 0) eqn:Hu; [done|]. simpl.
  destruct (contains_byte 0 t) eqn:Hz; [done|]. apply contains_byte_false in Hz.
  split; [done|]. split; [|done]. by intros ->.
Qed.

Lemma validate_publish_topic_total t : validate_publish_topic_name t ≠ Panic.
Proof.
  unfold validate_publish_topic_name, from_utf8.
  destruct (blen t =? 0); [done|]. destruct (existsb _ t); [done|].
  destruct (run_utf8_validation t 0); simpl; [done|].
  by destruct (contains_byte 0 t).
Qed.

Lemma blen_Publish_content p : Publish_valid p → blen (Publish_content p) = Publish_len p.
Proof.
  intros (_ & _ & _ & Hq). unfold Publish_content, Publish_len, pkid_valid in *.
  destruct (pub_qos p); simpl; autorewrite with blen; [lia|..];
    rewrite (proj2 (Z.eqb_neq _ 0)) by tauto; simpl; lia.
Qed.

Lemma Publish_byte1_fields p :
  qos (Z.shiftr (Z.land (Publish_byte1 p) 6) 1) = Ok (pub_qos p) ∧
  negb (Z.land (Publish_byte1 p) 8 =? 0) = dup p ∧
  negb (Z.land (Publish_byte1 p) 1 =? 0) = retain p.
Proof. destruct p as [[] [] [] ? ? ?]; done. Qed.

Lemma appends_Publish_write_inner v p : appends (Publish_write_inner v p).
Proof.
  unfold Publish_write_inner. destruct (_ && _); [auto with appends|].
  repeat (apply appends_bind; [first [auto with appends; fail|idtac]|intros ?]);
    auto with appends.
  - destruct v; auto with appends.
  - destruct (negb _); [|auto with appends]. destruct (_ =? 0); auto with appends.
Qed.

#[global] Instance Publish_laws : WirePacketLaws Publish.
Proof.
  split.
  - intros p Hv _. unfold frame_bytes.
    cbn [wire_write wire_byte1 wire_content wire_size Publish_wire].
    rewrite blen_Publish_content by done. pose proof Hv as (Ht & Hp & Hl & Hq).
    apply writes_transactional. unfold Publish_write_inner.
    assert (bool_decide (pub_qos p = AtMostOnce) && dup p = false) as ->.
    { destruct (pub_qos p); simpl; tauto. }
    fold (Publish_byte1 p). cbn beta iota zeta.
    assert (Hvt : ∀ A (k : M Bytes Error A),
      (lift (validate_publish_topic_name (topic p));; k) = k).
    { intros A k. unfold lift, mbind, M_bind. by rewrite validate_publish_topic_ok. }
    rewrite Hvt. apply writes_frame.
    { pose proof (blen_nonneg (Publish_content p)). rewrite blen_Publish_content in * by done. lia. }
    destruct Ht as [[? _] _]. eapply writes_bind; [by apply writes_v4_mqtt_bytes|].
    eapply writes_bind with (a := tt); [|by eapply writes_last; [apply writes_put_slice|]].
    destruct (pub_qos p); simpl; [apply writes_ret|..]; destruct Hq;
      rewrite (proj2 (Z.eqb_neq _ 0)) by done; apply writes_put_u16.
  - intros p hdr (Ht & Hp & Hl & Hq).
    cbn [wire_read wire_byte1 wire_content Publish_wire].
    unfold Publish_read. cbn [byte1 header_len].
    destruct (Publish_byte1_fields p) as (-> & -> & ->). cbn [mbind outcome_bind].
    assert (bool_decide (pub_qos p = AtMostOnce) && dup p = false) as ->.
    { destruct (pub_qos p); simpl; tauto. }
    rewrite run_on_skip_header. unfold Publish_content.
    erewrite run_on_bind by (apply reads_v4_mqtt_bytes; apply Ht).
    rewrite <- (app_nil_l (match pub_qos p with AtMostOnce => [] | _ => _ end ++ _)).
    erewrite run_on_bind by (by apply reads_lift, validate_publish_topic_ok).
    erewrite run_on_bind with (a := pub_pkid p).
    2: { destruct (pub_qos p); [destruct Hq as [_ ->]; apply reads_ret|..];
         apply reads_v4_u16; apply Hq. }
    assert (negb (bool_decide (pub_qos p = AtMostOnce)) && (pub_pkid p =? 0) = false) as ->.
    { destruct (pub_qos p); simpl; [done|..]; apply Z.eqb_neq, Hq. }
    unfold run_on. by destruct p.
  - intros p Hv. unfold frame_bytes. cbn [wire_byte1 wire_content wire_size Publish_wire].
    unfold Publish_size. rewrite blen_cons, blen_app, blen_remaining_length_bytes.
    rewrite blen_Publish_content by done. lia.
  - intros p Hv. cbn [wire_content Publish_wire]. rewrite blen_Publish_content by done.
    pose proof Hv as (Ht & Hp & Hl & Hq). split.
    + unfold Publish_content. apply Forall_app; split; [exact (field_bytes_u8 _ (proj1 (proj1 Ht)))|].
      apply Forall_app; split; [|done].
      destruct (pub_qos p); [constructor|..]; apply u16_bytes_u8, Hq.
    + unfold Publish_len in *. pose proof (blen_nonneg (topic p)).
      pose proof (blen_nonneg (payload p)). by destruct (_ && _); lia.
  - intros h bytes Hb Hb1 Hhl Hrl Hlen. cbn [wire_read wire_valid Publish_wire].
    unfold Publish_read. destruct (qos _) as [q|e|] eqn:Hq; cbn [mbind outcome_bind].
    2: { unfold qos, ok_or in Hq. case_match; by simplify_eq. }
    2: { unfold qos, ok_or in Hq. by case_match. }
    destruct (bool_decide _ && _) eqn:Hdup; [done|].
    apply run_on_wp, wp_skip_header; [done|lia|]. intros s Hs Hls.
    wp_read. intros t s1 (Ht & Hs1 & ->). apply wp_bind, wp_lift.
    pose proof (validate_publish_topic_safe t Ht) as Hvt.
    destruct (validate_publish_topic_name t); [|done|done].
    apply wp_bind.
    eapply wp_mono with (Q := λ pkid s2, Forall is_u8 s2 ∧
      match q with AtMostOnce => pkid = 0 ∧ s1 = s2 | _ => is_u16 pkid ∧ s1 = u16_bytes pkid ++ s2 end)
      (X := λ e _, body_error e); [| |done].
    { destruct q; [by apply wp_ret|..];
        (eapply wp_mono; [by apply wp_v4_read_u16|naive_solver|done]). }
    intros pkid s2 [Hs2 Hpk]. destruct (negb _ && _) eqn:Hz; [by apply wp_fail|].
    apply wp_bind, wp_get, wp_ret. unfold Publish_valid, Publish_len, pkid_valid. simpl.
    rewrite blen_app, blen_field_bytes in Hls. pose proof (blen_nonneg t).
    pose proof (blen_nonneg s2). unfold MAX_REMAINING_LENGTH in *.
    destruct q; simpl in *; destruct Hpk as [? ->]; rewrite ?Hz; simpl;
      autorewrite with blen in Hls; apply Z.eqb_neq in Hz || idtac;
      split_and!; try done; try lia.
  - intros p s. cbn [wire_write Publish_wire]. apply total_transactional.
    unfold Publish_write_inner. destruct (_ && _); [done|].
    apply (total_bind (put_u8 _)); [done|]. intros _.
    apply (total_bind (lift _)); [intros ?; apply validate_publish_topic_total|].
    intros _. apply total_bind.
    { apply total_write_remaining_length. unfold Publish_len. pose proof (blen_nonneg (topic p)).
      pose proof (blen_nonneg (payload p)). destruct (_ && _); lia. }
    intros ?. apply total_bind; [apply total_write_mqtt_bytes|]. intros _.
    apply total_bind; [|done].
    destruct (negb _); [|done]. by destruct (_ =? 0).
  - intros p. apply appends_transactional, appends_Publish_write_inner.
Qed.

(** * Claims *)

(** Skipping the topic check is sound for topics that were checked before: on every topic
    the checked writer accepts, [write_prevalidated] and [write] agree on the result and on
    the buffer; on every other topic [write] fails and leaves the buffer as it was. *)
Theorem publish_prevalidated_equiv p s :
  (validate_publish_topic_name (topic p) = Ok tt →
   Publish_write_prevalidated p s = Publish_write p s) ∧
  (validate_publish_topic_name (topic p) ≠ Ok tt → ∃ e, Publish_write p s = (Err e, s)).
Proof.
  split.
  - intros Hv. unfold Publish_write_prevalidated, Publish_write, transactional_write,
      Publish_write_inner. destruct (_ && _); [done|]. rewrite Hv. by rewrite !bind_run.
  - intros Hv. unfold Publish_write.
    assert (∃ e s', transactional_write (Publish_write_inner true p) s = (Err e, s')) as (e & s' & He).
    { unfold transactional_write, Publish_write_inner. destruct (_ && _); [by do 2 eexists|].
      rewrite bind_run. cbn [put_u8 put_slice mmodify]. rewrite bind_run.
      pose proof (validate_publish_topic_total (topic p)). unfold lift.
      destruct (validate_publish_topic_name (topic p)) as [[]|e|]; [done| |done]. by do 2 eexists. }
    exists e. rewrite He. f_equal.
    eapply transactional_err; [apply appends_Publish_write_inner|exact He].
Qed.

Lemma publish_prevalidated_equiv_witness :
  Publish_write_prevalidated (Publish_new [0x61] AtMostOnce [1]) [] =
  Publish_write (Publish_new [0x61] AtMostOnce [1]) [].
Proof. apply (publish_prevalidated_equiv (Publish_new [0x61] AtMostOnce [1]) []). reflexivity. Defined.
