(* ===== verification/V4Subscribe.v ===== *)
(** [mqttbytes-v4/src/v4/subscribe.rs] and [unsubscribe.rs]. *)

From S2P Require Import Prelude.
From S2P Require Import Utf8.
From S2P Require Import Primitives.
From S2P Require Import CodecBase.
From S2P Require Import V4Base.
From S2P Require Import V4Acks.

(** * SUBSCRIBE *)

Record SubscribeFilter := mkSubscribeFilter { path : Bytes; filter_qos : QoS }.

Record Subscribe := mkSubscribe { subscribe_pkid : u16; filters : list SubscribeFilter }.

Definition Subscribe_new (path : Bytes) (qos : QoS) : Subscribe :=
  {| subscribe_pkid := 0; filters := [mkSubscribeFilter path qos] |}.

Definition Subscribe_new_many (topics : list SubscribeFilter) : Subscribe :=
  {| subscribe_pkid := 0; filters := topics |}.

Definition Subscribe_add (self : Subscribe) (path : Bytes) (qos : QoS) : Subscribe :=
  {| subscribe_pkid := subscribe_pkid self;
     filters := filters self ++ [mkSubscribeFilter path qos] |}.

Definition SubscribeFilter_len (self : SubscribeFilter) : usize := 2 + blen (path self) + 1.

Definition SubscribeFilter_write (self : SubscribeFilter) : M Bytes Error unit :=
  let options := Z.lor 0 (QoS_as_u8 (filter_qos self)) in
  write_mqtt_string (path self);;
  put_u8 options.

Definition Subscribe_len (self : Subscribe) : usize :=
  2 + fold_left (λ s t, s + SubscribeFilter_len t) (filters self) 0.

Definition Subscribe_size (self : Subscribe) : usize :=
  let len := Subscribe_len self in
  let remaining_len_size := len_len len in
  1 + remaining_len_size + len.

(** [while bytes.has_remaining()]; an iteration consumes at least three bytes. *)
Fixpoint Subscribe_read_loop (fuel : nat) (filters : list SubscribeFilter)
    : M Bytes Error (list SubscribeFilter) :=
  bytes ← mget;
  if blen bytes =? 0 then mret filters
  else
    match fuel with
    | O => mpanic
    | S fuel =>
        path ← read_mqtt_string;
        options ← read_u8;
        if negb (Z.land options 0xFC =? 0) then mfail IncorrectPacketFormat
        else
          let requested_qos := Z.land options 3 in
          q ← lift (qos requested_qos);
          Subscribe_read_loop fuel (filters ++ [mkSubscribeFilter path q])
    end.

Definition Subscribe_read (fixed_header : FixedHeader) (bytes : Bytes) : outcome Error Subscribe :=
  run_on bytes (
    advance (header_len fixed_header);;
    pkid ← read_u16;
    if pkid =? 0 then mfail PacketIdZero
    else
      bytes ← mget;
      filters ← Subscribe_read_loop (length bytes) [];
      if blen filters =? 0 then mfail EmptySubscription
      else mret (mkSubscribe pkid filters)).

(** [for filter in &self.filters { filter.write(buffer)?; }]. *)
Fixpoint Subscribe_write_filters (filters : list SubscribeFilter) : M Bytes Error unit :=
  match filters with
  | [] => mret tt
  | filter :: rest => SubscribeFilter_write filter;; Subscribe_write_filters rest
  end.

Definition Subscribe_write_inner (self : Subscribe) : M Bytes Error usize :=
  if subscribe_pkid self =? 0 then mfail PacketIdZero
  else if blen (filters self) =? 0 then mfail EmptySubscription
  else
    put_u8 0x82;;
    let remaining_len := Subscribe_len self in
    remaining_len_bytes ← write_remaining_length remaining_len;
    put_u16 (subscribe_pkid self);;
    Subscribe_write_filters (filters self);;
    mret (1 + remaining_len_bytes + remaining_len).

Definition Subscribe_write (self : Subscribe) : M Bytes Error usize :=
  transactional_write (Subscribe_write_inner self).

(** * UNSUBSCRIBE *)

Record Unsubscribe := mkUnsubscribe { unsubscribe_pkid : u16; topics : list Bytes }.

Definition Unsubscribe_new (topic : Bytes) : Unsubscribe :=
  {| unsubscribe_pkid := 0; topics := [topic] |}.

Definition Unsubscribe_len (self : Unsubscribe) : usize :=
  2 + fold_left (λ s t, s + blen t + 2) (topics self) 0.

Definition Unsubscribe_size (self : Unsubscribe) : usize :=
  let len := Unsubscribe_len self in
  let remaining_len_size := len_len len in
  1 + remaining_len_size + len.

(** [while payload_bytes > 0].  The [usize] subtraction underflows, and panics, when a topic is
    longer than what the header promised. *)
Fixpoint Unsubscribe_read_loop (fuel : nat) (payload_bytes : usize) (topics : list Bytes)
    : M Bytes Error (list Bytes) :=
  if negb (0 <? payload_bytes) then mret topics
  else
    match fuel with
    | O => mpanic
    | S fuel =>
        topic_filter ← read_mqtt_string;
        if payload_bytes <? blen topic_filter + 2 then mpanic
        else
          let payload_bytes := payload_bytes - (blen topic_filter + 2) in
          Unsubscribe_read_loop fuel payload_bytes (topics ++ [topic_filter])
    end.

Definition Unsubscribe_read (fixed_header : FixedHeader) (bytes : Bytes)
    : outcome Error Unsubscribe :=
  run_on bytes (
    advance (header_len fixed_header);;
    pkid ← read_u16;
    if pkid =? 0 then mfail PacketIdZero
    else if remaining_len fixed_header <? 2 then mpanic
    else
      let payload_bytes := remaining_len fixed_header - 2 in
      bytes ← mget;
      topics ← Unsubscribe_read_loop (length bytes) payload_bytes [];
      if blen topics =? 0 then mfail EmptyUnsubscription
      else mret (mkUnsubscribe pkid topics)).

Fixpoint Unsubscribe_write_topics (topics : list Bytes) : M Bytes Error unit :=
  match topics with
  | [] => mret tt
  | topic :: rest => write_mqtt_string topic;; Unsubscribe_write_topics rest
  end.

Definition Unsubscribe_write_inner (self : Unsubscribe) : M Bytes Error usize :=
  if unsubscribe_pkid self =? 0 then mfail PacketIdZero
  else if blen (topics self) =? 0 then mfail EmptyUnsubscription
  else
    let remaining_len := Unsubscribe_len self in
    put_u8 0xA2;;
    remaining_len_bytes ← write_remaining_length remaining_len;
    put_u16 (unsubscribe_pkid self);;
    Unsubscribe_write_topics (topics self);;
    mret (1 + remaining_len_bytes + remaining_len).

Definition Unsubscribe_write (self : Unsubscribe) : M Bytes Error usize :=
  transactional_write (Unsubscribe_write_inner self).

(** * Laws of SUBSCRIBE *)

Definition filter_bytes (f : SubscribeFilter) : Bytes :=
  field_bytes (path f) ++ [QoS_as_u8 (filter_qos f)].

Definition Subscribe_content (s : Subscribe) : Bytes :=
  u16_bytes (subscribe_pkid s) ++ concat (map filter_bytes (filters s)).

Definition Subscribe_valid (s : Subscribe) : Prop :=
  pkid_valid (subscribe_pkid s) ∧ filters s ≠ [] ∧
  Forall (λ f, mqtt_string (path f)) (filters s) ∧
  Subscribe_len s ≤ MAX_REMAINING_LENGTH.

#[global] Instance Subscribe_wire : WirePacket Subscribe := {|
  wire_read := Subscribe_read; wire_write := Subscribe_write; wire_size := Subscribe_size;
  wire_byte1 _ := 0x82; wire_content := Subscribe_content;
  wire_valid := Subscribe_valid; wire_sendable _ := True |}.

Lemma blen_filter_bytes f : SubscribeFilter_len f = blen (filter_bytes f).
Proof.
  unfold SubscribeFilter_len, filter_bytes. autorewrite with blen. lia.
Qed.

Lemma blen_Subscribe_content s : blen (Subscribe_content s) = Subscribe_len s.
Proof.
  unfold Subscribe_content, Subscribe_len.
  rewrite (fold_left_blen _ filter_bytes) by apply blen_filter_bytes.
  rewrite blen_app, blen_u16_bytes. lia.
Qed.

Lemma options_ok q :
  (Z.land (QoS_as_u8 q) 0xFC =? 0) = true ∧ qos (Z.land (QoS_as_u8 q) 3) = Ok q.
Proof. by destruct q. Qed.

Lemma writes_filters fs :
  Forall (λ f, mqtt_string (path f)) fs →
  writes (Subscribe_write_filters fs) (concat (map filter_bytes fs)) tt.
Proof.
  induction 1 as [|f fs Hf _ IH]; [apply writes_ret|].
  cbn [Subscribe_write_filters map concat].
  eapply writes_bind; [|exact IH]. unfold SubscribeFilter_write, filter_bytes.
  eapply writes_bind; [by apply writes_v4_mqtt_string|].
  rewrite Z.lor_0_l. apply writes_put_u8.
Qed.

Lemma Subscribe_read_loop_ok fs fuel acc :
  Forall (λ f, mqtt_string (path f)) fs → (length fs ≤ fuel)%nat →
  Subscribe_read_loop fuel acc (concat (map filter_bytes fs)) = (Ok (acc ++ fs), []).
Proof.
  intros Hfs. revert fuel acc. induction Hfs as [|f fs Hf _ IH]; intros fuel acc Hl; simpl in Hl.
  { destruct fuel; simpl; by rewrite app_nil_r. }
  destruct fuel as [|fuel]; [lia|]. cbn [Subscribe_read_loop map concat].
  rewrite bind_run. cbn [mget]. rewrite (proj2 (Z.eqb_neq _ _)).
  2: { rewrite blen_app, <- blen_filter_bytes. unfold SubscribeFilter_len.
       pose proof (blen_nonneg (path f)). pose proof (blen_nonneg (concat (map filter_bytes fs))).
       lia. }
  unfold filter_bytes at 1. rewrite <- (assoc_L (++)).
  rewrite bind_run, reads_v4_mqtt_string by done. rewrite bind_run, reads_v4_u8.
  destruct (options_ok (filter_qos f)) as [-> Hq]. simpl.
  rewrite bind_run. unfold lift. rewrite Hq, IH by lia. destruct f.
  by rewrite <- (assoc_L (++)).
Qed.

Lemma qos_safe n : match qos n with Ok _ => True | Err e => body_error e | Panic => False end.
Proof. unfold qos, ok_or. by destruct (core_qos n). Qed.

Lemma Subscribe_read_loop_safe fuel acc s :
  (length s ≤ fuel)%nat → Forall is_u8 s → Forall (λ f, mqtt_string (path f)) acc →
  wp (Subscribe_read_loop fuel acc)
    (λ fs _, Forall (λ f, mqtt_string (path f)) fs ∧
      blen (concat (map filter_bytes fs)) = blen (concat (map filter_bytes acc)) + blen s)
    (λ e _, body_error e) s.
Proof.
  revert acc s. induction fuel as [|fuel IH]; intros acc s Hf Hs Hacc;
    cbn [Subscribe_read_loop]; apply wp_bind, wp_get.
  { destruct s; simpl in Hf; [|lia]. apply wp_ret. by rewrite blen_nil, Z.add_0_r. }
  destruct (Z.eqb_spec (blen s) 0) as [H0|H0].
  { apply wp_ret. split; [done|lia]. }
  wp_read. intros p s1 (Hp & Hs1 & ->). wp_read. intros o s2 (Ho & Hs2 & ->).
  destruct (negb _); [by apply wp_fail|]. apply wp_bind, wp_lift.
  pose proof (qos_safe (Z.land o 3)) as Hq. destruct (qos (Z.land o 3)) as [q| |]; [|done|done].
  eapply wp_mono; [apply IH| |done].
  - rewrite length_app in Hf. simpl in Hf. lia.
  - done.
  - apply Forall_app. split; [done|]. by apply Forall_singleton.
  - intros fs _ [? ->]. split; [done|].
    rewrite map_app, concat_app. cbn [map concat].
    rewrite app_nil_r, !blen_app, <- blen_filter_bytes.
    unfold SubscribeFilter_len. cbn [path]. rewrite blen_field_bytes, blen_cons. lia.
Qed.

#[global] Instance Subscribe_laws : WirePacketLaws Subscribe.
Proof.
  split.
  - intros a ([? ?] & Hne & Hfs & Hl) _. unfold frame_bytes.
    cbn [wire_write wire_byte1 wire_content wire_size Subscribe_wire].
    pose proof (blen_nonneg (Subscribe_content a)).
    rewrite blen_Subscribe_content in *. apply writes_transactional.
    unfold Subscribe_write_inner. rewrite (proj2 (Z.eqb_neq _ 0)) by done.
    rewrite (proj2 (Z.eqb_neq _ 0)) by (by intros ?%blen_zero).
    apply writes_frame; [lia|]. eapply writes_bind; [apply writes_put_u16|].
    eapply writes_last; [by apply writes_filters|done].
  - intros [pkid fs] hdr ([? ?] & Hne & Hfs & Hl).
    cbn [wire_read wire_byte1 wire_content Subscribe_wire subscribe_pkid filters] in *.
    unfold Subscribe_read, Subscribe_content. cbn [header_len subscribe_pkid filters].
    rewrite run_on_skip_header. erewrite run_on_bind by (by apply reads_v4_u16).
    rewrite (proj2 (Z.eqb_neq _ 0)) by done.
    unfold run_on. rewrite bind_run. cbn [mget].
    rewrite bind_run, Subscribe_read_loop_ok; [|done|].
    + simpl. by rewrite (proj2 (Z.eqb_neq _ 0)) by (by intros ?%blen_zero).
    + apply length_concat_map_ge. done.
  - intros a _. unfold frame_bytes. cbn [wire_byte1 wire_content wire_size Subscribe_wire].
    unfold Subscribe_size.
    rewrite blen_cons, blen_app, blen_remaining_length_bytes, blen_Subscribe_content. lia.
  - intros a ([? ?] & Hne & Hfs & Hl). cbn [wire_content Subscribe_wire].
    rewrite blen_Subscribe_content. split.
    + apply Forall_app. split; [by apply u16_bytes_u8|].
      apply Forall_concat, Forall_map. eapply Forall_impl; [exact Hfs|].
      intros f Hf. apply Forall_app. split; [apply field_bytes_u8, Hf|].
      constructor; [|constructor]. unfold is_u8. destruct (filter_qos f); simpl; lia.
    + rewrite <- blen_Subscribe_content in *. unfold Subscribe_content in *.
      pose proof (blen_nonneg (concat (map filter_bytes (filters a)))).
      rewrite blen_app, blen_u16_bytes in *. lia.
  - intros h bytes ? ? ? ? Hb. cbn [wire_read wire_valid Subscribe_wire]. unfold Subscribe_read.
    apply run_on_wp, wp_skip_header; [done|lia|]. intros s Hs Hls.
    wp_read. intros pkid s1 (? & ? & ->). destruct (Z.eqb_spec pkid 0); [by apply wp_fail|].
    apply wp_bind, wp_get, wp_bind.
    eapply wp_mono; [by apply Subscribe_read_loop_safe| |done].
    intros fs s2 [Hfs Hlen]. destruct (Z.eqb_spec (blen fs) 0); [by apply wp_fail|].
    apply wp_ret. rewrite blen_app, blen_u16_bytes in Hls. cbn [map concat] in Hlen.
    rewrite blen_nil in Hlen. split; [by split|]. split; [by intros Hnil; simpl in Hnil; subst|]. split; [done|].
    rewrite <- blen_Subscribe_content. unfold Subscribe_content. cbn [subscribe_pkid filters].
    rewrite blen_app, blen_u16_bytes. lia.
  - intros a s. cbn [wire_write Subscribe_wire]. apply total_transactional.
    unfold Subscribe_write_inner. destruct (_ =? 0); [done|]. destruct (_ =? 0); [done|].
    apply (total_bind (put_u8 _)); [done|]. intros _. apply total_bind.
    { apply total_write_remaining_length. rewrite <- blen_Subscribe_content. apply blen_nonneg. }
    intros n. apply (total_bind (put_u16 _)); [done|]. intros _. apply total_bind; [|done].
    induction (filters a) as [|f fs IH]; [done|]. apply total_bind; [|done].
    by apply total_bind; [apply total_write_mqtt_string|].
  - intros a. cbn [wire_write Subscribe_wire]. apply appends_transactional.
    unfold Subscribe_write_inner. destruct (_ =? 0); [auto with appends|].
    destruct (_ =? 0); [auto with appends|].
    assert (appends (Subscribe_write_filters (filters a))).
    { induction (filters a) as [|f fs IH]; [apply appends_ret|].
      apply appends_bind; [|done]. unfold SubscribeFilter_write. auto with appends. }
    auto 10 with appends.
Qed.

(** * Laws of UNSUBSCRIBE *)

Definition Unsubscribe_content (u : Unsubscribe) : Bytes :=
  u16_bytes (unsubscribe_pkid u) ++ concat (map field_bytes (topics u)).

Definition Unsubscribe_valid (u : Unsubscribe) : Prop :=
  pkid_valid (unsubscribe_pkid u) ∧ topics u ≠ [] ∧ Forall mqtt_string (topics u) ∧
  Unsubscribe_len u ≤ MAX_REMAINING_LENGTH.

#[global] Instance Unsubscribe_wire : WirePacket Unsubscribe := {|
  wire_read := Unsubscribe_read; wire_write := Unsubscribe_write; wire_size := Unsubscribe_size;
  wire_byte1 _ := 0xA2; wire_content := Unsubscribe_content;
  wire_valid := Unsubscribe_valid; wire_sendable _ := True |}.

Lemma blen_Unsubscribe_content u : blen (Unsubscribe_content u) = Unsubscribe_len u.
Proof.
  unfold Unsubscribe_content, Unsubscribe_len.
  rewrite blen_app, blen_u16_bytes. f_equal.
  transitivity (fold_left (λ s t, s + (blen t + 2)) (topics u) 0).
  - rewrite (fold_left_blen (λ t, blen t + 2) field_bytes); [lia|].
    intros t. rewrite blen_field_bytes. lia.
  - generalize 0. induction (topics u) as [|t ts IH]; intros z; simpl; [done|].
    by rewrite IH, Z.add_assoc.
Qed.

Lemma writes_topics ts :
  Forall mqtt_string ts → writes (Unsubscribe_write_topics ts) (concat (map field_bytes ts)) tt.
Proof.
  induction 1 as [|t ts Ht _ IH]; [apply writes_ret|].
  cbn [Unsubscribe_write_topics map concat].
  eapply writes_bind; [by apply writes_v4_mqtt_string|exact IH].
Qed.

Lemma Unsubscribe_read_loop_ok ts fuel acc :
  Forall mqtt_string ts → (length ts ≤ fuel)%nat →
  Unsubscribe_read_loop fuel (blen (concat (map field_bytes ts))) acc
    (concat (map field_bytes ts)) = (Ok (acc ++ ts), []).
Proof.
  intros Hts. revert fuel acc. induction Hts as [|t ts Ht _ IH]; intros fuel acc Hl; simpl in Hl.
  { destruct fuel; simpl; by rewrite app_nil_r. }
  destruct fuel as [|fuel]; [lia|]. cbn [Unsubscribe_read_loop map concat].
  rewrite blen_app, blen_field_bytes. pose proof (blen_nonneg t).
  pose proof (blen_nonneg (concat (map field_bytes ts))).
  rewrite (proj2 (Z.ltb_lt 0 _)) by lia. cbn [negb].
  rewrite bind_run, reads_v4_mqtt_string by done.
  rewrite (proj2 (Z.ltb_ge _ _)) by lia.
  replace (2 + blen t + blen (concat (map field_bytes ts)) - (blen t + 2))
    with (blen (concat (map field_bytes ts))) by lia.
  rewrite IH by lia. by rewrite <- (assoc_L (++)).
Qed.

(** The bytes left always match [payload_bytes], so the subtraction never underflows. *)
Lemma Unsubscribe_read_loop_safe fuel acc s :
  (length s ≤ fuel)%nat → Forall is_u8 s → Forall mqtt_string acc →
  wp (Unsubscribe_read_loop fuel (blen s) acc)
    (λ ts _, Forall mqtt_string ts ∧
      blen (concat (map field_bytes ts)) = blen (concat (map field_bytes acc)) + blen s)
    (λ e _, body_error e) s.
Proof.
  revert acc s. induction fuel as [|fuel IH]; intros acc s Hf Hs Hacc;
    cbn [Unsubscribe_read_loop].
  { destruct s; simpl in Hf; [|lia]. apply wp_ret. by rewrite blen_nil, Z.add_0_r. }
  destruct (Z.ltb_spec 0 (blen s)) as [H0|H0]; cbn [negb].
  2: { apply wp_ret. pose proof (blen_nonneg s). split; [done|lia]. }
  wp_read. intros t s1 (Ht & Hs1 & ->). rewrite blen_app, blen_field_bytes in *.
  pose proof (blen_nonneg s1). rewrite (proj2 (Z.ltb_ge _ _)) by lia.
  replace (2 + blen t + blen s1 - (blen t + 2)) with (blen s1) by lia.
  eapply wp_mono; [apply IH| |done].
  - rewrite length_app in Hf. simpl in Hf. lia.
  - done.
  - apply Forall_app. split; [done|]. by apply Forall_singleton.
  - intros ts _ [? ->]. split; [done|].
    rewrite map_app, concat_app. cbn [map concat].
    rewrite app_nil_r, !blen_app, blen_field_bytes. lia.
Qed.

#[global] Instance Unsubscribe_laws : WirePacketLaws Unsubscribe.
Proof.
  split.
  - intros a ([? ?] & Hne & Hts & Hl) _. unfold frame_bytes.
    cbn [wire_write wire_byte1 wire_content wire_size Unsubscribe_wire].
    pose proof (blen_nonneg (Unsubscribe_content a)).
    rewrite blen_Unsubscribe_content in *. apply writes_transactional.
    unfold Unsubscribe_write_inner. rewrite (proj2 (Z.eqb_neq _ 0)) by done.
    rewrite (proj2 (Z.eqb_neq _ 0)) by (by intros ?%blen_zero).
    apply writes_frame; [lia|]. eapply writes_bind; [apply writes_put_u16|].
    eapply writes_last; [by apply writes_topics|done].
  - intros [pkid ts] hdr ([? ?] & Hne & Hts & Hl).
    cbn [wire_read wire_byte1 wire_content Unsubscribe_wire unsubscribe_pkid topics] in *.
    unfold Unsubscribe_read, Unsubscribe_content.
    cbn [header_len remaining_len unsubscribe_pkid topics].
    rewrite run_on_skip_header. erewrite run_on_bind by (by apply reads_v4_u16).
    rewrite (proj2 (Z.eqb_neq _ 0)) by done. rewrite blen_app, blen_u16_bytes.
    pose proof (blen_nonneg (concat (map field_bytes ts))).
    rewrite (proj2 (Z.ltb_ge _ 2)) by lia.
    replace (2 + blen (concat (map field_bytes ts)) - 2)
      with (blen (concat (map field_bytes ts))) by lia.
    unfold run_on. rewrite bind_run. cbn [mget].
    rewrite bind_run, Unsubscribe_read_loop_ok; [|done|].
    + simpl. by rewrite (proj2 (Z.eqb_neq _ 0)) by (by intros ?%blen_zero).
    + apply length_concat_map_ge. done.
  - intros a _. unfold frame_bytes. cbn [wire_byte1 wire_content wire_size Unsubscribe_wire].
    unfold Unsubscribe_size.
    rewrite blen_cons, blen_app, blen_remaining_length_bytes, blen_Unsubscribe_content. lia.
  - intros a ([? ?] & Hne & Hts & Hl). cbn [wire_content Unsubscribe_wire].
    rewrite blen_Unsubscribe_content. split.
    + apply Forall_app. split; [by apply u16_bytes_u8|].
      apply Forall_concat, Forall_map. eapply Forall_impl; [exact Hts|].
      intros t Ht. apply field_bytes_u8, Ht.
    + rewrite <- blen_Unsubscribe_content in *. unfold Unsubscribe_content in *.
      pose proof (blen_nonneg (concat (map field_bytes (topics a)))).
      rewrite blen_app, blen_u16_bytes in *. lia.
  - intros h bytes ? ? ? ? Hb. cbn [wire_read wire_valid Unsubscribe_wire].
    unfold Unsubscribe_read.
    apply run_on_wp, wp_skip_header; [done|lia|]. intros s Hs Hls.
    wp_read. intros pkid s1 (? & ? & ->). destruct (Z.eqb_spec pkid 0); [by apply wp_fail|].
    rewrite blen_app, blen_u16_bytes in Hls. pose proof (blen_nonneg s1).
    rewrite (proj2 (Z.ltb_ge _ 2)) by lia.
    replace (remaining_len h - 2) with (blen s1) by lia.
    apply wp_bind, wp_get, wp_bind.
    eapply wp_mono; [by apply Unsubscribe_read_loop_safe| |done].
    intros ts s2 [Hts Hlen]. destruct (Z.eqb_spec (blen ts) 0); [by apply wp_fail|].
    apply wp_ret. cbn [map concat] in Hlen.
    rewrite blen_nil in Hlen. split; [by split|]. split; [by intros Hnil; simpl in Hnil; subst|]. split; [done|].
    rewrite <- blen_Unsubscribe_content. unfold Unsubscribe_content.
    cbn [unsubscribe_pkid topics]. rewrite blen_app, blen_u16_bytes. lia.
  - intros a s. cbn [wire_write Unsubscribe_wire]. apply total_transactional.
    unfold Unsubscribe_write_inner. destruct (_ =? 0); [done|]. destruct (_ =? 0); [done|].
    apply (total_bind (put_u8 _)); [done|]. intros _. apply total_bind.
    { apply total_write_remaining_length. rewrite <- blen_Unsubscribe_content.
      apply blen_nonneg. }
    intros n. apply (total_bind (put_u16 _)); [done|]. intros _. apply total_bind; [|done].
    induction (topics a) as [|t ts IH]; [done|].
    by apply total_bind; [apply total_write_mqtt_string|].
  - intros a. cbn [wire_write Unsubscribe_wire]. apply appends_transactional.
    unfold Unsubscribe_write_inner. destruct (_ =? 0); [auto with appends|].
    destruct (_ =? 0); [auto with appends|].
    assert (appends (Unsubscribe_write_topics (topics a))).
    { induction (topics a) as [|t ts IH]; [apply appends_ret|].
      apply appends_bind; [apply appends_write_mqtt_string|done]. }
    auto 10 with appends.
Qed.
