(* ===== verification/V4Connect.v ===== *)
(** [mqttbytes-v4/src/v4/connect.rs]: CONNECT, its last will and its credentials. *)

From S2P Require Import Prelude.
From S2P Require Import Utf8.
From S2P Require Import Primitives.
From S2P Require Import CodecBase.
From S2P Require Import V4Base.
From S2P Require Import V4Acks.
From S2P Require Import V4Subscribe.

Record LastWill := mkLastWill {
  will_topic : Bytes;
  message : Bytes;
  will_qos : QoS;
  will_retain : bool;
}.

Inductive ConnectAuth :=
| Auth_None
| Auth_Username (username : Bytes)
| Auth_UsernamePassword (username password : Bytes).

Record Connect := mkConnect {
  keep_alive : u16;
  client_id : Bytes;
  clean_session : bool;
  last_will : option LastWill;
  auth : ConnectAuth;
}.

Definition Connect_new (id : Bytes) : Connect :=
  {| keep_alive := 10; client_id := id; clean_session := true; last_will := None;
     auth := Auth_None |}.

Definition Connect_set_auth (self : Connect) (auth : ConnectAuth) : Connect :=
  {| keep_alive := keep_alive self; client_id := client_id self;
     clean_session := clean_session self; last_will := last_will self; auth := auth |}.

Definition Connect_clear_auth (self : Connect) : Connect := Connect_set_auth self Auth_None.
Definition Connect_set_username (self : Connect) (username : Bytes) : Connect :=
  Connect_set_auth self (Auth_Username username).
Definition Connect_set_credentials (self : Connect) (username password : Bytes) : Connect :=
  Connect_set_auth self (Auth_UsernamePassword username password).

(** The literal MQTT. *)
Definition MQTT : Bytes := [77; 81; 84; 84].

(** ** Last will *)

Definition LastWill_len (self : LastWill) : usize :=
  0 + (2 + blen (will_topic self) + 2 + blen (message self)).

Definition LastWill_read (connect_flags : u8) : M Bytes Error (option LastWill) :=
  if Z.land connect_flags 4 =? 0 then
    if negb (Z.land connect_flags 56 =? 0) then mfail IncorrectPacketFormat
    else mret None
  else
    will_topic ← read_mqtt_string;
    will_message ← read_mqtt_bytes;
    will_qos ← lift (qos (Z.shiftr (Z.land connect_flags 24) 3));
    mret (Some {| will_topic := will_topic; message := will_message; will_qos := will_qos;
                  will_retain := negb (Z.land connect_flags 32 =? 0) |}).

Definition LastWill_write_inner (self : LastWill) : M Bytes Error u8 :=
  let connect_flags := Z.lor 0 (Z.lor 4 (Z.shiftl (QoS_as_u8 (will_qos self)) 3)) in
  let connect_flags := if will_retain self then Z.lor connect_flags 32 else connect_flags in
  write_mqtt_string (will_topic self);;
  write_mqtt_bytes (message self);;
  mret connect_flags.

Definition LastWill_write (self : LastWill) : M Bytes Error u8 :=
  transactional_write (LastWill_write_inner self).

(** ** Credentials *)

Definition ConnectAuth_read (connect_flags : u8) : M Bytes Error ConnectAuth :=
  let username_flag := negb (Z.land connect_flags 128 =? 0) in
  let password_flag := negb (Z.land connect_flags 64 =? 0) in
  match username_flag, password_flag with
  | false, false => mret Auth_None
  | true, false => username ← read_mqtt_string; mret (Auth_Username username)
  | true, true =>
      username ← read_mqtt_string;
      password ← read_mqtt_bytes;
      mret (Auth_UsernamePassword username password)
  | false, true => mfail IncorrectPacketFormat
  end.

Definition ConnectAuth_len (self : ConnectAuth) : usize :=
  match self with
  | Auth_None => 0
  | Auth_Username username => 2 + blen username
  | Auth_UsernamePassword username password => 2 + blen username + 2 + blen password
  end.

Definition ConnectAuth_write_inner (self : ConnectAuth) : M Bytes Error u8 :=
  match self with
  | Auth_None => mret 0
  | Auth_Username username => write_mqtt_string username;; mret 0x80
  | Auth_UsernamePassword username password =>
      write_mqtt_string username;;
      write_mqtt_bytes password;;
      mret 0xC0
  end.

Definition ConnectAuth_write (self : ConnectAuth) : M Bytes Error u8 :=
  transactional_write (ConnectAuth_write_inner self).

Definition ConnectAuth_validate (self : ConnectAuth) (username password : Bytes) : bool :=
  match self with
  | Auth_UsernamePassword actual_username actual_password =>
      bool_decide (actual_username = username) && bool_decide (actual_password = password)
  | _ => false
  end.

(** ** CONNECT *)

Definition validate_connect_flags (connect_flags : u8) : outcome Error unit :=
  if negb (Z.land connect_flags 1 =? 0) then Err IncorrectPacketFormat
  else
    let username_flag := negb (Z.land connect_flags 128 =? 0) in
    let password_flag := negb (Z.land connect_flags 64 =? 0) in
    if password_flag && negb username_flag then Err IncorrectPacketFormat else Ok tt.

Definition Connect_len (self : Connect) : usize :=
  let len := 2 + blen MQTT + 1 + 1 + 2 in
  let len := len + (2 + blen (client_id self)) in
  let len := match last_will self with
             | Some last_will => len + LastWill_len last_will
             | None => len
             end in
  len + ConnectAuth_len (auth self).

Definition Connect_read (fixed_header : FixedHeader) (bytes : Bytes) : outcome Error Connect :=
  run_on bytes (
    advance (header_len fixed_header);;
    protocol_name ← read_mqtt_string;
    protocol_level ← read_u8;
    if negb (bool_decide (protocol_name = MQTT)) then mfail InvalidProtocol
    else if negb (protocol_level =? 4) then mfail (InvalidProtocolLevel protocol_level)
    else
      connect_flags ← read_u8;
      lift (validate_connect_flags connect_flags);;
      let clean_session := negb (Z.land connect_flags 2 =? 0) in
      keep_alive ← read_u16;
      client_id ← read_mqtt_string;
      last_will ← LastWill_read connect_flags;
      auth ← ConnectAuth_read connect_flags;
      bytes ← mget;
      if negb (blen bytes =? 0) then mfail IncorrectPacketFormat
      else mret {| keep_alive := keep_alive; client_id := client_id;
                   clean_session := clean_session; last_will := last_will; auth := auth |}).

Definition Connect_write_inner (self : Connect) : M Bytes Error usize :=
  if (blen (client_id self) =? 0) && negb (clean_session self) then mfail IncorrectPacketFormat
  else
    let len := Connect_len self in
    put_u8 0x10;;
    count ← write_remaining_length len;
    write_mqtt_string MQTT;;
    put_u8 0x04;;
    let connect_flags := if clean_session self then Z.lor 0 2 else 0 in
    buffer ← mget;
    let flags_index := blen buffer in
    put_u8 connect_flags;;
    put_u16 (keep_alive self);;
    write_mqtt_string (client_id self);;
    connect_flags ← match last_will self with
                    | Some last_will =>
                        flags ← LastWill_write last_will;
                        mret (Z.lor connect_flags flags)
                    | None => mret connect_flags
                    end;
    flags ← ConnectAuth_write (auth self);
    let connect_flags := Z.lor connect_flags flags in
    set_index flags_index connect_flags;;
    mret (1 + count + len).

Definition Connect_write (self : Connect) : M Bytes Error usize :=
  transactional_write (Connect_write_inner self).

Definition Connect_size (self : Connect) : usize :=
  let len := Connect_len self in
  let remaining_len_size := len_len len in
  1 + remaining_len_size + len.

(** * Laws *)

Definition will_valid (w : LastWill) : Prop :=
  mqtt_string (will_topic w) ∧ mqtt_bytes (message w).

Definition auth_valid (a : ConnectAuth) : Prop :=
  match a with
  | Auth_None => True
  | Auth_Username u => mqtt_string u
  | Auth_UsernamePassword u p => mqtt_string u ∧ mqtt_bytes p
  end.

Definition Connect_valid (c : Connect) : Prop :=
  is_u16 (keep_alive c) ∧ mqtt_string (client_id c) ∧
  (∀ w, last_will c = Some w → will_valid w) ∧ auth_valid (auth c).

(** MQTT-3.1.3-7, checked by [write_inner] and not by [read]. *)
Definition Connect_sendable (c : Connect) : Prop :=
  client_id c = [] → clean_session c = true.

Definition will_flags (w : LastWill) : u8 :=
  let connect_flags := Z.lor 0 (Z.lor 4 (Z.shiftl (QoS_as_u8 (will_qos w)) 3)) in
  if will_retain w then Z.lor connect_flags 32 else connect_flags.

Definition auth_flags (a : ConnectAuth) : u8 :=
  match a with Auth_None => 0 | Auth_Username _ => 0x80 | Auth_UsernamePassword _ _ => 0xC0 end.

Definition Connect_flags (c : Connect) : u8 :=
  let f := if clean_session c then Z.lor 0 2 else 0 in
  let f := match last_will c with Some w => Z.lor f (will_flags w) | None => f end in
  Z.lor f (auth_flags (auth c)).

Definition will_bytes (w : LastWill) : Bytes :=
  field_bytes (will_topic w) ++ field_bytes (message w).

Definition auth_bytes (a : ConnectAuth) : Bytes :=
  match a with
  | Auth_None => []
  | Auth_Username u => field_bytes u
  | Auth_UsernamePassword u p => field_bytes u ++ field_bytes p
  end.

(** Everything after the connect flags. *)
Definition Connect_tail (c : Connect) : Bytes :=
  u16_bytes (keep_alive c) ++ field_bytes (client_id c) ++
  (match last_will c with Some w => will_bytes w | None => [] end ++ auth_bytes (auth c)).

Definition Connect_content (c : Connect) : Bytes :=
  field_bytes MQTT ++ [4] ++ [Connect_flags c] ++ Connect_tail c.

#[global] Instance Connect_wire : WirePacket Connect := {|
  wire_read := Connect_read; wire_write := Connect_write; wire_size := Connect_size;
  wire_byte1 _ := 0x10; wire_content := Connect_content;
  wire_valid := Connect_valid; wire_sendable := Connect_sendable |}.

Lemma MQTT_string : mqtt_string MQTT.
Proof.
  repeat split; try done.
  - repeat constructor; unfold is_u8; lia.
  - by apply contains_byte_false.
Qed.

Lemma blen_Connect_content c : blen (Connect_content c) = Connect_len c.
Proof.
  unfold Connect_content, Connect_tail, Connect_len, LastWill_len, ConnectAuth_len, will_bytes,
    auth_bytes.
  destruct (last_will c), (auth c); autorewrite with blen; lia.
Qed.

Lemma Connect_len_bound c : Connect_valid c → 12 ≤ Connect_len c ≤ MAX_REMAINING_LENGTH.
Proof.
  intros (_ & [[_ Hid] _] & Hw & Ha). unfold Connect_len, MAX_REMAINING_LENGTH.
  assert (H0 : 0 ≤ ConnectAuth_len (auth c) ≤ 131074).
  { unfold auth_valid, ConnectAuth_len, mqtt_string, mqtt_bytes, u16_MAX in *.
    destruct (auth c) as [|u|u p]; simpl in *; [lia|..];
      pose proof (blen_nonneg u); [lia|]; pose proof (blen_nonneg p); lia. }
  assert (H1 : ∀ w, last_will c = Some w → 0 ≤ LastWill_len w ≤ 131074).
  { intros w [[[_ ?] _] [_ ?]]%Hw. unfold LastWill_len, u16_MAX in *.
    pose proof (blen_nonneg (will_topic w)). pose proof (blen_nonneg (message w)). lia. }
  change (blen MQTT) with 4. pose proof (blen_nonneg (client_id c)). unfold u16_MAX in *.
  destruct (last_will c) as [w|]; [specialize (H1 w eq_refl)|]; lia.
Qed.

(** ** The flags byte *)

Lemma Connect_flags_decode c :
  let f := Connect_flags c in
  is_u8 f ∧ validate_connect_flags f = Ok tt ∧
  negb (Z.land f 2 =? 0) = clean_session c ∧
  (Z.land f 4 =? 0) = (match last_will c with Some _ => false | None => true end) ∧
  (last_will c = None → (Z.land f 56 =? 0) = true) ∧
  (∀ w, last_will c = Some w →
     qos (Z.shiftr (Z.land f 24) 3) = Ok (will_qos w) ∧
     negb (Z.land f 32 =? 0) = will_retain w) ∧
  negb (Z.land f 128 =? 0) = (match auth c with Auth_None => false | _ => true end) ∧
  negb (Z.land f 64 =? 0) = (match auth c with Auth_UsernamePassword _ _ => true | _ => false end).
Proof.
  unfold Connect_flags, will_flags, is_u8. destruct c as [ka id cs lw au]. simpl.
  destruct cs, lw as [[? ? [] []]|], au; simpl; split_and!; try done;
    intros ? [= <-]; done.
Qed.

(** ** Writing *)

Lemma writes_will w : will_valid w → writes (LastWill_write w) (will_bytes w) (will_flags w).
Proof.
  intros [? ?]. apply writes_transactional. unfold LastWill_write_inner, will_bytes.
  eapply writes_bind; [by apply writes_v4_mqtt_string|].
  eapply writes_last; [by apply writes_v4_mqtt_bytes|done].
Qed.

Lemma writes_auth a : auth_valid a → writes (ConnectAuth_write a) (auth_bytes a) (auth_flags a).
Proof.
  intros Ha. apply writes_transactional.
  destruct a as [|u|u p]; cbn [auth_valid ConnectAuth_write_inner auth_bytes auth_flags] in *.
  - apply writes_ret.
  - eapply writes_last; [by apply writes_v4_mqtt_string|done].
  - destruct Ha. eapply writes_bind; [by apply writes_v4_mqtt_string|].
    eapply writes_last; [by apply writes_v4_mqtt_bytes|done].
Qed.

(** The part of [write_inner] from the flags on: write a provisional flags byte, then the
    fields, then patch the flags byte. *)
Lemma Connect_write_flags c (n : usize) :
  Connect_valid c →
  writes (E:=Error) (A:=usize) (
    let connect_flags := if clean_session c then Z.lor 0 2 else 0 in
    buffer ← mget;
    let flags_index := blen buffer in
    put_u8 connect_flags;;
    put_u16 (keep_alive c);;
    write_mqtt_string (client_id c);;
    connect_flags ← match last_will c with
                    | Some last_will =>
                        flags ← LastWill_write last_will;
                        mret (Z.lor connect_flags flags)
                    | None => mret connect_flags
                    end;
    flags ← ConnectAuth_write (auth c);
    let connect_flags := Z.lor connect_flags flags in
    set_index flags_index connect_flags;;
    mret n) ([Connect_flags c] ++ Connect_tail c) n.
Proof.
  intros (Hk & Hid & Hw & Ha) s. cbv zeta. rewrite bind_run. cbn [mget].
  set (f0 := if clean_session c then Z.lor 0 2 else 0).
  rewrite bind_run, writes_put_u8, bind_run, writes_put_u16.
  rewrite bind_run, writes_v4_mqtt_string by done.
  assert (Hwill : writes (match last_will c with
    | Some last_will => flags ← LastWill_write last_will; mret (Z.lor f0 flags)
    | None => mret f0 end)
    (match last_will c with Some w => will_bytes w | None => [] end)
    (match last_will c with Some w => Z.lor f0 (will_flags w) | None => f0 end)).
  { destruct (last_will c) as [w|]; [|apply writes_ret].
    eapply writes_last; [by apply writes_will, Hw|done]. }
  rewrite bind_run, Hwill, bind_run, writes_auth by done.
  fold (u16_bytes (keep_alive c)). rewrite <- !(assoc_L (++)).
  fold (Connect_tail c). cbn [app]. rewrite bind_run, set_index_app. done.
Qed.

Lemma writes_Connect c :
  Connect_valid c → Connect_sendable c → writes (Connect_write c) (frame_bytes c) (Connect_size c).
Proof.
  intros Hv Hs. unfold frame_bytes. cbn [wire_byte1 wire_content Connect_wire].
  rewrite blen_Connect_content. pose proof (Connect_len_bound c Hv).
  apply writes_transactional. unfold Connect_write_inner.
  assert ((blen (client_id c) =? 0) && negb (clean_session c) = false) as ->.
  { destruct (Z.eqb_spec (blen (client_id c)) 0) as [H0|]; [|done].
    apply blen_zero in H0. by rewrite Hs. }
  apply writes_frame; [lia|]. unfold Connect_content.
  eapply writes_bind; [apply writes_v4_mqtt_string, MQTT_string|].
  eapply writes_bind; [apply writes_put_u8|]. by apply Connect_write_flags.
Qed.

(** ** Reading *)

Lemma reads_will c :
  Connect_valid c →
  reads (LastWill_read (Connect_flags c))
    (match last_will c with Some w => will_bytes w | None => [] end) (last_will c).
Proof.
  intros (_ & _ & Hw & _).
  destruct (Connect_flags_decode c) as (_ & _ & _ & Hf4 & Hf0 & Hfw & _).
  unfold LastWill_read. rewrite Hf4. destruct (last_will c) as [w|].
  - destruct (Hw w eq_refl) as [? ?]. destruct (Hfw w eq_refl) as [Hq Hr].
    unfold will_bytes. eapply reads_bind; [by apply reads_v4_mqtt_string|].
    rewrite <- (app_nil_r (field_bytes (message w))).
    eapply reads_bind; [by apply reads_v4_mqtt_bytes|].
    eapply reads_bind_nil; [by apply reads_lift|]. rewrite Hr. destruct w. apply reads_ret.
  - rewrite Hf0 by done. apply reads_ret.
Qed.

Lemma reads_auth c :
  Connect_valid c → reads (ConnectAuth_read (Connect_flags c)) (auth_bytes (auth c)) (auth c).
Proof.
  intros (_ & _ & _ & Ha).
  destruct (Connect_flags_decode c) as (_ & _ & _ & _ & _ & _ & Hf1 & Hf2).
  unfold ConnectAuth_read. rewrite Hf1, Hf2. destruct (auth c) as [|u|u p];
    cbn [auth_valid auth_bytes] in *.
  - apply reads_ret.
  - rewrite <- (app_nil_r (field_bytes u)).
    eapply reads_bind; [by apply reads_v4_mqtt_string|]. apply reads_ret.
  - destruct Ha. eapply reads_bind; [by apply reads_v4_mqtt_string|].
    rewrite <- (app_nil_r (field_bytes p)).
    eapply reads_bind; [by apply reads_v4_mqtt_bytes|]. apply reads_ret.
Qed.

Lemma Connect_read_content c hdr h :
  Connect_valid c → header_len h = blen hdr →
  Connect_read h (hdr ++ Connect_content c) = Ok c.
Proof.
  intros Hv Hh. unfold Connect_read. rewrite Hh, run_on_skip_header.
  unfold Connect_content, Connect_tail. pose proof Hv as (Hk & Hid & _ & _).
  destruct (Connect_flags_decode c) as (_ & Hvf & Hcs & _).
  erewrite run_on_bind by (apply reads_v4_mqtt_string, MQTT_string).
  erewrite run_on_bind by (apply reads_v4_u8).
  rewrite bool_decide_eq_true_2 by done. cbn [negb Z.eqb Pos.eqb].
  erewrite run_on_bind by (apply reads_v4_u8).
  rewrite <- (app_nil_l (u16_bytes _ ++ _)).
  erewrite run_on_bind by (by apply reads_lift).
  erewrite run_on_bind by (by apply reads_v4_u16).
  erewrite run_on_bind by (by apply reads_v4_mqtt_string).
  erewrite run_on_bind by (by apply reads_will).
  rewrite <- (app_nil_r (auth_bytes (auth c))).
  erewrite run_on_bind by (by apply reads_auth).
  unfold run_on. rewrite bind_run. cbn. rewrite Hcs. by destruct c.
Qed.

Lemma wp_LastWill_read f s :
  Forall is_u8 s →
  wp (LastWill_read f) (λ w s', (∀ w', w = Some w' → will_valid w') ∧ Forall is_u8 s')
    (λ e _, body_error e) s.
Proof.
  intros Hs. unfold LastWill_read. destruct (_ =? 0).
  - destruct (negb _); [by apply wp_fail|]. by apply wp_ret.
  - wp_read. intros t s1 (Ht & Hs1 & ->). wp_read. intros m s2 (Hm & Hs2 & ->).
    apply wp_bind, wp_lift. pose proof (qos_safe (Z.shiftr (Z.land f 24) 3)) as Hq.
    destruct (qos _); [|done|done]. apply wp_ret. split; [|done]. by intros ? [= <-].
Qed.

Lemma wp_ConnectAuth_read f s :
  Forall is_u8 s →
  wp (ConnectAuth_read f) (λ a s', auth_valid a ∧ Forall is_u8 s') (λ e _, body_error e) s.
Proof.
  intros Hs. unfold ConnectAuth_read. destruct (negb _), (negb _).
  - wp_read. intros u s1 (Hu & Hs1 & ->). wp_read. intros p s2 (Hp & Hs2 & ->). by apply wp_ret.
  - wp_read. intros u s1 (Hu & Hs1 & ->). by apply wp_ret.
  - by apply wp_fail.
  - by apply wp_ret.
Qed.

Lemma Connect_read_safe h bytes :
  Forall is_u8 bytes → 0 ≤ header_len h ≤ blen bytes →
  match Connect_read h bytes with
  | Ok c => Connect_valid c
  | Err e => body_error e
  | Panic => False
  end.
Proof.
  intros Hb Hh. unfold Connect_read. apply run_on_wp, wp_skip_header; [done..|].
  intros s Hs _. wp_read. intros name s1 (_ & Hs1 & ->). wp_read. intros lvl s2 (_ & Hs2 & ->).
  destruct (negb _); [by apply wp_fail|]. destruct (negb _); [by apply wp_fail|].
  wp_read. intros f s3 (_ & Hs3 & ->). apply wp_bind, wp_lift.
  unfold validate_connect_flags.
  destruct (negb (Z.land f 1 =? 0)); [done|]. destruct (_ && _); [done|].
  wp_read. intros ka s4 (? & Hs4 & ->). wp_read. intros id s5 (? & Hs5 & ->).
  apply wp_bind. eapply wp_mono; [by apply wp_LastWill_read| |done]. intros w s6 [Hw Hs6].
  apply wp_bind. eapply wp_mono; [by apply wp_ConnectAuth_read| |done]. intros a s7 [Ha Hs7].
  apply wp_bind, wp_get. destruct (negb _); [by apply wp_fail|]. by apply wp_ret.
Qed.

Lemma total_will w : total (LastWill_write w).
Proof.
  apply total_transactional, total_bind; [apply total_write_mqtt_string|]. intros _.
  by apply total_bind; [apply total_write_mqtt_bytes|].
Qed.

Lemma total_auth a : total (ConnectAuth_write a).
Proof.
  apply total_transactional. destruct a; [done|..];
    (apply total_bind; [apply total_write_mqtt_string|]; intros _); [done|].
  by apply total_bind; [apply total_write_mqtt_bytes|].
Qed.

Lemma appends_will w : appends (LastWill_write w).
Proof.
  apply appends_transactional, appends_bind; [apply appends_write_mqtt_string|]. intros _.
  apply appends_bind; [apply appends_write_mqtt_bytes|]. intros _. apply appends_ret.
Qed.

Lemma appends_auth a : appends (ConnectAuth_write a).
Proof.
  apply appends_transactional. destruct a; [apply appends_ret|..];
    (apply appends_bind; [apply appends_write_mqtt_string|]; intros _); [apply appends_ret|].
  apply appends_bind; [apply appends_write_mqtt_bytes|]. intros _. apply appends_ret.
Qed.

(** The flags byte stays inside the buffer, which only grows, so patching it cannot panic;
    the whole writer appends. *)
Lemma wp_Connect_write_inner c s :
  wp (Connect_write_inner c) (λ _ s', ∃ out, s' = s ++ out) (λ _ s', ∃ out, s' = s ++ out) s.
Proof.
  assert (Hnil : ∃ out, s = s ++ out) by (exists []; by rewrite app_nil_r).
  unfold Connect_write_inner. destruct (_ && _); [by apply wp_fail|].
  assert (Hstep : ∀ A B (m : M Bytes Error A) (k : A → M Bytes Error B) (Q : B → Bytes → Prop) s1,
    total m → appends m → (∃ o, s1 = s ++ o) →
    (∀ a o, wp (k a) Q (λ _ s', ∃ out, s' = s ++ out) (s1 ++ o)) →
    wp (m ≫= k) Q (λ _ s', ∃ out, s' = s ++ out) s1).
  { intros A B m k Q s1 Ht Ha [o ->] Hk. apply wp_bind.
    eapply wp_mono; [by apply wp_writer| |].
    - intros a s' [o' ->]. apply Hk.
    - intros e s' [o' ->]. rewrite <- (assoc_L (++)). eauto. }
  assert (Hlen : total (write_remaining_length (Connect_len c))).
  { apply total_write_remaining_length. rewrite <- blen_Connect_content. apply blen_nonneg. }
  assert (Hw : ∀ f0, total (match last_will c with
    | Some w => flags ← LastWill_write w; mret (Z.lor f0 flags) | None => mret f0 end)).
  { intros f0. destruct (last_will c) as [w|]; [|done]. apply total_bind; [apply total_will|done]. }
  assert (Hw' : ∀ f0, appends (match last_will c with
    | Some w => flags ← LastWill_write w; mret (Z.lor f0 flags) | None => mret f0 end)).
  { intros f0. destruct (last_will c) as [w|]; [|apply appends_ret].
    apply appends_bind; [apply appends_will|]. intros. apply appends_ret. }
  do 4 (apply Hstep; [auto using total_put_u8, total_write_mqtt_string
                     |auto using appends_put_u8, appends_write_remaining_length,
                        appends_write_mqtt_string
                     |rewrite <- ?(assoc_L (++)); eauto|intros ? ?]).
  apply wp_bind, wp_get. cbv zeta.
  set (i := blen _). set (f0 := if clean_session c then _ else _).
  remember (((_ ++ _) ++ _) ++ _) as s0 eqn:Hs0. rewrite <- !(assoc_L (++)) in Hs0.
  apply wp_bind, wp_modify.
  do 4 (apply Hstep; [auto using total_put_u16, total_write_mqtt_string, total_auth
                     |auto using appends_put_u16, appends_write_mqtt_string, appends_auth
                     |subst; rewrite <- ?(assoc_L (++)); eauto|intros ? ?]).
  apply wp_bind. unfold wp. rewrite <- !(assoc_L (++)). cbn [app].
  unfold i. rewrite set_index_app. simpl. subst. rewrite <- ?(assoc_L (++)). eauto.
Qed.

#[global] Instance Connect_laws : WirePacketLaws Connect.
Proof.
  split.
  - apply writes_Connect.
  - intros c hdr Hv. by apply Connect_read_content.
  - intros c _. unfold frame_bytes. cbn [wire_byte1 wire_content wire_size Connect_wire].
    unfold Connect_size.
    rewrite blen_cons, blen_app, blen_remaining_length_bytes, blen_Connect_content. lia.
  - intros c Hv. cbn [wire_content Connect_wire]. rewrite blen_Connect_content.
    pose proof (Connect_len_bound c Hv). split; [|lia].
    destruct Hv as (Hk & Hid & Hw & Ha). unfold Connect_content, Connect_tail.
    rewrite !Forall_app. split_and!.
    + apply field_bytes_u8, MQTT_string.
    + constructor; [unfold is_u8; lia|constructor].
    + constructor; [apply Connect_flags_decode|constructor].
    + by apply u16_bytes_u8.
    + apply field_bytes_u8, Hid.
    + destruct (last_will c) as [w|]; [|constructor]. destruct (Hw w eq_refl) as [[? _] ?].
      by apply Forall_app_2; apply field_bytes_u8.
    + destruct (auth c) as [|u|u p]; [constructor|..]; cbn [auth_valid auth_bytes] in *.
      * apply field_bytes_u8, Ha.
      * destruct Ha as [[? _] ?]. by apply Forall_app_2; apply field_bytes_u8.
  - intros h bytes Hb _ Hh Hr Hl. apply Connect_read_safe; [done|].
    lia.
  - intros c s. apply transactional_total. pose proof (wp_Connect_write_inner c s) as H.
    unfold wp in H. by destruct (Connect_write_inner c s) as [[] ?].
  - intros c. apply appends_transactional. intros s.
    pose proof (wp_Connect_write_inner c s) as H. unfold wp in H.
    by destruct (Connect_write_inner c s) as [[] ?].
Qed.
