(* ===== verification/V4Packet.v ===== *)
(** [mqttbytes-v4/src/v4/mod.rs] and [codec.rs]: the packet enumeration, reading a packet from
    a buffered stream, writing one, and the [Decoder]/[Encoder] built on them. *)

From S2P Require Import Prelude.
From S2P Require Import Utf8.
From S2P Require Import Primitives.
From S2P Require Import CodecBase.
From S2P Require Import V4Base.
From S2P Require Import V4Acks.
From S2P Require Import V4Publish.
From S2P Require Import V4Subscribe.
From S2P Require Import V4Connect.

Inductive Packet :=
| P_Connect (c : Connect)
| P_ConnAck (c : ConnAck)
| P_Publish (p : Publish)
| P_PubAck (p : PubAck)
| P_PubRec (p : PubRec)
| P_PubRel (p : PubRel)
| P_PubComp (p : PubComp)
| P_Subscribe (s : Subscribe)
| P_SubAck (s : SubAck)
| P_Unsubscribe (u : Unsubscribe)
| P_UnsubAck (u : UnsubAck)
| P_PingReq
| P_PingResp
| P_Disconnect.

Definition Packet_packet_type (self : Packet) : PacketType :=
  match self with
  | P_Connect _ => PT_Connect
  | P_ConnAck _ => PT_ConnAck
  | P_Publish _ => PT_Publish
  | P_PubAck _ => PT_PubAck
  | P_PubRec _ => PT_PubRec
  | P_PubRel _ => PT_PubRel
  | P_PubComp _ => PT_PubComp
  | P_Subscribe _ => PT_Subscribe
  | P_SubAck _ => PT_SubAck
  | P_Unsubscribe _ => PT_Unsubscribe
  | P_UnsubAck _ => PT_UnsubAck
  | P_PingReq => PT_PingReq
  | P_PingResp => PT_PingResp
  | P_Disconnect => PT_Disconnect
  end.

Definition Packet_size (self : Packet) : usize :=
  match self with
  | P_Publish publish => Publish_size publish
  | P_Subscribe subscription => Subscribe_size subscription
  | P_Unsubscribe unsubscribe => Unsubscribe_size unsubscribe
  | P_ConnAck ack => ConnAck_size ack
  | P_PubAck ack => PubAck_size ack
  | P_SubAck ack => SubAck_size ack
  | P_UnsubAck unsuback => UnsubAck_size unsuback
  | P_PubRec pubrec => PubRec_size pubrec
  | P_PubRel pubrel => PubRel_size pubrel
  | P_PubComp pubcomp => PubComp_size pubcomp
  | P_Connect connect => Connect_size connect
  | P_PingReq => PingReq_size
  | P_PingResp => PingResp_size
  | P_Disconnect => Disconnect_size
  end.

Definition validate_fixed_header_flags (packet_type : PacketType) (byte1 : u8)
  : outcome Error unit :=
  let flags := Z.land byte1 0x0F in
  let valid := match packet_type with
               | PT_Publish => true
               | PT_PubRel | PT_Subscribe | PT_Unsubscribe => flags =? 2
               | PT_Connect | PT_ConnAck | PT_PubAck | PT_PubRec | PT_PubComp | PT_SubAck
               | PT_UnsubAck | PT_PingReq | PT_PingResp | PT_Disconnect => flags =? 0
               end in
  if valid then Ok tt else Err IncorrectPacketFormat.

(** The second half of [Packet::read], on the frame split off the stream. *)
Definition Packet_read_frame (fixed_header : FixedHeader) (packet : Bytes)
  : outcome Error Packet :=
  packet_type ← FixedHeader_packet_type fixed_header;
  validate_fixed_header_flags packet_type (byte1 fixed_header);;
  if remaining_len fixed_header =? 0 then
    match packet_type with
    | PT_PingReq => Ok P_PingReq
    | PT_PingResp => Ok P_PingResp
    | PT_Disconnect => Ok P_Disconnect
    | _ => Err PayloadRequired
    end
  else
    match packet_type with
    | PT_Connect => x ← Connect_read fixed_header packet; Ok (P_Connect x)
    | PT_ConnAck => x ← ConnAck_read fixed_header packet; Ok (P_ConnAck x)
    | PT_Publish => x ← Publish_read fixed_header packet; Ok (P_Publish x)
    | PT_PubAck => x ← PubAck_read fixed_header packet; Ok (P_PubAck x)
    | PT_PubRec => x ← PubRec_read fixed_header packet; Ok (P_PubRec x)
    | PT_PubRel => x ← PubRel_read fixed_header packet; Ok (P_PubRel x)
    | PT_PubComp => x ← PubComp_read fixed_header packet; Ok (P_PubComp x)
    | PT_Subscribe => x ← Subscribe_read fixed_header packet; Ok (P_Subscribe x)
    | PT_SubAck => x ← SubAck_read fixed_header packet; Ok (P_SubAck x)
    | PT_Unsubscribe => x ← Unsubscribe_read fixed_header packet; Ok (P_Unsubscribe x)
    | PT_UnsubAck => x ← UnsubAck_read fixed_header packet; Ok (P_UnsubAck x)
    | PT_PingReq => Ok P_PingReq
    | PT_PingResp => Ok P_PingResp
    | PT_Disconnect => Ok P_Disconnect
    end.

Definition Packet_read (max_size : usize) : M Bytes Error Packet :=
  stream ← mget;
  fixed_header ← lift (check stream max_size);
  packet ← split_to (FixedHeader_frame_length fixed_header);
  lift (Packet_read_frame fixed_header packet).

Definition Packet_write_inner (self : Packet) (max_size : usize) : M Bytes Error usize :=
  if max_size <? Packet_size self
  then mfail (OutgoingPacketTooLarge (Packet_size self) max_size)
  else
    match self with
    | P_Connect c => Connect_write c
    | P_ConnAck c => ConnAck_write c
    | P_Publish p => Publish_write p
    | P_PubAck p => PubAck_write p
    | P_PubRec p => PubRec_write p
    | P_PubRel p => PubRel_write p
    | P_PubComp p => PubComp_write p
    | P_Subscribe s => Subscribe_write s
    | P_SubAck s => SubAck_write s
    | P_Unsubscribe u => Unsubscribe_write u
    | P_UnsubAck u => UnsubAck_write u
    | P_PingReq => PingReq_write
    | P_PingResp => PingResp_write
    | P_Disconnect => Disconnect_write
    end.

Definition Packet_write (self : Packet) (max_size : usize) : M Bytes Error usize :=
  transactional_write (Packet_write_inner self max_size).

(** ** Codec *)

Record Codec := mkCodec {
  max_incoming_size : usize;
  max_outgoing_size : usize;
}.

(** [src.reserve(b)] changes the capacity of the buffer only. *)
Definition Codec_decode (self : Codec) : M Bytes Error (option Packet) := λ src,
  match Packet_read (max_incoming_size self) src with
  | (Ok packet, src) => (Ok (Some packet), src)
  | (Err (InsufficientBytes b), src) => (Ok None, src)
  | (Err e, src) => (Err e, src)
  | (Panic, src) => (Panic, src)
  end.

Definition Codec_encode (self : Codec) (item : Packet) : M Bytes Error unit :=
  Packet_write item (max_outgoing_size self);;
  mret tt.

(** * Properties *)

(** What holds of every packet [Packet::read] returns. *)
Definition Packet_valid (p : Packet) : Prop :=
  match p with
  | P_Connect x => wire_valid x
  | P_ConnAck x => wire_valid x
  | P_Publish x => wire_valid x
  | P_PubAck x => wire_valid x
  | P_PubRec x => wire_valid x
  | P_PubRel x => wire_valid x
  | P_PubComp x => wire_valid x
  | P_Subscribe x => wire_valid x
  | P_SubAck x => wire_valid x
  | P_Unsubscribe x => wire_valid x
  | P_UnsubAck x => wire_valid x
  | P_PingReq | P_PingResp | P_Disconnect => True
  end.

(** What the writers check beyond [Packet_valid]. *)
Definition Packet_sendable (p : Packet) : Prop :=
  match p with
  | P_Connect x => wire_sendable x
  | P_ConnAck x => wire_sendable x
  | P_Publish x => wire_sendable x
  | P_PubAck x => wire_sendable x
  | P_PubRec x => wire_sendable x
  | P_PubRel x => wire_sendable x
  | P_PubComp x => wire_sendable x
  | P_Subscribe x => wire_sendable x
  | P_SubAck x => wire_sendable x
  | P_Unsubscribe x => wire_sendable x
  | P_UnsubAck x => wire_sendable x
  | P_PingReq | P_PingResp | P_Disconnect => True
  end.

Definition Packet_byte1 (p : Packet) : u8 :=
  match p with
  | P_Connect x => wire_byte1 x
  | P_ConnAck x => wire_byte1 x
  | P_Publish x => wire_byte1 x
  | P_PubAck x => wire_byte1 x
  | P_PubRec x => wire_byte1 x
  | P_PubRel x => wire_byte1 x
  | P_PubComp x => wire_byte1 x
  | P_Subscribe x => wire_byte1 x
  | P_SubAck x => wire_byte1 x
  | P_Unsubscribe x => wire_byte1 x
  | P_UnsubAck x => wire_byte1 x
  | P_PingReq => 0xC0
  | P_PingResp => 0xD0
  | P_Disconnect => 0xE0
  end.

Definition Packet_content (p : Packet) : Bytes :=
  match p with
  | P_Connect x => wire_content x
  | P_ConnAck x => wire_content x
  | P_Publish x => wire_content x
  | P_PubAck x => wire_content x
  | P_PubRec x => wire_content x
  | P_PubRel x => wire_content x
  | P_PubComp x => wire_content x
  | P_Subscribe x => wire_content x
  | P_SubAck x => wire_content x
  | P_Unsubscribe x => wire_content x
  | P_UnsubAck x => wire_content x
  | P_PingReq | P_PingResp | P_Disconnect => []
  end.

(** The frame of a packet on the wire. *)
Definition Packet_frame (p : Packet) : Bytes :=
  Packet_byte1 p :: remaining_length_bytes (blen (Packet_content p)) ++ Packet_content p.

(** ** The fixed header of a frame *)

Lemma Packet_byte1_spec p b2 n :
  FixedHeader_packet_type {| byte1 := Packet_byte1 p; header_len := b2; remaining_len := n |} =
    Ok (Packet_packet_type p) ∧
  validate_fixed_header_flags (Packet_packet_type p) (Packet_byte1 p) = Ok tt.
Proof. destruct p as [| |[[] [] [] ? ? ?]| | | | | | | | | | |]; done. Qed.

Lemma Packet_content_bound p :
  Packet_valid p → 0 ≤ blen (Packet_content p) ≤ MAX_REMAINING_LENGTH.
Proof.
  destruct p; cbn [Packet_valid Packet_content]; intros Hv;
    try (apply wire_valid_content in Hv as [_ ?]; lia).
  all: by change (blen []) with 0.
Qed.

(** The payload of a packet that has one. *)
Lemma Packet_content_pos `{WirePacketLaws A} (a : A) : wire_valid a → (blen (wire_content a) =? 0) = false.
Proof. intros Hv. apply wire_valid_content in Hv as [_ ?]. lia. Qed.

Lemma Packet_read_frame_ok p hdr :
  Packet_valid p →
  Packet_read_frame {| byte1 := Packet_byte1 p; header_len := blen hdr;
                       remaining_len := blen (Packet_content p) |}
    (hdr ++ Packet_content p) = Ok p.
Proof.
  intros Hv. unfold Packet_read_frame.
  destruct (Packet_byte1_spec p (blen hdr) (blen (Packet_content p))) as [-> Hf].
  cbn [mbind outcome_bind V4Base.byte1 remaining_len]. rewrite Hf. cbn [mbind outcome_bind].
  destruct p; cbn [Packet_packet_type Packet_content Packet_byte1 Packet_valid] in *;
    try done; rewrite Packet_content_pos by done;
    match goal with |- (?x ≫= _) = _ => pose proof (wire_read_ok _ hdr Hv) as Hr end;
    cbn [wire_read wire_byte1 wire_content Connect_wire ConnAck_wire Publish_wire PubAck_wire
         PubRec_wire PubRel_wire PubComp_wire Subscribe_wire SubAck_wire Unsubscribe_wire
         UnsubAck_wire] in *; by rewrite Hr.
Qed.

Lemma Packet_frame_eq p rest :
  Packet_frame p ++ rest =
  Packet_byte1 p :: remaining_length_bytes (blen (Packet_content p)) ++ Packet_content p ++ rest.
Proof. unfold Packet_frame. cbn [app]. by rewrite <- (assoc_L (++)). Qed.

Lemma Packet_read_ok p max rest :
  Packet_valid p → blen (Packet_content p) ≤ max →
  Packet_read max (Packet_frame p ++ rest) = (Ok p, rest).
Proof.
  intros Hv Hm. pose proof (Packet_content_bound p Hv). unfold Packet_read.
  rewrite bind_run. cbn [mget]. rewrite bind_run. unfold lift at 1.
  rewrite Packet_frame_eq at 1. rewrite check_frame by lia. rewrite bind_run.
  set (hdr := Packet_byte1 p :: remaining_length_bytes (blen (Packet_content p))).
  assert (FixedHeader_frame_length
    {| V4Base.byte1 := Packet_byte1 p; header_len := blen hdr;
       remaining_len := blen (Packet_content p) |} = blen (Packet_frame p)) as ->.
  { unfold FixedHeader_frame_length, Packet_frame. cbn [header_len remaining_len].
    unfold hdr. autorewrite with blen. lia. }
  rewrite split_to_app. unfold lift. change (Packet_frame p) with (hdr ++ Packet_content p).
  by rewrite Packet_read_frame_ok.
Qed.

Lemma Packet_write_ok p max :
  Packet_valid p → Packet_sendable p → Packet_size p ≤ max →
  writes (Packet_write p max) (Packet_frame p) (Packet_size p).
Proof.
  intros Hv Hs Hm. apply writes_transactional. unfold Packet_write_inner.
  rewrite (proj2 (Z.ltb_ge _ _)) by done.
  destruct p; cbn [Packet_valid Packet_sendable] in *;
    try exact (wire_write_ok _ Hv Hs); intros s; done.
Qed.

Lemma Packet_size_ok p : Packet_valid p → Packet_size p = blen (Packet_frame p).
Proof. destruct p; cbn [Packet_valid]; intros Hv; try exact (wire_size_ok _ Hv); done. Qed.

(** ** Reading arbitrary input *)

Lemma packet_type_safe h :
  match FixedHeader_packet_type h with Ok _ => True | Err e => body_error e | Panic => False end.
Proof.
  unfold FixedHeader_packet_type, body_error.
  destruct (Z.shiftr (byte1 h) 4) as [|q|q]; try done. by do 4 (destruct q as [q|q|]; try done).
Qed.

Lemma flags_safe t b :
  match validate_fixed_header_flags t b with Ok _ => True | Err e => body_error e | Panic => False end.
Proof. unfold validate_fixed_header_flags, body_error. by destruct t; try destruct (_ =? _). Qed.

(** The result of a packet body, wrapped in the packet's constructor. *)
Lemma wrap_read_safe `{WirePacketLaws A} (c : A → Packet) h bytes :
  (∀ a, wire_valid a → Packet_valid (c a)) →
  Forall is_u8 bytes → is_u8 (byte1 h) → 0 ≤ header_len h →
  0 < remaining_len h ≤ MAX_REMAINING_LENGTH → blen bytes = header_len h + remaining_len h →
  match (x ← wire_read h bytes; Ok (c x)) with
  | Ok p => Packet_valid p
  | Err e => body_error e
  | Panic => False
  end.
Proof.
  intros Hc Hb Hb1 Hh Hr Hl. pose proof (wire_read_safe h bytes Hb Hb1 Hh Hr Hl) as Hs.
  destruct (wire_read h bytes); cbn; auto.
Qed.

Lemma Packet_read_frame_safe h bytes :
  Forall is_u8 bytes → is_u8 (byte1 h) → 0 ≤ header_len h →
  0 ≤ remaining_len h ≤ MAX_REMAINING_LENGTH → blen bytes = header_len h + remaining_len h →
  match Packet_read_frame h bytes with
  | Ok p => Packet_valid p
  | Err e => body_error e
  | Panic => False
  end.
Proof.
  intros Hb Hb1 Hh Hr Hl. unfold Packet_read_frame.
  pose proof (packet_type_safe h) as Ht. destruct (FixedHeader_packet_type h) as [t| |]; try done.
  cbn [mbind outcome_bind]. pose proof (flags_safe t (byte1 h)) as Hf.
  destruct (validate_fixed_header_flags t (byte1 h)); try done. cbn [mbind outcome_bind].
  destruct (Z.eqb_spec (remaining_len h) 0); [by destruct t|].
  assert (Hr' : 0 < remaining_len h ≤ MAX_REMAINING_LENGTH) by lia.
  destruct t; try done.
  - exact (wrap_read_safe P_Connect h bytes (λ _ V, V) Hb Hb1 Hh Hr' Hl).
  - exact (wrap_read_safe P_ConnAck h bytes (λ _ V, V) Hb Hb1 Hh Hr' Hl).
  - exact (wrap_read_safe P_Publish h bytes (λ _ V, V) Hb Hb1 Hh Hr' Hl).
  - exact (wrap_read_safe P_PubAck h bytes (λ _ V, V) Hb Hb1 Hh Hr' Hl).
  - exact (wrap_read_safe P_PubRec h bytes (λ _ V, V) Hb Hb1 Hh Hr' Hl).
  - exact (wrap_read_safe P_PubRel h bytes (λ _ V, V) Hb Hb1 Hh Hr' Hl).
  - exact (wrap_read_safe P_PubComp h bytes (λ _ V, V) Hb Hb1 Hh Hr' Hl).
  - exact (wrap_read_safe P_Subscribe h bytes (λ _ V, V) Hb Hb1 Hh Hr' Hl).
  - exact (wrap_read_safe P_SubAck h bytes (λ _ V, V) Hb Hb1 Hh Hr' Hl).
  - exact (wrap_read_safe P_Unsubscribe h bytes (λ _ V, V) Hb Hb1 Hh Hr' Hl).
  - exact (wrap_read_safe P_UnsubAck h bytes (λ _ V, V) Hb Hb1 Hh Hr' Hl).
Qed.

(** [Packet::read], by what [check] says about the stream. *)
Lemma Packet_read_cases max s :
  Forall is_u8 s →
  match check s max with
  | Ok h => ∃ frame rest, s = frame ++ rest ∧ blen frame = FixedHeader_frame_length h ∧
      2 ≤ blen frame ∧
      Packet_read max s = (Packet_read_frame h frame, rest) ∧
      match Packet_read_frame h frame with
      | Ok p => Packet_valid p
      | Err e => body_error e
      | Panic => False
      end
  | Err e => Packet_read max s = (Err e, s)
  | Panic => False
  end.
Proof.
  intros Hs. unfold Packet_read. rewrite bind_run. cbn [mget]. rewrite bind_run. unfold lift at 1.
  destruct (check s max) as [h|e|] eqn:Hc; [|done|by eapply check_no_panic].
  rewrite bind_run. destruct (check_ok s max h Hs Hc) as (Hb1 & Hh & Hr & Hm & Hfl & _).
  unfold FixedHeader_frame_length in *.
  pose proof (wp_split_to (E:=Error) (header_len h + remaining_len h) s (λ _ _, False)) as Hsp.
  unfold wp in Hsp. destruct (split_to (E:=Error) _ s) as [[frame| |] rest];
    [|exfalso; apply Hsp; lia..].
  destruct Hsp as [-> Hlen]; [lia|]. exists frame, rest. apply Forall_app in Hs as [Hfr _].
  split_and!; [done..|lia|done|]. apply Packet_read_frame_safe; auto; lia.
Qed.

Lemma decode_stable codec s r s' t :
  Forall is_u8 s → Forall is_u8 t →
  Codec_decode codec s = (r, s') → r ≠ Ok None →
  Codec_decode codec (s ++ t) = (r, s' ++ t).
Proof.
  intros Hs Ht Hd Hr. unfold Codec_decode in *. set (max := max_incoming_size codec) in *.
  pose proof (Packet_read_cases max s Hs) as Hc.
  pose proof (Packet_read_cases max (s ++ t) (Forall_app_2 _ _ _ Hs Ht)) as Hc'.
  destruct (check s max) as [h|e|] eqn:Hk; [| |done].
  - apply check_ok in Hk as (_ & _ & _ & _ & _ & Hext); [|done]. rewrite Hext in Hc'.
    destruct Hc as (frame & rest & -> & Hl & _ & Hrd & Hf).
    destruct Hc' as (frame' & rest' & He & Hl' & _ & Hrd' & _).
    rewrite <- (assoc_L (++)) in He. apply app_inj_1 in He as [<- <-];
      [|unfold blen in *; lia].
    rewrite Hrd in Hd. rewrite Hrd'.
    destruct (Packet_read_frame h frame) as [p|e|]; try by injection Hd as <- <-.
    by destruct e; injection Hd as <- <-.
  - rewrite Hc in Hd. assert (Hb : body_error e).
    { intros n ->. by injection Hd as <- _. }
    rewrite (check_err_stable _ _ _ t Hs Hk Hb) in Hc'. rewrite Hc'.
    by destruct e; injection Hd as <- <-.
Qed.

(** * Claims *)

(** C12: Every valid packet round-trips through the wire: [Packet::write] appends a frame of
    exactly [Packet::size] bytes to the output buffer and returns that number, and
    [Packet::read] on the frame followed by any bytes returns the packet and leaves exactly
    those bytes. *)
Theorem packet_roundtrip p max_out max_in s rest :
  Packet_valid p → Packet_sendable p → Packet_size p ≤ max_out → Packet_size p ≤ max_in →
  ∃ frame,
    Packet_write p max_out s = (Ok (Packet_size p), s ++ frame) ∧
    blen frame = Packet_size p ∧
    Packet_read max_in (frame ++ rest) = (Ok p, rest).
Proof.
  intros Hv Hs Ho Hi. exists (Packet_frame p). split_and!.
  - by apply Packet_write_ok.
  - by rewrite Packet_size_ok.
  - apply Packet_read_ok; [done|]. rewrite Packet_size_ok in Hi by done.
    unfold Packet_frame in Hi. rewrite blen_cons, blen_app in Hi.
    pose proof (blen_nonneg (remaining_length_bytes (blen (Packet_content p)))). lia.
Qed.

(** A QoS 1 publish to topic [a]. *)
Definition sample_publish : Packet :=
  P_Publish {| dup := true; retain := false; pub_qos := AtLeastOnce; topic := [0x61];
               pub_pkid := 5; payload := [1; 2] |}.

Lemma sample_publish_valid : Packet_valid sample_publish.
Proof.
  cbn [Packet_valid sample_publish wire_valid Publish_wire].
  unfold Publish_valid, publish_topic, mqtt_string, mqtt_bytes, pkid_valid, is_u16.
  cbn [topic payload pub_qos pub_pkid].
  assert (Forall is_u8 [0x61] ∧ Forall is_u8 [1; 2]) as [??]
    by (split; repeat constructor; unfold is_u8; lia).
  split_and!; try done; by apply contains_byte_false.
Qed.

Lemma packet_roundtrip_witness :
  ∃ frame,
    Packet_write sample_publish 1024 [9] = (Ok 9, [9] ++ frame) ∧ blen frame = 9 ∧
    Packet_read 1024 (frame ++ [0xD0; 0]) = (Ok sample_publish, [0xD0; 0]).
Proof.
  apply (packet_roundtrip sample_publish 1024 1024 [9] [0xD0; 0]);
    [apply sample_publish_valid|exact I|vm_compute; discriminate..].
Defined.

(** C13: [Packet::read] is safe on arbitrary bytes: it never panics; a packet it returns is
    valid and is the frame it removed from the front of the stream; when it asks for more
    bytes, for at least one, the stream is untouched; and no other error is that request, nor
    changes the bytes behind the malformed frame. *)
Theorem packet_read_safe max s :
  Forall is_u8 s →
  match Packet_read max s with
  | (Ok p, s') => Packet_valid p ∧ ∃ frame, s = frame ++ s' ∧ 2 ≤ blen frame
  | (Err (InsufficientBytes n), s') => s' = s ∧ 1 ≤ n
  | (Err e, s') => ∃ frame, s = frame ++ s'
  | (Panic, _) => False
  end.
Proof.
  intros Hs. pose proof (Packet_read_cases max s Hs) as Hc.
  destruct (check s max) as [h|e|] eqn:Hk; [|rewrite Hc|done].
  - destruct Hc as (frame & rest & -> & Hfl & H2 & -> & Hf).
    destruct (Packet_read_frame h frame) as [p|e|]; [by eauto| |done].
    destruct e; try by eauto. by edestruct Hf.
  - destruct e as [| | | | | | | | | | | | | | | | | | | | |n| |]; try by (exists []).
    split; [done|]. destruct (Z.le_gt_cases n 0).
    + unfold check in Hk. destruct (parse_fixed_header s) as [h|e|] eqn:Hp; try done; simpl in Hk.
      * repeat case_match; try done. injection Hk as <-. lia.
      * injection Hk as ->. apply parse_fixed_header_insufficient in Hp. lia.
    + lia.
Qed.

Lemma packet_read_safe_witness :
  Packet_read 10 [0x30; 5; 1] = (Err (InsufficientBytes 4), [0x30; 5; 1]) ∧
  match Packet_read 10 [0x30; 5; 1] with
  | (Ok p, s') => Packet_valid p ∧ ∃ frame, [0x30; 5; 1] = frame ++ s' ∧ 2 ≤ blen frame
  | (Err (InsufficientBytes n), s') => s' = [0x30; 5; 1] ∧ 1 ≤ n
  | (Err e, s') => ∃ frame, [0x30; 5; 1] = frame ++ s'
  | (Panic, _) => False
  end.
Proof.
  split; [reflexivity|].
  apply (packet_read_safe 10 [0x30; 5; 1]). repeat constructor; unfold is_u8; lia.
Defined.

(** The number of bytes [Packet::read] asks for is exact: after any shorter addition to
    the stream it still asks, for precisely the bytes then missing. *)
Theorem packet_read_insufficient max s s' n t :
  Forall is_u8 s → Forall is_u8 t →
  Packet_read max s = (Err (InsufficientBytes n), s') → blen t < n →
  Packet_read max (s ++ t) = (Err (InsufficientBytes (n - blen t)), s ++ t).
Proof.
  intros Hs Ht Hr Hlt. pose proof (Packet_read_cases max s Hs) as Hc.
  destruct (check s max) as [h|e|] eqn:Hk; [| |done].
  - destruct Hc as (frame & rest & -> & _ & _ & Hr' & Hf). rewrite Hr' in Hr.
    destruct (Packet_read_frame h frame); try done. injection Hr as -> _. by edestruct Hf.
  - rewrite Hc in Hr. injection Hr as -> _.
    destruct (check_insufficient s max n t Hs Hk Hlt) as [_ Hk'].
    pose proof (Packet_read_cases max (s ++ t)) as Hc'. rewrite Hk' in Hc'.
    apply Hc'. by apply Forall_app.
Qed.

Lemma packet_read_insufficient_witness :
  Packet_read 10 [0x30; 5; 1] = (Err (InsufficientBytes 4), [0x30; 5; 1]) ∧
  Packet_read 10 ([0x30; 5; 1] ++ [2; 3]) = (Err (InsufficientBytes (4 - 2)), [0x30; 5; 1] ++ [2; 3]).
Proof.
  split; [reflexivity|].
  apply (packet_read_insufficient 10 [0x30; 5; 1] [0x30; 5; 1] 4 [2; 3]);
    [repeat constructor; unfold is_u8; lia..|reflexivity|reflexivity].
Defined.

(** Decoding does not depend on how the stream was cut into chunks: once [decode] yields
    a packet or an error on the bytes received so far, the bytes that arrive later do not
    change the result and are left in the buffer. *)
Theorem decode_chunk_independent codec s r s' t :
  Forall is_u8 s → Forall is_u8 t →
  Codec_decode codec s = (r, s') → r ≠ Ok None →
  Codec_decode codec (s ++ t) = (r, s' ++ t).
Proof. apply decode_stable. Qed.

Lemma decode_chunk_independent_witness :
  Codec_decode {| max_incoming_size := 10; max_outgoing_size := 10 |} [0x40; 2; 0; 7; 0xC0]
    = (Ok (Some (P_PubAck {| puback_pkid := 7 |})), [0xC0]) ∧
  Codec_decode {| max_incoming_size := 10; max_outgoing_size := 10 |} ([0x40; 2; 0; 7; 0xC0] ++ [0])
    = (Ok (Some (P_PubAck {| puback_pkid := 7 |})), [0xC0] ++ [0]).
Proof.
  split; [reflexivity|].
  apply (decode_chunk_independent {| max_incoming_size := 10; max_outgoing_size := 10 |}
           [0x40; 2; 0; 7; 0xC0]);
    [repeat constructor; unfold is_u8; lia..|reflexivity|discriminate].
Defined.

(** A frame that has not arrived in full is not an error: on every proper prefix of the
    frame of a valid packet within the size limit, [decode] returns no packet yet and keeps
    the bytes. *)
Theorem decode_waits_for_frame codec p a b :
  Packet_valid p → blen (Packet_content p) ≤ max_incoming_size codec →
  Packet_frame p = a ++ b → b ≠ [] → Codec_decode codec a = (Ok None, a).
Proof.
  intros Hv Hm Hab Hb. assert (Ha8 : Forall is_u8 (a ++ b)).
  { rewrite <- Hab. unfold Packet_frame. pose proof (Packet_content_bound p Hv).
    constructor; [|apply Forall_app; split].
    - by destruct p as [| |[[] [] [] ? ? ?]| | | | | | | | | | |].
    - by apply remaining_length_bytes_u8.
    - destruct p; cbn [Packet_valid Packet_content] in *; try apply Forall_nil_2;
        by apply wire_valid_content in Hv as [? _]. }
  apply Forall_app in Ha8 as [Ha Hb8].
  destruct (Codec_decode codec a) as [r s'] eqn:Hd.
  assert (r = Ok None ∨ r ≠ Ok None) as [->|Hr] by (destruct r as [[]| |]; naive_solver).
  - unfold Codec_decode in Hd. pose proof (Packet_read_cases (max_incoming_size codec) a Ha) as Hc.
    destruct (check a (max_incoming_size codec)) as [h|e|]; [| |done].
    + destruct Hc as (frame & rest & -> & _ & _ & Hrd & Hf). rewrite Hrd in Hd.
      destruct (Packet_read_frame h frame) as [|e|]; try done.
      destruct e; try done. by edestruct Hf.
    + rewrite Hc in Hd. by destruct e; try done; injection Hd as <-.
  - pose proof (Packet_read_ok p _ [] Hv Hm) as Hw. rewrite app_nil_r, Hab in Hw.
    pose proof (decode_stable codec a r s' b Ha Hb8 Hd Hr) as He.
    unfold Codec_decode in He. rewrite Hw in He. injection He as _ He.
    symmetry in He. by apply app_eq_nil in He as [_ ?].
Qed.

Lemma decode_waits_for_frame_witness :
  Packet_frame sample_publish = [0x3A; 7; 0; 1] ++ [0x61; 0; 5; 1; 2] ∧
  Codec_decode {| max_incoming_size := 100; max_outgoing_size := 100 |} [0x3A; 7; 0; 1]
    = (Ok None, [0x3A; 7; 0; 1]).
Proof.
  split; [reflexivity|].
  apply (decode_waits_for_frame {| max_incoming_size := 100; max_outgoing_size := 100 |}
           sample_publish [0x3A; 7; 0; 1] [0x61; 0; 5; 1; 2]);
    [apply sample_publish_valid|vm_compute; discriminate|reflexivity|discriminate].
Defined.

Lemma Packet_write_inner_safe p max :
  appends (Packet_write_inner p max) ∧ total (Packet_write_inner p max).
Proof.
  unfold Packet_write_inner. destruct (max <? Packet_size p); [by split; auto with appends|].
  destruct p as [x|x|x|x|x|x|x|x|x|x|x| | |]; split;
    try exact (wire_write_appends x); try exact (wire_write_total x); try done;
    intros s0; eexists; reflexivity.
Qed.

Lemma Packet_write_cases p max s :
  match Packet_write p max s with
  | (Ok n, s') => Packet_size p ≤ max ∧ ∃ out, s' = s ++ out
  | (Err e, s') => s' = s
  | (Panic, _) => False
  end.
Proof.
  destruct (Packet_write_inner_safe p max) as [Ha Ht].
  destruct (Packet_write p max s) as [[n|e|] s'] eqn:Hp.
  - split.
    + unfold Packet_write, transactional_write, Packet_write_inner in Hp.
      by destruct (Z.ltb_spec max (Packet_size p)).
    + destruct (appends_transactional _ Ha s) as [out Ho]. unfold Packet_write in Hp.
      rewrite Hp in Ho. eauto.
  - by eapply transactional_err.
  - apply (transactional_total _ _ (Ht s)). unfold Packet_write in Hp. by rewrite Hp.
Qed.

(** [Packet::write] is transactional and total on every packet, valid or not: it never
    panics, an error leaves the buffer as it was, and success only appends; a packet larger
    than the limit is refused with its size. *)
Theorem packet_write_transactional p max s :
  match Packet_write p max s with
  | (Ok n, s') => Packet_size p ≤ max ∧ ∃ out, s' = s ++ out
  | (Err e, s') => s' = s
  | (Panic, _) => False
  end ∧
  (max < Packet_size p →
   Packet_write p max s = (Err (OutgoingPacketTooLarge (Packet_size p) max), s)).
Proof.
  split; [apply Packet_write_cases|].
  intros Hlt. unfold Packet_write, transactional_write, Packet_write_inner.
  rewrite (proj2 (Z.ltb_lt _ _)) by done. cbn. by rewrite blen_to_nat, firstn_all.
Qed.

Lemma packet_write_transactional_witness :
  Packet_write sample_publish 4 [9] = (Err (OutgoingPacketTooLarge 9 4), [9]).
Proof. apply (packet_write_transactional sample_publish 4 [9]). reflexivity. Defined.

(** ** The codec as the event loop uses it *)

Lemma encode_cases codec p s :
  match Codec_encode codec p s with
  | (Ok _, s') => ∃ out, s' = s ++ out
  | (Err _, s') => s' = s
  | (Panic, _) => False
  end.
Proof.
  unfold Codec_encode. rewrite bind_run. pose proof (Packet_write_cases p (max_outgoing_size codec) s) as Hw.
  destruct (Packet_write p _ s) as [[n|e|] s']; [|done..]. by destruct Hw as [_ Hw].
Qed.

(** What a [Framed] stream over the codec yields: packets and errors [decode] returned, and
    transport errors. *)
Definition decoded (f : Packet + Error) : Prop :=
  match f with
  | inl p => ∃ codec src rest, Forall is_u8 src ∧ Codec_decode codec src = (Ok (Some p), rest)
  | inr e => e = Io ∨
      ∃ codec src rest, Forall is_u8 src ∧ Codec_decode codec src = (Err e, rest)
  end.

Lemma decoded_packet p : decoded (inl p) → Packet_valid p.
Proof.
  intros (codec & src & rest & Hs & Hd). unfold Codec_decode in Hd.
  pose proof (Packet_read_cases (max_incoming_size codec) src Hs) as Hc.
  destruct (check src _) as [h|e|]; [| |done].
  - destruct Hc as (frame & rest' & -> & _ & _ & Hrd & Hf). rewrite Hrd in Hd.
    destruct (Packet_read_frame h frame) as [p'|e|]; [by injection Hd as <- _|by destruct e|done].
  - rewrite Hc in Hd. by destruct e.
Qed.

Lemma decoded_error n : ¬ decoded (inr (InsufficientBytes n)).
Proof.
  intros [?|(codec & src & rest & _ & Hd)]; [done|]. unfold Codec_decode in Hd.
  destruct (Packet_read _ src) as [[p|e|] s']; [done| |done]. by destruct e.
Qed.
