(* ===== verification/Scheduler.v ===== *)
(** [rumqttc-core/src/scheduler.rs]: the queue of outbound requests, from which ready control
    requests may overtake flow-controlled publishes that wait for credit.

    [classify] is an argument of the operations, as in the code; over a run of the scheduler
    the class of an item is fixed and its readiness changes with the state of the session. *)

From S2P Require Import Prelude.
From stdpp Require Import relations.

Inductive RequestClass := FlowControlledPublish | PublishClass | Control | Fence.
Inductive RequestReadiness := Ready | Blocked.

Record ScheduledRequest := mkScheduled {
  class : RequestClass;
  readiness : RequestReadiness;
}.

#[global] Instance RequestClass_eq_dec : EqDecision RequestClass.
Proof. solve_decision. Defined.
#[global] Instance RequestReadiness_eq_dec : EqDecision RequestReadiness.
Proof. solve_decision. Defined.

Record OutboundScheduler (T : Type) := mkScheduler { queue : list T }.
Arguments mkScheduler {T} queue.
Arguments queue {T} _.

(** The position of an element of a list without duplicates. *)
Lemma NoDup_middle_inj {A} (x : A) l1 l2 k1 k2 :
  NoDup (l1 ++ x :: l2) → l1 ++ x :: l2 = k1 ++ x :: k2 → l1 = k1 ∧ l2 = k2.
Proof.
  revert k1. induction l1 as [|y l1 IH]; intros [|z k1]; simpl; intros Hnd Heq; simplify_eq.
  - done.
  - apply NoDup_cons in Hnd as [Hnd _]. set_solver.
  - apply NoDup_cons in Hnd as [Hnd _]. set_solver.
  - apply NoDup_cons in Hnd as [_ Hnd]. destruct (IH k1) as [-> ->]; done.
Qed.

Section Scheduler.
  Context {T : Type}.
  Implicit Types (self : OutboundScheduler T) (classify : T → ScheduledRequest) (x : T).

Definition scheduler_default : OutboundScheduler T := {| queue := [] |}.

Definition push_back self x : OutboundScheduler T := {| queue := queue self ++ [x] |}.
Definition is_empty self : bool := match queue self with [] => true | _ => false end.
Definition len self : nat := length (queue self).
Definition clear self : OutboundScheduler T := {| queue := [] |}.
Definition drain self : list T * OutboundScheduler T := (queue self, {| queue := [] |}).

(** The [for] loop of [next_ready_index], from [index] on. *)
Fixpoint next_ready_loop classify (rest : list T) (index : nat) (can_bypass : bool)
    : option nat :=
  match rest with
  | [] => None
  | item :: rest =>
      let request := classify item in
      if decide (class request = Fence) then
        if bool_decide (index = 0%nat) && bool_decide (readiness request = Ready)
        then Some index else None
      else
        match class request, readiness request with
        | FlowControlledPublish, Ready | PublishClass, Ready | Fence, Ready =>
            if bool_decide (index = 0%nat) then Some index
            else next_ready_loop classify rest (S index) false
        | Control, Ready =>
            if bool_decide (index = 0%nat) then Some index
            else if can_bypass then Some index
            else next_ready_loop classify rest (S index) false
        | FlowControlledPublish, Blocked => next_ready_loop classify rest (S index) can_bypass
        | _, Blocked => next_ready_loop classify rest (S index) false
        end
  end.

Definition next_ready_index self classify : option nat :=
  next_ready_loop classify (queue self) 0 true.

Definition has_ready self classify : bool :=
  match next_ready_index self classify with Some _ => true | None => false end.

(** [VecDeque::remove]. *)
Definition remove_index (index : nat) (l : list T) : option (T * list T) :=
  x ← l !! index; Some (x, delete index l).

Definition pop_next self classify : option T * OutboundScheduler T :=
  match next_ready_index self classify with
  | None => (None, self)
  | Some index =>
      match remove_index index (queue self) with
      | Some (x, q) => (Some x, {| queue := q |})
      | None => (None, self)
      end
  end.

(** * Selection *)

Definition flow_blocked classify x : Prop :=
  classify x = {| class := FlowControlledPublish; readiness := Blocked |}.

(** What may be selected at [index]: a ready item at the front, or a ready control request
    behind flow-controlled publishes that are all blocked. *)
Definition selectable classify (l : list T) (index : nat) : Prop :=
  ∃ l1 x l2, l = l1 ++ x :: l2 ∧ length l1 = index ∧ readiness (classify x) = Ready ∧
    (l1 = [] ∨ class (classify x) = Control ∧ Forall (flow_blocked classify) l1).

Lemma next_ready_loop_false classify rest index :
  index ≠ 0%nat → next_ready_loop classify rest index false = None.
Proof.
  revert index. induction rest as [|x rest IH]; intros index Hi; [done|]. simpl.
  rewrite !(bool_decide_eq_false_2 (index = 0%nat)) by done.
  case_decide; [done|]. destruct (class _), (readiness _); by apply IH.
Qed.

(** The loop past the front, as long as it may bypass. *)
Lemma next_ready_loop_tail classify rest base i :
  base ≠ 0%nat →
  next_ready_loop classify rest base true = Some i ↔
  ∃ l1 y l2, rest = l1 ++ y :: l2 ∧ i = (base + length l1)%nat ∧
    readiness (classify y) = Ready ∧ class (classify y) = Control ∧
    Forall (flow_blocked classify) l1.
Proof.
  revert base. induction rest as [|x rest IH]; intros base Hb.
  { split; [done|]. by intros ([] & ? & ? & ? & _). }
  simpl. rewrite !(bool_decide_eq_false_2 (base = 0%nat)) by done.
  assert (Hsplit : (∃ l1 y l2, x :: rest = l1 ++ y :: l2 ∧ i = (base + length l1)%nat ∧
      readiness (classify y) = Ready ∧ class (classify y) = Control ∧
      Forall (flow_blocked classify) l1) ↔
    i = base ∧ classify x = {| class := Control; readiness := Ready |} ∨
    flow_blocked classify x ∧ next_ready_loop classify rest (S base) true = Some i).
  { rewrite IH by done. split.
    - intros ([|z l1] & y & l2 & ? & -> & ? & ? & Hf); simplify_list_eq.
      + left. split; [lia|]. destruct (classify y); naive_solver.
      + apply Forall_cons in Hf as [??]. right. split; [done|]. exists l1, y, l2.
        split_and!; auto; lia.
    - intros [[-> Hx]|(Hx & l1 & y & l2 & -> & -> & ? & ? & ?)].
      + exists [], x, rest. rewrite Hx. split_and!; simpl; auto; lia.
      + exists (x :: l1), y, l2. split_and!; simpl; auto; lia. }
  rewrite Hsplit. unfold flow_blocked. destruct (classify x) as [c r]. simpl.
  destruct c, r; simpl; rewrite ?next_ready_loop_false by done; naive_solver.
Qed.

Lemma next_ready_loop_selectable classify l i :
  next_ready_loop classify l 0 true = Some i ↔ selectable classify l i.
Proof.
  destruct l as [|x l]; [split; [done|by intros ([] & ? & ? & ? & _)]|].
  assert (Hsplit : selectable classify (x :: l) i ↔
    i = 0%nat ∧ readiness (classify x) = Ready ∨
    flow_blocked classify x ∧ next_ready_loop classify l 1 true = Some i).
  { rewrite next_ready_loop_tail by done. split.
    - intros ([|z l1] & y & l2 & ? & <- & ? & Hc); simplify_list_eq; [by left|right].
      destruct Hc as [|[? Hc]]; [done|]. apply Forall_cons in Hc as [? ?].
      split; [done|]. by exists l1, y, l2.
    - intros [[-> Hx]|(Hx & l1 & y & l2 & -> & -> & ? & ? & ?)].
      + exists [], x, l. auto.
      + exists (x :: l1), y, l2. split_and!; simpl; auto. }
  rewrite Hsplit. simpl. unfold flow_blocked. destruct (classify x) as [c r]. simpl.
  destruct c, r; simpl; rewrite ?next_ready_loop_false by done; naive_solver.
Qed.

Lemma pop_next_some self classify x self' :
  pop_next self classify = (Some x, self') ↔
  ∃ l1 l2, queue self = l1 ++ x :: l2 ∧ queue self' = l1 ++ l2 ∧
    readiness (classify x) = Ready ∧
    (l1 = [] ∨ class (classify x) = Control ∧ Forall (flow_blocked classify) l1).
Proof.
  unfold pop_next, next_ready_index, remove_index. split.
  - destruct (next_ready_loop _ _ _ _) as [i|] eqn:Hi; [|done].
    apply next_ready_loop_selectable in Hi as (l1 & y & l2 & -> & <- & ? & ?).
    rewrite list_lookup_middle by done. simpl. rewrite delete_middle.
    intros [= <- <-]. by exists l1, l2.
  - intros (l1 & l2 & Hq & Hq' & ? & ?).
    rewrite (proj2 (next_ready_loop_selectable _ _ (length l1))).
    2: { by exists l1, x, l2. }
    rewrite Hq, list_lookup_middle by done. simpl. rewrite delete_middle, <- Hq'.
    by destruct self'.
Qed.

(** * Runs

    A run pushes items and pops with whatever readiness holds at that moment; [cls] is the
    class of an item, which does not change. *)

Inductive op := Push (x : T) | Pop (ready : T → RequestReadiness).

Section Runs.
  Context (cls : T → RequestClass).

Definition classify_with (ready : T → RequestReadiness) (x : T) : ScheduledRequest :=
  {| class := cls x; readiness := ready x |}.

(** Items popped so far, and the queue. *)
Definition step (st : list T * OutboundScheduler T) (o : op) : list T * OutboundScheduler T :=
  let '(out, self) := st in
  match o with
  | Push x => (out, push_back self x)
  | Pop ready =>
      match pop_next self (classify_with ready) with
      | (Some x, self) => (out ++ [x], self)
      | (None, self) => (out, self)
      end
  end.

Definition run (ops : list op) : list T * OutboundScheduler T :=
  fold_left step ops ([], scheduler_default).

Definition pushed (ops : list op) : list T :=
  omap (λ o, match o with Push x => Some x | Pop _ => None end) ops.

(** One adjacent exchange: a control request moves ahead of a flow-controlled publish. *)
Inductive overtakes : list T → list T → Prop :=
| overtakes_intro l1 p c l2 :
    cls p = FlowControlledPublish → cls c = Control →
    overtakes (l1 ++ p :: c :: l2) (l1 ++ c :: p :: l2).

Lemma overtakes_app l l' k1 k2 : overtakes l l' → overtakes (k1 ++ l ++ k2) (k1 ++ l' ++ k2).
Proof.
  intros [l1 p c l2 Hp Hc]. rewrite <- !(assoc_L (++)), !(assoc_L (++) k1 l1).
  by apply overtakes_intro.
Qed.

Lemma overtakes_rtc_app l l' k1 k2 :
  rtc overtakes l l' → rtc overtakes (k1 ++ l ++ k2) (k1 ++ l' ++ k2).
Proof.
  induction 1 as [l|l l' l'' H1 H2 IH]; [done|].
  eapply rtc_l; [by apply overtakes_app|done].
Qed.

(** Moving a control request to the front of blocked publishes. *)
Lemma overtakes_front l1 x l2 :
  cls x = Control → Forall (λ p, cls p = FlowControlledPublish) l1 →
  rtc overtakes (l1 ++ x :: l2) (x :: l1 ++ l2).
Proof.
  intros Hx. induction 1 as [|p l1 Hp Hl IH]; [done|]. simpl.
  transitivity (p :: x :: l1 ++ l2).
  - pose proof (overtakes_rtc_app _ _ [p] [] IH) as H. by rewrite !app_nil_r in H.
  - apply rtc_once. by apply (overtakes_intro []).
Qed.

Lemma step_overtakes out self o ops :
  rtc overtakes (pushed ops) (out ++ queue self) →
  let '(out', self') := step (out, self) o in
  rtc overtakes (pushed (ops ++ [o])) (out' ++ queue self').
Proof.
  intros H. unfold pushed. rewrite omap_app. fold (pushed ops). destruct o as [x|ready]; simpl.
  - rewrite (assoc_L (++)).
    apply (overtakes_rtc_app _ _ [] [x] H).
  - rewrite app_nil_r. destruct (pop_next self (classify_with ready)) as [[x|] self'] eqn:Hp.
    + apply pop_next_some in Hp as (l1 & l2 & Hq & Hq' & _ & Hsel).
      etransitivity; [exact H|]. rewrite Hq, Hq'. rewrite <- (assoc_L (++)).
      destruct Hsel as [->|[Hc Hl]]; [done|].
      rewrite <- (app_nil_r (l1 ++ x :: l2)), <- (app_nil_r ([x] ++ l1 ++ l2)).
      apply overtakes_rtc_app, overtakes_front; [done|].
      eapply Forall_impl; [exact Hl|]. by intros p [= ->].
    + unfold pop_next in Hp. destruct (next_ready_index _ _); [|by injection Hp as <-].
      destruct (remove_index _ _) as [[]|]; [done|by injection Hp as <-].
Qed.

Lemma run_snoc ops o : run (ops ++ [o]) = step (run ops) o.
Proof. unfold run. by rewrite fold_left_app. Qed.

Lemma run_overtakes ops :
  rtc overtakes (pushed ops) ((run ops).1 ++ queue (run ops).2).
Proof.
  induction ops as [|o ops IH] using rev_ind; [done|]. rewrite run_snoc.
  destruct (run ops) as [out self]. pose proof (step_overtakes out self o ops IH) as H.
  by destruct (step (out, self) o).
Qed.

(** An exchange preserves every subsequence that cannot hold both of the items exchanged. *)
Lemma overtakes_filter (P : T → Prop) `{!∀ x, Decision (P x)} l l' :
  (∀ x y, P x → P y → cls x = FlowControlledPublish → cls y = Control → False) →
  rtc overtakes l l' → filter P l = filter P l'.
Proof.
  intros HP. induction 1 as [l|l l' l'' H1 H2 IH]; [done|]. rewrite <- IH.
  destruct H1 as [l1 p c l2 Hp Hc]. rewrite !filter_app, !filter_cons.
  by repeat case_decide; [exfalso; eauto|..].
Qed.

(** Neither side of an exchange is a fence, so what precedes one keeps preceding it. *)
Lemma overtakes_fence_once b f a l' :
  cls f = Fence → overtakes (b ++ f :: a) l' →
  ∃ b' a', l' = b' ++ f :: a' ∧ b' ≡ₚ b ∧ a' ≡ₚ a.
Proof.
  intros Hf H. inversion H as [l1 p c l2 Hp Hc Heq Heq']. subst l'.
  apply app_eq_inv in Heq as [(k & -> & Hk)|(k & -> & Hk)]; swap 1 2.
  - destruct k as [|y k]; simplify_list_eq; [congruence|]. destruct k as [|z k]; simplify_list_eq.
    + congruence.
    + exists (l1 ++ z :: y :: k), a. split_and!; [by rewrite <- ?(assoc_L (++))| |done].
      f_equiv. apply Permutation_swap.
  - destruct k as [|y k]; simplify_list_eq; [congruence|].
    exists b, (k ++ c :: p :: l2). split_and!; [by rewrite <- ?(assoc_L (++))|done|].
    f_equiv. apply Permutation_swap.
Qed.

Lemma overtakes_fence b f a l' :
  cls f = Fence → rtc overtakes (b ++ f :: a) l' →
  ∃ b' a', l' = b' ++ f :: a' ∧ b' ≡ₚ b ∧ a' ≡ₚ a.
Proof.
  intros Hf H. remember (b ++ f :: a) as l eqn:Hl. revert b a Hl.
  induction H as [l|l l' l'' H1 H2 IH]; intros b a ->; [eauto|].
  apply overtakes_fence_once in H1 as (b1 & a1 & -> & Hb & Ha); [|done].
  destruct (IH b1 a1 eq_refl) as (b2 & a2 & -> & Hb2 & Ha2).
  exists b2, a2. split_and!; [done|by transitivity b1|by transitivity a1].
Qed.

Lemma overtakes_perm l l' : rtc overtakes l l' → l ≡ₚ l'.
Proof.
  induction 1 as [|l l' l'' [l1 p c l2 _ _] _ IH]; [done|]. rewrite <- IH. f_equiv.
  apply Permutation_swap.
Qed.
End Runs.
End Scheduler.

Arguments Push {T} x.
Arguments Pop {T} ready.

(** * Claims *)

(** [pop_next] refines its specification, and [has_ready] predicts it: an item can be
    popped exactly when it is ready and either first in the queue or a control request behind
    flow-controlled publishes that are all blocked; it is removed and nothing else moves. *)
Theorem pop_next_spec {T} (self : OutboundScheduler T) classify :
  has_ready self classify = bool_decide (is_Some (pop_next self classify).1) ∧
  ∀ x self', pop_next self classify = (Some x, self') ↔
    ∃ l1 l2, queue self = l1 ++ x :: l2 ∧ queue self' = l1 ++ l2 ∧
      readiness (classify x) = Ready ∧
      (l1 = [] ∨ class (classify x) = Control ∧
                 Forall (λ p, classify p = mkScheduled FlowControlledPublish Blocked) l1).
Proof.
  split; [|intros; apply pop_next_some]. unfold has_ready, pop_next.
  destruct (next_ready_index self classify) as [i|] eqn:Hi; [|done].
  unfold next_ready_index in Hi.
  apply next_ready_loop_selectable in Hi as (l1 & x & l2 & -> & <- & _).
  unfold remove_index. by rewrite list_lookup_middle.
Qed.

(** C39: Over any run of pushes and pops, with readiness changing freely, the items popped
    followed by those still queued are the items pushed, in the order pushed except that
    control requests may have moved ahead of flow-controlled publishes: nothing is lost or
    duplicated, and no item crosses a fence, an unflow-controlled publish or its own kind. *)
Theorem scheduler_run_order {T} (cls : T → RequestClass) ops :
  rtc (overtakes cls) (pushed ops) ((run cls ops).1 ++ queue (run cls ops).2).
Proof. apply run_overtakes. Qed.

(** Publishes and fences leave the scheduler in the order they were pushed, and so do
    control requests among themselves. *)
Theorem scheduler_fifo {T} (cls : T → RequestClass) ops :
  filter (λ x, cls x ≠ Control) ((run cls ops).1 ++ queue (run cls ops).2) =
    filter (λ x, cls x ≠ Control) (pushed ops) ∧
  filter (λ x, cls x ≠ FlowControlledPublish) ((run cls ops).1 ++ queue (run cls ops).2) =
    filter (λ x, cls x ≠ FlowControlledPublish) (pushed ops).
Proof.
  split; symmetry; (eapply overtakes_filter; [|apply run_overtakes]); naive_solver.
Qed.

(** A fence is a barrier: when one has been popped, the items popped before it are exactly
    those pushed before it, and those popped after it or still queued are exactly those pushed
    after it. *)
Theorem scheduler_fence_barrier {T} (cls : T → RequestClass) ops before f after out out' :
  cls f = Fence → NoDup (pushed ops) → pushed ops = before ++ f :: after →
  (run cls ops).1 = out ++ f :: out' →
  out ≡ₚ before ∧ out' ++ queue (run cls ops).2 ≡ₚ after.
Proof.
  intros Hf Hnd Hp Ho. pose proof (run_overtakes cls ops) as Hr. rewrite Hp in Hnd.
  rewrite Hp, Ho, <- (assoc_L (++)) in Hr. cbn [app] in Hr.
  pose proof (overtakes_perm _ _ _ Hr) as Hperm. rewrite Hperm in Hnd.
  apply overtakes_fence in Hr as (b & a & Heq & Hb & Ha); [|done].
  apply NoDup_middle_inj in Heq as [-> ->]; done.
Qed.

Lemma scheduler_fence_barrier_witness :
  let cls (n : nat) := match n with 0 => FlowControlledPublish | 1 => Control | 2 => Fence | _ => PublishClass end%nat in
  let ready n := if bool_decide (n = 0%nat) then Blocked else Ready in
  let ops := [Push 0%nat; Push 1%nat; Push 2%nat; Push 3%nat; Pop ready; Pop ready;
              Pop (λ _, Ready); Pop ready] in
  (run cls ops).1 = [1; 0; 2]%nat ∧ [1; 0]%nat ≡ₚ [0; 1]%nat ∧ [] ++ queue (run cls ops).2 ≡ₚ [3]%nat.
Proof.
  intros cls ready ops. split; [reflexivity|].
  apply (scheduler_fence_barrier cls ops [0; 1]%nat 2%nat [3]%nat [1; 0]%nat []);
    [reflexivity| |reflexivity..].
  apply (bool_decide_eq_true_1 _). reflexivity.
Defined.
