(* ===== verification/Admission.v ===== *)
(** [rumqttc-core/src/admission.rs]: request lanes that share one lifecycle gate.

    A lane is a queue with a capacity; the gate numbers every admitted item, and once a fence
    is admitted or the gate is terminated it closes the lanes.  [try_send] holds the lifecycle
    lock and the lane's lock throughout, and every other operation holds the lock of what it
    changes, so each operation is one atomic step on (gate, lane); [sys_step] interleaves the
    steps of any number of lanes, senders and receivers.  Wakers ([Notify], [Condvar]) carry
    no data and are not modelled: a blocked [send]/[send_async]/[recv_async] is the sequence
    of its attempts.

    [Instant] is a number of nanoseconds; [Instant::now()] is an argument of the step, and
    [Instant::checked_add], whose range depends on the platform, a parameter. *)

From S2P Require Import Prelude.

Definition u64_MAX : Z := 18446744073709551615.

(** The trait [Item]. *)
Class Item (T : Type) := {
  item_fence : T → option (option Z);
  item_admitted : T → Z → option Z → T;
  item_closing : T → T;
  item_invalid_timeout : T → T;
}.

Inductive TrySendError (T : Type) := Full (item : T) | SendDisconnected (item : T).
Arguments Full {T} item.
Arguments SendDisconnected {T} item.

Definition TrySendError_into_inner {T} (self : TrySendError T) : T :=
  match self with Full item | SendDisconnected item => item end.

Inductive TryRecvError := Empty | RecvDisconnected.

Record Lifecycle := mkLifecycle {
  sequence : Z;
  fence : option Z;
  deadline : option Z;
  life_terminated : bool;
}.

(** The lifecycle behind its mutex, and its two atomic mirrors. *)
Record Gate := mkGate {
  state : Lifecycle;
  fenced : bool;
  gate_terminated : bool;
}.

Record Queue (T : Type) := mkQueue {
  items : list T;
  senders : Z;
  receivers : Z;
  waiting_receivers : Z;
}.
Arguments mkQueue {T}.
Arguments items {T}.
Arguments senders {T}.
Arguments receivers {T}.
Arguments waiting_receivers {T}.

Record Shared (T : Type) := mkShared {
  lane_queue : Queue T;
  capacity : option usize;
  priority : bool;
}.
Arguments mkShared {T}.
Arguments lane_queue {T}.
Arguments capacity {T}.
Arguments priority {T}.

Definition set_items {T} (xs : list T) (q : Queue T) : Queue T :=
  {| items := xs; senders := senders q; receivers := receivers q;
     waiting_receivers := waiting_receivers q |}.
Definition set_senders {T} (n : Z) (q : Queue T) : Queue T :=
  {| items := items q; senders := n; receivers := receivers q;
     waiting_receivers := waiting_receivers q |}.
Definition set_receivers {T} (n : Z) (q : Queue T) : Queue T :=
  {| items := items q; senders := senders q; receivers := n;
     waiting_receivers := waiting_receivers q |}.
Definition set_waiting {T} (n : Z) (q : Queue T) : Queue T :=
  {| items := items q; senders := senders q; receivers := receivers q; waiting_receivers := n |}.
Definition with_queue {T} (f : Queue T → Queue T) (sh : Shared T) : Shared T :=
  {| lane_queue := f (lane_queue sh); capacity := capacity sh; priority := priority sh |}.

Definition Gate_default : Gate :=
  {| state := {| sequence := 0; fence := None; deadline := None; life_terminated := false |};
     fenced := false; gate_terminated := false |}.

Definition terminate (self : Gate) : Gate :=
  if life_terminated (state self) then self
  else {| state := {| sequence := sequence (state self); fence := fence (state self);
                      deadline := deadline (state self); life_terminated := true |};
          fenced := fenced self; gate_terminated := true |}.

Definition clear_deadline (self : Gate) : Gate :=
  {| state := {| sequence := sequence (state self); fence := fence (state self);
                 deadline := None; life_terminated := life_terminated (state self) |};
     fenced := fenced self; gate_terminated := gate_terminated self |}.

Definition has_fence (self : Gate) : bool := fenced self.
Definition is_terminated (self : Gate) : bool := gate_terminated self.
Definition snapshot (self : Gate) : option Z * option Z :=
  if negb (has_fence self) then (None, None) else (fence (state self), deadline (state self)).

Section Lane.
  Context {T : Type} `{Item T} (checked_add : Z → Z → option Z).

Definition channel (cap : option usize) (prio : bool) : Shared T :=
  {| lane_queue := {| items := []; senders := 1; receivers := 1; waiting_receivers := 0 |};
     capacity := cap; priority := prio |}.

Definition Sender_clone (sh : Shared T) : Shared T :=
  with_queue (λ q, set_senders (senders q + 1) q) sh.
Definition Sender_drop (sh : Shared T) : Shared T :=
  with_queue (λ q, set_senders (senders q - 1) q) sh.

(** Dropping the receiver discards what is queued. *)
Definition Receiver_drop (sh : Shared T) : list T * Shared T :=
  (items (lane_queue sh),
   with_queue (λ q, set_items [] (set_receivers (receivers q - 1) q)) sh).

Definition is_closing (g : Gate) (sh : Shared T) : bool := has_fence g && negb (priority sh).

Definition available (sh : Shared T) : bool :=
  match capacity sh with
  | None => true
  | Some 0 => blen (items (lane_queue sh)) <? waiting_receivers (lane_queue sh)
  | Some cap => blen (items (lane_queue sh)) <? cap
  end.

Definition try_send (now : Z) (item : T) : M (Gate * Shared T) (TrySendError T) unit :=
  '(gate, shared) ← mget;
  let lifecycle := state gate in
  let queue := lane_queue shared in
  if receivers queue =? 0 then mfail (SendDisconnected item)
  else if life_terminated lifecycle then mfail (SendDisconnected item)
  else if bool_decide (is_Some (fence lifecycle)) && negb (priority shared)
  then mfail (SendDisconnected (item_closing item))
  else if negb (available shared) then mfail (Full item)
  else
    let fence_ := item_fence item in
    let deadline_ := duration ← mjoin fence_; checked_add now duration in
    if bool_decide (is_Some (mjoin fence_)) && bool_decide (deadline_ = None)
    then mfail (SendDisconnected (item_invalid_timeout item))
    else if u64_MAX <? sequence lifecycle + 1 then mpanic
    else
      let seq := sequence lifecycle + 1 in
      let item := item_admitted item seq deadline_ in
      let shared := with_queue (set_items (items queue ++ [item])) shared in
      match fence_ with
      | Some _ =>
          mput ({| state := {| sequence := seq; fence := Some seq; deadline := deadline_;
                               life_terminated := life_terminated lifecycle |};
                   fenced := true; gate_terminated := gate_terminated gate |}, shared)
      | None =>
          mput ({| state := {| sequence := seq; fence := fence lifecycle;
                               deadline := deadline lifecycle;
                               life_terminated := life_terminated lifecycle |};
                   fenced := fenced gate; gate_terminated := gate_terminated gate |}, shared)
      end.

Definition try_recv : M (Shared T) TryRecvError T :=
  sh ← mget;
  match items (lane_queue sh) with
  | item :: rest => mput (with_queue (set_items rest) sh);; mret item
  | [] => if senders (lane_queue sh) =? 0 then mfail RecvDisconnected else mfail Empty
  end.

Definition drain_lane (sh : Shared T) : list T * Shared T :=
  (items (lane_queue sh), with_queue (set_items []) sh).

(** [recv_async]: after an empty [try_recv] a rendezvous receiver registers itself; then each
    poll takes an item and retires the registration ([active]) in the same critical section,
    and a cancelled wait retires it when dropped. *)
Definition recv_register (sh : Shared T) : bool * Shared T :=
  match capacity sh with
  | Some 0 => (true, with_queue (λ q, set_waiting (waiting_receivers q + 1) q) sh)
  | _ => (false, sh)
  end.

Definition recv_poll (active : bool) : M (Shared T) TryRecvError T :=
  sh ← mget;
  match items (lane_queue sh) with
  | item :: rest =>
      mput (with_queue (λ q, set_items rest
              (if active then set_waiting (waiting_receivers q - 1) q else q)) sh);;
      mret item
  | [] => if senders (lane_queue sh) =? 0 then mfail RecvDisconnected else mfail Empty
  end.

Definition WaitingReceiver_drop (active : bool) (sh : Shared T) : Shared T :=
  if active then with_queue (λ q, set_waiting (waiting_receivers q - 1) q) sh else sh.

(** * The system: one gate and its lanes *)

Record Sys := mkSys { sys_gate : Gate; sys_lanes : gmap nat (Shared T) }.

(** What a step lets an observer see. *)
Inductive Event :=
| Accepted (lane : nat) (prio : bool) (seq : Z) (item : T)
| Received (lane : nat) (item : T)
| Discarded (lane : nat) (items : list T)
| Terminated
| Silent.

Inductive sys_step : Sys → Event → Sys → Prop :=
| step_channel g lanes i cap prio :
    lanes !! i = None →
    sys_step (mkSys g lanes) Silent (mkSys g (<[i := channel cap prio]> lanes))
| step_send_ok g lanes i sh now item g' sh' :
    lanes !! i = Some sh → try_send now item (g, sh) = (Ok tt, (g', sh')) →
    sys_step (mkSys g lanes)
      (Accepted i (priority sh) (sequence (state g'))
         (List.last (items (lane_queue sh')) item))
      (mkSys g' (<[i := sh']> lanes))
| step_send_err g lanes i sh now item e g' sh' :
    lanes !! i = Some sh → try_send now item (g, sh) = (Err e, (g', sh')) →
    sys_step (mkSys g lanes) Silent (mkSys g' (<[i := sh']> lanes))
| step_recv_ok g lanes i sh item sh' :
    lanes !! i = Some sh → try_recv sh = (Ok item, sh') →
    sys_step (mkSys g lanes) (Received i item) (mkSys g (<[i := sh']> lanes))
| step_poll_ok g lanes i sh active item sh' :
    lanes !! i = Some sh → recv_poll active sh = (Ok item, sh') →
    sys_step (mkSys g lanes) (Received i item) (mkSys g (<[i := sh']> lanes))
| step_register g lanes i sh active sh' :
    lanes !! i = Some sh → recv_register sh = (active, sh') →
    sys_step (mkSys g lanes) Silent (mkSys g (<[i := sh']> lanes))
| step_cancel g lanes i sh active :
    lanes !! i = Some sh →
    sys_step (mkSys g lanes) Silent (mkSys g (<[i := WaitingReceiver_drop active sh]> lanes))
| step_drain g lanes i sh xs sh' :
    lanes !! i = Some sh → drain_lane sh = (xs, sh') →
    sys_step (mkSys g lanes) (Discarded i xs) (mkSys g (<[i := sh']> lanes))
| step_clone g lanes i sh :
    lanes !! i = Some sh →
    sys_step (mkSys g lanes) Silent (mkSys g (<[i := Sender_clone sh]> lanes))
| step_drop_sender g lanes i sh :
    lanes !! i = Some sh →
    sys_step (mkSys g lanes) Silent (mkSys g (<[i := Sender_drop sh]> lanes))
| step_drop_receiver g lanes i sh xs sh' :
    lanes !! i = Some sh → Receiver_drop sh = (xs, sh') →
    sys_step (mkSys g lanes) (Discarded i xs) (mkSys g (<[i := sh']> lanes))
| step_terminate g lanes :
    sys_step (mkSys g lanes) Terminated (mkSys (terminate g) lanes)
| step_clear_deadline g lanes :
    sys_step (mkSys g lanes) Silent (mkSys (clear_deadline g) lanes).

(** Several steps, with their events in order. *)
Inductive sys_steps (s0 : Sys) : list Event → Sys → Prop :=
| steps_refl : sys_steps s0 [] s0
| steps_snoc evs s ev s' : sys_steps s0 evs s → sys_step s ev s' → sys_steps s0 (evs ++ [ev]) s'.

Definition sys_init : Sys := mkSys Gate_default ∅.

(** * One lane *)

(** [try_send] on every branch: an error changes neither the gate nor the lane, and
    success numbers the item, appends it and moves the fence. *)
Lemma try_send_cases now item g sh :
  match try_send now item (g, sh) with
  | (Ok _, (g', sh')) =>
      ∃ d, life_terminated (state g) = false ∧ receivers (lane_queue sh) ≠ 0 ∧
        (fence (state g) = None ∨ priority sh = true) ∧ available sh = true ∧
        sequence (state g) + 1 ≤ u64_MAX ∧
        let seq := sequence (state g) + 1 in
        sh' = with_queue (set_items (items (lane_queue sh) ++ [item_admitted item seq d])) sh ∧
        sequence (state g') = seq ∧ life_terminated (state g') = false ∧
        gate_terminated g' = gate_terminated g ∧
        match item_fence item with
        | Some _ => fence (state g') = Some seq ∧ fenced g' = true ∧ deadline (state g') = d
        | None => fence (state g') = fence (state g) ∧ fenced g' = fenced g ∧
                  deadline (state g') = deadline (state g)
        end
  | (Err e, st) => st = (g, sh)
  | (Panic, _) => u64_MAX ≤ sequence (state g)
  end.
Proof.
  unfold try_send. rewrite bind_run. cbn [mget].
  destruct (Z.eqb_spec (receivers (lane_queue sh)) 0); [done|].
  destruct (life_terminated (state g)) eqn:Ht; [done|].
  destruct (bool_decide _ && negb _) eqn:Hf; [done|].
  destruct (available sh) eqn:Hav; [|done]. cbn [negb].
  destruct (_ && bool_decide (_ = None)); [done|].
  destruct (Z.ltb_spec u64_MAX (sequence (state g) + 1)); [cbn; lia|].
  assert (fence (state g) = None ∨ priority sh = true).
  { apply andb_false_iff in Hf as [Hf|Hf]; [left|right; by apply negb_false_iff].
    apply bool_decide_eq_false in Hf. destruct (fence (state g)); [|done].
    exfalso. apply Hf. eauto. }
  destruct (item_fence item) as [f|]; cbn; eexists; split_and!; done.
Qed.

Lemma try_recv_ok item sh sh' :
  try_recv sh = (Ok item, sh') →
  ∃ rest, items (lane_queue sh) = item :: rest ∧ sh' = with_queue (set_items rest) sh.
Proof.
  unfold try_recv. rewrite bind_run. cbn [mget].
  destruct (items (lane_queue sh)) as [|x rest]; [by destruct (_ =? 0)|].
  rewrite bind_run. cbn. intros [= -> <-]. eauto.
Qed.

Lemma recv_poll_ok active item sh sh' :
  recv_poll active sh = (Ok item, sh') →
  ∃ rest, items (lane_queue sh) = item :: rest ∧ items (lane_queue sh') = rest ∧
    capacity sh' = capacity sh ∧ priority sh' = priority sh.
Proof.
  unfold recv_poll. rewrite bind_run. cbn [mget].
  destruct (items (lane_queue sh)) as [|x rest]; [by destruct (_ =? 0)|].
  rewrite bind_run. cbn. intros [= -> <-]. by exists rest.
Qed.

(** * Invariants of runs *)

Definition admitted_seqs (evs : list Event) : list Z :=
  omap (λ ev, match ev with Accepted _ _ n _ => Some n | _ => None end) evs.

(** What entered and what left the lane [i]. *)
Definition lane_in (i : nat) (ev : Event) : list T :=
  match ev with
  | Accepted j _ _ x => if bool_decide (i = j) then [x] else []
  | _ => []
  end.
Definition lane_out (i : nat) (ev : Event) : list T :=
  match ev with
  | Received j x => if bool_decide (i = j) then [x] else []
  | Discarded j xs => if bool_decide (i = j) then xs else []
  | _ => []
  end.

Definition queued (s : Sys) (i : nat) : list T :=
  match sys_lanes s !! i with Some sh => items (lane_queue sh) | None => [] end.

Definition within_capacity (sh : Shared T) : Prop :=
  ∀ c, capacity sh = Some c → 0 < c → blen (items (lane_queue sh)) ≤ c.

Definition gate_wf (g : Gate) : Prop :=
  fenced g = bool_decide (is_Some (fence (state g))) ∧
  gate_terminated g = life_terminated (state g) ∧
  (fence (state g) = None → deadline (state g) = None) ∧
  0 ≤ sequence (state g) ≤ u64_MAX ∧
  (∀ f, fence (state g) = Some f → 1 ≤ f ≤ sequence (state g)).

Lemma try_send_gate_wf now item g sh r g' sh' :
  gate_wf g → try_send now item (g, sh) = (r, (g', sh')) → r ≠ Panic → gate_wf g'.
Proof.
  intros (Hf & Ht & Hd & Hs & Hfs) He Hr. pose proof (try_send_cases now item g sh) as Hc.
  rewrite He in Hc. destruct r as [[]|e|]; [|by injection Hc as -> ->|done].
  destruct Hc as (d & Hnt & _ & _ & _ & Hmax & _ & Hseq & Ht' & Hgt & Hfence).
  unfold gate_wf. rewrite Hseq, Ht', Hgt, Ht, Hnt.
  destruct (item_fence item); destruct Hfence as (-> & -> & ->).
  - split_and!; try done; try lia. intros f [= <-]. lia.
  - split_and!; try done; try lia. intros f ?%Hfs. lia.
Qed.

Lemma sys_step_gate s ev s' :
  sys_step s ev s' → gate_wf (sys_gate s) →
  gate_wf (sys_gate s') ∧
  (is_Some (fence (state (sys_gate s))) → is_Some (fence (state (sys_gate s')))) ∧
  (life_terminated (state (sys_gate s)) = true → life_terminated (state (sys_gate s')) = true) ∧
  match ev with
  | Accepted _ prio n _ =>
      n = sequence (state (sys_gate s)) + 1 ∧ sequence (state (sys_gate s')) = n ∧
      life_terminated (state (sys_gate s)) = false ∧
      (fence (state (sys_gate s)) = None ∨ prio = true)
  | Terminated => life_terminated (state (sys_gate s')) = true ∧
      sequence (state (sys_gate s')) = sequence (state (sys_gate s))
  | _ => sequence (state (sys_gate s')) = sequence (state (sys_gate s))
  end.
Proof.
  intros Hstep Hwf. destruct Hstep; simpl in *; try done.
  - pose proof (try_send_cases now item g sh) as Hc. rewrite H1 in Hc.
    split; [by eapply try_send_gate_wf|].
    destruct Hc as (d & Hnt & _ & Hfp & _ & _ & _ & Hseq & Ht' & _ & Hfence).
    split_and!; [| |done..].
    + destruct (item_fence item); destruct Hfence as (-> & _); [by eauto|done].
    + by rewrite Hnt.
  - pose proof (try_send_cases now item g sh) as Hc. rewrite H1 in Hc. by injection Hc as -> ->.
  - unfold terminate. destruct (life_terminated (state g)) eqn:Ht; simpl; [by rewrite Ht|].
    by destruct Hwf as (? & ? & ? & ? & ?).
  - by destruct Hwf as (? & ? & ? & ? & ?).
Qed.

(** What a step does to the lanes: items enter at the back, leave from the front, and never
    exceed the capacity. *)
Lemma sys_step_lanes s ev s' i :
  sys_step s ev s' →
  queued s i ++ lane_in i ev = lane_out i ev ++ queued s' i.
Proof.
  intros Hstep. unfold queued.
  destruct Hstep as [g lanes j|g lanes j|g lanes j|g lanes j|g lanes j|g lanes j|g lanes j
    |g lanes j|g lanes j|g lanes j|g lanes j| |]; simpl; try (by rewrite app_nil_r);
    destruct (decide (i = j)) as [->|Hne];
    rewrite ?lookup_insert_eq, ?lookup_insert_ne, ?bool_decide_eq_true_2,
      ?bool_decide_eq_false_2, ?app_nil_r by done; try done; rewrite H0; simpl; try done.
  - pose proof (try_send_cases now item g sh) as Hc. rewrite H1 in Hc.
    destruct Hc as (d & _ & _ & _ & _ & _ & -> & _). simpl. by rewrite List.last_last.
  - pose proof (try_send_cases now item g sh) as Hc. rewrite H1 in Hc. by injection Hc as -> ->.
  - by apply try_recv_ok in H1 as (rest & -> & ->).
  - by apply recv_poll_ok in H1 as (rest & -> & -> & _).
  - unfold recv_register in H1. repeat case_match; by injection H1 as <- <-.
  - by destruct active.
  - injection H1 as <- <-. simpl. by rewrite app_nil_r.
  - injection H1 as <- <-. simpl. by rewrite app_nil_r.
Qed.

Lemma sys_step_capacity s ev s' :
  sys_step s ev s' → map_Forall (λ _, within_capacity) (sys_lanes s) →
  map_Forall (λ _, within_capacity) (sys_lanes s').
Proof.
  assert (Hless : ∀ (sh sh' : Shared T), capacity sh' = capacity sh →
    blen (items (lane_queue sh')) ≤ blen (items (lane_queue sh)) →
    within_capacity sh → within_capacity sh').
  { unfold within_capacity. intros sh sh' -> ? Hw c Hc H0. specialize (Hw c Hc H0). lia. }
  intros Hstep Hcap. destruct Hstep; simpl in *; try done;
    apply map_Forall_insert_2; try done;
    match goal with
    | Hl : _ !! ?i = Some ?sh |- _ => specialize (Hcap i sh Hl)
    | _ => idtac
    end.
  - intros c _ ?. simpl. rewrite blen_nil. lia.
  - pose proof (try_send_cases now item g sh) as Hc. rewrite H1 in Hc.
    destruct Hc as (d & _ & _ & _ & Hav & _ & -> & _). intros c Hc Hpos. simpl in *.
    unfold available in Hav. rewrite Hc in Hav. destruct c; try lia.
    rewrite blen_app, blen_cons, blen_nil. lia.
  - pose proof (try_send_cases now item g sh) as Hc. rewrite H1 in Hc. by injection Hc as -> ->.
  - apply try_recv_ok in H1 as (rest & Hi & ->). apply (Hless sh); [done| |exact Hcap]. simpl.
    rewrite Hi, blen_cons. lia.
  - apply recv_poll_ok in H1 as (rest & Hi & Hi' & Hc & _). apply (Hless sh); [done| |exact Hcap].
    rewrite Hi, Hi', blen_cons. lia.
  - unfold recv_register in H1. repeat case_match; injection H1 as <- <-; exact Hcap.
  - destruct active; exact Hcap.
  - injection H1 as <- <-. apply (Hless sh); [done|apply blen_nonneg|exact Hcap].
  - exact Hcap.
  - exact Hcap.
  - injection H1 as <- <-. apply (Hless sh); [done|apply blen_nonneg|exact Hcap].
Qed.

Lemma sys_steps_gate s evs s' :
  sys_steps s evs s' → gate_wf (sys_gate s) → gate_wf (sys_gate s').
Proof. induction 1; [done|]. intros ?. by eapply sys_step_gate; [|apply IHsys_steps]. Qed.

Lemma gate_default_wf : gate_wf (sys_gate sys_init).
Proof. unfold gate_wf, u64_MAX. simpl. split_and!; try done; lia. Qed.
End Lane.
Arguments Sys T : clear implicits.
Arguments Event T : clear implicits.

(** * Claims *)

Section Claims.
  Context {T : Type} `{Item T} (checked_add : Z → Z → option Z).

(** Admission numbers are consecutive across all lanes: over any interleaving of senders,
    receivers and lifecycle operations the n-th item admitted by the gate gets the number n,
    so the numbers order the admissions. *)
Theorem admission_sequence evs s :
  sys_steps checked_add sys_init evs s →
  admitted_seqs evs = seqZ 1 (sequence (state (sys_gate s))).
Proof.
  intros Hrun.
  induction Hrun as [|evs s ev s' Hr IH Hstep]; [done|].
  pose proof (sys_steps_gate _ _ _ _ Hr gate_default_wf) as Hwf.
  unfold admitted_seqs in *. rewrite omap_app, IH.
  destruct (sys_step_gate _ _ _ _ Hstep Hwf) as (_ & _ & _ & He).
  destruct Hwf as (_ & _ & _ & Hs & _).
  destruct ev as [i prio n x| | | |]; simpl; rewrite ?app_nil_r.
  - destruct He as (-> & -> & _). rewrite seqZ_app by lia. f_equal. by rewrite Z.add_comm.
  - by rewrite He.
  - by rewrite He.
  - by destruct He as [_ ->].
  - by rewrite He.
Qed.

(** Every lane is a FIFO queue within its capacity: the items admitted to it are, in
    order, those received from it, those discarded with it and those still queued, and a
    bounded lane never holds more than its capacity. *)
Theorem admission_lane_fifo evs s i :
  sys_steps checked_add sys_init evs s →
  concat (map (lane_in i) evs) = concat (map (lane_out i) evs) ++ queued s i ∧
  ∀ sh c, sys_lanes s !! i = Some sh → capacity sh = Some c → 0 < c → blen (queued s i) ≤ c.
Proof.
  intros Hrun.
  assert (Hcap : map_Forall (λ _, within_capacity) (sys_lanes s)).
  { induction Hrun as [|evs s ev s' Hr IH Hstep].
    - apply map_Forall_empty.
    - by eapply sys_step_capacity. }
  split.
  - clear Hcap. induction Hrun as [|evs s ev s' Hr IH Hstep]; [done|].
    rewrite !map_app, !concat_app, IH by done. simpl. rewrite !app_nil_r.
    rewrite <- !(assoc_L (++)). f_equal. by eapply sys_step_lanes.
  - intros sh c Hl Hc Hp. unfold queued. rewrite Hl. by apply (Hcap i sh Hl).
Qed.

(** Closing is permanent and effective: from a state whose gate has a fence, no run admits
    another item to a lane without priority; from a terminated gate no run admits anything;
    and neither the fence nor the termination is ever undone. *)
Theorem admission_closed s evs s' :
  gate_wf (sys_gate s) → sys_steps checked_add s evs s' →
  (is_Some (fence (state (sys_gate s))) →
     is_Some (fence (state (sys_gate s'))) ∧ ∀ i n x, Accepted i false n x ∉ evs) ∧
  (life_terminated (state (sys_gate s)) = true →
     life_terminated (state (sys_gate s')) = true ∧ ∀ i prio n x, Accepted i prio n x ∉ evs).
Proof.
  intros Hwf Hrun. induction Hrun as [|evs s1 ev s2 Hr IH Hstep]; [set_solver|].
  pose proof (sys_steps_gate _ _ _ _ Hr Hwf) as Hwf1.
  destruct (sys_step_gate _ _ _ _ Hstep Hwf1) as (_ & Hf & Ht & He). split.
  - intros Hfence. apply IH in Hfence as [Hf1 Hno]. split; [auto|]. intros i n x.
    rewrite elem_of_app, list_elem_of_singleton. intros [?|<-]; [by eapply Hno|].
    destruct He as (_ & _ & _ & [Hn|]); [|done]. destruct Hf1. congruence.
  - intros Hterm. apply IH in Hterm as [Ht1 Hno]. split; [auto|]. intros i prio n x.
    rewrite elem_of_app, list_elem_of_singleton. intros [?|<-]; [by eapply Hno|].
    destruct He as (_ & _ & He & _). congruence.
Qed.

(** The lock-free views of the gate are exact between operations: on every reachable
    state [snapshot], which skips the lock when the atomic flag is clear, returns the fence
    and the deadline of the locked state, [has_fence] and [is_terminated] agree with it, and
    a fence is the number of an item already admitted. *)
Theorem admission_snapshot evs s :
  sys_steps checked_add sys_init evs s →
  let g := sys_gate s in
  snapshot g = (fence (state g), deadline (state g)) ∧
  has_fence g = bool_decide (is_Some (fence (state g))) ∧
  is_terminated g = life_terminated (state g) ∧
  ∀ f, fence (state g) = Some f → 1 ≤ f ≤ sequence (state g).
Proof.
  intros Hrun. pose proof (sys_steps_gate _ _ _ _ Hrun gate_default_wf) as (Hf & Ht & Hd & _ & Hs).
  simpl. unfold snapshot, has_fence, is_terminated. split_and!; try done.
  rewrite Hf. destruct (fence (state (sys_gate s))); simpl; [done|]. by rewrite Hd.
Qed.
End Claims.

(** * Witnesses: a lane of capacity one, an item, then a fence on a priority lane *)

Record Message := mkMessage {
  message_fence : option (option Z);
  message_sequence : Z;
  message_closing : bool;
}.

#[global] Instance Message_item : Item Message := {|
  item_fence := message_fence;
  item_admitted m n _ := {| message_fence := message_fence m; message_sequence := n;
                            message_closing := message_closing m |};
  item_closing m := {| message_fence := message_fence m;
                       message_sequence := message_sequence m; message_closing := true |};
  item_invalid_timeout m := m |}.

Definition plain : Message := mkMessage None 0 false.
Definition fencing : Message := mkMessage (Some (Some 5)) 0 false.
Definition add_instant (a b : Z) : option Z := Some (a + b).

Definition sample_lane : Shared Message :=
  {| lane_queue := {| items := [mkMessage None 1 false]; senders := 1; receivers := 1;
                      waiting_receivers := 0 |}; capacity := Some 1; priority := false |}.
Definition sample_fence_lane : Shared Message :=
  {| lane_queue := {| items := [mkMessage (Some (Some 5)) 2 false]; senders := 1;
                      receivers := 1; waiting_receivers := 0 |};
     capacity := None; priority := true |}.
Definition sample_gate : Gate :=
  {| state := {| sequence := 2; fence := Some 2; deadline := Some 105;
                 life_terminated := false |}; fenced := true; gate_terminated := false |}.

Definition sample_sys : Sys Message :=
  mkSys sample_gate (<[1%nat := sample_fence_lane]> (<[1%nat := channel None true]>
    (<[0%nat := sample_lane]> (<[0%nat := channel (Some 1) false]> ∅)))).

Definition sample_events : list (Event Message) :=
  [Silent; Accepted 0 false 1 (mkMessage None 1 false); Silent;
   Accepted 1 true 2 (mkMessage (Some (Some 5)) 2 false)].

Lemma sample_run : sys_steps add_instant sys_init sample_events sample_sys.
Proof.
  change sample_events with ((([] ++ [Silent]) ++ [Accepted 0 false 1 (mkMessage None 1 false)])
    ++ [Silent] ++ [Accepted 1 true 2 (mkMessage (Some (Some 5)) 2 false)]).
  rewrite (assoc_L (++)).
  eapply steps_snoc; [eapply steps_snoc; [eapply steps_snoc; [eapply steps_snoc;
    [apply steps_refl|]|]|]|].
  - apply (step_channel _ _ _ 0 (Some 1) false). reflexivity.
  - apply (step_send_ok _ _ _ 0 (channel (Some 1) false) 7 plain
             {| state := {| sequence := 1; fence := None; deadline := None;
                            life_terminated := false |}; fenced := false;
                gate_terminated := false |} sample_lane); reflexivity.
  - apply (step_channel _ _ _ 1 None true). reflexivity.
  - apply (step_send_ok _ _ _ 1 (channel None true) 100 fencing sample_gate sample_fence_lane);
      reflexivity.
Qed.

Lemma admission_sequence_witness : admitted_seqs sample_events = [1; 2].
Proof. exact (admission_sequence add_instant sample_events sample_sys sample_run). Defined.

Lemma admission_lane_fifo_witness :
  [mkMessage None 1 false] = [] ++ queued sample_sys 0 ∧ blen (queued sample_sys 0) ≤ 1.
Proof.
  destruct (admission_lane_fifo add_instant sample_events sample_sys 0 sample_run) as [H1 H2].
  split; [exact H1|]. apply (H2 sample_lane); reflexivity.
Defined.

Lemma admission_closed_witness :
  try_send add_instant 200 plain (sample_gate, sample_lane) =
    (Err (SendDisconnected (mkMessage None 0 true)), (sample_gate, sample_lane)) ∧
  ∀ i n x, Accepted i false n x ∉ ([] : list (Event Message)).
Proof.
  split; [reflexivity|].
  apply (admission_closed add_instant sample_sys [] sample_sys).
  - exact (sys_steps_gate _ _ _ _ sample_run gate_default_wf).
  - apply steps_refl.
  - by exists 2.
Defined.

Lemma admission_snapshot_witness :
  snapshot sample_gate = (Some 2, Some 105) ∧ has_fence sample_gate = true.
Proof.
  destruct (admission_snapshot add_instant sample_events sample_sys sample_run)
    as (H1 & H2 & _ & _).
  split; [exact H1|exact H2].
Defined.
