(* ===== verification/FixedBitSet.v ===== *)
(** The third-party crate [fixedbitset], as far as the session state uses it: an interface with
    its documented laws, and one instance, on which the witnesses are evaluated.

    The documentation of the crate: [with_capacity] and [grow] give disabled bits, [contains]
    is [false] outside the capacity, [insert] and [set] panic outside it, [clear] disables
    every bit, [ones] enumerates the enabled bits in ascending order, and [as_slice] is the
    sequence of [usize] blocks, least significant bit first.  [usize] has 64 bits. *)

From S2P Require Import Prelude.

Definition usize_BITS : Z := 64.
Definition usize_MAX : Z := 2 ^ usize_BITS - 1.

Class FixedBitSet (B : Type) := {
  with_capacity : Z → B;
  bits_len : B → Z;
  contains : B → Z → bool;
  (** [set] inside the capacity. *)
  put_bit : B → Z → bool → B;
  grow : B → Z → B;
  clear_bits : B → B;
  ones : B → list Z;
  as_slice : B → list Z;
}.

Class FixedBitSetLaws (B : Type) `{FixedBitSet B} : Prop := {
  len_nonneg b : 0 ≤ bits_len b;
  len_with_capacity n : 0 ≤ n → bits_len (with_capacity n) = n;
  contains_with_capacity n i : contains (with_capacity n) i = false;
  contains_out b i : ¬ 0 ≤ i < bits_len b → contains b i = false;
  len_put_bit b i v : bits_len (put_bit b i v) = bits_len b;
  contains_put_bit b i v j :
    0 ≤ i < bits_len b → contains (put_bit b i v) j = if i =? j then v else contains b j;
  len_grow b n : bits_len (grow b n) = Z.max (bits_len b) n;
  contains_grow b n i : contains (grow b n) i = contains b i;
  len_clear b : bits_len (clear_bits b) = bits_len b;
  contains_clear b i : contains (clear_bits b) i = false;
  ones_spec b : ones b = filter (λ i, contains b i = true) (seqZ 0 (bits_len b));
  as_slice_spec b i :
    0 ≤ i < bits_len b →
    ∃ block, as_slice b !! Z.to_nat (i / usize_BITS) = Some block ∧
             Z.testbit block (i mod usize_BITS) = contains b i;
  as_slice_range b j block :
    as_slice b !! j = Some block → 0 ≤ block ≤ usize_MAX;
}.

(** [set] and [insert], which panic outside the capacity. *)
Definition set_bit {S E} `{FixedBitSet B} (b : B) (i : Z) (v : bool) : M S E B :=
  if (0 <=? i) && (i <? bits_len b) then mret (put_bit b i v) else mpanic.
Definition insert_bit {S E} `{FixedBitSet B} (b : B) (i : Z) : M S E B := set_bit b i true.

Section Laws.
  Context `{FixedBitSetLaws B}.

Lemma set_bit_ok {S E} (b : B) i v (s : S) :
  0 ≤ i < bits_len b → set_bit (E:=E) b i v s = (Ok (put_bit b i v), s).
Proof.
  intros Hi. unfold set_bit.
  by rewrite (proj2 (Z.leb_le _ _)), (proj2 (Z.ltb_lt _ _)) by lia.
Qed.

Lemma contains_range b i : contains b i = true → 0 ≤ i < bits_len b.
Proof.
  intros Hc. destruct (decide (0 ≤ i < bits_len b)); [done|].
  by rewrite contains_out in Hc by done.
Qed.

Lemma elem_of_ones b i : i ∈ ones b ↔ contains b i = true.
Proof.
  rewrite ones_spec, list_elem_of_filter, elem_of_seqZ.
  split; [by intros [? _]|]. intros Hc. split; [done|]. apply contains_range in Hc. lia.
Qed.

Lemma NoDup_ones b : NoDup (ones b).
Proof. rewrite ones_spec. apply NoDup_filter, NoDup_seqZ. Qed.
End Laws.

(** * An instance: a capacity and the bits of a number *)

Record BitVector := mkBits { bv_len : Z; bv_bits : Z }.

Definition bv_ok_bit (n i v : Z) : bool := (0 <=? i) && (i <? n) && Z.testbit v i.

(** The first [n] blocks of a number. *)
Fixpoint bv_blocks (n : nat) (v : Z) : list Z :=
  match n with
  | O => []
  | S n => Z.land v usize_MAX :: bv_blocks n (Z.shiftr v usize_BITS)
  end.

(** The positions of the bits of a number, counted from [i]. *)
Fixpoint bits_from (p : positive) (i : Z) : list Z :=
  match p with
  | xH => [i]
  | xO p => bits_from p (i + 1)
  | xI p => i :: bits_from p (i + 1)
  end.

Definition bv_ones (v i : Z) : list Z := match v with Zpos p => bits_from p i | _ => [] end.

#[global] Instance BitVector_ops : FixedBitSet BitVector := {|
  with_capacity n := {| bv_len := Z.max 0 n; bv_bits := 0 |};
  bits_len b := Z.max 0 (bv_len b);
  contains b i := bv_ok_bit (bv_len b) i (bv_bits b);
  put_bit b i v := {| bv_len := bv_len b;
                      bv_bits := if v then Z.setbit (bv_bits b) i else Z.clearbit (bv_bits b) i |};
  grow b n := {| bv_len := Z.max (bv_len b) n;
                 bv_bits := Z.land (bv_bits b) (Z.ones (Z.max 0 (bv_len b))) |};
  clear_bits b := {| bv_len := bv_len b; bv_bits := 0 |};
  ones b := bv_ones (Z.land (bv_bits b) (Z.ones (Z.max 0 (bv_len b)))) 0;
  as_slice b :=
    bv_blocks (Z.to_nat ((Z.max 0 (bv_len b) + usize_BITS - 1) / usize_BITS)) (bv_bits b) |}.

Lemma bv_ok_bit_true n i v :
  bv_ok_bit n i v = true ↔ 0 ≤ i < n ∧ Z.testbit v i = true.
Proof. unfold bv_ok_bit. rewrite !andb_true_iff. lia. Qed.

Lemma bv_ok_bit_in n i v : 0 ≤ i < n → bv_ok_bit n i v = Z.testbit v i.
Proof. intros. unfold bv_ok_bit. lia. Qed.

Lemma bv_ok_bit_out n i v : ¬ 0 ≤ i < n → bv_ok_bit n i v = false.
Proof. intros. unfold bv_ok_bit. lia. Qed.

Lemma bv_blocks_lookup n v j block :
  bv_blocks n v !! j = Some block ↔
  (j < n)%nat ∧ block = Z.land (Z.shiftr v (usize_BITS * Z.of_nat j)) usize_MAX.
Proof.
  revert v j. induction n as [|n IH]; intros v [|j]; cbn [bv_blocks lookup list_lookup].
  - split; [done|lia].
  - split; [done|lia].
  - rewrite Z.mul_0_r, Z.shiftr_0_r. split; [|naive_solver lia]. intros [= <-]. split; [lia|done].
  - change (list_lookup j (bv_blocks n (Z.shiftr v usize_BITS)))
      with (bv_blocks n (Z.shiftr v usize_BITS) !! j).
    rewrite IH, Z.shiftr_shiftr by (unfold usize_BITS; lia).
    replace (usize_BITS + usize_BITS * Z.of_nat j) with (usize_BITS * Z.of_nat (S j))
      by (unfold usize_BITS; lia). split; intros [? ->]; (split; [lia|done]).
Qed.

Lemma filter_ext_in {A} (P Q : A → Prop) `{∀ x, Decision (P x)} `{∀ x, Decision (Q x)} (l : list A) :
  (∀ x, x ∈ l → P x ↔ Q x) → filter P l = filter Q l.
Proof.
  induction l as [|x l IH]; intros Hl; [done|]. rewrite !filter_cons.
  rewrite IH by (intros y Hy; apply Hl; by right).
  specialize (Hl x (list_elem_of_here x l)). case_decide; case_decide; tauto.
Qed.

Lemma bv_ones_step v i :
  0 ≤ v → bv_ones v i = (if Z.odd v then [i] else []) ++ bv_ones (Z.shiftr v 1) (i + 1).
Proof. intros Hv. destruct v as [|[p|p|]|p]; try done. Qed.

Lemma bv_ones_spec n v i :
  0 ≤ v < 2 ^ Z.of_nat n →
  bv_ones v i = filter (λ j, Z.testbit v (j - i) = true) (seqZ i (Z.of_nat n)).
Proof.
  revert v i. induction n as [|n IH]; intros v i Hv.
  { assert (v = 0) as -> by (change (2 ^ Z.of_nat 0) with 1 in Hv; lia). done. }
  rewrite Nat2Z.inj_succ, Z.pow_succ_r in Hv by lia.
  rewrite bv_ones_step, seqZ_cons, filter_cons by lia.
  rewrite (IH (Z.shiftr v 1)) by (rewrite Z.shiftr_div_pow2 by lia; change (2 ^ 1) with 2;
    Z.div_mod_to_equations; lia).
  rewrite Z.sub_diag, <- Z.bit0_odd, <- Z.add_1_r.
  replace (Z.pred (Z.of_nat (S n))) with (Z.of_nat n) by lia.
  assert (Hf : filter (λ j, Z.testbit (Z.shiftr v 1) (j - (i + 1)) = true) (seqZ (i + 1) (Z.of_nat n)) =
               filter (λ j, Z.testbit v (j - i) = true) (seqZ (i + 1) (Z.of_nat n))).
  { apply filter_ext_in. intros j Hj%elem_of_seqZ. rewrite Z.shiftr_spec by lia.
    by replace (j - (i + 1) + 1) with (j - i) by lia. }
  rewrite Hf. by destruct (Z.testbit v 0).
Qed.

#[global] Instance BitVector_laws : FixedBitSetLaws BitVector.
Proof.
  split; cbn [with_capacity bits_len contains put_bit grow clear_bits ones as_slice BitVector_ops
              bv_len bv_bits].
  - intros b. lia.
  - intros n Hn. lia.
  - intros n i. unfold bv_ok_bit. by rewrite Z.bits_0, andb_false_r.
  - intros b i Hi. apply bv_ok_bit_out. lia.
  - done.
  - intros b i v j Hi. destruct (decide (0 ≤ j < bv_len b)).
    + rewrite !bv_ok_bit_in by lia. destruct v.
      * rewrite Z.setbit_eqb by lia. destruct (Z.eqb_spec i j); [done|]. done.
      * rewrite Z.clearbit_eqb. destruct (Z.eqb_spec i j); simpl; [by rewrite andb_false_r|].
        by rewrite andb_true_r.
    + rewrite !bv_ok_bit_out by lia. destruct (Z.eqb_spec i j); [lia|done].
  - intros b n. lia.
  - intros b n i. destruct (decide (0 ≤ i < bv_len b)).
    + rewrite !bv_ok_bit_in by lia. rewrite Z.land_spec, Z.ones_spec_low by lia.
      by rewrite andb_true_r.
    + rewrite (bv_ok_bit_out (bv_len b)) by lia. unfold bv_ok_bit.
      destruct (Z.leb_spec 0 i); [|done]. simpl.
      rewrite Z.land_spec, Z.ones_spec_high by lia. by rewrite !andb_false_r.
  - done.
  - intros b i. unfold bv_ok_bit. by rewrite Z.bits_0, andb_false_r.
  - intros b. rewrite Z.land_ones by lia. set (n := Z.max 0 (bv_len b)).
    rewrite (bv_ones_spec (Z.to_nat n)) by (rewrite Z2Nat.id by lia; apply Z.mod_pos_bound; lia).
    rewrite Z2Nat.id by lia. apply filter_ext_in. intros j Hj%elem_of_seqZ. rewrite Z.sub_0_r.
    rewrite bv_ok_bit_in by lia. by rewrite Z.mod_pow2_bits_low by lia.
  - intros b i Hi. eexists. split.
    { apply bv_blocks_lookup. split; [|reflexivity]. unfold usize_BITS in *.
      apply Z2Nat.inj_lt; [Z.div_mod_to_equations; lia..|]. Z.div_mod_to_equations. lia. }
    unfold usize_BITS in *. rewrite Z2Nat.id by (apply Z.div_pos; lia).
    rewrite Z.land_spec. unfold usize_MAX, usize_BITS. change (2 ^ 64 - 1) with (Z.ones 64).
    rewrite Z.ones_spec_low by (Z.div_mod_to_equations; lia). rewrite andb_true_r.
    rewrite Z.shiftr_spec by (Z.div_mod_to_equations; lia).
    replace (i mod 64 + 64 * (i / 64)) with i by (Z.div_mod_to_equations; lia).
    symmetry. apply bv_ok_bit_in. lia.
  - intros b j block [_ ->]%bv_blocks_lookup.
    unfold usize_MAX, usize_BITS. change (2 ^ 64 - 1) with (Z.ones 64).
    rewrite Z.land_ones by lia. change (Z.ones 64) with (2 ^ 64 - 1).
    match goal with |- 0 ≤ ?a mod _ ≤ _ => pose proof (Z.mod_pos_bound a (2 ^ 64)) end.
    lia.
Qed.
