(* ===== verification/PacketIds.v ===== *)
(** The packet identifiers of a session and the structures indexed by them, as both
    [rumqttc-v4/src/state.rs] and [rumqttc-v5/src/state.rs] have them: tracking vectors, ordered
    lists, bit sets, and the scan over 64-bit blocks of the in-use set for the first free identifier
    after the last one, in circular order. *)

From S2P Require Import Prelude.
From S2P Require Import FixedBitSet.
From stdpp Require Import sorting.
#[local] Open Scope Z_scope.

(** ** Vectors *)

Definition vget {A} (v : list A) (i : Z) : option A := v !! Z.to_nat i.
Definition vset {A} (v : list A) (i : Z) (x : A) : list A := <[Z.to_nat i := x]> v.

(** [v[i]] read, and written: both panic out of range. *)
Definition index {S E A} (v : list A) (i : Z) : M S E A :=
  match vget v i with Some x => mret x | None => mpanic end.
Definition assign {S E A} (v : list A) (i : Z) (x : A) : M S E (list A) :=
  match vget v i with Some _ => mret (vset v i x) | None => mpanic end.

(** [Vec::resize_with(n, || None)] where it grows. *)
Definition resize_none {A} (v : list (option A)) (n : Z) : list (option A) :=
  v ++ replicate (Z.to_nat (n - blen v)) None.

Definition is_none {A} (o : option A) : bool := match o with None => true | Some _ => false end.
Definition is_some {A} (o : option A) : bool := negb (is_none o).

Definition no_ones `{FixedBitSet B} (b : B) : bool := match ones b with [] => true | _ => false end.
Definition no_entries {A} (l : list A) : bool := match l with [] => true | _ => false end.

(** ** Maps

    A [BTreeMap<u16, _>] is a [gmap]; where the code iterates over one, [btree_entries] gives its
    entries in key order. *)

Definition key_le {V} (a b : Z * V) : Prop := a.1 ≤ b.1.

#[global] Instance key_le_dec {V} : RelDecision (@key_le V).
Proof. intros a b. unfold key_le. apply _. Defined.

Definition btree_entries {V} (m : gmap Z V) : list (Z * V) := merge_sort key_le (map_to_list m).

Lemma btree_entries_perm {V} (m : gmap Z V) : btree_entries m ≡ₚ map_to_list m.
Proof. apply merge_sort_Permutation. Qed.

Lemma btree_entries_sorted {V} (m : gmap Z V) : StronglySorted key_le (btree_entries m).
Proof.
  apply StronglySorted_merge_sort.
  - intros x y z ? ?. unfold key_le in *. lia.
  - intros x y. unfold key_le. lia.
Qed.

(** ** Capacities *)

Definition WARM_TRACKING_SLOTS : usize := 32.
Definition full_packet_identifier_len : usize := u16_MAX + 1.
Definition outgoing_tracking_len (max_inflight : u16) : usize := max_inflight + 1.

Definition warm_tracking_len (max_inflight : u16) : usize :=
  let full_len := outgoing_tracking_len max_inflight in
  let warm_len := WARM_TRACKING_SLOTS + 1 in
  if full_len <? warm_len then full_len else warm_len.

(** ** The search for a free identifier *)

(** [usize::trailing_zeros] of a non-zero block. *)
Fixpoint trailing_zeros (fuel : nat) (x : Z) : Z :=
  match fuel with
  | O => 0
  | S fuel => if Z.odd x then 0 else 1 + trailing_zeros fuel (Z.shiftr x 1)
  end.

(** The [while] loop of [find_free_outbound_pkid_in_range], over the blocks that are left. *)
Fixpoint find_free_loop (fuel : nat) (blocks : list Z) (start end_ block_index : usize)
  : option u16 :=
  match fuel with
  | O => None
  | S fuel =>
      let block_start := block_index * usize_BITS in
      let from := Z.min (Z.max 0 (start - block_start)) usize_BITS in
      let to := Z.min (end_ - block_start) usize_BITS in
      let width := Z.max 0 (to - from) in
      if width =? 0 then find_free_loop fuel blocks start end_ (block_index + 1)
      else
        let mask := if width =? usize_BITS then usize_MAX
                    else Z.land (Z.shiftl (Z.shiftl 1 width - 1) from) usize_MAX in
        let occupied := default 0 (vget blocks block_index) in
        let free := Z.land (Z.lxor occupied usize_MAX) mask in
        if negb (free =? 0) then
          let pkid := block_start + trailing_zeros 64 free in
          if pkid <=? u16_MAX then Some pkid else None
        else find_free_loop fuel blocks start end_ (block_index + 1)
  end.

(** The blocks of the in-use set between [start] and [end_]. *)
Definition find_free_in_range `{FixedBitSet B} (in_use : B) (start end_ : usize) : option u16 :=
  if end_ <=? start then None
  else
    let blocks := as_slice in_use in
    let block_index := start / usize_BITS in
    let end_block := (end_ - 1) / usize_BITS in
    find_free_loop (Z.to_nat (end_block - block_index + 1)) blocks start end_ block_index.

(** The first free identifier after [last_pkid], if any is [available]. *)
Definition next_free_in `{FixedBitSet B} (in_use : B) (available : bool) (last_pkid : u16)
  : option u16 :=
  if negb available then None
  else
    let start := if last_pkid =? u16_MAX then 1 else last_pkid + 1 in
    match find_free_in_range in_use start full_packet_identifier_len with
    | Some pkid => Some pkid
    | None => find_free_in_range in_use 1 start
    end.

(** The first occurrence of [pkid] is removed. *)
Fixpoint remove_ordered_pkid (order : list u16) (pkid : u16) : list u16 :=
  match order with
  | [] => []
  | candidate :: rest =>
      if candidate =? pkid then rest else candidate :: remove_ordered_pkid rest pkid
  end.

(** ** Ordered lists of packet identifiers *)

Lemma remove_ordered_perm order k : k ∈ order → order ≡ₚ k :: remove_ordered_pkid order k.
Proof.
  induction order as [|c order IH]; [set_solver|]. intros Hk. simpl.
  destruct (Z.eqb_spec c k) as [->|Hne]; [done|].
  assert (Hk' : k ∈ order) by set_solver. rewrite (IH Hk') at 1. constructor.
Qed.

Lemma remove_ordered_elem order k j :
  NoDup order → j ∈ remove_ordered_pkid order k ↔ j ∈ order ∧ j ≠ k.
Proof.
  induction order as [|c order IH]; [set_solver|]. intros [Hc Hnd]%NoDup_cons. simpl.
  destruct (Z.eqb_spec c k) as [->|Hne]; [set_solver|].
  rewrite !elem_of_cons, IH by done. set_solver.
Qed.

Lemma blen_perm {A} (l l' : list A) : l ≡ₚ l' → blen l = blen l'.
Proof. intros Hp. unfold blen. by rewrite Hp. Qed.

(** ** Vectors of slots *)

Section Slots.
  Context {A : Type}.
  Implicit Types (v : list (option A)) (k j : Z).

Lemma vget_range v k x : 0 ≤ k → vget v k = Some x → k < blen v.
Proof. intros Hk Hx%lookup_lt_Some. unfold blen. lia. Qed.

Lemma vget_some v k : 0 ≤ k < blen v → ∃ x, vget v k = Some x.
Proof. intros Hk. apply lookup_lt_is_Some. unfold blen in *. lia. Qed.

Lemma vget_vset v k j x :
  0 ≤ k < blen v → 0 ≤ j → vget (vset v k x) j = if k =? j then Some x else vget v j.
Proof.
  intros Hk Hj. unfold vget, vset, blen in *. destruct (Z.eqb_spec k j) as [->|].
  - apply list_lookup_insert_eq. lia.
  - apply list_lookup_insert_ne. lia.
Qed.

Lemma blen_vset v k x : blen (vset v k x) = blen v.
Proof. unfold blen, vset. by rewrite length_insert. Qed.

Lemma blen_resize v n : blen v ≤ n → blen (resize_none v n) = n.
Proof.
  intros Hn. unfold resize_none. rewrite blen_app. unfold blen in *. rewrite length_replicate. lia.
Qed.

Lemma vget_resize v n k x :
  0 ≤ k → vget (resize_none v n) k = Some (Some x) ↔ vget v k = Some (Some x).
Proof.
  intros Hk. unfold vget, resize_none. rewrite lookup_app_Some, lookup_replicate. naive_solver.
Qed.
End Slots.

(** ** Outgoing publishes: the slots hold exactly the identifiers of the order *)

(** What is true of a publish in the slot [k]; each protocol version has its own type. *)
Class TrackedPublish (P : Type) := publish_ok : Z → P → Prop.

Section Publishes.
  Context {P : Type} `{TrackedPublish P}.

Record slots_ok (order : list Z) (pubs : list (option P)) : Prop := {
  slots_order k : k ∈ order ↔ 0 ≤ k ∧ ∃ p, vget pubs k = Some (Some p);
  slots_publish k p : 0 ≤ k → vget pubs k = Some (Some p) → publish_ok k p;
}.

Lemma slots_ok_take order pubs k :
  slots_ok order pubs → NoDup order → k ∈ order →
  slots_ok (remove_ordered_pkid order k) (vset pubs k None).
Proof.
  intros [Ho Hp] Hnd Hk. pose proof Hk as [Hk0 [p Hpk]]%Ho.
  assert (Hr : 0 ≤ k < blen pubs) by (split; [done|by eapply vget_range]). split.
  - intros j. rewrite remove_ordered_elem, Ho by done.
    destruct (decide (0 ≤ j)) as [Hj|]; [|naive_solver]. rewrite vget_vset by done.
    destruct (Z.eqb_spec k j); naive_solver.
  - intros j q Hj. rewrite vget_vset by done. destruct (k =? j); [done|]. by apply Hp.
Qed.

Lemma slots_ok_put order pubs k p :
  slots_ok order pubs → 0 ≤ k → vget pubs k = Some None → publish_ok k p →
  slots_ok (order ++ [k]) (vset pubs k (Some p)).
Proof.
  intros [Ho Hp] Hk Hn Hok.
  assert (Hr : 0 ≤ k < blen pubs) by (split; [done|by eapply vget_range]). split.
  - intros j. rewrite elem_of_app, list_elem_of_singleton, Ho.
    destruct (decide (0 ≤ j)) as [Hj|]; [|naive_solver lia]. rewrite vget_vset by done.
    destruct (Z.eqb_spec k j); naive_solver.
  - intros j q Hj. rewrite vget_vset by done.
    destruct (Z.eqb_spec k j) as [->|]; [naive_solver|]. by apply Hp.
Qed.

Lemma slots_ok_resize order pubs n : slots_ok order pubs → slots_ok order (resize_none pubs n).
Proof.
  intros [Ho Hp]. split.
  - intros k. rewrite Ho. split; intros [? [p Hk]]; (split; [done|exists p]).
    + by rewrite vget_resize.
    + by rewrite vget_resize in Hk.
  - intros k p ? Hk. apply Hp; [done|]. by rewrite vget_resize in Hk.
Qed.

Lemma slots_ok_truncate pubs n :
  slots_ok [] pubs → slots_ok [] (take n pubs).
Proof.
  intros [Ho Hp]. assert (Hnone : ∀ k p, 0 ≤ k → vget pubs k ≠ Some (Some p)).
  { intros k p Hk Hv. assert (Hin : k ∈ ([] : list Z)) by (apply Ho; eauto). set_solver. }
  assert (Hnone' : ∀ k p, 0 ≤ k → vget (take n pubs) k ≠ Some (Some p)).
  { intros k p Hk [Hv _]%lookup_take_Some. by eapply Hnone. }
  split; [|naive_solver]. intros k. split; [set_solver|]. intros [? [p Hv]]. by exfalso; eapply Hnone'.
Qed.

Lemma slots_ok_empty n : slots_ok [] (replicate n None).
Proof.
  assert (Hn : ∀ k (p : P), vget (replicate n None) k ≠ Some (Some p)).
  { intros k p Hk. unfold vget in Hk. apply lookup_replicate in Hk as [? _]. done. }
  split; [|naive_solver]. intros k. split; [set_solver|]. intros [? [p Hv]]. by exfalso; eapply Hn.
Qed.
End Publishes.

(** ** Bits of a block *)

Lemma trailing_zeros_spec fuel x :
  0 < x < 2 ^ Z.of_nat fuel →
  let t := trailing_zeros fuel x in
  0 ≤ t < Z.of_nat fuel ∧ Z.testbit x t = true ∧ ∀ i, 0 ≤ i < t → Z.testbit x i = false.
Proof.
  revert x. induction fuel as [|fuel IH]; intros x Hx; [simpl in Hx; lia|].
  cbn [trailing_zeros]. destruct (Z.odd x) eqn:Hodd.
  - rewrite Z.bit0_odd. split_and!; [lia..|done|]. intros i Hi. lia.
  - assert (Hx2 : x = 2 * Z.shiftr x 1).
    { rewrite <- Z.div2_spec. pose proof (Z.div2_odd x) as Hd. rewrite Hodd in Hd. simpl in Hd. lia. }
    rewrite <- Z.bit0_odd in Hodd.
    assert (Hpow : 2 ^ Z.of_nat (S fuel) = 2 * 2 ^ Z.of_nat fuel)
      by (rewrite Nat2Z.inj_succ, Z.pow_succ_r; lia).
    destruct (IH (Z.shiftr x 1)) as (Ht & Hbit & Hlow); [lia|].
    set (t := trailing_zeros fuel (Z.shiftr x 1)) in *. split_and!; [lia..| |].
    + rewrite Z.shiftr_spec in Hbit by lia. by rewrite Z.add_comm.
    + intros i Hi. destruct (decide (i = 0)) as [->|]; [done|].
      specialize (Hlow (i - 1)). rewrite Z.shiftr_spec in Hlow by lia.
      replace (i - 1 + 1) with i in Hlow by lia. apply Hlow. lia.
Qed.

Lemma mask_spec from to i :
  0 ≤ from < to → to ≤ 64 → 0 ≤ i →
  Z.testbit (if to - from =? usize_BITS then usize_MAX
             else Z.land (Z.shiftl (Z.shiftl 1 (to - from) - 1) from) usize_MAX) i
  = (from <=? i) && (i <? to).
Proof.
  intros Hf Ht Hi. unfold usize_MAX, usize_BITS.
  change (2 ^ 64 - 1) with (Z.ones 64). destruct (Z.eqb_spec (to - from) 64).
  - rewrite Z.testbit_ones by lia. lia.
  - rewrite Z.land_spec, Z.testbit_ones, Z.shiftl_spec by lia.
    rewrite Z.shiftl_mul_pow2, Z.mul_1_l by lia.
    replace (2 ^ (to - from) - 1) with (Z.ones (to - from)) by (rewrite Z.ones_equiv; lia).
    destruct (Z.leb_spec from i).
    + rewrite Z.testbit_ones by lia. lia.
    + rewrite Z.testbit_neg_r by lia. lia.
Qed.

Lemma complement_spec x i :
  0 ≤ x ≤ usize_MAX → 0 ≤ i < 64 → Z.testbit (Z.lxor x usize_MAX) i = negb (Z.testbit x i).
Proof.
  intros Hx Hi. rewrite Z.lxor_spec. unfold usize_MAX, usize_BITS.
  change (2 ^ 64 - 1) with (Z.ones 64). rewrite Z.testbit_ones by lia.
  replace ((0 <=? i) && (i <? 64)) with true by lia. by rewrite xorb_true_r.
Qed.

Lemma testbit_nonzero x i : 0 ≤ i → Z.testbit x i = true → x ≠ 0.
Proof. intros Hi Hb ->. by rewrite Z.bits_0 in Hb. Qed.

Section Bits.
  Context {B : Type} `{FixedBitSetLaws B}.
  Implicit Types (in_use : B).

(** ** The search is correct *)

(** The bits of [free]: the free positions of the block between [from] and [to]. *)
Lemma free_spec (bits : B) bi from to :
  0 ≤ bi → (bi + 1) * 64 ≤ bits_len bits → 0 ≤ from < to → to ≤ 64 →
  let occupied := default 0 (vget (as_slice bits) bi) in
  let mask := if to - from =? usize_BITS then usize_MAX
              else Z.land (Z.shiftl (Z.shiftl 1 (to - from) - 1) from) usize_MAX in
  let free := Z.land (Z.lxor occupied usize_MAX) mask in
  0 ≤ free < 2 ^ 64 ∧
  ∀ i, 0 ≤ i → Z.testbit free i = (from <=? i) && (i <? to) && negb (contains bits (bi * 64 + i)).
Proof.
  intros Hbi Hlen Hf Ht occupied mask free.
  assert (Hocc : 0 ≤ occupied ≤ usize_MAX).
  { unfold occupied, vget. destruct (as_slice bits !! Z.to_nat bi) eqn:Hb; simpl.
    - by eapply as_slice_range.
    - unfold usize_MAX, usize_BITS. lia. }
  assert (Hbits : ∀ i, 0 ≤ i →
    Z.testbit free i = (from <=? i) && (i <? to) && negb (contains bits (bi * 64 + i))).
  { intros i Hi. unfold free. rewrite Z.land_spec. unfold mask. rewrite mask_spec by lia.
    destruct (decide (i < 64)) as [H64|]; [|lia].
    rewrite complement_spec by (done || lia).
    destruct (as_slice_spec bits (bi * 64 + i)) as (block & Hblk & Hbit); [lia|].
    unfold usize_BITS in *.
    replace ((bi * 64 + i) / 64) with bi in Hblk by (Z.div_mod_to_equations; lia).
    replace ((bi * 64 + i) mod 64) with i in Hbit by (Z.div_mod_to_equations; lia).
    unfold occupied, vget. rewrite Hblk. simpl. rewrite Hbit. lia. }
  split; [|done].
  assert (0 ≤ free).
  { unfold free. rewrite Z.land_nonneg. left. rewrite Z.lxor_nonneg. unfold usize_MAX, usize_BITS. lia. }
  split; [done|]. destruct (decide (free = 0)) as [->|]; [lia|].
  apply Z.log2_lt_pow2; [lia|]. destruct (decide (Z.log2 free < 64)); [done|].
  pose proof (Z.bit_log2 free). rewrite Hbits in *; lia.
Qed.

(** The scan, from the block [bi] on. *)
Lemma find_free_loop_spec (bits : B) start end_ bi fuel :
  bits_len bits = full_packet_identifier_len → 0 ≤ start < end_ →
  end_ ≤ full_packet_identifier_len → 0 ≤ bi →
  Z.of_nat fuel = (end_ - 1) / 64 - bi + 1 →
  match find_free_loop fuel (as_slice bits) start end_ bi with
  | Some k => start ≤ k < end_ ∧ bi * 64 ≤ k ∧ contains bits k = false ∧
              ∀ j, start ≤ j < k → bi * 64 ≤ j → contains bits j = true
  | None => ∀ j, start ≤ j < end_ → bi * 64 ≤ j → contains bits j = true
  end.
Proof.
  intros Hlen Hse He. unfold full_packet_identifier_len, u16_MAX in *.
  revert bi. induction fuel as [|fuel IH]; intros bi Hbi Hfuel.
  { simpl. intros j Hj Hge. exfalso. Z.div_mod_to_equations. lia. }
  cbn [find_free_loop]. change usize_BITS with 64.
  set (from := Z.min (Z.max 0 (start - bi * 64)) 64). set (to := Z.min (end_ - bi * 64) 64).
  assert (Hrange : bi * 64 < end_) by (Z.div_mod_to_equations; lia).
  assert (Hnext : match find_free_loop fuel (as_slice bits) start end_ (bi + 1) with
    | Some k => start ≤ k < end_ ∧ (bi + 1) * 64 ≤ k ∧ contains bits k = false ∧
        ∀ j, start ≤ j < k → (bi + 1) * 64 ≤ j → contains bits j = true
    | None => ∀ j, start ≤ j < end_ → (bi + 1) * 64 ≤ j → contains bits j = true
    end) by (apply IH; lia).
  (* if every position of this block is taken, go on with the next one *)
  assert (Hskip : (∀ j, start ≤ j < end_ → bi * 64 ≤ j < (bi + 1) * 64 → contains bits j = true) →
    match find_free_loop fuel (as_slice bits) start end_ (bi + 1) with
    | Some k => start ≤ k < end_ ∧ bi * 64 ≤ k ∧ contains bits k = false ∧
        ∀ j, start ≤ j < k → bi * 64 ≤ j → contains bits j = true
    | None => ∀ j, start ≤ j < end_ → bi * 64 ≤ j → contains bits j = true
    end).
  { intros Hblk. destruct (find_free_loop fuel (as_slice bits) start end_ (bi + 1)) as [k|].
    - destruct Hnext as (? & ? & ? & Hj). split_and!; [lia..|done|]. intros j ? ?.
      destruct (decide (j < (bi + 1) * 64)); [apply Hblk|apply Hj]; lia.
    - intros j ? ?. destruct (decide (j < (bi + 1) * 64)); [apply Hblk|apply Hnext]; lia. }
  destruct (Z.eqb_spec (Z.max 0 (to - from)) 0); [apply Hskip; lia|].
  replace (Z.max 0 (to - from)) with (to - from) by lia.
  destruct (free_spec bits bi from to) as [Hfree Hbits]; [lia..|].
  cbv zeta in Hfree, Hbits. change usize_BITS with 64 in Hfree, Hbits.
  set (free := Z.land _ _) in *. destruct (Z.eqb_spec free 0) as [Hz|Hz]; cbn [negb].
  - apply Hskip. intros j Hj1 Hj2. specialize (Hbits (j - bi * 64)). rewrite Hz, Z.bits_0 in Hbits.
    replace (bi * 64 + (j - bi * 64)) with j in Hbits by lia.
    destruct (contains bits j); [done|]. lia.
  - destruct (trailing_zeros_spec 64 free) as (Ht & Hbit & Hlow); [lia|].
    set (t := trailing_zeros 64 free) in *. rewrite Hbits in Hbit by lia.
    rewrite (proj2 (Z.leb_le _ _)) by (unfold u16_MAX; lia).
    split_and!; [lia..|destruct (contains bits (bi * 64 + t)); [lia|done]|].
    intros j Hj1 Hj2. specialize (Hlow (j - bi * 64)). rewrite Hbits in Hlow by lia.
    replace (bi * 64 + (j - bi * 64)) with j in Hlow by lia.
    destruct (contains bits j); [done|]. lia.
Qed.

(** [a] comes before [b] on the way round from [last]. *)
Definition circular_lt (last a b : Z) : Prop :=
  (a - last - 1) mod u16_MAX < (b - last - 1) mod u16_MAX.

Lemma find_free_spec in_use start end_ :
  bits_len in_use = full_packet_identifier_len → 0 ≤ start →
  end_ ≤ full_packet_identifier_len →
  match find_free_in_range in_use start end_ with
  | Some k => start ≤ k < end_ ∧ contains in_use k = false ∧
              ∀ j, start ≤ j < k → contains in_use j = true
  | None => ∀ j, start ≤ j < end_ → contains in_use j = true
  end.
Proof.
  intros Hlen Hs He. unfold find_free_in_range.
  destruct (Z.leb_spec end_ start); [intros; lia|]. unfold usize_BITS.
  assert (Hd : 0 ≤ start / 64 ≤ (end_ - 1) / 64) by (Z.div_mod_to_equations; lia).
  pose proof (find_free_loop_spec in_use start end_ (start / 64)
    (Z.to_nat ((end_ - 1) / 64 - start / 64 + 1))) as Hl.
  destruct (find_free_loop _ _ _ _ _) as [k|].
  - destruct Hl as (? & ? & ? & Hj); [done|lia|lia|lia|lia|]. split_and!; [lia..|done|].
    intros j ?. apply Hj; Z.div_mod_to_equations; lia.
  - intros j ?. apply Hl; try done; try lia. Z.div_mod_to_equations; lia.
Qed.

(** The identifier chosen is free and is the first free one in circular order. *)
Lemma next_free_some in_use available last k :
  bits_len in_use = full_packet_identifier_len → is_u16 last →
  next_free_in in_use available last = Some k →
  1 ≤ k ≤ u16_MAX ∧ contains in_use k = false ∧
  ∀ j, 1 ≤ j ≤ u16_MAX → circular_lt last j k → contains in_use j = true.
Proof.
  intros Hlen Hlast. unfold is_u16 in Hlast. unfold next_free_in, circular_lt.
  destruct (negb _); [done|]. unfold full_packet_identifier_len, u16_MAX in *.
  set (start := if last =? 65535 then 1 else last + 1).
  assert (Hst : 1 ≤ start ≤ 65535) by (unfold start; destruct (Z.eqb_spec last 65535); lia).
  pose proof (find_free_spec in_use start (65535 + 1)) as H1.
  pose proof (find_free_spec in_use 1 start) as H2. unfold full_packet_identifier_len, u16_MAX in *.
  destruct (find_free_in_range in_use start (65535 + 1)) as [k'|].
  - intros [= ->]. destruct H1 as (? & ? & Hj); [done|lia..|]. split_and!; [lia..|done|].
    intros j ? Hlt. apply Hj. revert Hlt. unfold start in *.
    destruct (Z.eqb_spec last 65535); Z.div_mod_to_equations; lia.
  - intros Hk. rewrite Hk in H2. destruct H2 as (? & ? & Hj); [done|lia..|]. split_and!; [lia..|done|].
    intros j ? Hlt. destruct (decide (start ≤ j)); [apply H1; try done; lia|].
    apply Hj. revert Hlt. unfold start in *.
    destruct (Z.eqb_spec last 65535); Z.div_mod_to_equations; lia.
Qed.

Lemma next_free_none in_use last :
  bits_len in_use = full_packet_identifier_len → is_u16 last →
  next_free_in in_use true last = None →
  ∀ j, 1 ≤ j ≤ u16_MAX → contains in_use j = true.
Proof.
  intros Hlen Hlast. unfold is_u16 in Hlast.
  unfold next_free_in. intros Hn j Hj. cbn [negb] in Hn.
  unfold full_packet_identifier_len, u16_MAX in *.
  set (start := if last =? 65535 then 1 else last + 1) in *.
  assert (Hst : 1 ≤ start ≤ 65535) by (unfold start; destruct (Z.eqb_spec last 65535); lia).
  pose proof (find_free_spec in_use start (65535 + 1)) as H1.
  pose proof (find_free_spec in_use 1 start) as H2. unfold full_packet_identifier_len, u16_MAX in *.
  destruct (find_free_in_range in_use start (65535 + 1)); [done|]. rewrite Hn in H2.
  destruct (decide (start ≤ j)); [apply H1|apply H2]; try done; lia.
Qed.
(** ** A bit set and its order *)

Definition bits_ok (order : list Z) (bits : B) : Prop := ∀ k, contains bits k = true ↔ k ∈ order.

Lemma bits_ok_insert order bits k :
  bits_ok order bits → 0 ≤ k < bits_len bits → bits_ok (order ++ [k]) (put_bit bits k true).
Proof.
  intros Hb Hk j. rewrite contains_put_bit, elem_of_app, list_elem_of_singleton, <- (Hb j) by done.
  destruct (Z.eqb_spec k j); naive_solver.
Qed.

Lemma bits_ok_remove order bits k :
  bits_ok order bits → NoDup order → k ∈ order →
  bits_ok (remove_ordered_pkid order k) (put_bit bits k false).
Proof.
  intros Hb Hnd Hk j. rewrite remove_ordered_elem, <- (Hb j) by done.
  rewrite contains_put_bit by (by apply contains_range, Hb).
  destruct (Z.eqb_spec k j); naive_solver.
Qed.

Lemma bits_ok_grow order bits n : bits_ok order bits → bits_ok order (grow bits n).
Proof. intros Hb k. by rewrite contains_grow. Qed.

Lemma bits_ok_clear bits : bits_ok [] (clear_bits bits).
Proof. intros k. rewrite contains_clear. split; [done|set_solver]. Qed.

Lemma bits_ok_empty n : bits_ok [] (with_capacity n).
Proof. intros k. rewrite contains_with_capacity. split; [done|set_solver]. Qed.

Lemma bits_ok_range order bits k : bits_ok order bits → k ∈ order → 0 ≤ k < bits_len bits.
Proof. intros Hb Hk. by apply contains_range, Hb. Qed.

Lemma bits_ok_decide order bits k :
  bits_ok order bits → contains bits k = bool_decide (k ∈ order).
Proof.
  intros Hb. specialize (Hb k). case_bool_decide; destruct (contains bits k); tauto.
Qed.

(** ** Identifiers in use *)

Record ids_ok (ids : list Z) (in_use : B) (count : Z) : Prop := {
  ids_len : bits_len in_use = full_packet_identifier_len;
  ids_nodup : NoDup ids;
  ids_range k : k ∈ ids → 1 ≤ k ≤ u16_MAX;
  ids_in_use : bits_ok ids in_use;
  ids_count : count = blen ids;
}.

#[global] Instance ids_ok_proper : Proper ((≡ₚ) ==> (=) ==> (=) ==> iff) ids_ok.
Proof.
  assert (Hgo : ∀ ids ids' b c, ids ≡ₚ ids' → ids_ok ids b c → ids_ok ids' b c).
  { intros ids ids' b c Hp [Hl Hn Hr Hu Hc]. split; [done|by rewrite <- Hp| | |].
    - intros k. rewrite <- Hp. apply Hr.
    - intros k. rewrite <- Hp. apply Hu.
    - by rewrite <- (blen_perm _ _ Hp). }
  intros ids ids' Hp b ? <- c ? <-. split; apply Hgo; [done|by symmetry].
Qed.

(** At most 65,535 identifiers exist. *)
Lemma NoDup_range_blen (ids : list Z) n :
  0 ≤ n → NoDup ids → (∀ k, k ∈ ids → 1 ≤ k ≤ n) → blen ids ≤ n.
Proof.
  intros Hn0 Hnd Hr. assert (Hs : ids ⊆+ seqZ 1 n).
  { apply NoDup_submseteq; [done|]. intros k Hk. apply elem_of_seqZ. apply Hr in Hk. lia. }
  apply submseteq_length in Hs. rewrite length_seqZ in Hs. unfold blen. lia.
Qed.

Lemma NoDup_full_blen (ids : list Z) n :
  0 ≤ n → (∀ k, 1 ≤ k ≤ n → k ∈ ids) → n ≤ blen ids.
Proof.
  intros Hn0 Hall. assert (Hs : seqZ 1 n ⊆+ ids).
  { apply NoDup_submseteq; [apply NoDup_seqZ|]. intros k Hk. apply elem_of_seqZ in Hk.
    apply Hall. lia. }
  apply submseteq_length in Hs. rewrite length_seqZ in Hs. unfold blen. lia.
Qed.

Lemma ids_ok_bound ids in_use count : ids_ok ids in_use count → 0 ≤ count ≤ u16_MAX.
Proof.
  intros [_ Hnd Hr _ ->]. split; [apply blen_nonneg|].
  by apply NoDup_range_blen.
Qed.

Lemma ids_ok_contains ids in_use count k :
  ids_ok ids in_use count → contains in_use k = bool_decide (k ∈ ids).
Proof.
  intros Hok. pose proof (ids_in_use _ _ _ Hok k) as Hk. case_bool_decide.
  - by apply Hk.
  - destruct (contains in_use k); [tauto|done].
Qed.

Lemma ids_ok_insert ids in_use count k :
  ids_ok ids in_use count → 1 ≤ k ≤ u16_MAX → k ∉ ids →
  ids_ok (k :: ids) (put_bit in_use k true) (count + 1).
Proof.
  intros [Hl Hn Hr Hu Hc] Hk Hnew. unfold full_packet_identifier_len in *. split.
  - by rewrite len_put_bit.
  - by constructor.
  - intros j [->|Hj]%elem_of_cons; [done|by apply Hr].
  - intros j. rewrite contains_put_bit, elem_of_cons, <- (Hu j) by (rewrite Hl; lia).
    destruct (Z.eqb_spec k j); naive_solver.
  - rewrite blen_cons. lia.
Qed.

Lemma ids_ok_remove ids in_use count k :
  ids_ok (k :: ids) in_use count → ids_ok ids (put_bit in_use k false) (count - 1).
Proof.
  intros [Hl [Hk Hn]%NoDup_cons Hr Hu Hc]. assert (Hkr := Hr k ltac:(set_solver)). split.
  - by rewrite len_put_bit.
  - done.
  - intros j Hj. apply Hr. set_solver.
  - intros j. rewrite contains_put_bit by (rewrite Hl; unfold full_packet_identifier_len; lia).
    pose proof (Hu j) as Hj. rewrite elem_of_cons in Hj.
    destruct (Z.eqb_spec k j) as [->|]; naive_solver.
  - rewrite blen_cons in Hc. lia.
Qed.

(** An identifier can be allocated unless all are in use. *)
Lemma next_free_in_ok ids in_use count last :
  ids_ok ids in_use count → is_u16 last →
  match next_free_in in_use (count <? u16_MAX) last with
  | Some k => 1 ≤ k ≤ u16_MAX ∧ k ∉ ids ∧
      ∀ j, 1 ≤ j ≤ u16_MAX → circular_lt last j k → j ∈ ids
  | None => blen ids = u16_MAX ∧ ∀ j, 1 ≤ j ≤ u16_MAX → j ∈ ids
  end.
Proof.
  intros Hok Hlast. assert (Hl := ids_len _ _ _ Hok).
  assert (Hin : ∀ j, contains in_use j = bool_decide (j ∈ ids)).
  { intros j. by apply (ids_ok_contains _ _ count). }
  assert (Hc := ids_count _ _ _ Hok). pose proof (ids_ok_bound _ _ _ Hok) as Hb.
  destruct (next_free_in in_use (count <? u16_MAX) last) as [k|] eqn:Hn.
  - apply next_free_some in Hn as (Hk & Hfree & Hlt); [|done..]. rewrite Hin in Hfree.
    apply bool_decide_eq_false in Hfree. split_and!; [lia..|done|].
    intros j Hj Hjk. specialize (Hlt j Hj Hjk). rewrite Hin in Hlt.
    by apply bool_decide_eq_true in Hlt.
  - assert (Hfull : ∀ j, 1 ≤ j ≤ u16_MAX → j ∈ ids).
    { intros j Hj. destruct (Z.ltb_spec count u16_MAX) as [Hlt|].
      - pose proof (next_free_none in_use last Hl Hlast Hn j Hj) as Hu. rewrite Hin in Hu.
        by apply bool_decide_eq_true in Hu.
      - destruct (decide (j ∈ ids)) as [|Hj']; [done|]. exfalso.
        pose proof (ids_ok_insert _ _ _ j Hok Hj Hj') as Hok'.
        apply ids_ok_bound in Hok'. lia. }
    split; [|done]. apply NoDup_full_blen in Hfull; [lia|]. unfold u16_MAX. lia.
Qed.

(** ** Rules of the operations *)

Lemma wp_set_bit {S E A} (b : B) i v (k : B → M S E A) Q X s :
  0 ≤ i < bits_len b → wp (k (put_bit b i v)) Q X s → wp (set_bit b i v ≫= k) Q X s.
Proof. intros Hi Hk. apply wp_bind. unfold wp at 1. by rewrite set_bit_ok. Qed.

Lemma wp_index {S E A C} (v : list (option A)) i (k : option A → M S E C) Q X s :
  0 ≤ i < blen v → (∀ x, vget v i = Some x → wp (k x) Q X s) → wp (index v i ≫= k) Q X s.
Proof.
  intros Hi Hk. apply wp_bind. unfold index. destruct (vget_some v i Hi) as [x Hx].
  rewrite Hx. by apply wp_ret, Hk.
Qed.

Lemma wp_assign {S E A C} (v : list (option A)) i x (k : list (option A) → M S E C) Q X s :
  0 ≤ i < blen v → wp (k (vset v i x)) Q X s → wp (assign v i x ≫= k) Q X s.
Proof.
  intros Hi Hk. apply wp_bind. unfold assign. destruct (vget_some v i Hi) as [y Hy].
  rewrite Hy. by apply wp_ret.
Qed.
End Bits.

(** ** What the session states of the two versions share *)

Definition keys {V} (m : gmap Z V) : list Z := (map_to_list m).*1.

Lemma keys_elem {V} (m : gmap Z V) k : k ∈ keys m ↔ is_Some (m !! k).
Proof.
  unfold keys. rewrite list_elem_of_fmap. split.
  - intros ([j x] & -> & Hx%elem_of_map_to_list). simpl. eauto.
  - intros [x Hx]. exists (k, x). by rewrite elem_of_map_to_list.
Qed.

Lemma keys_insert {V} (m : gmap Z V) k x : m !! k = None → keys (<[k := x]> m) ≡ₚ k :: keys m.
Proof. intros Hk. unfold keys. by rewrite map_to_list_insert. Qed.

Lemma keys_delete {V} (m : gmap Z V) k x : m !! k = Some x → keys m ≡ₚ k :: keys (delete k m).
Proof. intros Hk. unfold keys. by rewrite <- (map_to_list_delete m k x). Qed.

(** The contents of a vector of slots, whatever its length. *)
Definition same_slots {A} (v v' : list (option A)) : Prop :=
  ∀ k x, 0 ≤ k → vget v k = Some (Some x) ↔ vget v' k = Some (Some x).

Lemma same_slots_resize {A} (v : list (option A)) n : same_slots v (resize_none v n).
Proof. intros k x Hk. by rewrite vget_resize. Qed.

Lemma forallb_none {A} (v : list (option A)) k x :
  forallb is_none v = true → vget v k ≠ Some (Some x).
Proof.
  intros Hf Hk. rewrite List.forallb_forall in Hf.
  specialize (Hf (Some x)). apply list_elem_of_lookup_2, list_elem_of_In in Hk.
  by specialize (Hf Hk).
Qed.

Lemma same_slots_none {A} (v : list (option A)) n :
  forallb is_none v = true → same_slots v (take n v).
Proof.
  intros Hf k x Hk. split; [intros Hx; by apply (forallb_none v k x) in Hf|].
  intros [Hx _]%lookup_take_Some. by apply (forallb_none v k x) in Hf.
Qed.

Lemma warm_tracking_len_range m : 0 ≤ m ≤ u16_MAX → 1 ≤ warm_tracking_len m ≤ 33.
Proof.
  intros Hm. unfold warm_tracking_len, outgoing_tracking_len, WARM_TRACKING_SLOTS.
  case_match; lia.
Qed.

Lemma elements_remove (R : gset Z) k : k ∈ R → elements R ≡ₚ k :: elements (R ∖ {[k]}).
Proof.
  intros Hk. rewrite (union_difference_singleton_L k R Hk) at 1.
  rewrite elements_disj_union by set_solver. by rewrite elements_singleton.
Qed.

Lemma vset_id {A} (v : list A) k x : vget v k = Some x → vset v k x = v.
Proof. apply list_insert_id. Qed.

(** [v'] is [v] with the slots of [order] emptied. *)
Definition emptied {A} (order : list Z) (v v' : list (option A)) : Prop :=
  blen v' = blen v ∧
  ∀ j, 0 ≤ j → vget v' j = if bool_decide (j ∈ order) then (λ _, None) <$> vget v j else vget v j.

Lemma emptied_nil {A} (v : list (option A)) : emptied [] v v.
Proof. split; [done|]. intros j _. by rewrite bool_decide_eq_false_2 by set_solver. Qed.

Lemma emptied_cons {A} k order (v v' : list (option A)) :
  0 ≤ k < blen v → emptied order (vset v k None) v' → emptied (k :: order) v v'.
Proof.
  intros Hk [Hl Hv]. split; [by rewrite Hl, blen_vset|]. intros j Hj. rewrite Hv by done.
  rewrite vget_vset by lia. destruct (Z.eqb_spec k j) as [->|Hne].
  - rewrite (bool_decide_eq_true_2 (j ∈ j :: order)) by set_solver.
    destruct (vget_some v j Hk) as [x ->]. by case_bool_decide.
  - rewrite (bool_decide_ext (j ∈ k :: order) (j ∈ order)) by set_solver. done.
Qed.

Lemma elements_union_list (R : gset Z) l :
  NoDup l → (∀ k, k ∈ l → k ∉ R) → elements (R ∪ list_to_set l) ≡ₚ l ++ elements R.
Proof.
  intros Hnd Hd. rewrite elements_disj_union by set_solver.
  by rewrite elements_list_to_set, (comm (++)).
Qed.

Lemma keys_btree {V} (m : gmap Z V) : (btree_entries m).*1 ≡ₚ keys m.
Proof. unfold keys. by rewrite btree_entries_perm. Qed.

Lemma elements_dom {V} (m : gmap Z V) : elements (dom m) ≡ₚ keys m.
Proof.
  apply NoDup_Permutation; [apply NoDup_elements|apply NoDup_fst_map_to_list|].
  intros k. rewrite elem_of_elements, elem_of_dom. by rewrite keys_elem.
Qed.

Lemma slots_ok_emptied `{TrackedPublish P} order (pubs pubs' : list (option P)) :
  slots_ok order pubs → emptied order pubs pubs' → slots_ok [] pubs'.
Proof.
  intros [Ho Hp] [Hl Hv].
  assert (Hno : ∀ k p, 0 ≤ k → vget pubs' k ≠ Some (Some p)).
  { intros k p Hk Hc. rewrite Hv in Hc by done. case_bool_decide as Hin.
    - by destruct (vget pubs k).
    - apply Hin, Ho. eauto. }
  split; [|intros k p Hk Hc; by destruct (Hno k p)].
  intros k. split; [by intros ?%not_elem_of_nil|]. intros [Hk [p Hc]]. by destruct (Hno k p).
Qed.

Section Shared.
  Context {B : Type} `{FixedBitSetLaws B}.

Lemma bits_ok_false order (bits : B) k : bits_ok order bits → k ∉ order → contains bits k = false.
Proof. intros Hb Hk. destruct (contains bits k) eqn:Hc; [|done]. by apply Hb in Hc. Qed.

(** The tracking vectors have one length. *)
Record lens_ok {P} (pubs : list (option P)) (pub_notices rel_notices : list (option nat))
    (rel replay : B) : Prop := {
  len_pub : 1 ≤ blen pubs ≤ full_packet_identifier_len;
  len_pub_notice : blen pub_notices = blen pubs;
  len_rel_notice : blen rel_notices = blen pubs;
  len_rel : bits_len rel = blen pubs;
  len_replay : bits_len replay = blen pubs;
}.

(** The receiving side. *)
Record incoming_ok (puback ipub irec : B) : Prop := {
  len_puback : bits_len puback = full_packet_identifier_len;
  len_ipub : bits_len ipub = full_packet_identifier_len;
  len_irec : bits_len irec = full_packet_identifier_len;
  irec_ipub k : contains irec k = true → contains ipub k = true;
}.

Lemma incoming_ok_puback pa ip ir k v :
  incoming_ok pa ip ir → incoming_ok (put_bit pa k v) ip ir.
Proof. intros [? ? ? ?]. split; try done. by rewrite len_put_bit. Qed.

Lemma incoming_ok_pub (pa ip ir : B) k :
  incoming_ok pa ip ir → is_u16 k → incoming_ok pa (put_bit ip k true) ir.
Proof.
  intros [? Hl ? Hs] Hk. unfold is_u16, full_packet_identifier_len, u16_MAX in *.
  split; try done; [by rewrite len_put_bit|]. intros j Hj.
  rewrite contains_put_bit by lia. destruct (k =? j); [done|by apply Hs].
Qed.

Lemma incoming_ok_pubrec (pa ip ir : B) k :
  incoming_ok pa ip ir → is_u16 k → contains ip k = true → incoming_ok pa ip (put_bit ir k true).
Proof.
  intros [? ? Hl Hs] Hk Hc. unfold is_u16, full_packet_identifier_len, u16_MAX in *.
  split; try done; [by rewrite len_put_bit|]. intros j. rewrite contains_put_bit by lia.
  destruct (Z.eqb_spec k j) as [->|]; [done|apply Hs].
Qed.

Lemma incoming_ok_pubrel (pa ip ir : B) k :
  incoming_ok pa ip ir → is_u16 k → incoming_ok pa (put_bit ip k false) (put_bit ir k false).
Proof.
  intros [? Hl1 Hl Hs] Hk. unfold is_u16, full_packet_identifier_len, u16_MAX in *.
  split; try done; [by rewrite len_put_bit..|]. intros j. rewrite !contains_put_bit by lia.
  destruct (Z.eqb_spec k j) as [->|]; [done|apply Hs].
Qed.

(** A bit set of packet identifiers and the number of its elements. *)
Record counted (bits : B) (n : Z) : Prop := {
  counted_len : bits_len bits = full_packet_identifier_len;
  counted_ones : n = blen (ones bits);
}.

Lemma counted_bound bits n : counted bits n → 0 ≤ n.
Proof. intros [_ ->]. apply blen_nonneg. Qed.

Lemma ones_put_true (bits : B) k :
  0 ≤ k < bits_len bits → contains bits k = false → ones (put_bit bits k true) ≡ₚ k :: ones bits.
Proof.
  intros Hk Hc. apply NoDup_Permutation; [apply NoDup_ones| |].
  - constructor; [|apply NoDup_ones]. rewrite elem_of_ones. congruence.
  - intros j. rewrite elem_of_cons, !elem_of_ones, contains_put_bit by done.
    destruct (Z.eqb_spec k j); naive_solver.
Qed.

Lemma ones_put_false (bits : B) k :
  contains bits k = true → ones bits ≡ₚ k :: ones (put_bit bits k false).
Proof.
  intros Hc. pose proof (contains_range _ _ Hc). apply NoDup_Permutation; [apply NoDup_ones| |].
  - constructor; [|apply NoDup_ones]. rewrite elem_of_ones, contains_put_bit, Z.eqb_refl by done. done.
  - intros j. rewrite elem_of_cons, !elem_of_ones, contains_put_bit by done.
    destruct (Z.eqb_spec k j); naive_solver.
Qed.

Lemma counted_insert (bits : B) n k :
  counted bits n → is_u16 k → contains bits k = false → counted (put_bit bits k true) (n + 1).
Proof.
  intros [Hl ->] Hk Hc. split; [by rewrite len_put_bit|].
  rewrite (blen_perm _ _ (ones_put_true bits k ltac:(unfold is_u16, full_packet_identifier_len, u16_MAX in *; lia) Hc)).
  rewrite blen_cons. lia.
Qed.

Lemma counted_remove (bits : B) n k :
  counted bits n → contains bits k = true → 1 ≤ n ∧ counted (put_bit bits k false) (n - 1).
Proof.
  intros [Hl ->] Hc. pose proof (blen_perm _ _ (ones_put_false bits k Hc)) as Hp.
  rewrite blen_cons in Hp. pose proof (blen_nonneg (ones (put_bit bits k false))).
  split; [lia|]. split; [by rewrite len_put_bit|lia].
Qed.

Lemma counted_clear (bits : B) : bits_len bits = full_packet_identifier_len → counted (clear_bits bits) 0.
Proof.
  intros Hl. split; [by rewrite len_clear|]. destruct (ones (clear_bits bits)) as [|k l] eqn:Ho; [done|].
  assert (Hk : k ∈ ones (clear_bits bits)) by (rewrite Ho; set_solver).
  rewrite elem_of_ones, contains_clear in Hk. done.
Qed.

Lemma counted_new : counted (with_capacity full_packet_identifier_len) 0.
Proof.
  split; [by rewrite len_with_capacity|].
  destruct (ones (with_capacity full_packet_identifier_len)) as [|k l] eqn:Ho; [done|].
  assert (Hk : k ∈ ones (with_capacity (B:=B) full_packet_identifier_len)) by (rewrite Ho; set_solver).
  rewrite elem_of_ones, contains_with_capacity in Hk. done.
Qed.
End Shared.
