(* ===== verification/SessionIO.v ===== *)
(** The writer and the reader of persisted sessions.  [rumqttc-v4/src/session.rs] and
    [rumqttc-v5/src/session.rs] contain the same code here: the header constants, the error types,
    the acknowledgement mode and QoS tags, [SessionWriter] and [SessionReader].

    The writer appends to a buffer with a size limit and remembers an overflow instead of failing at
    once; the reader walks a byte slice by position under a memory budget.

    Laws of the writer and the reader of persisted sessions: what is written, and that a reader
    accepts exactly that.  [swrites] specifies writers, [decodes] readers. *)

From stdpp Require Import strings.
From S2P Require Import Prelude.
From S2P Require Import Utf8.
From S2P Require Import Primitives.
From S2P Require Import FixedBitSet.
#[local] Open Scope Z_scope.

Inductive PersistedAckMode := PA_Automatic | PA_Manual.
Inductive PersistedQoS := PQ_AtMostOnce | PQ_AtLeastOnce | PQ_ExactlyOnce.

#[global] Instance PersistedAckMode_eq_dec : EqDecision PersistedAckMode.
Proof. solve_decision. Defined.
#[global] Instance PersistedQoS_eq_dec : EqDecision PersistedQoS.
Proof. solve_decision. Defined.

Definition SESSION_MAGIC : Bytes := [82; 77; 81; 83; 69; 83; 83].
Definition SESSION_CODEC_VERSION : u16 := 2.
Definition MAX_BINARY_LEN : usize := 268435455.
Definition MAX_COLLECTION_LEN : usize := 1000000.

Inductive SessionEncodeError := FieldTooLarge (field : string) (len : usize).

Inductive SessionDecodeError :=
| InvalidMagic
| WrongProtocol (actual : u8)
| UnsupportedCodecVersion (actual : u16)
| Truncated (field : string)
| TrailingBytes
| InvalidUtf8 (field : string)
| InvalidEnumTag (field : string) (tag : u8)
| LimitExceeded (field : string) (len : usize).

Definition encode_ack_mode (ack_mode : PersistedAckMode) : u8 :=
  match ack_mode with PA_Automatic => 1 | PA_Manual => 2 end.
Definition decode_ack_mode (tag : u8) : outcome SessionDecodeError PersistedAckMode :=
  if tag =? 1 then Ok PA_Automatic else if tag =? 2 then Ok PA_Manual
  else Err (InvalidEnumTag "ack_mode" tag).

Definition encode_qos (qos : PersistedQoS) : u8 :=
  match qos with PQ_AtMostOnce => 0 | PQ_AtLeastOnce => 1 | PQ_ExactlyOnce => 2 end.
Definition decode_qos (tag : u8) : outcome SessionDecodeError PersistedQoS :=
  if tag =? 0 then Ok PQ_AtMostOnce else if tag =? 1 then Ok PQ_AtLeastOnce
  else if tag =? 2 then Ok PQ_ExactlyOnce else Err (InvalidEnumTag "qos" tag).

(** ** Encoding *)

(** The spare capacity of [bytes] is not observable and left out. *)
Record SessionWriter := mkSessionWriter { w_bytes : Bytes; w_limit : usize; w_excess : option usize }.

Abbreviation SW := (M SessionWriter SessionEncodeError).

Definition u32_bytes (n : u32) : Bytes :=
  [n / 16777216 mod 256; n / 65536 mod 256; n / 256 mod 256; n mod 256].

Definition w_append (value : Bytes) : SW unit := mmodify (λ w,
  let length := Z.min usize_MAX (blen (w_bytes w) + blen value) in
  if w_limit w <? length
  then {| w_bytes := w_bytes w; w_limit := w_limit w; w_excess := Some length |}
  else match w_excess w with
       | None => {| w_bytes := w_bytes w ++ value; w_limit := w_limit w; w_excess := None |}
       | Some _ => w
       end).

Definition w_u8 (value : u8) : SW unit := w_append [value].
Definition w_bool (value : bool) : SW unit := w_u8 (Z.b2z value).
Definition w_u16 (value : u16) : SW unit := w_append (u16_bytes value).
Definition w_u32 (value : u32) : SW unit := w_append (u32_bytes value).

(** [if let Some(len) = self.excess { return Err(..) }]. *)
Definition w_check : SW unit :=
  w ← mget;
  match w_excess w with
  | Some len => mfail (FieldTooLarge "checkpoint" len)
  | None => mret tt
  end.

Definition w_field (field : string) (value : Bytes) : SW unit :=
  if MAX_BINARY_LEN <? blen value then mfail (FieldTooLarge field (blen value))
  else if 4294967295 <? blen value then mfail (FieldTooLarge field (blen value))
  else
    w_u32 (blen value);;
    w_append value;;
    w_check.

Definition w_string (field : string) (value : Bytes) : SW unit := w_field field value.

Fixpoint w_elements {T} (values : list T) (write : T → SW unit) : SW unit :=
  match values with
  | [] => mret tt
  | value :: values => write value;; w_check;; w_elements values write
  end.

Definition w_vec {T} (field : string) (values : list T) (write : T → SW unit) : SW unit :=
  if MAX_COLLECTION_LEN <? blen values then mfail (FieldTooLarge field (blen values))
  else if 4294967295 <? blen values then mfail (FieldTooLarge field (blen values))
  else
    w_u32 (blen values);;
    w_elements values write.

(** ** Decoding *)

Record SessionReader := mkSessionReader {
  r_bytes : Bytes; r_position : usize; r_remaining_memory : usize }.

Abbreviation SR := (M SessionReader SessionDecodeError).

Definition reserve_memory (field : string) (len : usize) : SR unit :=
  r ← mget;
  if r_remaining_memory r <? len then mfail (LimitExceeded field len)
  else mput {| r_bytes := r_bytes r; r_position := r_position r;
               r_remaining_memory := r_remaining_memory r - len |}.

Definition r_take (field : string) (len : usize) : SR Bytes :=
  r ← mget;
  let end_ := r_position r + len in
  if usize_MAX <? end_ then mfail (LimitExceeded field len)
  else if blen (r_bytes r) <? end_ then mfail (Truncated field)
  else
    mput {| r_bytes := r_bytes r; r_position := end_;
            r_remaining_memory := r_remaining_memory r |};;
    mret (take (Z.to_nat len) (drop (Z.to_nat (r_position r)) (r_bytes r))).

Definition r_magic : SR unit :=
  magic ← r_take "magic" (blen SESSION_MAGIC);
  if bool_decide (magic = SESSION_MAGIC) then mret tt else mfail InvalidMagic.

Definition r_finish : SR unit :=
  r ← mget;
  if r_position r =? blen (r_bytes r) then mret tt else mfail TrailingBytes.

Definition r_u8 (field : string) : SR u8 :=
  bytes ← r_take field 1;
  match bytes with a :: _ => mret a | _ => mpanic end.

(** [decode_qos(reader.u8(field)?)?] and [decode_ack_mode(reader.u8(field)?)?]. *)
Definition r_tag {A} (field : string) (dec : u8 → outcome SessionDecodeError A) : SR A :=
  tag ← r_u8 field;
  lift (dec tag).

Definition r_bool (field : string) : SR bool :=
  tag ← r_u8 field;
  if tag =? 0 then mret false else if tag =? 1 then mret true
  else mfail (InvalidEnumTag field tag).

Definition r_u16 (field : string) : SR u16 :=
  bytes ← r_take field 2;
  match bytes with a :: b :: _ => mret (a * 256 + b) | _ => mpanic end.

Definition r_u32 (field : string) : SR u32 :=
  bytes ← r_take field 4;
  match bytes with
  | a :: b :: c :: d :: _ => mret (a * 16777216 + b * 65536 + c * 256 + d)
  | _ => mpanic
  end.

Definition r_field (field : string) : SR Bytes :=
  len ← r_u32 field;
  if MAX_BINARY_LEN <? len then mfail (LimitExceeded field len)
  else
    reserve_memory field len;;
    r_take field len.

Definition r_string (field : string) : SR Bytes :=
  bytes ← r_field field;
  match from_utf8 bytes with
  | Ok s => mret s
  | _ => mfail (InvalidUtf8 field)
  end.

(** [for _ in 0..len { values.push(read(self)?) }]. *)
Fixpoint r_elements {T} (len : nat) (read : SR T) : SR (list T) :=
  match len with
  | O => mret []
  | S len => value ← read; values ← r_elements len read; mret (value :: values)
  end.

Definition r_vec {T} (size_of : usize) (field : string) (read : SR T) : SR (list T) :=
  len ← r_u32 field;
  if MAX_COLLECTION_LEN <? len then mfail (LimitExceeded field len)
  else
    r ← mget;
    if Z.max 0 (blen (r_bytes r) - r_position r) <? len then mfail (Truncated field)
    else if usize_MAX <? len * size_of then mfail (LimitExceeded field len)
    else
      reserve_memory field (len * size_of);;
      r_elements (Z.to_nat len) read.

Definition enc_field (v : Bytes) : Bytes := u32_bytes (blen v) ++ v.
Definition enc_vec {T} (enc : T → Bytes) (vs : list T) : Bytes :=
  u32_bytes (blen vs) ++ concat (map enc vs).

(** Values within the limits of the format. *)
Definition field_ok (v : Bytes) : Prop := Forall is_u8 v ∧ blen v ≤ MAX_BINARY_LEN.
Definition string_ok (v : Bytes) : Prop := field_ok v ∧ utf8 v.
Definition vec_ok {T} (ok : T → Prop) (vs : list T) : Prop :=
  blen vs ≤ MAX_COLLECTION_LEN ∧ Forall ok vs.

(** The memory the decoder accounts for. *)
Definition sum_of {T} (f : T → Z) (vs : list T) : Z := foldr (λ v n, f v + n) 0 vs.
Definition mem_vec {T} (size_of : Z) (mem : T → Z) (vs : list T) : Z :=
  blen vs * size_of + sum_of mem vs.

(** ** Writing *)

(** The output stays within the limit. *)
Definition fits (w : SessionWriter) (out : Bytes) : Prop :=
  w_excess w = None ∧ blen (w_bytes w) + blen out ≤ w_limit w.

(** [m] appends [out] if it fits; otherwise it fails or remembers the overflow. *)
Definition swrites (m : M SessionWriter SessionEncodeError unit) (out : Bytes) : Prop :=
  ∀ w, blen (w_bytes w) ≤ w_limit w → blen (w_bytes w) + blen out ≤ usize_MAX →
  match m w with
  | (Ok _, w') => w_limit w' = w_limit w ∧ blen (w_bytes w') ≤ w_limit w ∧
      (fits w out → w_bytes w' = w_bytes w ++ out ∧ w_excess w' = None) ∧
      (¬ fits w out → w_excess w' ≠ None ∧ blen (w_bytes w') ≤ blen (w_bytes w) + blen out)
  | (Err _, _) => ¬ fits w out
  | (Panic, _) => False
  end.

Lemma swrites_append out : swrites (w_append out) out.
Proof.
  intros w Hw Hb. cbn. rewrite Z.min_r by lia. pose proof (blen_nonneg out).
  destruct (Z.ltb_spec (w_limit w) (blen (w_bytes w) + blen out)) as [Hlt|Hle]; cbn.
  - unfold fits. split_and!; [done|done|lia|]. intros _. split; [done|lia].
  - unfold fits. destruct (w_excess w) as [n|] eqn:He; cbn.
    + split_and!; [done|done|by intros []|]. intros _. rewrite He. split; [done|lia].
    + rewrite blen_app. split_and!; [done|lia|done|]. intros Hn. by destruct Hn.
Qed.

Lemma swrites_ret : swrites (mret tt) [].
Proof.
  intros w Hw Hb. cbn. unfold fits. rewrite app_nil_r, blen_nil. split_and!; [done|done|tauto|].
  intros Hn. split; [|lia]. destruct (w_excess w); [done|]. destruct Hn. split; [done|lia].
Qed.

Lemma swrites_bind m1 m2 o1 o2 : swrites m1 o1 → swrites m2 o2 → swrites (m1;; m2) (o1 ++ o2).
Proof.
  intros H1 H2 w Hw Hb. rewrite blen_app in Hb. pose proof (blen_nonneg o1). pose proof (blen_nonneg o2).
  specialize (H1 w Hw ltac:(lia)). rewrite bind_run. unfold fits in *. rewrite !blen_app.
  destruct (m1 w) as [[u|e|] w1]; [|intros [? ?]; apply H1; (split; [done|lia])|done].
  destruct H1 as (Hl1 & Hw1 & Hfit1 & Hno1). specialize (H2 w1). rewrite Hl1 in H2.
  destruct (decide (w_excess w = None ∧ blen (w_bytes w) + blen o1 ≤ w_limit w)) as [Hf|Hf].
  - destruct (Hfit1 Hf) as [Hb1 He1]. rewrite Hb1, blen_app in Hw1, H2. unfold fits in H2.
    specialize (H2 ltac:(lia) ltac:(lia)). rewrite Hb1, blen_app, Hl1, He1 in H2. destruct Hf as [Hx _].
    destruct (m2 w1) as [[u'|e|] w2]; [|intros [_ ?]; apply H2; (split; [done|lia])|done].
    destruct H2 as (Hl2 & Hw2 & Hfit2 & Hno2). split; [done|]. split; [done|]. split.
    + intros [_ ?]. destruct Hfit2 as [-> ?]; [split; [done|lia]|]. by rewrite <- (assoc_L (++)).
    + intros Hn. destruct Hno2 as [? ?]; [|split; [done|lia]].
      intros [_ ?]. apply Hn. split; [done|lia].
  - destruct (Hno1 Hf) as [He1 Hb1]. specialize (H2 Hw1 ltac:(lia)).
    destruct (m2 w1) as [[u'|e|] w2]; [|intros [? ?]; apply Hf; (split; [done|lia])|done].
    destruct H2 as (Hl2 & Hw2 & _ & Hno2). split; [done|]. split; [done|]. split.
    + intros [? ?]. destruct Hf. split; [done|lia].
    + intros _. destruct Hno2 as [? ?]; [by intros []|]. split; [done|lia].
Qed.

Lemma swrites_check : swrites w_check [].
Proof.
  intros w Hw Hb. unfold w_check. rewrite bind_run. cbn [mget].
  destruct (w_excess w) as [n|] eqn:He; [|by apply swrites_ret].
  cbn. unfold fits. rewrite He. by intros [].
Qed.

Lemma swrites_eq m o o' : swrites m o → o = o' → swrites m o'.
Proof. by intros ? <-. Qed.

Lemma swrites_field field v : blen v ≤ MAX_BINARY_LEN → swrites (w_field field v) (enc_field v).
Proof.
  intros Hl. unfold w_field. unfold MAX_BINARY_LEN in *.
  rewrite !(proj2 (Z.ltb_ge _ _)) by lia. unfold enc_field.
  eapply swrites_eq; [repeat apply swrites_bind; [apply swrites_append..|apply swrites_check]|].
  by rewrite app_nil_r.
Qed.

Lemma swrites_vec {T} field (write : T → _) enc vs (ok : T → Prop) :
  (∀ v, ok v → swrites (write v) (enc v)) → vec_ok ok vs → swrites (w_vec field vs write) (enc_vec enc vs).
Proof.
  intros Hw [Hl Hok]. unfold w_vec, MAX_COLLECTION_LEN in *. rewrite !(proj2 (Z.ltb_ge _ _)) by lia.
  apply swrites_bind; [apply swrites_append|]. clear Hl.
  induction Hok as [|v vs Hv _ IH]; [apply swrites_ret|]. cbn [w_elements map concat].
  apply swrites_bind; [by apply Hw|]. apply (swrites_bind _ _ []); [apply swrites_check|exact IH].
Qed.

(** ** Reading *)

Definition rest_of (r : SessionReader) : Bytes := drop (Z.to_nat (r_position r)) (r_bytes r).

Definition reader_ok (r : SessionReader) : Prop :=
  0 ≤ r_position r ≤ blen (r_bytes r) ∧ blen (r_bytes r) ≤ usize_MAX ∧
  Forall is_u8 (r_bytes r) ∧ 0 ≤ r_remaining_memory r ≤ usize_MAX.

(** [r] after reading [n] bytes and accounting for [mem] bytes of memory. *)
Definition advanced (r : SessionReader) (n mem : Z) : SessionReader :=
  {| r_bytes := r_bytes r; r_position := r_position r + n;
     r_remaining_memory := r_remaining_memory r - mem |}.

Lemma advanced_0 r : advanced r 0 0 = r.
Proof. destruct r. unfold advanced. cbn. f_equal; lia. Qed.
Lemma advanced_advanced r n m n' m' : advanced (advanced r n m) n' m' = advanced r (n + n') (m + m').
Proof. unfold advanced. cbn. f_equal; lia. Qed.

Lemma rest_of_advanced r inp rest mem :
  reader_ok r → rest_of r = inp ++ rest → rest_of (advanced r (blen inp) mem) = rest.
Proof.
  intros [Hp _] Hr. unfold rest_of, advanced in *. cbn.
  rewrite Z2Nat.inj_add by (try apply blen_nonneg; lia). rewrite <- drop_drop, Hr, blen_to_nat.
  by rewrite drop_app_length.
Qed.

Lemma blen_rest r : reader_ok r → blen (rest_of r) = blen (r_bytes r) - r_position r.
Proof. intros [Hp _]. unfold rest_of. by rewrite blen_drop. Qed.

Lemma rest_u8 r : reader_ok r → Forall is_u8 (rest_of r).
Proof. intros (_ & _ & H8 & _). by apply Forall_drop. Qed.

Lemma reader_ok_advanced r inp rest mem :
  reader_ok r → rest_of r = inp ++ rest → 0 ≤ mem ≤ r_remaining_memory r →
  reader_ok (advanced r (blen inp) mem).
Proof.
  intros Hok Hr Hm. pose proof (blen_rest r Hok) as Hl. rewrite Hr, blen_app in Hl.
  pose proof (blen_nonneg inp). pose proof (blen_nonneg rest).
  destruct Hok as (Hp & Hb & H8 & Hrem). unfold advanced. split_and!; cbn; try done; lia.
Qed.

(** [m] reads exactly [inp] as [a]. *)
Definition sreads {A} (m : M SessionReader SessionDecodeError A) (inp : Bytes) (mem : Z) (a : A) : Prop :=
  0 ≤ mem ∧
  ∀ r rest, reader_ok r → rest_of r = inp ++ rest → mem ≤ r_remaining_memory r →
  m r = (Ok a, advanced r (blen inp) mem).

(** What [m] reads from [r], reaching [r'], is [inp]. *)
Definition has_read (r : SessionReader) (inp : Bytes) (mem : Z) (r' : SessionReader) : Prop :=
  r' = advanced r (blen inp) mem ∧ reader_ok r' ∧ rest_of r = inp ++ rest_of r' ∧ 0 ≤ mem ≤ r_remaining_memory r.

Lemma has_read_refl r : reader_ok r → has_read r [] 0 r.
Proof.
  intros Hr. split_and!; try done; [by rewrite blen_nil, advanced_0|]. by destruct Hr as (_ & _ & _ & ? & _).
Qed.

Lemma has_read_trans r r1 r2 i1 m1 i2 m2 :
  has_read r i1 m1 r1 → has_read r1 i2 m2 r2 → has_read r (i1 ++ i2) (m1 + m2) r2.
Proof.
  intros (-> & _ & Hr1 & Hm1) (-> & Hok2 & Hr2 & Hm2). cbn in Hm2.
  split_and!; try done; [by rewrite advanced_advanced, blen_app| |lia|lia].
  by rewrite Hr1, Hr2, <- (assoc_L (++)).
Qed.

Lemma sreads_bind {A C} (m : M SessionReader SessionDecodeError A) (k : A → M SessionReader SessionDecodeError C)
    i1 m1 i2 m2 a b :
  sreads m i1 m1 a → sreads (k a) i2 m2 b → sreads (m ≫= k) (i1 ++ i2) (m1 + m2) b.
Proof.
  intros [Hp1 H1] [Hp2 H2]. split; [lia|]. intros r rest Hok Hr Hm. rewrite <- (assoc_L (++)) in Hr.
  rewrite bind_run, (H1 r (i2 ++ rest)) by (done || lia).
  rewrite (H2 _ rest); [|by eapply (reader_ok_advanced r i1 (i2 ++ rest)); [done|done|lia]|by eapply rest_of_advanced|cbn; lia].
  by rewrite advanced_advanced, blen_app.
Qed.

Lemma sreads_ret {A} (a : A) : sreads (mret a) [] 0 a.
Proof. split; [done|]. intros r rest Hok Hr Hm. by rewrite blen_nil, advanced_0. Qed.

Lemma sreads_eq {A} (m : M SessionReader SessionDecodeError A) i i' n n' a :
  sreads m i n a → i = i' → n = n' → sreads m i' n' a.
Proof. by intros ? <- <-. Qed.

(** *** Primitive reads *)

Lemma r_take_ok field n inp :
  blen inp = n → sreads (r_take field n) inp 0 inp.
Proof.
  intros <-. split; [done|]. intros r rest Hok Hr Hm. unfold r_take. rewrite bind_run. cbn [mget].
  pose proof (blen_rest r Hok) as Hl. rewrite Hr, blen_app in Hl. pose proof (blen_nonneg rest).
  destruct Hok as (Hp & Hb & _). rewrite !(proj2 (Z.ltb_ge _ _)) by lia. rewrite bind_run. cbn [mput].
  unfold advanced. rewrite Z.sub_0_r. fold (rest_of r). rewrite Hr, blen_to_nat, take_app_length. done.
Qed.

Lemma wp_r_take field n r :
  reader_ok r → 0 ≤ n →
  wp (r_take field n) (λ a r', blen a = n ∧ Forall is_u8 a ∧ has_read r a 0 r') (λ _ _, True) r.
Proof.
  intros Hok Hn. unfold r_take. apply wp_bind, wp_get.
  destruct (Z.ltb_spec usize_MAX (r_position r + n)); [by apply wp_fail|].
  destruct (Z.ltb_spec (blen (r_bytes r)) (r_position r + n)) as [|Hle]; [by apply wp_fail|].
  apply wp_bind. unfold wp at 1. cbn [mput]. apply wp_ret. fold (rest_of r).
  pose proof (blen_rest r Hok) as Hl. destruct (Hok) as (Hp & Hb & H8 & Hrem).
  assert (Hlen : blen (take (Z.to_nat n) (rest_of r)) = n) by (apply blen_take; lia).
  split; [done|]. split; [by apply Forall_take, rest_u8|].
  assert (Hadv : {| r_bytes := r_bytes r; r_position := r_position r + n;
    r_remaining_memory := r_remaining_memory r |} = advanced r (blen (take (Z.to_nat n) (rest_of r))) 0).
  { unfold advanced. rewrite Hlen. f_equal; lia. }
  rewrite Hadv. set (a := take _ _) in *.
  assert (Hr : rest_of r = a ++ drop (Z.to_nat n) (rest_of r)) by (unfold a; by rewrite take_drop).
  split_and!; try (done || lia); [eapply reader_ok_advanced; [done|done|lia]|].
  by rewrite (rest_of_advanced r a _ 0 Hok Hr).
Qed.

Lemma sreads_u8 field n : sreads (r_u8 field) [n] 0 n.
Proof.
  eapply sreads_eq; [eapply sreads_bind; [by apply (r_take_ok _ _ [n])|apply sreads_ret]|done|done].
Qed.

Lemma wp_r_u8 field r :
  reader_ok r → wp (r_u8 field) (λ n r', is_u8 n ∧ has_read r [n] 0 r') (λ _ _, True) r.
Proof.
  intros Hok. unfold r_u8. apply wp_bind. eapply wp_mono; [by apply wp_r_take| |done].
  intros a r' (Hl & H8 & Hr). destruct a as [|n [|? ?]]; [done| |unfold blen in Hl; simpl in Hl; lia].
  apply wp_ret. apply Forall_cons in H8 as [? _]. done.
Qed.

Lemma sreads_bool field b : sreads (r_bool field) [Z.b2z b] 0 b.
Proof.
  apply (sreads_bind _ _ [_] 0 [] 0 (Z.b2z b)); [apply sreads_u8|]. destruct b; apply sreads_ret.
Qed.

Lemma wp_r_bool field r :
  reader_ok r → wp (r_bool field) (λ b r', has_read r [Z.b2z b] 0 r') (λ _ _, True) r.
Proof.
  intros Hok. unfold r_bool. apply wp_bind. eapply wp_mono; [by apply wp_r_u8| |done].
  intros n r' [_ Hr]. destruct (Z.eqb_spec n 0) as [->|]; [by apply wp_ret|].
  destruct (Z.eqb_spec n 1) as [->|]; [by apply wp_ret|by apply wp_fail].
Qed.

Lemma sreads_u16 field n : is_u16 n → sreads (r_u16 field) (u16_bytes n) 0 n.
Proof.
  intros Hn. eapply sreads_eq; [eapply sreads_bind; [by apply (r_take_ok _ _ (u16_bytes n))|]| |].
  - unfold u16_bytes. replace n with (n / 256 * 256 + n mod 256) at 3 by (Z.div_mod_to_equations; lia).
    apply sreads_ret.
  - apply app_nil_r.
  - done.
Qed.

Lemma wp_r_u16 field r :
  reader_ok r → wp (r_u16 field) (λ n r', is_u16 n ∧ has_read r (u16_bytes n) 0 r') (λ _ _, True) r.
Proof.
  intros Hok. unfold r_u16. apply wp_bind. eapply wp_mono; [by apply wp_r_take| |done].
  intros a r' (Hl & H8 & Hr). destruct a as [|x [|y [|? ?]]];
    [done|done| |rewrite !blen_cons in Hl; pose proof (blen_nonneg l); lia].
  rewrite !Forall_cons in H8. destruct H8 as (Hx & Hy & _). unfold is_u8 in *. apply wp_ret.
  split; [unfold is_u16; lia|].
  replace (u16_bytes (x * 256 + y)) with [x; y]; [done|]. unfold u16_bytes.
  f_equal; [|f_equal]; Z.div_mod_to_equations; lia.
Qed.

Definition is_u32' (n : Z) : Prop := 0 ≤ n ≤ 4294967295.

Lemma u32_bytes_value n :
  is_u32' n → n / 16777216 mod 256 * 16777216 + n / 65536 mod 256 * 65536 + n / 256 mod 256 * 256 + n mod 256 = n.
Proof. unfold is_u32'. intros Hn. Z.div_mod_to_equations. lia. Qed.

Lemma sreads_u32 field n : is_u32' n → sreads (r_u32 field) (u32_bytes n) 0 n.
Proof.
  intros Hn. eapply sreads_eq; [eapply sreads_bind; [by apply (r_take_ok _ _ (u32_bytes n))|]| |].
  - unfold u32_bytes. rewrite <- (u32_bytes_value n Hn) at 5. apply sreads_ret.
  - apply app_nil_r.
  - done.
Qed.

Lemma wp_r_u32 field r :
  reader_ok r → wp (r_u32 field) (λ n r', is_u32' n ∧ has_read r (u32_bytes n) 0 r') (λ _ _, True) r.
Proof.
  intros Hok. unfold r_u32. apply wp_bind. eapply wp_mono; [by apply wp_r_take| |done].
  intros a r' (Hl & H8 & Hr). destruct a as [|x [|y [|z [|t [|? ?]]]]];
    [done|done|done|done| |rewrite !blen_cons in Hl; pose proof (blen_nonneg l); lia].
  rewrite !Forall_cons in H8. destruct H8 as (Hx & Hy & Hz & Ht & _). unfold is_u8 in *. apply wp_ret.
  split; [unfold is_u32'; lia|].
  replace (u32_bytes (x * 16777216 + y * 65536 + z * 256 + t)) with [x; y; z; t]; [done|].
  unfold u32_bytes. f_equal; [|f_equal; [|f_equal; [|f_equal]]]; Z.div_mod_to_equations; lia.
Qed.

(** *** Reading a value

    [decodes m ok enc mem]: [m] reads [enc a], and nothing else, as an [a] with [ok a], and accounts
    for [mem a] bytes; on any other input it returns an error. *)

Definition decodes {A} (m : M SessionReader SessionDecodeError A) (ok : A → Prop) (enc : A → Bytes)
    (mem : A → Z) : Prop :=
  (∀ a, ok a → sreads m (enc a) (mem a) a) ∧
  (∀ r, reader_ok r → wp m (λ a r', ok a ∧ has_read r (enc a) (mem a) r') (λ _ _, True) r).

Lemma sreads_decode {A C} (m : M SessionReader SessionDecodeError A) (k : A → M SessionReader SessionDecodeError C)
    ok enc mem a i2 m2 b i n :
  decodes m ok enc mem → ok a → sreads (k a) i2 m2 b → i = enc a ++ i2 → n = mem a + m2 →
  sreads (m ≫= k) i n b.
Proof. intros [Hs _] Ha Hk -> ->. eapply sreads_bind; [by apply Hs|done]. Qed.

Lemma wp_decode {A C} (m : M SessionReader SessionDecodeError A) (k : A → M SessionReader SessionDecodeError C)
    ok enc mem r0 i0 m0 r Q :
  decodes m ok enc mem → has_read r0 i0 m0 r →
  (∀ a r', ok a → has_read r0 (i0 ++ enc a) (m0 + mem a) r' → wp (k a) Q (λ _ _, True) r') →
  wp (m ≫= k) Q (λ _ _, True) r.
Proof.
  intros [_ Hw] Hr Hk. apply wp_bind. eapply wp_mono; [apply Hw; apply Hr| |done].
  intros a r' [Ha Hr']. eapply Hk; [done|]. by eapply has_read_trans.
Qed.

Lemma decodes_u8 field : decodes (r_u8 field) is_u8 (λ n, [n]) (λ _, 0).
Proof. split; [intros; apply sreads_u8|intros; by apply wp_r_u8]. Qed.
Lemma decodes_bool field : decodes (r_bool field) (λ _, True) (λ b, [Z.b2z b]) (λ _, 0).
Proof.
  split; [intros; apply sreads_bool|intros]. eapply wp_mono; [by apply wp_r_bool|done|done].
Qed.
Lemma decodes_u16 field : decodes (r_u16 field) is_u16 u16_bytes (λ _, 0).
Proof. split; [intros; by apply sreads_u16|intros; by apply wp_r_u16]. Qed.
Lemma decodes_u32 field : decodes (r_u32 field) is_u32' u32_bytes (λ _, 0).
Proof. split; [intros; by apply sreads_u32|intros; by apply wp_r_u32]. Qed.

Lemma decodes_take field n : 0 ≤ n → decodes (r_take field n) (λ a, blen a = n ∧ Forall is_u8 a) id (λ _, 0).
Proof.
  intros Hn. split; [intros a [? _]; by apply r_take_ok|]. intros r Hr.
  eapply wp_mono; [by apply wp_r_take| |done]. naive_solver.
Qed.

Lemma decodes_reserve field n : 0 ≤ n → decodes (reserve_memory field n) (λ _, True) (λ _, []) (λ _, n).
Proof.
  intros Hn. split.
  - intros [] _. split; [done|]. intros r rest Hok Hr Hm. unfold reserve_memory. rewrite bind_run. cbn [mget].
    rewrite (proj2 (Z.ltb_ge _ _)) by lia. unfold advanced. by rewrite Z.add_0_r.
  - intros r Hr. unfold reserve_memory. apply wp_bind, wp_get.
    destruct (Z.ltb_spec (r_remaining_memory r) n); [by apply wp_fail|]. unfold wp. cbn [mput]. split; [done|].
    assert (Ha : {| r_bytes := r_bytes r; r_position := r_position r;
      r_remaining_memory := r_remaining_memory r - n |} = advanced r (blen (@nil Z)) n)
      by (unfold advanced; by rewrite Z.add_0_r).
    rewrite Ha. split_and!; try done; [by apply (reader_ok_advanced r [] (rest_of r))|].
    symmetry. by apply (rest_of_advanced r [] (rest_of r)).
Qed.

Lemma decodes_field field : decodes (r_field field) field_ok enc_field blen.
Proof.
  unfold field_ok, MAX_BINARY_LEN. split.
  - intros v [H8 Hl]. pose proof (blen_nonneg v). unfold r_field.
    eapply (sreads_decode _ _ _ _ _ (blen v)); [apply decodes_u32|unfold is_u32'; lia| |done|by rewrite Z.add_0_l].
    rewrite (proj2 (Z.ltb_ge _ _)) by (unfold MAX_BINARY_LEN; lia).
    eapply (sreads_decode _ _ _ _ _ tt); [apply decodes_reserve; lia|done| |done|by rewrite Z.add_0_r].
    by apply r_take_ok.
  - intros r Hr. unfold r_field.
    eapply wp_decode; [apply decodes_u32|by apply has_read_refl|]. intros n r1 Hn H1. unfold is_u32' in Hn.
    unfold MAX_BINARY_LEN. destruct (Z.ltb_spec 268435455 n); [by apply wp_fail|].
    eapply wp_decode; [apply decodes_reserve; lia|exact H1|]. intros u r2 _ H2.
    eapply wp_mono; [apply wp_r_take; [apply H2|lia]| |done].
    intros a r3 (Hl & H8 & H3). split; [split; [done|lia]|]. unfold enc_field. rewrite Hl.
    pose proof (has_read_trans _ _ _ _ _ _ _ H2 H3) as H4. rewrite !app_nil_r, app_nil_l in H4.
    by rewrite Z.add_0_l, Z.add_0_r in H4.
Qed.

Lemma from_utf8_spec v s : from_utf8 v = Ok s ↔ s = v ∧ utf8 v.
Proof. unfold from_utf8, utf8. destruct (run_utf8_validation v 0); naive_solver. Qed.

Lemma decodes_string field : decodes (r_string field) string_ok enc_field blen.
Proof.
  split.
  - intros v [Hf Hu]. eapply (sreads_decode _ _ _ _ _ v); [apply decodes_field|done| | |].
    + rewrite (proj2 (from_utf8_spec v v)) by done. apply sreads_ret.
    + by rewrite app_nil_r.
    + lia.
  - intros r Hr. eapply wp_decode; [apply decodes_field|by apply has_read_refl|].
    intros v r1 Hv H1. destruct (from_utf8 v) as [s| |] eqn:Hs; [|by apply wp_fail..].
    apply from_utf8_spec in Hs as [-> Hu]. by apply wp_ret.
Qed.

(** *** Vectors *)

Section Vectors.
  Context {T : Type} (read : M SessionReader SessionDecodeError T).
  Context (ok : T → Prop) (enc : T → Bytes) (mem : T → Z).
  Context (Hread : decodes read ok enc mem) (Hpos : ∀ v, 1 ≤ blen (enc v)).

Lemma decodes_elements n :
  decodes (r_elements n read) (λ vs, length vs = n ∧ Forall ok vs) (λ vs, concat (map enc vs)) (sum_of mem).
Proof.
  split.
  - revert n. intros n vs [<- Hvs]. induction Hvs as [|v vs Hv _ IH]; [apply sreads_ret|]. cbn [length r_elements].
    eapply (sreads_decode _ _ _ _ _ v (concat (map enc vs)) (sum_of mem vs)); [exact Hread|done| |done|done].
    eapply sreads_eq; [eapply sreads_bind; [exact IH|apply sreads_ret]|by rewrite app_nil_r|lia].
  - induction n as [|n IH]; intros r Hr; cbn [r_elements].
    { apply wp_ret. split; [by split|]. by apply has_read_refl. }
    eapply wp_decode; [exact Hread|by apply has_read_refl|]. intros v r1 Hv H1. apply wp_bind.
    eapply wp_mono; [apply IH, H1| |done]. intros vs r2 [[Hl Hvs] H2]. apply wp_ret.
    split; [split; [by rewrite <- Hl|by constructor]|]. by eapply (has_read_trans _ _ _ _ _ _ _ H1 H2).
Qed.

Lemma enc_elements_len vs : blen vs ≤ blen (concat (map enc vs)).
Proof.
  induction vs as [|v vs IH]; [done|]. cbn [map concat]. rewrite blen_cons, blen_app. specialize (Hpos v). lia.
Qed.

Lemma sum_of_nonneg vs : Forall ok vs → 0 ≤ sum_of mem vs.
Proof.
  destruct Hread as [Hs _]. induction 1 as [|v vs Hv _ IH]; [done|]. cbn. destruct (Hs v Hv) as [? _].
  unfold sum_of in IH. lia.
Qed.

(** The length prefix never exceeds the bytes left, because an element takes at least one. *)
Lemma sreads_vec size_of field vs :
  0 ≤ size_of → vec_ok ok vs → sreads (r_vec size_of field read) (enc_vec enc vs) (mem_vec size_of mem vs) vs.
Proof.
  intros Hsz [Hl Hok]. pose proof (blen_nonneg vs) as Hn. pose proof (sum_of_nonneg vs Hok) as Hsum.
  unfold r_vec, MAX_COLLECTION_LEN in *. unfold mem_vec.
  eapply (sreads_decode _ _ _ _ _ (blen vs)); [apply decodes_u32|unfold is_u32'; lia| |done|by rewrite Z.add_0_l].
  rewrite (proj2 (Z.ltb_ge _ _)) by lia. split; [nia|]. intros r rest Hr Hrest Hm. rewrite bind_run. cbn [mget].
  pose proof (blen_rest r Hr) as Hb. rewrite Hrest, blen_app in Hb. pose proof (blen_nonneg rest).
  pose proof (enc_elements_len vs). destruct Hr as (Hp & Hbytes & H8 & Hmem) eqn:E. clear E.
  rewrite (proj2 (Z.ltb_ge _ _)) by lia. rewrite (proj2 (Z.ltb_ge _ _)) by nia.
  assert (Hk : sreads (reserve_memory field (blen vs * size_of);; r_elements (Z.to_nat (blen vs)) read)
    (concat (map enc vs)) (blen vs * size_of + sum_of mem vs) vs); [|by apply (proj2 Hk r rest)].
  eapply (sreads_decode _ _ _ _ _ tt); [apply decodes_reserve; nia|done| |done|done].
  rewrite blen_to_nat. by apply decodes_elements.
Qed.

Lemma decodes_vec size_of field :
  0 ≤ size_of → decodes (r_vec size_of field read) (vec_ok ok) (enc_vec enc) (mem_vec size_of mem).
Proof.
  intros Hsz. split; [intros vs Hvs; by apply sreads_vec|]. intros r Hr. unfold r_vec.
  eapply wp_decode; [apply decodes_u32|by apply has_read_refl|]. intros n r1 Hn H1. unfold is_u32' in Hn.
  destruct (Z.ltb_spec MAX_COLLECTION_LEN n) as [|Hle]; [by apply wp_fail|]. apply wp_bind, wp_get.
  destruct (_ <? n); [by apply wp_fail|]. destruct (_ <? n * _); [by apply wp_fail|].
  eapply wp_decode; [apply decodes_reserve; nia|exact H1|]. intros u r2 _ H2.
  eapply wp_mono; [apply decodes_elements, H2| |done]. intros vs r3 [[Hlen Hvs] H3].
  assert (Hb : blen vs = n) by (unfold blen; rewrite Hlen; lia).
  split; [split; [lia|done]|]. unfold enc_vec, mem_vec. rewrite Hb.
  pose proof (has_read_trans _ _ _ _ _ _ _ H2 H3) as H4. rewrite app_nil_r, app_nil_l in H4. exact H4.
Qed.
End Vectors.

(** *** Tags *)

Lemma decode_encode_qos q : decode_qos (encode_qos q) = Ok q.
Proof. by destruct q. Qed.
Lemma decode_encode_ack_mode a : decode_ack_mode (encode_ack_mode a) = Ok a.
Proof. by destruct a. Qed.
Lemma encode_qos_u8 q : is_u8 (encode_qos q).
Proof. by destruct q. Qed.
Lemma encode_ack_mode_u8 a : is_u8 (encode_ack_mode a).
Proof. by destruct a. Qed.

(** A tag byte that its decoder accepts is the one the encoder writes. *)
Lemma decode_qos_spec tag :
  match decode_qos tag with Ok q => tag = encode_qos q | Err _ => True | Panic => False end.
Proof. unfold decode_qos. repeat case_match; simplify_eq; try done; cbn; lia. Qed.
Lemma decode_ack_mode_spec tag :
  match decode_ack_mode tag with Ok q => tag = encode_ack_mode q | Err _ => True | Panic => False end.
Proof. unfold decode_ack_mode. repeat case_match; simplify_eq; try done; cbn; lia. Qed.

Lemma decodes_tag {A} field (dec : u8 → outcome SessionDecodeError A) (enc : A → u8) :
  (∀ a, dec (enc a) = Ok a) → (∀ a, is_u8 (enc a)) →
  (∀ t, match dec t with Ok a => t = enc a | Err _ => True | Panic => False end) →
  decodes (r_tag field dec) (λ _, True) (λ a, [enc a]) (λ _, 0).
Proof.
  intros Hde H8 Hspec. split.
  - intros a _. apply (sreads_bind _ _ [enc a] 0 [] 0 (enc a)); [apply sreads_u8|].
    rewrite Hde. apply sreads_ret.
  - intros r Hr. eapply wp_decode; [apply decodes_u8|by apply has_read_refl|]. intros t r' _ H1.
    apply wp_lift. specialize (Hspec t). destruct (dec t); [|done..]. by subst t.
Qed.


Lemma decodes_qos field : decodes (r_tag field decode_qos) (λ _, True) (λ q, [encode_qos q]) (λ _, 0).
Proof. apply decodes_tag; [apply decode_encode_qos|apply encode_qos_u8|apply decode_qos_spec]. Qed.
Lemma decodes_ack_mode field :
  decodes (r_tag field decode_ack_mode) (λ _, True) (λ q, [encode_ack_mode q]) (λ _, 0).
Proof. apply decodes_tag; [apply decode_encode_ack_mode|apply encode_ack_mode_u8|apply decode_ack_mode_spec]. Qed.

Lemma has_read_eq r r' i i' n n' : has_read r i n r' → i = i' → n = n' → has_read r i' n' r'.
Proof. by intros ? <- <-. Qed.

(** One step of a reader: [a] is read by the operation that [L] specifies. *)
Ltac sread a L := eapply (sreads_bind _ _ _ _ _ _ a); [apply (proj1 L); try done|].
(** The same for an unknown input: what was read is appended to the equation [H]. *)
Ltac wread L H a Ha :=
  eapply wp_decode; [apply L|exact H|]; clear H; intros a ? Ha H.
Ltac wread_end H := apply wp_ret; split; [|eapply has_read_eq; [exact H|cbn; by rewrite ?app_nil_r|cbn; lia]].

Lemma enc_field_pos v : 1 ≤ blen (enc_field v).
Proof. unfold enc_field. rewrite blen_app. pose proof (blen_nonneg v). by cbn -[blen]; change (blen (u32_bytes (blen v))) with 4; lia. Qed.

Lemma decodes_magic : decodes r_magic (λ _, True) (λ _, SESSION_MAGIC) (λ _, 0).
Proof.
  split.
  - intros [] _. eapply sreads_eq; [|apply app_nil_r|done]. unfold r_magic.
    apply (sreads_bind _ _ SESSION_MAGIC 0 [] 0 SESSION_MAGIC); [by apply r_take_ok|]. apply sreads_ret.
  - intros r Hr. eapply wp_decode; [by apply decodes_take|by apply has_read_refl|]. intros a r' [Hl _] H1.
    case_bool_decide as Ha; [|by apply wp_fail]. rewrite Ha in H1. by apply wp_ret.
Qed.

(** [m] reads exactly the rest of the input. *)
Definition sreads_all {A} (m : M SessionReader SessionDecodeError A) (inp : Bytes) (mem : Z) (a : A) : Prop :=
  0 ≤ mem ∧
  ∀ r, reader_ok r → rest_of r = inp → mem ≤ r_remaining_memory r →
  m r = (Ok a, advanced r (blen inp) mem).

Lemma sreads_all_bind {A C} (m : M SessionReader SessionDecodeError A)
    (k : A → M SessionReader SessionDecodeError C) i1 m1 i2 m2 a b :
  sreads m i1 m1 a → sreads_all (k a) i2 m2 b → sreads_all (m ≫= k) (i1 ++ i2) (m1 + m2) b.
Proof.
  intros [Hp1 H1] [Hp2 H2]. split; [lia|]. intros r Hok Hr Hm.
  rewrite bind_run, (H1 r i2) by (done || lia).
  rewrite H2; [|by eapply (reader_ok_advanced r i1 i2); [done|done|lia]|by eapply rest_of_advanced|cbn; lia].
  by rewrite advanced_advanced, blen_app.
Qed.

Lemma sreads_all_eq {A} (m : M SessionReader SessionDecodeError A) i i' n n' a :
  sreads_all m i n a → i = i' → n = n' → sreads_all m i' n' a.
Proof. by intros ? <- <-. Qed.

Lemma rest_nil r : reader_ok r → (r_position r =? blen (r_bytes r)) = true ↔ rest_of r = [].
Proof.
  intros Hr. pose proof (blen_rest r Hr) as Hl. rewrite Z.eqb_eq. split.
  - intros He. apply blen_zero. lia.
  - intros He. rewrite He, blen_nil in Hl. lia.
Qed.

Lemma sreads_finish : sreads_all r_finish [] 0 tt.
Proof.
  split; [done|]. intros r Hok Hr _. unfold r_finish. rewrite bind_run. cbn [mget].
  rewrite (proj2 (rest_nil r Hok) Hr). by rewrite blen_nil, advanced_0.
Qed.

Lemma sreads_finish_ret {A} (a : A) : sreads_all (r_finish;; mret a) [] 0 a.
Proof.
  destruct sreads_finish as [_ Hf]. split; [done|]. intros r Hok Hr Hm. by rewrite bind_run, (Hf r Hok Hr Hm).
Qed.

Ltac sread_all a L := eapply (sreads_all_bind _ _ _ _ _ _ a); [apply (proj1 L); try done|].

(** ** The end of the encoder *)

(** The encoder ends with the overflow check. *)
Definition checked (m : M SessionWriter SessionEncodeError unit) : Prop :=
  ∀ w u w', m w = (Ok u, w') → w_excess w' = None.

Lemma checked_bind (m1 m2 : M SessionWriter SessionEncodeError unit) : checked m2 → checked (m1;; m2).
Proof. intros H2 w u w'. rewrite bind_run. destruct (m1 w) as [[] w1]; [by apply H2|done..]. Qed.
Lemma checked_check : checked w_check.
Proof.
  intros w u w'. unfold w_check. rewrite bind_run. cbn [mget]. destruct (w_excess w) eqn:He; [done|].
  intros [= _ <-]. done.
Qed.

(** What the encoder writes are bytes. *)
Lemma u32_bytes_u8 n : Forall is_u8 (u32_bytes n).
Proof. unfold u32_bytes, is_u8. repeat constructor; Z.div_mod_to_equations; lia. Qed.

Lemma enc_field_u8 v : field_ok v → Forall is_u8 (enc_field v).
Proof. intros [Hv _]. apply Forall_app. split; [apply u32_bytes_u8|done]. Qed.

Lemma enc_vec_u8 {T} (enc : T → Bytes) (ok : T → Prop) vs :
  (∀ v, ok v → Forall is_u8 (enc v)) → vec_ok ok vs → Forall is_u8 (enc_vec enc vs).
Proof.
  intros He [_ Hvs]. apply Forall_app. split; [apply u32_bytes_u8|].
  induction Hvs as [|v vs Hv _ IH]; [constructor|]. cbn. apply Forall_app. eauto.
Qed.
