(* ===== verification/V4SessionFormat.v ===== *)
(** [rumqttc-v4/src/session.rs]: persisted sessions and their canonical binary format, over the
    writer and reader of [SessionIO].  The in-memory sizes of the element types,
    [std::mem::size_of], are a parameter.

    The canonical format of persisted sessions: what the encoder writes, and that the decoder
    accepts exactly that. *)

From stdpp Require Import strings.
From S2P Require Import Prelude.
From S2P Require Import Utf8.
From S2P Require Import Primitives.
From S2P Require Import FixedBitSet.
From S2P Require Import SessionIO.
#[local] Open Scope Z_scope.

(** ** The persisted session *)

Record PersistedPublish := mkPersistedPublish {
  pp_dup : bool; pp_qos : PersistedQoS; pp_retain : bool; pp_topic : Bytes; pp_pkid : u16;
  pp_payload : Bytes;
}.
Record PersistedPubRel := mkPersistedPubRel { prel_pkid : u16 }.
Record PersistedFilter := mkPersistedFilter { pf_path : Bytes; pf_qos : PersistedQoS }.
Record PersistedSubscribe := mkPersistedSubscribe {
  psub_pkid : u16; psub_filters : list PersistedFilter }.
Record PersistedUnsubscribe := mkPersistedUnsubscribe {
  punsub_pkid : u16; punsub_topics : list Bytes }.
Record PersistedIncomingQos2 := mkPersistedIncomingQos2 { pi_pkid : u16 }.

Inductive PersistedRequest :=
| PR_Publish (publish : PersistedPublish)
| PR_PubRel (pubrel : PersistedPubRel)
| PR_Subscribe (subscribe : PersistedSubscribe)
| PR_Unsubscribe (unsubscribe : PersistedUnsubscribe).

Record PersistedSession := mkPersistedSession {
  session_format_version : u16;
  session_client_id : Bytes;
  session_clean_session : bool;
  session_max_inflight : u16;
  session_ack_mode : PersistedAckMode;
  session_replay : list PersistedRequest;
  session_incoming_qos2 : list PersistedIncomingQos2;
}.

Definition SESSION_PROTOCOL : u8 := 4.
(** ** Encoding *)

Definition write_filter (filter : PersistedFilter) : SW unit :=
  w_string "subscribe.filter.path" (pf_path filter);;
  w_u8 (encode_qos (pf_qos filter)).

Definition write_request (request : PersistedRequest) : SW unit :=
  match request with
  | PR_Publish publish =>
      w_u8 1;;
      w_bool (pp_dup publish);;
      w_u8 (encode_qos (pp_qos publish));;
      w_bool (pp_retain publish);;
      w_field "publish.topic" (pp_topic publish);;
      w_u16 (pp_pkid publish);;
      w_field "publish.payload" (pp_payload publish)
  | PR_PubRel pubrel =>
      w_u8 2;;
      w_u16 (prel_pkid pubrel)
  | PR_Subscribe subscribe =>
      w_u8 3;;
      w_u16 (psub_pkid subscribe);;
      w_vec "subscribe.filters" (psub_filters subscribe) write_filter
  | PR_Unsubscribe unsubscribe =>
      w_u8 4;;
      w_u16 (punsub_pkid unsubscribe);;
      w_vec "unsubscribe.topics" (punsub_topics unsubscribe) (w_string "unsubscribe.topic")
  end.

Definition write_session (self : PersistedSession) : SW unit :=
  w_append SESSION_MAGIC;;
  w_u8 SESSION_PROTOCOL;;
  w_u16 SESSION_CODEC_VERSION;;
  w_u16 (session_format_version self);;
  w_string "client_id" (session_client_id self);;
  w_bool (session_clean_session self);;
  w_u16 (session_max_inflight self);;
  w_u8 (encode_ack_mode (session_ack_mode self));;
  w_vec "replay" (session_replay self) write_request;;
  w_vec "incoming_qos2" (session_incoming_qos2 self) (λ incoming, w_u16 (pi_pkid incoming));;
  w_check.

Definition encode_with_limit (self : PersistedSession) (limit : usize)
  : outcome SessionEncodeError Bytes :=
  let '(r, w) := write_session self {| w_bytes := []; w_limit := limit; w_excess := None |} in
  match r with Ok _ => Ok (w_bytes w) | Err e => Err e | Panic => Panic end.

Definition encode (self : PersistedSession) : outcome SessionEncodeError Bytes :=
  encode_with_limit self usize_MAX.

(** ** Decoding *)

(** [std::mem::size_of] of the element types of the vectors. *)
Record Layout := mkLayout {
  size_of_request : usize; size_of_incoming : usize; size_of_filter : usize; size_of_string : usize }.

Section Decoding.
  Context (layout : Layout).

Definition read_filter : SR PersistedFilter :=
  path ← r_string "subscribe.filter.path";
  qos ← r_tag "subscribe.filter.qos" decode_qos;
  mret {| pf_path := path; pf_qos := qos |}.

Definition read_publish : SR PersistedPublish :=
  dup ← r_bool "publish.dup";
  qos ← r_tag "publish.qos" decode_qos;
  retain ← r_bool "publish.retain";
  topic ← r_field "publish.topic";
  pkid ← r_u16 "publish.pkid";
  payload ← r_field "publish.payload";
  mret {| pp_dup := dup; pp_qos := qos; pp_retain := retain; pp_topic := topic; pp_pkid := pkid;
          pp_payload := payload |}.

Definition read_request : SR PersistedRequest :=
  tag ← r_u8 "request.type";
  if tag =? 1 then publish ← read_publish; mret (PR_Publish publish)
  else if tag =? 2 then
    pkid ← r_u16 "pubrel.pkid"; mret (PR_PubRel {| prel_pkid := pkid |})
  else if tag =? 3 then
    pkid ← r_u16 "subscribe.pkid";
    filters ← r_vec (size_of_filter layout) "subscribe.filters" read_filter;
    mret (PR_Subscribe {| psub_pkid := pkid; psub_filters := filters |})
  else if tag =? 4 then
    pkid ← r_u16 "unsubscribe.pkid";
    topics ← r_vec (size_of_string layout) "unsubscribe.topics" (r_string "unsubscribe.topic");
    mret (PR_Unsubscribe {| punsub_pkid := pkid; punsub_topics := topics |})
  else mfail (InvalidEnumTag "request.type" tag).

Definition read_incoming : SR PersistedIncomingQos2 :=
  pkid ← r_u16 "incoming_qos2.pkid"; mret {| pi_pkid := pkid |}.

Definition read_session : SR PersistedSession :=
  r_magic;;
  protocol ← r_u8 "protocol";
  if negb (protocol =? SESSION_PROTOCOL) then mfail (WrongProtocol protocol)
  else
    codec_version ← r_u16 "codec_version";
    if negb (codec_version =? SESSION_CODEC_VERSION)
    then mfail (UnsupportedCodecVersion codec_version)
    else
      format_version ← r_u16 "format_version";
      client_id ← r_string "client_id";
      clean_session ← r_bool "clean_session";
      max_inflight ← r_u16 "max_inflight";
      ack_mode ← r_tag "ack_mode" decode_ack_mode;
      replay ← r_vec (size_of_request layout) "replay" read_request;
      incoming_qos2 ← r_vec (size_of_incoming layout) "incoming_qos2" read_incoming;
      r_finish;;
      mret {| session_format_version := format_version; session_client_id := client_id;
              session_clean_session := clean_session; session_max_inflight := max_inflight;
              session_ack_mode := ack_mode; session_replay := replay;
              session_incoming_qos2 := incoming_qos2 |}.

Definition decode_with_memory_limit (bytes : Bytes) (memory_limit : usize)
  : outcome SessionDecodeError PersistedSession :=
  (read_session {| r_bytes := bytes; r_position := 0; r_remaining_memory := memory_limit |}).1.

Definition decode (bytes : Bytes) : outcome SessionDecodeError PersistedSession :=
  decode_with_memory_limit bytes usize_MAX.
End Decoding.

(** ** The format *)

Definition enc_filter (f : PersistedFilter) : Bytes := enc_field (pf_path f) ++ [encode_qos (pf_qos f)].
Definition enc_publish (p : PersistedPublish) : Bytes :=
  [Z.b2z (pp_dup p); encode_qos (pp_qos p); Z.b2z (pp_retain p)] ++ enc_field (pp_topic p) ++
  u16_bytes (pp_pkid p) ++ enc_field (pp_payload p).
Definition enc_request (r : PersistedRequest) : Bytes :=
  match r with
  | PR_Publish p => [1] ++ enc_publish p
  | PR_PubRel p => [2] ++ u16_bytes (prel_pkid p)
  | PR_Subscribe u => [3] ++ u16_bytes (psub_pkid u) ++ enc_vec enc_filter (psub_filters u)
  | PR_Unsubscribe u => [4] ++ u16_bytes (punsub_pkid u) ++ enc_vec enc_field (punsub_topics u)
  end.
Definition enc_incoming (i : PersistedIncomingQos2) : Bytes := u16_bytes (pi_pkid i).
Definition enc_session (s : PersistedSession) : Bytes :=
  SESSION_MAGIC ++ [SESSION_PROTOCOL] ++ u16_bytes SESSION_CODEC_VERSION ++
  u16_bytes (session_format_version s) ++ enc_field (session_client_id s) ++
  [Z.b2z (session_clean_session s)] ++ u16_bytes (session_max_inflight s) ++
  [encode_ack_mode (session_ack_mode s)] ++ enc_vec enc_request (session_replay s) ++
  enc_vec enc_incoming (session_incoming_qos2 s).

(** Sessions within the limits of the format. *)
Definition request_ok (r : PersistedRequest) : Prop :=
  match r with
  | PR_Publish p => field_ok (pp_topic p) ∧ is_u16 (pp_pkid p) ∧ field_ok (pp_payload p)
  | PR_PubRel p => is_u16 (prel_pkid p)
  | PR_Subscribe u => is_u16 (psub_pkid u) ∧ vec_ok (λ f, string_ok (pf_path f)) (psub_filters u)
  | PR_Unsubscribe u => is_u16 (punsub_pkid u) ∧ vec_ok string_ok (punsub_topics u)
  end.
Definition session_ok (s : PersistedSession) : Prop :=
  is_u16 (session_format_version s) ∧ string_ok (session_client_id s) ∧
  is_u16 (session_max_inflight s) ∧ vec_ok request_ok (session_replay s) ∧
  vec_ok (λ i, is_u16 (pi_pkid i)) (session_incoming_qos2 s).

(** The memory the decoder accounts for. *)
Definition mem_request (layout : Layout) (r : PersistedRequest) : Z :=
  match r with
  | PR_Publish p => blen (pp_topic p) + blen (pp_payload p)
  | PR_PubRel _ => 0
  | PR_Subscribe u => mem_vec (size_of_filter layout) (λ f, blen (pf_path f)) (psub_filters u)
  | PR_Unsubscribe u => mem_vec (size_of_string layout) blen (punsub_topics u)
  end.
Definition mem_session (layout : Layout) (s : PersistedSession) : Z :=
  blen (session_client_id s) +
  mem_vec (size_of_request layout) (mem_request layout) (session_replay s) +
  mem_vec (size_of_incoming layout) (λ _, 0) (session_incoming_qos2 s).

Definition layout_ok (layout : Layout) : Prop :=
  0 ≤ size_of_request layout ∧ 0 ≤ size_of_incoming layout ∧ 0 ≤ size_of_filter layout ∧
  0 ≤ size_of_string layout.

(** ** Encoding *)

Lemma swrites_request r : request_ok r → swrites (write_request r) (enc_request r).
Proof.
  destruct r as [p|p|u|u]; cbn [request_ok write_request enc_request].
  - intros ((_ & Ht) & _ & (_ & Hp)). unfold enc_publish.
    eapply swrites_eq; [repeat apply swrites_bind; (by apply swrites_field) || apply swrites_append|done].
  - intros _. apply swrites_bind; apply swrites_append.
  - intros [_ Hf]. repeat apply swrites_bind; [apply swrites_append..|].
    eapply (swrites_vec _ _ _ _ _); [|exact Hf]. intros f [[_ Hl] _]. unfold write_filter, enc_filter.
    apply swrites_bind; [by apply swrites_field|apply swrites_append].
  - intros [_ Hf]. repeat apply swrites_bind; [apply swrites_append..|].
    eapply (swrites_vec _ _ _ _ _); [|exact Hf]. intros f [[_ Hl] _]. by apply swrites_field.
Qed.

Lemma swrites_session s : session_ok s → swrites (write_session s) (enc_session s).
Proof.
  intros (_ & ((_ & Hc) & _) & _ & Hr & Hi). unfold write_session, enc_session.
  eapply swrites_eq.
  - repeat apply swrites_bind; first [by apply swrites_field|apply swrites_check
      |by apply (swrites_vec _ _ _ _ _ swrites_request)|apply swrites_append|idtac].
    apply (swrites_vec _ _ enc_incoming _ (λ i, is_u16 (pi_pkid i))); [|exact Hi].
    intros i _. apply swrites_append.
  - by rewrite app_nil_r.
Qed.

(** ** Decoding *)

Lemma decodes_filter :
  decodes read_filter (λ f, string_ok (pf_path f)) enc_filter (λ f, blen (pf_path f)).
Proof.
  split.
  - intros [path qos] Hp. cbn in Hp. eapply sreads_eq.
    + sread path (decodes_string "subscribe.filter.path"). sread qos (decodes_qos "subscribe.filter.qos").
      apply sreads_ret.
    + by rewrite app_nil_r.
    + cbn. lia.
  - intros r Hr. apply has_read_refl in Hr. unfold read_filter.
    wread decodes_string Hr path Hp. wread decodes_qos Hr qos Hq. by wread_end Hr.
Qed.

Definition mem_publish (p : PersistedPublish) : Z := blen (pp_topic p) + blen (pp_payload p).
Definition persisted_publish_ok (p : PersistedPublish) : Prop :=
  field_ok (pp_topic p) ∧ is_u16 (pp_pkid p) ∧ field_ok (pp_payload p).

Lemma decodes_publish : decodes read_publish persisted_publish_ok enc_publish mem_publish.
Proof.
  split.
  - intros [dup qos retain topic pkid payload] (Ht & Hk & Hp). cbn in Ht, Hk, Hp. eapply sreads_eq.
    + sread dup (decodes_bool "publish.dup"). sread qos (decodes_qos "publish.qos").
      sread retain (decodes_bool "publish.retain"). sread topic (decodes_field "publish.topic").
      sread pkid (decodes_u16 "publish.pkid"). sread payload (decodes_field "publish.payload").
      apply sreads_ret.
    + by rewrite app_nil_r.
    + unfold mem_publish. cbn [pp_topic pp_payload]. lia.
  - intros r Hr. apply has_read_refl in Hr. unfold read_publish.
    wread decodes_bool Hr dup Hd. wread decodes_qos Hr qos Hq. wread decodes_bool Hr retain Hrt.
    wread decodes_field Hr topic Ht. wread decodes_u16 Hr pkid Hk. wread decodes_field Hr payload Hp.
    apply wp_ret. split; [by split_and!|]. eapply has_read_eq; [exact Hr| |unfold mem_publish; cbn [pp_topic pp_payload]; lia].
    unfold enc_publish. cbn [pp_dup pp_qos pp_retain pp_topic pp_pkid pp_payload app]. by rewrite <- !(assoc_L (++)).
Qed.

Lemma decodes_incoming : decodes read_incoming (λ i, is_u16 (pi_pkid i)) enc_incoming (λ _, 0).
Proof.
  split.
  - intros [pkid] Hk. eapply sreads_eq; [sread pkid (decodes_u16 "incoming_qos2.pkid"); apply sreads_ret|apply app_nil_r|done].
  - intros r Hr. apply has_read_refl in Hr. unfold read_incoming. wread decodes_u16 Hr pkid Hk.
    apply wp_ret. by split.
Qed.

Lemma enc_filter_pos f : 1 ≤ blen (enc_filter f).
Proof. unfold enc_filter. rewrite blen_app. pose proof (enc_field_pos (pf_path f)). pose proof (blen_nonneg [encode_qos (pf_qos f)]). lia. Qed.
Lemma enc_request_pos r : 1 ≤ blen (enc_request r).
Proof. destruct r; cbn [enc_request]; rewrite blen_app; match goal with |- _ ≤ _ + blen ?x => pose proof (blen_nonneg x) end; rewrite blen_cons, blen_nil; lia. Qed.
Lemma enc_incoming_pos i : 1 ≤ blen (enc_incoming i).
Proof. done. Qed.

Section Session.
  Context (layout : Layout) (Hlayout : layout_ok layout).

Lemma decodes_filters field :
  decodes (r_vec (size_of_filter layout) field read_filter) (vec_ok (λ f, string_ok (pf_path f)))
    (enc_vec enc_filter) (mem_vec (size_of_filter layout) (λ f, blen (pf_path f))).
Proof. apply decodes_vec; [apply decodes_filter|apply enc_filter_pos|apply Hlayout]. Qed.

Lemma decodes_topics field element :
  decodes (r_vec (size_of_string layout) field (r_string element)) (vec_ok string_ok)
    (enc_vec enc_field) (mem_vec (size_of_string layout) blen).
Proof. apply decodes_vec; [apply decodes_string|apply enc_field_pos|apply Hlayout]. Qed.

Lemma sreads_request r :
  request_ok r → sreads (read_request layout) (enc_request r) (mem_request layout r) r.
Proof.
  unfold read_request. destruct r as [p|[pkid]|[pkid filters]|[pkid topics]]; cbn [request_ok]; intros Hr.
  - eapply sreads_eq; [sread 1 (decodes_u8 "request.type"); cbn [Z.eqb Pos.eqb];
      sread p decodes_publish; apply sreads_ret|by rewrite app_nil_r|cbn; unfold mem_publish; lia].
  - eapply sreads_eq; [sread 2 (decodes_u8 "request.type"); cbn [Z.eqb Pos.eqb];
      sread pkid (decodes_u16 "pubrel.pkid"); apply sreads_ret|by rewrite app_nil_r|done].
  - destruct Hr as [Hk Hf]. eapply sreads_eq; [sread 3 (decodes_u8 "request.type"); cbn [Z.eqb Pos.eqb];
      sread pkid (decodes_u16 "subscribe.pkid"); sread filters (decodes_filters "subscribe.filters");
      apply sreads_ret|by rewrite app_nil_r|unfold mem_request; cbn [psub_filters]; lia].
  - destruct Hr as [Hk Hf]. eapply sreads_eq; [sread 4 (decodes_u8 "request.type"); cbn [Z.eqb Pos.eqb];
      sread pkid (decodes_u16 "unsubscribe.pkid");
      sread topics (decodes_topics "unsubscribe.topics" "unsubscribe.topic");
      apply sreads_ret|by rewrite app_nil_r|unfold mem_request; cbn [punsub_topics]; lia].
Qed.

Lemma decodes_request : decodes (read_request layout) request_ok enc_request (mem_request layout).
Proof.
  split; [apply sreads_request|]. intros r Hr. apply has_read_refl in Hr. unfold read_request.
  wread decodes_u8 Hr tag Ht.
  destruct (Z.eqb_spec tag 1) as [->|]; [|destruct (Z.eqb_spec tag 2) as [->|];
    [|destruct (Z.eqb_spec tag 3) as [->|]; [|destruct (Z.eqb_spec tag 4) as [->|]; [|by apply wp_fail]]]].
  - wread decodes_publish Hr p Hp. apply wp_ret. by split.
  - wread decodes_u16 Hr pkid Hk. apply wp_ret. by split.
  - wread decodes_u16 Hr pkid Hk. wread decodes_filters Hr filters Hf. apply wp_ret. split; [by split|].
    eapply has_read_eq; [exact Hr|by rewrite <- (assoc_L (++))|unfold mem_request; cbn [psub_filters]; lia].
  - wread decodes_u16 Hr pkid Hk. wread decodes_topics Hr topics Hf. apply wp_ret. split; [by split|].
    eapply has_read_eq; [exact Hr|by rewrite <- (assoc_L (++))|unfold mem_request; cbn [punsub_topics]; lia].
Qed.

Lemma decodes_replay field :
  decodes (r_vec (size_of_request layout) field (read_request layout)) (vec_ok request_ok)
    (enc_vec enc_request) (mem_vec (size_of_request layout) (mem_request layout)).
Proof. apply decodes_vec; [apply decodes_request|apply enc_request_pos|apply Hlayout]. Qed.

Lemma decodes_incomings field :
  decodes (r_vec (size_of_incoming layout) field read_incoming) (vec_ok (λ i, is_u16 (pi_pkid i)))
    (enc_vec enc_incoming) (mem_vec (size_of_incoming layout) (λ _, 0)).
Proof. apply decodes_vec; [apply decodes_incoming|apply enc_incoming_pos|apply Hlayout]. Qed.

Lemma sreads_session s :
  session_ok s → sreads_all (read_session layout) (enc_session s) (mem_session layout s) s.
Proof.
  destruct s as [version client clean inflight ack replay incoming]. intros (Hv & Hc & Hi & Hr & Hq).
  cbn in Hv, Hc, Hi, Hr, Hq. eapply sreads_all_eq; [unfold read_session|..].
  - sread_all tt decodes_magic. sread_all SESSION_PROTOCOL (decodes_u8 "protocol").
    rewrite Z.eqb_refl. cbn [negb]. sread_all SESSION_CODEC_VERSION (decodes_u16 "codec_version").
    rewrite Z.eqb_refl. cbn [negb]. sread_all version (decodes_u16 "format_version").
    sread_all client (decodes_string "client_id"). sread_all clean (decodes_bool "clean_session").
    sread_all inflight (decodes_u16 "max_inflight"). sread_all ack (decodes_ack_mode "ack_mode").
    sread_all replay (decodes_replay "replay"). sread_all incoming (decodes_incomings "incoming_qos2").
    apply sreads_finish_ret.
  - by rewrite app_nil_r.
  - unfold mem_session. cbn [session_client_id session_replay session_incoming_qos2]. lia.
Qed.

Lemma wp_read_session r :
  reader_ok r →
  wp (read_session layout) (λ s _, session_ok s ∧ rest_of r = enc_session s ∧
    mem_session layout s ≤ r_remaining_memory r) (λ _ _, True) r.
Proof.
  intros Hr. apply has_read_refl in Hr. unfold read_session. wread decodes_magic Hr u Hu.
  wread decodes_u8 Hr protocol Hp. destruct (Z.eqb_spec protocol SESSION_PROTOCOL) as [->|]; [|by apply wp_fail].
  wread decodes_u16 Hr codec Hcv.
  destruct (Z.eqb_spec codec SESSION_CODEC_VERSION) as [->|]; [|by apply wp_fail]. cbn [negb].
  wread decodes_u16 Hr version Hv. wread decodes_string Hr client Hc. wread decodes_bool Hr clean Hcl.
  wread decodes_u16 Hr inflight Hi. wread decodes_ack_mode Hr ack Ha. wread decodes_replay Hr replay Hre.
  wread decodes_incomings Hr incoming Hq. destruct Hr as (_ & Hok & Hr & Hm).
  apply wp_bind. unfold r_finish. apply wp_bind, wp_get.
  destruct (_ =? _) eqn:He; [|by apply wp_fail]. do 2 apply wp_ret. apply rest_nil in He; [|done].
  rewrite He, app_nil_r in Hr. split; [by split_and!|]. split.
  - rewrite Hr. unfold enc_session.
    cbn [session_format_version session_client_id session_clean_session session_max_inflight session_ack_mode
      session_replay session_incoming_qos2]. by rewrite <- !(assoc_L (++)).
  - unfold mem_session. cbn [session_client_id session_replay session_incoming_qos2]. lia.
Qed.
End Session.

(** ** The codec *)

Lemma checked_session s : checked (write_session s).
Proof. unfold write_session. repeat apply checked_bind. apply checked_check. Qed.

Lemma enc_request_u8 r : request_ok r → Forall is_u8 (enc_request r).
Proof.
  destruct r as [p|p|u|u]; cbn [request_ok enc_request].
  - intros (Ht & Hk & Hp). unfold enc_publish. rewrite !Forall_app. split_and!;
      [by repeat constructor| |by apply enc_field_u8|by apply u16_bytes_u8|by apply enc_field_u8].
    rewrite !Forall_cons. split_and!; [by destruct (pp_dup p)|apply encode_qos_u8|by destruct (pp_retain p)|done].
  - intros Hk. apply Forall_app. split; [by repeat constructor|by apply u16_bytes_u8].
  - intros [Hk Hf]. rewrite !Forall_app. split_and!; [by repeat constructor|by apply u16_bytes_u8|].
    eapply enc_vec_u8; [|exact Hf]. intros f [Hp _]. apply Forall_app. split; [by apply enc_field_u8|].
    repeat constructor; apply encode_qos_u8.
  - intros [Hk Hf]. rewrite !Forall_app. split_and!; [by repeat constructor|by apply u16_bytes_u8|].
    eapply enc_vec_u8; [|exact Hf]. intros f [Hp _]. by apply enc_field_u8.
Qed.

Lemma enc_session_u8 s : session_ok s → Forall is_u8 (enc_session s).
Proof.
  intros (Hv & [Hc _] & Hi & Hr & Hq). unfold enc_session. rewrite !Forall_app. split_and!.
  - by repeat constructor.
  - by repeat constructor.
  - by apply u16_bytes_u8.
  - by apply u16_bytes_u8.
  - by apply enc_field_u8.
  - rewrite Forall_singleton. by destruct (session_clean_session s).
  - by apply u16_bytes_u8.
  - rewrite Forall_singleton. apply encode_ack_mode_u8.
  - eapply enc_vec_u8; [apply enc_request_u8|done].
  - eapply enc_vec_u8; [|done]. intros i Hk. by apply u16_bytes_u8.
Qed.

Lemma encode_with_limit_run s limit :
  session_ok s → 0 ≤ limit → blen (enc_session s) ≤ usize_MAX →
  match encode_with_limit s limit with
  | Ok b => b = enc_session s ∧ blen b ≤ limit
  | Err _ => limit < blen (enc_session s)
  | Panic => False
  end.
Proof.
  intros Hs Hl Hb. unfold encode_with_limit.
  pose proof (swrites_session s Hs {| w_bytes := []; w_limit := limit; w_excess := None |} Hl Hb) as H.
  unfold fits in H. cbn [w_bytes w_limit w_excess] in H. rewrite blen_nil, Z.add_0_l in H.
  destruct (write_session _ _) as [[u|e|] w] eqn:Hw; [|cbn in H; apply Z.nle_gt; tauto|done].
  destruct H as (_ & Hle & Hfit & Hno). destruct (decide (blen (enc_session s) ≤ limit)) as [Hd|Hd].
  - destruct Hfit as [-> _]; [done|]. done.
  - destruct Hno as [Hx _]; [by intros []|]. destruct Hx.
    by apply (checked_session s {| w_bytes := []; w_limit := limit; w_excess := None |} u).
Qed.

(** C33: the format round-trips.  A session within the limits of the format is encoded, and decoding
    the bytes under any memory limit that covers the session's memory returns the session.  With an encoding limit the same bytes are
    returned, or an error precisely when they do not fit. *)
Theorem session_codec_roundtrip layout s memory_limit :
  layout_ok layout → session_ok s → blen (enc_session s) ≤ usize_MAX →
  mem_session layout s ≤ memory_limit ≤ usize_MAX →
  ∃ bytes, encode s = Ok bytes ∧ decode_with_memory_limit layout bytes memory_limit = Ok s ∧
    ∀ limit, 0 ≤ limit →
      if limit <? blen bytes then ∃ e, encode_with_limit s limit = Err e
      else encode_with_limit s limit = Ok bytes.
Proof.
  intros Hlay Hs Hb Hm. exists (enc_session s). split_and!.
  - pose proof (encode_with_limit_run s usize_MAX Hs ltac:(done) Hb) as H. unfold encode.
    destruct (encode_with_limit s usize_MAX); [by destruct H as [-> _]|lia|done].
  - unfold decode_with_memory_limit. destruct (sreads_session layout Hlay s Hs) as [Hm0 Hread].
    rewrite Hread; [done| |done|cbn; lia].
    split_and!; cbn -[blen]; try (done || lia). by apply enc_session_u8.
  - intros limit Hl. pose proof (encode_with_limit_run s limit Hs Hl Hb) as H.
    destruct (Z.ltb_spec limit (blen (enc_session s))), (encode_with_limit s limit); naive_solver lia.
Qed.

(** The format is canonical and decoding is safe.  On any byte string the decoder returns; the
    bytes it accepts are exactly what the encoder writes for the session it returns, and the memory
    it accounted for stays within the limit. *)
Theorem session_codec_canonical layout bytes memory_limit :
  layout_ok layout → Forall is_u8 bytes → blen bytes ≤ usize_MAX → 0 ≤ memory_limit ≤ usize_MAX →
  match decode_with_memory_limit layout bytes memory_limit with
  | Ok s => session_ok s ∧ encode s = Ok bytes ∧ mem_session layout s ≤ memory_limit
  | Err _ => True
  | Panic => False
  end.
Proof.
  intros Hlay H8 Hb Hm. pose proof (wp_read_session layout Hlay
    {| r_bytes := bytes; r_position := 0; r_remaining_memory := memory_limit |}) as H.
  unfold decode_with_memory_limit. unfold wp in H. destruct (read_session _ _) as [[s|e|] r']; cbn [fst].
  - destruct H as (Hs & Hr & Hmem).
    { pose proof (blen_nonneg bytes). split_and!; cbn -[blen]; done || lia. }
    change (bytes = enc_session s) in Hr. subst bytes. split_and!; [done| |done].
    pose proof (encode_with_limit_run s usize_MAX Hs ltac:(done) Hb) as He. unfold encode.
    destruct (encode_with_limit s usize_MAX); [by destruct He as [-> _]|lia|done].
  - done.
  - pose proof (blen_nonneg bytes). apply H. split_and!; cbn -[blen]; done || lia.
Qed.

(** A session with one request of each kind, on a 64-bit target. *)
Definition demo_layout : Layout := mkLayout 80 2 32 24.
Definition demo_session : PersistedSession :=
  mkPersistedSession 1 [99; 49] false 10 PA_Manual
    [PR_Publish (mkPersistedPublish true PQ_AtLeastOnce false [97; 47; 98] 1 [1; 2; 3]);
     PR_PubRel (mkPersistedPubRel 2);
     PR_Subscribe (mkPersistedSubscribe 3 [mkPersistedFilter [97] PQ_ExactlyOnce]);
     PR_Unsubscribe (mkPersistedUnsubscribe 4 [[98]; [99]])]
    [mkPersistedIncomingQos2 7].

Lemma demo_session_ok : session_ok demo_session.
Proof.
  unfold session_ok, demo_session, vec_ok, string_ok, field_ok, is_u16, is_u8. cbn -[utf8 Z.le].
  repeat first [split|constructor]; try (vm_compute; (reflexivity || discriminate)).
Qed.

Lemma session_codec_roundtrip_witness :
  ∃ bytes, encode demo_session = Ok bytes ∧ blen bytes = 85 ∧
    decode_with_memory_limit demo_layout bytes 416 = Ok demo_session.
Proof.
  destruct (session_codec_roundtrip demo_layout demo_session 416) as (bytes & He & Hd & _);
    [vm_compute; intuition discriminate|apply demo_session_ok|vm_compute; discriminate
    |vm_compute; intuition discriminate|].
  exists bytes. split; [exact He|]. split; [|exact Hd].
  revert He. vm_compute. intros [= <-]. reflexivity.
Defined.

Lemma session_codec_canonical_witness :
  match decode_with_memory_limit demo_layout (enc_session demo_session) 416 with
  | Ok s => session_ok s ∧ encode s = Ok (enc_session demo_session) ∧ mem_session demo_layout s ≤ 416
  | Err _ => True
  | Panic => False
  end.
Proof.
  apply (session_codec_canonical demo_layout (enc_session demo_session) 416);
    [vm_compute; intuition discriminate|apply enc_session_u8, demo_session_ok|vm_compute; discriminate
    |vm_compute; intuition discriminate].
Defined.
