(* ===== verification/V4SessionTypes.v ===== *)
(** [rumqttc-v4/src/state.rs], [lib.rs], [notice.rs]: the data of the MQTT 3.1.1 client session:
    requests, events, errors and the record [MqttState].

    A notice handle ([PublishNoticeTx] and its siblings) is the sending half of a one-shot
    channel; it is identified by a number.  [Instant] is a number of nanoseconds.  A
    [BTreeMap<u16, _>] is a [gmap]. *)

From S2P Require Import Prelude.
From S2P Require Import Utf8.
From S2P Require Import Primitives.
From S2P Require Import CodecBase.
From S2P Require Import V4Base.
From S2P Require Import V4Acks.
From S2P Require Import V4Publish.
From S2P Require Import V4Subscribe.
From S2P Require Import V4Connect.
From S2P Require Import V4Packet.
#[local] Open Scope Z_scope.

Abbreviation Instant := Z (only parsing).
Abbreviation NoticeTx := nat (only parsing).

(** ** [lib.rs] *)

Inductive AckMode := Automatic | Manual.

#[global] Instance AckMode_eq_dec : EqDecision AckMode.
Proof. solve_decision. Defined.

Inductive Outgoing :=
| O_Publish (pkid : u16)
| O_Subscribe (pkid : u16)
| O_Unsubscribe (pkid : u16)
| O_PubAck (pkid : u16)
| O_PubRec (pkid : u16)
| O_PubRel (pkid : u16)
| O_PubComp (pkid : u16)
| O_PingReq
| O_PingResp
| O_Disconnect
| O_AwaitAck (pkid : u16).

Inductive Event := Ev_Incoming (packet : Packet) | Ev_Outgoing (o : Outgoing).

Inductive Request :=
| R_Publish (publish : Publish)
| R_PubAck (puback : PubAck)
| R_PubRec (pubrec : PubRec)
| R_PubComp (pubcomp : PubComp)
| R_PubRel (pubrel : PubRel)
| R_PingReq
| R_PingResp
| R_Subscribe (subscribe : Subscribe)
| R_SubAck (suback : SubAck)
| R_Unsubscribe (unsubscribe : Unsubscribe)
| R_UnsubAck (unsuback : UnsubAck)
| R_Disconnect
| R_DisconnectNow
| R_DisconnectWithTimeout (timeout : Z)
| R_DisconnectAfterQueued
| R_DisconnectAfterQueuedWithTimeout (timeout : Z).

(** ** [notice.rs] *)

Inductive PublishResult :=
| Qos0Flushed
| Qos1 (puback : PubAck)
| Qos2Completed (pubcomp : PubComp).

Inductive TrackedNoticeTx :=
| TN_Publish (tx : NoticeTx)
| TN_Subscribe (tx : NoticeTx)
| TN_Unsubscribe (tx : NoticeTx).

Inductive DeferredNotice :=
| DN_Publish (tx : NoticeTx) (result : PublishResult)
| DN_Subscribe (tx : NoticeTx) (suback : SubAck)
| DN_Unsubscribe (tx : NoticeTx) (unsuback : UnsubAck).

(** ** [state.rs] *)

Inductive ProtocolViolation :=
| DuplicateConnAck
| UnexpectedIncomingPacket (t : PacketType)
| SubAckReturnCodeCountMismatch (pkid : u16) (expected actual : usize).

Inductive StateError :=
| SE_Io
| InvalidState
| OutgoingPublishWindowFull (max_inflight : u16)
| Unsolicited (pkid : u16)
| AwaitPingResp
| CollisionTimeout
| SE_EmptySubscription
| SE_EmptyUnsubscription
| Deserialization (e : Error)
| SE_ProtocolViolation (v : ProtocolViolation)
| ConnectionAborted.

Inductive PingState := Idle (collision_count : usize) | AwaitingResp (collision_count : usize).

Definition PingState_new : PingState := Idle 0.

Definition PingState_await_pingresp (self : PingState) : bool :=
  match self with AwaitingResp _ => true | Idle _ => false end.

Definition PingState_collision_count (self : PingState) : usize :=
  match self with Idle collision_count | AwaitingResp collision_count => collision_count end.

(** The new count, and the new state. *)
Definition PingState_increment_collision_count (self : PingState) : usize * PingState :=
  let collision_count := PingState_collision_count self + 1 in
  (collision_count,
   match self with
   | Idle _ => Idle collision_count
   | AwaitingResp _ => AwaitingResp collision_count
   end).

Definition PingState_begin_waiting_for_resp (self : PingState) : PingState :=
  AwaitingResp (PingState_collision_count self).

Definition PingState_finish_waiting_for_resp (self : PingState) : PingState :=
  Idle (PingState_collision_count self).

Definition PingState_reset_collision_count (self : PingState) : PingState :=
  if PingState_await_pingresp self then AwaitingResp 0 else Idle 0.

Record PendingSubscribe := mkPendingSubscribe {
  ps_subscribe : Subscribe;
  ps_notice : option NoticeTx;
}.

Record PendingUnsubscribe := mkPendingUnsubscribe {
  pu_unsubscribe : Unsubscribe;
  pu_notice : option NoticeTx;
}.

Record CleanRequest := mkCleanRequest {
  cr_request : Request;
  cr_notice : option TrackedNoticeTx;
  cr_replay : bool;
}.

Record IncomingPacketEffects := mkEffects {
  eff_outgoing : option Packet;
  eff_notices : list DeferredNotice;
}.

Definition effects_outgoing (outgoing : option Packet) : IncomingPacketEffects :=
  {| eff_outgoing := outgoing; eff_notices := [] |}.

Definition with_notice (self : IncomingPacketEffects) (notice : DeferredNotice)
  : IncomingPacketEffects :=
  {| eff_outgoing := eff_outgoing self; eff_notices := eff_notices self ++ [notice] |}.

Record MqttState (B : Type) := mkMqttState {
  ping : PingState;
  last_incoming : Instant;
  last_outgoing : Instant;
  last_pkid : u16;
  inflight : u16;
  max_inflight : u16;
  outgoing_pub : list (option Publish);
  outgoing_pub_order : list u16;
  outgoing_pub_notice : list (option NoticeTx);
  outgoing_rel : B;
  outgoing_rel_order : list u16;
  outgoing_rel_replay : B;
  outgoing_rel_replay_order : list u16;
  outgoing_rel_notice : list (option NoticeTx);
  incoming_puback : B;
  incoming_pub : B;
  incoming_pubrec : B;
  outbound_pkid_in_use : B;
  outbound_pkid_count : u16;
  collision : option Publish;
  collision_notice : option NoticeTx;
  pending_subscribe : gmap Z PendingSubscribe;
  pending_unsubscribe : gmap Z PendingUnsubscribe;
  events : list Event;
  ack_mode : AckMode;
}.
Arguments mkMqttState {B}.
Arguments ping {B} _.
Arguments last_incoming {B} _.
Arguments last_outgoing {B} _.
Arguments last_pkid {B} _.
Arguments inflight {B} _.
Arguments max_inflight {B} _.
Arguments outgoing_pub {B} _.
Arguments outgoing_pub_order {B} _.
Arguments outgoing_pub_notice {B} _.
Arguments outgoing_rel {B} _.
Arguments outgoing_rel_order {B} _.
Arguments outgoing_rel_replay {B} _.
Arguments outgoing_rel_replay_order {B} _.
Arguments outgoing_rel_notice {B} _.
Arguments incoming_puback {B} _.
Arguments incoming_pub {B} _.
Arguments incoming_pubrec {B} _.
Arguments outbound_pkid_in_use {B} _.
Arguments outbound_pkid_count {B} _.
Arguments collision {B} _.
Arguments collision_notice {B} _.
Arguments pending_subscribe {B} _.
Arguments pending_unsubscribe {B} _.
Arguments events {B} _.
Arguments ack_mode {B} _.

(** Assignment to one field. *)
Definition set_ping {B} (v : PingState) (s : MqttState B) : MqttState B :=
  mkMqttState v (last_incoming s) (last_outgoing s) (last_pkid s) (inflight s) (max_inflight s)
    (outgoing_pub s) (outgoing_pub_order s) (outgoing_pub_notice s) (outgoing_rel s)
    (outgoing_rel_order s) (outgoing_rel_replay s) (outgoing_rel_replay_order s)
    (outgoing_rel_notice s) (incoming_puback s) (incoming_pub s) (incoming_pubrec s)
    (outbound_pkid_in_use s) (outbound_pkid_count s) (collision s) (collision_notice s)
    (pending_subscribe s) (pending_unsubscribe s) (events s) (ack_mode s).
Definition set_last_incoming {B} (v : Instant) (s : MqttState B) : MqttState B :=
  mkMqttState (ping s) v (last_outgoing s) (last_pkid s) (inflight s) (max_inflight s)
    (outgoing_pub s) (outgoing_pub_order s) (outgoing_pub_notice s) (outgoing_rel s)
    (outgoing_rel_order s) (outgoing_rel_replay s) (outgoing_rel_replay_order s)
    (outgoing_rel_notice s) (incoming_puback s) (incoming_pub s) (incoming_pubrec s)
    (outbound_pkid_in_use s) (outbound_pkid_count s) (collision s) (collision_notice s)
    (pending_subscribe s) (pending_unsubscribe s) (events s) (ack_mode s).
Definition set_last_outgoing {B} (v : Instant) (s : MqttState B) : MqttState B :=
  mkMqttState (ping s) (last_incoming s) v (last_pkid s) (inflight s) (max_inflight s)
    (outgoing_pub s) (outgoing_pub_order s) (outgoing_pub_notice s) (outgoing_rel s)
    (outgoing_rel_order s) (outgoing_rel_replay s) (outgoing_rel_replay_order s)
    (outgoing_rel_notice s) (incoming_puback s) (incoming_pub s) (incoming_pubrec s)
    (outbound_pkid_in_use s) (outbound_pkid_count s) (collision s) (collision_notice s)
    (pending_subscribe s) (pending_unsubscribe s) (events s) (ack_mode s).
Definition set_last_pkid {B} (v : u16) (s : MqttState B) : MqttState B :=
  mkMqttState (ping s) (last_incoming s) (last_outgoing s) v (inflight s) (max_inflight s)
    (outgoing_pub s) (outgoing_pub_order s) (outgoing_pub_notice s) (outgoing_rel s)
    (outgoing_rel_order s) (outgoing_rel_replay s) (outgoing_rel_replay_order s)
    (outgoing_rel_notice s) (incoming_puback s) (incoming_pub s) (incoming_pubrec s)
    (outbound_pkid_in_use s) (outbound_pkid_count s) (collision s) (collision_notice s)
    (pending_subscribe s) (pending_unsubscribe s) (events s) (ack_mode s).
Definition set_inflight {B} (v : u16) (s : MqttState B) : MqttState B :=
  mkMqttState (ping s) (last_incoming s) (last_outgoing s) (last_pkid s) v (max_inflight s)
    (outgoing_pub s) (outgoing_pub_order s) (outgoing_pub_notice s) (outgoing_rel s)
    (outgoing_rel_order s) (outgoing_rel_replay s) (outgoing_rel_replay_order s)
    (outgoing_rel_notice s) (incoming_puback s) (incoming_pub s) (incoming_pubrec s)
    (outbound_pkid_in_use s) (outbound_pkid_count s) (collision s) (collision_notice s)
    (pending_subscribe s) (pending_unsubscribe s) (events s) (ack_mode s).
Definition set_outgoing_pub {B} (v : list (option Publish)) (s : MqttState B) : MqttState B :=
  mkMqttState (ping s) (last_incoming s) (last_outgoing s) (last_pkid s) (inflight s)
    (max_inflight s) v (outgoing_pub_order s) (outgoing_pub_notice s) (outgoing_rel s)
    (outgoing_rel_order s) (outgoing_rel_replay s) (outgoing_rel_replay_order s)
    (outgoing_rel_notice s) (incoming_puback s) (incoming_pub s) (incoming_pubrec s)
    (outbound_pkid_in_use s) (outbound_pkid_count s) (collision s) (collision_notice s)
    (pending_subscribe s) (pending_unsubscribe s) (events s) (ack_mode s).
Definition set_outgoing_pub_order {B} (v : list u16) (s : MqttState B) : MqttState B :=
  mkMqttState (ping s) (last_incoming s) (last_outgoing s) (last_pkid s) (inflight s)
    (max_inflight s) (outgoing_pub s) v (outgoing_pub_notice s) (outgoing_rel s)
    (outgoing_rel_order s) (outgoing_rel_replay s) (outgoing_rel_replay_order s)
    (outgoing_rel_notice s) (incoming_puback s) (incoming_pub s) (incoming_pubrec s)
    (outbound_pkid_in_use s) (outbound_pkid_count s) (collision s) (collision_notice s)
    (pending_subscribe s) (pending_unsubscribe s) (events s) (ack_mode s).
Definition set_outgoing_pub_notice {B} (v : list (option NoticeTx)) (s : MqttState B) : MqttState B :=
  mkMqttState (ping s) (last_incoming s) (last_outgoing s) (last_pkid s) (inflight s)
    (max_inflight s) (outgoing_pub s) (outgoing_pub_order s) v (outgoing_rel s)
    (outgoing_rel_order s) (outgoing_rel_replay s) (outgoing_rel_replay_order s)
    (outgoing_rel_notice s) (incoming_puback s) (incoming_pub s) (incoming_pubrec s)
    (outbound_pkid_in_use s) (outbound_pkid_count s) (collision s) (collision_notice s)
    (pending_subscribe s) (pending_unsubscribe s) (events s) (ack_mode s).
Definition set_outgoing_rel {B} (v : B) (s : MqttState B) : MqttState B :=
  mkMqttState (ping s) (last_incoming s) (last_outgoing s) (last_pkid s) (inflight s)
    (max_inflight s) (outgoing_pub s) (outgoing_pub_order s) (outgoing_pub_notice s) v
    (outgoing_rel_order s) (outgoing_rel_replay s) (outgoing_rel_replay_order s)
    (outgoing_rel_notice s) (incoming_puback s) (incoming_pub s) (incoming_pubrec s)
    (outbound_pkid_in_use s) (outbound_pkid_count s) (collision s) (collision_notice s)
    (pending_subscribe s) (pending_unsubscribe s) (events s) (ack_mode s).
Definition set_outgoing_rel_order {B} (v : list u16) (s : MqttState B) : MqttState B :=
  mkMqttState (ping s) (last_incoming s) (last_outgoing s) (last_pkid s) (inflight s)
    (max_inflight s) (outgoing_pub s) (outgoing_pub_order s) (outgoing_pub_notice s)
    (outgoing_rel s) v (outgoing_rel_replay s) (outgoing_rel_replay_order s)
    (outgoing_rel_notice s) (incoming_puback s) (incoming_pub s) (incoming_pubrec s)
    (outbound_pkid_in_use s) (outbound_pkid_count s) (collision s) (collision_notice s)
    (pending_subscribe s) (pending_unsubscribe s) (events s) (ack_mode s).
Definition set_outgoing_rel_replay {B} (v : B) (s : MqttState B) : MqttState B :=
  mkMqttState (ping s) (last_incoming s) (last_outgoing s) (last_pkid s) (inflight s)
    (max_inflight s) (outgoing_pub s) (outgoing_pub_order s) (outgoing_pub_notice s)
    (outgoing_rel s) (outgoing_rel_order s) v (outgoing_rel_replay_order s)
    (outgoing_rel_notice s) (incoming_puback s) (incoming_pub s) (incoming_pubrec s)
    (outbound_pkid_in_use s) (outbound_pkid_count s) (collision s) (collision_notice s)
    (pending_subscribe s) (pending_unsubscribe s) (events s) (ack_mode s).
Definition set_outgoing_rel_replay_order {B} (v : list u16) (s : MqttState B) : MqttState B :=
  mkMqttState (ping s) (last_incoming s) (last_outgoing s) (last_pkid s) (inflight s)
    (max_inflight s) (outgoing_pub s) (outgoing_pub_order s) (outgoing_pub_notice s)
    (outgoing_rel s) (outgoing_rel_order s) (outgoing_rel_replay s) v (outgoing_rel_notice s)
    (incoming_puback s) (incoming_pub s) (incoming_pubrec s) (outbound_pkid_in_use s)
    (outbound_pkid_count s) (collision s) (collision_notice s) (pending_subscribe s)
    (pending_unsubscribe s) (events s) (ack_mode s).
Definition set_outgoing_rel_notice {B} (v : list (option NoticeTx)) (s : MqttState B) : MqttState B :=
  mkMqttState (ping s) (last_incoming s) (last_outgoing s) (last_pkid s) (inflight s)
    (max_inflight s) (outgoing_pub s) (outgoing_pub_order s) (outgoing_pub_notice s)
    (outgoing_rel s) (outgoing_rel_order s) (outgoing_rel_replay s) (outgoing_rel_replay_order s)
    v (incoming_puback s) (incoming_pub s) (incoming_pubrec s) (outbound_pkid_in_use s)
    (outbound_pkid_count s) (collision s) (collision_notice s) (pending_subscribe s)
    (pending_unsubscribe s) (events s) (ack_mode s).
Definition set_incoming_puback {B} (v : B) (s : MqttState B) : MqttState B :=
  mkMqttState (ping s) (last_incoming s) (last_outgoing s) (last_pkid s) (inflight s)
    (max_inflight s) (outgoing_pub s) (outgoing_pub_order s) (outgoing_pub_notice s)
    (outgoing_rel s) (outgoing_rel_order s) (outgoing_rel_replay s) (outgoing_rel_replay_order s)
    (outgoing_rel_notice s) v (incoming_pub s) (incoming_pubrec s) (outbound_pkid_in_use s)
    (outbound_pkid_count s) (collision s) (collision_notice s) (pending_subscribe s)
    (pending_unsubscribe s) (events s) (ack_mode s).
Definition set_incoming_pub {B} (v : B) (s : MqttState B) : MqttState B :=
  mkMqttState (ping s) (last_incoming s) (last_outgoing s) (last_pkid s) (inflight s)
    (max_inflight s) (outgoing_pub s) (outgoing_pub_order s) (outgoing_pub_notice s)
    (outgoing_rel s) (outgoing_rel_order s) (outgoing_rel_replay s) (outgoing_rel_replay_order s)
    (outgoing_rel_notice s) (incoming_puback s) v (incoming_pubrec s) (outbound_pkid_in_use s)
    (outbound_pkid_count s) (collision s) (collision_notice s) (pending_subscribe s)
    (pending_unsubscribe s) (events s) (ack_mode s).
Definition set_incoming_pubrec {B} (v : B) (s : MqttState B) : MqttState B :=
  mkMqttState (ping s) (last_incoming s) (last_outgoing s) (last_pkid s) (inflight s)
    (max_inflight s) (outgoing_pub s) (outgoing_pub_order s) (outgoing_pub_notice s)
    (outgoing_rel s) (outgoing_rel_order s) (outgoing_rel_replay s) (outgoing_rel_replay_order s)
    (outgoing_rel_notice s) (incoming_puback s) (incoming_pub s) v (outbound_pkid_in_use s)
    (outbound_pkid_count s) (collision s) (collision_notice s) (pending_subscribe s)
    (pending_unsubscribe s) (events s) (ack_mode s).
Definition set_outbound_pkid_in_use {B} (v : B) (s : MqttState B) : MqttState B :=
  mkMqttState (ping s) (last_incoming s) (last_outgoing s) (last_pkid s) (inflight s)
    (max_inflight s) (outgoing_pub s) (outgoing_pub_order s) (outgoing_pub_notice s)
    (outgoing_rel s) (outgoing_rel_order s) (outgoing_rel_replay s) (outgoing_rel_replay_order s)
    (outgoing_rel_notice s) (incoming_puback s) (incoming_pub s) (incoming_pubrec s) v
    (outbound_pkid_count s) (collision s) (collision_notice s) (pending_subscribe s)
    (pending_unsubscribe s) (events s) (ack_mode s).
Definition set_outbound_pkid_count {B} (v : u16) (s : MqttState B) : MqttState B :=
  mkMqttState (ping s) (last_incoming s) (last_outgoing s) (last_pkid s) (inflight s)
    (max_inflight s) (outgoing_pub s) (outgoing_pub_order s) (outgoing_pub_notice s)
    (outgoing_rel s) (outgoing_rel_order s) (outgoing_rel_replay s) (outgoing_rel_replay_order s)
    (outgoing_rel_notice s) (incoming_puback s) (incoming_pub s) (incoming_pubrec s)
    (outbound_pkid_in_use s) v (collision s) (collision_notice s) (pending_subscribe s)
    (pending_unsubscribe s) (events s) (ack_mode s).
Definition set_collision {B} (v : option Publish) (s : MqttState B) : MqttState B :=
  mkMqttState (ping s) (last_incoming s) (last_outgoing s) (last_pkid s) (inflight s)
    (max_inflight s) (outgoing_pub s) (outgoing_pub_order s) (outgoing_pub_notice s)
    (outgoing_rel s) (outgoing_rel_order s) (outgoing_rel_replay s) (outgoing_rel_replay_order s)
    (outgoing_rel_notice s) (incoming_puback s) (incoming_pub s) (incoming_pubrec s)
    (outbound_pkid_in_use s) (outbound_pkid_count s) v (collision_notice s) (pending_subscribe s)
    (pending_unsubscribe s) (events s) (ack_mode s).
Definition set_collision_notice {B} (v : option NoticeTx) (s : MqttState B) : MqttState B :=
  mkMqttState (ping s) (last_incoming s) (last_outgoing s) (last_pkid s) (inflight s)
    (max_inflight s) (outgoing_pub s) (outgoing_pub_order s) (outgoing_pub_notice s)
    (outgoing_rel s) (outgoing_rel_order s) (outgoing_rel_replay s) (outgoing_rel_replay_order s)
    (outgoing_rel_notice s) (incoming_puback s) (incoming_pub s) (incoming_pubrec s)
    (outbound_pkid_in_use s) (outbound_pkid_count s) (collision s) v (pending_subscribe s)
    (pending_unsubscribe s) (events s) (ack_mode s).
Definition set_pending_subscribe {B} (v : gmap Z PendingSubscribe) (s : MqttState B) : MqttState B :=
  mkMqttState (ping s) (last_incoming s) (last_outgoing s) (last_pkid s) (inflight s)
    (max_inflight s) (outgoing_pub s) (outgoing_pub_order s) (outgoing_pub_notice s)
    (outgoing_rel s) (outgoing_rel_order s) (outgoing_rel_replay s) (outgoing_rel_replay_order s)
    (outgoing_rel_notice s) (incoming_puback s) (incoming_pub s) (incoming_pubrec s)
    (outbound_pkid_in_use s) (outbound_pkid_count s) (collision s) (collision_notice s) v
    (pending_unsubscribe s) (events s) (ack_mode s).
Definition set_pending_unsubscribe {B} (v : gmap Z PendingUnsubscribe) (s : MqttState B) : MqttState B :=
  mkMqttState (ping s) (last_incoming s) (last_outgoing s) (last_pkid s) (inflight s)
    (max_inflight s) (outgoing_pub s) (outgoing_pub_order s) (outgoing_pub_notice s)
    (outgoing_rel s) (outgoing_rel_order s) (outgoing_rel_replay s) (outgoing_rel_replay_order s)
    (outgoing_rel_notice s) (incoming_puback s) (incoming_pub s) (incoming_pubrec s)
    (outbound_pkid_in_use s) (outbound_pkid_count s) (collision s) (collision_notice s)
    (pending_subscribe s) v (events s) (ack_mode s).
Definition set_events {B} (v : list Event) (s : MqttState B) : MqttState B :=
  mkMqttState (ping s) (last_incoming s) (last_outgoing s) (last_pkid s) (inflight s)
    (max_inflight s) (outgoing_pub s) (outgoing_pub_order s) (outgoing_pub_notice s)
    (outgoing_rel s) (outgoing_rel_order s) (outgoing_rel_replay s) (outgoing_rel_replay_order s)
    (outgoing_rel_notice s) (incoming_puback s) (incoming_pub s) (incoming_pubrec s)
    (outbound_pkid_in_use s) (outbound_pkid_count s) (collision s) (collision_notice s)
    (pending_subscribe s) (pending_unsubscribe s) v (ack_mode s).
