(* ===== verification/V4State.v ===== *)
(** [rumqttc-v4/src/state.rs]: the operations of the MQTT 3.1.1 session state machine.

    Every operation is a computation in [M (MqttState B) StateError]: it returns a value, a
    [StateError] or a panic (an index out of range, a failed [expect], an integer underflow),
    always with the state it leaves behind, so that what an operation has already changed when
    it fails is part of the model.  [now] is [Instant::now()] at the end of the operation. *)

From S2P Require Import Prelude.
From S2P Require Import Utf8.
From S2P Require Import Primitives.
From S2P Require Import CodecBase.
From S2P Require Import V4Base.
From S2P Require Import V4Acks.
From S2P Require Import V4Publish.
From S2P Require Import V4Subscribe.
From S2P Require Import V4Connect.
From S2P Require Import V4Packet.
From S2P Require Import FixedBitSet.
From S2P Require Import PacketIds.
From S2P Require Import V4SessionTypes.
#[local] Open Scope Z_scope.

Section State.
  Context {B : Type} `{FixedBitSet B}.

Abbreviation State := (MqttState B).
Abbreviation ST := (M State StateError).

Definition push_event (o : Outgoing) : ST unit :=
  mmodify (λ s, set_events (events s ++ [Ev_Outgoing o]) s).

Definition set_last_outgoing_now (now : Instant) : ST unit := mmodify (set_last_outgoing now).

(** ** Construction and tracking capacity *)

Definition new_internal (now : Instant) (max_inflight : u16) (ack_mode : AckMode) : State :=
  let tracking_len := warm_tracking_len max_inflight in
  {| ping := PingState_new; last_incoming := now; last_outgoing := now; last_pkid := 0;
     inflight := 0; max_inflight := max_inflight;
     outgoing_pub := replicate (Z.to_nat tracking_len) None; outgoing_pub_order := [];
     outgoing_pub_notice := replicate (Z.to_nat tracking_len) None;
     outgoing_rel := with_capacity tracking_len; outgoing_rel_order := [];
     outgoing_rel_replay := with_capacity tracking_len; outgoing_rel_replay_order := [];
     outgoing_rel_notice := replicate (Z.to_nat tracking_len) None;
     incoming_puback := with_capacity (u16_MAX + 1);
     incoming_pub := with_capacity (u16_MAX + 1);
     incoming_pubrec := with_capacity (u16_MAX + 1);
     outbound_pkid_in_use := with_capacity full_packet_identifier_len;
     outbound_pkid_count := 0; collision := None; collision_notice := None;
     pending_subscribe := ∅; pending_unsubscribe := ∅; events := []; ack_mode := ack_mode |}.

Definition ensure_outgoing_tracking_capacity (target_len : usize) : ST unit :=
  mmodify (λ s,
    let s := if blen (outgoing_pub s) <? target_len
             then set_outgoing_pub (resize_none (outgoing_pub s) target_len) s else s in
    let s := if blen (outgoing_pub_notice s) <? target_len
             then set_outgoing_pub_notice (resize_none (outgoing_pub_notice s) target_len) s
             else s in
    let s := if blen (outgoing_rel_notice s) <? target_len
             then set_outgoing_rel_notice (resize_none (outgoing_rel_notice s) target_len) s
             else s in
    let s := if bits_len (outgoing_rel s) <? target_len
             then set_outgoing_rel (grow (outgoing_rel s) target_len) s else s in
    if bits_len (outgoing_rel_replay s) <? target_len
    then set_outgoing_rel_replay (grow (outgoing_rel_replay s) target_len) s else s).

Definition outbound_requests_drained (s : State) : bool :=
  (inflight s =? 0)
  && is_none (collision s)
  && is_none (collision_notice s)
  && bool_decide (pending_subscribe s = ∅)
  && bool_decide (pending_unsubscribe s = ∅)
  && forallb is_none (outgoing_pub s)
  && no_entries (outgoing_pub_order s)
  && forallb is_none (outgoing_pub_notice s)
  && forallb is_none (outgoing_rel_notice s)
  && no_ones (outgoing_rel s)
  && no_entries (outgoing_rel_order s)
  && no_ones (outgoing_rel_replay s)
  && no_entries (outgoing_rel_replay_order s)
  && (outbound_pkid_count s =? 0).

Definition maybe_shrink_outgoing_tracking_capacity : ST unit :=
  mmodify (λ s,
    let target_len := warm_tracking_len (max_inflight s) in
    if (blen (outgoing_pub s) <=? target_len) || negb (outbound_requests_drained s) then s
    else
      let n := Z.to_nat target_len in
      let s := set_outgoing_pub (take n (outgoing_pub s)) s in
      let s := set_outgoing_pub_notice (take n (outgoing_pub_notice s)) s in
      let s := set_outgoing_rel_notice (take n (outgoing_rel_notice s)) s in
      let s := set_outgoing_rel (with_capacity target_len) s in
      let s := set_outgoing_rel_order [] s in
      let s := set_outgoing_rel_replay (with_capacity target_len) s in
      let s := set_outgoing_rel_replay_order [] s in
      set_last_pkid 0 s).

(** ** Packet identifiers *)

Definition validate_outgoing_pkid (pkid : u16) : outcome StateError unit :=
  if pkid =? 0 then Err (Unsolicited pkid) else Ok tt.

Definition packet_identifier_in_use (s : State) (pkid : u16) : bool :=
  contains (outbound_pkid_in_use s) pkid.

Definition control_packet_identifier_available (s : State) : bool :=
  outbound_pkid_count s <? u16_MAX.

Definition find_free_outbound_pkid_in_range (s : State) (start end_ : usize) : option u16 :=
  find_free_in_range (outbound_pkid_in_use s) start end_.

Definition next_free_outbound_pkid_after (s : State) (last_pkid : u16) : option u16 :=
  next_free_in (outbound_pkid_in_use s) (control_packet_identifier_available s) last_pkid.

Definition next_publish_pkid (s : State) : option u16 :=
  next_free_outbound_pkid_after s (last_pkid s).

Definition next_pkid : ST (option u16) :=
  s ← mget;
  match next_publish_pkid s with
  | None => mret None
  | Some pkid => mmodify (set_last_pkid pkid);; mret (Some pkid)
  end.

Definition reserve_outbound_pkid (pkid : u16) : ST unit :=
  s ← mget;
  if (pkid =? 0) || packet_identifier_in_use s pkid then mfail InvalidState
  else
    in_use ← insert_bit (outbound_pkid_in_use s) pkid;
    mmodify (set_outbound_pkid_in_use in_use);;
    if u16_MAX <? outbound_pkid_count s + 1 then mfail InvalidState
    else mmodify (set_outbound_pkid_count (outbound_pkid_count s + 1)).

Definition accept_replayed_outbound_pkid (pkid : u16) : ST unit :=
  s ← mget;
  if (pkid =? 0) || negb (packet_identifier_in_use s pkid) then mfail InvalidState else mret tt.

Definition release_outbound_pkid (pkid : u16) : ST unit :=
  s ← mget;
  if (pkid =? 0) || negb (packet_identifier_in_use s pkid) then mret tt
  else
    in_use ← set_bit (outbound_pkid_in_use s) pkid false;
    mmodify (set_outbound_pkid_in_use in_use);;
    if outbound_pkid_count s <? 1 then mpanic
    else mmodify (set_outbound_pkid_count (outbound_pkid_count s - 1)).

Definition next_control_pkid : ST u16 :=
  s ← mget;
  match next_free_outbound_pkid_after s (last_pkid s) with
  | None => mfail InvalidState
  | Some pkid =>
      reserve_outbound_pkid pkid;;
      mmodify (set_last_pkid pkid);;
      mret pkid
  end.

Definition reserve_control_pkid (pkid : u16) : ST unit := reserve_outbound_pkid pkid.

(** ** Readiness *)

Definition has_pending_control (s : State) (pkid : u16) : bool :=
  is_some (pending_subscribe s !! pkid) || is_some (pending_unsubscribe s !! pkid).

Definition can_send_publish (s : State) (publish : Publish) : bool :=
  if decide (pub_qos publish = AtMostOnce) then true
  else if (max_inflight s <=? inflight s) || is_some (collision s) then false
  else if pub_pkid publish =? 0 then is_some (next_publish_pkid s)
  else is_ok (validate_outgoing_pkid (pub_pkid publish))
       && negb (packet_identifier_in_use s (pub_pkid publish)).

Definition can_send_replayed_publish (s : State) (publish : Publish) : bool :=
  if decide (pub_qos publish = AtMostOnce) then true
  else if (max_inflight s <=? inflight s) || is_some (collision s) then false
  else
    let pkid := pub_pkid publish in
    is_ok (validate_outgoing_pkid pkid)
    && packet_identifier_in_use s pkid
    && match vget (outgoing_pub s) pkid with Some slot => is_none slot | None => false end
    && negb (contains (outgoing_rel s) pkid)
    && negb (contains (outgoing_rel_replay s) pkid)
    && negb (has_pending_control s pkid).

Definition can_send_replayed_control_packet (s : State) (pkid : u16) : bool :=
  negb (pkid =? 0)
  && packet_identifier_in_use s pkid
  && negb (contains (outgoing_rel s) pkid)
  && negb (contains (outgoing_rel_replay s) pkid)
  && negb (has_pending_control s pkid).

Definition can_send_pubrel (s : State) (pkid : u16) : bool :=
  if pkid =? 0 then false
  else contains (outgoing_rel s) pkid
       || (contains (outgoing_rel_replay s) pkid && (inflight s <? max_inflight s)).

(** ** Outgoing packets *)

Definition with_pkid (publish : Publish) (pkid : u16) : Publish :=
  {| dup := dup publish; retain := retain publish; pub_qos := pub_qos publish;
     topic := topic publish; pub_pkid := pkid; payload := payload publish |}.

(** [self.inflight += 1] and [self.inflight -= 1] on a [u16]. *)
Definition inflight_incr : ST unit :=
  s ← mget;
  if u16_MAX <? inflight s + 1 then mpanic else mmodify (set_inflight (inflight s + 1)).
Definition inflight_decr : ST unit :=
  s ← mget;
  if inflight s <? 1 then mpanic else mmodify (set_inflight (inflight s - 1)).

(** Store a publish in its slot, with its notice, and count it. *)
Definition track_publish (publish : Publish) (notice : option NoticeTx) : ST unit :=
  let pkid := pub_pkid publish in
  s ← mget;
  pubs ← assign (outgoing_pub s) pkid (Some publish);
  mmodify (set_outgoing_pub pubs);;
  mmodify (λ s, set_outgoing_pub_order (outgoing_pub_order s ++ [pkid]) s);;
  s ← mget;
  notices ← assign (outgoing_pub_notice s) pkid notice;
  mmodify (set_outgoing_pub_notice notices);;
  inflight_incr.

(** A publish with its packet identifier is tracked, or held back on a collision ([None]). *)
Definition place_publish (publish : Publish) (notice : option NoticeTx) (replay : bool)
  : ST (option Publish) :=
  let pkid := pub_pkid publish in
  lift (validate_outgoing_pkid pkid);;
  ensure_outgoing_tracking_capacity (pkid + 1);;
  s ← mget;
  slot ← lift (ok_or (vget (outgoing_pub s) pkid) (Unsolicited pkid));
  if is_some slot then
    mmodify (set_collision (Some publish));;
    mmodify (set_collision_notice notice);;
    push_event (O_AwaitAck pkid);;
    mret None
  else if contains (outgoing_rel s) pkid || contains (outgoing_rel_replay s) pkid
          || has_pending_control s pkid
  then mfail InvalidState
  else
    (if replay then accept_replayed_outbound_pkid pkid else reserve_outbound_pkid pkid);;
    track_publish publish notice;;
    mret (Some publish).

(** The flow-controlled part of [outgoing_publish_with_notice_internal]: the publish with its
    packet identifier, or [None] on a collision. *)
Definition admit_publish (publish : Publish) (notice : option NoticeTx) (replay : bool)
  : ST (option Publish) :=
  s ← mget;
  if max_inflight s <=? inflight s then mfail (OutgoingPublishWindowFull (max_inflight s))
  else
    publish ← (if pub_pkid publish =? 0 then
                 if replay then mfail InvalidState
                 else
                   pkid ← next_pkid;
                   match pkid with
                   | None => mfail InvalidState
                   | Some pkid => mret (with_pkid publish pkid)
                   end
               else mret publish);
    place_publish publish notice replay.

Definition outgoing_publish_with_notice_internal (publish : Publish) (notice : option NoticeTx)
    (replay : bool) : ST (option Packet * option NoticeTx) :=
  if decide (pub_qos publish = AtMostOnce) then
    push_event (O_Publish (pub_pkid publish));;
    mret (Some (P_Publish publish), notice)
  else
    admitted ← admit_publish publish notice replay;
    match admitted with
    | None => mret (None, None)
    | Some publish =>
        push_event (O_Publish (pub_pkid publish));;
        mret (Some (P_Publish publish), None)
    end.

(** The block [if replaying_pubrel { .. }] of [save_pubrel_with_notice]. *)
Definition activate_replayed_pubrel (pkid : u16) : ST unit :=
  s ← mget;
  if max_inflight s <=? inflight s
  then mfail (OutgoingPublishWindowFull (max_inflight s))
  else
    replay_bits ← set_bit (outgoing_rel_replay s) pkid false;
    mmodify (set_outgoing_rel_replay replay_bits);;
    mmodify (λ s, set_outgoing_rel_replay_order
                    (remove_ordered_pkid (outgoing_rel_replay_order s) pkid) s);;
    rel_bits ← insert_bit (outgoing_rel s) pkid;
    mmodify (set_outgoing_rel rel_bits);;
    mmodify (λ s, set_outgoing_rel_order (outgoing_rel_order s ++ [pkid]) s);;
    inflight_incr.

(** A given notice replaces the stored one; a missing one does not. *)
Definition store_rel_notice (pkid : u16) (notice : option NoticeTx) : ST unit :=
  ensure_outgoing_tracking_capacity (pkid + 1);;
  s ← mget;
  current ← index (outgoing_rel_notice s) pkid;
  if is_some notice || is_none current then
    notices ← assign (outgoing_rel_notice s) pkid notice;
    mmodify (set_outgoing_rel_notice notices)
  else mret tt.

Definition save_pubrel_with_notice (pubrel : PubRel) (notice : option NoticeTx) : ST PubRel :=
  let pkid := pubrel_pkid pubrel in
  lift (validate_outgoing_pkid pkid);;
  s ← mget;
  let replaying_pubrel := contains (outgoing_rel_replay s) pkid in
  if negb (contains (outgoing_rel s) pkid) && negb replaying_pubrel
  then mfail (Unsolicited pkid)
  else
    (if replaying_pubrel then activate_replayed_pubrel pkid else mret tt);;
    store_rel_notice pkid notice;;
    mret pubrel.

Definition outgoing_pubrel_with_notice (pubrel : PubRel) (notice : option NoticeTx)
  : ST (option Packet * option NoticeTx) :=
  pubrel ← save_pubrel_with_notice pubrel notice;
  push_event (O_PubRel (pubrel_pkid pubrel));;
  mret (Some (P_PubRel pubrel), None).

Definition outgoing_puback (puback : PubAck) : ST Packet :=
  let pkid := puback_pkid puback in
  s ← mget;
  if negb (contains (incoming_puback s) pkid) then mfail (Unsolicited pkid)
  else
    bits ← set_bit (incoming_puback s) pkid false;
    mmodify (set_incoming_puback bits);;
    push_event (O_PubAck pkid);;
    mret (P_PubAck puback).

Definition outgoing_pubrec_internal (pubrec : PubRec) (allow_duplicate : bool) : ST Packet :=
  let pkid := pubrec_pkid pubrec in
  s ← mget;
  if negb (contains (incoming_pub s) pkid) then mfail (Unsolicited pkid)
  else if contains (incoming_pubrec s) pkid then
    if allow_duplicate then push_event (O_PubRec pkid);; mret (P_PubRec pubrec)
    else mfail (Unsolicited pkid)
  else
    bits ← insert_bit (incoming_pubrec s) pkid;
    mmodify (set_incoming_pubrec bits);;
    push_event (O_PubRec pkid);;
    mret (P_PubRec pubrec).

(** [outgoing_ping]; the elapsed times are only logged. *)
Definition outgoing_ping : ST (option Packet) :=
  s ← mget;
  timed_out ← (if is_some (collision s) then
                 let '(count, p) := PingState_increment_collision_count (ping s) in
                 mmodify (set_ping p);; mret (2 <=? count)
               else mret false);
  if timed_out : bool then mfail CollisionTimeout
  else
    s ← mget;
    if PingState_await_pingresp (ping s) then mfail AwaitPingResp
    else
      mmodify (set_ping (PingState_begin_waiting_for_resp (ping s)));;
      push_event O_PingReq;;
      mret (Some P_PingReq).

Definition save_outgoing_subscribe (subscription : Subscribe) (notice : option NoticeTx)
  : ST Packet :=
  push_event (O_Subscribe (subscribe_pkid subscription));;
  mmodify (λ s, set_pending_subscribe
    (<[subscribe_pkid subscription :=
        {| ps_subscribe := subscription; ps_notice := notice |}]> (pending_subscribe s)) s);;
  mret (P_Subscribe subscription).

Definition outgoing_subscribe (subscription : Subscribe) (notice : option NoticeTx)
  : ST (option Packet) :=
  if no_entries (filters subscription) then mfail SE_EmptySubscription
  else
    subscription ← (if subscribe_pkid subscription =? 0 then
                      pkid ← next_control_pkid;
                      mret {| subscribe_pkid := pkid; filters := filters subscription |}
                    else
                      reserve_control_pkid (subscribe_pkid subscription);;
                      mret subscription);
    packet ← save_outgoing_subscribe subscription notice;
    mret (Some packet).

Definition replay_outgoing_subscribe (subscription : Subscribe) (notice : option NoticeTx)
  : ST (option Packet) :=
  if no_entries (filters subscription) then mfail SE_EmptySubscription
  else
    accept_replayed_outbound_pkid (subscribe_pkid subscription);;
    packet ← save_outgoing_subscribe subscription notice;
    mret (Some packet).

Definition save_outgoing_unsubscribe (unsub : Unsubscribe) (notice : option NoticeTx)
  : ST Packet :=
  push_event (O_Unsubscribe (unsubscribe_pkid unsub));;
  mmodify (λ s, set_pending_unsubscribe
    (<[unsubscribe_pkid unsub :=
        {| pu_unsubscribe := unsub; pu_notice := notice |}]> (pending_unsubscribe s)) s);;
  mret (P_Unsubscribe unsub).

Definition outgoing_unsubscribe (unsub : Unsubscribe) (notice : option NoticeTx) : ST Packet :=
  if no_entries (topics unsub) then mfail SE_EmptyUnsubscription
  else
    unsub ← (if unsubscribe_pkid unsub =? 0 then
               pkid ← next_control_pkid;
               mret {| unsubscribe_pkid := pkid; topics := topics unsub |}
             else
               reserve_control_pkid (unsubscribe_pkid unsub);;
               mret unsub);
    save_outgoing_unsubscribe unsub notice.

Definition replay_outgoing_unsubscribe (unsub : Unsubscribe) (notice : option NoticeTx)
  : ST Packet :=
  if no_entries (topics unsub) then mfail SE_EmptyUnsubscription
  else
    accept_replayed_outbound_pkid (unsubscribe_pkid unsub);;
    save_outgoing_unsubscribe unsub notice.

Definition outgoing_disconnect : ST Packet :=
  push_event O_Disconnect;;
  mret P_Disconnect.

Definition publish_notice (notice : option TrackedNoticeTx) : option NoticeTx :=
  match notice with Some (TN_Publish notice) => Some notice | _ => None end.
Definition subscribe_notice (notice : option TrackedNoticeTx) : option NoticeTx :=
  match notice with Some (TN_Subscribe notice) => Some notice | _ => None end.
Definition unsubscribe_notice (notice : option TrackedNoticeTx) : option NoticeTx :=
  match notice with Some (TN_Unsubscribe notice) => Some notice | _ => None end.

Definition handle_outgoing_packet_with_notice_internal (now : Instant) (request : Request)
    (notice : option TrackedNoticeTx) (replay : bool)
  : ST (option Packet * option NoticeTx) :=
  result ← match request with
    | R_Publish publish =>
        outgoing_publish_with_notice_internal publish (publish_notice notice) replay
    | R_PubRel pubrel => outgoing_pubrel_with_notice pubrel (publish_notice notice)
    | R_Subscribe subscribe =>
        packet ← (if replay : bool then replay_outgoing_subscribe subscribe (subscribe_notice notice)
                  else outgoing_subscribe subscribe (subscribe_notice notice));
        mret (packet, None)
    | R_Unsubscribe unsubscribe =>
        packet ← (if replay : bool then
                    replay_outgoing_unsubscribe unsubscribe (unsubscribe_notice notice)
                  else outgoing_unsubscribe unsubscribe (unsubscribe_notice notice));
        mret (Some packet, None)
    | R_PingReq => packet ← outgoing_ping; mret (packet, None)
    | R_Disconnect | R_DisconnectWithTimeout _ | R_DisconnectAfterQueued
    | R_DisconnectAfterQueuedWithTimeout _ => mpanic
    | R_DisconnectNow => packet ← outgoing_disconnect; mret (Some packet, None)
    | R_PubAck puback => packet ← outgoing_puback puback; mret (Some packet, None)
    | R_PubRec pubrec => packet ← outgoing_pubrec_internal pubrec false; mret (Some packet, None)
    | R_PubComp _ | R_PingResp | R_SubAck _ | R_UnsubAck _ => mfail InvalidState
    end;
  set_last_outgoing_now now;;
  mret result.

Definition handle_outgoing_packet_with_notice (now : Instant) (request : Request)
    (notice : option TrackedNoticeTx) : ST (option Packet * option NoticeTx) :=
  handle_outgoing_packet_with_notice_internal now request notice false.

Definition handle_replayed_outgoing_packet_with_notice (now : Instant) (request : Request)
    (notice : option TrackedNoticeTx) : ST (option Packet * option NoticeTx) :=
  handle_outgoing_packet_with_notice_internal now request notice true.

(** The packet, and the notice completed with [Qos0Flushed]: none, as none is given. *)
Definition handle_outgoing_packet (now : Instant) (request : Request)
  : ST (option Packet * list (NoticeTx * PublishResult)) :=
  '(packet, flush_notice) ← handle_outgoing_packet_with_notice now request None;
  set_last_outgoing_now now;;
  mret (packet, match flush_notice with Some tx => [(tx, Qos0Flushed)] | None => [] end).

(** ** Incoming packets *)

Definition check_collision (pkid : u16) : ST (option (Publish * option NoticeTx)) :=
  s ← mget;
  match collision s with
  | Some publish =>
      if pub_pkid publish =? pkid then
        mmodify (set_collision None);;
        mmodify (set_collision_notice None);;
        mret (Some (publish, collision_notice s))
      else mret None
  | None => mret None
  end.

(** [.expect(..)] on the result of an operation. *)
Definition expect_ok {A} (m : ST A) : ST A := λ s,
  match m s with (Err _, s) => (Panic, s) | r => r end.

Definition replay_collision_publish (pkid : u16) : ST (option Packet) :=
  found ← check_collision pkid;
  match found with
  | None => mret None
  | Some (publish, notice) =>
      let publish_pkid := pub_pkid publish in
      ensure_outgoing_tracking_capacity (publish_pkid + 1);;
      expect_ok (reserve_outbound_pkid publish_pkid);;
      track_publish publish notice;;
      push_event (O_Publish publish_pkid);;
      mmodify (λ s, set_ping (PingState_reset_collision_count (ping s)) s);;
      mret (Some (P_Publish publish))
  end.

Definition handle_incoming_suback (suback : SubAck) : ST IncomingPacketEffects :=
  let pkid := suback_pkid suback in
  s ← mget;
  match pending_subscribe s !! pkid with
  | None => mfail (Unsolicited pkid)
  | Some pending =>
      let expected := blen (filters (ps_subscribe pending)) in
      let actual := blen (return_codes suback) in
      if negb (expected =? actual)
      then mfail (SE_ProtocolViolation (SubAckReturnCodeCountMismatch pkid expected actual))
      else
        mmodify (set_pending_subscribe (delete pkid (pending_subscribe s)));;
        release_outbound_pkid pkid;;
        let effects := effects_outgoing None in
        mret (match ps_notice pending with
              | Some notice => with_notice effects (DN_Subscribe notice suback)
              | None => effects
              end)
  end.

Definition handle_incoming_unsuback (unsuback : UnsubAck) : ST IncomingPacketEffects :=
  let pkid := unsuback_pkid unsuback in
  s ← mget;
  match pending_unsubscribe s !! pkid with
  | Some pending =>
      mmodify (set_pending_unsubscribe (delete pkid (pending_unsubscribe s)));;
      release_outbound_pkid pkid;;
      let effects := effects_outgoing None in
      mret (match pu_notice pending with
            | Some notice => with_notice effects (DN_Unsubscribe notice unsuback)
            | None => effects
            end)
  | None => mfail (Unsolicited pkid)
  end.

Definition handle_incoming_publish (publish : Publish) : ST IncomingPacketEffects :=
  let pkid := pub_pkid publish in
  match pub_qos publish with
  | AtMostOnce => mret (effects_outgoing None)
  | AtLeastOnce =>
      s ← mget;
      bits ← insert_bit (incoming_puback s) pkid;
      mmodify (set_incoming_puback bits);;
      if decide (ack_mode s = Automatic) then
        packet ← outgoing_puback {| puback_pkid := pkid |};
        mret (effects_outgoing (Some packet))
      else mret (effects_outgoing None)
  | ExactlyOnce =>
      s ← mget;
      bits ← insert_bit (incoming_pub s) pkid;
      mmodify (set_incoming_pub bits);;
      if bool_decide (ack_mode s = Automatic) || contains (incoming_pubrec s) pkid then
        packet ← outgoing_pubrec_internal {| pubrec_pkid := pkid |} true;
        mret (effects_outgoing (Some packet))
      else mret (effects_outgoing None)
  end.

(** Take the publish out of its slot; [None] when there is none to take. *)
Definition take_publish (pkid : u16) : ST unit :=
  s ← mget;
  slot ← lift (ok_or (vget (outgoing_pub s) pkid) (Unsolicited pkid));
  mmodify (set_outgoing_pub (vset (outgoing_pub s) pkid None));;
  if is_none slot then mfail (Unsolicited pkid) else mret tt.

Definition take_pub_notice (pkid : u16) : ST (option NoticeTx) :=
  s ← mget;
  notice ← index (outgoing_pub_notice s) pkid;
  mmodify (set_outgoing_pub_notice (vset (outgoing_pub_notice s) pkid None));;
  mret notice.

Definition take_rel_notice (pkid : u16) : ST (option NoticeTx) :=
  s ← mget;
  notice ← index (outgoing_rel_notice s) pkid;
  mmodify (set_outgoing_rel_notice (vset (outgoing_rel_notice s) pkid None));;
  mret notice.

(** The end of a publish flow, common to PUBACK and PUBCOMP. *)
Definition finish_publish (pkid : u16) (notice : option NoticeTx) (result : PublishResult)
  : ST IncomingPacketEffects :=
  inflight_decr;;
  packet ← replay_collision_publish pkid;
  (if is_none packet then maybe_shrink_outgoing_tracking_capacity else mret tt);;
  let effects := effects_outgoing packet in
  mret (match notice with
        | Some tx => with_notice effects (DN_Publish tx result)
        | None => effects
        end).

Definition handle_incoming_puback (puback : PubAck) : ST IncomingPacketEffects :=
  let pkid := puback_pkid puback in
  take_publish pkid;;
  release_outbound_pkid pkid;;
  mmodify (λ s, set_outgoing_pub_order (remove_ordered_pkid (outgoing_pub_order s) pkid) s);;
  notice ← take_pub_notice pkid;
  finish_publish pkid notice (Qos1 puback).

Definition handle_incoming_pubrec (pubrec : PubRec) : ST IncomingPacketEffects :=
  let pkid := pubrec_pkid pubrec in
  take_publish pkid;;
  notice ← take_pub_notice pkid;
  s ← mget;
  bits ← insert_bit (outgoing_rel s) pkid;
  mmodify (set_outgoing_rel bits);;
  mmodify (λ s, set_outgoing_pub_order (remove_ordered_pkid (outgoing_pub_order s) pkid) s);;
  mmodify (λ s, set_outgoing_rel_order (outgoing_rel_order s ++ [pkid]) s);;
  s ← mget;
  notices ← assign (outgoing_rel_notice s) pkid notice;
  mmodify (set_outgoing_rel_notice notices);;
  push_event (O_PubRel pkid);;
  mret (effects_outgoing (Some (P_PubRel {| pubrel_pkid := pkid |}))).

Definition handle_incoming_pubrel (pubrel : PubRel) : ST (option Packet) :=
  let pkid := pubrel_pkid pubrel in
  let pubcomp := {| pubcomp_pkid := pkid |} in
  s ← mget;
  if negb (contains (incoming_pub s) pkid) then
    push_event (O_PubComp pkid);;
    mret (Some (P_PubComp pubcomp))
  else if negb (contains (incoming_pubrec s) pkid) then mfail (Unsolicited pkid)
  else
    pub_bits ← set_bit (incoming_pub s) pkid false;
    mmodify (set_incoming_pub pub_bits);;
    rec_bits ← set_bit (incoming_pubrec s) pkid false;
    mmodify (set_incoming_pubrec rec_bits);;
    push_event (O_PubComp pkid);;
    mret (Some (P_PubComp pubcomp)).

Definition handle_incoming_pubcomp (pubcomp : PubComp) : ST IncomingPacketEffects :=
  let pkid := pubcomp_pkid pubcomp in
  s ← mget;
  if negb (contains (outgoing_rel s) pkid) then mfail (Unsolicited pkid)
  else
    bits ← set_bit (outgoing_rel s) pkid false;
    mmodify (set_outgoing_rel bits);;
    mmodify (λ s, set_outgoing_rel_order (remove_ordered_pkid (outgoing_rel_order s) pkid) s);;
    release_outbound_pkid pkid;;
    notice ← take_rel_notice pkid;
    finish_publish pkid notice (Qos2Completed pubcomp).

Definition handle_incoming_pingresp : ST (option Packet) :=
  mmodify (λ s, set_ping (PingState_finish_waiting_for_resp (ping s)) s);;
  mret None.

Definition is_duplicate_incoming_qos2_publish (s : State) (packet : Packet) : bool :=
  match packet with
  | P_Publish publish =>
      bool_decide (pub_qos publish = ExactlyOnce) && contains (incoming_pubrec s) (pub_pkid publish)
  | _ => false
  end.

(** [self.events.insert(at, Event::Incoming(packet))]. *)
Definition insert_event (at_ : Z) (e : Event) : ST unit :=
  s ← mget;
  if blen (events s) <? at_ then mpanic
  else mmodify (set_events (take (Z.to_nat at_) (events s) ++ e :: drop (Z.to_nat at_) (events s))).

Definition handle_incoming_packet_with_effects (now : Instant) (packet : Packet)
  : ST IncomingPacketEffects :=
  s ← mget;
  let events_len_before := blen (events s) in
  let forward_incoming := negb (is_duplicate_incoming_qos2_publish s packet) in
  effects ← match packet with
    | P_PingResp => outgoing ← handle_incoming_pingresp; mret (effects_outgoing outgoing)
    | P_Publish publish => handle_incoming_publish publish
    | P_SubAck suback => handle_incoming_suback suback
    | P_UnsubAck unsuback => handle_incoming_unsuback unsuback
    | P_PubAck puback => handle_incoming_puback puback
    | P_PubRec pubrec => handle_incoming_pubrec pubrec
    | P_PubRel pubrel => outgoing ← handle_incoming_pubrel pubrel; mret (effects_outgoing outgoing)
    | P_PubComp pubcomp => handle_incoming_pubcomp pubcomp
    | P_ConnAck _ => mfail (SE_ProtocolViolation DuplicateConnAck)
    | _ => mfail (SE_ProtocolViolation (UnexpectedIncomingPacket (Packet_packet_type packet)))
    end;
  (if forward_incoming then insert_event events_len_before (Ev_Incoming packet) else mret tt);;
  mmodify (set_last_incoming now);;
  mret effects.

(** The packet to send, and the notices completed. *)
Definition handle_incoming_packet (now : Instant) (packet : Packet)
  : ST (option Packet * list DeferredNotice) :=
  effects ← handle_incoming_packet_with_effects now packet;
  mret (eff_outgoing effects, eff_notices effects).
End State.
