(* ===== verification/V4Clean.v ===== *)
(** [rumqttc-v4/src/state.rs]: leaving a connection or a session: collecting the unfinished
    requests ([clean]), failing their notices, resetting the session, and the diagnostics. *)

From S2P Require Import Prelude.
From S2P Require Import Utf8.
From S2P Require Import Primitives.
From S2P Require Import CodecBase.
From S2P Require Import V4Base.
From S2P Require Import V4Acks.
From S2P Require Import V4Publish.
From S2P Require Import V4Subscribe.
From S2P Require Import V4Connect.
From S2P Require Import V4Packet.
From S2P Require Import FixedBitSet.
From S2P Require Import V4SessionTypes.
From S2P Require Import PacketIds.
From S2P Require Import V4State.
#[local] Open Scope Z_scope.

Section Clean.
  Context {B : Type} `{FixedBitSet B}.

Abbreviation State := (MqttState B).
Abbreviation ST := (M State StateError).

(** ** [clean_with_notices_internal] *)

(** [u16::try_from(pkid).expect(..)]. *)
Definition expect_u16 (pkid : Z) : outcome StateError u16 :=
  if (0 <=? pkid) && (pkid <=? u16_MAX) then Ok pkid else Panic.

(** The first loop: tracked publishes missing from the order, from slot [pkid] on. *)
Fixpoint fill_pub_order (pubs : list (option Publish)) (pkid : Z) (order : list u16)
  : outcome StateError (list u16) :=
  match pubs with
  | [] => Ok order
  | publish :: rest =>
      id ← expect_u16 pkid;
      fill_pub_order rest (pkid + 1)
        (if is_some publish && negb (bool_decide (id ∈ order)) then order ++ [id] else order)
  end.

(** The second loop: released publishes missing from the order. *)
Fixpoint fill_rel_order (pkids : list Z) (order : list u16) : outcome StateError (list u16) :=
  match pkids with
  | [] => Ok order
  | pkid :: rest =>
      id ← expect_u16 pkid;
      fill_rel_order rest (if negb (bool_decide (id ∈ order)) then order ++ [id] else order)
  end.

Definition mark_dup (publish : Publish) : Publish :=
  if decide (pub_qos publish = AtMostOnce) then publish
  else {| dup := true; retain := retain publish; pub_qos := pub_qos publish;
          topic := topic publish; pub_pkid := pub_pkid publish; payload := payload publish |}.

(** The publishes, in order; also the identifiers to release. *)
Fixpoint clean_publishes (keep_replay_pkids_reserved : bool) (order : list u16)
  : ST (list CleanRequest * list u16) :=
  match order with
  | [] => mret ([], [])
  | pkid :: order =>
      s ← mget;
      slot ← index (outgoing_pub s) pkid;
      match slot with
      | None => clean_publishes keep_replay_pkids_reserved order
      | Some publish =>
          mmodify (set_outgoing_pub (vset (outgoing_pub s) pkid None));;
          notice ← take_pub_notice pkid;
          let publish := mark_dup publish in
          let clean := {| cr_request := R_Publish publish; cr_notice := TN_Publish <$> notice;
                          cr_replay := true |} in
          '(pending, released) ← clean_publishes keep_replay_pkids_reserved order;
          mret (clean :: pending,
                if keep_replay_pkids_reserved then released else pub_pkid publish :: released)
      end
  end.

Fixpoint release_all (pkids : list u16) : ST unit :=
  match pkids with
  | [] => mret tt
  | pkid :: pkids => release_outbound_pkid pkid;; release_all pkids
  end.

Definition clean_collision : ST (list CleanRequest) :=
  s ← mget;
  match collision s with
  | None => mret []
  | Some publish =>
      mmodify (set_collision None);;
      mmodify (set_collision_notice None);;
      mret [{| cr_request := R_Publish publish; cr_notice := TN_Publish <$> collision_notice s;
               cr_replay := false |}]
  end.

Fixpoint clean_pubrels (order : list u16) : ST (list CleanRequest) :=
  match order with
  | [] => mret []
  | pkid :: order =>
      notice ← take_rel_notice pkid;
      pending ← clean_pubrels order;
      mret ({| cr_request := R_PubRel {| pubrel_pkid := pkid |};
               cr_notice := TN_Publish <$> notice; cr_replay := true |} :: pending)
  end.

Fixpoint mark_pubrel_replay (pkids : list u16) : ST unit :=
  match pkids with
  | [] => mret tt
  | pkid :: pkids =>
      s ← mget;
      bits ← insert_bit (outgoing_rel_replay s) pkid;
      mmodify (set_outgoing_rel_replay bits);;
      mmodify (λ s, if bool_decide (pkid ∈ outgoing_rel_replay_order s) then s
                    else set_outgoing_rel_replay_order (outgoing_rel_replay_order s ++ [pkid]) s);;
      mark_pubrel_replay pkids
  end.

Fixpoint clean_subscribes (keep_replay_pkids_reserved : bool)
    (entries : list (Z * PendingSubscribe)) : ST (list CleanRequest) :=
  match entries with
  | [] => mret []
  | (pkid, pending_subscribe) :: entries =>
      (if keep_replay_pkids_reserved then mret tt else release_outbound_pkid pkid);;
      pending ← clean_subscribes keep_replay_pkids_reserved entries;
      mret ({| cr_request := R_Subscribe {| subscribe_pkid := pkid;
                 filters := filters (ps_subscribe pending_subscribe) |};
               cr_notice := TN_Subscribe <$> ps_notice pending_subscribe;
               cr_replay := true |} :: pending)
  end.

Fixpoint clean_unsubscribes (keep_replay_pkids_reserved : bool)
    (entries : list (Z * PendingUnsubscribe)) : ST (list CleanRequest) :=
  match entries with
  | [] => mret []
  | (pkid, pending_unsubscribe) :: entries =>
      (if keep_replay_pkids_reserved then mret tt else release_outbound_pkid pkid);;
      pending ← clean_unsubscribes keep_replay_pkids_reserved entries;
      mret ({| cr_request := R_Unsubscribe {| unsubscribe_pkid := pkid;
                 topics := topics (pu_unsubscribe pending_unsubscribe) |};
               cr_notice := TN_Unsubscribe <$> pu_notice pending_unsubscribe;
               cr_replay := true |} :: pending)
  end.

Definition clean_with_notices_internal (keep_replay_pkids_reserved : bool)
  : ST (list CleanRequest) :=
  s ← mget;
  pub_order ← lift (fill_pub_order (tail (outgoing_pub s)) 1 (outgoing_pub_order s));
  rel_order ← lift (fill_rel_order (ones (outgoing_rel s)) (outgoing_rel_order s));
  mmodify (set_outgoing_pub_order []);;
  '(publishes, released) ← clean_publishes keep_replay_pkids_reserved pub_order;
  release_all released;;
  collisions ← clean_collision;
  mmodify (set_outgoing_rel_order []);;
  pubrels ← clean_pubrels rel_order;
  mark_pubrel_replay rel_order;;
  mmodify (λ s, set_outgoing_rel (clear_bits (outgoing_rel s)) s);;
  s ← mget;
  mmodify (set_pending_subscribe ∅);;
  subscribes ← clean_subscribes keep_replay_pkids_reserved (btree_entries (pending_subscribe s));
  s ← mget;
  mmodify (set_pending_unsubscribe ∅);;
  unsubscribes ← clean_unsubscribes keep_replay_pkids_reserved
                   (btree_entries (pending_unsubscribe s));
  mmodify (λ s, set_incoming_puback (clear_bits (incoming_puback s)) s);;
  mmodify (set_ping PingState_new);;
  mmodify (set_inflight 0);;
  let pending := publishes ++ collisions ++ pubrels ++ subscribes ++ unsubscribes in
  (if no_entries pending then maybe_shrink_outgoing_tracking_capacity else mret tt);;
  mret pending.

Definition clean_with_notices : ST (list (Request * option TrackedNoticeTx)) :=
  pending ← clean_with_notices_internal false;
  mret ((λ c, (cr_request c, cr_notice c)) <$> pending).

Definition clean_with_notices_for_reconnect : ST (list CleanRequest) :=
  clean_with_notices_internal true.

Definition clean : ST (list Request) :=
  pending ← clean_with_notices;
  mret (fst <$> pending).

(** ** Failing notices and resetting *)

Definition clear_collision : ST unit :=
  mmodify (λ s, set_ping (PingState_reset_collision_count (ping s))
                  (set_collision_notice None (set_collision None s))).

(** A notice completed with the error [SessionReset]. *)
Fixpoint drain_subscribes (entries : list (Z * PendingSubscribe)) : ST (list TrackedNoticeTx) :=
  match entries with
  | [] => mret []
  | (pkid, pending_subscribe) :: entries =>
      release_outbound_pkid pkid;;
      failed ← drain_subscribes entries;
      mret (match ps_notice pending_subscribe with
            | Some notice => TN_Subscribe notice :: failed
            | None => failed
            end)
  end.

Fixpoint drain_unsubscribes (entries : list (Z * PendingUnsubscribe))
  : ST (list TrackedNoticeTx) :=
  match entries with
  | [] => mret []
  | (pkid, pending_unsubscribe) :: entries =>
      release_outbound_pkid pkid;;
      failed ← drain_unsubscribes entries;
      mret (match pu_notice pending_unsubscribe with
            | Some notice => TN_Unsubscribe notice :: failed
            | None => failed
            end)
  end.

(** The number of requests removed, and the notices failed, in order. *)
Definition drain_tracked_requests_as_failed : ST (usize * list TrackedNoticeTx) :=
  s ← mget;
  let drained := Z.of_nat (size (pending_subscribe s)) + Z.of_nat (size (pending_unsubscribe s)) in
  mmodify (set_pending_subscribe ∅);;
  failed_sub ← drain_subscribes (btree_entries (pending_subscribe s));
  s ← mget;
  mmodify (set_pending_unsubscribe ∅);;
  failed_unsub ← drain_unsubscribes (btree_entries (pending_unsubscribe s));
  maybe_shrink_outgoing_tracking_capacity;;
  mret (drained, failed_sub ++ failed_unsub).

(** The notices held in a vector of slots. *)
Definition slot_notices (v : list (option NoticeTx)) : list TrackedNoticeTx :=
  TN_Publish <$> omap id v.

Definition fail_pending_notices : ST (list TrackedNoticeTx) :=
  s ← mget;
  mmodify (λ s, set_outgoing_pub_notice ((λ _, None) <$> outgoing_pub_notice s) s);;
  mmodify (λ s, set_outgoing_rel_notice ((λ _, None) <$> outgoing_rel_notice s) s);;
  mmodify (set_collision_notice None);;
  '(_, failed) ← drain_tracked_requests_as_failed;
  clear_collision;;
  maybe_shrink_outgoing_tracking_capacity;;
  mret (slot_notices (outgoing_pub_notice s) ++ slot_notices (outgoing_rel_notice s)
        ++ slot_notices [collision_notice s] ++ failed).

Definition reset_session_state (now : Instant) : ST (list TrackedNoticeTx) :=
  failed ← fail_pending_notices;
  mmodify (λ s, new_internal now (max_inflight s) (ack_mode s));;
  mret failed.

(** ** Diagnostics *)

Record OutboundDiagnostics := mkDiagnostics {
  d_inflight : u16;
  d_max_inflight : u16;
  d_publish_window_full : bool;
  d_packet_identifiers_in_use : usize;
  d_collision : bool;
  d_collision_notice : bool;
  d_pending_subscribe : usize;
  d_pending_unsubscribe : usize;
  d_outgoing_publish : usize;
  d_outgoing_publish_notices : usize;
  d_outgoing_pubrel : usize;
  d_outgoing_pubrel_replay : usize;
  d_outgoing_pubrel_notices : usize;
  d_incoming_puback : usize;
  d_incoming_pub : usize;
  d_incoming_pubrec : usize;
  d_outbound_drained : bool;
}.

Definition count_some {A} (v : list (option A)) : usize := blen (omap id v).

Definition outbound_diagnostics (s : State) : OutboundDiagnostics :=
  let packet_identifiers_in_use := outbound_pkid_count s in
  let collision_ := is_some (collision s) in
  let collision_notice_ := is_some (collision_notice s) in
  let pending_subscribe_ := Z.of_nat (size (pending_subscribe s)) in
  let pending_unsubscribe_ := Z.of_nat (size (pending_unsubscribe s)) in
  let outgoing_publish := count_some (outgoing_pub s) in
  let outgoing_publish_notices := count_some (outgoing_pub_notice s) in
  let outgoing_pubrel := blen (ones (outgoing_rel s)) in
  let outgoing_pubrel_replay := blen (ones (outgoing_rel_replay s)) in
  let outgoing_pubrel_notices := count_some (outgoing_rel_notice s) in
  let outbound_drained :=
    (inflight s =? 0) && negb collision_ && negb collision_notice_
    && (pending_subscribe_ =? 0) && (pending_unsubscribe_ =? 0) && (outgoing_publish =? 0)
    && (outgoing_publish_notices =? 0) && (outgoing_pubrel =? 0)
    && (outgoing_pubrel_replay =? 0) && (outgoing_pubrel_notices =? 0)
    && (packet_identifiers_in_use =? 0) in
  {| d_inflight := inflight s;
     d_max_inflight := max_inflight s;
     d_publish_window_full := max_inflight s <=? inflight s;
     d_packet_identifiers_in_use := packet_identifiers_in_use;
     d_collision := collision_;
     d_collision_notice := collision_notice_;
     d_pending_subscribe := pending_subscribe_;
     d_pending_unsubscribe := pending_unsubscribe_;
     d_outgoing_publish := outgoing_publish;
     d_outgoing_publish_notices := outgoing_publish_notices;
     d_outgoing_pubrel := outgoing_pubrel;
     d_outgoing_pubrel_replay := outgoing_pubrel_replay;
     d_outgoing_pubrel_notices := outgoing_pubrel_notices;
     d_incoming_puback := blen (ones (incoming_puback s));
     d_incoming_pub := blen (ones (incoming_pub s));
     d_incoming_pubrec := blen (ones (incoming_pubrec s));
     d_outbound_drained := outbound_drained |}.
End Clean.
