(* ===== verification/V4Invariant.v ===== *)
(** The packet identifiers of the MQTT 3.1.1 session state: what a tracked publish is, and the rules
    of the operations that reserve, release and choose identifiers.

    The invariant of the MQTT 3.1.1 session state, and that every handler preserves it without
    panicking.

    [Rp] and [Rc] are the packet identifiers reserved for requests collected by [clean] and not
    sent again yet: publishes, and subscribe or unsubscribe requests.  They are not in
    [MqttState] but in the event loop's pending queue; the identifiers in use are exactly those
    of live flows and of these requests. *)

From S2P Require Import Prelude.
From S2P Require Import Utf8.
From S2P Require Import Primitives.
From S2P Require Import CodecBase.
From S2P Require Import V4Base.
From S2P Require Import V4Acks.
From S2P Require Import V4Publish.
From S2P Require Import V4Subscribe.
From S2P Require Import V4Connect.
From S2P Require Import V4Packet.
From S2P Require Import FixedBitSet.
From S2P Require Import PacketIds.
From S2P Require Import V4SessionTypes.
From S2P Require Import V4State.
#[local] Open Scope Z_scope.

(** A publish in a slot has the identifier of the slot, and flow control. *)
#[global] Instance publish_tracked : TrackedPublish Publish := λ k p,
  pub_pkid p = k ∧ pub_qos p ≠ AtMostOnce.

Section Bits.
  Context {B : Type} `{FixedBitSetLaws B}.

(** ** Rules of the operations *)

Abbreviation ST := (M (MqttState B) StateError).
Implicit Types (s : MqttState B).

Lemma wp_release ids k (Q : unit → MqttState B → Prop) X s :
  ids_ok (k :: ids) (outbound_pkid_in_use s) (outbound_pkid_count s) →
  (∀ in_use count, ids_ok ids in_use count →
     Q tt (set_outbound_pkid_count count (set_outbound_pkid_in_use in_use s))) →
  wp (release_outbound_pkid k) Q X s.
Proof.
  intros Hok HQ. unfold release_outbound_pkid. apply wp_bind, wp_get.
  assert (Hk := ids_range _ _ _ Hok k ltac:(set_solver)).
  unfold packet_identifier_in_use. rewrite (ids_ok_contains _ _ _ k Hok).
  rewrite bool_decide_eq_true_2 by set_solver.
  destruct (Z.eqb_spec k 0); [lia|]. cbn [negb orb].
  assert (Hl := ids_len _ _ _ Hok). unfold full_packet_identifier_len in Hl.
  apply wp_set_bit; [lia|]. apply wp_bind, wp_modify.
  assert (Hc := ids_count _ _ _ Hok). rewrite blen_cons in Hc. pose proof (blen_nonneg ids).
  rewrite (proj2 (Z.ltb_ge _ _)) by lia. apply wp_modify. apply HQ.
  by apply ids_ok_remove.
Qed.

Lemma wp_reserve ids k (Q : unit → MqttState B → Prop) X s :
  ids_ok ids (outbound_pkid_in_use s) (outbound_pkid_count s) → 1 ≤ k ≤ u16_MAX → k ∉ ids →
  (∀ in_use count, ids_ok (k :: ids) in_use count →
     Q tt (set_outbound_pkid_count count (set_outbound_pkid_in_use in_use s))) →
  wp (reserve_outbound_pkid k) Q X s.
Proof.
  intros Hok Hk Hnew HQ. unfold reserve_outbound_pkid. apply wp_bind, wp_get.
  unfold packet_identifier_in_use. rewrite (ids_ok_contains _ _ _ k Hok).
  rewrite bool_decide_eq_false_2 by done. destruct (Z.eqb_spec k 0); [lia|]. cbn [orb].
  assert (Hl := ids_len _ _ _ Hok). unfold full_packet_identifier_len in Hl.
  unfold insert_bit. apply wp_set_bit; [lia|]. apply wp_bind, wp_modify.
  pose proof (ids_ok_insert _ _ _ k Hok Hk Hnew) as Hok'.
  pose proof (ids_ok_bound _ _ _ Hok') as Hb.
  rewrite (proj2 (Z.ltb_ge _ _)) by lia. apply wp_modify. by apply HQ.
Qed.

(** Reserving an identifier that is zero or taken fails and changes nothing. *)
Lemma wp_reserve_err ids k (Q : unit → MqttState B → Prop) (X : StateError → _ → Prop) s :
  ids_ok ids (outbound_pkid_in_use s) (outbound_pkid_count s) → k = 0 ∨ k ∈ ids →
  X InvalidState s → wp (reserve_outbound_pkid k) Q X s.
Proof.
  intros Hok Hk HX. unfold reserve_outbound_pkid. apply wp_bind, wp_get.
  unfold packet_identifier_in_use. rewrite (ids_ok_contains _ _ _ k Hok).
  destruct (Z.eqb_spec k 0); [by apply wp_fail|]. destruct Hk as [|Hk]; [done|].
  rewrite bool_decide_eq_true_2 by done. by apply wp_fail.
Qed.

(** An identifier can be allocated unless all are in use. *)
Lemma next_free_ok ids s last :
  ids_ok ids (outbound_pkid_in_use s) (outbound_pkid_count s) → is_u16 last →
  match next_free_outbound_pkid_after s last with
  | Some k => 1 ≤ k ≤ u16_MAX ∧ k ∉ ids ∧
      ∀ j, 1 ≤ j ≤ u16_MAX → circular_lt last j k → j ∈ ids
  | None => blen ids = u16_MAX ∧ ∀ j, 1 ≤ j ≤ u16_MAX → j ∈ ids
  end.
Proof. apply next_free_in_ok. Qed.
End Bits.

Section Inv.
  Context {B : Type} `{FixedBitSetLaws B}.

Abbreviation ST := (M (MqttState B) StateError).
Implicit Types (s : MqttState B) (Rp Rc : gset Z).

(** Every identifier in use, once. *)
Definition live_ids Rp Rc s : list Z :=
  outgoing_pub_order s ++ outgoing_rel_order s ++ outgoing_rel_replay_order s ++
  keys (pending_subscribe s) ++ keys (pending_unsubscribe s) ++ elements Rp ++ elements Rc.

Abbreviation state_lens s :=
  (lens_ok (outgoing_pub s) (outgoing_pub_notice s) (outgoing_rel_notice s) (outgoing_rel s)
    (outgoing_rel_replay s)).

Record inv Rp Rc s : Prop := {
  inv_max : 0 ≤ max_inflight s ≤ u16_MAX;
  inv_last : is_u16 (last_pkid s);
  inv_lens : state_lens s;
  inv_incoming : incoming_ok (incoming_puback s) (incoming_pub s) (incoming_pubrec s);
  inv_slots : slots_ok (outgoing_pub_order s) (outgoing_pub s);
  inv_rel : bits_ok (outgoing_rel_order s) (outgoing_rel s);
  inv_replay : bits_ok (outgoing_rel_replay_order s) (outgoing_rel_replay s);
  inv_ids : ids_ok (live_ids Rp Rc s) (outbound_pkid_in_use s) (outbound_pkid_count s);
  inv_sub k p : pending_subscribe s !! k = Some p →
    subscribe_pkid (ps_subscribe p) = k ∧ filters (ps_subscribe p) ≠ [];
  inv_unsub k p : pending_unsubscribe s !! k = Some p →
    unsubscribe_pkid (pu_unsubscribe p) = k ∧ topics (pu_unsubscribe p) ≠ [];
  inv_inflight : inflight s = blen (outgoing_pub_order s) + blen (outgoing_rel_order s);
  inv_window : inflight s ≤ max_inflight s;
  inv_collision p : collision s = Some p →
    (pub_pkid p ∈ outgoing_pub_order s ∨ pub_pkid p ∈ outgoing_rel_order s) ∧
    pub_qos p ≠ AtMostOnce;
  inv_reserved k : k ∈ Rp → k < blen (outgoing_pub s);
}.

(** ** Consequences *)

Lemma elem_live_ids Rp Rc s k :
  k ∈ live_ids Rp Rc s ↔
  k ∈ outgoing_pub_order s ∨ k ∈ outgoing_rel_order s ∨ k ∈ outgoing_rel_replay_order s ∨
  is_Some (pending_subscribe s !! k) ∨ is_Some (pending_unsubscribe s !! k) ∨ k ∈ Rp ∨ k ∈ Rc.
Proof. unfold live_ids. rewrite !elem_of_app, !keys_elem, !elem_of_elements. tauto. Qed.

Section Facts.
  Context Rp Rc s (I : inv Rp Rc s).

Lemma inv_in_use k : packet_identifier_in_use s k = bool_decide (k ∈ live_ids Rp Rc s).
Proof. apply (ids_ok_contains _ _ (outbound_pkid_count s)), I. Qed.

Lemma inv_orders_nodup :
  NoDup (outgoing_pub_order s) ∧ NoDup (outgoing_rel_order s) ∧
  NoDup (outgoing_rel_replay_order s).
Proof.
  pose proof (ids_nodup _ _ _ (inv_ids _ _ _ I)) as Hn. unfold live_ids in Hn.
  rewrite !NoDup_app in Hn. tauto.
Qed.

Lemma inv_pub_range k : k ∈ outgoing_pub_order s → 1 ≤ k ≤ u16_MAX ∧ k < blen (outgoing_pub s).
Proof.
  intros Hk. split.
  - apply (ids_range _ _ _ (inv_ids _ _ _ I)). rewrite elem_live_ids. tauto.
  - apply (slots_order _ _ (inv_slots _ _ _ I)) in Hk as [? [p Hp]]. by eapply vget_range.
Qed.

Lemma inv_rel_range k : k ∈ outgoing_rel_order s → 1 ≤ k ≤ u16_MAX ∧ k < blen (outgoing_pub s).
Proof.
  intros Hk. split.
  - apply (ids_range _ _ _ (inv_ids _ _ _ I)). rewrite elem_live_ids. tauto.
  - apply (bits_ok_range _ _ _ (inv_rel _ _ _ I)) in Hk.
    rewrite (len_rel _ _ _ _ _ (inv_lens _ _ _ I)) in Hk. lia.
Qed.

Lemma inv_replay_range k :
  k ∈ outgoing_rel_replay_order s → 1 ≤ k ≤ u16_MAX ∧ k < blen (outgoing_pub s).
Proof.
  intros Hk. split.
  - apply (ids_range _ _ _ (inv_ids _ _ _ I)). rewrite elem_live_ids. tauto.
  - apply (bits_ok_range _ _ _ (inv_replay _ _ _ I)) in Hk.
    rewrite (len_replay _ _ _ _ _ (inv_lens _ _ _ I)) in Hk. lia.
Qed.

Lemma inv_slot_none k :
  0 ≤ k < blen (outgoing_pub s) → k ∉ outgoing_pub_order s → vget (outgoing_pub s) k = Some None.
Proof.
  intros Hk Hno. destruct (vget_some _ _ Hk) as [[p|] Hx]; [|done].
  exfalso. apply Hno, (slots_order _ _ (inv_slots _ _ _ I)). split; [lia|eauto].
Qed.

Lemma inv_slot_some k p :
  0 ≤ k → vget (outgoing_pub s) k = Some (Some p) → k ∈ outgoing_pub_order s.
Proof. intros Hk Hx. apply (slots_order _ _ (inv_slots _ _ _ I)). split; [done|eauto]. Qed.
End Facts.

End Inv.

(** ** Frames *)

(** Prove the fields of the invariant that did not change from [I]. *)
Ltac inv_frame I :=
  constructor;
  cbn [live_ids set_ping set_last_incoming set_last_outgoing set_last_pkid set_inflight
       set_outgoing_pub set_outgoing_pub_order set_outgoing_pub_notice set_outgoing_rel
       set_outgoing_rel_order set_outgoing_rel_replay set_outgoing_rel_replay_order
       set_outgoing_rel_notice set_incoming_puback set_incoming_pub set_incoming_pubrec
       set_outbound_pkid_in_use set_outbound_pkid_count set_collision set_collision_notice
       set_pending_subscribe set_pending_unsubscribe set_events
       ping last_incoming last_outgoing last_pkid inflight max_inflight outgoing_pub
       outgoing_pub_order outgoing_pub_notice outgoing_rel outgoing_rel_order
       outgoing_rel_replay outgoing_rel_replay_order outgoing_rel_notice incoming_puback
       incoming_pub incoming_pubrec outbound_pkid_in_use outbound_pkid_count collision
       collision_notice pending_subscribe pending_unsubscribe events ack_mode];
  first [exact (inv_max _ _ _ I)|exact (inv_last _ _ _ I)|exact (inv_lens _ _ _ I)
        |exact (inv_incoming _ _ _ I)|exact (inv_slots _ _ _ I)|exact (inv_rel _ _ _ I)
        |exact (inv_replay _ _ _ I)|exact (inv_ids _ _ _ I)|exact (inv_sub _ _ _ I)
        |exact (inv_unsub _ _ _ I)|exact (inv_inflight _ _ _ I)|exact (inv_window _ _ _ I)
        |exact (inv_collision _ _ _ I)|exact (inv_reserved _ _ _ I)|idtac].

Section Frames.
  Context {B : Type} `{FixedBitSetLaws B}.

Abbreviation ST := (M (MqttState B) StateError).
Implicit Types (s : MqttState B) (Rp Rc : gset Z).
Abbreviation state_lens s :=
  (lens_ok (outgoing_pub s) (outgoing_pub_notice s) (outgoing_rel_notice s) (outgoing_rel s)
    (outgoing_rel_replay s)).

Lemma inv_set_events Rp Rc s v : inv Rp Rc s → inv Rp Rc (set_events v s).
Proof. intros I. inv_frame I. Qed.
Lemma inv_set_ping Rp Rc s v : inv Rp Rc s → inv Rp Rc (set_ping v s).
Proof. intros I. inv_frame I. Qed.
Lemma inv_set_last_incoming Rp Rc s v : inv Rp Rc s → inv Rp Rc (set_last_incoming v s).
Proof. intros I. inv_frame I. Qed.
Lemma inv_set_last_outgoing Rp Rc s v : inv Rp Rc s → inv Rp Rc (set_last_outgoing v s).
Proof. intros I. inv_frame I. Qed.
Lemma inv_set_collision_notice Rp Rc s v : inv Rp Rc s → inv Rp Rc (set_collision_notice v s).
Proof. intros I. inv_frame I. Qed.
Lemma inv_set_last_pkid Rp Rc s v : is_u16 v → inv Rp Rc s → inv Rp Rc (set_last_pkid v s).
Proof. intros Hv I. inv_frame I. done. Qed.

(** Everything but the tracking vectors. *)
Definition session_of s :=
  (ping s, (max_inflight s, inflight s), (outgoing_pub_order s, outgoing_rel_order s,
   outgoing_rel_replay_order s), (incoming_puback s, incoming_pub s, incoming_pubrec s),
   (outbound_pkid_in_use s, outbound_pkid_count s), (collision s, collision_notice s),
   (pending_subscribe s, pending_unsubscribe s), events s, ack_mode s).

(** [s'] is [s] up to the length of the tracking vectors. *)
Definition retracked s s' : Prop :=
  session_of s = session_of s' ∧
  same_slots (outgoing_pub s) (outgoing_pub s') ∧
  same_slots (outgoing_pub_notice s) (outgoing_pub_notice s') ∧
  same_slots (outgoing_rel_notice s) (outgoing_rel_notice s').

Lemma inv_retracked Rp Rc s s' :
  inv Rp Rc s → retracked s s' → state_lens s' → is_u16 (last_pkid s') →
  bits_ok (outgoing_rel_order s) (outgoing_rel s') →
  bits_ok (outgoing_rel_replay_order s) (outgoing_rel_replay s') →
  (∀ k, k ∈ Rp → k < blen (outgoing_pub s')) →
  inv Rp Rc s'.
Proof.
  intros I (Hs & Hp & _ & _) Hl Hlast Hrel Hrep Hrp.
  unfold session_of in Hs. injection Hs as Hping Hmax Hinf Hpo Hro Hrro Hpa Hip Hir Hiu Hc Hcol
    Hcn Hsub Hunsub Hev Ham.
  constructor; try done; unfold live_ids;
    rewrite <- ?Hmax, <- ?Hinf, <- ?Hpo, <- ?Hro, <- ?Hrro, <- ?Hpa, <- ?Hip, <- ?Hir, <- ?Hiu,
      <- ?Hc, <- ?Hcol, <- ?Hsub, <- ?Hunsub; try apply I; try done.
  destruct (inv_slots _ _ _ I) as [Ho Hk]. split.
  - intros k. rewrite Ho. split; intros [? [p ?]]; (split; [done|exists p]); by apply (Hp k p).
  - intros k p ? ?. apply Hk; [done|]. by apply (Hp k p).
Qed.

Lemma wp_ensure Rp Rc n (Q : unit → MqttState B → Prop) X s :
  inv Rp Rc s → n ≤ full_packet_identifier_len →
  (∀ s', inv Rp Rc s' → retracked s s' → n ≤ blen (outgoing_pub s') →
         last_pkid s' = last_pkid s → last_outgoing s' = last_outgoing s →
         last_incoming s' = last_incoming s → Q tt s') →
  wp (ensure_outgoing_tracking_capacity n) Q X s.
Proof.
  intros I Hn HQ. unfold ensure_outgoing_tracking_capacity. apply wp_modify.
  destruct (inv_lens _ _ _ I) as [Hl1 Hl2 Hl3 Hl4 Hl5].
  destruct (Z.ltb_spec (blen (outgoing_pub s)) n) as [Hlt|Hge].
  - assert (Hb : (blen (outgoing_pub s) <? n) = true) by lia.
    change (outgoing_pub_notice (set_outgoing_pub _ s)) with (outgoing_pub_notice s).
    rewrite Hl2, Hb. cbv beta iota.
    change (outgoing_rel_notice (set_outgoing_pub_notice _ _)) with (outgoing_rel_notice s).
    rewrite Hl3, Hb. cbv beta iota.
    change (outgoing_rel (set_outgoing_rel_notice _ _)) with (outgoing_rel s).
    rewrite Hl4, Hb. cbv beta iota.
    change (outgoing_rel_replay (set_outgoing_rel _ _)) with (outgoing_rel_replay s).
    rewrite Hl5, Hb.
    match goal with |- Q tt ?s' => assert (Hr : retracked s s') end.
    { split; [done|]. split_and!; apply same_slots_resize. }
    apply HQ; try done; [|cbn; rewrite blen_resize by lia; lia].
    apply (inv_retracked _ _ s); try done; cbn [outgoing_rel outgoing_rel_replay last_pkid
      outgoing_pub outgoing_pub_notice outgoing_rel_notice
      set_outgoing_pub set_outgoing_pub_notice set_outgoing_rel_notice set_outgoing_rel
      set_outgoing_rel_replay].
    + split; rewrite ?len_grow, ?blen_resize by lia; lia.
    + apply I.
    + apply bits_ok_grow, I.
    + apply bits_ok_grow, I.
    + intros k Hk%(inv_reserved _ _ _ I). rewrite blen_resize by lia. lia.
  - assert (Hb : (blen (outgoing_pub s) <? n) = false) by lia.
    rewrite Hl2, Hb. cbv beta iota. rewrite Hl3, Hb. cbv beta iota. rewrite Hl4, Hb.
    cbv beta iota. rewrite Hl5, Hb. apply HQ; try done; lia.
Qed.

(** Shrinking happens only when nothing is outstanding, so it loses nothing. *)
Lemma wp_shrink Rp Rc (Q : unit → MqttState B → Prop) X s :
  inv Rp Rc s →
  (∀ s', inv Rp Rc s' → retracked s s' → last_incoming s' = last_incoming s →
         last_outgoing s' = last_outgoing s → Q tt s') →
  wp maybe_shrink_outgoing_tracking_capacity Q X s.
Proof.
  intros I HQ. unfold maybe_shrink_outgoing_tracking_capacity. apply wp_modify.
  destruct (Z.leb_spec (blen (outgoing_pub s)) (warm_tracking_len (max_inflight s))) as [|Hlt];
    [by apply HQ|].
  destruct (outbound_requests_drained s) eqn:Hd; [|by apply HQ]. cbn [orb negb].
  unfold outbound_requests_drained in Hd. rewrite !andb_true_iff in Hd.
  destruct Hd as [[[[[[[[[[[[[_ _] _] _] _] Hpub] _] Hpn] Hrn] Hrel] Hro] Hrep] Hrro] Hcount].
  destruct (outgoing_rel_order s) as [|] eqn:Ero; [|done].
  destruct (outgoing_rel_replay_order s) as [|] eqn:Erro; [|done].
  pose proof (warm_tracking_len_range _ (inv_max _ _ _ I)) as Hw.
  destruct (inv_lens _ _ _ I) as [Hl1 Hl2 Hl3 Hl4 Hl5].
  match goal with |- Q tt ?s' => assert (Hr : retracked s s') end.
  { split; [unfold session_of; cbn; by rewrite Ero, Erro|].
    split_and!; by apply same_slots_none. }
  apply HQ; try done. apply (inv_retracked _ _ s); try done; cbn.
  - split; rewrite ?len_with_capacity, ?blen_take by lia; lia.
  - rewrite Ero. apply bits_ok_empty.
  - rewrite Erro. apply bits_ok_empty.
  - intros k Hk. exfalso. assert (Hin : k ∈ live_ids Rp Rc s) by (rewrite elem_live_ids; tauto).
    apply Z.eqb_eq in Hcount. rewrite (ids_count _ _ _ (inv_ids _ _ _ I)) in Hcount.
    apply blen_zero in Hcount. rewrite Hcount in Hin. set_solver.
Qed.
End Frames.
