(* ===== verification/V4Handlers.v ===== *)
(** Every handler of the session state preserves the invariant and cannot panic; what each
    returns and changes, on every branch. *)

From S2P Require Import Prelude.
From S2P Require Import Utf8.
From S2P Require Import Primitives.
From S2P Require Import CodecBase.
From S2P Require Import V4Base.
From S2P Require Import V4Acks.
From S2P Require Import V4Publish.
From S2P Require Import V4Subscribe.
From S2P Require Import V4Connect.
From S2P Require Import V4Packet.
From S2P Require Import FixedBitSet.
From S2P Require Import V4SessionTypes.
From S2P Require Import PacketIds.
From S2P Require Import V4State.
From S2P Require Import V4Invariant.
#[local] Open Scope Z_scope.

(** Reduce the fields of a state built by assignments. *)
Ltac fields :=
  cbn [set_ping set_last_incoming set_last_outgoing set_last_pkid set_inflight
       set_outgoing_pub set_outgoing_pub_order set_outgoing_pub_notice set_outgoing_rel
       set_outgoing_rel_order set_outgoing_rel_replay set_outgoing_rel_replay_order
       set_outgoing_rel_notice set_incoming_puback set_incoming_pub set_incoming_pubrec
       set_outbound_pkid_in_use set_outbound_pkid_count set_collision set_collision_notice
       set_pending_subscribe set_pending_unsubscribe set_events
       ping last_incoming last_outgoing last_pkid inflight max_inflight outgoing_pub
       outgoing_pub_order outgoing_pub_notice outgoing_rel outgoing_rel_order
       outgoing_rel_replay outgoing_rel_replay_order outgoing_rel_notice incoming_puback
       incoming_pub incoming_pubrec outbound_pkid_in_use outbound_pkid_count collision
       collision_notice pending_subscribe pending_unsubscribe events ack_mode] in *.

Section Handlers.
  Context {B : Type} `{FixedBitSetLaws B}.

Abbreviation ST := (M (MqttState B) StateError).
Implicit Types (s : MqttState B) (Rp Rc : gset Z).

(** ** Packet identifier bookkeeping of the lists *)

Lemma live_ids_pub_snoc Rp Rc s k :
  live_ids Rp Rc (set_outgoing_pub_order (outgoing_pub_order s ++ [k]) s) ≡ₚ
  k :: live_ids Rp Rc s.
Proof. unfold live_ids. fields. rewrite <- (assoc_L (++)). cbn [app]. by rewrite <- Permutation_middle. Qed.

Lemma live_ids_pub_remove Rp Rc s k :
  k ∈ outgoing_pub_order s →
  live_ids Rp Rc s ≡ₚ
  k :: live_ids Rp Rc (set_outgoing_pub_order (remove_ordered_pkid (outgoing_pub_order s) k) s).
Proof. intros Hk. unfold live_ids. fields. by rewrite (remove_ordered_perm _ k Hk) at 1. Qed.

Lemma live_ids_rel_remove Rp Rc s k :
  k ∈ outgoing_rel_order s →
  live_ids Rp Rc s ≡ₚ
  k :: live_ids Rp Rc (set_outgoing_rel_order (remove_ordered_pkid (outgoing_rel_order s) k) s).
Proof.
  intros Hk. unfold live_ids. fields. rewrite (remove_ordered_perm _ k Hk) at 1. cbn [app].
  by rewrite <- Permutation_middle.
Qed.

Lemma live_ids_reserved_remove Rp Rc s k :
  k ∈ Rp → live_ids Rp Rc s ≡ₚ k :: live_ids (Rp ∖ {[k]}) Rc s.
Proof.
  intros Hk. unfold live_ids. rewrite (elements_remove Rp k Hk). cbn [app].
  by rewrite !Permutation_middle.
Qed.

Lemma live_ids_control_remove Rp Rc s k :
  k ∈ Rc → live_ids Rp Rc s ≡ₚ k :: live_ids Rp (Rc ∖ {[k]}) s.
Proof.
  intros Hk. unfold live_ids. rewrite (elements_remove Rc k Hk).
  by rewrite !Permutation_middle.
Qed.

(** ** Tracking a publish *)

(** The state with the publish in its slot. *)
Definition tracked_state s (p : Publish) (notice : option nat) : MqttState B :=
  set_inflight (inflight s + 1)
    (set_outgoing_pub_notice (vset (outgoing_pub_notice s) (pub_pkid p) notice)
      (set_outgoing_pub_order (outgoing_pub_order s ++ [pub_pkid p])
        (set_outgoing_pub (vset (outgoing_pub s) (pub_pkid p) (Some p)) s))).

(** [s] is a state of the invariant but for the identifier of [p], which has just been taken
    for it. *)
Lemma wp_track_publish Rp Rp' Rc in_use0 count0 s p notice Q X :
  inv Rp Rc (set_outbound_pkid_count count0 (set_outbound_pkid_in_use in_use0 s)) →
  Rp' ⊆ Rp →
  ids_ok (pub_pkid p :: live_ids Rp' Rc s) (outbound_pkid_in_use s) (outbound_pkid_count s) →
  pub_qos p ≠ AtMostOnce → pub_pkid p < blen (outgoing_pub s) →
  pub_pkid p ∉ outgoing_pub_order s → inflight s < max_inflight s →
  (inv Rp' Rc (tracked_state s p notice) → Q tt (tracked_state s p notice)) →
  wp (track_publish p notice) Q X s.
Proof.
  intros I Hsub Hids Hq Hlen Hnew Hinf HQ. set (k := pub_pkid p) in *.
  assert (Hk := ids_range _ _ _ Hids k ltac:(set_solver)).
  destruct (inv_lens _ _ _ I) as [Hl1 Hl2 Hl3 Hl4 Hl5]. fields.
  unfold track_publish. apply wp_bind, wp_get. apply wp_assign; [lia|].
  apply wp_bind, wp_modify, wp_bind, wp_modify, wp_bind, wp_get. fields.
  apply wp_assign; [lia|]. apply wp_bind, wp_modify.
  unfold inflight_incr. apply wp_bind, wp_get. fields.
  pose proof (inv_max _ _ _ I) as Hmax. fields.
  rewrite (proj2 (Z.ltb_ge _ _)) by lia. apply wp_modify. apply HQ.
  unfold tracked_state. fold k.
  assert (Hfree : vget (outgoing_pub s) k = Some None).
  { apply (inv_slot_none _ _ _ I); [fields; lia|done]. }
  inv_frame I.
  - split; rewrite ?blen_vset; done.
  - apply slots_ok_put; try done; try lia. apply I.
  - rewrite (live_ids_pub_snoc Rp' Rc s k). done.
  - rewrite blen_app, blen_cons, blen_nil. pose proof (inv_inflight _ _ _ I). fields. lia.
  - lia.
  - intros q Hcol. destruct (inv_collision _ _ _ I q Hcol) as [Hin ?]. fields. set_solver.
  - intros j Hj. rewrite blen_vset. apply (inv_reserved _ _ _ I). set_solver.
Qed.

(** ** Flows

    What a state says about the flows of the session, leaving out timers, capacities and the
    identifiers in use, which the invariant determines. *)
Definition flows_of s :=
  ((outgoing_pub_order s, outgoing_rel_order s, outgoing_rel_replay_order s),
   (incoming_puback s, incoming_pub s, incoming_pubrec s),
   (pending_subscribe s, pending_unsubscribe s), (collision s, collision_notice s),
   inflight s, max_inflight s, ack_mode s).

Lemma retracked_flows s s' : retracked s s' → flows_of s' = flows_of s ∧ events s' = events s.
Proof.
  intros [Hs _]. unfold session_of in Hs. injection Hs as ? ? ? ? ? ? ? ? ? ? ? ? ? ? ? ? ?.
  unfold flows_of. split; congruence.
Qed.

Lemma retracked_slot s s' k p :
  retracked s s' → 0 ≤ k →
  vget (outgoing_pub s) k = Some (Some p) ↔ vget (outgoing_pub s') k = Some (Some p).
Proof. intros (_ & Hp & _). apply Hp. Qed.

Lemma retracked_live_ids Rp Rc s s' : retracked s s' → live_ids Rp Rc s' = live_ids Rp Rc s.
Proof.
  intros [Hs _]. unfold session_of in Hs. injection Hs as ? ? ? ? ? ? ? ? ? ? ? ? ? ? ? ? ?.
  unfold live_ids. congruence.
Qed.

Lemma wp_expect_ok {A} (m : ST A) Q X s :
  wp m Q (λ _ _, False) s → wp (expect_ok m) Q X s.
Proof. unfold wp, expect_ok. by destruct (m s) as [[] ?]. Qed.

(** ** The end of a publish flow

    [s] is the state after the flow of [k] has been removed from the lists: the invariant
    would hold of it but for the count of publishes in flight and for a publish held back
    because of [k]. *)

Definition finished s (k : Z) (packet : option Packet) s' : Prop :=
  match collision s with
  | Some p =>
      if pub_pkid p =? k then
        packet = Some (P_Publish p) ∧
        flows_of s' = flows_of (set_outgoing_pub_order (outgoing_pub_order s ++ [k])
                        (set_collision None (set_collision_notice None s))) ∧
        events s' = events s ++ [Ev_Outgoing (O_Publish k)] ∧
        vget (outgoing_pub s') k = Some (Some p) ∧
        (∀ j q, j ≠ k → 0 ≤ j → vget (outgoing_pub s') j = Some (Some q) ↔
                               vget (outgoing_pub s) j = Some (Some q))
      else
        packet = None ∧ retracked (set_inflight (inflight s - 1) s) s'
  | None => packet = None ∧ retracked (set_inflight (inflight s - 1) s) s'
  end.

Lemma wp_finish_publish Rp Rc s k notice result Q X :
  inv Rp Rc (set_collision None (set_inflight (inflight s - 1) s)) →
  1 ≤ k ≤ u16_MAX → k ∉ live_ids Rp Rc s → inflight s ≤ max_inflight s →
  (∀ p, collision s = Some p →
     (pub_pkid p = k ∨ pub_pkid p ∈ outgoing_pub_order s ∨ pub_pkid p ∈ outgoing_rel_order s) ∧
     pub_qos p ≠ AtMostOnce) →
  (∀ packet s', inv Rp Rc s' → finished s k packet s' →
     Q (match notice with
        | Some tx => with_notice (effects_outgoing packet) (DN_Publish tx result)
        | None => effects_outgoing packet
        end) s') →
  wp (finish_publish k notice result) Q X s.
Proof.
  intros I Hk Hfree Hwin Hcol HQ. unfold finish_publish.
  pose proof (inv_inflight _ _ _ I) as Hinf. fields.
  pose proof (blen_nonneg (outgoing_pub_order s)). pose proof (blen_nonneg (outgoing_rel_order s)).
  apply wp_bind. unfold inflight_decr. apply wp_bind, wp_get.
  rewrite (proj2 (Z.ltb_ge _ _)) by lia. apply wp_modify. set (s1 := set_inflight _ s) in *.
  apply wp_bind. unfold replay_collision_publish, check_collision.
  assert (Hnone : (∀ p, collision s = Some p → pub_pkid p ≠ k) → inv Rp Rc s1).
  { intros Hne. inv_frame I. intros p Hp. destruct (Hcol p Hp) as [[Heq|?] ?]; [|done].
    by destruct (Hne p Hp). }
  assert (Hshrink : inv Rp Rc s1 →
    (∀ s', retracked s1 s' → finished s k None s') →
    wp (u ← (if is_none (None : option Packet) then maybe_shrink_outgoing_tracking_capacity
             else mret tt); let _ : unit := u in
        let effects := effects_outgoing None in
        mret (match notice with
              | Some tx => with_notice effects (DN_Publish tx result)
              | None => effects end)) Q X s1).
  { intros I1 Hfin. apply wp_bind. cbn [is_none]. apply (wp_shrink Rp Rc); [done|].
    intros s' I' Hr _ _. apply wp_ret. by apply HQ, Hfin. }
  apply wp_bind, wp_bind, wp_get. unfold s1 at 1. fields. unfold finished in HQ, Hshrink.
  destruct (collision s) as [p|] eqn:Hc; [|apply wp_ret, wp_ret, Hshrink; [by apply Hnone|done]].
  destruct (Z.eqb_spec (pub_pkid p) k) as [Hpk|Hne].
  2: { apply wp_ret, wp_ret, Hshrink; [|done]. apply Hnone. by intros ? [= <-]. }
  apply wp_bind, wp_modify, wp_bind, wp_modify, wp_ret.
  set (s2 := set_collision_notice None (set_collision None s1)).
  assert (I2 : inv Rp Rc s2) by (by apply inv_set_collision_notice).
  apply wp_bind, (wp_ensure Rp Rc); [done|unfold full_packet_identifier_len; lia|].
  intros s3 I3 Hr3 Hlen3 _ _ _.
  destruct (retracked_flows _ _ Hr3) as [Hf3 He3].
  unfold flows_of in Hf3. injection Hf3 as Hpo Hro Hrro Hpa Hip Hir Hsub Hunsub Hcol3 Hcn Hif Hm Ham.
  unfold s2, s1 in Hpo, Hro, Hif, Hm, Hcol3, Hcn, He3. fields.
  assert (Hfree3 : k ∉ live_ids Rp Rc s3) by (by rewrite (retracked_live_ids _ _ _ _ Hr3)).
  assert (Hnew : k ∉ outgoing_pub_order s3)
    by (intros Hin; apply Hfree3; rewrite elem_live_ids; tauto).
  apply wp_bind, wp_expect_ok. rewrite Hpk.
  apply (wp_reserve (live_ids Rp Rc s3)); [apply I3|lia|done|].
  intros in_use count Hids. rewrite <- Hpk in Hids, Hnew.
  apply wp_bind. eapply (wp_track_publish Rp Rp Rc (outbound_pkid_in_use s3)
    (outbound_pkid_count s3)); try done; fields; try lia.
  { inv_frame I3. }
  { by apply Hcol. }
  intros I4. set (s4 := tracked_state _ p _) in *.
  apply wp_bind, wp_modify, wp_bind, wp_modify, wp_ret. cbn [is_none].
  apply wp_bind, wp_ret, wp_ret, HQ; [by apply inv_set_ping, inv_set_events|].
  split; [done|]. unfold flows_of, s4, tracked_state. rewrite Hpk in *. fields.
  rewrite Hpo, Hro, Hrro, Hpa, Hip, Hir, Hsub, Hunsub, Hcol3, Hcn, Hif, Hm, Ham, He3.
  split; [unfold s2, s1; fields; repeat f_equal; lia|]. split; [done|].
  split.
  - rewrite vget_vset, Z.eqb_refl by lia. done.
  - intros j q Hj Hj0. rewrite vget_vset by lia.
    rewrite (proj2 (Z.eqb_neq k j)) by done. symmetry. by apply (retracked_slot s2 s3 j q Hr3).
Qed.

(** ** Acknowledgements of publishes *)

(** Taking the publish out of its slot. *)
Lemma wp_take_publish Rp Rc s k (Q : unit → MqttState B → Prop) (X : StateError → _ → Prop) :
  inv Rp Rc s → is_u16 k →
  (k ∉ outgoing_pub_order s → X (Unsolicited k) s) →
  (∀ p, k ∈ outgoing_pub_order s → vget (outgoing_pub s) k = Some (Some p) → publish_ok k p →
     Q tt (set_outgoing_pub (vset (outgoing_pub s) k None) s)) →
  wp (take_publish k) Q X s.
Proof.
  intros I [Hk0 _] HX HQ. unfold take_publish. apply wp_bind, wp_get, wp_bind, wp_lift.
  pose proof (slots_order _ _ (inv_slots _ _ _ I) k) as Ho.
  destruct (vget (outgoing_pub s) k) as [[p|]|] eqn:Hs; cbn [ok_or].
  - apply wp_bind, wp_modify. cbn [is_none]. apply wp_ret, (HQ p); try done.
    + apply Ho. eauto.
    + by apply (slots_publish _ _ (inv_slots _ _ _ I)).
  - apply wp_bind, wp_modify. cbn [is_none]. apply wp_fail. rewrite (vset_id _ _ _ Hs).
    replace (set_outgoing_pub (outgoing_pub s) s) with s by (by destruct s).
    apply HX. rewrite Ho. naive_solver.
  - apply HX. rewrite Ho. naive_solver.
Qed.

Lemma wp_take_pub_notice {A} s k (c : option nat → ST A) Q X :
  0 ≤ k < blen (outgoing_pub_notice s) →
  (∀ notice, vget (outgoing_pub_notice s) k = Some notice →
     wp (c notice) Q X
       (set_outgoing_pub_notice (vset (outgoing_pub_notice s) k None) s)) →
  wp (take_pub_notice k ≫= c) Q X s.
Proof.
  intros Hk HQ. apply wp_bind. unfold take_pub_notice. apply wp_bind, wp_get.
  apply wp_index; [done|]. intros notice Hn. apply wp_bind, wp_modify, wp_ret. by apply HQ.
Qed.

Lemma wp_take_rel_notice {A} s k (c : option nat → ST A) Q X :
  0 ≤ k < blen (outgoing_rel_notice s) →
  (∀ notice, vget (outgoing_rel_notice s) k = Some notice →
     wp (c notice) Q X
       (set_outgoing_rel_notice (vset (outgoing_rel_notice s) k None) s)) →
  wp (take_rel_notice k ≫= c) Q X s.
Proof.
  intros Hk HQ. apply wp_bind. unfold take_rel_notice. apply wp_bind, wp_get.
  apply wp_index; [done|]. intros notice Hn. apply wp_bind, wp_modify, wp_ret. by apply HQ.
Qed.

(** What completing a flow returns: the publish held back because of it, if any, and the
    notice of the flow. *)
Definition completion (packet : option Packet) (notice : option nat) (result : PublishResult)
  : IncomingPacketEffects :=
  match notice with
  | Some tx => with_notice (effects_outgoing packet) (DN_Publish tx result)
  | None => effects_outgoing packet
  end.

(** The publish [k] is gone, and nothing else has changed. *)
Definition pub_removed s (k : Z) s1 : Prop :=
  flows_of s1 =
    flows_of (set_outgoing_pub_order (remove_ordered_pkid (outgoing_pub_order s) k) s) ∧
  events s1 = events s ∧
  ∀ j q, 0 ≤ j → vget (outgoing_pub s1) j = Some (Some q) ↔
                 j ≠ k ∧ vget (outgoing_pub s) j = Some (Some q).

Lemma wp_handle_incoming_puback Rp Rc s k :
  inv Rp Rc s → is_u16 k →
  wp (handle_incoming_puback {| puback_pkid := k |})
    (λ eff s', k ∈ outgoing_pub_order s ∧ inv Rp Rc s' ∧
       ∃ notice packet s1, vget (outgoing_pub_notice s) k = Some notice ∧
         eff = completion packet notice (Qos1 {| puback_pkid := k |}) ∧
         pub_removed s k s1 ∧ finished s1 k packet s')
    (λ e s', k ∉ outgoing_pub_order s ∧ e = Unsolicited k ∧ s' = s) s.
Proof.
  intros I Hk16. unfold handle_incoming_puback. cbn [puback_pkid].
  apply wp_bind, (wp_take_publish Rp Rc); [done..|]. intros p Hk Hslot _.
  destruct (inv_pub_range _ _ _ I k Hk) as [Hk1 Hlen].
  destruct (inv_lens _ _ _ I) as [Hl1 Hl2 Hl3 Hl4 Hl5].
  destruct (inv_orders_nodup _ _ _ I) as [Hnd _].
  pose proof (live_ids_pub_remove Rp Rc s k Hk) as Hperm.
  set (s1 := set_outgoing_pub_order _ s) in Hperm.
  apply wp_bind, (wp_release (live_ids Rp Rc s1)).
  { fields. rewrite <- Hperm. apply I. }
  intros in_use count Hids. apply wp_bind, wp_modify. fields.
  apply wp_take_pub_notice; [fields; lia|]. intros notice Hn. fields.
  assert (Hfree : k ∉ live_ids Rp Rc s1).
  { pose proof (ids_nodup _ _ _ (inv_ids _ _ _ I)) as Hnd'. rewrite Hperm in Hnd'.
    by apply NoDup_cons in Hnd' as [? _]. }
  eapply (wp_finish_publish Rp Rc); try done; try apply I.
  - pose proof (inv_inflight _ _ _ I). pose proof (inv_window _ _ _ I).
    pose proof (remove_ordered_perm _ _ Hk) as Hp. apply blen_perm in Hp. rewrite blen_cons in Hp.
    inv_frame I.
    + split; rewrite ?blen_vset; done.
    + apply slots_ok_take; [apply I|done..].
    + exact Hids.
    + lia.
    + lia.
    + done.
    + rewrite blen_vset. apply I.
  - fields. intros q Hq. destruct (inv_collision _ _ _ I q Hq) as [[Hin|Hin] ?]; [|tauto].
    split; [|done]. destruct (decide (pub_pkid q = k)); [tauto|].
    right. left. by rewrite remove_ordered_elem.
  - intros packet s' I' Hfin. split; [done|]. split; [done|]. exists notice, packet.
    eexists. split; [done|]. split; [done|]. split; [|exact Hfin].
    split; [done|]. split; [done|]. intros j q Hj. fields. rewrite vget_vset by lia.
    destruct (Z.eqb_spec k j); naive_solver.
Qed.

(** PUBREC moves the identifier from the publishes to the releases. *)
Definition recorded s (k : Z) s' : Prop :=
  flows_of s' =
    flows_of (set_outgoing_pub_order (remove_ordered_pkid (outgoing_pub_order s) k)
      (set_outgoing_rel_order (outgoing_rel_order s ++ [k]) s)) ∧
  events s' = events s ++ [Ev_Outgoing (O_PubRel k)] ∧
  ∀ j q, 0 ≤ j → vget (outgoing_pub s') j = Some (Some q) ↔
                 j ≠ k ∧ vget (outgoing_pub s) j = Some (Some q).

Lemma wp_handle_incoming_pubrec Rp Rc s k :
  inv Rp Rc s → is_u16 k →
  wp (handle_incoming_pubrec {| pubrec_pkid := k |})
    (λ eff s', k ∈ outgoing_pub_order s ∧ inv Rp Rc s' ∧
       eff = effects_outgoing (Some (P_PubRel {| pubrel_pkid := k |})) ∧
       recorded s k s' ∧ vget (outgoing_rel_notice s') k = vget (outgoing_pub_notice s) k)
    (λ e s', k ∉ outgoing_pub_order s ∧ e = Unsolicited k ∧ s' = s) s.
Proof.
  intros I Hk16. unfold handle_incoming_pubrec. cbn [pubrec_pkid].
  apply wp_bind, (wp_take_publish Rp Rc); [done..|]. intros p Hk Hslot _.
  destruct (inv_pub_range _ _ _ I k Hk) as [Hk1 Hlen].
  destruct (inv_lens _ _ _ I) as [Hl1 Hl2 Hl3 Hl4 Hl5].
  destruct (inv_orders_nodup _ _ _ I) as [Hnd _].
  apply wp_take_pub_notice; [fields; lia|]. intros notice Hn. fields.
  apply wp_bind, wp_get. fields. apply wp_set_bit; [lia|].
  apply wp_bind, wp_modify, wp_bind, wp_modify, wp_bind, wp_modify, wp_bind, wp_get. fields.
  apply wp_assign; [lia|]. apply wp_bind, wp_modify, wp_bind, wp_modify, wp_ret.
  pose proof (remove_ordered_perm _ _ Hk) as Hp. pose proof (blen_perm _ _ Hp) as Hlp.
  rewrite blen_cons in Hlp. pose proof (inv_inflight _ _ _ I).
  split; [done|]. split; [|split; [done|split]].
  - inv_frame I.
    + split; rewrite ?blen_vset, ?len_put_bit; done.
    + apply slots_ok_take; [apply I|done..].
    + apply bits_ok_insert; [apply I|lia].
    + assert (live_ids Rp Rc s ≡ₚ live_ids Rp Rc (set_outgoing_pub_order
        (remove_ordered_pkid (outgoing_pub_order s) k)
        (set_outgoing_rel_order (outgoing_rel_order s ++ [k]) s))) as Hl.
      { unfold live_ids. fields. rewrite Hp at 1. cbn [app].
        rewrite <- (assoc_L (++) (outgoing_rel_order s)). cbn [app].
        by rewrite <- !Permutation_middle. }
      pose proof (inv_ids _ _ _ I) as Hi. rewrite Hl in Hi. exact Hi.
    + rewrite blen_app, blen_cons, blen_nil. lia.
    + intros q Hq. destruct (inv_collision _ _ _ I q Hq) as [Hin ?]. split; [|done].
      rewrite remove_ordered_elem by done. destruct (decide (pub_pkid q = k)); set_solver.
    + rewrite blen_vset. apply I.
  - split; [done|]. split; [done|]. intros j q Hj. fields. rewrite vget_vset by lia.
    destruct (Z.eqb_spec k j); naive_solver.
  - fields. by rewrite vget_vset, Z.eqb_refl, Hn by lia.
Qed.

(** The release [k] is gone, and nothing else has changed. *)
Definition rel_removed s (k : Z) s1 : Prop :=
  flows_of s1 =
    flows_of (set_outgoing_rel_order (remove_ordered_pkid (outgoing_rel_order s) k) s) ∧
  events s1 = events s ∧ outgoing_pub s1 = outgoing_pub s.

Lemma wp_handle_incoming_pubcomp Rp Rc s k :
  inv Rp Rc s → is_u16 k →
  wp (handle_incoming_pubcomp {| pubcomp_pkid := k |})
    (λ eff s', k ∈ outgoing_rel_order s ∧ inv Rp Rc s' ∧
       ∃ notice packet s1, vget (outgoing_rel_notice s) k = Some notice ∧
         eff = completion packet notice (Qos2Completed {| pubcomp_pkid := k |}) ∧
         rel_removed s k s1 ∧ finished s1 k packet s')
    (λ e s', k ∉ outgoing_rel_order s ∧ e = Unsolicited k ∧ s' = s) s.
Proof.
  intros I Hk16. unfold handle_incoming_pubcomp. cbn [pubcomp_pkid].
  apply wp_bind, wp_get. pose proof (inv_rel _ _ _ I k) as Hrk.
  destruct (contains (outgoing_rel s) k) eqn:Hc; cbn [negb].
  2: { apply wp_fail. split_and!; try done. by rewrite <- Hrk. }
  assert (Hk : k ∈ outgoing_rel_order s) by (by apply Hrk).
  destruct (inv_rel_range _ _ _ I k Hk) as [Hk1 Hlen].
  destruct (inv_lens _ _ _ I) as [Hl1 Hl2 Hl3 Hl4 Hl5].
  destruct (inv_orders_nodup _ _ _ I) as (_ & Hnd & _).
  pose proof (live_ids_rel_remove Rp Rc s k Hk) as Hperm.
  set (s1 := set_outgoing_rel_order _ s) in Hperm.
  apply wp_set_bit; [lia|]. apply wp_bind, wp_modify, wp_bind, wp_modify.
  apply wp_bind, (wp_release (live_ids Rp Rc s1)).
  { fields. rewrite <- Hperm. apply I. }
  intros in_use count Hids. fields.
  apply wp_take_rel_notice; [fields; lia|]. intros notice Hn. fields.
  assert (Hfree : k ∉ live_ids Rp Rc s1).
  { pose proof (ids_nodup _ _ _ (inv_ids _ _ _ I)) as Hnd'. rewrite Hperm in Hnd'.
    by apply NoDup_cons in Hnd' as [? _]. }
  eapply (wp_finish_publish Rp Rc); try done; try apply I.
  - pose proof (inv_inflight _ _ _ I). pose proof (inv_window _ _ _ I).
    pose proof (remove_ordered_perm _ _ Hk) as Hp. apply blen_perm in Hp. rewrite blen_cons in Hp.
    inv_frame I.
    + split; rewrite ?blen_vset, ?len_put_bit; done.
    + apply bits_ok_remove; [apply I|done..].
    + exact Hids.
    + lia.
    + lia.
    + done.
  - fields. intros q Hq. destruct (inv_collision _ _ _ I q Hq) as [[Hin|Hin] ?]; [tauto|].
    split; [|done]. destruct (decide (pub_pkid q = k)); [tauto|].
    right. right. by rewrite remove_ordered_elem.
  - intros packet s' I' Hfin. split; [done|]. split; [done|]. exists notice, packet.
    eexists. split; [done|]. split; [done|]. split; [|exact Hfin]. done.
Qed.

(** ** Subscription acknowledgements *)

Lemma live_ids_sub_delete Rp Rc s k x :
  pending_subscribe s !! k = Some x →
  live_ids Rp Rc s ≡ₚ
  k :: live_ids Rp Rc (set_pending_subscribe (delete k (pending_subscribe s)) s).
Proof.
  intros Hk. unfold live_ids. fields. rewrite (keys_delete _ k x Hk). cbn [app].
  by rewrite <- !Permutation_middle.
Qed.

Lemma live_ids_unsub_delete Rp Rc s k x :
  pending_unsubscribe s !! k = Some x →
  live_ids Rp Rc s ≡ₚ
  k :: live_ids Rp Rc (set_pending_unsubscribe (delete k (pending_unsubscribe s)) s).
Proof.
  intros Hk. unfold live_ids. fields. rewrite (keys_delete _ k x Hk). cbn [app].
  by rewrite <- !Permutation_middle.
Qed.

Lemma wp_handle_incoming_suback Rp Rc s ack :
  inv Rp Rc s →
  let k := suback_pkid ack in
  wp (handle_incoming_suback ack)
    (λ eff s', inv Rp Rc s' ∧ ∃ p, pending_subscribe s !! k = Some p ∧
       blen (filters (ps_subscribe p)) = blen (return_codes ack) ∧
       flows_of s' = flows_of (set_pending_subscribe (delete k (pending_subscribe s)) s) ∧
       events s' = events s ∧ eff_outgoing eff = None ∧
       eff_notices eff = (match ps_notice p with Some n => [DN_Subscribe n ack] | None => [] end))
    (λ e s', s' = s ∧
       match pending_subscribe s !! k with
       | None => e = Unsolicited k
       | Some p => ∃ expected actual, expected ≠ actual ∧
           e = SE_ProtocolViolation (SubAckReturnCodeCountMismatch k expected actual)
       end) s.
Proof.
  intros I k. unfold handle_incoming_suback. fold k. apply wp_bind, wp_get.
  destruct (pending_subscribe s !! k) as [p|] eqn:Hp; [|by apply wp_fail].
  destruct (Z.eqb_spec (blen (filters (ps_subscribe p))) (blen (return_codes ack))); cbn [negb].
  2: { apply wp_fail. eauto. }
  pose proof (live_ids_sub_delete Rp Rc s k p Hp) as Hperm.
  apply wp_bind, wp_modify. set (s1 := set_pending_subscribe _ s) in *.
  apply wp_bind, (wp_release (live_ids Rp Rc s1)).
  { rewrite <- Hperm. apply I. }
  intros in_use count Hids. apply wp_ret. split.
  - inv_frame I; [exact Hids|]. unfold s1. fields. intros j q Hj.
    apply lookup_delete_Some in Hj as [_ Hj]. by apply (inv_sub _ _ _ I).
  - exists p. split_and!; try done; by destruct (ps_notice p).
Qed.

Lemma wp_handle_incoming_unsuback Rp Rc s ack :
  inv Rp Rc s →
  let k := unsuback_pkid ack in
  wp (handle_incoming_unsuback ack)
    (λ eff s', inv Rp Rc s' ∧ ∃ p, pending_unsubscribe s !! k = Some p ∧
       flows_of s' = flows_of (set_pending_unsubscribe (delete k (pending_unsubscribe s)) s) ∧
       events s' = events s ∧ eff_outgoing eff = None ∧
       eff_notices eff = (match pu_notice p with Some n => [DN_Unsubscribe n ack] | None => [] end))
    (λ e s', s' = s ∧ pending_unsubscribe s !! k = None ∧ e = Unsolicited k) s.
Proof.
  intros I k. unfold handle_incoming_unsuback. fold k. apply wp_bind, wp_get.
  destruct (pending_unsubscribe s !! k) as [p|] eqn:Hp; [|by apply wp_fail].
  pose proof (live_ids_unsub_delete Rp Rc s k p Hp) as Hperm.
  apply wp_bind, wp_modify. set (s1 := set_pending_unsubscribe _ s) in *.
  apply wp_bind, (wp_release (live_ids Rp Rc s1)).
  { rewrite <- Hperm. apply I. }
  intros in_use count Hids. apply wp_ret. split.
  - inv_frame I; [exact Hids|]. unfold s1. fields. intros j q Hj.
    apply lookup_delete_Some in Hj as [_ Hj]. by apply (inv_unsub _ _ _ I).
  - exists p. split_and!; try done; by destruct (pu_notice p).
Qed.

(** ** The receiving side *)

Lemma inv_set_incoming Rp Rc s pa ip ir :
  inv Rp Rc s → incoming_ok pa ip ir →
  inv Rp Rc (set_incoming_puback pa (set_incoming_pub ip (set_incoming_pubrec ir s))).
Proof. intros I Hok. inv_frame I. done. Qed.

(** [s] with another receiving side and one more event. *)
Definition receiving s (pa ip ir : B) (o : Outgoing) : MqttState B :=
  set_events (events s ++ [Ev_Outgoing o])
    (set_incoming_puback pa (set_incoming_pub ip (set_incoming_pubrec ir s))).

Lemma inv_receiving Rp Rc s pa ip ir o :
  inv Rp Rc s → incoming_ok pa ip ir → inv Rp Rc (receiving s pa ip ir o).
Proof. intros. by apply inv_set_events, inv_set_incoming. Qed.

Lemma wp_outgoing_puback Rp Rc s k :
  inv Rp Rc s → is_u16 k →
  wp (outgoing_puback {| puback_pkid := k |})
    (λ packet s', contains (incoming_puback s) k = true ∧
       packet = P_PubAck {| puback_pkid := k |} ∧
       s' = receiving s (put_bit (incoming_puback s) k false) (incoming_pub s)
              (incoming_pubrec s) (O_PubAck k) ∧ inv Rp Rc s')
    (λ e s', contains (incoming_puback s) k = false ∧ e = Unsolicited k ∧ s' = s) s.
Proof.
  intros I Hk. unfold outgoing_puback. cbn [puback_pkid]. apply wp_bind, wp_get.
  destruct (contains (incoming_puback s) k) eqn:Hc; cbn [negb]; [|by apply wp_fail].
  apply wp_set_bit; [by apply contains_range|]. apply wp_bind, wp_modify, wp_bind, wp_modify.
  apply wp_ret. split_and!; [done..|by destruct s|].
  apply inv_set_events. inv_frame I. apply incoming_ok_puback, I.
Qed.

Lemma wp_outgoing_pubrec Rp Rc s k allow_duplicate :
  inv Rp Rc s → is_u16 k →
  wp (outgoing_pubrec_internal {| pubrec_pkid := k |} allow_duplicate)
    (λ packet s', contains (incoming_pub s) k = true ∧
       (contains (incoming_pubrec s) k = true → allow_duplicate = true) ∧
       packet = P_PubRec {| pubrec_pkid := k |} ∧
       s' = receiving s (incoming_puback s) (incoming_pub s)
              (if contains (incoming_pubrec s) k then incoming_pubrec s
               else put_bit (incoming_pubrec s) k true) (O_PubRec k) ∧ inv Rp Rc s')
    (λ e s', e = Unsolicited k ∧ s' = s ∧
       (contains (incoming_pub s) k = false ∨
        contains (incoming_pubrec s) k = true ∧ allow_duplicate = false)) s.
Proof.
  intros I Hk. unfold outgoing_pubrec_internal. cbn [pubrec_pkid]. apply wp_bind, wp_get.
  pose proof (inv_incoming _ _ _ I) as Hin.
  destruct (contains (incoming_pub s) k) eqn:Hc; cbn [negb]; [|apply wp_fail; by auto].
  destruct (contains (incoming_pubrec s) k) eqn:Hr.
  - destruct allow_duplicate; [|apply wp_fail; by auto].
    apply wp_bind, wp_modify, wp_ret. split_and!; [done..|by destruct s|by apply inv_set_events].
  - apply wp_set_bit.
    { rewrite (len_irec _ _ _ Hin). unfold is_u16, full_packet_identifier_len, u16_MAX in *. lia. }
    apply wp_bind, wp_modify, wp_bind, wp_modify, wp_ret.
    split_and!; [done..|by destruct s|]. apply inv_set_events. inv_frame I.
    by apply incoming_ok_pubrec.
Qed.

(** What an incoming publish is answered with: nothing at QoS 0, PUBACK or PUBREC in automatic
    mode, PUBREC again for a publish already recorded, otherwise nothing yet. *)
Definition publish_reply s (p : Publish) : option Packet :=
  match pub_qos p with
  | AtMostOnce => None
  | AtLeastOnce => if decide (ack_mode s = Automatic)
                   then Some (P_PubAck {| puback_pkid := pub_pkid p |}) else None
  | ExactlyOnce => if bool_decide (ack_mode s = Automatic) || contains (incoming_pubrec s) (pub_pkid p)
                   then Some (P_PubRec {| pubrec_pkid := pub_pkid p |}) else None
  end.

(** The state after an incoming publish. *)
Definition published_state s (p : Publish) : MqttState B :=
  let k := pub_pkid p in
  match pub_qos p with
  | AtMostOnce => s
  | AtLeastOnce =>
      if decide (ack_mode s = Automatic)
      then receiving s (put_bit (put_bit (incoming_puback s) k true) k false) (incoming_pub s)
             (incoming_pubrec s) (O_PubAck k)
      else set_incoming_puback (put_bit (incoming_puback s) k true) s
  | ExactlyOnce =>
      if bool_decide (ack_mode s = Automatic) || contains (incoming_pubrec s) k
      then receiving s (incoming_puback s) (put_bit (incoming_pub s) k true)
             (if contains (incoming_pubrec s) k then incoming_pubrec s
              else put_bit (incoming_pubrec s) k true) (O_PubRec k)
      else set_incoming_pub (put_bit (incoming_pub s) k true) s
  end.

Lemma wp_handle_incoming_publish Rp Rc s p :
  inv Rp Rc s → is_u16 (pub_pkid p) →
  wp (handle_incoming_publish p)
    (λ eff s', inv Rp Rc s' ∧ eff = effects_outgoing (publish_reply s p) ∧
       s' = published_state s p) (λ _ _, False) s.
Proof.
  intros I Hk. destruct (inv_incoming _ _ _ I) as [Hl1 Hl2 Hl3 Hsub].
  assert (Hr : 0 ≤ pub_pkid p < full_packet_identifier_len)
    by (unfold is_u16, full_packet_identifier_len, u16_MAX in *; lia).
  unfold handle_incoming_publish, publish_reply, published_state.
  destruct (pub_qos p); [by apply wp_ret|..]; apply wp_bind, wp_get;
    (apply wp_set_bit; [by rewrite ?Hl1, ?Hl2|]); apply wp_bind, wp_modify.
  - assert (I1 : inv Rp Rc (set_incoming_puback (put_bit (incoming_puback s) (pub_pkid p) true) s)).
    { inv_frame I. apply incoming_ok_puback, I. }
    case_decide; [|by apply wp_ret].
    apply wp_bind. eapply wp_mono; [by apply (wp_outgoing_puback Rp Rc)| |].
    + by intros packet s' (_ & -> & -> & I').
    + intros e s' (Hc & _). fields. by rewrite contains_put_bit, Z.eqb_refl in Hc by lia.
  - assert (I1 : inv Rp Rc (set_incoming_pub (put_bit (incoming_pub s) (pub_pkid p) true) s)).
    { inv_frame I. apply incoming_ok_pub; [apply I|done]. }
    destruct (bool_decide _ || _); [|by apply wp_ret].
    apply wp_bind. eapply wp_mono; [by apply (wp_outgoing_pubrec Rp Rc)| |].
    + by intros packet s' (_ & _ & -> & -> & I').
    + intros e s' (_ & _ & [Hc|[_ ?]]); [|done]. fields.
      by rewrite contains_put_bit, Z.eqb_refl in Hc by lia.
Qed.

Lemma wp_handle_incoming_pubrel Rp Rc s k :
  inv Rp Rc s → is_u16 k →
  wp (handle_incoming_pubrel {| pubrel_pkid := k |})
    (λ packet s', inv Rp Rc s' ∧ packet = Some (P_PubComp {| pubcomp_pkid := k |}) ∧
       (contains (incoming_pub s) k = true → contains (incoming_pubrec s) k = true) ∧
       s' = (if contains (incoming_pub s) k
             then receiving s (incoming_puback s) (put_bit (incoming_pub s) k false)
                    (put_bit (incoming_pubrec s) k false) (O_PubComp k)
             else set_events (events s ++ [Ev_Outgoing (O_PubComp k)]) s))
    (λ e s', s' = s ∧ e = Unsolicited k ∧
       contains (incoming_pub s) k = true ∧ contains (incoming_pubrec s) k = false) s.
Proof.
  intros I Hk. unfold handle_incoming_pubrel. cbn [pubrel_pkid]. apply wp_bind, wp_get.
  destruct (contains (incoming_pub s) k) eqn:Hc; cbn [negb].
  - destruct (contains (incoming_pubrec s) k) eqn:Hr; cbn [negb]; [|by apply wp_fail].
    apply wp_set_bit; [by apply contains_range|]. apply wp_bind, wp_modify.
    apply wp_set_bit; [by apply contains_range|]. apply wp_bind, wp_modify, wp_bind, wp_modify.
    apply wp_ret. split_and!; [|done..|by destruct s].
    apply inv_set_events. inv_frame I. apply incoming_ok_pubrel; [apply I|done].
  - apply wp_bind, wp_modify, wp_ret. split_and!; [by apply inv_set_events|done..].
Qed.

(** ** Outgoing publishes *)

(** [p'] is tracked in [s'], and nothing else has changed since [s]. *)
Definition admitted s (p' : Publish) s' : Prop :=
  let k := pub_pkid p' in
  flows_of s' = flows_of (set_inflight (inflight s + 1)
                  (set_outgoing_pub_order (outgoing_pub_order s ++ [k]) s)) ∧
  events s' = events s ∧
  vget (outgoing_pub s') k = Some (Some p') ∧
  ∀ j q, 0 ≤ j → j ≠ k →
    (vget (outgoing_pub s') j = Some (Some q) ↔ vget (outgoing_pub s) j = Some (Some q)).

Lemma admitted_tracked s s1 p notice in_use count :
  retracked s s1 → 0 ≤ pub_pkid p < blen (outgoing_pub s1) →
  admitted s p
    (tracked_state (set_outbound_pkid_count count (set_outbound_pkid_in_use in_use s1)) p notice).
Proof.
  intros Hr Hk. destruct (retracked_flows _ _ Hr) as [Hf He]. unfold admitted, tracked_state.
  unfold flows_of in *. fields. injection Hf as -> -> -> -> -> -> -> -> -> -> -> -> ->.
  split; [done|]. split; [done|]. split.
  - by rewrite vget_vset, Z.eqb_refl by lia.
  - intros j q Hj Hne. rewrite vget_vset by lia. rewrite (proj2 (Z.eqb_neq _ _)) by done.
    symmetry. by apply retracked_slot.
Qed.

Lemma not_live Rp Rc s k :
  k ∉ live_ids Rp Rc s →
  k ∉ outgoing_pub_order s ∧ k ∉ outgoing_rel_order s ∧ k ∉ outgoing_rel_replay_order s ∧
  pending_subscribe s !! k = None ∧ pending_unsubscribe s !! k = None ∧ k ∉ Rp ∧ k ∉ Rc.
Proof.
  rewrite elem_live_ids. rewrite !eq_None_not_Some. tauto.
Qed.

(** Whether the identifier is held by a flow other than a publish. *)
Lemma other_flow_spec Rp Rc s k :
  inv Rp Rc s →
  contains (outgoing_rel s) k || contains (outgoing_rel_replay s) k || has_pending_control s k =
  bool_decide (k ∈ outgoing_rel_order s ∨ k ∈ outgoing_rel_replay_order s ∨
               is_Some (pending_subscribe s !! k) ∨ is_Some (pending_unsubscribe s !! k)).
Proof.
  intros I. pose proof (inv_rel _ _ _ I k) as H1. pose proof (inv_replay _ _ _ I k) as H2.
  unfold has_pending_control, is_some. case_bool_decide as Hb.
  - destruct Hb as [Hb|[Hb|[[x Hb]|[x Hb]]]].
    + by rewrite (proj2 H1 Hb).
    + rewrite (proj2 H2 Hb). by rewrite orb_true_r.
    + rewrite Hb. by rewrite !orb_true_r.
    + rewrite Hb. by rewrite !orb_true_r.
  - destruct (contains (outgoing_rel s) k); [tauto|].
    destruct (contains (outgoing_rel_replay s) k); [tauto|].
    destruct (pending_subscribe s !! k); [exfalso; eauto|].
    destruct (pending_unsubscribe s !! k); [exfalso; eauto 6|]. done.
Qed.

(** Reserving a free identifier and tracking the publish. *)
Lemma wp_admit_at Rp Rc s s0 p notice Q (X : StateError → _ → Prop) :
  inv Rp Rc s → retracked s0 s → let k := pub_pkid p in
  1 ≤ k ≤ u16_MAX → k < blen (outgoing_pub s) → pub_qos p ≠ AtMostOnce →
  inflight s < max_inflight s → k ∉ live_ids Rp Rc s →
  (∀ s', inv Rp Rc s' → admitted s0 p s' → Q (Some p) s') →
  wp (reserve_outbound_pkid k;; track_publish p notice;; mret (Some p)) Q X s.
Proof.
  intros I Hr k Hk Hlen Hq Hinf Hfree HQ. pose proof (not_live _ _ _ _ Hfree) as (Hnp & _).
  apply wp_bind, (wp_reserve (live_ids Rp Rc s)); [apply I|done..|].
  intros in_use count Hids. apply wp_bind.
  eapply (wp_track_publish Rp Rp Rc (outbound_pkid_in_use s) (outbound_pkid_count s)); try done.
  { inv_frame I. }
  intros I'. apply wp_ret, HQ; [done|]. apply admitted_tracked; [done|lia].
Qed.

(** The effect of holding back a publish. *)
Definition held_back s (p : Publish) (notice : option nat) s' : Prop :=
  flows_of s' = flows_of (set_collision (Some p) (set_collision_notice notice s)) ∧
  events s' = events s ++ [Ev_Outgoing (O_AwaitAck (pub_pkid p))] ∧
  same_slots (outgoing_pub s) (outgoing_pub s').

Definition unchanged s s' : Prop :=
  flows_of s' = flows_of s ∧ events s' = events s ∧ same_slots (outgoing_pub s) (outgoing_pub s').

Lemma wp_place_publish Rp Rc s p notice :
  inv Rp Rc s → let k := pub_pkid p in 1 ≤ k ≤ u16_MAX → pub_qos p ≠ AtMostOnce →
  inflight s < max_inflight s →
  wp (place_publish p notice false)
    (λ r s', inv Rp Rc s' ∧
       match r with
       | Some p' => p' = p ∧ k ∉ live_ids Rp Rc s ∧ admitted s p s'
       | None => k ∈ outgoing_pub_order s ∧ held_back s p notice s'
       end)
    (λ e s', inv Rp Rc s' ∧ unchanged s s' ∧ e = InvalidState ∧
       k ∈ live_ids Rp Rc s ∧ k ∉ outgoing_pub_order s) s.
Proof.
  intros I k Hk Hq Hinf. unfold place_publish. fold k.
  apply wp_bind, wp_lift. unfold validate_outgoing_pkid. rewrite (proj2 (Z.eqb_neq k 0)) by lia.
  apply wp_bind, (wp_ensure Rp Rc); [done|unfold full_packet_identifier_len; lia|].
  intros s1 I1 Hr Hlen _ _ _. pose proof (retracked_flows _ _ Hr) as [Hf He].
  pose proof (retracked_live_ids Rp Rc _ _ Hr) as Hlive. pose proof Hr as (_ & Hslots & _).
  unfold flows_of in Hf. injection Hf as Hpo Hro Hrro Hpa Hip Hir Hsub Hunsub Hcol Hcn Hif Hm Ham.
  apply wp_bind, wp_get, wp_bind, wp_lift.
  destruct (vget_some (outgoing_pub s1) k) as [slot Hslot]; [lia|]. rewrite Hslot. cbn [ok_or].
  destruct slot as [q|]; cbn [is_some is_none negb].
  - assert (Hin : k ∈ outgoing_pub_order s1) by (eapply (inv_slot_some _ _ _ I1); [lia|done]).
    apply wp_bind, wp_modify, wp_bind, wp_modify, wp_bind, wp_modify, wp_ret. split.
    + inv_frame I1. intros ? [= <-]. split; [by left|done].
    + rewrite <- Hpo. split; [done|]. unfold held_back, flows_of. fields. split; [congruence|split; [by rewrite He|done]].
  - rewrite (other_flow_spec Rp Rc) by done.
    assert (Hnp : k ∉ outgoing_pub_order s1).
    { intros [_ [q Hx]]%(slots_order _ _ (inv_slots _ _ _ I1)). congruence. }
    assert (Herr : k ∈ live_ids Rp Rc s → inv Rp Rc s1 ∧ unchanged s s1 ∧
      InvalidState = InvalidState ∧ k ∈ live_ids Rp Rc s ∧ k ∉ outgoing_pub_order s).
    { intros. split_and!; try done; [|congruence]. unfold unchanged, flows_of.
      split_and!; [congruence|done..]. }
    case_bool_decide as Hother.
    + apply wp_fail, Herr. rewrite <- Hlive, elem_live_ids. tauto.
    + destruct (decide (k ∈ live_ids Rp Rc s)) as [Hin|Hfree].
      * apply wp_bind, (wp_reserve_err (live_ids Rp Rc s1)); [apply I1|rewrite Hlive; auto|auto].
      * by apply (wp_admit_at Rp Rc s1 s); try done; fold k; [lia|lia|rewrite Hlive].
Qed.

Lemma with_pkid_id p : with_pkid p (pub_pkid p) = p.
Proof. by destruct p. Qed.

Lemma flows_last_pkid s k : flows_of (set_last_pkid k s) = flows_of s.
Proof. done. Qed.

(** A new publish. *)
Lemma wp_admit_publish Rp Rc s p notice :
  inv Rp Rc s → is_u16 (pub_pkid p) → pub_qos p ≠ AtMostOnce →
  wp (admit_publish p notice false)
    (λ r s', inv Rp Rc s' ∧ inflight s < max_inflight s ∧
       match r with
       | Some p' => ∃ k, p' = with_pkid p k ∧ (pub_pkid p ≠ 0 → k = pub_pkid p) ∧
           (pub_pkid p = 0 → next_publish_pkid s = Some k) ∧
           1 ≤ k ≤ u16_MAX ∧ k ∉ live_ids Rp Rc s ∧ admitted s p' s'
       | None => pub_pkid p ∈ outgoing_pub_order s ∧ held_back s p notice s'
       end)
    (λ e s', inv Rp Rc s' ∧ unchanged s s' ∧
       if decide (inflight s < max_inflight s) then
         e = InvalidState ∧ (next_publish_pkid s = None ∨
           pub_pkid p ∈ live_ids Rp Rc s ∧ pub_pkid p ∉ outgoing_pub_order s)
       else e = OutgoingPublishWindowFull (max_inflight s)) s.
Proof.
  intros I Hk16 Hq. unfold admit_publish. apply wp_bind, wp_get.
  destruct (Z.leb_spec (max_inflight s) (inflight s)) as [|Hinf].
  { apply wp_fail. rewrite decide_False by lia. by split_and!. }
  destruct (decide (inflight s < max_inflight s)) as [_|]; [|done]. unfold is_u16 in Hk16.
  destruct (Z.eqb_spec (pub_pkid p) 0) as [H0'|Hne].
  - apply wp_bind, wp_bind. unfold next_pkid. apply wp_bind, wp_get.
    pose proof (next_free_ok _ s (last_pkid s) (inv_ids _ _ _ I) (inv_last _ _ _ I)) as Hn.
    unfold next_publish_pkid. destruct (next_free_outbound_pkid_after s (last_pkid s)) as [k|].
    2: { apply wp_ret, wp_fail. split; [done|]. split; [by split_and!|]. by auto. }
    destruct Hn as (Hk & Hfree & _). apply wp_bind, wp_modify, wp_ret, wp_ret.
    assert (I1 : inv Rp Rc (set_last_pkid k s))
      by (apply inv_set_last_pkid; [unfold is_u16, u16_MAX in *; lia|done]).
    eapply wp_mono; [apply (wp_place_publish Rp Rc); try done|..].
    + intros r s' [I' Hr]. split_and!; try done. destruct r as [p'|].
      * destruct Hr as (-> & _ & Had). exists k. split_and!; [done..|lia|lia|done|exact Had].
      * destruct Hr as [Hin _]. destruct Hfree. rewrite elem_live_ids. by left.
    + intros e s' (_ & _ & _ & Hin & _). by destruct Hfree.
  - apply wp_bind, wp_ret. eapply wp_mono; [apply (wp_place_publish Rp Rc); try done; unfold u16_MAX; lia|..].
    + intros r s' [I' Hr]. split_and!; try done. destruct r as [p'|]; [|done].
      destruct Hr as (-> & ? & Had). exists (pub_pkid p). rewrite with_pkid_id.
      split_and!; try done; unfold u16_MAX; lia.
    + intros e s' (I' & Hu & -> & Hin). split; [done|]. split; [done|]. by auto.
Qed.

(** A publish sent again: its identifier is reserved for it, so only the window can stop it. *)
Lemma wp_admit_replay Rp Rc s p notice :
  inv Rp Rc s → pub_pkid p ∈ Rp → pub_qos p ≠ AtMostOnce →
  wp (admit_publish p notice true)
    (λ r s', r = Some p ∧ inflight s < max_inflight s ∧
       inv (Rp ∖ {[pub_pkid p]}) Rc s' ∧ admitted s p s')
    (λ e s', s' = s ∧ max_inflight s ≤ inflight s ∧
       e = OutgoingPublishWindowFull (max_inflight s)) s.
Proof.
  intros I HR Hq. set (k := pub_pkid p) in *.
  assert (Hin : k ∈ live_ids Rp Rc s) by (rewrite elem_live_ids; tauto).
  assert (Hk := ids_range _ _ _ (inv_ids _ _ _ I) k Hin).
  unfold admit_publish. apply wp_bind, wp_get.
  destruct (Z.leb_spec (max_inflight s) (inflight s)); [by apply wp_fail|].
  fold k. rewrite (proj2 (Z.eqb_neq k 0)) by lia. apply wp_bind, wp_ret.
  unfold place_publish. fold k. apply wp_bind, wp_lift.
  unfold validate_outgoing_pkid. rewrite (proj2 (Z.eqb_neq k 0)) by lia.
  apply wp_bind, (wp_ensure Rp Rc); [done|unfold full_packet_identifier_len; lia|].
  intros s1 I1 Hr Hlen _ _ _. pose proof (retracked_live_ids Rp Rc _ _ Hr) as Hlive.
  pose proof (live_ids_reserved_remove Rp Rc s1 k HR) as Hperm.
  assert (Hfree : k ∉ live_ids (Rp ∖ {[k]}) Rc s1).
  { pose proof (ids_nodup _ _ _ (inv_ids _ _ _ I1)) as Hnd. rewrite Hperm in Hnd.
    by apply NoDup_cons in Hnd as [? _]. }
  pose proof (not_live _ _ _ _ Hfree) as (Hnp & Hnr & Hnrr & Hns & Hnu & _).
  apply wp_bind, wp_get, wp_bind, wp_lift.
  rewrite (inv_slot_none _ _ _ I1 k) by (done || lia). cbn [ok_or is_some is_none negb].
  rewrite (other_flow_spec Rp Rc), bool_decide_eq_false_2 by
    (done || (rewrite Hns, Hnu; intros [|[|[[]|[]]]]; done)).
  apply wp_bind. unfold accept_replayed_outbound_pkid. apply wp_bind, wp_get.
  rewrite (inv_in_use _ _ _ I1), bool_decide_eq_true_2 by (by rewrite Hlive).
  rewrite (proj2 (Z.eqb_neq k 0)) by lia. cbn [orb negb]. apply wp_ret, wp_bind.
  pose proof (retracked_flows _ _ Hr) as [Hf He]. unfold flows_of in Hf.
  injection Hf as Hpo Hro Hrro Hpa Hip Hir Hsub Hunsub Hcol Hcn Hif Hm Ham.
  eapply (wp_track_publish Rp (Rp ∖ {[k]}) Rc (outbound_pkid_in_use s1) (outbound_pkid_count s1));
    try done; fold k; try lia.
  { inv_frame I1. }
  { set_solver. }
  { fold k. rewrite <- Hperm. apply I1. }
  intros I'. apply wp_ret. split_and!; [done|lia|done|].
  pose proof (admitted_tracked s s1 p notice (outbound_pkid_in_use s1) (outbound_pkid_count s1) Hr)
    as Had. replace (set_outbound_pkid_count (outbound_pkid_count s1)
      (set_outbound_pkid_in_use (outbound_pkid_in_use s1) s1)) with s1 in Had by (by destruct s1).
  apply Had. fold k. lia.
Qed.
End Handlers.
