(* ===== verification/V4Session.v ===== *)
(** Requests of the client other than publishes, and the two dispatchers
    [handle_outgoing_packet_with_notice_internal] and [handle_incoming_packet_with_effects].

    The session as a transition system: every request and every packet, in any order, keeps
    the invariant, and no step panics. *)

From S2P Require Import Prelude.
From S2P Require Import Utf8.
From S2P Require Import Primitives.
From S2P Require Import CodecBase.
From S2P Require Import V4Base.
From S2P Require Import V4Acks.
From S2P Require Import V4Publish.
From S2P Require Import V4Subscribe.
From S2P Require Import V4Connect.
From S2P Require Import V4Packet.
From S2P Require Import FixedBitSet.
From S2P Require Import PacketIds.
From S2P Require Import V4SessionTypes.
From S2P Require Import V4State.
From S2P Require Import V4Invariant.
From S2P Require Import V4Handlers.
#[local] Open Scope Z_scope.

Section Outgoing.
  Context {B : Type} `{FixedBitSetLaws B}.

Abbreviation ST := (M (MqttState B) StateError).
Implicit Types (s : MqttState B) (Rp Rc : gset Z).

(** ** PUBREL *)

Lemma inv_set_rel_notice Rp Rc s v :
  inv Rp Rc s → blen v = blen (outgoing_pub s) → inv Rp Rc (set_outgoing_rel_notice v s).
Proof. intros I Hv. destruct (inv_lens _ _ _ I). inv_frame I. by split. Qed.

(** A release queued for replay becomes an active one. *)
Definition replayed_rel s (k : Z) : MqttState B :=
  set_inflight (inflight s + 1)
    (set_outgoing_rel_order (outgoing_rel_order s ++ [k])
      (set_outgoing_rel (put_bit (outgoing_rel s) k true)
        (set_outgoing_rel_replay_order (remove_ordered_pkid (outgoing_rel_replay_order s) k)
          (set_outgoing_rel_replay (put_bit (outgoing_rel_replay s) k false) s)))).

Lemma inv_replayed_rel Rp Rc s k :
  inv Rp Rc s → k ∈ outgoing_rel_replay_order s → inflight s < max_inflight s →
  inv Rp Rc (replayed_rel s k).
Proof.
  intros I Hk Hinf. destruct (inv_replay_range _ _ _ I k Hk) as [Hk1 Hlen].
  destruct (inv_lens _ _ _ I) as [Hl1 Hl2 Hl3 Hl4 Hl5].
  destruct (inv_orders_nodup _ _ _ I) as (_ & _ & Hnd).
  pose proof (inv_inflight _ _ _ I).
  unfold replayed_rel. inv_frame I.
  - split; rewrite ?len_put_bit; done.
  - apply bits_ok_insert; [apply I|lia].
  - apply bits_ok_remove; [apply I|done..].
  - assert (live_ids Rp Rc s ≡ₚ live_ids Rp Rc (replayed_rel s k)) as Hl.
    { unfold live_ids, replayed_rel. fields. rewrite (remove_ordered_perm _ _ Hk) at 1.
      rewrite <- (assoc_L (++) (outgoing_rel_order s)). done. }
    pose proof (inv_ids _ _ _ I) as Hi. rewrite Hl in Hi. exact Hi.
  - rewrite blen_app, blen_cons, blen_nil. lia.
  - lia.
  - intros q Hq. destruct (inv_collision _ _ _ I q Hq) as [Hin ?]. set_solver.
Qed.

Lemma wp_activate_replayed_pubrel Rp Rc s k :
  inv Rp Rc s → k ∈ outgoing_rel_replay_order s →
  wp (activate_replayed_pubrel k)
    (λ _ s', inv Rp Rc s' ∧ s' = replayed_rel s k)
    (λ e s', s' = s ∧ e = OutgoingPublishWindowFull (max_inflight s) ∧
             max_inflight s ≤ inflight s) s.
Proof.
  intros I Hk. unfold activate_replayed_pubrel. apply wp_bind, wp_get.
  destruct (Z.leb_spec (max_inflight s) (inflight s)); [by apply wp_fail|].
  destruct (inv_replay_range _ _ _ I k Hk) as [Hk1 Hlen].
  destruct (inv_lens _ _ _ I) as [Hl1 Hl2 Hl3 Hl4 Hl5]. pose proof (inv_max _ _ _ I).
  apply wp_set_bit; [lia|]. apply wp_bind, wp_modify, wp_bind, wp_modify.
  apply wp_set_bit; [lia|]. apply wp_bind, wp_modify, wp_bind, wp_modify.
  unfold inflight_incr. apply wp_bind, wp_get. fields.
  rewrite (proj2 (Z.ltb_ge _ _)) by lia. apply wp_modify. split; [|done].
  by apply inv_replayed_rel.
Qed.

Lemma wp_store_rel_notice Rp Rc s k notice X :
  inv Rp Rc s → 1 ≤ k ≤ u16_MAX →
  wp (store_rel_notice k notice) (λ _ s', inv Rp Rc s' ∧ unchanged s s') X s.
Proof.
  intros I Hk. unfold store_rel_notice.
  apply wp_bind, (wp_ensure Rp Rc); [done|unfold full_packet_identifier_len; lia|].
  intros s2 I2 Hr Hlen _ _ _. destruct (retracked_flows _ _ Hr) as [Hf2 He2].
  pose proof Hr as (_ & Hsl2 & _). destruct (inv_lens _ _ _ I2) as [_ _ Hl3 _ _].
  apply wp_bind, wp_get. apply wp_index; [lia|]. intros current _.
  destruct (is_some notice || is_none current); [|by apply wp_ret].
  apply wp_assign; [lia|]. apply wp_modify. split; [|done].
  apply inv_set_rel_notice; [done|]. by rewrite blen_vset.
Qed.

Lemma unchanged_trans s1 s2 s3 : unchanged s1 s2 → unchanged s2 s3 → unchanged s1 s3.
Proof.
  intros (Hf & He & Hs) (Hf' & He' & Hs'). split; [congruence|]. split; [congruence|].
  intros k q Hk. by rewrite (Hs k q Hk), (Hs' k q Hk).
Qed.

(** Storing the notice of an active release and sending it. *)
Lemma wp_send_pubrel Rp Rc s k notice (Q : option Packet * option nat → _ → Prop) X :
  inv Rp Rc s → 1 ≤ k ≤ u16_MAX →
  (∀ s', inv Rp Rc s' → unchanged (set_events (events s ++ [Ev_Outgoing (O_PubRel k)]) s) s' →
     Q (Some (P_PubRel {| pubrel_pkid := k |}), None) s') →
  wp (store_rel_notice k notice;; mret {| pubrel_pkid := k |})
    (λ pubrel s', wp (push_event (O_PubRel (pubrel_pkid pubrel));;
                      mret (Some (P_PubRel pubrel), None)) Q X s') X s.
Proof.
  intros I Hk HQ. apply wp_bind. eapply wp_mono; [by apply (wp_store_rel_notice Rp Rc _ k)| |done].
  intros _ s2 [I2 (Hf & He & Hs)]. apply wp_ret, wp_bind, wp_modify, wp_ret.
  apply HQ; [by apply inv_set_events|]. split; [exact Hf|]. split; [fields; by rewrite He|exact Hs].
Qed.

Lemma wp_outgoing_pubrel Rp Rc s k notice :
  inv Rp Rc s →
  wp (outgoing_pubrel_with_notice {| pubrel_pkid := k |} notice)
    (λ r s', inv Rp Rc s' ∧ r = (Some (P_PubRel {| pubrel_pkid := k |}), None) ∧
       (k ∈ outgoing_rel_order s ∨ k ∈ outgoing_rel_replay_order s) ∧
       unchanged (set_events (events s ++ [Ev_Outgoing (O_PubRel k)])
         (if bool_decide (k ∈ outgoing_rel_replay_order s) then replayed_rel s k else s)) s')
    (λ e s', s' = s ∧
       if bool_decide (k ∈ outgoing_rel_replay_order s)
       then e = OutgoingPublishWindowFull (max_inflight s) ∧ max_inflight s ≤ inflight s
       else e = Unsolicited k ∧ k ∉ outgoing_rel_order s) s.
Proof.
  intros I. unfold outgoing_pubrel_with_notice, save_pubrel_with_notice. cbn [pubrel_pkid].
  assert (Hrange : k ∈ outgoing_rel_order s ∨ k ∈ outgoing_rel_replay_order s → 1 ≤ k ≤ u16_MAX).
  { intros [Hk|Hk]; [by apply (inv_rel_range _ _ _ I)|by apply (inv_replay_range _ _ _ I)]. }
  apply wp_bind, wp_bind, wp_lift. unfold validate_outgoing_pkid.
  destruct (Z.eqb_spec k 0) as [->|Hk0].
  { rewrite bool_decide_eq_false_2 by (intros Hk; specialize (Hrange (or_intror Hk)); lia).
    split_and!; try done. intros Hk. specialize (Hrange (or_introl Hk)). lia. }
  apply wp_bind, wp_get. rewrite (bits_ok_decide _ _ k (inv_rel _ _ _ I)),
    (bits_ok_decide _ _ k (inv_replay _ _ _ I)).
  destruct (bool_decide (k ∈ outgoing_rel_replay_order s)) eqn:Hb; cbn [negb].
  - apply bool_decide_eq_true in Hb. rewrite andb_false_r. apply wp_bind.
    eapply wp_mono; [by apply (wp_activate_replayed_pubrel Rp Rc)| |done].
    intros _ s' [I1 ->]. apply (wp_send_pubrel Rp Rc); [done|by auto|].
    intros s2 I2 Hu. split_and!; auto.
  - rewrite andb_true_r. destruct (bool_decide (k ∈ outgoing_rel_order s)) eqn:Hr; cbn [negb].
    + apply bool_decide_eq_true in Hr. apply wp_bind, wp_ret.
      apply (wp_send_pubrel Rp Rc); [done|by auto|]. intros s2 I2 Hu. split_and!; auto.
    + apply bool_decide_eq_false in Hr. by apply wp_fail.
Qed.

(** ** SUBSCRIBE and UNSUBSCRIBE *)

Definition add_subscribe s (sub : Subscribe) (notice : option nat) : MqttState B :=
  set_pending_subscribe
    (<[subscribe_pkid sub := {| ps_subscribe := sub; ps_notice := notice |}]> (pending_subscribe s)) s.
Definition add_unsubscribe s (unsub : Unsubscribe) (notice : option nat) : MqttState B :=
  set_pending_unsubscribe
    (<[unsubscribe_pkid unsub := {| pu_unsubscribe := unsub; pu_notice := notice |}]>
       (pending_unsubscribe s)) s.

(** [s] is a state of the invariant but for the identifier, which has just been taken. *)
Lemma inv_add_subscribe Rp Rc Rc' in_use0 count0 s sub notice :
  inv Rp Rc (set_outbound_pkid_count count0 (set_outbound_pkid_in_use in_use0 s)) →
  ids_ok (subscribe_pkid sub :: live_ids Rp Rc' s) (outbound_pkid_in_use s) (outbound_pkid_count s) →
  filters sub ≠ [] → inv Rp Rc' (add_subscribe s sub notice).
Proof.
  intros I Hids Hf. unfold add_subscribe.
  assert (Hnew : subscribe_pkid sub ∉ live_ids Rp Rc' s)
    by (by apply ids_nodup, NoDup_cons in Hids as [? _]).
  apply not_live in Hnew as (_ & _ & _ & Hnone & _).
  inv_frame I.
  - assert (Hp : live_ids Rp Rc' (add_subscribe s sub notice) ≡ₚ
                 subscribe_pkid sub :: live_ids Rp Rc' s).
    { unfold live_ids, add_subscribe. fields. rewrite (keys_insert _ _ _ Hnone). cbn [app].
      by rewrite <- !Permutation_middle. }
    rewrite <- Hp in Hids. exact Hids.
  - intros k q [[<- <-]|[Hne Hq]]%lookup_insert_Some; [done|by apply (inv_sub _ _ _ I)].
Qed.

Lemma inv_add_unsubscribe Rp Rc Rc' in_use0 count0 s unsub notice :
  inv Rp Rc (set_outbound_pkid_count count0 (set_outbound_pkid_in_use in_use0 s)) →
  ids_ok (unsubscribe_pkid unsub :: live_ids Rp Rc' s) (outbound_pkid_in_use s)
    (outbound_pkid_count s) →
  topics unsub ≠ [] → inv Rp Rc' (add_unsubscribe s unsub notice).
Proof.
  intros I Hids Hf. unfold add_unsubscribe.
  assert (Hnew : unsubscribe_pkid unsub ∉ live_ids Rp Rc' s)
    by (by apply ids_nodup, NoDup_cons in Hids as [? _]).
  apply not_live in Hnew as (_ & _ & _ & _ & Hnone & _).
  inv_frame I.
  - assert (Hp : live_ids Rp Rc' (add_unsubscribe s unsub notice) ≡ₚ
                 unsubscribe_pkid unsub :: live_ids Rp Rc' s).
    { unfold live_ids, add_unsubscribe. fields. rewrite (keys_insert _ _ _ Hnone). cbn [app].
      by rewrite <- !Permutation_middle. }
    rewrite <- Hp in Hids. exact Hids.
  - intros k q [[<- <-]|[Hne Hq]]%lookup_insert_Some; [done|by apply (inv_unsub _ _ _ I)].
Qed.

(** The identifier of a new control packet: the one given, or the next free one. *)
Definition control_id s (k : Z) : option Z :=
  if k =? 0 then next_free_outbound_pkid_after s (last_pkid s) else Some k.

(** The state in which the identifier [k] has been taken. *)
Definition with_id s (k last : Z) (in_use : B) (count : Z) : MqttState B :=
  set_last_pkid last (set_outbound_pkid_count count (set_outbound_pkid_in_use in_use s)).

Lemma wp_next_control_pkid Rp Rc s (Q : Z → _ → Prop) (X : StateError → _ → Prop) :
  inv Rp Rc s →
  (next_free_outbound_pkid_after s (last_pkid s) = None → X InvalidState s) →
  (∀ k in_use count, next_free_outbound_pkid_after s (last_pkid s) = Some k → is_u16 k →
     k ∉ live_ids Rp Rc s → ids_ok (k :: live_ids Rp Rc s) in_use count →
     Q k (with_id s k k in_use count)) →
  wp next_control_pkid Q X s.
Proof.
  intros I HX HQ. unfold next_control_pkid. apply wp_bind, wp_get.
  pose proof (next_free_ok _ s (last_pkid s) (inv_ids _ _ _ I) (inv_last _ _ _ I)) as Hn.
  destruct (next_free_outbound_pkid_after s (last_pkid s)) as [k|]; [|apply wp_fail; by auto].
  destruct Hn as (Hk & Hfree & _).
  apply wp_bind, (wp_reserve (live_ids Rp Rc s)); [apply I|done..|].
  intros in_use count Hids. apply wp_bind, wp_modify, wp_ret. apply HQ; try done.
  unfold is_u16, u16_MAX in *. lia.
Qed.

Lemma wp_reserve_control Rp Rc s k (Q : unit → _ → Prop) (X : StateError → _ → Prop) :
  inv Rp Rc s → 1 ≤ k ≤ u16_MAX →
  (k ∈ live_ids Rp Rc s → X InvalidState s) →
  (∀ in_use count, k ∉ live_ids Rp Rc s → ids_ok (k :: live_ids Rp Rc s) in_use count →
     Q tt (with_id s k (last_pkid s) in_use count)) →
  wp (reserve_control_pkid k) Q X s.
Proof.
  intros I Hk HX HQ. unfold reserve_control_pkid.
  destruct (decide (k ∈ live_ids Rp Rc s)) as [Hin|Hfree].
  - apply (wp_reserve_err (live_ids Rp Rc s)); [apply I|by right|by auto].
  - apply (wp_reserve (live_ids Rp Rc s)); [apply I|done..|]. intros in_use count Hids.
    replace (set_outbound_pkid_count count (set_outbound_pkid_in_use in_use s))
      with (with_id s k (last_pkid s) in_use count) by (by destruct s). by apply HQ.
Qed.

(** [s'] has one more subscribe request pending than [s]. *)
Definition subscribed s (sub : Subscribe) (notice : option nat) s' : Prop :=
  flows_of s' = flows_of (add_subscribe s sub notice) ∧
  events s' = events s ++ [Ev_Outgoing (O_Subscribe (subscribe_pkid sub))] ∧
  outgoing_pub s' = outgoing_pub s.
Definition unsubscribed s (unsub : Unsubscribe) (notice : option nat) s' : Prop :=
  flows_of s' = flows_of (add_unsubscribe s unsub notice) ∧
  events s' = events s ++ [Ev_Outgoing (O_Unsubscribe (unsubscribe_pkid unsub))] ∧
  outgoing_pub s' = outgoing_pub s.

(** What a new control request is refused for; the state is then unchanged. *)
Definition control_refused Rp Rc s (k : Z) (e : StateError) : Prop :=
  e = InvalidState ∧ (control_id s k = None ∨ k ≠ 0 ∧ k ∈ live_ids Rp Rc s).

Lemma no_entries_false {A} (l : list A) : no_entries l = false → l ≠ [].
Proof. by destruct l. Qed.

Lemma inv_with_id Rp Rc s k last in_use count evs :
  inv Rp Rc s → is_u16 last →
  inv Rp Rc (set_outbound_pkid_count (outbound_pkid_count s)
    (set_outbound_pkid_in_use (outbound_pkid_in_use s)
      (set_events evs (with_id s k last in_use count)))).
Proof. intros I Hl. unfold with_id. inv_frame I. done. Qed.

Lemma wp_outgoing_subscribe Rp Rc s sub notice :
  inv Rp Rc s → is_u16 (subscribe_pkid sub) →
  wp (outgoing_subscribe sub notice)
    (λ r s', inv Rp Rc s' ∧ ∃ k, control_id s (subscribe_pkid sub) = Some k ∧
       k ∉ live_ids Rp Rc s ∧
       let sub' := {| subscribe_pkid := k; filters := filters sub |} in
       r = Some (P_Subscribe sub') ∧ subscribed s sub' notice s')
    (λ e s', s' = s ∧ if no_entries (filters sub) then e = SE_EmptySubscription
                      else control_refused Rp Rc s (subscribe_pkid sub) e) s.
Proof.
  intros I Hk16. unfold outgoing_subscribe.
  destruct (no_entries (filters sub)) eqn:Hne; [by apply wp_fail|]. apply no_entries_false in Hne.
  unfold control_refused, control_id, is_u16 in *. apply wp_bind.
  destruct (Z.eqb_spec (subscribe_pkid sub) 0) as [Hz|Hz]; apply wp_bind.
  - apply (wp_next_control_pkid Rp Rc); [done|by auto|]. intros k in_use count Hk Hr Hfree Hids.
    apply wp_ret, wp_bind, wp_bind, wp_modify, wp_bind, wp_modify, wp_ret, wp_ret. split.
    + eapply (inv_add_subscribe Rp Rc Rc); [by apply inv_with_id|done|done].
    + by exists k.
  - apply (wp_reserve_control Rp Rc); [done|unfold u16_MAX; lia|by auto|].
    intros in_use count Hfree Hids.
    apply wp_ret, wp_bind, wp_bind, wp_modify, wp_bind, wp_modify, wp_ret, wp_ret. split.
    + eapply (inv_add_subscribe Rp Rc Rc); [apply inv_with_id, I; done|done|done].
    + exists (subscribe_pkid sub). by destruct sub.
Qed.

Lemma wp_outgoing_unsubscribe Rp Rc s unsub notice :
  inv Rp Rc s → is_u16 (unsubscribe_pkid unsub) →
  wp (outgoing_unsubscribe unsub notice)
    (λ r s', inv Rp Rc s' ∧ ∃ k, control_id s (unsubscribe_pkid unsub) = Some k ∧
       k ∉ live_ids Rp Rc s ∧
       let unsub' := {| unsubscribe_pkid := k; topics := topics unsub |} in
       r = P_Unsubscribe unsub' ∧ unsubscribed s unsub' notice s')
    (λ e s', s' = s ∧ if no_entries (topics unsub) then e = SE_EmptyUnsubscription
                      else control_refused Rp Rc s (unsubscribe_pkid unsub) e) s.
Proof.
  intros I Hk16. unfold outgoing_unsubscribe.
  destruct (no_entries (topics unsub)) eqn:Hne; [by apply wp_fail|]. apply no_entries_false in Hne.
  unfold control_refused, control_id, is_u16 in *. apply wp_bind.
  destruct (Z.eqb_spec (unsubscribe_pkid unsub) 0) as [Hz|Hz]; apply wp_bind.
  - apply (wp_next_control_pkid Rp Rc); [done|by auto|]. intros k in_use count Hk Hr Hfree Hids.
    apply wp_ret, wp_bind, wp_modify, wp_bind, wp_modify, wp_ret. split.
    + eapply (inv_add_unsubscribe Rp Rc Rc); [by apply inv_with_id|done|done].
    + by exists k.
  - apply (wp_reserve_control Rp Rc); [done|unfold u16_MAX; lia|by auto|].
    intros in_use count Hfree Hids.
    apply wp_ret, wp_bind, wp_modify, wp_bind, wp_modify, wp_ret. split.
    + eapply (inv_add_unsubscribe Rp Rc Rc); [apply inv_with_id, I; done|done|done].
    + exists (unsubscribe_pkid unsub). by destruct unsub.
Qed.

(** Control requests sent again: their identifiers are reserved for them. *)
Lemma wp_replay_subscribe Rp Rc s sub notice :
  inv Rp Rc s → subscribe_pkid sub ∈ Rc → filters sub ≠ [] →
  wp (replay_outgoing_subscribe sub notice)
    (λ r s', r = Some (P_Subscribe sub) ∧ inv Rp (Rc ∖ {[subscribe_pkid sub]}) s' ∧
             subscribed s sub notice s') (λ _ _, False) s.
Proof.
  intros I HR Hf. unfold replay_outgoing_subscribe. set (k := subscribe_pkid sub) in *.
  destruct (no_entries (filters sub)) eqn:Hne; [by destruct (filters sub)|].
  assert (Hin : k ∈ live_ids Rp Rc s) by (rewrite elem_live_ids; tauto).
  assert (Hk := ids_range _ _ _ (inv_ids _ _ _ I) k Hin).
  apply wp_bind. unfold accept_replayed_outbound_pkid. apply wp_bind, wp_get.
  rewrite (inv_in_use _ _ _ I), bool_decide_eq_true_2 by done.
  rewrite (proj2 (Z.eqb_neq k 0)) by lia. cbn [negb orb].
  apply wp_ret, wp_bind, wp_bind, wp_modify, wp_bind, wp_modify, wp_ret, wp_ret.
  split; [done|]. split; [|done].
  eapply (inv_add_subscribe Rp Rc _ (outbound_pkid_in_use s) (outbound_pkid_count s));
    [by inv_frame I| |done].
  fold k. rewrite <- (live_ids_control_remove Rp Rc s k HR). apply I.
Qed.

Lemma wp_replay_unsubscribe Rp Rc s unsub notice :
  inv Rp Rc s → unsubscribe_pkid unsub ∈ Rc → topics unsub ≠ [] →
  wp (replay_outgoing_unsubscribe unsub notice)
    (λ r s', r = P_Unsubscribe unsub ∧ inv Rp (Rc ∖ {[unsubscribe_pkid unsub]}) s' ∧
             unsubscribed s unsub notice s') (λ _ _, False) s.
Proof.
  intros I HR Hf. unfold replay_outgoing_unsubscribe. set (k := unsubscribe_pkid unsub) in *.
  destruct (no_entries (topics unsub)) eqn:Hne; [by destruct (topics unsub)|].
  assert (Hin : k ∈ live_ids Rp Rc s) by (rewrite elem_live_ids; tauto).
  assert (Hk := ids_range _ _ _ (inv_ids _ _ _ I) k Hin).
  apply wp_bind. unfold accept_replayed_outbound_pkid. apply wp_bind, wp_get.
  rewrite (inv_in_use _ _ _ I), bool_decide_eq_true_2 by done.
  rewrite (proj2 (Z.eqb_neq k 0)) by lia. cbn [negb orb].
  apply wp_ret, wp_bind, wp_modify, wp_bind, wp_modify, wp_ret.
  split; [done|]. split; [|done].
  eapply (inv_add_unsubscribe Rp Rc _ (outbound_pkid_in_use s) (outbound_pkid_count s));
    [by inv_frame I| |done].
  fold k. rewrite <- (live_ids_control_remove Rp Rc s k HR). apply I.
Qed.
End Outgoing.

Section Dispatch.
  Context {B : Type} `{FixedBitSetLaws B}.

Abbreviation ST := (M (MqttState B) StateError).
Implicit Types (s : MqttState B) (Rp Rc : gset Z).

(** ** Requests *)

(** Packet identifiers are [u16]. *)
Definition request_u16 (r : Request) : Prop :=
  match r with
  | R_Publish p => is_u16 (pub_pkid p)
  | R_PubAck a => is_u16 (puback_pkid a)
  | R_PubRec a => is_u16 (pubrec_pkid a)
  | R_Subscribe u => is_u16 (subscribe_pkid u)
  | R_Unsubscribe u => is_u16 (unsubscribe_pkid u)
  | _ => True
  end.

(** Graceful disconnects are handled by the event loop and never reach the state. *)
Definition graceful_disconnect (r : Request) : bool :=
  match r with
  | R_Disconnect | R_DisconnectWithTimeout _ | R_DisconnectAfterQueued
  | R_DisconnectAfterQueuedWithTimeout _ => true
  | _ => false
  end.

Lemma wp_outgoing_ping Rp Rc s :
  inv Rp Rc s →
  wp outgoing_ping (λ r s', inv Rp Rc s' ∧ r = Some P_PingReq ∧
                      PingState_await_pingresp (ping s') = true ∧ flows_of s' = flows_of s ∧
                      events s' = events s ++ [Ev_Outgoing O_PingReq])
    (λ e s', inv Rp Rc s' ∧ flows_of s' = flows_of s ∧ (e = CollisionTimeout ∧ collision s ≠ None ∨
               e = AwaitPingResp ∧ PingState_await_pingresp (ping s) = true)) s.
Proof.
  intros I. unfold outgoing_ping. apply wp_bind, wp_get, wp_bind.
  assert (Hrest : ∀ s1, inv Rp Rc s1 → flows_of s1 = flows_of s → events s1 = events s →
    PingState_await_pingresp (ping s1) = PingState_await_pingresp (ping s) →
    wp (s ← mget;
        if PingState_await_pingresp (ping s) then mfail AwaitPingResp
        else
          mmodify (set_ping (PingState_begin_waiting_for_resp (ping s)));;
          push_event O_PingReq;; mret (Some P_PingReq))
      (λ r s', inv Rp Rc s' ∧ r = Some P_PingReq ∧ PingState_await_pingresp (ping s') = true ∧
               flows_of s' = flows_of s ∧ events s' = events s ++ [Ev_Outgoing O_PingReq])
      (λ e s', inv Rp Rc s' ∧ flows_of s' = flows_of s ∧ (e = CollisionTimeout ∧ collision s ≠ None ∨
               e = AwaitPingResp ∧ PingState_await_pingresp (ping s) = true)) s1).
  { intros s1 I1 Hf He Hp. apply wp_bind, wp_get.
    destruct (PingState_await_pingresp (ping s1)) eqn:Ha; [apply wp_fail; by auto|].
    apply wp_bind, wp_modify, wp_bind, wp_modify, wp_ret.
    split_and!; [by apply inv_set_events, inv_set_ping|done|done|done|]. fields. by rewrite He. }
  destruct (collision s) as [q|] eqn:Hc; cbn [is_some is_none negb]; [|by apply wp_ret, Hrest].
  destruct (PingState_increment_collision_count (ping s)) as [n p'] eqn:Hinc.
  apply wp_bind, wp_modify, wp_ret. destruct (2 <=? n).
  - apply wp_fail. split_and!; [by apply inv_set_ping|done|by left].
  - apply Hrest; [by apply inv_set_ping|done|done|]. fields.
    by destruct (ping s); injection Hinc as <- <-.
Qed.

Lemma inv_wp_last_outgoing {A} Rp Rc now (a : A) s (Q : A → MqttState B → Prop) X :
  inv Rp Rc s → (∀ s', inv Rp Rc s' → Q a s') →
  wp (set_last_outgoing_now now;; mret a) Q X s.
Proof. intros I HQ. apply wp_bind, wp_modify, wp_ret, HQ. by apply inv_set_last_outgoing. Qed.

Lemma wp_handle_outgoing Rp Rc now s r notice :
  inv Rp Rc s → request_u16 r → graceful_disconnect r = false →
  wp (handle_outgoing_packet_with_notice now r notice)
    (λ _ s', inv Rp Rc s') (λ _ s', inv Rp Rc s') s.
Proof.
  intros I Hu Hg. unfold handle_outgoing_packet_with_notice,
    handle_outgoing_packet_with_notice_internal. apply wp_bind.
  eapply wp_mono with (Q := λ _ s', inv Rp Rc s') (X := λ _ s', inv Rp Rc s'); [|by
    intros a s' I'; apply (inv_wp_last_outgoing Rp Rc)|done].
  destruct r as [p|[k]|[k]|c|[k]| | |sub|c|unsub|c| | | | |]; try done; cbn [request_u16] in Hu;
    try (by apply wp_fail).
  - unfold outgoing_publish_with_notice_internal. case_decide as Hq.
    { apply wp_bind, wp_modify, wp_ret. by apply inv_set_events. }
    apply wp_bind. eapply wp_mono; [by apply (wp_admit_publish Rp Rc)| |by intros e s' [? _]].
    intros [p'|] s' [I' _]; [|by apply wp_ret].
    apply wp_bind, wp_modify, wp_ret. by apply inv_set_events.
  - apply wp_bind. eapply wp_mono; [by apply (wp_outgoing_puback Rp Rc)| |by intros e s' (_ & _ & ->)].
    by intros packet s' (_ & _ & _ & I').
  - apply wp_bind. eapply wp_mono; [by apply (wp_outgoing_pubrec Rp Rc)| |by intros e s' (_ & -> & _)].
    by intros packet s' (_ & _ & _ & _ & I').
  - eapply wp_mono; [by apply (wp_outgoing_pubrel Rp Rc)| |by intros e s' [-> _]].
    by intros r s' [I' _].
  - apply wp_bind. eapply wp_mono; [by apply (wp_outgoing_ping Rp Rc)| |by intros e s' [? _]].
    by intros r s' [I' _].
  - apply wp_bind. eapply wp_mono; [by apply (wp_outgoing_subscribe Rp Rc)| |by intros e s' [-> _]].
    by intros r s' [I' _].
  - apply wp_bind. eapply wp_mono; [by apply (wp_outgoing_unsubscribe Rp Rc)| |by intros e s' [-> _]].
    by intros r s' [I' _].
  - apply wp_bind, wp_bind, wp_modify, wp_ret, wp_ret. by apply inv_set_events.
Qed.

(** ** Requests sent again

    What [clean] returned: [R_Publish] with an identifier of [Rp], [R_Subscribe] and
    [R_Unsubscribe] with one of [Rc], and [R_PubRel] of a release queued for replay. *)
Definition replayable Rp Rc s (r : Request) : Prop :=
  match r with
  | R_Publish p => pub_pkid p ∈ Rp ∧ pub_qos p ≠ AtMostOnce
  | R_PubRel rel => pubrel_pkid rel ∈ outgoing_rel_replay_order s
  | R_Subscribe u => subscribe_pkid u ∈ Rc ∧ filters u ≠ []
  | R_Unsubscribe u => unsubscribe_pkid u ∈ Rc ∧ topics u ≠ []
  | _ => False
  end.

(** The identifiers still reserved once it is sent. *)
Definition after_replay Rp Rc (r : Request) : gset Z * gset Z :=
  match r with
  | R_Publish p => (Rp ∖ {[pub_pkid p]}, Rc)
  | R_Subscribe u => (Rp, Rc ∖ {[subscribe_pkid u]})
  | R_Unsubscribe u => (Rp, Rc ∖ {[unsubscribe_pkid u]})
  | _ => (Rp, Rc)
  end.

(** The packet a replayed request is sent as. *)
Definition replay_packet (r : Request) : option Packet :=
  match r with
  | R_Publish p => Some (P_Publish p)
  | R_PubRel rel => Some (P_PubRel rel)
  | R_Subscribe u => Some (P_Subscribe u)
  | R_Unsubscribe u => Some (P_Unsubscribe u)
  | _ => None
  end.

Lemma wp_handle_replayed Rp Rc now s r notice :
  inv Rp Rc s → replayable Rp Rc s r →
  wp (handle_replayed_outgoing_packet_with_notice now r notice)
    (λ res s', inv (after_replay Rp Rc r).1 (after_replay Rp Rc r).2 s' ∧
               res = (replay_packet r, None))
    (λ e s', s' = s ∧ e = OutgoingPublishWindowFull (max_inflight s) ∧
             max_inflight s ≤ inflight s ∧
             (match r with R_Publish _ | R_PubRel _ => True | _ => False end)) s.
Proof.
  intros I Hr. unfold handle_replayed_outgoing_packet_with_notice,
    handle_outgoing_packet_with_notice_internal.
  destruct r as [p|[k]|[k]|c|[k]| | |sub|c|unsub|c| | | | |]; try done; cbn [replayable] in Hr;
    cbn [after_replay fst snd replay_packet].
  - destruct Hr as [Hp Hq]. apply wp_bind. unfold outgoing_publish_with_notice_internal.
    rewrite decide_False by done. apply wp_bind.
    eapply wp_mono; [by apply (wp_admit_replay Rp Rc)| |by intros e s' (-> & ? & ->)].
    intros res s' (-> & _ & I' & _). apply wp_bind, wp_modify, wp_ret.
    apply (inv_wp_last_outgoing (Rp ∖ {[pub_pkid p]}) Rc); [by apply inv_set_events|done].
  - apply wp_bind. eapply wp_mono; [by apply (wp_outgoing_pubrel Rp Rc)|..].
    + intros res s' (I' & -> & _). by apply (inv_wp_last_outgoing Rp Rc).
    + intros e s' [-> He]. rewrite bool_decide_eq_true_2 in He by done. tauto.
  - destruct Hr. apply wp_bind, wp_bind.
    eapply wp_mono; [by apply (wp_replay_subscribe Rp Rc)| |done].
    intros res s' (-> & I' & _). apply wp_ret.
    by apply (inv_wp_last_outgoing Rp (Rc ∖ {[subscribe_pkid sub]})).
  - destruct Hr. apply wp_bind, wp_bind.
    eapply wp_mono; [by apply (wp_replay_unsubscribe Rp Rc)| |done].
    intros res s' (-> & I' & _). apply wp_ret.
    by apply (inv_wp_last_outgoing Rp (Rc ∖ {[unsubscribe_pkid unsub]})).
Qed.

(** ** Packets *)

Definition packet_u16 (p : Packet) : Prop :=
  match p with
  | P_Publish p => is_u16 (pub_pkid p)
  | P_PubAck a => is_u16 (puback_pkid a)
  | P_PubRec a => is_u16 (pubrec_pkid a)
  | P_PubRel a => is_u16 (pubrel_pkid a)
  | P_PubComp a => is_u16 (pubcomp_pkid a)
  | _ => True
  end.

(** Packets read from the network have such identifiers. *)
Lemma packet_valid_u16 p : Packet_valid p → packet_u16 p.
Proof.
  destruct p; try done; cbn.
  - intros (_ & _ & _ & Hq). destruct (pub_qos p); [|by destruct Hq..].
    destruct Hq as [_ ->]. by split.
  - by intros [? _].
  - by intros [? _].
  - by intros [? _].
  - by intros [? _].
Qed.

Definition dispatch (packet : Packet) : ST IncomingPacketEffects :=
  match packet with
  | P_PingResp => outgoing ← handle_incoming_pingresp; mret (effects_outgoing outgoing)
  | P_Publish publish => handle_incoming_publish publish
  | P_SubAck suback => handle_incoming_suback suback
  | P_UnsubAck unsuback => handle_incoming_unsuback unsuback
  | P_PubAck puback => handle_incoming_puback puback
  | P_PubRec pubrec => handle_incoming_pubrec pubrec
  | P_PubRel pubrel => outgoing ← handle_incoming_pubrel pubrel; mret (effects_outgoing outgoing)
  | P_PubComp pubcomp => handle_incoming_pubcomp pubcomp
  | P_ConnAck _ => mfail (SE_ProtocolViolation DuplicateConnAck)
  | _ => mfail (SE_ProtocolViolation (UnexpectedIncomingPacket (Packet_packet_type packet)))
  end.

(** Events are only appended. *)
Definition appends_events s s' : Prop :=
  ∃ outs, events s' = events s ++ map Ev_Outgoing outs.

Lemma appends_events_same s s' : events s' = events s → appends_events s s'.
Proof. intros He. exists []. by rewrite He, app_nil_r. Qed.

Lemma appends_events_one s s' o :
  events s' = events s ++ [Ev_Outgoing o] → appends_events s s'.
Proof. intros He. by exists [o]. Qed.

Lemma finished_events s k packet s' : finished s k packet s' → appends_events s s'.
Proof.
  unfold finished. destruct (collision s) as [p|]; [case_match|].
  - intros (_ & _ & He & _). by eapply appends_events_one.
  - intros [_ Hr]. apply appends_events_same. by apply retracked_flows in Hr as [_ ->].
  - intros [_ Hr]. apply appends_events_same. by apply retracked_flows in Hr as [_ ->].
Qed.

Lemma appends_events_eq s s1 s' :
  events s1 = events s → appends_events s1 s' → appends_events s s'.
Proof. intros He [outs Ho]. exists outs. by rewrite Ho, He. Qed.

Lemma wp_dispatch Rp Rc s packet :
  inv Rp Rc s → packet_u16 packet →
  wp (dispatch packet) (λ _ s', inv Rp Rc s' ∧ appends_events s s') (λ _ s', s' = s) s.
Proof.
  intros I Hu. destruct packet as [c|c|p|[k]|[k]|[k]|[k]|c|c|c|c| | |]; try (by apply wp_fail);
    cbn [packet_u16 dispatch puback_pkid pubrec_pkid pubrel_pkid pubcomp_pkid] in *.
  - eapply wp_mono; [by apply (wp_handle_incoming_publish Rp Rc)| |done].
    intros eff s' (I' & _ & ->). split; [done|]. unfold published_state, receiving.
    repeat case_match; fields; try (by apply appends_events_same); by eapply appends_events_one.
  - eapply wp_mono; [by apply (wp_handle_incoming_puback Rp Rc)| |by intros e s' (_ & _ & ->)].
    intros eff s' (_ & I' & notice & packet & s1 & _ & _ & (_ & He & _) & Hf%finished_events).
    split; [done|]. by eapply appends_events_eq.
  - eapply wp_mono; [by apply (wp_handle_incoming_pubrec Rp Rc)| |by intros e s' (_ & _ & ->)].
    intros eff s' (_ & I' & _ & (_ & He & _) & _). split; [done|]. by eapply appends_events_one.
  - apply wp_bind. eapply wp_mono; [by apply (wp_handle_incoming_pubrel Rp Rc)| |by intros e s' [-> _]].
    intros packet s' (I' & _ & _ & ->). apply wp_ret. split; [done|]. unfold receiving.
    case_match; by eapply appends_events_one.
  - eapply wp_mono; [by apply (wp_handle_incoming_pubcomp Rp Rc)| |by intros e s' (_ & _ & ->)].
    intros eff s' (_ & I' & notice & packet & s1 & _ & _ & (_ & He & _) & Hf%finished_events).
    split; [done|]. by eapply appends_events_eq.
  - eapply wp_mono; [by apply (wp_handle_incoming_suback Rp Rc)| |by intros e s' [-> _]].
    intros eff s' (I' & p & _ & _ & _ & He & _). split; [done|]. by apply appends_events_same.
  - eapply wp_mono; [by apply (wp_handle_incoming_unsuback Rp Rc)| |by intros e s' [-> _]].
    intros eff s' (I' & p & _ & _ & He & _). split; [done|]. by apply appends_events_same.
  - apply wp_bind, wp_bind, wp_modify, wp_ret, wp_ret.
    split; [by apply inv_set_ping|by apply appends_events_same].
Qed.

(** An incoming packet: an error leaves the state as it was; otherwise the packet is reported
    before the packets it made the client send. *)
Lemma wp_handle_incoming Rp Rc now s packet :
  inv Rp Rc s → packet_u16 packet →
  wp (handle_incoming_packet_with_effects now packet)
    (λ _ s', inv Rp Rc s' ∧ ∃ outs, events s' = events s ++
       (if is_duplicate_incoming_qos2_publish s packet then [] else [Ev_Incoming packet]) ++
       map Ev_Outgoing outs)
    (λ _ s', s' = s) s.
Proof.
  intros I Hu. unfold handle_incoming_packet_with_effects. apply wp_bind, wp_get.
  change (match packet with P_Connect _ => _ | _ => _ end) with (dispatch packet).
  apply wp_bind. eapply wp_mono; [by apply (wp_dispatch Rp Rc)| |done].
  intros eff s' [I' [outs He]]. apply wp_bind.
  destruct (is_duplicate_incoming_qos2_publish s packet); cbn [negb].
  - apply wp_ret, wp_bind, wp_modify, wp_ret. split; [by apply inv_set_last_incoming|].
    by exists outs.
  - unfold insert_event. apply wp_bind, wp_get. rewrite He, blen_app.
    rewrite (proj2 (Z.ltb_ge _ _)) by (pose proof (blen_nonneg (map Ev_Outgoing outs)); lia).
    apply wp_modify, wp_bind, wp_modify, wp_ret.
    split; [by apply inv_set_last_incoming, inv_set_events|]. exists outs. fields.
    by rewrite blen_to_nat, take_app_length, drop_app_length.
Qed.
End Dispatch.
