(* ===== verification/V4CleanProofs.v ===== *)
(** [clean] returns every unfinished request, in order, and leaves a state of the invariant. *)

From S2P Require Import Prelude.
From S2P Require Import Utf8.
From S2P Require Import Primitives.
From S2P Require Import CodecBase.
From S2P Require Import V4Base.
From S2P Require Import V4Acks.
From S2P Require Import V4Publish.
From S2P Require Import V4Subscribe.
From S2P Require Import V4Connect.
From S2P Require Import V4Packet.
From S2P Require Import FixedBitSet.
From S2P Require Import V4SessionTypes.
From S2P Require Import PacketIds.
From S2P Require Import V4State.
From S2P Require Import V4Clean.
From S2P Require Import V4Invariant.
From S2P Require Import V4Handlers.
From S2P Require Import V4Session.
#[local] Open Scope Z_scope.

Section CleanProofs.
  Context {B : Type} `{FixedBitSetLaws B}.

Abbreviation ST := (M (MqttState B) StateError).
Implicit Types (s : MqttState B) (Rp Rc : gset Z).

(** ** The orders are complete already *)

Lemma fill_pub_order_id pubs k order :
  0 ≤ k → k + blen pubs ≤ full_packet_identifier_len →
  (∀ j p, 0 ≤ j → vget pubs j = Some (Some p) → k + j ∈ order) →
  fill_pub_order pubs k order = Ok order.
Proof.
  revert k. induction pubs as [|x pubs IH]; intros k Hk Hl Hall; [done|].
  rewrite blen_cons in Hl. pose proof (blen_nonneg pubs).
  unfold full_packet_identifier_len in *. cbn [fill_pub_order]. unfold expect_u16.
  rewrite (proj2 (Z.leb_le 0 k)), (proj2 (Z.leb_le k u16_MAX)) by lia. cbn [andb mbind outcome_bind].
  assert (Hno : is_some x && negb (bool_decide (k ∈ order)) = false).
  { destruct x as [p|]; [|done]. cbn [is_some is_none negb]. rewrite bool_decide_eq_true_2; [done|].
    specialize (Hall 0 p). rewrite Z.add_0_r in Hall. by apply Hall. }
  rewrite Hno. apply IH; [lia..|]. intros j p Hj Hp. specialize (Hall (1 + j) p).
  replace (k + 1 + j) with (k + (1 + j)) by lia. apply Hall; [lia|].
  unfold vget in *. replace (Z.to_nat (1 + j)) with (S (Z.to_nat j)) by lia. exact Hp.
Qed.

Lemma fill_rel_order_id pkids order :
  (∀ k, k ∈ pkids → 0 ≤ k ≤ u16_MAX ∧ k ∈ order) → fill_rel_order pkids order = Ok order.
Proof.
  induction pkids as [|k pkids IH]; intros Hall; [done|]. cbn [fill_rel_order]. unfold expect_u16.
  destruct (Hall k) as [Hk Hin]; [set_solver|].
  rewrite (proj2 (Z.leb_le 0 k)), (proj2 (Z.leb_le k u16_MAX)) by lia. cbn [andb mbind outcome_bind].
  rewrite bool_decide_eq_true_2 by done. apply IH. intros j Hj. apply Hall. set_solver.
Qed.

(** ** The requests collected *)

Definition clean_publish s (k : Z) : option CleanRequest :=
  match vget (outgoing_pub s) k with
  | Some (Some p) =>
      Some {| cr_request := R_Publish (mark_dup p);
              cr_notice := TN_Publish <$> mjoin (vget (outgoing_pub_notice s) k);
              cr_replay := true |}
  | _ => None
  end.

Definition clean_pubrel s (k : Z) : CleanRequest :=
  {| cr_request := R_PubRel {| pubrel_pkid := k |};
     cr_notice := TN_Publish <$> mjoin (vget (outgoing_rel_notice s) k); cr_replay := true |}.

Definition clean_subscribe (e : Z * PendingSubscribe) : CleanRequest :=
  {| cr_request := R_Subscribe {| subscribe_pkid := e.1; filters := filters (ps_subscribe e.2) |};
     cr_notice := TN_Subscribe <$> ps_notice e.2; cr_replay := true |}.

Definition clean_unsubscribe (e : Z * PendingUnsubscribe) : CleanRequest :=
  {| cr_request := R_Unsubscribe {| unsubscribe_pkid := e.1; topics := topics (pu_unsubscribe e.2) |};
     cr_notice := TN_Unsubscribe <$> pu_notice e.2; cr_replay := true |}.

Definition clean_held s : list CleanRequest :=
  match collision s with
  | Some p => [{| cr_request := R_Publish p; cr_notice := TN_Publish <$> collision_notice s;
                  cr_replay := false |}]
  | None => []
  end.

Definition unfinished s : list CleanRequest :=
  omap (clean_publish s) (outgoing_pub_order s) ++ clean_held s ++
  map (clean_pubrel s) (outgoing_rel_order s) ++
  map clean_subscribe (btree_entries (pending_subscribe s)) ++
  map clean_unsubscribe (btree_entries (pending_unsubscribe s)).

(** ** The loops *)

Lemma mark_dup_pkid p : pub_pkid (mark_dup p) = pub_pkid p.
Proof. unfold mark_dup. by case_decide. Qed.

Lemma wp_clean_publishes (keep : bool) order s (Q : list CleanRequest * list Z → _ → Prop) X :
  NoDup order → blen (outgoing_pub_notice s) = blen (outgoing_pub s) →
  (∀ k, k ∈ order → 0 ≤ k < blen (outgoing_pub s) ∧
     ∃ p, vget (outgoing_pub s) k = Some (Some p) ∧ pub_pkid p = k) →
  (∀ v n, emptied order (outgoing_pub s) v → emptied order (outgoing_pub_notice s) n →
     Q (omap (clean_publish s) order, if keep then [] else order)
       (set_outgoing_pub_notice n (set_outgoing_pub v s))) →
  wp (clean_publishes keep order) Q X s.
Proof.
  revert s Q. induction order as [|k order IH]; intros s Q Hnd Hlen Hall HQ.
  { apply wp_ret.
    replace s with (set_outgoing_pub_notice (outgoing_pub_notice s)
      (set_outgoing_pub (outgoing_pub s) s)) at 1 by (by destruct s).
    replace (if keep then ([] : list Z) else []) with ([] : list Z) in HQ by (by destruct keep).
    apply HQ; apply emptied_nil. }
  apply NoDup_cons in Hnd as [Hk Hnd].
  destruct (Hall k) as (Hkr & p & Hp & Hpk); [by left|]. cbn [clean_publishes].
  apply wp_bind, wp_get. apply wp_index; [done|]. intros slot Hslot.
  rewrite Hp in Hslot. injection Hslot as <-. apply wp_bind, wp_modify.
  apply wp_take_pub_notice; [fields; lia|]. intros notice Hn. fields. apply wp_bind.
  apply IH; [done|fields; by rewrite !blen_vset|..].
  - intros j Hj. fields. rewrite blen_vset. destruct (Hall j) as (Hjr & q & Hq & Hqk); [by right|].
    split; [done|]. exists q. rewrite vget_vset by lia.
    rewrite (proj2 (Z.eqb_neq k j)) by (by intros ->). done.
  - intros v n Hv Hn'. apply wp_ret. fields.
    assert (Hl1 : omap (clean_publish (set_outgoing_pub_notice (vset (outgoing_pub_notice s) k None)
      (set_outgoing_pub (vset (outgoing_pub s) k None) s))) order = omap (clean_publish s) order).
    { apply list_omap_ext. apply Forall2_same_length_lookup. split; [done|].
      intros i x y Hx Hy. rewrite Hx in Hy. injection Hy as <-. unfold clean_publish. fields.
      assert (Hxo : x ∈ order) by (by eapply list_elem_of_lookup_2).
      destruct (Hall x) as ([??] & _); [by right|].
      rewrite !vget_vset by lia. by rewrite (proj2 (Z.eqb_neq k x)) by (by intros ->). }
    rewrite Hl1. specialize (HQ v n). cbn [omap list_omap] in HQ. unfold clean_publish at 1 in HQ.
    rewrite Hp, Hn in HQ. cbn [mjoin option_join] in HQ.
    replace (if keep then ([] : list Z) else k :: order)
      with (if keep then if keep then [] else order
            else pub_pkid (mark_dup p) :: (if keep then [] else order)) in HQ
      by (destruct keep; [done|by rewrite mark_dup_pkid, Hpk]).
    apply HQ; by apply emptied_cons; [lia|].
Qed.

(** [s] with other identifiers in use. *)
Abbreviation reserving s in_use count :=
  (set_outbound_pkid_count count (set_outbound_pkid_in_use in_use s)).

Lemma reserving_same s : reserving s (outbound_pkid_in_use s) (outbound_pkid_count s) = s.
Proof. by destruct s. Qed.

Lemma wp_release_all l ids s (Q : unit → _ → Prop) X :
  ids_ok (l ++ ids) (outbound_pkid_in_use s) (outbound_pkid_count s) →
  (∀ in_use count, ids_ok ids in_use count → Q tt (reserving s in_use count)) →
  wp (release_all l) Q X s.
Proof.
  revert s. induction l as [|k l IH]; intros s Hids HQ.
  - apply wp_ret. rewrite <- (reserving_same s). by apply HQ.
  - cbn [release_all]. apply wp_bind, (wp_release (l ++ ids)); [done|].
    intros in_use count Hids'. apply IH; [done|]. intros in_use' count' Hids''.
    by apply (HQ in_use' count').
Qed.

Lemma wp_clean_pubrels order s (Q : list CleanRequest → _ → Prop) X :
  NoDup order → (∀ k, k ∈ order → 0 ≤ k < blen (outgoing_rel_notice s)) →
  (∀ n, blen n = blen (outgoing_rel_notice s) →
     Q (map (clean_pubrel s) order) (set_outgoing_rel_notice n s)) →
  wp (clean_pubrels order) Q X s.
Proof.
  revert s Q. induction order as [|k order IH]; intros s Q Hnd Hall HQ.
  { apply wp_ret. replace s with (set_outgoing_rel_notice (outgoing_rel_notice s) s) at 1
      by (by destruct s). by apply HQ. }
  apply NoDup_cons in Hnd as [Hk Hnd]. assert (Hkr := Hall k ltac:(by left)).
  cbn [clean_pubrels]. apply wp_take_rel_notice; [done|]. intros notice Hn.
  apply wp_bind, IH; [done|..].
  - intros j Hj. fields. rewrite blen_vset. apply Hall. by right.
  - intros n Hlen. fields. rewrite blen_vset in Hlen. apply wp_ret.
    replace (map (clean_pubrel (set_outgoing_rel_notice (vset (outgoing_rel_notice s) k None) s)) order)
      with (map (clean_pubrel s) order).
    2: { apply map_ext_in. intros j Hj%list_elem_of_In. unfold clean_pubrel. fields.
         assert (Hjr := Hall j ltac:(by right)). rewrite vget_vset by lia.
         by rewrite (proj2 (Z.eqb_neq k j)) by (by intros ->). }
    specialize (HQ n Hlen). cbn [map] in HQ. unfold clean_pubrel at 1 in HQ. by rewrite Hn in HQ.
Qed.

Lemma wp_mark_pubrel_replay l s (Q : unit → _ → Prop) X :
  NoDup (outgoing_rel_replay_order s ++ l) →
  (∀ k, k ∈ l → 0 ≤ k < bits_len (outgoing_rel_replay s)) →
  bits_ok (outgoing_rel_replay_order s) (outgoing_rel_replay s) →
  (∀ bits, bits_len bits = bits_len (outgoing_rel_replay s) →
     bits_ok (outgoing_rel_replay_order s ++ l) bits →
     Q tt (set_outgoing_rel_replay_order (outgoing_rel_replay_order s ++ l)
            (set_outgoing_rel_replay bits s))) →
  wp (mark_pubrel_replay l) Q X s.
Proof.
  revert s. induction l as [|k l IH]; intros s Hnd Hall Hok HQ.
  { apply wp_ret. rewrite app_nil_r in HQ. specialize (HQ (outgoing_rel_replay s) eq_refl Hok).
    replace s with (set_outgoing_rel_replay_order (outgoing_rel_replay_order s)
      (set_outgoing_rel_replay (outgoing_rel_replay s) s)) by (by destruct s). done. }
  cbn [mark_pubrel_replay]. assert (Hk := Hall k ltac:(by left)).
  assert (Hnew : k ∉ outgoing_rel_replay_order s).
  { apply NoDup_app in Hnd as (_ & Hnd & _). intros Hin. by apply (Hnd k Hin); left. }
  apply wp_bind, wp_get, wp_set_bit; [done|]. apply wp_bind, wp_modify, wp_bind, wp_modify. fields.
  rewrite bool_decide_eq_false_2 by done.
  replace (outgoing_rel_replay_order s ++ k :: l) with ((outgoing_rel_replay_order s ++ [k]) ++ l)
    in * by (by rewrite <- (assoc_L (++))).
  apply IH; fields; [done|..].
  - intros j Hj. rewrite len_put_bit. apply Hall. by right.
  - by apply bits_ok_insert.
  - intros bits Hl Hb. by apply (HQ bits); [rewrite Hl, len_put_bit|].
Qed.

Lemma wp_clean_subscribes (keep : bool) entries ids s (Q : list CleanRequest → _ → Prop) X :
  ids_ok ((if keep then [] else entries.*1) ++ ids) (outbound_pkid_in_use s)
    (outbound_pkid_count s) →
  (∀ in_use count, ids_ok ids in_use count →
     Q (map clean_subscribe entries) (reserving s in_use count)) →
  wp (clean_subscribes keep entries) Q X s.
Proof.
  revert s Q. induction entries as [|[k p] entries IH]; intros s Q Hids HQ.
  { apply wp_ret. rewrite <- (reserving_same s). apply HQ. by destruct keep. }
  cbn [clean_subscribes]. apply wp_bind. destruct keep; cbn [app fmap list_fmap fst] in Hids.
  - apply wp_ret, wp_bind, IH; [done|]. intros in_use count Hids'. apply wp_ret. by apply HQ.
  - apply (wp_release (entries.*1 ++ ids)); [done|]. intros in_use count Hids'.
    apply wp_bind, IH; [done|]. intros in_use' count' Hids''. apply wp_ret.
    by apply (HQ in_use' count').
Qed.

Lemma wp_clean_unsubscribes (keep : bool) entries ids s (Q : list CleanRequest → _ → Prop) X :
  ids_ok ((if keep then [] else entries.*1) ++ ids) (outbound_pkid_in_use s)
    (outbound_pkid_count s) →
  (∀ in_use count, ids_ok ids in_use count →
     Q (map clean_unsubscribe entries) (reserving s in_use count)) →
  wp (clean_unsubscribes keep entries) Q X s.
Proof.
  revert s Q. induction entries as [|[k p] entries IH]; intros s Q Hids HQ.
  { apply wp_ret. rewrite <- (reserving_same s). apply HQ. by destruct keep. }
  cbn [clean_unsubscribes]. apply wp_bind. destruct keep; cbn [app fmap list_fmap fst] in Hids.
  - apply wp_ret, wp_bind, IH; [done|]. intros in_use count Hids'. apply wp_ret. by apply HQ.
  - apply (wp_release (entries.*1 ++ ids)); [done|]. intros in_use count Hids'.
    apply wp_bind, IH; [done|]. intros in_use' count' Hids''. apply wp_ret.
    by apply (HQ in_use' count').
Qed.

(** ** The identifiers *)

(** What stays reserved: on a reconnection the identifiers of the requests to send again. *)
Definition cleaned_Rp (keep : bool) Rp s : gset Z :=
  if keep then Rp ∪ list_to_set (outgoing_pub_order s) else Rp.
Definition cleaned_Rc (keep : bool) Rc s : gset Z :=
  if keep then Rc ∪ (dom (pending_subscribe s) ∪ dom (pending_unsubscribe s)) else Rc.

(** The identifiers in use before, as those that stay and those that are released. *)
Lemma live_ids_clean (keep : bool) Rp Rc s :
  NoDup (live_ids Rp Rc s) →
  live_ids Rp Rc s ≡ₚ
  (if keep then [] else outgoing_pub_order s) ++
  (if keep then [] else keys (pending_subscribe s)) ++
  (if keep then [] else keys (pending_unsubscribe s)) ++
  (outgoing_rel_replay_order s ++ outgoing_rel_order s) ++
  elements (cleaned_Rp keep Rp s) ++ elements (cleaned_Rc keep Rc s).
Proof.
  intros Hnd. unfold live_ids, cleaned_Rp, cleaned_Rc in *.
  destruct keep; [|solve_Permutation].
  rewrite !NoDup_app in Hnd. destruct Hnd as (Hn1 & Hd1 & _ & _ & _ & _ & _ & Hd4 & _ & Hd5 & _).
  rewrite elements_union_list by (done || (intros k Hk Hin; apply (Hd1 k Hk);
    rewrite !elem_of_app, !elem_of_elements; tauto)).
  rewrite elements_disj_union, elements_disj_union, !elements_dom.
  - cbn [app]. solve_Permutation.
  - intros k Hs%elem_of_dom Hu%elem_of_dom. apply (Hd4 k); [by apply keys_elem|].
    rewrite elem_of_app, keys_elem. by left.
  - intros k Hk [Hs%elem_of_dom|Hu%elem_of_dom]%elem_of_union.
    + apply (Hd4 k); [by apply keys_elem|]. rewrite !elem_of_app, !elem_of_elements. tauto.
    + apply (Hd5 k); [by apply keys_elem|]. rewrite !elem_of_app, !elem_of_elements. tauto.
Qed.

(** What [clean] leaves. *)
Record cleaned (keep : bool) Rp Rc s s' : Prop := {
  cleaned_inv : inv (cleaned_Rp keep Rp s) (cleaned_Rc keep Rc s) s';
  cleaned_pub : outgoing_pub_order s' = [];
  cleaned_rel : outgoing_rel_order s' = [];
  cleaned_replay : outgoing_rel_replay_order s' =
                   outgoing_rel_replay_order s ++ outgoing_rel_order s;
  cleaned_control : pending_subscribe s' = ∅ ∧ pending_unsubscribe s' = ∅;
  cleaned_collision : collision s' = None;
  cleaned_inflight : inflight s' = 0;
  cleaned_puback : incoming_puback s' = clear_bits (incoming_puback s);
  cleaned_incoming : incoming_pub s' = incoming_pub s ∧ incoming_pubrec s' = incoming_pubrec s;
  cleaned_config : max_inflight s' = max_inflight s ∧ ack_mode s' = ack_mode s;
  cleaned_events : events s' = events s;
  cleaned_ping : ping s' = PingState_new;
}.


(** The state [clean] computes before it shrinks the vectors: [pubs], [pubn], [reln], [replay]
    are the new vectors, [in_use] and [count] the identifiers left. *)
Definition collected s pubs pubn reln replay in_use count cn : MqttState B :=
  set_inflight 0 (set_ping PingState_new
    (set_incoming_puback (clear_bits (incoming_puback s))
    (reserving (set_pending_unsubscribe ∅ (set_pending_subscribe ∅
      (set_outgoing_rel (clear_bits (outgoing_rel s))
      (set_outgoing_rel_replay_order (outgoing_rel_replay_order s ++ outgoing_rel_order s)
      (set_outgoing_rel_replay replay (set_outgoing_rel_notice reln (set_outgoing_rel_order []
      (set_collision_notice cn (set_collision None
      (set_outgoing_pub_notice pubn (set_outgoing_pub pubs
      (set_outgoing_pub_order [] s)))))))))))) in_use count))).

Lemma collected_cleaned (keep : bool) Rp Rc s pubs pubn reln replay in_use count cn :
  inv Rp Rc s → emptied (outgoing_pub_order s) (outgoing_pub s) pubs →
  blen pubn = blen (outgoing_pub s) → blen reln = blen (outgoing_pub s) →
  bits_len replay = blen (outgoing_pub s) →
  bits_ok (outgoing_rel_replay_order s ++ outgoing_rel_order s) replay →
  ids_ok ((outgoing_rel_replay_order s ++ outgoing_rel_order s) ++
    elements (cleaned_Rp keep Rp s) ++ elements (cleaned_Rc keep Rc s)) in_use count →
  cleaned keep Rp Rc s (collected s pubs pubn reln replay in_use count cn).
Proof.
  intros I He Hpn Hrn Hrl Hrep Hids. destruct (inv_lens _ _ _ I) as [Hl1 Hl2 Hl3 Hl4 Hl5].
  split; [|done..]. unfold collected. inv_frame I; try done.
  - destruct He as [He _]. split; rewrite ?len_clear; lia.
  - destruct (inv_incoming _ _ _ I) as [Hp Hi Hr Hri]. split; [|done..]. by rewrite len_clear.
  - by eapply slots_ok_emptied; [apply I|].
  - apply bits_ok_clear.
  - destruct (inv_max _ _ _ I). lia.
  - intros k Hk. destruct He as [-> _]. unfold cleaned_Rp in Hk. destruct keep.
    + apply elem_of_union in Hk as [Hk|Hk]; [by apply (inv_reserved _ _ _ I)|].
      apply elem_of_list_to_set in Hk. by apply (inv_pub_range _ _ _ I).
    + by apply (inv_reserved _ _ _ I).
Qed.

Lemma cleaned_retracked keep Rp Rc s s1 s2 :
  cleaned keep Rp Rc s s1 → retracked s1 s2 →
  inv (cleaned_Rp keep Rp s) (cleaned_Rc keep Rc s) s2 → cleaned keep Rp Rc s s2.
Proof.
  intros [_ ???? ? ?? [??] [??] ??] (Hs & _) I2. unfold session_of in Hs.
  injection Hs as Hping Hmax Hinf Hpo Hro Hrro Hpa Hip Hir Hiu Hc Hcol Hcn Hsub Hunsub Hev Ham.
  split; congruence || (split; congruence).
Qed.

Lemma clean_orders Rp Rc s :
  inv Rp Rc s →
  fill_pub_order (tail (outgoing_pub s)) 1 (outgoing_pub_order s) = Ok (outgoing_pub_order s) ∧
  fill_rel_order (ones (outgoing_rel s)) (outgoing_rel_order s) = Ok (outgoing_rel_order s).
Proof.
  intros I. pose proof (len_pub _ _ _ _ _ (inv_lens _ _ _ I)) as Hl. split.
  - destruct (outgoing_pub s) as [|x pubs] eqn:Hp; [unfold blen in Hl; simpl in Hl; lia|].
    rewrite blen_cons in Hl. cbn [tail]. apply fill_pub_order_id; [lia..|].
    intros j p Hj Hv. apply (inv_slot_some _ _ _ I _ p); [lia|]. rewrite Hp.
    unfold vget in *. by replace (Z.to_nat (1 + j)) with (S (Z.to_nat j)) by lia.
  - apply fill_rel_order_id. intros k Hk%elem_of_ones%(inv_rel _ _ _ I). split; [|done].
    apply (inv_rel_range _ _ _ I) in Hk. lia.
Qed.

Lemma clean_publish_ok Rp Rc s k :
  inv Rp Rc s → k ∈ outgoing_pub_order s →
  0 ≤ k < blen (outgoing_pub s) ∧ ∃ p, vget (outgoing_pub s) k = Some (Some p) ∧ pub_pkid p = k.
Proof.
  intros I Hk. pose proof (inv_pub_range _ _ _ I k Hk). split; [lia|].
  apply (slots_order _ _ (inv_slots _ _ _ I)) in Hk as [Hk [p Hp]]. exists p. split; [done|].
  by apply (slots_publish _ _ (inv_slots _ _ _ I) k p).
Qed.

Lemma wp_clean_collision s (Q : list CleanRequest → _ → Prop) X :
  (∀ cn, Q (clean_held s) (set_collision_notice cn (set_collision None s))) →
  wp clean_collision Q X s.
Proof.
  intros HQ. unfold clean_collision. apply wp_bind, wp_get. unfold clean_held in HQ.
  destruct (collision s) as [p|] eqn:Hc.
  - apply wp_bind, wp_modify, wp_bind, wp_modify, wp_ret, HQ.
  - apply wp_ret. specialize (HQ (collision_notice s)).
    by replace (set_collision_notice (collision_notice s) (set_collision None s)) with s in HQ
      by (destruct s; cbn in Hc; by subst).
Qed.

Lemma wp_clean (keep : bool) Rp Rc s (Q : list CleanRequest → _ → Prop) X :
  inv Rp Rc s → (∀ s', cleaned keep Rp Rc s s' → Q (unfinished s) s') →
  wp (clean_with_notices_internal keep) Q X s.
Proof.
  intros I HQ. destruct (inv_lens _ _ _ I) as [Hl1 Hl2 Hl3 Hl4 Hl5].
  destruct (inv_orders_nodup _ _ _ I) as (Hn1 & Hn2 & Hn3).
  pose proof (inv_ids _ _ _ I) as Hids. pose proof (ids_nodup _ _ _ Hids) as Hnd.
  rewrite (live_ids_clean keep Rp Rc s Hnd) in Hids.
  assert (Hnr : NoDup (outgoing_rel_replay_order s ++ outgoing_rel_order s)).
  { apply ids_nodup in Hids. rewrite !NoDup_app in Hids. rewrite NoDup_app. tauto. }
  destruct (clean_orders _ _ _ I) as [Ho1 Ho2].
  unfold clean_with_notices_internal. apply wp_bind, wp_get. rewrite Ho1, Ho2.
  do 2 apply wp_bind, wp_ret. apply wp_bind, wp_modify, wp_bind.
  apply wp_clean_publishes; [done|done|by intros k; apply (clean_publish_ok _ _ _ _ I)|].
  intros pubs pubn Hpubs Hpubn. apply wp_bind.
  replace (if keep then ([] : list Z) else outgoing_pub_order s)
    with ((if keep then [] else outgoing_pub_order s) : list Z) in Hids by done.
  eapply wp_release_all; [exact Hids|]. intros u1 c1 Hids1.
  apply wp_bind, wp_clean_collision. intros cn. apply wp_bind, wp_modify, wp_bind.
  apply wp_clean_pubrels; [done|..].
  { intros k Hk. apply (inv_rel_range _ _ _ I) in Hk. fields. lia. }
  intros reln Hreln. apply wp_bind, wp_mark_pubrel_replay; fields; [done|..|apply I|].
  { intros k Hk. apply (inv_rel_range _ _ _ I) in Hk. lia. }
  intros replay Hrl Hrep. apply wp_bind, wp_modify, wp_bind, wp_get, wp_bind, wp_modify, wp_bind.
  apply (wp_clean_subscribes _ _ ((if keep then [] else keys (pending_unsubscribe s)) ++
    (outgoing_rel_replay_order s ++ outgoing_rel_order s) ++
    elements (cleaned_Rp keep Rp s) ++ elements (cleaned_Rc keep Rc s))).
  { destruct keep; cbn [app] in Hids1 |- *; [exact Hids1|].
    fields. rewrite keys_btree. exact Hids1. }
  intros u2 c2 Hids2. fields. apply wp_bind, wp_get, wp_bind, wp_modify, wp_bind.
  apply (wp_clean_unsubscribes _ _ ((outgoing_rel_replay_order s ++ outgoing_rel_order s) ++
    elements (cleaned_Rp keep Rp s) ++ elements (cleaned_Rc keep Rc s))).
  { destruct keep; cbn [app] in Hids2 |- *; [exact Hids2|].
    fields. rewrite keys_btree. exact Hids2. }
  intros u3 c3 Hids3. fields. do 3 apply wp_bind, wp_modify. fields.
  assert (HC : cleaned keep Rp Rc s (collected s pubs pubn reln replay u3 c3 cn)).
  { apply collected_cleaned; try done. { destruct Hpubn. lia. } { lia. } { lia. } }
  change (wp ((if no_entries (unfinished s) then maybe_shrink_outgoing_tracking_capacity
               else mret tt);; mret (unfinished s)) Q X
            (collected s pubs pubn reln replay u3 c3 cn)).
  apply wp_bind. destruct (no_entries _); [|by apply wp_ret, wp_ret, HQ].
  eapply wp_shrink; [apply HC|]. intros s' I' Hr _ _. apply wp_ret, HQ.
  by eapply cleaned_retracked.
Qed.

(** ** A new session *)

Lemma inv_new now m am : 0 ≤ m ≤ u16_MAX → inv ∅ ∅ (new_internal (B:=B) now m am).
Proof.
  intros Hm. pose proof (warm_tracking_len_range m Hm) as Hw. unfold new_internal.
  constructor; cbn; try done.
  - assert (Hb : ∀ A (x : A), blen (replicate (Z.to_nat (warm_tracking_len m)) x)
                              = warm_tracking_len m).
    { intros A x. unfold blen. rewrite length_replicate. lia. }
    split; rewrite ?len_with_capacity, ?Hb by lia;
      unfold full_packet_identifier_len, u16_MAX; lia.
  - split; [by rewrite len_with_capacity..|]. intros k. by rewrite contains_with_capacity.
  - apply slots_ok_empty.
  - apply bits_ok_empty.
  - apply bits_ok_empty.
  - rewrite elements_empty. split; try done; [by apply len_with_capacity|constructor| |].
    + by intros k ?%not_elem_of_nil.
    + apply bits_ok_empty.
  - lia.
Qed.

(** ** Failing the notices of a session *)

(** The notices of requests being tracked, in the order [fail_pending_notices] fails them. *)
Definition tracked_notices s : list TrackedNoticeTx :=
  slot_notices (outgoing_pub_notice s) ++ slot_notices (outgoing_rel_notice s) ++
  slot_notices [collision_notice s] ++
  (TN_Subscribe <$> omap (λ e, ps_notice e.2) (btree_entries (pending_subscribe s))) ++
  (TN_Unsubscribe <$> omap (λ e, pu_notice e.2) (btree_entries (pending_unsubscribe s))).

Lemma wp_drain_subscribes entries ids s (Q : list TrackedNoticeTx → _ → Prop) X :
  ids_ok (entries.*1 ++ ids) (outbound_pkid_in_use s) (outbound_pkid_count s) →
  (∀ in_use count, ids_ok ids in_use count →
     Q (TN_Subscribe <$> omap (λ e, ps_notice e.2) entries) (reserving s in_use count)) →
  wp (drain_subscribes entries) Q X s.
Proof.
  revert s Q. induction entries as [|[k p] entries IH]; intros s Q Hids HQ.
  { apply wp_ret. rewrite <- (reserving_same s). by apply HQ. }
  cbn [drain_subscribes]. apply wp_bind, (wp_release (entries.*1 ++ ids)); [done|].
  intros in_use count Hids'. apply wp_bind, IH; [done|]. intros in_use' count' Hids''.
  apply wp_ret. specialize (HQ in_use' count' Hids''). cbn [omap list_omap snd] in HQ.
  by destruct (ps_notice p).
Qed.

Lemma wp_drain_unsubscribes entries ids s (Q : list TrackedNoticeTx → _ → Prop) X :
  ids_ok (entries.*1 ++ ids) (outbound_pkid_in_use s) (outbound_pkid_count s) →
  (∀ in_use count, ids_ok ids in_use count →
     Q (TN_Unsubscribe <$> omap (λ e, pu_notice e.2) entries) (reserving s in_use count)) →
  wp (drain_unsubscribes entries) Q X s.
Proof.
  revert s Q. induction entries as [|[k p] entries IH]; intros s Q Hids HQ.
  { apply wp_ret. rewrite <- (reserving_same s). by apply HQ. }
  cbn [drain_unsubscribes]. apply wp_bind, (wp_release (entries.*1 ++ ids)); [done|].
  intros in_use count Hids'. apply wp_bind, IH; [done|]. intros in_use' count' Hids''.
  apply wp_ret. specialize (HQ in_use' count' Hids''). cbn [omap list_omap snd] in HQ.
  by destruct (pu_notice p).
Qed.

(** [s] without its pending subscribe and unsubscribe requests. *)
Lemma inv_drained Rp Rc s in_use count :
  inv Rp Rc s →
  ids_ok (outgoing_pub_order s ++ outgoing_rel_order s ++ outgoing_rel_replay_order s ++
    elements Rp ++ elements Rc) in_use count →
  inv Rp Rc (reserving (set_pending_unsubscribe ∅ (set_pending_subscribe ∅ s)) in_use count).
Proof. intros I Hids. inv_frame I; done. Qed.

Lemma inv_fail_slots Rp Rc s :
  inv Rp Rc s →
  inv Rp Rc (set_outgoing_rel_notice ((λ _, None) <$> outgoing_rel_notice s)
    (set_outgoing_pub_notice ((λ _, None) <$> outgoing_pub_notice s) s)).
Proof.
  intros I. inv_frame I. destruct (inv_lens _ _ _ I) as [Hl1 Hl2 Hl3 Hl4 Hl5].
  split; try done; unfold blen in *; by rewrite length_fmap.
Qed.

Lemma inv_clear_collision Rp Rc s v : inv Rp Rc s → inv Rp Rc (set_ping v (set_collision None s)).
Proof. intros I. inv_frame I. done. Qed.

Lemma wp_drain_tracked Rp Rc s (Q : Z * list TrackedNoticeTx → _ → Prop) X :
  inv Rp Rc s →
  (∀ n s', inv Rp Rc s' → max_inflight s' = max_inflight s → ack_mode s' = ack_mode s →
     outgoing_pub_order s' = outgoing_pub_order s →
     Q (n, (TN_Subscribe <$> omap (λ e, ps_notice e.2) (btree_entries (pending_subscribe s))) ++
        (TN_Unsubscribe <$> omap (λ e, pu_notice e.2) (btree_entries (pending_unsubscribe s)))) s') →
  wp drain_tracked_requests_as_failed Q X s.
Proof.
  intros I HQ. unfold drain_tracked_requests_as_failed.
  apply wp_bind, wp_get, wp_bind, wp_modify, wp_bind.
  pose proof (inv_ids _ _ _ I) as Hids.
  set (rest := outgoing_pub_order s ++ outgoing_rel_order s ++ outgoing_rel_replay_order s ++
    elements Rp ++ elements Rc).
  assert (Hp : live_ids Rp Rc s ≡ₚ (btree_entries (pending_subscribe s)).*1 ++
                 (btree_entries (pending_unsubscribe s)).*1 ++ rest).
  { unfold live_ids, rest. rewrite !keys_btree. solve_Permutation. }
  rewrite Hp in Hids. eapply wp_drain_subscribes; [exact Hids|]. intros u1 c1 Hids1.
  apply wp_bind, wp_get, wp_bind, wp_modify, wp_bind.
  eapply wp_drain_unsubscribes; [exact Hids1|]. intros u2 c2 Hids2.
  apply wp_bind. eapply (wp_shrink Rp Rc); [by apply (inv_drained Rp Rc s u2 c2)|].
  intros s' I' [Hs _] _ _. unfold session_of in Hs.
  injection Hs as Hping Hmax Hinf Hpo Hro Hrro Hpa Hip Hir Hiu Hc Hcol Hcn Hsub Hunsub Hev Ham.
  by apply wp_ret, HQ.
Qed.

Lemma wp_fail_pending_notices Rp Rc s (Q : list TrackedNoticeTx → _ → Prop) X :
  inv Rp Rc s →
  (∀ s', inv Rp Rc s' → max_inflight s' = max_inflight s → ack_mode s' = ack_mode s →
     Q (tracked_notices s) s') →
  wp fail_pending_notices Q X s.
Proof.
  intros I HQ. unfold fail_pending_notices. apply wp_bind, wp_get.
  do 3 apply wp_bind, wp_modify. apply wp_bind. eapply (wp_drain_tracked Rp Rc).
  { by apply inv_set_collision_notice, (inv_fail_slots Rp Rc s). }
  intros n s1 I1 Hm1 Ha1 _. apply wp_bind, wp_modify. apply wp_bind.
  eapply (wp_shrink Rp Rc).
  { by apply (inv_clear_collision _ _ (set_collision_notice None s1)), inv_set_collision_notice. }
  intros s' I' [Hs _] _ _. unfold session_of in Hs.
  injection Hs as Hping Hmax Hinf Hpo Hro Hrro Hpa Hip Hir Hiu Hc Hcol Hcn Hsub Hunsub Hev Ham.
  apply wp_ret, HQ; [done|..].
  - rewrite <- Hmax. exact Hm1.
  - rewrite <- Ham. exact Ha1.
Qed.

Lemma wp_reset_session_state Rp Rc now s (Q : list TrackedNoticeTx → _ → Prop) X :
  inv Rp Rc s → Q (tracked_notices s) (new_internal now (max_inflight s) (ack_mode s)) →
  wp (reset_session_state now) Q X s.
Proof.
  intros I HQ. unfold reset_session_state. apply wp_bind, (wp_fail_pending_notices Rp Rc); [done|].
  intros s' I' Hm Ha. apply wp_bind, wp_modify, wp_ret. by rewrite Hm, Ha.
Qed.
End CleanProofs.
