(* ===== verification/V4Reachable.v ===== *)
(** The session as a transition system: requests, replayed requests, packets, disconnections and
    resets in any order.  Every reachable state satisfies the invariant and no operation the
    event loop may call there panics.

    What no operation of the session state undoes: the window and the acknowledgement mode are
    fixed, events are only appended, and a QoS 2 publish stays recorded until its PUBREL.

    These facts hold of every run from every state, so they need no invariant: they are closed
    under the constructs of the monad, and the hint database [stable] applies the closure. *)

From S2P Require Import Prelude.
From S2P Require Import Utf8.
From S2P Require Import Primitives.
From S2P Require Import CodecBase.
From S2P Require Import V4Base.
From S2P Require Import V4Acks.
From S2P Require Import V4Publish.
From S2P Require Import V4Subscribe.
From S2P Require Import V4Connect.
From S2P Require Import V4Packet.
From S2P Require Import FixedBitSet.
From S2P Require Import PacketIds.
From S2P Require Import V4SessionTypes.
From S2P Require Import V4State.
From S2P Require Import V4Clean.
From S2P Require Import V4Invariant.
From S2P Require Import V4Handlers.
From S2P Require Import V4Session.
From S2P Require Import V4CleanProofs.
#[local] Open Scope Z_scope.

(** ** Operations *)

Inductive Op :=
| Op_Request (now : Instant) (request : Request) (notice : option TrackedNoticeTx)
| Op_Replay (now : Instant) (request : Request) (notice : option TrackedNoticeTx)
| Op_Packet (now : Instant) (packet : Packet)
| Op_PopEvent
| Op_Clean (keep_replay_pkids_reserved : bool)
| Op_Reset (now : Instant).

Section Reachable.
  Context {B : Type} `{FixedBitSetLaws B}.

Abbreviation ST := (M (MqttState B) StateError).
Implicit Types (s : MqttState B) (Rp Rc : gset Z).

(** An operation, with the packet it makes the client send. *)
Definition run_op (op : Op) : ST (option Packet) :=
  match op with
  | Op_Request now request notice =>
      result ← handle_outgoing_packet_with_notice now request notice; mret result.1
  | Op_Replay now request notice =>
      result ← handle_replayed_outgoing_packet_with_notice now request notice; mret result.1
  | Op_Packet now packet =>
      effects ← handle_incoming_packet_with_effects now packet; mret (eff_outgoing effects)
  | Op_PopEvent => mmodify (λ s, set_events (tail (events s)) s);; mret None
  | Op_Clean keep => clean_with_notices_internal keep;; mret None
  | Op_Reset now => reset_session_state now;; mret None
  end.

(** What the event loop passes to the state: requests that are not graceful disconnects, which
    it handles itself; for replay, requests [clean] returned and that were not sent again yet;
    packets the codec has read. *)
Definition op_allowed Rp Rc s (op : Op) : Prop :=
  match op with
  | Op_Request _ request _ => request_u16 request ∧ graceful_disconnect request = false
  | Op_Replay _ request _ => replayable Rp Rc s request
  | Op_Packet _ packet => packet_u16 packet
  | Op_PopEvent | Op_Clean _ | Op_Reset _ => True
  end.

(** The identifiers reserved for replay after an operation. *)
Definition reserved_after Rp Rc s (op : Op) : gset Z * gset Z :=
  match op with
  | Op_Replay _ request _ =>
      if is_ok (run_op op s).1 then after_replay Rp Rc request else (Rp, Rc)
  | Op_Clean keep => (cleaned_Rp keep Rp s, cleaned_Rc keep Rc s)
  | Op_Reset _ => (∅, ∅)
  | _ => (Rp, Rc)
  end.

Inductive reachable (m : u16) (am : AckMode) : gset Z → gset Z → MqttState B → Prop :=
| reach_new now : reachable m am ∅ ∅ (new_internal now m am)
| reach_step Rp Rc s op :
    reachable m am Rp Rc s → op_allowed Rp Rc s op →
    reachable m am (reserved_after Rp Rc s op).1 (reserved_after Rp Rc s op).2 (run_op op s).2.

(** ** The invariant *)

Lemma wp_run {A} (m : ST A) P s : wp m (λ _ s', P s') (λ _ s', P s') s → (m s).1 ≠ Panic ∧ P (m s).2.
Proof. unfold wp. by destruct (m s) as [[]]. Qed.

Lemma op_sound Rp Rc s op :
  inv Rp Rc s → op_allowed Rp Rc s op →
  (run_op op s).1 ≠ Panic ∧
  inv (reserved_after Rp Rc s op).1 (reserved_after Rp Rc s op).2 (run_op op s).2.
Proof.
  intros I Hop. destruct op as [now r n|now r n|now p| |keep|now]; cbn [reserved_after fst snd].
  - destruct Hop. apply wp_run, wp_bind. by eapply wp_mono; [by apply (wp_handle_outgoing Rp Rc)|..].
  - pose proof (wp_handle_replayed Rp Rc now s r n I Hop) as Hw. unfold wp in Hw. cbn [run_op].
    rewrite bind_run. destruct (handle_replayed_outgoing_packet_with_notice now r n s) as [[res|e|] s'].
    + by destruct Hw as [? ->].
    + by destruct Hw as (-> & _).
    + done.
  - apply wp_run, wp_bind. eapply wp_mono; [by apply (wp_handle_incoming Rp Rc)|..].
    + by intros eff s' [? _].
    + by intros e s' ->.
  - apply wp_run, wp_bind, wp_modify, wp_ret. by apply inv_set_events.
  - apply wp_run, wp_bind, (wp_clean keep Rp Rc); [done|]. intros s' Hc. apply wp_ret, Hc.
  - apply wp_run, wp_bind, (wp_reset_session_state Rp Rc); [done|]. apply wp_ret, inv_new, I.
Qed.

Lemma reachable_inv m am Rp Rc s : 0 ≤ m ≤ u16_MAX → reachable m am Rp Rc s → inv Rp Rc s.
Proof.
  intros Hm. induction 1 as [now|Rp Rc s op _ IH Hop]; [by apply inv_new|].
  by apply op_sound.
Qed.

(** ** Sequences of operations *)

Fixpoint run_ops (ops : list Op) s : MqttState B :=
  match ops with [] => s | op :: ops => run_ops ops (run_op op s).2 end.

(** Operations allowed in every state that reserve nothing. *)
Definition plain_op (op : Op) : Prop :=
  match op with
  | Op_Request _ request _ => request_u16 request ∧ graceful_disconnect request = false
  | Op_Packet _ packet => packet_u16 packet
  | Op_PopEvent => True
  | _ => False
  end.

Lemma reachable_ops m am Rp Rc s ops :
  reachable m am Rp Rc s → Forall plain_op ops → reachable m am Rp Rc (run_ops ops s).
Proof.
  intros Hs Hops. revert s Hs. induction Hops as [|op ops Hop _ IH]; intros s Hs; [done|].
  apply IH. pose proof (reach_step m am Rp Rc s op Hs) as Hstep.
  destruct op; try done; by apply Hstep.
Qed.
End Reachable.

(** ** A concrete session

    The examples below use a session with window 10 that has sent a QoS 1 publish, a QoS 2
    publish and a subscription, and has received a QoS 2 publish with identifier 7. *)

Definition demo_publish (q : QoS) (k : u16) : Publish :=
  {| dup := false; retain := false; pub_qos := q; topic := [97; 47; 98]; pub_pkid := k;
     payload := [1; 2; 3] |}.

Definition demo_subscribe : Subscribe :=
  {| subscribe_pkid := 0; filters := [{| path := [97; 47; 35]; filter_qos := AtLeastOnce |}] |}.

Definition demo_ops : list Op :=
  [Op_Request 1 (R_Publish (demo_publish AtLeastOnce 0)) (Some (TN_Publish 11));
   Op_Request 2 (R_Publish (demo_publish ExactlyOnce 0)) (Some (TN_Publish 12));
   Op_Request 3 (R_Subscribe demo_subscribe) (Some (TN_Subscribe 13));
   Op_Packet 4 (P_Publish (demo_publish ExactlyOnce 7))].

Definition demo_state : MqttState BitVector := run_ops demo_ops (new_internal 0 10 Automatic).

Lemma demo_reachable : reachable 10 Automatic ∅ ∅ demo_state.
Proof.
  apply reachable_ops; [apply reach_new|]. repeat constructor; try done.
Qed.

Lemma demo_order k : k ∈ outgoing_pub_order demo_state ↔ k = 1 ∨ k = 2.
Proof.
  assert (Ho : outgoing_pub_order demo_state = [1; 2]) by (by vm_compute).
  rewrite Ho, !elem_of_cons, elem_of_nil. tauto.
Qed.

Create HintDb stable.

Section Stable.
  Context {B : Type} `{FixedBitSetLaws B}.

Abbreviation ST := (M (MqttState B) StateError).
Implicit Types (s : MqttState B).

(** [s'] is later than [s] in a session in which [k] has not been released. *)
Record later (k : Z) s s' : Prop := {
  later_max : max_inflight s' = max_inflight s;
  later_ack : ack_mode s' = ack_mode s;
  later_events : appends_events s s';
  later_recorded : contains (incoming_pubrec s) k = true → contains (incoming_pubrec s') k = true;
}.

#[global] Instance later_preorder k : PreOrder (later k).
Proof.
  split.
  - intros s. split; try done. by apply appends_events_same.
  - intros s1 s2 s3 [Hm1 Ha1 [o1 He1] Hr1] [Hm2 Ha2 [o2 He2] Hr2]. split; [congruence..| |auto].
    exists (o1 ++ o2). by rewrite He2, He1, map_app, <- (assoc_L (++)).
Qed.

Lemma later_same k s s' :
  max_inflight s' = max_inflight s → ack_mode s' = ack_mode s → events s' = events s →
  incoming_pubrec s' = incoming_pubrec s → later k s s'.
Proof. intros Hm Ha He Hr. split; [done..|by apply appends_events_same|by rewrite Hr]. Qed.

Definition stable {A} (k : Z) (m : ST A) : Prop := ∀ s, later k s (m s).2.

Lemma stable_bind {A C} k (m : ST A) (f : A → ST C) :
  stable k m → (∀ a, stable k (f a)) → stable k (m ≫= f).
Proof.
  intros Hm Hf s. rewrite bind_run. specialize (Hm s). destruct (m s) as [[a|e|] s']; try done.
  etrans; [exact Hm|apply Hf].
Qed.

Lemma stable_lift {A} k (r : outcome StateError A) : stable k (lift r).
Proof. by intros s. Qed.
Lemma stable_ret {A} k (a : A) : stable k (mret a).
Proof. by intros s. Qed.
Lemma stable_get k : stable k mget.
Proof. by intros s. Qed.
Lemma stable_modify k f : (∀ s, later k s (f s)) → stable k (mmodify f).
Proof. intros Hf s. apply Hf. Qed.
Lemma stable_push k o : stable k (push_event o).
Proof. apply stable_modify. intros s. split; try done. by eapply appends_events_one. Qed.
Lemma stable_expect {A} k (m : ST A) : stable k m → stable k (expect_ok m).
Proof. intros Hm s. specialize (Hm s). unfold expect_ok. by destruct (m s) as [[]]. Qed.
Lemma stable_set_bit k (b : B) i v : stable k (set_bit b i v).
Proof. unfold set_bit. case_match; by intros s. Qed.
End Stable.

(** Follow the structure of the computation. *)
Ltac stable_step :=
  match goal with
  | |- stable _ (_ ≫= _) => apply stable_bind; [|intros ?]
  | |- stable _ (mret _) => apply stable_ret
  | |- stable _ (mfail _) => apply stable_lift
  | |- stable _ (lift _) => apply stable_lift
  | |- stable _ mpanic => apply stable_lift
  | |- stable _ mget => apply stable_get
  | |- stable _ (push_event _) => apply stable_push
  | |- stable _ (set_bit _ _ _) => apply stable_set_bit
  | |- stable _ (insert_bit _ _) => apply stable_set_bit
  | |- stable _ (mmodify _) =>
      apply stable_modify; intros ?; repeat case_match; by apply later_same
  | |- stable _ (expect_ok _) => apply stable_expect
  | |- stable _ (match ?x with _ => _ end) => destruct x
  | |- stable _ _ => solve [eauto with stable]
  end.
Ltac stable_auto := repeat stable_step.

Section Operations.
  Context {B : Type} `{FixedBitSetLaws B}.

Abbreviation ST := (M (MqttState B) StateError).
Implicit Types (s : MqttState B).

Lemma stable_index {A} k (v : list A) i : stable (B:=B) k (index v i).
Proof. unfold index. stable_auto. Qed.
Lemma stable_assign {A} k (v : list A) i x : stable (B:=B) k (assign v i x).
Proof. unfold assign. stable_auto. Qed.
Hint Resolve stable_index stable_assign : stable.

Lemma stable_ensure k n : stable (B:=B) k (ensure_outgoing_tracking_capacity n).
Proof. unfold ensure_outgoing_tracking_capacity. stable_auto. Qed.
Lemma stable_shrink k : stable (B:=B) k maybe_shrink_outgoing_tracking_capacity.
Proof. unfold maybe_shrink_outgoing_tracking_capacity. stable_auto. Qed.
Lemma stable_reserve k i : stable (B:=B) k (reserve_outbound_pkid i).
Proof. unfold reserve_outbound_pkid. stable_auto. Qed.
Lemma stable_release k i : stable (B:=B) k (release_outbound_pkid i).
Proof. unfold release_outbound_pkid. stable_auto. Qed.
Lemma stable_accept k i : stable (B:=B) k (accept_replayed_outbound_pkid i).
Proof. unfold accept_replayed_outbound_pkid. stable_auto. Qed.
Hint Resolve stable_ensure stable_shrink stable_reserve stable_release stable_accept : stable.

Lemma stable_track k p n : stable (B:=B) k (track_publish p n).
Proof. unfold track_publish, inflight_incr. stable_auto. Qed.
Hint Resolve stable_track : stable.

Lemma stable_place k p n r : stable (B:=B) k (place_publish p n r).
Proof. unfold place_publish. stable_auto. Qed.
Lemma stable_next_pkid k : stable (B:=B) k next_pkid.
Proof. unfold next_pkid. stable_auto. Qed.
Lemma stable_next_control k : stable (B:=B) k next_control_pkid.
Proof. unfold next_control_pkid. stable_auto. Qed.
Hint Resolve stable_place stable_next_pkid stable_next_control : stable.

Lemma stable_admit k p n r : stable (B:=B) k (admit_publish p n r).
Proof. unfold admit_publish. stable_auto. Qed.
Hint Resolve stable_admit : stable.

Lemma stable_publish k p n r : stable (B:=B) k (outgoing_publish_with_notice_internal p n r).
Proof. unfold outgoing_publish_with_notice_internal. stable_auto. Qed.

Lemma stable_pubrel k r n : stable (B:=B) k (outgoing_pubrel_with_notice r n).
Proof.
  unfold outgoing_pubrel_with_notice, save_pubrel_with_notice, activate_replayed_pubrel,
    inflight_incr, store_rel_notice. stable_auto.
Qed.

Lemma stable_puback k a : stable (B:=B) k (outgoing_puback a).
Proof. unfold outgoing_puback. stable_auto. Qed.

(** A computation that reads the state first. *)
Lemma stable_get_bind {A} k (f : MqttState B → ST A) :
  (∀ s, later k s (f s s).2) → stable k (mget ≫= f).
Proof. intros Hf s. apply Hf. Qed.

(** Recording a publish, or releasing another one. *)
Lemma later_set_bit {A} k j v s s0 (f : B → ST A) :
  later k s s0 → incoming_pubrec s0 = incoming_pubrec s → j ≠ k ∨ v = true →
  (∀ b, stable k (f b)) →
  later k s ((b ← set_bit (incoming_pubrec s) j v; mmodify (set_incoming_pubrec b);; f b) s0).2.
Proof.
  intros Hs Hp Hj Hf. rewrite bind_run. unfold set_bit.
  destruct ((0 <=? j) && (j <? bits_len (incoming_pubrec s))) eqn:Hr; [|done]. cbn [mret M_ret].
  rewrite bind_run. cbn [mmodify]. etrans; [|apply Hf]. etrans; [exact Hs|].
  rewrite andb_true_iff, Z.leb_le, Z.ltb_lt in Hr.
  split; try done; [by apply appends_events_same|]. fields. rewrite Hp. intros Hc.
  rewrite contains_put_bit by lia. destruct (Z.eqb_spec j k); [|done]. naive_solver.
Qed.

Lemma stable_pubrec k a dup : stable (B:=B) k (outgoing_pubrec_internal a dup).
Proof.
  unfold outgoing_pubrec_internal. apply stable_get_bind. intros s.
  destruct (negb _); [done|]. case_match.
  - destruct dup; [|done]. exact (stable_push k (O_PubRec (pubrec_pkid a)) s).
  - apply later_set_bit; [done|done|by right|]. intros b. stable_auto.
Qed.
Hint Resolve stable_publish stable_pubrel stable_puback stable_pubrec : stable.

Lemma stable_ping k : stable (B:=B) k outgoing_ping.
Proof. unfold outgoing_ping. stable_auto. Qed.
Lemma stable_save_subscribe k u n : stable (B:=B) k (save_outgoing_subscribe u n).
Proof. unfold save_outgoing_subscribe. stable_auto. Qed.
Lemma stable_save_unsubscribe k u n : stable (B:=B) k (save_outgoing_unsubscribe u n).
Proof. unfold save_outgoing_unsubscribe. stable_auto. Qed.
Hint Resolve stable_ping stable_save_subscribe stable_save_unsubscribe : stable.
Lemma stable_subscribe k u n : stable (B:=B) k (outgoing_subscribe u n).
Proof. unfold outgoing_subscribe, reserve_control_pkid. stable_auto. Qed.
Lemma stable_replay_subscribe k u n : stable (B:=B) k (replay_outgoing_subscribe u n).
Proof. unfold replay_outgoing_subscribe. stable_auto. Qed.
Lemma stable_unsubscribe k u n : stable (B:=B) k (outgoing_unsubscribe u n).
Proof. unfold outgoing_unsubscribe, reserve_control_pkid. stable_auto. Qed.
Lemma stable_replay_unsubscribe k u n : stable (B:=B) k (replay_outgoing_unsubscribe u n).
Proof. unfold replay_outgoing_unsubscribe. stable_auto. Qed.
Hint Resolve stable_subscribe stable_replay_subscribe stable_unsubscribe
  stable_replay_unsubscribe : stable.

Lemma stable_handle_outgoing k now r n replay :
  stable (B:=B) k (handle_outgoing_packet_with_notice_internal now r n replay).
Proof.
  unfold handle_outgoing_packet_with_notice_internal, outgoing_disconnect, set_last_outgoing_now.
  stable_auto.
Qed.

(** ** Incoming packets *)

Lemma stable_take_publish k i : stable (B:=B) k (take_publish i).
Proof. unfold take_publish. stable_auto. Qed.
Lemma stable_take_pub_notice k i : stable (B:=B) k (take_pub_notice i).
Proof. unfold take_pub_notice. stable_auto. Qed.
Lemma stable_take_rel_notice k i : stable (B:=B) k (take_rel_notice i).
Proof. unfold take_rel_notice. stable_auto. Qed.
Hint Resolve stable_take_publish stable_take_pub_notice stable_take_rel_notice : stable.

Lemma stable_finish k i n r : stable (B:=B) k (finish_publish i n r).
Proof.
  unfold finish_publish, inflight_decr, replay_collision_publish, check_collision. stable_auto.
Qed.
Hint Resolve stable_finish : stable.

Lemma stable_incoming_pubrel k a :
  pubrel_pkid a ≠ k → stable (B:=B) k (handle_incoming_pubrel a).
Proof.
  intros Hk. unfold handle_incoming_pubrel. apply stable_get_bind. intros s.
  destruct (negb (contains (incoming_pub s) _)).
  { exact (stable_push k (O_PubComp (pubrel_pkid a)) s). }
  destruct (negb _); [done|]. rewrite bind_run. unfold set_bit at 1.
  destruct (_ && _); [|done]. cbn [mret M_ret]. rewrite bind_run. cbn [mmodify].
  apply later_set_bit; [by apply later_same|done|by left|]. intros b. stable_auto.
Qed.

(** [PUBREL] of [k] apart. *)
Definition releases (k : Z) (packet : Packet) : bool :=
  match packet with P_PubRel a => pubrel_pkid a =? k | _ => false end.

Lemma stable_dispatch k packet :
  releases k packet = false → stable (B:=B) k (dispatch packet).
Proof.
  intros Hk. destruct packet; cbn [dispatch releases] in *;
    unfold handle_incoming_publish, handle_incoming_suback, handle_incoming_unsuback,
      handle_incoming_puback, handle_incoming_pubrec, handle_incoming_pubcomp,
      handle_incoming_pingresp; stable_auto.
  apply stable_incoming_pubrel. by apply Z.eqb_neq.
Qed.

(** ** Cleaning *)

Lemma stable_release_all k l : stable (B:=B) k (release_all l).
Proof. induction l; cbn [release_all]; stable_auto. Qed.
Lemma stable_clean_publishes k keep l : stable (B:=B) k (clean_publishes keep l).
Proof. induction l; cbn [clean_publishes]; stable_auto. Qed.
Lemma stable_clean_pubrels k l : stable (B:=B) k (clean_pubrels l).
Proof. induction l; cbn [clean_pubrels]; stable_auto. Qed.
Lemma stable_mark_replay k l : stable (B:=B) k (mark_pubrel_replay l).
Proof. induction l; cbn [mark_pubrel_replay]; stable_auto. Qed.
Lemma stable_clean_subscribes k keep l : stable (B:=B) k (clean_subscribes keep l).
Proof. induction l as [|[]]; cbn [clean_subscribes]; stable_auto. Qed.
Lemma stable_clean_unsubscribes k keep l : stable (B:=B) k (clean_unsubscribes keep l).
Proof. induction l as [|[]]; cbn [clean_unsubscribes]; stable_auto. Qed.
Hint Resolve stable_release_all stable_clean_publishes stable_clean_pubrels stable_mark_replay
  stable_clean_subscribes stable_clean_unsubscribes : stable.

Lemma stable_clean k keep : stable (B:=B) k (clean_with_notices_internal keep).
Proof. unfold clean_with_notices_internal, clean_collision. stable_auto. Qed.
End Operations.
