(* ===== verification/V4Safety.v ===== *)
(** What holds in every reachable state of an MQTT 3.1.1 session: nothing panics, packet
    identifiers are unique and accounted for, the window is respected, incoming packets are
    handled atomically, and a QoS 2 publish is delivered once. *)

From S2P Require Import Prelude.
From S2P Require Import Utf8.
From S2P Require Import Primitives.
From S2P Require Import CodecBase.
From S2P Require Import V4Base.
From S2P Require Import V4Acks.
From S2P Require Import V4Publish.
From S2P Require Import V4Subscribe.
From S2P Require Import V4Connect.
From S2P Require Import V4Packet.
From S2P Require Import FixedBitSet.
From S2P Require Import V4SessionTypes.
From S2P Require Import PacketIds.
From S2P Require Import V4State.
From S2P Require Import V4Clean.
From S2P Require Import V4Invariant.
From S2P Require Import V4Handlers.
From S2P Require Import V4Session.
From S2P Require Import V4CleanProofs.
From S2P Require Import V4Reachable.
#[local] Open Scope Z_scope.

Section Safety.
  Context {B : Type} `{FixedBitSetLaws B}.

Implicit Types (s : MqttState B) (Rp Rc : gset Z).

(** ** The configuration never changes *)

Lemma stable_map {A C} k (m : M (MqttState B) StateError A) (f : A → C) :
  stable k m → stable k (a ← m; mret (f a)).
Proof. intros Hm. by apply stable_bind; [|intros; apply stable_ret]. Qed.

Lemma handle_incoming_config now packet s :
  max_inflight (handle_incoming_packet_with_effects now packet s).2 = max_inflight s ∧
  ack_mode (handle_incoming_packet_with_effects now packet s).2 = ack_mode s.
Proof.
  unfold handle_incoming_packet_with_effects. rewrite bind_run. cbn [mget].
  change (match packet with P_Connect _ => _ | _ => _ end) with (dispatch (B:=B) packet).
  assert (Hd : ∃ k, releases k packet = false).
  { destruct packet; try (by exists 0). exists (pubrel_pkid p + 1). cbn. lia. }
  destruct Hd as [k Hk]. pose proof (stable_dispatch k packet Hk s) as [Hm Ha _ _].
  rewrite bind_run. destruct (dispatch packet s) as [[eff|e|] s']; try done.
  rewrite <- Hm, <- Ha. rewrite bind_run. destruct (negb _); [|done].
  unfold insert_event. rewrite bind_run. cbn [mget]. by destruct (_ <? _).
Qed.

Lemma run_op_config m am op s :
  0 ≤ m ≤ u16_MAX → (∃ Rp Rc, inv Rp Rc s) → max_inflight s = m → ack_mode s = am →
  max_inflight (run_op op s).2 = m ∧ ack_mode (run_op op s).2 = am.
Proof.
  intros Hm (Rp & Rc & I) <- <-. destruct op as [now r n|now r n|now p| |keep|now]; cbn [run_op].
  - destruct (stable_map 0 _ fst (stable_handle_outgoing 0 now r n false) s) as [? ? _ _]. by split.
  - destruct (stable_map 0 _ fst (stable_handle_outgoing 0 now r n true) s) as [? ? _ _]. by split.
  - rewrite bind_run. pose proof (handle_incoming_config now p s).
    by destruct (handle_incoming_packet_with_effects now p s) as [[] ?].
  - done.
  - destruct (stable_map 0 _ (λ _, None (A:=Packet)) (stable_clean 0 keep) s) as [? ? _ _]. by split.
  - apply (wp_run (reset_session_state now;; mret None)
      (λ s', max_inflight s' = max_inflight s ∧ ack_mode s' = ack_mode s)).
    apply wp_bind, (wp_reset_session_state Rp Rc); [done|]. by apply wp_ret.
Qed.

Lemma reachable_config m am Rp Rc s :
  0 ≤ m ≤ u16_MAX → reachable m am Rp Rc s → max_inflight s = m ∧ ack_mode s = am.
Proof.
  intros Hm. induction 1 as [now|Rp Rc s op Hs [IH1 IH2] Hop]; [done|].
  apply run_op_config; try done. exists Rp, Rc. by apply (reachable_inv m am).
Qed.

(** ** Safety *)

(** In every state a session reaches by any sequence of requests, replayed requests,
    incoming packets, disconnections and resets, with any window, no operation the event loop
    may call panics: no index is out of range, no [expect] fails and no counter under- or
    overflows. *)
Theorem session_no_panic (m : u16) (am : AckMode) Rp Rc s op :
  0 ≤ m ≤ u16_MAX → reachable m am Rp Rc s → op_allowed Rp Rc s op →
  (run_op op s).1 ≠ Panic.
Proof. intros Hm Hr Hop. by apply (op_sound Rp Rc); [eapply reachable_inv|]. Qed.

(** In every reachable state the packet identifiers of live flows are pairwise distinct and
    non-zero 16-bit numbers, [outbound_pkid_in_use] holds exactly these identifiers and
    [outbound_pkid_count] is their number. *)
Theorem session_identifiers (m : u16) (am : AckMode) Rp Rc s :
  0 ≤ m ≤ u16_MAX → reachable m am Rp Rc s →
  NoDup (live_ids Rp Rc s) ∧ (∀ k, k ∈ live_ids Rp Rc s → 1 ≤ k ≤ u16_MAX) ∧
  (∀ k, packet_identifier_in_use s k = true ↔ k ∈ live_ids Rp Rc s) ∧
  outbound_pkid_count s = blen (live_ids Rp Rc s).
Proof.
  intros Hm Hr. pose proof (inv_ids _ _ _ (reachable_inv _ _ _ _ _ Hm Hr)) as [_ Hn Hk Hu Hc].
  by split_and!.
Qed.

(** In every reachable state the number of publishes in flight is the number of publishes
    that wait for PUBACK, PUBREC or PUBCOMP and never exceeds the window the session was
    created with; a publish held back by a collision waits for one of them. *)
Theorem session_window (m : u16) (am : AckMode) Rp Rc s :
  0 ≤ m ≤ u16_MAX → reachable m am Rp Rc s →
  inflight s = blen (outgoing_pub_order s) + blen (outgoing_rel_order s) ∧ inflight s ≤ m ∧
  (∀ p, collision s = Some p →
     pub_pkid p ∈ outgoing_pub_order s ∨ pub_pkid p ∈ outgoing_rel_order s) ∧
  (∀ k, 0 ≤ k → k ∈ outgoing_pub_order s ↔
     ∃ p, vget (outgoing_pub s) k = Some (Some p) ∧ pub_pkid p = k ∧ pub_qos p ≠ AtMostOnce).
Proof.
  intros Hm Hr. pose proof (reachable_inv _ _ _ _ _ Hm Hr) as I.
  destruct (reachable_config _ _ _ _ _ Hm Hr) as [<- _]. split; [apply I|]. split; [apply I|].
  split; [intros p Hp; by apply (inv_collision _ _ _ I)|].
  intros k Hk. destruct (inv_slots _ _ _ I) as [Ho Hp]. rewrite Ho. split.
  - intros [_ [p Hx]]. exists p. by destruct (Hp k p Hk Hx).
  - intros (p & Hx & _). eauto.
Qed.

(** Packet identifier allocation: in every reachable state the identifier chosen for a new
    request is free, and the first free one after the last one allocated, in circular order;
    none is found only when all 65,535 are in use. *)
Theorem session_fresh_identifier (m : u16) (am : AckMode) Rp Rc s :
  0 ≤ m ≤ u16_MAX → reachable m am Rp Rc s →
  match next_publish_pkid s with
  | Some k => 1 ≤ k ≤ u16_MAX ∧ packet_identifier_in_use s k = false ∧
      ∀ j, 1 ≤ j ≤ u16_MAX → circular_lt (last_pkid s) j k → packet_identifier_in_use s j = true
  | None => outbound_pkid_count s = u16_MAX ∧
      ∀ j, 1 ≤ j ≤ u16_MAX → packet_identifier_in_use s j = true
  end.
Proof.
  intros Hm Hr. pose proof (reachable_inv _ _ _ _ _ Hm Hr) as I.
  pose proof (next_free_ok _ s (last_pkid s) (inv_ids _ _ _ I) (inv_last _ _ _ I)) as Hn.
  unfold next_publish_pkid. destruct (next_free_outbound_pkid_after s (last_pkid s)) as [k|].
  - destruct Hn as (Hk & Hf & Hlt). split; [done|]. rewrite (inv_in_use _ _ _ I).
    split; [by apply bool_decide_eq_false|]. intros j Hj Hc. rewrite (inv_in_use _ _ _ I).
    by apply bool_decide_eq_true, Hlt.
  - destruct Hn as [Hc Hall]. rewrite (ids_count _ _ _ (inv_ids _ _ _ I)). split; [done|].
    intros j Hj. rewrite (inv_in_use _ _ _ I). by apply bool_decide_eq_true, Hall.
Qed.

(** ** Incoming packets *)

(** C31: An incoming packet is handled atomically in every reachable state: if it is refused the
    state is exactly what it was; otherwise the packet is reported to the user, before the
    events of the packets sent in answer, unless it is a QoS 2 publish that was already
    recorded. *)
Theorem incoming_packet_atomic (m : u16) (am : AckMode) Rp Rc s now packet :
  0 ≤ m ≤ u16_MAX → reachable m am Rp Rc s → packet_u16 packet →
  let '(r, s') := handle_incoming_packet_with_effects now packet s in
  match r with
  | Ok _ => ∃ outs, events s' = events s ++
      (if is_duplicate_incoming_qos2_publish s packet then [] else [Ev_Incoming packet]) ++
      map Ev_Outgoing outs
  | Err _ => s' = s
  | Panic => False
  end.
Proof.
  intros Hm Hr Hp. pose proof (reachable_inv _ _ _ _ _ Hm Hr) as I.
  pose proof (wp_handle_incoming Rp Rc now s packet I Hp) as Hw. unfold wp in Hw.
  destruct (handle_incoming_packet_with_effects now packet s) as [[eff|e|] s']; try done.
  by destruct Hw as [_ ?].
Qed.

(** An acknowledgement nobody waits for is an error: in every reachable state a PUBACK or
    PUBREC whose identifier is not that of a publish awaiting one, a PUBCOMP without a release,
    a SUBACK or UNSUBACK without its request, a CONNACK and every packet only a client may send
    is refused. *)
Theorem unexpected_packet_refused (m : u16) (am : AckMode) Rp Rc s now packet :
  0 ≤ m ≤ u16_MAX → reachable m am Rp Rc s → packet_u16 packet →
  match packet with
  | P_PubAck a => puback_pkid a ∉ outgoing_pub_order s
  | P_PubRec a => pubrec_pkid a ∉ outgoing_pub_order s
  | P_PubComp a => pubcomp_pkid a ∉ outgoing_rel_order s
  | P_SubAck a => pending_subscribe s !! suback_pkid a = None
  | P_UnsubAck a => pending_unsubscribe s !! unsuback_pkid a = None
  | P_ConnAck _ | P_Connect _ | P_Subscribe _ | P_Unsubscribe _ | P_PingReq | P_Disconnect => True
  | P_Publish _ | P_PubRel _ | P_PingResp => False
  end →
  handle_incoming_packet_with_effects now packet s =
  (Err (match packet with
        | P_PubAck a => Unsolicited (puback_pkid a)
        | P_PubRec a => Unsolicited (pubrec_pkid a)
        | P_PubComp a => Unsolicited (pubcomp_pkid a)
        | P_SubAck a => Unsolicited (suback_pkid a)
        | P_UnsubAck a => Unsolicited (unsuback_pkid a)
        | P_ConnAck _ => SE_ProtocolViolation DuplicateConnAck
        | _ => SE_ProtocolViolation (UnexpectedIncomingPacket (Packet_packet_type packet))
        end), s).
Proof.
  intros Hm Hr Hp Hun. pose proof (reachable_inv _ _ _ _ _ Hm Hr) as I.
  unfold handle_incoming_packet_with_effects. rewrite bind_run. cbn [mget].
  change (match packet with P_Connect _ => _ | _ => _ end ≫= _) with (dispatch (B:=B) packet ≫=
    λ effects, (if negb (is_duplicate_incoming_qos2_publish s packet)
                then insert_event (blen (events s)) (Ev_Incoming packet) else mret tt);;
               mmodify (set_last_incoming now);; mret effects).
  apply bind_err. destruct packet as [c|c|p|[k]|[k]|[k]|[k]|c|c|c|c| | |]; try done;
    cbn [packet_u16 dispatch puback_pkid pubrec_pkid pubrel_pkid pubcomp_pkid] in *.
  - pose proof (wp_handle_incoming_puback Rp Rc s k I Hp) as Hw. unfold wp in Hw.
    by destruct (handle_incoming_puback _ s) as [[]]; [destruct Hw|destruct Hw as (_ & -> & ->)|].
  - pose proof (wp_handle_incoming_pubrec Rp Rc s k I Hp) as Hw. unfold wp in Hw.
    by destruct (handle_incoming_pubrec _ s) as [[]]; [destruct Hw|destruct Hw as (_ & -> & ->)|].
  - pose proof (wp_handle_incoming_pubcomp Rp Rc s k I Hp) as Hw. unfold wp in Hw.
    by destruct (handle_incoming_pubcomp _ s) as [[]]; [destruct Hw|destruct Hw as (_ & -> & ->)|].
  - pose proof (wp_handle_incoming_suback Rp Rc s c I) as Hw. unfold wp in Hw. rewrite Hun in Hw.
    destruct (handle_incoming_suback _ s) as [[]]; [by destruct Hw as (_ & p & ? & _)| |done].
    by destruct Hw as [-> ->].
  - pose proof (wp_handle_incoming_unsuback Rp Rc s c I) as Hw. unfold wp in Hw.
    destruct (handle_incoming_unsuback _ s) as [[]]; [|by destruct Hw as (-> & _ & ->)|done].
    destruct Hw as (_ & p & ? & _). congruence.
Qed.
End Safety.

(** ** Witnesses, in the session [demo_state] *)

Lemma session_no_panic_witness :
  (run_op (Op_Packet 5 (P_PubRec {| pubrec_pkid := 2 |})) demo_state).1 ≠ Panic.
Proof.
  apply (session_no_panic 10 Automatic ∅ ∅); [by split|exact demo_reachable|by split].
Defined.

Lemma session_identifiers_witness :
  NoDup (live_ids ∅ ∅ demo_state) ∧ (∀ k, k ∈ live_ids ∅ ∅ demo_state → 1 ≤ k ≤ u16_MAX) ∧
  (∀ k, packet_identifier_in_use demo_state k = true ↔ k ∈ live_ids ∅ ∅ demo_state) ∧
  outbound_pkid_count demo_state = blen (live_ids ∅ ∅ demo_state).
Proof. apply (session_identifiers 10 Automatic); [by split|exact demo_reachable]. Defined.

Lemma session_window_witness : inflight demo_state ≤ 10 ∧ inflight demo_state = 2.
Proof.
  split; [|by vm_compute].
  apply (session_window 10 Automatic ∅ ∅ demo_state); [by split|exact demo_reachable].
Defined.

Lemma session_fresh_identifier_witness :
  next_publish_pkid demo_state = Some 4 ∧ packet_identifier_in_use demo_state 4 = false.
Proof.
  pose proof (session_fresh_identifier 10 Automatic ∅ ∅ demo_state ltac:(by split) demo_reachable)
    as Hf.
  assert (Hn : next_publish_pkid demo_state = Some 4) by (by vm_compute).
  rewrite Hn in Hf. split; [exact Hn|apply Hf].
Defined.

Lemma incoming_packet_atomic_witness :
  let '(r, s') := handle_incoming_packet_with_effects 5 (P_PubAck {| puback_pkid := 9 |}) demo_state in
  match r with
  | Ok _ => ∃ outs, events s' = events demo_state ++ [Ev_Incoming (P_PubAck {| puback_pkid := 9 |})]
      ++ map Ev_Outgoing outs
  | Err _ => s' = demo_state
  | Panic => False
  end.
Proof.
  exact (incoming_packet_atomic 10 Automatic ∅ ∅ demo_state 5 (P_PubAck {| puback_pkid := 9 |})
    ltac:(by split) demo_reachable ltac:(by split)).
Defined.

Lemma unexpected_packet_refused_witness :
  handle_incoming_packet_with_effects 5 (P_PubAck {| puback_pkid := 9 |}) demo_state
  = (Err (Unsolicited 9), demo_state).
Proof.
  apply (unexpected_packet_refused 10 Automatic ∅ ∅ demo_state 5 (P_PubAck {| puback_pkid := 9 |}));
    [by split|exact demo_reachable|by split|].
  rewrite demo_order. cbn [puback_pkid]. lia.
Defined.
