(* ===== verification/V4Delivery.v ===== *)
(** The delivery guarantees of an MQTT 3.1.1 session: outgoing QoS 1 and QoS 2 flows, and
    exactly-once delivery of incoming QoS 2 publishes. *)

From S2P Require Import Prelude.
From S2P Require Import Utf8.
From S2P Require Import Primitives.
From S2P Require Import CodecBase.
From S2P Require Import V4Base.
From S2P Require Import V4Acks.
From S2P Require Import V4Publish.
From S2P Require Import V4Subscribe.
From S2P Require Import V4Connect.
From S2P Require Import V4Packet.
From S2P Require Import FixedBitSet.
From S2P Require Import V4SessionTypes.
From S2P Require Import PacketIds.
From S2P Require Import V4State.
From S2P Require Import V4Clean.
From S2P Require Import V4Invariant.
From S2P Require Import V4Handlers.
From S2P Require Import V4Session.
From S2P Require Import V4CleanProofs.
From S2P Require Import V4Reachable.
From S2P Require Import V4Safety.
#[local] Open Scope Z_scope.

(** The publishes among events. *)
Definition incoming_publish (e : Event) : option Publish :=
  match e with Ev_Incoming (P_Publish p) => Some p | _ => None end.

(** A QoS 2 publish with identifier [k]. *)
Definition qos2_with (k : Z) (p : Publish) : Prop := pub_qos p = ExactlyOnce ∧ pub_pkid p = k.
#[global] Instance qos2_with_dec k p : Decision (qos2_with k p).
Proof. unfold qos2_with. apply _. Defined.

Section Delivery.
  Context {B : Type} `{FixedBitSetLaws B}.

Abbreviation ST := (M (MqttState B) StateError).
Implicit Types (s : MqttState B) (Rp Rc : gset Z).

(** ** Receiving at QoS 2 *)

(** The publishes an operation reports to the user, and those a sequence of operations does. *)
Definition delivered (op : Op) s : list Publish :=
  omap incoming_publish (drop (length (events s)) (events (run_op op s).2)).
Fixpoint delivered_by (ops : list Op) s : list Publish :=
  match ops with
  | [] => []
  | op :: ops => delivered op s ++ delivered_by ops (run_op op s).2
  end.

(** An operation that neither releases [k] nor ends the session. *)
Definition keeps_recorded (k : Z) (op : Op) : Prop :=
  match op with
  | Op_Packet _ packet => releases k packet = false
  | Op_Reset _ => False
  | _ => True
  end.

Lemma omap_outgoing outs : omap incoming_publish (map Ev_Outgoing outs) = [].
Proof. by induction outs. Qed.

Lemma handle_incoming_shape k now packet s :
  releases k packet = false →
  let '(r, s1) := dispatch packet s in
  let s' := (handle_incoming_packet_with_effects now packet s).2 in
  incoming_pubrec s' = incoming_pubrec s1 ∧
  ∃ outs, events s' = events s ++
    (if is_ok r && negb (is_duplicate_incoming_qos2_publish s packet)
     then [Ev_Incoming packet] else []) ++ map Ev_Outgoing outs.
Proof.
  intros Hk. pose proof (stable_dispatch k packet Hk s) as [_ _ [outs He] _].
  unfold handle_incoming_packet_with_effects. rewrite bind_run. cbn [mget].
  change (match packet with P_Connect _ => _ | _ => _ end) with (dispatch (B:=B) packet).
  rewrite bind_run. destruct (dispatch packet s) as [[eff|e|] s1]; cbn [snd is_ok andb] in *;
    try (by eauto).
  destruct (is_duplicate_incoming_qos2_publish s packet); cbn [negb]; [by eauto|].
  rewrite bind_run. unfold insert_event. rewrite bind_run. cbn [mget]. rewrite He, blen_app.
  rewrite (proj2 (Z.ltb_ge _ _)) by (pose proof (blen_nonneg (map Ev_Outgoing outs)); lia).
  cbn. split; [done|]. exists outs. by rewrite blen_to_nat, take_app_length, drop_app_length.
Qed.

(** A recorded publish is not reported again. *)
Lemma recorded_op k op s :
  contains (incoming_pubrec s) k = true → keeps_recorded k op →
  contains (incoming_pubrec (run_op op s).2) k = true ∧
  filter (qos2_with k) (delivered op s) = [].
Proof.
  intros Hc Hop.
  assert (Hstable : ∀ (m : ST (option Packet)), stable k m →
    contains (incoming_pubrec (m s).2) k = true ∧
    filter (qos2_with k) (omap incoming_publish (drop (length (events s)) (events (m s).2))) = []).
  { intros m Hm. destruct (Hm s) as [_ _ [outs He] Hr]. split; [by apply Hr|].
    by rewrite He, drop_app_length, omap_outgoing. }
  unfold delivered. destruct op as [now r n|now r n|now p| |keep|now]; cbn [run_op].
  - apply Hstable. apply stable_bind; [apply stable_handle_outgoing|intros; apply stable_ret].
  - apply Hstable. apply stable_bind; [apply stable_handle_outgoing|intros; apply stable_ret].
  - pose proof (handle_incoming_shape k now p s Hop) as Hs.
    pose proof (stable_dispatch k p Hop s) as [_ _ _ Hrec]. rewrite bind_run.
    destruct (dispatch p s) as [r s1]. destruct Hs as [Hp [outs He]]. cbn [snd] in Hrec.
    replace (match handle_incoming_packet_with_effects now p s with
             | (Ok a, s') => _ | (Err e, s') => _ | (Panic, s') => _ end).2
      with (handle_incoming_packet_with_effects now p s).2
      by (by destruct (handle_incoming_packet_with_effects now p s) as [[]]).
    rewrite Hp. split; [by apply Hrec|]. rewrite He, drop_app_length, omap_app, omap_outgoing, app_nil_r.
    destruct (is_ok r); cbn [andb]; [|done].
    destruct (is_duplicate_incoming_qos2_publish s p) eqn:Hd; cbn [negb]; [done|].
    destruct p; try done. cbn. rewrite decide_False; [done|].
    intros [Hq <-]. cbn in Hd. by rewrite Hc, bool_decide_eq_true_2 in Hd by done.
  - split; [done|]. assert (Hd : drop (length (events s)) (tail (events s)) = []).
    { apply drop_ge. destruct (events s); cbn; lia. }
    change (filter (qos2_with k) (omap incoming_publish
      (drop (length (events s)) (tail (events s)))) = []). by rewrite Hd.
  - apply Hstable. apply stable_bind; [apply stable_clean|intros; apply stable_ret].
  - done.
Qed.

Lemma recorded_ops k ops s :
  contains (incoming_pubrec s) k = true → Forall (keeps_recorded k) ops →
  filter (qos2_with k) (delivered_by ops s) = [].
Proof.
  revert s. induction ops as [|op ops IH]; intros s Hc Hops; [done|].
  apply Forall_cons in Hops as [Hop Hops]. destruct (recorded_op k op s Hc Hop) as [Hc' Hd].
  cbn [delivered_by]. rewrite filter_app, Hd. by apply IH.
Qed.

(** C3: QoS 2 is exactly once.  A session with automatic acknowledgements that receives a QoS 2
    publish [p] whose identifier is not recorded, and then runs any operations at all, further
    copies of [p] and reconnections included, reports a QoS 2 publish with this identifier
    exactly once, namely [p], until its PUBREL arrives or the session is reset.  With automatic or
    manual acknowledgements, a publish whose identifier is recorded in [incoming_pubrec] is not
    reported again until then.  (With manual acknowledgements a copy that arrives
    before the application has sent PUBREC is reported, too.) *)
Theorem qos2_exactly_once (m : u16) mode Rp Rc s now p ops :
  0 ≤ m ≤ u16_MAX → reachable m mode Rp Rc s →
  pub_qos p = ExactlyOnce → is_u16 (pub_pkid p) →
  Forall (keeps_recorded (pub_pkid p)) ops →
  let reported := filter (qos2_with (pub_pkid p)) (delivered_by (Op_Packet now (P_Publish p) :: ops) s) in
  (contains (incoming_pubrec s) (pub_pkid p) = true → reported = []) ∧
  (mode = Automatic → contains (incoming_pubrec s) (pub_pkid p) = false → reported = [p]).
Proof.
  intros Hm Hr Hq Hk Hops. cbv zeta. split; [intros Hc; by apply recorded_ops; [|constructor]|]. intros -> Hc.
  destruct (reachable_config _ _ _ _ _ Hm Hr) as [_ Ha]. pose proof (reachable_inv _ _ _ _ _ Hm Hr) as I.
  pose proof (wp_handle_incoming_publish Rp Rc s p I Hk) as Hw. unfold wp in Hw.
  pose proof (handle_incoming_shape (pub_pkid p) now (P_Publish p) s eq_refl) as Hs.
  cbn [dispatch] in Hs. destruct (handle_incoming_publish p s) as [[eff|e|] s1]; try done.
  destruct Hw as (_ & _ & ->). destruct Hs as [Hp [outs He]].
  assert (Hd : is_duplicate_incoming_qos2_publish s (P_Publish p) = false)
    by (cbn; by rewrite Hc, andb_false_r).
  rewrite Hd in He. cbn [is_ok andb negb] in He. cbn [delivered_by]. unfold delivered at 1.
  cbn [run_op]. rewrite !bind_run.
  replace (match handle_incoming_packet_with_effects now (P_Publish p) s with
           | (Ok a, s') => _ | (Err e, s') => _ | (Panic, s') => _ end).2
    with (handle_incoming_packet_with_effects now (P_Publish p) s).2
    by (by destruct (handle_incoming_packet_with_effects now (P_Publish p) s) as [[]]).
  rewrite He, drop_app_length, omap_app, omap_outgoing, filter_app, recorded_ops; [|..|done].
  - cbn. by rewrite decide_True by done.
  - rewrite Hp. unfold published_state. rewrite Hq, Hc, Ha, bool_decide_eq_true_2 by done.
    cbn [orb]. unfold receiving. fields. rewrite contains_put_bit, Z.eqb_refl; [done|].
    rewrite (len_irec _ _ _ (inv_incoming _ _ _ I)). unfold full_packet_identifier_len, u16_MAX.
    unfold is_u16 in Hk. lia.
Qed.

(** ** Sending *)

(** What the guard checks: the window is open, and there is an identifier. *)
Lemma can_send_free Rp Rc s p :
  inv Rp Rc s → pub_qos p ≠ AtMostOnce → is_u16 (pub_pkid p) → can_send_publish s p = true →
  inflight s < max_inflight s ∧ next_publish_pkid s ≠ None ∧ pub_pkid p ∉ live_ids Rp Rc s.
Proof.
  intros I Hq Hk Hcan. unfold can_send_publish in Hcan. rewrite decide_False in Hcan by done.
  destruct (Z.leb_spec (max_inflight s) (inflight s)) as [|Hw]; [done|]. split; [done|].
  destruct (is_some (collision s)); [done|]. cbn [orb] in Hcan.
  pose proof (next_free_ok _ s (last_pkid s) (inv_ids _ _ _ I) (inv_last _ _ _ I)) as Hn.
  fold (next_publish_pkid s) in Hn. destruct (Z.eqb_spec (pub_pkid p) 0) as [H0'|Hne].
  - split; [by destruct (next_publish_pkid s)|]. intros Hin.
    apply (ids_range _ _ _ (inv_ids _ _ _ I)) in Hin. lia.
  - apply andb_true_iff in Hcan as [_ Hfree]. rewrite (inv_in_use _ _ _ I), negb_true_iff in Hfree.
    apply bool_decide_eq_false in Hfree. split; [|done]. intros Hnone. rewrite Hnone in Hn.
    apply Hfree, (proj2 Hn). unfold is_u16, u16_MAX in *. lia.
Qed.

(** C30: A publish the event loop finds ready is sent at once: in every reachable state where
    [can_send_publish] holds, the request succeeds and returns the PUBLISH packet with its own
    identifier, or with the next free one when it has none; the publish is then tracked last in
    order in its own slot, the window shrinks by one and the event is reported. *)
Theorem ready_publish_sent (m : u16) (am : AckMode) Rp Rc s now p notice :
  0 ≤ m ≤ u16_MAX → reachable m am Rp Rc s → pub_qos p ≠ AtMostOnce → is_u16 (pub_pkid p) →
  can_send_publish s p = true →
  ∃ k s', handle_outgoing_packet_with_notice now (R_Publish p) notice s
          = (Ok (Some (P_Publish (with_pkid p k)), None), s') ∧
    (if pub_pkid p =? 0 then next_publish_pkid s = Some k else k = pub_pkid p) ∧
    packet_identifier_in_use s k = false ∧ packet_identifier_in_use s' k = true ∧
    outgoing_pub_order s' = outgoing_pub_order s ++ [k] ∧
    vget (outgoing_pub s') k = Some (Some (with_pkid p k)) ∧
    inflight s' = inflight s + 1 ∧
    events s' = events s ++ [Ev_Outgoing (O_Publish k)].
Proof.
  intros Hm Hr Hq Hk Hcan. pose proof (reachable_inv _ _ _ _ _ Hm Hr) as I.
  destruct (can_send_free _ _ _ _ I Hq Hk Hcan) as (Hw & Hnext & Hnew).
  pose proof (wp_admit_publish Rp Rc s p (publish_notice notice) I Hk Hq) as Hwp. unfold wp in Hwp.
  unfold handle_outgoing_packet_with_notice, handle_outgoing_packet_with_notice_internal,
    outgoing_publish_with_notice_internal. rewrite decide_False by done. rewrite !bind_run.
  destruct (admit_publish p (publish_notice notice) false s) as [[[p'|]|e|] s1].
  - destruct Hwp as (I1 & _ & k & -> & Hk1 & Hk2 & Hk3 & Hfree & Had).
    unfold admitted in Had. cbn [with_pkid pub_pkid] in Had. destruct Had as (Hf & He & Hv & _).
    unfold flows_of in Hf. fields. injection Hf as Hpo Hro Hrro _ _ _ _ _ _ _ Hi _ _.
    exists k, (set_last_outgoing now (set_events (events s1 ++ [Ev_Outgoing (O_Publish k)]) s1)).
    cbn [push_event mmodify]. split; [done|]. fields. rewrite Hpo, Hi, He.
    rewrite (inv_in_use _ _ _ I k), bool_decide_eq_false_2 by done.
    unfold packet_identifier_in_use. fields. fold (packet_identifier_in_use s1 k).
    rewrite (inv_in_use _ _ _ I1 k), bool_decide_eq_true_2; [|rewrite elem_live_ids, Hpo; set_solver].
    split_and!; try done. destruct (Z.eqb_spec (pub_pkid p) 0); auto.
  - destruct Hwp as (_ & _ & Hin & _). destruct Hnew. rewrite elem_live_ids. by left.
  - destruct Hwp as (_ & _ & Hwp). rewrite decide_True in Hwp by done.
    by destruct Hwp as [_ [Hn|[Hin _]]].
  - done.
Qed.

(** The window is enforced: in every reachable state whose window is full a new QoS 1 or
    QoS 2 publish is refused with [OutgoingPublishWindowFull], and neither the flows nor the
    events nor the tracked publishes change. *)
Theorem full_window_refused (m : u16) (am : AckMode) Rp Rc s now p notice :
  0 ≤ m ≤ u16_MAX → reachable m am Rp Rc s → pub_qos p ≠ AtMostOnce → is_u16 (pub_pkid p) →
  inflight s = m →
  ∃ s', handle_outgoing_packet_with_notice now (R_Publish p) notice s
        = (Err (OutgoingPublishWindowFull m), s') ∧ unchanged s s' ∧ can_send_publish s p = false.
Proof.
  intros Hm Hr Hq Hk Hfull. pose proof (reachable_inv _ _ _ _ _ Hm Hr) as I.
  destruct (reachable_config _ _ _ _ _ Hm Hr) as [Hmax _].
  pose proof (wp_admit_publish Rp Rc s p (publish_notice notice) I Hk Hq) as Hwp. unfold wp in Hwp.
  unfold handle_outgoing_packet_with_notice, handle_outgoing_packet_with_notice_internal,
    outgoing_publish_with_notice_internal, can_send_publish. rewrite !decide_False by done.
  rewrite !bind_run, Hmax, Hfull, Z.leb_refl. rewrite Hmax, Hfull in Hwp.
  destruct (admit_publish p (publish_notice notice) false s) as [[[p'|]|e|] s1];
    try (by destruct Hwp as (_ & Hlt & _); lia); [|done].
  destruct Hwp as (_ & Hu & He). rewrite decide_False in He by lia. rewrite He. by exists s1.
Qed.

Lemma live_ids_flows Rp Rc s s' : flows_of s' = flows_of s → live_ids Rp Rc s' = live_ids Rp Rc s.
Proof.
  intros Hf. unfold flows_of in Hf. injection Hf as Hpo Hro Hrro _ _ _ Hs Hu _ _ _ _ _.
  unfold live_ids. congruence.
Qed.

(** The identifier [k] of a flow that has been removed is free. *)
Lemma removed_free Rp Rc s s1 s' k :
  inv Rp Rc s → inv Rp Rc s' → live_ids Rp Rc s ≡ₚ k :: live_ids Rp Rc s1 →
  live_ids Rp Rc s' = live_ids Rp Rc s1 → packet_identifier_in_use s' k = false.
Proof.
  intros I I' Hp Hl. rewrite (inv_in_use _ _ _ I'). apply bool_decide_eq_false_2. rewrite Hl.
  pose proof (ids_nodup _ _ _ (inv_ids _ _ _ I)) as Hnd. rewrite Hp in Hnd.
  by apply NoDup_cons in Hnd as [? _].
Qed.

Lemma finished_flows s1 k packet s' :
  finished s1 k packet s' →
  match collision s1 with
  | Some p =>
      if pub_pkid p =? k then
        packet = Some (P_Publish p) ∧ vget (outgoing_pub s') k = Some (Some p) ∧
        flows_of s' = flows_of (set_outgoing_pub_order (outgoing_pub_order s1 ++ [k])
                        (set_collision None (set_collision_notice None s1)))
      else packet = None ∧ flows_of s' = flows_of (set_inflight (inflight s1 - 1) s1)
  | None => packet = None ∧ flows_of s' = flows_of (set_inflight (inflight s1 - 1) s1)
  end.
Proof.
  unfold finished. destruct (collision s1) as [p|]; [destruct (pub_pkid p =? k)|].
  - by intros (-> & Hf & _ & Hv & _).
  - intros [-> Hr]. by apply retracked_flows in Hr as [-> _].
  - intros [-> Hr]. by apply retracked_flows in Hr as [-> _].
Qed.


Lemma remove_ordered_snoc l k : k ∉ l → remove_ordered_pkid (l ++ [k]) k = l.
Proof.
  induction l as [|c l IH]; intros Hk; cbn; [by rewrite Z.eqb_refl|].
  apply not_elem_of_cons in Hk as [Hne Hk]. rewrite (proj2 (Z.eqb_neq c k)) by congruence.
  by rewrite IH.
Qed.

Lemma pub_not_rel Rp Rc s k : inv Rp Rc s → k ∈ outgoing_pub_order s → k ∉ outgoing_rel_order s.
Proof.
  intros I Hk Hrel. pose proof (ids_nodup _ _ _ (inv_ids _ _ _ I)) as Hnd. unfold live_ids in Hnd.
  apply NoDup_app in Hnd as (_ & Hd & _). apply (Hd k Hk). rewrite elem_of_app. by left.
Qed.

(** A QoS 2 flow: in every reachable state, PUBREC for a tracked publish [k] is answered
    with PUBREL, keeps the identifier and the place in the window, and the PUBCOMP that follows
    completes the publish's own notice, frees the identifier and opens the window by one; the
    other flows are as before. *)
Theorem qos2_flow_completes (m : u16) (am : AckMode) Rp Rc s k notice :
  0 ≤ m ≤ u16_MAX → reachable m am Rp Rc s → k ∈ outgoing_pub_order s → collision s = None →
  vget (outgoing_pub_notice s) k = Some notice →
  ∃ s1 s2,
    handle_incoming_pubrec {| pubrec_pkid := k |} s
    = (Ok (effects_outgoing (Some (P_PubRel {| pubrel_pkid := k |}))), s1) ∧
    handle_incoming_pubcomp {| pubcomp_pkid := k |} s1
    = (Ok (completion None notice (Qos2Completed {| pubcomp_pkid := k |})), s2) ∧
    packet_identifier_in_use s1 k = true ∧ inflight s1 = inflight s ∧
    packet_identifier_in_use s2 k = false ∧ inflight s2 = inflight s - 1 ∧
    outgoing_pub_order s2 = remove_ordered_pkid (outgoing_pub_order s) k ∧
    outgoing_rel_order s2 = outgoing_rel_order s.
Proof.
  intros Hm Hr Hk Hcol Hn. pose proof (reachable_inv _ _ _ _ _ Hm Hr) as I.
  assert (Hk16 : is_u16 k).
  { pose proof (inv_pub_range _ _ _ I k Hk). unfold is_u16, u16_MAX in *. lia. }
  pose proof (wp_handle_incoming_pubrec Rp Rc s k I Hk16) as Hw. unfold wp in Hw.
  destruct (handle_incoming_pubrec {| pubrec_pkid := k |} s) as [[eff|e|] s1]; [|by destruct Hw|done].
  destruct Hw as (_ & I1 & -> & (Hf1 & _) & Hn1). rewrite Hn in Hn1.
  unfold flows_of in Hf1. injection Hf1 as Hpo Hro Hrro _ _ _ Hs Hu Hc1 _ Hi _ _. fields.
  assert (Hk1 : k ∈ outgoing_rel_order s1) by (rewrite Hro; set_solver).
  pose proof (wp_handle_incoming_pubcomp Rp Rc s1 k I1 Hk16) as Hw. unfold wp in Hw.
  destruct (handle_incoming_pubcomp {| pubcomp_pkid := k |} s1) as [[eff|e|] s2] eqn:E2;
    [|by destruct Hw|done].
  destruct Hw as (_ & I2 & notice' & packet & s1' & Hn' & -> & (Hf2 & _) & Hfin%finished_flows).
  rewrite Hn1 in Hn'. injection Hn' as <-.
  pose proof (live_ids_rel_remove Rp Rc s1 k Hk1) as Hperm.
  pose proof (live_ids_flows Rp Rc _ _ Hf2) as Hl2.
  unfold flows_of in Hf2. injection Hf2 as Hpo2 Hro2 Hrro2 _ _ _ Hs2 Hu2 Hc2 _ Hi2 _ _. fields.
  rewrite Hc2, Hc1, Hcol in Hfin. destruct Hfin as [-> Hf3].
  assert (Hfree : packet_identifier_in_use s2 k = false).
  { apply (removed_free Rp Rc s1 _ s2 k I1 I2 Hperm). rewrite <- Hl2.
    apply (live_ids_flows Rp Rc _ _ Hf3). }
  unfold flows_of in Hf3. injection Hf3 as Hpo3 Hro3 _ _ _ _ _ _ _ _ Hi3 _ _. fields.
  exists s1, s2. rewrite (inv_in_use _ _ _ I1), bool_decide_eq_true_2
    by (rewrite elem_live_ids; by right; left).
  split_and!; try congruence. rewrite Hro3, Hro2, Hro. apply remove_ordered_snoc.
  by eapply pub_not_rel.
Qed.
End Delivery.

(** ** Witnesses, in the session [demo_state] *)

(** The publish 9 arrives three times, with a reconnection in between. *)
Definition demo_copies : list Op :=
  [Op_Packet 6 (P_Publish (demo_publish ExactlyOnce 9)); Op_Clean true;
   Op_Packet 7 (P_Publish (demo_publish ExactlyOnce 9))].

Lemma qos2_exactly_once_witness :
  filter (qos2_with 9) (delivered_by
    (Op_Packet 5 (P_Publish (demo_publish ExactlyOnce 9)) :: demo_copies) demo_state)
  = [demo_publish ExactlyOnce 9].
Proof.
  apply (qos2_exactly_once 10 Automatic ∅ ∅ demo_state 5 (demo_publish ExactlyOnce 9) demo_copies);
    [by split|exact demo_reachable|done|by split|by repeat constructor|done|by vm_compute].
Defined.

Lemma ready_publish_sent_witness :
  ∃ k s', handle_outgoing_packet_with_notice 5 (R_Publish (demo_publish AtLeastOnce 0)) None demo_state
          = (Ok (Some (P_Publish (demo_publish AtLeastOnce k)), None), s') ∧
    next_publish_pkid demo_state = Some k.
Proof.
  destruct (ready_publish_sent 10 Automatic ∅ ∅ demo_state 5 (demo_publish AtLeastOnce 0) None)
    as (k & s' & Hs & Hk & _); [by split|exact demo_reachable|done|by split|by vm_compute|].
  exists k, s'. split; [exact Hs|exact Hk].
Defined.

(** A session with window 1 whose only place is taken. *)
Definition demo_full : MqttState BitVector :=
  run_ops [Op_Request 1 (R_Publish (demo_publish AtLeastOnce 0)) None] (new_internal 0 1 Automatic).

Lemma demo_full_reachable : reachable 1 Automatic ∅ ∅ demo_full.
Proof. apply reachable_ops; [apply reach_new|]. by repeat constructor. Qed.

Lemma full_window_refused_witness :
  ∃ s', handle_outgoing_packet_with_notice 5 (R_Publish (demo_publish ExactlyOnce 0)) None demo_full
        = (Err (OutgoingPublishWindowFull 1), s').
Proof.
  destruct (full_window_refused 1 Automatic ∅ ∅ demo_full 5 (demo_publish ExactlyOnce 0) None)
    as (s' & Hs & _); [by split|exact demo_full_reachable|done|by split|by vm_compute|].
  exists s'. exact Hs.
Defined.


Lemma qos2_flow_completes_witness :
  ∃ s1 s2, handle_incoming_pubrec {| pubrec_pkid := 2 |} demo_state
           = (Ok (effects_outgoing (Some (P_PubRel {| pubrel_pkid := 2 |}))), s1) ∧
    handle_incoming_pubcomp {| pubcomp_pkid := 2 |} s1
    = (Ok (completion None (Some 12%nat) (Qos2Completed {| pubcomp_pkid := 2 |})), s2).
Proof.
  destruct (qos2_flow_completes 10 Automatic ∅ ∅ demo_state 2 (Some 12%nat))
    as (s1 & s2 & Hs1 & Hs2 & _);
    [by split|exact demo_reachable| |by vm_compute|by vm_compute|exists s1, s2; exact (conj Hs1 Hs2)].
  rewrite demo_order. lia.
Defined.
