(* ===== verification/V4Reconnect.v ===== *)
(** Sending the requests of a former connection again, group by group: publishes, PUBRELs,
    subscribe and unsubscribe requests.

    Leaving and resuming a session: [clean] returns every unfinished request, and replaying what
    it returned puts the session back where it was. *)

From S2P Require Import Prelude.
From S2P Require Import Utf8.
From S2P Require Import Primitives.
From S2P Require Import CodecBase.
From S2P Require Import V4Base.
From S2P Require Import V4Acks.
From S2P Require Import V4Publish.
From S2P Require Import V4Subscribe.
From S2P Require Import V4Connect.
From S2P Require Import V4Packet.
From S2P Require Import FixedBitSet.
From S2P Require Import PacketIds.
From S2P Require Import V4SessionTypes.
From S2P Require Import V4State.
From S2P Require Import V4Clean.
From S2P Require Import V4Invariant.
From S2P Require Import V4Handlers.
From S2P Require Import V4Session.
From S2P Require Import V4CleanProofs.
From S2P Require Import V4Reachable.
From S2P Require Import V4Safety.
From S2P Require Import V4Delivery.
#[local] Open Scope Z_scope.

Section Replay.
  Context {B : Type} `{FixedBitSetLaws B}.

Abbreviation ST := (M (MqttState B) StateError).
Implicit Types (s : MqttState B) (Rp Rc : gset Z).

(** The requests [clean] returned, sent again in order. *)
Fixpoint replay_all (now : Instant) (pending : list CleanRequest) : ST (list (option Packet)) :=
  match pending with
  | [] => mret []
  | c :: pending =>
      result ← handle_replayed_outgoing_packet_with_notice now (cr_request c) (cr_notice c);
      packets ← replay_all now pending;
      mret (result.1 :: packets)
  end.

Abbreviation never := (λ (_ : StateError) (_ : MqttState B), False).

(** ** One request *)

Lemma wp_replay_publish Rp Rc now s p n :
  inv Rp Rc s → pub_pkid p ∈ Rp → pub_qos p ≠ AtMostOnce → inflight s < max_inflight s →
  wp (handle_replayed_outgoing_packet_with_notice now (R_Publish p) n)
    (λ r s', r = (Some (P_Publish p), None) ∧ inv (Rp ∖ {[pub_pkid p]}) Rc s' ∧
       flows_of s' = flows_of (set_inflight (inflight s + 1)
         (set_outgoing_pub_order (outgoing_pub_order s ++ [pub_pkid p]) s)) ∧
       vget (outgoing_pub s') (pub_pkid p) = Some (Some p) ∧
       (∀ j q, 0 ≤ j → j ≠ pub_pkid p → vget (outgoing_pub s) j = Some (Some q) →
               vget (outgoing_pub s') j = Some (Some q))) never s.
Proof.
  intros I Hp Hq Hw. unfold handle_replayed_outgoing_packet_with_notice,
    handle_outgoing_packet_with_notice_internal, outgoing_publish_with_notice_internal.
  rewrite decide_False by done. apply wp_bind, wp_bind.
  eapply wp_mono; [by apply (wp_admit_replay Rp Rc)| |by intros e s' (_ & ? & _); lia].
  intros r s' (-> & _ & I' & Hf & _ & Hv & Hj). apply wp_bind, wp_modify, wp_ret, wp_bind, wp_modify, wp_ret.
  split; [done|]. split; [by apply inv_set_last_outgoing, inv_set_events|].
  split; [exact Hf|]. split; [exact Hv|]. intros j q Hj0 Hne Hx. by apply (Hj j q Hj0 Hne).
Qed.

Lemma wp_replay_pubrel Rp Rc now s k n :
  inv Rp Rc s → k ∈ outgoing_rel_replay_order s → inflight s < max_inflight s →
  wp (handle_replayed_outgoing_packet_with_notice now (R_PubRel {| pubrel_pkid := k |}) n)
    (λ r s', r = (Some (P_PubRel {| pubrel_pkid := k |}), None) ∧ inv Rp Rc s' ∧
       flows_of s' = flows_of (replayed_rel s k) ∧
       same_slots (outgoing_pub s) (outgoing_pub s')) never s.
Proof.
  intros I Hk Hw. unfold handle_replayed_outgoing_packet_with_notice,
    handle_outgoing_packet_with_notice_internal. apply wp_bind.
  eapply wp_mono; [by apply (wp_outgoing_pubrel Rp Rc)|..].
  - rewrite bool_decide_eq_true_2 by done. intros r s' (I' & -> & _ & (Hf & _ & Hs)).
    apply wp_bind, wp_modify, wp_ret. split; [done|]. split; [by apply inv_set_last_outgoing|].
    by split.
  - rewrite bool_decide_eq_true_2 by done. intros e s' (_ & _ & ?). lia.
Qed.

Lemma wp_replay_sub Rp Rc now s u n :
  inv Rp Rc s → subscribe_pkid u ∈ Rc → filters u ≠ [] →
  wp (handle_replayed_outgoing_packet_with_notice now (R_Subscribe u) (TN_Subscribe <$> n))
    (λ r s', r = (Some (P_Subscribe u), None) ∧ inv Rp (Rc ∖ {[subscribe_pkid u]}) s' ∧
       flows_of s' = flows_of (add_subscribe s u n) ∧ outgoing_pub s' = outgoing_pub s) never s.
Proof.
  intros I Hk Hf. unfold handle_replayed_outgoing_packet_with_notice,
    handle_outgoing_packet_with_notice_internal. apply wp_bind, wp_bind.
  eapply wp_mono; [by apply (wp_replay_subscribe Rp Rc)| |done].
  intros r s' (-> & I' & Hs & _ & Hp). apply wp_ret, wp_bind, wp_modify, wp_ret.
  split; [done|]. split; [by apply inv_set_last_outgoing|]. split; [|exact Hp].
  replace (subscribe_notice (TN_Subscribe <$> n)) with n in Hs by (by destruct n). exact Hs.
Qed.

Lemma wp_replay_unsub Rp Rc now s u n :
  inv Rp Rc s → unsubscribe_pkid u ∈ Rc → topics u ≠ [] →
  wp (handle_replayed_outgoing_packet_with_notice now (R_Unsubscribe u) (TN_Unsubscribe <$> n))
    (λ r s', r = (Some (P_Unsubscribe u), None) ∧ inv Rp (Rc ∖ {[unsubscribe_pkid u]}) s' ∧
       flows_of s' = flows_of (add_unsubscribe s u n) ∧ outgoing_pub s' = outgoing_pub s) never s.
Proof.
  intros I Hk Hf. unfold handle_replayed_outgoing_packet_with_notice,
    handle_outgoing_packet_with_notice_internal. apply wp_bind, wp_bind.
  eapply wp_mono; [by apply (wp_replay_unsubscribe Rp Rc)| |done].
  intros r s' (-> & I' & Hs & _ & Hp). apply wp_ret, wp_bind, wp_modify, wp_ret.
  split; [done|]. split; [by apply inv_set_last_outgoing|]. split; [|exact Hp].
  replace (unsubscribe_notice (TN_Unsubscribe <$> n)) with n in Hs by (by destruct n). exact Hs.
Qed.

(** ** Sequences of requests *)

(** The packets they are sent as. *)
Definition packets_of (pending : list CleanRequest) : list (option Packet) :=
  (λ c, replay_packet (cr_request c)) <$> pending.

Lemma wp_replay_app now l l' (Q : list (option Packet) → _ → Prop) X s :
  wp (replay_all now l) (λ r s', wp (replay_all now l') (λ r', Q (r ++ r')) X s') X s →
  wp (replay_all now (l ++ l')) Q X s.
Proof.
  revert Q s. induction l as [|c l IH]; intros Q s Hw; [exact Hw|]. cbn [app replay_all] in *.
  apply wp_bind_inv in Hw. apply wp_bind. eapply wp_mono; [exact Hw| |done].
  intros r s1 Hw1. apply wp_bind_inv in Hw1. apply wp_bind, IH.
  eapply wp_mono; [exact Hw1| |done]. intros rs s2 Hw2. eapply wp_mono; [exact Hw2| |done].
  intros r' s3 HQ. by apply wp_ret.
Qed.

Lemma difference_cons (R : gset Z) k l :
  R ∖ list_to_set (k :: l) = R ∖ {[k]} ∖ list_to_set l.
Proof. set_solver. Qed.

Definition publishes_of (ps : list (Publish * option nat)) : list CleanRequest :=
  (λ p, {| cr_request := R_Publish p.1; cr_notice := TN_Publish <$> p.2; cr_replay := true |}) <$> ps.

Abbreviation pkids ps := ((λ p : Publish * option nat, pub_pkid p.1) <$> ps).

Lemma wp_replay_publishes now ps Rp Rc s :
  inv Rp Rc s → NoDup (pkids ps) →
  (∀ p, p ∈ ps → pub_pkid p.1 ∈ Rp ∧ pub_qos p.1 ≠ AtMostOnce) →
  inflight s + blen ps ≤ max_inflight s →
  wp (replay_all now (publishes_of ps))
    (λ r s', r = packets_of (publishes_of ps) ∧ inv (Rp ∖ list_to_set (pkids ps)) Rc s' ∧
       flows_of s' = flows_of (set_inflight (inflight s + blen ps)
         (set_outgoing_pub_order (outgoing_pub_order s ++ pkids ps) s)) ∧
       (∀ p, p ∈ ps → vget (outgoing_pub s') (pub_pkid p.1) = Some (Some p.1)) ∧
       (∀ j q, 0 ≤ j → j ∉ pkids ps → vget (outgoing_pub s) j = Some (Some q) →
               vget (outgoing_pub s') j = Some (Some q))) never s.
Proof.
  revert Rp s. induction ps as [|[p n] ps IH]; intros Rp s I Hnd Hall Hw.
  { apply wp_ret. split; [done|]. cbn [fmap list_fmap list_to_set]. rewrite difference_empty_L.
    split; [done|]. rewrite app_nil_r. unfold blen. cbn [length Z.of_nat]. rewrite Z.add_0_r.
    split; [done|]. split; [by intros p ?%not_elem_of_nil|done]. }
  cbn [fmap list_fmap] in Hnd. apply NoDup_cons in Hnd as [Hnew Hnd]. rewrite blen_cons in Hw.
  pose proof (blen_nonneg ps). destruct (Hall (p, n)) as [Hp Hq]; [by left|]. cbn [fst] in *.
  cbn [publishes_of fmap list_fmap replay_all cr_request cr_notice fst snd]. fold (publishes_of ps).
  apply wp_bind. eapply wp_mono; [apply (wp_replay_publish Rp Rc); [done..|lia]| |done].
  intros r s1 (-> & I1 & Hf & Hv & Hj). unfold flows_of in Hf. fields.
  injection Hf as Hpo Hro Hrro Hpa Hip Hir Hsub Hunsub Hcol Hcn Hif Hm Ham.
  apply wp_bind. eapply wp_mono; [apply (IH (Rp ∖ {[pub_pkid p]})); try done; [|lia]| |done].
  - intros p' Hin. destruct (Hall p') as [Hp' ?]; [by right|]. split; [|done].
    apply elem_of_difference. split; [done|]. rewrite elem_of_singleton. intros He.
    apply Hnew. rewrite <- He. apply list_elem_of_fmap. by exists p'.
  - intros r s2 (-> & I2 & Hf2 & Hv2 & Hj2). apply wp_ret. split; [done|].
    rewrite (difference_cons Rp).
    split; [done|]. rewrite blen_cons. split_and!.
    + unfold flows_of in *. fields. injection Hf2 as -> -> -> -> -> -> -> -> -> -> -> -> ->.
      rewrite Hpo, Hif, <- (assoc_L (++)). cbn [app fmap list_fmap fst].
      replace (inflight s + (1 + blen ps)) with (inflight s + 1 + blen ps) by lia. congruence.
    + intros p' [->|Hin]%elem_of_cons; [|by apply Hv2]. apply Hj2; [|done|done].
      pose proof (inv_reserved _ _ _ I _ Hp).
      assert (Hr : pub_pkid p ∈ live_ids Rp Rc s) by (rewrite elem_live_ids; tauto).
      apply (ids_range _ _ _ (inv_ids _ _ _ I)) in Hr. cbn [fst]. lia.
    + intros j q Hj0 Hnot Hx. cbn [fmap list_fmap fst] in Hnot. apply not_elem_of_cons in Hnot as [??].
      by apply Hj2, Hj.
Qed.

Lemma same_slots_trans {A} (v1 v2 v3 : list (option A)) :
  same_slots v1 v2 → same_slots v2 v3 → same_slots v1 v3.
Proof. intros H1 H2 k x Hk. by rewrite (H1 k x Hk), (H2 k x Hk). Qed.

Lemma wp_replay_pubrels now s0 ks Rp Rc s :
  inv Rp Rc s → outgoing_rel_replay_order s = ks → inflight s + blen ks ≤ max_inflight s →
  wp (replay_all now (map (clean_pubrel s0) ks))
    (λ r s', r = packets_of (map (clean_pubrel s0) ks) ∧ inv Rp Rc s' ∧
       flows_of s' = flows_of (set_inflight (inflight s + blen ks)
         (set_outgoing_rel_order (outgoing_rel_order s ++ ks)
           (set_outgoing_rel_replay_order [] s))) ∧
       same_slots (outgoing_pub s) (outgoing_pub s')) never s.
Proof.
  revert s. induction ks as [|k ks IH]; intros s I Hks Hw.
  { apply wp_ret. split; [done|]. split; [done|]. unfold flows_of. fields. rewrite app_nil_r, Hks.
    unfold blen. cbn [length Z.of_nat]. by rewrite Z.add_0_r. }
  rewrite blen_cons in Hw. pose proof (blen_nonneg ks). cbn [map replay_all clean_pubrel cr_request cr_notice].
  apply wp_bind. eapply wp_mono; [apply (wp_replay_pubrel Rp Rc); [done|by rewrite Hks; left|lia]| |done].
  intros r s1 (-> & I1 & Hf & Hs1). unfold flows_of, replayed_rel in Hf. fields. rewrite Hks in Hf.
  cbn [remove_ordered_pkid] in Hf. rewrite Z.eqb_refl in Hf.
  injection Hf as Hpo Hro Hrro Hpa Hip Hir Hsub Hunsub Hcol Hcn Hif Hm Ham.
  apply wp_bind. eapply wp_mono; [apply IH; [done|done|lia]| |done].
  intros r s2 (-> & I2 & Hf2 & Hs2). apply wp_ret. split; [done|]. split; [done|].
  split; [|by eapply same_slots_trans]. rewrite blen_cons.
  unfold flows_of in *. fields. injection Hf2 as -> -> -> -> -> -> -> -> -> -> -> -> ->.
  rewrite Hro, Hif, <- (assoc_L (++)). cbn [app].
  replace (inflight s + (1 + blen ks)) with (inflight s + 1 + blen ks) by lia. congruence.
Qed.

(** A pending request is stored under its identifier. *)
Lemma replayed_subscribe k (e : PendingSubscribe) :
  subscribe_pkid (ps_subscribe e) = k →
  {| ps_subscribe := {| subscribe_pkid := k; filters := filters (ps_subscribe e) |};
     ps_notice := ps_notice e |} = e.
Proof. destruct e as [[k' fs] n]. cbn. by intros ->. Qed.
Lemma replayed_unsubscribe k (e : PendingUnsubscribe) :
  unsubscribe_pkid (pu_unsubscribe e) = k →
  {| pu_unsubscribe := {| unsubscribe_pkid := k; topics := topics (pu_unsubscribe e) |};
     pu_notice := pu_notice e |} = e.
Proof. destruct e as [[k' ts] n]. cbn. by intros ->. Qed.

Lemma union_insert_cons {V} (m : gmap Z V) k x l :
  k ∉ l.*1 → list_to_map l ∪ <[k := x]> m = list_to_map ((k, x) :: l) ∪ m.
Proof.
  intros Hk. cbn [list_to_map foldr]. rewrite <- insert_union_l, insert_union_r; [done|].
  by apply not_elem_of_list_to_map_1.
Qed.

Lemma list_to_map_btree {V} (m : gmap Z V) : list_to_map (btree_entries m) = m.
Proof.
  rewrite <- (list_to_map_to_list m) at 2. apply list_to_map_proper; [|apply btree_entries_perm].
  rewrite btree_entries_perm. apply NoDup_fst_map_to_list.
Qed.

Lemma wp_replay_subs now es Rp Rc s :
  inv Rp Rc s → NoDup es.*1 →
  (∀ e, e ∈ es → e.1 ∈ Rc ∧ subscribe_pkid (ps_subscribe e.2) = e.1 ∧
                 filters (ps_subscribe e.2) ≠ []) →
  wp (replay_all now (map clean_subscribe es))
    (λ r s', r = packets_of (map clean_subscribe es) ∧ inv Rp (Rc ∖ list_to_set es.*1) s' ∧
       flows_of s' = flows_of (set_pending_subscribe (list_to_map es ∪ pending_subscribe s) s) ∧
       outgoing_pub s' = outgoing_pub s) never s.
Proof.
  revert Rc s. induction es as [|[k e] es IH]; intros Rc s I Hnd Hall.
  { apply wp_ret. split; [done|]. cbn [fmap list_fmap list_to_set]. rewrite difference_empty_L.
    split; [done|]. unfold flows_of. fields. by rewrite list_to_map_nil, (left_id_L ∅ (∪)). }
  apply NoDup_cons in Hnd as [Hnew Hnd]. destruct (Hall (k, e)) as (Hk & He & Hf); [by left|].
  cbn [map replay_all clean_subscribe cr_request cr_notice fst snd] in *. apply wp_bind.
  eapply wp_mono; [by apply (wp_replay_sub Rp Rc)| |done].
  intros r s1 (-> & I1 & Hf1 & Hp1). cbn [subscribe_pkid] in I1.
  unfold flows_of, add_subscribe in Hf1. fields. cbn [subscribe_pkid] in Hf1.
  rewrite (replayed_subscribe k e He) in Hf1.
  injection Hf1 as Hpo Hro Hrro Hpa Hip Hir Hsub Hunsub Hcol Hcn Hif Hm Ham.
  apply wp_bind. eapply wp_mono; [apply (IH (Rc ∖ {[k]})); [done|done|]| |done].
  - intros e' Hin. destruct (Hall e') as (Hk' & ? & ?); [by right|]. split; [|done].
    apply elem_of_difference. split; [done|]. rewrite elem_of_singleton. intros Hx.
    apply Hnew. cbn [fst]. rewrite <- Hx. by apply list_elem_of_fmap_2.
  - intros r s2 (-> & I2 & Hf2 & Hp2). apply wp_ret. split; [done|].
    cbn [fmap list_fmap fst]. rewrite difference_cons. split; [done|].
    split; [|by rewrite Hp2]. unfold flows_of in *. fields.
    injection Hf2 as -> -> -> -> -> -> -> -> -> -> -> -> ->.
    rewrite Hsub, union_insert_cons by done. congruence.
Qed.

Lemma wp_replay_unsubs now es Rp Rc s :
  inv Rp Rc s → NoDup es.*1 →
  (∀ e, e ∈ es → e.1 ∈ Rc ∧ unsubscribe_pkid (pu_unsubscribe e.2) = e.1 ∧
                 topics (pu_unsubscribe e.2) ≠ []) →
  wp (replay_all now (map clean_unsubscribe es))
    (λ r s', r = packets_of (map clean_unsubscribe es) ∧ inv Rp (Rc ∖ list_to_set es.*1) s' ∧
       flows_of s' = flows_of (set_pending_unsubscribe (list_to_map es ∪ pending_unsubscribe s) s) ∧
       outgoing_pub s' = outgoing_pub s) never s.
Proof.
  revert Rc s. induction es as [|[k e] es IH]; intros Rc s I Hnd Hall.
  { apply wp_ret. split; [done|]. cbn [fmap list_fmap list_to_set]. rewrite difference_empty_L.
    split; [done|]. unfold flows_of. fields. by rewrite list_to_map_nil, (left_id_L ∅ (∪)). }
  apply NoDup_cons in Hnd as [Hnew Hnd]. destruct (Hall (k, e)) as (Hk & He & Hf); [by left|].
  cbn [map replay_all clean_unsubscribe cr_request cr_notice fst snd] in *. apply wp_bind.
  eapply wp_mono; [by apply (wp_replay_unsub Rp Rc)| |done].
  intros r s1 (-> & I1 & Hf1 & Hp1). cbn [unsubscribe_pkid] in I1.
  unfold flows_of, add_unsubscribe in Hf1. fields. cbn [unsubscribe_pkid] in Hf1.
  rewrite (replayed_unsubscribe k e He) in Hf1.
  injection Hf1 as Hpo Hro Hrro Hpa Hip Hir Hsub Hunsub Hcol Hcn Hif Hm Ham.
  apply wp_bind. eapply wp_mono; [apply (IH (Rc ∖ {[k]})); [done|done|]| |done].
  - intros e' Hin. destruct (Hall e') as (Hk' & ? & ?); [by right|]. split; [|done].
    apply elem_of_difference. split; [done|]. rewrite elem_of_singleton. intros Hx.
    apply Hnew. cbn [fst]. rewrite <- Hx. by apply list_elem_of_fmap_2.
  - intros r s2 (-> & I2 & Hf2 & Hp2). apply wp_ret. split; [done|].
    cbn [fmap list_fmap fst]. rewrite difference_cons. split; [done|].
    split; [|by rewrite Hp2]. unfold flows_of in *. fields.
    injection Hf2 as -> -> -> -> -> -> -> -> -> -> -> -> ->.
    rewrite Hunsub, union_insert_cons by done. congruence.
Qed.

(** ** All groups *)

Lemma btree_elem {V} (m : gmap Z V) e : e ∈ btree_entries m ↔ m !! e.1 = Some e.2.
Proof. rewrite btree_entries_perm. destruct e. apply elem_of_map_to_list. Qed.

Lemma btree_nodup {V} (m : gmap Z V) : NoDup (btree_entries m).*1.
Proof. rewrite btree_entries_perm. apply NoDup_fst_map_to_list. Qed.

Lemma btree_set {V} (m : gmap Z V) k : k ∈ (list_to_set (btree_entries m).*1 : gset Z) ↔ k ∈ dom m.
Proof. by rewrite elem_of_list_to_set, keys_btree, keys_elem, elem_of_dom. Qed.

(** From a state with nothing in progress that reserves the identifiers of the requests. *)
Lemma wp_replay_groups now s0 (ps : list (Publish * option nat)) (ks : list Z)
    (es : gmap Z PendingSubscribe) (us : gmap Z PendingUnsubscribe) s1 :
  inv (list_to_set (pkids ps)) (dom es ∪ dom us) s1 →
  outgoing_pub_order s1 = [] → outgoing_rel_order s1 = [] → outgoing_rel_replay_order s1 = ks →
  pending_subscribe s1 = ∅ → pending_unsubscribe s1 = ∅ → inflight s1 = 0 →
  NoDup (pkids ps) → (∀ p, p ∈ ps → pub_qos p.1 ≠ AtMostOnce) → blen ps + blen ks ≤ max_inflight s1 →
  (∀ k e, es !! k = Some e → subscribe_pkid (ps_subscribe e) = k ∧ filters (ps_subscribe e) ≠ []) →
  (∀ k e, us !! k = Some e → unsubscribe_pkid (pu_unsubscribe e) = k ∧ topics (pu_unsubscribe e) ≠ []) →
  dom es ## dom us →
  let requests := publishes_of ps ++ map (clean_pubrel s0) ks ++
    map clean_subscribe (btree_entries es) ++ map clean_unsubscribe (btree_entries us) in
  wp (replay_all now requests)
    (λ r s2, r = packets_of requests ∧ inv ∅ ∅ s2 ∧
       flows_of s2 = flows_of (set_pending_unsubscribe us (set_pending_subscribe es
         (set_inflight (blen ps + blen ks) (set_outgoing_rel_replay_order []
         (set_outgoing_rel_order ks (set_outgoing_pub_order (pkids ps) s1)))))) ∧
       ∀ p, p ∈ ps → vget (outgoing_pub s2) (pub_pkid p.1) = Some (Some p.1)) never s1.
Proof.
  intros I1 Hpo1 Hro1 Hrro1 Hs1 Hu1 Hi1 Hnd Hq Hwin Hes Hus Hdis. cbn zeta.
  pose proof (blen_nonneg ks). apply wp_replay_app.
  eapply wp_mono; [eapply wp_replay_publishes; [exact I1|exact Hnd|..|lia]| |done].
  { intros p Hp. split; [|by apply Hq]. apply elem_of_list_to_set, list_elem_of_fmap. by exists p. }
  intros r s2 (-> & I2 & Hf2 & Hv2 & _). rewrite difference_diag_L in I2.
  rewrite Hpo1, Hi1 in Hf2. cbn [app] in Hf2. unfold flows_of in Hf2. fields.
  injection Hf2 as Hpo2 Hro2 Hrro2 Hpa2 Hip2 Hir2 Hsub2 Hunsub2 Hcol2 Hcn2 Hif2 Hm2 Ham2.
  apply wp_replay_app. eapply wp_mono; [eapply wp_replay_pubrels; [exact I2|congruence|lia]| |done].
  intros r s3 (-> & I3 & Hf3 & Hv3). unfold flows_of in Hf3. fields.
  injection Hf3 as Hpo3 Hro3 Hrro3 Hpa3 Hip3 Hir3 Hsub3 Hunsub3 Hcol3 Hcn3 Hif3 Hm3 Ham3.
  apply wp_replay_app. eapply wp_mono; [eapply wp_replay_subs; [exact I3|apply btree_nodup|]| |done].
  { intros e He%btree_elem. split; [|by apply Hes].
    apply elem_of_union_l, elem_of_dom. by eexists. }
  intros r s4 (-> & I4 & Hf4 & Hv4). unfold flows_of in Hf4. fields.
  injection Hf4 as Hpo4 Hro4 Hrro4 Hpa4 Hip4 Hir4 Hsub4 Hunsub4 Hcol4 Hcn4 Hif4 Hm4 Ham4.
  eapply wp_mono; [eapply wp_replay_unsubs; [exact I4|apply btree_nodup|]| |done].
  { intros e He%btree_elem. split; [|by apply Hus].
    assert (Hd : e.1 ∈ dom us) by (apply elem_of_dom; by eexists).
    apply elem_of_difference. split; [by apply elem_of_union_r|]. rewrite btree_set.
    intros Hd'. by apply (Hdis e.1). }
  intros r s5 (-> & I5 & Hf5 & Hv5). split_and!.
  - unfold packets_of. by rewrite !fmap_app.
  - replace ∅ with ((dom es ∪ dom us) ∖ list_to_set (btree_entries es).*1
      ∖ list_to_set (btree_entries us).*1 : gset Z) at 2; [done|].
    apply set_eq. intros k. rewrite !elem_of_difference, !btree_set, elem_of_union.
    rewrite elem_of_empty. tauto.
  - unfold flows_of in *. fields. injection Hf5 as -> -> -> -> -> -> -> -> -> -> -> -> ->.
    rewrite list_to_map_btree in *. rewrite Hsub4, Hunsub4, Hsub3, Hunsub3, Hsub2, Hunsub2, Hs1, Hu1.
    rewrite !(right_id_L ∅ (∪)), list_to_map_btree, Hro4, Hro3, Hro2, Hro1. cbn [app].
    rewrite Hif4, Hif3, Hif2, Z.add_0_l. congruence.
  - intros p Hp. rewrite Hv5, Hv4. apply Hv3; [|by apply Hv2].
    assert (Hk : pub_pkid p.1 ∈ live_ids (list_to_set (pkids ps)) (dom es ∪ dom us) s1).
    { rewrite elem_live_ids. do 5 right. left. apply elem_of_list_to_set, list_elem_of_fmap. by exists p. }
    apply (ids_range _ _ _ (inv_ids _ _ _ I1)) in Hk. lia.
Qed.
End Replay.

Section Reconnect.
  Context {B : Type} `{FixedBitSetLaws B}.

Abbreviation ST := (M (MqttState B) StateError).
Implicit Types (s : MqttState B) (Rp Rc : gset Z).
Abbreviation never := (λ (_ : StateError) (_ : MqttState B), False).
Abbreviation pkids ps := ((λ p : Publish * option nat, pub_pkid p.1) <$> ps).

(** ** The whole session *)

(** The publish in slot [k], as it is sent again, with its notice. *)
Definition tracked_publish s (k : Z) : option (Publish * option nat) :=
  match vget (outgoing_pub s) k with
  | Some (Some p) => Some (mark_dup p, mjoin (vget (outgoing_pub_notice s) k))
  | _ => None
  end.

Lemma clean_publishes_of s l :
  omap (clean_publish s) l = publishes_of (omap (tracked_publish s) l).
Proof.
  induction l as [|k l IH]; [done|]. cbn [omap list_omap]. unfold clean_publish at 1, tracked_publish at 1.
  destruct (vget (outgoing_pub s) k) as [[p|]|]; [|exact IH..].
  unfold publishes_of. cbn [fmap list_fmap fst snd]. by rewrite IH.
Qed.

Lemma tracked_pkids Rp Rc s (l : list Z) :
  inv Rp Rc s → (∀ k, k ∈ l → k ∈ outgoing_pub_order s) → pkids (omap (tracked_publish s) l) = l.
Proof.
  intros I. induction l as [|k l IH]; intros Hl; [done|]. cbn [omap list_omap].
  destruct (clean_publish_ok _ _ _ k I) as (_ & p & Hp & Hk); [by apply Hl; left|].
  unfold tracked_publish at 1. rewrite Hp. cbn [fmap list_fmap fst]. rewrite mark_dup_pkid, Hk, IH; [done|].
  intros j Hj. apply Hl. by right.
Qed.

Lemma tracked_elem Rp Rc s p :
  inv Rp Rc s → p ∈ omap (tracked_publish s) (outgoing_pub_order s) →
  ∃ q, vget (outgoing_pub s) (pub_pkid p.1) = Some (Some q) ∧ p.1 = mark_dup q ∧
       pub_pkid p.1 ∈ outgoing_pub_order s ∧ pub_qos p.1 ≠ AtMostOnce.
Proof.
  intros I (k & Hk & Hp)%list_elem_of_omap. pose proof (inv_pub_range _ _ _ I k Hk) as [? _].
  unfold tracked_publish in Hp. destruct (vget (outgoing_pub s) k) as [[q|]|] eqn:Hq; try done.
  injection Hp as <-. destruct (slots_publish _ _ (inv_slots _ _ _ I) k q) as [<- Hqos]; [lia|done|].
  cbn [fst]. rewrite mark_dup_pkid. exists q. split_and!; try done.
  unfold mark_dup. by case_decide.
Qed.

Lemma control_disjoint Rp Rc s k :
  inv Rp Rc s → k ∈ dom (pending_unsubscribe s) → k ∉ dom (pending_subscribe s).
Proof.
  intros I Hu Hs. pose proof (ids_nodup _ _ _ (inv_ids _ _ _ I)) as Hnd. unfold live_ids in Hnd.
  rewrite !NoDup_app in Hnd. destruct Hnd as (_ & _ & _ & _ & _ & _ & _ & Hd & _).
  apply (Hd k); [by apply keys_elem, elem_of_dom|]. rewrite elem_of_app. left.
  by apply keys_elem, elem_of_dom.
Qed.

(** The four groups of requests, from the state [clean] leaves. *)
Lemma wp_replay_unfinished now s s1 :
  inv ∅ ∅ s → collision s = None → outgoing_rel_replay_order s = [] → cleaned true ∅ ∅ s s1 →
  wp (replay_all now (unfinished s))
    (λ r s2, r = packets_of (unfinished s) ∧ inv ∅ ∅ s2 ∧
       flows_of s2 = flows_of (set_collision_notice (collision_notice s1)
                       (set_incoming_puback (incoming_puback s1) s)) ∧
       ∀ k p, 0 ≤ k → vget (outgoing_pub s) k = Some (Some p) →
              vget (outgoing_pub s2) k = Some (Some (mark_dup p))) never s1.
Proof.
  intros I Hcol Hrr [I1 Hpo1 Hro1 Hrro1 [Hs1 Hu1] Hc1 Hi1 _ [Hip1 Hir1] [Hm1 Ha1] _ _].
  rewrite Hrr in Hrro1. cbn [app] in Hrro1.
  unfold unfinished, clean_held. rewrite Hcol, clean_publishes_of. cbn [app].
  set (ps := omap (tracked_publish s) (outgoing_pub_order s)).
  assert (Hpk : pkids ps = outgoing_pub_order s) by (by eapply tracked_pkids).
  assert (Hlen : blen ps = blen (outgoing_pub_order s))
    by (rewrite <- Hpk; unfold blen; by rewrite length_fmap).
  pose proof (inv_inflight _ _ _ I) as Hinf. pose proof (inv_window _ _ _ I) as Hwin.
  cbn [cleaned_Rp cleaned_Rc] in I1. rewrite !(left_id_L ∅ (∪)) in I1.
  eapply wp_mono; [apply (wp_replay_groups now s ps); try done; rewrite ?Hpk, ?Hm1; try done|..|done].
  - by destruct (inv_orders_nodup _ _ _ I).
  - by intros p (q & _ & _ & Hin & ?)%(tracked_elem _ _ _ _ I).
  - lia.
  - intros k e. apply (inv_sub _ _ _ I).
  - intros k e. apply (inv_unsub _ _ _ I).
  - intros k Hs Hu. by apply (control_disjoint ∅ ∅ s k).
  - intros r s2 (-> & I2 & Hf & Hv). split_and!; [done..| |].
    + rewrite Hf, Hpk, Hlen, <- Hinf. unfold flows_of. fields. by rewrite Hrr, Hc1, Hcol, Hip1, Hir1, Hm1, Ha1.
    + intros k p Hk Hp. pose proof (inv_slot_some _ _ _ I k p Hk Hp) as Hin.
      destruct (slots_publish _ _ (inv_slots _ _ _ I) k p Hk Hp) as [Hpk' _].
      specialize (Hv (mark_dup p, mjoin (vget (outgoing_pub_notice s) k))). cbn [fst] in Hv.
      rewrite mark_dup_pkid, Hpk' in Hv. apply Hv. apply list_elem_of_omap. exists k.
      split; [done|]. unfold tracked_publish. by rewrite Hp.
Qed.

(** [clean] loses nothing: in every reachable state it returns, without an error, every
    unfinished request in order: the publishes in the order they were sent, marked as
    duplicates, then a publish held back, the PUBRELs, and the pending subscribe and
    unsubscribe requests; and it leaves a state with no flow in progress, whose PUBRELs are
    queued for replay and whose receiving side is kept but for pending PUBACKs. *)
Theorem clean_returns_unfinished (m : u16) (am : AckMode) Rp Rc s (keep : bool) :
  0 ≤ m ≤ u16_MAX → reachable m am Rp Rc s →
  ∃ s', clean_with_notices_internal keep s = (Ok (unfinished s), s') ∧
    blen (unfinished s) = inflight s + (match collision s with Some _ => 1 | None => 0 end) +
      Z.of_nat (size (pending_subscribe s)) + Z.of_nat (size (pending_unsubscribe s)) ∧
    cleaned keep Rp Rc s s'.
Proof.
  intros Hm Hr. pose proof (reachable_inv _ _ _ _ _ Hm Hr) as I.
  assert (Hw : wp (clean_with_notices_internal keep)
    (λ r s', r = unfinished s ∧ cleaned keep Rp Rc s s') never s) by (by apply (wp_clean keep Rp Rc)).
  unfold wp in Hw. destruct (clean_with_notices_internal keep s) as [[r|e|] s']; try done.
  destruct Hw as [-> Hc]. exists s'. split; [done|]. split; [|done].
  unfold unfinished. rewrite clean_publishes_of, (inv_inflight _ _ _ I).
  rewrite <- (tracked_pkids _ _ _ (outgoing_pub_order s) I) at 2 by done.
  unfold blen, publishes_of. rewrite !length_app, !length_map, ?length_fmap.
  rewrite !btree_entries_perm, <- !length_map_to_list. unfold clean_held. destruct (collision s); cbn; lia.
Qed.

(** C1: Reconnecting restores the session: in a reachable state without collision or unsent
    replays, [clean] followed by sending again everything it returned succeeds, in order and
    with the same identifiers; afterwards the same publishes, releases, subscriptions and
    unsubscriptions are in progress in the same order with their notices, the publishes being
    marked as duplicates, and the same identifiers are in use. *)
Theorem reconnect_restores (m : u16) (am : AckMode) s now :
  0 ≤ m ≤ u16_MAX → reachable m am ∅ ∅ s → collision s = None →
  outgoing_rel_replay_order s = [] →
  ∃ s1 s2, clean_with_notices_for_reconnect s = (Ok (unfinished s), s1) ∧
    replay_all now (unfinished s) s1 = (Ok (packets_of (unfinished s)), s2) ∧
    outgoing_pub_order s2 = outgoing_pub_order s ∧ outgoing_rel_order s2 = outgoing_rel_order s ∧
    pending_subscribe s2 = pending_subscribe s ∧
    pending_unsubscribe s2 = pending_unsubscribe s ∧ inflight s2 = inflight s ∧
    incoming_pub s2 = incoming_pub s ∧ incoming_pubrec s2 = incoming_pubrec s ∧
    (∀ k p, 0 ≤ k → vget (outgoing_pub s) k = Some (Some p) →
            vget (outgoing_pub s2) k = Some (Some (mark_dup p))) ∧
    (∀ k, packet_identifier_in_use s2 k = packet_identifier_in_use s k).
Proof.
  intros Hm Hr Hcol Hrr. pose proof (reachable_inv _ _ _ _ _ Hm Hr) as I.
  unfold clean_with_notices_for_reconnect.
  assert (Hw : wp (clean_with_notices_internal true)
    (λ r s', r = unfinished s ∧ cleaned true ∅ ∅ s s') never s) by (by apply (wp_clean true ∅ ∅)).
  unfold wp in Hw. destruct (clean_with_notices_internal true s) as [[r|e|] s1]; try done.
  destruct Hw as [-> Hc]. pose proof (wp_replay_unfinished now s s1 I Hcol Hrr Hc) as Hw2.
  unfold wp in Hw2. destruct (replay_all now (unfinished s) s1) as [[r|e|] s2] eqn:E2; try done.
  destruct Hw2 as (-> & I2 & Hf & Hv). pose proof (live_ids_flows ∅ ∅ _ _ Hf) as Hlive.
  exists s1, s2. split; [done|]. split; [done|].
  unfold flows_of in Hf. fields. injection Hf as Hpo Hro Hrro Hpa Hip Hir Hsub Hunsub _ _ Hif _ _.
  split_and!; try done. intros k. rewrite (inv_in_use _ _ _ I2), (inv_in_use _ _ _ I).
  by rewrite Hlive.
Qed.

(** Resetting a session fails every notice it holds, once each, and leaves a new session
    with the same window and acknowledgement mode; nothing else survives. *)
Theorem reset_fails_notices (m : u16) (am : AckMode) Rp Rc s now :
  0 ≤ m ≤ u16_MAX → reachable m am Rp Rc s →
  reset_session_state now s = (Ok (tracked_notices s), new_internal now m am).
Proof.
  intros Hm Hr. pose proof (reachable_inv _ _ _ _ _ Hm Hr) as I.
  destruct (reachable_config _ _ _ _ _ Hm Hr) as [<- <-].
  assert (Hw : wp (reset_session_state now) (λ r s', r = tracked_notices s ∧
    s' = new_internal now (max_inflight s) (ack_mode s)) never s)
    by (by apply (wp_reset_session_state Rp Rc)).
  unfold wp in Hw. destruct (reset_session_state now s) as [[r|e|] s']; try done.
  by destruct Hw as [-> ->].
Qed.

(** ** Guards of the event loop *)

(** Whether the event loop would send a request of a former connection now. *)
Definition replay_ready s (r : Request) : bool :=
  match r with
  | R_Publish p => can_send_replayed_publish s p
  | R_PubRel a => can_send_pubrel s (pubrel_pkid a)
  | R_Subscribe u => can_send_replayed_control_packet s (subscribe_pkid u)
  | R_Unsubscribe u => can_send_replayed_control_packet s (unsubscribe_pkid u)
  | _ => false
  end.

(** An identifier reserved for replay is in use, and by no flow. *)
Lemma reserved_alone Rp Rc s k :
  inv Rp Rc s → k ∈ Rp ∨ k ∈ Rc →
  1 ≤ k ≤ u16_MAX ∧ packet_identifier_in_use s k = true ∧ k ∉ outgoing_pub_order s ∧
  contains (outgoing_rel s) k = false ∧ contains (outgoing_rel_replay s) k = false ∧
  has_pending_control s k = false.
Proof.
  intros I Hk. assert (Hin : k ∈ live_ids Rp Rc s) by (rewrite elem_live_ids; tauto).
  pose proof (inv_ids _ _ _ I) as Hids. split; [by apply (ids_range _ _ _ Hids)|].
  rewrite (inv_in_use _ _ _ I), bool_decide_eq_true_2 by done. split; [done|].
  assert (Hfree : ∀ Rp' Rc', live_ids Rp Rc s ≡ₚ k :: live_ids Rp' Rc' s →
    k ∉ outgoing_pub_order s ∧ contains (outgoing_rel s) k = false ∧
    contains (outgoing_rel_replay s) k = false ∧ has_pending_control s k = false).
  { intros Rp' Rc' Hp. pose proof (ids_nodup _ _ _ Hids) as Hnd. rewrite Hp in Hnd.
    apply NoDup_cons in Hnd as [Hnew _]. apply not_live in Hnew as (? & Hr & Hrr & Hs & Hu & _).
    unfold has_pending_control. rewrite Hs, Hu.
    split_and!; [done|by eapply bits_ok_false; [apply I|]..|done]. }
  destruct Hk as [Hk|Hk]; eapply Hfree.
  - by apply live_ids_reserved_remove.
  - by apply live_ids_control_remove.
Qed.

(** Replay makes progress: in every reachable state without a collision, the guard the
    event loop tests before it sends a request of a former connection again holds exactly when
    the window has room for it (subscribe and unsubscribe requests need none), and whenever it
    holds sending succeeds with the request's own packet. *)
Theorem replay_progress (m : u16) (am : AckMode) Rp Rc s now r notice :
  0 ≤ m ≤ u16_MAX → reachable m am Rp Rc s → replayable Rp Rc s r → collision s = None →
  replay_ready s r = (match r with R_Publish _ | R_PubRel _ => inflight s <? m | _ => true end) ∧
  (replay_ready s r = true →
   ∃ s', handle_replayed_outgoing_packet_with_notice now r notice s = (Ok (replay_packet r, None), s')).
Proof.
  intros Hm Hr Hrep Hcol. pose proof (reachable_inv _ _ _ _ _ Hm Hr) as I.
  destruct (reachable_config _ _ _ _ _ Hm Hr) as [<- _].
  assert (Hready : replay_ready s r =
    match r with R_Publish _ | R_PubRel _ => inflight s <? max_inflight s | _ => true end).
  { destruct r as [p|[k]|[k]|c|[k]| | |sub|c|unsub|c| | | | |]; try done; cbn [replayable replay_ready] in *.
    - destruct Hrep as [Hp Hq]. pose proof (inv_reserved _ _ _ I _ Hp) as Hlen.
      destruct (reserved_alone _ _ _ _ I (or_introl Hp)) as (Hk & Hu & Hno & Hr1 & Hr2 & Hc).
      unfold can_send_replayed_publish, validate_outgoing_pkid.
      rewrite decide_False, Hcol, Hu, Hr1, Hr2, Hc by done.
      rewrite (inv_slot_none _ _ _ I) by (done || lia). rewrite (proj2 (Z.eqb_neq _ 0)) by lia.
      destruct (Z.leb_spec (max_inflight s) (inflight s)); cbn; lia.
    - pose proof (inv_replay_range _ _ _ I _ Hrep) as [Hk _]. unfold can_send_pubrel.
      cbn [pubrel_pkid] in *. rewrite (proj2 (Z.eqb_neq _ 0)) by lia.
      rewrite (proj2 (inv_replay _ _ _ I k) Hrep). rewrite (bits_ok_false _ _ _ (inv_rel _ _ _ I)); [done|].
      intros Hin. pose proof (ids_nodup _ _ _ (inv_ids _ _ _ I)) as Hnd. unfold live_ids in Hnd.
      rewrite !NoDup_app in Hnd. destruct Hnd as (_ & _ & _ & Hd & _). apply (Hd k Hin).
      rewrite elem_of_app. by left.
    - destruct Hrep as [Hp _].
      destruct (reserved_alone _ _ _ _ I (or_intror Hp)) as (Hk & Hu & Hno & Hr1 & Hr2 & Hc).
      unfold can_send_replayed_control_packet. rewrite Hu, Hr1, Hr2, Hc.
      by rewrite (proj2 (Z.eqb_neq _ 0)) by lia.
    - destruct Hrep as [Hp _].
      destruct (reserved_alone _ _ _ _ I (or_intror Hp)) as (Hk & Hu & Hno & Hr1 & Hr2 & Hc).
      unfold can_send_replayed_control_packet. rewrite Hu, Hr1, Hr2, Hc.
      by rewrite (proj2 (Z.eqb_neq _ 0)) by lia. }
  split; [exact Hready|]. rewrite Hready. intros Hw.
  pose proof (wp_handle_replayed Rp Rc now s r notice I Hrep) as Hwp. unfold wp in Hwp.
  destruct (handle_replayed_outgoing_packet_with_notice now r notice s) as [[res|e|] s']; [|exfalso|done].
  - destruct Hwp as [_ ->]. by exists s'.
  - destruct Hwp as (_ & _ & Hfull & Hkind). destruct r; try done; lia.
Qed.

(** ** Diagnostics *)

Lemma count_some_none {A} (v : list (option A)) : (count_some v =? 0) = forallb is_none v.
Proof.
  unfold count_some, blen. induction v as [|[x|] v IH]; [done|cbn; lia|exact IH].
Qed.

Lemma ones_none (b : B) : (blen (ones b) =? 0) = no_ones b.
Proof. unfold no_ones, blen. by destruct (ones b). Qed.

Lemma size_none {V} (m : gmap Z V) : (Z.of_nat (size m) =? 0) = bool_decide (m = ∅).
Proof.
  case_bool_decide as Hm; [subst; by rewrite map_size_empty|]. apply Z.eqb_neq. intros Hs.
  apply Hm, map_size_empty_inv. lia.
Qed.

(** The order lists are empty exactly when the vectors they order are. *)
Lemma slots_none order pubs : slots_ok order pubs → no_entries order = forallb is_none pubs.
Proof.
  intros [Ho Hp]. apply eq_true_iff_eq. rewrite List.forallb_forall. split.
  - intros He x Hx%list_elem_of_In%list_elem_of_lookup. destruct Hx as [i Hi].
    destruct order; [|done]. destruct x as [p|]; [|done]. exfalso.
    apply (not_elem_of_nil (Z.of_nat i)), Ho. split; [lia|]. exists p. unfold vget. by rewrite Nat2Z.id.
  - intros Hall. destruct order as [|k order]; [done|]. exfalso.
    assert (Hk : k ∈ k :: order) by (by left). apply Ho in Hk as [_ [p Hx]].
    apply list_elem_of_lookup_2, list_elem_of_In in Hx. by apply Hall in Hx.
Qed.

Lemma bits_none order (bits : B) : bits_ok order bits → no_entries order = no_ones bits.
Proof.
  intros Hb. unfold no_ones. destruct order as [|k order].
  - destruct (ones bits) as [|j l] eqn:Ho; [done|]. exfalso.
    assert (Hj : j ∈ ones bits) by (rewrite Ho; by left). apply elem_of_ones, Hb in Hj.
    by apply not_elem_of_nil in Hj.
  - assert (Hk : k ∈ ones bits) by (apply elem_of_ones, Hb; by left).
    destruct (ones bits); [by apply not_elem_of_nil in Hk|done].
Qed.

(** The diagnostics report "drained" exactly when the state machine considers every
    outbound request finished: in every reachable state the counters of
    [outbound_diagnostics] all vanish if and only if [outbound_requests_drained] holds, which
    also checks the order lists. *)
Theorem diagnostics_drained (m : u16) (am : AckMode) Rp Rc s :
  0 ≤ m ≤ u16_MAX → reachable m am Rp Rc s →
  d_outbound_drained (outbound_diagnostics s) = outbound_requests_drained s.
Proof.
  intros Hm Hr. pose proof (reachable_inv _ _ _ _ _ Hm Hr) as I.
  cbn [outbound_diagnostics d_outbound_drained]. unfold outbound_requests_drained.
  rewrite !count_some_none, !ones_none, !size_none. unfold is_some. rewrite !negb_involutive.
  rewrite (slots_none _ _ (inv_slots _ _ _ I)), (bits_none _ _ (inv_rel _ _ _ I)),
    (bits_none _ _ (inv_replay _ _ _ I)).
  apply eq_true_iff_eq. rewrite !andb_true_iff. tauto.
Qed.
End Reconnect.

(** ** Witnesses, in the session [demo_state] *)

Lemma clean_returns_unfinished_witness :
  ∃ s', clean_with_notices_internal true demo_state = (Ok (unfinished demo_state), s').
Proof.
  destruct (clean_returns_unfinished 10 Automatic ∅ ∅ demo_state true) as (s' & Hs & _);
    [by split|exact demo_reachable|exists s'; exact Hs].
Defined.

Lemma reconnect_restores_witness :
  ∃ s1 s2, clean_with_notices_for_reconnect demo_state = (Ok (unfinished demo_state), s1) ∧
    replay_all 9 (unfinished demo_state) s1 = (Ok (packets_of (unfinished demo_state)), s2).
Proof.
  destruct (reconnect_restores 10 Automatic demo_state 9) as (s1 & s2 & Hs1 & Hs2 & _);
    [by split|exact demo_reachable|by vm_compute|by vm_compute|exists s1, s2; exact (conj Hs1 Hs2)].
Defined.

Lemma reset_fails_notices_witness :
  reset_session_state 9 demo_state = (Ok (tracked_notices demo_state), new_internal 9 10 Automatic).
Proof. apply (reset_fails_notices 10 Automatic ∅ ∅); [by split|exact demo_reachable]. Defined.

(** The session after a reconnection, with the publishes 1 and 2 and the subscription 3 to
    send again. *)
Definition demo_cleaned : MqttState BitVector := (run_op (Op_Clean true) demo_state).2.

Lemma replay_progress_witness :
  ∃ s', handle_replayed_outgoing_packet_with_notice 9 (R_Publish (demo_publish AtLeastOnce 1)) None
          demo_cleaned = (Ok (Some (P_Publish (demo_publish AtLeastOnce 1)), None), s').
Proof.
  destruct (replay_progress 10 Automatic (cleaned_Rp true ∅ demo_state) (cleaned_Rc true ∅ demo_state)
    demo_cleaned 9 (R_Publish (demo_publish AtLeastOnce 1)) None) as [Hready Hsend].
  - by split.
  - exact (reach_step 10 Automatic ∅ ∅ demo_state (Op_Clean true) demo_reachable I).
  - split; [|done]. apply elem_of_union_r, elem_of_list_to_set, demo_order. by left.
  - by vm_compute.
  - apply Hsend. rewrite Hready. by vm_compute.
Defined.

Lemma diagnostics_drained_witness :
  d_outbound_drained (outbound_diagnostics demo_state) = outbound_requests_drained demo_state.
Proof. apply (diagnostics_drained 10 Automatic ∅ ∅); [by split|exact demo_reachable]. Defined.
