(* ===== verification/V4Persist.v ===== *)
(** [rumqttc-v4/src/state.rs]: the checkpoint of a session ([persisted_session]) and restoring a
    session from one ([restore_persisted_session]). *)

From S2P Require Import Prelude.
From S2P Require Import Utf8.
From S2P Require Import Primitives.
From S2P Require Import CodecBase.
From S2P Require Import V4Base.
From S2P Require Import V4Acks.
From S2P Require Import V4Publish.
From S2P Require Import V4Subscribe.
From S2P Require Import V4Connect.
From S2P Require Import V4Packet.
From S2P Require Import FixedBitSet.
From S2P Require Import SessionIO.
From S2P Require Import V4SessionFormat.
From S2P Require Import V4SessionTypes.
From S2P Require Import PacketIds.
From S2P Require Import V4State.
From S2P Require Import V4Clean.
#[local] Open Scope Z_scope.

(** What to do when the broker reports a session for a clean connection. *)
Inductive SessionPresentMismatchPolicy := SPM_Error | SPM_AcceptAsClean.

(** The options the session and the event loop depend on; how the broker is reached (address,
    transport, proxy, request modifiers) and the pace of retransmission are left out.  A
    [Duration] is a number of nanoseconds.  [opt_session_store] says whether a store is
    configured. *)
Record MqttOptions := mkMqttOptions {
  opt_client_id : Bytes;
  opt_clean_session : bool;
  opt_inflight : u16;
  opt_ack_mode : AckMode;
  opt_keep_alive : Z;
  opt_session_present_mismatch : SessionPresentMismatchPolicy;
  opt_auth : ConnectAuth;
  opt_last_will : option LastWill;
  opt_max_incoming_packet_size : usize;
  opt_max_outgoing_packet_size : usize;
  opt_max_request_batch : usize;
  opt_read_batch_size : usize;
  opt_session_store : bool;
  opt_session_store_scope : Bytes;
}.

Inductive SessionRestoreError :=
| UnsupportedFormatVersion (actual : u16)
| ClientIdMismatch (persisted configured : Bytes)
| CleanSessionMismatch (persisted configured : bool)
| MaxInflightMismatch (persisted configured : u16)
| AckModeMismatch
| InvalidPacketIdentifier (pkid : u16)
| OutgoingPacketIdentifierCountOutOfRange (count : usize)
| DuplicateOutgoingPacketIdentifier (pkid : u16)
| OutgoingPublishWindowExceeded (count : usize) (max_inflight : u16)
| InvalidOutgoingPublishQoS (pkid : u16).

(** ** Conversions *)

Definition persisted_ack_mode (ack_mode : AckMode) : PersistedAckMode :=
  match ack_mode with Automatic => PA_Automatic | Manual => PA_Manual end.

Definition persisted_qos (qos : QoS) : PersistedQoS :=
  match qos with
  | AtMostOnce => PQ_AtMostOnce | AtLeastOnce => PQ_AtLeastOnce | ExactlyOnce => PQ_ExactlyOnce
  end.

Definition qos_from_persisted (qos : PersistedQoS) : QoS :=
  match qos with
  | PQ_AtMostOnce => AtMostOnce | PQ_AtLeastOnce => AtLeastOnce | PQ_ExactlyOnce => ExactlyOnce
  end.

Definition persisted_publish (publish : Publish) : option PersistedPublish :=
  if bool_decide (pub_qos publish = AtMostOnce) || (pub_pkid publish =? 0)
     || bool_decide (topic publish = [])
  then None
  else Some {| pp_dup := true; pp_qos := persisted_qos (pub_qos publish);
               pp_retain := retain publish; pp_topic := topic publish;
               pp_pkid := pub_pkid publish; pp_payload := payload publish |}.

Definition persisted_filter (filter : SubscribeFilter) : PersistedFilter :=
  {| pf_path := path filter; pf_qos := persisted_qos (filter_qos filter) |}.

Definition persisted_subscribe (subscribe : Subscribe) : PersistedSubscribe :=
  {| psub_pkid := subscribe_pkid subscribe;
     psub_filters := map persisted_filter (filters subscribe) |}.

Definition persisted_unsubscribe (unsubscribe : Unsubscribe) : PersistedUnsubscribe :=
  {| punsub_pkid := unsubscribe_pkid unsubscribe; punsub_topics := topics unsubscribe |}.

Definition persisted_request_from_request (request : Request) : option PersistedRequest :=
  match request with
  | R_Publish publish => PR_Publish <$> persisted_publish publish
  | R_PubRel pubrel => Some (PR_PubRel {| prel_pkid := pubrel_pkid pubrel |})
  | R_Subscribe subscribe =>
      if subscribe_pkid subscribe =? 0 then None
      else Some (PR_Subscribe (persisted_subscribe subscribe))
  | R_Unsubscribe unsubscribe =>
      if unsubscribe_pkid unsubscribe =? 0 then None
      else Some (PR_Unsubscribe (persisted_unsubscribe unsubscribe))
  | _ => None
  end.

Definition validate_pkid (pkid : u16) : outcome SessionRestoreError unit :=
  if pkid =? 0 then Err (InvalidPacketIdentifier pkid) else Ok tt.

Definition filter_from_persisted (filter : PersistedFilter) : SubscribeFilter :=
  {| path := pf_path filter; filter_qos := qos_from_persisted (pf_qos filter) |}.

Definition request_from_persisted_request (request : PersistedRequest)
  : outcome SessionRestoreError Request :=
  match request with
  | PR_Publish publish =>
      validate_pkid (pp_pkid publish);;
      Ok (R_Publish {| dup := true; retain := pp_retain publish;
                       pub_qos := qos_from_persisted (pp_qos publish); topic := pp_topic publish;
                       pub_pkid := pp_pkid publish; payload := pp_payload publish |})
  | PR_PubRel pubrel =>
      validate_pkid (prel_pkid pubrel);;
      Ok (R_PubRel {| pubrel_pkid := prel_pkid pubrel |})
  | PR_Subscribe subscribe =>
      validate_pkid (psub_pkid subscribe);;
      Ok (R_Subscribe {| subscribe_pkid := psub_pkid subscribe;
                         filters := map filter_from_persisted (psub_filters subscribe) |})
  | PR_Unsubscribe unsubscribe =>
      validate_pkid (punsub_pkid unsubscribe);;
      Ok (R_Unsubscribe {| unsubscribe_pkid := punsub_pkid unsubscribe;
                           topics := punsub_topics unsubscribe |})
  end.

(** ** Validation *)

Definition validate_persisted_session_signature (options : MqttOptions) (session : PersistedSession)
  : outcome SessionRestoreError unit :=
  if negb (session_format_version session =? 2)
  then Err (UnsupportedFormatVersion (session_format_version session))
  else if negb (bool_decide (session_client_id session = opt_client_id options))
  then Err (ClientIdMismatch (session_client_id session) (opt_client_id options))
  else if negb (bool_decide (session_clean_session session = opt_clean_session options))
  then Err (CleanSessionMismatch (session_clean_session session) (opt_clean_session options))
  else if negb (session_max_inflight session =? opt_inflight options)
  then Err (MaxInflightMismatch (session_max_inflight session) (opt_inflight options))
  else if negb (bool_decide (session_ack_mode session = persisted_ack_mode (opt_ack_mode options)))
  then Err AckModeMismatch
  else Ok tt.

Definition validate_persisted_replay_request (request : PersistedRequest)
  : outcome SessionRestoreError u16 :=
  match request with
  | PR_Publish publish =>
      validate_pkid (pp_pkid publish);;
      if bool_decide (pp_qos publish = PQ_AtMostOnce)
      then Err (InvalidOutgoingPublishQoS (pp_pkid publish))
      else Ok (pp_pkid publish)
  | PR_PubRel pubrel => validate_pkid (prel_pkid pubrel);; Ok (prel_pkid pubrel)
  | PR_Subscribe subscribe => validate_pkid (psub_pkid subscribe);; Ok (psub_pkid subscribe)
  | PR_Unsubscribe unsubscribe =>
      validate_pkid (punsub_pkid unsubscribe);; Ok (punsub_pkid unsubscribe)
  end.

Fixpoint validate_incoming (incoming : list PersistedIncomingQos2)
  : outcome SessionRestoreError unit :=
  match incoming with
  | [] => Ok tt
  | i :: incoming => validate_pkid (pi_pkid i);; validate_incoming incoming
  end.

Section Persist.
  Context {B : Type} `{FixedBitSet B}.

Abbreviation State := (MqttState B).
Abbreviation RT := (M State SessionRestoreError).

(** The loop of [validate_persisted_session_packet_ids] over the requests: the window count. *)
Fixpoint validate_replay (replay : list PersistedRequest) (packet_ids : B)
    (publish_window_count : usize) : RT usize :=
  match replay with
  | [] => mret publish_window_count
  | request :: replay =>
      pkid ← lift (validate_persisted_replay_request request);
      if contains packet_ids pkid then mfail (DuplicateOutgoingPacketIdentifier pkid)
      else
        packet_ids ← insert_bit packet_ids pkid;
        validate_replay replay packet_ids
          (match request with
           | PR_Publish _ | PR_PubRel _ => publish_window_count + 1
           | _ => publish_window_count
           end)
  end.

Definition validate_persisted_session_packet_ids (session : PersistedSession) : RT unit :=
  lift (validate_incoming (session_incoming_qos2 session));;
  publish_window_count ←
    validate_replay (session_replay session) (with_capacity full_packet_identifier_len) 0;
  s ← mget;
  if max_inflight s <? publish_window_count
  then mfail (OutgoingPublishWindowExceeded publish_window_count (max_inflight s))
  else mret tt.

(** ** The checkpoint *)

(** The loop over the publishes; the index panics out of bounds. *)
Fixpoint persisted_publishes (s : State) (order : list u16)
  : outcome SessionRestoreError (list PersistedRequest) :=
  match order with
  | [] => Ok []
  | pkid :: order =>
      match vget (outgoing_pub s) pkid with
      | None => Panic
      | Some slot =>
          replay ← persisted_publishes s order;
          Ok (match slot ≫= persisted_publish with
              | Some persisted => PR_Publish persisted :: replay
              | None => replay
              end)
      end
  end.

Definition persisted_replay_requests (s : State)
  : outcome SessionRestoreError (list PersistedRequest) :=
  publishes ← persisted_publishes s (outgoing_pub_order s);
  Ok (publishes
      ++ map (λ pkid, PR_PubRel {| prel_pkid := pkid |}) (outgoing_rel_order s)
      ++ map (λ e, PR_Subscribe (persisted_subscribe (ps_subscribe e.2)))
           (btree_entries (pending_subscribe s))
      ++ map (λ e, PR_Unsubscribe (persisted_unsubscribe (pu_unsubscribe e.2)))
           (btree_entries (pending_unsubscribe s))).

Definition persisted_session (s : State) (options : MqttOptions) (replay_requests : list Request)
  : outcome SessionRestoreError PersistedSession :=
  replay ← persisted_replay_requests s;
  Ok {| session_format_version := 2;
        session_client_id := opt_client_id options;
        session_clean_session := opt_clean_session options;
        session_max_inflight := opt_inflight options;
        session_ack_mode := persisted_ack_mode (opt_ack_mode options);
        session_replay := replay ++ omap persisted_request_from_request replay_requests;
        session_incoming_qos2 :=
          omap (λ pkid, if (0 <=? pkid) && (pkid <=? u16_MAX)
                        then Some {| pi_pkid := pkid |} else None)
            (ones (incoming_pubrec s)) |}.

(** ** Restoring *)

(** An operation of the state whose Rust counterpart returns no [Result]. *)
Definition no_error {A} (m : M State StateError A) : RT A := λ s,
  match m s with
  | (Ok a, s') => (Ok a, s')
  | (_, s') => (Panic, s')
  end.

Fixpoint restore_incoming (incoming : list PersistedIncomingQos2) : RT unit :=
  match incoming with
  | [] => mret tt
  | i :: incoming =>
      s ← mget;
      pub_bits ← insert_bit (incoming_pub s) (pi_pkid i);
      mmodify (set_incoming_pub pub_bits);;
      s ← mget;
      rec_bits ← insert_bit (incoming_pubrec s) (pi_pkid i);
      mmodify (set_incoming_pubrec rec_bits);;
      restore_incoming incoming
  end.

Definition restore_request (request : PersistedRequest) : RT unit :=
  pkid ← (match request with
          | PR_Publish publish =>
              no_error (ensure_outgoing_tracking_capacity (pp_pkid publish + 1));;
              mret (pp_pkid publish)
          | PR_PubRel pubrel =>
              no_error (ensure_outgoing_tracking_capacity (prel_pkid pubrel + 1));;
              s ← mget;
              bits ← insert_bit (outgoing_rel_replay s) (prel_pkid pubrel);
              mmodify (set_outgoing_rel_replay bits);;
              mmodify (λ s, set_outgoing_rel_replay_order
                              (outgoing_rel_replay_order s ++ [prel_pkid pubrel]) s);;
              mret (prel_pkid pubrel)
          | PR_Subscribe subscribe => mret (psub_pkid subscribe)
          | PR_Unsubscribe unsubscribe => mret (punsub_pkid unsubscribe)
          end);
  s ← mget;
  in_use ← insert_bit (outbound_pkid_in_use s) pkid;
  mmodify (set_outbound_pkid_in_use in_use).

Fixpoint restore_replay (replay : list PersistedRequest) : RT unit :=
  match replay with
  | [] => mret tt
  | request :: replay => restore_request request;; restore_replay replay
  end.

Fixpoint requests_from_persisted (replay : list PersistedRequest)
  : outcome SessionRestoreError (list Request) :=
  match replay with
  | [] => Ok []
  | request :: replay =>
      request ← request_from_persisted_request request;
      requests ← requests_from_persisted replay;
      Ok (request :: requests)
  end.

Definition restore_persisted_session (now : Instant) (options : MqttOptions)
    (session : PersistedSession) : RT (list Request) :=
  lift (validate_persisted_session_signature options session);;
  validate_persisted_session_packet_ids session;;
  no_error (reset_session_state now);;
  restore_incoming (session_incoming_qos2 session);;
  restore_replay (session_replay session);;
  s ← mget;
  in_use ← set_bit (outbound_pkid_in_use s) 0 false;
  mmodify (set_outbound_pkid_in_use in_use);;
  let outbound_pkid_count := blen (ones in_use) in
  if u16_MAX <? outbound_pkid_count
  then mfail (OutgoingPacketIdentifierCountOutOfRange outbound_pkid_count)
  else
    mmodify (set_outbound_pkid_count outbound_pkid_count);;
    lift (requests_from_persisted (session_replay session)).
End Persist.
