(* ===== verification/V4Restore.v ===== *)
(** Checkpoints: what [restore_persisted_session] accepts and the state it builds, and recovery
    of a session from its last checkpoint. *)

From S2P Require Import Prelude.
From S2P Require Import Utf8.
From S2P Require Import Primitives.
From S2P Require Import CodecBase.
From S2P Require Import V4Base.
From S2P Require Import V4Acks.
From S2P Require Import V4Publish.
From S2P Require Import V4Subscribe.
From S2P Require Import V4Connect.
From S2P Require Import V4Packet.
From S2P Require Import FixedBitSet.
From S2P Require Import V4SessionTypes.
From S2P Require Import PacketIds.
From S2P Require Import V4State.
From S2P Require Import V4Clean.
From S2P Require Import V4Invariant.
From S2P Require Import V4Handlers.
From S2P Require Import V4Session.
From S2P Require Import V4CleanProofs.
From S2P Require Import V4Reachable.
From S2P Require Import V4Safety.
From S2P Require Import V4Delivery.
From S2P Require Import V4Reconnect.
From S2P Require Import SessionIO.
From S2P Require Import V4SessionFormat.
From S2P Require Import V4Persist.
#[local] Open Scope Z_scope.

(** ** Valid checkpoints *)

Definition request_pkid (r : PersistedRequest) : Z :=
  match r with
  | PR_Publish p => pp_pkid p
  | PR_PubRel p => prel_pkid p
  | PR_Subscribe u => psub_pkid u
  | PR_Unsubscribe u => punsub_pkid u
  end.

(** The identifiers of each kind of request. *)
Definition publish_pkid (r : PersistedRequest) : option Z :=
  match r with PR_Publish p => Some (pp_pkid p) | _ => None end.
Definition rel_pkid (r : PersistedRequest) : option Z :=
  match r with PR_PubRel p => Some (prel_pkid p) | _ => None end.
Definition control_pkid (r : PersistedRequest) : option Z :=
  match r with
  | PR_Subscribe u => Some (psub_pkid u)
  | PR_Unsubscribe u => Some (punsub_pkid u)
  | _ => None
  end.

Definition in_window (r : PersistedRequest) : bool :=
  match r with PR_Publish _ | PR_PubRel _ => true | _ => false end.
Definition window_count (rs : list PersistedRequest) : Z := blen (filter (λ r, in_window r = true) rs).

Definition replay_request_ok (r : PersistedRequest) : Prop :=
  request_pkid r ≠ 0 ∧
  match r with PR_Publish p => pp_qos p ≠ PQ_AtMostOnce | _ => True end.

(** The session belongs to the client, and its identifiers can be reserved. *)
Definition signature_ok (o : MqttOptions) (p : PersistedSession) : Prop :=
  session_format_version p = 2 ∧ session_client_id p = opt_client_id o ∧
  session_clean_session p = opt_clean_session o ∧ session_max_inflight p = opt_inflight o ∧
  session_ack_mode p = persisted_ack_mode (opt_ack_mode o).
Definition packet_ids_ok (m : Z) (p : PersistedSession) : Prop :=
  Forall (λ i, pi_pkid i ≠ 0) (session_incoming_qos2 p) ∧
  Forall replay_request_ok (session_replay p) ∧
  NoDup (request_pkid <$> session_replay p) ∧ window_count (session_replay p) ≤ m.

(** The fields are of their Rust types. *)
Definition session_u16 (p : PersistedSession) : Prop :=
  Forall (λ i, is_u16 (pi_pkid i)) (session_incoming_qos2 p) ∧
  Forall (λ r, is_u16 (request_pkid r)) (session_replay p).

Lemma validate_signature_spec o p :
  match validate_persisted_session_signature o p with
  | Ok _ => signature_ok o p
  | Err _ => ¬ signature_ok o p
  | Panic => False
  end.
Proof.
  unfold validate_persisted_session_signature, signature_ok.
  destruct (Z.eqb_spec (session_format_version p) 2); cbn [negb]; [|tauto].
  do 2 (case_bool_decide; cbn [negb]; [|tauto]).
  destruct (Z.eqb_spec (session_max_inflight p) (opt_inflight o)); cbn [negb]; [|tauto].
  case_bool_decide; cbn [negb]; tauto.
Qed.

Lemma validate_pkid_spec k :
  match validate_pkid k with Ok _ => k ≠ 0 | Err _ => k = 0 | Panic => False end.
Proof. unfold validate_pkid. by destruct (Z.eqb_spec k 0). Qed.

Lemma validate_incoming_spec l :
  match validate_incoming l with
  | Ok _ => Forall (λ i, pi_pkid i ≠ 0) l
  | Err _ => ¬ Forall (λ i, pi_pkid i ≠ 0) l
  | Panic => False
  end.
Proof.
  induction l as [|i l IH]; [constructor|]. cbn [validate_incoming].
  pose proof (validate_pkid_spec (pi_pkid i)).
  destruct (validate_pkid (pi_pkid i)); cbn; [|rewrite Forall_cons; naive_solver|done].
  destruct (validate_incoming l); try rewrite Forall_cons; naive_solver.
Qed.

Lemma validate_request_spec r :
  match validate_persisted_replay_request r with
  | Ok k => k = request_pkid r ∧ replay_request_ok r
  | Err _ => ¬ replay_request_ok r
  | Panic => False
  end.
Proof.
  unfold replay_request_ok. destruct r as [p|p|u|u]; cbn [validate_persisted_replay_request request_pkid];
    match goal with |- context [validate_pkid ?k] => pose proof (validate_pkid_spec k);
      destruct (validate_pkid k) end; cbn; try tauto.
  case_bool_decide; tauto.
Qed.

Lemma window_count_cons r rs : window_count (r :: rs) = (if in_window r then 1 else 0) + window_count rs.
Proof.
  unfold window_count. rewrite filter_cons. destruct (in_window r); cbn [decide]; [|done].
  by rewrite decide_True, blen_cons by done.
Qed.

Section Restore.
  Context {B : Type} `{FixedBitSetLaws B}.

Abbreviation RT := (M (MqttState B) SessionRestoreError).
Implicit Types (s : MqttState B) (Rp Rc : gset Z).

Lemma wp_bit {A} (b : B) i v (k : B → RT A) Q X s :
  0 ≤ i < bits_len b → wp (k (put_bit b i v)) Q X s → wp (set_bit b i v ≫= k) Q X s.
Proof. intros Hi Hk. apply wp_bind. unfold wp at 1. by rewrite set_bit_ok. Qed.

(** The loop accepts exactly the valid requests with distinct identifiers. *)
Lemma wp_validate_replay rs (ids : B) n s :
  bits_len ids = full_packet_identifier_len → Forall (λ r, is_u16 (request_pkid r)) rs →
  wp (validate_replay rs ids n)
    (λ c s', s' = s ∧ c = n + window_count rs ∧ Forall replay_request_ok rs ∧
       NoDup (request_pkid <$> rs) ∧ ∀ r, r ∈ rs → contains ids (request_pkid r) = false)
    (λ _ s', s' = s ∧ ¬ (Forall replay_request_ok rs ∧ NoDup (request_pkid <$> rs) ∧
       ∀ r, r ∈ rs → contains ids (request_pkid r) = false)) s.
Proof.
  revert ids n. induction rs as [|r rs IH]; intros ids n Hl Hu; cbn [validate_replay].
  { apply wp_ret. split_and!; [done|unfold window_count, blen; cbn; lia|constructor..|set_solver]. }
  apply Forall_cons in Hu as [Hur Hu]. apply wp_bind, wp_lift. pose proof (validate_request_spec r) as Hv.
  destruct (validate_persisted_replay_request r) as [k|e|]; [|split; [done|]|done].
  2: { rewrite Forall_cons. tauto. }
  destruct Hv as [-> Hok]. destruct (contains ids (request_pkid r)) eqn:Hc.
  { apply wp_fail. split; [done|]. intros (_ & _ & Hf). rewrite Hf in Hc by (by left). done. }
  assert (Hk : 0 ≤ request_pkid r < bits_len ids)
    by (rewrite Hl; unfold full_packet_identifier_len, is_u16, u16_MAX in *; lia).
  unfold insert_bit. apply wp_bit; [done|].
  eapply wp_mono; [apply IH; [by rewrite len_put_bit|done]|..].
  - intros c s' (-> & -> & Hall & Hnd & Hfree). rewrite window_count_cons, Forall_cons.
    split_and!; [done|destruct r; cbn [in_window]; lia|done..| |].
    + cbn [fmap list_fmap]. apply NoDup_cons. split; [|done]. intros (r' & Hr' & Hin)%list_elem_of_fmap.
      apply Hfree in Hin. rewrite contains_put_bit in Hin by done. by rewrite <- Hr', Z.eqb_refl in Hin.
    + intros r' [->|Hin]%elem_of_cons; [done|]. apply Hfree in Hin.
      rewrite contains_put_bit in Hin by done. by destruct (_ =? _).
  - intros e s' [-> Hn]. split; [done|]. intros (Hall & Hnd & Hfree). apply Hn.
    apply Forall_cons in Hall as [_ Hall]. cbn [fmap list_fmap] in Hnd. apply NoDup_cons in Hnd as [Hnew Hnd].
    split_and!; [done..|]. intros r' Hin. rewrite contains_put_bit by done.
    destruct (Z.eqb_spec (request_pkid r) (request_pkid r')) as [He|]; [|apply Hfree; by right].
    destruct Hnew. rewrite He. by apply list_elem_of_fmap_2.
Qed.

Lemma wp_validate_packet_ids p s :
  session_u16 p →
  wp (validate_persisted_session_packet_ids p)
    (λ _ s', s' = s ∧ packet_ids_ok (max_inflight s) p)
    (λ _ s', s' = s ∧ ¬ packet_ids_ok (max_inflight s) p) s.
Proof.
  intros [_ Hu]. unfold validate_persisted_session_packet_ids, packet_ids_ok. apply wp_bind, wp_lift.
  pose proof (validate_incoming_spec (session_incoming_qos2 p)).
  destruct (validate_incoming _); [|split; [done|tauto]|done].
  apply wp_bind. eapply wp_mono; [by apply wp_validate_replay; [apply len_with_capacity|]|..].
  - intros c s' (-> & -> & Hall & Hnd & _). apply wp_bind, wp_get.
    destruct (Z.ltb_spec (max_inflight s) (0 + window_count (session_replay p))).
    + apply wp_fail. split; [done|]. intros (_ & _ & _ & ?). lia.
    + apply wp_ret. by split_and!.
  - intros e s' [-> Hn]. split; [done|]. intros (_ & Hall & Hnd & _). apply Hn.
    split_and!; [done..|]. intros r _. apply contains_with_capacity.
Qed.

(** ** The loops of the restoration

    The number of identifiers in use is counted at the end, so the invariant of the loop is the
    invariant of the state with the right count. *)

Definition recounted Rp Rc s : MqttState B := set_outbound_pkid_count (blen (live_ids Rp Rc s)) s.
Definition inv_but_count Rp Rc s : Prop := inv Rp Rc (recounted Rp Rc s).

Lemma wp_no_error {A} (m : M (MqttState B) StateError A) (Q : A → MqttState B → Prop) X s :
  wp m Q (λ _ _, False) s → wp (no_error m) Q X s.
Proof. unfold wp, no_error. by destruct (m s) as [[]]. Qed.

Lemma ensure_count n c s :
  (ensure_outgoing_tracking_capacity n (set_outbound_pkid_count c s)).2 =
  set_outbound_pkid_count c (ensure_outgoing_tracking_capacity n s).2.
Proof.
  cbn [ensure_outgoing_tracking_capacity mmodify snd]. fields.
  destruct (blen (outgoing_pub s) <? n); fields;
  destruct (blen (outgoing_pub_notice s) <? n); fields;
  destruct (blen (outgoing_rel_notice s) <? n); fields;
  destruct (bits_len (outgoing_rel s) <? n); fields;
  destruct (bits_len (outgoing_rel_replay s) <? n); reflexivity.
Qed.

Lemma wp_ensure_but Rp Rc n (Q : unit → MqttState B → Prop) X s :
  inv_but_count Rp Rc s → n ≤ full_packet_identifier_len →
  (∀ s', inv_but_count Rp Rc s' → flows_of s' = flows_of s → n ≤ blen (outgoing_pub s') → Q tt s') →
  wp (no_error (ensure_outgoing_tracking_capacity n)) Q X s.
Proof.
  intros I Hn HQ. pose proof (ensure_count n (blen (live_ids Rp Rc s)) s) as He.
  assert (Hw : wp (ensure_outgoing_tracking_capacity n) (λ _ t, inv Rp Rc t ∧ flows_of t = flows_of s ∧
    n ≤ blen (outgoing_pub t)) (λ _ _, False) (recounted Rp Rc s)).
  { apply (wp_ensure Rp Rc); [exact I|done|]. intros t It Ht Hl _ _ _. split_and!; [done| |done].
    by destruct (retracked_flows _ _ Ht) as [-> _]. }
  assert (Hrun : ∀ t, ensure_outgoing_tracking_capacity n t =
    (Ok tt, (ensure_outgoing_tracking_capacity n t).2)) by reflexivity.
  unfold wp in Hw. rewrite Hrun in Hw. unfold recounted in Hw. rewrite He in Hw.
  apply wp_no_error. unfold wp. rewrite Hrun. generalize dependent (ensure_outgoing_tracking_capacity n s).2.
  intros t _ (It & Hf & Hl). apply HQ; [|exact Hf|exact Hl].
  assert (Hf' : flows_of t = flows_of s) by exact Hf.
  unfold inv_but_count, recounted. by rewrite (live_ids_flows Rp Rc s t Hf').
Qed.

Abbreviation in_use_with s k :=
  (set_outbound_pkid_in_use (put_bit (outbound_pkid_in_use s) k true) s).

Lemma live_ids_reserve Rp Rc s k : k ∉ Rp → live_ids (Rp ∪ {[k]}) Rc s ≡ₚ k :: live_ids Rp Rc s.
Proof.
  intros Hk. rewrite (live_ids_reserved_remove _ _ _ k) by set_solver.
  by replace ((Rp ∪ {[k]}) ∖ {[k]}) with Rp by set_solver.
Qed.
Lemma live_ids_reserve_control Rp Rc s k : k ∉ Rc → live_ids Rp (Rc ∪ {[k]}) s ≡ₚ k :: live_ids Rp Rc s.
Proof.
  intros Hk. rewrite (live_ids_control_remove _ _ _ k) by set_solver.
  by replace ((Rc ∪ {[k]}) ∖ {[k]}) with Rc by set_solver.
Qed.

Lemma ids_ok_reserve Rp Rc s k ids :
  inv_but_count Rp Rc s → 1 ≤ k ≤ u16_MAX → k ∉ live_ids Rp Rc s → ids ≡ₚ k :: live_ids Rp Rc s →
  ids_ok ids (put_bit (outbound_pkid_in_use s) k true) (blen ids).
Proof.
  intros I Hk Hnew Hp. rewrite (blen_perm _ _ Hp), blen_cons, Z.add_comm, Hp.
  apply ids_ok_insert; [exact (inv_ids _ _ _ I)|done..].
Qed.

Lemma inv_reserve_publish Rp Rc s k :
  inv_but_count Rp Rc s → 1 ≤ k ≤ u16_MAX → k ∉ live_ids Rp Rc s → k < blen (outgoing_pub s) →
  inv_but_count (Rp ∪ {[k]}) Rc (in_use_with s k).
Proof.
  intros I Hk Hnew Hl. assert (k ∉ Rp) by (rewrite elem_live_ids in Hnew; tauto).
  pose proof (ids_ok_reserve Rp Rc s k _ I Hk Hnew (live_ids_reserve Rp Rc s k ltac:(done))) as Hids.
  unfold inv_but_count, recounted in *. inv_frame I; [exact Hids|].
  intros j [Hj|Hj]%elem_of_union; [exact (inv_reserved _ _ _ I j Hj)|]. apply elem_of_singleton in Hj. by subst.
Qed.

Lemma inv_reserve_control Rp Rc s k :
  inv_but_count Rp Rc s → 1 ≤ k ≤ u16_MAX → k ∉ live_ids Rp Rc s →
  inv_but_count Rp (Rc ∪ {[k]}) (in_use_with s k).
Proof.
  intros I Hk Hnew. assert (k ∉ Rc) by (rewrite elem_live_ids in Hnew; tauto).
  pose proof (ids_ok_reserve Rp Rc s k _ I Hk Hnew (live_ids_reserve_control Rp Rc s k ltac:(done))) as Hids.
  unfold inv_but_count, recounted in *. inv_frame I. exact Hids.
Qed.

(** A PUBREL to replay. *)
Abbreviation rel_replayed s k :=
  (set_outgoing_rel_replay_order (outgoing_rel_replay_order s ++ [k])
    (set_outgoing_rel_replay (put_bit (outgoing_rel_replay s) k true) s)).

Lemma inv_reserve_rel Rp Rc s k :
  inv_but_count Rp Rc s → 1 ≤ k ≤ u16_MAX → k ∉ live_ids Rp Rc s → k < blen (outgoing_pub s) →
  inv_but_count Rp Rc (in_use_with (rel_replayed s k) k).
Proof.
  intros I Hk Hnew Hl.
  assert (Hp : live_ids Rp Rc (rel_replayed s k) ≡ₚ k :: live_ids Rp Rc s)
    by (unfold live_ids; fields; solve_Permutation).
  pose proof (ids_ok_reserve Rp Rc s k _ I Hk Hnew Hp) as Hids.
  pose proof (inv_lens _ _ _ I) as Hlens. destruct Hlens as [Hl1 Hl2 Hl3 Hl4 Hl5]. unfold recounted in *. fields.
  unfold inv_but_count, recounted in *. inv_frame I; [|..].
  - split; rewrite ?len_put_bit; done.
  - apply bits_ok_insert; [exact (inv_replay _ _ _ I)|lia].
  - exact Hids.
Qed.

Abbreviation pub_set rs := (list_to_set (omap publish_pkid rs) : gset Z).
Abbreviation control_set rs := (list_to_set (omap control_pkid rs) : gset Z).

Lemma wp_in_use_with k (Q : unit → MqttState B → Prop) X s :
  bits_len (outbound_pkid_in_use s) = full_packet_identifier_len → 1 ≤ k ≤ u16_MAX →
  Q tt (in_use_with s k) →
  wp (s ← mget; in_use ← insert_bit (outbound_pkid_in_use s) k; mmodify (set_outbound_pkid_in_use in_use) : RT unit) Q X s.
Proof.
  intros Hl Hk HQ. apply wp_bind, wp_get. unfold insert_bit.
  apply wp_bit; [rewrite Hl; unfold full_packet_identifier_len; lia|]. by apply wp_modify.
Qed.

Lemma inv_in_use_len Rp Rc s :
  inv_but_count Rp Rc s → bits_len (outbound_pkid_in_use s) = full_packet_identifier_len.
Proof. intros I. exact (ids_len _ _ _ (inv_ids _ _ _ I)). Qed.

Lemma wp_restore_request Rp Rc r s (Q : unit → MqttState B → Prop) X :
  inv_but_count Rp Rc s → 1 ≤ request_pkid r ≤ u16_MAX → request_pkid r ∉ live_ids Rp Rc s →
  (∀ s', inv_but_count (Rp ∪ pub_set [r]) (Rc ∪ control_set [r]) s' →
     flows_of s' = flows_of (set_outgoing_rel_replay_order
       (outgoing_rel_replay_order s ++ omap rel_pkid [r]) s) → Q tt s') →
  wp (restore_request r) Q X s.
Proof.
  intros I Hk Hnew HQ. unfold restore_request.
  assert (Hfull : request_pkid r + 1 ≤ full_packet_identifier_len) by (unfold full_packet_identifier_len; lia).
  destruct r as [[d q rt t k pl]|[k]|[k fs]|[k ts]]; cbn [request_pkid omap list_omap publish_pkid control_pkid
    rel_pkid pp_pkid prel_pkid psub_pkid punsub_pkid] in *; rewrite ?list_to_set_singleton_L, ?list_to_set_nil, ?(right_id_L ∅ (∪)) in HQ.
  - apply wp_bind, wp_bind, (wp_ensure_but Rp Rc); [done..|]. intros s1 I1 Hf1 Hl1. apply wp_ret.
    rewrite <- (live_ids_flows Rp Rc _ _ Hf1) in Hnew.
    apply wp_in_use_with; [by eapply inv_in_use_len|done|]. apply HQ; [apply inv_reserve_publish; try done; lia|].
    unfold flows_of in *. fields. by rewrite app_nil_r.
  - apply wp_bind, wp_bind, (wp_ensure_but Rp Rc); [done..|]. intros s1 I1 Hf1 Hl1.
    rewrite <- (live_ids_flows Rp Rc _ _ Hf1) in Hnew. apply wp_bind, wp_get. unfold insert_bit at 1.
    pose proof (inv_lens _ _ _ I1) as [_ _ _ _ Hl5]. unfold recounted in Hl5. fields.
    apply wp_bit; [lia|]. apply wp_bind, wp_modify, wp_bind, wp_modify, wp_ret. fields.
    apply wp_in_use_with; fields; [by apply (inv_in_use_len Rp Rc)|done|].
    apply HQ; [apply (inv_reserve_rel Rp Rc s1); try done; lia|].
    unfold flows_of in *. fields. by injection Hf1 as -> -> -> -> -> -> -> -> -> -> -> -> ->.
  - apply wp_bind, wp_ret. apply wp_in_use_with; [by apply (inv_in_use_len Rp Rc)|done|].
    apply HQ; [by apply inv_reserve_control|]. unfold flows_of. fields. by rewrite app_nil_r.
  - apply wp_bind, wp_ret. apply wp_in_use_with; [by apply (inv_in_use_len Rp Rc)|done|].
    apply HQ; [by apply inv_reserve_control|]. unfold flows_of. fields. by rewrite app_nil_r.
Qed.

(** The identifiers in use after one request. *)
Lemma live_ids_restored Rp Rc r s s' j :
  flows_of s' = flows_of (set_outgoing_rel_replay_order (outgoing_rel_replay_order s ++ omap rel_pkid [r]) s) →
  j ∈ live_ids (Rp ∪ pub_set [r]) (Rc ∪ control_set [r]) s' → j ∈ live_ids Rp Rc s ∨ j = request_pkid r.
Proof.
  intros Hf. unfold flows_of in Hf. fields. injection Hf as Hpo Hro Hrro _ _ _ Hs Hu _ _ _ _ _.
  rewrite !elem_live_ids, Hpo, Hro, Hrro, Hs, Hu, elem_of_app, !elem_of_union, !elem_of_list_to_set.
  destruct r; cbn [omap list_omap publish_pkid control_pkid rel_pkid request_pkid];
    rewrite ?list_elem_of_singleton, ?elem_of_nil; tauto.
Qed.

Lemma omap_cons_app {A C} (f : A → option C) x l : omap f (x :: l) = omap f [x] ++ omap f l.
Proof. cbn. by destruct (f x). Qed.

Lemma wp_restore_replay rs Rp Rc s (Q : unit → MqttState B → Prop) X :
  inv_but_count Rp Rc s → NoDup (request_pkid <$> rs) →
  (∀ r, r ∈ rs → 1 ≤ request_pkid r ≤ u16_MAX ∧ request_pkid r ∉ live_ids Rp Rc s) →
  (∀ s', inv_but_count (Rp ∪ pub_set rs) (Rc ∪ control_set rs) s' →
     flows_of s' = flows_of (set_outgoing_rel_replay_order
       (outgoing_rel_replay_order s ++ omap rel_pkid rs) s) → Q tt s') →
  wp (restore_replay rs) Q X s.
Proof.
  revert Rp Rc s. induction rs as [|r rs IH]; intros Rp Rc s I Hnd Hall HQ; cbn [restore_replay].
  { apply wp_ret, HQ; cbn [omap list_omap]; [by rewrite list_to_set_nil, !(right_id_L ∅ (∪))|].
    rewrite app_nil_r. unfold flows_of. by fields. }
  cbn [fmap list_fmap] in Hnd. apply NoDup_cons in Hnd as [Hnew Hnd].
  destruct (Hall r) as [Hk Hfree]; [by left|].
  apply wp_bind, (wp_restore_request Rp Rc); [done..|]. intros s1 I1 Hf1.
  eapply IH; [exact I1|done|..].
  - intros r' Hin. destruct (Hall r') as [Hk' Hfree']; [by right|]. split; [done|].
    intros [Hx|Hx]%(live_ids_restored Rp Rc r s); [done| |done]. apply Hnew. rewrite <- Hx.
    by apply list_elem_of_fmap_2.
  - intros s2 I2 Hf2. apply HQ.
    + rewrite (omap_cons_app publish_pkid), (omap_cons_app control_pkid).
      by rewrite !list_to_set_app_L, !(assoc_L (∪)).
    + rewrite (omap_cons_app rel_pkid), (assoc_L (++)). unfold flows_of in *. fields.
      injection Hf1 as Hpo Hro Hrro ? ? ? ? ? ? ? ? ? ?. rewrite Hf2, Hrro.
      cbn [omap list_omap]. congruence.
Qed.

Lemma wp_restore_incoming l s (Q : unit → MqttState B → Prop) X :
  incoming_ok (incoming_puback s) (incoming_pub s) (incoming_pubrec s) →
  (∀ i, i ∈ l → is_u16 (pi_pkid i)) →
  (∀ b1 b2, incoming_ok (incoming_puback s) b1 b2 →
     (∀ k, contains b1 k = contains (incoming_pub s) k || bool_decide (k ∈ pi_pkid <$> l)) →
     (∀ k, contains b2 k = contains (incoming_pubrec s) k || bool_decide (k ∈ pi_pkid <$> l)) →
     Q tt (set_incoming_pubrec b2 (set_incoming_pub b1 s))) →
  wp (restore_incoming l) Q X s.
Proof.
  revert s. induction l as [|i l IH]; intros s Hin Hu HQ; cbn [restore_incoming].
  { apply wp_ret. specialize (HQ (incoming_pub s) (incoming_pubrec s) Hin).
    replace (set_incoming_pubrec (incoming_pubrec s) (set_incoming_pub (incoming_pub s) s)) with s in HQ
      by (by destruct s). apply HQ; intros k; by rewrite orb_false_r. }
  destruct Hin as [H1 H2 H3 H4]. pose proof (Hu i ltac:(by left)) as Hi.
  assert (Hr : 0 ≤ pi_pkid i < full_packet_identifier_len)
    by (unfold is_u16, full_packet_identifier_len, u16_MAX in *; lia).
  unfold insert_bit. apply wp_bind, wp_get, wp_bit; [by rewrite H2|].
  apply wp_bind, wp_modify, wp_bind, wp_get. fields. apply wp_bit; [by rewrite H3|].
  apply wp_bind, wp_modify. apply IH; fields.
  - split; rewrite ?len_put_bit; try done. intros k. rewrite !contains_put_bit by (rewrite ?H2, ?H3; done).
    destruct (_ =? k); [done|]. apply H4.
  - intros j Hj. apply Hu. by right.
  - intros b1 b2 Hok Hb1 Hb2.
    assert (Hor : ∀ (x : bool) k, (if pi_pkid i =? k then true else x) || bool_decide (k ∈ pi_pkid <$> l) =
      x || bool_decide (k ∈ pi_pkid <$> i :: l)).
    { intros x k. cbn [fmap list_fmap]. rewrite (bool_decide_ext (k ∈ pi_pkid i :: _) (k = pi_pkid i ∨ k ∈ pi_pkid <$> l))
        by apply elem_of_cons. rewrite bool_decide_or. destruct (Z.eqb_spec (pi_pkid i) k) as [<-|Hne].
      - rewrite (bool_decide_eq_true_2 (_ = _)) by done. by destruct x.
      - rewrite (bool_decide_eq_false_2 (k = _)) by done. done. }
    change (Q tt (set_incoming_pubrec b2 (set_incoming_pub b1 s))). apply HQ; [done|..]; intros k.
    + by rewrite Hb1, contains_put_bit, Hor by (by rewrite H2).
    + by rewrite Hb2, contains_put_bit, Hor by (by rewrite H3).
Qed.

Lemma blen_ones ids (b : B) : bits_ok ids b → NoDup ids → blen (ones b) = blen ids.
Proof.
  intros Hb Hnd. apply blen_perm, NoDup_Permutation; [|done|].
  - rewrite ones_spec. apply NoDup_filter, NoDup_seqZ.
  - intros k. rewrite elem_of_ones. apply Hb.
Qed.

(** ** The restored session *)

(** The request sent again for a persisted one. *)
Definition restored_request (r : PersistedRequest) : Request :=
  match r with
  | PR_Publish p =>
      R_Publish {| dup := true; retain := pp_retain p; pub_qos := qos_from_persisted (pp_qos p);
                   topic := pp_topic p; pub_pkid := pp_pkid p; payload := pp_payload p |}
  | PR_PubRel p => R_PubRel {| pubrel_pkid := prel_pkid p |}
  | PR_Subscribe u =>
      R_Subscribe {| subscribe_pkid := psub_pkid u;
                     filters := map filter_from_persisted (psub_filters u) |}
  | PR_Unsubscribe u =>
      R_Unsubscribe {| unsubscribe_pkid := punsub_pkid u; topics := punsub_topics u |}
  end.

Lemma requests_from_persisted_ok rs :
  Forall replay_request_ok rs → requests_from_persisted rs = Ok (restored_request <$> rs).
Proof.
  induction 1 as [|r rs [Hk _] _ IH]; [done|]. cbn [requests_from_persisted].
  assert (Hr : request_from_persisted_request r = Ok (restored_request r)).
  { destruct r; cbn [request_pkid request_from_persisted_request restored_request] in *;
      unfold validate_pkid; by rewrite (proj2 (Z.eqb_neq _ _) Hk). }
  rewrite Hr. cbn. by rewrite IH.
Qed.

(** Nothing in progress; the identifiers of the requests are reserved, the PUBRELs are queued, and
    exactly the recorded QoS 2 publishes count as received. *)
Record restored (m : u16) (am : AckMode) (p : PersistedSession) s : Prop := {
  restored_inv : inv (pub_set (session_replay p)) (control_set (session_replay p)) s;
  restored_pub : outgoing_pub_order s = [];
  restored_rel : outgoing_rel_order s = [];
  restored_replay : outgoing_rel_replay_order s = omap rel_pkid (session_replay p);
  restored_control : pending_subscribe s = ∅ ∧ pending_unsubscribe s = ∅;
  restored_collision : collision s = None ∧ collision_notice s = None;
  restored_inflight : inflight s = 0;
  restored_config : max_inflight s = m ∧ ack_mode s = am;
  restored_incoming k :
    contains (incoming_pub s) k = bool_decide (k ∈ pi_pkid <$> session_incoming_qos2 p) ∧
    contains (incoming_pubrec s) k = bool_decide (k ∈ pi_pkid <$> session_incoming_qos2 p);
}.

Lemma inv_restore_incoming Rp Rc s b1 b2 :
  inv Rp Rc s → incoming_ok (incoming_puback s) b1 b2 →
  inv Rp Rc (set_incoming_pubrec b2 (set_incoming_pub b1 s)).
Proof. intros I Hin. inv_frame I. done. Qed.

(** The identifier 0 is cleared, and the identifiers counted. *)
Lemma restored_count Rp Rc s :
  inv_but_count Rp Rc s →
  let in_use := put_bit (outbound_pkid_in_use s) 0 false in
  blen (ones in_use) ≤ u16_MAX ∧
  inv Rp Rc (set_outbound_pkid_count (blen (ones in_use)) (set_outbound_pkid_in_use in_use s)).
Proof.
  intros I. pose proof (inv_ids _ _ _ I) as Hids. destruct Hids as [Hl Hnd Hr Hu Hc].
  cbn zeta. unfold recounted in *. fields.
  assert (Hb : bits_ok (live_ids Rp Rc s) (put_bit (outbound_pkid_in_use s) 0 false)).
  { intros k. rewrite contains_put_bit by (rewrite Hl; done). rewrite <- (Hu k).
    destruct (Z.eqb_spec 0 k) as [<-|]; [|done]. split; [done|]. intros H0'%Hu%Hr. lia. }
  pose proof (blen_ones _ _ Hb Hnd) as Hones. rewrite Hones.
  split; [by apply NoDup_range_blen|].
  unfold inv_but_count, recounted in I. inv_frame I.
  split; [by rewrite len_put_bit|exact Hnd|exact Hr|exact Hb|done].
Qed.

Lemma wp_restore_persisted Rp Rc now o p s :
  inv Rp Rc s → session_u16 p →
  wp (restore_persisted_session now o p)
    (λ reqs s', signature_ok o p ∧ packet_ids_ok (max_inflight s) p ∧
       reqs = restored_request <$> session_replay p ∧ restored (max_inflight s) (ack_mode s) p s')
    (λ _ s', s' = s ∧ ¬ (signature_ok o p ∧ packet_ids_ok (max_inflight s) p)) s.
Proof.
  intros I Hu. unfold restore_persisted_session. apply wp_bind, wp_lift.
  pose proof (validate_signature_spec o p) as Hsig.
  destruct (validate_persisted_session_signature o p); [|split; [done|tauto]|done].
  apply wp_bind. eapply wp_mono; [by apply wp_validate_packet_ids| |by intros e s' [-> ?]; split; [done|tauto]].
  intros _ s' [-> Hids]. apply wp_bind, wp_no_error, (wp_reset_session_state Rp Rc); [done|].
  pose proof (inv_new now _ (ack_mode s) (inv_max _ _ _ I)) as I0.
  set (s0 := new_internal now (max_inflight s) (ack_mode s)) in *.
  destruct Hu as [Hui Hur]. destruct (Hids) as (Hi0 & Hok & Hnd & _).
  apply wp_bind, wp_restore_incoming; [apply I0|by apply Forall_forall|]. intros b1 b2 Hin Hb1 Hb2.
  pose proof (inv_restore_incoming _ _ _ _ _ I0 Hin) as I1. set (s1 := set_incoming_pubrec _ _) in *.
  apply wp_bind, (wp_restore_replay _ ∅ ∅); [exact I1|done|..].
  { intros r Hr. rewrite Forall_forall in Hur, Hok. specialize (Hur r Hr). destruct (Hok r Hr) as [? _].
    split; [unfold is_u16, u16_MAX in *; lia|]. unfold live_ids. cbn. by apply not_elem_of_nil. }
  intros s2 I2 Hf. rewrite !(left_id_L ∅ (∪)) in I2. apply wp_bind, wp_get.
  destruct (restored_count _ _ _ I2) as [Hc I3]. cbn zeta in *.
  apply wp_bit; [by rewrite (inv_in_use_len _ _ _ I2)|]. apply wp_bind, wp_modify.
  rewrite (proj2 (Z.ltb_ge _ _)) by lia. apply wp_bind, wp_modify, wp_lift.
  rewrite requests_from_persisted_ok by done. split_and!; try done.
  unfold flows_of in Hf. fields. injection Hf as Hpo Hro Hrro Hpa Hip Hir Hsub Hunsub Hcol Hcn Hif Hm Ham.
  split; fields; try done.
  intros k. rewrite Hip, Hir, Hb1, Hb2. cbn. by rewrite contains_with_capacity.
Qed.

(** ** The checkpoint of a state *)

Definition checkpoint_publish s (k : Z) : option PersistedRequest :=
  match vget (outgoing_pub s) k with Some (Some p) => PR_Publish <$> persisted_publish p | _ => None end.
Definition checkpoint_subscribe (e : Z * PendingSubscribe) : PersistedRequest :=
  PR_Subscribe (persisted_subscribe (ps_subscribe e.2)).
Definition checkpoint_unsubscribe (e : Z * PendingUnsubscribe) : PersistedRequest :=
  PR_Unsubscribe (persisted_unsubscribe (pu_unsubscribe e.2)).
Definition checkpoint_requests s : list PersistedRequest :=
  omap (checkpoint_publish s) (outgoing_pub_order s) ++
  map (λ k, PR_PubRel {| prel_pkid := k |}) (outgoing_rel_order s) ++
  map checkpoint_subscribe (btree_entries (pending_subscribe s)) ++
  map checkpoint_unsubscribe (btree_entries (pending_unsubscribe s)).

Lemma persisted_publishes_ok s l :
  (∀ k, k ∈ l → is_Some (vget (outgoing_pub s) k)) →
  persisted_publishes s l = Ok (omap (checkpoint_publish s) l).
Proof.
  induction l as [|k l IH]; intros Hl; [done|]. cbn [persisted_publishes omap list_omap].
  destruct (Hl k) as [slot Hs]; [by left|]. unfold checkpoint_publish at 1. rewrite Hs.
  rewrite IH by (intros j Hj; apply Hl; by right). cbn. destruct slot as [p|]; cbn; [|done].
  by destruct (persisted_publish p).
Qed.

Lemma persisted_session_ok Rp Rc s o pending :
  inv Rp Rc s → ∃ p, persisted_session s o pending = Ok p ∧ signature_ok o p ∧
    session_replay p = checkpoint_requests s ++ omap persisted_request_from_request pending ∧
    session_incoming_qos2 p = mkPersistedIncomingQos2 <$> ones (incoming_pubrec s).
Proof.
  intros I. unfold persisted_session, persisted_replay_requests. rewrite persisted_publishes_ok.
  2: { intros k Hk%(inv_pub_range _ _ _ I). destruct (vget_some (outgoing_pub s) k) as [x ->]; [lia|eauto]. }
  cbn. eexists. split; [done|]. split_and!; [by split_and!|done|]. cbn.
  assert (Hall : ∀ k, k ∈ ones (incoming_pubrec s) → 0 ≤ k ≤ u16_MAX).
  { intros k Hk%elem_of_ones%contains_range. rewrite (len_irec _ _ _ (inv_incoming _ _ _ I)) in Hk.
    unfold full_packet_identifier_len in Hk. lia. }
  induction (ones (incoming_pubrec s)) as [|k l IH]; [done|]. cbn [omap list_omap fmap list_fmap].
  pose proof (Hall k ltac:(by left)). rewrite (proj2 (Z.leb_le _ _)), (proj2 (Z.leb_le _ _)) by lia. cbn [andb].
  f_equal. apply IH. intros j Hj. apply Hall. by right.
Qed.

Lemma persisted_publish_dup p : persisted_publish (mark_dup p) = persisted_publish p.
Proof. unfold mark_dup. by case_decide. Qed.

Lemma checkpoint_of_unfinished Rp Rc s :
  inv Rp Rc s →
  omap persisted_request_from_request (cr_request <$> filter (λ c, cr_replay c = true) (unfinished s)) =
  checkpoint_requests s.
Proof.
  intros I. unfold unfinished, checkpoint_requests. rewrite !filter_app, !fmap_app, !omap_app.
  assert (Hheld : filter (λ c, cr_replay c = true) (clean_held s) = [])
    by (unfold clean_held; by destruct (collision s)).
  rewrite Hheld. cbn [fmap list_fmap omap list_omap app]. f_equal; [|f_equal; [|f_equal]].
  - induction (outgoing_pub_order s) as [|k l IH]; [done|]. cbn [omap list_omap].
    unfold clean_publish at 1, checkpoint_publish at 1. destruct (vget (outgoing_pub s) k) as [[q|]|]; [|exact IH..].
    rewrite filter_cons_True by done. cbn [fmap list_fmap cr_request omap list_omap persisted_request_from_request].
    rewrite persisted_publish_dup. cbn. destruct (persisted_publish q); cbn; [f_equal|]; exact IH.
  - induction (outgoing_rel_order s) as [|k l IH]; [done|]. cbn [map]. rewrite filter_cons_True by done.
    cbn [fmap list_fmap cr_request clean_pubrel omap list_omap persisted_request_from_request]. by rewrite IH.
  - assert (Hall : ∀ e, e ∈ btree_entries (pending_subscribe s) → e.1 ≠ 0 ∧ subscribe_pkid (ps_subscribe e.2) = e.1).
    { intros e He%btree_elem. split; [|by apply (inv_sub _ _ _ I)].
      assert (Hin : e.1 ∈ live_ids Rp Rc s) by (rewrite elem_live_ids; naive_solver).
      apply (ids_range _ _ _ (inv_ids _ _ _ I)) in Hin. lia. }
    induction (btree_entries (pending_subscribe s)) as [|e l IH]; [done|]. cbn [map].
    rewrite filter_cons_True by done. destruct (Hall e ltac:(by left)) as [Hne Hk].
    cbn [fmap list_fmap cr_request clean_subscribe omap list_omap persisted_request_from_request subscribe_pkid].
    rewrite (proj2 (Z.eqb_neq _ _) Hne). f_equal; [|apply IH; intros; apply Hall; by right].
    unfold checkpoint_subscribe, persisted_subscribe. cbn. by rewrite Hk.
  - assert (Hall : ∀ e, e ∈ btree_entries (pending_unsubscribe s) → e.1 ≠ 0 ∧ unsubscribe_pkid (pu_unsubscribe e.2) = e.1).
    { intros e He%btree_elem. split; [|by apply (inv_unsub _ _ _ I)].
      assert (Hin : e.1 ∈ live_ids Rp Rc s) by (rewrite elem_live_ids; naive_solver).
      apply (ids_range _ _ _ (inv_ids _ _ _ I)) in Hin. lia. }
    induction (btree_entries (pending_unsubscribe s)) as [|e l IH]; [done|]. cbn [map].
    rewrite filter_cons_True by done. destruct (Hall e ltac:(by left)) as [Hne Hk].
    cbn [fmap list_fmap cr_request clean_unsubscribe omap list_omap persisted_request_from_request unsubscribe_pkid].
    rewrite (proj2 (Z.eqb_neq _ _) Hne). f_equal; [|apply IH; intros; apply Hall; by right].
    unfold checkpoint_unsubscribe, persisted_unsubscribe. cbn. by rewrite Hk.
Qed.
End Restore.
