(* ===== verification/V4Recovery.v ===== *)
(** Checkpoints of a running session: they do not depend on the connection, restoring refuses
    everything that is not a checkpoint of this client, and a session continues from its
    checkpoint after a restart. *)

From stdpp Require Import sorting.
From S2P Require Import Prelude.
From S2P Require Import Utf8.
From S2P Require Import Primitives.
From S2P Require Import CodecBase.
From S2P Require Import V4Base.
From S2P Require Import V4Acks.
From S2P Require Import V4Publish.
From S2P Require Import V4Subscribe.
From S2P Require Import V4Connect.
From S2P Require Import V4Packet.
From S2P Require Import FixedBitSet.
From S2P Require Import V4SessionTypes.
From S2P Require Import PacketIds.
From S2P Require Import V4State.
From S2P Require Import V4Clean.
From S2P Require Import V4Invariant.
From S2P Require Import V4Handlers.
From S2P Require Import V4Session.
From S2P Require Import V4CleanProofs.
From S2P Require Import V4Reachable.
From S2P Require Import V4Safety.
From S2P Require Import V4Delivery.
From S2P Require Import V4Reconnect.
From S2P Require Import SessionIO.
From S2P Require Import V4SessionFormat.
From S2P Require Import V4Persist.
From S2P Require Import V4Restore.
#[local] Open Scope Z_scope.

Section Recovery.
  Context {B : Type} `{FixedBitSetLaws B}.

Implicit Types (s : MqttState B) (Rp Rc : gset Z).
Abbreviation pkids ps := ((λ p : Publish * option nat, pub_pkid p.1) <$> ps).

(** A checkpoint does not depend on the connection: in every reachable state the checkpoint can
    be taken, and it is the one taken after [clean] moved the unfinished requests to the event
    loop's queue, whatever else the queue holds. *)
Theorem checkpoint_survives_disconnect (m : u16) (am : AckMode) Rp Rc s (keep : bool) o pending :
  0 ≤ m ≤ u16_MAX → reachable m am Rp Rc s →
  ∃ s' p, clean_with_notices_internal keep s = (Ok (unfinished s), s') ∧
    persisted_session s o pending = Ok p ∧
    persisted_session s' o
      ((cr_request <$> filter (λ c, cr_replay c = true) (unfinished s)) ++ pending) = Ok p.
Proof.
  intros Hm Hr. pose proof (reachable_inv _ _ _ _ _ Hm Hr) as I.
  assert (Hw : wp (clean_with_notices_internal keep)
    (λ r s', r = unfinished s ∧ cleaned keep Rp Rc s s') (λ _ _, False) s) by (by apply (wp_clean keep Rp Rc)).
  unfold wp in Hw. destruct (clean_with_notices_internal keep s) as [[r|e|] s']; try done.
  destruct Hw as [-> Hc]. destruct (persisted_session_ok _ _ s o pending I) as (p & Hp & Hsig & Hrep & Hin).
  destruct (persisted_session_ok _ _ s' o ((cr_request <$> filter (λ c, cr_replay c = true) (unfinished s)) ++ pending)
    (cleaned_inv _ _ _ _ _ Hc)) as (p' & Hp' & Hsig' & Hrep' & Hin').
  exists s', p. split; [done|]. split; [done|]. rewrite Hp'. f_equal.
  assert (He : checkpoint_requests s' = []).
  { unfold checkpoint_requests. destruct (cleaned_control _ _ _ _ _ Hc) as [-> ->].
    by rewrite (cleaned_pub _ _ _ _ _ Hc), (cleaned_rel _ _ _ _ _ Hc). }
  rewrite He, omap_app, (checkpoint_of_unfinished _ _ _ I), <- Hrep in Hrep'. cbn [app] in Hrep'.
  rewrite (proj2 (cleaned_incoming _ _ _ _ _ Hc)), <- Hin in Hin'.
  destruct p, p'. unfold signature_ok in *. cbn in *. destruct_and!. congruence.
Qed.

(** C32: Restoring is checked and atomic: in every reachable state, a checkpoint is accepted exactly
    when it has the current version and this client's configuration, no identifier is zero or
    used twice, no publish has QoS 0 and the window is respected.  A refused checkpoint changes
    nothing; an accepted one yields its requests, with their identifiers reserved, the PUBRELs
    queued and exactly the recorded QoS 2 publishes known as received. *)
Theorem restore_checked (m : u16) (am : AckMode) Rp Rc s now o p :
  0 ≤ m ≤ u16_MAX → reachable m am Rp Rc s → session_u16 p →
  match restore_persisted_session now o p s with
  | (Ok requests, s') => signature_ok o p ∧ packet_ids_ok m p ∧
      requests = restored_request <$> session_replay p ∧ restored m am p s'
  | (Err _, s') => s' = s ∧ ¬ (signature_ok o p ∧ packet_ids_ok m p)
  | (Panic, _) => False
  end.
Proof.
  intros Hm Hr Hu. pose proof (reachable_inv _ _ _ _ _ Hm Hr) as I.
  destruct (reachable_config _ _ _ _ _ Hm Hr) as [<- <-].
  pose proof (wp_restore_persisted Rp Rc now o p s I Hu) as Hw. unfold wp in Hw.
  by destruct (restore_persisted_session now o p s) as [[]].
Qed.

(** ** The requests of a checkpoint *)

Lemma qos_from_persisted_qos q : qos_from_persisted (persisted_qos q) = q.
Proof. by destruct q. Qed.

Lemma filters_from_persisted fs : map filter_from_persisted (map persisted_filter fs) = fs.
Proof.
  induction fs as [|[path q] fs IH]; [done|]. cbn. rewrite IH. unfold filter_from_persisted. cbn.
  by rewrite qos_from_persisted_qos.
Qed.

(** Every tracked publish has a topic. *)
Definition topics_present s : Prop :=
  ∀ k p, 0 ≤ k → vget (outgoing_pub s) k = Some (Some p) → topic p ≠ [].

Lemma checkpoint_publish_ok Rp Rc s k :
  inv Rp Rc s → topics_present s → k ∈ outgoing_pub_order s →
  ∃ p q, vget (outgoing_pub s) k = Some (Some p) ∧ checkpoint_publish s k = Some (PR_Publish q) ∧
    pp_pkid q = k ∧ pp_qos q ≠ PQ_AtMostOnce ∧ restored_request (PR_Publish q) = R_Publish (mark_dup p).
Proof.
  intros I Ht Hk. pose proof (inv_pub_range _ _ _ I k Hk) as [? _].
  destruct (clean_publish_ok _ _ _ k I Hk) as (Hr & p & Hp & Hpk).
  destruct (slots_publish _ _ (inv_slots _ _ _ I) k p ltac:(lia) Hp) as [_ Hq].
  exists p. unfold checkpoint_publish, persisted_publish. rewrite Hp, Hpk.
  rewrite (proj2 (Z.eqb_neq k 0)), !bool_decide_eq_false_2 by (lia || done || by apply (Ht k p); [lia|]).
  eexists. split; [done|]. split; [done|]. cbn. split; [done|]. split; [by destruct (pub_qos p)|].
  unfold mark_dup. rewrite decide_False by done. by rewrite qos_from_persisted_qos, Hpk.
Qed.

(** What a list of persisted requests reserves, and the requests it yields. *)
Record group (rs : list PersistedRequest) (pubs rels ctls : list Z) (reqs : list Request) : Prop := {
  g_pkids : request_pkid <$> rs ≡ₚ pubs ++ rels ++ ctls;
  g_pubs : omap publish_pkid rs = pubs;
  g_rels : omap rel_pkid rs = rels;
  g_ctls : omap control_pkid rs = ctls;
  g_window : window_count rs = blen pubs + blen rels;
  g_ok : Forall replay_request_ok rs;
  g_reqs : restored_request <$> rs = reqs;
}.

Lemma group_eq rs p p' r r' c c' q q' :
  group rs p r c q → p = p' → r = r' → c = c' → q = q' → group rs p' r' c' q'.
Proof. by intros ? <- <- <- <-. Qed.

Lemma group_nil : group [] [] [] [] [].
Proof. by split. Qed.

Lemma group_app rs rs' p p' r r' c c' q q' :
  group rs p r c q → group rs' p' r' c' q' → group (rs ++ rs') (p ++ p') (r ++ r') (c ++ c') (q ++ q').
Proof.
  intros [G1 <- <- <- G5 G6 <-] [K1 <- <- <- K5 K6 <-]. split; rewrite ?fmap_app, ?omap_app; try done.
  - rewrite G1, K1. solve_Permutation.
  - unfold window_count in *. rewrite filter_app, !blen_app. lia.
  - by apply Forall_app.
Qed.

Lemma group_publish (q : PersistedPublish) :
  replay_request_ok (PR_Publish q) → group [PR_Publish q] [pp_pkid q] [] [] [restored_request (PR_Publish q)].
Proof. intros Hok. split; try done. by constructor. Qed.

Lemma group_map {A} (f : A → PersistedRequest) (p r c : A → list Z) (g : A → Request) l :
  (∀ x, x ∈ l → group [f x] (p x) (r x) (c x) [g x]) →
  group (map f l) (concat (map p l)) (concat (map r l)) (concat (map c l)) (map g l).
Proof.
  induction l as [|x l IH]; intros Hl; [apply group_nil|]. cbn [map concat].
  apply (group_app [f x] _ _ _ _ _ _ _ [g x]); [by apply Hl; left|]. apply IH. intros y Hy. apply Hl. by right.
Qed.

Lemma fmap_map {A C D} (g : C → D) (f : A → C) l : g <$> map f l = map (λ x, g (f x)) l.
Proof. induction l as [|x l IH]; [done|]. cbn. f_equal. exact IH. Qed.
Lemma concat_single {A C} (f : A → C) l : concat (map (λ x, [f x]) l) = map f l.
Proof. induction l as [|x l IH]; [done|]. cbn. by rewrite IH. Qed.
Lemma concat_nils {A C} (l : list A) : concat (map (λ _, [] : list C) l) = [].
Proof. by induction l. Qed.

Lemma group_publishes Rp Rc s l :
  inv Rp Rc s → topics_present s → (∀ k, k ∈ l → k ∈ outgoing_pub_order s) →
  group (omap (checkpoint_publish s) l) l [] [] (cr_request <$> omap (clean_publish s) l).
Proof.
  intros I Ht. induction l as [|k l IH]; intros Hl; [apply group_nil|].
  destruct (checkpoint_publish_ok Rp Rc s k I Ht) as (p & q & Hp & Hc & Hk & Hq & Hr); [by apply Hl; left|].
  pose proof (inv_pub_range _ _ _ I k ltac:(by apply Hl; left)) as [Hkr _].
  cbn [omap list_omap]. unfold clean_publish at 1. rewrite Hc, Hp. cbn [fmap list_fmap cr_request].
  rewrite <- Hr. apply (group_app [PR_Publish q] _ [k] _ [] [] [] [] [_]).
  - rewrite <- Hk. apply group_publish. split; [|done]. cbn [request_pkid]. lia.
  - apply IH. intros j Hj. apply Hl. by right.
Qed.

Lemma group_checkpoint Rp Rc s :
  inv Rp Rc s → topics_present s → collision s = None →
  group (checkpoint_requests s) (outgoing_pub_order s) (outgoing_rel_order s)
    ((btree_entries (pending_subscribe s)).*1 ++ (btree_entries (pending_unsubscribe s)).*1)
    (cr_request <$> unfinished s).
Proof.
  intros I Ht Hcol. unfold checkpoint_requests, unfinished, clean_held. rewrite Hcol. cbn [app].
  assert (Hrange : ∀ k, k ∈ live_ids Rp Rc s → k ≠ 0)
    by (intros k Hk%(ids_range _ _ _ (inv_ids _ _ _ I)); lia).
  eapply group_eq.
  - apply group_app; [by eapply group_publishes|]. apply group_app; [|apply group_app].
    + apply (group_map _ (λ _, []) (λ k, [k]) (λ _, []) (λ k, R_PubRel {| pubrel_pkid := k |})).
      intros k Hk. split; try done. constructor; [|done]. split; [|done]. apply Hrange. rewrite elem_live_ids. tauto.
    + apply (group_map _ (λ _, []) (λ _, []) (λ e, [e.1]) (λ e, cr_request (clean_subscribe e))).
      intros e He%btree_elem. destruct (inv_sub _ _ _ I _ _ He) as [Hk _].
      split; cbn; rewrite ?Hk, ?filters_from_persisted; try done. constructor; [|done]. split; [|done].
      apply Hrange. cbn. rewrite Hk, elem_live_ids. naive_solver.
    + apply (group_map _ (λ _, []) (λ _, []) (λ e, [e.1]) (λ e, cr_request (clean_unsubscribe e))).
      intros e He%btree_elem. destruct (inv_unsub _ _ _ I _ _ He) as [Hk _].
      split; cbn; rewrite ?Hk; try done. constructor; [|done]. split; [|done].
      apply Hrange. cbn. rewrite Hk, elem_live_ids. naive_solver.
  - by rewrite !concat_nils, app_nil_r.
  - by rewrite !concat_nils, concat_single, map_id, app_nil_r.
  - by rewrite !concat_nils, !concat_single.
  - by rewrite !fmap_app, !fmap_map.
Qed.

(** ** Sending the requests of a checkpoint again *)

(** How the event loop queues them: without notice, for replay. *)
Definition plain_replay (r : Request) : CleanRequest :=
  {| cr_request := r; cr_notice := None; cr_replay := true |}.

Definition no_sub_notice (e : PendingSubscribe) : PendingSubscribe :=
  {| ps_subscribe := ps_subscribe e; ps_notice := None |}.
Definition no_unsub_notice (e : PendingUnsubscribe) : PendingUnsubscribe :=
  {| pu_unsubscribe := pu_unsubscribe e; pu_notice := None |}.
Definition no_pub_notice (p : Publish * option nat) : Publish * option nat := (p.1, None).

Lemma btree_entries_fmap {V W} (f : V → W) (m : gmap Z V) :
  btree_entries (f <$> m) = map (λ e, (e.1, f e.2)) (btree_entries m).
Proof.
  apply (StronglySorted_unique_strong key_le).
  - intros [k x] [k' y] Hx (e & He & Hin)%list_elem_of_In%List.in_map_iff Hle Hle'.
    injection He as <- <-. apply list_elem_of_In, btree_elem in Hin. apply btree_elem in Hx. cbn in *.
    unfold key_le in *. cbn in *. assert (k = e.1) as -> by lia.
    rewrite lookup_fmap, Hin in Hx. cbn in Hx. congruence.
  - apply btree_entries_sorted.
  - pose proof (btree_entries_sorted m) as Hs. induction Hs as [|e l Hs IH Hall]; [constructor|].
    cbn [map]. constructor; [done|]. clear -Hall. induction Hall; [constructor|]. by constructor.
  - rewrite btree_entries_perm, map_to_list_fmap, (btree_entries_perm m).
    induction (map_to_list m) as [|[k x] l IH]; [done|]. cbn. by rewrite IH.
Qed.

Lemma plain_replay_unfinished (s0 : MqttState B) s :
  collision s = None → (∀ k, mjoin (vget (outgoing_rel_notice s0) k) = None) →
  plain_replay <$> (cr_request <$> unfinished s) =
  publishes_of (no_pub_notice <$> omap (tracked_publish s) (outgoing_pub_order s)) ++
  map (clean_pubrel s0) (outgoing_rel_order s) ++
  map clean_subscribe (btree_entries (no_sub_notice <$> pending_subscribe s)) ++
  map clean_unsubscribe (btree_entries (no_unsub_notice <$> pending_unsubscribe s)).
Proof.
  intros Hcol Hnone. unfold unfinished, clean_held. rewrite Hcol, clean_publishes_of. cbn [app].
  rewrite !fmap_app, !btree_entries_fmap, !fmap_map. f_equal; [|f_equal].
  - unfold publishes_of. rewrite <- !list_fmap_compose. done.
  - apply map_ext. intros k. unfold clean_pubrel, plain_replay. by rewrite Hnone.
Qed.

(** The checkpoint of a state without collision or unsent replays is valid. *)
Lemma checkpoint_valid s p :
  inv ∅ ∅ s → topics_present s → collision s = None → outgoing_rel_replay_order s = [] →
  contains (incoming_pubrec s) 0 = false →
  session_replay p = checkpoint_requests s →
  session_incoming_qos2 p = mkPersistedIncomingQos2 <$> ones (incoming_pubrec s) →
  session_u16 p ∧ packet_ids_ok (max_inflight s) p.
Proof.
  intros I Ht Hcol Hrr H0' Hrep Hin. destruct (group_checkpoint _ _ _ I Ht Hcol) as [G1 _ _ _ G5 G6 _].
  pose proof (inv_ids _ _ _ I) as Hids. unfold live_ids in Hids.
  rewrite Hrr, <- !keys_btree, elements_empty, !app_nil_r, app_nil_l, <- G1 in Hids.
  assert (Hbit : ∀ k, k ∈ ones (incoming_pubrec s) → 1 ≤ k < 65536).
  { intros k Hk%elem_of_ones. pose proof (contains_range _ _ Hk) as Hr.
    rewrite (len_irec _ _ _ (inv_incoming _ _ _ I)) in Hr. unfold full_packet_identifier_len, u16_MAX in Hr.
    assert (k ≠ 0) by congruence. lia. }
  unfold session_u16, packet_ids_ok. rewrite Hrep, Hin, !Forall_fmap. split_and!; try done.
  - apply Forall_forall. intros k Hk%Hbit. unfold is_u16. cbn. lia.
  - apply Forall_forall. intros r Hr. apply (list_elem_of_fmap_2 request_pkid) in Hr.
    apply (ids_range _ _ _ Hids) in Hr. unfold is_u16, u16_MAX in *. lia.
  - apply Forall_forall. intros k Hk%Hbit. cbn. lia.
  - by apply (ids_nodup _ _ _ Hids).
  - rewrite G5, <- (inv_inflight _ _ _ I). apply (inv_window _ _ _ I).
Qed.

Lemma replicate_no_notice n k : mjoin (vget (replicate n (None : option nat)) k) = None.
Proof.
  unfold vget. destruct (replicate n None !! Z.to_nat k) as [x|] eqn:Hx; [|done].
  by apply lookup_replicate in Hx as [-> _].
Qed.

(** Sending them again from the restored state. *)
Lemma wp_replay_restored now s s1 m am p :
  inv ∅ ∅ s → topics_present s → collision s = None → outgoing_rel_replay_order s = [] →
  session_replay p = checkpoint_requests s → restored m am p s1 → max_inflight s = m →
  let requests := plain_replay <$> (cr_request <$> unfinished s) in
  wp (replay_all now requests)
    (λ r s2, r = packets_of requests ∧ inv ∅ ∅ s2 ∧
       outgoing_pub_order s2 = outgoing_pub_order s ∧ outgoing_rel_order s2 = outgoing_rel_order s ∧
       outgoing_rel_replay_order s2 = [] ∧
       pending_subscribe s2 = no_sub_notice <$> pending_subscribe s ∧
       pending_unsubscribe s2 = no_unsub_notice <$> pending_unsubscribe s ∧
       inflight s2 = inflight s ∧ incoming_pub s2 = incoming_pub s1 ∧
       incoming_pubrec s2 = incoming_pubrec s1 ∧
       ∀ k p, 0 ≤ k → vget (outgoing_pub s) k = Some (Some p) →
              vget (outgoing_pub s2) k = Some (Some (mark_dup p))) (λ _ _, False) s1.
Proof.
  intros I Ht Hcol Hrr Hrep R Hmax. destruct (group_checkpoint _ _ _ I Ht Hcol) as [_ G2 G3 G4 _ _ _].
  destruct R as [I1 Hpo1 Hro1 Hrro1 [Hs1 Hu1] _ Hi1 [Hm1 _] _]. rewrite Hrep in *. rewrite G2, G4 in I1.
  rewrite G3 in Hrro1. cbn zeta.
  rewrite (plain_replay_unfinished (new_internal now 0 am)) by (done || intros; apply replicate_no_notice).
  set (ps := no_pub_notice <$> omap (tracked_publish s) (outgoing_pub_order s)).
  assert (Hpk : pkids ps = outgoing_pub_order s)
    by (unfold ps; rewrite <- list_fmap_compose; by eapply (tracked_pkids ∅ ∅)).
  assert (Hlen : blen ps = blen (outgoing_pub_order s))
    by (rewrite <- Hpk; unfold blen; by rewrite length_fmap).
  pose proof (inv_inflight _ _ _ I) as Hinf. pose proof (inv_window _ _ _ I) as Hwin.
  assert (Hps : ∀ q, q ∈ ps → ∃ k pb, vget (outgoing_pub s) k = Some (Some pb) ∧ q = (mark_dup pb, None) ∧
    pub_qos q.1 ≠ AtMostOnce).
  { intros q (q0 & -> & Hq)%list_elem_of_fmap. apply (tracked_elem ∅ ∅) in Hq as (pb & Hv & Hd & _ & Hq); [|done].
    exists (pub_pkid q0.1), pb. unfold no_pub_notice. cbn. by rewrite Hd in *. }
  eapply wp_mono; [apply (wp_replay_groups now (new_internal now 0 am) ps); rewrite ?Hpk, ?Hm1, ?dom_fmap_L; try done|..|done].
  - replace (dom (pending_subscribe s) ∪ dom (pending_unsubscribe s)) with
      (list_to_set ((btree_entries (pending_subscribe s)).*1 ++ (btree_entries (pending_unsubscribe s)).*1) : gset Z);
      [done|]. apply set_eq. intros k. by rewrite list_to_set_app, !elem_of_union, !btree_set.
  - by destruct (inv_orders_nodup _ _ _ I).
  - by intros q (_ & _ & _ & _ & ?)%Hps.
  - lia.
  - intros k e (e' & <- & He)%lookup_fmap_Some. exact (inv_sub _ _ _ I k e' He).
  - intros k e (e' & <- & He)%lookup_fmap_Some. exact (inv_unsub _ _ _ I k e' He).
  - intros k Hs Hu. by apply (control_disjoint ∅ ∅ s k).
  - intros r s2 (-> & I2 & Hf & Hv). unfold flows_of in Hf. fields.
    injection Hf as Hpo Hro Hrro Hpa Hip Hir Hsub Hunsub Hcol2 Hcn2 Hif Hm2 Ham2.
    split_and!; try (done || congruence || lia).
    intros k q Hk Hq. pose proof (inv_slot_some _ _ _ I k q Hk Hq) as Hino.
    destruct (slots_publish _ _ (inv_slots _ _ _ I) k q Hk Hq) as [Hpk' _].
    specialize (Hv (mark_dup q, None)). cbn [fst] in Hv. rewrite mark_dup_pkid, Hpk' in Hv. apply Hv.
    unfold ps. apply list_elem_of_fmap. exists (mark_dup q, mjoin (vget (outgoing_pub_notice s) k)).
    split; [done|]. apply list_elem_of_omap. exists k. split; [done|]. unfold tracked_publish. by rewrite Hq.
Qed.

Lemma live_ids_recovered s s2 k :
  outgoing_pub_order s2 = outgoing_pub_order s → outgoing_rel_order s2 = outgoing_rel_order s →
  outgoing_rel_replay_order s2 = [] → outgoing_rel_replay_order s = [] →
  pending_subscribe s2 = no_sub_notice <$> pending_subscribe s →
  pending_unsubscribe s2 = no_unsub_notice <$> pending_unsubscribe s →
  k ∈ live_ids ∅ ∅ s2 ↔ k ∈ live_ids ∅ ∅ s.
Proof.
  intros Hpo Hro Hrr2 Hrr Hs Hu. rewrite !elem_live_ids, Hpo, Hro, Hrr2, Hrr, Hs, Hu, !lookup_fmap.
  by rewrite !fmap_is_Some.
Qed.

End Recovery.

(** ** Witnesses, in the session [demo_state] *)

Definition topics_presentb {B} (s : MqttState B) : bool :=
  forallb (λ x, match x with Some p => negb (bool_decide (topic p = [])) | None => true end) (outgoing_pub s).

Lemma topics_presentb_ok {B} (s : MqttState B) : topics_presentb s = true → topics_present s.
Proof.
  unfold topics_presentb. rewrite List.forallb_forall. intros Hall k p Hk Hp.
  apply list_elem_of_lookup_2, list_elem_of_In in Hp. specialize (Hall _ Hp). cbn in Hall.
  apply negb_true_iff in Hall. by apply bool_decide_eq_false in Hall.
Qed.

Definition demo_options : MqttOptions := 
  mkMqttOptions [99; 49] false 10 Automatic 60000000000 SPM_Error Auth_None None 10240 10240 1 0 true
    [115].

Lemma checkpoint_survives_disconnect_witness :
  ∃ s' p, clean_with_notices_internal true demo_state = (Ok (unfinished demo_state), s') ∧
    persisted_session demo_state demo_options [] = Ok p.
Proof.
  destruct (checkpoint_survives_disconnect 10 Automatic ∅ ∅ demo_state true demo_options [])
    as (s' & p & Hc & Hp & _); [by split|exact demo_reachable|exists s', p; exact (conj Hc Hp)].
Defined.

Lemma restore_checked_witness :
  match restore_persisted_session 5 demo_options
          (mkPersistedSession 2 [99; 49] false 10 PA_Automatic
             [PR_PubRel (mkPersistedPubRel 3); PR_PubRel (mkPersistedPubRel 3)] []) demo_state with
  | (Ok _, _) => False
  | (Err _, s') => s' = demo_state
  | (Panic, _) => False
  end.
Proof.
  set (p := mkPersistedSession _ _ _ _ _ _ _).
  assert (Hu : session_u16 p) by (repeat constructor; vm_compute; discriminate).
  pose proof (restore_checked 10 Automatic ∅ ∅ demo_state 5 demo_options p ltac:(by split) demo_reachable Hu) as Hc.
  destruct (restore_persisted_session 5 demo_options p demo_state) as [[r|e|] s'].
  - destruct Hc as (_ & (_ & _ & Hnd & _) & _). cbn in Hnd. apply NoDup_cons in Hnd as [Hn _]. apply Hn. by left.
  - exact (proj1 Hc).
  - exact Hc.
Defined.

