(* ===== verification/V4LoopTypes.v ===== *)
(** [rumqttc-v4/src/eventloop.rs], [framed.rs], [notice.rs], [session.rs]: the data of the event
    loop of the MQTT 3.1.1 client, in the default configuration of features.

    What the loop waits for is not in the repository: sockets, timers, the channels of the
    client handles and the application's session store.  It is the environment [Env], a
    parameter of every operation: at each point where the loop reads the clock or waits, the
    next [Answer] says what it finds there.  [World] holds what outlives a poll outside the
    client: the store's content and how notices were settled.

    [rumqttc-v4/src/framed.rs]: reading and writing packets on a connection, and the primitive
    operations of the event loop on its environment. *)

From S2P Require Import Prelude.
From S2P Require Import CodecBase.
From S2P Require Import V4Base.
From S2P Require Import V4Acks.
From S2P Require Import V4Publish.
From S2P Require Import V4Subscribe.
From S2P Require Import V4Connect.
From S2P Require Import V4Packet.
From S2P Require Import Scheduler.
From S2P Require Import FixedBitSet.
From S2P Require Import PacketIds.
From S2P Require Import SessionIO.
From S2P Require Import V4SessionFormat.
From S2P Require Import V4SessionTypes.
From S2P Require Import V4State.
From S2P Require Import V4Clean.
From S2P Require Import V4Persist.
#[local] Open Scope Z_scope.

(** ** Errors *)

(** [CE_Transport] stands for every way in which connecting the transport fails: I/O, TLS,
    websocket and proxy errors. *)
Inductive ConnectionError :=
| CE_MqttState (e : StateError)
| CE_NetworkTimeout
| CE_FlushTimeout
| CE_DisconnectTimeout
| CE_Transport
| CE_ConnectionRefused (code : ConnectReturnCode)
| CE_NotConnAck (packet : Packet)
| CE_SessionStateMismatch (clean_session session_present : bool)
| CE_SessionStore
| CE_SessionRestore (e : SessionRestoreError)
| CE_RequestsDone.

(** How a poll ends without an event: with an error, or because the application drops it while
    it waits. *)
Inductive Stop := Failed (e : ConnectionError) | Dropped.

(** ** Requests *)

Record RequestEnvelope := mkEnvelope {
  env_request : Request;
  env_notice : option TrackedNoticeTx;
  env_replay : bool;
}.

Definition from_parts_with_replay (request : Request) (notice : option TrackedNoticeTx)
    (replay : bool) : RequestEnvelope :=
  {| env_request := request; env_notice := notice; env_replay := replay |}.

Definition envelope_plain (request : Request) : RequestEnvelope :=
  {| env_request := request; env_notice := None; env_replay := false |}.

Definition envelope_plain_replay (request : Request) : RequestEnvelope :=
  {| env_request := request; env_notice := None; env_replay := true |}.

Definition tracked_publish (publish : Publish) (notice : NoticeTx) : RequestEnvelope :=
  {| env_request := R_Publish publish; env_notice := Some (TN_Publish notice);
     env_replay := false |}.

Definition tracked_subscribe (subscribe : Subscribe) (notice : NoticeTx) : RequestEnvelope :=
  {| env_request := R_Subscribe subscribe; env_notice := Some (TN_Subscribe notice);
     env_replay := false |}.

Definition tracked_unsubscribe (unsubscribe : Unsubscribe) (notice : NoticeTx)
  : RequestEnvelope :=
  {| env_request := R_Unsubscribe unsubscribe; env_notice := Some (TN_Unsubscribe notice);
     env_replay := false |}.

Inductive BatchControl := Continue | StopBatch.

(** The largest [Instant] in nanoseconds; the seconds are an [i64]. *)
Definition Instant_MAX : Z := 9223372036854775808 * 1000000000 - 1.

Definition instant_checked_add (t d : Z) : option Instant := if t + d <=? Instant_MAX then Some (t + d) else None.

(** [t + d], which panics on overflow. *)
Definition instant_add {E} (t d : Z) : outcome E Instant :=
  match instant_checked_add t d with Some t => Ok t | None => Panic end.

(** The deadline of [tokio::time::sleep(d)] at [t]: thirty years away if [t + d] is not an instant. *)
Definition sleep_deadline (t d : Z) : Instant :=
  default (t + 86400 * 365 * 30 * 1000000000) (instant_checked_add t d).

(** A pending graceful disconnect, with its deadline. *)
Record PendingDisconnect := mkPendingDisconnect { pd_deadline : option Instant }.

(** [Instant::now() + timeout], which panics on overflow. *)
Definition PendingDisconnect_new {E} (now : Instant) (timeout : option Z) : outcome E PendingDisconnect :=
  match timeout with
  | None => Ok {| pd_deadline := None |}
  | Some timeout => deadline ← instant_add now timeout; Ok {| pd_deadline := Some deadline |}
  end.

Inductive SessionStoreResetAction := Keep | Clear.

(** ** Arbitration *)

Definition MAX_REQUEST_BURST : Z := 8.

Inductive PollSource := PS_Request (remaining : u8) | PS_Network | PS_KeepAlive.

Definition PollSource_default : PollSource := PS_Request MAX_REQUEST_BURST.

Definition PollSource_next (self : PollSource) : PollSource :=
  match self with
  | PS_Request _ => PS_Network
  | PS_Network => PS_KeepAlive
  | PS_KeepAlive => PS_Request MAX_REQUEST_BURST
  end.

Definition after_ready (self : PollSource) : PollSource :=
  match self with
  | PS_Request remaining => if 1 <? remaining then PS_Request (remaining - 1) else PollSource_next self
  | _ => PollSource_next self
  end.

(** ** Frames *)

(** What [Framed] yields: a packet, an error, or the end of the stream. *)
Abbreviation IncomingFrame := (option (Packet + Error)) (only parsing).

(** A connection: its codec, the bytes given to it so far and the deadline of responses. *)
Record Network := mkNetwork {
  net_codec : Codec;
  net_wire : Bytes;
  net_write_deadline : option Instant;
}.

Definition Network_new (max_incoming_size max_outgoing_size : usize) : Network :=
  {| net_codec := {| max_incoming_size := max_incoming_size;
                     max_outgoing_size := max_outgoing_size |};
     net_wire := []; net_write_deadline := None |}.

Inductive ReadBatchOutcome := NoResponseWritten | ResponseWritten.

Record ReadBatch := mkReadBatch {
  rb_outcome : ReadBatchOutcome;
  rb_notices : list DeferredNotice;
}.

Record ReadBatchError := mkReadBatchError {
  rbe_source : StateError;
  rbe_batch : ReadBatch;
}.

Inductive PollReady :=
| PR_Closed
| PR_Immediate (envelope : RequestEnvelope)
| PR_ControlReady (envelope : RequestEnvelope)
| PR_Request (envelope : RequestEnvelope + ConnectionError)
| PR_Network (frame : IncomingFrame)
| PR_KeepAlive.

(** ** Session *)

Inductive ConnAckDiagnostic := SessionPresentMismatchAcceptedAsClean.

Record ConnAckSessionDiagnostics := mkConnAckSession {
  raw_session_present : bool;
  session_resumed : bool;
  connack_diagnostic : option ConnAckDiagnostic;
}.

Inductive SessionDisposition := Fresh | Resumed.

Record SessionReconciliation := mkReconciliation {
  disposition : SessionDisposition;
  reconciliation_diagnostic : option ConnAckDiagnostic;
}.

Definition is_fresh (self : SessionReconciliation) : bool :=
  match disposition self with Fresh => true | Resumed => false end.

Definition reconciliation_diagnostics (self : SessionReconciliation) (raw_session_present : bool)
  : ConnAckSessionDiagnostics :=
  {| raw_session_present := raw_session_present; session_resumed := negb (is_fresh self);
     connack_diagnostic := reconciliation_diagnostic self |}.

(** A scope and a client identifier. *)
Abbreviation SessionStoreKey := (list Z * list Z)%type (only parsing).

Definition options_store_key (options : MqttOptions) : SessionStoreKey :=
  (opt_session_store_scope options, opt_client_id options).

(** ** Notices *)

Inductive NoticeError := NE_SessionReset | NE_SessionPersistence | NE_Qos0NotFlushed.

Inductive NoticeOutcome :=
| N_Publish (result : PublishResult)
| N_Subscribe (suback : SubAck)
| N_Unsubscribe (unsuback : UnsubAck)
| N_Error (e : NoticeError).

Definition notice_complete (self : DeferredNotice) : TrackedNoticeTx * NoticeOutcome :=
  match self with
  | DN_Publish notice result => (TN_Publish notice, N_Publish result)
  | DN_Subscribe notice suback => (TN_Subscribe notice, N_Subscribe suback)
  | DN_Unsubscribe notice unsuback => (TN_Unsubscribe notice, N_Unsubscribe unsuback)
  end.

Definition notice_persistence_error (self : DeferredNotice) : TrackedNoticeTx * NoticeOutcome :=
  match self with
  | DN_Publish notice _ => (TN_Publish notice, N_Error NE_SessionPersistence)
  | DN_Subscribe notice _ => (TN_Subscribe notice, N_Error NE_SessionPersistence)
  | DN_Unsubscribe notice _ => (TN_Unsubscribe notice, N_Error NE_SessionPersistence)
  end.

(** ** The environment *)

(** A channel from the client handles: the requests in it, and whether every sender is gone. *)
Record Channel := mkChannel { chan_items : list RequestEnvelope; chan_disconnected : bool }.

(** The end of a transport operation: done, failed, its deadline passed first, or never while
    the poll lasts. *)
Inductive IoAnswer := IO_Ok | IO_Err | IO_Timeout | IO_Pending.

(** The end of a store operation; where it does not succeed, [committed] says whether it took
    effect all the same. *)
Inductive StoreAnswer := SA_Ok | SA_Err (committed : bool) | SA_Pending (committed : bool).

(** What the loop finds at one point: the time, the requests and disconnections of client
    handles since the last point, the result of the operation it waits for, the frame that is
    ready if there is one, whether the delay between retransmissions is over, and the branch at
    which a [select!] starts to look for one that is ready. *)
Record Answer := mkAnswer {
  a_now : Instant;
  a_requests : list RequestEnvelope;
  a_control : list RequestEnvelope;
  a_immediate : list RequestEnvelope;
  a_disconnected : bool;
  a_io : IoAnswer;
  a_store : StoreAnswer;
  a_frame : option IncomingFrame;
  a_throttle : bool;
  a_pick : nat;
}.

Definition Env : Type := nat → Answer.

Record World := mkWorld {
  tick : nat;
  stored : gmap SessionStoreKey PersistedSession;
  settled : list (TrackedNoticeTx * NoticeOutcome);
}.

(** ** [EventLoop] *)

Record EventLoop (B : Type) := mkEventLoop {
  el_options : MqttOptions;
  el_state : MqttState B;
  requests_rx : Channel;
  control_requests_rx : Channel;
  immediate_disconnect_rx : Channel;
  pending : list RequestEnvelope;
  queued : OutboundScheduler RequestEnvelope;
  network : option Network;
  next_poll_source : PollSource;
  pending_connection_error : option ConnectionError;
  keepalive_timeout : option Instant;
  keepalive_scan_deadline : option Instant;
  el_client_id : option Bytes;
  session_store_key : option SessionStoreKey;
  store_loaded : bool;
  store_clear_pending : bool;
  connack_session : option ConnAckSessionDiagnostics;
  connection_timeout : Z;
  pending_disconnect : option PendingDisconnect;
  disconnect_complete : bool;
  world : World;
}.
Arguments mkEventLoop {B}.
Arguments el_options {B} _.
Arguments el_state {B} _.
Arguments requests_rx {B} _.
Arguments control_requests_rx {B} _.
Arguments immediate_disconnect_rx {B} _.
Arguments pending {B} _.
Arguments queued {B} _.
Arguments network {B} _.
Arguments next_poll_source {B} _.
Arguments pending_connection_error {B} _.
Arguments keepalive_timeout {B} _.
Arguments keepalive_scan_deadline {B} _.
Arguments el_client_id {B} _.
Arguments session_store_key {B} _.
Arguments store_loaded {B} _.
Arguments store_clear_pending {B} _.
Arguments connack_session {B} _.
Arguments connection_timeout {B} _.
Arguments pending_disconnect {B} _.
Arguments disconnect_complete {B} _.
Arguments world {B} _.

(** Assignment to one field. *)
Definition set_el_options {B} (v : MqttOptions) (l : EventLoop B) : EventLoop B :=
  mkEventLoop v (el_state l) (requests_rx l) (control_requests_rx l) (immediate_disconnect_rx l)
    (pending l) (queued l) (network l) (next_poll_source l) (pending_connection_error l)
    (keepalive_timeout l) (keepalive_scan_deadline l) (el_client_id l) (session_store_key l)
    (store_loaded l) (store_clear_pending l) (connack_session l) (connection_timeout l)
    (pending_disconnect l) (disconnect_complete l) (world l).
Definition set_el_state {B} (v : MqttState B) (l : EventLoop B) : EventLoop B :=
  mkEventLoop (el_options l) v (requests_rx l) (control_requests_rx l) (immediate_disconnect_rx l)
    (pending l) (queued l) (network l) (next_poll_source l) (pending_connection_error l)
    (keepalive_timeout l) (keepalive_scan_deadline l) (el_client_id l) (session_store_key l)
    (store_loaded l) (store_clear_pending l) (connack_session l) (connection_timeout l)
    (pending_disconnect l) (disconnect_complete l) (world l).
Definition set_requests_rx {B} (v : Channel) (l : EventLoop B) : EventLoop B :=
  mkEventLoop (el_options l) (el_state l) v (control_requests_rx l) (immediate_disconnect_rx l)
    (pending l) (queued l) (network l) (next_poll_source l) (pending_connection_error l)
    (keepalive_timeout l) (keepalive_scan_deadline l) (el_client_id l) (session_store_key l)
    (store_loaded l) (store_clear_pending l) (connack_session l) (connection_timeout l)
    (pending_disconnect l) (disconnect_complete l) (world l).
Definition set_control_requests_rx {B} (v : Channel) (l : EventLoop B) : EventLoop B :=
  mkEventLoop (el_options l) (el_state l) (requests_rx l) v (immediate_disconnect_rx l)
    (pending l) (queued l) (network l) (next_poll_source l) (pending_connection_error l)
    (keepalive_timeout l) (keepalive_scan_deadline l) (el_client_id l) (session_store_key l)
    (store_loaded l) (store_clear_pending l) (connack_session l) (connection_timeout l)
    (pending_disconnect l) (disconnect_complete l) (world l).
Definition set_immediate_disconnect_rx {B} (v : Channel) (l : EventLoop B) : EventLoop B :=
  mkEventLoop (el_options l) (el_state l) (requests_rx l) (control_requests_rx l) v (pending l)
    (queued l) (network l) (next_poll_source l) (pending_connection_error l) (keepalive_timeout l)
    (keepalive_scan_deadline l) (el_client_id l) (session_store_key l) (store_loaded l)
    (store_clear_pending l) (connack_session l) (connection_timeout l) (pending_disconnect l)
    (disconnect_complete l) (world l).
Definition set_pending {B} (v : list RequestEnvelope) (l : EventLoop B) : EventLoop B :=
  mkEventLoop (el_options l) (el_state l) (requests_rx l) (control_requests_rx l)
    (immediate_disconnect_rx l) v (queued l) (network l) (next_poll_source l)
    (pending_connection_error l) (keepalive_timeout l) (keepalive_scan_deadline l)
    (el_client_id l) (session_store_key l) (store_loaded l) (store_clear_pending l)
    (connack_session l) (connection_timeout l) (pending_disconnect l) (disconnect_complete l)
    (world l).
Definition set_queued {B} (v : OutboundScheduler RequestEnvelope) (l : EventLoop B) : EventLoop B :=
  mkEventLoop (el_options l) (el_state l) (requests_rx l) (control_requests_rx l)
    (immediate_disconnect_rx l) (pending l) v (network l) (next_poll_source l)
    (pending_connection_error l) (keepalive_timeout l) (keepalive_scan_deadline l)
    (el_client_id l) (session_store_key l) (store_loaded l) (store_clear_pending l)
    (connack_session l) (connection_timeout l) (pending_disconnect l) (disconnect_complete l)
    (world l).
Definition set_network {B} (v : option Network) (l : EventLoop B) : EventLoop B :=
  mkEventLoop (el_options l) (el_state l) (requests_rx l) (control_requests_rx l)
    (immediate_disconnect_rx l) (pending l) (queued l) v (next_poll_source l)
    (pending_connection_error l) (keepalive_timeout l) (keepalive_scan_deadline l)
    (el_client_id l) (session_store_key l) (store_loaded l) (store_clear_pending l)
    (connack_session l) (connection_timeout l) (pending_disconnect l) (disconnect_complete l)
    (world l).
Definition set_next_poll_source {B} (v : PollSource) (l : EventLoop B) : EventLoop B :=
  mkEventLoop (el_options l) (el_state l) (requests_rx l) (control_requests_rx l)
    (immediate_disconnect_rx l) (pending l) (queued l) (network l) v (pending_connection_error l)
    (keepalive_timeout l) (keepalive_scan_deadline l) (el_client_id l) (session_store_key l)
    (store_loaded l) (store_clear_pending l) (connack_session l) (connection_timeout l)
    (pending_disconnect l) (disconnect_complete l) (world l).
Definition set_pending_connection_error {B} (v : option ConnectionError) (l : EventLoop B) : EventLoop B :=
  mkEventLoop (el_options l) (el_state l) (requests_rx l) (control_requests_rx l)
    (immediate_disconnect_rx l) (pending l) (queued l) (network l) (next_poll_source l) v
    (keepalive_timeout l) (keepalive_scan_deadline l) (el_client_id l) (session_store_key l)
    (store_loaded l) (store_clear_pending l) (connack_session l) (connection_timeout l)
    (pending_disconnect l) (disconnect_complete l) (world l).
Definition set_keepalive_timeout {B} (v : option Instant) (l : EventLoop B) : EventLoop B :=
  mkEventLoop (el_options l) (el_state l) (requests_rx l) (control_requests_rx l)
    (immediate_disconnect_rx l) (pending l) (queued l) (network l) (next_poll_source l)
    (pending_connection_error l) v (keepalive_scan_deadline l) (el_client_id l)
    (session_store_key l) (store_loaded l) (store_clear_pending l) (connack_session l)
    (connection_timeout l) (pending_disconnect l) (disconnect_complete l) (world l).
Definition set_keepalive_scan_deadline {B} (v : option Instant) (l : EventLoop B) : EventLoop B :=
  mkEventLoop (el_options l) (el_state l) (requests_rx l) (control_requests_rx l)
    (immediate_disconnect_rx l) (pending l) (queued l) (network l) (next_poll_source l)
    (pending_connection_error l) (keepalive_timeout l) v (el_client_id l) (session_store_key l)
    (store_loaded l) (store_clear_pending l) (connack_session l) (connection_timeout l)
    (pending_disconnect l) (disconnect_complete l) (world l).
Definition set_el_client_id {B} (v : option Bytes) (l : EventLoop B) : EventLoop B :=
  mkEventLoop (el_options l) (el_state l) (requests_rx l) (control_requests_rx l)
    (immediate_disconnect_rx l) (pending l) (queued l) (network l) (next_poll_source l)
    (pending_connection_error l) (keepalive_timeout l) (keepalive_scan_deadline l) v
    (session_store_key l) (store_loaded l) (store_clear_pending l) (connack_session l)
    (connection_timeout l) (pending_disconnect l) (disconnect_complete l) (world l).
Definition set_session_store_key {B} (v : option SessionStoreKey) (l : EventLoop B) : EventLoop B :=
  mkEventLoop (el_options l) (el_state l) (requests_rx l) (control_requests_rx l)
    (immediate_disconnect_rx l) (pending l) (queued l) (network l) (next_poll_source l)
    (pending_connection_error l) (keepalive_timeout l) (keepalive_scan_deadline l)
    (el_client_id l) v (store_loaded l) (store_clear_pending l) (connack_session l)
    (connection_timeout l) (pending_disconnect l) (disconnect_complete l) (world l).
Definition set_store_loaded {B} (v : bool) (l : EventLoop B) : EventLoop B :=
  mkEventLoop (el_options l) (el_state l) (requests_rx l) (control_requests_rx l)
    (immediate_disconnect_rx l) (pending l) (queued l) (network l) (next_poll_source l)
    (pending_connection_error l) (keepalive_timeout l) (keepalive_scan_deadline l)
    (el_client_id l) (session_store_key l) v (store_clear_pending l) (connack_session l)
    (connection_timeout l) (pending_disconnect l) (disconnect_complete l) (world l).
Definition set_store_clear_pending {B} (v : bool) (l : EventLoop B) : EventLoop B :=
  mkEventLoop (el_options l) (el_state l) (requests_rx l) (control_requests_rx l)
    (immediate_disconnect_rx l) (pending l) (queued l) (network l) (next_poll_source l)
    (pending_connection_error l) (keepalive_timeout l) (keepalive_scan_deadline l)
    (el_client_id l) (session_store_key l) (store_loaded l) v (connack_session l)
    (connection_timeout l) (pending_disconnect l) (disconnect_complete l) (world l).
Definition set_connack_session {B} (v : option ConnAckSessionDiagnostics) (l : EventLoop B) : EventLoop B :=
  mkEventLoop (el_options l) (el_state l) (requests_rx l) (control_requests_rx l)
    (immediate_disconnect_rx l) (pending l) (queued l) (network l) (next_poll_source l)
    (pending_connection_error l) (keepalive_timeout l) (keepalive_scan_deadline l)
    (el_client_id l) (session_store_key l) (store_loaded l) (store_clear_pending l) v
    (connection_timeout l) (pending_disconnect l) (disconnect_complete l) (world l).
Definition set_pending_disconnect {B} (v : option PendingDisconnect) (l : EventLoop B) : EventLoop B :=
  mkEventLoop (el_options l) (el_state l) (requests_rx l) (control_requests_rx l)
    (immediate_disconnect_rx l) (pending l) (queued l) (network l) (next_poll_source l)
    (pending_connection_error l) (keepalive_timeout l) (keepalive_scan_deadline l)
    (el_client_id l) (session_store_key l) (store_loaded l) (store_clear_pending l)
    (connack_session l) (connection_timeout l) v (disconnect_complete l) (world l).
Definition set_disconnect_complete {B} (v : bool) (l : EventLoop B) : EventLoop B :=
  mkEventLoop (el_options l) (el_state l) (requests_rx l) (control_requests_rx l)
    (immediate_disconnect_rx l) (pending l) (queued l) (network l) (next_poll_source l)
    (pending_connection_error l) (keepalive_timeout l) (keepalive_scan_deadline l)
    (el_client_id l) (session_store_key l) (store_loaded l) (store_clear_pending l)
    (connack_session l) (connection_timeout l) (pending_disconnect l) v (world l).
Definition set_world {B} (v : World) (l : EventLoop B) : EventLoop B :=
  mkEventLoop (el_options l) (el_state l) (requests_rx l) (control_requests_rx l)
    (immediate_disconnect_rx l) (pending l) (queued l) (network l) (next_poll_source l)
    (pending_connection_error l) (keepalive_timeout l) (keepalive_scan_deadline l)
    (el_client_id l) (session_store_key l) (store_loaded l) (store_clear_pending l)
    (connack_session l) (connection_timeout l) (pending_disconnect l) (disconnect_complete l) v.

Section Framed.
  Context {B : Type} `{FixedBitSet B} (env : Env).

Abbreviation EL := (M (EventLoop B) Stop).

(** ** The environment *)

Definition chan_push (c : Channel) (items : list RequestEnvelope) (disconnected : bool) : Channel :=
  {| chan_items := chan_items c ++ items;
     chan_disconnected := chan_disconnected c || disconnected |}.

Definition set_tick (n : nat) (w : World) : World :=
  {| tick := n; stored := stored w; settled := settled w |}.
Definition set_stored (m : gmap SessionStoreKey PersistedSession) (w : World) : World :=
  {| tick := tick w; stored := m; settled := settled w |}.
Definition add_settled (l : list (TrackedNoticeTx * NoticeOutcome)) (w : World) : World :=
  {| tick := tick w; stored := stored w; settled := settled w ++ l |}.

(** The client handles have put requests into the channels. *)
Definition arrive (a : Answer) (l : EventLoop B) : EventLoop B :=
  let l := set_requests_rx (chan_push (requests_rx l) (a_requests a) (a_disconnected a)) l in
  let l := set_control_requests_rx
             (chan_push (control_requests_rx l) (a_control a) (a_disconnected a)) l in
  set_immediate_disconnect_rx
    (chan_push (immediate_disconnect_rx l) (a_immediate a) (a_disconnected a)) l.

Definition ask : EL Answer := λ l,
  let a := env (tick (world l)) in
  (Ok a, arrive a (set_world (set_tick (S (tick (world l))) (world l)) l)).

(** [Instant::now()]. *)
Definition now : EL Instant := a ← ask; mret (a_now a).

(** ** Errors *)

Definition fail_with {A} (e : ConnectionError) : EL A := mfail (Failed e).

(** The poll waits at this point until it is dropped. *)
Definition dropped {A} : EL A := mfail Dropped.

(** [match result { Ok(_) => .., Err(_) => .. }] on the result of an operation. *)
Definition try_ {A} (m : EL A) : EL (A + ConnectionError) := λ l,
  match m l with
  | (Ok a, l) => (Ok (inl a), l)
  | (Err (Failed e), l) => (Ok (inr e), l)
  | (Err Dropped, l) => (Err Dropped, l)
  | (Panic, l) => (Panic, l)
  end.

(** An operation of the session state. *)
Definition in_state {A} (m : M (MqttState B) StateError A) : EL A := λ l,
  match m (el_state l) with
  | (Ok a, s) => (Ok a, set_el_state s l)
  | (Err e, s) => (Err (Failed (CE_MqttState e)), set_el_state s l)
  | (Panic, s) => (Panic, set_el_state s l)
  end.

(** One whose result is matched on, and one that returns no [Result]. *)
Definition in_state_try {A} (m : M (MqttState B) StateError A) : EL (A + StateError) := λ l,
  match m (el_state l) with
  | (Ok a, s) => (Ok (inl a), set_el_state s l)
  | (Err e, s) => (Ok (inr e), set_el_state s l)
  | (Panic, s) => (Panic, set_el_state s l)
  end.
Definition in_state_total {A} (m : M (MqttState B) StateError A) : EL A := λ l,
  match m (el_state l) with
  | (Ok a, s) => (Ok a, set_el_state s l)
  | (_, s) => (Panic, set_el_state s l)
  end.

Definition settle (l : list (TrackedNoticeTx * NoticeOutcome)) : EL unit :=
  mmodify (λ el, set_world (add_settled l (world el)) el).

(** ** [Network] *)

(** [self.network.as_mut().expect(..)]. *)
Definition the_network : EL Network :=
  l ← mget;
  lift (expect (network l)).

Definition with_wire (n : Network) (wire : Bytes) : Network :=
  {| net_codec := net_codec n; net_wire := wire; net_write_deadline := net_write_deadline n |}.

Definition with_write_deadline (n : Network) (deadline : option Instant) : Network :=
  {| net_codec := net_codec n; net_wire := net_wire n; net_write_deadline := deadline |}.

(** [Network::read_frame] is awaited. *)
Definition read_frame : EL IncomingFrame :=
  the_network;;
  a ← ask;
  match a_frame a with Some frame => mret frame | None => dropped end.

(** [read_frame().now_or_never()]. *)
Definition try_read_frame : EL (option IncomingFrame) :=
  the_network;;
  a ← ask;
  mret (a_frame a).

Definition Network_read : EL (Packet + StateError) :=
  frame ← read_frame;
  match frame with
  | Some (inl packet) => mret (inl packet)
  | Some (inr (InsufficientBytes _)) => mpanic
  | Some (inr e) => mret (inr (Deserialization e))
  | None => mret (inr ConnectionAborted)
  end.

(** [Framed::feed]: the packet is encoded once the sink is ready. *)
Definition start_send (packet : Packet) : EL (unit + StateError) :=
  n ← the_network;
  match Codec_encode (net_codec n) packet (net_wire n) with
  | (Ok _, wire) => mmodify (set_network (Some (with_wire n wire)));; mret (inl tt)
  | (Err e, wire) => mmodify (set_network (Some (with_wire n wire)));; mret (inr (Deserialization e))
  | (Panic, _) => mpanic
  end.

(** [await_write] around a transport operation and what follows it. *)
Definition await_write (k : EL (unit + StateError)) : EL (unit + StateError) :=
  n ← the_network;
  a ← ask;
  match a_io a, net_write_deadline n with
  | IO_Ok, _ => k
  | IO_Err, _ => mret (inr (Deserialization Io))
  | IO_Timeout, Some _ => mret (inr SE_Io)
  | IO_Timeout, None | IO_Pending, _ => dropped
  end.

Definition Network_write (packet : Packet) : EL (unit + StateError) :=
  await_write (start_send packet).

Definition Network_flush : EL (unit + StateError) := await_write (mret (inl tt)).

Definition write_request (packet : Packet) : EL (unit + StateError) :=
  the_network;;
  a ← ask;
  match a_io a with
  | IO_Ok => start_send packet
  | IO_Err => mret (inr (Deserialization Io))
  | IO_Timeout | IO_Pending => dropped
  end.

(** [time::timeout(.., flush_request())]: [None] when the time is over. *)
Definition flush_request_timeout : EL (option (unit + StateError)) :=
  the_network;;
  a ← ask;
  match a_io a with
  | IO_Ok => mret (Some (inl tt))
  | IO_Err => mret (Some (inr (Deserialization Io)))
  | IO_Timeout => mret None
  | IO_Pending => dropped
  end.

(** [?] on the result of a [Network] operation. *)
Definition state_try {A} (m : EL (A + StateError)) : EL A :=
  r ← m;
  match r with inl a => mret a | inr e => fail_with (CE_MqttState e) end.

(** ** [readb_from] *)

(** The loop, with [remaining] packets to the limit of the batch. *)
Fixpoint readb_loop (remaining : nat) (res : IncomingFrame) (outcome : ReadBatchOutcome)
    (notices : list DeferredNotice) : EL (ReadBatch + ReadBatchError) :=
  let failed source outcome notices :=
    mret (inr {| rbe_source := source;
                 rbe_batch := {| rb_outcome := outcome; rb_notices := notices |} |}) in
  let done outcome notices :=
    mret (inl {| rb_outcome := outcome; rb_notices := notices |}) in
  match remaining with
  | O => done outcome notices
  | S remaining =>
      match res with
      | Some (inl packet) =>
          at_ ← now;
          handled ← in_state_try (handle_incoming_packet_with_effects at_ packet);
          match handled with
          | inr err => failed err outcome notices
          | inl effects =>
              let has_deferred_notices := negb (no_entries (eff_notices effects)) in
              let notices := notices ++ eff_notices effects in
              written ← match eff_outgoing effects with
                        | Some outgoing => Network_write outgoing
                        | None => mret (inl tt)
                        end;
              match written with
              | inr err => failed err outcome notices
              | inl _ =>
                  let outcome := if is_some (eff_outgoing effects) then ResponseWritten
                                 else outcome in
                  if has_deferred_notices then done outcome notices
                  else
                    match remaining with
                    | O => done outcome notices
                    | S _ =>
                        next ← try_read_frame;
                        match next with
                        | Some res => readb_loop remaining res outcome notices
                        | None => done outcome notices
                        end
                    end
              end
          end
      | Some (inr (InsufficientBytes _)) => mpanic
      | Some (inr e) => failed (Deserialization e) outcome notices
          | None => failed ConnectionAborted outcome notices
      end
  end.

Definition readb_from (res : IncomingFrame) (read_batch_limit : usize)
  : EL (ReadBatch + ReadBatchError) :=
  readb_loop (Z.to_nat (Z.max read_batch_limit 1)) res NoResponseWritten [].
End Framed.
