(* ===== verification/V4LoopSession.v ===== *)
(** [rumqttc-v4/src/eventloop.rs]: the sessions of the event loop: the queues it keeps across
    connections, the session store and establishing a connection. *)

From S2P Require Import Prelude.
From S2P Require Import CodecBase.
From S2P Require Import V4Base.
From S2P Require Import V4Acks.
From S2P Require Import V4Publish.
From S2P Require Import V4Subscribe.
From S2P Require Import V4Connect.
From S2P Require Import V4Packet.
From S2P Require Import Scheduler.
From S2P Require Import FixedBitSet.
From S2P Require Import SessionIO.
From S2P Require Import V4SessionFormat.
From S2P Require Import V4SessionTypes.
From S2P Require Import PacketIds.
From S2P Require Import V4State.
From S2P Require Import V4Clean.
From S2P Require Import V4Persist.
From S2P Require Import V4LoopTypes.
#[local] Open Scope Z_scope.

Definition should_replay_after_reconnect (request : Request) : bool :=
  match request with R_PubAck _ | R_PubRec _ => false | _ => true end.

Definition is_disconnect_request (request : Request) : bool :=
  match request with
  | R_Disconnect | R_DisconnectWithTimeout _ | R_DisconnectNow => true
  | _ => false
  end.

Definition chan_is_empty (c : Channel) : bool := no_entries (chan_items c).
Definition chan_len (c : Channel) : usize := blen (chan_items c).
Definition chan_drain (c : Channel) : list RequestEnvelope * Channel :=
  (chan_items c, {| chan_items := []; chan_disconnected := chan_disconnected c |}).

(** [try_recv]. *)
Definition chan_try_recv (c : Channel) : option (RequestEnvelope * Channel) :=
  match chan_items c with
  | [] => None
  | e :: items => Some (e, {| chan_items := items; chan_disconnected := chan_disconnected c |})
  end.

(** The envelopes that outlive a connection. *)
Definition replayable_envelopes (envelopes : list RequestEnvelope) : list RequestEnvelope :=
  filter (λ e, should_replay_after_reconnect (env_request e) = true) envelopes.

Section Loop.
  Context {B : Type} `{FixedBitSet B} (env : Env).

Abbreviation EL := (M (EventLoop B) Stop).
Implicit Types (l : EventLoop B).

Definition EventLoop_new (at_ : Instant) (options : MqttOptions) (timeout : Z) (w : World)
  : EventLoop B :=
  let empty := {| chan_items := []; chan_disconnected := false |} in
  {| el_options := options;
     el_state := new_internal at_ (opt_inflight options) (opt_ack_mode options);
     requests_rx := empty; control_requests_rx := empty; immediate_disconnect_rx := empty;
     pending := []; queued := scheduler_default; network := None;
     next_poll_source := PollSource_default; pending_connection_error := None;
     keepalive_timeout := None; keepalive_scan_deadline := None; el_client_id := None;
     session_store_key := None; store_loaded := false; store_clear_pending := false;
     connack_session := None; connection_timeout := timeout; pending_disconnect := None;
     disconnect_complete := false; world := w |}.

(** ** Queues *)

Definition extend_pending (envelopes : list RequestEnvelope) : EL unit :=
  mmodify (λ l, set_pending (pending l ++ envelopes) l).

Definition drain_queued : EL (list RequestEnvelope) :=
  l ← mget;
  let '(envelopes, q) := drain (queued l) in
  mmodify (set_queued q);;
  mret envelopes.

Definition drain_requests_rx : EL (list RequestEnvelope) :=
  l ← mget;
  let '(envelopes, c) := chan_drain (requests_rx l) in
  mmodify (set_requests_rx c);;
  mret envelopes.

Definition drain_control_requests_rx : EL (list RequestEnvelope) :=
  l ← mget;
  let '(envelopes, c) := chan_drain (control_requests_rx l) in
  mmodify (set_control_requests_rx c);;
  mret envelopes.

(** The connection and what belongs to it are gone. *)
Definition forget_connection : EL unit :=
  mmodify (set_network None);;
  mmodify (set_connack_session None);;
  mmodify (set_keepalive_timeout None);;
  mmodify (set_keepalive_scan_deadline None).

Definition clean_request_envelope (clean : CleanRequest) : RequestEnvelope :=
  from_parts_with_replay (cr_request clean) (cr_notice clean) (cr_replay clean).

Definition EventLoop_clean : EL unit :=
  forget_connection;;
  mmodify (set_pending_disconnect None);;
  cleaned ← in_state_total clean_with_notices_for_reconnect;
  extend_pending (clean_request_envelope <$> cleaned);;
  envelopes ← drain_queued;
  extend_pending (replayable_envelopes envelopes);;
  envelopes ← drain_requests_rx;
  extend_pending (replayable_envelopes envelopes);;
  envelopes ← drain_control_requests_rx;
  extend_pending (replayable_envelopes envelopes).

Definition discard_pending_manual_acknowledgements : EL unit :=
  mmodify (λ l, set_pending (replayable_envelopes (pending l)) l);;
  envelopes ← drain_queued;
  mmodify (λ l, set_queued (foldl push_back (queued l) (replayable_envelopes envelopes)) l);;
  envelopes ← drain_requests_rx;
  extend_pending (replayable_envelopes envelopes);;
  envelopes ← drain_control_requests_rx;
  extend_pending (replayable_envelopes envelopes).

Definition pending_len l : usize := blen (pending l) + Z.of_nat (len (queued l)).

Definition pending_is_empty l : bool := no_entries (pending l) && is_empty (queued l).

Definition all_request_sources_drained l : bool :=
  is_empty (queued l)
  && no_entries (pending l)
  && is_none (pending_disconnect l)
  && chan_disconnected (requests_rx l)
  && chan_is_empty (requests_rx l)
  && chan_disconnected (control_requests_rx l)
  && chan_is_empty (control_requests_rx l)
  && outbound_requests_drained (el_state l).

Definition failed_notices (envelopes : list RequestEnvelope)
  : list (TrackedNoticeTx * NoticeOutcome) :=
  (λ notice, (notice, N_Error NE_SessionReset)) <$> omap env_notice envelopes.

Definition drain_pending_as_failed : EL usize :=
  l ← mget;
  mmodify (set_pending []);;
  settle (failed_notices (pending l));;
  envelopes ← drain_queued;
  settle (failed_notices envelopes);;
  mret (blen (pending l) + blen envelopes).

Definition drop_unprocessed_requests : EL unit :=
  mmodify (set_pending []);;
  mmodify (λ l, set_queued (clear (queued l)) l);;
  drain_requests_rx;;
  drain_control_requests_rx;;
  mret tt.

(** ** Resets *)

Definition reset_session_state_internal (store_reset : SessionStoreResetAction) : EL unit :=
  drain_pending_as_failed;;
  at_ ← now env;
  failed ← in_state_total (reset_session_state at_);
  settle ((λ notice, (notice, N_Error NE_SessionReset)) <$> failed);;
  mmodify (set_connack_session None);;
  mmodify (set_el_client_id None);;
  mmodify (set_session_store_key None);;
  mmodify (set_store_loaded false);;
  match store_reset with
  | Clear => mmodify (set_store_clear_pending true)
  | Keep => mret tt
  end.

Definition EventLoop_reset_session_state : EL unit := reset_session_state_internal Clear.

Definition reset_session_state_without_store_invalidation : EL unit :=
  reset_session_state_internal Keep.

Definition reset_session_state_if_client_id_changed : EL unit :=
  l ← mget;
  let current_key := options_store_key (el_options l) in
  if bool_decide (session_store_key l = Some current_key) then mret tt
  else
    (if is_some (session_store_key l) then reset_session_state_without_store_invalidation
     else mret tt);;
    mmodify (set_el_client_id None);;
    mmodify (set_session_store_key None);;
    mmodify (set_store_loaded false).

(** ** The store *)

Definition store_load (key : SessionStoreKey) : EL (option PersistedSession) :=
  a ← ask env;
  match a_store a with
  | SA_Ok => l ← mget; mret (stored (world l) !! key)
  | SA_Err _ => fail_with CE_SessionStore
  | SA_Pending _ => dropped
  end.

(** An update of the store, which may take effect although it is not reported. *)
Definition store_update (f : gmap SessionStoreKey PersistedSession →
                             gmap SessionStoreKey PersistedSession) : EL unit :=
  a ← ask env;
  let commit := mmodify (λ l, set_world (set_stored (f (stored (world l))) (world l)) l) in
  match a_store a with
  | SA_Ok => commit
  | SA_Err committed =>
      (if committed then commit else mret tt);; fail_with CE_SessionStore
  | SA_Pending committed => (if committed then commit else mret tt);; dropped
  end.

Definition store_save (key : SessionStoreKey) (session : PersistedSession) : EL unit :=
  store_update <[key := session]>.

Definition store_clear (key : SessionStoreKey) : EL unit := store_update (delete key).

Definition clear_persisted_session : EL unit :=
  l ← mget;
  if negb (opt_session_store (el_options l)) then
    mmodify (set_store_loaded true);;
    mmodify (set_store_clear_pending false)
  else
    store_clear (options_store_key (el_options l));;
    mmodify (set_store_loaded true);;
    mmodify (set_store_clear_pending false).

Definition clear_persisted_session_or_block_reload : EL unit :=
  mmodify (set_store_clear_pending true);;
  clear_persisted_session.

(** [?] on the result of restoring. *)
Definition in_restore {A} (m : M (MqttState B) SessionRestoreError A) : EL A := λ l,
  match m (el_state l) with
  | (Ok a, s) => (Ok a, set_el_state s l)
  | (Err e, s) => (Err (Failed (CE_SessionRestore e)), set_el_state s l)
  | (Panic, s) => (Panic, set_el_state s l)
  end.

Definition load_persisted_session_if_needed : EL unit :=
  l ← mget;
  if store_clear_pending l then clear_persisted_session
  else if store_loaded l || opt_clean_session (el_options l)
  then mmodify (set_store_loaded true)
  else if negb (opt_session_store (el_options l)) then
    mmodify (set_store_loaded true);;
    mmodify (set_store_clear_pending false)
  else
    let key := options_store_key (el_options l) in
    found ← store_load key;
    match found with
    | None => mmodify (set_store_loaded true)
    | Some session =>
        at_ ← now env;
        replay ← in_restore (restore_persisted_session at_ (el_options l) session);
        extend_pending (envelope_plain_replay <$> replay);;
        mmodify (set_el_client_id (Some key.2));;
        mmodify (set_session_store_key (Some key));;
        mmodify (set_store_loaded true)
    end.

(** The requests of the queues that a checkpoint includes. *)
Definition replay_envelopes (envelopes : list RequestEnvelope) : list RequestEnvelope :=
  filter (λ e, env_replay e = true) envelopes.

Definition queued_replays l : list RequestEnvelope :=
  replay_envelopes (pending l) ++ replay_envelopes (queue (queued l)).

Definition persisted_session_save
  : EL (option (SessionStoreKey * PersistedSession)) :=
  l ← mget;
  if opt_clean_session (el_options l) then mret None
  else if negb (opt_session_store (el_options l)) then mret None
  else
    match persisted_session (el_state l) (el_options l) (env_request <$> queued_replays l) with
    | Ok session => mret (Some (options_store_key (el_options l), session))
    | _ => mpanic
    end.

Definition save_persisted_session : EL unit :=
  save ← persisted_session_save;
  match save with
  | None => mret tt
  | Some (key, session) =>
      store_save key session;;
      mmodify (set_store_loaded true);;
      mmodify (set_store_clear_pending false)
  end.

(** ** Establishing a connection *)

Definition reconcile_connack_session (session_present : bool) : EL SessionReconciliation :=
  l ← mget;
  let clean_session := opt_clean_session (el_options l) in
  let mismatch := clean_session && session_present in
  diagnostic ← (if mismatch then
                  match opt_session_present_mismatch (el_options l) with
                  | SPM_Error => fail_with (CE_SessionStateMismatch clean_session session_present)
                  | SPM_AcceptAsClean => mret (Some SessionPresentMismatchAcceptedAsClean)
                  end
                else mret None);
  let reconciliation :=
    {| disposition := if clean_session || negb session_present then Fresh else Resumed;
       reconciliation_diagnostic := diagnostic |} in
  (if is_fresh reconciliation then reset_session_state_without_store_invalidation
   else mret tt);;
  mret reconciliation.

(** A transport operation before the connection is established, under the connection timeout. *)
Definition connecting {A} (e : ConnectionError) (k : EL A) : EL A :=
  a ← ask env;
  match a_io a with
  | IO_Ok => k
  | IO_Err => fail_with e
  | IO_Timeout => fail_with CE_NetworkTimeout
  | IO_Pending => dropped
  end.

Definition network_connect (options : MqttOptions) : EL Network :=
  connecting CE_Transport
    (mret (Network_new (opt_max_incoming_packet_size options)
                       (opt_max_outgoing_packet_size options))).

Definition connect_packet (options : MqttOptions) : Connect :=
  let secs := opt_keep_alive options / 1000000000 in
  {| keep_alive := if secs <=? u16_MAX then secs else u16_MAX;
     client_id := opt_client_id options;
     clean_session := opt_clean_session options;
     last_will := opt_last_will options;
     auth := opt_auth options |}.

Definition mqtt_connect (options : MqttOptions) (n : Network) : EL (Network * ConnAck) :=
  let broken := CE_MqttState (Deserialization Io) in
  n ← connecting broken
        (match Codec_encode (net_codec n) (P_Connect (connect_packet options)) (net_wire n) with
         | (Ok _, wire) => mret (with_wire n wire)
         | (Err e, _) => fail_with (CE_MqttState (Deserialization e))
         | (Panic, _) => mpanic
         end);
  connecting broken (mret tt);;
  a ← ask env;
  match a_frame a with
  | None => match a_io a with IO_Timeout => fail_with CE_NetworkTimeout | _ => dropped end
  | Some (Some (inl (P_ConnAck connack))) =>
      match code connack with
      | CRC_Success => mret (n, connack)
      | code => fail_with (CE_ConnectionRefused code)
      end
  | Some (Some (inl packet)) => fail_with (CE_NotConnAck packet)
  | Some (Some (inr (InsufficientBytes _))) => mpanic
  | Some (Some (inr e)) => fail_with (CE_MqttState (Deserialization e))
  | Some None => fail_with (CE_MqttState ConnectionAborted)
  end.

Definition establish_connection : EL Event :=
  reset_session_state_if_client_id_changed;;
  load_persisted_session_if_needed;;
  l ← mget;
  n ← network_connect (el_options l);
  '(n, connack) ← mqtt_connect (el_options l) n;
  reconciliation ← reconcile_connack_session (session_present connack);
  (if is_fresh reconciliation then clear_persisted_session_or_block_reload else mret tt);;
  l ← mget;
  mmodify (set_el_client_id (Some (opt_client_id (el_options l))));;
  mmodify (set_session_store_key (Some (options_store_key (el_options l))));;
  mmodify (set_network (Some n));;
  mmodify (set_connack_session
    (Some (reconciliation_diagnostics reconciliation (session_present connack))));;
  at_ ← now env;
  mmodify (λ l,
    if is_none (keepalive_timeout l) && negb (opt_keep_alive (el_options l) =? 0)
    then set_keepalive_timeout (Some (sleep_deadline at_ (opt_keep_alive (el_options l)))) l
    else l);;
  mret (Ev_Incoming (P_ConnAck connack)).
End Loop.
