(* ===== verification/V4EventLoop.v ===== *)
(** [rumqttc-v4/src/eventloop.rs]: polling: requests, network reads, keepalive and disconnects. *)

From S2P Require Import Prelude.
From S2P Require Import Primitives.
From S2P Require Import CodecBase.
From S2P Require Import V4Base.
From S2P Require Import V4Acks.
From S2P Require Import V4Publish.
From S2P Require Import V4Subscribe.
From S2P Require Import V4Connect.
From S2P Require Import V4Packet.
From S2P Require Import Scheduler.
From S2P Require Import FixedBitSet.
From S2P Require Import SessionIO.
From S2P Require Import V4SessionFormat.
From S2P Require Import V4SessionTypes.
From S2P Require Import PacketIds.
From S2P Require Import V4State.
From S2P Require Import V4Clean.
From S2P Require Import V4Persist.
From S2P Require Import V4LoopTypes.
From S2P Require Import V4LoopSession.
#[local] Open Scope Z_scope.

Section Poll.
  Context {B : Type} `{FixedBitSet B} (env : Env).

Abbreviation EL := (M (EventLoop B) Stop).
Implicit Types (l : EventLoop B) (s : MqttState B).

(** ** Classification *)

Definition ready_if (b : bool) : RequestReadiness := if b then Ready else Blocked.

Definition classify_publish_or_control_request (request : Request)
    (can_send_publish : Publish → bool) (can_send_control : bool) : ScheduledRequest :=
  match request with
  | R_Publish publish =>
      if decide (pub_qos publish = AtMostOnce)
      then {| class := PublishClass; readiness := Ready |}
      else {| class := FlowControlledPublish; readiness := ready_if (can_send_publish publish) |}
  | R_Subscribe _ | R_Unsubscribe _ =>
      {| class := Control; readiness := ready_if can_send_control |}
  | _ => {| class := Control; readiness := Ready |}
  end.

Definition classify_request s (request : Request) : ScheduledRequest :=
  classify_publish_or_control_request request (can_send_publish s)
    (control_packet_identifier_available s).

Definition classify_replay_request s (request : Request) : ScheduledRequest :=
  match request with
  | R_PubRel pubrel =>
      {| class := Control; readiness := ready_if (can_send_pubrel s (pubrel_pkid pubrel)) |}
  | _ =>
      classify_publish_or_control_request request (can_send_replayed_publish s)
        (match request with
         | R_Subscribe subscribe => can_send_replayed_control_packet s (subscribe_pkid subscribe)
         | R_Unsubscribe unsubscribe =>
             can_send_replayed_control_packet s (unsubscribe_pkid unsubscribe)
         | _ => true
         end)
  end.

Definition classify_envelope s (envelope : RequestEnvelope) : ScheduledRequest :=
  if env_replay envelope then classify_replay_request s (env_request envelope)
  else classify_request s (env_request envelope).

(** ** Events and timers *)

Definition pop_event : EL (option Event) :=
  l ← mget;
  match events (el_state l) with
  | [] => mret None
  | e :: rest => mmodify (set_el_state (set_events rest (el_state l)));; mret (Some e)
  end.

(** [pop_front().expect(..)]. *)
Definition expect_event : EL Event :=
  e ← pop_event;
  lift (expect e).

Definition await_pingresp l : bool := PingState_await_pingresp (ping (el_state l)).

Definition response_write_deadline : EL Instant :=
  l ← mget;
  at_ ← now env;
  mret (sleep_deadline at_ (connection_timeout l)).

Definition reset_keepalive_timeout : EL unit :=
  l ← mget;
  if opt_keep_alive (el_options l) =? 0 then mmodify (set_keepalive_scan_deadline None)
  else if await_pingresp l && is_some (keepalive_scan_deadline l) then mret tt
  else
    mmodify (set_keepalive_scan_deadline None);;
    if is_some (keepalive_timeout l) then
      at_ ← now env;
      deadline ← lift (instant_add at_ (opt_keep_alive (el_options l)));
      mmodify (set_keepalive_timeout (Some deadline))
    else mret tt.

Definition MAX_READ_BATCH_SIZE : usize := 128.
Definition PENDING_FAIRNESS_CAP : usize := 16.
Definition clamp (x lo hi : Z) : Z := if x <? lo then lo else if hi <? x then hi else x.

Definition effective_read_batch_size l : usize :=
  let configured := opt_read_batch_size (el_options l) in
  if 0 <? configured then clamp configured 1 MAX_READ_BATCH_SIZE
  else
    let request_batch := Z.max (opt_max_request_batch (el_options l)) 1 in
    let inflight := opt_inflight (el_options l) in
    let adaptive := Z.max (Z.max request_batch (inflight / 2)) 8 in
    let adaptive :=
      if negb (no_entries (pending l)) || negb (is_empty (queued l))
         || negb (chan_is_empty (requests_rx l)) || negb (chan_is_empty (control_requests_rx l))
      then Z.min adaptive PENDING_FAIRNESS_CAP else adaptive in
    clamp adaptive 1 MAX_READ_BATCH_SIZE.

(** ** Requests *)

Definition next_scheduled_request : EL (option RequestEnvelope) :=
  l ← mget;
  let '(envelope, q) := pop_next (queued l) (classify_envelope (el_state l)) in
  mmodify (set_queued q);;
  mret envelope.

Definition normal_request_admission_allowed l : bool :=
  is_empty (queued l) || has_ready (queued l) (classify_envelope (el_state l)).

Definition push_queued (envelope : RequestEnvelope) : EL unit :=
  mmodify (λ l, set_queued (push_back (queued l) envelope) l).

Definition try_recv_requests : EL (option RequestEnvelope) :=
  l ← mget;
  match chan_try_recv (requests_rx l) with
  | Some (envelope, c) => mmodify (set_requests_rx c);; mret (Some envelope)
  | None => mret None
  end.

Definition try_recv_control : EL (option RequestEnvelope) :=
  l ← mget;
  match chan_try_recv (control_requests_rx l) with
  | Some (envelope, c) => mmodify (set_control_requests_rx c);; mret (Some envelope)
  | None => mret None
  end.

Definition try_recv_immediate : EL (option RequestEnvelope) :=
  l ← mget;
  match chan_try_recv (immediate_disconnect_rx l) with
  | Some (envelope, c) => mmodify (set_immediate_disconnect_rx c);; mret (Some envelope)
  | None => mret None
  end.

(** [pending.pop_front()]. *)
Definition pop_pending : EL (option RequestEnvelope) :=
  l ← mget;
  match pending l with
  | [] => mret None
  | e :: rest => mmodify (set_pending rest);; mret (Some e)
  end.

Definition try_next_request : EL (option RequestEnvelope) :=
  l ← mget;
  if negb (no_entries (pending l)) then
    a ← ask env;
    if a_throttle a then pop_pending else dropped
  else try_recv_requests.

Fixpoint try_admit_loop (ready : nat) : EL unit :=
  match ready with
  | O => mret tt
  | S ready =>
      l ← mget;
      if negb (normal_request_admission_allowed l) && no_entries (pending l) then mret tt
      else
        next ← try_next_request;
        match next with
        | None => mret tt
        | Some envelope =>
            push_queued envelope;;
            if is_disconnect_request (env_request envelope) then mret tt
            else try_admit_loop ready
        end
  end.

Definition try_admit_existing_normal_requests : EL unit :=
  l ← mget;
  try_admit_loop (Z.to_nat (blen (pending l) + chan_len (requests_rx l))).

Fixpoint admit_loop (n : nat) : EL unit :=
  match n with
  | O => mret tt
  | S n =>
      next ← try_next_request;
      match next with
      | None => mret tt
      | Some envelope =>
          push_queued envelope;;
          if is_disconnect_request (env_request envelope) then mret tt else admit_loop n
      end
  end.

(** The rounds of [for _ in 1..max_request_batch.max(1)]. *)
Definition batch_rounds l : nat := Z.to_nat (Z.max (opt_max_request_batch (el_options l)) 1 - 1).

Definition admit_normal_request_batch (first : RequestEnvelope) : EL unit :=
  push_queued first;;
  l ← mget;
  if is_disconnect_request (env_request first)
     || (negb (normal_request_admission_allowed l) && no_entries (pending l))
  then mret tt
  else admit_loop (batch_rounds l).

Definition fail_publish_notices (notices : list NoticeTx) (e : NoticeError) : EL unit :=
  settle ((λ notice, (TN_Publish notice, N_Error e)) <$> notices).

Definition persist_session_or_fail_qos0_notices (qos0_notices : list NoticeTx)
    (flush_notice : option NoticeTx) : EL (list NoticeTx) :=
  saved ← try_ (save_persisted_session env);
  match saved with
  | inr err =>
      fail_publish_notices qos0_notices NE_SessionPersistence;;
      fail_publish_notices (option_list flush_notice) NE_SessionPersistence;;
      fail_with err
  | inl _ => mret (qos0_notices ++ option_list flush_notice)
  end.

(** What the session state made of a request is written. *)
Definition write_outgoing (outgoing : option Packet) (should_flush : bool)
    (qos0_notices : list NoticeTx) : EL (BatchControl * bool * list NoticeTx) :=
  match outgoing with
  | Some outgoing =>
      written ← write_request env outgoing;
      match written with
      | inr err =>
          fail_publish_notices qos0_notices NE_Qos0NotFlushed;;
          fail_with (CE_MqttState err)
      | inl _ => mret (Continue, true, qos0_notices)
      end
  | None => mret (Continue, should_flush, qos0_notices)
  end.

(** The arm of [handle_request] for requests that are no disconnects. *)
Definition send_request (envelope : RequestEnvelope) (should_flush : bool)
    (qos0_notices : list NoticeTx) : EL (BatchControl * bool * list NoticeTx) :=
  at_ ← now env;
  '(outgoing, flush_notice) ←
    (if env_replay envelope
     then in_state (handle_replayed_outgoing_packet_with_notice at_ (env_request envelope)
                      (env_notice envelope))
     else in_state (handle_outgoing_packet_with_notice at_ (env_request envelope)
                      (env_notice envelope)));
  qos0_notices ← persist_session_or_fail_qos0_notices qos0_notices flush_notice;
  write_outgoing outgoing should_flush qos0_notices.

(** The batch goes on or stops; whether to flush; the notices of QoS 0 publishes to settle. *)
Definition handle_request (envelope : RequestEnvelope) (should_flush : bool)
    (qos0_notices : list NoticeTx) : EL (BatchControl * bool * list NoticeTx) :=
  match env_request envelope with
  | R_Disconnect =>
      at_ ← now env;
      disconnect ← lift (PendingDisconnect_new at_ None);
      mmodify (set_pending_disconnect (Some disconnect));;
      mret (StopBatch, should_flush, qos0_notices)
  | R_DisconnectWithTimeout timeout =>
      at_ ← now env;
      disconnect ← lift (PendingDisconnect_new at_ (Some timeout));
      mmodify (set_pending_disconnect (Some disconnect));;
      mret (StopBatch, should_flush, qos0_notices)
  | R_DisconnectNow =>
      at_ ← now env;
      '(outgoing, _) ← in_state (handle_outgoing_packet_with_notice at_ (env_request envelope)
                                   (env_notice envelope));
      save_persisted_session env;;
      should_flush ← match outgoing with
                     | Some outgoing => state_try (write_request env outgoing);; mret true
                     | None => mret should_flush
                     end;
      mmodify (set_disconnect_complete true);;
      mret (StopBatch, should_flush, qos0_notices)
  | _ => send_request envelope should_flush qos0_notices
  end.

Definition flush_network : EL unit :=
  flushed ← flush_request_timeout env;
  match flushed with
  | None => fail_with CE_FlushTimeout
  | Some (inr e) => fail_with (CE_MqttState e)
  | Some (inl _) => mret tt
  end.

Definition flush_request_batch (should_flush : bool) (qos0_notices : list NoticeTx) : EL unit :=
  if negb should_flush then mret tt
  else
    flushed ← try_ flush_network;
    match flushed with
    | inl _ =>
        settle ((λ notice, (TN_Publish notice, N_Publish Qos0Flushed)) <$> qos0_notices);;
        reset_keepalive_timeout
    | inr err =>
        fail_publish_notices qos0_notices NE_Qos0NotFlushed;;
        fail_with err
    end.

(** The rest of a batch of ready requests. *)
Fixpoint ready_loop (n : nat) (should_flush : bool) (qos0_notices : list NoticeTx)
  : EL (bool * list NoticeTx) :=
  match n with
  | O => mret (should_flush, qos0_notices)
  | S n =>
      next ← next_scheduled_request;
      match next with
      | None => mret (should_flush, qos0_notices)
      | Some envelope =>
          '(control, should_flush, qos0_notices) ←
            handle_request envelope should_flush qos0_notices;
          match control with
          | Continue => ready_loop n should_flush qos0_notices
          | StopBatch => mret (should_flush, qos0_notices)
          end
      end
  end.

Definition handle_ready_requests : EL bool :=
  next ← next_scheduled_request;
  match next with
  | None => mret false
  | Some envelope =>
      '(control, should_flush, qos0_notices) ← handle_request envelope false [];
      l ← mget;
      '(should_flush, qos0_notices) ←
        match control with
        | Continue => ready_loop (batch_rounds l) should_flush qos0_notices
        | StopBatch => mret (should_flush, qos0_notices)
        end;
      flush_request_batch should_flush qos0_notices;;
      mret true
  end.

Definition handle_immediate_disconnect (envelope : RequestEnvelope) : EL Event :=
  '(_, should_flush, qos0_notices) ← handle_request envelope false [];
  flush_request_batch should_flush qos0_notices;;
  expect_event.

(** ** Network reads *)

Definition complete_read_batch (batch : ReadBatch) : EL ReadBatchOutcome :=
  saved ← try_ (save_persisted_session env);
  match saved with
  | inr err =>
      settle (notice_persistence_error <$> rb_notices batch);;
      fail_with err
  | inl _ =>
      n ← the_network;
      a ← ask env;
      flush_result ←
        match a_io a, net_write_deadline n with
        | IO_Ok, _ => mret (inl tt)
        | IO_Err, _ => mret (inr (CE_MqttState (Deserialization Io)))
        | IO_Timeout, Some _ =>
            mret (inr (if Nat.even (a_pick a) then CE_MqttState SE_Io else CE_FlushTimeout))
        | IO_Timeout, None => mret (inr CE_FlushTimeout)
        | IO_Pending, _ => dropped
        end;
      settle (notice_complete <$> rb_notices batch);;
      match flush_result with
      | inl _ => mret (rb_outcome batch)
      | inr err => fail_with err
      end
  end.

Definition complete_failed_read_batch (error : ReadBatchError) : EL ConnectionError :=
  let notices := rb_notices (rbe_batch error) in
  if no_entries notices then mret (CE_MqttState (rbe_source error))
  else
    saved ← try_ (save_persisted_session env);
    match saved with
    | inr err =>
        settle (notice_persistence_error <$> notices);;
        mret err
    | inl _ =>
        settle (notice_complete <$> notices);;
        mret (CE_MqttState (rbe_source error))
    end.

Definition complete_network_read (batch : ReadBatch + ReadBatchError) : EL unit :=
  match batch with
  | inr err => e ← complete_failed_read_batch err; fail_with e
  | inl batch =>
      outcome ← complete_read_batch batch;
      match outcome with
      | ResponseWritten => reset_keepalive_timeout
      | NoResponseWritten => mret tt
      end
  end.

Definition close_timed_out_transport : EL unit :=
  mmodify (set_network None);;
  mmodify (set_keepalive_timeout None);;
  mmodify (set_keepalive_scan_deadline None);;
  mmodify (set_connack_session None).

Definition is_timed_out (e : StateError) : bool := match e with SE_Io => true | _ => false end.

Definition response_timed_out (e : ConnectionError) : bool :=
  match e with CE_MqttState e => is_timed_out e | _ => false end.

(** [ResponseWriteDeadlineGuard] around a batch: the former deadline is put back however it ends. *)
Definition replace_write_deadline (deadline : option Instant) l : EventLoop B :=
  match network l with
  | Some n => set_network (Some (with_write_deadline n deadline)) l
  | None => l
  end.

Definition then_always {A} (m : EL A) (f : EventLoop B → EventLoop B) : EL A := λ l,
  let '(r, l) := m l in (r, f l).

Definition with_response_deadline {A} (deadline : Instant) (m : EL A) : EL A :=
  n ← the_network;
  mmodify (replace_write_deadline (Some deadline));;
  then_always m (replace_write_deadline (net_write_deadline n)).

Definition read_network_batch (first : IncomingFrame) (read_batch_size : usize)
    (deadline : Instant) : EL unit :=
  l ← mget;
  let deadline := match keepalive_scan_deadline l with
                  | Some scan_deadline => Z.min scan_deadline deadline
                  | None => deadline
                  end in
  with_response_deadline deadline (
    batch ← readb_from env first read_batch_size;
    (match batch with
     | inr err => if is_timed_out (rbe_source err) then close_timed_out_transport else mret tt
     | inl _ => mret tt
     end);;
    result ← try_ (complete_network_read batch);
    match result with
    | inl _ => mret tt
    | inr err =>
        (if response_timed_out err then close_timed_out_transport else mret tt);;
        fail_with err
    end).

Definition defer_connection_error (error : ConnectionError) : EL Event :=
  (if response_timed_out error
      || match error with CE_DisconnectTimeout | CE_FlushTimeout => true | _ => false end
   then close_timed_out_transport else mret tt);;
  e ← pop_event;
  match e with
  | Some event => mmodify (set_pending_connection_error (Some error));; mret event
  | None => fail_with error
  end.

Definition handle_network_read (first : IncomingFrame) : EL Event :=
  l ← mget;
  let read_batch_size := effective_read_batch_size l in
  deadline ← response_write_deadline;
  result ← try_ (read_network_batch first read_batch_size deadline);
  match result with
  | inl _ => expect_event
  | inr error => defer_connection_error error
  end.

(** ** Keepalive *)

Definition check_keepalive_scan_timeout : EL unit :=
  l ← mget;
  match keepalive_scan_deadline l with
  | None => mret tt
  | Some deadline =>
      if negb (await_pingresp l) || (opt_keep_alive (el_options l) =? 0)
      then mmodify (set_keepalive_scan_deadline None)
      else
        at_ ← now env;
        if deadline <=? at_ then fail_with (CE_MqttState AwaitPingResp) else mret tt
  end.

Definition MAX_READY_PACKETS : nat := 128.

(** [true] when the socket has nothing ready. *)
Fixpoint scan_loop (n : nat) (deadline : Instant) : EL bool :=
  match n with
  | O => mret false
  | S n =>
      frame ← try_read_frame env;
      match frame with
      | None => mret true
      | Some first =>
          read_network_batch first 1 deadline;;
          l ← mget;
          if negb (await_pingresp l) then mmodify (set_keepalive_scan_deadline None);; mret false
          else scan_loop n deadline
      end
  end.

Definition scan_keepalive_response : EL (option Event) :=
  l ← mget;
  deadline ← match keepalive_scan_deadline l with
             | Some deadline => mret deadline
             | None => response_write_deadline
             end;
  mmodify (set_keepalive_scan_deadline (Some deadline));;
  idle ← scan_loop MAX_READY_PACKETS deadline;
  if idle : bool then mret None
  else e ← expect_event; mret (Some e).

Definition handle_keepalive_ping_inner : EL Event :=
  check_keepalive_scan_timeout;;
  l ← mget;
  scanned ← (if await_pingresp l then scan_keepalive_response else mret None);
  match scanned with
  | Some event => mret event
  | None =>
      at_ ← now env;
      '(outgoing, _) ← in_state (handle_outgoing_packet_with_notice at_ R_PingReq None);
      (match outgoing with
       | Some outgoing => state_try (Network_write env outgoing)
       | None => mret tt
       end);;
      flush_network;;
      reset_keepalive_timeout;;
      expect_event
  end.

Definition handle_keepalive_ping : EL Event :=
  l ← mget;
  let awaiting_pingresp := await_pingresp l in
  result ← try_ handle_keepalive_ping_inner;
  match result with
  | inl event => mret event
  | inr error => if awaiting_pingresp then defer_connection_error error else fail_with error
  end.

(** ** Arbitration *)

(** [recv_async] polled once. *)
Inductive Received := Rcv_Item (envelope : RequestEnvelope) (c : Channel) | Rcv_Closed | Rcv_Pending.

Definition chan_poll (c : Channel) : Received :=
  match chan_try_recv c with
  | Some (envelope, c) => Rcv_Item envelope c
  | None => if chan_disconnected c then Rcv_Closed else Rcv_Pending
  end.

(** The [for] loop over the sources. *)
Fixpoint arbitrate (n : nat) (a : Answer) (requests_enabled keepalive_enabled : bool)
    (source : PollSource) : EL PollReady :=
  match n with
  | O => dropped
  | S n =>
      let found ready := mmodify (set_next_poll_source (after_ready source));; mret ready in
      let skip := arbitrate n a requests_enabled keepalive_enabled (PollSource_next source) in
      l ← mget;
      match source with
      | PS_Request _ =>
          if negb requests_enabled then skip
          else match pending l with
               | [] =>
                   match chan_poll (requests_rx l) with
                   | Rcv_Item envelope c =>
                       mmodify (set_requests_rx c);; found (PR_Request (inl envelope))
                   | Rcv_Closed => found (PR_Request (inr CE_RequestsDone))
                   | Rcv_Pending => skip
                   end
               | envelope :: rest =>
                   if a_throttle a then
                     mmodify (set_pending rest);; found (PR_Request (inl envelope))
                   else skip
               end
      | PS_Network =>
          match a_frame a with Some frame => found (PR_Network frame) | None => skip end
      | PS_KeepAlive =>
          if negb keepalive_enabled then skip
          else match keepalive_timeout l with
               | None => mpanic
               | Some deadline => if deadline <=? a_now a then found PR_KeepAlive else skip
               end
      end
  end.

(** The futures of the sources, polled when one is ready. *)
Definition wait_ready (requests_enabled : bool) : EL PollReady :=
  l ← mget;
  let immediate_enabled := negb (chan_disconnected (immediate_disconnect_rx l)) in
  let control_enabled := negb (chan_is_empty (control_requests_rx l))
                         || negb (chan_disconnected (control_requests_rx l)) in
  let keepalive_enabled := is_some (keepalive_timeout l)
                           && negb (opt_keep_alive (el_options l) =? 0) in
  the_network;;
  a ← ask env;
  l ← mget;
  let sources := arbitrate 3 a requests_enabled keepalive_enabled (next_poll_source l) in
  let control :=
    if negb control_enabled then sources
    else match chan_poll (control_requests_rx l) with
         | Rcv_Item envelope c =>
             mmodify (set_control_requests_rx c);; mret (PR_ControlReady envelope)
         | Rcv_Closed => mret PR_Closed
         | Rcv_Pending => sources
         end in
  if negb immediate_enabled then control
  else match chan_poll (immediate_disconnect_rx l) with
       | Rcv_Item envelope c =>
           mmodify (set_immediate_disconnect_rx c);; mret (PR_Immediate envelope)
       | Rcv_Closed => mret PR_Closed
       | Rcv_Pending => control
       end.

Definition is_request_source (source : PollSource) : bool :=
  match source with PS_Request _ => true | _ => false end.

Definition next_ready : EL PollReady :=
  l ← mget;
  let has_pending := negb (no_entries (pending l)) in
  let requests_enabled :=
    (normal_request_admission_allowed l || has_pending)
    && (has_pending || negb (chan_is_empty (requests_rx l))
        || negb (chan_disconnected (requests_rx l))) in
  if requests_enabled && negb has_pending && is_request_source (next_poll_source l) then
    immediate ← try_recv_immediate;
    match immediate with
    | Some envelope => mret (PR_Immediate envelope)
    | None =>
        control ← try_recv_control;
        match control with
        | Some envelope => mret (PR_ControlReady envelope)
        | None =>
            request ← try_recv_requests;
            match request with
            | Some envelope =>
                mmodify (λ l, set_next_poll_source (after_ready (next_poll_source l)) l);;
                mret (PR_Request (inl envelope))
            | None => wait_ready requests_enabled
            end
        end
    end
  else wait_ready requests_enabled.

(** ** Disconnects *)

Inductive DrainReady :=
| DR_Immediate (envelope : RequestEnvelope) (c : Channel)
| DR_Closed
| DR_Frame (frame : IncomingFrame)
| DR_Deadline.

Definition first_ready (l : list (option DrainReady)) : option DrainReady := head (omap id l).

Definition disconnect_deadline l : option Instant := pending_disconnect l ≫= pd_deadline.

(** [deadline.is_some_and(|deadline| Instant::now() >= deadline)]. *)
Definition expired (deadline : option Instant) : EL bool :=
  match deadline with
  | None => mret false
  | Some deadline => at_ ← now env; mret (deadline <=? at_)
  end.

Definition poll_disconnect_drain : EL (option Event) :=
  l ← mget;
  let read_batch_size := effective_read_batch_size l in
  the_network;;
  let deadline := disconnect_deadline l in
  let read_deadline :=
    match deadline, keepalive_scan_deadline l with
    | Some deadline, Some scan_deadline => Some (Z.min deadline scan_deadline)
    | Some deadline, None => Some deadline
    | None, scan_deadline => scan_deadline
    end in
  let immediate_enabled := negb (chan_disconnected (immediate_disconnect_rx l)) in
  a ← ask env;
  l ← mget;
  let immediate :=
    if negb immediate_enabled then None
    else match chan_poll (immediate_disconnect_rx l) with
         | Rcv_Item envelope c => Some (DR_Immediate envelope c)
         | Rcv_Closed => Some DR_Closed
         | Rcv_Pending => None
         end in
  let read := DR_Frame <$> a_frame a in
  let timer := match read_deadline with
               | Some read_deadline => if read_deadline <=? a_now a then Some DR_Deadline else None
               | None => None
               end in
  let ready := match (a_pick a mod 3)%nat with
               | 0%nat => [immediate; read; timer]
               | 1%nat => [read; timer; immediate]
               | _ => [timer; immediate; read]
               end in
  match first_ready ready with
  | None => dropped
  | Some (DR_Immediate envelope c) =>
      mmodify (set_immediate_disconnect_rx c);;
      event ← handle_immediate_disconnect envelope;
      mret (Some event)
  | Some DR_Closed => mret None
  | Some DR_Deadline =>
      late ← expired deadline;
      fail_with (if late : bool then CE_DisconnectTimeout else CE_MqttState AwaitPingResp)
  | Some (DR_Frame first) =>
      write_deadline ← response_write_deadline;
      let write_deadline := match deadline with
                            | Some deadline => Z.min deadline write_deadline
                            | None => write_deadline
                            end in
      result ← try_ (read_network_batch first read_batch_size write_deadline);
      match result with
      | inl _ => mret None
      | inr error =>
          late ← expired deadline;
          event ← defer_connection_error
            (if (late : bool) && response_timed_out error then CE_DisconnectTimeout else error);
          mret (Some event)
      end
  end.

Definition send_pending_disconnect : EL Event :=
  mmodify (set_pending_disconnect None);;
  at_ ← now env;
  '(outgoing, _) ← in_state (handle_outgoing_packet_with_notice at_ R_DisconnectNow None);
  (match outgoing with
   | Some outgoing =>
       state_try (Network_write env outgoing);;
       flush_network
   | None => mret tt
   end);;
  drop_unprocessed_requests;;
  save_persisted_session env;;
  mmodify (set_disconnect_complete true);;
  expect_event.

(** ** Polling *)

(** The loop of [select], for [turns] turns at most. *)
Fixpoint select (turns : nat) : EL Event :=
  match turns with
  | O => dropped
  | S turns =>
      event ← pop_event;
      match event with
      | Some event => mret event
      | None =>
          immediate ← try_recv_immediate;
          match immediate with
          | Some envelope => handle_immediate_disconnect envelope
          | None =>
              l ← mget;
              if all_request_sources_drained l then fail_with CE_RequestsDone
              else
                check_keepalive_scan_timeout;;
                l ← mget;
                handled ← (if is_none (pending_disconnect l) then handle_ready_requests
                           else mret false);
                if handled : bool then
                  event ← pop_event;
                  match event with
                  | Some event => mret event
                  | None => select turns
                  end
                else
                  l ← mget;
                  if is_some (pending_disconnect l) then
                    if outbound_requests_drained (el_state l) then send_pending_disconnect
                    else
                      event ← poll_disconnect_drain;
                      match event with
                      | Some event => mret event
                      | None => select turns
                      end
                  else
                    ready ← next_ready;
                    match ready with
                    | PR_Immediate envelope => handle_immediate_disconnect envelope
                    | PR_ControlReady envelope =>
                        try_admit_existing_normal_requests;;
                        push_queued envelope;;
                        select turns
                    | PR_Request (inl envelope) =>
                        admit_normal_request_batch envelope;;
                        select turns
                    | PR_Closed | PR_Request (inr _) => select turns
                    | PR_Network first => handle_network_read first
                    | PR_KeepAlive => handle_keepalive_ping
                    end
          end
      end
  end.

Definition handle_network_result (result : Event + ConnectionError) : EL Event :=
  match result with
  | inl v => mret v
  | inr CE_DisconnectTimeout =>
      forget_connection;;
      mmodify (set_pending_disconnect None);;
      drop_unprocessed_requests;;
      mmodify (set_disconnect_complete true);;
      fail_with CE_DisconnectTimeout
  | inr e =>
      EventLoop_clean;;
      save_persisted_session env;;
      fail_with e
  end.

Definition poll (turns : nat) : EL Event :=
  l ← mget;
  if disconnect_complete l then fail_with CE_RequestsDone
  else
    match pending_connection_error l with
    | Some error =>
        event ← pop_event;
        match event with
        | Some event => mret event
        | None =>
            mmodify (set_pending_connection_error None);;
            handle_network_result (inr error)
        end
    | None =>
        if is_none (network l) then
          immediate ← try_recv_immediate;
          match immediate with
          | Some _ =>
              mmodify (set_disconnect_complete true);;
              fail_with CE_RequestsDone
          | None => establish_connection env
          end
        else
          result ← try_ (select turns);
          handle_network_result result
    end.
End Poll.
