(* ===== verification/V4LoopState.v ===== *)
(** The session state as the event loop of the MQTT 3.1.1 client uses it: what each operation
    leaves alone, and the invariant [sess] of the state together with the requests that wait in
    the loop's queues to be sent again. *)

From S2P Require Import Prelude.
From S2P Require Import Utf8.
From S2P Require Import Primitives.
From S2P Require Import CodecBase.
From S2P Require Import V4Base.
From S2P Require Import V4Acks.
From S2P Require Import V4Publish.
From S2P Require Import V4Subscribe.
From S2P Require Import V4Connect.
From S2P Require Import V4Packet.
From S2P Require Import Scheduler.
From S2P Require Import FixedBitSet.
From S2P Require Import SessionIO.
From S2P Require Import V4SessionFormat.
From S2P Require Import V4SessionTypes.
From S2P Require Import PacketIds.
From S2P Require Import V4State.
From S2P Require Import V4Clean.
From S2P Require Import V4Invariant.
From S2P Require Import V4Handlers.
From S2P Require Import V4Session.
From S2P Require Import V4CleanProofs.
From S2P Require Import V4Reachable.
From S2P Require Import V4Delivery.
From S2P Require Import V4Reconnect.
From S2P Require Import V4Persist.
From S2P Require Import V4Restore.
From S2P Require Import V4Recovery.
From S2P Require Import V4LoopTypes.
From S2P Require Import V4LoopSession.
From S2P Require Import V4EventLoop.
#[local] Open Scope Z_scope.

(** Half the range of [Instant], about 146 billion years. *)
Definition CLOCK_MAX : Z := 4611686018427387904 * 1000000000 - 1.

(** What client handles send; a timeout of a disconnection is less than half the range of the clock. *)
Definition client_request (r : Request) : Prop :=
  match r with
  | R_Publish _ | R_PubAck _ | R_PubRec _ | R_Subscribe _ | R_Unsubscribe _ => request_u16 r
  | R_DisconnectWithTimeout timeout => timeout ≤ CLOCK_MAX
  | R_Disconnect | R_DisconnectNow | R_PingReq => True
  | _ => False
  end.

(** ** Requests to be sent again *)

Definition pub_id (e : RequestEnvelope) : option Z :=
  match env_request e with R_Publish p => Some (pub_pkid p) | _ => None end.
Definition rel_id (e : RequestEnvelope) : option Z :=
  match env_request e with R_PubRel a => Some (pubrel_pkid a) | _ => None end.
Definition ctl_id (e : RequestEnvelope) : option Z :=
  match env_request e with
  | R_Subscribe u => Some (subscribe_pkid u)
  | R_Unsubscribe u => Some (unsubscribe_pkid u)
  | _ => None
  end.

Definition replay_ok (e : RequestEnvelope) : Prop :=
  match env_request e with
  | R_Publish p => pub_qos p ≠ AtMostOnce
  | R_PubRel _ => True
  | R_Subscribe u => filters u ≠ []
  | R_Unsubscribe u => topics u ≠ []
  | _ => False
  end.

Abbreviation pub_ids R := (list_to_set (omap pub_id R) : gset Z).
Abbreviation ctl_ids R := (list_to_set (omap ctl_id R) : gset Z).

(** ** Checkpoints *)

Definition persisted_request_ok (r : PersistedRequest) : Prop :=
  replay_request_ok r ∧
  match r with
  | PR_Subscribe u => psub_filters u ≠ []
  | PR_Unsubscribe u => punsub_topics u ≠ []
  | _ => True
  end.

(** A checkpoint that can be restored if its publishes fit into the window. *)
Record stored_ok (p : PersistedSession) : Prop := {
  stored_u16 : session_u16 p;
  stored_incoming : Forall (λ i, pi_pkid i ≠ 0) (session_incoming_qos2 p);
  stored_replay : Forall persisted_request_ok (session_replay p);
  stored_nodup : NoDup (request_pkid <$> session_replay p);
}.

Lemma stored_packet_ids m p :
  stored_ok p → window_count (session_replay p) ≤ m → packet_ids_ok m p.
Proof.
  intros [_ Hi Hr Hn] Hw. split_and!; try done. eapply Forall_impl; [exact Hr|]. by intros r [? _].
Qed.

Section LoopState.
  Context {B : Type} `{FixedBitSetLaws B}.

Implicit Types (s : MqttState B) (Rp Rc : gset Z).

(** ** What operations leave alone *)

(** No publish with identifier 0 is known as received. *)
Definition zero_free s : Prop :=
  contains (incoming_pub s) 0 = false ∧ contains (incoming_pubrec s) 0 = false.

(** No PUBREL queued for replay is touched, no publish is held back, and so on. *)
Record calm s s' : Prop := {
  calm_rel : outgoing_rel_replay_order s' = outgoing_rel_replay_order s;
  calm_collision : collision s = None → collision s' = None;
  calm_zero : zero_free s → zero_free s';
  calm_config : max_inflight s' = max_inflight s ∧ ack_mode s' = ack_mode s;
}.

Lemma calm_flows s s0 s' : flows_of s' = flows_of s0 → calm s s0 → calm s s'.
Proof.
  unfold flows_of. intros [= ? ? Hr ? Hip Hir ? ? Hc ? ? Hm Ha] [C1 C2 C3 C4].
  split; unfold zero_free in *; rewrite ?Hr, ?Hc, ?Hip, ?Hir, ?Hm, ?Ha; done.
Qed.

Lemma calm_refl s : calm s s.
Proof. by split. Qed.

Lemma calm_trans s1 s2 s3 : calm s1 s2 → calm s2 s3 → calm s1 s3.
Proof.
  intros [A1 A2 A3 A4] [C1 C2 C3 C4]. split; [congruence|auto|auto|].
  destruct A4, C4. split; congruence.
Qed.

Lemma calm_same s s' : flows_of s' = flows_of s → calm s s'.
Proof. intros Hf. eapply calm_flows; [exact Hf|apply calm_refl]. Qed.

(** The receiving side: identifier 0 is not recorded. *)
Lemma calm_receiving s pa ip ir o :
  (zero_free s → contains ip 0 = false ∧ contains ir 0 = false) → calm s (receiving s pa ip ir o).
Proof. intros Hz. by split. Qed.

Lemma put_bit_free (b : B) k v :
  0 ≤ k < bits_len b → contains b 0 = false → k ≠ 0 → contains (put_bit b k v) 0 = false.
Proof. intros Hk Hb Hne. rewrite contains_put_bit by done. by destruct (Z.eqb_spec k 0). Qed.

Lemma inv_in_range Rp Rc s k :
  inv Rp Rc s → is_u16 k →
  0 ≤ k < bits_len (incoming_puback s) ∧ 0 ≤ k < bits_len (incoming_pub s) ∧
  0 ≤ k < bits_len (incoming_pubrec s).
Proof.
  intros I Hk. destruct (inv_incoming _ _ _ I) as [-> -> -> _]. unfold is_u16 in Hk.
  unfold full_packet_identifier_len, u16_MAX. lia.
Qed.

(** ** Requests *)

Definition one_event s s' : Prop := ∃ e, events s' = events s ++ [e].

Lemma wp_request Rp Rc now s r notice :
  inv Rp Rc s → client_request r → graceful_disconnect r = false →
  (∀ p, r = R_Publish p → pub_qos p ≠ AtMostOnce → can_send_publish s p = true) →
  wp (handle_outgoing_packet_with_notice now r notice)
    (λ _ s', inv Rp Rc s' ∧ calm s s' ∧ one_event s s') (λ _ s', inv Rp Rc s' ∧ calm s s') s.
Proof.
  intros I Hc Hg Hcan. unfold handle_outgoing_packet_with_notice,
    handle_outgoing_packet_with_notice_internal. apply wp_bind.
  eapply wp_mono with (Q := λ _ s', inv Rp Rc s' ∧ calm s s' ∧ one_event s s')
    (X := λ _ s', inv Rp Rc s' ∧ calm s s'); [| |done].
  2: { intros a s' (I' & C & E). apply wp_bind, wp_modify, wp_ret.
       split; [by apply inv_set_last_outgoing|]. split; [|exact E]. by apply (calm_flows s s'). }
  destruct r as [p|[k]|[k]|c|[k]| | |sub|c|unsub|c| | | | |]; try done;
    cbn [client_request request_u16] in Hc.
  - unfold outgoing_publish_with_notice_internal. case_decide as Hq.
    { apply wp_bind, wp_modify, wp_ret. split; [by apply inv_set_events|].
      split; [by apply calm_same|by eexists]. }
    destruct (can_send_free _ _ _ _ I Hq Hc (Hcan p eq_refl Hq)) as (Hw & _ & Hnew).
    apply wp_bind. eapply wp_mono; [by apply (wp_admit_publish Rp Rc)| |].
    + intros [p'|] s' (I' & _ & Hr).
      * destruct Hr as (k & -> & _ & _ & _ & _ & Hf & He & _).
        apply wp_bind, wp_modify, wp_ret. split; [by apply inv_set_events|].
        split; [|eexists; fields; by rewrite He]. apply (calm_flows s s'); [done|].
        eapply calm_flows; [exact Hf|]. by split.
      * destruct Hr as [Hin _]. destruct Hnew. rewrite elem_live_ids. by left.
    + intros e s' (I' & (Hf & _) & _). split; [done|by apply calm_same].
  - apply wp_bind. eapply wp_mono; [by apply (wp_outgoing_puback Rp Rc)| |].
    + intros packet s' (_ & _ & -> & I'). apply wp_ret. split; [done|].
      split; [by apply calm_receiving|by eexists].
    + intros e s' (_ & _ & ->). split; [done|apply calm_refl].
  - apply wp_bind. eapply wp_mono; [by apply (wp_outgoing_pubrec Rp Rc)| |].
    + intros packet s' (Hin & _ & _ & -> & I'). apply wp_ret. split; [done|].
      split; [|by eexists]. apply calm_receiving. intros [Hz1 Hz2]. split; [done|].
      case_match; [done|]. destruct (inv_in_range _ _ _ _ I Hc) as (_ & _ & Hrange).
      apply put_bit_free; [done..|]. intros ->. congruence.
    + intros e s' (_ & -> & _). split; [done|apply calm_refl].
  - apply wp_bind. eapply wp_mono; [by apply (wp_outgoing_ping Rp Rc)| |].
    + intros packet s' (I' & _ & _ & Hf & He). apply wp_ret. split; [done|].
      split; [by apply calm_same|by eexists].
    + intros e s' (I' & Hf & _). split; [done|by apply calm_same].
  - apply wp_bind. eapply wp_mono; [by apply (wp_outgoing_subscribe Rp Rc)| |].
    + intros packet s' (I' & k & _ & _ & _ & Hf & He & _). apply wp_ret. split; [done|].
      split; [by eapply calm_flows; [exact Hf|]|by eexists].
    + intros e s' [-> _]. split; [done|apply calm_refl].
  - apply wp_bind. eapply wp_mono; [by apply (wp_outgoing_unsubscribe Rp Rc)| |].
    + intros packet s' (I' & k & _ & _ & _ & Hf & He & _). apply wp_ret. split; [done|].
      split; [by eapply calm_flows; [exact Hf|]|by eexists].
    + intros e s' [-> _]. split; [done|apply calm_refl].
  - apply wp_bind, wp_bind, wp_modify, wp_ret, wp_ret. split; [by apply inv_set_events|].
    split; [by apply calm_same|by eexists].
Qed.

(** ** Packets *)

Lemma calm_finished s s1 k packet s' : calm s s1 → finished s1 k packet s' → calm s s'.
Proof.
  intros C Hf. unfold finished in Hf. destruct (collision s1) as [p|] eqn:Hp; [case_match|].
  - destruct Hf as (_ & Hf & _). eapply calm_flows; [exact Hf|]. by destruct C; split.
  - destruct Hf as [_ Hr]. apply retracked_flows in Hr as [Hr _]. eapply calm_flows; [exact Hr|].
    by destruct C; split.
  - destruct Hf as [_ Hr]. apply retracked_flows in Hr as [Hr _]. eapply calm_flows; [exact Hr|].
    by destruct C; split.
Qed.

(** Publishes with QoS have an identifier. *)
Lemma valid_publish_pkid p :
  Packet_valid (P_Publish p) → pub_qos p ≠ AtMostOnce → 1 ≤ pub_pkid p ≤ u16_MAX.
Proof.
  cbn. intros (_ & _ & _ & Hq) Hne. destruct (pub_qos p); [done|..];
    unfold pkid_valid, is_u16, u16_MAX in *; lia.
Qed.

(** A publish that is received again is answered. *)
Definition answered s (packet : Packet) s' : Prop :=
  is_duplicate_incoming_qos2_publish s packet = true → one_event s s'.

Lemma wp_dispatch_calm Rp Rc s packet :
  inv Rp Rc s → Packet_valid packet →
  wp (dispatch packet) (λ _ s', inv Rp Rc s' ∧ appends_events s s' ∧ calm s s' ∧ answered s packet s')
    (λ _ s', s' = s) s.
Proof.
  intros I Hv. pose proof (packet_valid_u16 _ Hv) as Hu.
  pose proof (wp_dispatch Rp Rc s packet I Hu) as Hd.
  cut (wp (dispatch packet) (λ _ s', calm s s' ∧ answered s packet s') (λ _ _, True) s).
  { unfold wp in *. destruct (dispatch packet s) as [[]]; naive_solver. }
  unfold answered.
  destruct packet as [c|c|p|[k]|[k]|[k]|[k]|c|c|c|c| | |]; try (by apply wp_fail);
    cbn [packet_u16 dispatch puback_pkid pubrec_pkid pubrel_pkid pubcomp_pkid] in *.
  - eapply wp_mono; [by apply (wp_handle_incoming_publish Rp Rc)| |done].
    intros eff s' (_ & _ & ->). unfold published_state. cbn [is_duplicate_incoming_qos2_publish].
    destruct (inv_in_range _ _ _ _ I Hu) as (_ & Hi1 & Hi2).
    destruct (pub_qos p) eqn:Hq; cbn [andb].
    + rewrite bool_decide_eq_false_2 by done. split; [apply calm_refl|done].
    + rewrite bool_decide_eq_false_2 by done.
      case_decide; (split; [|done]); [by apply calm_receiving|by split].
    + assert (Hk : pub_pkid p ≠ 0).
      { destruct (valid_publish_pkid p Hv) as [? _]; [by rewrite Hq|lia]. }
      rewrite (bool_decide_eq_true_2 (ExactlyOnce = ExactlyOnce)) by done. cbn [andb].
      destruct (contains (incoming_pubrec s) (pub_pkid p)) eqn:Hrec.
      * rewrite orb_true_r. split; [|by eexists]. apply calm_receiving.
        intros [??]. split; [by apply put_bit_free|done].
      * split; [|done]. case_match; [apply calm_receiving; intros [??]; split; by apply put_bit_free|].
        split; try done. intros [??]. split; [by apply put_bit_free|done].
  - eapply wp_mono; [by apply (wp_handle_incoming_puback Rp Rc)| |done].
    intros eff s' (_ & _ & notice & packet & s1 & _ & _ & (Hf & _) & Hfin). split; [|done].
    eapply calm_finished; [|exact Hfin]. by eapply calm_flows; [exact Hf|].
  - eapply wp_mono; [by apply (wp_handle_incoming_pubrec Rp Rc)| |done].
    intros eff s' (_ & _ & _ & (Hf & _) & _). split; [|done]. by eapply calm_flows; [exact Hf|].
  - apply wp_bind. eapply wp_mono; [by apply (wp_handle_incoming_pubrel Rp Rc)| |done].
    intros packet s' (_ & _ & _ & ->). apply wp_ret. split; [|done].
    destruct (inv_in_range _ _ _ _ I Hu) as (_ & Hi1 & Hi2).
    case_match; [|by apply calm_same]. apply calm_receiving. intros [Hz1 Hz2].
    rewrite !contains_put_bit by done. by case_match.
  - eapply wp_mono; [by apply (wp_handle_incoming_pubcomp Rp Rc)| |done].
    intros eff s' (_ & _ & notice & packet & s1 & _ & _ & (Hf & _) & Hfin). split; [|done].
    eapply calm_finished; [|exact Hfin]. by eapply calm_flows; [exact Hf|].
  - eapply wp_mono; [by apply (wp_handle_incoming_suback Rp Rc)| |done].
    intros eff s' (_ & p & _ & _ & Hf & _). split; [|done]. by eapply calm_flows; [exact Hf|].
  - eapply wp_mono; [by apply (wp_handle_incoming_unsuback Rp Rc)| |done].
    intros eff s' (_ & p & _ & Hf & _). split; [|done]. by eapply calm_flows; [exact Hf|].
  - apply wp_bind, wp_bind, wp_modify, wp_ret, wp_ret. split; [by apply calm_same|done].
Qed.

(** A packet read from the network is reported, or answered. *)
Lemma wp_incoming Rp Rc now s packet :
  inv Rp Rc s → Packet_valid packet →
  wp (handle_incoming_packet_with_effects now packet)
    (λ _ s', inv Rp Rc s' ∧ calm s s' ∧ ∃ e es, events s' = events s ++ e :: es)
    (λ _ s', s' = s) s.
Proof.
  intros I Hv. unfold handle_incoming_packet_with_effects. apply wp_bind, wp_get.
  change (match packet with P_Connect _ => _ | _ => _ end) with (dispatch packet).
  apply wp_bind. eapply wp_mono; [by apply (wp_dispatch_calm Rp Rc)| |done].
  intros eff s' (I' & [outs He] & C & Ha). apply wp_bind.
  destruct (is_duplicate_incoming_qos2_publish s packet) eqn:Hdup; cbn [negb].
  - apply wp_ret, wp_bind, wp_modify, wp_ret. split; [by apply inv_set_last_incoming|].
    split; [by apply (calm_flows s s')|]. destruct (Ha Hdup) as [e Ho]. by exists e, [].
  - unfold insert_event. apply wp_bind, wp_get. rewrite He, blen_app.
    rewrite (proj2 (Z.ltb_ge _ _)) by (pose proof (blen_nonneg (map Ev_Outgoing outs)); lia).
    apply wp_modify, wp_bind, wp_modify, wp_ret.
    split; [by apply inv_set_last_incoming, inv_set_events|]. split; [by apply (calm_flows s s')|].
    fields. rewrite blen_to_nat, take_app_length, drop_app_length. by eexists _, _.
Qed.

(** ** The session and the queues *)

(** [R] are the requests to be sent again, in the queues of the event loop. *)
Record sess (R : list RequestEnvelope) s : Prop := {
  sess_inv : inv (pub_ids R) (ctl_ids R) s;
  sess_pub : NoDup (omap pub_id R);
  sess_ctl : NoDup (omap ctl_id R);
  sess_rel : omap rel_id R ≡ₚ outgoing_rel_replay_order s;
  sess_ok : Forall replay_ok R;
  sess_collision : collision s = None;
  sess_zero : zero_free s;
}.

Lemma list_to_set_omap_perm (f : RequestEnvelope → option Z) R R' :
  R ≡ₚ R' → (list_to_set (omap f R) : gset Z) = list_to_set (omap f R').
Proof. intros HR. apply list_to_set_perm_L. by rewrite HR. Qed.

Lemma sess_perm R R' s : R ≡ₚ R' → sess R s → sess R' s.
Proof.
  intros HR [S1 S2 S3 S4 S5 S6 S7].
  split; rewrite <- ?(list_to_set_omap_perm pub_id R R'), <- ?(list_to_set_omap_perm ctl_id R R'), <- ?HR by done;
    done.
Qed.

Lemma sess_calm R s s' : sess R s → inv (pub_ids R) (ctl_ids R) s' → calm s s' → sess R s'.
Proof.
  intros [S1 S2 S3 S4 S5 S6 S7] I [C1 C2 C3 C4]. split; try done; [by rewrite C1|auto|auto].
Qed.

Lemma sess_new now m am : 0 ≤ m ≤ u16_MAX → sess [] (new_internal now m am).
Proof.
  intros Hm. split; try done; [by apply inv_new|constructor|constructor|].
  split; apply contains_with_capacity.
Qed.

Lemma wp_sess_request R now s r notice :
  sess R s → client_request r → graceful_disconnect r = false →
  (∀ p, r = R_Publish p → pub_qos p ≠ AtMostOnce → can_send_publish s p = true) →
  wp (handle_outgoing_packet_with_notice now r notice)
    (λ _ s', sess R s' ∧ one_event s s') (λ _ s', sess R s') s.
Proof.
  intros S Hc Hg Hcan. eapply wp_mono; [apply (wp_request _ _ now s r notice (sess_inv _ _ S)); done|..].
  - intros _ s' (I & C & E). split; [by eapply sess_calm|done].
  - intros _ s' (I & C). by eapply sess_calm.
Qed.

Lemma wp_sess_incoming R now s packet :
  sess R s → Packet_valid packet →
  wp (handle_incoming_packet_with_effects now packet)
    (λ _ s', sess R s' ∧ ∃ e es, events s' = events s ++ e :: es) (λ _ s', s' = s) s.
Proof.
  intros S Hv. eapply wp_mono; [apply (wp_incoming _ _ now s packet (sess_inv _ _ S) Hv)| |done].
  intros _ s' (I & C & E). split; [by eapply sess_calm|done].
Qed.

(** *** Sending again *)

Lemma sess_tail_sets e R :
  NoDup (omap pub_id (e :: R)) → NoDup (omap ctl_id (e :: R)) →
  pub_ids R = (match pub_id e with Some k => pub_ids (e :: R) ∖ {[k]} | None => pub_ids (e :: R) end) ∧
  ctl_ids R = (match ctl_id e with Some k => ctl_ids (e :: R) ∖ {[k]} | None => ctl_ids (e :: R) end).
Proof.
  intros Hp Hc. cbn [omap list_omap] in *. split.
  - destruct (pub_id e) as [k|]; [|done]. apply NoDup_cons in Hp as [Hp _].
    cbn [list_to_set]. apply set_eq. intros x. rewrite elem_of_difference, elem_of_union, !elem_of_singleton,
      !elem_of_list_to_set. split; [intros Hx; split; [by right|by intros ->]|naive_solver].
  - destruct (ctl_id e) as [k|]; [|done]. apply NoDup_cons in Hc as [Hc _].
    cbn [list_to_set]. apply set_eq. intros x. rewrite elem_of_difference, elem_of_union, !elem_of_singleton,
      !elem_of_list_to_set. split; [intros Hx; split; [by right|by intros ->]|naive_solver].
Qed.

Lemma sess_sent e R s s' Rp Rc :
  sess (e :: R) s → inv Rp Rc s' → Rp = pub_ids R → Rc = ctl_ids R → calm s s' → rel_id e = None →
  sess R s'.
Proof.
  intros [S1 S2 S3 S4 S5 S6 S7] I -> -> [C1 C2 C3 C4] He. cbn [omap list_omap] in *.
  split; [done|..].
  - destruct (pub_id e); [by apply NoDup_cons in S2 as [_ ?]|done].
  - destruct (ctl_id e); [by apply NoDup_cons in S3 as [_ ?]|done].
  - rewrite He in S4. by rewrite C1.
  - by apply Forall_cons in S5 as [_ ?].
  - auto.
  - auto.
Qed.

Lemma ready_if_ready b : ready_if b = Ready ↔ b = true.
Proof. by destruct b. Qed.

Lemma remove_ordered_cons (k : Z) l l' : l ≡ₚ k :: l' → remove_ordered_pkid l k ≡ₚ l'.
Proof.
  intros Hl. apply (Permutation_cons_inv (a := k)). rewrite <- Hl. symmetry. apply remove_ordered_perm.
  rewrite Hl. by left.
Qed.

Lemma wp_sess_replay e R now s notice :
  sess (e :: R) s → readiness (classify_replay_request s (env_request e)) = Ready →
  wp (handle_replayed_outgoing_packet_with_notice now (env_request e) notice)
    (λ _ s', sess R s') (λ _ _, False) s.
Proof.
  intros S Hready. pose proof (sess_inv _ _ S) as I.
  destruct (sess_tail_sets e R (sess_pub _ _ S) (sess_ctl _ _ S)) as [Hp Hc].
  pose proof (sess_ok _ _ S) as Hok. apply Forall_cons in Hok as [Hok _].
  pose proof (sess_sent e R s) as Hsent. pose proof (sess_rel _ _ S) as Hrel.
  unfold replay_ok, pub_id, rel_id, ctl_id in Hok, Hp, Hc, Hsent.
  destruct e as [r n b]. cbn [env_request] in *.
  destruct r as [p|[k]|[k]|c|[k]| | |u|c|u|c| | | | |]; try done;
    cbn [classify_replay_request classify_publish_or_control_request readiness] in Hready.
  - rewrite decide_False in Hready by done. apply ready_if_ready in Hready.
    unfold can_send_replayed_publish in Hready. rewrite decide_False in Hready by done.
    destruct (Z.leb_spec (max_inflight s) (inflight s)); [done|].
    eapply wp_mono; [apply (wp_replay_publish _ _ now s p notice I)|..]; try done.
    { cbn [omap list_omap pub_id env_request list_to_set]. set_solver. }
    intros _ s' (_ & I' & Hf & _). eapply Hsent; try done.
    eapply calm_flows; [exact Hf|]. by split.
  - apply ready_if_ready in Hready. unfold can_send_pubrel in Hready. cbn [pubrel_pkid] in Hready.
    cbn [omap list_omap rel_id env_request pubrel_pkid] in Hrel.
    assert (Hin : k ∈ outgoing_rel_replay_order s) by (rewrite <- Hrel; left).
    assert (Hnot : contains (outgoing_rel s) k = false).
    { apply not_true_iff_false. intros Hin2%(inv_rel _ _ _ I).
      pose proof (ids_nodup _ _ _ (inv_ids _ _ _ I)) as Hnd. unfold live_ids in Hnd.
      apply NoDup_app in Hnd as (_ & _ & Hnd). apply NoDup_app in Hnd as (_ & Hd & _).
      apply (Hd k Hin2). rewrite elem_of_app. by left. }
    rewrite Hnot in Hready. destruct (k =? 0); [done|]. cbn [orb] in Hready.
    apply andb_true_iff in Hready as [_ Hlt%Z.ltb_lt].
    eapply wp_mono; [by apply (wp_replay_pubrel _ _ now s k notice I)| |done].
    intros _ s' (_ & I' & Hf & _). unfold flows_of, replayed_rel in Hf. fields.
    injection Hf as Hpo Hro Hrro Hpa Hip Hir Hsub Hunsub Hcol Hcn Hif Hm Ham.
    destruct S as [_ S2 S3 _ S5 S6 S7]. split; [exact I'|exact S2|exact S3|..].
    + rewrite Hrro. symmetry. by apply remove_ordered_cons.
    + by apply Forall_cons in S5 as [_ ?].
    + by rewrite Hcol.
    + unfold zero_free in *. by rewrite Hip, Hir.
  - unfold handle_replayed_outgoing_packet_with_notice, handle_outgoing_packet_with_notice_internal.
    apply wp_bind, wp_bind. eapply wp_mono; [apply (wp_replay_subscribe _ _ s u _ I); try done| |done].
    { cbn [omap list_omap ctl_id env_request list_to_set]. set_solver. }
    intros r s' (_ & I' & Hf & _). apply wp_ret, wp_bind, wp_modify, wp_ret.
    eapply Hsent; [exact S|by apply inv_set_last_outgoing|done|done| |done].
    apply (calm_flows s s'); [done|]. eapply calm_flows; [exact Hf|]. by split.
  - unfold handle_replayed_outgoing_packet_with_notice, handle_outgoing_packet_with_notice_internal.
    apply wp_bind, wp_bind. eapply wp_mono; [apply (wp_replay_unsubscribe _ _ s u _ I); try done| |done].
    { cbn [omap list_omap ctl_id env_request list_to_set]. set_solver. }
    intros r s' (_ & I' & Hf & _). apply wp_ret, wp_bind, wp_modify, wp_ret.
    eapply Hsent; [exact S|by apply inv_set_last_outgoing|done|done| |done].
    apply (calm_flows s s'); [done|]. eapply calm_flows; [exact Hf|]. by split.
Qed.

(** *** The requests of a lost connection *)

(** The identifiers of requests to be sent again, by kind. *)
Record kinds (R : list RequestEnvelope) (pubs rels ctls : list Z) : Prop := {
  kinds_pub : omap pub_id R = pubs;
  kinds_rel : omap rel_id R = rels;
  kinds_ctl : omap ctl_id R = ctls;
  kinds_ok : Forall replay_ok R;
  kinds_replay : Forall (λ e, env_replay e = true) R;
}.

Lemma kinds_nil : kinds [] [] [] [].
Proof. by split. Qed.

Lemma kinds_app R R' p p' r r' c c' :
  kinds R p r c → kinds R' p' r' c' → kinds (R ++ R') (p ++ p') (r ++ r') (c ++ c').
Proof.
  intros [<- <- <- ? ?] [<- <- <- ? ?]. split; rewrite ?omap_app; try done; by apply Forall_app.
Qed.

Lemma kinds_cons e R p p' r r' c c' :
  kinds [e] p r c → kinds R p' r' c' → kinds (e :: R) (p ++ p') (r ++ r') (c ++ c').
Proof. intros He HR. by apply (kinds_app [e]). Qed.

Lemma kinds_map {A} (f : A → RequestEnvelope) (p r c : A → list Z) l :
  (∀ x, x ∈ l → kinds [f x] (p x) (r x) (c x)) →
  kinds (f <$> l) (concat (p <$> l)) (concat (r <$> l)) (concat (c <$> l)).
Proof.
  induction l as [|x l IH]; intros Hl; [apply kinds_nil|]. cbn [fmap list_fmap concat].
  apply kinds_cons; [apply Hl; by left|]. apply IH. intros y Hy. apply Hl. by right.
Qed.

Abbreviation lost s := (clean_request_envelope <$> unfinished s).

Lemma kinds_publishes s l :
  (∀ k, k ∈ l → ∃ p, vget (outgoing_pub s) k = Some (Some p) ∧ publish_ok k p) →
  kinds (clean_request_envelope <$> omap (clean_publish s) l) l [] [].
Proof.
  induction l as [|k l IH]; intros Hl; [apply kinds_nil|]. cbn [omap list_omap].
  destruct (Hl k) as (p & Hp & Hk & Hq); [by left|]. unfold clean_publish at 1. rewrite Hp.
  cbn [fmap list_fmap]. apply (kinds_cons _ _ [k] l [] [] [] []); [|apply IH; intros; apply Hl; by right].
  split; repeat constructor; cbn; unfold mark_dup; rewrite decide_False by done; cbn; congruence.
Qed.

Lemma concat_singles {A C} (f : A → C) l : concat ((λ x, [f x]) <$> l) = f <$> l.
Proof. induction l; [done|]. cbn. by f_equal. Qed.

Lemma concat_empties {A C} (l : list A) : concat ((λ _, [] : list C) <$> l) = [].
Proof. by induction l. Qed.

Lemma kinds_lost Rp Rc s :
  inv Rp Rc s → collision s = None →
  kinds (lost s) (outgoing_pub_order s) (outgoing_rel_order s)
    ((btree_entries (pending_subscribe s)).*1 ++ (btree_entries (pending_unsubscribe s)).*1).
Proof.
  intros I Hc. unfold unfinished, clean_held. rewrite Hc. cbn [app]. rewrite !fmap_app.
  assert (K1 : kinds (clean_request_envelope <$> omap (clean_publish s) (outgoing_pub_order s))
    (outgoing_pub_order s) [] []).
  { apply kinds_publishes. intros k Hk. apply (slots_order _ _ (inv_slots _ _ _ I)) in Hk as (? & p & Hp).
    exists p. split; [done|]. by apply (slots_publish _ _ (inv_slots _ _ _ I)). }
  assert (K2 := kinds_map (clean_request_envelope ∘ clean_pubrel s) (λ _, []) (λ k, [k]) (λ _, [])
    (outgoing_rel_order s) ltac:(intros k _; by repeat constructor)).
  assert (K3 := kinds_map (clean_request_envelope ∘ clean_subscribe) (λ _, []) (λ _, []) (λ e, [e.1])
    (btree_entries (pending_subscribe s))
    ltac:(intros e He%btree_elem; destruct (inv_sub _ _ _ I _ _ He); by repeat constructor)).
  assert (K4 := kinds_map (clean_request_envelope ∘ clean_unsubscribe) (λ _, []) (λ _, []) (λ e, [e.1])
    (btree_entries (pending_unsubscribe s))
    ltac:(intros e He%btree_elem; destruct (inv_unsub _ _ _ I _ _ He); by repeat constructor)).
  rewrite list_fmap_compose, !concat_empties, concat_singles, list_fmap_id in K2.
  rewrite list_fmap_compose, !concat_empties, concat_singles in K3.
  rewrite list_fmap_compose, !concat_empties, concat_singles in K4.
  pose proof (kinds_app _ _ _ _ _ _ _ _ K1 (kinds_app _ _ _ _ _ _ _ _ K2 (kinds_app _ _ _ _ _ _ _ _ K3 K4))) as K.
  by rewrite ?app_nil_r in K.
Qed.

Lemma btree_dom {V} (m : gmap Z V) : (list_to_set (btree_entries m).*1 : gset Z) = dom m.
Proof.
  apply set_eq. intros k. rewrite elem_of_list_to_set, elem_of_dom, btree_entries_perm.
  by rewrite <- keys_elem.
Qed.

(** A new connection may send again what the last one did not finish. *)
Lemma wp_sess_clean R s :
  sess R s →
  wp clean_with_notices_for_reconnect
    (λ r s', r = unfinished s ∧ kinds (lost s) (outgoing_pub_order s) (outgoing_rel_order s)
       ((btree_entries (pending_subscribe s)).*1 ++ (btree_entries (pending_unsubscribe s)).*1) ∧
       sess (lost s ++ R) s' ∧ cleaned true (pub_ids R) (ctl_ids R) s s') (λ _ _, False) s.
Proof.
  intros S. pose proof (sess_inv _ _ S) as I. pose proof (kinds_lost _ _ _ I (sess_collision _ _ S)) as K.
  apply (wp_clean true _ _ s _ _ I). intros s' C. split; [done|]. split; [done|]. split; [|done].
  pose proof (ids_nodup _ _ _ (inv_ids _ _ _ I)) as Hnd. unfold live_ids in Hnd.
  rewrite !NoDup_app in Hnd. destruct Hnd as (Hn1 & Hd1 & _ & _ & _ & _ & _ & Hd4 & _ & Hd5 & _).
  destruct K as [K1 K2 K3 K4 _]. destruct S as [_ S2 S3 S4 S5 S6 S7].
  split; rewrite ?omap_app, ?K1, ?K2, ?K3, ?list_to_set_app_L.
  - pose proof (cleaned_inv _ _ _ _ _ C) as I'. unfold cleaned_Rp, cleaned_Rc in I'.
    rewrite !btree_dom, (union_comm_L _ (pub_ids R)), (union_comm_L _ (ctl_ids R)). exact I'.
  - apply NoDup_app. split_and!; [done| |done]. intros k Hk Hin. apply (Hd1 k Hk).
    rewrite !elem_of_app, !elem_of_elements, !elem_of_list_to_set. tauto.
  - apply NoDup_app. split_and!; [| |done].
    + apply NoDup_app. split_and!; [apply btree_nodup| |apply btree_nodup]. intros k Hk Hin. apply (Hd4 k).
      * unfold keys. by rewrite <- btree_entries_perm.
      * rewrite elem_of_app. left. unfold keys. by rewrite <- btree_entries_perm.
    + intros k Hk Hin. apply elem_of_app in Hk as [Hk|Hk].
      * apply (Hd4 k); [unfold keys; by rewrite <- btree_entries_perm|].
        rewrite !elem_of_app, !elem_of_elements, !elem_of_list_to_set. tauto.
      * apply (Hd5 k); [unfold keys; by rewrite <- btree_entries_perm|].
        rewrite !elem_of_app, !elem_of_elements, !elem_of_list_to_set. tauto.
  - rewrite (cleaned_replay _ _ _ _ _ C), S4. apply Permutation_app_comm.
  - by apply Forall_app.
  - apply C.
  - unfold zero_free. by destruct (cleaned_incoming _ _ _ _ _ C) as [-> ->].
Qed.

(** *** Resets and restarts *)

(** Nothing is in progress. *)
Definition idle s : Prop := unfinished s = [] ∧ outgoing_rel_replay_order s = [].

Lemma idle_new now m am : idle (new_internal now m am).
Proof. done. Qed.

Lemma wp_sess_reset R now s (Q : list TrackedNoticeTx → _ → Prop) X :
  sess R s →
  (∀ s', sess [] s' → idle s' → events s' = [] →
     max_inflight s' = max_inflight s ∧ ack_mode s' = ack_mode s → Q (tracked_notices s) s') →
  wp (reset_session_state now) Q X s.
Proof.
  intros S HQ. apply (wp_reset_session_state _ _ now s Q X (sess_inv _ _ S)), HQ; try done.
  apply sess_new, (inv_max _ _ _ (sess_inv _ _ S)).
Qed.

Lemma restored_ids (rs : list PersistedRequest) :
  let R := envelope_plain_replay <$> (restored_request <$> rs) in
  omap pub_id R = omap publish_pkid rs ∧ omap rel_id R = omap rel_pkid rs ∧
  omap ctl_id R = omap control_pkid rs.
Proof.
  induction rs as [|r rs (IH1 & IH2 & IH3)]; [done|]. cbn in *.
  destruct r; cbn; rewrite ?IH1, ?IH2, ?IH3; done.
Qed.

Lemma omap_pkid_elem (f : PersistedRequest → option Z) (k : Z) (rs : list PersistedRequest) :
  (∀ r j, f r = Some j → j = request_pkid r) → k ∈ omap f rs → k ∈ request_pkid <$> rs.
Proof.
  intros Hf (r & Hr & Hk)%list_elem_of_omap. apply list_elem_of_fmap. exists r. split; [by apply Hf|done].
Qed.

Lemma NoDup_omap_pkid (f : PersistedRequest → option Z) (rs : list PersistedRequest) :
  (∀ r j, f r = Some j → j = request_pkid r) → NoDup (request_pkid <$> rs) → NoDup (omap f rs).
Proof.
  intros Hf. induction rs as [|r rs IH]; [constructor|]. cbn [fmap list_fmap omap list_omap].
  intros [Hn Hnd]%NoDup_cons. destruct (f r) as [j|] eqn:Hj; [|auto].
  apply NoDup_cons. split; [|auto]. rewrite (Hf r j Hj). intros Hin. apply Hn. by eapply omap_pkid_elem.
Qed.

Lemma wp_sess_restore R now o p s :
  sess R s → stored_ok p →
  wp (restore_persisted_session now o p)
    (λ reqs s', signature_ok o p ∧ window_count (session_replay p) ≤ max_inflight s ∧
       reqs = restored_request <$> session_replay p ∧ sess (envelope_plain_replay <$> reqs) s' ∧
       max_inflight s' = max_inflight s ∧ ack_mode s' = ack_mode s)
    (λ _ s', s' = s ∧ ¬ (signature_ok o p ∧ window_count (session_replay p) ≤ max_inflight s)) s.
Proof.
  intros S [P1 P2 P3 P4]. eapply wp_mono;
    [apply (wp_restore_persisted _ _ now o p s (sess_inv _ _ S) P1)|..].
  - intros reqs s' (Hs & Hids & -> & [R1 R2 R3 R4 R5 R6 R7 R8 R9]).
    destruct (restored_ids (session_replay p)) as (H1 & H2 & H3). split; [done|]. split; [apply Hids|].
    split; [done|]. split; [|done]. split; rewrite ?H1, ?H2, ?H3; try done.
    + by apply NoDup_omap_pkid; [intros [] j; cbn; congruence|].
    + by apply NoDup_omap_pkid; [intros [] j; cbn; congruence|].
    + by rewrite R4.
    + rewrite !Forall_fmap. eapply Forall_impl; [exact P3|].
      intros [q|q|q|q] [[_ Hq] Hf]; cbn in *; try done.
      * destruct (pp_qos q); done.
      * by destruct (psub_filters q).
    + apply R6.
    + assert (H0' : 0 ∉ pi_pkid <$> session_incoming_qos2 p).
      { intros (i & Hi & Hin)%list_elem_of_fmap. rewrite Forall_forall in P2. by apply (P2 i Hin). }
      split; [rewrite (proj1 (R9 0))|rewrite (proj2 (R9 0))]; by apply bool_decide_eq_false_2.
  - intros e s' [-> Hn]. split; [done|]. intros [Hs Hw]. apply Hn. split; [done|].
    by apply stored_packet_ids.
Qed.

(** *** Checkpoints *)

Definition any_id (e : RequestEnvelope) : option Z :=
  match env_request e with
  | R_Publish p => Some (pub_pkid p)
  | R_PubRel a => Some (pubrel_pkid a)
  | R_Subscribe u => Some (subscribe_pkid u)
  | R_Unsubscribe u => Some (unsubscribe_pkid u)
  | _ => None
  end.

Lemma any_ids R : omap any_id R ≡ₚ omap pub_id R ++ omap rel_id R ++ omap ctl_id R.
Proof.
  induction R as [|[r n b] R IH]; [done|]. cbn [omap list_omap].
  unfold any_id at 1, pub_id at 1, rel_id at 1, ctl_id at 1. cbn [env_request].
  destruct r; cbn [app]; rewrite IH; done || solve_Permutation.
Qed.

Lemma live_ids_sess R s :
  sess R s →
  live_ids (pub_ids R) (ctl_ids R) s ≡ₚ
  outgoing_pub_order s ++ outgoing_rel_order s ++ keys (pending_subscribe s) ++
  keys (pending_unsubscribe s) ++ omap any_id R.
Proof.
  intros S. unfold live_ids.
  rewrite any_ids, <- (sess_rel _ _ S), !elements_list_to_set by apply S. solve_Permutation.
Qed.

Lemma persisted_publish_some p q :
  persisted_publish p = Some q →
  pp_pkid q = pub_pkid p ∧ pp_qos q ≠ PQ_AtMostOnce.
Proof.
  unfold persisted_publish. destruct (bool_decide (pub_qos p = AtMostOnce)) eqn:Hq; [done|]. cbn [orb].
  case_match; [done|]. intros [= <-]. cbn. split; [done|].
  apply bool_decide_eq_false in Hq. by destruct (pub_qos p).
Qed.

Lemma checkpoint_publish_pkids s l :
  (∀ k p, k ∈ l → vget (outgoing_pub s) k = Some (Some p) → pub_pkid p = k) →
  request_pkid <$> omap (checkpoint_publish s) l `sublist_of` l.
Proof.
  induction l as [|k l IH]; intros Hl; [constructor|]. cbn [omap list_omap].
  assert (IH' := IH (λ j p Hj, Hl j p (list_elem_of_further _ _ _ Hj))). unfold checkpoint_publish at 1.
  destruct (vget (outgoing_pub s) k) as [[p|]|] eqn:Hv; [|by constructor..].
  destruct (persisted_publish p) as [q|] eqn:Hq; cbn; [|by constructor].
  apply persisted_publish_some in Hq as [-> _]. rewrite (Hl k p (list_elem_of_here _ _) Hv).
  by constructor.
Qed.

Lemma queue_pkids R :
  request_pkid <$> omap persisted_request_from_request (env_request <$> R) `sublist_of` omap any_id R.
Proof.
  induction R as [|[r n b] R IH]; [constructor|]. cbn [fmap list_fmap omap list_omap env_request].
  unfold any_id at 1. cbn [env_request]. destruct r as [p|a|a|a|a| | |u|a|u|a| | | | |];
    cbn [persisted_request_from_request]; try done.
  - destruct (persisted_publish p) as [q|] eqn:Hq; cbn; [|by constructor].
    apply persisted_publish_some in Hq as [-> _]. by constructor.
  - cbn. by constructor.
  - destruct (subscribe_pkid u =? 0); cbn; by constructor.
  - destruct (unsubscribe_pkid u =? 0); cbn; by constructor.
Qed.

Lemma checkpoint_pkids R s :
  sess R s →
  request_pkid <$> checkpoint_requests s ++ omap persisted_request_from_request (env_request <$> R)
    ⊆+ live_ids (pub_ids R) (ctl_ids R) s.
Proof.
  intros S. pose proof (sess_inv _ _ S) as I. rewrite (live_ids_sess R s S). unfold checkpoint_requests.
  rewrite !fmap_app, <- !(assoc_L (++)). repeat apply submseteq_app.
  - apply sublist_submseteq, checkpoint_publish_pkids. intros k p Hk Hp.
    apply (inv_pub_range _ _ _ I) in Hk. by apply (slots_publish _ _ (inv_slots _ _ _ I) k p ltac:(lia)).
  - rewrite fmap_map. cbn. by rewrite map_id.
  - rewrite fmap_map. unfold keys. rewrite <- btree_entries_perm.
    rewrite (Forall_fmap_ext_1 _ fst); [done|]. apply Forall_forall. intros e He%btree_elem.
    apply (inv_sub _ _ _ I _ _ He).
  - rewrite fmap_map. unfold keys. rewrite <- btree_entries_perm.
    rewrite (Forall_fmap_ext_1 _ fst); [done|]. apply Forall_forall. intros e He%btree_elem.
    apply (inv_unsub _ _ _ I _ _ He).
  - apply sublist_submseteq, queue_pkids.
Qed.

Lemma submseteq_NoDup {A} (l k : list A) : l ⊆+ k → NoDup k → NoDup l.
Proof. intros [l' ->]%submseteq_Permutation. by intros [? _]%NoDup_app. Qed.

Lemma checkpoint_wf R s :
  sess R s →
  Forall (λ r, match r with
               | PR_Publish q => pp_qos q ≠ PQ_AtMostOnce
               | PR_PubRel _ => True
               | PR_Subscribe u => psub_filters u ≠ []
               | PR_Unsubscribe u => punsub_topics u ≠ []
               end)
    (checkpoint_requests s ++ omap persisted_request_from_request (env_request <$> R)).
Proof.
  intros S. pose proof (sess_inv _ _ S) as I. unfold checkpoint_requests. rewrite !Forall_app, !Forall_map.
  split_and!; apply Forall_forall.
  - intros r (k & Hk & Hr)%list_elem_of_omap. unfold checkpoint_publish in Hr.
    destruct (vget (outgoing_pub s) k) as [[p|]|]; [|done..].
    destruct (persisted_publish p) as [q|] eqn:Hq; [|done]. injection Hr as <-.
    by apply persisted_publish_some in Hq as [_ ?].
  - done.
  - intros e He%btree_elem. destruct (inv_sub _ _ _ I _ _ He) as [_ Hf]. cbn.
    by destruct (filters _).
  - intros e He%btree_elem. destruct (inv_unsub _ _ _ I _ _ He) as [_ Hf]. by cbn.
  - intros r (q & Hq & Hr)%list_elem_of_omap. apply list_elem_of_fmap in Hq as (e & -> & He).
    pose proof (sess_ok _ _ S) as Hok. rewrite Forall_forall in Hok. specialize (Hok e He).
    unfold replay_ok in Hok. destruct (env_request e) as [p|a|a|a|a| | |u|a|u|a| | | | |]; try done;
      cbn [persisted_request_from_request] in Hr.
    + destruct (persisted_publish p) as [q|] eqn:Hq; [|done]. injection Hr as <-.
      by apply persisted_publish_some in Hq as [_ ?].
    + by injection Hr as <-.
    + case_match; [done|]. injection Hr as <-. cbn. by destruct (filters u).
    + case_match; [done|]. by injection Hr as <-.
Qed.

(** The checkpoint of the session and the queues can be taken, and is well formed. *)
Lemma sess_checkpoint R s o :
  sess R s → ∃ p, persisted_session s o (env_request <$> R) = Ok p ∧ signature_ok o p ∧ stored_ok p.
Proof.
  intros S. pose proof (sess_inv _ _ S) as I.
  destruct (persisted_session_ok _ _ s o (env_request <$> R) I) as (p & Hp & Hsig & Hrep & Hin).
  exists p. split; [done|]. split; [done|].
  pose proof (checkpoint_pkids R s S) as Hids. rewrite <- Hrep in Hids.
  assert (Hrange : Forall (λ r, 1 ≤ request_pkid r ≤ u16_MAX) (session_replay p)).
  { apply Forall_forall. intros r Hr. apply (ids_range _ _ _ (inv_ids _ _ _ I)).
    eapply elem_of_submseteq; [|exact Hids]. apply list_elem_of_fmap. by exists r. }
  pose proof (checkpoint_wf R s S) as Hwf. rewrite <- Hrep in Hwf.
  assert (Hones : Forall (λ i, 1 ≤ pi_pkid i ≤ u16_MAX) (session_incoming_qos2 p)).
  { rewrite Hin, Forall_fmap. apply Forall_forall. intros k Hk%elem_of_ones. cbn.
    pose proof (contains_range _ _ Hk) as Hr. rewrite (len_irec _ _ _ (inv_incoming _ _ _ I)) in Hr.
    unfold full_packet_identifier_len in Hr. destruct (sess_zero _ _ S) as [_ Hz].
    assert (k ≠ 0) by (intros ->; congruence). lia. }
  split.
  - split; [apply (Forall_impl _ _ _ Hones)|apply (Forall_impl _ _ _ Hrange)];
      intros ?; unfold is_u16, u16_MAX; cbn; lia.
  - eapply Forall_impl; [exact Hones|]. cbn. lia.
  - rewrite Forall_forall in Hwf, Hrange |- *. intros r Hr. specialize (Hwf r Hr). specialize (Hrange r Hr).
    split; [split; [lia|]|]; by destruct r.
  - eapply submseteq_NoDup; [exact Hids|]. apply I.
Qed.
End LoopState.
