(* ===== verification/V4LoopInv.v ===== *)
(** The invariant [linv] of the event loop of the MQTT 3.1.1 client, and rules for its primitive
    operations. *)

From S2P Require Import Prelude.
From S2P Require Import Utf8.
From S2P Require Import Primitives.
From S2P Require Import CodecBase.
From S2P Require Import V4Base.
From S2P Require Import V4Acks.
From S2P Require Import V4Publish.
From S2P Require Import V4Subscribe.
From S2P Require Import V4Connect.
From S2P Require Import V4Packet.
From S2P Require Import Scheduler.
From S2P Require Import FixedBitSet.
From S2P Require Import SessionIO.
From S2P Require Import V4SessionFormat.
From S2P Require Import V4SessionTypes.
From S2P Require Import PacketIds.
From S2P Require Import V4State.
From S2P Require Import V4Clean.
From S2P Require Import V4Invariant.
From S2P Require Import V4Handlers.
From S2P Require Import V4Session.
From S2P Require Import V4CleanProofs.
From S2P Require Import V4Reachable.
From S2P Require Import V4Delivery.
From S2P Require Import V4Reconnect.
From S2P Require Import V4Persist.
From S2P Require Import V4Restore.
From S2P Require Import V4Recovery.
From S2P Require Import V4LoopTypes.
From S2P Require Import V4LoopSession.
From S2P Require Import V4EventLoop.
From S2P Require Import V4LoopState.
#[local] Open Scope Z_scope.

(** ** Options *)

(** [set_keep_alive] takes at most 65535 seconds. *)
Definition options_ok (options : MqttOptions) : Prop := opt_keep_alive options ≤ 65535 * 1000000000.

(** ** Environments *)

(** What client handles put into the channels. *)
Definition client_envelope (e : RequestEnvelope) : Prop :=
  env_replay e = false ∧ client_request (env_request e).

Definition immediate_envelope (e : RequestEnvelope) : Prop :=
  env_replay e = false ∧ env_request e = R_DisconnectNow.

Definition frame_ok (f : option (Packet + Error)) : Prop :=
  match f with Some f => decoded f | None => True end.

Record answer_ok (a : Answer) : Prop := {
  ok_requests : Forall client_envelope (a_requests a);
  ok_control : Forall client_envelope (a_control a);
  ok_immediate : Forall immediate_envelope (a_immediate a);
  ok_frame f : a_frame a = Some f → frame_ok f;
  ok_now : a_now a ≤ CLOCK_MAX;
}.

Definition env_ok (env : Env) : Prop := ∀ n, answer_ok (env n).

Section LoopInv.
  Context {B : Type} `{FixedBitSetLaws B}.

Implicit Types (l : EventLoop B) (s : MqttState B).
Abbreviation EL := (M (EventLoop B) Stop).

(** Every request in a queue of the loop. *)
Definition waiting l : list RequestEnvelope := pending l ++ queue (queued l).

(** The requests in a queue that are not sent for the first time. *)
Definition replays l : list RequestEnvelope := replay_envelopes (waiting l).

Lemma queued_replays_eq l : queued_replays l = replays l.
Proof. unfold queued_replays, replays, replay_envelopes, waiting. by rewrite filter_app. Qed.

(** [hand] are requests that were taken out of a queue to be sent again. *)
Record linv (hand : list RequestEnvelope) l : Prop := {
  li_sess : sess (hand ++ replays l) (el_state l);
  li_plain : Forall (λ e, env_replay e = false → client_request (env_request e)) (waiting l);
  li_requests : Forall client_envelope (chan_items (requests_rx l));
  li_control : Forall client_envelope (chan_items (control_requests_rx l));
  li_immediate : Forall immediate_envelope (chan_items (immediate_disconnect_rx l));
  li_stored : map_Forall (λ _ p, stored_ok p) (stored (world l));
  li_key : session_store_key l = None → replays l = [] ∧ idle (el_state l);
  li_network : network l ≠ None → session_store_key l ≠ None;
  li_loaded : store_loaded l = false → session_store_key l = None;
  li_options : options_ok (el_options l);
}.

Abbreviation connected l := (network l ≠ None).

(** ** Operations that leave the invariant alone *)

Lemma linv_frame hand l l' :
  linv hand l → el_state l' = el_state l → pending l' = pending l → queued l' = queued l →
  requests_rx l' = requests_rx l → control_requests_rx l' = control_requests_rx l →
  immediate_disconnect_rx l' = immediate_disconnect_rx l →
  stored (world l') = stored (world l) → session_store_key l' = session_store_key l →
  (connected l' → connected l) → (store_loaded l' = false → store_loaded l = false) →
  el_options l' = el_options l → linv hand l'.
Proof.
  intros [L1 L2 L3 L4 L5 L6 L7 L8 L9 L10] H1 H2 H3 H4 H5 H6 H7 H8 H9 H10 H11.
  unfold replays, waiting in *.
  split; unfold replays, waiting; rewrite ?H1, ?H2, ?H3, ?H4, ?H5, ?H6, ?H7, ?H8, ?H11; auto.
Qed.

(** ** Rules *)

Lemma wp_in_state {A} (m : M (MqttState B) StateError A) Q X l :
  wp m (λ a s, Q a (set_el_state s l)) (λ e s, X (Failed (CE_MqttState e)) (set_el_state s l)) (el_state l) →
  wp (in_state m) Q X l.
Proof. unfold wp, in_state. by destruct (m (el_state l)) as [[]]. Qed.

Lemma wp_in_state_try {A} (m : M (MqttState B) StateError A) Q X l :
  wp m (λ a s, Q (inl a) (set_el_state s l)) (λ e s, Q (inr e) (set_el_state s l)) (el_state l) →
  wp (in_state_try m) Q X l.
Proof. unfold wp, in_state_try. by destruct (m (el_state l)) as [[]]. Qed.

Lemma wp_in_state_total {A} (m : M (MqttState B) StateError A) Q X l :
  wp m (λ a s, Q a (set_el_state s l)) (λ _ _, False) (el_state l) →
  wp (in_state_total m) Q X l.
Proof. unfold wp, in_state_total. by destruct (m (el_state l)) as [[]]. Qed.

Lemma wp_in_restore {A} (m : M (MqttState B) SessionRestoreError A) Q X l :
  wp m (λ a s, Q a (set_el_state s l)) (λ e s, X (Failed (CE_SessionRestore e)) (set_el_state s l))
    (el_state l) →
  wp (in_restore m) Q X l.
Proof. unfold wp, in_restore. by destruct (m (el_state l)) as [[]]. Qed.

Lemma wp_try {A} (m : EL A) (Q : A + ConnectionError → EventLoop B → Prop) (X : Stop → EventLoop B → Prop) l :
  wp m (λ a, Q (inl a)) (λ st l', match st with Failed e => Q (inr e) l' | Dropped => X Dropped l' end) l →
  wp (try_ m) Q X l.
Proof. unfold wp, try_. by destruct (m l) as [[|[]|]]. Qed.

Lemma wp_then_always {A} (m : EL A) f (Q : A → EventLoop B → Prop) (X : Stop → EventLoop B → Prop) l :
  wp m (λ a l', Q a (f l')) (λ st l', X st (f l')) l → wp (then_always m f) Q X l.
Proof. unfold wp, then_always. by destruct (m l) as [[]]. Qed.

Lemma wp_the_network Q (X : Stop → EventLoop B → Prop) l :
  connected l → (∀ n, network l = Some n → Q n l) → wp the_network Q X l.
Proof.
  intros Hc HQ. apply wp_bind, wp_get, wp_lift. destruct (network l) as [n|]; [|done]. by apply HQ.
Qed.

(** The environment answers. *)
Section Ask.
  Context (env : Env) (Henv : env_ok env).

Lemma linv_ask hand a l n :
  answer_ok a → linv hand l → linv hand (arrive a (set_world (set_tick n (world l)) l)).
Proof.
  intros [A1 A2 A3 _ _] [L1 L2 L3 L4 L5 L6 L7 L8 L9 L10]. split; try done; by apply Forall_app.
Qed.

(** What does not change while the loop waits. *)
Record awaited l l' : Prop := {
  aw_state : el_state l' = el_state l;
  aw_network : network l' = network l;
  aw_options : el_options l' = el_options l;
  aw_pending : pending l' = pending l;
  aw_queued : queued l' = queued l;
  aw_key : session_store_key l' = session_store_key l;
  aw_loaded : store_loaded l' = store_loaded l;
  aw_stored : stored (world l') = stored (world l);
  aw_timeout : keepalive_timeout l' = keepalive_timeout l;
}.

Lemma wp_ask hand l (Q : Answer → EventLoop B → Prop) (X : Stop → EventLoop B → Prop) :
  linv hand l →
  (∀ a l', answer_ok a → linv hand l' → awaited l l' → Q a l') →
  wp (ask env) Q X l.
Proof. intros L HQ. apply HQ; [apply Henv|by apply linv_ask|done..]. Qed.

Lemma wp_now hand l (Q : Z → EventLoop B → Prop) (X : Stop → EventLoop B → Prop) :
  linv hand l →
  (∀ at_ l', linv hand l' → awaited l l' → Q at_ l') →
  wp (now env) Q X l.
Proof. intros L HQ. apply wp_bind, (wp_ask hand); [done|]. intros. apply wp_ret. by apply HQ. Qed.

Lemma wp_now_bounded hand l (Q : Z → EventLoop B → Prop) (X : Stop → EventLoop B → Prop) :
  linv hand l →
  (∀ at_ l', at_ ≤ CLOCK_MAX → linv hand l' → awaited l l' → Q at_ l') →
  wp (now env) Q X l.
Proof.
  intros L HQ. apply wp_bind, (wp_ask hand); [done|]. intros a l' Ha. intros. apply wp_ret.
  apply HQ; [apply Ha|done..].
Qed.

(** Deadlines that do not overflow. *)
Lemma instant_add_ok {E} at_ d : at_ ≤ CLOCK_MAX → d ≤ CLOCK_MAX → instant_add (E:=E) at_ d = Ok (at_ + d).
Proof.
  intros Ha Hd. unfold instant_add, instant_checked_add, Instant_MAX, CLOCK_MAX in *.
  by rewrite (proj2 (Z.leb_le _ _)) by lia.
Qed.
End Ask.

(** ** Writing *)

Section Write.
  Context (env : Env) (Henv : env_ok env).

Lemma linv_set_network hand l n n' :
  linv hand l → network l = Some n → linv hand (set_network (Some n') l).
Proof. intros L Hn. eapply linv_frame; try done. intros _. by rewrite Hn. Qed.

(** Errors leave the invariant, and so does a poll that is dropped. *)
Abbreviation safe m Q l := (wp m Q (λ _ l', linv [] l') l).

(** Over an operation on the connection: the state is untouched. *)
Definition written l l' : Prop := linv [] l' ∧ connected l' ∧ el_state l' = el_state l.

(** Over an operation on the store. *)
Definition stored_over l l' : Prop :=
  linv [] l' ∧ el_state l' = el_state l ∧ network l' = network l ∧ el_options l' = el_options l ∧
  pending l' = pending l ∧ queued l' = queued l ∧ session_store_key l' = session_store_key l.

#[local] Ltac frames := intros; unfold written, stored_over in *; split_and!.

Lemma written_refl l : linv [] l → connected l → written l l.
Proof. by frames. Qed.

Lemma written_awaited l0 l l' : awaited l l' → linv [] l' → written l0 l → written l0 l'.
Proof. intros W L (_ & C & S). frames; [done|by rewrite (aw_network _ _ W)|]. by rewrite (aw_state _ _ W). Qed.

Lemma written_trans l1 l2 l3 : written l1 l2 → written l2 l3 → written l1 l3.
Proof. intros (_ & _ & S1) (L & C & S2). frames; congruence. Qed.

Lemma safe_start_send packet l0 l :
  written l0 l → safe (start_send packet) (λ _ l', written l0 l') l.
Proof.
  intros (L & C & S). apply wp_bind, wp_the_network; [done|]. intros n Hn.
  pose proof (encode_cases (net_codec n) packet (net_wire n)) as He.
  destruct (Codec_encode _ _ _) as [[]]; [| |done]; apply wp_bind, wp_modify, wp_ret;
    (frames; [by eapply linv_set_network|done|done]).
Qed.

Lemma safe_await_write k l0 l :
  written l0 l → (∀ l', written l0 l' → safe k (λ _ l', written l0 l') l') →
  safe (await_write env k) (λ _ l', written l0 l') l.
Proof.
  intros Hw Hk. destruct (Hw) as (L & C & S). apply wp_bind, wp_the_network; [done|]. intros n Hn.
  apply wp_bind, (wp_ask env Henv []); [done|]. intros a l' Ha L' W.
  pose proof (written_awaited _ _ _ W L' Hw). destruct (a_io a), (net_write_deadline n);
    try (by apply Hk); try (by apply wp_ret); by apply wp_fail.
Qed.

Lemma safe_Network_write packet l0 l :
  written l0 l → safe (Network_write env packet) (λ _ l', written l0 l') l.
Proof. intros Hw. apply safe_await_write; [done|]. intros l' Hw'. by apply safe_start_send. Qed.

Lemma safe_write_request packet l0 l :
  written l0 l → safe (write_request env packet) (λ _ l', written l0 l') l.
Proof.
  intros Hw. destruct (Hw) as (L & C & S). apply wp_bind, wp_the_network; [done|]. intros n Hn.
  apply wp_bind, (wp_ask env Henv []); [done|]. intros a l' Ha L' W.
  pose proof (written_awaited _ _ _ W L' Hw).
  destruct (a_io a); [by apply safe_start_send|by apply wp_ret|by apply wp_fail..].
Qed.

Lemma safe_flush_network l0 l :
  written l0 l → safe (flush_network env) (λ _ l', written l0 l') l.
Proof.
  intros Hw. destruct (Hw) as (L & C & S). apply wp_bind, wp_bind, wp_the_network; [done|]. intros n Hn.
  apply wp_bind, (wp_ask env Henv []); [done|]. intros a l' Ha L' W.
  pose proof (written_awaited _ _ _ W L' Hw).
  destruct (a_io a); try (by apply wp_ret, wp_ret); try (by apply wp_ret, wp_fail); by apply wp_fail.
Qed.

Lemma safe_state_try {A} (m : EL (A + StateError)) (Q : A → EventLoop B → Prop) l :
  safe m (λ r l', match r with inl a => Q a l' | inr _ => linv [] l' end) l →
  safe (state_try m) Q l.
Proof.
  intros Hm. apply wp_bind. eapply wp_mono; [exact Hm| |done]. intros [a|e] l' HQ; [by apply wp_ret|].
  by apply wp_fail.
Qed.

Lemma linv_settle hand l n : linv hand l → linv hand (set_world (add_settled n (world l)) l).
Proof. intros L. by eapply linv_frame. Qed.

(** ** The store *)

Lemma awaited_stored l l' : linv [] l' → awaited l l' → stored_over l l'.
Proof. intros L []. by frames. Qed.

Lemma stored_over_trans l1 l2 l3 : stored_over l1 l2 → stored_over l2 l3 → stored_over l1 l3.
Proof. unfold stored_over. intros. destruct_and!. split_and!; congruence. Qed.

Lemma linv_set_stored hand l m :
  linv hand l → map_Forall (λ _ p, stored_ok p) m → linv hand (set_world (set_stored m (world l)) l).
Proof. intros [L1 L2 L3 L4 L5 L6 L7 L8 L9] Hm. by split. Qed.

Lemma safe_store_update f l :
  linv [] l →
  (∀ m, map_Forall (λ _ p, stored_ok p) m → map_Forall (λ _ p, stored_ok p) (f m)) →
  safe (store_update env f) (λ _ l', stored_over l l') l.
Proof.
  intros L Hf. apply wp_bind, (wp_ask env Henv []); [done|]. intros a l' Ha L' W.
  assert (Hc : linv [] (set_world (set_stored (f (stored (world l'))) (world l')) l')).
  { apply linv_set_stored; [done|]. apply Hf, L'. }
  pose proof (awaited_stored _ _ L' W) as So.
  destruct (a_store a) as [|[]|[]].
  - apply wp_modify. eapply stored_over_trans; [exact So|]. by frames.
  - by apply wp_bind, wp_modify, wp_fail.
  - by apply wp_bind, wp_ret, wp_fail.
  - by apply wp_bind, wp_modify, wp_fail.
  - by apply wp_bind, wp_ret, wp_fail.
Qed.

(** A checkpoint of the loop is saved. *)
Lemma safe_save l : linv [] l → safe (save_persisted_session env) (λ _ l', stored_over l l') l.
Proof.
  intros L. unfold save_persisted_session, persisted_session_save. apply wp_bind, wp_bind, wp_get.
  destruct (opt_clean_session _); [by apply wp_ret, wp_ret; frames|].
  destruct (opt_session_store _); [|by apply wp_ret, wp_ret; frames]. cbn [negb].
  rewrite queued_replays_eq.
  destruct (sess_checkpoint (replays l) (el_state l) (el_options l) (li_sess _ _ L)) as (p & -> & _ & Hp).
  apply wp_ret, wp_bind. eapply wp_mono; [apply safe_store_update; [done|]| |done].
  { intros m Hm. by apply map_Forall_insert_2. }
  intros u l' So. apply wp_bind, wp_modify, wp_modify. eapply stored_over_trans; [exact So|].
  destruct So as (L' & _). frames; try done. by eapply linv_frame.
Qed.
End Write.
End LoopInv.
