(* ===== verification/V4LoopQueues.v ===== *)
(** The event loop of the MQTT 3.1.1 client keeps its invariant: queues, resets, the session store
    and establishing a connection. *)

From S2P Require Import Prelude.
From S2P Require Import Utf8.
From S2P Require Import Primitives.
From S2P Require Import CodecBase.
From S2P Require Import V4Base.
From S2P Require Import V4Acks.
From S2P Require Import V4Publish.
From S2P Require Import V4Subscribe.
From S2P Require Import V4Connect.
From S2P Require Import V4Packet.
From S2P Require Import Scheduler.
From S2P Require Import FixedBitSet.
From S2P Require Import SessionIO.
From S2P Require Import V4SessionFormat.
From S2P Require Import V4SessionTypes.
From S2P Require Import PacketIds.
From S2P Require Import V4State.
From S2P Require Import V4Clean.
From S2P Require Import V4Invariant.
From S2P Require Import V4Handlers.
From S2P Require Import V4Session.
From S2P Require Import V4CleanProofs.
From S2P Require Import V4Reachable.
From S2P Require Import V4Delivery.
From S2P Require Import V4Reconnect.
From S2P Require Import V4Persist.
From S2P Require Import V4Restore.
From S2P Require Import V4Recovery.
From S2P Require Import V4LoopTypes.
From S2P Require Import V4LoopSession.
From S2P Require Import V4EventLoop.
From S2P Require Import V4LoopState.
From S2P Require Import V4LoopInv.
#[local] Open Scope Z_scope.

Section LoopQueues.
  Context {B : Type} `{FixedBitSetLaws B} (env : Env) (Henv : env_ok env).

Implicit Types (l : EventLoop B) (s : MqttState B).
Abbreviation EL := (M (EventLoop B) Stop).
Abbreviation connected l := (network l ≠ None).
Abbreviation safe m Q l := (wp m Q (λ _ l', linv [] l') l).
Abbreviation lost s := (clean_request_envelope <$> unfinished s).
Abbreviation plain_ok := (λ e, env_replay e = false → client_request (env_request e)).

(** ** Moving requests between queues *)

Lemma linv_requeue hand hand' l l' :
  linv hand l → el_state l' = el_state l → hand' ++ replays l' ≡ₚ hand ++ replays l →
  (session_store_key l = None → replays l = [] → replays l' = []) →
  Forall plain_ok (waiting l') → Forall client_envelope (chan_items (requests_rx l')) →
  Forall client_envelope (chan_items (control_requests_rx l')) →
  immediate_disconnect_rx l' = immediate_disconnect_rx l →
  stored (world l') = stored (world l) → session_store_key l' = session_store_key l →
  (connected l' → connected l) → (store_loaded l' = false → store_loaded l = false) →
  el_options l' = el_options l → linv hand' l'.
Proof.
  intros [L1 L2 L3 L4 L5 L6 L7 L8 L9 L10] Hs Hp Hk H1 H2 H3 H4 H5 H6 H7 H8 H9. split; try done.
  - rewrite Hs. by apply (sess_perm (hand ++ replays l)).
  - by rewrite H4.
  - by rewrite H5.
  - rewrite H6, Hs. intros Hn. destruct (L7 Hn). auto.
  - rewrite H6. auto.
  - rewrite H6. auto.
  - by rewrite H9.
Qed.

Lemma replays_app (L L' : list RequestEnvelope) :
  replay_envelopes (L ++ L') = replay_envelopes L ++ replay_envelopes L'.
Proof. apply filter_app. Qed.

(** Requests sent for the first time are no replays. *)
Lemma replays_client (L : list RequestEnvelope) : Forall client_envelope L → replay_envelopes L = [].
Proof.
  induction 1 as [|e L [He _] _ IH]; [done|]. unfold replay_envelopes. rewrite filter_cons_False; [done|].
  by rewrite He.
Qed.

Lemma Forall_replayable (P : RequestEnvelope → Prop) L : Forall P L → Forall P (replayable_envelopes L).
Proof.
  rewrite !Forall_forall. intros HL e [_ He]%list_elem_of_filter. by apply HL.
Qed.

Lemma plain_client L : Forall client_envelope L → Forall plain_ok L.
Proof. intros HL. apply (Forall_impl _ _ _ HL). by intros e [_ ?]. Qed.

(** What is to be sent again outlives a connection. *)
Lemma replays_replayable L :
  Forall replay_ok (replay_envelopes L) → replay_envelopes (replayable_envelopes L) = replay_envelopes L.
Proof.
  unfold replay_envelopes, replayable_envelopes. induction L as [|e L IH]; [done|].
  rewrite !(filter_cons _ e L). destruct (env_replay e) eqn:He.
  - rewrite decide_True by done. intros [Hok HL]%Forall_cons.
    rewrite decide_True by (unfold replay_ok in Hok; by destruct (env_request e)).
    rewrite filter_cons_True by done. by rewrite IH.
  - rewrite (decide_False (P := false = true)) by done. intros HL. case_decide; [|by apply IH].
    rewrite filter_cons_False by (by rewrite He). by apply IH.
Qed.

Lemma replay_ok_part l (L : list RequestEnvelope) hand :
  linv hand l → (∀ e, e ∈ L → e ∈ waiting l) → Forall replay_ok (replay_envelopes L).
Proof.
  intros Hl HL. pose proof (sess_ok _ _ (li_sess _ _ Hl)) as Hok. apply Forall_app in Hok as [_ Hok].
  rewrite Forall_forall in Hok |- *. intros e [He Hin]%list_elem_of_filter. apply Hok.
  apply list_elem_of_filter. auto.
Qed.

(** A pure move. *)
Lemma linv_move hand l l' :
  linv hand l → el_state l' = el_state l → replays l' ≡ₚ replays l →
  Forall plain_ok (waiting l') → Forall client_envelope (chan_items (requests_rx l')) →
  Forall client_envelope (chan_items (control_requests_rx l')) →
  immediate_disconnect_rx l' = immediate_disconnect_rx l →
  stored (world l') = stored (world l) → session_store_key l' = session_store_key l →
  (connected l' → connected l) → (store_loaded l' = false → store_loaded l = false) →
  el_options l' = el_options l → linv hand l'.
Proof.
  intros L Hs Hp. apply (linv_requeue hand); [done|done|by rewrite Hp|].
  intros _ Hn. rewrite Hn in Hp. by apply Permutation_nil_r in Hp.
Qed.

(** *** Draining *)

Lemma wp_drain_queued (Q : list RequestEnvelope → EventLoop B → Prop) (X : Stop → EventLoop B → Prop) l :
  Q (queue (queued l)) (set_queued (mkScheduler []) l) → wp drain_queued Q X l.
Proof. done. Qed.

Lemma wp_drain_requests (Q : list RequestEnvelope → EventLoop B → Prop) (X : Stop → EventLoop B → Prop) l :
  Q (chan_items (requests_rx l)) (set_requests_rx (mkChannel [] (chan_disconnected (requests_rx l))) l) →
  wp drain_requests_rx Q X l.
Proof. done. Qed.

Lemma wp_drain_control (Q : list RequestEnvelope → EventLoop B → Prop) (X : Stop → EventLoop B → Prop) l :
  Q (chan_items (control_requests_rx l))
    (set_control_requests_rx (mkChannel [] (chan_disconnected (control_requests_rx l))) l) →
  wp drain_control_requests_rx Q X l.
Proof. done. Qed.

(** The queue and the channels go to the end of [pending], but for acknowledgements. *)
Definition requeue_queued l : EventLoop B :=
  let l' := set_queued (mkScheduler []) l in
  set_pending (pending l ++ replayable_envelopes (queue (queued l))) l'.
Definition requeue_requests l : EventLoop B :=
  let l' := set_requests_rx (mkChannel [] (chan_disconnected (requests_rx l))) l in
  set_pending (pending l ++ replayable_envelopes (chan_items (requests_rx l))) l'.
Definition requeue_control l : EventLoop B :=
  let l' := set_control_requests_rx (mkChannel [] (chan_disconnected (control_requests_rx l))) l in
  set_pending (pending l ++ replayable_envelopes (chan_items (control_requests_rx l))) l'.

Lemma linv_requeue_queued hand l : linv hand l → linv hand (requeue_queued l).
Proof.
  intros L. pose proof (li_plain _ _ L) as Hp. apply Forall_app in Hp as [Hp1 Hp2].
  apply (linv_move hand l); try done.
  - unfold replays, waiting, requeue_queued. cbn [pending queued queue set_pending set_queued].
    rewrite app_nil_r, !replays_app, replays_replayable; [done|].
    apply (replay_ok_part l _ hand L). intros e He. apply elem_of_app. by right.
  - unfold waiting, requeue_queued. cbn [pending queued queue set_pending set_queued].
    rewrite app_nil_r. apply Forall_app. split; [done|by apply Forall_replayable].
  - apply L.
  - apply L.
Qed.

Lemma linv_extend_client hand l L :
  linv hand l → Forall client_envelope L → linv hand (set_pending (pending l ++ replayable_envelopes L) l).
Proof.
  intros Hl HL. pose proof (Forall_replayable _ _ HL) as HL'.
  pose proof (li_plain _ _ Hl) as Hp. apply Forall_app in Hp as [Hp1 Hp2].
  apply (linv_move hand l); try done.
  - unfold replays, waiting. cbn [pending queued set_pending].
    by rewrite !replays_app, (replays_client _ HL'), app_nil_r.
  - unfold waiting. cbn [pending queued set_pending]. rewrite !Forall_app. split_and!; [done|by apply plain_client|done].
  - apply Hl.
  - apply Hl.
Qed.

Lemma linv_requeue_requests hand l : linv hand l → linv hand (requeue_requests l).
Proof.
  intros L. pose proof (linv_extend_client hand l _ L (li_requests _ _ L)) as L'.
  destruct L'. by split.
Qed.

Lemma linv_requeue_control hand l : linv hand l → linv hand (requeue_control l).
Proof.
  intros L. pose proof (linv_extend_client hand l _ L (li_control _ _ L)) as L'.
  destruct L'. by split.
Qed.

(** One step of the code each. *)
Section Steps.
  Context {A : Type} (k : EL A) (Q : A → EventLoop B → Prop) (X : Stop → EventLoop B → Prop).
  Context (hand : list RequestEnvelope) (l : EventLoop B) (L : linv hand l).
  Context (Hk : ∀ l', linv hand l' → network l' = network l → wp k Q X l').

Lemma wp_requeue_queued :
  wp (envelopes ← drain_queued; extend_pending (replayable_envelopes envelopes);; k) Q X l.
Proof.
  apply wp_bind, wp_drain_queued, wp_bind, wp_modify, Hk; [|done]. exact (linv_requeue_queued _ _ L).
Qed.

Lemma wp_requeue_requests :
  wp (envelopes ← drain_requests_rx; extend_pending (replayable_envelopes envelopes);; k) Q X l.
Proof.
  apply wp_bind, wp_drain_requests, wp_bind, wp_modify, Hk; [|done]. exact (linv_requeue_requests _ _ L).
Qed.
End Steps.

Lemma wp_requeue_control (Q : unit → EventLoop B → Prop) (X : Stop → EventLoop B → Prop) hand l :
  linv hand l → (∀ l', linv hand l' → network l' = network l → Q tt l') →
  wp (envelopes ← drain_control_requests_rx; extend_pending (replayable_envelopes envelopes)) Q X l.
Proof.
  intros L HQ. apply wp_bind, wp_drain_control, wp_modify, HQ; [|done]. exact (linv_requeue_control _ _ L).
Qed.

(** *** [discard_pending_manual_acknowledgements] *)

Lemma foldl_push_back (q : OutboundScheduler RequestEnvelope) L :
  queue (foldl push_back q L) = queue q ++ L.
Proof.
  revert q. induction L as [|e L IH]; intros q; cbn [foldl]; [by rewrite app_nil_r|].
  rewrite IH. cbn [push_back queue]. by rewrite <- (assoc_L (++)).
Qed.

Lemma safe_discard_acks l :
  linv [] l → safe discard_pending_manual_acknowledgements (λ _ l', linv [] l' ∧ network l' = network l) l.
Proof.
  intros L. unfold discard_pending_manual_acknowledgements. apply wp_bind, wp_modify, wp_bind, wp_drain_queued.
  apply wp_bind, wp_modify.
  match goal with |- wp _ _ _ ?l' => assert (L1 : linv [] l') end.
  { pose proof (li_plain _ _ L) as Hp. apply Forall_app in Hp as [Hp1 Hp2].
    apply (linv_move [] l); try done.
    - unfold replays, waiting. cbn [pending queued set_pending set_queued]. rewrite foldl_push_back.
      cbn [queue app]. rewrite !replays_app, !replays_replayable; [done|..];
        apply (replay_ok_part l _ [] L); intros e He; apply elem_of_app; auto.
    - unfold waiting. cbn [pending queued set_pending set_queued]. rewrite foldl_push_back. cbn [queue app].
      apply Forall_app. split; by apply Forall_replayable.
    - apply L.
    - apply L. }
  apply (wp_requeue_requests _ _ _ _ _ L1). intros l2 L2 Hn2.
  apply (wp_requeue_control _ _ _ _ L2). intros l3 L3 Hn3. split; [done|]. by rewrite Hn3, Hn2.
Qed.

(** ** A connection is lost *)

Lemma linv_disconnected hand l : linv hand l → linv hand (set_network None l).
Proof. intros L. by eapply linv_frame. Qed.

Lemma replay_all_replays L : Forall (λ e, env_replay e = true) L → replay_envelopes L = L.
Proof.
  induction 1 as [|e L He _ IH]; [done|]. unfold replay_envelopes in *. rewrite filter_cons_True by done.
  by rewrite IH.
Qed.

Lemma idle_cleaned Rp Rc s s' : idle s → cleaned true Rp Rc s s' → idle s'.
Proof.
  intros [Hu Hr] [_ C1 C2 C3 [C4 C5] C6 _ _ _ _ _ _]. unfold idle, unfinished, clean_held in *.
  rewrite C1, C2, C4, C5, C6, C3, Hr. split; [done|].
  apply app_eq_nil in Hu as [_ Hu]. apply app_eq_nil in Hu as [_ Hu]. apply app_eq_nil in Hu as [Hu _].
  by apply map_eq_nil in Hu as ->.
Qed.

(** What the connection has not finished joins the queue. *)
Lemma linv_collect l s' (C : cleaned true (pub_ids (replays l)) (ctl_ids (replays l)) (el_state l) s') pubs rels ctls :
  linv [] l → kinds (lost (el_state l)) pubs rels ctls → sess (lost (el_state l) ++ replays l) s' →
  linv [] (set_pending (pending l ++ lost (el_state l)) (set_el_state s' l)).
Proof.
  intros [L1 L2 L3 L4 L5 L6 L7 L8 L9] [_ _ _ K4 K5] S.
  assert (Hr : replays (set_pending (pending l ++ lost (el_state l)) (set_el_state s' l)) ≡ₚ
               lost (el_state l) ++ replays l).
  { unfold replays, waiting. cbn [pending queued set_pending set_el_state].
    rewrite !replays_app, (replay_all_replays _ K5). solve_Permutation. }
  split; try done.
  - cbn [app]. by apply (sess_perm (lost (el_state l) ++ replays l)).
  - unfold waiting in *. cbn [pending queued set_pending set_el_state]. apply Forall_app in L2 as [L2a L2b].
    rewrite !Forall_app. split_and!; [done| |done]. apply (Forall_impl _ _ _ K5). congruence.
  - cbn [session_store_key set_pending set_el_state el_state]. intros Hn. destruct (L7 Hn) as [Hn1 Hid].
    split; [|by eapply idle_cleaned]. destruct Hid as [Hu _]. apply Permutation_nil_r.
    rewrite Hr. by rewrite Hu, Hn1.
Qed.

Lemma safe_clean l :
  linv [] l → safe EventLoop_clean (λ _ l', linv [] l' ∧ network l' = None) l.
Proof.
  intros L. unfold EventLoop_clean, forget_connection.
  apply wp_bind, wp_bind, wp_modify, wp_bind, wp_modify, wp_bind, wp_modify, wp_modify.
  apply wp_bind, wp_modify, wp_bind, wp_in_state_total.
  match goal with |- wp _ _ _ (el_state ?l') => assert (L1 : linv [] l') by
    (by eapply linv_frame); set (l1 := l') in * end.
  eapply wp_mono; [apply (wp_sess_clean (replays l1)), (li_sess _ _ L1)| |done].
  intros r s' (-> & K & S & C). apply wp_bind, wp_modify.
  pose proof (linv_collect l1 s' C _ _ _ L1 K S) as L2.
  apply (wp_requeue_queued _ _ _ _ _ L2). intros l3 L3 Hn3.
  apply (wp_requeue_requests _ _ _ _ _ L3). intros l4 L4 Hn4.
  apply (wp_requeue_control _ _ _ _ L4). intros l5 L5 Hn5. split; [done|]. by rewrite Hn5, Hn4, Hn3.
Qed.

(** ** Resets *)

(** Over a reset: nothing is left of the session. *)
Record fresh l l' : Prop := {
  fresh_inv : linv [] l';
  fresh_key : session_store_key l' = None;
  fresh_replays : replays l' = [];
  fresh_idle : idle (el_state l');
  fresh_network : network l' = network l;
  fresh_options : el_options l' = el_options l;
}.

Lemma safe_reset_internal action l :
  linv [] l → network l = None →
  safe (reset_session_state_internal env action) (λ _ l', fresh l l') l.
Proof.
  intros L Hn. unfold reset_session_state_internal, drain_pending_as_failed.
  apply wp_bind, wp_bind, wp_get, wp_bind, wp_modify, wp_bind, wp_modify, wp_bind, wp_drain_queued,
    wp_bind, wp_modify, wp_ret.
  match goal with |- wp _ _ _ ?l' => set (l1 := l') end.
  assert (L1 : linv (replays l) l1).
  { apply (linv_requeue [] _ l); try done; [by rewrite app_nil_r|apply L..]. }
  apply wp_bind, (wp_now env Henv (replays l)); [done|]. intros at_ l2 L2 W.
  apply wp_bind, wp_in_state_total, (wp_sess_reset _ _ _ _ _ (li_sess _ _ L2)). intros s' S Hid _ _.
  do 5 apply wp_bind, wp_modify.
  assert (Hw : waiting l2 = []) by (unfold waiting; by rewrite (aw_pending _ _ W), (aw_queued _ _ W)).
  assert (Hr : replays l2 = []) by (unfold replays; by rewrite Hw).
  assert (Hc : network l2 = None) by (by rewrite (aw_network _ _ W)).
  destruct L2 as [_ L2 L3 L4 L5 L6 _ _ _].
  destruct action; [apply wp_ret|apply wp_modify]; (split; [|done|exact Hr|done|apply W|apply W]);
    (split; try done; change (sess (replays l2) s'); by rewrite Hr).
Qed.

(** Resetting does not panic while connected, either. *)
Lemma reset_no_panic action l :
  linv [] l → (reset_session_state_internal env action l).1 ≠ Panic.
Proof.
  intros L.
  cut (wp (reset_session_state_internal env action) (λ _ _, True) (λ _ _, True) l).
  { unfold wp. by destruct (reset_session_state_internal env action l) as [[]]. }
  unfold reset_session_state_internal, drain_pending_as_failed.
  apply wp_bind, wp_bind, wp_get, wp_bind, wp_modify, wp_bind, wp_modify, wp_bind, wp_drain_queued,
    wp_bind, wp_modify, wp_ret.
  apply wp_bind, (wp_now env Henv (replays l)).
  { apply (linv_requeue [] _ l); try done; [by rewrite app_nil_r|apply L..]. }
  intros at_ l2 L2 W. apply wp_bind, wp_in_state_total, (wp_sess_reset _ _ _ _ _ (li_sess _ _ L2)). intros s' _ _ _ _.
  do 5 apply wp_bind, wp_modify. destruct action; [by apply wp_ret|by apply wp_modify].
Qed.

(** Before a connection is established. *)
Definition offline l0 l : Prop := linv [] l ∧ network l = None ∧ el_options l = el_options l0.

Lemma safe_reset_if_changed l :
  linv [] l → network l = None →
  safe (reset_session_state_if_client_id_changed env) (λ _ l', offline l l') l.
Proof.
  intros L Hn. unfold reset_session_state_if_client_id_changed. apply wp_bind, wp_get.
  case_bool_decide; [by apply wp_ret|]. apply wp_bind.
  eapply wp_mono with (Q := λ _ l', offline l l' ∧ session_store_key l' = None) (X := λ _ l', linv [] l'); [| |done].
  - destruct (session_store_key l) eqn:Hk; cbn [is_some is_none negb]; [|by apply wp_ret].
    eapply wp_mono; [by apply safe_reset_internal| |done]. intros u l' [F1 F2 F3 F4 F5 F6].
    split; [|done]. split_and!; [done|by rewrite F5|done].
  - intros u l' [(L' & Hn' & Ho') Hk']. apply wp_bind, wp_modify, wp_bind, wp_modify, wp_modify.
    split_and!; [|done..]. destruct L' as [L1 L2 L3 L4 L5 L6 L7 L8 L9]. split; try done; auto.
Qed.

(** ** The store *)

Lemma stored_offline l0 l l' : offline l0 l → stored_over l l' → offline l0 l'.
Proof. intros (_ & Hn & Ho) (L & _ & Hn' & Ho' & _). split_and!; congruence. Qed.

Lemma safe_clear_persisted l :
  linv [] l →
  safe (clear_persisted_session env) (λ _ l', stored_over l l' ∧ store_loaded l' = true) l.
Proof.
  intros L. unfold clear_persisted_session. apply wp_bind, wp_get.
  destruct (opt_session_store (el_options l)); cbn [negb].
  - apply wp_bind. eapply wp_mono; [apply (safe_store_update env Henv); [done|]| |done].
    { intros m Hm. by apply map_Forall_delete. }
    intros u l' So. apply wp_bind, wp_modify, wp_modify. split; [|done].
    eapply stored_over_trans; [exact So|]. destruct So as (L' & _). unfold stored_over. split_and!; try done.
    by eapply linv_frame.
  - apply wp_bind, wp_modify, wp_modify. split; [|done]. unfold stored_over. split_and!; try done.
    by eapply linv_frame.
Qed.

(** A checkpoint is loaded when nothing is left of a session. *)
Lemma linv_restored l s' reqs key :
  linv [] l → network l = None → replays l = [] →
  sess (envelope_plain_replay <$> reqs) s' →
  linv [] (set_store_loaded true (set_session_store_key (Some key)
    (set_el_client_id (Some key.2) (set_pending (pending l ++ (envelope_plain_replay <$> reqs))
      (set_el_state s' l))))).
Proof.
  intros [L1 L2 L3 L4 L5 L6 L7 L8 L9] Hn Hr S.
  assert (Hall : Forall (λ e, env_replay e = true) (envelope_plain_replay <$> reqs))
    by (apply Forall_fmap, Forall_forall; done).
  split; try done.
  - cbn [app]. eapply sess_perm; [|exact S]. symmetry. unfold replays, waiting.
    cbn [pending queued set_pending set_el_state set_store_loaded set_session_store_key set_el_client_id].
    unfold replays, waiting in Hr. rewrite replays_app in Hr. apply app_eq_nil in Hr as [Hr1 Hr2].
    by rewrite !replays_app, Hr1, Hr2, app_nil_r, (replay_all_replays _ Hall).
  - unfold waiting in *. cbn [pending queued set_pending set_el_state set_store_loaded set_session_store_key set_el_client_id].
    apply Forall_app in L2 as [L2a L2b]. rewrite !Forall_app. split_and!; [done| |done].
    apply (Forall_impl _ _ _ Hall). congruence.
Qed.

Lemma safe_load l :
  linv [] l → network l = None →
  safe (load_persisted_session_if_needed env)
    (λ _ l', offline l l' ∧ store_loaded l' = true) l.
Proof.
  intros L Hn. unfold load_persisted_session_if_needed. apply wp_bind, wp_get.
  destruct (store_clear_pending l).
  { eapply wp_mono; [by apply safe_clear_persisted| |done]. intros u l' [So Hl]. split; [|done].
    by eapply stored_offline. }
  destruct (store_loaded l) eqn:Hld; cbn [orb].
  { apply wp_modify. split; [|done]. split_and!; try done. by eapply linv_frame. }
  destruct (opt_clean_session _).
  { apply wp_modify. split; [|done]. split_and!; try done. by eapply linv_frame. }
  destruct (opt_session_store _); cbn [negb].
  2: { apply wp_bind, wp_modify, wp_modify. split; [|done]. split_and!; try done. by eapply linv_frame. }
  apply wp_bind, wp_bind, (wp_ask env Henv []); [done|]. intros a l1 Ha L1 W1.
  pose proof (li_loaded _ _ L Hld) as Hkey.
  destruct (a_store a); [|by apply wp_fail..]. apply wp_bind, wp_get, wp_ret.
  destruct (stored (world l1) !! _) as [p|] eqn:Hp.
  - pose proof (li_stored _ _ L1 _ _ Hp) as Hok. apply wp_bind, (wp_now env Henv []); [done|]. intros at_ l2 L2 W2.
    assert (Hk2 : session_store_key l2 = None) by (by rewrite (aw_key _ _ W2), (aw_key _ _ W1)).
    destruct (li_key _ _ L2 Hk2) as [Hr2 _].
    assert (Hn2 : network l2 = None) by (by rewrite (aw_network _ _ W2), (aw_network _ _ W1)).
    apply wp_bind, wp_in_restore. eapply wp_mono; [apply (wp_sess_restore _ _ _ _ _ (li_sess _ _ L2) Hok)|..].
    + intros reqs s' (_ & _ & _ & S & _). apply wp_bind, wp_modify, wp_bind, wp_modify, wp_bind, wp_modify, wp_modify.
      split; [|done]. split_and!; [exact (linv_restored l2 s' reqs _ L2 Hn2 Hr2 S)|done|].
      etransitivity; [apply W2|apply W1].
    + intros e s' [-> _]. by eapply linv_frame.
  - apply wp_modify. split; [|done]. split_and!; [by eapply linv_frame|by rewrite <- Hn; apply W1|apply W1].
Qed.

(** ** Establishing a connection *)

(** Offline, and the store has been looked at. *)
Definition ready_to_connect l0 l : Prop := offline l0 l ∧ store_loaded l = true.

Lemma ready_awaited l0 l l' : linv [] l' → awaited l l' → ready_to_connect l0 l → ready_to_connect l0 l'.
Proof.
  intros L W [(_ & Hn & Ho) Hl]. split; [split_and!|]; [done|by rewrite (aw_network _ _ W)|
    by rewrite (aw_options _ _ W)|by rewrite (aw_loaded _ _ W)].
Qed.

Lemma safe_connecting {A} e (k : EL A) (Q : A → EventLoop B → Prop) l0 l :
  ready_to_connect l0 l → (∀ l', ready_to_connect l0 l' → safe k Q l') → safe (connecting env e k) Q l.
Proof.
  intros R Hk. apply wp_bind, (wp_ask env Henv []); [apply R|]. intros a l' Ha L' W.
  destruct (a_io a); [|by apply wp_fail..]. by apply Hk, (ready_awaited _ l).
Qed.

Lemma safe_mqtt_connect o n l0 l :
  ready_to_connect l0 l → safe (mqtt_connect env o n) (λ _ l', ready_to_connect l0 l') l.
Proof.
  intros R. unfold mqtt_connect. apply wp_bind, (safe_connecting _ _ _ l0); [done|]. intros l1 R1.
  pose proof (encode_cases (net_codec n) (P_Connect (connect_packet o)) (net_wire n)) as He.
  destruct (Codec_encode _ _ _) as [[v|er|] wire]; [|by apply wp_fail, R1|done].
  apply wp_ret, wp_bind, (safe_connecting _ _ _ l0); [done|]. intros l2 R2. apply wp_ret.
  apply wp_bind, (wp_ask env Henv []); [apply R2|]. intros a l3 Ha L3 W3.
  pose proof (ready_awaited _ _ _ L3 W3 R2) as R3. pose proof (ok_frame _ Ha) as Hf.
  destruct (a_frame a) as [[[p|e]|]|].
  - destruct p as [|ca| | | | | | | | | | | | ]; try by apply wp_fail, R3. destruct (code ca); try by apply wp_fail, R3. by apply wp_ret.
  - specialize (Hf _ eq_refl). destruct e as [| | | | | | | | | | | | | | | | | | | | |k| |]; try by apply wp_fail, R3.
    by apply decoded_error in Hf.
  - by apply wp_fail, R3.
  - destruct (a_io a); by apply wp_fail, R3.
Qed.

Lemma safe_reconcile present l0 l :
  ready_to_connect l0 l →
  safe (reconcile_connack_session env present)
    (λ r l', offline l0 l' ∧ (is_fresh r = false → store_loaded l' = true)) l.
Proof.
  intros R. unfold reconcile_connack_session. apply wp_bind, wp_get, wp_bind.
  eapply wp_mono with (Q := λ _ l', ready_to_connect l0 l') (X := λ _ l', linv [] l'); [| |done].
  - destruct (_ && _); [destruct (opt_session_present_mismatch _); [apply wp_fail, R|by apply wp_ret]|by apply wp_ret].
  - intros d l' R'. apply wp_bind. destruct R' as [(L' & Hn' & Ho') Hl'].
    match goal with |- context [is_fresh ?x] => destruct (is_fresh x) eqn:Hf end.
    + eapply wp_mono; [by apply safe_reset_internal| |done]. intros u l2 [F1 F2 F3 F4 F5 F6]. apply wp_ret.
      split; [|by rewrite Hf]. split_and!; congruence.
    + apply wp_ret, wp_ret. by split.
Qed.

Lemma safe_establish l :
  linv [] l → network l = None →
  safe (establish_connection env) (λ _ l', linv [] l' ∧ connected l') l.
Proof.
  intros L Hn. unfold establish_connection. apply wp_bind.
  eapply wp_mono; [by apply safe_reset_if_changed| |done]. intros u1 l1 (L1 & Hn1 & Ho1).
  apply wp_bind. eapply wp_mono; [by apply safe_load| |done]. intros u2 l2 R2.
  apply wp_bind, wp_get, wp_bind, (safe_connecting _ _ _ l1); [done|]. intros l3 R3. apply wp_ret, wp_bind.
  eapply wp_mono; [by apply (safe_mqtt_connect _ _ l1)| |done]. intros [n connack] l4 R4.
  apply wp_bind. eapply wp_mono; [by apply (safe_reconcile _ l1)| |done]. intros r l5 [(L5 & Hn5 & Ho5) Hl5].
  apply wp_bind.
  eapply wp_mono with (Q := λ _ l', linv [] l' ∧ store_loaded l' = true) (X := λ _ l', linv [] l'); [| |done].
  - destruct (is_fresh r); [|apply wp_ret; auto]. apply wp_bind, wp_modify.
    eapply wp_mono; [apply safe_clear_persisted; by eapply linv_frame| |done].
    intros u l' [(L' & _) Hl']. by split.
  - intros u6 l6 [L6 Hl6]. apply wp_bind, wp_get, wp_bind, wp_modify, wp_bind, wp_modify, wp_bind, wp_modify,
      wp_bind, wp_modify.
    match goal with |- wp _ _ _ ?l' => assert (L7 : linv [] l') end.
    { destruct L6 as [A1 A2 A3 A4 A5 A6 A7 A8 A9]. split; try done. cbn. congruence. }
    apply wp_bind, (wp_now env Henv []); [done|]. intros at_ l8 L8 W8. apply wp_bind, wp_modify, wp_ret.
    assert (Hc : connected l8) by (by rewrite (aw_network _ _ W8)).
    case_match; [|done]. split; [by eapply linv_frame|done].
Qed.
End LoopQueues.
