(* ===== verification/V4LoopRequests.v ===== *)
(** The event loop of the MQTT 3.1.1 client keeps its invariant: requests.

    The event loop of the MQTT 3.1.1 client keeps its invariant: network reads and keepalive. *)

From S2P Require Import Prelude.
From S2P Require Import Utf8.
From S2P Require Import Primitives.
From S2P Require Import CodecBase.
From S2P Require Import V4Base.
From S2P Require Import V4Acks.
From S2P Require Import V4Publish.
From S2P Require Import V4Subscribe.
From S2P Require Import V4Connect.
From S2P Require Import V4Packet.
From S2P Require Import Scheduler.
From S2P Require Import FixedBitSet.
From S2P Require Import PacketIds.
From S2P Require Import SessionIO.
From S2P Require Import V4SessionFormat.
From S2P Require Import V4SessionTypes.
From S2P Require Import V4State.
From S2P Require Import V4Clean.
From S2P Require Import V4Invariant.
From S2P Require Import V4Handlers.
From S2P Require Import V4Session.
From S2P Require Import V4CleanProofs.
From S2P Require Import V4Reachable.
From S2P Require Import V4Delivery.
From S2P Require Import V4Reconnect.
From S2P Require Import V4Persist.
From S2P Require Import V4Restore.
From S2P Require Import V4Recovery.
From S2P Require Import V4LoopTypes.
From S2P Require Import V4LoopSession.
From S2P Require Import V4EventLoop.
From S2P Require Import V4LoopState.
From S2P Require Import V4LoopInv.
From S2P Require Import V4LoopQueues.
#[local] Open Scope Z_scope.

Section LoopRequests.
  Context {B : Type} `{FixedBitSetLaws B} (env : Env) (Henv : env_ok env).

Implicit Types (l : EventLoop B) (s : MqttState B).
Abbreviation EL := (M (EventLoop B) Stop).
Abbreviation connected l := (network l ≠ None).
Abbreviation safe m Q l := (wp m Q (λ _ l', linv [] l') l).
Abbreviation plain_ok := (λ e, env_replay e = false → client_request (env_request e)).

(** A connection is up. *)
Definition up l : Prop := linv [] l ∧ connected l.

(** The next poll has something to return. *)
Definition eventful l : Prop := events (el_state l) ≠ [].

Lemma up_awaited l l' : awaited l l' → linv [] l' → up l → up l'.
Proof. intros W L [_ C]. split; [done|]. by rewrite (aw_network _ _ W). Qed.

Lemma up_stored l l' : stored_over l l' → up l → up l'.
Proof. intros (L & _ & Hn & _) [_ C]. split; [done|]. by rewrite Hn. Qed.

Lemma up_written l l' : written l l' → up l'.
Proof. intros (L & C & _). by split. Qed.

Lemma up_settle l n : up l → up (set_world (add_settled n (world l)) l).
Proof. intros [L C]. split; [by apply linv_settle|done]. Qed.

Lemma eventful_state l l' : el_state l' = el_state l → eventful l → eventful l'.
Proof. unfold eventful. by intros ->. Qed.

(** ** Scheduling *)

(** The request that is being sent. *)
Definition hand (e : RequestEnvelope) : list RequestEnvelope := if env_replay e then [e] else [].

Lemma hand_replays e : hand e = replay_envelopes [e].
Proof. unfold hand, replay_envelopes. by destruct (env_replay e) eqn:He; rewrite filter_cons, He. Qed.

(** A request that the session state accepts. *)
Definition sendable l (e : RequestEnvelope) : Prop :=
  linv (hand e) l ∧ connected l ∧ plain_ok e ∧ readiness (classify_envelope (el_state l) e) = Ready.

Lemma safe_next_scheduled l :
  up l →
  safe next_scheduled_request
    (λ r l', el_options l' = el_options l ∧ match r with None => up l' | Some e => sendable l' e end) l.
Proof.
  intros [L C]. apply wp_bind, wp_get. destruct (pop_next _ _) as [[e|] q] eqn:Hp; apply wp_bind, wp_modify, wp_ret.
  - apply pop_next_some in Hp as (l1 & l2 & Hq & Hq' & Hr & _). split; [done|]. split; [|split; [done|]].
    + pose proof (li_plain _ _ L) as Hpl. unfold waiting in Hpl. rewrite Hq in Hpl.
      apply (linv_requeue [] _ l); try done; try apply L.
      * unfold replays, waiting. cbn [pending queued set_queued]. rewrite Hq, Hq', hand_replays.
        cbn [app]. rewrite <- !replays_app. unfold replay_envelopes. apply filter_Permutation.
        solve_Permutation.
      * unfold replays, waiting. cbn [pending queued set_queued]. rewrite Hq, Hq'.
        rewrite !replays_app. intros _ [-> [-> Hl2]%app_eq_nil]%app_eq_nil.
        unfold replay_envelopes in *. rewrite filter_cons in Hl2. case_decide; [done|by rewrite Hl2].
      * unfold waiting. cbn [pending queued set_queued]. rewrite Hq'. rewrite !Forall_app, Forall_cons in *.
        tauto.
    + split; [|done]. pose proof (li_plain _ _ L) as Hpl. rewrite Forall_forall in Hpl. apply Hpl.
      unfold waiting. rewrite Hq. set_solver.
  - split; [done|]. split; [|done]. unfold pop_next in Hp.
    assert (q = queued l) as ->. { by repeat case_match; simplify_eq. } by eapply linv_frame.
Qed.

(** ** Sending *)

Lemma sendable_replay l e : sendable l e → env_replay e = true → replay_ok e.
Proof.
  intros (L & _) He. pose proof (sess_ok _ _ (li_sess _ _ L)) as Hok. unfold hand in Hok. rewrite He in Hok.
  by apply Forall_app in Hok as [[? _]%Forall_cons _].
Qed.

Lemma linv_set_state hand0 l s :
  linv hand0 l → connected l → sess (replays l) s → linv [] (set_el_state s l).
Proof.
  intros [L1 L2 L3 L4 L5 L6 L7 L8 L9] C S. split; try done. intros Hk. by destruct (L8 C).
Qed.

Lemma up_set_state hand0 l s :
  linv hand0 l → connected l → sess (replays l) s → up (set_el_state s l).
Proof. intros L C S. split; [by eapply linv_set_state|done]. Qed.

(** The session state takes a new request. *)
Lemma safe_fresh_request at_ r notice l :
  up l → client_request r → graceful_disconnect r = false →
  (∀ p, r = R_Publish p → pub_qos p ≠ AtMostOnce → can_send_publish (el_state l) p = true) →
  safe (in_state (handle_outgoing_packet_with_notice at_ r notice)) (λ _ l', up l' ∧ eventful l') l.
Proof.
  intros [L C] Hc Hg Hcan. apply wp_in_state.
  eapply wp_mono; [by apply (wp_sess_request _ _ _ _ _ (li_sess _ _ L))|..].
  - intros v s' [S [ev He]]. split; [by eapply up_set_state|]. unfold eventful. fields.
    change (events s' ≠ []). rewrite He. by destruct (events (el_state l)).
  - intros e s' S. by eapply linv_set_state.
Qed.

(** The session state takes a request it knows, and never refuses one. *)
Lemma safe_replayed_request at_ e notice l :
  sendable l e → env_replay e = true →
  safe (in_state (handle_replayed_outgoing_packet_with_notice at_ (env_request e) notice)) (λ _ l', up l') l.
Proof.
  intros (L & C & _ & Hr) He. unfold classify_envelope in Hr. rewrite He in Hr. apply wp_in_state.
  pose proof (li_sess _ _ L) as S. unfold hand in S. rewrite He in S.
  eapply wp_mono; [by apply (wp_sess_replay e (replays l))|..]; [|done].
  intros v s' S'. by eapply up_set_state.
Qed.

Lemma safe_try {A} (m : EL A) (Q : A → EventLoop B → Prop) l :
  safe m Q l → safe (try_ m) (λ r l', match r with inl a => Q a l' | inr _ => linv [] l' end) l.
Proof. intros Hm. apply wp_try. eapply wp_mono; [exact Hm|done|]. by intros [] l'. Qed.

Lemma safe_settle n l : linv [] l → safe (settle n) (λ _ l', linv [] l') l.
Proof. intros L. apply wp_modify. by apply linv_settle. Qed.

Lemma safe_persist_or_fail notices notice l :
  linv [] l →
  safe (persist_session_or_fail_qos0_notices env notices notice) (λ _ l', stored_over l l') l.
Proof.
  intros L. apply wp_bind. eapply wp_mono; [apply safe_try, (safe_save env Henv l L)| |done].
  intros [u|e] l' Hl'; [by apply wp_ret|]. apply wp_bind.
  eapply wp_mono; [by apply safe_settle| |done]. intros u l2 L2. apply wp_bind.
  eapply wp_mono; [by apply safe_settle| |done]. intros u' l3 L3. by apply wp_fail.
Qed.

(** What follows once the session state has taken a request. *)
Lemma safe_persist_and_write outgoing flush_notice (should_flush : bool) notices l :
  up l →
  safe (qos0_notices ← persist_session_or_fail_qos0_notices env notices flush_notice;
        write_outgoing env outgoing should_flush qos0_notices) (λ _ l', up l') l.
Proof.
  intros Hup. apply wp_bind. eapply wp_mono; [by apply safe_persist_or_fail, Hup| |done].
  intros q l1 So. pose proof (up_stored _ _ So Hup) as U1. destruct outgoing as [p|]; [|by apply wp_ret].
  destruct U1 as [L1 C1]. apply wp_bind.
  eapply wp_mono; [by apply (safe_write_request env Henv p l1), written_refl| |done].
  intros [u|e] l2 Hw; [by apply wp_ret, (up_written l1)|]. apply wp_bind.
  eapply wp_mono; [apply safe_settle, Hw| |done]. intros u l3 L3. by apply wp_fail.
Qed.

Lemma safe_set_pending_disconnect l t :
  up l → up (set_pending_disconnect t l).
Proof. intros [L C]. split; [by eapply linv_frame|done]. Qed.

Lemma sendable_awaited l l' e : linv (hand e) l' → awaited l l' → sendable l e → sendable l' e.
Proof.
  intros L W (_ & C & P & R). split_and!; [done|by rewrite (aw_network _ _ W)|done|by rewrite (aw_state _ _ W)].
Qed.

Lemma sendable_up l e : sendable l e → env_replay e = false → up l.
Proof. intros (L & C & _) He. unfold hand in L. rewrite He in L. by split. Qed.

Lemma sendable_fresh l e :
  sendable l e → env_replay e = false →
  ∀ p, env_request e = R_Publish p → pub_qos p ≠ AtMostOnce → can_send_publish (el_state l) p = true.
Proof.
  intros (_ & _ & _ & Hr) He p Hp Hq. unfold classify_envelope in Hr. rewrite He, Hp in Hr.
  cbn [classify_request classify_publish_or_control_request] in Hr. rewrite decide_False in Hr by done.
  by apply ready_if_ready.
Qed.

Lemma safe_take_request at_ e l :
  sendable l e → is_disconnect_request (env_request e) = false →
  safe (if env_replay e
        then in_state (handle_replayed_outgoing_packet_with_notice at_ (env_request e) (env_notice e))
        else in_state (handle_outgoing_packet_with_notice at_ (env_request e) (env_notice e)))
    (λ _ l', up l') l.
Proof.
  intros S Hd. destruct (env_replay e) eqn:He; [by apply safe_replayed_request|].
  eapply wp_mono; [apply safe_fresh_request; [by eapply sendable_up|by apply S| |by apply sendable_fresh]| |done].
  - destruct S as (_ & _ & Hc%(λ f, f He) & _). by destruct (env_request e).
  - by intros v l' [? _].
Qed.

Lemma safe_disconnect_now e should_flush notices l :
  up l → env_request e = R_DisconnectNow →
  safe (handle_request env e should_flush notices) (λ _ l', up l' ∧ eventful l') l.
Proof.
  intros U Hr. unfold handle_request. rewrite Hr. apply wp_bind, (wp_now env Henv []); [apply U|].
  intros at_ l1 L1 W1. apply wp_bind. pose proof (up_awaited _ _ W1 L1 U) as U1.
  eapply wp_mono; [by apply safe_fresh_request| |done]. intros [outgoing n] l2 [U2 E2].
  apply wp_bind. eapply wp_mono; [apply (safe_save env Henv), U2| |done]. intros u l3 So3.
  pose proof (up_stored _ _ So3 U2) as [L3 C3]. apply wp_bind.
  eapply wp_mono with (Q := λ _ l', written l3 l') (X := λ _ l', linv [] l'); [| |done].
  - destruct outgoing as [p|]; [|by apply wp_ret, written_refl]. apply wp_bind, safe_state_try.
    eapply wp_mono; [by apply (safe_write_request env Henv p l3), written_refl| |done].
    intros [v|err] l4 Hw; [by apply wp_ret|apply Hw].
  - intros b l4 (L4 & C4 & S4). apply wp_bind, wp_modify, wp_ret. split; [split; [by eapply linv_frame|done]|].
    apply (eventful_state l2); [|done]. destruct So3 as (_ & S3 & _). by rewrite <- S3, <- S4.
Qed.

Lemma safe_send_request e should_flush notices l :
  sendable l e → is_disconnect_request (env_request e) = false →
  safe (send_request env e should_flush notices) (λ _ l', up l') l.
Proof.
  intros S Hd. apply wp_bind, (wp_now env Henv (hand e)); [apply S|]. intros at_ l1 L1 W1. apply wp_bind.
  eapply wp_mono; [apply safe_take_request; [by eapply sendable_awaited|done]| |done].
  intros [outgoing n] l2 U2. by apply safe_persist_and_write.
Qed.

Lemma safe_handle_request e should_flush notices l :
  sendable l e → safe (handle_request env e should_flush notices) (λ _ l', up l') l.
Proof.
  intros S. pose proof (sendable_replay _ _ S) as Hok.
  destruct (is_disconnect_request (env_request e)) eqn:Hd.
  - assert (He : env_replay e = false).
    { apply not_true_iff_false. intros He%Hok. unfold replay_ok in He. by destruct (env_request e). }
    pose proof (sendable_up _ _ S He) as U. destruct (env_request e) eqn:Hr; try done.
    + unfold handle_request. rewrite Hr. apply wp_bind, (wp_now env Henv []); [apply U|].
      intros at_ l1 L1 W1. apply wp_bind, wp_lift, wp_bind, wp_modify, wp_ret, safe_set_pending_disconnect. by eapply up_awaited.
    + eapply wp_mono; [by apply safe_disconnect_now| |done]. by intros v l' [? _].
    + assert (Ht : timeout ≤ CLOCK_MAX) by (destruct S as (_ & _ & Hc%(λ f, f He) & _); by rewrite Hr in Hc).
      unfold handle_request. rewrite Hr. apply wp_bind, (wp_now_bounded env Henv []); [apply U|].
      intros at_ l1 Hat L1 W1. apply wp_bind, wp_lift. unfold PendingDisconnect_new. rewrite (instant_add_ok at_ timeout) by done.
      apply wp_bind, wp_modify, wp_ret, safe_set_pending_disconnect. by eapply up_awaited.
  - pose proof (safe_send_request e should_flush notices l S Hd) as G.
    unfold handle_request. destruct (env_request e); try done; exact G.
Qed.

(** ** Batches *)

Lemma safe_reset_keepalive l0 l :
  linv [] l → connected l → el_state l = el_state l0 →
  safe (reset_keepalive_timeout env) (λ _ l', written l0 l') l.
Proof.
  intros L C Hs. apply wp_bind, wp_get. case_match; [apply wp_modify; split_and!; try done; by eapply linv_frame|].
  case_match; [by apply wp_ret|]. apply wp_bind, wp_modify.
  case_match; [|apply wp_ret; split_and!; try done; by eapply linv_frame].
  apply wp_bind, (wp_now_bounded env Henv []); [by eapply linv_frame|].
  intros at_ l1 Hat L1 [W1 W2 _ _ _ _ _ _ _]. apply wp_bind, wp_lift.
  rewrite instant_add_ok; [|done|pose proof (li_options _ _ L) as Ho; unfold options_ok in Ho; unfold CLOCK_MAX; lia].
  apply wp_modify. split_and!; [by eapply linv_frame|done || by cbn; rewrite W2|etransitivity; [apply W1|exact Hs]].
Qed.

Lemma safe_flush_request_batch should_flush notices l :
  up l → safe (flush_request_batch env should_flush notices) (λ _ l', written l l') l.
Proof.
  intros [L C]. unfold flush_request_batch. destruct should_flush; [|by apply wp_ret, written_refl].
  apply wp_bind. eapply wp_mono; [apply safe_try, (safe_flush_network env Henv l l), written_refl; done| |done].
  intros [u|e] l1 Hw.
  - destruct Hw as (L1 & C1 & S1). apply wp_bind, wp_modify, safe_reset_keepalive; [by apply linv_settle|done..].
  - apply wp_bind. eapply wp_mono; [by apply safe_settle| |done]. intros u l2 L2. by apply wp_fail.
Qed.

Lemma safe_ready_loop n should_flush notices l :
  up l → safe (ready_loop env n should_flush notices) (λ _ l', up l') l.
Proof.
  revert should_flush notices l. induction n as [|n IH]; intros f q l U; [by apply wp_ret|].
  cbn [ready_loop]. apply wp_bind. eapply wp_mono; [by apply safe_next_scheduled| |done].
  intros [e|] l1 [_ S]; [|by apply wp_ret]. apply wp_bind.
  eapply wp_mono; [by apply safe_handle_request| |done]. intros [[[] f'] q'] l2 U2; [by apply IH|by apply wp_ret].
Qed.

Lemma safe_handle_ready_requests l :
  up l → safe (handle_ready_requests env) (λ _ l', up l') l.
Proof.
  intros U. apply wp_bind. eapply wp_mono; [by apply safe_next_scheduled| |done].
  intros [e|] l1 [_ S]; [|by apply wp_ret]. apply wp_bind.
  eapply wp_mono; [by apply safe_handle_request| |done]. intros [[c f] q] l2 U2.
  apply wp_bind, wp_get, wp_bind.
  eapply wp_mono with (Q := λ _ l', up l') (X := λ _ l', linv [] l'); [| |done].
  - destruct c; [by apply safe_ready_loop|by apply wp_ret].
  - intros [f' q'] l3 U3. apply wp_bind. eapply wp_mono; [by apply safe_flush_request_batch| |done].
    intros u l4 Hw. apply wp_ret. exact (up_written _ _ Hw).
Qed.

(** ** Events *)

Lemma linv_set_events hand0 l es : linv hand0 l → linv hand0 (set_el_state (set_events es (el_state l)) l).
Proof.
  intros [L1 L2 L3 L4 L5 L6 L7 L8 L9]. split; try done. destruct L1 as [S1 S2 S3 S4 S5 S6 S7]. split; try done.
  by apply inv_set_events.
Qed.

Lemma wp_pop_event (Q : option Event → EventLoop B → Prop) (X : Stop → EventLoop B → Prop) l :
  (events (el_state l) = [] → Q None l) →
  (∀ e es, events (el_state l) = e :: es → Q (Some e) (set_el_state (set_events es (el_state l)) l)) →
  wp pop_event Q X l.
Proof.
  intros HN HS. apply wp_bind, wp_get. destruct (events (el_state l)) as [|e es]; [by apply wp_ret, HN|].
  by apply wp_bind, wp_modify, wp_ret, HS.
Qed.

Lemma safe_expect_event l :
  linv [] l → eventful l → safe expect_event (λ _ l', linv [] l') l.
Proof.
  intros L E. apply wp_bind, wp_pop_event; [done|]. intros e es _. by apply wp_lift, linv_set_events.
Qed.

Lemma safe_handle_immediate e l :
  up l → env_request e = R_DisconnectNow →
  safe (handle_immediate_disconnect env e) (λ _ l', linv [] l') l.
Proof.
  intros U Hr. apply wp_bind. eapply wp_mono; [by apply safe_disconnect_now| |done].
  intros [[c f] q] l1 [U1 E1]. apply wp_bind. eapply wp_mono; [by apply safe_flush_request_batch| |done].
  intros u l2 (L2 & _ & S2). apply safe_expect_event; [done|]. by eapply eventful_state.
Qed.
End LoopRequests.

Section LoopReads.
  Context {B : Type} `{FixedBitSetLaws B} (env : Env) (Henv : env_ok env).

Implicit Types (l : EventLoop B) (s : MqttState B).
Abbreviation EL := (M (EventLoop B) Stop).
Abbreviation connected l := (network l ≠ None).
Abbreviation safe m Q l := (wp m Q (λ _ l', linv [] l') l).

(** ** Reading a batch *)

(** A connection is up and the next poll has something to return. *)
Definition served l : Prop := up l ∧ eventful l.

Lemma served_written l l' : written l l' → eventful l → served l'.
Proof. intros Hw E. split; [by eapply up_written|]. destruct Hw as (_ & _ & S). by eapply eventful_state. Qed.

Lemma safe_incoming at_ packet l :
  up l → Packet_valid packet →
  safe (in_state_try (handle_incoming_packet_with_effects at_ packet))
    (λ r l', up l' ∧ (∀ v, r = inl v → eventful l')) l.
Proof.
  intros [L C] Hv. apply wp_in_state_try.
  eapply wp_mono; [by apply (wp_sess_incoming _ _ _ _ (li_sess _ _ L))|..].
  - intros v s' [S (e & es & He)]. split; [by eapply up_set_state|]. intros _ _. unfold eventful.
    change (events s' ≠ []). rewrite He. by destruct (events (el_state l)).
  - intros e s' ->. split; [|done]. split; [|done]. by eapply linv_frame.
Qed.

Lemma safe_try_read_frame l :
  up l → safe (try_read_frame env) (λ r l', awaited l l' ∧ up l' ∧ (∀ f, r = Some f → frame_ok f)) l.
Proof.
  intros U. apply wp_bind, wp_the_network; [apply U|]. intros n Hn.
  apply wp_bind, (wp_ask env Henv []); [apply U|]. intros a l' Ha L' W. apply wp_ret.
  split; [done|]. split; [by eapply up_awaited|]. apply Ha.
Qed.

Lemma safe_readb_loop remaining res outcome notices l :
  up l → frame_ok res → remaining ≠ 0%nat ∨ eventful l →
  safe (readb_loop env remaining res outcome notices)
    (λ r l', up l' ∧ (∀ b, r = inl b → eventful l')) l.
Proof.
  revert res outcome notices l. induction remaining as [|n IH]; intros res outcome notices l U Hf Hn.
  { apply wp_ret. split; [done|]. destruct Hn; naive_solver. }
  cbn [readb_loop]. destruct res as [[packet|e]|]; [| |by apply wp_ret].
  2: { destruct e; try (by apply wp_ret). by apply decoded_error in Hf. }
  apply decoded_packet in Hf. apply wp_bind, (wp_now env Henv []); [apply U|]. intros at_ l1 L1 W1.
  apply wp_bind. eapply wp_mono; [by apply safe_incoming; [eapply up_awaited|]| |done].
  intros [eff|err] l2 [[L2 C2] E2]; [|by apply wp_ret]. specialize (E2 _ eq_refl). apply wp_bind.
  eapply wp_mono with (Q := λ _ l', written l2 l') (X := λ _ l', linv [] l'); [| |done].
  { destruct (eff_outgoing eff); [by apply (safe_Network_write env Henv), written_refl|by apply wp_ret, written_refl]. }
  intros [u|err] l3 Hw; [|apply wp_ret; split; [by eapply up_written|done]].
  destruct (served_written _ _ Hw E2) as [U3 E3].
  case_match; [by apply wp_ret|]. destruct n as [|n]; [by apply wp_ret|].
  apply wp_bind. eapply wp_mono; [by apply safe_try_read_frame| |done]. intros [f|] l4 (W4 & U4 & Hf4).
  - apply IH; [done|by apply Hf4|by left].
  - apply wp_ret. split; [done|]. intros _ _. by eapply eventful_state; [apply W4|].
Qed.

Lemma safe_readb_from res limit l :
  up l → frame_ok res →
  safe (readb_from env res limit) (λ r l', up l' ∧ (∀ b, r = inl b → eventful l')) l.
Proof. intros U Hf. apply safe_readb_loop; [done|done|]. left. lia. Qed.

(** ** Completing a batch *)

Lemma safe_complete_read_batch batch l :
  up l → safe (complete_read_batch env batch) (λ _ l', written l l') l.
Proof.
  intros U. apply wp_bind. eapply wp_mono; [apply safe_try, (safe_save env Henv), U| |done].
  intros [u|e] l1 Hl1.
  2: { apply wp_bind. eapply wp_mono; [by apply safe_settle| |done]. intros v l2 L2. by apply wp_fail. }
  assert (Hw1 : written l l1).
  { destruct (up_stored _ _ Hl1 U). split_and!; [done..|]. apply Hl1. }
  destruct (up_stored _ _ Hl1 U) as [L1 C1]. apply wp_bind, wp_the_network; [done|]. intros n Hn.
  apply wp_bind, (wp_ask env Henv []); [done|]. intros a l2 Ha L2 W2.
  pose proof (written_awaited _ _ _ W2 L2 Hw1) as Hw2. apply wp_bind.
  eapply wp_mono with (Q := λ _ l', written l l') (X := λ _ l', linv [] l'); [| |done].
  { destruct (a_io a), (net_write_deadline n); by (apply wp_ret || apply wp_fail). }
  intros r l3 (L3 & C3 & S3). apply wp_bind, wp_modify. pose proof (linv_settle _ _ (notice_complete <$> rb_notices batch) L3).
  destruct r; [by apply wp_ret|by apply wp_fail].
Qed.

Lemma safe_complete_failed error l :
  linv [] l → safe (complete_failed_read_batch env error) (λ _ l', linv [] l') l.
Proof.
  intros L. unfold complete_failed_read_batch. case_match; [by apply wp_ret|]. apply wp_bind.
  eapply wp_mono; [apply safe_try, (safe_save env Henv), L| |done].
  intros [u|e] l1 Hl1; apply wp_bind;
    (eapply wp_mono; [apply safe_settle; apply Hl1| |done]); intros v l2 L2; by apply wp_ret.
Qed.

Lemma safe_complete_network_read (batch : ReadBatch + ReadBatchError) l :
  linv [] l → (∀ b, batch = inl b → served l) →
  safe (complete_network_read env batch) (λ _ l', served l') l.
Proof.
  intros L Hb. destruct batch as [b|e].
  - destruct (Hb _ eq_refl) as [U E]. apply wp_bind. eapply wp_mono; [by apply safe_complete_read_batch| |done].
    intros [] l1 Hw; [by apply wp_ret; eapply served_written|]. destruct (Hw) as (L1 & C1 & S1).
    eapply wp_mono; [by apply (safe_reset_keepalive env Henv l)| |done].
    intros u l2 Hw2. exact (served_written _ _ Hw2 E).
  - apply wp_bind. eapply wp_mono; [by apply safe_complete_failed| |done]. intros e' l1 L1. by apply wp_fail.
Qed.

Lemma safe_close_timed_out l : linv [] l → safe close_timed_out_transport (λ _ l', linv [] l') l.
Proof.
  intros L. unfold close_timed_out_transport. apply wp_bind, wp_modify, wp_bind, wp_modify, wp_bind, wp_modify, wp_modify.
  by eapply linv_frame.
Qed.

(** ** The deadline of responses *)

Lemma linv_replace_deadline d l : linv [] l → linv [] (replace_write_deadline d l).
Proof.
  intros L. unfold replace_write_deadline. destruct (network l) eqn:Hn; [|done]. by eapply linv_set_network.
Qed.

Lemma served_replace_deadline d l : served l → served (replace_write_deadline d l).
Proof.
  intros [[L C] E]. split; [split; [by apply linv_replace_deadline|]|];
    unfold replace_write_deadline, eventful in *; by destruct (network l).
Qed.

Lemma safe_with_deadline {A} deadline (m : EL A) l :
  up l → (∀ l', up l' → safe m (λ _ l', served l') l') →
  safe (with_response_deadline deadline m) (λ _ l', served l') l.
Proof.
  intros [L C] Hm. apply wp_bind, wp_the_network; [done|]. intros n Hn. apply wp_bind, wp_modify, wp_then_always.
  eapply wp_mono; [apply Hm| |].
  - split; [by apply linv_replace_deadline|]. unfold replace_write_deadline. by rewrite Hn.
  - intros a l' S. by apply served_replace_deadline.
  - intros st l' L'. by apply linv_replace_deadline.
Qed.

Lemma safe_read_network_batch first size deadline l :
  up l → frame_ok first → safe (read_network_batch env first size deadline) (λ _ l', served l') l.
Proof.
  intros U Hf. apply wp_bind, wp_get, safe_with_deadline; [done|]. clear l U. intros l U.
  apply wp_bind. eapply wp_mono; [by apply safe_readb_from| |done]. intros batch l1 [U1 E1]. apply wp_bind.
  eapply wp_mono with (Q := λ _ l', linv [] l' ∧ (∀ b, batch = inl b → served l')) (X := λ _ l', linv [] l'); [| |done].
  { destruct batch as [b|e].
    - apply wp_ret. split; [apply U1|]. intros b' _. split; [done|by eapply E1].
    - case_match; [|by apply wp_ret; split; [apply U1|]].
      eapply wp_mono; [apply safe_close_timed_out, U1| |done]. done. }
  intros u l2 [L2 S2]. apply wp_bind. eapply wp_mono; [by apply safe_try, safe_complete_network_read| |done].
  intros [v|e] l3 Hl3; [by apply wp_ret|]. apply wp_bind.
  eapply wp_mono with (Q := λ _ l', linv [] l') (X := λ _ l', linv [] l'); [| |done].
  { case_match; [by apply safe_close_timed_out|by apply wp_ret]. }
  intros w l4 L4. by apply wp_fail.
Qed.

Lemma safe_defer e l : linv [] l → safe (defer_connection_error e) (λ _ l', linv [] l') l.
Proof.
  intros L. apply wp_bind.
  eapply wp_mono with (Q := λ _ l', linv [] l') (X := λ _ l', linv [] l'); [| |done].
  { case_match; [by apply safe_close_timed_out|by apply wp_ret]. }
  intros u l1 L1. apply wp_bind, wp_pop_event; [by intros _; apply wp_fail|]. intros ev es _.
  apply wp_bind, wp_modify, wp_ret. eapply linv_frame; [exact (linv_set_events _ _ es L1)|done..].
Qed.

Lemma safe_response_deadline l :
  linv [] l → safe (response_write_deadline env) (λ _ l', linv [] l' ∧ awaited l l') l.
Proof.
  intros L. apply wp_bind, wp_get, wp_bind, (wp_now env Henv []); [done|]. intros at_ l' L' W. by apply wp_ret.
Qed.

Lemma safe_handle_network_read first l :
  up l → frame_ok first → safe (handle_network_read env first) (λ _ l', linv [] l') l.
Proof.
  intros U Hf. apply wp_bind, wp_get, wp_bind. eapply wp_mono; [apply safe_response_deadline, U| |done].
  intros d l1 [L1 W1]. apply wp_bind. eapply wp_mono; [apply safe_try, safe_read_network_batch; [by eapply up_awaited|done]| |done].
  intros [u|e] l2 Hl2; [by apply safe_expect_event; apply Hl2|by apply safe_defer].
Qed.

(** ** Keepalive *)

Lemma safe_check_scan_timeout l :
  up l → safe (check_keepalive_scan_timeout env) (λ _ l', up l') l.
Proof.
  intros [L C]. apply wp_bind, wp_get. destruct (keepalive_scan_deadline l); [|by apply wp_ret].
  case_match; [apply wp_modify; split; [by eapply linv_frame|done]|].
  apply wp_bind, (wp_now env Henv []); [done|]. intros at_ l' L' W. case_match; [by apply wp_fail|].
  apply wp_ret. by eapply up_awaited.
Qed.

Lemma safe_scan_loop n deadline l :
  up l → n ≠ 0%nat ∨ eventful l →
  safe (scan_loop env n deadline) (λ (idle : bool) l', up l' ∧ (idle = false → eventful l')) l.
Proof.
  revert l. induction n as [|n IH]; intros l U Hn; cbn [scan_loop].
  { apply wp_ret. split; [done|]. by destruct Hn. }
  apply wp_bind. eapply wp_mono; [by apply safe_try_read_frame| |done]. intros [f|] l1 (W1 & U1 & Hf1); [|by apply wp_ret].
  apply wp_bind. eapply wp_mono; [apply safe_read_network_batch; [done|by apply Hf1]| |done].
  intros u l2 [U2 E2]. apply wp_bind, wp_get. case_match; [|by apply IH; [|right]].
  destruct U2 as [L2 C2]. apply wp_bind, wp_modify, wp_ret. split; [split; [by eapply linv_frame|done]|done].
Qed.

Lemma safe_scan_keepalive l :
  up l → safe (scan_keepalive_response env) (λ _ l', up l') l.
Proof.
  intros U. apply wp_bind, wp_get, wp_bind.
  eapply wp_mono with (Q := λ _ l', up l') (X := λ _ l', linv [] l'); [| |done].
  { case_match; [by apply wp_ret|]. eapply wp_mono; [apply safe_response_deadline, U| |done].
    intros d l' [L' W']. by eapply up_awaited. }
  intros d l1 [L1 C1]. apply wp_bind, wp_modify, wp_bind.
  eapply wp_mono; [apply safe_scan_loop; [split; [by eapply linv_frame|done]|by left]| |done].
  intros [] l2 [[L2 C2] E2]; [by apply wp_ret|]. apply wp_bind, wp_bind, wp_pop_event; [by intros ?; destruct E2|].
  intros e es _. apply wp_lift, wp_ret. split; [by apply linv_set_events|done].
Qed.

Lemma safe_send_ping l :
  up l →
  safe (at_ ← now env;
        '(outgoing, _) ← in_state (handle_outgoing_packet_with_notice at_ R_PingReq None);
        (match outgoing with
         | Some outgoing => state_try (Network_write env outgoing)
         | None => mret tt
         end);;
        flush_network env;;
        reset_keepalive_timeout env;;
        expect_event) (λ _ l', linv [] l') l.
Proof.
  intros U. apply wp_bind, (wp_now env Henv []); [apply U|]. intros at_ l1 L1 W1. apply wp_bind.
  eapply wp_mono; [apply safe_fresh_request; [by eapply up_awaited|done..]| |done].
  intros [outgoing n] l2 [[L2 C2] E2]. apply wp_bind.
  eapply wp_mono with (Q := λ _ l', written l2 l') (X := λ _ l', linv [] l'); [| |done].
  { destruct outgoing as [p|]; [|by apply wp_ret, written_refl]. apply safe_state_try.
    eapply wp_mono; [by apply (safe_Network_write env Henv p l2), written_refl| |done].
    intros [v|e] l3 Hw; [done|apply Hw]. }
  intros u l3 Hw3. apply wp_bind. eapply wp_mono; [by apply (safe_flush_network env Henv l2)| |done].
  intros v l4 (L4 & C4 & S4). apply wp_bind. eapply wp_mono; [by apply (safe_reset_keepalive env Henv l2)| |done].
  intros w l5 (L5 & C5 & S5). apply safe_expect_event; [done|]. by eapply eventful_state.
Qed.

Lemma safe_keepalive_inner l :
  up l → safe (handle_keepalive_ping_inner env) (λ _ l', linv [] l') l.
Proof.
  intros U. apply wp_bind. eapply wp_mono; [by apply safe_check_scan_timeout| |done].
  intros u l1 U1. apply wp_bind, wp_get, wp_bind.
  eapply wp_mono with (Q := λ _ l', up l') (X := λ _ l', linv [] l'); [| |done].
  { case_match; [by apply safe_scan_keepalive|by apply wp_ret]. }
  intros [e|] l2 U2; [apply wp_ret, U2|by apply safe_send_ping].
Qed.

Lemma safe_keepalive l :
  up l → safe (handle_keepalive_ping env) (λ _ l', linv [] l') l.
Proof.
  intros U. apply wp_bind, wp_get, wp_bind. eapply wp_mono; [by apply safe_try, safe_keepalive_inner| |done].
  intros [e|e] l1 L1; [by apply wp_ret|]. case_match; [by apply safe_defer|by apply wp_fail].
Qed.
End LoopReads.
