(* ===== verification/V4LoopPoll.v ===== *)
(** The event loop of the MQTT 3.1.1 client keeps its invariant: admission, arbitration,
    disconnects and polls. *)

From S2P Require Import Prelude.
From S2P Require Import Utf8.
From S2P Require Import Primitives.
From S2P Require Import CodecBase.
From S2P Require Import V4Base.
From S2P Require Import V4Acks.
From S2P Require Import V4Publish.
From S2P Require Import V4Subscribe.
From S2P Require Import V4Connect.
From S2P Require Import V4Packet.
From S2P Require Import Scheduler.
From S2P Require Import FixedBitSet.
From S2P Require Import SessionIO.
From S2P Require Import V4SessionFormat.
From S2P Require Import V4SessionTypes.
From S2P Require Import PacketIds.
From S2P Require Import V4State.
From S2P Require Import V4Clean.
From S2P Require Import V4Invariant.
From S2P Require Import V4Handlers.
From S2P Require Import V4Session.
From S2P Require Import V4CleanProofs.
From S2P Require Import V4Reachable.
From S2P Require Import V4Delivery.
From S2P Require Import V4Reconnect.
From S2P Require Import V4Persist.
From S2P Require Import V4Restore.
From S2P Require Import V4Recovery.
From S2P Require Import V4LoopTypes.
From S2P Require Import V4LoopSession.
From S2P Require Import V4EventLoop.
From S2P Require Import V4LoopState.
From S2P Require Import V4LoopInv.
From S2P Require Import V4LoopQueues.
From S2P Require Import V4LoopRequests.
#[local] Open Scope Z_scope.

Section LoopPoll.
  Context {B : Type} `{FixedBitSetLaws B} (env : Env) (Henv : env_ok env).

Implicit Types (l : EventLoop B) (s : MqttState B).
Abbreviation EL := (M (EventLoop B) Stop).
Abbreviation connected l := (network l ≠ None).
Abbreviation safe m Q l := (wp m Q (λ _ l', linv [] l') l).
Abbreviation plain_ok := (λ e, env_replay e = false → client_request (env_request e)).

(** ** Admission *)

(** A request that was taken out of [pending] or a channel. *)
Definition taken l (e : RequestEnvelope) : Prop := linv (hand e) l ∧ connected l ∧ plain_ok e.

Lemma up_taken l e : up l → client_envelope e → taken l e.
Proof. intros [L C] [He Hc]. split_and!; [unfold hand; by rewrite He|done|done]. Qed.

Lemma up_push_queued l e : taken l e → up (set_queued (push_back (queued l) e) l).
Proof.
  intros (L & C & Hp). split; [|done]. apply (linv_requeue (hand e) _ l); try done; try apply L.
  - rewrite hand_replays. unfold replays, waiting. cbn [pending queued set_queued push_back queue app].
    rewrite <- !replays_app. unfold replay_envelopes. apply filter_Permutation. solve_Permutation.
  - intros Hk. by destruct (li_network _ _ L C).
  - unfold waiting. cbn [pending queued set_queued push_back queue].
    pose proof (li_plain _ _ L) as Hl. apply Forall_app in Hl as [Hl1 Hl2]. rewrite !Forall_app, Forall_singleton.
    by split_and!.
Qed.

Lemma taken_pending l e rest : up l → pending l = e :: rest → taken (set_pending rest l) e.
Proof.
  intros [L C] Hp. pose proof (li_plain _ _ L) as Hl. unfold waiting in Hl. rewrite Hp in Hl.
  split_and!; [|done|by apply Forall_app in Hl as [[? _]%Forall_cons _]].
  apply (linv_requeue [] _ l); try done; try apply L.
  - rewrite hand_replays. unfold replays, waiting. cbn [pending queued set_pending app].
    by rewrite Hp, <- replays_app.
  - intros Hk. by destruct (li_network _ _ L C).
  - unfold waiting. cbn [pending queued set_pending]. by apply Forall_cons in Hl as [_ ?].
Qed.

(** Taking a request out of a channel. *)
Lemma chan_try_recv_some c e c' :
  chan_try_recv c = Some (e, c') → chan_items c = e :: chan_items c'.
Proof. unfold chan_try_recv. by destruct (chan_items c); [|intros [= -> <-]]. Qed.

Lemma chan_poll_item c e c' : chan_poll c = Rcv_Item e c' → chan_try_recv c = Some (e, c').
Proof. unfold chan_poll. destruct (chan_try_recv c) as [[]|]; [by intros [= -> ->]|by case_match]. Qed.

Lemma up_set_requests l c :
  up l → Forall client_envelope (chan_items c) → up (set_requests_rx c l).
Proof. intros [[] C] Hc. split; [by split|done]. Qed.

Lemma up_set_control l c :
  up l → Forall client_envelope (chan_items c) → up (set_control_requests_rx c l).
Proof. intros [[] C] Hc. split; [by split|done]. Qed.

Lemma linv_set_immediate l c :
  linv [] l → Forall immediate_envelope (chan_items c) → linv [] (set_immediate_disconnect_rx c l).
Proof. intros [] Hc. by split. Qed.

Lemma up_set_immediate l c :
  up l → Forall immediate_envelope (chan_items c) → up (set_immediate_disconnect_rx c l).
Proof. intros [L C] Hc. split; [by apply linv_set_immediate|done]. Qed.

Lemma recv_requests l e c :
  up l → chan_try_recv (requests_rx l) = Some (e, c) → client_envelope e ∧ up (set_requests_rx c l).
Proof.
  intros U Hc%chan_try_recv_some. pose proof (li_requests _ _ (proj1 U)) as Hf. rewrite Hc in Hf.
  apply Forall_cons in Hf as [??]. split; [done|by apply up_set_requests].
Qed.

Lemma recv_control l e c :
  up l → chan_try_recv (control_requests_rx l) = Some (e, c) →
  client_envelope e ∧ up (set_control_requests_rx c l).
Proof.
  intros U Hc%chan_try_recv_some. pose proof (li_control _ _ (proj1 U)) as Hf. rewrite Hc in Hf.
  apply Forall_cons in Hf as [??]. split; [done|by apply up_set_control].
Qed.

Lemma recv_immediate l e c :
  linv [] l → chan_try_recv (immediate_disconnect_rx l) = Some (e, c) →
  env_request e = R_DisconnectNow ∧ linv [] (set_immediate_disconnect_rx c l).
Proof.
  intros L Hc%chan_try_recv_some. pose proof (li_immediate _ _ L) as Hf. rewrite Hc in Hf.
  apply Forall_cons in Hf as [[_ ?] ?]. split; [done|by apply linv_set_immediate].
Qed.

Lemma safe_try_recv_requests l :
  up l → safe try_recv_requests (λ r l', match r with None => up l' | Some e => taken l' e end) l.
Proof.
  intros U. apply wp_bind, wp_get. destruct (chan_try_recv _) as [[e c]|] eqn:Hc; [|by apply wp_ret].
  destruct (recv_requests _ _ _ U Hc). apply wp_bind, wp_modify, wp_ret. by apply up_taken.
Qed.

Lemma safe_try_recv_control l :
  up l → safe try_recv_control (λ r l', up l' ∧ (∀ e, r = Some e → client_envelope e)) l.
Proof.
  intros U. apply wp_bind, wp_get. destruct (chan_try_recv _) as [[e c]|] eqn:Hc; [|by apply wp_ret].
  destruct (recv_control _ _ _ U Hc). apply wp_bind, wp_modify, wp_ret. split; [done|]. by intros ? [= <-].
Qed.

Lemma safe_try_recv_immediate l :
  linv [] l →
  safe try_recv_immediate
    (λ r l', linv [] l' ∧ network l' = network l ∧ (∀ e, r = Some e → env_request e = R_DisconnectNow)) l.
Proof.
  intros L. apply wp_bind, wp_get. destruct (chan_try_recv _) as [[e c]|] eqn:Hc; [|by apply wp_ret].
  destruct (recv_immediate _ _ _ L Hc). apply wp_bind, wp_modify, wp_ret. split; [done|]. split; [done|].
  by intros ? [= <-].
Qed.

Lemma safe_try_next_request l :
  up l → safe (try_next_request env) (λ r l', match r with None => up l' | Some e => taken l' e end) l.
Proof.
  intros U. apply wp_bind, wp_get. destruct (no_entries (pending l)); cbn [negb]; [by apply safe_try_recv_requests|].
  apply wp_bind, (wp_ask env Henv []); [apply U|]. intros a l1 Ha L1 W1. case_match; [|by apply wp_fail].
  pose proof (up_awaited _ _ W1 L1 U) as U1. apply wp_bind, wp_get.
  destruct (pending l1) as [|e rest] eqn:Hp; [by apply wp_ret|]. apply wp_bind, wp_modify, wp_ret.
  by apply taken_pending.
Qed.

Lemma safe_push_queued l e : taken l e → safe (push_queued e) (λ _ l', up l') l.
Proof. intros T. apply wp_modify. by apply up_push_queued. Qed.

Lemma safe_try_admit_loop n l : up l → safe (try_admit_loop env n) (λ _ l', up l') l.
Proof.
  revert l. induction n as [|n IH]; intros l U; cbn [try_admit_loop]; [by apply wp_ret|].
  apply wp_bind, wp_get. case_match; [by apply wp_ret|]. apply wp_bind.
  eapply wp_mono; [by apply safe_try_next_request| |done]. intros [e|] l1 T; [|by apply wp_ret].
  apply wp_bind. eapply wp_mono; [by apply safe_push_queued| |done]. intros u l2 U2.
  case_match; [by apply wp_ret|by apply IH].
Qed.

Lemma safe_admit_loop n l : up l → safe (admit_loop env n) (λ _ l', up l') l.
Proof.
  revert l. induction n as [|n IH]; intros l U; cbn [admit_loop]; [by apply wp_ret|]. apply wp_bind.
  eapply wp_mono; [by apply safe_try_next_request| |done]. intros [e|] l1 T; [|by apply wp_ret].
  apply wp_bind. eapply wp_mono; [by apply safe_push_queued| |done]. intros u l2 U2.
  case_match; [by apply wp_ret|by apply IH].
Qed.

Lemma safe_admit_batch e l : taken l e → safe (admit_normal_request_batch env e) (λ _ l', up l') l.
Proof.
  intros T. apply wp_bind. eapply wp_mono; [by apply safe_push_queued| |done]. intros u l1 U1.
  apply wp_bind, wp_get. case_match; [by apply wp_ret|by apply safe_admit_loop].
Qed.

(** ** Arbitration *)

(** What [select] may find. *)
Definition found (r : PollReady) l : Prop :=
  match r with
  | PR_Immediate e => up l ∧ env_request e = R_DisconnectNow
  | PR_ControlReady e => up l ∧ client_envelope e
  | PR_Request (inl e) => taken l e
  | PR_Network f => up l ∧ frame_ok f
  | _ => up l
  end.

Lemma found_next_source r l v : found r l → found r (set_next_poll_source v l).
Proof.
  assert (Hf : ∀ h, linv h l → linv h (set_next_poll_source v l)) by (intros; by eapply linv_frame).
  unfold found, up, taken. destruct r as [| | |[]| |]; naive_solver.
Qed.

Lemma safe_found source r l :
  found r l → safe (mmodify (set_next_poll_source (after_ready source));; mret r : EL PollReady) found l.
Proof. intros F. apply wp_bind, wp_modify, wp_ret. by apply found_next_source. Qed.

Lemma safe_arbitrate n a (requests_enabled keepalive_enabled : bool) source l :
  up l → answer_ok a → (keepalive_enabled = true → keepalive_timeout l ≠ None) →
  safe (arbitrate n a requests_enabled keepalive_enabled source) found l.
Proof.
  intros U Ha Hk. revert source. induction n as [|n IH]; intros source; cbn [arbitrate]; [apply wp_fail, U|].
  apply wp_bind, wp_get. destruct source as [k| |].
  - destruct requests_enabled; cbn [negb]; [|apply IH]. destruct (pending l) as [|e rest] eqn:Hp.
    + destruct (chan_poll _) as [e c| |] eqn:Hc; [|by apply safe_found|apply IH].
      destruct (recv_requests _ _ _ U (chan_poll_item _ _ _ Hc)). apply wp_bind, wp_modify, safe_found.
      by apply up_taken.
    + destruct (a_throttle a); [|apply IH]. apply wp_bind, wp_modify, safe_found. by apply taken_pending.
  - destruct (a_frame a) as [f|] eqn:Hf; [|apply IH]. apply safe_found. split; [done|by apply Ha].
  - destruct keepalive_enabled; cbn [negb]; [|apply IH]. destruct (keepalive_timeout l); [|by destruct Hk].
    destruct (_ <=? _); [by apply safe_found|apply IH].
Qed.

Lemma safe_wait_ready requests_enabled l : up l → safe (wait_ready env requests_enabled) found l.
Proof.
  intros U. apply wp_bind, wp_get, wp_bind, wp_the_network; [apply U|]. intros n Hn.
  apply wp_bind, (wp_ask env Henv []); [apply U|]. intros a l1 Ha L1 W1. apply wp_bind, wp_get.
  pose proof (up_awaited _ _ W1 L1 U) as U1.
  assert (Hs : safe (arbitrate 3 a requests_enabled
    (is_some (keepalive_timeout l) && negb (opt_keep_alive (el_options l) =? 0)) (next_poll_source l1)) found l1).
  { apply safe_arbitrate; [done..|]. rewrite (aw_timeout _ _ W1). by destruct (keepalive_timeout l). }
  assert (Hc : ∀ b : bool, safe (if b then arbitrate 3 a requests_enabled
      (is_some (keepalive_timeout l) && negb (opt_keep_alive (el_options l) =? 0)) (next_poll_source l1)
    else match chan_poll (control_requests_rx l1) with
         | Rcv_Item envelope c => mmodify (set_control_requests_rx c);; mret (PR_ControlReady envelope)
         | Rcv_Closed => mret PR_Closed
         | Rcv_Pending => arbitrate 3 a requests_enabled
             (is_some (keepalive_timeout l) && negb (opt_keep_alive (el_options l) =? 0)) (next_poll_source l1)
         end) found l1).
  { intros []; [done|]. destruct (chan_poll _) as [e c| |] eqn:He; [|by apply wp_ret|done].
    destruct (recv_control _ _ _ U1 (chan_poll_item _ _ _ He)). by apply wp_bind, wp_modify, wp_ret. }
  destruct (negb (negb _)); [apply Hc|].
  destruct (chan_poll (immediate_disconnect_rx l1)) as [e c| |] eqn:He; [|by apply wp_ret|apply Hc].
  destruct (recv_immediate _ _ _ (proj1 U1) (chan_poll_item _ _ _ He)). apply wp_bind, wp_modify, wp_ret.
  split; [split; [done|apply U1]|done].
Qed.

Lemma safe_next_ready l : up l → safe (next_ready env) found l.
Proof.
  intros U. apply wp_bind, wp_get. cbv zeta. destruct (_ && is_request_source _); [|by apply safe_wait_ready]. apply wp_bind.
  eapply wp_mono; [apply safe_try_recv_immediate, U| |done]. intros [e|] l1 (L1 & Hn1 & He1).
  { apply wp_ret. split; [|by apply He1]. split; [done|rewrite Hn1; apply U]. }
  assert (U1 : up l1) by (split; [done|rewrite Hn1; apply U]). apply wp_bind.
  eapply wp_mono; [by apply safe_try_recv_control| |done]. intros [e|] l2 [U2 He2].
  { apply wp_ret. split; [done|by apply He2]. }
  apply wp_bind. eapply wp_mono; [by apply safe_try_recv_requests| |done]. intros [e|] l3 T3.
  - apply wp_bind, wp_modify, wp_ret. by apply (found_next_source (PR_Request (inl e))).
  - by apply safe_wait_ready.
Qed.

(** ** Disconnects *)

(** When no packet identifier is in use, nothing waits to be sent again. *)
Lemma drained_nothing R s : sess R s → outbound_requests_drained s = true → R = [].
Proof.
  intros S Hd. unfold outbound_requests_drained in Hd. apply andb_true_iff in Hd as [_ Hc%Z.eqb_eq].
  pose proof (inv_ids _ _ _ (sess_inv _ _ S)) as Hi. pose proof (ids_count _ _ _ Hi) as Hl.
  unfold blen in Hl. rewrite (live_ids_sess R s S), Hc, !length_app in Hl.
  destruct R as [|e R]; [done|]. pose proof (sess_ok _ _ S) as [Hok _]%Forall_cons.
  unfold replay_ok in Hok. cbn [omap list_omap] in Hl. unfold any_id at 1 in Hl.
  destruct (env_request e); try done; cbn [length] in Hl; lia.
Qed.

Lemma linv_drop_queues l :
  linv [] l → replays l = [] → linv [] (set_queued (mkScheduler []) (set_pending [] l)).
Proof.
  intros L Hr. apply (linv_move [] l); try done; try apply L. by rewrite Hr.
Qed.

(** What [drop_unprocessed_requests] changes. *)
Lemma wp_drop_unprocessed (Q : unit → EventLoop B → Prop) (X : Stop → EventLoop B → Prop) l :
  (∀ l', (linv [] l → replays l = [] → linv [] l') → el_state l' = el_state l →
     stored (world l') = stored (world l) → Q tt l') →
  wp drop_unprocessed_requests Q X l.
Proof.
  intros HQ. unfold drop_unprocessed_requests. apply wp_bind, wp_modify, wp_bind, wp_modify, wp_bind, wp_drain_requests,
    wp_bind, wp_drain_control, wp_ret, HQ; [|done..].
  intros L Hr. destruct (linv_drop_queues l L Hr). by split.
Qed.

Lemma safe_send_pending_disconnect l :
  up l → outbound_requests_drained (el_state l) = true →
  safe (send_pending_disconnect env) (λ _ l', linv [] l') l.
Proof.
  intros U Hd. apply wp_bind, wp_modify, wp_bind, (wp_now env Henv []).
  { apply (safe_set_pending_disconnect l None U). }
  intros at_ l1 L1 W1. assert (C1 : connected l1) by (rewrite (aw_network _ _ W1); apply U).
  assert (Hd1 : outbound_requests_drained (el_state l1) = true) by (by rewrite (aw_state _ _ W1)).
  apply wp_bind, wp_in_state. unfold handle_outgoing_packet_with_notice, handle_outgoing_packet_with_notice_internal.
  do 3 apply wp_bind. apply wp_modify, wp_ret, wp_ret, wp_bind, wp_modify, wp_ret.
  match goal with |- wp _ _ _ (set_el_state ?s ?l) =>
    assert (S2 : sess (replays l1) s ∧ outbound_requests_drained s = true ∧ events s ≠ []) end.
  { destruct (li_sess _ _ L1) as [S1 S2 S3 S4 S5 S6 S7]. split; [|split].
    - split; try done. by apply inv_set_last_outgoing, inv_set_events.
    - done.
    - fields. by destruct (events (el_state l1)). }
  destruct S2 as (S2 & Hd2 & E2). apply wp_bind.
  match goal with |- wp _ _ _ ?l => set (l2 := l);
    assert (U2 : up l2) by exact (up_set_state [] l1 _ L1 C1 S2);
    change (outbound_requests_drained (el_state l2) = true) in Hd2; change (eventful l2) in E2 end.
  clearbody l2. destruct U2 as [L2 C2]. apply wp_bind, safe_state_try.
  eapply wp_mono; [by apply (safe_Network_write env Henv _ l2), written_refl| |done].
  intros [v|e] l3 Hw3; [|apply Hw3]. eapply wp_mono; [by apply (safe_flush_network env Henv l2)| |done].
  intros u l4 (L4 & C4 & S4). apply wp_bind, wp_drop_unprocessed. intros l5 L5 S5 _.
  assert (Hr4 : replays l4 = []) by (apply (drained_nothing _ _ (li_sess _ _ L4)); by rewrite S4).
  specialize (L5 L4 Hr4). apply wp_bind. eapply wp_mono; [by apply (safe_save env Henv)| |done].
  intros w l6 (L6 & S6 & _). apply wp_bind, wp_modify, safe_expect_event; [by eapply linv_frame|].
  apply (eventful_state l2); [|done]. change (el_state l6 = el_state l2). congruence.
Qed.

Lemma safe_expired deadline l :
  linv [] l → safe (expired env deadline) (λ _ l', linv [] l' ∧ network l' = network l) l.
Proof.
  intros L. destruct deadline; [|by apply wp_ret]. apply wp_bind, (wp_now env Henv []); [done|].
  intros at_ l' L' W. apply wp_ret. split; [done|apply W].
Qed.

Definition drained_or l (r : option Event) : Prop :=
  match r with Some _ => linv [] l | None => up l end.

Lemma safe_drain_read first size deadline d l :
  up l → frame_ok first →
  safe (result ← try_ (read_network_batch env first size deadline);
        match result with
        | inl _ => mret None
        | inr error =>
            late ← expired env d;
            event ← defer_connection_error
              (if (late : bool) && response_timed_out error then CE_DisconnectTimeout else error);
            mret (Some event)
        end) (λ r l', drained_or l' r) l.
Proof.
  intros U Hf. apply wp_bind. eapply wp_mono; [by apply safe_try, (safe_read_network_batch env Henv)| |done].
  intros [u|e] l1 Hl1; [apply wp_ret, Hl1|]. apply wp_bind.
  eapply wp_mono; [by apply safe_expired| |done]. intros late l2 [L2 _]. apply wp_bind.
  eapply wp_mono; [by apply safe_defer| |done]. intros ev l3 L3. by apply wp_ret.
Qed.

Lemma first_ready_in k (i r t : option DrainReady) x :
  first_ready (match k with 0%nat => [i; r; t] | 1%nat => [r; t; i] | _ => [t; i; r] end) = Some x →
  i = Some x ∨ r = Some x ∨ t = Some x.
Proof. destruct i, r, t, k as [|[]]; cbn; naive_solver. Qed.

Lemma safe_poll_disconnect_drain l :
  up l → safe (poll_disconnect_drain env) (λ r l', drained_or l' r) l.
Proof.
  intros U. apply wp_bind, wp_get, wp_bind, wp_the_network; [apply U|]. intros n Hn. cbv zeta.
  apply wp_bind, (wp_ask env Henv []); [apply U|]. intros a l1 Ha L1 W1. apply wp_bind, wp_get.
  pose proof (up_awaited _ _ W1 L1 U) as U1.
  destruct (first_ready _) as [r|] eqn:Hr; [|by apply wp_fail].
  assert (Hready : match r with
      | DR_Immediate e c => chan_try_recv (immediate_disconnect_rx l1) = Some (e, c)
      | DR_Frame f => a_frame a = Some f
      | _ => True end).
  { apply first_ready_in in Hr as [Hr|[Hr|Hr]].
    - destruct (negb (negb _)); [done|].
      destruct (chan_poll _) eqn:He; [apply chan_poll_item in He|..]; by simplify_eq.
    - destruct (a_frame a); [|done]. by injection Hr as <-.
    - repeat case_match; by simplify_eq. }
  destruct r as [e c| |f|].
  - destruct (recv_immediate _ _ _ L1 Hready). apply wp_bind, wp_modify, wp_bind.
    eapply wp_mono; [apply (safe_handle_immediate env Henv); [split; [done|apply U1]|done]| |done].
    intros ev l2 L2. by apply wp_ret.
  - by apply wp_ret.
  - apply wp_bind. eapply wp_mono; [by apply (safe_response_deadline env Henv)| |done]. intros d l2 [L2 W2].
    cbv zeta. apply safe_drain_read; [by eapply up_awaited|by apply Ha].
  - apply wp_bind. eapply wp_mono; [by apply safe_expired| |done]. intros late l2 [L2 _]. by apply wp_fail.
Qed.

(** ** Polls *)

Lemma safe_select turns l : up l → safe (select env turns) (λ _ l', linv [] l') l.
Proof.
  revert l. induction turns as [|turns IH]; intros l U; cbn [select]; [apply wp_fail, U|].
  apply wp_bind, wp_pop_event; [intros He|intros e es _; by apply wp_ret, linv_set_events, U].
  apply wp_bind. eapply wp_mono; [apply safe_try_recv_immediate, U| |done]. intros [e|] l1 (L1 & Hn1 & He1);
    (assert (U1 : up l1) by (split; [done|rewrite Hn1; apply U])).
  { apply (safe_handle_immediate env Henv); [done|by apply He1]. }
  apply wp_bind, wp_get. case_match; [by apply wp_fail|]. apply wp_bind.
  eapply wp_mono; [by apply (safe_check_scan_timeout env Henv)| |done]. intros u l2 U2.
  apply wp_bind, wp_get, wp_bind.
  eapply wp_mono with (Q := λ _ l', up l') (X := λ _ l', linv [] l'); [| |done].
  { case_match; [by apply (safe_handle_ready_requests env Henv)|by apply wp_ret]. }
  intros [] l3 U3.
  { apply wp_bind, wp_pop_event; [by intros _; apply IH|]. intros e es _. apply wp_ret, linv_set_events, U3. }
  apply wp_bind, wp_get. case_match.
  { case_match eqn:Hd; [by apply safe_send_pending_disconnect|]. apply wp_bind.
    eapply wp_mono; [by apply safe_poll_disconnect_drain| |done].
    intros [e|] l4 Hl4; [by apply wp_ret|by apply IH]. }
  apply wp_bind. eapply wp_mono; [by apply safe_next_ready| |done]. intros r l4 F4.
  destruct r as [|e|e|[e|e]|f|]; cbn [found] in F4.
  - by apply IH.
  - apply (safe_handle_immediate env Henv); apply F4.
  - destruct F4 as [U4 Hc4]. apply wp_bind, wp_bind, wp_get.
    eapply wp_mono; [by apply safe_try_admit_loop| |done]. intros v l5 U5. apply wp_bind.
    eapply wp_mono; [by apply safe_push_queued, up_taken| |done]. intros w l6 U6. by apply IH.
  - apply wp_bind. eapply wp_mono; [by apply safe_admit_batch| |done]. intros v l5 U5. by apply IH.
  - by apply IH.
  - destruct F4 as [U4 Hf4]. by apply (safe_handle_network_read env Henv).
  - by apply (safe_keepalive env Henv).
Qed.

(** The loop between polls.  Once a disconnect is complete only the store matters. *)
Record loop_ok l : Prop := {
  loop_inv : disconnect_complete l = false → linv [] l;
  loop_stored : map_Forall (λ _ p, stored_ok p) (stored (world l));
}.

Lemma linv_loop l : linv [] l → loop_ok l.
Proof. intros L. split; [done|apply L]. Qed.

Lemma safe_handle_network_result result l :
  linv [] l → wp (handle_network_result env result) (λ _ l', loop_ok l') (λ _ l', loop_ok l') l.
Proof.
  intros L. assert (Hc : wp (EventLoop_clean;; save_persisted_session env : EL unit)
      (λ _ l', loop_ok l') (λ _ l', loop_ok l') l).
  { apply wp_bind. eapply wp_mono; [by apply safe_clean| |intros e l' L'; by apply linv_loop].
    intros u l1 [L1 _]. eapply wp_mono; [by apply (safe_save env Henv)|..].
    - intros v l2 (L2 & _). by apply linv_loop.
    - intros e l' L'. by apply linv_loop. }
  destruct result as [e|e]; [by apply wp_ret, linv_loop|].
  assert (G : wp (EventLoop_clean;; save_persisted_session env;; fail_with e : EL Event)
      (λ _ l', loop_ok l') (λ _ l', loop_ok l') l).
  { apply wp_bind. apply wp_bind_inv in Hc. eapply wp_mono; [exact Hc| |done]. intros u l1 Hs. apply wp_bind.
    eapply wp_mono; [exact Hs| |done]. intros v l2 L2. by apply wp_fail. }
  destruct e; try exact G. clear G Hc. unfold handle_network_result, forget_connection.
  apply wp_bind, wp_bind, wp_modify, wp_bind, wp_modify, wp_bind, wp_modify, wp_modify.
  apply wp_bind, wp_modify, wp_bind, wp_drop_unprocessed. intros l1 _ _ Hs. apply wp_bind, wp_modify, wp_fail.
  split; [done|]. change (map_Forall (λ _ p, stored_ok p) (stored (world l1))). rewrite Hs. apply L.
Qed.

Lemma safe_poll turns l :
  loop_ok l → wp (poll env turns) (λ _ l', loop_ok l') (λ _ l', loop_ok l') l.
Proof.
  intros O. apply wp_bind, wp_get. destruct (disconnect_complete l) eqn:Hd; [by apply wp_fail|].
  pose proof (loop_inv _ O Hd) as L. destruct (pending_connection_error l) as [e|].
  { apply wp_bind, wp_pop_event.
    - intros _. apply wp_bind, wp_modify, safe_handle_network_result. by eapply linv_frame.
    - intros ev es _. by apply wp_ret, linv_loop, linv_set_events. }
  destruct (network l) as [n|] eqn:Hn; cbn [is_none].
  - apply wp_bind. eapply wp_mono with (X := λ _ l', linv [] l'); [apply safe_try, safe_select| |].
    + split; [done|by rewrite Hn].
    + intros r l' L'. apply safe_handle_network_result. by destruct r.
    + intros e l' L'. by apply linv_loop.
  - apply wp_bind. eapply wp_mono with (X := λ _ l', linv [] l'); [by apply safe_try_recv_immediate| |].
    + intros [e|] l1 (L1 & Hn1 & _).
      * apply wp_bind, wp_modify, wp_fail, linv_loop. by eapply linv_frame.
      * eapply wp_mono; [apply (safe_establish env Henv); [done|by rewrite Hn1]|..].
        -- intros ev l2 [L2 _]. by apply linv_loop.
        -- intros e l2 L2. by apply linv_loop.
    + intros e l' L'. by apply linv_loop.
Qed.
End LoopPoll.
