(* ===== verification/V4LoopSafety.v ===== *)
(** The event loop of the MQTT 3.1.1 client over any sequence of polls and calls of its public
    operations: it never panics, its packet identifiers are consistent, what it leaves in the
    session store can be restored, and a lost connection loses no request. *)

From S2P Require Import Prelude.
From S2P Require Import Utf8.
From S2P Require Import Primitives.
From S2P Require Import CodecBase.
From S2P Require Import V4Base.
From S2P Require Import V4Acks.
From S2P Require Import V4Publish.
From S2P Require Import V4Subscribe.
From S2P Require Import V4Connect.
From S2P Require Import V4Packet.
From S2P Require Import Scheduler.
From S2P Require Import FixedBitSet.
From S2P Require Import SessionIO.
From S2P Require Import V4SessionFormat.
From S2P Require Import V4SessionTypes.
From S2P Require Import PacketIds.
From S2P Require Import V4State.
From S2P Require Import V4Clean.
From S2P Require Import V4Invariant.
From S2P Require Import V4Handlers.
From S2P Require Import V4Session.
From S2P Require Import V4CleanProofs.
From S2P Require Import V4Reachable.
From S2P Require Import V4Delivery.
From S2P Require Import V4Reconnect.
From S2P Require Import V4Persist.
From S2P Require Import V4Restore.
From S2P Require Import V4Recovery.
From S2P Require Import V4LoopTypes.
From S2P Require Import V4LoopSession.
From S2P Require Import V4EventLoop.
From S2P Require Import V4LoopState.
From S2P Require Import V4LoopInv.
From S2P Require Import V4LoopQueues.
From S2P Require Import V4LoopRequests.
From S2P Require Import V4LoopPoll.
#[local] Open Scope Z_scope.

Section LoopSafety.
  Context {B : Type} `{FixedBitSetLaws B}.

Implicit Types (l : EventLoop B).

(** ** Reachable loops *)

(** A loop is created, polled in any environment, for any number of turns and dropped at any
    point where it waits, its options change, and requests are moved by [clean] and
    [discard_pending_manual_acknowledgements]; the session is reset while no connection is up,
    and the queues are emptied while nothing in them is to be sent again.  The store holds
    checkpoints of loops. *)
Inductive loop_reachable : EventLoop B → Prop :=
| loop_new at_ options timeout w :
    0 ≤ opt_inflight options ≤ u16_MAX → options_ok options → map_Forall (λ _ p, stored_ok p) (stored w) →
    loop_reachable (EventLoop_new at_ options timeout w)
| loop_poll env turns l :
    loop_reachable l → env_ok env → loop_reachable (poll env turns l).2
| loop_clean l :
    loop_reachable l → disconnect_complete l = false → loop_reachable (EventLoop_clean l).2
| loop_discard l :
    loop_reachable l → disconnect_complete l = false →
    loop_reachable (discard_pending_manual_acknowledgements l).2
| loop_reset env l :
    loop_reachable l → disconnect_complete l = false → env_ok env → network l = None →
    loop_reachable (EventLoop_reset_session_state env l).2
| loop_drain l :
    loop_reachable l → disconnect_complete l = false → replays l = [] →
    loop_reachable (drain_pending_as_failed l).2
| loop_options options l :
    loop_reachable l → options_ok options → loop_reachable (set_el_options options l).

Lemma wp_result {S E A} (m : M S E A) (Q : A → S → Prop) (X : E → S → Prop) (P : S → Prop) s :
  wp m Q X s → (∀ a s', Q a s' → P s') → (∀ e s', X e s' → P s') → (m s).1 ≠ Panic ∧ P (m s).2.
Proof. unfold wp. destruct (m s) as [[]]; naive_solver. Qed.

Lemma poll_sound env turns l :
  loop_ok l → env_ok env → (poll env turns l).1 ≠ Panic ∧ loop_ok (poll env turns l).2.
Proof. intros O Henv. by apply (wp_result _ _ _ _ _ (safe_poll env Henv turns l O)). Qed.

Lemma clean_sound l :
  linv [] l → (EventLoop_clean l).1 ≠ Panic ∧ linv [] (EventLoop_clean l).2.
Proof. intros L. apply (wp_result _ _ _ _ _ (safe_clean l L)); [by intros u l' [? _]|done]. Qed.

Lemma discard_sound l :
  linv [] l →
  (discard_pending_manual_acknowledgements l).1 ≠ Panic ∧
  linv [] (discard_pending_manual_acknowledgements l).2.
Proof. intros L. apply (wp_result _ _ _ _ _ (safe_discard_acks l L)); [by intros u l' [? _]|done]. Qed.

Lemma reset_sound env l :
  linv [] l → network l = None → env_ok env →
  (EventLoop_reset_session_state env l).1 ≠ Panic ∧ linv [] (EventLoop_reset_session_state env l).2.
Proof.
  intros L Hn Henv. apply (wp_result _ _ _ _ _ (safe_reset_internal env Henv Clear l L Hn)); [|done].
  by intros u l' [].
Qed.

Lemma drain_sound l :
  linv [] l → replays l = [] →
  (drain_pending_as_failed l).1 ≠ Panic ∧ linv [] (drain_pending_as_failed l).2.
Proof.
  intros L Hr. split; [done|]. by eapply linv_frame; [exact (linv_drop_queues l L Hr)|..].
Qed.

Lemma new_sound at_ options timeout w :
  0 ≤ opt_inflight options ≤ u16_MAX → options_ok options → map_Forall (λ _ p, stored_ok p) (stored w) →
  linv [] (EventLoop_new at_ options timeout w : EventLoop B).
Proof.
  intros Ho Hk Hw. split; try done; try (by constructor). by apply sess_new.
Qed.

Lemma reachable_ok l : loop_reachable l → loop_ok l.
Proof.
  induction 1 as [|env turns l _ IH|l _ IH Hd|l _ IH Hd|env l _ IH Hd Henv Hn|l _ IH Hd Hr|o l _ IH Ho].
  - by apply linv_loop, new_sound.
  - by apply poll_sound.
  - by apply linv_loop, clean_sound, IH.
  - by apply linv_loop, discard_sound, IH.
  - by apply linv_loop, reset_sound; [apply IH|..].
  - by apply linv_loop, drain_sound; [apply IH|].
  - destruct IH as [IH1 IH2]. split; [|done]. intros Hd. destruct (IH1 Hd). by split.
Qed.

Lemma reachable_linv l : loop_reachable l → disconnect_complete l = false → linv [] l.
Proof. intros R. apply (loop_inv _ (reachable_ok l R)). Qed.

(** C4: Whatever the network, the clock, the client handles and the session store do, and
    wherever a poll is dropped while it waits, the event loop never panics: not when it is
    polled, for any number of turns, and not when one of its public operations is called in between.
    The clock and the timeouts of disconnections that client handles ask for are less than half the
    range of [Instant] ([env_ok]).  Covered are the runs [loop_reachable]: not what follows after
    the session has been reset while connected, or after the queues have been emptied while requests
    wait in them to be sent again. *)
Theorem loop_never_panics l :
  loop_reachable l →
  (∀ env turns, env_ok env → (poll env turns l).1 ≠ Panic) ∧
  (disconnect_complete l = false →
     (EventLoop_clean l).1 ≠ Panic ∧ (discard_pending_manual_acknowledgements l).1 ≠ Panic ∧
     (drain_pending_as_failed l).1 ≠ Panic ∧
     ∀ env, env_ok env → (EventLoop_reset_session_state env l).1 ≠ Panic).
Proof.
  intros R. split; [intros env turns Henv; by apply poll_sound; [apply reachable_ok|]|].
  intros Hd. pose proof (reachable_linv l R Hd) as L.
  split_and!; [by apply clean_sound|by apply discard_sound|done|]. intros env Henv.
  by apply (reset_no_panic env Henv).
Qed.

(** A timeout beyond the range of the clock makes the loop panic. *)
Lemma disconnect_timeout_overflow env should_flush notices l :
  0 ≤ a_now (env (tick (world l))) →
  (handle_request env (V4LoopTypes.envelope_plain (R_DisconnectWithTimeout (Instant_MAX + 1)))
     should_flush notices l).1 = Panic.
Proof.
  intros Hn. unfold handle_request. cbn [V4LoopTypes.envelope_plain env_request]. rewrite bind_run. unfold now.
  rewrite bind_run. cbn [ask mret M_ret]. rewrite bind_run. unfold lift, PendingDisconnect_new, instant_add, instant_checked_add.
  rewrite (proj2 (Z.leb_gt _ _)) by lia. done.
Qed.



Lemma replays_all (R : list RequestEnvelope) :
  Forall (λ e, env_replay e = true) R → replay_envelopes R = R.
Proof.
  unfold replay_envelopes. induction 1 as [|e R He _ IH]; [done|]. by rewrite filter_cons_True, IH.
Qed.

Abbreviation lost s := (clean_request_envelope <$> unfinished s).

Lemma clean_run l :
  linv [] l →
  ∃ l', EventLoop_clean l = (Ok tt, l') ∧ network l' = None ∧ pending_disconnect l' = None ∧
    pending l' = pending l ++ lost (el_state l) ++
      replayable_envelopes (queue (queued l)) ++ replayable_envelopes (chan_items (requests_rx l)) ++
      replayable_envelopes (chan_items (control_requests_rx l)) ∧
    is_empty (queued l') = true ∧ chan_items (requests_rx l') = [] ∧
    chan_items (control_requests_rx l') = [] ∧ unfinished (el_state l') = [] ∧
    inflight (el_state l') = 0 ∧ immediate_disconnect_rx l' = immediate_disconnect_rx l ∧
    kinds (lost (el_state l)) (outgoing_pub_order (el_state l)) (outgoing_rel_order (el_state l))
      ((btree_entries (pending_subscribe (el_state l))).*1 ++ (btree_entries (pending_unsubscribe (el_state l))).*1).
Proof.
  intros L. pose proof (li_sess _ _ L) as S. cbn [app] in S.
  match goal with |- ∃ l', _ ∧ @?P l' => cut (wp EventLoop_clean (λ _ l', P l') (λ _ _, False) l) end.
  { unfold wp. destruct (EventLoop_clean l) as [[[]|e|] l']; [|done..]. intros ?. by exists l'. }
  unfold EventLoop_clean, forget_connection.
  apply wp_bind, wp_bind, wp_modify, wp_bind, wp_modify, wp_bind, wp_modify, wp_modify.
  apply wp_bind, wp_modify, wp_bind, wp_in_state_total.
  eapply wp_mono; [apply (wp_sess_clean (replays l) (el_state l) S)| |done].
  intros r s' (-> & K & _ & C). apply wp_bind, wp_modify.
  apply wp_bind, wp_drain_queued, wp_bind, wp_modify, wp_bind, wp_drain_requests, wp_bind, wp_modify, wp_bind,
    wp_drain_control, wp_modify. split_and!; try done.
  - cbn [pending queued queue requests_rx control_requests_rx chan_items set_pending set_queued set_requests_rx
      set_control_requests_rx set_el_state set_pending_disconnect set_keepalive_scan_deadline set_keepalive_timeout
      set_connack_session set_network el_state]. by rewrite <- !(assoc_L (++)).
  - destruct C as [_ C1 C2 _ [C3 C4] C5 _ _ _ _ _ _]. change (unfinished s' = []). unfold unfinished, clean_held.
    by rewrite C1, C2, C3, C4, C5.
  - apply C.
Qed.

(** C8: When a connection is lost, no request is: what waits afterwards is what waited before, what the
    session has not finished, what was scheduled and what is in the channels, each once; only
    acknowledgements of publishes, which belong to the lost connection, are dropped, and the session
    is left with nothing in progress.  When nothing was waiting to be sent again, which is so at
    the first loss after a replay is complete, the publishes and the releases that will be sent again
    are in the order in which they were sent; when nothing was waiting at all, the unfinished requests
    come first, then the scheduled ones, then those of the channels.  (The second loss during a replay
    does not keep the order of publishes: [second_loss_reorders].) *)
Theorem loop_clean_keeps l :
  loop_reachable l → disconnect_complete l = false →
  let kept := (clean_request_envelope <$> unfinished (el_state l)) ++
      replayable_envelopes (queue (queued l)) ++ replayable_envelopes (chan_items (requests_rx l)) ++
      replayable_envelopes (chan_items (control_requests_rx l)) in
  ∃ l', EventLoop_clean l = (Ok tt, l') ∧ network l' = None ∧ pending_disconnect l' = None ∧
    pending l' ≡ₚ pending l ++ kept ∧
    (replays l = [] →
       omap pub_id (replays l') = outgoing_pub_order (el_state l) ∧
       omap rel_id (replays l') = outgoing_rel_order (el_state l)) ∧
    (pending l = [] → pending l' = kept) ∧
    is_empty (queued l') = true ∧ chan_items (requests_rx l') = [] ∧
    chan_items (control_requests_rx l') = [] ∧ unfinished (el_state l') = [] ∧
    inflight (el_state l') = 0 ∧ immediate_disconnect_rx l' = immediate_disconnect_rx l.
Proof.
  intros R Hd kept. pose proof (reachable_linv l R Hd) as L.
  destruct (clean_run l L) as (l' & Hc & Hn & Hpd & Hp & He & Hr & Hctl & Hu & Hi & Him & K).
  exists l'. fold kept in Hp. split_and!; try done; [by rewrite Hp| |by rewrite Hp; intros ->].
  destruct K as [K1 K2 _ _ K5]. intros Hnone. assert (Hrep : replays l' = lost (el_state l)).
  { unfold replays, waiting in *. unfold is_empty in He.
    destruct (queue (queued l')) as [|? ?] eqn:Hq; [|done]. rewrite Hp, app_nil_r. rewrite replays_app in Hnone. apply app_nil in Hnone as [Hn1 Hn2].
    unfold kept. rewrite !replays_app, Hn1, (replays_replayable (queue (queued l))), Hn2 by (rewrite Hn2; constructor).
    rewrite (replays_all (lost _) K5), (replays_client (replayable_envelopes (chan_items (requests_rx l)))),
      (replays_client (replayable_envelopes (chan_items (control_requests_rx l)))) by (apply Forall_replayable, L).
    by rewrite !app_nil_r. }
  rewrite Hrep. by split.
Qed.
End LoopSafety.

(** ** Witnesses *)

(** A client that connects, and whose handles publish with QoS 1 again and again. *)
Definition loop_demo_options : MqttOptions :=
  mkMqttOptions [99; 49] false 3 Automatic 60000000000 SPM_Error Auth_None None 10240 10240 1 0 true [115].

Definition quiet_answer : Answer := mkAnswer 0 [] [] [] false IO_Ok SA_Ok None true 0.

Definition connack_answer : Answer :=
  mkAnswer 0 [] [] [] false IO_Ok SA_Ok
    (Some (Some (inl (P_ConnAck {| session_present := false; code := CRC_Success |})))) true 0.

Definition publish_answer : Answer :=
  mkAnswer 0 (replicate 2 (V4LoopTypes.tracked_publish (demo_publish AtLeastOnce 0) 7)) [] [] false IO_Ok SA_Ok None true 0.

Lemma quiet_ok : env_ok (λ _, quiet_answer).
Proof. intros n. split; by try constructor. Qed.

Lemma connack_ok : env_ok (λ _, connack_answer).
Proof.
  intros n. split; [constructor..| |done]. intros f [= <-].
  exists {| max_incoming_size := 100; max_outgoing_size := 100 |}, [32; 2; 0; 0], [].
  split; [repeat constructor; done|by vm_compute].
Qed.

Lemma publish_ok : env_ok (λ _, publish_answer).
Proof. intros n. split; [|by constructor..|done|done]. by repeat constructor. Qed.

Definition demo_connected : EventLoop BitVector :=
  (poll (λ _, connack_answer) 1
     (EventLoop_new 0 loop_demo_options 5 {| tick := 0; stored := ∅; settled := [] |})).2.

Definition demo_loop : EventLoop BitVector := (poll (λ _, publish_answer) 4 demo_connected).2.

Lemma demo_loop_reachable : loop_reachable demo_loop.
Proof.
  apply loop_poll; [|apply publish_ok]. apply loop_poll; [|apply connack_ok]. by apply loop_new.
Qed.

Lemma loop_never_panics_witness : (poll (λ _, quiet_answer) 3 demo_loop).1 ≠ Panic.
Proof. apply (loop_never_panics demo_loop demo_loop_reachable). apply quiet_ok. Defined.


Lemma demo_checkpoint :
  ∃ p, stored (world demo_loop) !! options_store_key loop_demo_options = Some p ∧
    signature_ok loop_demo_options p ∧ window_count (session_replay p) = 1.
Proof. eexists. split; [vm_compute; reflexivity|]. by vm_compute. Qed.


Lemma loop_clean_keeps_witness :
  ∃ l, EventLoop_clean demo_loop = (Ok tt, l) ∧ length (pending l) = 12%nat ∧ omap pub_id (replays l) = [1].
Proof.
  destruct (loop_clean_keeps demo_loop demo_loop_reachable ltac:(by vm_compute)) as (l & Hc & _ & _ & Hp & Ho & _).
  exists l. split; [exact Hc|]. split; [rewrite Hp; vm_compute; reflexivity|].
  rewrite (proj1 (Ho ltac:(by vm_compute))). by vm_compute.
Defined.
