(* ===== verification/V4LoopOrder.v ===== *)
(** The order in which the event loop of the MQTT 3.1.1 client does things: a checkpoint is in
    the store before a request is on the wire and before a notice is completed, and network reads
    are not starved by requests. *)

From S2P Require Import Prelude.
From S2P Require Import Utf8.
From S2P Require Import Primitives.
From S2P Require Import CodecBase.
From S2P Require Import V4Base.
From S2P Require Import V4Acks.
From S2P Require Import V4Publish.
From S2P Require Import V4Subscribe.
From S2P Require Import V4Connect.
From S2P Require Import V4Packet.
From S2P Require Import Scheduler.
From S2P Require Import FixedBitSet.
From S2P Require Import SessionIO.
From S2P Require Import V4SessionFormat.
From S2P Require Import V4SessionTypes.
From S2P Require Import PacketIds.
From S2P Require Import V4State.
From S2P Require Import V4Clean.
From S2P Require Import V4Invariant.
From S2P Require Import V4Handlers.
From S2P Require Import V4Session.
From S2P Require Import V4CleanProofs.
From S2P Require Import V4Reachable.
From S2P Require Import V4Delivery.
From S2P Require Import V4Reconnect.
From S2P Require Import V4Persist.
From S2P Require Import V4Restore.
From S2P Require Import V4Recovery.
From S2P Require Import V4LoopTypes.
From S2P Require Import V4LoopSession.
From S2P Require Import V4EventLoop.
From S2P Require Import V4LoopSafety.
#[local] Open Scope Z_scope.

(** ** All outcomes of an operation *)

Section Ends.
  Context {S E A : Type}.

Definition ends (m : M S E A) (Q : outcome E A → S → Prop) (s : S) : Prop := Q (m s).1 (m s).2.

Lemma ends_mono m (Q Q' : outcome E A → S → Prop) s :
  ends m Q s → (∀ r s', Q r s' → Q' r s') → ends m Q' s.
Proof. intros Hm HQ. by apply HQ. Qed.

Lemma ends_ret a (Q : outcome E A → S → Prop) s : Q (Ok a) s → ends (mret a) Q s.
Proof. done. Qed.

Lemma ends_fail e (Q : outcome E A → S → Prop) s : Q (Err e) s → ends (mfail e) Q s.
Proof. done. Qed.
End Ends.

Lemma ends_bind {S E A C} (m : M S E A) (k : A → M S E C) (Q : outcome E C → S → Prop) s :
  ends m (λ r s', match r with Ok a => ends (k a) Q s' | Err e => Q (Err e) s' | Panic => Q Panic s' end) s →
  ends (m ≫= k) Q s.
Proof. unfold ends, mbind, M_bind. by destruct (m s) as [[]]. Qed.

Lemma ends_lift {S E A} (r : outcome E A) (Q : outcome E A → S → Prop) s : Q r s → ends (lift r) Q s.
Proof. done. Qed.

Lemma ends_get {S E} (Q : outcome E S → S → Prop) s : Q (Ok s) s → ends mget Q s.
Proof. done. Qed.

Lemma ends_modify {S E} f (Q : outcome E unit → S → Prop) s : Q (Ok tt) (f s) → ends (mmodify f) Q s.
Proof. done. Qed.

Section LoopOrder.
  Context {B : Type} `{FixedBitSet B} (env : Env).

Implicit Types (l : EventLoop B).
Abbreviation EL := (M (EventLoop B) Stop).

(** The bytes given to the connection. *)
Definition wire l : option Bytes := net_wire <$> network l.

(** The store holds the session as it is now, if there is one to hold it. *)
Definition checkpointed l : Prop :=
  opt_clean_session (el_options l) = false → opt_session_store (el_options l) = true →
  ∃ p, persisted_session (el_state l) (el_options l) (env_request <$> queued_replays l) = Ok p ∧
    stored (world l) !! options_store_key (el_options l) = Some p.

(** What a checkpoint is about, and how notices were settled. *)
Definition session_view l :=
  (el_state l, el_options l, pending l, queued l, (stored (world l), settled (world l))).

Lemma checkpointed_view l l' : session_view l' = session_view l → checkpointed l → checkpointed l'.
Proof.
  unfold session_view, checkpointed, queued_replays. by intros [= -> -> -> -> -> _].
Qed.

Lemma ask_view l : session_view (ask env l).2 = session_view l ∧ network (ask env l).2 = network l.
Proof. done. Qed.

Lemma ends_ask (Q : outcome Stop Answer → EventLoop B → Prop) l :
  (∀ a l', session_view l' = session_view l → network l' = network l → Q (Ok a) l') → ends (ask env) Q l.
Proof. intros HQ. by apply HQ. Qed.

Lemma ends_now (Q : outcome Stop Z → EventLoop B → Prop) l :
  (∀ a l', session_view l' = session_view l → network l' = network l → Q (Ok a) l') → ends (now env) Q l.
Proof. intros HQ. by apply HQ. Qed.

Lemma ends_the_network (Q : outcome Stop Network → EventLoop B → Prop) l :
  (network l = None → Q Panic l) → (∀ n, network l = Some n → Q (Ok n) l) → ends the_network Q l.
Proof.
  intros HN HS. unfold the_network. apply ends_bind, ends_get. unfold ends, lift.
  destruct (network l); cbn; auto.
Qed.

(** *** The store *)

(** Saving either stores the session as it is, or does not succeed. *)
Lemma ends_save l :
  ends (save_persisted_session env)
    (λ r l', network l' = network l ∧ settled (world l') = settled (world l) ∧
       el_state l' = el_state l ∧ (∀ u, r = Ok u → checkpointed l')) l.
Proof.
  unfold save_persisted_session, persisted_session_save. apply ends_bind, ends_bind, ends_get.
  destruct (opt_clean_session (el_options l)) eqn:Hc.
  { do 2 apply ends_ret. split_and!; try done. intros ??. unfold checkpointed. by rewrite Hc. }
  destruct (opt_session_store (el_options l)) eqn:Hs; cbn [negb].
  2: { do 2 apply ends_ret. split_and!; try done. intros ??. unfold checkpointed. by rewrite Hs. }
  destruct (persisted_session _ _ _) as [p|e|] eqn:Hp; [|by unfold ends..]. apply ends_ret, ends_bind, ends_bind, ends_ask.
  intros a l1 Hv Hn. injection Hv as Hv1 Hv2 Hv3 Hv4 Hv5 Hv6. destruct (a_store a) as [|[]|[]]; try done.
  apply ends_modify, ends_bind, ends_modify, ends_modify. split_and!; try done. intros _ _ _ _.
  exists p. unfold queued_replays in *. cbn [el_state el_options pending queued world stored set_store_loaded
    set_store_clear_pending set_world set_stored]. rewrite Hv1, Hv2, Hv3, Hv4. split; [done|].
  apply lookup_insert_eq.
Qed.

(** Writing leaves the session alone. *)
Lemma ends_write_request packet l :
  ends (write_request env packet) (λ _ l', session_view l' = session_view l) l.
Proof.
  apply ends_bind, ends_the_network; [done|]. intros n Hn. apply ends_bind, ends_ask. intros a l1 Hv Hn1.
  destruct (a_io a); [|done..]. apply ends_bind, ends_the_network; [done|]. intros n' _.
  by destruct (Codec_encode _ _ _) as [[] w].
Qed.

Lemma ends_persist_or_fail notices notice l :
  ends (persist_session_or_fail_qos0_notices env notices notice)
    (λ r l', network l' = network l ∧ (∀ q, r = Ok q → checkpointed l')) l.
Proof.
  apply ends_bind. pose proof (ends_save l) as Hs. unfold ends, try_ in *.
  destruct (save_persisted_session env l) as [[u|[e|]|] l1]; destruct Hs as (Hn & _ & _ & Hc); cbn in *;
    split; try done. intros q _. by apply (Hc u).
Qed.

(** *** Requests *)

(** Nothing was written, or the session was saved before. *)
Definition saved_first l l' : Prop := wire l' = wire l ∨ checkpointed l'.

Lemma saved_first_same l l' : network l' = network l → saved_first l l'.
Proof. intros Hn. left. unfold wire. by rewrite Hn. Qed.

Lemma ends_in_state {A} (m : M (MqttState B) StateError A) (Q : outcome Stop A → EventLoop B → Prop) l :
  (∀ r l', network l' = network l → Q r l') → ends (in_state m) Q l.
Proof. intros HQ. unfold ends, in_state. destruct (m (el_state l)) as [[] s]; by apply HQ. Qed.

Lemma ends_persist_and_write outgoing flush_notice (should_flush : bool) notices l0 l :
  network l = network l0 →
  ends (qos0_notices ← persist_session_or_fail_qos0_notices env notices flush_notice;
        write_outgoing env outgoing should_flush qos0_notices) (λ _ l', saved_first l0 l') l.
Proof.
  intros Hn0. apply ends_bind. eapply ends_mono; [apply ends_persist_or_fail|].
  intros [q|e|] l1 [Hn Hc]; [|apply saved_first_same; congruence..].
  destruct outgoing as [p|]; [|apply ends_ret, saved_first_same; congruence]. apply ends_bind.
  eapply ends_mono; [apply ends_write_request|]. intros r l2 Hv.
  pose proof (checkpointed_view _ _ Hv (Hc _ eq_refl)) as Hc2.
  destruct r as [[u|e]|e|]; [| |by right..]; [by apply ends_ret; right|].
  apply ends_bind, ends_modify, ends_fail. by right.
Qed.

Lemma ends_send_request envelope (should_flush : bool) notices l :
  ends (send_request env envelope should_flush notices) (λ _ l', saved_first l l') l.
Proof.
  apply ends_bind, ends_now. intros at_ l1 _ Hn1. apply ends_bind.
  destruct (env_replay envelope); apply ends_in_state; intros [[outgoing n]|e|] l2 Hn2;
    try (apply saved_first_same; congruence); apply ends_persist_and_write; congruence.
Qed.

(** C5: Write-ahead: whatever happens while a request is handled, if bytes were given to the
    connection then the store holds a checkpoint of the session and the queues as they are now,
    with the request among what is in progress.  So a request is on the wire only after it is
    in the store. *)
Theorem request_write_ahead envelope (should_flush : bool) notices l :
  let l' := (handle_request env envelope should_flush notices l).2 in
  wire l' = wire l ∨ checkpointed l'.
Proof.
  change (ends (handle_request env envelope should_flush notices) (λ _ l', saved_first l l') l).
  pose proof (ends_send_request envelope should_flush notices l) as G.
  unfold handle_request. destruct (env_request envelope) eqn:Hr; try exact G; clear G.
  - apply ends_bind, ends_now. intros at_ l1 _ Hn1. apply ends_bind, ends_lift.
    destruct (PendingDisconnect_new _ _); [apply ends_bind, ends_modify, ends_ret|..]; by apply saved_first_same.
  - apply ends_bind, ends_now. intros at_ l1 _ Hn1. apply ends_bind, ends_in_state.
    intros [[outgoing n]|e|] l2 Hn2; try (apply saved_first_same; congruence).
    apply ends_bind. eapply ends_mono; [apply ends_save|]. intros [u|e|] l3 (Hn3 & _ & _ & Hc3);
      try (apply saved_first_same; congruence). specialize (Hc3 u eq_refl). apply ends_bind.
    eapply ends_mono with (Q := λ _ l', checkpointed l' ).
    + destruct outgoing as [p|]; [|by apply ends_ret]. do 2 apply ends_bind.
      eapply ends_mono; [apply ends_write_request|]. intros r l4 Hv4. pose proof (checkpointed_view _ _ Hv4 Hc3).
      by destruct r as [[]| |].
    + intros [b|e|] l4 Hc4; [|by right..]. apply ends_bind, ends_modify, ends_ret. right. exact Hc4.
  - apply ends_bind, ends_now. intros at_ l1 _ Hn1. apply ends_bind, ends_lift.
    destruct (PendingDisconnect_new _ _); [apply ends_bind, ends_modify, ends_ret|..]; by apply saved_first_same.
Qed.

(** *** Notices *)

Lemma ends_try_save l (Q : outcome Stop (unit + ConnectionError) → EventLoop B → Prop) :
  (∀ r l', network l' = network l → settled (world l') = settled (world l) →
     r = Ok (inl tt) ∧ checkpointed l' ∨ (∃ e, r = Ok (inr e)) ∨ r = Err Dropped ∨ r = Panic → Q r l') →
  ends (try_ (save_persisted_session env)) Q l.
Proof.
  intros HQ. pose proof (ends_save l) as Hs. unfold ends, try_ in *.
  destruct (save_persisted_session env l) as [[[]|[e|]|] l1]; destruct Hs as (Hn & Hs & _ & Hc); cbn in *;
    apply HQ; eauto.
Qed.

(** C10: When a batch of packets was read, the notices of the requests it acknowledges are settled
    at most once, all together, and reported complete only after the store holds the session
    without these requests; if that cannot be saved they fail, and the poll with them.  A poll
    that is dropped while it waits leaves them open. *)
Theorem read_notices_after_save batch l :
  let r := (complete_read_batch env batch l).1 in
  let l' := (complete_read_batch env batch l).2 in
  settled (world l') = settled (world l) ∧ (r = Err Dropped ∨ r = Panic) ∨
  settled (world l') = settled (world l) ++ (notice_complete <$> rb_notices batch) ∧ checkpointed l' ∧
    (r = Ok (rb_outcome batch) ∨ ∃ e, r = Err (Failed e)) ∨
  settled (world l') = settled (world l) ++ (notice_persistence_error <$> rb_notices batch) ∧
    ∃ e, r = Err (Failed e).
Proof.
  change (ends (complete_read_batch env batch) (λ r l',
    settled (world l') = settled (world l) ∧ (r = Err Dropped ∨ r = Panic) ∨
    settled (world l') = settled (world l) ++ (notice_complete <$> rb_notices batch) ∧ checkpointed l' ∧
      (r = Ok (rb_outcome batch) ∨ ∃ e, r = Err (Failed e)) ∨
    settled (world l') = settled (world l) ++ (notice_persistence_error <$> rb_notices batch) ∧
      ∃ e, r = Err (Failed e)) l).
  apply ends_bind, ends_try_save. intros r l1 Hn1 Hs1 [[-> Hc1]|[[e ->]|[->| ->]]]; [| |by left; auto..].
  2: { apply ends_bind, ends_modify, ends_fail. right. right. cbn. rewrite Hs1. eauto. }
  apply ends_bind, ends_the_network; [by left; auto|]. intros n _. apply ends_bind, ends_ask. intros a l2 Hv2 _.
  pose proof (checkpointed_view _ _ Hv2 Hc1) as Hc2. injection Hv2 as _ _ _ _ _ Hs2. apply ends_bind.
  assert (G : ∀ res : unit + ConnectionError, ends (settle (notice_complete <$> rb_notices batch);;
      match res with inl _ => mret (rb_outcome batch) | inr err => fail_with err end) (λ r l',
    settled (world l') = settled (world l) ∧ (r = Err Dropped ∨ r = Panic) ∨
    settled (world l') = settled (world l) ++ (notice_complete <$> rb_notices batch) ∧ checkpointed l' ∧
      (r = Ok (rb_outcome batch) ∨ ∃ e, r = Err (Failed e)) ∨
    settled (world l') = settled (world l) ++ (notice_persistence_error <$> rb_notices batch) ∧
      ∃ e, r = Err (Failed e)) l2).
  { intros res. apply ends_bind, ends_modify.
    destruct res; [apply ends_ret|apply ends_fail]; right; left; cbn; rewrite Hs2, Hs1; eauto. }
  destruct (a_io a), (net_write_deadline n);
    first [apply ends_ret; exact (G (inl tt))|apply ends_ret; exact (G (inr _))|
      apply ends_fail; left; rewrite Hs2, Hs1; auto].
Qed.

(** *** Fairness *)

(** How many times something else may come before a frame that is ready. *)
Definition source_rank (source : PollSource) : Z :=
  match source with
  | PS_Request remaining => remaining
  | PS_Network => 0
  | PS_KeepAlive => MAX_REQUEST_BURST + 1
  end.

Definition source_ok (source : PollSource) : Prop :=
  match source with PS_Request remaining => 1 ≤ remaining ≤ MAX_REQUEST_BURST | _ => True end.

Lemma after_ready_rank source :
  source_ok source → source ≠ PS_Network →
  source_ok (after_ready source) ∧ source_rank (after_ready source) < source_rank source.
Proof.
  destruct source as [r| |]; cbn -[Z.ltb]; [|done|unfold MAX_REQUEST_BURST; lia].
  intros Hr _. destruct (Z.ltb_spec 1 r); cbn; lia.
Qed.

(** What the arbitration found, as far as a ready frame [f] is concerned. *)
Definition served_fairly (f : option (Packet + Error)) (source : PollSource) (ready : PollReady) l' : Prop :=
  source_ok (next_poll_source l') ∧
  match ready with
  | PR_Network f' => f' = f
  | PR_Request _ | PR_KeepAlive => source_rank (next_poll_source l') < source_rank source
  | PR_Closed | PR_Immediate _ | PR_ControlReady _ => next_poll_source l' = source
  end.

Lemma arbitrate_fair n a (requests_enabled keepalive_enabled : bool) source bound f l :
  a_frame a = Some f → source_ok source → source_rank source ≤ source_rank bound →
  ends (arbitrate n a requests_enabled keepalive_enabled source)
    (λ r l', ∀ ready, r = Ok ready → served_fairly f bound ready l') l.
Proof.
  intros Hf. revert source. induction n as [|n IH]; intros source Hok Hb; [done|]. cbn [arbitrate].
  assert (Hfound : ∀ ready l', source ≠ PS_Network → match ready with PR_Request _ | PR_KeepAlive => True | _ => False end →
    ends (mmodify (set_next_poll_source (after_ready source));; mret ready : EL PollReady)
      (λ r l', ∀ ready, r = Ok ready → served_fairly f bound ready l') l').
  { intros ready l' Hs Hr. apply ends_bind, ends_modify, ends_ret. intros ? [= <-].
    destruct (after_ready_rank source Hok Hs). split; [done|]. destruct ready; try done; cbn; lia. }
  apply ends_bind, ends_get. destruct source as [k| |].
  - assert (Hskip : ends (arbitrate n a requests_enabled keepalive_enabled PS_Network)
      (λ r l', ∀ ready, r = Ok ready → served_fairly f bound ready l') l) by (apply IH; cbn in *; [done|lia]).
    destruct requests_enabled; [|done]. cbn [negb]. destruct (pending l) as [|e rest].
    + destruct (chan_poll _); [|by apply Hfound|done]. by apply ends_bind, ends_modify, Hfound.
    + destruct (a_throttle a); [|done]. by apply ends_bind, ends_modify, Hfound.
  - rewrite Hf. apply ends_bind, ends_modify, ends_ret. by intros ? [= <-].
  - assert (Hskip : ends (arbitrate n a requests_enabled keepalive_enabled (PS_Request MAX_REQUEST_BURST))
      (λ r l', ∀ ready, r = Ok ready → served_fairly f bound ready l') l)
      by (apply IH; cbn in *; unfold MAX_REQUEST_BURST in *; lia).
    destruct keepalive_enabled; [|done]. cbn [negb]. destruct (keepalive_timeout l); [|done].
    destruct (_ <=? _); [by apply Hfound|done].
Qed.

(** One decision of the arbitration while the frame [f] is ready. *)
Lemma next_ready_fair l f :
  a_frame (env (tick (world l))) = Some f → source_ok (next_poll_source l) →
  ∀ ready, (next_ready env l).1 = Ok ready → served_fairly f (next_poll_source l) ready (next_ready env l).2.
Proof.
  intros Hf Hok.
  change (ends (next_ready env) (λ r l', ∀ ready, r = Ok ready → served_fairly f (next_poll_source l) ready l') l).
  assert (Hwait : ∀ b l1, tick (world l1) = tick (world l) → next_poll_source l1 = next_poll_source l →
    ends (wait_ready env b) (λ r l', ∀ ready, r = Ok ready → served_fairly f (next_poll_source l) ready l') l1).
  { intros b l1 Ht Hs. apply ends_bind, ends_get, ends_bind, ends_the_network; [done|]. intros n _.
    apply ends_bind. unfold ask at 1. unfold ends at 1. cbn [fst snd]. rewrite Ht. apply ends_bind, ends_get.
    match goal with |- ends _ _ ?l' => set (l2 := l'); assert (Hs2 : next_poll_source l2 = next_poll_source l) by done end.
    clearbody l2.
    assert (Ha : ends (arbitrate 3 (env (tick (world l))) b (is_some (keepalive_timeout l1) &&
        negb (opt_keep_alive (el_options l1) =? 0)) (next_poll_source l2))
        (λ r l', ∀ ready, r = Ok ready → served_fairly f (next_poll_source l) ready l') l2).
    { apply arbitrate_fair; [done|by rewrite Hs2|by rewrite Hs2]. }
    assert (Hkeep : ∀ (g : EventLoop B → EventLoop B) ready, next_poll_source (g l2) = next_poll_source l2 →
      match ready with PR_Immediate _ | PR_ControlReady _ => True | _ => False end →
      ends (mmodify g;; mret ready : EL PollReady)
        (λ r l', ∀ ready, r = Ok ready → served_fairly f (next_poll_source l) ready l') l2).
    { intros g ready Hg Hr. apply ends_bind, ends_modify, ends_ret. intros ? [= <-].
      split; [by rewrite Hg, Hs2|]. by destruct ready; try done; rewrite Hg. }
    assert (Hclosed : ends (mret PR_Closed : EL PollReady)
        (λ r l', ∀ ready, r = Ok ready → served_fairly f (next_poll_source l) ready l') l2).
    { apply ends_ret. intros ? [= <-]. split; [by rewrite Hs2|done]. }
    cbv zeta. destruct (negb (negb _)).
    - destruct (negb (_ || _)); [done|]. destruct (chan_poll (control_requests_rx l2)); [by apply Hkeep|done..].
    - destruct (chan_poll (immediate_disconnect_rx l2)); [by apply Hkeep|done|].
      destruct (negb (_ || _)); [done|]. destruct (chan_poll (control_requests_rx l2)); [by apply Hkeep|done..]. }
  apply ends_bind, ends_get. cbv zeta. destruct (_ && is_request_source _) eqn:Hsrc; [|by apply Hwait].
  apply andb_true_iff in Hsrc as [_ Hsrc]. unfold try_recv_immediate, try_recv_control, try_recv_requests.
  apply ends_bind, ends_bind, ends_get. destruct (chan_try_recv (immediate_disconnect_rx l)) as [[e c]|].
  { apply ends_bind, ends_modify, ends_ret, ends_ret. by intros ? [= <-]. }
  apply ends_ret, ends_bind, ends_bind, ends_get. destruct (chan_try_recv (control_requests_rx l)) as [[e c]|].
  { apply ends_bind, ends_modify, ends_ret, ends_ret. by intros ? [= <-]. }
  apply ends_ret, ends_bind, ends_bind, ends_get. destruct (chan_try_recv (requests_rx l)) as [[e c]|]; [|by apply ends_ret, Hwait].
  apply ends_bind, ends_modify, ends_ret, ends_bind, ends_modify, ends_ret. intros ? [= <-].
  apply after_ready_rank; [done|]. by destruct (next_poll_source l).
Qed.

(** [passed_over f n l l']: from [l] to [l'] the arbitration decides again and again although the
    frame [f] is ready each time, and never for the frame; [n] of the decisions are for an ordinary
    request or the keepalive ping, the others for a request of the control or immediate channel, which
    have priority, or for the end.  What the loop does between two decisions, such as sending the
    requests it has admitted, leaves [next_poll_source] alone. *)
Inductive passed_over (f : option (Packet + Error)) : nat → EventLoop B → EventLoop B → Prop :=
| passed_none l : passed_over f 0 l l
| passed_turn n l ready l1 l2 l' :
    a_frame (env (tick (world l))) = Some f → next_ready env l = (Ok ready, l1) →
    (∀ f', ready ≠ PR_Network f') → next_poll_source l2 = next_poll_source l1 →
    passed_over f n l2 l' →
    passed_over f (match ready with PR_Request _ | PR_KeepAlive => S n | _ => n end) l l'.

(** C11: Fairness: a frame that is ready is passed over at most nine times: in any run of decisions of
    the arbitration, in all of which the same frame is ready and is not taken, at most nine are for
    ordinary requests or the keepalive ping; once as many as
    [source_rank] have been made, a decision that is not for a request of the control or immediate
    channel takes the frame.  (A decision for a request admits a batch of up to [max_request_batch]
    of them.) *)
Theorem network_reads_fair f n l l' :
  source_ok (next_poll_source l) → passed_over f n l l' →
  Z.of_nat n ≤ source_rank (next_poll_source l) ≤ 9 ∧
  (Z.of_nat n = source_rank (next_poll_source l) → a_frame (env (tick (world l'))) = Some f →
   ∀ ready, (next_ready env l').1 = Ok ready →
   match ready with
   | PR_Network f' => f' = f
   | PR_Request _ | PR_KeepAlive => False
   | PR_Closed | PR_Immediate _ | PR_ControlReady _ => True
   end).
Proof.
  intros Hok Hp.
  assert (Hmax : ∀ source, source_ok source → 0 ≤ source_rank source ≤ 9).
  { intros [r| |]; cbn; unfold MAX_REQUEST_BURST; lia. }
  assert (Hrun : source_ok (next_poll_source l') ∧
    Z.of_nat n + source_rank (next_poll_source l') ≤ source_rank (next_poll_source l)).
  { induction Hp as [l|n l ready l1 l2 l' Hf Hr Hn Hs _ IH]; [split; [done|lia]|].
    pose proof (next_ready_fair l f Hf Hok) as Hfair. rewrite Hr in Hfair.
    destruct (Hfair ready eq_refl) as [Hok1 Hcase]. cbn [snd] in Hok1, Hcase. rewrite <- Hs in Hok1, Hcase.
    destruct (IH Hok1) as [? Hle]. split; [done|].
    destruct ready as [| | | |frame|]; [| | | |by destruct (Hn frame)|]; cbn in Hcase;
      first [lia|rewrite <- Hcase; lia]. }
  destruct Hrun as [Hok' Hle]. pose proof (Hmax _ Hok'). split; [pose proof (Hmax _ Hok); lia|].
  intros Hn Hf ready Hr. pose proof (next_ready_fair l' f Hf Hok' ready Hr) as [Hok2 Hcase].
  pose proof (Hmax _ Hok2). destruct ready; try done; lia.
Qed.

(** *** Turns *)

(** [m2] does what [m1] does, unless [m1] gives up. *)
Definition agrees {A} (m1 m2 : EL A) l : Prop := (m1 l).1 ≠ Err Dropped → m2 l = m1 l.

Lemma agrees_bind {A C} (m : EL A) (k1 k2 : A → EL C) l :
  (∀ a l', agrees (k1 a) (k2 a) l') → agrees (m ≫= k1) (m ≫= k2) l.
Proof. intros Hk. unfold agrees. rewrite !bind_run. destruct (m l) as [[a|e|] l']; [apply Hk|done..]. Qed.

Lemma agrees_first {A C} (m1 m2 : EL A) (k : A → EL C) l :
  agrees m1 m2 l → agrees (m1 ≫= k) (m2 ≫= k) l.
Proof.
  unfold agrees. rewrite !bind_run. destruct (m1 l) as [[a|[e|]|] l']; cbn [fst]; intros Hm Hd;
    try (by rewrite Hm).
Qed.

Lemma agrees_try {A} (m1 m2 : EL A) l : agrees m1 m2 l → agrees (try_ m1) (try_ m2) l.
Proof.
  unfold agrees, try_. destruct (m1 l) as [[a|[e|]|] l']; cbn [fst]; intros Hm Hd; try (by rewrite Hm).
Qed.

Lemma agrees_refl {A} (m : EL A) l : agrees m m l.
Proof. done. Qed.

Lemma select_agrees n m l : (n ≤ m)%nat → agrees (select env n) (select env m) l.
Proof.
  revert m l. induction n as [|n IH]; intros [|m] l Hm; [by intros []|by intros []|lia|]. apply le_S_n in Hm. cbn [select].
  repeat first [apply agrees_refl|by apply IH|apply agrees_bind; intros|
    match goal with |- agrees (match ?x with _ => _ end) _ _ => destruct x end].
Qed.

(** The number of turns a poll is given only bounds how long it is followed: once it is enough
    for the poll to end, with an event or an error, more turns give the same event or error and
    the same loop. *)
Theorem poll_turns n m l :
  (poll env n l).1 ≠ Err Dropped → (n ≤ m)%nat → poll env m l = poll env n l.
Proof.
  intros Hd Hm. revert Hd. change (agrees (poll env n) (poll env m) l). unfold poll. apply agrees_bind. intros l1 l'.
  repeat first [apply agrees_refl|apply agrees_first, agrees_try, select_agrees, Hm|
    match goal with |- agrees (match ?x with _ => _ end) _ _ => destruct x end].
Qed.
End LoopOrder.

(** ** Witnesses *)

(** A request is taken although a frame is ready. *)
Definition busy_frame : option (Packet + Error) :=
  Some (inl (P_ConnAck {| session_present := false; code := CRC_Success |})).
Definition busy_env : Env := λ _,
  mkAnswer 0 (replicate 2 (V4LoopTypes.tracked_publish (demo_publish AtLeastOnce 0) 7)) [] [] false
    IO_Ok SA_Ok (Some busy_frame) true 0.
Definition busy_loop := (next_ready busy_env demo_connected).2.

Lemma network_reads_fair_witness :
  passed_over busy_env busy_frame 1 demo_connected busy_loop ∧
  1 ≤ source_rank (next_poll_source demo_connected) ≤ 9.
Proof.
  assert (Hp : passed_over busy_env busy_frame 1 demo_connected busy_loop).
  { destruct (next_ready busy_env demo_connected) as [r l1] eqn:Hr.
    assert (Hl : busy_loop = l1) by (unfold busy_loop; by rewrite Hr).
    assert (Hreq : ∃ e, r = Ok (PR_Request e)) by (apply (f_equal fst) in Hr; vm_compute in Hr; subst r; by eexists).
    destruct Hreq as [e ->]. rewrite Hl.
    exact (passed_turn busy_env busy_frame 0 demo_connected (PR_Request e) l1 l1 l1 eq_refl Hr
      ltac:(discriminate) eq_refl (passed_none busy_env busy_frame l1)). }
  split; [exact Hp|].
  exact (proj1 (network_reads_fair busy_env busy_frame 1 demo_connected busy_loop ltac:(by vm_compute) Hp)).
Defined.

Lemma poll_turns_witness :
  poll (λ _, publish_answer) 9 demo_connected = poll (λ _, publish_answer) 4 demo_connected.
Proof.
  assert (Hd : (poll (λ _, publish_answer) 4 demo_connected).1 ≠ Err Dropped) by (vm_compute; discriminate).
  apply (poll_turns (λ _, publish_answer) 4 9 demo_connected Hd). lia.
Defined.
