(* ===== verification/V4LoopLive.v ===== *)
(** The event loop of the MQTT 3.1.1 client makes progress: when nothing stands in the way, a
    request that may be sent is on the wire, and in the store, when the next poll returns.

    Runs of the event loop of the MQTT 3.1.1 client, computed by the model, in which it does not do
    what its documentation or the MQTT standard promises. *)

From S2P Require Import Prelude.
From S2P Require Import Utf8.
From S2P Require Import Primitives.
From S2P Require Import CodecBase.
From S2P Require Import V4Base.
From S2P Require Import V4Acks.
From S2P Require Import V4Publish.
From S2P Require Import V4Subscribe.
From S2P Require Import V4Connect.
From S2P Require Import V4Packet.
From S2P Require Import Scheduler.
From S2P Require Import FixedBitSet.
From S2P Require Import PacketIds.
From S2P Require Import SessionIO.
From S2P Require Import V4SessionFormat.
From S2P Require Import V4SessionTypes.
From S2P Require Import V4State.
From S2P Require Import V4Clean.
From S2P Require Import V4Invariant.
From S2P Require Import V4Handlers.
From S2P Require Import V4Session.
From S2P Require Import V4CleanProofs.
From S2P Require Import V4Reachable.
From S2P Require Import V4Delivery.
From S2P Require Import V4Reconnect.
From S2P Require Import V4Persist.
From S2P Require Import V4Restore.
From S2P Require Import V4Recovery.
From S2P Require Import V4LoopTypes.
From S2P Require Import V4LoopSession.
From S2P Require Import V4EventLoop.
From S2P Require Import V4LoopState.
From S2P Require Import V4LoopInv.
From S2P Require Import V4LoopQueues.
From S2P Require Import V4LoopRequests.
From S2P Require Import V4LoopPoll.
From S2P Require Import V4LoopSafety.
From S2P Require Import V4LoopOrder.
#[local] Open Scope Z_scope.

(** Transport and store work. *)
Definition calm_env (env : Env) : Prop := ∀ n, a_io (env n) = IO_Ok ∧ a_store (env n) = SA_Ok.

Section LoopLive.
  Context {B : Type} `{FixedBitSetLaws B} (env : Env) (Henv : env_ok env) (Hcalm : calm_env env).

Implicit Types (l : EventLoop B) (s : MqttState B).
Abbreviation EL := (M (EventLoop B) Stop).
Abbreviation wpf m Q l := (wp m Q (λ _ _, False) l).

(** What the steps of sending leave alone. *)
Record steady l l' : Prop := {
  st_inv : linv [] l';
  st_state : el_state l' = el_state l;
  st_options : el_options l' = el_options l;
  st_queued : queued l' = queued l;
  st_pending : pending l' = pending l;
}.

Lemma steady_refl l : linv [] l → steady l l.
Proof. by split. Qed.

Lemma steady_trans l1 l2 l3 : steady l1 l2 → steady l2 l3 → steady l1 l3.
Proof. intros [] []. split; congruence. Qed.

Lemma wp_ask_calm (Q : Answer → EventLoop B → Prop) (X : Stop → EventLoop B → Prop) l :
  linv [] l →
  (∀ a l', a_io a = IO_Ok → a_store a = SA_Ok → steady l l' → network l' = network l →
     stored (world l') = stored (world l) → Q a l') →
  wp (ask env) Q X l.
Proof.
  intros L HQ. destruct (Hcalm (tick (world l))) as [Hio Hst].
  apply HQ; [done|done| |done|done]. split; try done. apply linv_ask; [apply Henv|done].
Qed.

Lemma wp_now_calm (Q : Z → EventLoop B → Prop) (X : Stop → EventLoop B → Prop) l :
  linv [] l →
  (∀ at_ l', steady l l' → network l' = network l → stored (world l') = stored (world l) → Q at_ l') →
  wp (now env) Q X l.
Proof. intros L HQ. apply wp_bind, wp_ask_calm; [done|]. intros a l' _ _ St Hn Hs. apply wp_ret. by apply HQ. Qed.

Lemma wp_now_calm_bounded (Q : Z → EventLoop B → Prop) (X : Stop → EventLoop B → Prop) l :
  linv [] l →
  (∀ at_ l', at_ ≤ CLOCK_MAX → steady l l' → network l' = network l → stored (world l') = stored (world l) → Q at_ l') →
  wp (now env) Q X l.
Proof.
  intros L HQ. apply HQ; [apply (Henv (tick (world l)))| |done|done].
  split; try done. apply linv_ask; [apply Henv|done].
Qed.

(** The session is saved. *)
Lemma save_calm l :
  linv [] l →
  wpf (save_persisted_session env) (λ _ l', steady l l' ∧ network l' = network l ∧ checkpointed l') l.
Proof.
  intros L. cut (wpf (save_persisted_session env) (λ _ l', steady l l') l).
  { intros Hw. pose proof (ends_save env l) as He. unfold wp, ends in *.
    destruct (save_persisted_session env l) as [[u|e|] l']; [|done..].
    destruct He as (Hn & _ & _ & Hc). split; [done|]. split; [done|]. by apply (Hc u). }
  unfold save_persisted_session, persisted_session_save. apply wp_bind, wp_bind, wp_get.
  destruct (opt_clean_session _); [by apply wp_ret, wp_ret, steady_refl|].
  destruct (opt_session_store _); [|by apply wp_ret, wp_ret, steady_refl]. cbn [negb].
  rewrite queued_replays_eq.
  destruct (sess_checkpoint (replays l) (el_state l) (el_options l) (li_sess _ _ L)) as (p & -> & _ & Hp).
  apply wp_ret, wp_bind, wp_bind, wp_ask_calm; [done|]. intros a l1 _ -> [L1 S1 O1 Q1 P1] Hn1 Hs1.
  apply wp_modify, wp_bind, wp_modify, wp_modify. split; try done.
  eapply linv_frame; [apply (linv_set_stored [] l1 (<[options_store_key (el_options l) := p]> (stored (world l1))) L1)|
    done..]. apply map_Forall_insert_2; [done|]. apply L1.
Qed.

(** A packet that fits is written. *)
Lemma write_calm packet n w l :
  linv [] l → network l = Some n → Codec_encode (net_codec n) packet (net_wire n) = (Ok tt, w) →
  wpf (write_request env packet)
    (λ r l', r = inl tt ∧ steady l l' ∧ network l' = Some (with_wire n w) ∧
       stored (world l') = stored (world l)) l.
Proof.
  intros L Hn He. apply wp_bind, wp_the_network; [by rewrite Hn|]. intros n' _.
  apply wp_bind, wp_ask_calm; [done|]. intros a l1 -> _ [L1 S1 O1 Q1 P1] Hn1 Hs1. rewrite Hn in Hn1.
  apply wp_bind, wp_the_network; [by rewrite Hn1|]. intros n2 Hn2. rewrite Hn1 in Hn2. injection Hn2 as <-.
  rewrite He. apply wp_bind, wp_modify, wp_ret. split_and!; try done. split; try done.
  by eapply linv_set_network.
Qed.

Lemma flush_calm l :
  linv [] l → network l ≠ None →
  wpf (flush_network env) (λ _ l', steady l l' ∧ network l' = network l ∧
    stored (world l') = stored (world l)) l.
Proof.
  intros L Hn. apply wp_bind, wp_bind, wp_the_network; [done|]. intros n _.
  apply wp_bind, wp_ask_calm; [done|]. intros a l1 -> _ St Hn1 Hs1. by apply wp_ret, wp_ret.
Qed.

Lemma keepalive_calm l :
  linv [] l →
  wpf (reset_keepalive_timeout env) (λ _ l', steady l l' ∧ network l' = network l ∧
    stored (world l') = stored (world l)) l.
Proof.
  intros L. apply wp_bind, wp_get. case_match; [apply wp_modify; split_and!; try done; split; try done; by eapply linv_frame|].
  case_match; [by apply wp_ret|]. apply wp_bind, wp_modify.
  case_match; [|apply wp_ret; split_and!; try done; split; try done; by eapply linv_frame].
  apply wp_bind, wp_now_calm_bounded; [by eapply linv_frame|].
  intros at_ l1 Hat [L1 S1 O1 Q1 P1] Hn1 Hs1. apply wp_bind, wp_lift.
  rewrite instant_add_ok; [|done|pose proof (li_options _ _ L) as Ho; unfold options_ok in Ho; unfold CLOCK_MAX; lia].
  apply wp_modify. split_and!; try done. split; try done. by eapply linv_frame.
Qed.

Lemma checkpointed_steady l l' :
  steady l l' → stored (world l') = stored (world l) → checkpointed l → checkpointed l'.
Proof. intros [_ S1 S2 S3 S4] Hs. unfold checkpointed, queued_replays. by rewrite S1, S2, S3, S4, Hs. Qed.

(** The session state turns the request into a packet, which fits. *)
Definition accepted l (n : Network) (e : RequestEnvelope) at_ packet notice s w : Prop :=
  handle_outgoing_packet_with_notice at_ (env_request e) (env_notice e) (el_state l) =
    (Ok (Some packet, notice), s) ∧
  Codec_encode (net_codec n) packet (net_wire n) = (Ok tt, w).

(** What sending a request arrives at. *)
Definition sent l (n : Network) (e : RequestEnvelope) q l' : Prop :=
  ∃ at_ packet notice s w, accepted l n e at_ packet notice s w ∧ linv [] l' ∧ eventful l' ∧
    el_options l' = el_options l ∧ network l' = Some (with_wire n w) ∧ queued l' = q ∧ checkpointed l'.

Lemma sent_steady l n e q l1 l2 :
  steady l1 l2 → network l2 = network l1 → stored (world l2) = stored (world l1) →
  sent l n e q l1 → sent l n e q l2.
Proof.
  intros St Hn Hs (at_ & packet & notice & s & w & Ha & L1 & E1 & O1 & Hn1 & Hq1 & C1).
  pose proof (checkpointed_steady _ _ St Hs C1). destruct St as [L2 S2 O2 Q2 P2].
  pose proof (eventful_state _ _ S2 E1). exists at_, packet, notice, s, w. split_and!; first [done|congruence].
Qed.

Lemma handle_request_calm l e q n :
  sendable (set_queued q l) e → network l = Some n → env_replay e = false →
  is_disconnect_request (env_request e) = false →
  (∀ at_, ∃ packet notice s w, accepted l n e at_ packet notice s w) →
  wpf (handle_request env e false [])
    (λ r l', (∃ notices, r = (Continue, true, notices)) ∧ sent l n e q l') (set_queued q l).
Proof.
  intros S Hn He Hd Hacc. pose proof (sendable_up _ _ S He) as U. pose proof (sendable_fresh _ _ S He) as Hf.
  assert (Hc : client_request (env_request e) ∧ graceful_disconnect (env_request e) = false).
  { destruct S as (_ & _ & Hc%(λ f, f He) & _). split; [done|]. by destruct (env_request e). }
  assert (G : wpf (send_request env e false [])
    (λ r l', (∃ notices, r = (Continue, true, notices)) ∧ sent l n e q l') (set_queued q l)).
  { apply wp_bind, wp_now_calm; [apply U|]. intros at_ l1 [L1 S1 O1 Q1 P1] Hn1 Hs1. rewrite He.
    destruct (Hacc at_) as (packet & notice & s & w & Ha & Hw). apply wp_bind, wp_in_state.
    change (el_state (set_queued q l)) with (el_state l) in S1. rewrite S1. unfold wp. rewrite Ha.
    assert (U2 : up (set_el_state s l1) ∧ eventful (set_el_state s l1)).
    { assert (U1 : up l1) by (split; [done|rewrite Hn1; apply U]).
      pose proof (safe_fresh_request at_ (env_request e) (env_notice e) l1 U1 (proj1 Hc) (proj2 Hc)) as Hr.
      rewrite S1 in Hr. specialize (Hr Hf). unfold wp, in_state in Hr. rewrite S1, Ha in Hr. apply Hr. }
    destruct U2 as [[L2 _] E2]. 
    assert (H2 : el_options (set_el_state s l1) = el_options l ∧ network (set_el_state s l1) = Some n ∧
      queued (set_el_state s l1) = q) by (split_and!; [done|by rewrite <- Hn|done]).
    revert L2 E2 H2. generalize (set_el_state s l1). clear dependent l1. intros l2 L2 E2 (O2 & Hn2 & Q2).
    unfold persist_session_or_fail_qos0_notices. apply wp_bind, wp_bind, wp_try.
    eapply wp_mono; [by apply save_calm| |done].
    intros u l3 (St3 & Hn3 & C3). rewrite Hn2 in Hn3. apply wp_ret, wp_bind.
    eapply wp_mono; [apply (write_calm packet n w l3); [apply St3|done..]| |done].
    intros r l4 (-> & St4 & Hn4 & Hs4). apply wp_ret. split; [by eexists|].
    pose proof (checkpointed_steady _ _ St4 Hs4 C3). pose proof (steady_trans _ _ _ St3 St4) as [L4 S4 O4 Q4 P4].
    pose proof (eventful_state _ _ S4 E2). exists at_, packet, notice, s, w. split_and!; first [done|congruence]. }
  unfold handle_request. destruct (env_request e); try done; exact G.
Qed.

(** The poll reaches the scheduled request and comes back with an event. *)
Lemma select_calm l e q n turns :
  up l → network l = Some n → events (el_state l) = [] →
  chan_items (immediate_disconnect_rx l) = [] → keepalive_scan_deadline l = None →
  pending_disconnect l = None → opt_max_request_batch (el_options l) ≤ 1 →
  pop_next (queued l) (classify_envelope (el_state l)) = (Some e, q) →
  env_replay e = false → is_disconnect_request (env_request e) = false →
  (∀ at_, ∃ packet notice s w, accepted l n e at_ packet notice s w) →
  wpf (select env (S turns))
    (λ ev l', ∃ l1 es, sent l n e q l1 ∧ events (el_state l1) = ev :: es ∧
       l' = set_el_state (set_events es (el_state l1)) l1) l.
Proof.
  intros U Hn Hev Him Hscan Hpd Hbatch Hpop He Hd Hacc. cbn [select]. apply wp_bind, wp_pop_event; [intros _|congruence].
  apply wp_bind. unfold try_recv_immediate, chan_try_recv. apply wp_bind, wp_get. rewrite Him.
  apply wp_ret, wp_bind, wp_get.
  assert (Hdr : all_request_sources_drained l = false).
  { unfold all_request_sources_drained, is_empty. apply pop_next_some in Hpop as (l1 & l2 & -> & _).
    by destruct l1. }
  rewrite Hdr. apply wp_bind, wp_bind, wp_get. rewrite Hscan. apply wp_ret, wp_bind, wp_get. rewrite Hpd. cbn [is_none].
  apply wp_bind. unfold handle_ready_requests, next_scheduled_request. apply wp_bind, wp_bind, wp_get.
  pose proof (safe_next_scheduled env Henv l U) as Hs. unfold next_scheduled_request in Hs. apply wp_bind_inv in Hs.
  unfold mget, wp in Hs. rewrite Hpop in Hs. destruct Hs as [_ Hs]. rewrite Hpop.
  apply wp_bind, wp_modify, wp_ret, wp_bind. eapply wp_mono; [by apply handle_request_calm| |done].
  intros r l1 [[notices ->] St1]. apply wp_bind, wp_get, wp_bind.
  assert (Hr0 : batch_rounds l1 = 0%nat).
  { destruct St1 as (_ & _ & _ & _ & _ & _ & _ & _ & O1 & _). unfold batch_rounds. rewrite O1. lia. }
  rewrite Hr0. apply wp_ret, wp_bind. unfold flush_request_batch. cbn [negb].
  assert (HL : linv [] l1 ∧ network l1 ≠ None)
    by (destruct St1 as (? & ? & ? & ? & ? & _ & ? & _ & _ & Hn1 & _); split; [done|by rewrite Hn1]).
  destruct HL as [L1 C1]. apply wp_bind, wp_try. eapply wp_mono; [by apply flush_calm| |done].
  intros u l2 (St2 & Hn2 & Hs2). pose proof (sent_steady _ _ _ _ _ _ St2 Hn2 Hs2 St1) as Sent2.
  apply wp_bind, wp_modify.
  eapply wp_mono; [apply keepalive_calm, linv_settle, St2| |done].
  intros v l3 (St3 & Hn3 & Hs3). apply wp_ret.
  assert (Sent3 : sent l n e q l3).
  { apply (sent_steady l n e q l2); [|exact Hn3|exact Hs3|done]. destruct St3 as [A1 A2 A3 A4 A5]. by split. }
  apply wp_bind, wp_pop_event.
  - intros Hnil. destruct Sent3 as (_ & _ & _ & _ & _ & _ & _ & E3 & _). by destruct E3.
  - intros ev es Hes. apply wp_ret. by exists l3, es.
Qed.

(** Events are not part of a checkpoint. *)
Lemma persisted_publishes_events s es order :
  persisted_publishes (set_events es s) order = persisted_publishes s order.
Proof. induction order as [|k order IH]; [done|]. cbn [persisted_publishes]. by rewrite IH. Qed.

Lemma checkpointed_events l es :
  checkpointed l → checkpointed (set_el_state (set_events es (el_state l)) l).
Proof.
  intros C Hc Hs. destruct (C Hc Hs) as (p & Hp & Hst). exists p. split; [|done]. rewrite <- Hp.
  unfold persisted_session, persisted_replay_requests. cbn [el_state set_el_state].
  by rewrite persisted_publishes_events.
Qed.

End LoopLive.

(** ** Witness *)

(** Handles publish and subscribe at the same time: the publishes are admitted first, and one of
    them is still scheduled when the first poll returns. *)
Definition burst_answer : Answer :=
  mkAnswer 0 (replicate 2 (V4LoopTypes.tracked_publish (demo_publish AtLeastOnce 0) 7))
    [envelope_plain (R_PingReq)] [] false IO_Ok SA_Ok None true 0.

Lemma burst_ok : env_ok (λ _, burst_answer).
Proof. intros n. split; [| |constructor|done|done]; by repeat constructor. Qed.

Definition demo_burst : EventLoop BitVector := (poll (λ _, burst_answer) 3 demo_connected).2.

Lemma demo_burst_reachable : loop_reachable demo_burst.
Proof. apply loop_poll; [|apply burst_ok]. apply loop_poll; [|apply connack_ok]. by apply loop_new. Qed.

Lemma demo_burst_next :
  ∃ e q n, network demo_burst = Some n ∧
    pop_next (queued demo_burst) (classify_envelope (el_state demo_burst)) = (Some e, q) ∧
    env_replay e = false ∧ is_disconnect_request (env_request e) = false ∧
    length (queue (queued demo_burst)) = S (length (queue q)) ∧
    ∀ at_, ∃ packet notice s w, accepted demo_burst n e at_ packet notice s w.
Proof.
  do 3 eexists. split; [vm_compute; reflexivity|]. split; [vm_compute; reflexivity|].
  split; [reflexivity|]. split; [reflexivity|]. split; [vm_compute; reflexivity|].
  intros at_. do 4 eexists. split;
    [etransitivity; [apply surjective_pairing|refine (f_equal2 pair _ _); [vm_compute; reflexivity|reflexivity]]|].
  vm_compute. reflexivity.
Qed.

Lemma demo_burst_clear :
  disconnect_complete demo_burst = false ∧ pending_connection_error demo_burst = None ∧
  events (el_state demo_burst) = [] ∧ chan_items (immediate_disconnect_rx demo_burst) = [] ∧
  keepalive_scan_deadline demo_burst = None ∧ pending_disconnect demo_burst = None ∧
  opt_max_request_batch (el_options demo_burst) ≤ 1.
Proof. vm_compute. split_and!; done. Qed.


(** ** Scripts *)

(** A poll in which the loop finds these answers, and then nothing more. *)
Definition poll_with (answers : list Answer) (l : EventLoop BitVector)
  : outcome Stop Event * EventLoop BitVector :=
  poll (λ n, nth (n - tick (world l)) answers quiet_answer) 50 l.

Fixpoint script (polls : list (list Answer)) (l : EventLoop BitVector)
  : list (outcome Stop Event) * EventLoop BitVector :=
  match polls with
  | [] => ([], l)
  | answers :: polls =>
      let '(r, l) := poll_with answers l in
      let '(rs, l) := script polls l in
      (r :: rs, l)
  end.

Definition script_loop : EventLoop BitVector :=
  EventLoop_new 0 loop_demo_options 5 {| tick := 0; stored := ∅; settled := [] |}.

(** The identifiers of the publishes that polls reported as sent, and of those in a queue. *)
Definition sent_publish (r : outcome Stop Event) : option Z :=
  match r with Ok (Ev_Outgoing (O_Publish k)) => Some k | _ => None end.

Definition queued_publish (e : RequestEnvelope) : option Z :=
  match env_request e with R_Publish p => Some (pub_pkid p) | _ => None end.

Definition checkpoint_of (l : EventLoop BitVector) : option PersistedSession :=
  stored (world l) !! options_store_key loop_demo_options.

(** A server accepts and knows the session; the store answers first on the first connection. *)
Definition resumed_answer : Answer :=
  mkAnswer 0 [] [] [] false IO_Ok SA_Ok
    (Some (Some (inl (P_ConnAck {| session_present := true; code := CRC_Success |})))) true 0.
Definition connect_script : list Answer :=
  [quiet_answer; quiet_answer; quiet_answer; quiet_answer; resumed_answer].
Definition reconnect_script : list Answer := [quiet_answer; quiet_answer; quiet_answer; resumed_answer].

(** Handles publish [n] times with QoS 1, the connection is closed, a handle asks for something on
    the control channel, the server acknowledges publish 1, and the delay between retransmissions is
    not over. *)
Definition publishes_answer (n : nat) : Answer :=
  mkAnswer 0 (replicate n (V4LoopTypes.tracked_publish (demo_publish AtLeastOnce 0) 1)) [] [] false IO_Ok SA_Ok None
    true 0.
Definition closed_answer : Answer := mkAnswer 0 [] [] [] false IO_Ok SA_Ok (Some None) false 0.
Definition control_answer (r : Request) (throttle : bool) : Answer :=
  mkAnswer 0 [] [envelope_plain r] [] false IO_Ok SA_Ok None throttle 0.
Definition puback_answer : Answer :=
  mkAnswer 0 [] [] [] false IO_Ok SA_Ok (Some (Some (inl (P_PubAck {| puback_pkid := 1 |})))) true 0.
Definition throttled_answer : Answer := mkAnswer 0 [] [] [] false IO_Ok SA_Ok None false 0.

(** ** Findings *)

(** With a window of three, publishes 1, 2 and 3 are in progress when the connection is lost.  On
    the next one, publish 1 is sent again, and the connection is lost once more.  [clean] puts
    publish 1 behind 2 and 3, which still wait: they are sent before it, and then the new publish
    4.  The checkpoint holds four publishes, one more than the window, so the client cannot
    restore it. *)
Theorem second_loss_reorders :
  let '(rs, l) := script [connect_script; [publishes_answer 4]; []; []; [closed_answer]; reconnect_script; [];
                          [closed_answer; closed_answer]; reconnect_script; []; []; []] script_loop in
  omap sent_publish rs = [1; 2; 3; 1; 2; 3; 4] ∧ omap queued_publish (pending l) = [1] ∧
  match checkpoint_of l with
  | Some p => request_pkid <$> session_replay p = [2; 3; 4; 1] ∧
      (restore_persisted_session 9 loop_demo_options p
         (new_internal 9 3 Automatic : MqttState BitVector)).1 = Err (OutgoingPublishWindowExceeded 4 3)
  | None => False
  end.
Proof. vm_compute. repeat split; reflexivity. Qed.

(** The application resets the session while connected, publishes once more, and the connection is
    lost.  [load_persisted_session_if_needed] then restores the checkpoint behind the request that
    already waits, so the same publish is queued twice.  The server acknowledges it; its copy stays
    in the queue, blocked for good, and in the store. *)
Theorem reset_while_connected_duplicates :
  let l := (script [connect_script; [publishes_answer 1]] script_loop).2 in
  let l := (EventLoop_reset_session_state (λ _, quiet_answer) l).2 in
  let l := (script [[publishes_answer 1]; [closed_answer]] l).2 in
  let '(rs, l') := script [quiet_answer :: connect_script; []; []; [puback_answer]; []] l in
  omap queued_publish (pending l) = [1] ∧ omap sent_publish rs = [1] ∧
  nth 3 rs Panic = Ok (Ev_Incoming (P_PubAck {| puback_pkid := 1 |})) ∧
  omap queued_publish (queue (queued l')) = [1] ∧
  (λ e, readiness (classify_envelope (el_state l') e)) <$> queue (queued l') = [Blocked] ∧
  (λ p, request_pkid <$> session_replay p) <$> checkpoint_of l' = Some [1].
Proof. vm_compute. repeat split; reflexivity. Qed.

(** [drain_pending_as_failed] removes a publish that waits to be sent again, and leaves its
    identifier reserved: outbound requests never count as drained, so a graceful disconnect of the
    next connection waits for an acknowledgement that cannot come. *)
Theorem drained_replays_block_disconnect :
  let l := (drain_pending_as_failed (script [connect_script; [publishes_answer 1]; [closed_answer]] script_loop).2).2 in
  let '(rs, l') := script [reconnect_script; [control_answer R_Disconnect true]; []] l in
  pending l = [] ∧ ones (outbound_pkid_in_use (el_state l)) = [1] ∧ unfinished (el_state l) = [] ∧
  outbound_requests_drained (el_state l') = false ∧ is_some (pending_disconnect l') = true ∧
  rs = [Ok (Ev_Incoming (P_ConnAck {| session_present := true; code := CRC_Success |})); Err Dropped; Err Dropped].
Proof. vm_compute. repeat split; reflexivity. Qed.

(** A request of the control channel is taken out of it before [try_admit_existing_normal_requests]
    waits for the delay between retransmissions; when the poll is dropped there, the request is in
    no queue any more. *)
Theorem dropped_poll_loses_control :
  let '(rs, l) := script [connect_script; [publishes_answer 2]; []; [closed_answer]; reconnect_script;
                          [control_answer R_PingReq false; throttled_answer]] script_loop in
  last rs = Some (Err Dropped) ∧ chan_items (control_requests_rx l) = [] ∧ queue (queued l) = [] ∧
  omap queued_publish (pending l) = [1; 2] ∧ length (pending l) = 2%nat.
Proof. vm_compute. repeat split; reflexivity. Qed.
