(* ===== verification/V5Base.v ===== *)
(** [mqttbytes-v5/src/lib.rs]: errors, packet types, the fixed header and the wrappers of the
    core primitives, and the interface every MQTT 5 packet body implements. *)

From S2P Require Import Prelude.
From S2P Require Import Utf8.
From S2P Require Import Primitives.
From S2P Require Import CodecBase.

(** MQTT packet type. *)
Inductive PacketType :=
| PT_Connect | PT_ConnAck | PT_Publish | PT_PubAck | PT_PubRec | PT_PubRel | PT_PubComp
| PT_Subscribe | PT_SubAck | PT_Unsubscribe | PT_UnsubAck | PT_PingReq | PT_PingResp
| PT_Disconnect | PT_Auth.

#[global] Instance PacketType_eq_dec : EqDecision PacketType.
Proof. solve_decision. Defined.

(** [packet_type as u8]. *)
Definition PacketType_as_u8 (t : PacketType) : u8 :=
  match t with
  | PT_Connect => 1 | PT_ConnAck => 2 | PT_Publish => 3 | PT_PubAck => 4 | PT_PubRec => 5
  | PT_PubRel => 6 | PT_PubComp => 7 | PT_Subscribe => 8 | PT_SubAck => 9 | PT_Unsubscribe => 10
  | PT_UnsubAck => 11 | PT_PingReq => 12 | PT_PingResp => 13 | PT_Disconnect => 14 | PT_Auth => 15
  end.

(** [v5/disconnect.rs]. *)
Inductive DisconnectReasonCode :=
| DRC_NormalDisconnection | DRC_DisconnectWithWillMessage | DRC_UnspecifiedError
| DRC_MalformedPacket | DRC_ProtocolError | DRC_ImplementationSpecificError | DRC_NotAuthorized
| DRC_ServerBusy | DRC_ServerShuttingDown | DRC_KeepAliveTimeout | DRC_SessionTakenOver
| DRC_TopicFilterInvalid | DRC_TopicNameInvalid | DRC_ReceiveMaximumExceeded
| DRC_TopicAliasInvalid | DRC_PacketTooLarge | DRC_MessageRateTooHigh | DRC_QuotaExceeded
| DRC_AdministrativeAction | DRC_PayloadFormatInvalid | DRC_RetainNotSupported
| DRC_QoSNotSupported | DRC_UseAnotherServer | DRC_ServerMoved
| DRC_SharedSubscriptionNotSupported | DRC_ConnectionRateExceeded | DRC_MaximumConnectTime
| DRC_SubscriptionIdentifiersNotSupported | DRC_WildcardSubscriptionsNotSupported.

(** Errors of serialization and deserialization.  [Io] carries a [std::io::Error] that this
    crate never builds. *)
Inductive Error :=
| InvalidConnectReturnCode (n : u8)
| InvalidReason (n : u8)
| InvalidRemainingLength (n : usize)
| InvalidProtocol
| InvalidProtocolLevel (n : u8)
| IncorrectPacketFormat
| InvalidPacketType (n : u8)
| InvalidRetainForwardRule (n : u8)
| InvalidQoS (n : u8)
| InvalidSubscribeReasonCode (n : u8)
| PacketIdZero
| EmptySubscription
| EmptyUnsubscription
| ProtocolError
| ProtocolViolation (reason : DisconnectReasonCode)
| PayloadSizeIncorrect
| PayloadTooLong
| PayloadSizeLimitExceeded (pkt_size : usize) (max : u32)
| PayloadRequired
| PayloadNotUtf8 (source : Utf8Error)
| TopicNotUtf8 (source : Utf8Error)
| BoundaryCrossed (n : usize)
| MalformedPacket
| MalformedRemainingLength
| InvalidPropertyType (n : u8)
| InsufficientBytes (n : usize)
| Io
| OutgoingPacketTooLarge (pkt_size max : u32).

(** [impl From<PrimitiveError> for Error]. *)
Definition Error_from (error : PrimitiveError) : Error :=
  match error with
  | PE_PayloadTooLong _ _ => PayloadTooLong
  | PE_BoundaryCrossed len => BoundaryCrossed len
  | PE_MalformedPacket => MalformedPacket
  | PE_MalformedRemainingLength => MalformedRemainingLength
  | PE_TopicNotUtf8 source => TopicNotUtf8 source
  | PE_InsufficientBytes required => InsufficientBytes required
  end.

Record FixedHeader := {
  byte1 : u8;
  header_len : usize;
  remaining_len : usize;
}.

Definition FixedHeader_new (byte1 : u8) (remaining_len_len remaining_len : usize) : FixedHeader :=
  {| byte1 := byte1; header_len := remaining_len_len + 1; remaining_len := remaining_len |}.

Definition FixedHeader_packet_type (h : FixedHeader) : outcome Error PacketType :=
  let num := Z.shiftr (byte1 h) 4 in
  match num with
  | 1 => Ok PT_Connect
  | 2 => Ok PT_ConnAck
  | 3 => Ok PT_Publish
  | 4 => Ok PT_PubAck
  | 5 => Ok PT_PubRec
  | 6 => Ok PT_PubRel
  | 7 => Ok PT_PubComp
  | 8 => Ok PT_Subscribe
  | 9 => Ok PT_SubAck
  | 10 => Ok PT_Unsubscribe
  | 11 => Ok PT_UnsubAck
  | 12 => Ok PT_PingReq
  | 13 => Ok PT_PingResp
  | 14 => Ok PT_Disconnect
  | 15 => Ok PT_Auth
  | _ => Err (InvalidPacketType num)
  end.

Definition FixedHeader_flags (h : FixedHeader) : u8 := Z.land (byte1 h) 0x0F.

Definition FixedHeader_frame_length (h : FixedHeader) : usize :=
  header_len h + remaining_len h.

Definition parse_fixed_header (stream : Bytes) : outcome Error FixedHeader :=
  fixed_header ← outcome_map_err Error_from (core_parse_fixed_header stream);
  Ok (FixedHeader_new (pfh_byte1 fixed_header) (pfh_remaining_len_len fixed_header)
        (pfh_remaining_len fixed_header)).

(** [if let Some(max) = limit && size > max]. *)
Definition exceeds (limit : option u32) (size : usize) : option u32 :=
  match limit with
  | Some max_size => if max_size <? size then Some max_size else None
  | None => None
  end.

Definition check (stream : Bytes) (max_packet_size : option u32) : outcome Error FixedHeader :=
  let stream_len := blen stream in
  fixed_header ← parse_fixed_header stream;
  let packet_size := FixedHeader_frame_length fixed_header in
  match exceeds max_packet_size packet_size with
  | Some max_size => Err (PayloadSizeLimitExceeded packet_size max_size)
  | None =>
      let frame_length := FixedHeader_frame_length fixed_header in
      if stream_len <? frame_length then Err (InsufficientBytes (frame_length - stream_len))
      else Ok fixed_header
  end.

(** [length(stream.iter())]; the [Iter] does not move the buffer. *)
Definition length5 (stream : Bytes) : outcome Error (usize * usize) :=
  outcome_map_err Error_from (length_ stream).

Definition read_mqtt_bytes : M Bytes Error Bytes := map_err Error_from core_read_mqtt_bytes.
Definition read_mqtt_string : M Bytes Error Bytes := map_err Error_from core_read_mqtt_string.
Definition validate_mqtt_string (bytes : Bytes) : outcome Error Bytes :=
  outcome_map_err Error_from (Primitives.validate_mqtt_string bytes).
Definition write_mqtt_bytes (bytes : Bytes) : M Bytes Error unit :=
  map_err Error_from (core_write_mqtt_bytes bytes).
Definition write_mqtt_string (string : Bytes) : M Bytes Error unit :=
  _ ← lift (validate_mqtt_string string);
  map_err Error_from (core_write_mqtt_string string).
Definition write_remaining_length (len : usize) : M Bytes Error usize :=
  map_err Error_from (core_write_remaining_length len).

Definition qos (num : u8) : outcome Error QoS := ok_or (core_qos num) (InvalidQoS num).

Definition read_u16 : M Bytes Error u16 := map_err Error_from core_read_u16.
Definition read_u8 : M Bytes Error u8 := map_err Error_from core_read_u8.
Definition read_u32 : M Bytes Error u32 := map_err Error_from core_read_u32.

Definition is_some {A} (o : option A) : bool := match o with Some _ => true | None => false end.

(** [while bytes.has_remaining() { list.push(one(bytes)?) }]; [one] consumes a byte or fails. *)
Fixpoint read_all {A} (one : M Bytes Error A) (fuel : nat) (l : list A)
    : M Bytes Error (list A) :=
  bytes ← mget;
  if blen bytes =? 0 then mret l
  else
    match fuel with
    | O => mpanic
    | S fuel => x ← one; read_all one fuel (l ++ [x])
    end.

(** * Packet bodies

    What the packet-level code ([v5/mod.rs]) relies on.  [wire_content] is the variable header
    and payload; [wire_valid] is what [wire_read] establishes; [wire_exact] is what a valid packet
    needs for its encoding to be read back, and [wire_encodable] what its encoding must not
    contain for [wire_write] not to panic. *)

Class WirePacket (A : Type) := {
  wire_read : FixedHeader → Bytes → outcome Error A;
  wire_write : A → M Bytes Error usize;
  wire_size : A → usize;
  wire_byte1 : A → u8;
  wire_content : A → Bytes;
  wire_valid : A → Prop;
  wire_exact : A → Prop;
  wire_encodable : A → Prop;
}.

(** The frame of a packet: first byte, remaining length, content. *)
Definition frame_bytes `{WirePacket A} (a : A) : Bytes :=
  wire_byte1 a :: remaining_length_bytes (blen (wire_content a)) ++ wire_content a.

Class WirePacketLaws (A : Type) `{WirePacket A} : Prop := {
  wire_write_ok a : wire_valid a → blen (wire_content a) ≤ MAX_REMAINING_LENGTH →
    writes (wire_write a) (frame_bytes a) (wire_size a);
  wire_read_ok a hdr : wire_valid a → wire_exact a →
    blen (wire_content a) ≤ MAX_REMAINING_LENGTH →
    wire_read {| byte1 := wire_byte1 a; header_len := blen hdr;
                 remaining_len := blen (wire_content a) |} (hdr ++ wire_content a) = Ok a;
  wire_size_ok a : wire_valid a → wire_size a = blen (frame_bytes a);
  wire_valid_content a : wire_valid a → blen (wire_content a) ≤ MAX_REMAINING_LENGTH →
    Forall is_u8 (wire_content a);
  wire_read_safe h bytes :
    Forall is_u8 bytes → is_u8 (byte1 h) → 0 ≤ header_len h →
    0 ≤ remaining_len h ≤ MAX_REMAINING_LENGTH →
    blen bytes = header_len h + remaining_len h →
    match wire_read h bytes with
    | Ok a => wire_valid a
    | Err _ => True
    | Panic => False
    end;
  wire_valid_encodable a : wire_valid a → wire_encodable a;
  wire_write_total a : wire_encodable a → total (wire_write a);
  wire_write_appends a : appends (wire_write a);
}.

(** * Framing *)

Lemma v5_parse_ok s h :
  Forall is_u8 s → parse_fixed_header s = Ok h →
  is_u8 (byte1 h) ∧ 2 ≤ header_len h ≤ 5 ∧ 0 ≤ remaining_len h ≤ MAX_REMAINING_LENGTH ∧
  header_len h ≤ blen s ∧ ∀ t, parse_fixed_header (s ++ t) = Ok h.
Proof.
  intros Hs. unfold parse_fixed_header.
  destruct (core_parse_fixed_header s) as [h'| |] eqn:Hp; try done.
  apply core_parse_ok in Hp as (? & ? & ? & ? & Ht); [|done]. intros [= <-].
  cbn [byte1 header_len remaining_len FixedHeader_new]. split_and!; try done; try lia.
  intros t. by rewrite Ht.
Qed.

Lemma v5_parse_frame b1 content rest :
  blen content ≤ MAX_REMAINING_LENGTH →
  parse_fixed_header (b1 :: remaining_length_bytes (blen content) ++ content ++ rest) =
  Ok {| byte1 := b1; header_len := blen (b1 :: remaining_length_bytes (blen content));
        remaining_len := blen content |}.
Proof.
  intros Hc. unfold parse_fixed_header. rewrite core_parse_frame by done.
  cbn [mbind outcome_bind outcome_map_err FixedHeader_new].
  by rewrite blen_cons, blen_remaining_length_bytes, Z.add_comm.
Qed.

Definition within (limit : option u32) (size : usize) : Prop :=
  ∀ max, limit = Some max → size ≤ max.

Lemma exceeds_none limit size : exceeds limit size = None ↔ within limit size.
Proof.
  unfold exceeds, within. destruct limit as [max|]; [|done].
  destruct (Z.ltb_spec max size); split; try done.
  - intros Hw. specialize (Hw max eq_refl). lia.
  - by intros _ ? [= <-].
Qed.

Lemma v5_check_frame b1 content rest max :
  blen content ≤ MAX_REMAINING_LENGTH →
  within max (blen (b1 :: remaining_length_bytes (blen content) ++ content)) →
  check (b1 :: remaining_length_bytes (blen content) ++ content ++ rest) max =
  Ok {| byte1 := b1; header_len := blen (b1 :: remaining_length_bytes (blen content));
        remaining_len := blen content |}.
Proof.
  intros Hc Hm. unfold check. rewrite v5_parse_frame by done. cbn [mbind outcome_bind].
  unfold FixedHeader_frame_length. cbn [header_len remaining_len].
  rewrite (proj2 (exceeds_none _ _)).
  2: { rewrite blen_cons, blen_app in *. by rewrite <- (assoc_L Z.add). }
  rewrite (proj2 (Z.ltb_ge _ _)); [done|].
  rewrite !blen_cons, !blen_app. pose proof (blen_nonneg rest). lia.
Qed.

Lemma v5_check_ok s max h :
  Forall is_u8 s → check s max = Ok h →
  is_u8 (byte1 h) ∧ 2 ≤ header_len h ≤ 5 ∧ 0 ≤ remaining_len h ≤ MAX_REMAINING_LENGTH ∧
  within max (FixedHeader_frame_length h) ∧ FixedHeader_frame_length h ≤ blen s ∧
  ∀ t, check (s ++ t) max = Ok h.
Proof.
  intros Hs. unfold check. destruct (parse_fixed_header s) as [h'| |] eqn:Hp; try done. simpl.
  apply v5_parse_ok in Hp as (? & ? & ? & ? & Ht); [|done].
  destruct (exceeds max _) eqn:He; [done|].
  destruct (Z.ltb_spec (blen s) (FixedHeader_frame_length h')); [done|].
  intros [= <-]. do 3 (split; [done|]). split; [by apply exceeds_none|]. split; [done|].
  intros t. rewrite Ht. simpl.
  rewrite He, (proj2 (Z.ltb_ge _ _)); [done|].
  rewrite blen_app. pose proof (blen_nonneg t). lia.
Qed.

Lemma v5_parse_insufficient s n :
  parse_fixed_header s = Err (InsufficientBytes n) → n = 1 ∨ s = [] ∧ n = 2.
Proof.
  unfold parse_fixed_header. destruct (core_parse_fixed_header s) as [h|e|] eqn:Hp; try done.
  destruct e; try done. intros [= <-]. by apply core_parse_insufficient in Hp.
Qed.

(** [check] asks for a positive number of bytes. *)
Lemma v5_check_insufficient s max n : check s max = Err (InsufficientBytes n) → 1 ≤ n.
Proof.
  unfold check. destruct (parse_fixed_header s) as [h|e|] eqn:Hp; try done; simpl.
  - case_match; [done|]. destruct (Z.ltb_spec (blen s) (FixedHeader_frame_length h)); [|done].
    intros [= <-]. lia.
  - intros [= ->]. apply v5_parse_insufficient in Hp. lia.
Qed.

Lemma v5_check_no_panic s max : check s max ≠ Panic.
Proof.
  unfold check, parse_fixed_header. pose proof (core_parse_no_panic s).
  destruct (core_parse_fixed_header s); simpl; try done. by repeat case_match.
Qed.

(** A malformed or oversized fixed header is reported whatever follows. *)
Lemma v5_check_err_stable s max e t :
  Forall is_u8 s → check s max = Err e → (∀ n, e ≠ InsufficientBytes n) →
  check (s ++ t) max = Err e.
Proof.
  intros Hs Hc He. unfold check in *.
  destruct (parse_fixed_header s) as [h|e'|] eqn:Hp; try done; simpl in Hc.
  - apply v5_parse_ok in Hp as (? & ? & ? & ? & Ht); [|done]. rewrite Ht. simpl.
    case_match; [done|]. case_match; [|done]. injection Hc as <-. by edestruct He.
  - injection Hc as ->. unfold parse_fixed_header in *.
    destruct (core_parse_fixed_header s) as [h|e'|] eqn:Hp'; try done.
    simpl in Hp. injection Hp as <-.
    rewrite (core_parse_err_stable _ _ t Hp'); [done|]. intros n ->. by apply (He n).
Qed.

(** * The wrapped primitives *)

Lemma v5_appends_bytes bs : appends (write_mqtt_bytes bs).
Proof. apply appends_map_err, appends_core_write_mqtt_bytes. Qed.

Lemma v5_appends_string bs : appends (write_mqtt_string bs).
Proof. apply appends_bind; [apply appends_lift|]. intros _. apply v5_appends_bytes. Qed.

Lemma v5_appends_length n : appends (write_remaining_length n).
Proof. apply appends_map_err, appends_core_write_remaining_length. Qed.

Lemma v5_total_bytes bs : total (write_mqtt_bytes bs).
Proof. apply total_map_err, total_core_write_mqtt_bytes. Qed.

Lemma v5_total_string bs : total (write_mqtt_string bs).
Proof. apply total_bind; [apply total_validate_mqtt_string|intros _; apply v5_total_bytes]. Qed.

Lemma v5_total_length n : 0 ≤ n → total (write_remaining_length n).
Proof. intros. by apply total_map_err, total_core_write_remaining_length. Qed.

#[export] Hint Resolve v5_appends_bytes v5_appends_string v5_appends_length v5_total_bytes
  v5_total_string v5_total_length : appends.

Lemma v5_validate_ok s : mqtt_string s → validate_mqtt_string s = Ok s.
Proof. intros (_ & ? & ?). unfold validate_mqtt_string. by rewrite validate_mqtt_string_ok. Qed.

Lemma writes_v5_bytes bs : mqtt_bytes bs → writes (write_mqtt_bytes bs) (field_bytes bs) tt.
Proof. intros [_ ?]. by apply writes_map_err, writes_mqtt_bytes. Qed.

Lemma writes_v5_string bs : mqtt_string bs → writes (write_mqtt_string bs) (field_bytes bs) tt.
Proof.
  intros Hs. unfold write_mqtt_string. change (field_bytes bs) with ([] ++ field_bytes bs).
  eapply writes_bind; [by apply writes_lift, v5_validate_ok|].
  apply writes_map_err, writes_mqtt_bytes, Hs.
Qed.

Lemma writes_v5_length n :
  0 ≤ n ≤ MAX_REMAINING_LENGTH →
  writes (write_remaining_length n) (remaining_length_bytes n) (len_len n).
Proof. intros. by apply writes_map_err, writes_remaining_length. Qed.

Lemma reads_v5_u8 b : reads read_u8 [b] b.
Proof. apply reads_map_err, reads_read_u8. Qed.

Lemma reads_v5_u16 n : is_u16 n → reads read_u16 (u16_bytes n) n.
Proof. intros. by apply reads_map_err, reads_read_u16. Qed.

Lemma reads_v5_u32 n : is_u32 n → reads read_u32 (be32_bytes n) n.
Proof. intros. by apply reads_map_err, reads_read_u32. Qed.

Lemma reads_v5_bytes bs : mqtt_bytes bs → reads read_mqtt_bytes (field_bytes bs) bs.
Proof. intros. by apply reads_map_err, reads_mqtt_bytes. Qed.

Lemma reads_v5_string bs : mqtt_string bs → reads read_mqtt_string (field_bytes bs) bs.
Proof. intros. by apply reads_map_err, reads_mqtt_string. Qed.

#[export] Hint Resolve writes_v5_bytes writes_v5_string writes_v5_length reads_v5_u8 reads_v5_u16
  reads_v5_u32 reads_v5_bytes reads_v5_string : codec.

(** The head of every frame: the first byte, then the remaining length. *)
Lemma writes_v5_frame {A} b1 len (k : usize → M Bytes Error A) content a :
  0 ≤ len ≤ MAX_REMAINING_LENGTH → writes (k (len_len len)) content a →
  writes (put_u8 b1;; count ← write_remaining_length len; k count)
    (b1 :: remaining_length_bytes len ++ content) a.
Proof.
  intros Hlen Hk.
  change (b1 :: remaining_length_bytes len ++ content)
    with ([b1] ++ remaining_length_bytes len ++ content).
  eapply writes_bind; [apply writes_put_u8|].
  eapply writes_bind; [by apply writes_v5_length|done].
Qed.

(** * Safety of the readers

    A reader is safe when it does not panic; what it returns satisfies [P], and what it leaves is
    bytes, no more of them than before. *)

Definition reads_safe {A} (m : M Bytes Error A) (P : A → Prop) : Prop :=
  ∀ s, Forall is_u8 s →
    wp m (λ a s', P a ∧ Forall is_u8 s' ∧ blen s' ≤ blen s) (λ _ _, True) s.

Lemma reads_safe_bind {A B} (m : M Bytes Error A) (k : A → M Bytes Error B) P Q :
  reads_safe m P → (∀ a, P a → reads_safe (k a) Q) → reads_safe (m ≫= k) Q.
Proof.
  intros Hm Hk s Hs. apply wp_bind. eapply wp_mono; [by apply Hm| |done].
  intros a s1 (Ha & Hs1 & Hl). eapply wp_mono; [by apply (Hk a Ha)| |done].
  intros b s2 (Hb & Hs2 & Hl2). split_and!; [done..|lia].
Qed.

Lemma reads_safe_ret {A} (a : A) (P : A → Prop) : P a → reads_safe (mret a) P.
Proof. intros Ha s Hs. by apply wp_ret. Qed.

Lemma reads_safe_fail {A} e (P : A → Prop) : reads_safe (mfail e) P.
Proof. intros s Hs. by apply wp_fail. Qed.

Lemma reads_safe_lift {A} (r : outcome Error A) (P : A → Prop) :
  match r with Ok a => P a | Err _ => True | Panic => False end → reads_safe (lift r) P.
Proof. intros Hr s Hs. apply wp_lift. by destruct r. Qed.

Lemma reads_safe_mono {A} (m : M Bytes Error A) (P Q : A → Prop) :
  reads_safe m P → (∀ a, P a → Q a) → reads_safe m Q.
Proof. intros Hm HPQ s Hs. eapply wp_mono; [by apply Hm| |done]. intros a s' (? & ? & ?). eauto. Qed.

Lemma reads_safe_u8 : reads_safe read_u8 is_u8.
Proof.
  intros s Hs. apply wp_map_err. eapply wp_mono; [apply wp_read_u8| |done].
  intros b s' ->. apply Forall_cons in Hs as [??]. rewrite blen_cons. split_and!; [done..|lia].
Qed.

Lemma reads_safe_u16 : reads_safe read_u16 is_u16.
Proof.
  intros s Hs. apply wp_map_err. eapply wp_mono; [by apply wp_read_u16| |done].
  intros n s' [? ->]. apply Forall_app in Hs as [_ ?]. rewrite blen_app, blen_u16_bytes.
  split_and!; [done..|lia].
Qed.

Lemma reads_safe_u32 : reads_safe read_u32 is_u32.
Proof.
  intros s Hs. apply wp_map_err. eapply wp_mono; [by apply wp_read_u32| |done].
  intros n s' [? ->]. apply Forall_app in Hs as [_ ?]. rewrite blen_app, blen_be32_bytes.
  split_and!; [done..|lia].
Qed.

Lemma reads_safe_bytes : reads_safe read_mqtt_bytes mqtt_bytes.
Proof.
  intros s Hs. apply wp_map_err. eapply wp_mono; [by apply wp_read_mqtt_bytes| |done].
  intros n s' [? ->]. apply Forall_app in Hs as [_ ?]. rewrite blen_app, blen_field_bytes.
  pose proof (blen_nonneg n). split_and!; [done..|lia].
Qed.

Lemma reads_safe_string : reads_safe read_mqtt_string mqtt_string.
Proof.
  intros s Hs. apply wp_map_err. eapply wp_mono; [by apply wp_read_mqtt_string| |done].
  intros n s' [? ->]. apply Forall_app in Hs as [_ ?]. rewrite blen_app, blen_field_bytes.
  pose proof (blen_nonneg n). split_and!; [done..|lia].
Qed.

Lemma reads_safe_qos n : reads_safe (lift (qos n)) (λ _, True).
Proof. apply reads_safe_lift. unfold qos, ok_or. by destruct (core_qos n). Qed.

Lemma reads_safe_validate bs :
  mqtt_bytes bs → reads_safe (lift (validate_mqtt_string bs)) (λ r, r = bs ∧ mqtt_string bs).
Proof.
  intros Hb. apply reads_safe_lift. unfold validate_mqtt_string.
  pose proof (total_validate_mqtt_string id bs []) as Ht. cbn in Ht.
  destruct (Primitives.validate_mqtt_string bs) eqn:Hv; [|done|done].
  by apply validate_mqtt_string_inv in Hv as (-> & ? & ?).
Qed.

(** A safe reader that consumes at least one byte. *)
Definition reads_some {A} (m : M Bytes Error A) (P : A → Prop) : Prop :=
  ∀ s, Forall is_u8 s →
    wp m (λ a s', P a ∧ Forall is_u8 s' ∧ blen s' < blen s) (λ _ _, True) s.

Lemma reads_some_bind {A B} (m : M Bytes Error A) (k : A → M Bytes Error B) P Q :
  reads_some m P → (∀ a, P a → reads_safe (k a) Q) → reads_some (m ≫= k) Q.
Proof.
  intros Hm Hk s Hs. apply wp_bind. eapply wp_mono; [by apply Hm| |done].
  intros a s1 (Ha & Hs1 & Hl). eapply wp_mono; [by apply (Hk a Ha)| |done].
  intros b s2 (Hb & Hs2 & Hl2). split_and!; [done..|lia].
Qed.

Lemma reads_some_u8 : reads_some read_u8 is_u8.
Proof.
  intros s Hs. apply wp_map_err. eapply wp_mono; [apply wp_read_u8| |done].
  intros b s' ->. apply Forall_cons in Hs as [??]. rewrite blen_cons. split_and!; [done..|lia].
Qed.

Lemma reads_some_string : reads_some read_mqtt_string mqtt_string.
Proof.
  intros s Hs. apply wp_map_err. eapply wp_mono; [by apply wp_read_mqtt_string| |done].
  intros n s' [? ->]. apply Forall_app in Hs as [_ ?]. rewrite blen_app, blen_field_bytes.
  pose proof (blen_nonneg n). split_and!; [done..|lia].
Qed.

Lemma read_all_safe {A} (one : M Bytes Error A) P fuel l s :
  reads_some one P → Forall is_u8 s → (length s ≤ fuel)%nat → Forall P l →
  wp (read_all one fuel l) (λ l' s', Forall P l' ∧ s' = [] ∧ (l' = [] → s = [] ∧ l = []))
    (λ _ _, True) s.
Proof.
  intros Hone. revert l s. induction fuel as [|fuel IH]; intros l s Hs Hf Hl;
    cbn [read_all]; apply wp_bind, wp_get.
  { destruct s; simpl in Hf; [|lia]. by apply wp_ret. }
  destruct (Z.eqb_spec (blen s) 0) as [H0|H0]; [apply wp_ret; by apply blen_zero in H0 as ->|].
  apply wp_bind. eapply wp_mono; [by apply Hone| |done]. intros x s1 (Hx & Hs1 & Hlt).
  eapply wp_mono; [apply IH; [done| |]| |done].
  - unfold blen in Hlt. lia.
  - apply Forall_app. split; [done|]. by apply Forall_singleton.
  - intros l' s2 (? & ? & He). split_and!; [done..|].
    intros [_ Hn]%He. by apply app_eq_nil in Hn as [_ ?].
Qed.

Lemma read_all_ok {A} (one : M Bytes Error A) (enc : A → Bytes) l fuel acc :
  Forall (λ x, reads one (enc x) x ∧ enc x ≠ []) l → (length l ≤ fuel)%nat →
  read_all one fuel acc (concat (map enc l)) = (Ok (acc ++ l), []).
Proof.
  intros Hl. revert fuel acc. induction Hl as [|x l [Hx Hne] _ IH]; intros fuel acc Hf; simpl in Hf.
  { destruct fuel; simpl; by rewrite app_nil_r. }
  destruct fuel as [|fuel]; [lia|]. cbn [read_all map concat]. rewrite bind_run. cbn [mget].
  rewrite (proj2 (Z.eqb_neq _ _)).
  2: { intros [? _]%blen_zero%app_eq_nil. done. }
  rewrite bind_run, Hx, IH by lia. by rewrite <- (assoc_L (++)).
Qed.

Create HintDb reads_safe.
#[export] Hint Resolve reads_safe_ret reads_safe_fail reads_safe_u8 reads_safe_u16 reads_safe_u32
  reads_safe_bytes reads_safe_string reads_safe_qos reads_safe_validate : reads_safe.

(** Apply the safety of the next reader and name its result. *)
Ltac safe_read :=
  eapply reads_safe_bind; [solve [eauto with reads_safe]|]; cbn beta.

(** Decide the packet's own checks: every refusal is safe. *)
Ltac safe_check :=
  match goal with
  | |- reads_safe (if ?b then _ else _) _ => destruct b eqn:?; [first [apply reads_safe_fail|idtac]|]
  end.

Lemma run_on_safe {A} (m : M Bytes Error A) (P : A → Prop) n bytes :
  Forall is_u8 bytes → 0 ≤ n ≤ blen bytes → reads_safe m P →
  match run_on bytes (advance n;; m) with Ok a => P a | Err _ => True | Panic => False end.
Proof.
  intros Hb Hn Hm. unfold run_on. rewrite bind_run. unfold advance.
  rewrite (proj2 (Z.ltb_ge _ _)) by lia.
  assert (Hd : Forall is_u8 (drop (Z.to_nat n) bytes)) by by apply Forall_drop.
  specialize (Hm _ Hd). unfold wp in Hm. destruct (m _) as [[] ?]; naive_solver.
Qed.
