(* ===== verification/V5Properties.v ===== *)
(** The properties of MQTT 5 packets: [PropertyType] and [property] of [mqttbytes-v5/src/v5/mod.rs]
    and the loop every [*Properties::read] runs, with the theory its instances share.

    A property list is specified as a list of items (a type and a value), in the order
    [write_inner] emits them.  [PropertySet] is the interface between the packets and their
    property types. *)

From S2P Require Import Prelude.
From S2P Require Import Utf8.
From S2P Require Import Primitives.
From S2P Require Import CodecBase.
From S2P Require Import V5Base.

Inductive PropertyType :=
| PayloadFormatIndicator | MessageExpiryInterval | ContentType | ResponseTopic | CorrelationData
| SubscriptionIdentifier | SessionExpiryInterval | AssignedClientIdentifier | ServerKeepAlive
| AuthenticationMethod | AuthenticationData | RequestProblemInformation | WillDelayInterval
| RequestResponseInformation | ResponseInformation | ServerReference | ReasonString
| ReceiveMaximum | TopicAliasMaximum | TopicAlias | MaximumQos | RetainAvailable | UserProperty
| MaximumPacketSize | WildcardSubscriptionAvailable | SubscriptionIdentifierAvailable
| SharedSubscriptionAvailable.

(** [property_type as u8]. *)
Definition PropertyType_as_u8 (t : PropertyType) : u8 :=
  match t with
  | PayloadFormatIndicator => 1 | MessageExpiryInterval => 2 | ContentType => 3
  | ResponseTopic => 8 | CorrelationData => 9 | SubscriptionIdentifier => 11
  | SessionExpiryInterval => 17 | AssignedClientIdentifier => 18 | ServerKeepAlive => 19
  | AuthenticationMethod => 21 | AuthenticationData => 22 | RequestProblemInformation => 23
  | WillDelayInterval => 24 | RequestResponseInformation => 25 | ResponseInformation => 26
  | ServerReference => 28 | ReasonString => 31 | ReceiveMaximum => 33 | TopicAliasMaximum => 34
  | TopicAlias => 35 | MaximumQos => 36 | RetainAvailable => 37 | UserProperty => 38
  | MaximumPacketSize => 39 | WildcardSubscriptionAvailable => 40
  | SubscriptionIdentifierAvailable => 41 | SharedSubscriptionAvailable => 42
  end.

Definition property (num : u8) : outcome Error PropertyType :=
  match num with
  | 1 => Ok PayloadFormatIndicator
  | 2 => Ok MessageExpiryInterval
  | 3 => Ok ContentType
  | 8 => Ok ResponseTopic
  | 9 => Ok CorrelationData
  | 11 => Ok SubscriptionIdentifier
  | 17 => Ok SessionExpiryInterval
  | 18 => Ok AssignedClientIdentifier
  | 19 => Ok ServerKeepAlive
  | 21 => Ok AuthenticationMethod
  | 22 => Ok AuthenticationData
  | 23 => Ok RequestProblemInformation
  | 24 => Ok WillDelayInterval
  | 25 => Ok RequestResponseInformation
  | 26 => Ok ResponseInformation
  | 28 => Ok ServerReference
  | 31 => Ok ReasonString
  | 33 => Ok ReceiveMaximum
  | 34 => Ok TopicAliasMaximum
  | 35 => Ok TopicAlias
  | 36 => Ok MaximumQos
  | 37 => Ok RetainAvailable
  | 38 => Ok UserProperty
  | 39 => Ok MaximumPacketSize
  | 40 => Ok WildcardSubscriptionAvailable
  | 41 => Ok SubscriptionIdentifierAvailable
  | 42 => Ok SharedSubscriptionAvailable
  | num => Err (InvalidPropertyType num)
  end.

(** User properties: [Vec<(String, String)>]. *)
Abbreviation pairs := (list (Bytes * Bytes)) (only parsing).

(** * The shape of [*Properties::read]

    [step] is the [match property(prop)?] of the packet: from the properties read so far to the
    properties after one more and the amount added to [cursor]. *)

Definition prop_step (P : Type) : Type := PropertyType → u8 → P → M Bytes Error (P * usize).

(** [while cursor < properties_len]; an iteration consumes a byte or fails. *)
Fixpoint properties_loop {P} (step : prop_step P) (fuel : nat) (cursor properties_len : usize)
    (props : P) : M Bytes Error P :=
  if negb (cursor <? properties_len) then mret props
  else
    match fuel with
    | O => mpanic
    | S fuel =>
        prop ← read_u8;
        let cursor := cursor + 1 in
        property_type ← lift (property prop);
        '(props, n) ← step property_type prop props;
        properties_loop step fuel (cursor + n) properties_len props
    end.

Definition read_properties {P} (step : prop_step P) (empty : P) : M Bytes Error (option P) :=
  bytes ← mget;
  '(properties_len_len, properties_len) ← lift (length5 bytes);
  advance properties_len_len;;
  if properties_len =? 0 then mret None
  else
    bytes ← mget;
    props ← properties_loop step (S (length bytes)) 0 properties_len empty;
    mret (Some props).

(** The arm of user properties, the same in every packet. *)
Definition read_user_property : M Bytes Error (Bytes * Bytes * usize) :=
  key ← read_mqtt_string;
  value ← read_mqtt_string;
  mret (key, value, 2 + blen key + 2 + blen value).

(** A variable byte integer inside the property list: [length(bytes.iter())], then
    [bytes.advance]. *)
Definition read_length : M Bytes Error (usize * usize) :=
  bytes ← mget;
  '(id_len, id) ← lift (length5 bytes);
  advance id_len;;
  mret (id_len, id).

(** * The shape of [*Properties::write_inner] and [len] *)

(** [if let Some(x) = field { ... }]. *)
Definition if_some {A} (o : option A) (f : A → M Bytes Error unit) : M Bytes Error unit :=
  match o with Some x => f x | None => mret tt end.

Definition add_some {A} (len : usize) (o : option A) (f : A → usize) : usize :=
  match o with Some x => len + f x | None => len end.

(** [for (key, value) in &self.user_properties]. *)
Fixpoint write_user_properties (user_properties : pairs) : M Bytes Error unit :=
  match user_properties with
  | [] => mret tt
  | (key, value) :: rest =>
      put_u8 (PropertyType_as_u8 UserProperty);;
      write_mqtt_string key;;
      write_mqtt_string value;;
      write_user_properties rest
  end.

Definition user_properties_len (len : usize) (user_properties : pairs) : usize :=
  fold_left (λ len '(key, value), len + (1 + 2 + blen key + 2 + blen value)) user_properties len.

(** The properties field of a packet: a missing one is written as the length 0. *)
Definition write_properties {P} (write : P → M Bytes Error unit) (properties : option P)
    : M Bytes Error unit :=
  match properties with
  | Some p => write p
  | None => _ ← write_remaining_length 0; mret tt
  end.

Definition properties_size {P} (len : P → usize) (properties : option P) : usize :=
  match properties with
  | Some p =>
      let properties_len := len p in
      let properties_len_len := len_len properties_len in
      properties_len_len + properties_len
  | None => 1
  end.

(** * Specification: property items *)

Inductive PropValue :=
| V_u8 (n : u8) | V_u16 (n : u16) | V_u32 (n : u32) | V_int (n : usize)
| V_str (s : Bytes) | V_bin (b : Bytes) | V_pair (k v : Bytes).

Definition item : Type := PropertyType * PropValue.

Definition value_bytes (v : PropValue) : Bytes :=
  match v with
  | V_u8 n => [n]
  | V_u16 n => u16_bytes n
  | V_u32 n => be32_bytes n
  | V_int n => remaining_length_bytes n
  | V_str s => field_bytes s
  | V_bin b => field_bytes b
  | V_pair k v => field_bytes k ++ field_bytes v
  end.

Definition value_ok (v : PropValue) : Prop :=
  match v with
  | V_u8 n => is_u8 n
  | V_u16 n => is_u16 n
  | V_u32 n => is_u32 n
  | V_int n => 0 ≤ n ≤ MAX_REMAINING_LENGTH
  | V_str s => mqtt_string s
  | V_bin b => mqtt_bytes b
  | V_pair k v => mqtt_string k ∧ mqtt_string v
  end.

Definition item_bytes (i : item) : Bytes := PropertyType_as_u8 i.1 :: value_bytes i.2.
Definition items_bytes (its : list item) : Bytes := concat (map item_bytes its).
Definition properties_bytes (its : list item) : Bytes :=
  remaining_length_bytes (blen (items_bytes its)) ++ items_bytes its.

(** An optional field, and the user properties. *)
Definition opt_item {A} (t : PropertyType) (V : A → PropValue) (o : option A) : list item :=
  match o with Some x => [(t, V x)] | None => [] end.
Definition pair_items (l : pairs) : list item := map (λ kv, (UserProperty, V_pair kv.1 kv.2)) l.

Lemma property_as_u8 t : property (PropertyType_as_u8 t) = Ok t.
Proof. by destruct t. Qed.

Lemma property_total n : match property n with Ok _ => True | Err _ => True | Panic => False end.
Proof. unfold property. by repeat case_match. Qed.

Lemma items_bytes_app a b : items_bytes (a ++ b) = items_bytes a ++ items_bytes b.
Proof. unfold items_bytes. by rewrite map_app, concat_app. Qed.

Lemma items_bytes_cons i its : items_bytes (i :: its) = item_bytes i ++ items_bytes its.
Proof. done. Qed.

Lemma blen_item_bytes i : blen (item_bytes i) = 1 + blen (value_bytes i.2).
Proof. unfold item_bytes. by rewrite blen_cons. Qed.

Lemma items_bytes_pos its : its ≠ [] → 0 < blen (items_bytes its).
Proof.
  destruct its as [|i its]; [done|]. intros _. rewrite items_bytes_cons, blen_app, blen_item_bytes.
  pose proof (blen_nonneg (value_bytes i.2)). pose proof (blen_nonneg (items_bytes its)). lia.
Qed.

Lemma value_bytes_u8 v : value_ok v → Forall is_u8 (value_bytes v).
Proof.
  destruct v; cbn [value_ok value_bytes]; intros Hv.
  - by constructor.
  - by apply u16_bytes_u8.
  - by apply be32_bytes_u8.
  - by apply remaining_length_bytes_u8.
  - apply field_bytes_u8, Hv.
  - by apply field_bytes_u8.
  - destruct Hv as [[? _] [? _]]. apply Forall_app. split; by apply field_bytes_u8.
Qed.

Lemma PropertyType_as_u8_ok t : is_u8 (PropertyType_as_u8 t).
Proof. unfold is_u8. destruct t; simpl; lia. Qed.

Lemma items_bytes_u8 its : Forall (λ i, value_ok i.2) its → Forall is_u8 (items_bytes its).
Proof.
  induction 1 as [|i its Hi _ IH]; [constructor|]. rewrite items_bytes_cons.
  apply Forall_app. split; [|done]. constructor; [apply PropertyType_as_u8_ok|].
  by apply value_bytes_u8.
Qed.

(** ** Lengths *)

Lemma add_some_items {A} len (o : option A) (f : A → usize) t V :
  (∀ x, f x = blen (item_bytes (t, V x))) →
  add_some len o f = len + blen (items_bytes (opt_item t V o)).
Proof.
  intros Hf. destruct o as [x|]; cbn [add_some opt_item]; [|by change (blen (items_bytes [])) with 0; rewrite Z.add_0_r].
  by rewrite Hf, items_bytes_cons, app_nil_r.
Qed.

Lemma user_properties_len_items len l :
  user_properties_len len l = len + blen (items_bytes (pair_items l)).
Proof.
  unfold user_properties_len. revert len. induction l as [|[k v] l IH]; intros len;
    cbn [fold_left pair_items map].
  { by change (blen (items_bytes [])) with 0; rewrite Z.add_0_r. }
  rewrite IH, items_bytes_cons, blen_app, blen_item_bytes. cbn [snd fst value_bytes].
  fold (pair_items l). rewrite blen_app, !blen_field_bytes. lia.
Qed.

(** ** Writing *)

(** [writes_items m its]: [m] emits the items. *)
Definition writes_items (m : M Bytes Error unit) (its : list item) : Prop :=
  writes m (items_bytes its) tt.

Lemma writes_if_some {A} t V (o : option A) f :
  (∀ x, o = Some x → writes (f x) (item_bytes (t, V x)) tt) →
  writes_items (if_some o f) (opt_item t V o).
Proof.
  intros Hf. destruct o as [x|]; [|apply writes_ret]. unfold writes_items.
  cbn [opt_item if_some]. rewrite items_bytes_cons, app_nil_r. by apply Hf.
Qed.

Lemma writes_user_properties l :
  Forall (λ kv, mqtt_string kv.1 ∧ mqtt_string kv.2) l →
  writes_items (write_user_properties l) (pair_items l).
Proof.
  unfold writes_items. induction 1 as [|[k v] l [Hk Hv] _ IH]; [apply writes_ret|].
  cbn [write_user_properties pair_items map]. rewrite items_bytes_cons. unfold item_bytes.
  cbn [fst snd value_bytes] in *. fold (pair_items l). rewrite <- app_comm_cons.
  change (?a :: ?b) with ([a] ++ b).
  eapply writes_bind; [apply writes_put_u8|]. rewrite <- (assoc_L (++)).
  eapply writes_bind; [by apply writes_v5_string|].
  eapply writes_bind; [by apply writes_v5_string|]. exact IH.
Qed.

Lemma writes_items_then m its (k : M Bytes Error unit) its' :
  writes_items m its → writes_items k its' → writes_items (m;; k) (its ++ its').
Proof.
  unfold writes_items. intros Hm Hk. rewrite items_bytes_app. by eapply writes_bind.
Qed.

Lemma writes_items_nil : writes_items (mret tt) [].
Proof. apply writes_ret. Qed.

Lemma writes_item t (w : M Bytes Error unit) v :
  writes w (value_bytes v) tt → writes (put_u8 (PropertyType_as_u8 t);; w) (item_bytes (t, v)) tt.
Proof.
  intros Hw. change (item_bytes (t, v)) with ([PropertyType_as_u8 t] ++ value_bytes v).
  eapply writes_bind; [apply writes_put_u8|done].
Qed.

(** ** Reading *)

Lemma reads_read_length n :
  0 ≤ n ≤ MAX_REMAINING_LENGTH → reads read_length (remaining_length_bytes n) (len_len n, n).
Proof.
  intros Hn rest. unfold read_length, length5. rewrite bind_run. cbn [mget]. rewrite bind_run.
  unfold lift. rewrite length_remaining_length_bytes by done. cbn [outcome_map_err].
  rewrite bind_run, <- blen_remaining_length_bytes, reads_advance. done.
Qed.

Lemma reads_safe_length :
  reads_safe read_length (λ r, 1 ≤ r.1 ≤ 4 ∧ 0 ≤ r.2 ≤ MAX_REMAINING_LENGTH).
Proof.
  intros s Hs. unfold read_length, length5. apply wp_bind, wp_get, wp_bind, wp_lift.
  pose proof (length_loop_no_panic s 0 0 0) as Hp. fold (length_ s) in Hp.
  destruct (length_ s) as [[k n]|e|] eqn:Hl; [|done|done]. cbn [outcome_map_err].
  apply length_ok in Hl as (Hk & Hn & Hle & _); [|done].
  apply wp_bind. eapply wp_mono; [apply (wp_advance _ _ (λ _ _, False)); lia| |done].
  intros ? s' Hc. apply wp_ret. apply consumed_blen in Hc as Hb. apply consumed_u8 in Hc; [|done].
  split_and!; try done; cbn; lia.
Qed.

Lemma reads_user_property k v :
  mqtt_string k → mqtt_string v →
  reads read_user_property (value_bytes (V_pair k v)) (k, v, blen (value_bytes (V_pair k v))).
Proof.
  intros Hk Hv. cbn [value_bytes].
  eapply reads_bind; [by apply reads_v5_string|].
  rewrite <- (app_nil_r (field_bytes v)). eapply reads_bind; [by apply reads_v5_string|].
  rewrite app_nil_r, blen_app, !blen_field_bytes.
  replace (2 + blen k + (2 + blen v)) with (2 + blen k + 2 + blen v) by lia. apply reads_ret.
Qed.

Lemma reads_safe_user_property :
  reads_safe read_user_property (λ r, mqtt_string r.1.1 ∧ mqtt_string r.1.2 ∧ 0 ≤ r.2).
Proof.
  unfold read_user_property. safe_read. intros k Hk. safe_read. intros v Hv. apply reads_safe_ret.
  pose proof (blen_nonneg k). pose proof (blen_nonneg v). cbn. split_and!; [done..|lia].
Qed.

#[export] Hint Resolve reads_safe_length reads_safe_user_property : reads_safe.

(** ** The arms of the packets' [match]: one value of each kind *)

Section ItemReaders.
  Context {P : Type}.

Lemma reads_u8_item (set : u8 → P) n :
    reads (v ← read_u8; mret (set v, 1)) (value_bytes (V_u8 n))
      (set n, blen (value_bytes (V_u8 n))).
  Proof. eapply (reads_bind _ _ [n] []); [apply reads_v5_u8|apply reads_ret]. Qed.

Lemma reads_u16_item (set : u16 → P) n :
    is_u16 n →
    reads (v ← read_u16; mret (set v, 2)) (value_bytes (V_u16 n))
      (set n, blen (value_bytes (V_u16 n))).
  Proof.
    intros Hn. rewrite <- (app_nil_r (value_bytes _)) at 1.
    eapply reads_bind; [by apply reads_v5_u16|apply reads_ret].
  Qed.

Lemma reads_u32_item (set : u32 → P) n :
    is_u32 n →
    reads (v ← read_u32; mret (set v, 4)) (value_bytes (V_u32 n))
      (set n, blen (value_bytes (V_u32 n))).
  Proof.
    intros Hn. rewrite <- (app_nil_r (value_bytes _)) at 1.
    eapply reads_bind; [by apply reads_v5_u32|apply reads_ret].
  Qed.

Lemma reads_string_item (set : Bytes → P) s :
    mqtt_string s →
    reads (v ← read_mqtt_string; mret (set v, 2 + blen v)) (value_bytes (V_str s))
      (set s, blen (value_bytes (V_str s))).
  Proof.
    intros Hs. cbn [value_bytes]. rewrite <- (app_nil_r (field_bytes s)) at 1.
    eapply reads_bind; [by apply reads_v5_string|]. rewrite blen_field_bytes. apply reads_ret.
  Qed.

Lemma reads_bytes_item (set : Bytes → P) b :
    mqtt_bytes b →
    reads (v ← read_mqtt_bytes; mret (set v, 2 + blen v)) (value_bytes (V_bin b))
      (set b, blen (value_bytes (V_bin b))).
  Proof.
    intros Hs. cbn [value_bytes]. rewrite <- (app_nil_r (field_bytes b)) at 1.
    eapply reads_bind; [by apply reads_v5_bytes|]. rewrite blen_field_bytes. apply reads_ret.
  Qed.

Lemma reads_user_item (set : pairs → P) acc k v :
    mqtt_string k → mqtt_string v →
    reads ('(key, value, n) ← read_user_property; mret (set (acc ++ [(key, value)]), n))
      (value_bytes (V_pair k v)) (set (acc ++ [(k, v)]), blen (value_bytes (V_pair k v))).
  Proof.
    intros Hk Hv. rewrite <- (app_nil_r (value_bytes _)) at 1.
    eapply reads_bind; [by apply reads_user_property|]. apply reads_ret.
  Qed.
End ItemReaders.

Section Loop.
  Context {P : Type} (step : prop_step P).

  (** [step] reads the value of [i], turns [p] into [q] and adds [n] to the cursor. *)
Definition reads_item (p : P) (i : item) (n : usize) (q : P) : Prop :=
    reads (step i.1 (PropertyType_as_u8 i.1) p) (value_bytes i.2) (q, n).

  (** The items are read one by one from cursor [c] on, and the loop stops behind the last. *)
Fixpoint runs_at (c L : usize) (p : P) (its : list item) (q : P) : Prop :=
    match its with
    | [] => L ≤ c ∧ p = q
    | i :: its => c < L ∧ ∃ p' n, reads_item p i n p' ∧ runs_at (c + 1 + n) L p' its q
    end.

Lemma reads_loop c L p its q fuel :
    runs_at c L p its q → (length its ≤ fuel)%nat →
    reads (properties_loop step fuel c L p) (items_bytes its) q.
  Proof.
    revert c p fuel. induction its as [|i its IH]; intros c p fuel; cbn [runs_at length].
    - intros [Hc ->] _. destruct fuel; cbn [properties_loop];
        rewrite (proj2 (Z.ltb_ge _ _)) by lia; apply reads_ret.
    - intros (Hc & p' & n & Hi & Hr) Hf. destruct fuel as [|fuel]; [lia|].
      cbn [properties_loop]. rewrite (proj2 (Z.ltb_lt _ _)) by lia. cbn [negb].
      rewrite items_bytes_cons. unfold item_bytes. rewrite <- app_comm_cons.
      change (?a :: ?b) with ([a] ++ b).
      eapply reads_bind; [apply reads_v5_u8|]. cbn beta zeta.
      eapply reads_bind_nil; [apply reads_lift, property_as_u8|].
      eapply reads_bind; [exact Hi|]. apply IH; [done|lia].
  Qed.

  (** The items read with the cursor counting every byte. *)
Fixpoint runs (p : P) (its : list item) (q : P) : Prop :=
    match its with
    | [] => p = q
    | i :: its => ∃ p', reads_item p i (blen (value_bytes i.2)) p' ∧ runs p' its q
    end.

Lemma runs_runs_at c p its q : runs p its q → runs_at c (c + blen (items_bytes its)) p its q.
  Proof.
    revert c p. induction its as [|i its IH]; intros c p; cbn [runs runs_at].
    - intros ->. split; [|done]. unfold items_bytes. simpl. rewrite blen_nil. lia.
    - intros (p' & Hi & Hr). split.
      { pose proof (items_bytes_pos (i :: its)). naive_solver lia. }
      exists p', (blen (value_bytes i.2)). split; [done|].
      rewrite items_bytes_cons, blen_app, blen_item_bytes.
      replace (c + (1 + blen (value_bytes i.2) + blen (items_bytes its)))
        with (c + 1 + blen (value_bytes i.2) + blen (items_bytes its)) by lia.
      by apply IH.
  Qed.

Lemma runs_then c L p a q b r :
    runs p a q → c + blen (items_bytes a) ≤ L → runs_at (c + blen (items_bytes a)) L q b r →
    runs_at c L p (a ++ b) r.
  Proof.
    revert c p. induction a as [|i a IH]; intros c p; cbn [runs app].
    - intros ->. change (blen (items_bytes [])) with 0. by rewrite Z.add_0_r.
    - intros (p' & Hi & Hr). rewrite items_bytes_cons, blen_app, blen_item_bytes. intros HL Hb.
      pose proof (blen_nonneg (value_bytes i.2)). pose proof (blen_nonneg (items_bytes a)).
      cbn [runs_at]. split; [lia|]. exists p', (blen (value_bytes i.2)). split; [done|].
      apply IH; [done|lia|]. by rewrite !Z.add_assoc in *.
  Qed.

Lemma runs_app p a b q r : runs p a q → runs q b r → runs p (a ++ b) r.
  Proof.
    revert p. induction a as [|i a IH]; intros p; cbn [runs app].
    - by intros ->.
    - intros (p' & Hi & Hr) Hb. exists p'. eauto.
  Qed.

  (** An optional field that is still unset. *)
Lemma runs_opt {A} (set : option A → P) t V (o : option A) :
    (∀ x, o = Some x →
       reads_item (set None) (t, V x) (blen (value_bytes (V x))) (set (Some x))) →
    runs (set None) (opt_item t V o) (set o).
  Proof. intros Hs. destruct o as [x|]; [|done]. exists (set (Some x)). split; [by apply Hs|done]. Qed.

  (** The fields by kind: [step] must be the plain arm for the field. *)
Lemma runs_u8 (set : option u8 → P) t o :
    step t (PropertyType_as_u8 t) (set None) = (v ← read_u8; mret (set (Some v), 1)) →
    runs (set None) (opt_item t V_u8 o) (set o).
  Proof.
    intros Hs. apply runs_opt. intros x _. unfold reads_item. cbn [fst]. rewrite Hs.
    apply (reads_u8_item (λ v, set (Some v))).
  Qed.

Lemma runs_u16 (set : option u16 → P) t o :
    step t (PropertyType_as_u8 t) (set None) = (v ← read_u16; mret (set (Some v), 2)) →
    (∀ x, o = Some x → is_u16 x) → runs (set None) (opt_item t V_u16 o) (set o).
  Proof.
    intros Hs Ho. apply runs_opt. intros x Hx. unfold reads_item. cbn [fst]. rewrite Hs.
    apply (reads_u16_item (λ v, set (Some v))). by apply Ho.
  Qed.

Lemma runs_u32 (set : option u32 → P) t o :
    step t (PropertyType_as_u8 t) (set None) = (v ← read_u32; mret (set (Some v), 4)) →
    (∀ x, o = Some x → is_u32 x) → runs (set None) (opt_item t V_u32 o) (set o).
  Proof.
    intros Hs Ho. apply runs_opt. intros x Hx. unfold reads_item. cbn [fst]. rewrite Hs.
    apply (reads_u32_item (λ v, set (Some v))). by apply Ho.
  Qed.

Lemma runs_string (set : option Bytes → P) t o :
    step t (PropertyType_as_u8 t) (set None) =
      (v ← read_mqtt_string; mret (set (Some v), 2 + blen v)) →
    (∀ x, o = Some x → mqtt_string x) → runs (set None) (opt_item t V_str o) (set o).
  Proof.
    intros Hs Ho. apply runs_opt. intros x Hx. unfold reads_item. cbn [fst]. rewrite Hs.
    apply (reads_string_item (λ v, set (Some v))). by apply Ho.
  Qed.

Lemma runs_bytes (set : option Bytes → P) t o :
    step t (PropertyType_as_u8 t) (set None) =
      (v ← read_mqtt_bytes; mret (set (Some v), 2 + blen v)) →
    (∀ x, o = Some x → mqtt_bytes x) → runs (set None) (opt_item t V_bin o) (set o).
  Proof.
    intros Hs Ho. apply runs_opt. intros x Hx. unfold reads_item. cbn [fst]. rewrite Hs.
    apply (reads_bytes_item (λ v, set (Some v))). by apply Ho.
  Qed.

  (** The user properties are appended in order. *)
Lemma runs_pairs (set : pairs → P) l :
    (∀ acc, step UserProperty (PropertyType_as_u8 UserProperty) (set acc) =
      ('(key, value, n) ← read_user_property; mret (set (acc ++ [(key, value)]), n))) →
    Forall (λ kv, mqtt_string kv.1 ∧ mqtt_string kv.2) l →
    runs (set []) (pair_items l) (set l).
  Proof.
    intros Hs Hl. enough (H : ∀ acc, runs (set acc) (pair_items l) (set (acc ++ l))) by apply (H []).
    induction Hl as [|[k v] l [Hk Hv] _ IH]; intros acc; cbn [pair_items map runs].
    - by rewrite app_nil_r.
    - exists (set (acc ++ [(k, v)])). split.
      + unfold reads_item. cbn [fst]. rewrite Hs. by apply reads_user_item.
      + specialize (IH (acc ++ [(k, v)])). by rewrite <- (assoc_L (++)) in IH.
  Qed.

  Context (empty : P).

Lemma reads_properties its p :
    its ≠ [] → blen (items_bytes its) ≤ MAX_REMAINING_LENGTH →
    runs_at 0 (blen (items_bytes its)) empty its p →
    reads (read_properties step empty) (properties_bytes its) (Some p).
  Proof.
    intros Hne Hb Hr rest. pose proof (items_bytes_pos its Hne).
    unfold read_properties, properties_bytes, length5. rewrite <- (assoc_L (++)).
    rewrite bind_run. cbn [mget]. rewrite bind_run. unfold lift.
    rewrite length_remaining_length_bytes by lia. cbn [outcome_map_err].
    rewrite bind_run, <- (blen_remaining_length_bytes (blen _)), reads_advance.
    rewrite (proj2 (Z.eqb_neq _ 0)) by lia. rewrite bind_run. cbn [mget].
    rewrite bind_run, (reads_loop _ _ _ _ _ _ Hr); [done|].
    apply le_S. transitivity (length (items_bytes its)).
    - apply length_concat_map_ge. done.
    - rewrite length_app. lia.
  Qed.

Lemma reads_no_properties : reads (read_properties step empty) [0] None.
  Proof.
    intros rest. unfold read_properties, length5. rewrite bind_run. cbn [mget]. rewrite bind_run.
    unfold lift. change [0] with (remaining_length_bytes 0).
    rewrite length_remaining_length_bytes by done. cbn [outcome_map_err].
    by rewrite bind_run, <- (blen_remaining_length_bytes 0), reads_advance.
  Qed.

  (** ** Safety *)

  Context (items : P → list item) (valid : P → Prop).

  (** What the packet's [match] must guarantee on arbitrary bytes. *)
Definition step_safe : Prop :=
    ∀ t b p, valid p →
      reads_safe (step t b p) (λ r, valid r.1 ∧ 0 ≤ r.2 ∧ items r.1 ≠ []).

Lemma loop_safe fuel c L p s :
    step_safe → Forall is_u8 s → (length s < fuel)%nat → valid p → c < L ∨ items p ≠ [] →
    wp (properties_loop step fuel c L p)
      (λ q s', (valid q ∧ items q ≠ []) ∧ Forall is_u8 s' ∧ blen s' ≤ blen s) (λ _ _, True) s.
  Proof.
    intros Hst. revert c p s. induction fuel as [|fuel IH]; intros c p s Hs Hf Hp Hc; [lia|].
    cbn [properties_loop]. destruct (Z.ltb_spec c L) as [Hlt|Hge]; cbn [negb].
    - apply wp_bind, wp_map_err. eapply wp_mono; [apply wp_read_u8| |done].
      intros b s1 ->. apply Forall_cons in Hs as [Hb Hs]. cbn beta zeta.
      apply wp_bind, wp_lift. pose proof (property_total b). destruct (property b); [|done|done].
      apply wp_bind. eapply wp_mono; [by apply Hst| |done].
      intros [p' n] s2 ((Hp' & Hn & Hne) & Hs2 & Hl). cbn [fst snd] in *.
      simpl in Hf. eapply wp_mono; [apply IH; [done| |done|by right]| |done].
      + unfold blen in Hl. lia.
      + intros q s3 (Hq & ? & ?). rewrite blen_cons. split_and!; [apply Hq..|done|lia].
    - apply wp_ret. split_and!; try done. destruct Hc; [lia|done].
  Qed.

Lemma read_properties_safe :
    step_safe → valid empty →
    reads_safe (read_properties step empty)
      (λ o, match o with Some p => valid p ∧ items p ≠ [] | None => True end).
  Proof.
    intros Hst Hv s Hs. unfold read_properties, length5. apply wp_bind, wp_get, wp_bind, wp_lift.
    pose proof (length_loop_no_panic s 0 0 0) as Hp. fold (length_ s) in Hp.
    destruct (length_ s) as [[k n]|e|] eqn:Hl; [|done|done]. cbn [outcome_map_err].
    apply length_ok in Hl as (Hk & Hn & Hle & _); [|done].
    apply wp_bind. eapply wp_mono; [apply (wp_advance _ _ (λ _ _, False)); lia| |done].
    intros ? s1 Hc. apply consumed_blen in Hc as Hb. apply consumed_u8 in Hc; [|done].
    destruct (Z.eqb_spec n 0) as [->|Hn0]; [apply wp_ret; split_and!; [done..|lia]|].
    apply wp_bind, wp_get, wp_bind.
    eapply wp_mono; [apply loop_safe; [done|done|lia|done|left; lia]| |done].
    intros q s2 (Hq & ? & ?). apply wp_ret. split_and!; [apply Hq..|done|lia].
  Qed.
End Loop.

(** * The interface between packets and their properties

    [ps_valid] holds of what [ps_read] returns; [ps_exact] is what a valid list needs to be read
    back from its encoding; [ps_encodable] is the type of the fields ([usize] is not negative). *)

Class PropertySet (P : Type) := {
  ps_read : M Bytes Error (option P);
  ps_write : P → M Bytes Error unit;
  ps_len : P → usize;
  ps_items : P → list item;
  ps_valid : P → Prop;
  ps_exact : P → Prop;
  ps_encodable : P → Prop;
}.

Class PropertySetLaws (P : Type) `{PropertySet P} : Prop := {
  ps_len_ok p : ps_len p = blen (items_bytes (ps_items p));
  ps_write_ok p : ps_valid p → blen (items_bytes (ps_items p)) ≤ MAX_REMAINING_LENGTH →
    writes (ps_write p) (properties_bytes (ps_items p)) tt;
  ps_read_ok p : ps_valid p → ps_exact p → ps_items p ≠ [] →
    blen (items_bytes (ps_items p)) ≤ MAX_REMAINING_LENGTH →
    reads ps_read (properties_bytes (ps_items p)) (Some p);
  ps_read_none : reads ps_read [0] None;
  ps_read_safe : reads_safe ps_read
    (λ o, match o with Some p => ps_valid p ∧ ps_items p ≠ [] | None => True end);
  ps_items_ok p : ps_valid p → Forall (λ i, value_ok i.2) (ps_items p);
  ps_valid_encodable p : ps_valid p → ps_encodable p;
  ps_write_total p : ps_encodable p → total (ps_write p);
  ps_write_appends p : appends (ps_write p);
}.

(** The properties field of a packet. *)
Section Field.
  Context `{PropertySetLaws P}.

Definition props_bytes (o : option P) : Bytes :=
    match o with Some p => properties_bytes (ps_items p) | None => [0] end.
Definition props_valid (o : option P) : Prop :=
    match o with Some p => ps_valid p ∧ ps_items p ≠ [] | None => True end.
Definition props_exact (o : option P) : Prop :=
    match o with Some p => ps_exact p | None => True end.
Definition props_encodable (o : option P) : Prop :=
    match o with Some p => ps_encodable p | None => True end.

Lemma blen_properties_bytes its :
    blen (properties_bytes its) = len_len (blen (items_bytes its)) + blen (items_bytes its).
  Proof. unfold properties_bytes. by rewrite blen_app, blen_remaining_length_bytes. Qed.

Lemma properties_size_eq o : properties_size ps_len o = blen (props_bytes o).
  Proof.
    destruct o as [p|]; [|done]. cbn [properties_size props_bytes].
    by rewrite blen_properties_bytes, ps_len_ok.
  Qed.

Lemma blen_items_le o p : o = Some p → blen (items_bytes (ps_items p)) ≤ blen (props_bytes o).
  Proof.
    intros ->. cbn [props_bytes]. rewrite blen_properties_bytes.
    unfold len_len. repeat case_match; lia.
  Qed.

Lemma writes_props o :
    props_valid o → blen (props_bytes o) ≤ MAX_REMAINING_LENGTH →
    writes (write_properties ps_write o) (props_bytes o) tt.
  Proof.
    intros Hv Hb. destruct o as [p|]; cbn [write_properties props_bytes].
    - apply ps_write_ok; [apply Hv|]. etrans; [by apply (blen_items_le (Some p))|done].
    - eapply writes_last; [by apply writes_v5_length|done].
  Qed.

Lemma reads_props o :
    props_valid o → props_exact o → blen (props_bytes o) ≤ MAX_REMAINING_LENGTH →
    reads ps_read (props_bytes o) o.
  Proof.
    intros Hv He Hb. destruct o as [p|]; [|apply ps_read_none]. cbn [props_bytes].
    apply ps_read_ok; [apply Hv|done|apply Hv|].
    etrans; [by apply (blen_items_le (Some p))|done].
  Qed.

Lemma props_safe : reads_safe ps_read props_valid.
  Proof. apply ps_read_safe. Qed.

Lemma props_bytes_u8 o :
    props_valid o → blen (props_bytes o) ≤ MAX_REMAINING_LENGTH → Forall is_u8 (props_bytes o).
  Proof.
    intros Hv Hb. destruct o as [p|]; [|by constructor]. cbn [props_bytes]. apply Forall_app. split.
    - apply remaining_length_bytes_u8. split; [apply blen_nonneg|].
      etrans; [by apply (blen_items_le (Some p))|done].
    - apply items_bytes_u8, ps_items_ok, Hv.
  Qed.

Lemma props_valid_encodable o : props_valid o → props_encodable o.
  Proof. destruct o; [|done]. intros [? _]. by apply ps_valid_encodable. Qed.

Lemma total_props o : props_encodable o → total (write_properties ps_write o).
  Proof.
    destruct o as [p|]; intros Ho; [by apply ps_write_total|].
    apply total_bind; [by apply v5_total_length|done].
  Qed.

Lemma appends_props o : appends (write_properties ps_write o).
  Proof.
    destruct o as [p|]; [apply ps_write_appends|].
    apply appends_bind; [apply v5_appends_length|intros; apply appends_ret].
  Qed.
End Field.

#[export] Hint Resolve writes_props reads_props : codec.
#[export] Hint Resolve total_props appends_props : appends.
#[export] Hint Resolve props_safe : reads_safe.

(** ** Building instances *)

Lemma appends_if_some {A} (o : option A) f : (∀ x, appends (f x)) → appends (if_some o f).
Proof. intros Hf. destruct o; [apply Hf|apply appends_ret]. Qed.

Lemma total_if_some {A} (o : option A) f :
  (∀ x, o = Some x → total (f x)) → total (if_some o f).
Proof. intros Hf. destruct o; [by apply Hf|done]. Qed.

Lemma appends_user_properties l : appends (write_user_properties l).
Proof.
  induction l as [|[k v] l IH]; [apply appends_ret|].
  cbn [write_user_properties]. auto 10 with appends.
Qed.

Lemma total_user_properties l : total (write_user_properties l).
Proof.
  induction l as [|[k v] l IH]; [done|]. cbn [write_user_properties].
  apply (total_bind (put_u8 _)); [done|]. intros _.
  apply total_bind; [apply v5_total_string|]. intros _.
  by apply total_bind; [apply v5_total_string|].
Qed.

#[export] Hint Resolve appends_if_some appends_user_properties total_user_properties : appends.

(** [write_inner] of a property list: its length, then its items. *)
Lemma writes_property_list len its (body : M Bytes Error unit) :
  len = blen (items_bytes its) → blen (items_bytes its) ≤ MAX_REMAINING_LENGTH →
  writes_items body its →
  writes (transactional_write (_ ← write_remaining_length len; body))
    (properties_bytes its) tt.
Proof.
  intros -> Hb Hw. apply writes_transactional. eapply writes_bind; [|exact Hw].
  apply writes_v5_length. split; [apply blen_nonneg|done].
Qed.

Lemma Forall_opt_item {A} t V (o : option A) :
  (∀ x, o = Some x → value_ok (V x)) → Forall (λ i : item, value_ok i.2) (opt_item t V o).
Proof. intros Ho. destruct o as [x|]; [|constructor]. constructor; [by apply Ho|constructor]. Qed.

Definition pairs_valid (l : pairs) : Prop :=
  Forall (λ kv, mqtt_string kv.1 ∧ mqtt_string kv.2) l.

Lemma Forall_pair_items l : pairs_valid l → Forall (λ i : item, value_ok i.2) (pair_items l).
Proof. intros Hl. apply Forall_map. eapply Forall_impl; [exact Hl|]. by intros kv. Qed.

Lemma pairs_valid_snoc l k v :
  pairs_valid l → mqtt_string k → mqtt_string v → pairs_valid (l ++ [(k, v)]).
Proof. intros. apply Forall_app. split; [done|]. by apply Forall_singleton. Qed.

Lemma pair_items_snoc l kv : pair_items (l ++ [kv]) ≠ [].
Proof. unfold pair_items. rewrite map_app. by intros [_ ?]%app_eq_nil. Qed.

(** [opt_ok Q o]: the field satisfies [Q] when it is set. *)
Definition opt_ok {A} (Q : A → Prop) (o : option A) : Prop := ∀ x, o = Some x → Q x.

Lemma opt_ok_some {A} (Q : A → Prop) x : Q x → opt_ok Q (Some x).
Proof. by intros ? ? [= <-]. Qed.

Lemma opt_ok_none {A} (Q : A → Prop) : opt_ok Q None.
Proof. done. Qed.

#[export] Hint Resolve opt_ok_some opt_ok_none pairs_valid_snoc : core.

(** The length of a property list is that of its items. *)
Ltac solve_len :=
  cbv zeta;
  repeat first
    [ rewrite user_properties_len_items
    | match goal with
      | |- context [add_some ?len ?o ?f] =>
          match goal with
          | |- context [opt_item ?t ?V o] =>
              rewrite (add_some_items len o f t V)
                by (intros; rewrite blen_item_bytes; cbn [snd value_bytes];
                    autorewrite with blen; lia)
          end
      end ];
  rewrite ?items_bytes_app, ?blen_app; lia.

(** A list of items with a set field is not empty. *)
Ltac solve_nonempty :=
  let H := fresh in
  intros H;
  repeat match goal with
  | H : _ = [] |- _ => apply app_eq_nil in H as [? ?]
  end;
  match goal with
  | H : _ = [] |- _ => exact (pair_items_snoc _ _ H)
  | H : _ = [] |- _ => discriminate H
  end.

(** Close an arm of a packet's [match]: the value read is stored, the cursor does not go back, and
    a field is set. *)
Ltac safe_ret :=
  apply reads_safe_ret; cbn [fst snd] in *;
  repeat match goal with v : list Z |- _ =>
    lazymatch goal with H : 0 ≤ blen v |- _ => fail | _ => pose proof (blen_nonneg v) end
  end;
  split; [|split; [lia|solve_nonempty]].

(** The validity [V] of a record, field by field. *)
Ltac solve_valid V :=
  unfold V in *; cbn in *; destruct_and?;
  repeat match goal with |- _ ∧ _ => split end; auto.
