(* ===== verification/V5Acks.v ===== *)
(** The publish acknowledgements of [mqttbytes-v5/src/v5/]: [puback.rs], [pubrec.rs],
    [pubrel.rs] and [pubcomp.rs].

    The four files are one program over four reason enumerations; [Section Ack] is that program,
    and each packet instantiates it with its own enumeration and first byte. *)

From S2P Require Import Prelude.
From S2P Require Import Utf8.
From S2P Require Import Primitives.
From S2P Require Import CodecBase.
From S2P Require Import V5Base.
From S2P Require Import V5Properties.

(** * Reason string and user properties

    The fields of the properties of the four acknowledgements and of SUBACK and UNSUBACK. *)

Record ReasonProperties := mkReasonProperties {
  reason_string : option Bytes;
  user_properties : pairs;
}.

Definition PubAckProperties := ReasonProperties.
Definition PubRecProperties := ReasonProperties.
Definition PubRelProperties := ReasonProperties.
Definition PubCompProperties := ReasonProperties.

Definition ReasonProperties_default : ReasonProperties := mkReasonProperties None [].

Definition ReasonProperties_len (self : ReasonProperties) : usize :=
  let len := 0 in
  let len := add_some len (reason_string self) (λ reason, 1 + 2 + blen reason) in
  user_properties_len len (user_properties self).

(** The [match property(prop)?] of [PubAckProperties::read] and its three copies. *)
Definition AckProperties_step : prop_step ReasonProperties := λ property_type prop self,
  match property_type with
  | ReasonString =>
      reason ← read_mqtt_string;
      mret (mkReasonProperties (Some reason) (user_properties self), 2 + blen reason)
  | UserProperty =>
      '(key, value, n) ← read_user_property;
      mret (mkReasonProperties (reason_string self) (user_properties self ++ [(key, value)]), n)
  | _ => mfail (InvalidPropertyType prop)
  end.

Definition AckProperties_read : M Bytes Error (option ReasonProperties) :=
  read_properties AckProperties_step ReasonProperties_default.

Definition ReasonProperties_write_inner (self : ReasonProperties) : M Bytes Error unit :=
  let len := ReasonProperties_len self in
  _ ← write_remaining_length len;
  if_some (reason_string self) (λ reason,
    put_u8 (PropertyType_as_u8 ReasonString);;
    write_mqtt_string reason);;
  write_user_properties (user_properties self).

Definition ReasonProperties_write (self : ReasonProperties) : M Bytes Error unit :=
  transactional_write (ReasonProperties_write_inner self).

(** The property types of the four packets. *)
Definition PubAckProperties_len : PubAckProperties → usize := ReasonProperties_len.
Definition PubAckProperties_read : M Bytes Error (option PubAckProperties) := AckProperties_read.
Definition PubAckProperties_write : PubAckProperties → M Bytes Error unit := ReasonProperties_write.
Definition PubRecProperties_len : PubRecProperties → usize := ReasonProperties_len.
Definition PubRecProperties_read : M Bytes Error (option PubRecProperties) := AckProperties_read.
Definition PubRecProperties_write : PubRecProperties → M Bytes Error unit := ReasonProperties_write.
Definition PubRelProperties_len : PubRelProperties → usize := ReasonProperties_len.
Definition PubRelProperties_read : M Bytes Error (option PubRelProperties) := AckProperties_read.
Definition PubRelProperties_write : PubRelProperties → M Bytes Error unit := ReasonProperties_write.
Definition PubCompProperties_len : PubCompProperties → usize := ReasonProperties_len.
Definition PubCompProperties_read : M Bytes Error (option PubCompProperties) := AckProperties_read.
Definition PubCompProperties_write : PubCompProperties → M Bytes Error unit := ReasonProperties_write.

(** ** Laws *)

Definition ReasonProperties_items (p : ReasonProperties) : list item :=
  opt_item ReasonString V_str (reason_string p) ++ pair_items (user_properties p).

Definition ReasonProperties_valid (p : ReasonProperties) : Prop :=
  opt_ok mqtt_string (reason_string p) ∧ pairs_valid (user_properties p).

Lemma ReasonProperties_len_ok p :
  ReasonProperties_len p = blen (items_bytes (ReasonProperties_items p)).
Proof. unfold ReasonProperties_len, ReasonProperties_items. solve_len. Qed.

Lemma ReasonProperties_write_ok p :
  ReasonProperties_valid p → blen (items_bytes (ReasonProperties_items p)) ≤ MAX_REMAINING_LENGTH →
  writes (ReasonProperties_write p) (properties_bytes (ReasonProperties_items p)) tt.
Proof.
  intros [Hr Hu] Hb. apply writes_property_list; [apply ReasonProperties_len_ok|done|].
  apply writes_items_then; [|by apply writes_user_properties].
  apply writes_if_some. intros x Hx. apply writes_item, writes_v5_string. by apply Hr.
Qed.

Lemma ReasonProperties_items_ok p :
  ReasonProperties_valid p → Forall (λ i, value_ok i.2) (ReasonProperties_items p).
Proof.
  intros [Hr Hu]. apply Forall_app. split; [by apply Forall_opt_item|by apply Forall_pair_items].
Qed.

Lemma ReasonProperties_write_safe p :
  total (ReasonProperties_write p) ∧ appends (ReasonProperties_write p).
Proof.
  split.
  - apply total_transactional, total_bind; [|intros _; apply total_bind].
    + apply v5_total_length. rewrite ReasonProperties_len_ok. apply blen_nonneg.
    + apply total_if_some. intros. apply (total_bind (put_u8 _)); [done|].
      intros _. apply v5_total_string.
    + intros _. apply total_user_properties.
  - apply appends_transactional. unfold ReasonProperties_write_inner. auto 10 with appends.
Qed.

Definition AckProperties_set : PropertySet ReasonProperties := {|
  ps_read := AckProperties_read; ps_write := ReasonProperties_write;
  ps_len := ReasonProperties_len; ps_items := ReasonProperties_items;
  ps_valid := ReasonProperties_valid; ps_exact _ := True; ps_encodable _ := True |}.

#[local] Existing Instance AckProperties_set.

Lemma AckProperties_runs p :
  ReasonProperties_valid p →
  runs AckProperties_step ReasonProperties_default (ReasonProperties_items p) p.
Proof.
  destruct p as [r u]. intros [Hr Hu]. eapply runs_app.
  - by apply (runs_string _ (λ o, mkReasonProperties o [])).
  - by apply (runs_pairs _ (mkReasonProperties r)).
Qed.

Lemma AckProperties_step_safe :
  step_safe AckProperties_step ReasonProperties_items ReasonProperties_valid.
Proof.
  intros t b [r u] [Hr Hu]. destruct t; cbn [AckProperties_step]; try apply reads_safe_fail.
  - safe_read. intros s Hs. safe_ret. solve_valid ReasonProperties_valid.
  - safe_read. intros [[k v] n] (? & ? & ?). safe_ret. solve_valid ReasonProperties_valid.
Qed.

Definition AckProperties_laws : PropertySetLaws ReasonProperties.
Proof.
  split; cbn.
  - apply ReasonProperties_len_ok.
  - apply ReasonProperties_write_ok.
  - intros p Hv _ Hne Hb. apply reads_properties; [done..|].
    rewrite <- (Z.add_0_l (blen _)). by apply runs_runs_at, AckProperties_runs.
  - apply reads_no_properties.
  - apply read_properties_safe; [apply AckProperties_step_safe|]. split; [done|constructor].
  - apply ReasonProperties_items_ok.
  - done.
  - intros p _. apply ReasonProperties_write_safe.
  - apply ReasonProperties_write_safe.
Qed.
#[local] Existing Instance AckProperties_laws.

(** * The acknowledgements *)

Record Ack (R : Type) := mkAck {
  ack_pkid : u16;
  ack_reason : R;
  ack_properties : option ReasonProperties;
}.
Arguments mkAck {R} _ _ _.
Arguments ack_pkid {R} _.
Arguments ack_reason {R} _.
Arguments ack_properties {R} _.

Definition is_none {A} (o : option A) : bool := match o with Some _ => false | None => true end.

Section Ack.
  Context {R : Type} `{EqDecision R} (Success : R).
  Context (reason : u8 → outcome Error R) (code : R → u8) (first : u8).

Definition Ack_new (pkid : u16) (properties : option ReasonProperties) : Ack R :=
    mkAck pkid Success properties.

  (** [self.reason == Success && self.properties.is_none()]. *)
Definition Ack_compact (self : Ack R) : bool :=
    bool_decide (ack_reason self = Success) && is_none (ack_properties self).

Definition Ack_len (self : Ack R) : usize :=
    let len := 2 + 1 in
    if Ack_compact self then 2
    else len + properties_size ReasonProperties_len (ack_properties self).

  (** [PubAck::size], [PubRel::size] and [PubComp::size] return early; [PubRec::size] does not. *)
Definition Ack_size (self : Ack R) : usize :=
    if Ack_compact self then 4
    else
      let len := Ack_len self in
      let remaining_len_size := len_len len in
      1 + remaining_len_size + len.

Definition Ack_size' (self : Ack R) : usize :=
    let len := Ack_len self in
    let remaining_len_size := len_len len in
    1 + remaining_len_size + len.

Definition Ack_read (fixed_header : FixedHeader) (bytes : Bytes) : outcome Error (Ack R) :=
    run_on bytes (
      advance (header_len fixed_header);;
      pkid ← read_u16;
      if pkid =? 0 then mfail PacketIdZero
      else if remaining_len fixed_header =? 2 then mret (mkAck pkid Success None)
      else
        ack_reason ← read_u8;
        if remaining_len fixed_header <? 4 then
          r ← lift (reason ack_reason);
          mret (mkAck pkid r None)
        else
          properties ← AckProperties_read;
          r ← lift (reason ack_reason);
          mret (mkAck pkid r properties)).

Definition Ack_write_inner (self : Ack R) : M Bytes Error usize :=
    if ack_pkid self =? 0 then mfail PacketIdZero
    else
      let len := Ack_len self in
      put_u8 first;;
      count ← write_remaining_length len;
      put_u16 (ack_pkid self);;
      if Ack_compact self then mret 4
      else
        put_u8 (code (ack_reason self));;
        write_properties ReasonProperties_write (ack_properties self);;
        mret (1 + count + len).

Definition Ack_write (self : Ack R) : M Bytes Error usize :=
    transactional_write (Ack_write_inner self).

  (** ** Laws *)

Definition Ack_content (a : Ack R) : Bytes :=
    u16_bytes (ack_pkid a) ++
    (if Ack_compact a then [] else code (ack_reason a) :: props_bytes (ack_properties a)).

Definition Ack_valid (a : Ack R) : Prop :=
    pkid_valid (ack_pkid a) ∧ props_valid (ack_properties a).

Definition Ack_wire (size : Ack R → usize) : WirePacket (Ack R) := {|
    wire_read := Ack_read; wire_write := Ack_write; wire_size := size;
    wire_byte1 _ := first; wire_content := Ack_content; wire_valid := Ack_valid;
    wire_exact _ := True; wire_encodable _ := True |}.

Lemma blen_Ack_content a : blen (Ack_content a) = Ack_len a.
  Proof.
    unfold Ack_content, Ack_len. destruct (Ack_compact a); [done|].
    rewrite blen_app, blen_cons, blen_u16_bytes, <- properties_size_eq.
    cbn [ps_len AckProperties_set]. lia.
  Qed.

Lemma Ack_size_eq a : Ack_size a = Ack_size' a.
  Proof. unfold Ack_size, Ack_size', Ack_len. by destruct (Ack_compact a). Qed.

Lemma Ack_compact_true a : Ack_compact a = true → a = mkAck (ack_pkid a) Success None.
  Proof.
    unfold Ack_compact. rewrite andb_true_iff, bool_decide_eq_true. destruct a as [pk r [p|]]; cbn;
      [by intros [_ ?]|]. by intros [-> _].
  Qed.

Lemma blen_props_pos (o : option ReasonProperties) : 1 ≤ blen (props_bytes o).
  Proof.
    rewrite <- properties_size_eq. destruct o; cbn [properties_size]; [|done].
    rewrite ps_len_ok. pose proof (blen_nonneg (items_bytes (ps_items r))).
    unfold len_len. repeat case_match; lia.
  Qed.

  Context (Hcode : ∀ r, reason (code r) = Ok r) (Hcode8 : ∀ r, is_u8 (code r)).
  Context (Hreason : ∀ n, reason n ≠ Panic).

Lemma Ack_write_ok a :
    Ack_valid a → blen (Ack_content a) ≤ MAX_REMAINING_LENGTH →
    writes (Ack_write a)
      (first :: remaining_length_bytes (blen (Ack_content a)) ++ Ack_content a) (Ack_size a).
  Proof.
    intros [[Hp Hne] Hv] Hb. apply writes_transactional. unfold Ack_write_inner.
    rewrite (proj2 (Z.eqb_neq _ 0)) by done. pose proof (blen_nonneg (Ack_content a)).
    rewrite blen_Ack_content in *. apply writes_v5_frame; [lia|].
    eapply writes_bind; [apply writes_put_u16|]. unfold Ack_size. unfold Ack_content in Hb.
    destruct (Ack_compact a) eqn:Hc; [apply writes_ret|].
    change (?x :: ?y) with ([x] ++ y). eapply writes_bind; [apply writes_put_u8|].
    eapply writes_last; [|done]. refine (writes_props (ack_properties a) Hv _).
    rewrite <- properties_size_eq. unfold Ack_len in Hb. rewrite Hc in Hb.
    cbn [ps_len AckProperties_set]. lia.
  Qed.

Lemma Ack_read_ok a hdr :
    Ack_valid a → blen (Ack_content a) ≤ MAX_REMAINING_LENGTH →
    Ack_read {| byte1 := first; header_len := blen hdr; remaining_len := blen (Ack_content a) |}
      (hdr ++ Ack_content a) = Ok a.
  Proof.
    intros [[Hp Hne] Hv] Hb. unfold Ack_read. cbn [header_len remaining_len].
    rewrite run_on_skip_header. unfold Ack_content at 1.
    erewrite run_on_bind by (by apply reads_v5_u16).
    rewrite (proj2 (Z.eqb_neq _ 0)) by done. rewrite blen_Ack_content in *. unfold Ack_len in *.
    destruct (Ack_compact a) eqn:Hc.
    { cbn. f_equal. symmetry. by apply Ack_compact_true. }
    pose proof (blen_props_pos (ack_properties a)). rewrite <- properties_size_eq in H.
    cbn [ps_len AckProperties_set] in H.
    rewrite (proj2 (Z.eqb_neq _ 2)), (proj2 (Z.ltb_ge _ 4)) by lia.
    change (?x :: ?y) with ([x] ++ y). erewrite run_on_bind by apply reads_v5_u8.
    rewrite <- (app_nil_r (props_bytes _)).
    erewrite run_on_bind.
    2: { refine (reads_props (ack_properties a) Hv _ _); [by destruct (ack_properties a)|].
         rewrite <- properties_size_eq. cbn [ps_len AckProperties_set]. lia. }
    unfold run_on. rewrite bind_run. unfold lift. rewrite Hcode. by destruct a.
  Qed.

Lemma Ack_read_safe h bytes :
    Forall is_u8 bytes → 0 ≤ header_len h ≤ blen bytes →
    match Ack_read h bytes with Ok a => Ack_valid a | Err _ => True | Panic => False end.
  Proof.
    intros Hb Hh. apply run_on_safe; [done..|]. safe_read. intros pkid Hp. safe_check.
    apply Z.eqb_neq in Heqb. assert (Hlift : ∀ n, reads_safe (lift (reason n)) (λ _, True)).
    { intros n. apply reads_safe_lift. specialize (Hreason n). by destruct (reason n). }
    safe_check; [by apply reads_safe_ret|].
    safe_read. intros n Hn. safe_check.
    - eapply reads_safe_bind; [apply Hlift|]. intros r _. by apply reads_safe_ret.
    - eapply reads_safe_bind; [exact (props_safe (P:=ReasonProperties))|]. intros o Ho.
      eapply reads_safe_bind; [apply Hlift|]. intros r _. by apply reads_safe_ret.
  Qed.

Lemma Ack_write_total a : total (Ack_write a).
  Proof.
    apply total_transactional. unfold Ack_write_inner. destruct (_ =? 0); [done|].
    apply (total_bind (put_u8 _)); [done|]. intros _. apply total_bind.
    { apply v5_total_length. rewrite <- blen_Ack_content. apply blen_nonneg. }
    intros n. apply (total_bind (put_u16 _)); [done|]. intros _.
    destruct (Ack_compact a); [done|]. apply (total_bind (put_u8 _)); [done|]. intros _.
    apply total_bind; [|done]. refine (total_props (ack_properties a) _). by destruct (ack_properties a).
  Qed.

Lemma Ack_write_appends a : appends (Ack_write a).
  Proof.
    apply appends_transactional. unfold Ack_write_inner. destruct (_ =? 0); [auto with appends|].
    repeat (apply appends_bind; [solve [auto with appends]|intros ?]).
    destruct (Ack_compact a); [auto with appends|].
    apply appends_bind; [auto with appends|]. intros _.
    apply appends_bind; [|auto with appends]. exact (appends_props (ack_properties a)).
  Qed.

Lemma Ack_laws_for size (Hs : ∀ a, size a = Ack_size a) (H8 : is_u8 first) :
    @WirePacketLaws (Ack R) (Ack_wire size).
  Proof.
    split; cbn [wire_read wire_write wire_size wire_byte1 wire_content wire_valid wire_exact
                wire_encodable Ack_wire frame_bytes]; unfold frame_bytes; cbn.
    - intros a. rewrite Hs. apply Ack_write_ok.
    - intros a hdr ? _. by apply Ack_read_ok.
    - intros a Hv. rewrite Hs, Ack_size_eq. unfold Ack_size'.
      rewrite blen_cons, blen_app, blen_remaining_length_bytes, blen_Ack_content. lia.
    - intros a [[? ?] Hv] Hb. unfold Ack_content in *. apply Forall_app.
      split; [by apply u16_bytes_u8|]. destruct (Ack_compact a); [constructor|].
      constructor; [done|]. apply props_bytes_u8; [done|].
      rewrite blen_app, blen_cons, blen_u16_bytes in Hb. lia.
    - intros h bytes ? ? ? ? ?. apply Ack_read_safe; [done|lia].
    - done.
    - intros a _. apply Ack_write_total.
    - apply Ack_write_appends.
  Qed.
End Ack.

(** * PUBACK *)

Inductive PubAckReason :=
| PAR_Success | PAR_NoMatchingSubscribers | PAR_UnspecifiedError | PAR_ImplementationSpecificError
| PAR_NotAuthorized | PAR_TopicNameInvalid | PAR_PacketIdentifierInUse | PAR_QuotaExceeded
| PAR_PayloadFormatInvalid.

#[global] Instance PubAckReason_eq_dec : EqDecision PubAckReason.
Proof. solve_decision. Defined.

(** [reason as u8]. *)
Definition PubAckReason_code (r : PubAckReason) : u8 :=
  match r with
  | PAR_Success => 0 | PAR_NoMatchingSubscribers => 16 | PAR_UnspecifiedError => 128
  | PAR_ImplementationSpecificError => 131 | PAR_NotAuthorized => 135
  | PAR_TopicNameInvalid => 144 | PAR_PacketIdentifierInUse => 145 | PAR_QuotaExceeded => 151
  | PAR_PayloadFormatInvalid => 153
  end.

Definition PubAckReason_try_from (value : u8) : outcome Error PubAckReason :=
  match value with
  | 0 => Ok PAR_Success
  | 16 => Ok PAR_NoMatchingSubscribers
  | 128 => Ok PAR_UnspecifiedError
  | 131 => Ok PAR_ImplementationSpecificError
  | 135 => Ok PAR_NotAuthorized
  | 144 => Ok PAR_TopicNameInvalid
  | 145 => Ok PAR_PacketIdentifierInUse
  | 151 => Ok PAR_QuotaExceeded
  | 153 => Ok PAR_PayloadFormatInvalid
  | value => Err (InvalidConnectReturnCode value)
  end.

Definition PubAck := Ack PubAckReason.
Definition PubAck_new : u16 → option PubAckProperties → PubAck := Ack_new PAR_Success.
Definition PubAck_len : PubAck → usize := Ack_len PAR_Success.
Definition PubAck_size : PubAck → usize := Ack_size PAR_Success.
Definition PubAck_read : FixedHeader → Bytes → outcome Error PubAck :=
  Ack_read PAR_Success PubAckReason_try_from.
Definition PubAck_write : PubAck → M Bytes Error usize :=
  Ack_write PAR_Success PubAckReason_code 0x40.

(** * PUBREC *)

Inductive PubRecReason :=
| PRR_Success | PRR_NoMatchingSubscribers | PRR_UnspecifiedError | PRR_ImplementationSpecificError
| PRR_NotAuthorized | PRR_TopicNameInvalid | PRR_PacketIdentifierInUse | PRR_QuotaExceeded
| PRR_PayloadFormatInvalid.

#[global] Instance PubRecReason_eq_dec : EqDecision PubRecReason.
Proof. solve_decision. Defined.

Definition PubRecReason_code (r : PubRecReason) : u8 :=
  match r with
  | PRR_Success => 0 | PRR_NoMatchingSubscribers => 16 | PRR_UnspecifiedError => 128
  | PRR_ImplementationSpecificError => 131 | PRR_NotAuthorized => 135
  | PRR_TopicNameInvalid => 144 | PRR_PacketIdentifierInUse => 145 | PRR_QuotaExceeded => 151
  | PRR_PayloadFormatInvalid => 153
  end.

Definition PubRecReason_try_from (value : u8) : outcome Error PubRecReason :=
  match value with
  | 0 => Ok PRR_Success
  | 16 => Ok PRR_NoMatchingSubscribers
  | 128 => Ok PRR_UnspecifiedError
  | 131 => Ok PRR_ImplementationSpecificError
  | 135 => Ok PRR_NotAuthorized
  | 144 => Ok PRR_TopicNameInvalid
  | 145 => Ok PRR_PacketIdentifierInUse
  | 151 => Ok PRR_QuotaExceeded
  | 153 => Ok PRR_PayloadFormatInvalid
  | value => Err (InvalidConnectReturnCode value)
  end.

Definition PubRec := Ack PubRecReason.
Definition PubRec_new : u16 → option PubRecProperties → PubRec := Ack_new PRR_Success.
Definition PubRec_len : PubRec → usize := Ack_len PRR_Success.
Definition PubRec_size : PubRec → usize := Ack_size' PRR_Success.
Definition PubRec_read : FixedHeader → Bytes → outcome Error PubRec :=
  Ack_read PRR_Success PubRecReason_try_from.
Definition PubRec_write : PubRec → M Bytes Error usize :=
  Ack_write PRR_Success PubRecReason_code 0x50.

(** * PUBREL *)

Inductive PubRelReason := PLR_Success | PLR_PacketIdentifierNotFound.

#[global] Instance PubRelReason_eq_dec : EqDecision PubRelReason.
Proof. solve_decision. Defined.

Definition PubRelReason_code (r : PubRelReason) : u8 :=
  match r with PLR_Success => 0 | PLR_PacketIdentifierNotFound => 146 end.

Definition PubRelReason_try_from (value : u8) : outcome Error PubRelReason :=
  match value with
  | 0 => Ok PLR_Success
  | 146 => Ok PLR_PacketIdentifierNotFound
  | value => Err (InvalidConnectReturnCode value)
  end.

Definition PubRel := Ack PubRelReason.
Definition PubRel_new : u16 → option PubRelProperties → PubRel := Ack_new PLR_Success.
Definition PubRel_len : PubRel → usize := Ack_len PLR_Success.
Definition PubRel_size : PubRel → usize := Ack_size PLR_Success.
Definition PubRel_read : FixedHeader → Bytes → outcome Error PubRel :=
  Ack_read PLR_Success PubRelReason_try_from.
Definition PubRel_write : PubRel → M Bytes Error usize :=
  Ack_write PLR_Success PubRelReason_code 0x62.

(** * PUBCOMP *)

Inductive PubCompReason := PCR_Success | PCR_PacketIdentifierNotFound.

#[global] Instance PubCompReason_eq_dec : EqDecision PubCompReason.
Proof. solve_decision. Defined.

Definition PubCompReason_code (r : PubCompReason) : u8 :=
  match r with PCR_Success => 0 | PCR_PacketIdentifierNotFound => 146 end.

Definition PubCompReason_try_from (value : u8) : outcome Error PubCompReason :=
  match value with
  | 0 => Ok PCR_Success
  | 146 => Ok PCR_PacketIdentifierNotFound
  | value => Err (InvalidConnectReturnCode value)
  end.

Definition PubComp := Ack PubCompReason.
Definition PubComp_new : u16 → option PubCompProperties → PubComp := Ack_new PCR_Success.
Definition PubComp_len : PubComp → usize := Ack_len PCR_Success.
Definition PubComp_size : PubComp → usize := Ack_size PCR_Success.
Definition PubComp_read : FixedHeader → Bytes → outcome Error PubComp :=
  Ack_read PCR_Success PubCompReason_try_from.
Definition PubComp_write : PubComp → M Bytes Error usize :=
  Ack_write PCR_Success PubCompReason_code 0x70.

(** * Instances *)

#[global] Instance PubAck_wire : WirePacket PubAck :=
  Ack_wire PAR_Success PubAckReason_try_from PubAckReason_code 0x40 PubAck_size.
#[global] Instance PubRec_wire : WirePacket PubRec :=
  Ack_wire PRR_Success PubRecReason_try_from PubRecReason_code 0x50 PubRec_size.
#[global] Instance PubRel_wire : WirePacket PubRel :=
  Ack_wire PLR_Success PubRelReason_try_from PubRelReason_code 0x62 PubRel_size.
#[global] Instance PubComp_wire : WirePacket PubComp :=
  Ack_wire PCR_Success PubCompReason_try_from PubCompReason_code 0x70 PubComp_size.

(** The laws of a packet of the common shape, from its two code tables. *)
Ltac solve_ack :=
  apply Ack_laws_for;
  [ by intros []
  | intros []; unfold is_u8; simpl; lia
  | intros n; cbv beta delta [PubAckReason_try_from PubRecReason_try_from PubRelReason_try_from
      PubCompReason_try_from]; by repeat case_match
  | intros a; first [done|symmetry; apply Ack_size_eq]
  | unfold is_u8; lia ].

#[global] Instance PubAck_laws : WirePacketLaws PubAck.
Proof. solve_ack. Qed.
#[global] Instance PubRec_laws : WirePacketLaws PubRec.
Proof. solve_ack. Qed.
#[global] Instance PubRel_laws : WirePacketLaws PubRel.
Proof. solve_ack. Qed.
#[global] Instance PubComp_laws : WirePacketLaws PubComp.
Proof. solve_ack. Qed.
