(* ===== verification/V5SubAck.v ===== *)
(** [mqttbytes-v5/src/v5/suback.rs] and [unsuback.rs]: the acknowledgements that carry one reason
    code per filter.  As in the sources, the two packets are one program over two enumerations. *)

From S2P Require Import Prelude.
From S2P Require Import Utf8.
From S2P Require Import Primitives.
From S2P Require Import CodecBase.
From S2P Require Import V5Base.
From S2P Require Import V5Properties.
From S2P Require Import V5Acks.

(** * Properties

    The fields and the writer are those of [V5Acks.ReasonProperties]; unlike the publish
    acknowledgements, [read] refuses a second reason string. *)

Definition SubAckProperties := ReasonProperties.
Definition UnsubAckProperties := ReasonProperties.

Definition SubAckProperties_step : prop_step ReasonProperties := λ property_type prop self,
  match property_type with
  | ReasonString =>
      if is_some (reason_string self) then mfail ProtocolError
      else
        reason ← read_mqtt_string;
        mret (mkReasonProperties (Some reason) (user_properties self), 2 + blen reason)
  | UserProperty =>
      '(key, value, n) ← read_user_property;
      mret (mkReasonProperties (reason_string self) (user_properties self ++ [(key, value)]), n)
  | _ => mfail (InvalidPropertyType prop)
  end.

Definition SubAckProperties_read : M Bytes Error (option ReasonProperties) :=
  read_properties SubAckProperties_step ReasonProperties_default.

Definition SubAckProperties_len : SubAckProperties → usize := ReasonProperties_len.
Definition SubAckProperties_write : SubAckProperties → M Bytes Error unit := ReasonProperties_write.
Definition UnsubAckProperties_len : UnsubAckProperties → usize := ReasonProperties_len.
Definition UnsubAckProperties_write : UnsubAckProperties → M Bytes Error unit := ReasonProperties_write.
Definition UnsubAckProperties_read : M Bytes Error (option UnsubAckProperties) :=
  SubAckProperties_read.

Definition SubAckProperties_set : PropertySet ReasonProperties := {|
  ps_read := SubAckProperties_read; ps_write := ReasonProperties_write;
  ps_len := ReasonProperties_len; ps_items := ReasonProperties_items;
  ps_valid := ReasonProperties_valid; ps_exact _ := True; ps_encodable _ := True |}.
#[local] Existing Instance SubAckProperties_set.

Lemma SubAckProperties_runs p :
  ReasonProperties_valid p →
  runs SubAckProperties_step ReasonProperties_default (ReasonProperties_items p) p.
Proof.
  destruct p as [r u]. intros [Hr Hu]. eapply runs_app.
  - by apply (runs_string _ (λ o, mkReasonProperties o [])).
  - by apply (runs_pairs _ (mkReasonProperties r)).
Qed.

Lemma SubAckProperties_step_safe :
  step_safe SubAckProperties_step ReasonProperties_items ReasonProperties_valid.
Proof.
  intros t b [r u] [Hr Hu]. destruct t; cbn [SubAckProperties_step]; try apply reads_safe_fail.
  - safe_check. safe_read. intros s Hs. safe_ret. solve_valid ReasonProperties_valid.
  - safe_read. intros [[k v] n] (? & ? & ?). safe_ret. solve_valid ReasonProperties_valid.
Qed.

Definition SubAckProperties_laws : PropertySetLaws ReasonProperties.
Proof.
  split; cbn.
  - apply ReasonProperties_len_ok.
  - apply ReasonProperties_write_ok.
  - intros p Hv _ Hne Hb. apply reads_properties; [done..|].
    rewrite <- (Z.add_0_l (blen _)). by apply runs_runs_at, SubAckProperties_runs.
  - apply reads_no_properties.
  - apply read_properties_safe; [apply SubAckProperties_step_safe|]. split; [done|constructor].
  - apply ReasonProperties_items_ok.
  - done.
  - intros p _. apply ReasonProperties_write_safe.
  - apply ReasonProperties_write_safe.
Qed.
#[local] Existing Instance SubAckProperties_laws.

(** * The packets *)

Record CodesAck (R : Type) := mkCodesAck {
  codes_pkid : u16;
  return_codes : list R;
  codes_properties : option ReasonProperties;
}.
Arguments mkCodesAck {R} _ _ _.
Arguments codes_pkid {R} _.
Arguments return_codes {R} _.
Arguments codes_properties {R} _.

Section CodesAck.
  Context {R : Type} (reason : u8 → outcome Error R) (code : R → u8) (first : u8).

Definition CodesAck_len (self : CodesAck R) : usize :=
    let len := 2 + blen (return_codes self) in
    len + properties_size ReasonProperties_len (codes_properties self).

Definition CodesAck_size (self : CodesAck R) : usize :=
    let len := CodesAck_len self in
    let remaining_len_size := len_len len in
    1 + remaining_len_size + len.

  (** The body of [while bytes.has_remaining()]. *)
Definition CodesAck_read_code : M Bytes Error R :=
    return_code ← read_u8;
    lift (reason return_code).

Definition CodesAck_read (fixed_header : FixedHeader) (bytes : Bytes)
      : outcome Error (CodesAck R) :=
    run_on bytes (
      advance (header_len fixed_header);;
      pkid ← read_u16;
      if pkid =? 0 then mfail PacketIdZero
      else
        properties ← SubAckProperties_read;
        bytes ← mget;
        if blen bytes =? 0 then mfail MalformedPacket
        else
          return_codes ← read_all CodesAck_read_code (length bytes) [];
          mret (mkCodesAck pkid return_codes properties)).

  (** [for &return_code in &self.return_codes { buffer.put_u8(code(return_code)); }]. *)
Fixpoint CodesAck_write_codes (return_codes : list R) : M Bytes Error unit :=
    match return_codes with
    | [] => mret tt
    | return_code :: rest => put_u8 (code return_code);; CodesAck_write_codes rest
    end.

Definition CodesAck_write_inner (self : CodesAck R) : M Bytes Error usize :=
    if codes_pkid self =? 0 then mfail PacketIdZero
    else if blen (return_codes self) =? 0 then mfail PayloadRequired
    else
      put_u8 first;;
      let remaining_len := CodesAck_len self in
      remaining_len_bytes ← write_remaining_length remaining_len;
      put_u16 (codes_pkid self);;
      write_properties ReasonProperties_write (codes_properties self);;
      CodesAck_write_codes (return_codes self);;
      mret (1 + remaining_len_bytes + remaining_len).

Definition CodesAck_write (self : CodesAck R) : M Bytes Error usize :=
    transactional_write (CodesAck_write_inner self).

  (** ** Laws *)

Definition CodesAck_content (a : CodesAck R) : Bytes :=
    u16_bytes (codes_pkid a) ++ props_bytes (codes_properties a) ++ map code (return_codes a).

Definition CodesAck_valid (a : CodesAck R) : Prop :=
    pkid_valid (codes_pkid a) ∧ props_valid (codes_properties a) ∧ return_codes a ≠ [] ∧
    Forall (λ r, reason (code r) = Ok r) (return_codes a).

Definition CodesAck_wire : WirePacket (CodesAck R) := {|
    wire_read := CodesAck_read; wire_write := CodesAck_write; wire_size := CodesAck_size;
    wire_byte1 _ := first; wire_content := CodesAck_content; wire_valid := CodesAck_valid;
    wire_exact _ := True; wire_encodable _ := True |}.

Lemma blen_CodesAck_content a : blen (CodesAck_content a) = CodesAck_len a.
  Proof.
    unfold CodesAck_content, CodesAck_len.
    rewrite !blen_app, blen_map, blen_u16_bytes, <- properties_size_eq.
    cbn [ps_len SubAckProperties_set]. lia.
  Qed.

  Context (Hcode8 : ∀ r, is_u8 (code r)).
  (** Everything read is read back from its code, and [reason] is total. *)
  Context (Hreason : ∀ n, match reason n with
                          | Ok r => reason (code r) = Ok r
                          | Err _ => True
                          | Panic => False
                          end).

Lemma writes_codes l : writes (CodesAck_write_codes l) (map code l) tt.
  Proof.
    induction l as [|r l IH]; [apply writes_ret|]. cbn [CodesAck_write_codes map].
    change (?x :: ?y) with ([x] ++ y). eapply writes_bind; [apply writes_put_u8|done].
  Qed.

Lemma map_code_concat l : map code l = concat (map (λ r, [code r]) l).
  Proof. by induction l as [|r l IH]; cbn; [|rewrite IH]. Qed.

Lemma reads_code r : reason (code r) = Ok r → reads CodesAck_read_code [code r] r.
  Proof.
    intros Hr. eapply (reads_bind _ _ [_] []); [apply reads_v5_u8|]. by apply reads_lift.
  Qed.

Lemma safe_code : reads_some CodesAck_read_code (λ r, reason (code r) = Ok r).
  Proof.
    eapply reads_some_bind; [apply reads_some_u8|]. intros b _. apply reads_safe_lift.
    specialize (Hreason b). by destruct (reason b).
  Qed.

Lemma CodesAck_read_safe h bytes :
    Forall is_u8 bytes → 0 ≤ header_len h ≤ blen bytes →
    match CodesAck_read h bytes with Ok a => CodesAck_valid a | Err _ => True | Panic => False end.
  Proof.
    intros Hb Hh. apply run_on_safe; [done..|]. safe_read. intros pkid Hp. safe_check.
    apply Z.eqb_neq in Heqb.
    eapply reads_safe_bind; [exact (props_safe (P:=ReasonProperties))|]. intros o Ho s Hs.
    apply wp_bind, wp_get. destruct (Z.eqb_spec (blen s) 0); [by apply wp_fail|].
    apply wp_bind. eapply wp_mono; [apply read_all_safe; [apply safe_code|done|done|constructor]| |done].
    intros l s1 (Hl & -> & He). apply wp_ret. split; [|split; [constructor|apply blen_nonneg]].
    repeat (split; try done). cbn. intros [-> _]%He. done.
  Qed.

Lemma CodesAck_write_ok a :
    CodesAck_valid a → blen (CodesAck_content a) ≤ MAX_REMAINING_LENGTH →
    writes (CodesAck_write a)
      (first :: remaining_length_bytes (blen (CodesAck_content a)) ++ CodesAck_content a)
      (CodesAck_size a).
  Proof.
    intros ([Hp Hne] & Hv & Hc & _) Hb. apply writes_transactional. unfold CodesAck_write_inner.
    rewrite (proj2 (Z.eqb_neq _ 0)) by done.
    rewrite (proj2 (Z.eqb_neq _ 0)) by (by intros ?%blen_zero).
    pose proof (blen_nonneg (CodesAck_content a)).
    rewrite blen_CodesAck_content in *. apply writes_v5_frame; [lia|].
    eapply writes_bind; [apply writes_put_u16|].
    eapply writes_bind; [refine (writes_props (codes_properties a) Hv _)|].
    - rewrite <- properties_size_eq. unfold CodesAck_len in Hb. cbn [ps_len SubAckProperties_set].
      pose proof (blen_nonneg (return_codes a)). lia.
    - eapply writes_last; [apply writes_codes|done].
  Qed.

Lemma CodesAck_read_ok a hdr :
    CodesAck_valid a → blen (CodesAck_content a) ≤ MAX_REMAINING_LENGTH →
    CodesAck_read {| byte1 := first; header_len := blen hdr;
                     remaining_len := blen (CodesAck_content a) |}
      (hdr ++ CodesAck_content a) = Ok a.
  Proof.
    destruct a as [pk l o]. intros ([Hp Hne] & Hv & Hc & Hl) Hb. unfold CodesAck_read.
    cbn [header_len remaining_len]. rewrite run_on_skip_header. unfold CodesAck_content at 1.
    cbn [codes_pkid return_codes codes_properties] in *.
    erewrite run_on_bind by (by apply reads_v5_u16).
    rewrite (proj2 (Z.eqb_neq _ 0)) by done. erewrite run_on_bind.
    2: { refine (reads_props o Hv _ _); [by destruct o|]. unfold CodesAck_content in Hb.
         cbn [codes_properties] in Hb. rewrite !blen_app in Hb.
         pose proof (blen_nonneg (map code l)). pose proof (blen_nonneg (u16_bytes pk)). cbn in *. lia. }
    unfold run_on. rewrite bind_run. cbn [mget].
    rewrite (proj2 (Z.eqb_neq _ 0)) by (intros ?%blen_zero%map_eq_nil; done).
    rewrite bind_run, map_code_concat, (read_all_ok _ (λ r, [code r]) l); [done| |].
    - eapply Forall_impl; [exact Hl|]. intros r Hr. split; [by apply reads_code|done].
    - by rewrite <- map_code_concat, length_map.
  Qed.

Lemma CodesAck_write_total a : total (CodesAck_write a).
  Proof.
    apply total_transactional. unfold CodesAck_write_inner. destruct (_ =? 0); [done|].
    destruct (_ =? 0); [done|]. apply (total_bind (put_u8 _)); [done|]. intros _. apply total_bind.
    { apply v5_total_length. rewrite <- blen_CodesAck_content. apply blen_nonneg. }
    intros n. apply (total_bind (put_u16 _)); [done|]. intros _. apply total_bind.
    { refine (total_props (codes_properties a) _). by destruct (codes_properties a). }
    intros _. apply total_bind; [|done]. intros s. by rewrite writes_codes.
  Qed.

Lemma CodesAck_write_appends a : appends (CodesAck_write a).
  Proof.
    apply appends_transactional. unfold CodesAck_write_inner. destruct (_ =? 0); [auto with appends|].
    destruct (_ =? 0); [auto with appends|].
    repeat (apply appends_bind; [solve [auto with appends]|intros ?]).
    apply appends_bind; [exact (appends_props (codes_properties a))|]. intros _.
    apply appends_bind; [|auto with appends].
    intros s. exists (map code (return_codes a)). by rewrite writes_codes.
  Qed.

Lemma CodesAck_laws_for (H8 : is_u8 first) : @WirePacketLaws (CodesAck R) CodesAck_wire.
  Proof.
    split; unfold frame_bytes; cbn.
    - apply CodesAck_write_ok.
    - intros a hdr ? _. by apply CodesAck_read_ok.
    - intros a Hv. unfold CodesAck_size.
      rewrite blen_cons, blen_app, blen_remaining_length_bytes, blen_CodesAck_content. lia.
    - intros a ([? ?] & Hv & _) Hb. unfold CodesAck_content in *. rewrite !blen_app in Hb.
      pose proof (blen_nonneg (map code (return_codes a))).
      pose proof (blen_nonneg (u16_bytes (codes_pkid a))).
      apply Forall_app. split; [by apply u16_bytes_u8|]. apply Forall_app. split.
      + apply props_bytes_u8; [done|lia].
      + apply Forall_map, Forall_true. done.
    - intros h bytes ? ? ? ? ?. apply CodesAck_read_safe; [done|lia].
    - done.
    - intros a _. apply CodesAck_write_total.
    - apply CodesAck_write_appends.
  Qed.
End CodesAck.

(** * SUBACK *)

Inductive SubscribeReasonCode :=
| SRC_Success (q : QoS) | SRC_Failure | SRC_Unspecified | SRC_ImplementationSpecific
| SRC_NotAuthorized | SRC_TopicFilterInvalid | SRC_PkidInUse | SRC_QuotaExceeded
| SRC_SharedSubscriptionsNotSupported | SRC_SubscriptionIdNotSupported
| SRC_WildcardSubscriptionsNotSupported.

Definition SubscribeReasonCode_code (value : SubscribeReasonCode) : u8 :=
  match value with
  | SRC_Success qos => QoS_as_u8 qos
  | SRC_Failure | SRC_Unspecified => 0x80
  | SRC_ImplementationSpecific => 131
  | SRC_NotAuthorized => 135
  | SRC_TopicFilterInvalid => 143
  | SRC_PkidInUse => 145
  | SRC_QuotaExceeded => 151
  | SRC_SharedSubscriptionsNotSupported => 158
  | SRC_SubscriptionIdNotSupported => 161
  | SRC_WildcardSubscriptionsNotSupported => 162
  end.

Definition SubscribeReasonCode_try_from (value : u8) : outcome Error SubscribeReasonCode :=
  match value with
  | 0 => Ok (SRC_Success AtMostOnce)
  | 1 => Ok (SRC_Success AtLeastOnce)
  | 2 => Ok (SRC_Success ExactlyOnce)
  | 128 => Ok SRC_Unspecified
  | 131 => Ok SRC_ImplementationSpecific
  | 135 => Ok SRC_NotAuthorized
  | 143 => Ok SRC_TopicFilterInvalid
  | 145 => Ok SRC_PkidInUse
  | 151 => Ok SRC_QuotaExceeded
  | 158 => Ok SRC_SharedSubscriptionsNotSupported
  | 161 => Ok SRC_SubscriptionIdNotSupported
  | 162 => Ok SRC_WildcardSubscriptionsNotSupported
  | value => Err (InvalidSubscribeReasonCode value)
  end.

Definition SubAck := CodesAck SubscribeReasonCode.
Definition SubAck_len : SubAck → usize := CodesAck_len.
Definition SubAck_size : SubAck → usize := CodesAck_size.
Definition SubAck_read : FixedHeader → Bytes → outcome Error SubAck :=
  CodesAck_read SubscribeReasonCode_try_from.
Definition SubAck_write : SubAck → M Bytes Error usize :=
  CodesAck_write SubscribeReasonCode_code 0x90.

(** * UNSUBACK *)

Inductive UnsubAckReason :=
| UAR_Success | UAR_NoSubscriptionExisted | UAR_UnspecifiedError | UAR_ImplementationSpecificError
| UAR_NotAuthorized | UAR_TopicFilterInvalid | UAR_PacketIdentifierInUse.

Definition UnsubAckReason_code (reason : UnsubAckReason) : u8 :=
  match reason with
  | UAR_Success => 0x00
  | UAR_NoSubscriptionExisted => 0x11
  | UAR_UnspecifiedError => 0x80
  | UAR_ImplementationSpecificError => 0x83
  | UAR_NotAuthorized => 0x87
  | UAR_TopicFilterInvalid => 0x8F
  | UAR_PacketIdentifierInUse => 0x91
  end.

Definition UnsubAckReason_try_from (value : u8) : outcome Error UnsubAckReason :=
  match value with
  | 0x00 => Ok UAR_Success
  | 0x11 => Ok UAR_NoSubscriptionExisted
  | 0x80 => Ok UAR_UnspecifiedError
  | 0x83 => Ok UAR_ImplementationSpecificError
  | 0x87 => Ok UAR_NotAuthorized
  | 0x8F => Ok UAR_TopicFilterInvalid
  | 0x91 => Ok UAR_PacketIdentifierInUse
  | value => Err (InvalidSubscribeReasonCode value)
  end.

Definition UnsubAck := CodesAck UnsubAckReason.
Definition UnsubAck_len : UnsubAck → usize := CodesAck_len.
Definition UnsubAck_size : UnsubAck → usize := CodesAck_size.
Definition UnsubAck_read : FixedHeader → Bytes → outcome Error UnsubAck :=
  CodesAck_read UnsubAckReason_try_from.
Definition UnsubAck_write : UnsubAck → M Bytes Error usize :=
  CodesAck_write UnsubAckReason_code 0xB0.

(** * Instances *)

#[global] Instance SubAck_wire : WirePacket SubAck :=
  CodesAck_wire SubscribeReasonCode_try_from SubscribeReasonCode_code 0x90.
#[global] Instance UnsubAck_wire : WirePacket UnsubAck :=
  CodesAck_wire UnsubAckReason_try_from UnsubAckReason_code 0xB0.

#[global] Instance SubAck_laws : WirePacketLaws SubAck.
Proof.
  apply CodesAck_laws_for.
  - intros [[]| | | | | | | | | |]; unfold is_u8; simpl; lia.
  - intros n. destruct n as [|n|n]; try done. by do 8 (destruct n as [n|n|]; try done).
  - unfold is_u8; lia.
Qed.

#[global] Instance UnsubAck_laws : WirePacketLaws UnsubAck.
Proof.
  apply CodesAck_laws_for.
  - intros []; unfold is_u8; simpl; lia.
  - intros n. destruct n as [|n|n]; try done. by do 8 (destruct n as [n|n|]; try done).
  - unfold is_u8; lia.
Qed.
