(* ===== verification/V5Subscribe.v ===== *)
(** [mqttbytes-v5/src/v5/subscribe.rs] and [unsubscribe.rs]. *)

From S2P Require Import Prelude.
From S2P Require Import Utf8.
From S2P Require Import Primitives.
From S2P Require Import CodecBase.
From S2P Require Import V5Base.
From S2P Require Import V5Properties.

(** * SUBSCRIBE properties *)

Record SubscribeProperties := mkSubscribeProperties {
  sub_id : option usize;
  sub_user_properties : pairs;
}.

Definition SubscribeProperties_len (self : SubscribeProperties) : usize :=
  let len := 0 in
  let len := add_some len (sub_id self) (λ id, 1 + len_len id) in
  user_properties_len len (sub_user_properties self).

Definition SubscribeProperties_step : prop_step SubscribeProperties := λ property_type prop self,
  match property_type with
  | SubscriptionIdentifier =>
      bytes ← mget;
      '(id_len, sub_id) ← lift (length5 bytes);
      if sub_id =? 0 then mfail ProtocolError
      else
        advance id_len;;
        mret (mkSubscribeProperties (Some sub_id) (sub_user_properties self), id_len)
  | UserProperty =>
      '(key, value, n) ← read_user_property;
      mret (mkSubscribeProperties (sub_id self) (sub_user_properties self ++ [(key, value)]), n)
  | _ => mfail (InvalidPropertyType prop)
  end.

Definition SubscribeProperties_read : M Bytes Error (option SubscribeProperties) :=
  read_properties SubscribeProperties_step (mkSubscribeProperties None []).

Definition SubscribeProperties_write_inner (self : SubscribeProperties) : M Bytes Error unit :=
  let len := SubscribeProperties_len self in
  _ ← write_remaining_length len;
  if_some (sub_id self) (λ id,
    if id =? 0 then mfail ProtocolError
    else
      put_u8 (PropertyType_as_u8 SubscriptionIdentifier);;
      _ ← write_remaining_length id;
      mret tt);;
  write_user_properties (sub_user_properties self).

Definition SubscribeProperties_write (self : SubscribeProperties) : M Bytes Error unit :=
  transactional_write (SubscribeProperties_write_inner self).

(** * SUBSCRIBE *)

Inductive RetainForwardRule := OnEverySubscribe | OnNewSubscribe | Never.

Record SubscribeFilter := mkSubscribeFilter {
  path : Bytes;
  filter_qos : QoS;
  nolocal : bool;
  preserve_retain : bool;
  retain_forward_rule : RetainForwardRule;
}.

Record Subscribe := mkSubscribe {
  subscribe_pkid : u16;
  filters : list SubscribeFilter;
  subscribe_properties : option SubscribeProperties;
}.

Definition Subscribe_new (filter : SubscribeFilter) (properties : option SubscribeProperties)
    : Subscribe := mkSubscribe 0 [filter] properties.

Definition Subscribe_new_many (filters : list SubscribeFilter)
    (properties : option SubscribeProperties) : Subscribe := mkSubscribe 0 filters properties.

Definition SubscribeFilter_new (topic : Bytes) (qos : QoS) : SubscribeFilter :=
  mkSubscribeFilter topic qos false false OnEverySubscribe.

Definition SubscribeFilter_len (self : SubscribeFilter) : usize := 2 + blen (path self) + 1.

(** The body of [while bytes.has_remaining()] in [SubscribeFilter::read]. *)
Definition SubscribeFilter_read_one : M Bytes Error SubscribeFilter :=
  path ← read_mqtt_string;
  options ← read_u8;
  if negb (Z.land options 0xC0 =? 0) then mfail IncorrectPacketFormat
  else
    let requested_qos := Z.land options 3 in
    let nolocal := Z.land (Z.shiftr options 2) 1 in
    let nolocal := negb (nolocal =? 0) in
    let preserve_retain := Z.land (Z.shiftr options 3) 1 in
    let preserve_retain := negb (preserve_retain =? 0) in
    let retain_forward_rule := Z.land (Z.shiftr options 4) 3 in
    retain_forward_rule ← lift match retain_forward_rule with
                               | 0 => Ok OnEverySubscribe
                               | 1 => Ok OnNewSubscribe
                               | 2 => Ok Never
                               | r => Err (InvalidRetainForwardRule r)
                               end;
    q ← lift (qos requested_qos);
    mret (mkSubscribeFilter path q nolocal preserve_retain retain_forward_rule).

Definition SubscribeFilter_read : M Bytes Error (list SubscribeFilter) :=
  bytes ← mget;
  read_all SubscribeFilter_read_one (length bytes) [].

(** The options byte of [SubscribeFilter::write]. *)
Definition SubscribeFilter_options (self : SubscribeFilter) : u8 :=
  let options := 0 in
  let options := Z.lor options (QoS_as_u8 (filter_qos self)) in
  let options := if nolocal self then Z.lor options 4 else options in
  let options := if preserve_retain self then Z.lor options 8 else options in
  Z.lor options match retain_forward_rule self with
                | OnEverySubscribe => 0
                | OnNewSubscribe => 0x10
                | Never => 0x20
                end.

Definition SubscribeFilter_write (self : SubscribeFilter) : M Bytes Error unit :=
  let options := SubscribeFilter_options self in
  write_mqtt_string (path self);;
  put_u8 options.

Definition Subscribe_len (self : Subscribe) : usize :=
  let len := 2 + fold_left (λ s t, s + SubscribeFilter_len t) (filters self) 0 in
  len + properties_size SubscribeProperties_len (subscribe_properties self).

Definition Subscribe_size (self : Subscribe) : usize :=
  let len := Subscribe_len self in
  let remaining_len_size := len_len len in
  1 + remaining_len_size + len.

Definition Subscribe_read (fixed_header : FixedHeader) (bytes : Bytes) : outcome Error Subscribe :=
  run_on bytes (
    advance (header_len fixed_header);;
    pkid ← read_u16;
    if pkid =? 0 then mfail PacketIdZero
    else
      properties ← SubscribeProperties_read;
      filters ← SubscribeFilter_read;
      if blen filters =? 0 then mfail EmptySubscription
      else mret (mkSubscribe pkid filters properties)).

(** [for f in &self.filters { f.write(buffer)?; }]. *)
Fixpoint Subscribe_write_filters (filters : list SubscribeFilter) : M Bytes Error unit :=
  match filters with
  | [] => mret tt
  | f :: rest => SubscribeFilter_write f;; Subscribe_write_filters rest
  end.

Definition Subscribe_write_inner (self : Subscribe) : M Bytes Error usize :=
  if subscribe_pkid self =? 0 then mfail PacketIdZero
  else if blen (filters self) =? 0 then mfail EmptySubscription
  else
    put_u8 0x82;;
    let remaining_len := Subscribe_len self in
    remaining_len_bytes ← write_remaining_length remaining_len;
    put_u16 (subscribe_pkid self);;
    write_properties SubscribeProperties_write (subscribe_properties self);;
    Subscribe_write_filters (filters self);;
    mret (1 + remaining_len_bytes + remaining_len).

Definition Subscribe_write (self : Subscribe) : M Bytes Error usize :=
  transactional_write (Subscribe_write_inner self).

(** * UNSUBSCRIBE *)

Record UnsubscribeProperties := mkUnsubscribeProperties { unsub_user_properties : pairs }.

Definition UnsubscribeProperties_len (self : UnsubscribeProperties) : usize :=
  user_properties_len 0 (unsub_user_properties self).

Definition UnsubscribeProperties_step : prop_step UnsubscribeProperties := λ property_type prop self,
  match property_type with
  | UserProperty =>
      '(key, value, n) ← read_user_property;
      mret (mkUnsubscribeProperties (unsub_user_properties self ++ [(key, value)]), n)
  | _ => mfail (InvalidPropertyType prop)
  end.

Definition UnsubscribeProperties_read : M Bytes Error (option UnsubscribeProperties) :=
  read_properties UnsubscribeProperties_step (mkUnsubscribeProperties []).

Definition UnsubscribeProperties_write_inner (self : UnsubscribeProperties) : M Bytes Error unit :=
  let len := UnsubscribeProperties_len self in
  _ ← write_remaining_length len;
  write_user_properties (unsub_user_properties self).

Definition UnsubscribeProperties_write (self : UnsubscribeProperties) : M Bytes Error unit :=
  transactional_write (UnsubscribeProperties_write_inner self).

Record Unsubscribe := mkUnsubscribe {
  unsubscribe_pkid : u16;
  unsubscribe_filters : list Bytes;
  unsubscribe_properties : option UnsubscribeProperties;
}.

Definition Unsubscribe_new (filter : Bytes) (properties : option UnsubscribeProperties)
    : Unsubscribe := mkUnsubscribe 0 [filter] properties.

Definition Unsubscribe_len (self : Unsubscribe) : usize :=
  let len := 2 + fold_left (λ s t, 2 + s + blen t) (unsubscribe_filters self) 0 in
  len + properties_size UnsubscribeProperties_len (unsubscribe_properties self).

Definition Unsubscribe_size (self : Unsubscribe) : usize :=
  let len := Unsubscribe_len self in
  let remaining_len_size := len_len len in
  1 + remaining_len_size + len.

Definition Unsubscribe_read (fixed_header : FixedHeader) (bytes : Bytes)
    : outcome Error Unsubscribe :=
  run_on bytes (
    advance (header_len fixed_header);;
    pkid ← read_u16;
    if pkid =? 0 then mfail PacketIdZero
    else
      properties ← UnsubscribeProperties_read;
      bytes ← mget;
      filters ← read_all read_mqtt_string (length bytes) [];
      if blen filters =? 0 then mfail EmptyUnsubscription
      else mret (mkUnsubscribe pkid filters properties)).

Fixpoint Unsubscribe_write_filters (filters : list Bytes) : M Bytes Error unit :=
  match filters with
  | [] => mret tt
  | filter :: rest => write_mqtt_string filter;; Unsubscribe_write_filters rest
  end.

Definition Unsubscribe_write_inner (self : Unsubscribe) : M Bytes Error usize :=
  if unsubscribe_pkid self =? 0 then mfail PacketIdZero
  else if blen (unsubscribe_filters self) =? 0 then mfail EmptyUnsubscription
  else
    put_u8 0xA2;;
    let remaining_len := Unsubscribe_len self in
    remaining_len_bytes ← write_remaining_length remaining_len;
    put_u16 (unsubscribe_pkid self);;
    write_properties UnsubscribeProperties_write (unsubscribe_properties self);;
    Unsubscribe_write_filters (unsubscribe_filters self);;
    mret (1 + remaining_len_bytes + remaining_len).

Definition Unsubscribe_write (self : Unsubscribe) : M Bytes Error usize :=
  transactional_write (Unsubscribe_write_inner self).

(** * Laws of the properties *)

Definition SubscribeProperties_items (p : SubscribeProperties) : list item :=
  opt_item SubscriptionIdentifier V_int (sub_id p) ++ pair_items (sub_user_properties p).

Definition SubscribeProperties_valid (p : SubscribeProperties) : Prop :=
  opt_ok (λ id, 0 < id ≤ MAX_REMAINING_LENGTH) (sub_id p) ∧ pairs_valid (sub_user_properties p).

#[global] Instance SubscribeProperties_set : PropertySet SubscribeProperties := {|
  ps_read := SubscribeProperties_read; ps_write := SubscribeProperties_write;
  ps_len := SubscribeProperties_len; ps_items := SubscribeProperties_items;
  ps_valid := SubscribeProperties_valid; ps_exact _ := True;
  ps_encodable p := opt_ok (λ id, 0 ≤ id) (sub_id p) |}.

Lemma SubscribeProperties_len_ok p :
  SubscribeProperties_len p = blen (items_bytes (SubscribeProperties_items p)).
Proof. unfold SubscribeProperties_len, SubscribeProperties_items. solve_len. Qed.

(** The arm of the subscription identifier, in terms of [read_length]. *)
Lemma subscription_id_arm self :
  SubscribeProperties_step SubscriptionIdentifier (PropertyType_as_u8 SubscriptionIdentifier) self =
  (bytes ← mget;
   '(id_len, sub_id) ← lift (length5 bytes);
   if sub_id =? 0 then mfail ProtocolError
   else
     advance id_len;;
     mret (mkSubscribeProperties (Some sub_id) (sub_user_properties self), id_len)).
Proof. done. Qed.

Lemma SubscribeProperties_runs p :
  SubscribeProperties_valid p →
  runs SubscribeProperties_step (mkSubscribeProperties None []) (SubscribeProperties_items p) p.
Proof.
  destruct p as [i u]. intros [Hi Hu]. eapply runs_app.
  - apply (runs_opt _ (λ o, mkSubscribeProperties o [])). intros x Hx rest.
    specialize (Hi x Hx). cbn beta in Hi. cbn [fst snd value_bytes].
    rewrite subscription_id_arm, bind_run. cbn [mget]. rewrite bind_run. unfold lift, length5.
    rewrite length_remaining_length_bytes by lia. cbn [outcome_map_err].
    rewrite (proj2 (Z.eqb_neq _ 0)) by lia.
    by rewrite bind_run, <- (blen_remaining_length_bytes x), reads_advance.
  - by apply (runs_pairs _ (mkSubscribeProperties i)).
Qed.

Lemma SubscribeProperties_step_safe :
  step_safe SubscribeProperties_step SubscribeProperties_items SubscribeProperties_valid.
Proof.
  intros t b [i u] [Hi Hu]. destruct t; cbn [SubscribeProperties_step]; try apply reads_safe_fail.
  - intros s Hs. apply wp_bind, wp_get, wp_bind, wp_lift. unfold length5.
    pose proof (length_loop_no_panic s 0 0 0) as Hp. fold (length_ s) in Hp.
    destruct (length_ s) as [[k n]|e|] eqn:Hl; [|done|done]. cbn [outcome_map_err].
    apply length_ok in Hl as (Hk & Hn & Hle & _); [|done].
    destruct (Z.eqb_spec n 0); [by apply wp_fail|].
    apply wp_bind. eapply wp_mono; [apply (wp_advance _ _ (λ _ _, False)); lia| |done].
    intros ? s1 Hc. apply consumed_blen in Hc as Hb. apply consumed_u8 in Hc; [|done].
    apply wp_ret. split; [|split; [done|lia]]. cbn [fst snd].
    split; [|split; [lia|solve_nonempty]]. split; [|done]. intros ? [= <-]. lia.
  - safe_read. intros [[k v] n] (? & ? & ?). safe_ret. solve_valid SubscribeProperties_valid.
Qed.

#[global] Instance SubscribeProperties_laws : PropertySetLaws SubscribeProperties.
Proof.
  split; cbn.
  - apply SubscribeProperties_len_ok.
  - intros p [Hi Hu] Hb. apply writes_property_list; [apply SubscribeProperties_len_ok|done|].
    apply writes_items_then; [|by apply writes_user_properties].
    apply writes_if_some. intros x Hx. specialize (Hi x Hx). cbn beta in Hi.
    rewrite (proj2 (Z.eqb_neq _ 0)) by lia. apply writes_item.
    eapply writes_last; [apply writes_v5_length; lia|done].
  - intros p Hv _ Hne Hb. apply reads_properties; [done..|].
    rewrite <- (Z.add_0_l (blen _)). by apply runs_runs_at, SubscribeProperties_runs.
  - apply reads_no_properties.
  - apply read_properties_safe; [apply SubscribeProperties_step_safe|]. split; [done|constructor].
  - intros p [Hi Hu]. apply Forall_app. split; [|by apply Forall_pair_items].
    apply Forall_opt_item. intros x Hx. specialize (Hi x Hx). cbn in *. lia.
  - intros p [Hi _] x Hx. specialize (Hi x Hx). cbn in Hi. lia.
  - intros p He. apply total_transactional, total_bind; [|intros _; apply total_bind].
    + apply v5_total_length. rewrite SubscribeProperties_len_ok. apply blen_nonneg.
    + apply total_if_some. intros x Hx. destruct (x =? 0); [done|].
      apply (total_bind (put_u8 _)); [done|]. intros _.
      apply total_bind; [|done]. apply v5_total_length. by apply He.
    + intros _. apply total_user_properties.
  - intros p. apply appends_transactional. unfold SubscribeProperties_write_inner.
    apply appends_bind; [auto with appends|]. intros _.
    apply appends_bind; [|auto with appends]. apply appends_if_some. intros x.
    destruct (x =? 0); auto 10 with appends.
Qed.

Definition UnsubscribeProperties_items (p : UnsubscribeProperties) : list item :=
  pair_items (unsub_user_properties p).

#[global] Instance UnsubscribeProperties_set : PropertySet UnsubscribeProperties := {|
  ps_read := UnsubscribeProperties_read; ps_write := UnsubscribeProperties_write;
  ps_len := UnsubscribeProperties_len; ps_items := UnsubscribeProperties_items;
  ps_valid p := pairs_valid (unsub_user_properties p); ps_exact _ := True;
  ps_encodable p := True |}.

Lemma UnsubscribeProperties_len_ok p :
  UnsubscribeProperties_len p = blen (items_bytes (UnsubscribeProperties_items p)).
Proof. apply user_properties_len_items. Qed.

#[global] Instance UnsubscribeProperties_laws : PropertySetLaws UnsubscribeProperties.
Proof.
  split; cbn.
  - apply UnsubscribeProperties_len_ok.
  - intros p Hu Hb. apply writes_property_list; [apply UnsubscribeProperties_len_ok|done|].
    by apply writes_user_properties.
  - intros [u] Hv _ Hne Hb. apply reads_properties; [done..|].
    rewrite <- (Z.add_0_l (blen _)). apply runs_runs_at.
    by apply (runs_pairs _ mkUnsubscribeProperties).
  - apply reads_no_properties.
  - apply (read_properties_safe _ _ UnsubscribeProperties_items (λ p, pairs_valid (unsub_user_properties p)));
      [|constructor].
    intros t b [u] Hu. destruct t; cbn [UnsubscribeProperties_step]; try apply reads_safe_fail.
    safe_read. intros [[k v] n] (? & ? & ?). safe_ret. by apply pairs_valid_snoc.
  - intros p Hu. by apply Forall_pair_items.
  - done.
  - intros p _. apply total_transactional, total_bind; [|intros _; apply total_user_properties].
    apply v5_total_length. rewrite UnsubscribeProperties_len_ok. apply blen_nonneg.
  - intros p. apply appends_transactional. unfold UnsubscribeProperties_write_inner.
    auto with appends.
Qed.

(** * Laws of SUBSCRIBE *)

Definition filter_bytes (f : SubscribeFilter) : Bytes :=
  field_bytes (path f) ++ [SubscribeFilter_options f].

Definition Subscribe_content (s : Subscribe) : Bytes :=
  u16_bytes (subscribe_pkid s) ++ props_bytes (subscribe_properties s) ++
  concat (map filter_bytes (filters s)).

Definition filter_valid (f : SubscribeFilter) : Prop := mqtt_string (path f).

Definition Subscribe_valid (s : Subscribe) : Prop :=
  pkid_valid (subscribe_pkid s) ∧ props_valid (subscribe_properties s) ∧ filters s ≠ [] ∧
  Forall filter_valid (filters s).

#[global] Instance Subscribe_wire : WirePacket Subscribe := {|
  wire_read := Subscribe_read; wire_write := Subscribe_write; wire_size := Subscribe_size;
  wire_byte1 _ := 0x82; wire_content := Subscribe_content; wire_valid := Subscribe_valid;
  wire_exact _ := True; wire_encodable s := props_encodable (subscribe_properties s) |}.

Lemma blen_filter5 f : SubscribeFilter_len f = blen (filter_bytes f).
Proof. unfold SubscribeFilter_len, filter_bytes. autorewrite with blen. lia. Qed.

Lemma blen_Subscribe5 s : blen (Subscribe_content s) = Subscribe_len s.
Proof.
  unfold Subscribe_content, Subscribe_len.
  rewrite (fold_left_blen _ filter_bytes) by apply blen_filter5.
  rewrite !blen_app, blen_u16_bytes, <- properties_size_eq. cbn [ps_len SubscribeProperties_set]. lia.
Qed.

(** The options byte decodes to the fields it was built from. *)
Lemma options5_decode f :
  let o := SubscribeFilter_options f in
  (Z.land o 0xC0 =? 0) = true ∧ qos (Z.land o 3) = Ok (filter_qos f) ∧
  negb (Z.land (Z.shiftr o 2) 1 =? 0) = nolocal f ∧
  negb (Z.land (Z.shiftr o 3) 1 =? 0) = preserve_retain f ∧
  Z.land (Z.shiftr o 4) 3 = match retain_forward_rule f with
                            | OnEverySubscribe => 0 | OnNewSubscribe => 1 | Never => 2 end ∧
  is_u8 o.
Proof. unfold is_u8. by destruct f as [? [] [] [] []]. Qed.

Lemma reads_filter5 f :
  filter_valid f → reads SubscribeFilter_read_one (filter_bytes f) f ∧ filter_bytes f ≠ [].
Proof.
  intros Hf. split; [|by destruct f].
  unfold SubscribeFilter_read_one, filter_bytes.
  eapply reads_bind; [by apply reads_v5_string|]. rewrite <- (app_nil_r [_]).
  eapply reads_bind; [apply reads_v5_u8|]. cbv zeta.
  destruct (options5_decode f) as (-> & Hq & -> & -> & -> & _). cbn [negb].
  eapply reads_bind_nil with (a := retain_forward_rule f).
  { apply reads_lift. by destruct (retain_forward_rule f). }
  eapply reads_bind_nil; [by apply reads_lift|]. destruct f. apply reads_ret.
Qed.

Lemma safe_filter5 : reads_some SubscribeFilter_read_one filter_valid.
Proof.
  eapply reads_some_bind; [apply reads_some_string|]. intros p Hp.
  safe_read. intros o _. safe_check. cbv zeta.
  eapply reads_safe_bind with (P := λ _, True).
  { apply reads_safe_lift. by repeat case_match. }
  intros r _. safe_read. intros q _. by apply reads_safe_ret.
Qed.

Lemma writes_filters5 fs :
  Forall filter_valid fs → writes (Subscribe_write_filters fs) (concat (map filter_bytes fs)) tt.
Proof.
  induction 1 as [|f fs Hf _ IH]; [apply writes_ret|].
  cbn [Subscribe_write_filters map concat]. eapply writes_bind; [|exact IH].
  eapply writes_bind; [by apply writes_v5_string|]. apply writes_put_u8.
Qed.

(** The safety of the filter list: it is read to the end of the packet. *)
Lemma list_packet_safe {A B} (one : M Bytes Error A) (P : A → Prop) (mk : list A → B) e (Q : B → Prop) :
  reads_some one P → (∀ l, l ≠ [] → Forall P l → Q (mk l)) →
  reads_safe (bytes ← mget;
              l ← read_all one (length bytes) [];
              if blen l =? 0 then mfail e else mret (mk l)) Q.
Proof.
  intros Hone HQ s Hs. apply wp_bind, wp_get, wp_bind.
  eapply wp_mono; [apply read_all_safe; [done|done|done|constructor]| |done].
  intros l s1 (Hl & -> & _). destruct (Z.eqb_spec (blen l) 0) as [|Hne]; [by apply wp_fail|].
  apply wp_ret. split; [|split; [constructor|apply blen_nonneg]]. apply HQ; [|done].
  by intros ->.
Qed.

#[global] Instance Subscribe_laws : WirePacketLaws Subscribe.
Proof.
  split; unfold frame_bytes; cbn.
  - intros a ([Hp Hne] & Hv & Hf & Hfs) Hb. apply writes_transactional.
    unfold Subscribe_write_inner. rewrite (proj2 (Z.eqb_neq _ 0)) by done.
    rewrite (proj2 (Z.eqb_neq _ 0)) by (by intros ?%blen_zero).
    pose proof (blen_nonneg (Subscribe_content a)). unfold Subscribe_size.
    rewrite <- (blen_Subscribe5 a). apply writes_v5_frame; [lia|].
    eapply writes_bind; [apply writes_put_u16|].
    eapply writes_bind; [refine (writes_props (subscribe_properties a) Hv _)|].
    + unfold Subscribe_content in Hb. rewrite !blen_app in Hb.
      pose proof (blen_nonneg (concat (map filter_bytes (filters a)))).
      rewrite blen_u16_bytes in Hb. lia.
    + eapply writes_last; [by apply writes_filters5|done].
  - intros [pk fs o] hdr ([Hp Hne] & Hv & Hf & Hfs) _ Hb. unfold Subscribe_read.
    cbn [header_len]. rewrite run_on_skip_header. unfold Subscribe_content in *.
    cbn [subscribe_pkid filters subscribe_properties] in *.
    erewrite run_on_bind by (by apply reads_v5_u16).
    rewrite (proj2 (Z.eqb_neq _ 0)) by done. erewrite run_on_bind.
    2: { refine (reads_props o Hv _ _); [by destruct o|]. rewrite !blen_app, blen_u16_bytes in Hb.
         pose proof (blen_nonneg (concat (map filter_bytes fs))). lia. }
    unfold run_on, SubscribeFilter_read. rewrite !bind_run. cbn [mget].
    rewrite (read_all_ok _ filter_bytes fs).
    + cbn [app]. by rewrite (proj2 (Z.eqb_neq _ 0)) by (by intros ?%blen_zero).
    + eapply Forall_impl; [exact Hfs|]. intros f Hv'. by apply reads_filter5.
    + apply length_concat_map_ge. done.
  - intros a Hv. unfold Subscribe_size.
    rewrite blen_cons, blen_app, blen_remaining_length_bytes, blen_Subscribe5. lia.
  - intros a ([? ?] & Hv & _ & Hfs) Hb. unfold Subscribe_content in *. rewrite !blen_app in Hb.
    pose proof (blen_nonneg (concat (map filter_bytes (filters a)))).
    rewrite blen_u16_bytes in Hb. apply Forall_app. split; [by apply u16_bytes_u8|].
    apply Forall_app. split; [apply props_bytes_u8; [done|lia]|].
    apply Forall_concat, Forall_map. eapply Forall_impl; [exact Hfs|]. intros f Hf.
    apply Forall_app. split; [apply field_bytes_u8, Hf|].
    constructor; [apply options5_decode|constructor].
  - intros h bytes ? ? ? ? ?. apply run_on_safe; [done|lia|]. safe_read. intros pk Hp. safe_check.
    apply Z.eqb_neq in Heqb.
    eapply reads_safe_bind; [exact (props_safe (P:=SubscribeProperties))|]. intros o Ho.
    refine (list_packet_safe _ filter_valid (λ l, mkSubscribe pk l o) _ _ safe_filter5 _).
    intros l Hl Hfs. done.
  - intros a (_ & Hv & _). by apply props_valid_encodable.
  - intros a He. apply total_transactional. unfold Subscribe_write_inner.
    destruct (_ =? 0); [done|]. destruct (_ =? 0); [done|].
    apply (total_bind (put_u8 _)); [done|]. intros _. apply total_bind.
    { apply v5_total_length. rewrite <- blen_Subscribe5. apply blen_nonneg. }
    intros n. apply (total_bind (put_u16 _)); [done|]. intros _. apply total_bind.
    { by refine (total_props (subscribe_properties a) _). }
    intros _. apply total_bind; [|done]. induction (filters a) as [|f fs IH]; [done|].
    apply total_bind; [|done]. by apply total_bind; [apply v5_total_string|].
  - intros a. apply appends_transactional. unfold Subscribe_write_inner.
    destruct (_ =? 0); [auto with appends|]. destruct (_ =? 0); [auto with appends|].
    repeat (apply appends_bind; [solve [auto with appends]|intros ?]).
    apply appends_bind; [exact (appends_props (subscribe_properties a))|]. intros _.
    apply appends_bind; [|auto with appends]. induction (filters a) as [|f fs IH]; [apply appends_ret|].
    apply appends_bind; [unfold SubscribeFilter_write; auto with appends|done].
Qed.

(** * Laws of UNSUBSCRIBE *)

Definition Unsubscribe_content (u : Unsubscribe) : Bytes :=
  u16_bytes (unsubscribe_pkid u) ++ props_bytes (unsubscribe_properties u) ++
  concat (map field_bytes (unsubscribe_filters u)).

Definition Unsubscribe_valid (u : Unsubscribe) : Prop :=
  pkid_valid (unsubscribe_pkid u) ∧ props_valid (unsubscribe_properties u) ∧
  unsubscribe_filters u ≠ [] ∧ Forall mqtt_string (unsubscribe_filters u).

#[global] Instance Unsubscribe_wire : WirePacket Unsubscribe := {|
  wire_read := Unsubscribe_read; wire_write := Unsubscribe_write; wire_size := Unsubscribe_size;
  wire_byte1 _ := 0xA2; wire_content := Unsubscribe_content; wire_valid := Unsubscribe_valid;
  wire_exact _ := True; wire_encodable _ := True |}.

Lemma blen_Unsubscribe5 u : blen (Unsubscribe_content u) = Unsubscribe_len u.
Proof.
  unfold Unsubscribe_content, Unsubscribe_len.
  rewrite !blen_app, blen_u16_bytes, <- properties_size_eq.
  cbn [ps_len UnsubscribeProperties_set].
  enough (fold_left (λ s t, 2 + s + blen t) (unsubscribe_filters u) 0 =
          blen (concat (map field_bytes (unsubscribe_filters u)))) as -> by lia.
  transitivity (fold_left (λ s t, s + (2 + blen t)) (unsubscribe_filters u) 0).
  { generalize 0. induction (unsubscribe_filters u) as [|t l IH]; intros z; cbn; [done|].
    rewrite <- IH. f_equal. lia. }
  rewrite (fold_left_blen _ field_bytes) by (intros; by rewrite blen_field_bytes). lia.
Qed.

Lemma writes_topics5 l :
  Forall mqtt_string l → writes (Unsubscribe_write_filters l) (concat (map field_bytes l)) tt.
Proof.
  induction 1 as [|t l Ht _ IH]; [apply writes_ret|]. cbn [Unsubscribe_write_filters map concat].
  eapply writes_bind; [by apply writes_v5_string|done].
Qed.

#[global] Instance Unsubscribe_laws : WirePacketLaws Unsubscribe.
Proof.
  split; unfold frame_bytes; cbn.
  - intros a ([Hp Hne] & Hv & Hf & Hfs) Hb. apply writes_transactional.
    unfold Unsubscribe_write_inner. rewrite (proj2 (Z.eqb_neq _ 0)) by done.
    rewrite (proj2 (Z.eqb_neq _ 0)) by (by intros ?%blen_zero).
    pose proof (blen_nonneg (Unsubscribe_content a)). unfold Unsubscribe_size.
    rewrite <- (blen_Unsubscribe5 a). apply writes_v5_frame; [lia|].
    eapply writes_bind; [apply writes_put_u16|].
    eapply writes_bind; [refine (writes_props (unsubscribe_properties a) Hv _)|].
    + unfold Unsubscribe_content in Hb. rewrite !blen_app in Hb.
      pose proof (blen_nonneg (concat (map field_bytes (unsubscribe_filters a)))).
      rewrite blen_u16_bytes in Hb. lia.
    + eapply writes_last; [by apply writes_topics5|done].
  - intros [pk fs o] hdr ([Hp Hne] & Hv & Hf & Hfs) _ Hb. unfold Unsubscribe_read.
    cbn [header_len]. rewrite run_on_skip_header. unfold Unsubscribe_content in *.
    cbn [unsubscribe_pkid unsubscribe_filters unsubscribe_properties] in *.
    erewrite run_on_bind by (by apply reads_v5_u16).
    rewrite (proj2 (Z.eqb_neq _ 0)) by done. erewrite run_on_bind.
    2: { refine (reads_props o Hv _ _); [by destruct o|]. rewrite !blen_app, blen_u16_bytes in Hb.
         pose proof (blen_nonneg (concat (map field_bytes fs))). lia. }
    unfold run_on. rewrite !bind_run. cbn [mget].
    rewrite bind_run, (read_all_ok _ field_bytes fs).
    + cbn [app]. by rewrite (proj2 (Z.eqb_neq _ 0)) by (by intros ?%blen_zero).
    + eapply Forall_impl; [exact Hfs|]. intros f Hv'. split; [by apply reads_v5_string|done].
    + apply length_concat_map_ge. done.
  - intros a Hv. unfold Unsubscribe_size.
    rewrite blen_cons, blen_app, blen_remaining_length_bytes, blen_Unsubscribe5. lia.
  - intros a ([? ?] & Hv & _ & Hfs) Hb. unfold Unsubscribe_content in *. rewrite !blen_app in Hb.
    pose proof (blen_nonneg (concat (map field_bytes (unsubscribe_filters a)))).
    rewrite blen_u16_bytes in Hb. apply Forall_app. split; [by apply u16_bytes_u8|].
    apply Forall_app. split; [apply props_bytes_u8; [done|lia]|].
    apply Forall_concat, Forall_map. eapply Forall_impl; [exact Hfs|]. intros t Ht.
    apply field_bytes_u8, Ht.
  - intros h bytes ? ? ? ? ?. apply run_on_safe; [done|lia|]. safe_read. intros pk Hp. safe_check.
    apply Z.eqb_neq in Heqb.
    eapply reads_safe_bind; [exact (props_safe (P:=UnsubscribeProperties))|]. intros o Ho.
    refine (list_packet_safe _ mqtt_string (λ l, mkUnsubscribe pk l o) _ _ reads_some_string _).
    intros l Hl Hfs. done.
  - done.
  - intros a _. apply total_transactional. unfold Unsubscribe_write_inner.
    destruct (_ =? 0); [done|]. destruct (_ =? 0); [done|].
    apply (total_bind (put_u8 _)); [done|]. intros _. apply total_bind.
    { apply v5_total_length. rewrite <- blen_Unsubscribe5. apply blen_nonneg. }
    intros n. apply (total_bind (put_u16 _)); [done|]. intros _. apply total_bind.
    { refine (total_props (unsubscribe_properties a) _). by destruct (unsubscribe_properties a). }
    intros _. apply total_bind; [|done]. induction (unsubscribe_filters a) as [|f fs IH]; [done|].
    by apply total_bind; [apply v5_total_string|].
  - intros a. apply appends_transactional. unfold Unsubscribe_write_inner.
    destruct (_ =? 0); [auto with appends|]. destruct (_ =? 0); [auto with appends|].
    repeat (apply appends_bind; [solve [auto with appends]|intros ?]).
    apply appends_bind; [exact (appends_props (unsubscribe_properties a))|]. intros _.
    apply appends_bind; [|auto with appends].
    induction (unsubscribe_filters a) as [|f fs IH]; [apply appends_ret|].
    apply appends_bind; [auto with appends|done].
Qed.
