(* ===== verification/V5Publish.v ===== *)
(** [mqttbytes-v5/src/v5/publish.rs]. *)

From S2P Require Import Prelude.
From S2P Require Import Utf8.
From S2P Require Import Primitives.
From S2P Require Import Topic.
From S2P Require Import CodecBase.
From S2P Require Import V5Base.
From S2P Require Import V5Properties.

(** * Properties *)

Record PublishProperties := mkPublishProperties {
  payload_format_indicator : option u8;
  message_expiry_interval : option u32;
  topic_alias : option u16;
  response_topic : option Bytes;
  correlation_data : option Bytes;
  pub_user_properties : pairs;
  subscription_identifiers : list usize;
  content_type : option Bytes;
}.

#[global] Instance PublishProperties_eq_dec : EqDecision PublishProperties.
Proof. solve_decision. Defined.

Definition PublishProperties_default : PublishProperties :=
  mkPublishProperties None None None None None [] [] None.

Definition PublishProperties_len (self : PublishProperties) : usize :=
  let len := 0 in
  let len := add_some len (payload_format_indicator self) (λ _, 1 + 1) in
  let len := add_some len (message_expiry_interval self) (λ _, 1 + 4) in
  let len := add_some len (topic_alias self) (λ _, 1 + 2) in
  let len := add_some len (response_topic self) (λ topic, 1 + 2 + blen topic) in
  let len := add_some len (correlation_data self) (λ data, 1 + 2 + blen data) in
  let len := user_properties_len len (pub_user_properties self) in
  let len := fold_left (λ len id, len + (1 + len_len id)) (subscription_identifiers self) len in
  add_some len (content_type self) (λ typ, 1 + 2 + blen typ).

(** The [match property(prop)?] of [PublishProperties::read].  The cursor counts the identifier
    byte of a subscription identifier twice. *)
Definition PublishProperties_step : prop_step PublishProperties := λ property_type prop self,
  match self with
  | mkPublishProperties pfi mei ta rt cd up ids ct =>
      match property_type with
      | PayloadFormatIndicator =>
          v ← read_u8;
          mret (mkPublishProperties (Some v) mei ta rt cd up ids ct, 1)
      | MessageExpiryInterval =>
          v ← read_u32;
          mret (mkPublishProperties pfi (Some v) ta rt cd up ids ct, 4)
      | TopicAlias =>
          alias ← read_u16;
          if alias =? 0 then mfail (ProtocolViolation DRC_TopicAliasInvalid)
          else mret (mkPublishProperties pfi mei (Some alias) rt cd up ids ct, 2)
      | ResponseTopic =>
          topic ← read_mqtt_string;
          mret (mkPublishProperties pfi mei ta (Some topic) cd up ids ct, 2 + blen topic)
      | CorrelationData =>
          data ← read_mqtt_bytes;
          mret (mkPublishProperties pfi mei ta rt (Some data) up ids ct, 2 + blen data)
      | UserProperty =>
          '(key, value, n) ← read_user_property;
          mret (mkPublishProperties pfi mei ta rt cd (up ++ [(key, value)]) ids ct, n)
      | SubscriptionIdentifier =>
          '(id_len, id) ← read_length;
          mret (mkPublishProperties pfi mei ta rt cd up (ids ++ [id]) ct, 1 + id_len)
      | ContentType =>
          typ ← read_mqtt_string;
          mret (mkPublishProperties pfi mei ta rt cd up ids (Some typ), 2 + blen typ)
      | _ => mfail (InvalidPropertyType prop)
      end
  end.

Definition PublishProperties_read : M Bytes Error (option PublishProperties) :=
  read_properties PublishProperties_step PublishProperties_default.

(** [for id in &self.subscription_identifiers]. *)
Fixpoint write_subscription_identifiers (ids : list usize) : M Bytes Error unit :=
  match ids with
  | [] => mret tt
  | id :: rest =>
      put_u8 (PropertyType_as_u8 SubscriptionIdentifier);;
      _ ← write_remaining_length id;
      write_subscription_identifiers rest
  end.

Definition PublishProperties_write_inner (self : PublishProperties) : M Bytes Error unit :=
  let len := PublishProperties_len self in
  _ ← write_remaining_length len;
  if_some (payload_format_indicator self) (λ payload_format_indicator,
    put_u8 (PropertyType_as_u8 PayloadFormatIndicator);;
    put_u8 payload_format_indicator);;
  if_some (message_expiry_interval self) (λ message_expiry_interval,
    put_u8 (PropertyType_as_u8 MessageExpiryInterval);;
    put_u32 message_expiry_interval);;
  if_some (topic_alias self) (λ topic_alias,
    if topic_alias =? 0 then mfail (ProtocolViolation DRC_TopicAliasInvalid)
    else
      put_u8 (PropertyType_as_u8 TopicAlias);;
      put_u16 topic_alias);;
  if_some (response_topic self) (λ topic,
    put_u8 (PropertyType_as_u8 ResponseTopic);;
    write_mqtt_string topic);;
  if_some (correlation_data self) (λ data,
    put_u8 (PropertyType_as_u8 CorrelationData);;
    write_mqtt_bytes data);;
  write_user_properties (pub_user_properties self);;
  write_subscription_identifiers (subscription_identifiers self);;
  if_some (content_type self) (λ typ,
    put_u8 (PropertyType_as_u8 ContentType);;
    write_mqtt_string typ).

Definition PublishProperties_write (self : PublishProperties) : M Bytes Error unit :=
  transactional_write (PublishProperties_write_inner self).

(** * PUBLISH *)

Record Publish := mkPublish {
  dup : bool;
  pub_qos : QoS;
  retain : bool;
  topic : Bytes;
  pub_pkid : u16;
  payload : Bytes;
  pub_properties : option PublishProperties;
}.

#[global] Instance Publish_eq_dec : EqDecision Publish.
Proof. solve_decision. Defined.

Definition Publish_new (topic : Bytes) (qos : QoS) (payload : Bytes)
    (properties : option PublishProperties) : Publish :=
  {| dup := false; pub_qos := qos; retain := false; pub_pkid := 0; topic := topic;
     payload := payload; pub_properties := properties |}.

Definition Publish_len (self : Publish) : usize :=
  let len := 2 + blen (topic self) in
  let len := if negb (bool_decide (pub_qos self = AtMostOnce)) && negb (pub_pkid self =? 0)
             then len + 2 else len in
  let len := len + properties_size PublishProperties_len (pub_properties self) in
  len + blen (payload self).

Definition Publish_size (self : Publish) : usize :=
  let len := Publish_len self in
  let remaining_len_size := len_len len in
  1 + remaining_len_size + len.

Definition validate_publish_topic_name (topic : Bytes) : outcome Error unit :=
  topic ← validate_mqtt_string topic;
  if contains_byte 43 topic || contains_byte 35 topic then Err MalformedPacket
  else Ok tt.

Definition Publish_read (fixed_header : FixedHeader) (bytes : Bytes) : outcome Error Publish :=
  let qos_num := Z.shiftr (Z.land (byte1 fixed_header) 6) 1 in
  q ← outcome_map_err (λ _, MalformedPacket) (qos qos_num);
  let dup := negb (Z.land (byte1 fixed_header) 8 =? 0) in
  let retain := negb (Z.land (byte1 fixed_header) 1 =? 0) in
  if bool_decide (q = AtMostOnce) && dup then Err MalformedPacket
  else run_on bytes (
    advance (header_len fixed_header);;
    topic ← read_mqtt_bytes;
    lift (validate_publish_topic_name topic);;
    pkid ← match q with
           | AtMostOnce => mret 0
           | AtLeastOnce | ExactlyOnce => read_u16
           end;
    if negb (bool_decide (q = AtMostOnce)) && (pkid =? 0) then mfail PacketIdZero
    else
      properties ← PublishProperties_read;
      bytes ← mget;
      mret {| dup := dup; retain := retain; pub_qos := q; pub_pkid := pkid;
              topic := topic; payload := bytes; pub_properties := properties |}).

(** [write_inner::<VALIDATE_TOPIC>]. *)
Definition Publish_write_inner (validate_topic : bool) (self : Publish) : M Bytes Error usize :=
  if bool_decide (pub_qos self = AtMostOnce) && dup self then mfail MalformedPacket
  else
    let len := Publish_len self in
    let dup := Z.b2z (dup self) in
    let qos := QoS_as_u8 (pub_qos self) in
    let retain := Z.b2z (retain self) in
    put_u8 (Z.lor (Z.lor (Z.lor 0x30 retain) (Z.shiftl qos 1)) (Z.shiftl dup 3));;
    count ← write_remaining_length len;
    (if validate_topic then lift (validate_publish_topic_name (topic self)) else mret tt);;
    write_mqtt_bytes (topic self);;
    (if negb (bool_decide (pub_qos self = AtMostOnce))
     then
       let pkid := pub_pkid self in
       if pkid =? 0 then mfail PacketIdZero else put_u16 pkid
     else mret tt);;
    write_properties PublishProperties_write (pub_properties self);;
    put_slice (payload self);;
    mret (1 + count + len).

Definition Publish_write (self : Publish) : M Bytes Error usize :=
  transactional_write (Publish_write_inner true self).

(** [Publish::write_prevalidated]. *)
Definition Publish_write_prevalidated (self : Publish) : M Bytes Error usize :=
  transactional_write (Publish_write_inner false self).

(** * Laws of the properties *)

Definition id_items (ids : list usize) : list item :=
  map (λ id, (SubscriptionIdentifier, V_int id)) ids.

(** The items before the subscription identifiers. *)
Definition PublishProperties_head (p : PublishProperties) : list item :=
  opt_item PayloadFormatIndicator V_u8 (payload_format_indicator p) ++
  opt_item MessageExpiryInterval V_u32 (message_expiry_interval p) ++
  opt_item TopicAlias V_u16 (topic_alias p) ++
  opt_item ResponseTopic V_str (response_topic p) ++
  opt_item CorrelationData V_bin (correlation_data p) ++
  pair_items (pub_user_properties p).

Definition PublishProperties_items (p : PublishProperties) : list item :=
  PublishProperties_head p ++
  (id_items (subscription_identifiers p) ++ opt_item ContentType V_str (content_type p)).

Definition id_valid (id : usize) : Prop := 0 ≤ id ≤ MAX_REMAINING_LENGTH.

Definition PublishProperties_valid (p : PublishProperties) : Prop :=
  opt_ok is_u8 (payload_format_indicator p) ∧ opt_ok is_u32 (message_expiry_interval p) ∧
  opt_ok (λ a, is_u16 a ∧ a ≠ 0) (topic_alias p) ∧ opt_ok mqtt_string (response_topic p) ∧
  opt_ok mqtt_bytes (correlation_data p) ∧ pairs_valid (pub_user_properties p) ∧
  Forall id_valid (subscription_identifiers p) ∧ opt_ok mqtt_string (content_type p).

(** The cursor runs ahead of the bytes by one per subscription identifier read.  The identifiers
    fit when it does not reach the end of the list while items are left: [excess] is the lead so
    far and [tail] the length of what follows the identifiers. *)
Fixpoint ids_fit (excess : Z) (ids : list usize) (tail : Z) : bool :=
  match ids with
  | [] => (tail =? 0) || (excess <? tail)
  | id :: rest =>
      (excess <? blen (items_bytes (id_items ids)) + tail) && ids_fit (excess + 1) rest tail
  end.

Definition PublishProperties_exact (p : PublishProperties) : Prop :=
  ids_fit 0 (subscription_identifiers p)
    (blen (items_bytes (opt_item ContentType V_str (content_type p)))) = true.

#[global] Instance PublishProperties_set : PropertySet PublishProperties := {|
  ps_read := PublishProperties_read; ps_write := PublishProperties_write;
  ps_len := PublishProperties_len; ps_items := PublishProperties_items;
  ps_valid := PublishProperties_valid; ps_exact := PublishProperties_exact;
  ps_encodable p := Forall (λ id, 0 ≤ id) (subscription_identifiers p) |}.

Lemma fold_ids_len ids len :
  fold_left (λ len id, len + (1 + len_len id)) ids len = len + blen (items_bytes (id_items ids)).
Proof.
  unfold items_bytes, id_items. rewrite map_map.
  apply (fold_left_blen (λ id, 1 + len_len id)
           (λ id, item_bytes (SubscriptionIdentifier, V_int id))).
  intros id. rewrite blen_item_bytes. cbn [snd value_bytes]. by rewrite blen_remaining_length_bytes.
Qed.

Lemma PublishProperties_len_ok p :
  PublishProperties_len p = blen (items_bytes (PublishProperties_items p)).
Proof.
  unfold PublishProperties_len, PublishProperties_items, PublishProperties_head.
  cbv zeta. rewrite fold_ids_len. solve_len.
Qed.

Section Runs.
  Context (pfi : option u8) (mei : option u32) (ta : option u16) (rt cd : option Bytes).
  Context (up : pairs) (ids : list usize) (ct : option Bytes).
Let p := mkPublishProperties pfi mei ta rt cd up ids ct.

Lemma PublishProperties_head_runs :
    PublishProperties_valid p →
    runs PublishProperties_step PublishProperties_default (PublishProperties_head p)
      (mkPublishProperties pfi mei ta rt cd up [] None).
  Proof.
    intros (H1 & H2 & H3 & H4 & H5 & H6 & H7 & H8). cbn in *.
    eapply runs_app; [by apply (runs_u8 _ (λ o, mkPublishProperties o None None None None [] [] None))|].
    eapply runs_app; [by apply (runs_u32 _ (λ o, mkPublishProperties pfi o None None None [] [] None))|].
    eapply runs_app.
    { apply (runs_opt _ (λ o, mkPublishProperties pfi mei o None None [] [] None)).
      intros x Hx. destruct (H3 x Hx) as [Hu Hne]. unfold reads_item. cbn [fst snd].
      rewrite <- (app_nil_r (value_bytes _)) at 1.
      eapply reads_bind; [by apply reads_v5_u16|]. rewrite (proj2 (Z.eqb_neq _ 0)) by done.
      apply reads_ret. }
    eapply runs_app; [by apply (runs_string _ (λ o, mkPublishProperties pfi mei ta o None [] [] None))|].
    eapply runs_app; [by apply (runs_bytes _ (λ o, mkPublishProperties pfi mei ta rt o [] [] None))|].
    by apply (runs_pairs _ (λ l, mkPublishProperties pfi mei ta rt cd l [] None)).
  Qed.

  (** The subscription identifiers and the content type, from a cursor that leads by [e]. *)
Lemma PublishProperties_tail_runs l acc c e L :
    Forall id_valid l → opt_ok mqtt_string ct → 0 ≤ e →
    ids_fit e l (blen (items_bytes (opt_item ContentType V_str ct))) = true →
    L = c - e + blen (items_bytes (id_items l ++ opt_item ContentType V_str ct)) →
    runs_at PublishProperties_step c L (mkPublishProperties pfi mei ta rt cd up acc None)
      (id_items l ++ opt_item ContentType V_str ct)
      (mkPublishProperties pfi mei ta rt cd up (acc ++ l) ct).
  Proof.
    intros Hl Hct. revert acc c e. induction Hl as [|id l Hid Hl IH]; intros acc c e He Hfit HL.
    - cbn [id_items map app ids_fit] in *. rewrite app_nil_r.
      destruct ct as [t|]; cbn [opt_item runs_at] in *.
      + rewrite items_bytes_cons, app_nil_r in *. rewrite blen_item_bytes in *. cbn [snd value_bytes] in *.
        rewrite blen_field_bytes in *. pose proof (blen_nonneg t).
        apply orb_true_iff in Hfit as [Hf|Hf]; [lia|]. split; [lia|].
        exists (mkPublishProperties pfi mei ta rt cd up acc (Some t)), (2 + blen t).
        split; [|split; [lia|done]]. unfold reads_item. cbn [fst snd].
        replace (2 + blen t) with (blen (value_bytes (V_str t))) by apply blen_field_bytes.
        apply (reads_string_item (λ v, mkPublishProperties pfi mei ta rt cd up acc (Some v))).
        by apply Hct.
      + unfold items_bytes in HL. cbn in HL. rewrite blen_nil in HL. split; [lia|done].
    - cbn [ids_fit] in Hfit. apply andb_true_iff in Hfit as [Hf Hfit].
      rewrite items_bytes_app, blen_app in HL. cbn [id_items map app runs_at]. split; [lia|].
      exists (mkPublishProperties pfi mei ta rt cd up (acc ++ [id]) None), (1 + len_len id). split.
      + unfold reads_item. cbn [fst snd value_bytes].
        rewrite <- (app_nil_r (remaining_length_bytes id)).
        eapply reads_bind; [by apply reads_read_length|apply reads_ret].
      + replace (acc ++ id :: l) with ((acc ++ [id]) ++ l) by by rewrite <- (assoc_L (++)).
        apply (IH _ _ (e + 1)); [lia|done|].
        cbn [id_items map] in HL. rewrite items_bytes_cons, blen_app, blen_item_bytes in HL.
        cbn [snd value_bytes] in HL. rewrite blen_remaining_length_bytes in HL.
        fold (id_items l) in HL. rewrite items_bytes_app, blen_app. lia.
  Qed.
End Runs.

Lemma PublishProperties_runs p :
  PublishProperties_valid p → PublishProperties_exact p →
  runs_at PublishProperties_step 0 (blen (items_bytes (PublishProperties_items p)))
    PublishProperties_default (PublishProperties_items p) p.
Proof.
  destruct p as [pfi mei ta rt cd up ids ct]. intros Hv He.
  unfold PublishProperties_items. eapply runs_then.
  - by apply PublishProperties_head_runs.
  - rewrite items_bytes_app, blen_app. match goal with |- context [blen ?x + blen ?y] =>
      pose proof (blen_nonneg y) end. lia.
  - destruct Hv as (_ & _ & _ & _ & _ & _ & Hids & Hct).
    apply (PublishProperties_tail_runs pfi mei ta rt cd up ids ct ids [] _ 0); [done|done|lia|done|].
    rewrite (items_bytes_app (PublishProperties_head _)), blen_app. cbn [subscription_identifiers content_type]. lia.
Qed.

Lemma id_items_snoc ids id : id_items (ids ++ [id]) ≠ [].
Proof. unfold id_items. rewrite map_app. by intros [_ ?]%app_eq_nil. Qed.

Lemma Forall_snoc {A} (P : A → Prop) l x : Forall P l → P x → Forall P (l ++ [x]).
Proof. intros. apply Forall_app. split; [done|]. by apply Forall_singleton. Qed.

Lemma PublishProperties_step_safe :
  step_safe PublishProperties_step PublishProperties_items PublishProperties_valid.
Proof.
  intros t b [pfi mei ta rt cd up ids ct] Hv. unfold PublishProperties_valid in Hv; cbn in Hv.
  destruct Hv as (H1 & H2 & H3 & H4 & H5 & H6 & H7 & H8).
  destruct t; cbn [PublishProperties_step]; try apply reads_safe_fail.
  - safe_read. intros v Hx. safe_ret. solve_valid PublishProperties_valid.
  - safe_read. intros v Hx. safe_ret. solve_valid PublishProperties_valid.
  - safe_read. intros v Hx. safe_ret. solve_valid PublishProperties_valid.
  - safe_read. intros v Hx. safe_ret. solve_valid PublishProperties_valid.
  - safe_read. intros v Hx. safe_ret. solve_valid PublishProperties_valid.
  - safe_read. intros [k n] [Hk Hn]. apply reads_safe_ret. cbn [fst snd] in *.
    split; [|split; [lia|]].
    + solve_valid PublishProperties_valid. by apply Forall_snoc.
    + intros [_ H]%app_eq_nil. apply app_eq_nil in H as [H _]. by apply id_items_snoc in H.
  - safe_read. intros v Hx. safe_check. apply Z.eqb_neq in Heqb0 || apply Z.eqb_neq in Heqb.
    safe_ret. solve_valid PublishProperties_valid.
  - safe_read. intros [[k v] n] (? & ? & ?). safe_ret. solve_valid PublishProperties_valid.
Qed.

Lemma writes_ids ids :
  Forall id_valid ids → writes_items (write_subscription_identifiers ids) (id_items ids).
Proof.
  unfold writes_items. induction 1 as [|id ids Hid _ IH]; [apply writes_ret|].
  cbn [write_subscription_identifiers id_items map]. rewrite items_bytes_cons.
  unfold item_bytes. cbn [fst snd value_bytes]. rewrite <- app_comm_cons.
  change (?a :: ?b) with ([a] ++ b). eapply writes_bind; [apply writes_put_u8|].
  eapply writes_bind; [by apply writes_v5_length|exact IH].
Qed.

Lemma PublishProperties_write_ok p :
  PublishProperties_valid p → blen (items_bytes (PublishProperties_items p)) ≤ MAX_REMAINING_LENGTH →
  writes (PublishProperties_write p) (properties_bytes (PublishProperties_items p)) tt.
Proof.
  intros (H1 & H2 & H3 & H4 & H5 & H6 & H7 & H8) Hb.
  apply writes_property_list; [apply PublishProperties_len_ok|done|].
  unfold PublishProperties_items, PublishProperties_head. rewrite <- !(assoc_L (++)).
  repeat (apply writes_items_then; [|]); try apply writes_if_some.
  - intros x _. apply writes_item, writes_put_u8.
  - intros x _. apply writes_item, writes_put_u32.
  - intros x Hx. destruct (H3 x Hx). rewrite (proj2 (Z.eqb_neq _ 0)) by done.
    apply writes_item, writes_put_u16.
  - intros x Hx. apply writes_item, writes_v5_string. by apply H4.
  - intros x Hx. apply writes_item, writes_v5_bytes. by apply H5.
  - by apply writes_user_properties.
  - by apply writes_ids.
  - intros x Hx. apply writes_item, writes_v5_string. by apply H8.
Qed.

Lemma total_ids ids : Forall (λ id, 0 ≤ id) ids → total (write_subscription_identifiers ids).
Proof.
  induction 1 as [|id ids Hid _ IH]; [done|]. cbn [write_subscription_identifiers].
  apply (total_bind (put_u8 _)); [done|]. intros _.
  by apply total_bind; [apply v5_total_length|].
Qed.

Lemma appends_ids ids : appends (write_subscription_identifiers ids).
Proof. induction ids; cbn [write_subscription_identifiers]; auto 10 with appends. Qed.
#[export] Hint Resolve appends_ids total_ids : appends.

#[global] Instance PublishProperties_laws : PropertySetLaws PublishProperties.
Proof.
  split; cbn.
  - apply PublishProperties_len_ok.
  - apply PublishProperties_write_ok.
  - intros p Hv He Hne Hb. apply reads_properties; [done..|]. by apply PublishProperties_runs.
  - apply reads_no_properties.
  - apply read_properties_safe; [apply PublishProperties_step_safe|].
    repeat split; try done; constructor.
  - intros p (H1 & H2 & H3 & H4 & H5 & H6 & H7 & H8).
    unfold PublishProperties_items, PublishProperties_head. repeat (apply Forall_app; split);
      try (apply Forall_opt_item; done); [|by apply Forall_pair_items|].
    + apply Forall_opt_item. intros x Hx. apply (H3 x Hx).
    + apply Forall_map. eapply Forall_impl; [exact H7|done].
  - intros p (_ & _ & _ & _ & _ & _ & H7 & _). eapply Forall_impl; [exact H7|].
    intros id Hid. apply Hid.
  - intros p He. apply total_transactional, total_bind.
    { apply v5_total_length. rewrite PublishProperties_len_ok. apply blen_nonneg. }
    intros _. repeat (apply total_bind; [|intros _]); try (apply total_if_some; intros x Hx);
      try (apply (total_bind (put_u8 _)); [done|intros _]); auto with appends; try done.
    destruct (x =? 0); [done|]. by apply (total_bind (put_u8 _)).
  - intros p. apply appends_transactional. unfold PublishProperties_write_inner.
    repeat (apply appends_bind; [|intros _]); try (apply appends_if_some; intros x);
      auto with appends. destruct (x =? 0); auto with appends.
Qed.

(** At most two subscription identifiers are always read back, and so is any number of them in
    front of a content type longer than it. *)
Lemma ids_fit_two ids : (length ids ≤ 2)%nat → ids_fit 0 ids 0 = true.
Proof.
  assert (Hll : ∀ n, 1 ≤ len_len n) by (intros n; unfold len_len; repeat case_match; lia).
  destruct ids as [|a [|b [|c ids]]]; cbn [length]; intros; try lia; [done|..];
    cbn [ids_fit id_items map]; rewrite ?items_bytes_cons, ?blen_app, ?blen_item_bytes;
    cbn [snd value_bytes]; rewrite ?blen_remaining_length_bytes;
    change (blen (items_bytes [])) with 0; pose proof (Hll a); try pose proof (Hll b);
    rewrite ?andb_true_iff; repeat split; rewrite ?Z.ltb_lt; try done; lia.
Qed.

(** * Laws of PUBLISH *)

(** Unlike in MQTT 3.1.1 the topic may be empty: a topic alias can stand for it. *)
Definition publish_topic (t : Bytes) : Prop := mqtt_string t ∧ (PLUS ∉ t) ∧ (HASH ∉ t).

Definition Publish_valid (p : Publish) : Prop :=
  publish_topic (topic p) ∧ Forall is_u8 (payload p) ∧ props_valid (pub_properties p) ∧
  match pub_qos p with
  | AtMostOnce => dup p = false ∧ pub_pkid p = 0
  | _ => pkid_valid (pub_pkid p)
  end.

Definition Publish_byte1 (p : Publish) : u8 :=
  Z.lor (Z.lor (Z.lor 0x30 (Z.b2z (retain p))) (Z.shiftl (QoS_as_u8 (pub_qos p)) 1))
    (Z.shiftl (Z.b2z (dup p)) 3).

Definition pkid_bytes (p : Publish) : Bytes :=
  match pub_qos p with AtMostOnce => [] | _ => u16_bytes (pub_pkid p) end.

Definition Publish_content (p : Publish) : Bytes :=
  field_bytes (topic p) ++ pkid_bytes p ++ props_bytes (pub_properties p) ++ payload p.

#[global] Instance Publish_wire : WirePacket Publish := {|
  wire_read := Publish_read; wire_write := Publish_write; wire_size := Publish_size;
  wire_byte1 := Publish_byte1; wire_content := Publish_content; wire_valid := Publish_valid;
  wire_exact p := props_exact (pub_properties p);
  wire_encodable p := props_encodable (pub_properties p) |}.

Lemma publish_topic5_ok t : publish_topic t → validate_publish_topic_name t = Ok tt.
Proof.
  intros (Hs & Hp & Hh). unfold validate_publish_topic_name. rewrite v5_validate_ok by done.
  cbn. by rewrite !(proj2 (contains_byte_false _ _)).
Qed.

Lemma publish_topic5_safe t :
  mqtt_bytes t →
  reads_safe (lift (validate_publish_topic_name t)) (λ _, publish_topic t).
Proof.
  intros Ht. apply reads_safe_lift. unfold validate_publish_topic_name.
  pose proof (reads_safe_validate t Ht [] (Forall_nil_2 _)) as Hv. unfold wp, lift in Hv.
  destruct (validate_mqtt_string t) as [r| |]; [|done|done]. cbn.
  destruct Hv as ([-> Hs] & _). destruct (contains_byte 43 t) eqn:Hp; [done|].
  destruct (contains_byte 35 t) eqn:Hh; [done|]. cbn.
  apply contains_byte_false in Hp, Hh. by split_and!.
Qed.

Lemma publish_topic5_total t : total (lift (validate_publish_topic_name t)).
Proof.
  intros s. unfold lift, validate_publish_topic_name. cbn.
  pose proof (total_validate_mqtt_string Error_from t []) as Ht. unfold lift in Ht. cbn in Ht.
  unfold validate_mqtt_string.
  destruct (outcome_map_err Error_from (Primitives.validate_mqtt_string t)); cbn; try done.
  by case_match.
Qed.

Lemma blen_Publish5 p : Publish_valid p → blen (Publish_content p) = Publish_len p.
Proof.
  intros (_ & _ & _ & Hq). unfold Publish_content, Publish_len, pkid_bytes, pkid_valid in *.
  rewrite !blen_app, <- properties_size_eq, blen_field_bytes. cbn [ps_len PublishProperties_set].
  destruct (pub_qos p); simpl; rewrite ?blen_u16_bytes; [change (blen (@nil Z)) with 0; lia|..];
    rewrite (proj2 (Z.eqb_neq _ 0)) by tauto; simpl; lia.
Qed.

Lemma Publish5_byte1_fields p :
  qos (Z.shiftr (Z.land (Publish_byte1 p) 6) 1) = Ok (pub_qos p) ∧
  negb (Z.land (Publish_byte1 p) 8 =? 0) = dup p ∧
  negb (Z.land (Publish_byte1 p) 1 =? 0) = retain p.
Proof. destruct p as [[] [] [] ? ? ? ?]; done. Qed.

Lemma publish5_props_bound p :
  blen (Publish_content p) ≤ MAX_REMAINING_LENGTH →
  blen (props_bytes (pub_properties p)) ≤ MAX_REMAINING_LENGTH.
Proof.
  unfold Publish_content. rewrite !blen_app. pose proof (blen_nonneg (field_bytes (topic p))).
  pose proof (blen_nonneg (pkid_bytes p)). pose proof (blen_nonneg (payload p)). lia.
Qed.

Lemma Publish5_no_dup p :
  Publish_valid p → bool_decide (pub_qos p = AtMostOnce) && dup p = false.
Proof. intros (_ & _ & _ & Hq). destruct (pub_qos p); simpl; tauto. Qed.

Lemma Publish5_write_ok p v :
  Publish_valid p → blen (Publish_content p) ≤ MAX_REMAINING_LENGTH →
  writes (transactional_write (Publish_write_inner v p))
    (Publish_byte1 p :: remaining_length_bytes (blen (Publish_content p)) ++ Publish_content p)
    (Publish_size p).
Proof.
  intros Hv Hb. pose proof (publish5_props_bound p Hb) as Hpb.
  rewrite blen_Publish5 in * by done. pose proof (blen_nonneg (Publish_content p)) as H0.
  rewrite blen_Publish5 in H0 by done.
  apply writes_transactional. unfold Publish_write_inner. rewrite Publish5_no_dup by done.
  fold (Publish_byte1 p). cbv zeta. destruct Hv as (Ht & Hp & Hprops & Hq).
  apply writes_v5_frame; [lia|].
  rewrite <- (app_nil_l (Publish_content p)). eapply writes_bind with (a := tt).
  { destruct v; [by apply writes_lift, publish_topic5_ok|apply writes_ret]. }
  eapply writes_bind; [apply writes_v5_bytes, Ht|].
  eapply writes_bind with (a := tt).
  { unfold pkid_bytes. destruct (pub_qos p); simpl; [apply writes_ret|..]; destruct Hq;
      rewrite (proj2 (Z.eqb_neq _ 0)) by done; apply writes_put_u16. }
  eapply writes_bind; [by refine (writes_props (pub_properties p) Hprops _)|].
  eapply writes_last; [apply writes_put_slice|done].
Qed.

(** Reading a frame up to the properties. *)
Lemma Publish5_read_head p hdr rest :
  Publish_valid p →
  Publish_read {| byte1 := Publish_byte1 p; header_len := blen hdr;
                  remaining_len := blen (Publish_content p) |}
    (hdr ++ field_bytes (topic p) ++ pkid_bytes p ++ rest) =
  run_on rest (
    properties ← PublishProperties_read;
    bytes ← mget;
    mret {| dup := dup p; retain := retain p; pub_qos := pub_qos p; pub_pkid := pub_pkid p;
            topic := topic p; payload := bytes; pub_properties := properties |}).
Proof.
  intros Hv. unfold Publish_read. cbn [byte1 header_len].
  destruct (Publish5_byte1_fields p) as (-> & -> & ->). cbn [outcome_map_err mbind outcome_bind].
  rewrite Publish5_no_dup by done. destruct Hv as (Ht & _ & _ & Hq).
  rewrite run_on_skip_header. erewrite run_on_bind by (apply reads_v5_bytes; apply Ht).
  rewrite <- (app_nil_l (pkid_bytes p ++ rest)).
  erewrite run_on_bind by (by apply reads_lift, publish_topic5_ok).
  erewrite run_on_bind with (a := pub_pkid p).
  2: { unfold pkid_bytes. destruct (pub_qos p); [destruct Hq as [_ ->]; apply reads_ret|..];
         apply reads_v5_u16; apply Hq. }
  assert (negb (bool_decide (pub_qos p = AtMostOnce)) && (pub_pkid p =? 0) = false) as ->; [|done].
  destruct (pub_qos p); simpl; [done|..]; apply Z.eqb_neq, Hq.
Qed.

#[global] Instance Publish_laws : WirePacketLaws Publish.
Proof.
  split; unfold frame_bytes; cbn.
  - intros p. apply Publish5_write_ok.
  - intros p hdr Hv He Hb. unfold Publish_content at 2. rewrite Publish5_read_head by done.
    erewrite run_on_bind.
    2: { refine (reads_props (pub_properties p) _ He (publish5_props_bound p Hb)). apply Hv. }
    unfold run_on. by destruct p.
  - intros p Hv. unfold Publish_size.
    rewrite blen_cons, blen_app, blen_remaining_length_bytes, blen_Publish5 by done. lia.
  - intros p (Ht & Hp & Hprops & Hq) Hb. apply publish5_props_bound in Hb.
    unfold Publish_content.
    apply Forall_app; split; [exact (field_bytes_u8 _ (proj1 (proj1 Ht)))|].
    apply Forall_app; split.
    { unfold pkid_bytes. destruct (pub_qos p); [constructor|..]; apply u16_bytes_u8, Hq. }
    apply Forall_app; split; [by apply props_bytes_u8|done].
  - intros h bytes ? ? ? ? ?. unfold Publish_read.
    destruct (qos _) as [q| |] eqn:Hq; cbn [outcome_map_err mbind outcome_bind]; [|done|].
    2: { unfold qos, ok_or in Hq. by case_match. }
    destruct (bool_decide _ && _) eqn:Hdup; [done|].
    apply run_on_safe; [done|lia|]. safe_read. intros t Ht.
    eapply reads_safe_bind; [by apply publish_topic5_safe|]. intros ? Htop.
    eapply reads_safe_bind with
      (P := λ pkid, match q with AtMostOnce => pkid = 0 | _ => is_u16 pkid end).
    { destruct q; [by apply reads_safe_ret|apply reads_safe_u16..]. }
    intros pkid Hpk. safe_check. eapply reads_safe_bind; [exact (props_safe (P:=PublishProperties))|].
    intros o Ho s Hs. apply wp_bind, wp_get, wp_ret. split; [|done].
    split_and!; try done. cbn. destruct q; cbn in *; [|split; [done|by apply Z.eqb_neq]..].
    by split.
  - intros p (_ & _ & Hprops & _). by apply props_valid_encodable.
  - intros p He. apply total_transactional. unfold Publish_write_inner.
    destruct (_ && _); [done|]. apply (total_bind (put_u8 _)); [done|]. intros _.
    apply total_bind.
    { apply v5_total_length. unfold Publish_len.
      pose proof (properties_size_eq (pub_properties p)) as Hs. cbn [ps_len PublishProperties_set] in Hs.
      rewrite Hs. pose proof (blen_nonneg (props_bytes (pub_properties p))).
      pose proof (blen_nonneg (topic p)). pose proof (blen_nonneg (payload p)). case_match; lia. }
    intros n. apply (total_bind (lift _)); [apply publish_topic5_total|]. intros _.
    apply total_bind; [apply v5_total_bytes|]. intros _. apply total_bind.
    { destruct (negb _); [|done]. by destruct (_ =? 0). }
    intros _. apply total_bind; [by refine (total_props (pub_properties p) _)|]. done.
  - intros p. apply appends_transactional. unfold Publish_write_inner.
    destruct (_ && _); [auto with appends|].
    repeat (apply appends_bind; [first [solve [auto with appends]|idtac]|intros ?]); auto with appends.
    + destruct (negb _); [|auto with appends]. destruct (_ =? 0); auto with appends.
    + exact (appends_props (pub_properties p)).
Qed.
