(* ===== verification/V5ConnAck.v ===== *)
(** [mqttbytes-v5/src/v5/connack.rs]. *)

From S2P Require Import Prelude.
From S2P Require Import Utf8.
From S2P Require Import Primitives.
From S2P Require Import CodecBase.
From S2P Require Import V5Base.
From S2P Require Import V5Properties.

(** * Return codes

    The enumeration is that of both protocol versions; three of its members are 3.1.1 codes that
    [connect_code] does not encode. *)

Inductive ConnectReturnCode :=
| CRC_Success
| CRC_RefusedProtocolVersion
| CRC_BadClientId
| CRC_ServiceUnavailable
| CRC_UnspecifiedError
| CRC_MalformedPacket
| CRC_ProtocolError
| CRC_ImplementationSpecificError
| CRC_UnsupportedProtocolVersion
| CRC_ClientIdentifierNotValid
| CRC_BadUserNamePassword
| CRC_NotAuthorized
| CRC_ServerUnavailable
| CRC_ServerBusy
| CRC_Banned
| CRC_BadAuthenticationMethod
| CRC_TopicNameInvalid
| CRC_PacketTooLarge
| CRC_QuotaExceeded
| CRC_PayloadFormatInvalid
| CRC_RetainNotSupported
| CRC_QoSNotSupported
| CRC_UseAnotherServer
| CRC_ServerMoved
| CRC_ConnectionRateExceeded.

#[global] Instance ConnectReturnCode_eq_dec : EqDecision ConnectReturnCode.
Proof. solve_decision. Defined.

Definition connect_return (num : u8) : outcome Error ConnectReturnCode :=
  match num with
  | 0 => Ok CRC_Success
  | 128 => Ok CRC_UnspecifiedError
  | 129 => Ok CRC_MalformedPacket
  | 130 => Ok CRC_ProtocolError
  | 131 => Ok CRC_ImplementationSpecificError
  | 132 => Ok CRC_UnsupportedProtocolVersion
  | 133 => Ok CRC_ClientIdentifierNotValid
  | 134 => Ok CRC_BadUserNamePassword
  | 135 => Ok CRC_NotAuthorized
  | 136 => Ok CRC_ServerUnavailable
  | 137 => Ok CRC_ServerBusy
  | 138 => Ok CRC_Banned
  | 140 => Ok CRC_BadAuthenticationMethod
  | 144 => Ok CRC_TopicNameInvalid
  | 149 => Ok CRC_PacketTooLarge
  | 151 => Ok CRC_QuotaExceeded
  | 153 => Ok CRC_PayloadFormatInvalid
  | 154 => Ok CRC_RetainNotSupported
  | 155 => Ok CRC_QoSNotSupported
  | 156 => Ok CRC_UseAnotherServer
  | 157 => Ok CRC_ServerMoved
  | 159 => Ok CRC_ConnectionRateExceeded
  | num => Err (InvalidConnectReturnCode num)
  end.

(** [_ => unreachable!()] for the members of MQTT 3.1.1. *)
Definition connect_code (return_code : ConnectReturnCode) : outcome Error u8 :=
  match return_code with
  | CRC_Success => Ok 0
  | CRC_UnspecifiedError => Ok 128
  | CRC_MalformedPacket => Ok 129
  | CRC_ProtocolError => Ok 130
  | CRC_ImplementationSpecificError => Ok 131
  | CRC_UnsupportedProtocolVersion => Ok 132
  | CRC_ClientIdentifierNotValid => Ok 133
  | CRC_BadUserNamePassword => Ok 134
  | CRC_NotAuthorized => Ok 135
  | CRC_ServerUnavailable => Ok 136
  | CRC_ServerBusy => Ok 137
  | CRC_Banned => Ok 138
  | CRC_BadAuthenticationMethod => Ok 140
  | CRC_TopicNameInvalid => Ok 144
  | CRC_PacketTooLarge => Ok 149
  | CRC_QuotaExceeded => Ok 151
  | CRC_PayloadFormatInvalid => Ok 153
  | CRC_RetainNotSupported => Ok 154
  | CRC_QoSNotSupported => Ok 155
  | CRC_UseAnotherServer => Ok 156
  | CRC_ServerMoved => Ok 157
  | CRC_ConnectionRateExceeded => Ok 159
  | CRC_RefusedProtocolVersion | CRC_BadClientId | CRC_ServiceUnavailable => Panic
  end.

(** * Properties *)

Record ConnAckProperties := mkConnAckProperties {
  ca_session_expiry_interval : option u32;
  ca_receive_max : option u16;
  ca_max_qos : option u8;
  ca_retain_available : option u8;
  ca_max_packet_size : option u32;
  ca_assigned_client_identifier : option Bytes;
  ca_topic_alias_max : option u16;
  ca_reason_string : option Bytes;
  ca_user_properties : pairs;
  ca_wildcard_subscription_available : option u8;
  ca_subscription_identifiers_available : option u8;
  ca_shared_subscription_available : option u8;
  ca_server_keep_alive : option u16;
  ca_response_information : option Bytes;
  ca_server_reference : option Bytes;
  ca_authentication_method : option Bytes;
  ca_authentication_data : option Bytes;
}.

Definition ConnAckProperties_default : ConnAckProperties :=
  mkConnAckProperties None None None None None None None None [] None None None None None None None None.

Definition ConnAckProperties_len (self : ConnAckProperties) : usize :=
  let len := 0 in
  let len := add_some len (ca_session_expiry_interval self) (λ _, 1 + 4) in
  let len := add_some len (ca_receive_max self) (λ _, 1 + 2) in
  let len := add_some len (ca_max_qos self) (λ _, 1 + 1) in
  let len := add_some len (ca_retain_available self) (λ _, 1 + 1) in
  let len := add_some len (ca_max_packet_size self) (λ _, 1 + 4) in
  let len := add_some len (ca_assigned_client_identifier self) (λ s, 1 + 2 + blen s) in
  let len := add_some len (ca_topic_alias_max self) (λ _, 1 + 2) in
  let len := add_some len (ca_reason_string self) (λ s, 1 + 2 + blen s) in
  let len := user_properties_len len (ca_user_properties self) in
  let len := add_some len (ca_wildcard_subscription_available self) (λ _, 1 + 1) in
  let len := add_some len (ca_subscription_identifiers_available self) (λ _, 1 + 1) in
  let len := add_some len (ca_shared_subscription_available self) (λ _, 1 + 1) in
  let len := add_some len (ca_server_keep_alive self) (λ _, 1 + 2) in
  let len := add_some len (ca_response_information self) (λ s, 1 + 2 + blen s) in
  let len := add_some len (ca_server_reference self) (λ s, 1 + 2 + blen s) in
  let len := add_some len (ca_authentication_method self) (λ s, 1 + 2 + blen s) in
  add_some len (ca_authentication_data self) (λ s, 1 + 2 + blen s).

Definition read_boolean_connack_property (destination : option u8) : M Bytes Error (option u8) :=
  match destination with
  | Some _ => mfail ProtocolError
  | None =>
      value ← read_u8;
      if 1 <? value then mfail ProtocolError else mret (Some value)
  end.

Definition read_connack_property : prop_step ConnAckProperties := λ property_type _ properties,
  match properties with
  | mkConnAckProperties sei rm mq ra mps aci tam rs up wsa sia ssa ska ri sr am ad =>
      match property_type with
      | SessionExpiryInterval =>
          v ← read_u32;
          mret (mkConnAckProperties (Some v) rm mq ra mps aci tam rs up wsa sia ssa ska ri sr am
                ad, 4)
      | ReceiveMaximum =>
          receive_max ← read_u16;
          if receive_max =? 0 then mfail ProtocolError
          else mret (mkConnAckProperties sei (Some receive_max) mq ra mps aci tam rs up wsa sia
                     ssa ska ri sr am ad, 2)
      | MaximumQos =>
          v ← read_boolean_connack_property mq;
          mret (mkConnAckProperties sei rm v ra mps aci tam rs up wsa sia ssa ska ri sr am ad, 1)
      | RetainAvailable =>
          v ← read_boolean_connack_property ra;
          mret (mkConnAckProperties sei rm mq v mps aci tam rs up wsa sia ssa ska ri sr am ad, 1)
      | MaximumPacketSize =>
          v ← read_u32;
          mret (mkConnAckProperties sei rm mq ra (Some v) aci tam rs up wsa sia ssa ska ri sr am
                ad, 4)
      | AssignedClientIdentifier =>
          match aci with
          | Some _ => mfail ProtocolError
          | None =>
              id ← read_mqtt_string;
              mret (mkConnAckProperties sei rm mq ra mps (Some id) tam rs up wsa sia ssa ska ri sr
                    am ad, 2 + blen id)
          end
      | TopicAliasMaximum =>
          v ← read_u16;
          mret (mkConnAckProperties sei rm mq ra mps aci (Some v) rs up wsa sia ssa ska ri sr am
                ad, 2)
      | ReasonString =>
          s ← read_mqtt_string;
          mret (mkConnAckProperties sei rm mq ra mps aci tam (Some s) up wsa sia ssa ska ri sr am
                ad, 2 + blen s)
      | UserProperty =>
          '(key, value, n) ← read_user_property;
          mret (mkConnAckProperties sei rm mq ra mps aci tam rs (up ++ [(key, value)]) wsa sia ssa
                ska ri sr am ad, n)
      | WildcardSubscriptionAvailable =>
          v ← read_boolean_connack_property wsa;
          mret (mkConnAckProperties sei rm mq ra mps aci tam rs up v sia ssa ska ri sr am ad, 1)
      | SubscriptionIdentifierAvailable =>
          v ← read_boolean_connack_property sia;
          mret (mkConnAckProperties sei rm mq ra mps aci tam rs up wsa v ssa ska ri sr am ad, 1)
      | SharedSubscriptionAvailable =>
          v ← read_boolean_connack_property ssa;
          mret (mkConnAckProperties sei rm mq ra mps aci tam rs up wsa sia v ska ri sr am ad, 1)
      | ServerKeepAlive =>
          v ← read_u16;
          mret (mkConnAckProperties sei rm mq ra mps aci tam rs up wsa sia ssa (Some v) ri sr am
                ad, 2)
      | ResponseInformation =>
          s ← read_mqtt_string;
          mret (mkConnAckProperties sei rm mq ra mps aci tam rs up wsa sia ssa ska (Some s) sr am
                ad, 2 + blen s)
      | ServerReference =>
          s ← read_mqtt_string;
          mret (mkConnAckProperties sei rm mq ra mps aci tam rs up wsa sia ssa ska ri (Some s) am
                ad, 2 + blen s)
      | AuthenticationMethod =>
          s ← read_mqtt_string;
          mret (mkConnAckProperties sei rm mq ra mps aci tam rs up wsa sia ssa ska ri sr (Some s)
                ad, 2 + blen s)
      | AuthenticationData =>
          data ← read_mqtt_bytes;
          mret (mkConnAckProperties sei rm mq ra mps aci tam rs up wsa sia ssa ska ri sr am (Some
                data), 2 + blen data)
      | _ => mfail (InvalidPropertyType (PropertyType_as_u8 property_type))
      end
  end.

Definition ConnAckProperties_read : M Bytes Error (option ConnAckProperties) :=
  read_properties read_connack_property ConnAckProperties_default.

(** [.into_iter().flatten()] and [value > 1]. *)
Definition exceeds_one (o : option u8) : bool :=
  match o with Some value => 1 <? value | None => false end.

Definition ConnAckProperties_write_inner (self : ConnAckProperties) : M Bytes Error unit :=
  if existsb exceeds_one
       [ca_max_qos self; ca_retain_available self; ca_wildcard_subscription_available self;
        ca_subscription_identifiers_available self; ca_shared_subscription_available self]
  then mfail ProtocolError
  else
    let len := ConnAckProperties_len self in
    _ ← write_remaining_length len;
    if_some (ca_session_expiry_interval self) (λ v,
      put_u8 (PropertyType_as_u8 SessionExpiryInterval);;
      put_u32 v);;
    if_some (ca_receive_max self) (λ v,
      put_u8 (PropertyType_as_u8 ReceiveMaximum);;
      put_u16 v);;
    if_some (ca_max_qos self) (λ v,
      put_u8 (PropertyType_as_u8 MaximumQos);;
      put_u8 v);;
    if_some (ca_retain_available self) (λ v,
      put_u8 (PropertyType_as_u8 RetainAvailable);;
      put_u8 v);;
    if_some (ca_max_packet_size self) (λ v,
      put_u8 (PropertyType_as_u8 MaximumPacketSize);;
      put_u32 v);;
    if_some (ca_assigned_client_identifier self) (λ v,
      put_u8 (PropertyType_as_u8 AssignedClientIdentifier);;
      write_mqtt_string v);;
    if_some (ca_topic_alias_max self) (λ v,
      put_u8 (PropertyType_as_u8 TopicAliasMaximum);;
      put_u16 v);;
    if_some (ca_reason_string self) (λ v,
      put_u8 (PropertyType_as_u8 ReasonString);;
      write_mqtt_string v);;
    write_user_properties (ca_user_properties self);;
    if_some (ca_wildcard_subscription_available self) (λ v,
      put_u8 (PropertyType_as_u8 WildcardSubscriptionAvailable);;
      put_u8 v);;
    if_some (ca_subscription_identifiers_available self) (λ v,
      put_u8 (PropertyType_as_u8 SubscriptionIdentifierAvailable);;
      put_u8 v);;
    if_some (ca_shared_subscription_available self) (λ v,
      put_u8 (PropertyType_as_u8 SharedSubscriptionAvailable);;
      put_u8 v);;
    if_some (ca_server_keep_alive self) (λ v,
      put_u8 (PropertyType_as_u8 ServerKeepAlive);;
      put_u16 v);;
    if_some (ca_response_information self) (λ v,
      put_u8 (PropertyType_as_u8 ResponseInformation);;
      write_mqtt_string v);;
    if_some (ca_server_reference self) (λ v,
      put_u8 (PropertyType_as_u8 ServerReference);;
      write_mqtt_string v);;
    if_some (ca_authentication_method self) (λ v,
      put_u8 (PropertyType_as_u8 AuthenticationMethod);;
      write_mqtt_string v);;
    if_some (ca_authentication_data self) (λ v,
      put_u8 (PropertyType_as_u8 AuthenticationData);;
      write_mqtt_bytes v).

Definition ConnAckProperties_write (self : ConnAckProperties) : M Bytes Error unit :=
  transactional_write (ConnAckProperties_write_inner self).

(** * CONNACK *)

Record ConnAck := mkConnAck {
  session_present : bool;
  code : ConnectReturnCode;
  connack_properties : option ConnAckProperties;
}.

Definition ConnAck_len (self : ConnAck) : usize :=
  let len := 1 + 1 in
  len + properties_size ConnAckProperties_len (connack_properties self).

Definition ConnAck_size (self : ConnAck) : usize :=
  let len := ConnAck_len self in
  let remaining_len_size := len_len len in
  1 + remaining_len_size + len.

Definition ConnAck_read (fixed_header : FixedHeader) (bytes : Bytes) : outcome Error ConnAck :=
  run_on bytes (
    advance (header_len fixed_header);;
    flags ← read_u8;
    if negb (Z.land flags 0xFE =? 0) then mfail IncorrectPacketFormat
    else
      return_code ← read_u8;
      let session_present := Z.land flags 0x01 =? 1 in
      code ← lift (connect_return return_code);
      if negb (bool_decide (code = CRC_Success)) && session_present then mfail ProtocolError
      else
        properties ← ConnAckProperties_read;
        mret (mkConnAck session_present code properties)).

Definition ConnAck_write_inner (self : ConnAck) : M Bytes Error usize :=
  if negb (bool_decide (code self = CRC_Success)) && session_present self
  then mfail ProtocolError
  else
    let len := ConnAck_len self in
    put_u8 0x20;;
    count ← write_remaining_length len;
    put_u8 (Z.b2z (session_present self));;
    c ← lift (connect_code (code self));
    put_u8 c;;
    write_properties ConnAckProperties_write (connack_properties self);;
    mret (1 + count + len).

Definition ConnAck_write (self : ConnAck) : M Bytes Error usize :=
  transactional_write (ConnAck_write_inner self).

(** * Laws of the properties *)

Definition ConnAckProperties_items (p : ConnAckProperties) : list item :=
  opt_item SessionExpiryInterval V_u32 (ca_session_expiry_interval p) ++
  opt_item ReceiveMaximum V_u16 (ca_receive_max p) ++
  opt_item MaximumQos V_u8 (ca_max_qos p) ++
  opt_item RetainAvailable V_u8 (ca_retain_available p) ++
  opt_item MaximumPacketSize V_u32 (ca_max_packet_size p) ++
  opt_item AssignedClientIdentifier V_str (ca_assigned_client_identifier p) ++
  opt_item TopicAliasMaximum V_u16 (ca_topic_alias_max p) ++
  opt_item ReasonString V_str (ca_reason_string p) ++
  pair_items (ca_user_properties p) ++
  opt_item WildcardSubscriptionAvailable V_u8 (ca_wildcard_subscription_available p) ++
  opt_item SubscriptionIdentifierAvailable V_u8 (ca_subscription_identifiers_available p) ++
  opt_item SharedSubscriptionAvailable V_u8 (ca_shared_subscription_available p) ++
  opt_item ServerKeepAlive V_u16 (ca_server_keep_alive p) ++
  opt_item ResponseInformation V_str (ca_response_information p) ++
  opt_item ServerReference V_str (ca_server_reference p) ++
  opt_item AuthenticationMethod V_str (ca_authentication_method p) ++
  opt_item AuthenticationData V_bin (ca_authentication_data p).

(** A byte that stands for a boolean. *)
Definition is_bool (n : u8) : Prop := 0 ≤ n ≤ 1.

Definition ConnAckProperties_valid (p : ConnAckProperties) : Prop :=
  opt_ok is_u32 (ca_session_expiry_interval p) ∧
  opt_ok (λ n, is_u16 n ∧ n ≠ 0) (ca_receive_max p) ∧
  opt_ok is_bool (ca_max_qos p) ∧
  opt_ok is_bool (ca_retain_available p) ∧
  opt_ok is_u32 (ca_max_packet_size p) ∧
  opt_ok mqtt_string (ca_assigned_client_identifier p) ∧
  opt_ok is_u16 (ca_topic_alias_max p) ∧
  opt_ok mqtt_string (ca_reason_string p) ∧
  pairs_valid (ca_user_properties p) ∧
  opt_ok is_bool (ca_wildcard_subscription_available p) ∧
  opt_ok is_bool (ca_subscription_identifiers_available p) ∧
  opt_ok is_bool (ca_shared_subscription_available p) ∧
  opt_ok is_u16 (ca_server_keep_alive p) ∧
  opt_ok mqtt_string (ca_response_information p) ∧
  opt_ok mqtt_string (ca_server_reference p) ∧
  opt_ok mqtt_string (ca_authentication_method p) ∧
  opt_ok mqtt_bytes (ca_authentication_data p).

#[global] Instance ConnAckProperties_set : PropertySet ConnAckProperties := {|
  ps_read := ConnAckProperties_read; ps_write := ConnAckProperties_write;
  ps_len := ConnAckProperties_len; ps_items := ConnAckProperties_items;
  ps_valid := ConnAckProperties_valid; ps_exact _ := True; ps_encodable _ := True |}.

Lemma ConnAckProperties_len_ok p :
  ConnAckProperties_len p = blen (items_bytes (ConnAckProperties_items p)).
Proof. unfold ConnAckProperties_len, ConnAckProperties_items. solve_len. Qed.

(** A field that is a boolean byte, and the receive maximum. *)
Lemma runs_bool {P} (step : prop_step P) (set : option u8 → P) t o :
  step t (PropertyType_as_u8 t) (set None) =
    (v ← read_boolean_connack_property None; mret (set v, 1)) →
  (∀ x, o = Some x → is_bool x) → runs step (set None) (opt_item t V_u8 o) (set o).
Proof.
  intros Hs Ho. apply runs_opt. intros x Hx. unfold reads_item. cbn [fst snd]. rewrite Hs.
  specialize (Ho x Hx). unfold is_bool in Ho. rewrite <- (app_nil_r (value_bytes _)) at 1.
  eapply reads_bind; [|apply reads_ret]. rewrite <- (app_nil_r (value_bytes _)).
  eapply reads_bind; [apply reads_v5_u8|]. rewrite (proj2 (Z.ltb_ge _ _)) by lia. apply reads_ret.
Qed.

Lemma runs_nonzero_u16 {P} (step : prop_step P) (set : option u16 → P) t o e :
  step t (PropertyType_as_u8 t) (set None) =
    (v ← read_u16; if v =? 0 then mfail e else mret (set (Some v), 2)) →
  (∀ x, o = Some x → is_u16 x ∧ x ≠ 0) → runs step (set None) (opt_item t V_u16 o) (set o).
Proof.
  intros Hs Ho. apply runs_opt. intros x Hx. destruct (Ho x Hx) as [Hu Hne]. unfold reads_item.
  cbn [fst snd]. rewrite Hs. rewrite <- (app_nil_r (value_bytes _)) at 1.
  eapply reads_bind; [by apply reads_v5_u16|]. rewrite (proj2 (Z.eqb_neq _ 0)) by done.
  apply reads_ret.
Qed.

Lemma safe_boolean o :
  reads_safe (read_boolean_connack_property o) (λ r, ∃ v, r = Some v ∧ is_bool v).
Proof.
  destruct o; cbn [read_boolean_connack_property]; [apply reads_safe_fail|].
  safe_read. intros v Hv. destruct (Z.ltb_spec 1 v); [apply reads_safe_fail|].
  apply reads_safe_ret. exists v. unfold is_bool, is_u8 in *. split; [done|lia].
Qed.
#[export] Hint Resolve safe_boolean : reads_safe.

Lemma ConnAckProperties_runs p :
  ConnAckProperties_valid p →
  runs read_connack_property ConnAckProperties_default (ConnAckProperties_items p) p.
Proof.
  destruct p as [sei rm mq ra mps aci tam rs up wsa sia ssa ska ri sr am ad].
  intros (H1 & H2 & H3 & H4 & H5 & H6 & H7 & H8 & H9 & H10 & H11 & H12 & H13 & H14 & H15 & H16 & H17).
  eapply runs_app; [by apply (runs_u32 _ (λ o, mkConnAckProperties o None None None None None None None [] None None
    None None None None None None))|].
  eapply runs_app; [by apply (runs_nonzero_u16 _ (λ o, mkConnAckProperties sei o None None None None None None []
    None None None None None None None None) _ _ ProtocolError)|].
  eapply runs_app; [by apply (runs_bool _ (λ o, mkConnAckProperties sei rm o None None None None None [] None None
    None None None None None None))|].
  eapply runs_app; [by apply (runs_bool _ (λ o, mkConnAckProperties sei rm mq o None None None None [] None None None
    None None None None None))|].
  eapply runs_app; [by apply (runs_u32 _ (λ o, mkConnAckProperties sei rm mq ra o None None None [] None None None
    None None None None None))|].
  eapply runs_app; [by apply (runs_string _ (λ o, mkConnAckProperties sei rm mq ra mps o None None [] None None None
    None None None None None))|].
  eapply runs_app; [by apply (runs_u16 _ (λ o, mkConnAckProperties sei rm mq ra mps aci o None [] None None None None
    None None None None))|].
  eapply runs_app; [by apply (runs_string _ (λ o, mkConnAckProperties sei rm mq ra mps aci tam o [] None None None
    None None None None None))|].
  eapply runs_app; [by apply (runs_pairs _ (λ o, mkConnAckProperties sei rm mq ra mps aci tam rs o None None None
    None None None None None))|].
  eapply runs_app; [by apply (runs_bool _ (λ o, mkConnAckProperties sei rm mq ra mps aci tam rs up o None None None
    None None None None))|].
  eapply runs_app; [by apply (runs_bool _ (λ o, mkConnAckProperties sei rm mq ra mps aci tam rs up wsa o None None
    None None None None))|].
  eapply runs_app; [by apply (runs_bool _ (λ o, mkConnAckProperties sei rm mq ra mps aci tam rs up wsa sia o None
    None None None None))|].
  eapply runs_app; [by apply (runs_u16 _ (λ o, mkConnAckProperties sei rm mq ra mps aci tam rs up wsa sia ssa o None
    None None None))|].
  eapply runs_app; [by apply (runs_string _ (λ o, mkConnAckProperties sei rm mq ra mps aci tam rs up wsa sia ssa ska
    o None None None))|].
  eapply runs_app; [by apply (runs_string _ (λ o, mkConnAckProperties sei rm mq ra mps aci tam rs up wsa sia ssa ska
    ri o None None))|].
  eapply runs_app; [by apply (runs_string _ (λ o, mkConnAckProperties sei rm mq ra mps aci tam rs up wsa sia ssa ska
    ri sr o None))|].
  by apply (runs_bytes _ (λ o, mkConnAckProperties sei rm mq ra mps aci tam rs up wsa sia ssa ska
    ri sr am o)).
Qed.

Lemma ConnAckProperties_step_safe :
  step_safe read_connack_property ConnAckProperties_items ConnAckProperties_valid.
Proof.
  intros t b p Hv. destruct p as [sei rm mq ra mps aci tam rs up wsa sia ssa ska ri sr am ad].
  unfold ConnAckProperties_valid in Hv; cbn in Hv.
  destruct Hv as (H1 & H2 & H3 & H4 & H5 & H6 & H7 & H8 & H9 & H10 & H11 & H12 & H13 & H14 & H15 & H16 & H17).
  destruct t; cbn [read_connack_property]; try apply reads_safe_fail;
    try (case_match; [apply reads_safe_fail|]);
    safe_read;
    first [intros [[? ?] ?] (? & ? & ?)|intros ? (? & -> & ?)|intros ? ?];
    try (safe_check; apply Z.eqb_neq in Heqb0);
    safe_ret; solve_valid ConnAckProperties_valid.
Qed.

Lemma is_bool_u8 n : is_bool n → is_u8 n.
Proof. unfold is_bool, is_u8. lia. Qed.

Lemma exceeds_one_false o : opt_ok is_bool o → exceeds_one o = false.
Proof.
  intros Ho. destruct o as [v|]; [|done]. specialize (Ho v eq_refl). unfold is_bool in Ho.
  cbn. lia.
Qed.

Lemma ConnAckProperties_write_ok p :
  ConnAckProperties_valid p → blen (items_bytes (ConnAckProperties_items p)) ≤ MAX_REMAINING_LENGTH →
  writes (ConnAckProperties_write p) (properties_bytes (ConnAckProperties_items p)) tt.
Proof.
  intros (H1 & H2 & H3 & H4 & H5 & H6 & H7 & H8 & H9 & H10 & H11 & H12 & H13 & H14 & H15 & H16 & H17) Hb.
  unfold ConnAckProperties_write, ConnAckProperties_write_inner. cbn [existsb].
  rewrite !exceeds_one_false by done. cbn [orb].
  apply writes_property_list; [apply ConnAckProperties_len_ok|done|].
  unfold ConnAckProperties_items.
  repeat (apply writes_items_then; [|]); try (apply writes_if_some; intros x Hx; apply writes_item);
    first [ apply writes_put_u8 | apply writes_put_u16 | apply writes_put_u32
          | apply writes_v5_string; auto | apply writes_v5_bytes; auto
          | by apply writes_user_properties ].
Qed.

#[global] Instance ConnAckProperties_laws : PropertySetLaws ConnAckProperties.
Proof.
  split; cbn.
  - apply ConnAckProperties_len_ok.
  - apply ConnAckProperties_write_ok.
  - intros p Hv _ Hne Hb. apply reads_properties; [done..|].
    rewrite <- (Z.add_0_l (blen _)). by apply runs_runs_at, ConnAckProperties_runs.
  - apply reads_no_properties.
  - apply read_properties_safe; [apply ConnAckProperties_step_safe|].
    unfold ConnAckProperties_valid. cbn.
    repeat match goal with |- _ ∧ _ => split end; auto. constructor.
  - intros p (H1 & H2 & H3 & H4 & H5 & H6 & H7 & H8 & H9 & H10 & H11 & H12 & H13 & H14 & H15 & H16 & H17).
    unfold ConnAckProperties_items. repeat (apply Forall_app; split);
      first [ by apply Forall_pair_items
            | apply Forall_opt_item; intros x Hx; cbn [value_ok]; auto using is_bool_u8 ].
    by apply H2.
  - done.
  - intros p _. apply total_transactional. unfold ConnAckProperties_write_inner.
    case_match; [done|]. apply total_bind.
    { apply v5_total_length. rewrite ConnAckProperties_len_ok. apply blen_nonneg. }
    intros _. repeat (apply total_bind; [|intros _]); try (apply total_if_some; intros x Hx);
      try (apply (total_bind (put_u8 _)); [done|intros _]); auto with appends; done.
  - intros p. apply appends_transactional. unfold ConnAckProperties_write_inner.
    case_match; [auto with appends|].
    repeat (apply appends_bind; [|intros _]); try (apply appends_if_some; intros x);
      auto with appends.
Qed.

(** * Laws of CONNACK *)

(** The members of the enumeration that MQTT 5 has. *)
Definition v5_code (c : ConnectReturnCode) : Prop := ∃ n, connect_code c = Ok n.

Definition code_byte (c : ConnectReturnCode) : u8 :=
  match connect_code c with Ok n => n | _ => 0 end.

Definition ConnAck_valid (a : ConnAck) : Prop :=
  v5_code (code a) ∧ (code a = CRC_Success ∨ session_present a = false) ∧
  props_valid (connack_properties a).

Definition ConnAck_content (a : ConnAck) : Bytes :=
  [Z.b2z (session_present a)] ++ [code_byte (code a)] ++ props_bytes (connack_properties a).

#[local] Arguments ConnAck_content : simpl never.

#[global] Instance ConnAck_wire : WirePacket ConnAck := {|
  wire_read := ConnAck_read; wire_write := ConnAck_write; wire_size := ConnAck_size;
  wire_byte1 _ := 0x20; wire_content := ConnAck_content; wire_valid := ConnAck_valid;
  wire_exact _ := True; wire_encodable a := v5_code (code a) |}.

Lemma connect_return_code c : v5_code c → connect_return (code_byte c) = Ok c ∧ is_u8 (code_byte c).
Proof. intros [n Hn]. unfold is_u8. by destruct c. Qed.

Lemma connect_return5_safe n :
  match connect_return n with Ok c => v5_code c | Err _ => True | Panic => False end.
Proof.
  destruct n as [|n|n]; [by eexists| |done].
  by do 8 (destruct n as [n|n|]; try done); eexists.
Qed.

Lemma blen_ConnAck5 a : blen (ConnAck_content a) = ConnAck_len a.
Proof.
  unfold ConnAck_content, ConnAck_len. rewrite !blen_app, <- properties_size_eq.
  cbn [ps_len ConnAckProperties_set]. rewrite !blen_cons, !blen_nil. lia.
Qed.

Lemma connack_guard a :
  ConnAck_valid a → negb (bool_decide (code a = CRC_Success)) && session_present a = false.
Proof.
  intros (_ & [-> | ->] & _); [done|]. by destruct (bool_decide _).
Qed.

#[global] Instance ConnAck_laws : WirePacketLaws ConnAck.
Proof.
  split; unfold frame_bytes; cbn.
  - intros a Hv Hb. apply writes_transactional. unfold ConnAck_write_inner.
    rewrite connack_guard by done. destruct Hv as ([n Hn] & _ & Hp).
    pose proof (blen_nonneg (ConnAck_content a)). unfold ConnAck_size.
    rewrite <- (blen_ConnAck5 a). apply writes_v5_frame; [lia|].
    eapply writes_bind; [apply writes_put_u8|].
    rewrite <- (app_nil_l ([code_byte _] ++ _)).
    eapply writes_bind; [by apply writes_lift|].
    unfold code_byte. rewrite Hn. eapply writes_bind; [apply writes_put_u8|].
    eapply writes_last; [refine (writes_props (connack_properties a) Hp _)|done].
    unfold ConnAck_content in Hb. rewrite !blen_app, !blen_cons, !blen_nil in Hb. lia.
  - intros [sp c o] hdr Hv _ Hb. unfold ConnAck_read. cbn [header_len].
    rewrite run_on_skip_header. unfold ConnAck_content in *. cbn [session_present code connack_properties] in *.
    erewrite run_on_bind by apply reads_v5_u8.
    assert (Hf : negb (Z.land (Z.b2z sp) 0xFE =? 0) = false ∧ (Z.land (Z.b2z sp) 1 =? 1) = sp)
      by by destruct sp.
    destruct Hf as [-> Hsp]. cbv zeta. rewrite Hsp.
    erewrite run_on_bind by apply reads_v5_u8.
    pose proof (connack_guard _ Hv) as Hg. destruct Hv as (Hc & _ & Hp).
    cbn [session_present code connack_properties] in *. apply connect_return_code in Hc as [Hc _].
    rewrite <- (app_nil_l (props_bytes o)).
    erewrite run_on_bind by (by apply reads_lift). rewrite Hg.
    rewrite <- (app_nil_r (props_bytes o)). erewrite run_on_bind.
    2: { refine (reads_props o Hp _ _); [by destruct o|]. rewrite !blen_app, !blen_cons, !blen_nil in Hb. lia. }
    done.
  - intros a Hv. unfold ConnAck_size.
    rewrite blen_cons, blen_app, blen_remaining_length_bytes, blen_ConnAck5. lia.
  - intros a (Hc & _ & Hp) Hb. unfold ConnAck_content in *. rewrite !blen_app, !blen_cons, !blen_nil in Hb.
    apply Forall_app; split; [|apply Forall_app; split].
    + constructor; [|constructor]. unfold is_u8. destruct (session_present a); simpl; lia.
    + constructor; [|constructor]. by apply connect_return_code.
    + apply props_bytes_u8; [done|]. lia.
  - intros h bytes ? ? ? ? ?. apply run_on_safe; [done|lia|]. safe_read. intros flags _. safe_check.
    safe_read. intros rc _. cbv zeta.
    eapply reads_safe_bind; [apply reads_safe_lift, connect_return5_safe|]. intros c Hc. safe_check.
    eapply reads_safe_bind; [exact (props_safe (P:=ConnAckProperties))|]. intros o Ho.
    apply reads_safe_ret. split_and!; [done| |done]. cbn.
    apply andb_false_iff in Heqb0 as [Hb0|]; [left|by right].
    apply negb_false_iff in Hb0. by apply bool_decide_eq_true in Hb0.
  - by intros a (? & _).
  - intros a [n Hn]. apply total_transactional. unfold ConnAck_write_inner.
    destruct (_ && _); [done|]. apply (total_bind (put_u8 _)); [done|]. intros _. apply total_bind.
    { apply v5_total_length. rewrite <- blen_ConnAck5. apply blen_nonneg. }
    intros k. apply (total_bind (put_u8 _)); [done|]. intros _.
    apply total_bind; [intros s; by rewrite Hn|]. intros c.
    apply (total_bind (put_u8 _)); [done|]. intros _. apply total_bind; [|done].
    refine (total_props (connack_properties a) _). by destruct (connack_properties a).
  - intros a. apply appends_transactional. unfold ConnAck_write_inner.
    destruct (_ && _); [auto with appends|].
    repeat (apply appends_bind; [first [solve [auto with appends]|idtac]|intros ?]); auto with appends.
    exact (appends_props (connack_properties a)).
Qed.

(** [ConnAck::write] panics on the three return codes of MQTT 3.1.1. *)
Lemma connack_v4_codes_panic a s :
  ¬ v5_code (code a) → session_present a = false →
  ConnAck_len a ≤ MAX_REMAINING_LENGTH → (ConnAck_write a s).1 = Panic.
Proof.
  intros Hc Hsp Hl. unfold ConnAck_write, transactional_write, ConnAck_write_inner.
  rewrite Hsp, andb_false_r. rewrite bind_run. cbn [put_u8 put_slice mmodify].
  rewrite bind_run, writes_v5_length.
  2: { rewrite <- blen_ConnAck5 in *. split; [apply blen_nonneg|done]. }
  rewrite bind_run. cbn [put_u8 put_slice mmodify]. rewrite bind_run. unfold lift.
  destruct (connect_code (code a)) as [n|e|] eqn:He; [|by destruct (code a)|done].
  destruct Hc. by exists n.
Qed.
