(* ===== verification/V5ConnectProps.v ===== *)
(** [mqttbytes-v5/src/v5/connect.rs]: the properties of CONNECT and of its last will. *)

From S2P Require Import Prelude.
From S2P Require Import Utf8.
From S2P Require Import Primitives.
From S2P Require Import CodecBase.
From S2P Require Import V5Base.
From S2P Require Import V5Properties.

(** * CONNECT properties *)

Record ConnectProperties := mkConnectProperties {
  cp_session_expiry_interval : option u32;
  cp_receive_maximum : option u16;
  cp_max_packet_size : option u32;
  cp_topic_alias_max : option u16;
  cp_request_response_info : option u8;
  cp_request_problem_info : option u8;
  cp_user_properties : pairs;
  cp_authentication_method : option Bytes;
  cp_authentication_data : option Bytes;
}.

#[global] Instance ConnectProperties_eq_dec : EqDecision ConnectProperties.
Proof. solve_decision. Defined.

Definition ConnectProperties_new : ConnectProperties :=
  mkConnectProperties None None None None None None [] None None.

Definition ConnectProperties_len (self : ConnectProperties) : usize :=
  let len := 0 in
  let len := add_some len (cp_session_expiry_interval self) (λ _, 1 + 4) in
  let len := add_some len (cp_receive_maximum self) (λ _, 1 + 2) in
  let len := add_some len (cp_max_packet_size self) (λ _, 1 + 4) in
  let len := add_some len (cp_topic_alias_max self) (λ _, 1 + 2) in
  let len := add_some len (cp_request_response_info self) (λ _, 1 + 1) in
  let len := add_some len (cp_request_problem_info self) (λ _, 1 + 1) in
  let len := user_properties_len len (cp_user_properties self) in
  let len := add_some len (cp_authentication_method self) (λ m, 1 + 2 + blen m) in
  add_some len (cp_authentication_data self) (λ d, 1 + 2 + blen d).

(** The [match property(prop)?] of [ConnectProperties::read]. *)
Definition ConnectProperties_step : prop_step ConnectProperties := λ property_type prop self,
  match self with
  | mkConnectProperties sei rm mps tam rri rpi up am ad =>
      match property_type with
      | SessionExpiryInterval =>
          v ← read_u32;
          mret (mkConnectProperties (Some v) rm mps tam rri rpi up am ad, 4)
      | ReceiveMaximum =>
          receive_max ← read_u16;
          if receive_max =? 0 then mfail ProtocolError
          else mret (mkConnectProperties sei (Some receive_max) mps tam rri rpi up am ad, 2)
      | MaximumPacketSize =>
          v ← read_u32;
          mret (mkConnectProperties sei rm (Some v) tam rri rpi up am ad, 4)
      | TopicAliasMaximum =>
          v ← read_u16;
          mret (mkConnectProperties sei rm mps (Some v) rri rpi up am ad, 2)
      | RequestResponseInformation =>
          if is_some rri then mfail ProtocolError
          else
            value ← read_u8;
            if 1 <? value then mfail ProtocolError
            else mret (mkConnectProperties sei rm mps tam (Some value) rpi up am ad, 1)
      | RequestProblemInformation =>
          if is_some rpi then mfail ProtocolError
          else
            value ← read_u8;
            if 1 <? value then mfail ProtocolError
            else mret (mkConnectProperties sei rm mps tam rri (Some value) up am ad, 1)
      | UserProperty =>
          '(key, value, n) ← read_user_property;
          mret (mkConnectProperties sei rm mps tam rri rpi (up ++ [(key, value)]) am ad, n)
      | AuthenticationMethod =>
          method ← read_mqtt_string;
          mret (mkConnectProperties sei rm mps tam rri rpi up (Some method) ad, 2 + blen method)
      | AuthenticationData =>
          data ← read_mqtt_bytes;
          mret (mkConnectProperties sei rm mps tam rri rpi up am (Some data), 2 + blen data)
      | _ => mfail (InvalidPropertyType prop)
      end
  end.

Definition ConnectProperties_read : M Bytes Error (option ConnectProperties) :=
  read_properties ConnectProperties_step ConnectProperties_new.

Definition ConnectProperties_write_inner (self : ConnectProperties) : M Bytes Error unit :=
  let len := ConnectProperties_len self in
  _ ← write_remaining_length len;
  if_some (cp_session_expiry_interval self) (λ session_expiry_interval,
    put_u8 (PropertyType_as_u8 SessionExpiryInterval);;
    put_u32 session_expiry_interval);;
  if_some (cp_receive_maximum self) (λ receive_maximum,
    put_u8 (PropertyType_as_u8 ReceiveMaximum);;
    put_u16 receive_maximum);;
  if_some (cp_max_packet_size self) (λ max_packet_size,
    put_u8 (PropertyType_as_u8 MaximumPacketSize);;
    put_u32 max_packet_size);;
  if_some (cp_topic_alias_max self) (λ topic_alias_max,
    put_u8 (PropertyType_as_u8 TopicAliasMaximum);;
    put_u16 topic_alias_max);;
  if_some (cp_request_response_info self) (λ request_response_info,
    if 1 <? request_response_info then mfail ProtocolError
    else
      put_u8 (PropertyType_as_u8 RequestResponseInformation);;
      put_u8 request_response_info);;
  if_some (cp_request_problem_info self) (λ request_problem_info,
    if 1 <? request_problem_info then mfail ProtocolError
    else
      put_u8 (PropertyType_as_u8 RequestProblemInformation);;
      put_u8 request_problem_info);;
  write_user_properties (cp_user_properties self);;
  if_some (cp_authentication_method self) (λ authentication_method,
    put_u8 (PropertyType_as_u8 AuthenticationMethod);;
    write_mqtt_string authentication_method);;
  if_some (cp_authentication_data self) (λ authentication_data,
    put_u8 (PropertyType_as_u8 AuthenticationData);;
    write_mqtt_bytes authentication_data).

Definition ConnectProperties_write (self : ConnectProperties) : M Bytes Error unit :=
  transactional_write (ConnectProperties_write_inner self).

(** * Last will properties *)

Record LastWillProperties := mkLastWillProperties {
  wp_delay_interval : option u32;
  wp_payload_format_indicator : option u8;
  wp_message_expiry_interval : option u32;
  wp_content_type : option Bytes;
  wp_response_topic : option Bytes;
  wp_correlation_data : option Bytes;
  wp_user_properties : pairs;
}.

#[global] Instance LastWillProperties_eq_dec : EqDecision LastWillProperties.
Proof. solve_decision. Defined.

Definition LastWillProperties_len (self : LastWillProperties) : usize :=
  let len := 0 in
  let len := add_some len (wp_delay_interval self) (λ _, 1 + 4) in
  let len := add_some len (wp_payload_format_indicator self) (λ _, 1 + 1) in
  let len := add_some len (wp_message_expiry_interval self) (λ _, 1 + 4) in
  let len := add_some len (wp_content_type self) (λ typ, 1 + 2 + blen typ) in
  let len := add_some len (wp_response_topic self) (λ topic, 1 + 2 + blen topic) in
  let len := add_some len (wp_correlation_data self) (λ data, 1 + 2 + blen data) in
  user_properties_len len (wp_user_properties self).

(** The [match property(prop)?] of [LastWillProperties::read]. *)
Definition LastWillProperties_step : prop_step LastWillProperties := λ property_type prop self,
  match self with
  | mkLastWillProperties di pfi mei ct rt cd up =>
      match property_type with
      | WillDelayInterval =>
          v ← read_u32; mret (mkLastWillProperties (Some v) pfi mei ct rt cd up, 4)
      | PayloadFormatIndicator =>
          v ← read_u8; mret (mkLastWillProperties di (Some v) mei ct rt cd up, 1)
      | MessageExpiryInterval =>
          v ← read_u32; mret (mkLastWillProperties di pfi (Some v) ct rt cd up, 4)
      | ContentType =>
          typ ← read_mqtt_string;
          mret (mkLastWillProperties di pfi mei (Some typ) rt cd up, 2 + blen typ)
      | ResponseTopic =>
          topic ← read_mqtt_string;
          mret (mkLastWillProperties di pfi mei ct (Some topic) cd up, 2 + blen topic)
      | CorrelationData =>
          data ← read_mqtt_bytes;
          mret (mkLastWillProperties di pfi mei ct rt (Some data) up, 2 + blen data)
      | UserProperty =>
          '(key, value, n) ← read_user_property;
          mret (mkLastWillProperties di pfi mei ct rt cd (up ++ [(key, value)]), n)
      | _ => mfail (InvalidPropertyType prop)
      end
  end.

Definition LastWillProperties_empty : LastWillProperties :=
  mkLastWillProperties None None None None None None [].

Definition LastWillProperties_read : M Bytes Error (option LastWillProperties) :=
  read_properties LastWillProperties_step LastWillProperties_empty.

Definition LastWillProperties_write_inner (self : LastWillProperties) : M Bytes Error unit :=
  let len := LastWillProperties_len self in
  _ ← write_remaining_length len;
  if_some (wp_delay_interval self) (λ delay_interval,
    put_u8 (PropertyType_as_u8 WillDelayInterval);;
    put_u32 delay_interval);;
  if_some (wp_payload_format_indicator self) (λ payload_format_indicator,
    put_u8 (PropertyType_as_u8 PayloadFormatIndicator);;
    put_u8 payload_format_indicator);;
  if_some (wp_message_expiry_interval self) (λ message_expiry_interval,
    put_u8 (PropertyType_as_u8 MessageExpiryInterval);;
    put_u32 message_expiry_interval);;
  if_some (wp_content_type self) (λ typ,
    put_u8 (PropertyType_as_u8 ContentType);;
    write_mqtt_string typ);;
  if_some (wp_response_topic self) (λ topic,
    put_u8 (PropertyType_as_u8 ResponseTopic);;
    write_mqtt_string topic);;
  if_some (wp_correlation_data self) (λ data,
    put_u8 (PropertyType_as_u8 CorrelationData);;
    write_mqtt_bytes data);;
  write_user_properties (wp_user_properties self).

Definition LastWillProperties_write (self : LastWillProperties) : M Bytes Error unit :=
  transactional_write (LastWillProperties_write_inner self).

(** * Laws of the CONNECT properties *)

Definition ConnectProperties_items (p : ConnectProperties) : list item :=
  opt_item SessionExpiryInterval V_u32 (cp_session_expiry_interval p) ++
  opt_item ReceiveMaximum V_u16 (cp_receive_maximum p) ++
  opt_item MaximumPacketSize V_u32 (cp_max_packet_size p) ++
  opt_item TopicAliasMaximum V_u16 (cp_topic_alias_max p) ++
  opt_item RequestResponseInformation V_u8 (cp_request_response_info p) ++
  opt_item RequestProblemInformation V_u8 (cp_request_problem_info p) ++
  pair_items (cp_user_properties p) ++
  opt_item AuthenticationMethod V_str (cp_authentication_method p) ++
  opt_item AuthenticationData V_bin (cp_authentication_data p).

Definition is_flag (n : u8) : Prop := 0 ≤ n ≤ 1.

(** The receive maximum 0 is refused by the reader and not by the writer. *)
Definition ConnectProperties_valid (p : ConnectProperties) : Prop :=
  opt_ok is_u32 (cp_session_expiry_interval p) ∧
  opt_ok (λ n, is_u16 n ∧ n ≠ 0) (cp_receive_maximum p) ∧
  opt_ok is_u32 (cp_max_packet_size p) ∧ opt_ok is_u16 (cp_topic_alias_max p) ∧
  opt_ok is_flag (cp_request_response_info p) ∧ opt_ok is_flag (cp_request_problem_info p) ∧
  pairs_valid (cp_user_properties p) ∧ opt_ok mqtt_string (cp_authentication_method p) ∧
  opt_ok mqtt_bytes (cp_authentication_data p).

#[global] Instance ConnectProperties_set : PropertySet ConnectProperties := {|
  ps_read := ConnectProperties_read; ps_write := ConnectProperties_write;
  ps_len := ConnectProperties_len; ps_items := ConnectProperties_items;
  ps_valid := ConnectProperties_valid; ps_exact _ := True; ps_encodable _ := True |}.

Lemma ConnectProperties_len_ok p :
  ConnectProperties_len p = blen (items_bytes (ConnectProperties_items p)).
Proof. unfold ConnectProperties_len, ConnectProperties_items. solve_len. Qed.

(** The arm of a flag: a byte that must be 0 or 1. *)
Lemma reads_flag_item {P} (set : u8 → P) n :
  is_flag n →
  reads (value ← read_u8; if 1 <? value then mfail ProtocolError else mret (set value, 1))
    (value_bytes (V_u8 n)) (set n, blen (value_bytes (V_u8 n))).
Proof.
  intros Hn. eapply (reads_bind _ _ [n] []); [apply reads_v5_u8|].
  rewrite (proj2 (Z.ltb_ge _ _)); [apply reads_ret|]. unfold is_flag in Hn. lia.
Qed.

Lemma ConnectProperties_runs p :
  ConnectProperties_valid p →
  runs ConnectProperties_step ConnectProperties_new (ConnectProperties_items p) p.
Proof.
  destruct p as [sei rm mps tam rri rpi up am ad].
  intros (H1 & H2 & H3 & H4 & H5 & H6 & H7 & H8 & H9). cbn in *.
  eapply runs_app; [by apply (runs_u32 _ (λ o, mkConnectProperties o None None None None None [] None None))|].
  eapply runs_app.
  { apply (runs_opt _ (λ o, mkConnectProperties sei o None None None None [] None None)).
    intros x Hx. destruct (H2 x Hx) as [Hu Hne]. unfold reads_item. cbn [fst snd].
    rewrite <- (app_nil_r (value_bytes _)) at 1.
    eapply reads_bind; [by apply reads_v5_u16|]. rewrite (proj2 (Z.eqb_neq _ 0)) by done.
    apply reads_ret. }
  eapply runs_app; [by apply (runs_u32 _ (λ o, mkConnectProperties sei rm o None None None [] None None))|].
  eapply runs_app; [by apply (runs_u16 _ (λ o, mkConnectProperties sei rm mps o None None [] None None))|].
  eapply runs_app.
  { apply (runs_opt _ (λ o, mkConnectProperties sei rm mps tam o None [] None None)).
    intros x Hx. apply (reads_flag_item (λ v, mkConnectProperties sei rm mps tam (Some v) None [] None None)).
    by apply H5. }
  eapply runs_app.
  { apply (runs_opt _ (λ o, mkConnectProperties sei rm mps tam rri o [] None None)).
    intros x Hx. apply (reads_flag_item (λ v, mkConnectProperties sei rm mps tam rri (Some v) [] None None)).
    by apply H6. }
  eapply runs_app; [by apply (runs_pairs _ (λ l, mkConnectProperties sei rm mps tam rri rpi l None None))|].
  eapply runs_app; [by apply (runs_string _ (λ o, mkConnectProperties sei rm mps tam rri rpi up o None))|].
  by apply (runs_bytes _ (λ o, mkConnectProperties sei rm mps tam rri rpi up am o)).
Qed.

Lemma is_flag_of n : is_u8 n → (1 <? n) = false → is_flag n.
Proof. unfold is_u8, is_flag. lia. Qed.

Lemma ConnectProperties_step_safe :
  step_safe ConnectProperties_step ConnectProperties_items ConnectProperties_valid.
Proof.
  intros t b [sei rm mps tam rri rpi up am ad] Hv. unfold ConnectProperties_valid in Hv; cbn in Hv.
  destruct Hv as (H1 & H2 & H3 & H4 & H5 & H6 & H7 & H8 & H9).
  destruct t; cbn [ConnectProperties_step]; try apply reads_safe_fail;
    repeat first [progress safe_check | safe_read; intros v Hx];
    try (destruct v as [[k v] n]; destruct Hx as (? & ? & ?));
    repeat match goal with
    | H : (_ =? 0) = false |- _ => apply Z.eqb_neq in H
    | Hu : is_u8 ?v, H : (1 <? ?v) = false |- _ => apply (is_flag_of _ Hu) in H
    end;
    safe_ret; solve_valid ConnectProperties_valid.
Qed.

Lemma ConnectProperties_write_ok p :
  ConnectProperties_valid p → blen (items_bytes (ConnectProperties_items p)) ≤ MAX_REMAINING_LENGTH →
  writes (ConnectProperties_write p) (properties_bytes (ConnectProperties_items p)) tt.
Proof.
  intros (H1 & H2 & H3 & H4 & H5 & H6 & H7 & H8 & H9) Hb.
  apply writes_property_list; [apply ConnectProperties_len_ok|done|].
  unfold ConnectProperties_items.
  repeat (apply writes_items_then; [|]); try apply writes_if_some.
  - intros x _. apply writes_item, writes_put_u32.
  - intros x _. apply writes_item, writes_put_u16.
  - intros x _. apply writes_item, writes_put_u32.
  - intros x _. apply writes_item, writes_put_u16.
  - intros x Hx. rewrite (proj2 (Z.ltb_ge _ _)); [|apply (H5 x Hx)].
    apply writes_item, writes_put_u8.
  - intros x Hx. rewrite (proj2 (Z.ltb_ge _ _)); [|apply (H6 x Hx)].
    apply writes_item, writes_put_u8.
  - by apply writes_user_properties.
  - intros x Hx. apply writes_item, writes_v5_string. by apply H8.
  - intros x Hx. apply writes_item, writes_v5_bytes. by apply H9.
Qed.

#[global] Instance ConnectProperties_laws : PropertySetLaws ConnectProperties.
Proof.
  split; cbn.
  - apply ConnectProperties_len_ok.
  - apply ConnectProperties_write_ok.
  - intros p Hv He Hne Hb. apply reads_properties; [done..|].
    rewrite <- (Z.add_0_l (blen _)). by apply runs_runs_at, ConnectProperties_runs.
  - apply reads_no_properties.
  - apply read_properties_safe; [apply ConnectProperties_step_safe|].
    repeat split; try done; constructor.
  - intros p (H1 & H2 & H3 & H4 & H5 & H6 & H7 & H8 & H9).
    unfold ConnectProperties_items. repeat (apply Forall_app; split);
      try (apply Forall_opt_item; done); try (by apply Forall_pair_items);
      apply Forall_opt_item; intros x Hx; cbn.
    + apply (H2 x Hx).
    + specialize (H5 x Hx). unfold is_flag, is_u8 in *. lia.
    + specialize (H6 x Hx). unfold is_flag, is_u8 in *. lia.
  - done.
  - intros p _. apply total_transactional, total_bind.
    { apply v5_total_length. rewrite ConnectProperties_len_ok. apply blen_nonneg. }
    intros _. repeat (apply total_bind; [|intros _]); try (apply total_if_some; intros x Hx);
      try (destruct (1 <? x); [done|]);
      try (apply (total_bind (put_u8 _)); [done|intros _]); auto with appends; try done.
  - intros p. apply appends_transactional. unfold ConnectProperties_write_inner.
    repeat (apply appends_bind; [|intros _]); try (apply appends_if_some; intros x);
      auto with appends; destruct (1 <? x); auto with appends.
Qed.

(** * Laws of the last will properties *)

Definition LastWillProperties_items (p : LastWillProperties) : list item :=
  opt_item WillDelayInterval V_u32 (wp_delay_interval p) ++
  opt_item PayloadFormatIndicator V_u8 (wp_payload_format_indicator p) ++
  opt_item MessageExpiryInterval V_u32 (wp_message_expiry_interval p) ++
  opt_item ContentType V_str (wp_content_type p) ++
  opt_item ResponseTopic V_str (wp_response_topic p) ++
  opt_item CorrelationData V_bin (wp_correlation_data p) ++
  pair_items (wp_user_properties p).

Definition LastWillProperties_valid (p : LastWillProperties) : Prop :=
  opt_ok is_u32 (wp_delay_interval p) ∧ opt_ok is_u8 (wp_payload_format_indicator p) ∧
  opt_ok is_u32 (wp_message_expiry_interval p) ∧ opt_ok mqtt_string (wp_content_type p) ∧
  opt_ok mqtt_string (wp_response_topic p) ∧ opt_ok mqtt_bytes (wp_correlation_data p) ∧
  pairs_valid (wp_user_properties p).

#[global] Instance LastWillProperties_set : PropertySet LastWillProperties := {|
  ps_read := LastWillProperties_read; ps_write := LastWillProperties_write;
  ps_len := LastWillProperties_len; ps_items := LastWillProperties_items;
  ps_valid := LastWillProperties_valid; ps_exact _ := True; ps_encodable _ := True |}.

Lemma LastWillProperties_len_ok p :
  LastWillProperties_len p = blen (items_bytes (LastWillProperties_items p)).
Proof. unfold LastWillProperties_len, LastWillProperties_items. solve_len. Qed.

Lemma LastWillProperties_runs p :
  LastWillProperties_valid p →
  runs LastWillProperties_step LastWillProperties_empty (LastWillProperties_items p) p.
Proof.
  destruct p as [di pfi mei ct rt cd up]. intros (H1 & H2 & H3 & H4 & H5 & H6 & H7). cbn in *.
  eapply runs_app; [by apply (runs_u32 _ (λ o, mkLastWillProperties o None None None None None []))|].
  eapply runs_app; [by apply (runs_u8 _ (λ o, mkLastWillProperties di o None None None None []))|].
  eapply runs_app; [by apply (runs_u32 _ (λ o, mkLastWillProperties di pfi o None None None []))|].
  eapply runs_app; [by apply (runs_string _ (λ o, mkLastWillProperties di pfi mei o None None []))|].
  eapply runs_app; [by apply (runs_string _ (λ o, mkLastWillProperties di pfi mei ct o None []))|].
  eapply runs_app; [by apply (runs_bytes _ (λ o, mkLastWillProperties di pfi mei ct rt o []))|].
  by apply (runs_pairs _ (λ l, mkLastWillProperties di pfi mei ct rt cd l)).
Qed.

Lemma LastWillProperties_step_safe :
  step_safe LastWillProperties_step LastWillProperties_items LastWillProperties_valid.
Proof.
  intros t b [di pfi mei ct rt cd up] Hv. unfold LastWillProperties_valid in Hv; cbn in Hv.
  destruct Hv as (H1 & H2 & H3 & H4 & H5 & H6 & H7).
  destruct t; cbn [LastWillProperties_step]; try apply reads_safe_fail;
    safe_read; intros v Hx; try (destruct v as [[k v] n]; destruct Hx as (? & ? & ?));
    safe_ret; solve_valid LastWillProperties_valid.
Qed.

#[global] Instance LastWillProperties_laws : PropertySetLaws LastWillProperties.
Proof.
  split; cbn.
  - apply LastWillProperties_len_ok.
  - intros p (H1 & H2 & H3 & H4 & H5 & H6 & H7) Hb.
    apply writes_property_list; [apply LastWillProperties_len_ok|done|].
    unfold LastWillProperties_items.
    repeat (apply writes_items_then; [|]); try (apply writes_if_some; intros x Hx; apply writes_item).
    all: try (by apply writes_user_properties).
    all: first [apply writes_put_u32|apply writes_put_u8|apply writes_v5_string|apply writes_v5_bytes];
      eauto.
  - intros p Hv He Hne Hb. apply reads_properties; [done..|].
    rewrite <- (Z.add_0_l (blen _)). by apply runs_runs_at, LastWillProperties_runs.
  - apply reads_no_properties.
  - apply read_properties_safe; [apply LastWillProperties_step_safe|].
    repeat split; try done; constructor.
  - intros p (H1 & H2 & H3 & H4 & H5 & H6 & H7).
    unfold LastWillProperties_items. repeat (apply Forall_app; split);
      try (apply Forall_opt_item; done); by apply Forall_pair_items.
  - done.
  - intros p _. apply total_transactional, total_bind.
    { apply v5_total_length. rewrite LastWillProperties_len_ok. apply blen_nonneg. }
    intros _. repeat (apply total_bind; [|intros _]); try (apply total_if_some; intros x Hx);
      try (apply (total_bind (put_u8 _)); [done|intros _]); auto with appends; try done.
  - intros p. apply appends_transactional. unfold LastWillProperties_write_inner.
    repeat (apply appends_bind; [|intros _]); try (apply appends_if_some; intros x);
      auto with appends.
Qed.
