(* ===== verification/V5Connect.v ===== *)
(** [mqttbytes-v5/src/v5/connect.rs]: CONNECT, its last will and its credentials.  The packet on
    the wire is the triple [ConnectReadParts]. *)

From S2P Require Import Prelude.
From S2P Require Import Utf8.
From S2P Require Import Primitives.
From S2P Require Import CodecBase.
From S2P Require Import V5Base.
From S2P Require Import V5Properties.
From S2P Require Import V5ConnectProps.

Record Connect := mkConnect {
  keep_alive : u16;
  client_id : Bytes;
  clean_start : bool;
  connect_properties : option ConnectProperties;
}.

Record LastWill := mkLastWill {
  will_topic : Bytes;
  message : Bytes;
  will_qos : QoS;
  will_retain : bool;
  will_properties : option LastWillProperties;
}.

Inductive ConnectAuth :=
| Auth_None
| Auth_Username (username : Bytes)
| Auth_Password (password : Bytes)
| Auth_UsernamePassword (username password : Bytes).

Definition ConnectReadParts : Type := Connect * option LastWill * ConnectAuth.

(** The literal MQTT. *)
Definition MQTT : Bytes := [77; 81; 84; 84].

(** ** Last will *)

Definition LastWill_new (topic payload : Bytes) (qos : QoS) (retain : bool)
    (properties : option LastWillProperties) : LastWill :=
  {| will_topic := topic; message := payload; will_qos := qos; will_retain := retain;
     will_properties := properties |}.

Definition LastWill_len (self : LastWill) : usize :=
  let len := 0 in
  let len := len + properties_size LastWillProperties_len (will_properties self) in
  len + (2 + blen (will_topic self) + 2 + blen (message self)).

Definition LastWill_read (connect_flags : u8) : M Bytes Error (option LastWill) :=
  if Z.land connect_flags 4 =? 0 then
    if negb (Z.land connect_flags 56 =? 0) then mfail IncorrectPacketFormat
    else mret None
  else
    properties ← LastWillProperties_read;
    will_topic ← read_mqtt_bytes;
    _ ← lift (validate_mqtt_string will_topic);
    will_message ← read_mqtt_bytes;
    let qos_num := Z.shiftr (Z.land connect_flags 24) 3 in
    will_qos ← lift (qos qos_num);
    mret (Some {| will_topic := will_topic; message := will_message; will_qos := will_qos;
                  will_retain := negb (Z.land connect_flags 32 =? 0);
                  will_properties := properties |}).

Definition LastWill_write_inner (self : LastWill) : M Bytes Error u8 :=
  let connect_flags := 0 in
  let connect_flags := Z.lor connect_flags (Z.lor 4 (Z.shiftl (QoS_as_u8 (will_qos self)) 3)) in
  let connect_flags := if will_retain self then Z.lor connect_flags 32 else connect_flags in
  write_properties LastWillProperties_write (will_properties self);;
  _ ← lift (validate_mqtt_string (will_topic self));
  write_mqtt_bytes (will_topic self);;
  write_mqtt_bytes (message self);;
  mret connect_flags.

Definition LastWill_write (self : LastWill) : M Bytes Error u8 :=
  transactional_write (LastWill_write_inner self).

(** ** Credentials *)

Definition ConnectAuth_read (connect_flags : u8) : M Bytes Error ConnectAuth :=
  let username_flag := negb (Z.land connect_flags 128 =? 0) in
  let password_flag := negb (Z.land connect_flags 64 =? 0) in
  match username_flag, password_flag with
  | false, false => mret Auth_None
  | true, false => username ← read_mqtt_string; mret (Auth_Username username)
  | false, true => password ← read_mqtt_bytes; mret (Auth_Password password)
  | true, true =>
      username ← read_mqtt_string;
      password ← read_mqtt_bytes;
      mret (Auth_UsernamePassword username password)
  end.

Definition ConnectAuth_len (self : ConnectAuth) : usize :=
  match self with
  | Auth_None => 0
  | Auth_Username username => 2 + blen username
  | Auth_Password password => 2 + blen password
  | Auth_UsernamePassword username password => 2 + blen username + 2 + blen password
  end.

Definition ConnectAuth_write_inner (self : ConnectAuth) : M Bytes Error u8 :=
  match self with
  | Auth_None => mret 0
  | Auth_Username username => write_mqtt_string username;; mret 0x80
  | Auth_Password password => write_mqtt_bytes password;; mret 0x40
  | Auth_UsernamePassword username password =>
      write_mqtt_string username;;
      write_mqtt_bytes password;;
      mret 0xC0
  end.

Definition ConnectAuth_write (self : ConnectAuth) : M Bytes Error u8 :=
  transactional_write (ConnectAuth_write_inner self).

(** ** CONNECT *)

Definition validate_connect_flags (connect_flags : u8) : outcome Error unit :=
  if negb (Z.land connect_flags 1 =? 0) then Err IncorrectPacketFormat else Ok tt.

Definition Connect_len (self : Connect) (will : option LastWill) (auth : ConnectAuth) : usize :=
  let len := 2 + blen MQTT + 1 + 1 + 2 in
  let len := len + properties_size ConnectProperties_len (connect_properties self) in
  let len := len + (2 + blen (client_id self)) in
  let len := add_some len will LastWill_len in
  len + ConnectAuth_len auth.

Definition Connect_read (fixed_header : FixedHeader) (bytes : Bytes)
    : outcome Error ConnectReadParts :=
  run_on bytes (
    advance (header_len fixed_header);;
    protocol_name ← read_mqtt_string;
    protocol_level ← read_u8;
    if negb (bool_decide (protocol_name = MQTT)) then mfail InvalidProtocol
    else if negb (protocol_level =? 5) then mfail (InvalidProtocolLevel protocol_level)
    else
      connect_flags ← read_u8;
      lift (validate_connect_flags connect_flags);;
      let clean_start := negb (Z.land connect_flags 2 =? 0) in
      keep_alive ← read_u16;
      properties ← ConnectProperties_read;
      client_id ← read_mqtt_string;
      will ← LastWill_read connect_flags;
      auth ← ConnectAuth_read connect_flags;
      bytes ← mget;
      if negb (blen bytes =? 0) then mfail IncorrectPacketFormat
      else mret ({| keep_alive := keep_alive; client_id := client_id;
                    clean_start := clean_start; connect_properties := properties |}, will, auth)).

(** [if let Some(w) = will { connect_flags |= w.write(buffer)?; }]. *)
Definition Connect_write_will (connect_flags : u8) (will : option LastWill) : M Bytes Error u8 :=
  match will with
  | Some w => flags ← LastWill_write w; mret (Z.lor connect_flags flags)
  | None => mret connect_flags
  end.

Definition Connect_write_inner (self : Connect) (will : option LastWill) (auth : ConnectAuth)
    : M Bytes Error usize :=
  let len := Connect_len self will auth in
  put_u8 0x10;;
  count ← write_remaining_length len;
  write_mqtt_string MQTT;;
  put_u8 0x05;;
  let connect_flags := 0 in
  let connect_flags := if clean_start self then Z.lor connect_flags 2 else connect_flags in
  buffer ← mget;
  let flags_index := blen buffer in
  put_u8 connect_flags;;
  put_u16 (keep_alive self);;
  write_properties ConnectProperties_write (connect_properties self);;
  write_mqtt_string (client_id self);;
  connect_flags ← Connect_write_will connect_flags will;
  flags ← ConnectAuth_write auth;
  let connect_flags := Z.lor connect_flags flags in
  set_index flags_index connect_flags;;
  mret (1 + count + len).

Definition Connect_write (self : Connect) (will : option LastWill) (auth : ConnectAuth)
    : M Bytes Error usize := transactional_write (Connect_write_inner self will auth).

Definition Connect_size (self : Connect) (will : option LastWill) (auth : ConnectAuth) : usize :=
  let len := Connect_len self will auth in
  let remaining_len_size := len_len len in
  1 + remaining_len_size + len.

(** * Laws *)

Definition will_valid (w : LastWill) : Prop :=
  props_valid (will_properties w) ∧ mqtt_string (will_topic w) ∧ mqtt_bytes (message w).

Definition auth_valid (a : ConnectAuth) : Prop :=
  match a with
  | Auth_None => True
  | Auth_Username u => mqtt_string u
  | Auth_Password p => mqtt_bytes p
  | Auth_UsernamePassword u p => mqtt_string u ∧ mqtt_bytes p
  end.

Definition Connect_valid (c : ConnectReadParts) : Prop :=
  let '(self, will, auth) := c in
  is_u16 (keep_alive self) ∧ props_valid (connect_properties self) ∧
  mqtt_string (client_id self) ∧ opt_ok will_valid will ∧ auth_valid auth.

Definition will_flags (w : LastWill) : u8 :=
  let connect_flags := Z.lor 0 (Z.lor 4 (Z.shiftl (QoS_as_u8 (will_qos w)) 3)) in
  if will_retain w then Z.lor connect_flags 32 else connect_flags.

Definition auth_flags (a : ConnectAuth) : u8 :=
  match a with
  | Auth_None => 0 | Auth_Username _ => 0x80 | Auth_Password _ => 0x40
  | Auth_UsernamePassword _ _ => 0xC0
  end.

Definition clean_flag (self : Connect) : u8 := if clean_start self then Z.lor 0 2 else 0.

Definition Connect_flags (c : ConnectReadParts) : u8 :=
  let '(self, will, auth) := c in
  let f := match will with
           | Some w => Z.lor (clean_flag self) (will_flags w)
           | None => clean_flag self
           end in
  Z.lor f (auth_flags auth).

Definition will_bytes (w : LastWill) : Bytes :=
  props_bytes (will_properties w) ++ field_bytes (will_topic w) ++ field_bytes (message w).

Definition opt_will_bytes (will : option LastWill) : Bytes :=
  match will with Some w => will_bytes w | None => [] end.

Definition auth_bytes (a : ConnectAuth) : Bytes :=
  match a with
  | Auth_None => []
  | Auth_Username u => field_bytes u
  | Auth_Password p => field_bytes p
  | Auth_UsernamePassword u p => field_bytes u ++ field_bytes p
  end.

(** Everything after the connect flags. *)
Definition Connect_tail (c : ConnectReadParts) : Bytes :=
  let '(self, will, auth) := c in
  u16_bytes (keep_alive self) ++ props_bytes (connect_properties self) ++
  field_bytes (client_id self) ++ opt_will_bytes will ++ auth_bytes auth.

Definition Connect_content (c : ConnectReadParts) : Bytes :=
  field_bytes MQTT ++ [5] ++ [Connect_flags c] ++ Connect_tail c.

#[global] Instance Connect_wire : WirePacket ConnectReadParts := {|
  wire_read := Connect_read;
  wire_write c := let '(self, will, auth) := c in Connect_write self will auth;
  wire_size c := let '(self, will, auth) := c in Connect_size self will auth;
  wire_byte1 _ := 0x10; wire_content := Connect_content; wire_valid := Connect_valid;
  wire_exact _ := True; wire_encodable _ := True |}.

Lemma MQTT5_string : mqtt_string MQTT.
Proof.
  repeat split; try done.
  - repeat constructor; unfold is_u8; lia.
  - by apply contains_byte_false.
Qed.

Lemma blen_will5 w : blen (will_bytes w) = LastWill_len w.
Proof.
  unfold will_bytes, LastWill_len.
  pose proof (properties_size_eq (will_properties w)) as Hs.
  cbn [ps_len LastWillProperties_set] in Hs. rewrite Hs. autorewrite with blen. lia.
Qed.

Lemma blen_auth5 a : blen (auth_bytes a) = ConnectAuth_len a.
Proof. destruct a; cbn [auth_bytes ConnectAuth_len]; autorewrite with blen; lia. Qed.

Lemma blen_Connect5 self will auth :
  blen (Connect_content (self, will, auth)) = Connect_len self will auth.
Proof.
  unfold Connect_content, Connect_tail, Connect_len, opt_will_bytes.
  pose proof (properties_size_eq (connect_properties self)) as Hs.
  cbn [ps_len ConnectProperties_set] in Hs. rewrite Hs. rewrite <- blen_auth5.
  destruct will as [w|]; cbn [add_some]; rewrite <- ?blen_will5; autorewrite with blen; lia.
Qed.

(** The parts are no longer than the packet. *)
Lemma Connect5_bounds self will auth :
  blen (Connect_content (self, will, auth)) ≤ MAX_REMAINING_LENGTH →
  blen (props_bytes (connect_properties self)) ≤ MAX_REMAINING_LENGTH ∧
  opt_ok (λ w, blen (props_bytes (will_properties w)) ≤ MAX_REMAINING_LENGTH) will.
Proof.
  unfold Connect_content, Connect_tail, opt_will_bytes. rewrite !blen_app. intros Hb.
  pose proof (blen_nonneg (field_bytes MQTT)). pose proof (blen_nonneg (auth_bytes auth)).
  pose proof (blen_nonneg (field_bytes (client_id self))).
  pose proof (blen_nonneg (u16_bytes (keep_alive self))).
  pose proof (blen_nonneg (props_bytes (connect_properties self))).
  change (blen [5]) with 1 in Hb. change (blen [Connect_flags _]) with 1 in Hb.
  destruct will as [w|]; split.
  - pose proof (blen_nonneg (will_bytes w)). lia.
  - intros ? [= <-]. unfold will_bytes in Hb. rewrite !blen_app in Hb.
    pose proof (blen_nonneg (field_bytes (will_topic w))).
    pose proof (blen_nonneg (field_bytes (message w))). lia.
  - change (blen (@nil Z)) with 0 in Hb. lia.
  - done.
Qed.

(** ** The flags byte *)

Lemma Connect5_flags_decode self will auth :
  let f := Connect_flags (self, will, auth) in
  is_u8 f ∧ validate_connect_flags f = Ok tt ∧
  negb (Z.land f 2 =? 0) = clean_start self ∧
  (Z.land f 4 =? 0) = (match will with Some _ => false | None => true end) ∧
  (will = None → (Z.land f 56 =? 0) = true) ∧
  opt_ok (λ w, qos (Z.shiftr (Z.land f 24) 3) = Ok (will_qos w) ∧
               negb (Z.land f 32 =? 0) = will_retain w) will ∧
  negb (Z.land f 128 =? 0) =
    (match auth with Auth_Username _ | Auth_UsernamePassword _ _ => true | _ => false end) ∧
  negb (Z.land f 64 =? 0) =
    (match auth with Auth_Password _ | Auth_UsernamePassword _ _ => true | _ => false end).
Proof.
  unfold Connect_flags, clean_flag, will_flags, is_u8. destruct self as [ka id cs p]. simpl.
  destruct cs, will as [[? ? [] [] ?]|], auth; simpl; split_and!; try done;
    intros ? [= <-]; done.
Qed.

(** ** Writing *)

Lemma writes_will5 w :
  will_valid w → blen (props_bytes (will_properties w)) ≤ MAX_REMAINING_LENGTH →
  writes (LastWill_write w) (will_bytes w) (will_flags w).
Proof.
  intros (Hp & Ht & Hm) Hb. apply writes_transactional. unfold LastWill_write_inner, will_bytes.
  cbv zeta. eapply writes_bind; [by refine (writes_props (will_properties w) Hp _)|].
  rewrite <- (app_nil_l (field_bytes (will_topic w) ++ _)).
  eapply writes_bind; [by apply writes_lift, v5_validate_ok|].
  eapply writes_bind; [apply writes_v5_bytes, Ht|].
  eapply writes_last; [by apply writes_v5_bytes|done].
Qed.

Lemma writes_auth5 a : auth_valid a → writes (ConnectAuth_write a) (auth_bytes a) (auth_flags a).
Proof.
  intros Ha. apply writes_transactional.
  destruct a as [|u|p|u p]; cbn [auth_valid ConnectAuth_write_inner auth_bytes auth_flags] in *.
  - apply writes_ret.
  - eapply writes_last; [by apply writes_v5_string|done].
  - eapply writes_last; [by apply writes_v5_bytes|done].
  - destruct Ha. eapply writes_bind; [by apply writes_v5_string|].
    eapply writes_last; [by apply writes_v5_bytes|done].
Qed.

Lemma writes_opt_will5 f0 will :
  opt_ok will_valid will →
  opt_ok (λ w, blen (props_bytes (will_properties w)) ≤ MAX_REMAINING_LENGTH) will →
  writes (Connect_write_will f0 will) (opt_will_bytes will)
    (match will with Some w => Z.lor f0 (will_flags w) | None => f0 end).
Proof.
  intros Hv Hb. destruct will as [w|]; [|apply writes_ret].
  eapply writes_last; [by apply writes_will5; [apply Hv|apply Hb]|done].
Qed.

(** The part of [write_inner] from the flags on: write a provisional flags byte, then the
    fields, then patch the flags byte. *)
Lemma Connect5_write_flags self will auth (n : usize) :
  Connect_valid (self, will, auth) →
  blen (Connect_content (self, will, auth)) ≤ MAX_REMAINING_LENGTH →
  writes (E:=Error) (A:=usize) (
    buffer ← mget;
    let flags_index := blen buffer in
    put_u8 (clean_flag self);;
    put_u16 (keep_alive self);;
    write_properties ConnectProperties_write (connect_properties self);;
    write_mqtt_string (client_id self);;
    connect_flags ← Connect_write_will (clean_flag self) will;
    flags ← ConnectAuth_write auth;
    let connect_flags := Z.lor connect_flags flags in
    set_index flags_index connect_flags;;
    mret n)
    ([Connect_flags (self, will, auth)] ++ Connect_tail (self, will, auth)) n.
Proof.
  intros (Hk & Hp & Hid & Hw & Ha) Hb s. apply Connect5_bounds in Hb as [Hb1 Hb2].
  cbv zeta. rewrite bind_run. cbn [mget].
  rewrite bind_run, writes_put_u8, bind_run, writes_put_u16.
  pose proof (writes_props (connect_properties self) Hp Hb1) as Hwp.
  cbn [ps_write ConnectProperties_set] in Hwp.
  rewrite bind_run, Hwp, bind_run, writes_v5_string by done.
  rewrite bind_run, writes_opt_will5, bind_run, writes_auth5 by done.
  fold (u16_bytes (keep_alive self)). rewrite <- !(assoc_L (++)).
  cbn [app]. rewrite bind_run, set_index_app. done.
Qed.

Lemma writes_Connect5 c :
  Connect_valid c → blen (Connect_content c) ≤ MAX_REMAINING_LENGTH →
  writes (wire_write c) (frame_bytes c) (wire_size c).
Proof.
  destruct c as [[self will] auth]. intros Hv Hb. unfold frame_bytes.
  cbn [wire_byte1 wire_content wire_write wire_size Connect_wire].
  pose proof (blen_nonneg (Connect_content (self, will, auth))) as H0.
  rewrite blen_Connect5 in H0 |- *. apply writes_transactional. unfold Connect_write_inner.
  cbv zeta. apply writes_v5_frame; [rewrite blen_Connect5 in Hb; lia|]. unfold Connect_content.
  eapply writes_bind; [apply writes_v5_string, MQTT5_string|].
  eapply writes_bind; [apply writes_put_u8|]. by apply Connect5_write_flags.
Qed.

(** ** Reading *)

Section Reading.
  Context (self : Connect) (will : option LastWill) (auth : ConnectAuth).
Let c : ConnectReadParts := (self, will, auth).
  Context (Hv : Connect_valid c).

Lemma reads_will5 :
    opt_ok (λ w, blen (props_bytes (will_properties w)) ≤ MAX_REMAINING_LENGTH) will →
    reads (LastWill_read (Connect_flags c)) (opt_will_bytes will) will.
  Proof using Hv.
    intros Hb. destruct Hv as (_ & _ & _ & Hw & _).
    destruct (Connect5_flags_decode self will auth) as (_ & _ & _ & Hf4 & Hf0 & Hfw & _).
    fold c in Hf4, Hf0, Hfw. unfold LastWill_read. rewrite Hf4. destruct will as [w|].
    - destruct (Hw w eq_refl) as (Hp & Ht & Hm). destruct (Hfw w eq_refl) as [Hq Hr].
      cbn [opt_will_bytes]. unfold will_bytes.
      eapply reads_bind; [by refine (reads_props (will_properties w) Hp _ (Hb w eq_refl)); destruct (will_properties w)|].
      eapply reads_bind; [apply reads_v5_bytes, Ht|].
      eapply reads_bind_nil; [by apply reads_lift, v5_validate_ok|].
      rewrite <- (app_nil_r (field_bytes (message w))).
      eapply reads_bind; [by apply reads_v5_bytes|].
      eapply reads_bind_nil; [by apply reads_lift|]. rewrite Hr. destruct w. apply reads_ret.
    - rewrite Hf0 by done. apply reads_ret.
  Qed.

Lemma reads_auth5 : reads (ConnectAuth_read (Connect_flags c)) (auth_bytes auth) auth.
  Proof using Hv.
    destruct Hv as (_ & _ & _ & _ & Ha).
    destruct (Connect5_flags_decode self will auth) as (_ & _ & _ & _ & _ & _ & Hf1 & Hf2).
    fold c in Hf1, Hf2. unfold ConnectAuth_read. rewrite Hf1, Hf2.
    destruct auth as [|u|p|u p]; cbn [auth_valid auth_bytes] in *.
    - apply reads_ret.
    - rewrite <- (app_nil_r (field_bytes u)).
      eapply reads_bind; [by apply reads_v5_string|]. apply reads_ret.
    - rewrite <- (app_nil_r (field_bytes p)).
      eapply reads_bind; [by apply reads_v5_bytes|]. apply reads_ret.
    - destruct Ha. eapply reads_bind; [by apply reads_v5_string|].
      rewrite <- (app_nil_r (field_bytes p)).
      eapply reads_bind; [by apply reads_v5_bytes|]. apply reads_ret.
  Qed.

Lemma Connect5_read_content hdr h :
    blen (Connect_content c) ≤ MAX_REMAINING_LENGTH → header_len h = blen hdr →
    Connect_read h (hdr ++ Connect_content c) = Ok c.
  Proof using Hv.
    intros Hb Hh. apply Connect5_bounds in Hb as [Hb1 Hb2].
    unfold Connect_read. rewrite Hh, run_on_skip_header.
    unfold Connect_content. pose proof Hv as (Hk & Hp & Hid & _ & _).
    change (Connect_tail c) with
      (u16_bytes (keep_alive self) ++ props_bytes (connect_properties self) ++
       field_bytes (client_id self) ++ opt_will_bytes will ++ auth_bytes auth).
    destruct (Connect5_flags_decode self will auth) as (_ & Hvf & Hcs & _).
    fold c in Hvf, Hcs.
    erewrite run_on_bind by (apply reads_v5_string, MQTT5_string).
    erewrite run_on_bind by (apply reads_v5_u8).
    rewrite bool_decide_eq_true_2 by done. cbn [negb Z.eqb Pos.eqb].
    erewrite run_on_bind by (apply reads_v5_u8).
    rewrite <- (app_nil_l (u16_bytes _ ++ _)).
    erewrite run_on_bind by (by apply reads_lift).
    erewrite run_on_bind by (by apply reads_v5_u16).
    erewrite run_on_bind
      by (by refine (reads_props (connect_properties self) Hp _ Hb1); destruct (connect_properties self)).
    erewrite run_on_bind by (by apply reads_v5_string).
    erewrite run_on_bind by (by apply reads_will5).
    rewrite <- (app_nil_r (auth_bytes auth)).
    erewrite run_on_bind by (apply reads_auth5).
    rewrite Hcs. by destruct self.
  Qed.
End Reading.

Lemma LastWill5_read_safe f : reads_safe (LastWill_read f) (opt_ok will_valid).
Proof.
  unfold LastWill_read. destruct (_ =? 0).
  - destruct (negb _); [apply reads_safe_fail|]. by apply reads_safe_ret.
  - eapply reads_safe_bind; [exact (props_safe (P:=LastWillProperties))|]. intros o Ho.
    safe_read. intros t Ht. safe_read. intros ? [_ Hs]. safe_read. intros m Hm.
    safe_read. intros q _. apply reads_safe_ret, opt_ok_some. by split_and!.
Qed.

Lemma ConnectAuth5_read_safe f : reads_safe (ConnectAuth_read f) auth_valid.
Proof.
  unfold ConnectAuth_read. destruct (negb _), (negb _).
  - safe_read. intros u Hu. safe_read. intros p Hp. by apply reads_safe_ret.
  - safe_read. intros u Hu. by apply reads_safe_ret.
  - safe_read. intros p Hp. by apply reads_safe_ret.
  - by apply reads_safe_ret.
Qed.

Lemma Connect5_read_safe h bytes :
  Forall is_u8 bytes → 0 ≤ header_len h ≤ blen bytes →
  match Connect_read h bytes with Ok c => Connect_valid c | Err _ => True | Panic => False end.
Proof.
  intros Hb Hh. unfold Connect_read. apply run_on_safe; [done..|].
  safe_read. intros name _. safe_read. intros lvl _. safe_check. safe_check.
  safe_read. intros f _.
  assert (Hvf : reads_safe (lift (validate_connect_flags f)) (λ _, True)).
  { apply reads_safe_lift. unfold validate_connect_flags. by destruct (negb (Z.land f 1 =? 0)). }
  eapply reads_safe_bind; [exact Hvf|].
  intros _ _. safe_read. intros ka Hka.
  eapply reads_safe_bind; [exact (props_safe (P:=ConnectProperties))|]. intros o Ho.
  safe_read. intros id Hid. eapply reads_safe_bind; [apply LastWill5_read_safe|]. intros w Hw.
  eapply reads_safe_bind; [apply ConnectAuth5_read_safe|]. intros a Ha s Hs.
  apply wp_bind, wp_get. destruct (negb (blen s =? 0)); [by apply wp_fail|]. apply wp_ret. by split_and!.
Qed.

(** ** The writer does not panic and only appends *)

Lemma total_will5 f0 will : total (Connect_write_will f0 will).
Proof.
  destruct will as [w|]; [|done]. apply total_bind; [|done].
  apply total_transactional, total_bind.
  { refine (total_props (will_properties w) _). by destruct (will_properties w). }
  intros _. apply total_bind; [apply total_validate_mqtt_string|]. intros _.
  apply total_bind; [apply v5_total_bytes|]. intros _.
  by apply total_bind; [apply v5_total_bytes|].
Qed.

Lemma total_auth5 a : total (ConnectAuth_write a).
Proof.
  apply total_transactional. destruct a; [done|..]; cbn [ConnectAuth_write_inner];
    (apply total_bind; [auto with appends|]; intros _); [done..|].
  by apply total_bind; [apply v5_total_bytes|].
Qed.

Lemma appends_will5 f0 will : appends (Connect_write_will f0 will).
Proof.
  destruct will as [w|]; [|apply appends_ret]. apply appends_bind; [|intros; apply appends_ret].
  apply appends_transactional, appends_bind; [exact (appends_props (will_properties w))|].
  auto 10 with appends.
Qed.

Lemma appends_auth5 a : appends (ConnectAuth_write a).
Proof. apply appends_transactional. destruct a; cbn [ConnectAuth_write_inner]; auto with appends. Qed.

Lemma total_connect_props5 (o : option ConnectProperties) :
  total (write_properties ConnectProperties_write o).
Proof. refine (total_props o _). by destruct o. Qed.

Lemma appends_connect_props5 (o : option ConnectProperties) :
  appends (write_properties ConnectProperties_write o).
Proof. exact (appends_props o). Qed.

#[export] Hint Resolve total_will5 total_auth5 appends_will5 appends_auth5 total_connect_props5
  appends_connect_props5 : appends.

(** A writer behind a prefix of the buffer: it appends, whether it fails or not. *)
Definition behind (s s' : Bytes) : Prop := ∃ out, s' = s ++ out.

Lemma behind_refl s : behind s s.
Proof. exists []. by rewrite app_nil_r. Qed.

Lemma behind_app s s1 o : behind s s1 → behind s (s1 ++ o).
Proof. intros [o' ->]. exists (o' ++ o). by rewrite <- (assoc_L (++)). Qed.

#[local] Hint Resolve behind_refl behind_app total_put_u8 total_put_u16 : appends.

Lemma wp_behind {A B} (m : M Bytes Error A) (k : A → M Bytes Error B) (Q : B → Bytes → Prop) s s1 :
  total m → appends m → behind s s1 →
  (∀ a o, wp (k a) Q (λ _ s', behind s s') (s1 ++ o)) →
  wp (m ≫= k) Q (λ _ s', behind s s') s1.
Proof.
  intros Ht Ha Hs Hk. apply wp_bind. eapply wp_mono; [by apply wp_writer| |].
  - intros a s' [o' ->]. apply Hk.
  - intros e s' [o' ->]. by apply behind_app.
Qed.

(** The flags byte stays inside the buffer, which only grows, so patching it cannot panic;
    the whole writer appends. *)
Lemma wp_Connect5_write_inner self will auth s :
  wp (Connect_write_inner self will auth) (λ _ s', behind s s') (λ _ s', behind s s') s.
Proof.
  assert (Hlen : total (write_remaining_length (Connect_len self will auth))).
  { apply v5_total_length. rewrite <- blen_Connect5. apply blen_nonneg. }
  unfold Connect_write_inner. cbv zeta.
  do 4 (apply wp_behind; [auto 10 with appends..|intros ? ?]).
  apply wp_bind, wp_get. set (i := blen _). remember (((_ ++ _) ++ _) ++ _) as s0 eqn:Hs0.
  assert (Hb0 : behind s s0) by (subst; auto with appends). clear Hs0.
  apply wp_bind, wp_modify.
  do 5 (apply wp_behind; [auto 10 with appends..|intros ? ?]).
  apply wp_bind. unfold wp. rewrite <- !(assoc_L (++)). cbn [app].
  unfold i. rewrite set_index_app. cbn. by apply behind_app.
Qed.

#[global] Instance Connect_laws : WirePacketLaws ConnectReadParts.
Proof.
  split.
  - apply writes_Connect5.
  - intros [[self will] auth] hdr Hv _ Hb. by apply Connect5_read_content.
  - intros [[self will] auth] _. unfold frame_bytes.
    cbn [wire_byte1 wire_content wire_size Connect_wire]. unfold Connect_size.
    rewrite blen_cons, blen_app, blen_remaining_length_bytes, blen_Connect5. lia.
  - intros [[self will] auth] (Hk & Hp & Hid & Hw & Ha) Hb. apply Connect5_bounds in Hb as [Hb1 Hb2].
    cbn [wire_content Connect_wire]. unfold Connect_content, Connect_tail.
    rewrite !Forall_app. split_and!.
    + apply field_bytes_u8, MQTT5_string.
    + constructor; [unfold is_u8; lia|constructor].
    + constructor; [apply Connect5_flags_decode|constructor].
    + by apply u16_bytes_u8.
    + by apply props_bytes_u8.
    + apply field_bytes_u8, Hid.
    + destruct will as [w|]; [|constructor]. destruct (Hw w eq_refl) as (? & [? _] & ?).
      specialize (Hb2 w eq_refl). apply Forall_app_2; [by apply props_bytes_u8|].
      by apply Forall_app_2; apply field_bytes_u8.
    + destruct auth as [|u|p|u p]; [constructor|..]; cbn [auth_valid auth_bytes] in *.
      * apply field_bytes_u8, Ha.
      * by apply field_bytes_u8.
      * destruct Ha as [[? _] ?]. by apply Forall_app_2; apply field_bytes_u8.
  - intros h bytes Hb _ Hh Hr Hl. apply Connect5_read_safe; [done|lia].
  - done.
  - intros [[self will] auth] _ s. apply transactional_total.
    pose proof (wp_Connect5_write_inner self will auth s) as H.
    unfold wp in H. by destruct (Connect_write_inner self will auth s) as [[] ?].
  - intros [[self will] auth]. apply appends_transactional. intros s.
    pose proof (wp_Connect5_write_inner self will auth s) as H. unfold wp in H.
    by destruct (Connect_write_inner self will auth s) as [[] ?].
Qed.
