(* ===== verification/V5Disconnect.v ===== *)
(** [mqttbytes-v5/src/v5/disconnect.rs]; the reason codes are in [V5Base]. *)

From S2P Require Import Prelude.
From S2P Require Import Utf8.
From S2P Require Import Primitives.
From S2P Require Import CodecBase.
From S2P Require Import V5Base.
From S2P Require Import V5Properties.

#[global] Instance DisconnectReasonCode_eq_dec : EqDecision DisconnectReasonCode.
Proof. solve_decision. Defined.

(** [reason_code as u8]. *)
Definition DisconnectReasonCode_as_u8 (r : DisconnectReasonCode) : u8 :=
  match r with
  | DRC_NormalDisconnection => 0x00
  | DRC_DisconnectWithWillMessage => 0x04
  | DRC_UnspecifiedError => 0x80
  | DRC_MalformedPacket => 0x81
  | DRC_ProtocolError => 0x82
  | DRC_ImplementationSpecificError => 0x83
  | DRC_NotAuthorized => 0x87
  | DRC_ServerBusy => 0x89
  | DRC_ServerShuttingDown => 0x8B
  | DRC_KeepAliveTimeout => 0x8D
  | DRC_SessionTakenOver => 0x8E
  | DRC_TopicFilterInvalid => 0x8F
  | DRC_TopicNameInvalid => 0x90
  | DRC_ReceiveMaximumExceeded => 0x93
  | DRC_TopicAliasInvalid => 0x94
  | DRC_PacketTooLarge => 0x95
  | DRC_MessageRateTooHigh => 0x96
  | DRC_QuotaExceeded => 0x97
  | DRC_AdministrativeAction => 0x98
  | DRC_PayloadFormatInvalid => 0x99
  | DRC_RetainNotSupported => 0x9A
  | DRC_QoSNotSupported => 0x9B
  | DRC_UseAnotherServer => 0x9C
  | DRC_ServerMoved => 0x9D
  | DRC_SharedSubscriptionNotSupported => 0x9E
  | DRC_ConnectionRateExceeded => 0x9F
  | DRC_MaximumConnectTime => 0xA0
  | DRC_SubscriptionIdentifiersNotSupported => 0xA1
  | DRC_WildcardSubscriptionsNotSupported => 0xA2
  end.

Definition DisconnectReasonCode_try_from (value : u8) : outcome Error DisconnectReasonCode :=
  match value with
  | 0x00 => Ok DRC_NormalDisconnection
  | 0x04 => Ok DRC_DisconnectWithWillMessage
  | 0x80 => Ok DRC_UnspecifiedError
  | 0x81 => Ok DRC_MalformedPacket
  | 0x82 => Ok DRC_ProtocolError
  | 0x83 => Ok DRC_ImplementationSpecificError
  | 0x87 => Ok DRC_NotAuthorized
  | 0x89 => Ok DRC_ServerBusy
  | 0x8B => Ok DRC_ServerShuttingDown
  | 0x8D => Ok DRC_KeepAliveTimeout
  | 0x8E => Ok DRC_SessionTakenOver
  | 0x8F => Ok DRC_TopicFilterInvalid
  | 0x90 => Ok DRC_TopicNameInvalid
  | 0x93 => Ok DRC_ReceiveMaximumExceeded
  | 0x94 => Ok DRC_TopicAliasInvalid
  | 0x95 => Ok DRC_PacketTooLarge
  | 0x96 => Ok DRC_MessageRateTooHigh
  | 0x97 => Ok DRC_QuotaExceeded
  | 0x98 => Ok DRC_AdministrativeAction
  | 0x99 => Ok DRC_PayloadFormatInvalid
  | 0x9A => Ok DRC_RetainNotSupported
  | 0x9B => Ok DRC_QoSNotSupported
  | 0x9C => Ok DRC_UseAnotherServer
  | 0x9D => Ok DRC_ServerMoved
  | 0x9E => Ok DRC_SharedSubscriptionNotSupported
  | 0x9F => Ok DRC_ConnectionRateExceeded
  | 0xA0 => Ok DRC_MaximumConnectTime
  | 0xA1 => Ok DRC_SubscriptionIdentifiersNotSupported
  | 0xA2 => Ok DRC_WildcardSubscriptionsNotSupported
  | other => Err (InvalidConnectReturnCode other)
  end.

Record DisconnectProperties := mkDisconnectProperties {
  dp_session_expiry_interval : option u32;
  dp_reason_string : option Bytes;
  dp_user_properties : pairs;
  dp_server_reference : option Bytes;
}.

#[global] Instance DisconnectProperties_eq_dec : EqDecision DisconnectProperties.
Proof. solve_decision. Defined.

Record Disconnect := mkDisconnect {
  reason_code : DisconnectReasonCode;
  disconnect_properties : option DisconnectProperties;
}.

#[global] Instance Disconnect_eq_dec : EqDecision Disconnect.
Proof. solve_decision. Defined.

Definition DisconnectProperties_len (self : DisconnectProperties) : usize :=
  let length := 0 in
  let length := add_some length (dp_session_expiry_interval self) (λ _, 1 + 4) in
  let length := add_some length (dp_reason_string self) (λ reason, 1 + 2 + blen reason) in
  let length := user_properties_len length (dp_user_properties self) in
  add_some length (dp_server_reference self) (λ reference, 1 + 2 + blen reference).

(** The [match property(prop)?] of [DisconnectProperties::extract]. *)
Definition DisconnectProperties_step : prop_step DisconnectProperties := λ property_type prop self,
  match self with
  | mkDisconnectProperties sei rs up sr =>
      match property_type with
      | SessionExpiryInterval =>
          v ← read_u32; mret (mkDisconnectProperties (Some v) rs up sr, 4)
      | ReasonString =>
          reason ← read_mqtt_string;
          mret (mkDisconnectProperties sei (Some reason) up sr, 2 + blen reason)
      | UserProperty =>
          '(key, value, n) ← read_user_property;
          mret (mkDisconnectProperties sei rs (up ++ [(key, value)]) sr, n)
      | ServerReference =>
          reference ← read_mqtt_string;
          mret (mkDisconnectProperties sei rs up (Some reference), 2 + blen reference)
      | _ => mfail (InvalidPropertyType prop)
      end
  end.

Definition DisconnectProperties_empty : DisconnectProperties :=
  mkDisconnectProperties None None [] None.

Definition DisconnectProperties_extract : M Bytes Error (option DisconnectProperties) :=
  read_properties DisconnectProperties_step DisconnectProperties_empty.

Definition DisconnectProperties_write_inner (self : DisconnectProperties) : M Bytes Error unit :=
  let length := DisconnectProperties_len self in
  _ ← write_remaining_length length;
  if_some (dp_session_expiry_interval self) (λ session_expiry_interval,
    put_u8 (PropertyType_as_u8 SessionExpiryInterval);;
    put_u32 session_expiry_interval);;
  if_some (dp_reason_string self) (λ reason,
    put_u8 (PropertyType_as_u8 ReasonString);;
    write_mqtt_string reason);;
  write_user_properties (dp_user_properties self);;
  if_some (dp_server_reference self) (λ reference,
    put_u8 (PropertyType_as_u8 ServerReference);;
    write_mqtt_string reference).

Definition DisconnectProperties_write (self : DisconnectProperties) : M Bytes Error unit :=
  transactional_write (DisconnectProperties_write_inner self).

Definition Disconnect_new (reason : DisconnectReasonCode) : Disconnect :=
  {| reason_code := reason; disconnect_properties := None |}.

Definition Disconnect_new_with_properties (reason : DisconnectReasonCode)
    (properties : DisconnectProperties) : Disconnect :=
  {| reason_code := reason; disconnect_properties := Some properties |}.

Definition can_use_compact_success_encoding (self : Disconnect) : bool :=
  (DisconnectReasonCode_as_u8 (reason_code self) =?
   DisconnectReasonCode_as_u8 DRC_NormalDisconnection) &&
  negb (is_some (disconnect_properties self)).

Definition Disconnect_len (self : Disconnect) : usize :=
  if can_use_compact_success_encoding self then 2
  else 1 + properties_size DisconnectProperties_len (disconnect_properties self).

Definition Disconnect_size (self : Disconnect) : usize :=
  let len := Disconnect_len self in
  if can_use_compact_success_encoding self then len
  else
    let remaining_len_size := len_len len in
    1 + remaining_len_size + len.

Definition Disconnect_read (fixed_header : FixedHeader) (bytes : Bytes)
    : outcome Error Disconnect :=
  packet_type ← FixedHeader_packet_type fixed_header;
  if negb (bool_decide (packet_type = PT_Disconnect))
  then Err (InvalidPacketType (PacketType_as_u8 packet_type))
  else if negb (FixedHeader_flags fixed_header =? 0) then Err IncorrectPacketFormat
  else run_on bytes (
    advance (header_len fixed_header);;
    if remaining_len fixed_header =? 0 then mret (Disconnect_new DRC_NormalDisconnection)
    else
      reason_code ← read_u8;
      reason_code ← lift (DisconnectReasonCode_try_from reason_code);
      properties ← DisconnectProperties_extract;
      mret {| reason_code := reason_code; disconnect_properties := properties |}).

Definition Disconnect_write_inner (self : Disconnect) : M Bytes Error usize :=
  put_u8 0xE0;;
  let length := Disconnect_len self in
  if can_use_compact_success_encoding self then
    put_u8 0x00;;
    mret length
  else
    len_len ← write_remaining_length length;
    put_u8 (DisconnectReasonCode_as_u8 (reason_code self));;
    write_properties DisconnectProperties_write (disconnect_properties self);;
    mret (1 + len_len + length).

Definition Disconnect_write (self : Disconnect) : M Bytes Error usize :=
  transactional_write (Disconnect_write_inner self).

(** * Laws of the properties *)

Definition DisconnectProperties_items (p : DisconnectProperties) : list item :=
  opt_item SessionExpiryInterval V_u32 (dp_session_expiry_interval p) ++
  opt_item ReasonString V_str (dp_reason_string p) ++
  pair_items (dp_user_properties p) ++
  opt_item ServerReference V_str (dp_server_reference p).

Definition DisconnectProperties_valid (p : DisconnectProperties) : Prop :=
  opt_ok is_u32 (dp_session_expiry_interval p) ∧ opt_ok mqtt_string (dp_reason_string p) ∧
  pairs_valid (dp_user_properties p) ∧ opt_ok mqtt_string (dp_server_reference p).

#[global] Instance DisconnectProperties_set : PropertySet DisconnectProperties := {|
  ps_read := DisconnectProperties_extract; ps_write := DisconnectProperties_write;
  ps_len := DisconnectProperties_len; ps_items := DisconnectProperties_items;
  ps_valid := DisconnectProperties_valid; ps_exact _ := True; ps_encodable _ := True |}.

Lemma DisconnectProperties_len_ok p :
  DisconnectProperties_len p = blen (items_bytes (DisconnectProperties_items p)).
Proof. unfold DisconnectProperties_len, DisconnectProperties_items. solve_len. Qed.

Lemma DisconnectProperties_runs p :
  DisconnectProperties_valid p →
  runs DisconnectProperties_step DisconnectProperties_empty (DisconnectProperties_items p) p.
Proof.
  destruct p as [sei rs up sr]. intros (H1 & H2 & H3 & H4). cbn in *.
  eapply runs_app; [by apply (runs_u32 _ (λ o, mkDisconnectProperties o None [] None))|].
  eapply runs_app; [by apply (runs_string _ (λ o, mkDisconnectProperties sei o [] None))|].
  eapply runs_app; [by apply (runs_pairs _ (λ l, mkDisconnectProperties sei rs l None))|].
  by apply (runs_string _ (λ o, mkDisconnectProperties sei rs up o)).
Qed.

Lemma DisconnectProperties_step_safe :
  step_safe DisconnectProperties_step DisconnectProperties_items DisconnectProperties_valid.
Proof.
  intros t b [sei rs up sr] Hv. unfold DisconnectProperties_valid in Hv; cbn in Hv.
  destruct Hv as (H1 & H2 & H3 & H4).
  destruct t; cbn [DisconnectProperties_step]; try apply reads_safe_fail;
    safe_read; intros v Hx; try (destruct v as [[k v] n]; destruct Hx as (? & ? & ?));
    safe_ret; solve_valid DisconnectProperties_valid.
Qed.

#[global] Instance DisconnectProperties_laws : PropertySetLaws DisconnectProperties.
Proof.
  split; cbn.
  - apply DisconnectProperties_len_ok.
  - intros p (H1 & H2 & H3 & H4) Hb.
    apply writes_property_list; [apply DisconnectProperties_len_ok|done|].
    unfold DisconnectProperties_items.
    repeat (apply writes_items_then; [|]); try (apply writes_if_some; intros x Hx; apply writes_item).
    all: try (by apply writes_user_properties).
    all: first [apply writes_put_u32|apply writes_v5_string]; eauto.
  - intros p Hv He Hne Hb. apply reads_properties; [done..|].
    rewrite <- (Z.add_0_l (blen _)). by apply runs_runs_at, DisconnectProperties_runs.
  - apply reads_no_properties.
  - apply read_properties_safe; [apply DisconnectProperties_step_safe|].
    repeat split; try done; constructor.
  - intros p (H1 & H2 & H3 & H4).
    unfold DisconnectProperties_items. repeat (apply Forall_app; split);
      try (apply Forall_opt_item; done); by apply Forall_pair_items.
  - done.
  - intros p _. apply total_transactional, total_bind.
    { apply v5_total_length. rewrite DisconnectProperties_len_ok. apply blen_nonneg. }
    intros _. repeat (apply total_bind; [|intros _]); try (apply total_if_some; intros x Hx);
      try (apply (total_bind (put_u8 _)); [done|intros _]); auto with appends; try done.
  - intros p. apply appends_transactional. unfold DisconnectProperties_write_inner.
    repeat (apply appends_bind; [|intros _]); try (apply appends_if_some; intros x);
      auto with appends.
Qed.

(** * Laws of DISCONNECT *)

Lemma DisconnectReasonCode_round r :
  DisconnectReasonCode_try_from (DisconnectReasonCode_as_u8 r) = Ok r.
Proof. by destruct r. Qed.

Lemma DisconnectReasonCode_u8 r : is_u8 (DisconnectReasonCode_as_u8 r).
Proof. unfold is_u8. destruct r; simpl; lia. Qed.

Lemma DisconnectReasonCode_safe n :
  reads_safe (lift (DisconnectReasonCode_try_from n)) (λ _, True).
Proof. apply reads_safe_lift. unfold DisconnectReasonCode_try_from. by repeat case_match. Qed.

Definition Disconnect_content (d : Disconnect) : Bytes :=
  if can_use_compact_success_encoding d then []
  else DisconnectReasonCode_as_u8 (reason_code d) :: props_bytes (disconnect_properties d).

#[global] Instance Disconnect_wire : WirePacket Disconnect := {|
  wire_read := Disconnect_read; wire_write := Disconnect_write; wire_size := Disconnect_size;
  wire_byte1 _ := 0xE0; wire_content := Disconnect_content;
  wire_valid d := props_valid (disconnect_properties d);
  wire_exact _ := True; wire_encodable _ := True |}.

Lemma compact_disconnect d :
  can_use_compact_success_encoding d = true → d = Disconnect_new DRC_NormalDisconnection.
Proof.
  unfold can_use_compact_success_encoding. destruct d as [r [p|]]; cbn;
    rewrite ?andb_false_r, ?andb_true_r; [done|]. by destruct r.
Qed.

Lemma blen_Disconnect5 d :
  can_use_compact_success_encoding d = false → blen (Disconnect_content d) = Disconnect_len d.
Proof.
  intros Hc. unfold Disconnect_content, Disconnect_len. rewrite Hc, blen_cons.
  pose proof (properties_size_eq (disconnect_properties d)) as Hs.
  cbn [ps_len DisconnectProperties_set] in Hs. by rewrite Hs.
Qed.

Lemma disconnect_props_bound d :
  can_use_compact_success_encoding d = false →
  blen (Disconnect_content d) ≤ MAX_REMAINING_LENGTH →
  blen (props_bytes (disconnect_properties d)) ≤ MAX_REMAINING_LENGTH.
Proof. intros Hc. unfold Disconnect_content. rewrite Hc, blen_cons. lia. Qed.

Lemma Disconnect5_write_ok d :
  props_valid (disconnect_properties d) → blen (Disconnect_content d) ≤ MAX_REMAINING_LENGTH →
  writes (Disconnect_write d) (frame_bytes d) (Disconnect_size d).
Proof.
  intros Hv Hb. apply writes_transactional.
  unfold Disconnect_write_inner, frame_bytes, Disconnect_size.
  cbn [wire_byte1 wire_content Disconnect_wire]. cbv zeta.
  destruct (can_use_compact_success_encoding d) eqn:Hc.
  - unfold Disconnect_content. rewrite Hc.
    change (0xE0 :: _) with ([0xE0] ++ [0x00]). eapply writes_bind; [apply writes_put_u8|].
    eapply writes_last; [apply writes_put_u8|done].
  - pose proof (disconnect_props_bound d Hc Hb). rewrite blen_Disconnect5 in * by done.
    pose proof (blen_nonneg (Disconnect_content d)) as H0. rewrite blen_Disconnect5 in H0 by done.
    apply writes_v5_frame; [lia|]. unfold Disconnect_content. rewrite Hc.
    change (?a :: ?b) with ([a] ++ b). eapply writes_bind; [apply writes_put_u8|].
    eapply writes_last; [by refine (writes_props (disconnect_properties d) Hv _)|done].
Qed.

Lemma Disconnect5_read_ok d hdr :
  props_valid (disconnect_properties d) → blen (Disconnect_content d) ≤ MAX_REMAINING_LENGTH →
  Disconnect_read {| byte1 := 0xE0; header_len := blen hdr;
                     remaining_len := blen (Disconnect_content d) |} (hdr ++ Disconnect_content d)
  = Ok d.
Proof.
  intros Hv Hb. unfold Disconnect_read. cbn [FixedHeader_packet_type byte1].
  change (FixedHeader_packet_type _) with (Ok (E:=Error) PT_Disconnect). cbn [mbind outcome_bind].
  rewrite bool_decide_eq_true_2 by done. cbn [negb header_len remaining_len].
  change (FixedHeader_flags _ =? 0) with true. cbn [negb]. rewrite run_on_skip_header.
  destruct (can_use_compact_success_encoding d) eqn:Hc.
  - unfold Disconnect_content. rewrite Hc. rewrite (compact_disconnect d Hc). done.
  - pose proof (disconnect_props_bound d Hc Hb). unfold Disconnect_content in *. rewrite Hc in *.
    rewrite blen_cons in *. rewrite (proj2 (Z.eqb_neq _ _)).
    2: { pose proof (blen_nonneg (props_bytes (disconnect_properties d))). lia. }
    change (?a :: ?b) with ([a] ++ b).
    erewrite run_on_bind by (apply reads_v5_u8).
    rewrite <- (app_nil_l (props_bytes _)).
    erewrite run_on_bind by (apply reads_lift, DisconnectReasonCode_round).
    rewrite <- (app_nil_r (props_bytes _)).
    erewrite run_on_bind
      by (by refine (reads_props (disconnect_properties d) Hv _ _); destruct (disconnect_properties d)).
    by destruct d.
Qed.

Lemma Disconnect5_read_safe h bytes :
  Forall is_u8 bytes → 0 ≤ header_len h ≤ blen bytes →
  match Disconnect_read h bytes with
  | Ok d => props_valid (disconnect_properties d) | Err _ => True | Panic => False
  end.
Proof.
  intros Hb Hh. unfold Disconnect_read.
  destruct (FixedHeader_packet_type h) as [t|e|] eqn:Ht; cbn [mbind outcome_bind]; [|done|].
  2: { unfold FixedHeader_packet_type in Ht. by repeat case_match. }
  destruct (negb _); [done|]. destruct (negb _); [done|].
  apply run_on_safe; [done..|]. safe_check; [by apply reads_safe_ret|].
  safe_read. intros n _. eapply reads_safe_bind; [apply DisconnectReasonCode_safe|]. intros r _.
  eapply reads_safe_bind; [exact (props_safe (P:=DisconnectProperties))|].
  intros o Ho. by apply reads_safe_ret.
Qed.

#[global] Instance Disconnect_laws : WirePacketLaws Disconnect.
Proof.
  split; cbn [wire_read wire_write wire_size wire_byte1 wire_content wire_valid wire_exact
              wire_encodable Disconnect_wire].
  - apply Disconnect5_write_ok.
  - intros d hdr Hv _. by apply Disconnect5_read_ok.
  - intros d Hv. unfold Disconnect_size, frame_bytes. cbn [wire_byte1 wire_content Disconnect_wire].
    destruct (can_use_compact_success_encoding d) eqn:Hc.
    + unfold Disconnect_len, Disconnect_content. by rewrite Hc.
    + rewrite blen_cons, blen_app, blen_remaining_length_bytes, blen_Disconnect5 by done. lia.
  - intros d Hv Hb. unfold Disconnect_content.
    destruct (can_use_compact_success_encoding d) eqn:Hc; [constructor|].
    constructor; [apply DisconnectReasonCode_u8|]. apply props_bytes_u8; [done|].
    by apply disconnect_props_bound.
  - intros h bytes ? ? ? ? ?. apply Disconnect5_read_safe; [done|lia].
  - done.
  - intros d _. apply total_transactional. unfold Disconnect_write_inner.
    apply (total_bind (put_u8 _)); [done|]. intros _. cbv zeta.
    destruct (can_use_compact_success_encoding d) eqn:Hc; [done|].
    apply total_bind; [|intros n; apply (total_bind (put_u8 _)); [done|intros _]].
    { apply v5_total_length. rewrite <- blen_Disconnect5 by done. apply blen_nonneg. }
    apply total_bind; [|done]. refine (total_props (disconnect_properties d) _).
    by destruct (disconnect_properties d).
  - intros d. apply appends_transactional. unfold Disconnect_write_inner.
    apply appends_bind; [auto with appends|]. intros _. cbv zeta.
    destruct (can_use_compact_success_encoding d); [auto with appends|].
    apply appends_bind; [auto with appends|]. intros n. apply appends_bind; [auto with appends|].
    intros _. apply appends_bind; [exact (appends_props (disconnect_properties d))|].
    auto with appends.
Qed.
