(* ===== verification/V5Auth.v ===== *)
(** [mqttbytes-v5/src/v5/auth.rs].  Unlike the other property lists, the one of AUTH is read from
    exactly its declared bytes. *)

From S2P Require Import Prelude.
From S2P Require Import Utf8.
From S2P Require Import Primitives.
From S2P Require Import CodecBase.
From S2P Require Import V5Base.
From S2P Require Import V5Properties.

Inductive AuthReasonCode := ARC_Success | ARC_Continue | ARC_ReAuthenticate.

Definition AuthReasonCode_read : M Bytes Error AuthReasonCode :=
  reason_code ← read_u8;
  lift match reason_code with
       | 0x00 => Ok ARC_Success
       | 0x18 => Ok ARC_Continue
       | 0x19 => Ok ARC_ReAuthenticate
       | _ => Err MalformedPacket
       end.

Definition AuthReasonCode_write (self : AuthReasonCode) : M Bytes Error unit :=
  let reason_code := match self with
                     | ARC_Success => 0x00
                     | ARC_Continue => 0x18
                     | ARC_ReAuthenticate => 0x19
                     end in
  put_u8 reason_code.

Record AuthProperties := mkAuthProperties {
  auth_method : option Bytes;
  auth_data : option Bytes;
  auth_reason : option Bytes;
  auth_user_properties : pairs;
}.

Definition AuthProperties_default : AuthProperties := mkAuthProperties None None None [].

Record Auth := mkAuth {
  auth_code : AuthReasonCode;
  auth_properties : option AuthProperties;
}.

Definition Auth_new (code : AuthReasonCode) (properties : option AuthProperties) : Auth :=
  {| auth_code := code; auth_properties := properties |}.

(** ** Properties *)

Definition AuthProperties_len (self : AuthProperties) : usize :=
  let len := 0 in
  let len := add_some len (auth_method self) (λ method, 1 + 2 + blen method) in
  let len := add_some len (auth_data self) (λ data, 1 + 2 + blen data) in
  let len := add_some len (auth_reason self) (λ reason, 1 + 2 + blen reason) in
  fold_left (λ len '(key, value), len + (1 + 4 + (blen key + blen value)))
    (auth_user_properties self) len.

(** The [match property(prop)?] of [AuthProperties::read]. *)
Definition AuthProperties_step (property_type : PropertyType) (prop : u8) (props : AuthProperties)
    : M Bytes Error AuthProperties :=
  match props with
  | mkAuthProperties method data reason user_properties =>
      match property_type with
      | AuthenticationMethod =>
          if is_some method then mfail MalformedPacket
          else v ← read_mqtt_string; mret (mkAuthProperties (Some v) data reason user_properties)
      | AuthenticationData =>
          if is_some data then mfail MalformedPacket
          else v ← read_mqtt_bytes; mret (mkAuthProperties method (Some v) reason user_properties)
      | ReasonString =>
          if is_some reason then mfail MalformedPacket
          else v ← read_mqtt_string; mret (mkAuthProperties method data (Some v) user_properties)
      | UserProperty =>
          key ← read_mqtt_string;
          value ← read_mqtt_string;
          mret (mkAuthProperties method data reason (user_properties ++ [(key, value)]))
      | _ => mfail (InvalidPropertyType prop)
      end
  end.

(** [while bytes.has_remaining()]; an iteration consumes a byte or fails. *)
Fixpoint AuthProperties_loop (fuel : nat) (props : AuthProperties) : M Bytes Error AuthProperties :=
  bytes ← mget;
  if blen bytes =? 0 then mret props
  else
    match fuel with
    | O => mpanic
    | S fuel =>
        prop ← read_u8;
        property_type ← lift (property prop);
        props ← AuthProperties_step property_type prop props;
        AuthProperties_loop fuel props
    end.

Definition AuthProperties_read : M Bytes Error (option AuthProperties) :=
  bytes ← mget;
  '(properties_len_len, properties_len) ← lift (length5 bytes);
  advance properties_len_len;;
  bytes ← mget;
  if blen bytes <? properties_len then mfail MalformedPacket
  else if properties_len =? 0 then mret None
  else
    bytes ← split_to properties_len;
    props ← lift (run_on bytes (AuthProperties_loop (length bytes) AuthProperties_default));
    mret (Some props).

Definition AuthProperties_write_inner (self : AuthProperties) : M Bytes Error unit :=
  let len := AuthProperties_len self in
  _ ← write_remaining_length len;
  if_some (auth_method self) (λ authentication_method,
    put_u8 (PropertyType_as_u8 AuthenticationMethod);;
    write_mqtt_string authentication_method);;
  if_some (auth_data self) (λ authentication_data,
    put_u8 (PropertyType_as_u8 AuthenticationData);;
    write_mqtt_bytes authentication_data);;
  if_some (auth_reason self) (λ reason,
    put_u8 (PropertyType_as_u8 ReasonString);;
    write_mqtt_string reason);;
  write_user_properties (auth_user_properties self).

Definition AuthProperties_write (self : AuthProperties) : M Bytes Error unit :=
  transactional_write (AuthProperties_write_inner self).

(** ** AUTH *)

Definition Auth_len (self : Auth) : usize :=
  1 + properties_size AuthProperties_len (auth_properties self).

Definition Auth_size (self : Auth) : usize :=
  let len := Auth_len self in
  let remaining_len_size := len_len len in
  1 + remaining_len_size + len.

Definition Auth_read (fixed_header : FixedHeader) (bytes : Bytes) : outcome Error Auth :=
  run_on bytes (
    advance (header_len fixed_header);;
    code ← AuthReasonCode_read;
    properties ← AuthProperties_read;
    bytes ← mget;
    if negb (blen bytes =? 0) then mfail MalformedPacket
    else mret {| auth_code := code; auth_properties := properties |}).

Definition Auth_write_inner (self : Auth) : M Bytes Error usize :=
  put_u8 0xF0;;
  let len := Auth_len self in
  count ← write_remaining_length len;
  AuthReasonCode_write (auth_code self);;
  write_properties AuthProperties_write (auth_properties self);;
  mret (1 + count + len).

Definition Auth_write (self : Auth) : M Bytes Error usize :=
  transactional_write (Auth_write_inner self).

(** * Laws of the properties *)

Definition AuthProperties_items (p : AuthProperties) : list item :=
  opt_item AuthenticationMethod V_str (auth_method p) ++
  opt_item AuthenticationData V_bin (auth_data p) ++
  opt_item ReasonString V_str (auth_reason p) ++
  pair_items (auth_user_properties p).

Definition AuthProperties_valid (p : AuthProperties) : Prop :=
  opt_ok mqtt_string (auth_method p) ∧ opt_ok mqtt_bytes (auth_data p) ∧
  opt_ok mqtt_string (auth_reason p) ∧ pairs_valid (auth_user_properties p).

#[global] Instance AuthProperties_set : PropertySet AuthProperties := {|
  ps_read := AuthProperties_read; ps_write := AuthProperties_write;
  ps_len := AuthProperties_len; ps_items := AuthProperties_items;
  ps_valid := AuthProperties_valid; ps_exact _ := True; ps_encodable _ := True |}.

Lemma auth_pairs_len l len :
  fold_left (λ len '(key, value), len + (1 + 4 + (blen key + blen value))) l len =
  user_properties_len len l.
Proof.
  unfold user_properties_len. revert len. induction l as [|[k v] l IH]; intros len; [done|].
  cbn [fold_left]. rewrite IH. f_equal. lia.
Qed.

Lemma AuthProperties_len_ok p :
  AuthProperties_len p = blen (items_bytes (AuthProperties_items p)).
Proof.
  unfold AuthProperties_len, AuthProperties_items. cbv zeta. rewrite auth_pairs_len. solve_len.
Qed.

(** [auth_runs p its q]: the arms read the items from [p] to [q]. *)
Fixpoint auth_runs (p : AuthProperties) (its : list item) (q : AuthProperties) : Prop :=
  match its with
  | [] => p = q
  | i :: its =>
      ∃ p', reads (AuthProperties_step i.1 (PropertyType_as_u8 i.1) p) (value_bytes i.2) p' ∧
            auth_runs p' its q
  end.

Lemma auth_runs_app p a q b r : auth_runs p a q → auth_runs q b r → auth_runs p (a ++ b) r.
Proof.
  revert p. induction a as [|i a IH]; intros p; cbn [auth_runs app]; [by intros ->|].
  intros (p' & Hi & Hr) Hb. exists p'. eauto.
Qed.

Lemma auth_runs_opt {A} (set : option A → AuthProperties) t V (o : option A) :
  (∀ x, o = Some x →
     reads (AuthProperties_step t (PropertyType_as_u8 t) (set None)) (value_bytes (V x))
       (set (Some x))) →
  auth_runs (set None) (opt_item t V o) (set o).
Proof. intros Hs. destruct o as [x|]; [|done]. exists (set (Some x)). split; [by apply Hs|done]. Qed.

Lemma auth_runs_pairs m d r l acc :
  pairs_valid l →
  auth_runs (mkAuthProperties m d r acc) (pair_items l) (mkAuthProperties m d r (acc ++ l)).
Proof.
  intros Hl. revert acc. induction Hl as [|[k v] l [Hk Hv] _ IH]; intros acc;
    cbn [pair_items map auth_runs]; [by rewrite app_nil_r|].
  exists (mkAuthProperties m d r (acc ++ [(k, v)])). split.
  - cbn [fst snd AuthProperties_step value_bytes] in *.
    eapply reads_bind; [by apply reads_v5_string|].
    rewrite <- (app_nil_r (field_bytes v)).
    eapply reads_bind; [by apply reads_v5_string|apply reads_ret].
  - specialize (IH (acc ++ [(k, v)])). by rewrite <- (assoc_L (++)) in IH.
Qed.

Lemma AuthProperties_runs p :
  AuthProperties_valid p → auth_runs AuthProperties_default (AuthProperties_items p) p.
Proof.
  destruct p as [m d r u]. intros (H1 & H2 & H3 & H4). cbn in *.
  eapply auth_runs_app; [|eapply auth_runs_app; [|eapply auth_runs_app]].
  - apply (auth_runs_opt (λ o, mkAuthProperties o None None [])). intros x Hx.
    rewrite <- (app_nil_r (value_bytes _)).
    eapply reads_bind; [by apply reads_v5_string, H1|apply reads_ret].
  - apply (auth_runs_opt (λ o, mkAuthProperties m o None [])). intros x Hx.
    rewrite <- (app_nil_r (value_bytes _)).
    eapply reads_bind; [by apply reads_v5_bytes, H2|apply reads_ret].
  - apply (auth_runs_opt (λ o, mkAuthProperties m d o [])). intros x Hx.
    rewrite <- (app_nil_r (value_bytes _)).
    eapply reads_bind; [by apply reads_v5_string, H3|apply reads_ret].
  - by apply auth_runs_pairs.
Qed.

Lemma auth_loop_ok p its q fuel :
  auth_runs p its q → (length its ≤ fuel)%nat →
  AuthProperties_loop fuel p (items_bytes its) = (Ok q, []).
Proof.
  revert p fuel. induction its as [|i its IH]; intros p fuel; cbn [auth_runs length].
  - intros -> _. by destruct fuel.
  - intros (p' & Hi & Hr) Hf. destruct fuel as [|fuel]; [lia|].
    cbn [AuthProperties_loop]. rewrite bind_run. cbn [mget].
    rewrite (proj2 (Z.eqb_neq _ _)).
    2: { pose proof (items_bytes_pos (i :: its)). naive_solver lia. }
    rewrite items_bytes_cons. unfold item_bytes. rewrite <- app_comm_cons.
    change (?a :: ?b) with ([a] ++ b).
    rewrite bind_run, reads_v5_u8, bind_run. unfold lift. rewrite property_as_u8.
    rewrite bind_run, Hi. apply IH; [done|lia].
Qed.

Lemma AuthProperties_read_ok p :
  AuthProperties_valid p → AuthProperties_items p ≠ [] →
  blen (items_bytes (AuthProperties_items p)) ≤ MAX_REMAINING_LENGTH →
  reads AuthProperties_read (properties_bytes (AuthProperties_items p)) (Some p).
Proof.
  intros Hv Hne Hb rest. set (its := AuthProperties_items p) in *.
  pose proof (items_bytes_pos its Hne).
  unfold AuthProperties_read, properties_bytes, length5. rewrite <- (assoc_L (++)).
  rewrite bind_run. cbn [mget]. rewrite bind_run. unfold lift at 1.
  rewrite length_remaining_length_bytes by lia. cbn [outcome_map_err].
  rewrite bind_run, <- (blen_remaining_length_bytes (blen _)), reads_advance.
  rewrite bind_run. cbn [mget]. rewrite blen_app. pose proof (blen_nonneg rest).
  rewrite (proj2 (Z.ltb_ge _ _)), (proj2 (Z.eqb_neq _ 0)) by lia.
  rewrite bind_run, split_to_app, bind_run. unfold lift, run_on.
  rewrite (auth_loop_ok _ its p); [done|by apply AuthProperties_runs|].
  by apply length_concat_map_ge.
Qed.

Lemma AuthProperties_step_safe t b p :
  AuthProperties_valid p →
  reads_safe (AuthProperties_step t b p)
    (λ q, AuthProperties_valid q ∧ AuthProperties_items q ≠ []).
Proof.
  destruct p as [m d r u]. intros Hv. unfold AuthProperties_valid in Hv; cbn in Hv.
  destruct Hv as (H1 & H2 & H3 & H4).
  destruct t; cbn [AuthProperties_step]; try apply reads_safe_fail;
    try (destruct (is_some _); [apply reads_safe_fail|]);
    safe_read; intros v Hx; try (safe_read; intros v2 Hx2);
    apply reads_safe_ret; (split; [solve_valid AuthProperties_valid|solve_nonempty]).
Qed.

Lemma auth_loop_safe fuel p s :
  Forall is_u8 s → (length s ≤ fuel)%nat → AuthProperties_valid p →
  s ≠ [] ∨ AuthProperties_items p ≠ [] →
  wp (AuthProperties_loop fuel p)
    (λ q _, AuthProperties_valid q ∧ AuthProperties_items q ≠ []) (λ _ _, True) s.
Proof.
  revert p s. induction fuel as [|fuel IH]; intros p s Hs Hf Hp Hc;
    cbn [AuthProperties_loop]; apply wp_bind, wp_get.
  { destruct s; simpl in Hf; [|lia]. apply wp_ret. destruct Hc; [done|done]. }
  destruct (Z.eqb_spec (blen s) 0) as [H0|H0].
  { apply blen_zero in H0 as ->. apply wp_ret. by destruct Hc. }
  apply wp_bind, wp_map_err. eapply wp_mono; [apply wp_read_u8| |done].
  intros b s1 ->. apply Forall_cons in Hs as [Hb Hs]. cbn beta.
  apply wp_bind, wp_lift. pose proof (property_total b). destruct (property b); [|done|done].
  apply wp_bind. eapply wp_mono; [by apply AuthProperties_step_safe| |done].
  intros p' s2 ((Hp' & Hne) & Hs2 & Hl). simpl in Hf.
  apply IH; [done| |done|by right]. unfold blen in Hl. lia.
Qed.

Lemma AuthProperties_read_safe :
  reads_safe AuthProperties_read
    (λ o, match o with Some p => AuthProperties_valid p ∧ AuthProperties_items p ≠ [] | None => True end).
Proof.
  intros s Hs. unfold AuthProperties_read, length5. apply wp_bind, wp_get, wp_bind, wp_lift.
  pose proof (length_loop_no_panic s 0 0 0) as Hp. fold (length_ s) in Hp.
  destruct (length_ s) as [[k n]|e|] eqn:Hl; [|done|done]. cbn [outcome_map_err].
  apply length_ok in Hl as (Hk & Hn & Hle & _); [|done].
  apply wp_bind. eapply wp_mono; [apply (wp_advance _ _ (λ _ _, False)); lia| |done].
  intros ? s1 Hc. apply consumed_blen in Hc as Hb. apply consumed_u8 in Hc; [|done].
  apply wp_bind, wp_get. destruct (Z.ltb_spec (blen s1) n); [by apply wp_fail|].
  destruct (Z.eqb_spec n 0) as [->|Hn0]; [apply wp_ret; split_and!; [done..|lia]|].
  apply wp_bind. eapply wp_mono; [apply (wp_split_to _ _ (λ _ _, False)); lia| |done].
  intros bs s2 [-> Hbs]. apply Forall_app in Hc as [Hu1 Hu2].
  apply wp_bind, wp_lift. unfold run_on.
  pose proof (auth_loop_safe (length bs) AuthProperties_default bs Hu1) as Hloop.
  unfold wp in Hloop. rewrite blen_app in *.
  destruct (AuthProperties_loop _ _ bs) as [[q|e|] s3]; cbn [fst].
  - apply wp_ret. split_and!; [..|done|lia]; apply Hloop; try done; try (left; intros ->; done);
      repeat split; try done; constructor.
  - done.
  - exfalso. apply Hloop; try done; [repeat split; try done; constructor|]. left. by intros ->.
Qed.

#[global] Instance AuthProperties_laws : PropertySetLaws AuthProperties.
Proof.
  split; cbn.
  - apply AuthProperties_len_ok.
  - intros p (H1 & H2 & H3 & H4) Hb.
    apply writes_property_list; [apply AuthProperties_len_ok|done|].
    unfold AuthProperties_items.
    repeat (apply writes_items_then; [|]); try (apply writes_if_some; intros x Hx; apply writes_item).
    all: try (by apply writes_user_properties).
    all: first [apply writes_v5_string; eauto|apply writes_v5_bytes; eauto].
  - intros p Hv _. by apply AuthProperties_read_ok.
  - intros rest. unfold AuthProperties_read, length5. rewrite bind_run. cbn [mget]. rewrite bind_run.
    unfold lift at 1. change [0] with (remaining_length_bytes 0).
    rewrite length_remaining_length_bytes by done. cbn [outcome_map_err].
    rewrite bind_run, <- (blen_remaining_length_bytes 0), reads_advance, bind_run. cbn [mget].
    by rewrite (proj2 (Z.ltb_ge _ _)) by apply blen_nonneg.
  - apply AuthProperties_read_safe.
  - intros p (H1 & H2 & H3 & H4).
    unfold AuthProperties_items. repeat (apply Forall_app; split);
      try (apply Forall_opt_item; done); by apply Forall_pair_items.
  - done.
  - intros p _. apply total_transactional, total_bind.
    { apply v5_total_length. rewrite AuthProperties_len_ok. apply blen_nonneg. }
    intros _. repeat (apply total_bind; [|intros _]); try (apply total_if_some; intros x Hx);
      try (apply (total_bind (put_u8 _)); [done|intros _]); auto with appends; try done.
  - intros p. apply appends_transactional. unfold AuthProperties_write_inner.
    repeat (apply appends_bind; [|intros _]); try (apply appends_if_some; intros x);
      auto with appends.
Qed.

(** * Laws of AUTH *)

Definition AuthReasonCode_byte (c : AuthReasonCode) : u8 :=
  match c with ARC_Success => 0x00 | ARC_Continue => 0x18 | ARC_ReAuthenticate => 0x19 end.

Definition Auth_content (a : Auth) : Bytes :=
  AuthReasonCode_byte (auth_code a) :: props_bytes (auth_properties a).

#[global] Instance Auth_wire : WirePacket Auth := {|
  wire_read := Auth_read; wire_write := Auth_write; wire_size := Auth_size;
  wire_byte1 _ := 0xF0; wire_content := Auth_content;
  wire_valid a := props_valid (auth_properties a);
  wire_exact _ := True; wire_encodable _ := True |}.

Lemma blen_Auth5 a : blen (Auth_content a) = Auth_len a.
Proof.
  unfold Auth_content, Auth_len. rewrite blen_cons.
  pose proof (properties_size_eq (auth_properties a)) as Hs.
  cbn [ps_len AuthProperties_set] in Hs. by rewrite Hs.
Qed.

Lemma auth_props_bound a :
  blen (Auth_content a) ≤ MAX_REMAINING_LENGTH →
  blen (props_bytes (auth_properties a)) ≤ MAX_REMAINING_LENGTH.
Proof. unfold Auth_content. rewrite blen_cons. lia. Qed.

Lemma AuthReasonCode_round c :
  reads AuthReasonCode_read [AuthReasonCode_byte c] c.
Proof. intros rest. by destruct c. Qed.

Lemma AuthReasonCode_safe : reads_safe AuthReasonCode_read (λ _, True).
Proof.
  unfold AuthReasonCode_read. safe_read. intros n _. apply reads_safe_lift. by repeat case_match.
Qed.

#[global] Instance Auth_laws : WirePacketLaws Auth.
Proof.
  split; cbn [wire_read wire_write wire_size wire_byte1 wire_content wire_valid wire_exact
              wire_encodable Auth_wire].
  - intros a Hv Hb. apply writes_transactional.
    unfold Auth_write_inner, frame_bytes, Auth_size. cbn [wire_byte1 wire_content Auth_wire].
    cbv zeta. pose proof (auth_props_bound a Hb). pose proof (blen_nonneg (Auth_content a)) as H0.
    rewrite blen_Auth5 in *. apply writes_v5_frame; [lia|]. unfold Auth_content.
    change (?a :: ?b) with ([a] ++ b). eapply writes_bind; [apply writes_put_u8|].
    eapply writes_last; [by refine (writes_props (auth_properties a) Hv _)|done].
  - intros a hdr Hv _ Hb. unfold Auth_read. cbn [header_len]. rewrite run_on_skip_header.
    apply auth_props_bound in Hb. unfold Auth_content.
    change (?a :: ?b) with ([a] ++ b). erewrite run_on_bind by (apply AuthReasonCode_round).
    rewrite <- (app_nil_r (props_bytes _)).
    erewrite run_on_bind
      by (by refine (reads_props (auth_properties a) Hv _ _); destruct (auth_properties a)).
    by destruct a.
  - intros a Hv. unfold Auth_size, frame_bytes. cbn [wire_byte1 wire_content Auth_wire].
    rewrite blen_cons, blen_app, blen_remaining_length_bytes, blen_Auth5. lia.
  - intros a Hv Hb. constructor; [unfold is_u8; by destruct (auth_code a)|].
    apply props_bytes_u8; [done|]. by apply auth_props_bound.
  - intros h bytes ? ? ? ? ?. unfold Auth_read. apply run_on_safe; [done|lia|].
    eapply reads_safe_bind; [apply AuthReasonCode_safe|]. intros c _.
    eapply reads_safe_bind; [exact (props_safe (P:=AuthProperties))|]. intros o Ho s Hs.
    apply wp_bind, wp_get. destruct (negb _); [by apply wp_fail|]. by apply wp_ret.
  - done.
  - intros a _. apply total_transactional. unfold Auth_write_inner.
    apply (total_bind (put_u8 _)); [done|]. intros _. cbv zeta. apply total_bind.
    { apply v5_total_length. rewrite <- blen_Auth5. apply blen_nonneg. }
    intros n. apply (total_bind (put_u8 _)); [done|]. intros _.
    apply total_bind; [|done]. refine (total_props (auth_properties a) _).
    by destruct (auth_properties a).
  - intros a. apply appends_transactional. unfold Auth_write_inner, AuthReasonCode_write.
    apply appends_bind; [auto with appends|]. intros _. cbv zeta.
    apply appends_bind; [auto with appends|]. intros n. apply appends_bind; [auto with appends|].
    intros _. apply appends_bind; [exact (appends_props (auth_properties a))|].
    auto with appends.
Qed.
