(* ===== verification/V5Packet.v ===== *)
(** [mqttbytes-v5/src/v5/mod.rs], [ping.rs] and [codec.rs]: the packet enumeration, reading a packet
    from a buffered stream, writing one, and the [Decoder]/[Encoder] built on them. *)

From S2P Require Import Prelude.
From S2P Require Import Utf8.
From S2P Require Import Primitives.
From S2P Require Import CodecBase.
From S2P Require Import V5Base.
From S2P Require Import V5Properties.
From S2P Require Import V5Acks.
From S2P Require Import V5SubAck.
From S2P Require Import V5Subscribe.
From S2P Require Import V5Publish.
From S2P Require Import V5ConnAck.
From S2P Require Import V5ConnectProps.
From S2P Require Import V5Connect.
From S2P Require Import V5Disconnect.
From S2P Require Import V5Auth.

Definition PingReq_size : usize := 2.
Definition PingReq_write : M Bytes Error usize := write_pingreq.
Definition PingResp_size : usize := 2.
Definition PingResp_write : M Bytes Error usize := write_pingresp.

Inductive Packet :=
| P_Auth (auth : Auth)
| P_Connect (connect : Connect) (will : option LastWill) (auth : ConnectAuth)
| P_ConnAck (connack : ConnAck)
| P_Publish (publish : Publish)
| P_PubAck (puback : PubAck)
| P_PingReq
| P_PingResp
| P_Subscribe (subscribe : Subscribe)
| P_SubAck (suback : SubAck)
| P_PubRec (pubrec : PubRec)
| P_PubRel (pubrel : PubRel)
| P_PubComp (pubcomp : PubComp)
| P_Unsubscribe (unsubscribe : Unsubscribe)
| P_UnsubAck (unsuback : UnsubAck)
| P_Disconnect (disconnect : Disconnect).

Definition Packet_packet_type (self : Packet) : PacketType :=
  match self with
  | P_Auth _ => PT_Auth
  | P_Connect _ _ _ => PT_Connect
  | P_ConnAck _ => PT_ConnAck
  | P_Publish _ => PT_Publish
  | P_PubAck _ => PT_PubAck
  | P_PingReq => PT_PingReq
  | P_PingResp => PT_PingResp
  | P_Subscribe _ => PT_Subscribe
  | P_SubAck _ => PT_SubAck
  | P_PubRec _ => PT_PubRec
  | P_PubRel _ => PT_PubRel
  | P_PubComp _ => PT_PubComp
  | P_Unsubscribe _ => PT_Unsubscribe
  | P_UnsubAck _ => PT_UnsubAck
  | P_Disconnect _ => PT_Disconnect
  end.

Definition Packet_size (self : Packet) : usize :=
  match self with
  | P_Auth auth => Auth_size auth
  | P_Publish publish => Publish_size publish
  | P_Subscribe subscription => Subscribe_size subscription
  | P_Unsubscribe unsubscribe => Unsubscribe_size unsubscribe
  | P_ConnAck ack => ConnAck_size ack
  | P_PubAck ack => PubAck_size ack
  | P_SubAck ack => SubAck_size ack
  | P_UnsubAck unsuback => UnsubAck_size unsuback
  | P_PubRec pubrec => PubRec_size pubrec
  | P_PubRel pubrel => PubRel_size pubrel
  | P_PubComp pubcomp => PubComp_size pubcomp
  | P_Connect connect will auth => Connect_size connect will auth
  | P_PingReq => PingReq_size
  | P_PingResp => PingResp_size
  | P_Disconnect disconnect => Disconnect_size disconnect
  end.

Definition validate_fixed_header_flags (packet_type : PacketType) (byte1 : u8)
    : outcome Error unit :=
  let flags := Z.land byte1 0x0F in
  let valid := match packet_type with
               | PT_Publish => true
               | PT_PubRel | PT_Subscribe | PT_Unsubscribe => flags =? 2
               | PT_Connect | PT_ConnAck | PT_PubAck | PT_PubRec | PT_PubComp | PT_SubAck
               | PT_UnsubAck | PT_PingReq | PT_PingResp | PT_Disconnect | PT_Auth => flags =? 0
               end in
  if valid then Ok tt else Err IncorrectPacketFormat.

(** The second half of [Packet::read], on the frame split off the stream. *)
Definition Packet_read_frame (fixed_header : FixedHeader) (packet : Bytes)
    : outcome Error Packet :=
  packet_type ← FixedHeader_packet_type fixed_header;
  validate_fixed_header_flags packet_type (byte1 fixed_header);;
  if remaining_len fixed_header =? 0 then
    match packet_type with
    | PT_PingReq => Ok P_PingReq
    | PT_PingResp => Ok P_PingResp
    | PT_Disconnect => x ← Disconnect_read fixed_header packet; Ok (P_Disconnect x)
    | _ => Err PayloadRequired
    end
  else
    match packet_type with
    | PT_Connect =>
        '(connect, will, auth) ← Connect_read fixed_header packet;
        Ok (P_Connect connect will auth)
    | PT_Publish => x ← Publish_read fixed_header packet; Ok (P_Publish x)
    | PT_Subscribe => x ← Subscribe_read fixed_header packet; Ok (P_Subscribe x)
    | PT_Unsubscribe => x ← Unsubscribe_read fixed_header packet; Ok (P_Unsubscribe x)
    | PT_ConnAck => x ← ConnAck_read fixed_header packet; Ok (P_ConnAck x)
    | PT_PubAck => x ← PubAck_read fixed_header packet; Ok (P_PubAck x)
    | PT_PubRec => x ← PubRec_read fixed_header packet; Ok (P_PubRec x)
    | PT_PubRel => x ← PubRel_read fixed_header packet; Ok (P_PubRel x)
    | PT_PubComp => x ← PubComp_read fixed_header packet; Ok (P_PubComp x)
    | PT_SubAck => x ← SubAck_read fixed_header packet; Ok (P_SubAck x)
    | PT_UnsubAck => x ← UnsubAck_read fixed_header packet; Ok (P_UnsubAck x)
    | PT_PingReq => Ok P_PingReq
    | PT_PingResp => Ok P_PingResp
    | PT_Disconnect => x ← Disconnect_read fixed_header packet; Ok (P_Disconnect x)
    | PT_Auth => x ← Auth_read fixed_header packet; Ok (P_Auth x)
    end.

Definition Packet_read (max_size : option u32) : M Bytes Error Packet :=
  stream ← mget;
  fixed_header ← lift (check stream max_size);
  packet ← split_to (FixedHeader_frame_length fixed_header);
  lift (Packet_read_frame fixed_header packet).

(** [u32::try_from(size).unwrap_or(u32::MAX)]. *)
Definition saturating_u32 (size : usize) : u32 :=
  if size <=? 4294967295 then size else 4294967295.

Definition Packet_write_inner (self : Packet) (max_size : option u32) : M Bytes Error usize :=
  match exceeds max_size (Packet_size self) with
  | Some max_size => mfail (OutgoingPacketTooLarge (saturating_u32 (Packet_size self)) max_size)
  | None =>
      match self with
      | P_Auth auth => Auth_write auth
      | P_Publish publish => Publish_write publish
      | P_Subscribe subscription => Subscribe_write subscription
      | P_Unsubscribe unsubscribe => Unsubscribe_write unsubscribe
      | P_ConnAck ack => ConnAck_write ack
      | P_PubAck ack => PubAck_write ack
      | P_SubAck ack => SubAck_write ack
      | P_UnsubAck unsuback => UnsubAck_write unsuback
      | P_PubRec pubrec => PubRec_write pubrec
      | P_PubRel pubrel => PubRel_write pubrel
      | P_PubComp pubcomp => PubComp_write pubcomp
      | P_Connect connect will auth => Connect_write connect will auth
      | P_PingReq => PingReq_write
      | P_PingResp => PingResp_write
      | P_Disconnect disconnect => Disconnect_write disconnect
      end
  end.

Definition Packet_write (self : Packet) (max_size : option u32) : M Bytes Error usize :=
  transactional_write (Packet_write_inner self max_size).

(** ** Codec *)

Record Codec := mkCodec {
  max_incoming_size : option u32;
  max_outgoing_size : option u32;
}.

(** [src.reserve(b)] changes the capacity of the buffer only. *)
Definition Codec_decode (self : Codec) : M Bytes Error (option Packet) := λ src,
  match Packet_read (max_incoming_size self) src with
  | (Ok packet, src) => (Ok (Some packet), src)
  | (Err (InsufficientBytes b), src) => (Ok None, src)
  | (Err e, src) => (Err e, src)
  | (Panic, src) => (Panic, src)
  end.

Definition Codec_encode (self : Codec) (item : Packet) : M Bytes Error unit :=
  Packet_write item (max_outgoing_size self);;
  mret tt.

(** * Packets by their wire interface *)

(** What holds of every packet [Packet::read] returns. *)
Definition Packet_valid (p : Packet) : Prop :=
  match p with
  | P_Auth x => wire_valid x
  | P_Connect connect will auth => wire_valid (connect, will, auth)
  | P_ConnAck x => wire_valid x
  | P_Publish x => wire_valid x
  | P_PubAck x => wire_valid x
  | P_Subscribe x => wire_valid x
  | P_SubAck x => wire_valid x
  | P_PubRec x => wire_valid x
  | P_PubRel x => wire_valid x
  | P_PubComp x => wire_valid x
  | P_Unsubscribe x => wire_valid x
  | P_UnsubAck x => wire_valid x
  | P_Disconnect x => wire_valid x
  | P_PingReq | P_PingResp => True
  end.

(** What a valid packet needs to be read back: only PUBLISH asks for something. *)
Definition Packet_exact (p : Packet) : Prop :=
  match p with
  | P_Auth x => wire_exact x
  | P_Connect connect will auth => wire_exact (connect, will, auth)
  | P_ConnAck x => wire_exact x
  | P_Publish x => wire_exact x
  | P_PubAck x => wire_exact x
  | P_Subscribe x => wire_exact x
  | P_SubAck x => wire_exact x
  | P_PubRec x => wire_exact x
  | P_PubRel x => wire_exact x
  | P_PubComp x => wire_exact x
  | P_Unsubscribe x => wire_exact x
  | P_UnsubAck x => wire_exact x
  | P_Disconnect x => wire_exact x
  | P_PingReq | P_PingResp => True
  end.

(** What the writers need not to panic: only CONNACK asks for something. *)
Definition Packet_encodable (p : Packet) : Prop :=
  match p with
  | P_Auth x => wire_encodable x
  | P_Connect connect will auth => wire_encodable (connect, will, auth)
  | P_ConnAck x => wire_encodable x
  | P_Publish x => wire_encodable x
  | P_PubAck x => wire_encodable x
  | P_Subscribe x => wire_encodable x
  | P_SubAck x => wire_encodable x
  | P_PubRec x => wire_encodable x
  | P_PubRel x => wire_encodable x
  | P_PubComp x => wire_encodable x
  | P_Unsubscribe x => wire_encodable x
  | P_UnsubAck x => wire_encodable x
  | P_Disconnect x => wire_encodable x
  | P_PingReq | P_PingResp => True
  end.

Definition Packet_byte1 (p : Packet) : u8 :=
  match p with
  | P_Auth x => wire_byte1 x
  | P_Connect connect will auth => wire_byte1 (connect, will, auth)
  | P_ConnAck x => wire_byte1 x
  | P_Publish x => wire_byte1 x
  | P_PubAck x => wire_byte1 x
  | P_Subscribe x => wire_byte1 x
  | P_SubAck x => wire_byte1 x
  | P_PubRec x => wire_byte1 x
  | P_PubRel x => wire_byte1 x
  | P_PubComp x => wire_byte1 x
  | P_Unsubscribe x => wire_byte1 x
  | P_UnsubAck x => wire_byte1 x
  | P_Disconnect x => wire_byte1 x
  | P_PingReq => 0xC0
  | P_PingResp => 0xD0
  end.

Definition Packet_content (p : Packet) : Bytes :=
  match p with
  | P_Auth x => wire_content x
  | P_Connect connect will auth => wire_content (connect, will, auth)
  | P_ConnAck x => wire_content x
  | P_Publish x => wire_content x
  | P_PubAck x => wire_content x
  | P_Subscribe x => wire_content x
  | P_SubAck x => wire_content x
  | P_PubRec x => wire_content x
  | P_PubRel x => wire_content x
  | P_PubComp x => wire_content x
  | P_Unsubscribe x => wire_content x
  | P_UnsubAck x => wire_content x
  | P_Disconnect x => wire_content x
  | P_PingReq | P_PingResp => []
  end.

(** The remaining length of the packet can be encoded. *)
Definition Packet_fits (p : Packet) : Prop := blen (Packet_content p) ≤ MAX_REMAINING_LENGTH.

(** The frame of a packet on the wire. *)
Definition Packet_frame (p : Packet) : Bytes :=
  Packet_byte1 p :: remaining_length_bytes (blen (Packet_content p)) ++ Packet_content p.

(** ** The fixed header of a frame *)

Lemma v5_byte1_spec p b2 n :
  FixedHeader_packet_type {| byte1 := Packet_byte1 p; header_len := b2; remaining_len := n |} =
    Ok (Packet_packet_type p) ∧
  validate_fixed_header_flags (Packet_packet_type p) (Packet_byte1 p) = Ok tt.
Proof. destruct p as [| | |[[] [] [] ? ? ? ?]| | | | | | | | | | |]; done. Qed.

(** Only the pings and the compact DISCONNECT have no content. *)
Lemma v5_content_pos p :
  match p with
  | P_PingReq | P_PingResp | P_Disconnect _ => True
  | _ => (blen (Packet_content p) =? 0) = false
  end.
Proof.
  assert (Hc : ∀ b (l : Bytes), (blen (b :: l) =? 0) = false).
  { intros b l. rewrite blen_cons. pose proof (blen_nonneg l). lia. }
  destruct p; try exact I; apply Hc.
Qed.

Lemma v5_read_frame_ok p hdr :
  Packet_valid p → Packet_exact p → Packet_fits p →
  Packet_read_frame {| byte1 := Packet_byte1 p; header_len := blen hdr;
                       remaining_len := blen (Packet_content p) |}
    (hdr ++ Packet_content p) = Ok p.
Proof.
  intros Hv He Hb. unfold Packet_read_frame, Packet_fits in *.
  destruct (v5_byte1_spec p (blen hdr) (blen (Packet_content p))) as [-> Hf].
  cbn [mbind outcome_bind V5Base.byte1 remaining_len]. rewrite Hf. cbn [mbind outcome_bind].
  pose proof (v5_content_pos p) as Hp.
  assert (Hbind : ∀ A (r : outcome Error A) (k : A → outcome Error Packet) x q,
    r = Ok x → k x = Ok q → r ≫= k = Ok q) by (by intros A r k x q -> Hk).
  destruct p; cbn [Packet_packet_type Packet_content Packet_byte1 Packet_valid Packet_exact] in *;
    try done; rewrite ?Hp; try (destruct (_ =? _));
    (eapply Hbind; [exact (wire_read_ok _ hdr Hv He Hb)|done]).
Qed.

Lemma v5_frame_eq p rest :
  Packet_frame p ++ rest =
  Packet_byte1 p :: remaining_length_bytes (blen (Packet_content p)) ++ Packet_content p ++ rest.
Proof. unfold Packet_frame. cbn [app]. by rewrite <- (assoc_L (++)). Qed.

Lemma v5_read_ok p max rest :
  Packet_valid p → Packet_exact p → Packet_fits p → within max (blen (Packet_frame p)) →
  Packet_read max (Packet_frame p ++ rest) = (Ok p, rest).
Proof.
  intros Hv He Hb Hm. unfold Packet_read.
  rewrite bind_run. cbn [mget]. rewrite bind_run. unfold lift at 1.
  rewrite v5_frame_eq at 1. rewrite v5_check_frame by done. rewrite bind_run.
  set (hdr := Packet_byte1 p :: remaining_length_bytes (blen (Packet_content p))).
  assert (FixedHeader_frame_length
    {| V5Base.byte1 := Packet_byte1 p; header_len := blen hdr;
       remaining_len := blen (Packet_content p) |} = blen (Packet_frame p)) as ->.
  { unfold FixedHeader_frame_length, Packet_frame. cbn [header_len remaining_len].
    unfold hdr. autorewrite with blen. lia. }
  rewrite split_to_app. unfold lift. change (Packet_frame p) with (hdr ++ Packet_content p).
  by rewrite v5_read_frame_ok.
Qed.

Lemma v5_write_ok p max :
  Packet_valid p → Packet_fits p → within max (Packet_size p) →
  writes (Packet_write p max) (Packet_frame p) (Packet_size p).
Proof.
  intros Hv Hb Hm. apply writes_transactional. unfold Packet_write_inner.
  rewrite (proj2 (exceeds_none _ _)) by done. unfold Packet_fits in Hb.
  destruct p; cbn [Packet_valid Packet_content] in *;
    try exact (wire_write_ok _ Hv Hb); intros s; done.
Qed.

Lemma v5_size_ok p : Packet_valid p → Packet_size p = blen (Packet_frame p).
Proof. destruct p; cbn [Packet_valid]; intros Hv; try exact (wire_size_ok _ Hv); done. Qed.

(** ** Reading arbitrary input *)

Lemma v5_packet_type_safe h : FixedHeader_packet_type h ≠ Panic.
Proof. unfold FixedHeader_packet_type. by repeat case_match. Qed.

Lemma v5_flags_safe t b : validate_fixed_header_flags t b ≠ Panic.
Proof. unfold validate_fixed_header_flags. by destruct t; try destruct (_ =? _). Qed.

Definition read_result (r : outcome Error Packet) : Prop :=
  match r with Ok p => Packet_valid p | Err _ => True | Panic => False end.

(** The result of a packet body, wrapped in the packet's constructor. *)
Lemma v5_wrap_safe `{WirePacketLaws A} (c : A → Packet) h bytes :
  (∀ a, wire_valid a → Packet_valid (c a)) →
  Forall is_u8 bytes → is_u8 (byte1 h) → 0 ≤ header_len h →
  0 ≤ remaining_len h ≤ MAX_REMAINING_LENGTH → blen bytes = header_len h + remaining_len h →
  read_result (x ← wire_read h bytes; Ok (c x)).
Proof.
  intros Hc Hb Hb1 Hh Hr Hl. pose proof (wire_read_safe h bytes Hb Hb1 Hh Hr Hl) as Hs.
  destruct (wire_read h bytes); cbn; auto.
Qed.

Lemma v5_read_frame_safe h bytes :
  Forall is_u8 bytes → is_u8 (byte1 h) → 0 ≤ header_len h →
  0 ≤ remaining_len h ≤ MAX_REMAINING_LENGTH → blen bytes = header_len h + remaining_len h →
  read_result (Packet_read_frame h bytes).
Proof.
  intros Hb Hb1 Hh Hr Hl. unfold Packet_read_frame.
  pose proof (v5_packet_type_safe h). destruct (FixedHeader_packet_type h) as [t| |]; try done.
  cbn [mbind outcome_bind]. pose proof (v5_flags_safe t (byte1 h)).
  destruct (validate_fixed_header_flags t (byte1 h)); try done. cbn [mbind outcome_bind].
  assert (Hd : read_result (x ← Disconnect_read h bytes; Ok (P_Disconnect x)))
    by exact (v5_wrap_safe P_Disconnect h bytes (λ _ V, V) Hb Hb1 Hh Hr Hl).
  destruct (Z.eqb_spec (remaining_len h) 0); [by destruct t|].
  destruct t; try exact I; try exact Hd.
  - pose proof (v5_wrap_safe (λ '(connect, will, auth), P_Connect connect will auth) h bytes) as Hw.
    cbn [wire_read Connect_wire] in Hw.
    destruct (Connect_read h bytes) as [[[cn wl] au]|e|]; apply Hw; try done; by intros [[]].
  - exact (v5_wrap_safe P_ConnAck h bytes (λ _ V, V) Hb Hb1 Hh Hr Hl).
  - exact (v5_wrap_safe P_Publish h bytes (λ _ V, V) Hb Hb1 Hh Hr Hl).
  - exact (v5_wrap_safe P_PubAck h bytes (λ _ V, V) Hb Hb1 Hh Hr Hl).
  - exact (v5_wrap_safe P_PubRec h bytes (λ _ V, V) Hb Hb1 Hh Hr Hl).
  - exact (v5_wrap_safe P_PubRel h bytes (λ _ V, V) Hb Hb1 Hh Hr Hl).
  - exact (v5_wrap_safe P_PubComp h bytes (λ _ V, V) Hb Hb1 Hh Hr Hl).
  - exact (v5_wrap_safe P_Subscribe h bytes (λ _ V, V) Hb Hb1 Hh Hr Hl).
  - exact (v5_wrap_safe P_SubAck h bytes (λ _ V, V) Hb Hb1 Hh Hr Hl).
  - exact (v5_wrap_safe P_Unsubscribe h bytes (λ _ V, V) Hb Hb1 Hh Hr Hl).
  - exact (v5_wrap_safe P_UnsubAck h bytes (λ _ V, V) Hb Hb1 Hh Hr Hl).
  - exact (v5_wrap_safe P_Auth h bytes (λ _ V, V) Hb Hb1 Hh Hr Hl).
Qed.

(** [Packet::read], by what [check] says about the stream. *)
Lemma v5_read_cases max s :
  Forall is_u8 s →
  match check s max with
  | Ok h => ∃ frame rest, s = frame ++ rest ∧ blen frame = FixedHeader_frame_length h ∧
      2 ≤ blen frame ∧
      Packet_read max s = (Packet_read_frame h frame, rest) ∧
      read_result (Packet_read_frame h frame)
  | Err e => Packet_read max s = (Err e, s)
  | Panic => False
  end.
Proof.
  intros Hs. unfold Packet_read. rewrite bind_run. cbn [mget]. rewrite bind_run. unfold lift at 1.
  destruct (check s max) as [h|e|] eqn:Hc; [|done|by eapply v5_check_no_panic].
  rewrite bind_run. destruct (v5_check_ok s max h Hs Hc) as (Hb1 & Hh & Hr & Hm & Hfl & _).
  unfold FixedHeader_frame_length in *.
  pose proof (wp_split_to (E:=Error) (header_len h + remaining_len h) s (λ _ _, False)) as Hsp.
  unfold wp in Hsp. destruct (split_to (E:=Error) _ s) as [[frame| |] rest];
    [|exfalso; apply Hsp; lia..].
  destruct Hsp as [-> Hlen]; [lia|]. exists frame, rest. apply Forall_app in Hs as [Hfr _].
  split_and!; [done..|lia|done|]. apply v5_read_frame_safe; auto; lia.
Qed.

(** The result of [Codec::decode] from the one of [Packet::read]. *)
Definition decode_result (r : outcome Error Packet) : outcome Error (option Packet) :=
  match r with
  | Ok packet => Ok (Some packet)
  | Err (InsufficientBytes _) => Ok None
  | Err e => Err e
  | Panic => Panic
  end.

Lemma v5_decode_eq codec s :
  Codec_decode codec s =
  (decode_result (Packet_read (max_incoming_size codec) s).1,
   (Packet_read (max_incoming_size codec) s).2).
Proof. unfold Codec_decode. by destruct (Packet_read _ s) as [[p|[]|] s']. Qed.

(** A complete frame is taken off the stream, whatever follows it. *)
Lemma v5_decode_frame codec s h :
  Forall is_u8 s → check s (max_incoming_size codec) = Ok h →
  ∃ frame rest, s = frame ++ rest ∧ 2 ≤ blen frame ∧ read_result (Packet_read_frame h frame) ∧
    ∀ t, Forall is_u8 t →
      Codec_decode codec (s ++ t) = (decode_result (Packet_read_frame h frame), rest ++ t).
Proof.
  intros Hs Hk. pose proof (v5_read_cases (max_incoming_size codec) s Hs) as Hc. rewrite Hk in Hc.
  destruct Hc as (frame & rest & -> & Hl & H2 & _ & Hres). exists frame, rest. split_and!; [done..|].
  intros t Ht. apply v5_check_ok in Hk as (_ & _ & _ & _ & _ & Hext); [|done].
  pose proof (v5_read_cases (max_incoming_size codec) ((frame ++ rest) ++ t)
    (Forall_app_2 _ _ _ Hs Ht)) as Hc'. rewrite Hext in Hc'.
  destruct Hc' as (frame' & rest' & He & Hl' & _ & Hrd & _).
  rewrite <- (assoc_L (++)) in He. apply app_inj_1 in He as [<- <-]; [|unfold blen in *; lia].
  by rewrite v5_decode_eq, Hrd.
Qed.

Lemma v5_decode_stable codec s r s' t :
  Forall is_u8 s → Forall is_u8 t →
  Codec_decode codec s = (r, s') → (r, s') ≠ (Ok None, s) →
  Codec_decode codec (s ++ t) = (r, s' ++ t).
Proof.
  intros Hs Ht Hd Hr. pose proof (v5_read_cases (max_incoming_size codec) s Hs) as Hc.
  destruct (check s (max_incoming_size codec)) as [h|e|] eqn:Hk; [| |done].
  - destruct (v5_decode_frame codec s h Hs Hk) as (frame & rest & -> & _ & _ & Hdec).
    specialize (Hdec [] (Forall_nil_2 _)) as H0. rewrite !app_nil_r in H0.
    rewrite H0 in Hd. injection Hd as <- <-. by apply Hdec.
  - rewrite v5_decode_eq, Hc in Hd. cbn in Hd.
    assert (Hb : ∀ n, e ≠ InsufficientBytes n) by (intros n ->; by injection Hd as <- <-).
    pose proof (v5_read_cases (max_incoming_size codec) (s ++ t) (Forall_app_2 _ _ _ Hs Ht)) as Hc'.
    rewrite (v5_check_err_stable _ _ _ t Hs Hk Hb) in Hc'. rewrite v5_decode_eq, Hc'.
    by injection Hd as <- <-.
Qed.

Lemma v5_write_inner_safe p max :
  appends (Packet_write_inner p max) ∧ (Packet_encodable p → total (Packet_write_inner p max)).
Proof.
  unfold Packet_write_inner. destruct (exceeds max (Packet_size p)); [by split; auto with appends|].
  destruct p as [x|c w a|x|x|x| | |x|x|x|x|x|x|x|x]; cbn [Packet_encodable];
    (split; [|intros He]);
    try exact (wire_write_appends x); try exact (wire_write_total x He); try done;
    try exact (wire_write_appends (c, w, a)); try exact (wire_write_total (c, w, a) I);
    intros s0; eexists; reflexivity.
Qed.

Lemma v5_write_cases p max s :
  Packet_encodable p →
  match Packet_write p max s with
  | (Ok n, s') => within max (Packet_size p) ∧ ∃ out, s' = s ++ out
  | (Err e, s') => s' = s
  | (Panic, _) => False
  end.
Proof.
  intros He. destruct (v5_write_inner_safe p max) as [Ha Ht]. specialize (Ht He).
  destruct (Packet_write p max s) as [[n|e|] s'] eqn:Hp.
  - split.
    + unfold Packet_write, transactional_write, Packet_write_inner in Hp.
      apply exceeds_none. by destruct (exceeds max (Packet_size p)).
    + destruct (appends_transactional _ Ha s) as [out Ho]. unfold Packet_write in Hp.
      rewrite Hp in Ho. eauto.
  - by eapply transactional_err.
  - apply (transactional_total _ _ (Ht s)). unfold Packet_write in Hp. by rewrite Hp.
Qed.

(** * Claims *)

(** C14: Every valid MQTT 5 packet whose remaining length can be encoded and whose properties read
    back exactly round-trips: [Packet::write] appends a frame of exactly [Packet::size] bytes to
    the output buffer and returns that number, and [Packet::read] on the frame followed by any
    bytes returns the packet and leaves exactly those bytes. *)
Theorem v5_packet_roundtrip p max_out max_in s rest :
  Packet_valid p → Packet_exact p → Packet_fits p →
  within max_out (Packet_size p) → within max_in (Packet_size p) →
  ∃ frame,
    Packet_write p max_out s = (Ok (Packet_size p), s ++ frame) ∧
    blen frame = Packet_size p ∧
    Packet_read max_in (frame ++ rest) = (Ok p, rest).
Proof.
  intros Hv He Hb Ho Hi. exists (Packet_frame p). split_and!.
  - by apply v5_write_ok.
  - by rewrite v5_size_ok.
  - apply v5_read_ok; [done..|]. by rewrite <- v5_size_ok.
Qed.

(** A QoS 1 publish to topic [a] with a topic alias and two subscription identifiers. *)
Definition sample_publish5 : Publish :=
  {| dup := true; retain := false; pub_qos := AtLeastOnce; topic := [0x61]; pub_pkid := 5;
     payload := [1; 2];
     pub_properties := Some (mkPublishProperties None None (Some 3) None None [([0x6B], [0x76])]
                               [7; 200] None) |}.

(** Decide validity of a concrete packet's strings and numbers. *)
Ltac concrete_valid :=
  repeat match goal with
  | |- _ ∧ _ => split
  | |- mqtt_string _ => unfold mqtt_string, mqtt_bytes
  | |- mqtt_bytes _ => unfold mqtt_bytes
  | |- opt_ok _ None => apply opt_ok_none
  | |- opt_ok _ (Some _) => apply opt_ok_some
  | |- Forall _ [] => constructor
  | |- Forall _ (_ :: _) => constructor
  | |- pairs_valid _ => unfold pairs_valid
  | |- _ ∉ _ => apply contains_byte_false
  | |- is_u8 _ => unfold is_u8; lia
  | |- is_u16 _ => unfold is_u16; lia
  | |- _ => progress cbn [fst snd]
  end; try done.

Lemma sample_publish5_valid : Packet_valid (P_Publish sample_publish5).
Proof.
  cbn [Packet_valid wire_valid Publish_wire]. unfold Publish_valid, publish_topic, pkid_valid.
  cbn [topic payload pub_qos pub_pkid pub_properties sample_publish5 props_valid ps_valid ps_items
       PublishProperties_set].
  unfold PublishProperties_valid, id_valid, MAX_REMAINING_LENGTH. cbn. concrete_valid.
Qed.

Lemma v5_packet_roundtrip_witness :
  ∃ frame,
    Packet_write (P_Publish sample_publish5) (Some 1024) [9] = (Ok 25, [9] ++ frame) ∧
    blen frame = 25 ∧
    Packet_read None (frame ++ [0xD0; 0]) = (Ok (P_Publish sample_publish5), [0xD0; 0]).
Proof.
  apply (v5_packet_roundtrip (P_Publish sample_publish5) (Some 1024) None [9] [0xD0; 0]);
    [apply sample_publish5_valid|vm_compute; reflexivity|vm_compute; discriminate| |].
  - intros ? [= <-]. vm_compute. discriminate.
  - intros ? [=].
Defined.

(** C15: [Packet::read] is safe on arbitrary bytes: it never panics; a packet it returns is valid
    and is the frame it removed from the front of the stream; an error leaves the stream as it was
    or removes exactly the refused frame, and the frames behind it are never touched. *)
Theorem v5_packet_read_safe max s :
  Forall is_u8 s →
  match Packet_read max s with
  | (Ok p, s') => Packet_valid p ∧ ∃ frame, s = frame ++ s' ∧ 2 ≤ blen frame
  | (Err e, s') => check s max = Err e ∧ s' = s ∨
      ∃ h frame, check s max = Ok h ∧ s = frame ++ s' ∧ blen frame = FixedHeader_frame_length h
  | (Panic, _) => False
  end.
Proof.
  intros Hs. pose proof (v5_read_cases max s Hs) as Hc.
  destruct (check s max) as [h|e|] eqn:Hk; [|rewrite Hc; by left|done].
  destruct Hc as (frame & rest & -> & Hfl & H2 & -> & Hf).
  destruct (Packet_read_frame h frame) as [p|e|]; [by eauto| |done]. right. by exists h, frame.
Qed.

Lemma v5_packet_read_safe_witness :
  Packet_read None [0x20; 3; 0; 0; 0; 7] =
    (Ok (P_ConnAck (mkConnAck false CRC_Success None)), [7]) ∧
  match Packet_read None [0x20; 3; 0; 0; 0; 7] with
  | (Ok p, s') => Packet_valid p ∧ ∃ frame, [0x20; 3; 0; 0; 0; 7] = frame ++ s' ∧ 2 ≤ blen frame
  | (Err e, s') => check [0x20; 3; 0; 0; 0; 7] None = Err e ∧ s' = [0x20; 3; 0; 0; 0; 7] ∨
      ∃ h frame, check [0x20; 3; 0; 0; 0; 7] None = Ok h ∧ [0x20; 3; 0; 0; 0; 7] = frame ++ s' ∧
        blen frame = FixedHeader_frame_length h
  | (Panic, _) => False
  end.
Proof.
  split; [reflexivity|].
  apply (v5_packet_read_safe None [0x20; 3; 0; 0; 0; 7]). repeat constructor; unfold is_u8; lia.
Defined.

(** C16: [Packet::write] is transactional and total on every packet the CONNACK table covers,
    valid or not: it never panics, an error leaves the buffer as it was, and success only appends;
    a packet larger than the limit is refused with its size, saturated to 32 bits. *)
Theorem v5_packet_write_transactional p max s :
  Packet_encodable p →
  match Packet_write p max s with
  | (Ok n, s') => within max (Packet_size p) ∧ ∃ out, s' = s ++ out
  | (Err e, s') => s' = s
  | (Panic, _) => False
  end ∧
  (∀ m, max = Some m → m < Packet_size p →
   Packet_write p max s = (Err (OutgoingPacketTooLarge (saturating_u32 (Packet_size p)) m), s)).
Proof.
  intros He. split; [by apply v5_write_cases|].
  intros m -> Hlt. unfold Packet_write, transactional_write, Packet_write_inner, exceeds.
  rewrite (proj2 (Z.ltb_lt _ _)) by done. cbn. by rewrite blen_to_nat, firstn_all.
Qed.

Lemma v5_packet_write_transactional_witness :
  Packet_write (P_Publish sample_publish5) (Some 4) [9] = (Err (OutgoingPacketTooLarge 25 4), [9]).
Proof.
  apply (v5_packet_write_transactional (P_Publish sample_publish5) (Some 4) [9]);
    [|reflexivity|reflexivity].
  repeat constructor; lia.
Defined.

(** Decoding does not depend on how the stream was cut into chunks: once [decode] yields a
    packet or an error, or takes a frame off the stream, the bytes that arrive later do not change
    the result and are left in the buffer. *)
Theorem v5_decode_chunk_independent codec s r s' t :
  Forall is_u8 s → Forall is_u8 t →
  Codec_decode codec s = (r, s') → (r, s') ≠ (Ok None, s) →
  Codec_decode codec (s ++ t) = (r, s' ++ t).
Proof. apply v5_decode_stable. Qed.

Lemma v5_decode_chunk_independent_witness :
  Codec_decode {| max_incoming_size := None; max_outgoing_size := None |} [0x40; 2; 0; 7; 0xC0]
    = (Ok (Some (P_PubAck (mkAck 7 PAR_Success None))), [0xC0]) ∧
  Codec_decode {| max_incoming_size := None; max_outgoing_size := None |}
    ([0x40; 2; 0; 7; 0xC0] ++ [0])
    = (Ok (Some (P_PubAck (mkAck 7 PAR_Success None))), [0xC0] ++ [0]).
Proof.
  split; [reflexivity|].
  apply (v5_decode_chunk_independent {| max_incoming_size := None; max_outgoing_size := None |}
           [0x40; 2; 0; 7; 0xC0]);
    [repeat constructor; unfold is_u8; lia..|reflexivity|discriminate].
Defined.
