(* ===== verification/V5CodecFindings.v ===== *)
(** What the MQTT 5 codec does with frames it cannot read to their end: a complete frame that
    lacks its property length is dropped without an error, and a PUBLISH with more than two
    subscription identifiers is read back with a shifted payload. *)

From S2P Require Import Prelude.
From S2P Require Import Utf8.
From S2P Require Import Primitives.
From S2P Require Import CodecBase.
From S2P Require Import V5Base.
From S2P Require Import V5Properties.
From S2P Require Import V5Acks.
From S2P Require Import V5Publish.
From S2P Require Import V5ConnAck.
From S2P Require Import V5Disconnect.
From S2P Require Import V5Packet.

(** ** Frames without a property length *)

(** [Codec::decode] returns no packet for one of two reasons: the frame is not complete, and the
    stream is kept, or the body of a complete frame reports [InsufficientBytes], and the frame is
    gone. *)
Lemma v5_decode_none codec s s' :
  Forall is_u8 s → Codec_decode codec s = (Ok None, s') →
  (∃ n, check s (max_incoming_size codec) = Err (InsufficientBytes n) ∧ 1 ≤ n ∧ s' = s) ∨
  (∃ h frame n, check s (max_incoming_size codec) = Ok h ∧ s = frame ++ s' ∧
     Packet_read_frame h frame = Err (InsufficientBytes n)).
Proof.
  intros Hs Hd. rewrite v5_decode_eq in Hd.
  pose proof (v5_read_cases (max_incoming_size codec) s Hs) as Hc.
  destruct (check s (max_incoming_size codec)) as [h|e|] eqn:Hk; [| |done].
  - right. destruct Hc as (frame & rest & -> & _ & _ & Hr & _). rewrite Hr in Hd.
    injection Hd as Hd <-. cbn [fst] in Hd.
    destruct (Packet_read_frame h frame) as [p|e|] eqn:Hf; [done| |done].
    destruct e; try done. by eauto 10.
  - left. rewrite Hc in Hd. injection Hd as Hd <-. cbn [fst] in Hd. destruct e; try done.
    exists n. split_and!; [done|by eapply v5_check_insufficient|done].
Qed.

(** [Packet::read] and [Codec::decode] on a frame. *)
Lemma v5_read_framed max b1 content rest :
  blen content ≤ MAX_REMAINING_LENGTH →
  within max (blen (b1 :: remaining_length_bytes (blen content) ++ content)) →
  Packet_read max ((b1 :: remaining_length_bytes (blen content) ++ content) ++ rest) =
  (Packet_read_frame
     {| byte1 := b1; header_len := blen (b1 :: remaining_length_bytes (blen content));
        remaining_len := blen content |}
     (b1 :: remaining_length_bytes (blen content) ++ content), rest).
Proof.
  intros Hc Hm. unfold Packet_read. rewrite bind_run. cbn [mget].
  rewrite bind_run. unfold lift at 1.
  rewrite <- app_comm_cons, <- (assoc_L (++)). rewrite v5_check_frame by done.
  rewrite bind_run. set (h := Build_FixedHeader _ _ _).
  assert (FixedHeader_frame_length h = blen (b1 :: remaining_length_bytes (blen content) ++ content))
    as -> by (unfold FixedHeader_frame_length; cbn; autorewrite with blen; lia).
  pose proof (split_to_app (E:=Error) (b1 :: remaining_length_bytes (blen content) ++ content) rest)
    as Hsp. rewrite <- app_comm_cons, <- (assoc_L (++)) in Hsp. by rewrite Hsp.
Qed.

Lemma v5_decode_framed codec b1 content rest :
  blen content ≤ MAX_REMAINING_LENGTH →
  within (max_incoming_size codec)
    (blen (b1 :: remaining_length_bytes (blen content) ++ content)) →
  Codec_decode codec ((b1 :: remaining_length_bytes (blen content) ++ content) ++ rest) =
  (decode_result (Packet_read_frame
     {| byte1 := b1; header_len := blen (b1 :: remaining_length_bytes (blen content));
        remaining_len := blen content |}
     (b1 :: remaining_length_bytes (blen content) ++ content)), rest).
Proof. intros Hc Hm. by rewrite v5_decode_eq, v5_read_framed. Qed.

(** The frame of a DISCONNECT with a reason code and no property length. *)
Definition reason_only_disconnect (r : DisconnectReasonCode) : Bytes :=
  [0xE0; 1; DisconnectReasonCode_as_u8 r].

(** A DISCONNECT that carries a reason code and ends there is taken off the stream and
    reported as "no packet yet", for every reason code: the decoder reads the property length past
    the end of the frame and [Codec::decode] takes the missing byte for an incomplete frame.  The
    same happens to a CONNACK cut behind its return code. *)
Theorem v5_short_frames_vanish codec rest :
  within (max_incoming_size codec) 3 →
  (∀ r, Codec_decode codec (reason_only_disconnect r ++ rest) = (Ok None, rest)) ∧
  (within (max_incoming_size codec) 4 →
   Codec_decode codec ([0x20; 2; 0; 0] ++ rest) = (Ok None, rest)).
Proof.
  intros Hm. split.
  - intros r. rewrite (v5_decode_framed codec 0xE0 [DisconnectReasonCode_as_u8 r]) by done.
    by destruct r.
  - intros Hm4. by rewrite (v5_decode_framed codec 0x20 [0; 0]).
Qed.

Lemma v5_short_frames_vanish_witness :
  Codec_decode (mkCodec None None) ([0xE0; 1; 0x8B] ++ [0xD0; 0]) = (Ok None, [0xD0; 0]).
Proof.
  apply (v5_short_frames_vanish (mkCodec None None) [0xD0; 0]) with (r := DRC_ServerShuttingDown).
  intros ? [=].
Defined.

(** An AUTH without content, which stands for the reason code 0, is refused. *)
Lemma v5_empty_auth_refused rest :
  Codec_decode (mkCodec None None) ([0xF0; 0] ++ rest) = (Err PayloadRequired, rest).
Proof.
  rewrite (v5_decode_framed (mkCodec None None) 0xF0 []); [done|done|by intros ? [=]].
Qed.

(** ** Subscription identifiers *)

(** A property list of which the loop reads only the items [a]. *)
Lemma reads_properties_prefix {P} (step : prop_step P) empty a b p :
  a ≠ [] → blen (items_bytes (a ++ b)) ≤ MAX_REMAINING_LENGTH →
  runs_at step 0 (blen (items_bytes (a ++ b))) empty a p →
  reads (read_properties step empty)
    (remaining_length_bytes (blen (items_bytes (a ++ b))) ++ items_bytes a) (Some p).
Proof.
  intros Hne Hb Hr rest. pose proof (items_bytes_pos a Hne).
  assert (0 < blen (items_bytes (a ++ b))).
  { rewrite items_bytes_app, blen_app. pose proof (blen_nonneg (items_bytes b)). lia. }
  unfold read_properties, length5. rewrite <- (assoc_L (++)).
  rewrite bind_run. cbn [mget]. rewrite bind_run. unfold lift.
  rewrite length_remaining_length_bytes by lia. cbn [outcome_map_err].
  rewrite bind_run, <- (blen_remaining_length_bytes (blen _)), reads_advance.
  rewrite (proj2 (Z.eqb_neq _ 0)) by lia. rewrite bind_run. cbn [mget].
  rewrite bind_run, (reads_loop _ _ _ _ _ _ _ Hr); [done|].
  apply le_S. transitivity (length (items_bytes a)).
  - by apply length_concat_map_ge.
  - rewrite length_app. lia.
Qed.

(** The properties of a PUBLISH with the subscription identifiers [ids] and no content type. *)
Definition with_ids (p : PublishProperties) (ids : list usize) : PublishProperties :=
  match p with
  | mkPublishProperties pfi mei ta rt cd up _ _ => mkPublishProperties pfi mei ta rt cd up ids None
  end.

(** With three one-byte identifiers the loop stops after the second. *)
Lemma three_ids_runs q a b c :
  PublishProperties_valid (with_ids q [a; b; c]) →
  a < 128 → b < 128 → c < 128 →
  runs_at PublishProperties_step 0
    (blen (items_bytes (PublishProperties_items (with_ids q [a; b; c]))))
    PublishProperties_default (PublishProperties_items (with_ids q [a; b])) (with_ids q [a; b]).
Proof.
  destruct q as [pfi mei ta rt cd up ids ct]. cbn [with_ids]. intros Hv Ha Hb Hc.
  assert (Hl : ∀ x, x < 128 → len_len x = 1).
  { intros x Hx. unfold len_len. repeat case_match; lia. }
  assert (Hids : Forall id_valid [a; b; c]) by apply Hv.
  apply Forall_cons in Hids as [Hva [Hvb _]%Forall_cons].
  unfold PublishProperties_items.
  cbn [subscription_identifiers content_type opt_item]. rewrite !app_nil_r.
  set (L := blen _). eapply runs_then.
  - apply (PublishProperties_head_runs pfi mei ta rt cd up [a; b; c] None Hv).
  - unfold L. rewrite items_bytes_app, blen_app.
    pose proof (blen_nonneg (items_bytes (id_items [a; b; c]))). change (PublishProperties_head _)
      with (PublishProperties_head (mkPublishProperties pfi mei ta rt cd up [a; b; c] None)). lia.
  - set (c0 := 0 + blen _).
    assert (HL : L = c0 + 6).
    { unfold L, c0. rewrite items_bytes_app, blen_app. cbn [id_items map].
      rewrite !items_bytes_cons, !blen_app, !blen_item_bytes. cbn [snd value_bytes].
      rewrite !blen_remaining_length_bytes, !Hl by done. change (blen (items_bytes [])) with 0.
      change (PublishProperties_head _)
        with (PublishProperties_head (mkPublishProperties pfi mei ta rt cd up [a; b; c] None)). lia. }
    assert (Hstep : ∀ x acc, id_valid x → reads_item PublishProperties_step
      (mkPublishProperties pfi mei ta rt cd up acc None) (SubscriptionIdentifier, V_int x)
      (1 + len_len x) (mkPublishProperties pfi mei ta rt cd up (acc ++ [x]) None)).
    { intros x acc Hx. unfold reads_item. cbn [fst snd value_bytes].
      rewrite <- (app_nil_r (remaining_length_bytes x)).
      eapply reads_bind; [by apply reads_read_length|apply reads_ret]. }
    cbn [id_items map runs_at]. split; [lia|]. eexists _, _. split; [by apply Hstep|].
    rewrite Hl by done. split; [lia|]. eexists _, _. split; [by apply Hstep|].
    rewrite Hl by done. split; [lia|done].
Qed.

Lemma len_len_pos n : 0 < len_len n.
Proof. unfold len_len. repeat case_match; lia. Qed.

Lemma with_ids_items q a b : PublishProperties_items (with_ids q [a; b]) ≠ [].
Proof.
  destruct q. unfold PublishProperties_items. cbn. by intros [_ ?]%app_eq_nil.
Qed.

Lemma one_byte_id_item c : c < 128 → items_bytes [(SubscriptionIdentifier, V_int c)] = [11; c].
Proof.
  intros Hc. unfold items_bytes, item_bytes. cbn. unfold remaining_length_bytes.
  by rewrite (proj2 (Z.ltb_lt c 128)).
Qed.

(** [PublishProperties::read] counts the identifier byte of every subscription identifier
    twice.  A valid PUBLISH with three one-byte subscription identifiers and no content type is
    written, but its frame is read back as a different packet: the third identifier is missing from
    the properties and its two bytes stand in front of the payload. *)
Theorem v5_three_subscription_ids p q a b c rest :
  pub_properties p = Some (with_ids q [a; b; c]) → Publish_valid p →
  a < 128 → b < 128 → c < 128 → Packet_fits (P_Publish p) →
  Packet_read None (Packet_frame (P_Publish p) ++ rest) =
  (Ok (P_Publish {| dup := dup p; pub_qos := pub_qos p; retain := retain p; topic := topic p;
                    pub_pkid := pub_pkid p; payload := [11; c] ++ payload p;
                    pub_properties := Some (with_ids q [a; b]) |}), rest).
Proof.
  intros Hprops Hv Ha Hb Hc Hfit.
  assert (Hpb : blen (props_bytes (pub_properties p)) ≤ MAX_REMAINING_LENGTH)
    by by apply publish5_props_bound.
  assert (Hids : Forall id_valid [a; b; c] ∧ PublishProperties_valid (with_ids q [a; b; c])).
  { destruct Hv as (_ & _ & Hq & _). rewrite Hprops in Hq. destruct Hq as [Hq _].
    split; [|done]. by destruct q; apply Hq. }
  destruct Hids as [Hids Hq].
  assert (Hits : PublishProperties_items (with_ids q [a; b; c]) =
    PublishProperties_items (with_ids q [a; b]) ++ [(SubscriptionIdentifier, V_int c)]).
  { destruct q. unfold PublishProperties_items. cbn. by rewrite <- !(assoc_L (++)). }
  pose proof (three_ids_runs q a b c Hq Ha Hb Hc) as Hruns. rewrite Hits in Hruns.
  unfold Packet_frame. rewrite v5_read_framed; [|done|by intros ? [=]]. f_equal.
  unfold Packet_read_frame.
  match goal with |- context [FixedHeader_packet_type {| byte1 := _; header_len := ?n; remaining_len := ?m |}] =>
    destruct (v5_byte1_spec (P_Publish p) n m) as [-> Hf] end.
  cbn [mbind outcome_bind V5Base.byte1 remaining_len]. rewrite Hf. cbn [mbind outcome_bind].
  rewrite (v5_content_pos (P_Publish p)). cbn [Packet_packet_type Packet_content Packet_byte1].
  cbn [wire_content wire_byte1 Publish_wire]. rewrite app_comm_cons.
  unfold Publish_content at 4. rewrite (Publish5_read_head p) by done.
  rewrite Hprops. cbn [props_bytes ps_items PublishProperties_set]. unfold properties_bytes.
  rewrite Hits, items_bytes_app, (assoc_L (++) (remaining_length_bytes _)), <- (assoc_L (++)).
  rewrite <- items_bytes_app. rewrite Hprops in Hpb. cbn [props_bytes] in Hpb.
  rewrite blen_properties_bytes in Hpb. cbn [ps_items PublishProperties_set] in Hpb.
  rewrite Hits in Hpb. pose proof (len_len_pos (blen (items_bytes (PublishProperties_items
    (with_ids q [a; b]) ++ [(SubscriptionIdentifier, V_int c)])))).
  erewrite run_on_bind by (apply reads_properties_prefix; [by apply with_ids_items|lia|exact Hruns]).
  by rewrite one_byte_id_item.
Qed.

(** A QoS 0 publish with the identifiers 1, 2 and 3. *)
Definition sample_three_ids : Publish :=
  {| dup := false; pub_qos := AtMostOnce; retain := false; topic := [0x61]; pub_pkid := 0;
     payload := [0x78]; pub_properties := Some (with_ids PublishProperties_default [1; 2; 3]) |}.

Lemma sample_three_ids_valid : Publish_valid sample_three_ids.
Proof.
  unfold Publish_valid, publish_topic, pkid_valid.
  cbn [topic payload pub_qos pub_pkid pub_properties sample_three_ids props_valid ps_valid ps_items
       PublishProperties_set with_ids PublishProperties_default].
  unfold PublishProperties_valid, id_valid, MAX_REMAINING_LENGTH. cbn. concrete_valid.
Qed.

Lemma v5_three_subscription_ids_witness :
  Packet_read None (Packet_frame (P_Publish sample_three_ids) ++ []) =
  (Ok (P_Publish {| dup := false; pub_qos := AtMostOnce; retain := false; topic := [0x61];
                    pub_pkid := 0; payload := [11; 3; 0x78];
                    pub_properties := Some (with_ids PublishProperties_default [1; 2]) |}), []).
Proof.
  apply (v5_three_subscription_ids sample_three_ids PublishProperties_default 1 2 3 []);
    [reflexivity|apply sample_three_ids_valid|reflexivity..|vm_compute; discriminate].
Defined.

(** ** CONNACK codes of MQTT 3.1.1 *)

(** The three return codes that MQTT 5 does not have are values of [ConnectReturnCode], and
    writing a CONNACK that carries one of them without a session panics instead of returning an
    error. *)
Theorem v5_connack_v4_codes_panic c o s :
  c = CRC_RefusedProtocolVersion ∨ c = CRC_BadClientId ∨ c = CRC_ServiceUnavailable →
  Packet_fits (P_ConnAck (mkConnAck false c o)) →
  (Packet_write (P_ConnAck (mkConnAck false c o)) None s).1 = Panic.
Proof.
  intros Hc Hf. pose proof (connack_v4_codes_panic (mkConnAck false c o) s) as Hp.
  unfold Packet_write, transactional_write, Packet_write_inner. cbn [exceeds].
  destruct (ConnAck_write (mkConnAck false c o) s) as [r s']. cbn [fst] in Hp. rewrite Hp; [done|..].
  - intros [n Hn]. by destruct Hc as [-> | [-> | ->]].
  - done.
  - rewrite <- blen_ConnAck5. exact Hf.
Qed.

Lemma v5_connack_v4_codes_panic_witness :
  (Packet_write (P_ConnAck (mkConnAck false CRC_BadClientId None)) None []).1 = Panic.
Proof.
  apply (v5_connack_v4_codes_panic CRC_BadClientId None []);
    [right; left; reflexivity|vm_compute; discriminate].
Defined.
