(* ===== verification/V5SessionFormat.v ===== *)
(** [rumqttc-v5/src/session.rs]: persisted MQTT 5 sessions and their canonical binary format, over the
    writer and reader of [SessionIO].  Optional fields and whole property sets are preceded by a
    presence byte.  The in-memory sizes of the element types, [std::mem::size_of], are a parameter.

    The canonical format of persisted MQTT 5 sessions: what the encoder writes, and that the decoder
    accepts exactly that. *)

From stdpp Require Import strings.
From S2P Require Import Prelude.
From S2P Require Import Utf8.
From S2P Require Import Primitives.
From S2P Require Import FixedBitSet.
From S2P Require Import SessionIO.
#[local] Open Scope Z_scope.

(** ** The persisted session *)

Inductive PersistedRetainForwardRule := PRF_OnEverySubscribe | PRF_OnNewSubscribe | PRF_Never.

Record PersistedPublishProperties := mkPersistedPublishProperties {
  ppp_payload_format_indicator : option u8;
  ppp_message_expiry_interval : option u32;
  ppp_response_topic : option Bytes;
  ppp_correlation_data : option Bytes;
  ppp_user_properties : list (Bytes * Bytes);
  ppp_subscription_identifiers : list usize;
  ppp_content_type : option Bytes;
}.
Record PersistedPublish := mkPersistedPublish {
  pp_dup : bool; pp_qos : PersistedQoS; pp_retain : bool; pp_topic : Bytes; pp_pkid : u16;
  pp_payload : Bytes; pp_properties : option PersistedPublishProperties;
}.
Record PersistedPubRel := mkPersistedPubRel { prel_pkid : u16 }.
Record PersistedFilter := mkPersistedFilter {
  pf_path : Bytes; pf_qos : PersistedQoS; pf_nolocal : bool; pf_preserve_retain : bool;
  pf_retain_forward_rule : PersistedRetainForwardRule }.
Record PersistedSubscribeProperties := mkPersistedSubscribeProperties {
  psp_id : option usize; psp_user_properties : list (Bytes * Bytes) }.
Record PersistedSubscribe := mkPersistedSubscribe {
  psub_pkid : u16; psub_filters : list PersistedFilter;
  psub_properties : option PersistedSubscribeProperties }.
Record PersistedUnsubscribeProperties := mkPersistedUnsubscribeProperties {
  pup_user_properties : list (Bytes * Bytes) }.
Record PersistedUnsubscribe := mkPersistedUnsubscribe {
  punsub_pkid : u16; punsub_filters : list Bytes;
  punsub_properties : option PersistedUnsubscribeProperties }.
Record PersistedIncomingQos2 := mkPersistedIncomingQos2 { pi_pkid : u16 }.

Inductive PersistedRequest :=
| PR_Publish (publish : PersistedPublish)
| PR_PubRel (pubrel : PersistedPubRel)
| PR_Subscribe (subscribe : PersistedSubscribe)
| PR_Unsubscribe (unsubscribe : PersistedUnsubscribe).

Record PersistedSession := mkPersistedSession {
  session_format_version : u16;
  session_client_id : Bytes;
  session_clean_start : bool;
  session_expiry_interval : option u32;
  session_outgoing_inflight_upper_limit : option u16;
  session_ack_mode : PersistedAckMode;
  session_replay : list PersistedRequest;
  session_incoming_qos2 : list PersistedIncomingQos2;
}.

Definition SESSION_PROTOCOL : u8 := 5.

Definition encode_retain_forward_rule (rule : PersistedRetainForwardRule) : u8 :=
  match rule with PRF_OnEverySubscribe => 1 | PRF_OnNewSubscribe => 2 | PRF_Never => 3 end.
Definition decode_retain_forward_rule (tag : u8) : outcome SessionDecodeError PersistedRetainForwardRule :=
  if tag =? 1 then Ok PRF_OnEverySubscribe else if tag =? 2 then Ok PRF_OnNewSubscribe
  else if tag =? 3 then Ok PRF_Never else Err (InvalidEnumTag "retain_forward_rule" tag).

(** ** Encoding *)

Definition u64_bytes (n : u64) : Bytes := u32_bytes (n / 4294967296) ++ u32_bytes (n mod 4294967296).
Definition w_u64 (value : u64) : SW unit := w_append (u64_bytes value).

(** [self.bool(value.is_some()); if let Some(value) = value { write(value) }]: the body of the
    [option_*] methods, and of the writers of optional property sets. *)
Definition w_option {A} (write : A → SW unit) (value : option A) : SW unit :=
  w_bool (bool_decide (is_Some value));;
  match value with Some value => write value | None => mret tt end.

Definition w_option_u8 : option u8 → SW unit := w_option w_u8.
Definition w_option_u16 : option u16 → SW unit := w_option w_u16.
Definition w_option_u32 : option u32 → SW unit := w_option w_u32.
Definition w_option_usize : option usize → SW unit := w_option w_u64.
Definition w_option_bytes (field : string) : option Bytes → SW unit := w_option (w_field field).
Definition w_option_string (field : string) : option Bytes → SW unit := w_option (w_string field).

Definition write_user_properties (field : string) (properties : list (Bytes * Bytes)) : SW unit :=
  w_vec field properties (λ kv, w_string "user_property.key" kv.1;; w_string "user_property.value" kv.2).

Definition write_filter (filter : PersistedFilter) : SW unit :=
  w_string "subscribe.filter.path" (pf_path filter);;
  w_u8 (encode_qos (pf_qos filter));;
  w_bool (pf_nolocal filter);;
  w_bool (pf_preserve_retain filter);;
  w_u8 (encode_retain_forward_rule (pf_retain_forward_rule filter)).

Definition write_publish_properties : option PersistedPublishProperties → SW unit :=
  w_option (λ properties,
    w_option_u8 (ppp_payload_format_indicator properties);;
    w_option_u32 (ppp_message_expiry_interval properties);;
    w_option_string "publish.properties.response_topic" (ppp_response_topic properties);;
    w_option_bytes "publish.properties.correlation_data" (ppp_correlation_data properties);;
    write_user_properties "publish.properties.user_properties" (ppp_user_properties properties);;
    w_vec "publish.properties.subscription_identifiers" (ppp_subscription_identifiers properties) w_u64;;
    w_option_string "publish.properties.content_type" (ppp_content_type properties)).

Definition write_subscribe_properties : option PersistedSubscribeProperties → SW unit :=
  w_option (λ properties,
    w_option_usize (psp_id properties);;
    write_user_properties "subscribe.properties.user_properties" (psp_user_properties properties)).

Definition write_unsubscribe_properties : option PersistedUnsubscribeProperties → SW unit :=
  w_option (λ properties,
    write_user_properties "unsubscribe.properties.user_properties" (pup_user_properties properties)).

Definition write_request (request : PersistedRequest) : SW unit :=
  match request with
  | PR_Publish publish =>
      w_u8 1;;
      w_bool (pp_dup publish);;
      w_u8 (encode_qos (pp_qos publish));;
      w_bool (pp_retain publish);;
      w_field "publish.topic" (pp_topic publish);;
      w_u16 (pp_pkid publish);;
      w_field "publish.payload" (pp_payload publish);;
      write_publish_properties (pp_properties publish)
  | PR_PubRel pubrel =>
      w_u8 2;;
      w_u16 (prel_pkid pubrel)
  | PR_Subscribe subscribe =>
      w_u8 3;;
      w_u16 (psub_pkid subscribe);;
      w_vec "subscribe.filters" (psub_filters subscribe) write_filter;;
      write_subscribe_properties (psub_properties subscribe)
  | PR_Unsubscribe unsubscribe =>
      w_u8 4;;
      w_u16 (punsub_pkid unsubscribe);;
      w_vec "unsubscribe.filters" (punsub_filters unsubscribe) (w_string "unsubscribe.filter");;
      write_unsubscribe_properties (punsub_properties unsubscribe)
  end.

Definition write_session (self : PersistedSession) : SW unit :=
  w_append SESSION_MAGIC;;
  w_u8 SESSION_PROTOCOL;;
  w_u16 SESSION_CODEC_VERSION;;
  w_u16 (session_format_version self);;
  w_string "client_id" (session_client_id self);;
  w_bool (session_clean_start self);;
  w_option_u32 (session_expiry_interval self);;
  w_option_u16 (session_outgoing_inflight_upper_limit self);;
  w_u8 (encode_ack_mode (session_ack_mode self));;
  w_vec "replay" (session_replay self) write_request;;
  w_vec "incoming_qos2" (session_incoming_qos2 self) (λ incoming, w_u16 (pi_pkid incoming));;
  w_check.

Definition encode_with_limit (self : PersistedSession) (limit : usize)
  : outcome SessionEncodeError Bytes :=
  let '(r, w) := write_session self {| w_bytes := []; w_limit := limit; w_excess := None |} in
  match r with Ok _ => Ok (w_bytes w) | Err e => Err e | Panic => Panic end.

Definition encode (self : PersistedSession) : outcome SessionEncodeError Bytes :=
  encode_with_limit self usize_MAX.

(** ** Decoding *)

Definition r_u64 (field : string) : SR u64 :=
  bytes ← r_take field 8;
  match bytes with
  | a :: b :: c :: d :: e :: f :: g :: h :: _ =>
      mret ((a * 16777216 + b * 65536 + c * 256 + d) * 4294967296 +
            (e * 16777216 + f * 65536 + g * 256 + h))
  | _ => mpanic
  end.

(** [usize::try_from(self.u64(field)?)], on a 64-bit target. *)
Definition r_usize (field : string) : SR usize :=
  value ← r_u64 field;
  if usize_MAX <? value then mfail (LimitExceeded field usize_MAX) else mret value.

Definition r_option {A} (field : string) (read : SR A) : SR (option A) :=
  present ← r_bool field;
  if present : bool then value ← read; mret (Some value) else mret None.

Definition r_option_u8 (field : string) : SR (option u8) := r_option field (r_u8 field).
Definition r_option_u16 (field : string) : SR (option u16) := r_option field (r_u16 field).
Definition r_option_u32 (field : string) : SR (option u32) := r_option field (r_u32 field).
Definition r_option_usize (field : string) : SR (option usize) := r_option field (r_usize field).
Definition r_option_bytes (field : string) : SR (option Bytes) := r_option field (r_field field).
Definition r_option_string (field : string) : SR (option Bytes) := r_option field (r_string field).

(** [std::mem::size_of] of the element types of the vectors. *)
Record Layout := mkLayout {
  size_of_request : usize; size_of_incoming : usize; size_of_filter : usize; size_of_string : usize;
  size_of_user_property : usize; size_of_usize : usize }.

Definition read_user_property : SR (Bytes * Bytes) :=
  key ← r_string "user_property.key";
  value ← r_string "user_property.value";
  mret (key, value).

Definition read_filter : SR PersistedFilter :=
  path ← r_string "subscribe.filter.path";
  qos ← r_tag "subscribe.filter.qos" decode_qos;
  nolocal ← r_bool "subscribe.filter.nolocal";
  preserve_retain ← r_bool "subscribe.filter.preserve_retain";
  rule ← r_tag "subscribe.filter.retain_forward_rule" decode_retain_forward_rule;
  mret {| pf_path := path; pf_qos := qos; pf_nolocal := nolocal;
          pf_preserve_retain := preserve_retain; pf_retain_forward_rule := rule |}.

Definition read_incoming : SR PersistedIncomingQos2 :=
  pkid ← r_u16 "incoming_qos2.pkid"; mret {| pi_pkid := pkid |}.

Section Decoding.
  Context (layout : Layout).

Definition read_user_properties (field : string) : SR (list (Bytes * Bytes)) :=
  r_vec (size_of_user_property layout) field read_user_property.

Definition read_publish_properties : SR (option PersistedPublishProperties) :=
  r_option "publish.properties" (
    payload_format_indicator ← r_option_u8 "publish.properties.payload_format_indicator";
    message_expiry_interval ← r_option_u32 "publish.properties.message_expiry_interval";
    response_topic ← r_option_string "publish.properties.response_topic";
    correlation_data ← r_option_bytes "publish.properties.correlation_data";
    user_properties ← read_user_properties "publish.properties.user_properties";
    subscription_identifiers ← r_vec (size_of_usize layout) "publish.properties.subscription_identifiers"
      (r_usize "publish.properties.subscription_identifier");
    content_type ← r_option_string "publish.properties.content_type";
    mret {| ppp_payload_format_indicator := payload_format_indicator;
            ppp_message_expiry_interval := message_expiry_interval;
            ppp_response_topic := response_topic; ppp_correlation_data := correlation_data;
            ppp_user_properties := user_properties;
            ppp_subscription_identifiers := subscription_identifiers;
            ppp_content_type := content_type |}).

Definition read_subscribe_properties : SR (option PersistedSubscribeProperties) :=
  r_option "subscribe.properties" (
    id ← r_option_usize "subscribe.properties.id";
    user_properties ← read_user_properties "subscribe.properties.user_properties";
    mret {| psp_id := id; psp_user_properties := user_properties |}).

Definition read_unsubscribe_properties : SR (option PersistedUnsubscribeProperties) :=
  r_option "unsubscribe.properties" (
    user_properties ← read_user_properties "unsubscribe.properties.user_properties";
    mret {| pup_user_properties := user_properties |}).

Definition read_publish : SR PersistedPublish :=
  dup ← r_bool "publish.dup";
  qos ← r_tag "publish.qos" decode_qos;
  retain ← r_bool "publish.retain";
  topic ← r_field "publish.topic";
  pkid ← r_u16 "publish.pkid";
  payload ← r_field "publish.payload";
  properties ← read_publish_properties;
  mret {| pp_dup := dup; pp_qos := qos; pp_retain := retain; pp_topic := topic; pp_pkid := pkid;
          pp_payload := payload; pp_properties := properties |}.

Definition read_subscribe : SR PersistedSubscribe :=
  pkid ← r_u16 "subscribe.pkid";
  filters ← r_vec (size_of_filter layout) "subscribe.filters" read_filter;
  properties ← read_subscribe_properties;
  mret {| psub_pkid := pkid; psub_filters := filters; psub_properties := properties |}.

Definition read_unsubscribe : SR PersistedUnsubscribe :=
  pkid ← r_u16 "unsubscribe.pkid";
  filters ← r_vec (size_of_string layout) "unsubscribe.filters" (r_string "unsubscribe.filter");
  properties ← read_unsubscribe_properties;
  mret {| punsub_pkid := pkid; punsub_filters := filters; punsub_properties := properties |}.

Definition read_request : SR PersistedRequest :=
  tag ← r_u8 "request.type";
  if tag =? 1 then publish ← read_publish; mret (PR_Publish publish)
  else if tag =? 2 then
    pkid ← r_u16 "pubrel.pkid"; mret (PR_PubRel {| prel_pkid := pkid |})
  else if tag =? 3 then subscribe ← read_subscribe; mret (PR_Subscribe subscribe)
  else if tag =? 4 then unsubscribe ← read_unsubscribe; mret (PR_Unsubscribe unsubscribe)
  else mfail (InvalidEnumTag "request.type" tag).

Definition read_session : SR PersistedSession :=
  r_magic;;
  protocol ← r_u8 "protocol";
  if negb (protocol =? SESSION_PROTOCOL) then mfail (WrongProtocol protocol)
  else
    codec_version ← r_u16 "codec_version";
    if negb (codec_version =? SESSION_CODEC_VERSION)
    then mfail (UnsupportedCodecVersion codec_version)
    else
      format_version ← r_u16 "format_version";
      client_id ← r_string "client_id";
      clean_start ← r_bool "clean_start";
      expiry ← r_option_u32 "session_expiry_interval";
      upper_limit ← r_option_u16 "outgoing_inflight_upper_limit";
      ack_mode ← r_tag "ack_mode" decode_ack_mode;
      replay ← r_vec (size_of_request layout) "replay" read_request;
      incoming_qos2 ← r_vec (size_of_incoming layout) "incoming_qos2" read_incoming;
      r_finish;;
      mret {| session_format_version := format_version; session_client_id := client_id;
              session_clean_start := clean_start; session_expiry_interval := expiry;
              session_outgoing_inflight_upper_limit := upper_limit;
              session_ack_mode := ack_mode; session_replay := replay;
              session_incoming_qos2 := incoming_qos2 |}.

Definition decode_with_memory_limit (bytes : Bytes) (memory_limit : usize)
  : outcome SessionDecodeError PersistedSession :=
  (read_session {| r_bytes := bytes; r_position := 0; r_remaining_memory := memory_limit |}).1.

Definition decode (bytes : Bytes) : outcome SessionDecodeError PersistedSession :=
  decode_with_memory_limit bytes usize_MAX.
End Decoding.

(** ** Optional values and 64-bit integers *)

Definition enc_option {A} (enc : A → Bytes) (v : option A) : Bytes :=
  match v with Some a => [1] ++ enc a | None => [0] end.
Definition option_ok {A} (ok : A → Prop) (v : option A) : Prop :=
  match v with Some a => ok a | None => True end.
Definition mem_option {A} (mem : A → Z) (v : option A) : Z :=
  match v with Some a => mem a | None => 0 end.

Definition is_u64' (n : Z) : Prop := 0 ≤ n ≤ 18446744073709551615.

Lemma swrites_option {A} (write : A → _) (enc : A → Bytes) (ok : A → Prop) v :
  (∀ a, ok a → swrites (write a) (enc a)) → option_ok ok v → swrites (w_option write v) (enc_option enc v).
Proof.
  intros Hw Hv. unfold w_option. destruct v as [a|]; cbn [enc_option].
  - apply swrites_bind; [apply swrites_append|by apply Hw].
  - apply (swrites_bind _ _ [0] []); [apply swrites_append|apply swrites_ret].
Qed.

Lemma decodes_option {A} field (read : M SessionReader SessionDecodeError A) ok enc mem :
  decodes read ok enc mem → decodes (r_option field read) (option_ok ok) (enc_option enc) (mem_option mem).
Proof.
  intros Hread. split.
  - intros [a|] Ha; cbn in Ha; unfold r_option.
    + eapply sreads_eq; [sread true (decodes_bool field); sread a Hread; apply sreads_ret|by rewrite app_nil_r|cbn; lia].
    + eapply sreads_eq; [sread false (decodes_bool field); apply sreads_ret|done|done].
  - intros r Hr. apply has_read_refl in Hr. unfold r_option. wread decodes_bool Hr b Hb. destruct b.
    + wread Hread Hr a Ha. by wread_end Hr.
    + by wread_end Hr.
Qed.

Lemma enc_option_u8 {A} (enc : A → Bytes) (ok : A → Prop) v :
  (∀ a, ok a → Forall is_u8 (enc a)) → option_ok ok v → Forall is_u8 (enc_option enc v).
Proof. intros He Hv. destruct v as [a|]; [|by repeat constructor]. apply Forall_app. split; [by repeat constructor|by apply He]. Qed.

Lemma u64_bytes_u8 n : Forall is_u8 (u64_bytes n).
Proof. apply Forall_app. split; apply u32_bytes_u8. Qed.

Lemma sreads_u64 field n : is_u64' n → sreads (r_u64 field) (u64_bytes n) 0 n.
Proof.
  intros Hn. eapply sreads_eq; [eapply sreads_bind; [by apply (r_take_ok _ _ (u64_bytes n))|]|apply app_nil_r|done].
  unfold u64_bytes, u32_bytes. cbn [app]. rewrite !u32_bytes_value by (unfold is_u32', is_u64' in *; Z.div_mod_to_equations; lia).
  rewrite (Z.mul_comm (n / 4294967296)), <- Z.div_mod by done. apply sreads_ret.
Qed.

Lemma u64_bytes_halves x y : is_u32' x → is_u32' y → u64_bytes (x * 4294967296 + y) = u32_bytes x ++ u32_bytes y.
Proof.
  unfold is_u32'. intros Hx Hy. unfold u64_bytes. f_equal; f_equal; Z.div_mod_to_equations; lia.
Qed.

Lemma u32_bytes_word x y z t :
  Forall is_u8 [x; y; z; t] →
  is_u32' (x * 16777216 + y * 65536 + z * 256 + t) ∧
  u32_bytes (x * 16777216 + y * 65536 + z * 256 + t) = [x; y; z; t].
Proof.
  rewrite !Forall_cons. unfold is_u8, is_u32'. intros (Hx & Hy & Hz & Ht & _). split; [lia|].
  unfold u32_bytes. f_equal; [|f_equal; [|f_equal; [|f_equal]]]; Z.div_mod_to_equations; lia.
Qed.

Lemma decodes_u64 field : decodes (r_u64 field) is_u64' u64_bytes (λ _, 0).
Proof.
  split; [intros; by apply sreads_u64|]. intros r Hok. unfold r_u64. apply wp_bind.
  eapply wp_mono; [by apply wp_r_take| |done]. intros l r' (Hl & H8 & Hr).
  destruct l as [|a [|b [|c [|d [|e [|f [|g [|h [|? l]]]]]]]]];
    try done; [|rewrite !blen_cons in Hl; pose proof (blen_nonneg l); lia].
  apply (Forall_app _ [a; b; c; d] [e; f; g; h]) in H8 as [H1 H2].
  apply u32_bytes_word in H1 as [Hx Ex], H2 as [Hy Ey]. apply wp_ret.
  rewrite u64_bytes_halves by done. rewrite Ex, Ey. split; [|exact Hr]. unfold is_u64', is_u32' in *. lia.
Qed.

Lemma decodes_usize field : decodes (r_usize field) is_u64' u64_bytes (λ _, 0).
Proof.
  split.
  - intros n Hn. eapply sreads_eq; [unfold r_usize; sread n (decodes_u64 field)|by apply app_nil_r|done].
    rewrite (proj2 (Z.ltb_ge _ _)) by (unfold is_u64' in Hn; change usize_MAX with 18446744073709551615; lia). apply sreads_ret.
  - intros r Hr. apply has_read_refl in Hr. unfold r_usize. wread decodes_u64 Hr n Hn.
    destruct (usize_MAX <? n); [by apply wp_fail|]. apply wp_ret. by split.
Qed.

(** ** The format *)

Definition enc_pair (kv : Bytes * Bytes) : Bytes := enc_field kv.1 ++ enc_field kv.2.
Definition enc_filter (f : PersistedFilter) : Bytes :=
  enc_field (pf_path f) ++
  [encode_qos (pf_qos f); Z.b2z (pf_nolocal f); Z.b2z (pf_preserve_retain f);
   encode_retain_forward_rule (pf_retain_forward_rule f)].
Definition enc_publish_properties (p : PersistedPublishProperties) : Bytes :=
  enc_option (λ n, [n]) (ppp_payload_format_indicator p) ++
  enc_option u32_bytes (ppp_message_expiry_interval p) ++
  enc_option enc_field (ppp_response_topic p) ++ enc_option enc_field (ppp_correlation_data p) ++
  enc_vec enc_pair (ppp_user_properties p) ++ enc_vec u64_bytes (ppp_subscription_identifiers p) ++
  enc_option enc_field (ppp_content_type p).
Definition enc_subscribe_properties (p : PersistedSubscribeProperties) : Bytes :=
  enc_option u64_bytes (psp_id p) ++ enc_vec enc_pair (psp_user_properties p).
Definition enc_unsubscribe_properties (p : PersistedUnsubscribeProperties) : Bytes :=
  enc_vec enc_pair (pup_user_properties p).
Definition enc_publish (p : PersistedPublish) : Bytes :=
  [Z.b2z (pp_dup p); encode_qos (pp_qos p); Z.b2z (pp_retain p)] ++ enc_field (pp_topic p) ++
  u16_bytes (pp_pkid p) ++ enc_field (pp_payload p) ++ enc_option enc_publish_properties (pp_properties p).
Definition enc_subscribe (s : PersistedSubscribe) : Bytes :=
  u16_bytes (psub_pkid s) ++ enc_vec enc_filter (psub_filters s) ++
  enc_option enc_subscribe_properties (psub_properties s).
Definition enc_unsubscribe (s : PersistedUnsubscribe) : Bytes :=
  u16_bytes (punsub_pkid s) ++ enc_vec enc_field (punsub_filters s) ++
  enc_option enc_unsubscribe_properties (punsub_properties s).
Definition enc_request (r : PersistedRequest) : Bytes :=
  match r with
  | PR_Publish p => [1] ++ enc_publish p
  | PR_PubRel p => [2] ++ u16_bytes (prel_pkid p)
  | PR_Subscribe s => [3] ++ enc_subscribe s
  | PR_Unsubscribe s => [4] ++ enc_unsubscribe s
  end.
Definition enc_incoming (i : PersistedIncomingQos2) : Bytes := u16_bytes (pi_pkid i).
Definition enc_session (s : PersistedSession) : Bytes :=
  SESSION_MAGIC ++ [SESSION_PROTOCOL] ++ u16_bytes SESSION_CODEC_VERSION ++
  u16_bytes (session_format_version s) ++ enc_field (session_client_id s) ++
  [Z.b2z (session_clean_start s)] ++ enc_option u32_bytes (session_expiry_interval s) ++
  enc_option u16_bytes (session_outgoing_inflight_upper_limit s) ++
  [encode_ack_mode (session_ack_mode s)] ++ enc_vec enc_request (session_replay s) ++
  enc_vec enc_incoming (session_incoming_qos2 s).

(** Sessions within the limits of the format. *)
Definition pair_ok (kv : Bytes * Bytes) : Prop := string_ok kv.1 ∧ string_ok kv.2.
Definition filter_ok (f : PersistedFilter) : Prop := string_ok (pf_path f).
Definition publish_properties_ok (p : PersistedPublishProperties) : Prop :=
  option_ok is_u8 (ppp_payload_format_indicator p) ∧ option_ok is_u32' (ppp_message_expiry_interval p) ∧
  option_ok string_ok (ppp_response_topic p) ∧ option_ok field_ok (ppp_correlation_data p) ∧
  vec_ok pair_ok (ppp_user_properties p) ∧ vec_ok is_u64' (ppp_subscription_identifiers p) ∧
  option_ok string_ok (ppp_content_type p).
Definition subscribe_properties_ok (p : PersistedSubscribeProperties) : Prop :=
  option_ok is_u64' (psp_id p) ∧ vec_ok pair_ok (psp_user_properties p).
Definition unsubscribe_properties_ok (p : PersistedUnsubscribeProperties) : Prop :=
  vec_ok pair_ok (pup_user_properties p).
Definition publish_ok (p : PersistedPublish) : Prop :=
  field_ok (pp_topic p) ∧ is_u16 (pp_pkid p) ∧ field_ok (pp_payload p) ∧
  option_ok publish_properties_ok (pp_properties p).
Definition subscribe_ok (s : PersistedSubscribe) : Prop :=
  is_u16 (psub_pkid s) ∧ vec_ok filter_ok (psub_filters s) ∧
  option_ok subscribe_properties_ok (psub_properties s).
Definition unsubscribe_ok (s : PersistedUnsubscribe) : Prop :=
  is_u16 (punsub_pkid s) ∧ vec_ok string_ok (punsub_filters s) ∧
  option_ok unsubscribe_properties_ok (punsub_properties s).
Definition request_ok (r : PersistedRequest) : Prop :=
  match r with
  | PR_Publish p => publish_ok p
  | PR_PubRel p => is_u16 (prel_pkid p)
  | PR_Subscribe s => subscribe_ok s
  | PR_Unsubscribe s => unsubscribe_ok s
  end.
Definition incoming_ok (i : PersistedIncomingQos2) : Prop := is_u16 (pi_pkid i).
Definition session_ok (s : PersistedSession) : Prop :=
  is_u16 (session_format_version s) ∧ string_ok (session_client_id s) ∧
  option_ok is_u32' (session_expiry_interval s) ∧
  option_ok is_u16 (session_outgoing_inflight_upper_limit s) ∧
  vec_ok request_ok (session_replay s) ∧ vec_ok incoming_ok (session_incoming_qos2 s).

(** The memory the decoder accounts for. *)
Section Memory.
  Context (layout : Layout).

Definition mem_pairs : list (Bytes * Bytes) → Z :=
  mem_vec (size_of_user_property layout) (λ kv, blen kv.1 + blen kv.2).
Definition mem_publish_properties (p : PersistedPublishProperties) : Z :=
  mem_option blen (ppp_response_topic p) + mem_option blen (ppp_correlation_data p) +
  mem_pairs (ppp_user_properties p) +
  mem_vec (size_of_usize layout) (λ _, 0) (ppp_subscription_identifiers p) +
  mem_option blen (ppp_content_type p).
Definition mem_publish (p : PersistedPublish) : Z :=
  blen (pp_topic p) + blen (pp_payload p) + mem_option mem_publish_properties (pp_properties p).
Definition mem_subscribe (s : PersistedSubscribe) : Z :=
  mem_vec (size_of_filter layout) (λ f, blen (pf_path f)) (psub_filters s) +
  mem_option (λ p, mem_pairs (psp_user_properties p)) (psub_properties s).
Definition mem_unsubscribe (s : PersistedUnsubscribe) : Z :=
  mem_vec (size_of_string layout) blen (punsub_filters s) +
  mem_option (λ p, mem_pairs (pup_user_properties p)) (punsub_properties s).
Definition mem_request (r : PersistedRequest) : Z :=
  match r with
  | PR_Publish p => mem_publish p
  | PR_PubRel _ => 0
  | PR_Subscribe s => mem_subscribe s
  | PR_Unsubscribe s => mem_unsubscribe s
  end.
Definition mem_session (s : PersistedSession) : Z :=
  blen (session_client_id s) + mem_vec (size_of_request layout) mem_request (session_replay s) +
  mem_vec (size_of_incoming layout) (λ _, 0) (session_incoming_qos2 s).

Definition layout_ok : Prop :=
  0 ≤ size_of_request layout ∧ 0 ≤ size_of_incoming layout ∧ 0 ≤ size_of_filter layout ∧
  0 ≤ size_of_string layout ∧ 0 ≤ size_of_user_property layout ∧ 0 ≤ size_of_usize layout.
End Memory.

(** ** Encoding *)

Create HintDb session_write.
#[export] Hint Resolve swrites_append swrites_check swrites_ret : session_write.

Lemma swrites_string field v : string_ok v → swrites (w_string field v) (enc_field v).
Proof. intros [[_ Hl] _]. by apply swrites_field. Qed.
Lemma swrites_bytes field v : field_ok v → swrites (w_field field v) (enc_field v).
Proof. intros [_ Hl]. by apply swrites_field. Qed.
Lemma swrites_u8 n : swrites (w_u8 n) [n].
Proof. apply swrites_append. Qed.
Lemma swrites_bool b : swrites (w_bool b) [Z.b2z b].
Proof. apply swrites_append. Qed.
Lemma swrites_u16 n : swrites (w_u16 n) (u16_bytes n).
Proof. apply swrites_append. Qed.
Lemma swrites_u32 n : swrites (w_u32 n) (u32_bytes n).
Proof. apply swrites_append. Qed.
Lemma swrites_u64 n : swrites (w_u64 n) (u64_bytes n).
Proof. apply swrites_append. Qed.

Lemma swrites_option_u8 v : swrites (w_option_u8 v) (enc_option (λ n, [n]) v).
Proof. apply (swrites_option _ _ (λ _, True)); [intros; apply swrites_u8|by destruct v]. Qed.
Lemma swrites_option_u16 v : swrites (w_option_u16 v) (enc_option u16_bytes v).
Proof. apply (swrites_option _ _ (λ _, True)); [intros; apply swrites_u16|by destruct v]. Qed.
Lemma swrites_option_u32 v : swrites (w_option_u32 v) (enc_option u32_bytes v).
Proof. apply (swrites_option _ _ (λ _, True)); [intros; apply swrites_u32|by destruct v]. Qed.
Lemma swrites_option_usize v : swrites (w_option_usize v) (enc_option u64_bytes v).
Proof. apply (swrites_option _ _ (λ _, True)); [intros; apply swrites_u64|by destruct v]. Qed.
Lemma swrites_option_string field v :
  option_ok string_ok v → swrites (w_option_string field v) (enc_option enc_field v).
Proof. apply swrites_option. intros; by apply swrites_string. Qed.
Lemma swrites_option_bytes field v :
  option_ok field_ok v → swrites (w_option_bytes field v) (enc_option enc_field v).
Proof. apply swrites_option. intros; by apply swrites_bytes. Qed.

Lemma swrites_pairs field l : vec_ok pair_ok l → swrites (write_user_properties field l) (enc_vec enc_pair l).
Proof.
  apply (swrites_vec _ _ _ _ _). intros kv [Hk Hv]. apply swrites_bind; by apply swrites_string.
Qed.
#[export] Hint Resolve swrites_string swrites_bytes swrites_u8 swrites_bool swrites_u16 swrites_u32
  swrites_u64 swrites_option_u8 swrites_option_u16 swrites_option_u32 swrites_option_usize
  swrites_option_string swrites_option_bytes swrites_pairs : session_write.

(** A sequence of writes produces the concatenation of what each writes. *)
Ltac swrite := eapply swrites_eq;
  [repeat first [solve [eauto 2 with session_write] | apply swrites_bind]|].

Lemma swrites_filter f : filter_ok f → swrites (write_filter f) (enc_filter f).
Proof. intros Hf. unfold write_filter. swrite. done. Qed.

Lemma swrites_ids field l :
  vec_ok is_u64' l → swrites (w_vec field l w_u64) (enc_vec u64_bytes l).
Proof. apply (swrites_vec _ _ _ _ _). intros; apply swrites_u64. Qed.
#[export] Hint Resolve swrites_ids : session_write.

Lemma swrites_publish_properties v :
  option_ok publish_properties_ok v → swrites (write_publish_properties v) (enc_option enc_publish_properties v).
Proof. apply swrites_option. intros p (_ & _ & Hr & Hc & Hu & Hi & Ht). swrite. done. Qed.
Lemma swrites_subscribe_properties v :
  option_ok subscribe_properties_ok v → swrites (write_subscribe_properties v) (enc_option enc_subscribe_properties v).
Proof. apply swrites_option. intros p (_ & Hu). swrite. done. Qed.
Lemma swrites_unsubscribe_properties v :
  option_ok unsubscribe_properties_ok v →
  swrites (write_unsubscribe_properties v) (enc_option enc_unsubscribe_properties v).
Proof. apply swrites_option. intros p Hu. by apply swrites_pairs. Qed.
#[export] Hint Resolve swrites_publish_properties swrites_subscribe_properties
  swrites_unsubscribe_properties : session_write.

Lemma swrites_filters field l :
  vec_ok filter_ok l → swrites (w_vec field l write_filter) (enc_vec enc_filter l).
Proof. apply (swrites_vec _ _ _ _ _). apply swrites_filter. Qed.
Lemma swrites_strings field element l :
  vec_ok string_ok l → swrites (w_vec field l (w_string element)) (enc_vec enc_field l).
Proof. apply (swrites_vec _ _ _ _ _). intros; by apply swrites_string. Qed.
#[export] Hint Resolve swrites_filters swrites_strings : session_write.

Lemma swrites_request5 r : request_ok r → swrites (write_request r) (enc_request r).
Proof.
  destruct r as [p|p|s|s]; cbn [request_ok write_request enc_request].
  - intros (Ht & _ & Hp & Hps). swrite. done.
  - intros _. swrite. done.
  - intros (_ & Hf & Hps). swrite. done.
  - intros (_ & Hf & Hps). swrite. done.
Qed.

Lemma swrites_session5 s : session_ok s → swrites (write_session s) (enc_session s).
Proof.
  intros (_ & Hc & _ & _ & Hr & Hi). unfold write_session.
  pose proof (swrites_vec "replay" _ _ _ _ swrites_request5 Hr) as Hreplay.
  assert (Hin : swrites (w_vec "incoming_qos2" (session_incoming_qos2 s) (λ i, w_u16 (pi_pkid i)))
    (enc_vec enc_incoming (session_incoming_qos2 s))).
  { apply (swrites_vec _ _ _ _ incoming_ok); [|exact Hi]. intros; apply swrites_u16. }
  swrite. unfold enc_session. by rewrite app_nil_r.
Qed.

(** ** Decoding *)

Lemma decode_retain_forward_rule_spec tag :
  match decode_retain_forward_rule tag with
  | Ok q => tag = encode_retain_forward_rule q | Err _ => True | Panic => False
  end.
Proof. unfold decode_retain_forward_rule. repeat case_match; simplify_eq; try done; cbn; lia. Qed.

Lemma decodes_rule field :
  decodes (r_tag field decode_retain_forward_rule) (λ _, True) (λ q, [encode_retain_forward_rule q]) (λ _, 0).
Proof. apply decodes_tag; [by intros []|by intros []|apply decode_retain_forward_rule_spec]. Qed.

Lemma decodes_pair : decodes read_user_property pair_ok enc_pair (λ kv, blen kv.1 + blen kv.2).
Proof.
  split.
  - intros [k v] [Hk Hv]. cbn in Hk, Hv. eapply sreads_eq.
    + sread k (decodes_string "user_property.key"). sread v (decodes_string "user_property.value"). apply sreads_ret.
    + by rewrite app_nil_r.
    + cbn [fst snd]. lia.
  - intros r Hr. apply has_read_refl in Hr. unfold read_user_property.
    wread decodes_string Hr k Hk. wread decodes_string Hr v Hv. apply wp_ret. split; [by split|].
    eapply has_read_eq; [exact Hr|done|cbn [fst snd]; lia].
Qed.

Lemma decodes_filter5 : decodes read_filter filter_ok enc_filter (λ f, blen (pf_path f)).
Proof.
  split.
  - intros [path qos nolocal preserve rule] Hp. eapply sreads_eq.
    + sread path (decodes_string "subscribe.filter.path"). sread qos (decodes_qos "subscribe.filter.qos").
      sread nolocal (decodes_bool "subscribe.filter.nolocal").
      sread preserve (decodes_bool "subscribe.filter.preserve_retain").
      sread rule (decodes_rule "subscribe.filter.retain_forward_rule"). apply sreads_ret.
    + done.
    + cbn [pf_path]. lia.
  - intros r Hr. apply has_read_refl in Hr. unfold read_filter.
    wread decodes_string Hr path Hp. wread decodes_qos Hr qos Hq. wread decodes_bool Hr nolocal Hn.
    wread decodes_bool Hr preserve Hpr. wread decodes_rule Hr rule Hru. apply wp_ret. split; [done|].
    eapply has_read_eq; [exact Hr|unfold enc_filter; cbn [pf_path pf_qos pf_nolocal pf_preserve_retain pf_retain_forward_rule app]; by rewrite <- !(assoc_L (++))|cbn [pf_path]; lia].
Qed.

Lemma decodes_incoming5 : decodes read_incoming incoming_ok enc_incoming (λ _, 0).
Proof.
  split.
  - intros [pkid] Hk. eapply sreads_eq; [sread pkid (decodes_u16 "incoming_qos2.pkid"); apply sreads_ret|apply app_nil_r|done].
  - intros r Hr. apply has_read_refl in Hr. unfold read_incoming. wread decodes_u16 Hr pkid Hk.
    apply wp_ret. by split.
Qed.

Lemma blen_pos_app (a b : Bytes) : 1 ≤ blen a → 1 ≤ blen (a ++ b).
Proof. rewrite blen_app. pose proof (blen_nonneg b). lia. Qed.

Lemma enc_request5_pos r : 1 ≤ blen (enc_request r).
Proof. destruct r; by apply blen_pos_app. Qed.

Section Session.
  Context (layout : Layout) (Hlayout : layout_ok layout).

Lemma decodes_pairs field :
  decodes (read_user_properties layout field) (vec_ok pair_ok) (enc_vec enc_pair) (mem_pairs layout).
Proof.
  apply decodes_vec; [apply decodes_pair|intros; apply blen_pos_app, enc_field_pos|apply Hlayout].
Qed.

Lemma decodes_ids field element :
  decodes (r_vec (size_of_usize layout) field (r_usize element)) (vec_ok is_u64') (enc_vec u64_bytes)
    (mem_vec (size_of_usize layout) (λ _, 0)).
Proof. apply decodes_vec; [apply decodes_usize|done|apply Hlayout]. Qed.

Lemma decodes_filters5 field :
  decodes (r_vec (size_of_filter layout) field read_filter) (vec_ok filter_ok)
    (enc_vec enc_filter) (mem_vec (size_of_filter layout) (λ f, blen (pf_path f))).
Proof. apply decodes_vec; [apply decodes_filter5|intros; apply blen_pos_app, enc_field_pos|apply Hlayout]. Qed.

Lemma decodes_strings field element :
  decodes (r_vec (size_of_string layout) field (r_string element)) (vec_ok string_ok)
    (enc_vec enc_field) (mem_vec (size_of_string layout) blen).
Proof. apply decodes_vec; [apply decodes_string|apply enc_field_pos|apply Hlayout]. Qed.

Lemma decodes_option_field field :
  decodes (r_option_bytes field) (option_ok field_ok) (enc_option enc_field) (mem_option blen).
Proof. apply decodes_option, decodes_field. Qed.
Lemma decodes_option_string field :
  decodes (r_option_string field) (option_ok string_ok) (enc_option enc_field) (mem_option blen).
Proof. apply decodes_option, decodes_string. Qed.
Lemma decodes_option_u8 field :
  decodes (r_option_u8 field) (option_ok is_u8) (enc_option (λ n, [n])) (mem_option (λ _, 0)).
Proof. apply decodes_option, decodes_u8. Qed.
Lemma decodes_option_u16 field :
  decodes (r_option_u16 field) (option_ok is_u16) (enc_option u16_bytes) (mem_option (λ _, 0)).
Proof. apply decodes_option, decodes_u16. Qed.
Lemma decodes_option_u32 field :
  decodes (r_option_u32 field) (option_ok is_u32') (enc_option u32_bytes) (mem_option (λ _, 0)).
Proof. apply decodes_option, decodes_u32. Qed.
Lemma decodes_option_usize field :
  decodes (r_option_usize field) (option_ok is_u64') (enc_option u64_bytes) (mem_option (λ _, 0)).
Proof. apply decodes_option, decodes_usize. Qed.

Lemma mem_option_0 {A} (v : option A) : mem_option (λ _, 0) v = 0.
Proof. by destruct v. Qed.

Lemma decodes_publish_properties :
  decodes (read_publish_properties layout) (option_ok publish_properties_ok) (enc_option enc_publish_properties)
    (mem_option (mem_publish_properties layout)).
Proof.
  apply decodes_option. split.
  - intros [pfi mei rt cd ups ids ct] (H1 & H2 & H3 & H4 & H5 & H6 & H7). cbn in H1, H2, H3, H4, H5, H6, H7.
    eapply sreads_eq.
    + sread pfi (decodes_option_u8 "publish.properties.payload_format_indicator").
      sread mei (decodes_option_u32 "publish.properties.message_expiry_interval").
      sread rt (decodes_option_string "publish.properties.response_topic").
      sread cd (decodes_option_field "publish.properties.correlation_data").
      sread ups (decodes_pairs "publish.properties.user_properties").
      sread ids (decodes_ids "publish.properties.subscription_identifiers" "publish.properties.subscription_identifier").
      sread ct (decodes_option_string "publish.properties.content_type"). apply sreads_ret.
    + by rewrite app_nil_r.
    + rewrite !mem_option_0. unfold mem_publish_properties. cbn [ppp_response_topic ppp_correlation_data
        ppp_user_properties ppp_subscription_identifiers ppp_content_type]. lia.
  - intros r Hr. apply has_read_refl in Hr.
    wread decodes_option_u8 Hr pfi H1. wread decodes_option_u32 Hr mei H2. wread decodes_option_string Hr rt H3.
    wread decodes_option_field Hr cd H4. wread decodes_pairs Hr ups H5. wread decodes_ids Hr ids H6.
    wread decodes_option_string Hr ct H7. apply wp_ret. split; [by split_and!|].
    eapply has_read_eq; [exact Hr|by rewrite <- !(assoc_L (++))|]. rewrite !mem_option_0.
    unfold mem_publish_properties. cbn [ppp_response_topic ppp_correlation_data
        ppp_user_properties ppp_subscription_identifiers ppp_content_type]. lia.
Qed.

Lemma decodes_subscribe_properties :
  decodes (read_subscribe_properties layout) (option_ok subscribe_properties_ok) (enc_option enc_subscribe_properties)
    (mem_option (λ p, mem_pairs layout (psp_user_properties p))).
Proof.
  apply decodes_option. split.
  - intros [id ups] (H1 & H2). cbn in H1, H2. eapply sreads_eq.
    + sread id (decodes_option_usize "subscribe.properties.id").
      sread ups (decodes_pairs "subscribe.properties.user_properties"). apply sreads_ret.
    + by rewrite app_nil_r.
    + rewrite !mem_option_0. cbn [psp_user_properties]. lia.
  - intros r Hr. apply has_read_refl in Hr. wread decodes_option_usize Hr sid H1. wread decodes_pairs Hr ups H2.
    apply wp_ret. split; [by split|]. eapply has_read_eq; [exact Hr|done|]. rewrite !mem_option_0.
    cbn [psp_user_properties]. lia.
Qed.

Lemma decodes_unsubscribe_properties :
  decodes (read_unsubscribe_properties layout) (option_ok unsubscribe_properties_ok)
    (enc_option enc_unsubscribe_properties) (mem_option (λ p, mem_pairs layout (pup_user_properties p))).
Proof.
  apply decodes_option. split.
  - intros [ups] H1. eapply sreads_eq.
    + sread ups (decodes_pairs "unsubscribe.properties.user_properties"). apply sreads_ret.
    + by rewrite app_nil_r.
    + cbn [pup_user_properties]. lia.
  - intros r Hr. apply has_read_refl in Hr. wread decodes_pairs Hr ups H1. apply wp_ret. by split.
Qed.

Lemma decodes_publish5 : decodes (read_publish layout) publish_ok enc_publish (mem_publish layout).
Proof.
  split.
  - intros [dup qos retain topic pkid payload ps] (Ht & Hk & Hp & Hps). cbn in Ht, Hk, Hp, Hps. eapply sreads_eq.
    + sread dup (decodes_bool "publish.dup"). sread qos (decodes_qos "publish.qos").
      sread retain (decodes_bool "publish.retain"). sread topic (decodes_field "publish.topic").
      sread pkid (decodes_u16 "publish.pkid"). sread payload (decodes_field "publish.payload").
      sread ps decodes_publish_properties. apply sreads_ret.
    + by rewrite app_nil_r.
    + unfold mem_publish. cbn [pp_topic pp_payload pp_properties]. lia.
  - intros r Hr. apply has_read_refl in Hr. unfold read_publish.
    wread decodes_bool Hr dup Hd. wread decodes_qos Hr qos Hq. wread decodes_bool Hr retain Hrt.
    wread decodes_field Hr topic Ht. wread decodes_u16 Hr pkid Hk. wread decodes_field Hr payload Hp.
    wread decodes_publish_properties Hr ps Hps. apply wp_ret. split; [by split_and!|].
    eapply has_read_eq; [exact Hr| |unfold mem_publish; cbn [pp_topic pp_payload pp_properties]; lia].
    unfold enc_publish. cbn [pp_dup pp_qos pp_retain pp_topic pp_pkid pp_payload pp_properties app].
    by rewrite <- !(assoc_L (++)).
Qed.

Lemma decodes_subscribe : decodes (read_subscribe layout) subscribe_ok enc_subscribe (mem_subscribe layout).
Proof.
  split.
  - intros [pkid filters ps] (Hk & Hf & Hps). cbn in Hk, Hf, Hps. eapply sreads_eq.
    + sread pkid (decodes_u16 "subscribe.pkid"). sread filters (decodes_filters5 "subscribe.filters").
      sread ps decodes_subscribe_properties. apply sreads_ret.
    + by rewrite app_nil_r.
    + unfold mem_subscribe. cbn [psub_filters psub_properties]. lia.
  - intros r Hr. apply has_read_refl in Hr. unfold read_subscribe. wread decodes_u16 Hr pkid Hk.
    wread decodes_filters5 Hr filters Hf. wread decodes_subscribe_properties Hr ps Hps. apply wp_ret.
    split; [by split_and!|]. eapply has_read_eq; [exact Hr|by rewrite <- !(assoc_L (++))|].
    unfold mem_subscribe. cbn [psub_filters psub_properties]. lia.
Qed.

Lemma decodes_unsubscribe :
  decodes (read_unsubscribe layout) unsubscribe_ok enc_unsubscribe (mem_unsubscribe layout).
Proof.
  split.
  - intros [pkid filters ps] (Hk & Hf & Hps). cbn in Hk, Hf, Hps. eapply sreads_eq.
    + sread pkid (decodes_u16 "unsubscribe.pkid").
      sread filters (decodes_strings "unsubscribe.filters" "unsubscribe.filter").
      sread ps decodes_unsubscribe_properties. apply sreads_ret.
    + by rewrite app_nil_r.
    + unfold mem_unsubscribe. cbn [punsub_filters punsub_properties]. lia.
  - intros r Hr. apply has_read_refl in Hr. unfold read_unsubscribe. wread decodes_u16 Hr pkid Hk.
    wread decodes_strings Hr filters Hf. wread decodes_unsubscribe_properties Hr ps Hps. apply wp_ret.
    split; [by split_and!|]. eapply has_read_eq; [exact Hr|by rewrite <- !(assoc_L (++))|].
    unfold mem_unsubscribe. cbn [punsub_filters punsub_properties]. lia.
Qed.

Lemma decodes_request5 : decodes (read_request layout) request_ok enc_request (mem_request layout).
Proof.
  split.
  - unfold read_request. intros [p|[pkid]|s|s] Hr; cbn in Hr.
    + eapply sreads_eq; [sread 1 (decodes_u8 "request.type"); cbn [Z.eqb Pos.eqb];
        sread p decodes_publish5; apply sreads_ret|by rewrite app_nil_r|cbn [mem_request]; lia].
    + eapply sreads_eq; [sread 2 (decodes_u8 "request.type"); cbn [Z.eqb Pos.eqb];
        sread pkid (decodes_u16 "pubrel.pkid"); apply sreads_ret|by rewrite app_nil_r|done].
    + eapply sreads_eq; [sread 3 (decodes_u8 "request.type"); cbn [Z.eqb Pos.eqb];
        sread s decodes_subscribe; apply sreads_ret|by rewrite app_nil_r|cbn [mem_request]; lia].
    + eapply sreads_eq; [sread 4 (decodes_u8 "request.type"); cbn [Z.eqb Pos.eqb];
        sread s decodes_unsubscribe; apply sreads_ret|by rewrite app_nil_r|cbn [mem_request]; lia].
  - intros r Hr. apply has_read_refl in Hr. unfold read_request. wread decodes_u8 Hr tag Ht.
    destruct (Z.eqb_spec tag 1) as [->|]; [|destruct (Z.eqb_spec tag 2) as [->|];
      [|destruct (Z.eqb_spec tag 3) as [->|]; [|destruct (Z.eqb_spec tag 4) as [->|]; [|by apply wp_fail]]]].
    + wread decodes_publish5 Hr p Hp. apply wp_ret. by split.
    + wread decodes_u16 Hr pkid Hk. apply wp_ret. by split.
    + wread decodes_subscribe Hr p Hp. apply wp_ret. by split.
    + wread decodes_unsubscribe Hr p Hp. apply wp_ret. by split.
Qed.

Lemma decodes_replay5 field :
  decodes (r_vec (size_of_request layout) field (read_request layout)) (vec_ok request_ok)
    (enc_vec enc_request) (mem_vec (size_of_request layout) (mem_request layout)).
Proof. apply decodes_vec; [apply decodes_request5|apply enc_request5_pos|apply Hlayout]. Qed.

Lemma decodes_incomings5 field :
  decodes (r_vec (size_of_incoming layout) field read_incoming) (vec_ok incoming_ok)
    (enc_vec enc_incoming) (mem_vec (size_of_incoming layout) (λ _, 0)).
Proof. apply decodes_vec; [apply decodes_incoming5|done|apply Hlayout]. Qed.

Lemma sreads_session5 s :
  session_ok s → sreads_all (read_session layout) (enc_session s) (mem_session layout s) s.
Proof.
  destruct s as [version client clean expiry upper ack replay incoming]. intros (Hv & Hc & He & Hi & Hr & Hq).
  cbn in Hv, Hc, He, Hi, Hr, Hq. eapply sreads_all_eq; [unfold read_session|..].
  - sread_all tt decodes_magic. sread_all SESSION_PROTOCOL (decodes_u8 "protocol").
    rewrite Z.eqb_refl. cbn [negb]. sread_all SESSION_CODEC_VERSION (decodes_u16 "codec_version").
    rewrite Z.eqb_refl. cbn [negb]. sread_all version (decodes_u16 "format_version").
    sread_all client (decodes_string "client_id"). sread_all clean (decodes_bool "clean_start").
    sread_all expiry (decodes_option_u32 "session_expiry_interval").
    sread_all upper (decodes_option_u16 "outgoing_inflight_upper_limit").
    sread_all ack (decodes_ack_mode "ack_mode").
    sread_all replay (decodes_replay5 "replay"). sread_all incoming (decodes_incomings5 "incoming_qos2").
    apply sreads_finish_ret.
  - by rewrite app_nil_r.
  - rewrite !mem_option_0. unfold mem_session. cbn [session_client_id session_replay session_incoming_qos2]. lia.
Qed.

Lemma wp_read_session5 r :
  reader_ok r →
  wp (read_session layout) (λ s _, session_ok s ∧ rest_of r = enc_session s ∧
    mem_session layout s ≤ r_remaining_memory r) (λ _ _, True) r.
Proof.
  intros Hr. apply has_read_refl in Hr. unfold read_session. wread decodes_magic Hr u Hu.
  wread decodes_u8 Hr protocol Hp. destruct (Z.eqb_spec protocol SESSION_PROTOCOL) as [->|]; [|by apply wp_fail].
  wread decodes_u16 Hr codec Hcv.
  destruct (Z.eqb_spec codec SESSION_CODEC_VERSION) as [->|]; [|by apply wp_fail]. cbn [negb].
  wread decodes_u16 Hr version Hv. wread decodes_string Hr client Hc. wread decodes_bool Hr clean Hcl.
  wread decodes_option_u32 Hr expiry Hx. wread decodes_option_u16 Hr upper Hi.
  wread decodes_ack_mode Hr ack Ha. wread decodes_replay5 Hr replay Hre.
  wread decodes_incomings5 Hr incoming Hq. destruct Hr as (_ & Hok & Hr & Hm).
  apply wp_bind. unfold r_finish. apply wp_bind, wp_get.
  destruct (_ =? _) eqn:He; [|by apply wp_fail]. do 2 apply wp_ret. apply rest_nil in He; [|done].
  rewrite He, app_nil_r in Hr. split; [by split_and!|]. split.
  - rewrite Hr. unfold enc_session.
    cbn [session_format_version session_client_id session_clean_start session_expiry_interval
      session_outgoing_inflight_upper_limit session_ack_mode
      session_replay session_incoming_qos2]. by rewrite <- !(assoc_L (++)).
  - rewrite !mem_option_0 in Hm. unfold mem_session.
    cbn [session_client_id session_replay session_incoming_qos2]. lia.
Qed.
End Session.

(** ** The codec *)

Lemma checked_session5 s : checked (write_session s).
Proof. unfold write_session. repeat apply checked_bind. apply checked_check. Qed.

(** What is written are bytes: a vector's or option's are if its elements' are. *)
Create HintDb session_bytes.
#[export] Hint Resolve u16_bytes_u8 u32_bytes_u8 u64_bytes_u8 enc_field_u8 enc_vec_u8 enc_option_u8
  encode_qos_u8 encode_ack_mode_u8 : session_bytes.

Lemma b2z_u8 b : is_u8 (Z.b2z b).
Proof. by destruct b. Qed.
Lemma encode_rule_u8 q : is_u8 (encode_retain_forward_rule q).
Proof. by destruct q. Qed.
Lemma string_ok_u8 v : string_ok v → Forall is_u8 (enc_field v).
Proof. intros [? _]. by apply enc_field_u8. Qed.
Lemma pair_ok_u8 kv : pair_ok kv → Forall is_u8 (enc_pair kv).
Proof. intros [? ?]. apply Forall_app. split; by apply string_ok_u8. Qed.
Lemma single_u8 n : is_u8 n → Forall is_u8 [n].
Proof. intros; by apply Forall_singleton. Qed.
#[export] Hint Resolve b2z_u8 encode_rule_u8 string_ok_u8 pair_ok_u8 single_u8 : session_bytes.
Ltac sbytes := rewrite ?Forall_app, ?Forall_cons; repeat match goal with |- _ ∧ _ => split end;
  try done; eauto with session_bytes.

Lemma filter_ok_u8 f : filter_ok f → Forall is_u8 (enc_filter f).
Proof. intros Hf. unfold enc_filter. sbytes. Qed.
Lemma publish_properties_u8 p : publish_properties_ok p → Forall is_u8 (enc_publish_properties p).
Proof. intros (H1 & H2 & H3 & H4 & H5 & H6 & H7). unfold enc_publish_properties. sbytes. Qed.
Lemma subscribe_properties_u8 p : subscribe_properties_ok p → Forall is_u8 (enc_subscribe_properties p).
Proof. intros (H1 & H2). unfold enc_subscribe_properties. sbytes. Qed.
Lemma unsubscribe_properties_u8 p : unsubscribe_properties_ok p → Forall is_u8 (enc_unsubscribe_properties p).
Proof. intros H1. unfold enc_unsubscribe_properties. sbytes. Qed.
#[export] Hint Resolve filter_ok_u8 publish_properties_u8 subscribe_properties_u8
  unsubscribe_properties_u8 : session_bytes.

Lemma enc_request5_u8 r : request_ok r → Forall is_u8 (enc_request r).
Proof.
  destruct r as [p|p|s|s]; cbn [request_ok enc_request].
  - intros (Ht & Hk & Hp & Hps). unfold enc_publish. sbytes.
  - intros Hk. sbytes.
  - intros (Hk & Hf & Hps). unfold enc_subscribe. sbytes.
  - intros (Hk & Hf & Hps). unfold enc_unsubscribe. sbytes.
Qed.
#[export] Hint Resolve enc_request5_u8 : session_bytes.

Lemma enc_session5_u8 s : session_ok s → Forall is_u8 (enc_session s).
Proof.
  intros (Hv & Hc & He & Hi & Hr & Hq). unfold enc_session. sbytes.
  - by repeat constructor.
  - by apply u16_bytes_u8.
  - eapply enc_vec_u8; [|exact Hq]. intros i Hk. by apply u16_bytes_u8.
Qed.

Lemma encode_with_limit_run5 s limit :
  session_ok s → 0 ≤ limit → blen (enc_session s) ≤ usize_MAX →
  match encode_with_limit s limit with
  | Ok b => b = enc_session s ∧ blen b ≤ limit
  | Err _ => limit < blen (enc_session s)
  | Panic => False
  end.
Proof.
  intros Hs Hl Hb. unfold encode_with_limit.
  pose proof (swrites_session5 s Hs {| w_bytes := []; w_limit := limit; w_excess := None |} Hl Hb) as H.
  unfold fits in H. cbn [w_bytes w_limit w_excess] in H. rewrite blen_nil, Z.add_0_l in H.
  destruct (write_session _ _) as [[u|e|] w] eqn:Hw; [|cbn in H; apply Z.nle_gt; tauto|done].
  destruct H as (_ & Hle & Hfit & Hno). destruct (decide (blen (enc_session s) ≤ limit)) as [Hd|Hd].
  - destruct Hfit as [-> _]; [done|]. done.
  - destruct Hno as [Hx _]; [by intros []|]. destruct Hx.
    by apply (checked_session5 s {| w_bytes := []; w_limit := limit; w_excess := None |} u).
Qed.

(** The MQTT 5 session format round-trips.  A session within the limits of the format is encoded,
    and decoding the bytes under any memory limit that covers the session's memory returns the
    session.  With an encoding limit the same bytes are returned, or an error precisely when they do
    not fit. *)
Theorem v5_session_roundtrip layout s memory_limit :
  layout_ok layout → session_ok s → blen (enc_session s) ≤ usize_MAX →
  mem_session layout s ≤ memory_limit ≤ usize_MAX →
  ∃ bytes, encode s = Ok bytes ∧ decode_with_memory_limit layout bytes memory_limit = Ok s ∧
    ∀ limit, 0 ≤ limit →
      if limit <? blen bytes then ∃ e, encode_with_limit s limit = Err e
      else encode_with_limit s limit = Ok bytes.
Proof.
  intros Hlay Hs Hb Hm. exists (enc_session s). split_and!.
  - pose proof (encode_with_limit_run5 s usize_MAX Hs ltac:(done) Hb) as H. unfold encode.
    destruct (encode_with_limit s usize_MAX); [by destruct H as [-> _]|lia|done].
  - unfold decode_with_memory_limit. destruct (sreads_session5 layout Hlay s Hs) as [Hm0 Hread].
    rewrite Hread; [done| |done|cbn; lia].
    split_and!; cbn -[blen]; try (done || lia). by apply enc_session5_u8.
  - intros limit Hl. pose proof (encode_with_limit_run5 s limit Hs Hl Hb) as H.
    destruct (Z.ltb_spec limit (blen (enc_session s))), (encode_with_limit s limit); naive_solver lia.
Qed.

(** C34: the MQTT 5 session format is canonical and decoding is safe.  On any byte string the decoder
    returns; the bytes it accepts are exactly what the encoder writes for the session it returns, and
    the memory it accounted for stays within the limit. *)
Theorem v5_session_canonical layout bytes memory_limit :
  layout_ok layout → Forall is_u8 bytes → blen bytes ≤ usize_MAX → 0 ≤ memory_limit ≤ usize_MAX →
  match decode_with_memory_limit layout bytes memory_limit with
  | Ok s => session_ok s ∧ encode s = Ok bytes ∧ mem_session layout s ≤ memory_limit
  | Err _ => True
  | Panic => False
  end.
Proof.
  intros Hlay H8 Hb Hm. pose proof (blen_nonneg bytes). pose proof (wp_read_session5 layout Hlay
    {| r_bytes := bytes; r_position := 0; r_remaining_memory := memory_limit |}) as H0.
  unfold decode_with_memory_limit. unfold wp in H0. destruct (read_session _ _) as [[s|e|] r']; cbn [fst].
  - destruct H0 as (Hs & Hr & Hmem); [split_and!; cbn -[blen]; done || lia|].
    change (bytes = enc_session s) in Hr. subst bytes. split_and!; [done| |done].
    pose proof (encode_with_limit_run5 s usize_MAX Hs ltac:(done) Hb) as He. unfold encode.
    destruct (encode_with_limit s usize_MAX); [by destruct He as [-> _]|lia|done].
  - done.
  - apply H0. split_and!; cbn -[blen]; done || lia.
Qed.

(** A session with one request of each kind and every property, on a 64-bit target. *)
Definition demo_layout5 : Layout := mkLayout 240 2 32 24 48 8.
Definition demo_session5 : PersistedSession :=
  mkPersistedSession 1 [99; 49] false (Some 3600) (Some 10) PA_Manual
    [PR_Publish (mkPersistedPublish true PQ_AtLeastOnce false [97; 47; 98] 1 [1; 2; 3]
       (Some (mkPersistedPublishProperties (Some 1) (Some 60) (Some [114]) (Some [0; 255]) [([107], [118])]
         [268435455] (Some [116]))));
     PR_PubRel (mkPersistedPubRel 2);
     PR_Subscribe (mkPersistedSubscribe 3 [mkPersistedFilter [97] PQ_ExactlyOnce true false PRF_Never]
       (Some (mkPersistedSubscribeProperties (Some 7) [])));
     PR_Unsubscribe (mkPersistedUnsubscribe 4 [[98]; [99]] None)]
    [mkPersistedIncomingQos2 7].

Lemma demo_session5_ok : session_ok demo_session5.
Proof.
  unfold session_ok, demo_session5, vec_ok, string_ok, field_ok, is_u16, is_u8. cbn -[utf8 Z.le].
  repeat first [split|constructor]; try (vm_compute; (reflexivity || discriminate)).
Qed.

Lemma v5_session_roundtrip_witness :
  ∃ bytes, encode demo_session5 = Ok bytes ∧
    decode_with_memory_limit demo_layout5 bytes 2000 = Ok demo_session5.
Proof.
  destruct (v5_session_roundtrip demo_layout5 demo_session5 2000) as (bytes & He & Hd & _);
    [vm_compute; intuition discriminate|apply demo_session5_ok|vm_compute; discriminate
    |vm_compute; intuition discriminate|].
  exists bytes. split; [exact He|exact Hd].
Defined.

Lemma v5_session_canonical_witness :
  match decode_with_memory_limit demo_layout5 (enc_session demo_session5) 2000 with
  | Ok s => session_ok s ∧ encode s = Ok (enc_session demo_session5) ∧ mem_session demo_layout5 s ≤ 2000
  | Err _ => True
  | Panic => False
  end.
Proof.
  apply (v5_session_canonical demo_layout5 (enc_session demo_session5) 2000);
    [vm_compute; intuition discriminate|apply enc_session5_u8, demo_session5_ok|vm_compute; discriminate
    |vm_compute; intuition discriminate].
Defined.
