(* ===== verification/V5Persist.v ===== *)
(** [rumqttc-v5/src/state.rs], [lib.rs], [session.rs]: the requests of the MQTT 5 client, the
    conversions between a request and its persisted form, and the checks of a persisted session that
    do not depend on the session state. *)

From S2P Require Import Prelude.
From S2P Require Import Utf8.
From S2P Require Import Primitives.
From S2P Require Import FixedBitSet.
From S2P Require Import V5Base.
From S2P Require Import V5Properties.
From S2P Require Import V5Acks.
From S2P Require Import V5SubAck.
From S2P Require Import V5Subscribe.
From S2P Require Import V5Publish.
From S2P Require Import V5Disconnect.
From S2P Require Import V5Auth.
From S2P Require Import SessionIO.
From S2P Require Import V5SessionFormat.
#[local] Open Scope Z_scope.

(** A [Duration] is a number of nanoseconds. *)
Inductive Request :=
| R_Publish (publish : Publish)
| R_PubAck (puback : PubAck)
| R_PubRec (pubrec : PubRec)
| R_PubComp (pubcomp : PubComp)
| R_PubRel (pubrel : PubRel)
| R_PingReq
| R_PingResp
| R_Subscribe (subscribe : Subscribe)
| R_SubAck (suback : SubAck)
| R_Unsubscribe (unsubscribe : Unsubscribe)
| R_UnsubAck (unsuback : UnsubAck)
| R_Auth (auth : Auth)
| R_Disconnect (disconnect : Disconnect)
| R_DisconnectNow (disconnect : Disconnect)
| R_DisconnectWithTimeout (disconnect : Disconnect) (timeout : Z)
| R_DisconnectAfterQueued (disconnect : Disconnect)
| R_DisconnectAfterQueuedWithTimeout (disconnect : Disconnect) (timeout : Z).

Inductive AckMode := Automatic | Manual.

Inductive SessionRestoreError :=
| PublishBudgetExceeded
| UnsupportedFormatVersion (actual : u16)
| ClientIdMismatch (persisted configured : Bytes)
| CleanStartMismatch (persisted configured : bool)
| OutgoingInflightUpperLimitMismatch (persisted configured : option u16)
| AckModeMismatch
| InvalidPacketIdentifier (pkid : u16)
| DuplicateOutgoingPacketIdentifier (pkid : u16)
| OutgoingPublishWindowExceeded (count : usize) (max_inflight : u16)
| InvalidOutgoingPublishQoS (pkid : u16)
| OutgoingPacketIdentifierCountOutOfRange (count : usize).

(** The options a persisted session is checked against. *)
Record SessionOptions := mkSessionOptions {
  opt_client_id : Bytes;
  opt_clean_start : bool;
  opt_outgoing_inflight_upper_limit : option u16;
  opt_ack_mode : AckMode;
}.

(** ** From requests to the checkpoint *)

Definition persisted_ack_mode (ack_mode : AckMode) : PersistedAckMode :=
  match ack_mode with Automatic => PA_Automatic | Manual => PA_Manual end.

Definition persisted_qos (qos : QoS) : PersistedQoS :=
  match qos with
  | AtMostOnce => PQ_AtMostOnce | AtLeastOnce => PQ_AtLeastOnce | ExactlyOnce => PQ_ExactlyOnce
  end.

Definition qos_from_persisted (qos : PersistedQoS) : QoS :=
  match qos with
  | PQ_AtMostOnce => AtMostOnce | PQ_AtLeastOnce => AtLeastOnce | PQ_ExactlyOnce => ExactlyOnce
  end.

Definition persisted_publish_properties (properties : PublishProperties) : PersistedPublishProperties :=
  {| ppp_payload_format_indicator := payload_format_indicator properties;
     ppp_message_expiry_interval := message_expiry_interval properties;
     ppp_response_topic := response_topic properties;
     ppp_correlation_data := correlation_data properties;
     ppp_user_properties := pub_user_properties properties;
     ppp_subscription_identifiers := subscription_identifiers properties;
     ppp_content_type := content_type properties |}.

Definition persisted_publish (publish : Publish) : option PersistedPublish :=
  if bool_decide (pub_qos publish = AtMostOnce) || (pub_pkid publish =? 0)
     || bool_decide (topic publish = [])
  then None
  else Some {| pp_dup := true; pp_qos := persisted_qos (pub_qos publish);
               pp_retain := retain publish; pp_topic := topic publish;
               pp_pkid := pub_pkid publish; pp_payload := payload publish;
               pp_properties := persisted_publish_properties <$> pub_properties publish |}.

Definition persisted_filter (filter : SubscribeFilter) : PersistedFilter :=
  {| pf_path := path filter; pf_qos := persisted_qos (filter_qos filter);
     pf_nolocal := nolocal filter; pf_preserve_retain := preserve_retain filter;
     pf_retain_forward_rule :=
       match retain_forward_rule filter with
       | OnEverySubscribe => PRF_OnEverySubscribe
       | OnNewSubscribe => PRF_OnNewSubscribe
       | Never => PRF_Never
       end |}.

Definition persisted_subscribe (subscribe : Subscribe) : PersistedSubscribe :=
  {| psub_pkid := subscribe_pkid subscribe;
     psub_filters := map persisted_filter (filters subscribe);
     psub_properties :=
       (λ properties, {| psp_id := sub_id properties;
                         psp_user_properties := sub_user_properties properties |})
       <$> subscribe_properties subscribe |}.

Definition persisted_unsubscribe (unsubscribe : Unsubscribe) : PersistedUnsubscribe :=
  {| punsub_pkid := unsubscribe_pkid unsubscribe;
     punsub_filters := unsubscribe_filters unsubscribe;
     punsub_properties :=
       (λ properties, {| pup_user_properties := unsub_user_properties properties |})
       <$> unsubscribe_properties unsubscribe |}.

Definition persisted_request_from_request (request : Request) : option PersistedRequest :=
  match request with
  | R_Publish publish => PR_Publish <$> persisted_publish publish
  | R_PubRel pubrel => Some (PR_PubRel {| prel_pkid := ack_pkid pubrel |})
  | R_Subscribe subscribe =>
      if subscribe_pkid subscribe =? 0 then None
      else Some (PR_Subscribe (persisted_subscribe subscribe))
  | R_Unsubscribe unsubscribe =>
      if unsubscribe_pkid unsubscribe =? 0 then None
      else Some (PR_Unsubscribe (persisted_unsubscribe unsubscribe))
  | _ => None
  end.

(** ** From the checkpoint to requests *)

Definition validate_pkid (pkid : u16) : outcome SessionRestoreError unit :=
  if pkid =? 0 then Err (InvalidPacketIdentifier pkid) else Ok tt.

Definition publish_properties_from_persisted (properties : PersistedPublishProperties)
  : PublishProperties :=
  {| payload_format_indicator := ppp_payload_format_indicator properties;
     message_expiry_interval := ppp_message_expiry_interval properties;
     topic_alias := None;
     response_topic := ppp_response_topic properties;
     correlation_data := ppp_correlation_data properties;
     pub_user_properties := ppp_user_properties properties;
     subscription_identifiers := ppp_subscription_identifiers properties;
     content_type := ppp_content_type properties |}.

Definition filter_from_persisted (filter : PersistedFilter) : SubscribeFilter :=
  {| path := pf_path filter; filter_qos := qos_from_persisted (pf_qos filter);
     nolocal := pf_nolocal filter; preserve_retain := pf_preserve_retain filter;
     retain_forward_rule :=
       match pf_retain_forward_rule filter with
       | PRF_OnEverySubscribe => OnEverySubscribe
       | PRF_OnNewSubscribe => OnNewSubscribe
       | PRF_Never => Never
       end |}.

Definition subscribe_properties_from_persisted (properties : PersistedSubscribeProperties)
  : SubscribeProperties :=
  {| sub_id := psp_id properties; sub_user_properties := psp_user_properties properties |}.

Definition unsubscribe_properties_from_persisted (properties : PersistedUnsubscribeProperties)
  : UnsubscribeProperties :=
  {| unsub_user_properties := pup_user_properties properties |}.

Definition request_from_persisted_request (request : PersistedRequest)
  : outcome SessionRestoreError Request :=
  match request with
  | PR_Publish publish =>
      validate_pkid (pp_pkid publish);;
      Ok (R_Publish {| dup := true; pub_qos := qos_from_persisted (pp_qos publish);
                       retain := pp_retain publish; topic := pp_topic publish;
                       pub_pkid := pp_pkid publish; payload := pp_payload publish;
                       pub_properties :=
                         publish_properties_from_persisted <$> pp_properties publish |})
  | PR_PubRel pubrel =>
      validate_pkid (prel_pkid pubrel);;
      Ok (R_PubRel (PubRel_new (prel_pkid pubrel) None))
  | PR_Subscribe subscribe =>
      validate_pkid (psub_pkid subscribe);;
      Ok (R_Subscribe {| subscribe_pkid := psub_pkid subscribe;
                         filters := map filter_from_persisted (psub_filters subscribe);
                         subscribe_properties :=
                           subscribe_properties_from_persisted <$> psub_properties subscribe |})
  | PR_Unsubscribe unsubscribe =>
      validate_pkid (punsub_pkid unsubscribe);;
      Ok (R_Unsubscribe {| unsubscribe_pkid := punsub_pkid unsubscribe;
                           unsubscribe_filters := punsub_filters unsubscribe;
                           unsubscribe_properties :=
                             unsubscribe_properties_from_persisted <$> punsub_properties unsubscribe |})
  end.

Definition validate_persisted_session_signature (options : SessionOptions) (session : PersistedSession)
  : outcome SessionRestoreError unit :=
  if negb (session_format_version session =? 2)
  then Err (UnsupportedFormatVersion (session_format_version session))
  else if negb (bool_decide (session_client_id session = opt_client_id options))
  then Err (ClientIdMismatch (session_client_id session) (opt_client_id options))
  else if negb (bool_decide (session_clean_start session = opt_clean_start options))
  then Err (CleanStartMismatch (session_clean_start session) (opt_clean_start options))
  else if negb (bool_decide (session_outgoing_inflight_upper_limit session
                             = opt_outgoing_inflight_upper_limit options))
  then Err (OutgoingInflightUpperLimitMismatch (session_outgoing_inflight_upper_limit session)
              (opt_outgoing_inflight_upper_limit options))
  else if negb (bool_decide (session_ack_mode session = persisted_ack_mode (opt_ack_mode options)))
  then Err AckModeMismatch
  else Ok tt.

Definition validate_persisted_replay_request (request : PersistedRequest)
  : outcome SessionRestoreError u16 :=
  match request with
  | PR_Publish publish =>
      validate_pkid (pp_pkid publish);;
      if bool_decide (pp_qos publish = PQ_AtMostOnce)
      then Err (InvalidOutgoingPublishQoS (pp_pkid publish))
      else Ok (pp_pkid publish)
  | PR_PubRel pubrel => validate_pkid (prel_pkid pubrel);; Ok (prel_pkid pubrel)
  | PR_Subscribe subscribe => validate_pkid (psub_pkid subscribe);; Ok (psub_pkid subscribe)
  | PR_Unsubscribe unsubscribe =>
      validate_pkid (punsub_pkid unsubscribe);; Ok (punsub_pkid unsubscribe)
  end.

(** ** A request survives persistence *)

(** What a request is replayed as: a publish is marked as a duplicate and loses its topic alias,
    a PUBREL loses its reason and properties. *)
Definition without_alias (properties : PublishProperties) : PublishProperties :=
  {| payload_format_indicator := payload_format_indicator properties;
     message_expiry_interval := message_expiry_interval properties;
     topic_alias := None;
     response_topic := response_topic properties;
     correlation_data := correlation_data properties;
     pub_user_properties := pub_user_properties properties;
     subscription_identifiers := subscription_identifiers properties;
     content_type := content_type properties |}.
Definition replay_form (request : Request) : Request :=
  match request with
  | R_Publish p =>
      R_Publish {| dup := true; pub_qos := pub_qos p; retain := retain p; topic := topic p;
                   pub_pkid := pub_pkid p; payload := payload p;
                   pub_properties := without_alias <$> pub_properties p |}
  | R_PubRel p => R_PubRel (PubRel_new (ack_pkid p) None)
  | request => request
  end.

Definition request_pkid (request : Request) : u16 :=
  match request with
  | R_Publish p => pub_pkid p
  | R_PubRel p => ack_pkid p
  | R_Subscribe s => subscribe_pkid s
  | R_Unsubscribe s => unsubscribe_pkid s
  | _ => 0
  end.

Lemma qos_from_persisted_qos5 q : qos_from_persisted (persisted_qos q) = q.
Proof. by destruct q. Qed.

Lemma filter_from_persisted_filter f : filter_from_persisted (persisted_filter f) = f.
Proof. destruct f as [p q n r [| |]]; unfold filter_from_persisted; cbn; by rewrite qos_from_persisted_qos5. Qed.

Lemma filters_from_persisted5 fs : map filter_from_persisted (map persisted_filter fs) = fs.
Proof.
  rewrite map_map. induction fs as [|f fs IH]; [done|]. cbn [map].
  by rewrite filter_from_persisted_filter, IH.
Qed.

Lemma validate_pkid_nonzero pkid : pkid ≠ 0 → validate_pkid pkid = Ok tt.
Proof. intros Hk. unfold validate_pkid. by rewrite (proj2 (Z.eqb_neq _ _)). Qed.

(** A request that is written to the checkpoint is accepted there and read back as what it is
    replayed as. *)
Lemma persisted_request_roundtrip request persisted :
  request_pkid request ≠ 0 → persisted_request_from_request request = Some persisted →
  request_from_persisted_request persisted = Ok (replay_form request) ∧
  validate_persisted_replay_request persisted = Ok (request_pkid request).
Proof.
  intros Hk. destruct request as [p| | | |p| | |s| |s| | | | | | | ]; cbn in Hk |- *; try done.
  - destruct (persisted_publish p) as [q|] eqn:Hq; [|done]. intros [= <-]. revert Hq. unfold persisted_publish.
    case_bool_decide as Hqos; [done|]. rewrite (proj2 (Z.eqb_neq _ _)) by done. cbn [orb].
    case_bool_decide; [done|]. intros [= <-]. cbn. rewrite validate_pkid_nonzero by done. cbn.
    rewrite qos_from_persisted_qos5. split.
    + destruct (pub_properties p) as [[]|]; done.
    + case_bool_decide as Hp; [|done]. by destruct (pub_qos p).
  - intros [= <-]. cbn. by rewrite validate_pkid_nonzero by done.
  - rewrite (proj2 (Z.eqb_neq _ _)) by done. intros [= <-]. destruct s as [k fs [[]|]]; cbn in Hk |- *;
      rewrite validate_pkid_nonzero by done; cbn; split; try done;
      by rewrite filters_from_persisted5.
  - rewrite (proj2 (Z.eqb_neq _ _)) by done. intros [= <-]. destruct s as [k fs [[]|]]; cbn in Hk |- *;
      by rewrite validate_pkid_nonzero by done.
Qed.
