(* ===== verification/V5Admission.v ===== *)
(** [rumqttc-v5/src/publish_budget.rs]: accounting for outstanding publishes.

    A publish reserves one unit and the bytes it retains; the reservation lives as long as the
    publish's terminal sender and is given back when that is dropped.  [reserve] and
    [reserve_replay] subtract and add [usize]s without checks of their own, so that overflow is a
    panic here; [V5Admission] shows that none is reachable.

    [rumqttc-v5/src/publish_admission.rs] with the feature [bounded-publish]: publishes are checked
    against the negotiated capabilities and the publish budget before they enter the request channel.
    Here are the data and the operations, each over the shared object ([ManagedPublishAdmission] and
    the channel its producers send into); [try_admit_reserved] is the composition of the stages
    between which other threads can run.  [V5AdmissionSystem] interleaves them. *)

From S2P Require Import Prelude.
From S2P Require Import Utf8.
From S2P Require Import Primitives.
From S2P Require Import FixedBitSet.
From S2P Require Import SessionIO.
From S2P Require Import V5Properties.
From S2P Require Import V5Publish.
From S2P Require Import V5ConnAck.
From S2P Require Import V5SessionFormat.
From S2P Require Import V5Persist.
#[local] Open Scope Z_scope.

Record PublishBudgetLimits := mkPublishBudgetLimits { max_outstanding : usize; max_bytes : usize }.

Record PublishBudgetSnapshot := mkPublishBudgetSnapshot {
  outstanding : usize;
  retained_bytes : usize;
  limits : PublishBudgetLimits;
  recovery_pending : bool;
}.

Inductive PublishBudgetError := RecoveryPending | CountExhausted | BytesExhausted | TooLarge.

#[global] Instance PublishBudgetError_eq_dec : EqDecision PublishBudgetError.
Proof. solve_decision. Defined.

Definition can_wait (self : PublishBudgetError) : bool :=
  match self with TooLarge => false | _ => true end.

Definition PublishBudget_new (limits : PublishBudgetLimits) (recovery_pending : bool)
  : PublishBudgetSnapshot :=
  {| outstanding := 0; retained_bytes := 0; limits := limits; recovery_pending := recovery_pending |}.

Definition set_recovery_pending (pending : bool) (s : PublishBudgetSnapshot) : PublishBudgetSnapshot :=
  {| outstanding := outstanding s; retained_bytes := retained_bytes s; limits := limits s;
     recovery_pending := pending |}.

Definition check_size (s : PublishBudgetSnapshot) (bytes : option usize)
  : outcome PublishBudgetError usize :=
  match bytes with
  | None => Err TooLarge
  | Some bytes => if max_bytes (limits s) <? bytes then Err TooLarge else Ok bytes
  end.

(** ** Machine arithmetic *)

Definition checked_add (a b : usize) : option usize := if usize_MAX <? a + b then None else Some (a + b).
Definition checked_mul (a b : usize) : option usize := if usize_MAX <? a * b then None else Some (a * b).
(** [a - b] and [a + b] on [usize]. *)
Definition usize_sub {S E} (a b : usize) : M S E usize := if a <? b then mpanic else mret (a - b).
Definition usize_add {S E} (a b : usize) : M S E usize :=
  if usize_MAX <? a + b then mpanic else mret (a + b).

(** A sequence of [checked_add]s, the [try_fold] of [reserve_replay] and the loops of
    [data_charge]. *)
Fixpoint add_lens (bytes : usize) (lens : list usize) : option usize :=
  match lens with
  | [] => Some bytes
  | len :: lens => match checked_add bytes len with Some bytes => add_lens bytes lens | None => None end
  end.

(** ** Reservations

    A reservation is its number of bytes. *)

Definition counted {E} (outstanding' retained' : usize) : M PublishBudgetSnapshot E unit :=
  mmodify (λ s, {| outstanding := outstanding'; retained_bytes := retained'; limits := limits s;
                   recovery_pending := recovery_pending s |}).

Definition reserve (bytes : usize) : M PublishBudgetSnapshot PublishBudgetError usize :=
  state ← mget;
  if recovery_pending state : bool then mfail RecoveryPending
  else if max_outstanding (limits state) <=? outstanding state then mfail CountExhausted
  else
    room ← usize_sub (max_bytes (limits state)) (retained_bytes state);
    if room <? bytes then mfail BytesExhausted
    else
      outstanding' ← usize_add (outstanding state) 1;
      retained' ← usize_add (retained_bytes state) bytes;
      counted outstanding' retained';;
      mret bytes.

Definition reserve_replay (costs : list usize)
  : M PublishBudgetSnapshot SessionRestoreError (list usize) :=
  state ← mget;
  let bytes := add_lens 0 costs in
  slots ← usize_sub (max_outstanding (limits state)) (outstanding state);
  if slots <? blen costs then mfail PublishBudgetExceeded
  else
    match bytes with
    | None => mfail PublishBudgetExceeded
    | Some bytes =>
        room ← usize_sub (max_bytes (limits state)) (retained_bytes state);
        if room <? bytes then mfail PublishBudgetExceeded
        else
          outstanding' ← usize_add (outstanding state) (blen costs);
          retained' ← usize_add (retained_bytes state) bytes;
          counted outstanding' retained';;
          mret costs
    end.

(** [Drop for PublishReservation], without the notification that follows it. *)
Definition reservation_drop {E} (bytes : usize) : M PublishBudgetSnapshot E unit :=
  state ← mget;
  outstanding' ← usize_sub (outstanding state) 1;
  retained' ← usize_sub (retained_bytes state) bytes;
  counted outstanding' retained'.

(** ** Charges *)

Definition opt_len (v : option Bytes) : usize := match v with Some v => blen v | None => 0 end.

Section Charges.
  Context (layout : Layout).

Definition data_charge (topic payload : usize) (response_topic correlation_data content_type : option Bytes)
    (user_properties : list (Bytes * Bytes)) (subscription_identifiers : usize) : option usize :=
  match checked_add topic payload with
  | None => None
  | Some bytes =>
      match checked_mul (blen user_properties) (size_of_user_property layout),
            checked_mul subscription_identifiers (size_of_usize layout) with
      | Some pairs_len, Some ids_len =>
          match add_lens bytes [opt_len response_topic; opt_len correlation_data; opt_len content_type;
                                pairs_len; ids_len] with
          | None => None
          | Some bytes => add_lens bytes (concat (map (λ kv, [blen kv.1; blen kv.2]) user_properties))
          end
      | _, _ => None
      end
  end.

Definition publish_charge (publish : Publish) : option usize :=
  let topic := if bool_decide (topic publish = []) then u16_MAX else blen (topic publish) in
  match pub_properties publish with
  | None => checked_add topic (blen (payload publish))
  | Some p =>
      data_charge topic (blen (payload publish)) (response_topic p) (correlation_data p) (content_type p)
        (pub_user_properties p) (blen (subscription_identifiers p))
  end.

Definition replay_charge (request : PersistedRequest) : option (outcome SessionRestoreError usize) :=
  match request with
  | PR_Publish publish =>
      let bytes :=
        match pp_properties publish with
        | None => checked_add (blen (pp_topic publish)) (blen (pp_payload publish))
        | Some p =>
            data_charge (blen (pp_topic publish)) (blen (pp_payload publish)) (ppp_response_topic p)
              (ppp_correlation_data p) (ppp_content_type p) (ppp_user_properties p)
              (blen (ppp_subscription_identifiers p))
        end in
      Some (match bytes with Some bytes => Ok bytes | None => Err PublishBudgetExceeded end)
  | PR_PubRel _ => Some (Ok 0)
  | _ => None
  end.
End Charges.

(** ** What is charged *)

Definition total (l : list Z) : Z := foldr Z.add 0 l.

Lemma total_nonneg l : Forall (λ n, 0 ≤ n) l → 0 ≤ total l.
Proof. induction 1; simpl; lia. Qed.

Lemma total_app l k : total (l ++ k) = total l + total k.
Proof. induction l; simpl; lia. Qed.

Lemma checked_add_spec a b n : checked_add a b = Some n ↔ n = a + b ∧ n ≤ usize_MAX.
Proof. unfold checked_add. destruct (Z.ltb_spec usize_MAX (a + b)); naive_solver lia. Qed.
Lemma checked_mul_spec a b n : checked_mul a b = Some n ↔ n = a * b ∧ n ≤ usize_MAX.
Proof. unfold checked_mul. destruct (Z.ltb_spec usize_MAX (a * b)); naive_solver lia. Qed.

(** The checked sum is the sum unless that exceeds [usize]; a partial overflow cannot be undone
    since lengths are not negative. *)
Lemma add_lens_spec lens bytes n :
  Forall (λ n, 0 ≤ n) lens → bytes ≤ usize_MAX →
  add_lens bytes lens = Some n ↔ n = bytes + total lens ∧ n ≤ usize_MAX.
Proof.
  intros Hl. revert bytes. induction Hl as [|x l Hx Hl IH]; intros bytes Hb; simpl.
  { split; [intros [= <-]; lia|intros [-> _]; f_equal; lia]. }
  pose proof (total_nonneg l Hl). destruct (checked_add bytes x) as [m|] eqn:Hm.
  - apply checked_add_spec in Hm as [-> ?]. rewrite IH by done. split; lia.
  - split; [done|]. intros [-> ?]. assert (checked_add bytes x = Some (bytes + x)) by (apply checked_add_spec; lia).
    congruence.
Qed.

(** The bytes that the properties of a publish retain. *)
Definition properties_bytes (layout : Layout) (response_topic correlation_data content_type : option Bytes)
    (user_properties : list (Bytes * Bytes)) (ids : Z) : Z :=
  opt_len response_topic + opt_len correlation_data + opt_len content_type +
  blen user_properties * size_of_user_property layout + ids * size_of_usize layout +
  total (concat (map (λ kv : Bytes * Bytes, [blen kv.1; blen kv.2]) user_properties)).

Lemma opt_len_nonneg v : 0 ≤ opt_len v.
Proof. destruct v; [apply blen_nonneg|done]. Qed.

Lemma pair_lens_nonneg (l : list (Bytes * Bytes)) :
  Forall (λ n, 0 ≤ n) (concat (map (λ kv, [blen kv.1; blen kv.2]) l)).
Proof. induction l as [|kv l IH]; [constructor|]. cbn. repeat constructor; [apply blen_nonneg..|done]. Qed.

Lemma data_charge_spec layout topic payload rt cd ct ups ids n :
  layout_ok layout → 0 ≤ topic → 0 ≤ payload → 0 ≤ ids →
  data_charge layout topic payload rt cd ct ups ids = Some n ↔
  n = topic + payload + properties_bytes layout rt cd ct ups ids ∧ n ≤ usize_MAX.
Proof.
  intros (_ & _ & _ & _ & Hp & Hu) Ht Hpl Hi. unfold data_charge, properties_bytes.
  pose proof (opt_len_nonneg rt). pose proof (opt_len_nonneg cd). pose proof (opt_len_nonneg ct).
  pose proof (pair_lens_nonneg ups) as Hups. pose proof (total_nonneg _ Hups) as Hn.
  pose proof (blen_nonneg ups). set (L := total _) in *.
  assert (Hm1 : 0 ≤ blen ups * size_of_user_property layout) by nia.
  assert (Hm2 : 0 ≤ ids * size_of_usize layout) by nia.
  set (m1 := blen ups * _) in *. set (m2 := ids * _) in *.
  destruct (checked_add topic payload) as [b|] eqn:Hb.
  2:{ split; [done|]. intros [-> ?]. unfold checked_add in Hb. destruct (Z.ltb_spec usize_MAX (topic + payload)); [lia|done]. }
  apply checked_add_spec in Hb as [-> Hb]. unfold checked_mul. fold m1 m2.
  destruct (Z.ltb_spec usize_MAX m1); [split; [done|lia]|]. destruct (Z.ltb_spec usize_MAX m2); [split; [done|lia]|].
  destruct (add_lens _ _) as [b|] eqn:Ha.
  - apply add_lens_spec in Ha as [-> ?]; [|repeat constructor; lia|lia].
    rewrite add_lens_spec by done. cbn [total foldr] in *. fold L. naive_solver lia.
  - split; [done|]. intros [-> ?].
    assert (Hs : add_lens (topic + payload) [opt_len rt; opt_len cd; opt_len ct; m1; m2] =
      Some (topic + payload + total [opt_len rt; opt_len cd; opt_len ct; m1; m2])); [|congruence].
    apply add_lens_spec; [repeat constructor; lia|lia|]. cbn [total foldr]. lia.
Qed.

Definition publish_bytes (layout : Layout) (topic payload : Z) (properties : option PublishProperties) : Z :=
  topic + payload +
  match properties with
  | None => 0
  | Some p => properties_bytes layout (response_topic p) (correlation_data p) (content_type p)
                (pub_user_properties p) (blen (subscription_identifiers p))
  end.

Lemma publish_charge_spec layout p n :
  layout_ok layout →
  publish_charge layout p = Some n ↔
  n = publish_bytes layout (if bool_decide (topic p = []) then 65535 else blen (topic p))
        (blen (payload p)) (pub_properties p) ∧ n ≤ usize_MAX.
Proof.
  intros Hl. unfold publish_charge, publish_bytes. pose proof (blen_nonneg (topic p)). pose proof (blen_nonneg (payload p)).
  change u16_MAX with 65535. set (t := if bool_decide (topic p = []) then 65535 else blen (topic p)). assert (0 ≤ t) by (unfold t; case_bool_decide; lia).
  destruct (pub_properties p) as [ps|].
  - apply data_charge_spec; try done. apply blen_nonneg.
  - rewrite checked_add_spec. naive_solver lia.
Qed.

Lemma properties_bytes_nonneg layout ps :
  layout_ok layout →
  0 ≤ properties_bytes layout (response_topic ps) (correlation_data ps) (content_type ps)
        (pub_user_properties ps) (blen (subscription_identifiers ps)).
Proof.
  intros (_ & _ & _ & _ & Hp & Hu). unfold properties_bytes.
  pose proof (opt_len_nonneg (response_topic ps)). pose proof (opt_len_nonneg (correlation_data ps)).
  pose proof (opt_len_nonneg (content_type ps)). pose proof (total_nonneg _ (pair_lens_nonneg (pub_user_properties ps))).
  pose proof (blen_nonneg (pub_user_properties ps)). pose proof (blen_nonneg (subscription_identifiers ps)). nia.
Qed.

(** [p] with its topic alias replaced by the topic it stands for. *)
Definition expanded (p : Publish) (t : Bytes) : Publish :=
  {| dup := dup p; pub_qos := pub_qos p; retain := retain p; topic := t; pub_pkid := pub_pkid p;
     payload := payload p; pub_properties := pub_properties p |}.

(** A reservation covers its publish through persistence and replay: the checkpoint entry of a
    publish that was charged, with its topic in place of an alias if it had none, is charged at
    most the same. *)
Lemma replay_charge_covered layout p t persisted n :
  layout_ok layout → publish_charge layout p = Some n →
  blen t ≤ 65535 → topic p = [] ∨ t = topic p → persisted_publish (expanded p t) = Some persisted →
  ∃ m, replay_charge layout (PR_Publish persisted) = Some (Ok m) ∧ 0 ≤ m ≤ n.
Proof.
  intros Hl Hn Ht Htopic. unfold persisted_publish. destruct (_ || _ || _) eqn:Hb; [done|]. intros [= <-].
  apply orb_false_iff in Hb as [_ Hne]. cbn in Hne. apply bool_decide_eq_false in Hne.
  apply publish_charge_spec in Hn as [-> Hn]; [|done].
  pose proof (blen_nonneg t). pose proof (blen_nonneg (payload p)).
  assert (Htt : blen t ≤ if bool_decide (topic p = []) then 65535 else blen (topic p))
    by (case_bool_decide; destruct Htopic as [?|Heq]; [done|done|done|by rewrite Heq]).
  set (t0 := if bool_decide (topic p = []) then 65535 else blen (topic p)) in *. unfold publish_bytes in *.
  destruct (pub_properties p) as [ps|] eqn:Hps; cbn.
  - pose proof (properties_bytes_nonneg layout ps Hl) as Hpb.
    match goal with |- context [data_charge ?l ?a ?b ?c ?d ?e ?f ?g] =>
      assert (Hd : data_charge l a b c d e f g = Some (a + b + properties_bytes l c d e f g))
        by (apply data_charge_spec; [done|done|done|apply blen_nonneg|split; [done|lia]]);
      rewrite Hd
    end. eexists; split; [done|]. lia.
  - match goal with |- context [checked_add ?a ?b] =>
      assert (Hd : checked_add a b = Some (a + b)) by (apply checked_add_spec; split; [done|lia]); rewrite Hd
    end. eexists; split; [done|]. lia.
Qed.

Inductive PublishAdmissionPolicy := EventLoopValidated | RequireNegotiatedCapabilities.

#[global] Instance PublishAdmissionPolicy_eq_dec : EqDecision PublishAdmissionPolicy.
Proof. solve_decision. Defined.

Inductive PublishAdmissionError :=
| RetainUnavailable
| MaximumQos (requested maximum : QoS)
| TopicAliasZero
| TopicAliasMaximum (alias maximum : u16)
| TopicAliasUnmapped (alias : u16).

Record Capabilities := mkCapabilities {
  maximum_qos : QoS;
  retain_available : bool;
  topic_alias_maximum : u16;
}.

Record AdmissionState := mkAdmissionState {
  closed : bool;
  generation : u64;
  capabilities : option Capabilities;
  aliases : gmap Z Bytes;
}.

(** A waiter is the revision it saw. *)
Inductive AdmissionFailure :=
| CapabilitiesUnavailable (waiter : u64)
| Rejected (reason : PublishAdmissionError)
| Budget (reason : PublishBudgetError) (waiter : option u64)
| Closed.

(** The derived order of [QoS]. *)
Definition qos_rank (qos : QoS) : Z :=
  match qos with AtMostOnce => 0 | AtLeastOnce => 1 | ExactlyOnce => 2 end.

Definition publish_alias (publish : Publish) : option u16 := pub_properties publish ≫= topic_alias.

Definition u64_wrap (n : Z) : u64 := n mod 18446744073709551616.

Definition validate_capabilities (state : AdmissionState) (publish : Publish) (alias : option u16)
    (caps : Capabilities) : outcome PublishAdmissionError unit :=
  if retain publish && negb (retain_available caps) then Err RetainUnavailable
  else if qos_rank (maximum_qos caps) <? qos_rank (pub_qos publish)
  then Err (MaximumQos (pub_qos publish) (maximum_qos caps))
  else
    match alias with
    | None => Ok tt
    | Some alias =>
        if alias =? 0 then Err TopicAliasZero
        else if topic_alias_maximum caps <? alias
        then Err (TopicAliasMaximum alias (topic_alias_maximum caps))
        else if bool_decide (topic publish = []) && negb (bool_decide (is_Some (aliases state !! alias)))
        then Err (TopicAliasUnmapped alias)
        else Ok tt
    end.

Definition connack_capabilities (connack : ConnAck) : Capabilities :=
  let properties := connack_properties connack in
  {| maximum_qos := match properties ≫= ca_max_qos with
                    | Some 0 => AtMostOnce
                    | Some 1 => AtLeastOnce
                    | _ => ExactlyOnce
                    end;
     retain_available := match properties ≫= ca_retain_available with
                         | None => true
                         | Some available => available =? 1
                         end;
     topic_alias_maximum := match properties ≫= ca_topic_alias_max with Some n => n | None => 0 end |}.

Definition install_connack (connack : ConnAck) (state : AdmissionState) : AdmissionState :=
  {| closed := closed state;
     generation := u64_wrap (generation state + 1);
     capabilities := Some (connack_capabilities connack);
     aliases := ∅ |}.

Definition insert_alias (alias : u16) (topic : Bytes) (state : AdmissionState) : AdmissionState :=
  {| closed := closed state; generation := generation state; capabilities := capabilities state;
     aliases := <[alias := topic]> (aliases state) |}.

Definition record_outgoing_topic_alias (publish : Publish) (state : AdmissionState) : AdmissionState :=
  match publish_alias publish with
  | None => state
  | Some alias =>
      if bool_decide (topic publish = []) then state
      else
        match capabilities state with
        | None => state
        | Some caps =>
            if (alias =? 0) || (topic_alias_maximum caps <? alias) then state
            else insert_alias alias (topic publish) state
        end
  end.

(** [Drop for ConnectionCleanupGuard]. *)
Definition cleanup_state (state : AdmissionState) : AdmissionState :=
  {| closed := closed state; generation := generation state; capabilities := None; aliases := ∅ |}.

Definition closed_state (state : AdmissionState) : AdmissionState :=
  {| closed := true; generation := generation state; capabilities := capabilities state;
     aliases := aliases state |}.

(** ** The shared object

    The request channel holds each publish with its reservation.  [sh_capacity] is at least one:
    the rendezvous channel is not modelled. *)

Record Shared := mkShared {
  sh_state : AdmissionState;
  sh_policy : PublishAdmissionPolicy;
  sh_budget : option PublishBudgetSnapshot;
  sh_revision : u64;
  sh_queue : list (Publish * option usize);
  sh_capacity : nat;
  sh_connected : bool;
}.

Definition with_state (state : AdmissionState) (s : Shared) : Shared :=
  {| sh_state := state; sh_policy := sh_policy s; sh_budget := sh_budget s; sh_revision := sh_revision s;
     sh_queue := sh_queue s; sh_capacity := sh_capacity s; sh_connected := sh_connected s |}.
Definition with_budget (budget : option PublishBudgetSnapshot) (s : Shared) : Shared :=
  {| sh_state := sh_state s; sh_policy := sh_policy s; sh_budget := budget; sh_revision := sh_revision s;
     sh_queue := sh_queue s; sh_capacity := sh_capacity s; sh_connected := sh_connected s |}.
Definition with_queue (queue : list (Publish * option usize)) (s : Shared) : Shared :=
  {| sh_state := sh_state s; sh_policy := sh_policy s; sh_budget := sh_budget s; sh_revision := sh_revision s;
     sh_queue := queue; sh_capacity := sh_capacity s; sh_connected := sh_connected s |}.

(** [ManagedPublishAdmission::configured]. *)
Definition configured (policy : PublishAdmissionPolicy) (limits : option PublishBudgetLimits)
    (recovery : bool) (capacity : nat) : Shared :=
  {| sh_state := {| closed := false; generation := 0; capabilities := None; aliases := ∅ |};
     sh_policy := policy;
     sh_budget := (λ limits, PublishBudget_new limits recovery) <$> limits;
     sh_revision := 0; sh_queue := []; sh_capacity := capacity; sh_connected := true |}.

Definition requires_negotiated_capabilities (s : Shared) : bool :=
  match sh_policy s with RequireNegotiatedCapabilities => true | EventLoopValidated => false end.

(** [PublishProgress::notify]. *)
Definition notify (s : Shared) : Shared :=
  {| sh_state := sh_state s; sh_policy := sh_policy s; sh_budget := sh_budget s;
     sh_revision := u64_wrap (sh_revision s + 1);
     sh_queue := sh_queue s; sh_capacity := sh_capacity s; sh_connected := sh_connected s |}.

(** The condition on which [wait_async] and [wait_blocking] return. *)
Definition wait_over (waiter : u64) (s : Shared) : bool := negb (sh_revision s =? waiter).

Abbreviation AM := (M Shared AdmissionFailure).

Definition waiter {E} : M Shared E u64 := s ← mget; mret (sh_revision s).

(** ** The stages of [try_admit_reserved] *)

Section Stages.
  Context (layout : Layout).

(** [self.budget.as_ref().map(|_| self.waiter())]. *)
Definition arm : AM (option u64) :=
  s ← mget; mret (match sh_budget s with Some _ => Some (sh_revision s) | None => None end).

Definition check_charge (publish : Publish) : AM (option usize) :=
  s ← mget;
  match sh_budget s with
  | None => mret None
  | Some budget =>
      match check_size budget (publish_charge layout publish) with
      | Ok bytes => mret (Some bytes)
      | Err reason => mfail (Budget reason None)
      | Panic => mpanic
      end
  end.

Definition closed_gate : AM unit :=
  s ← mget; if closed (sh_state s) : bool then mfail Closed else mret tt.

Definition recovery_gate (progress : option u64) : AM unit :=
  s ← mget;
  match sh_budget s with
  | Some budget =>
      if recovery_pending budget : bool
      then match progress with
           | Some progress => mfail (Budget RecoveryPending (Some progress))
           | None => mpanic
           end
      else mret tt
  | None => mret tt
  end.

Definition depends_on_capabilities (publish : Publish) : bool :=
  negb (bool_decide (pub_qos publish = AtMostOnce)) || retain publish
  || bool_decide (is_Some (publish_alias publish)).

(** Whether the publish was validated against the capabilities of the connection. *)
Definition capability_gate (publish : Publish) : AM bool :=
  s ← mget;
  if bool_decide (sh_policy s = EventLoopValidated) then mret false
  else
    match capabilities (sh_state s) with
    | None =>
        if depends_on_capabilities publish
        then revision ← waiter; mfail (CapabilitiesUnavailable revision)
        else mret false
    | Some caps =>
        match validate_capabilities (sh_state s) publish (publish_alias publish) caps with
        | Ok _ => mret true
        | Err reason => mfail (Rejected reason)
        | Panic => mpanic
        end
    end.

(** The closure [reserve]. *)
Definition reserve_budget (progress : option u64) (bytes : option usize) : AM (option usize) :=
  s ← mget;
  match sh_budget s with
  | None => mret None
  | Some budget =>
      match bytes with
      | None => mpanic
      | Some bytes =>
          match reserve bytes budget with
          | (Ok reservation, budget) => mput (with_budget (Some budget) s);; mret (Some reservation)
          | (Err reason, _) =>
              if can_wait reason
              then match progress with
                   | Some progress => mfail (Budget reason (Some progress))
                   | None => mpanic
                   end
              else mfail (Budget reason None)
          | (Panic, _) => mpanic
          end
      end
  end.

Definition commit_alias (publish : Publish) : AM unit :=
  match publish_alias publish with
  | Some alias =>
      if bool_decide (topic publish = []) then mret tt
      else mmodify (λ s, with_state (insert_alias alias (topic publish) (sh_state s)) s)
  | None => mret tt
  end.

(** [Result<Result<T, E>, AdmissionFailure>]: [send]'s own result is a sum. *)
Definition sum_is_ok {T E} (r : T + E) : bool := match r with inl _ => true | inr _ => false end.

Definition try_admit_reserved {T E} (publish : Publish) (send : option usize → AM (T + E))
  : AM (T + E) :=
  progress ← arm;
  bytes ← check_charge publish;
  closed_gate;;
  recovery_gate progress;;
  negotiated ← capability_gate publish;
  reservation ← reserve_budget progress bytes;
  result ← send reservation;
  (if (negotiated : bool) && sum_is_ok result then commit_alias publish else mret tt);;
  mret result.
End Stages.

(** ** The send closure of the client: [try_send] into the request channel, which gives the
    reservation back without a notification when it fails ([into_request]). *)

Inductive TrySendError := Full | Disconnected.

(** [PublishReservation::rollback], and the drop of a reservation. *)
Definition release {E} (reservation : option usize) : M Shared E unit :=
  s ← mget;
  match reservation, sh_budget s with
  | Some bytes, Some budget =>
      match reservation_drop (E:=E) bytes budget with
      | (Ok _, budget) => mput (with_budget (Some budget) s)
      | (_, _) => mpanic
      end
  | _, _ => mret tt
  end.

Definition try_send (publish : Publish) (reservation : option usize)
  : AM (unit + TrySendError) :=
  s ← mget;
  if negb (sh_connected s) then release reservation;; mret (inr Disconnected)
  else if (sh_capacity s <=? length (sh_queue s))%nat then release reservation;; mret (inr Full)
  else mput (with_queue (sh_queue s ++ [(publish, reservation)]) s);; mret (inl tt).

(** [try_send_managed_publish]. *)
Definition try_send_managed_publish (layout : Layout) (publish : Publish)
  : AM (unit + TrySendError) :=
  try_admit_reserved layout publish (try_send publish).

(** ** The event loop's operations *)

(** [recovery_pending], [begin_recovery] without the notification that follows. *)
Definition set_recovery (pending : bool) (s : Shared) : Shared :=
  with_budget (set_recovery_pending pending <$> sh_budget s) s.

(** The receiver is gone; what was queued has been drained. *)
Definition disconnect (s : Shared) : Shared :=
  {| sh_state := sh_state s; sh_policy := sh_policy s; sh_budget := sh_budget s;
     sh_revision := sh_revision s; sh_queue := sh_queue s; sh_capacity := sh_capacity s;
     sh_connected := false |}.
