(* ===== verification/V5AdmissionSystem.v ===== *)
(** Producers and the event loop of the MQTT 5 client share the publish admission object.  Every
    access between two lock operations is one step; the admission mutex is [lock], the budget's and
    the progress counter's mutexes protect single steps.

    [owed] counts notifications that an operation has promised by its state change and not yet
    delivered.  [notices], [fenced] and [silent] are ghosts: the number of notifications so far, of
    which the revision is the value modulo [2^64]; whether recovery was begun with no producer inside
    the critical section; and whether the request channel was emptied without a notification since
    the last one. *)

From S2P Require Import Prelude.
From S2P Require Import Utf8.
From S2P Require Import Primitives.
From S2P Require Import FixedBitSet.
From S2P Require Import V5Properties.
From S2P Require Import V5Publish.
From S2P Require Import V5ConnAck.
From S2P Require Import SessionIO.
From S2P Require Import V5SessionFormat.
From S2P Require Import V5Persist.
From S2P Require Import V5Admission.
#[local] Open Scope Z_scope.

(** ** The system *)

(** A waiter, with the number of notifications when it was taken. *)
Record Waiter := mkWaiter { w_revision : u64; w_seen : Z }.

(** What an attempt returned. *)
Inductive Attempt :=
| Sent
| SendFailed (error : TrySendError)
| Refused (failure : AdmissionFailure) (waiter : option Waiter).

(** Where a producer is in [send_publish_async] for a publish: [P_Begin] before it takes the waiter
    [progress], [P_Armed] before [try_admit_reserved], then between its stages. *)
Inductive Pc :=
| P_Begin
| P_Armed
| P_Checking (progress : option Waiter)
| P_Locking (progress : option Waiter) (bytes : option usize)
| P_Entered (progress : option Waiter) (bytes : option usize)
| P_Recovered (progress : option Waiter) (bytes : option usize)
| P_Validated (progress : option Waiter) (bytes : option usize) (negotiated : bool)
| P_Reserved (negotiated : bool) (reservation : option usize)
| P_Returned (result : Attempt).

Record Producer := mkProducer { pr_publish : Publish; pr_progress : option Waiter; pr_pc : Pc }.

Inductive Owner := OwnerProducer (i : nat) | OwnerLoop.

#[global] Instance Owner_eq_dec : EqDecision Owner.
Proof. solve_decision. Defined.

Record System := mkSystem {
  shared : Shared;
  lock : option Owner;
  producers : gmap nat Producer;
  held : list usize;
  owed : nat;
  notices : Z;
  fenced : bool;
  silent : bool;
}.

Inductive Action :=
| A_Start (i : nat) (publish : Publish)
| A_Run (i : nat)
| A_Wake (i : nat)
| A_InstallConnack (connack : ConnAck)
| A_RecordAlias (publish : Publish)
| A_BeginRecovery
| A_RecoveryPending (pending : bool)
| A_BeginCleanup
| A_EndCleanup
| A_Drain
| A_DrainSilently
| A_Recv
| A_ReserveReplay (costs : list usize)
| A_Release (n : nat)
| A_Close
| A_Disconnect
| A_Progress
| A_Notify.

Definition set_shared (sh : Shared) (s : System) : System :=
  {| shared := sh; lock := lock s; producers := producers s; held := held s; owed := owed s;
     notices := notices s; fenced := fenced s; silent := silent s |}.
Definition set_lock (l : option Owner) (s : System) : System :=
  {| shared := shared s; lock := l; producers := producers s; held := held s; owed := owed s;
     notices := notices s; fenced := fenced s; silent := silent s |}.
Definition set_producer (i : nat) (p : Producer) (s : System) : System :=
  {| shared := shared s; lock := lock s; producers := <[i := p]> (producers s); held := held s;
     owed := owed s; notices := notices s; fenced := fenced s; silent := silent s |}.
Definition set_held (l : list usize) (s : System) : System :=
  {| shared := shared s; lock := lock s; producers := producers s; held := l; owed := owed s;
     notices := notices s; fenced := fenced s; silent := silent s |}.
Definition set_fenced (b : bool) (s : System) : System :=
  {| shared := shared s; lock := lock s; producers := producers s; held := held s; owed := owed s;
     notices := notices s; fenced := b; silent := silent s |}.
Definition owe (s : System) : System :=
  {| shared := shared s; lock := lock s; producers := producers s; held := held s;
     owed := S (owed s); notices := notices s; fenced := fenced s; silent := silent s |}.
Definition deliver (owed' : nat) (s : System) : System :=
  {| shared := notify (shared s); lock := lock s; producers := producers s; held := held s;
     owed := owed'; notices := notices s + 1; fenced := fenced s; silent := false |}.

Definition set_silent (s : System) : System :=
  {| shared := shared s; lock := lock s; producers := producers s; held := held s; owed := owed s;
     notices := notices s; fenced := fenced s; silent := true |}.

Definition take_waiter (s : System) : Waiter :=
  {| w_revision := sh_revision (shared s); w_seen := notices s |}.

Definition reservations_of (q : list (Publish * option usize)) : list usize := omap snd q.

(** The waiter that a failure carries, as the producer's ghost knows it. *)
Definition failure_waiter (progress : option Waiter) (now : Waiter) (f : AdmissionFailure)
  : option Waiter :=
  match f with
  | CapabilitiesUnavailable _ => Some now
  | Budget _ (Some _) => progress
  | _ => None
  end.

Definition can_lock (s : System) : bool := bool_decide (lock s = None).

Abbreviation Result := (option (outcome Empty_set System)).
Definition done (s : System) : Result := Some (Ok s).

(** The next stage of producer [i]; a panic of a stage is a panic of the system. *)
Section Run.
  Context (layout : Layout).

Definition stage {A} (m : AM A) (i : nat) (p : Producer) (progress : option Waiter) (unlock : bool)
    (next : A → Pc) (s : System) : Result :=
  match m (shared s) with
  | (Ok a, sh) => done (set_producer i (mkProducer (pr_publish p) (pr_progress p) (next a)) (set_shared sh s))
  | (Err f, sh) =>
      let result := P_Returned (Refused f (failure_waiter progress (take_waiter s) f)) in
      let s := set_producer i (mkProducer (pr_publish p) (pr_progress p) result) (set_shared sh s) in
      done (if unlock then set_lock None s else s)
  | (Panic, _) => Some Panic
  end.

(** [send], the binding of the alias and the end of the critical section. *)
Definition send_and_commit (publish : Publish) (negotiated : bool) (reservation : option usize)
  : AM (unit + TrySendError) :=
  result ← try_send publish reservation;
  (if negotiated && sum_is_ok result then commit_alias publish else mret tt);;
  mret result.

Definition attempt_of (r : unit + TrySendError) : Attempt :=
  match r with inl _ => Sent | inr e => SendFailed e end.

Definition run_producer (i : nat) (p : Producer) (s : System) : Result :=
  let publish := pr_publish p in
  match pr_pc p with
  | P_Begin => done (set_producer i (mkProducer publish (Some (take_waiter s)) P_Armed) s)
  | P_Armed =>
      stage arm i p None false
        (λ progress, P_Checking (match progress with Some _ => Some (take_waiter s) | None => None end)) s
  | P_Checking progress => stage (check_charge layout publish) i p progress false (P_Locking progress) s
  | P_Locking progress bytes =>
      if can_lock s
      then stage closed_gate i p progress true (λ _, P_Entered progress bytes)
             (set_lock (Some (OwnerProducer i)) s)
      else None
  | P_Entered progress bytes =>
      stage (recovery_gate (w_revision <$> progress)) i p progress true (λ _, P_Recovered progress bytes) s
  | P_Recovered progress bytes =>
      stage (capability_gate publish) i p progress true (P_Validated progress bytes) s
  | P_Validated progress bytes negotiated =>
      stage (reserve_budget (w_revision <$> progress) bytes) i p progress true (P_Reserved negotiated) s
  | P_Reserved negotiated reservation =>
      match stage (send_and_commit publish negotiated reservation) i p None true
              (λ r, P_Returned (attempt_of r)) s with
      | Some (Ok s) => done (set_lock None s)
      | r => r
      end
  | P_Returned _ => None
  end.

(** The waiter on which [send_publish_async] suspends: the one of the refusal, or [progress] when
    the channel was full. *)
Definition waits_on (p : Producer) : option Waiter :=
  match pr_pc p with
  | P_Returned (SendFailed Full) => pr_progress p
  | P_Returned (Refused _ waiter) => waiter
  | _ => None
  end.

(** One step.  [A_Drain] is the drain inside the cleanup or after closing; [A_DrainSilently] is the
    one of [discard_pending_manual_acknowledgements] and
    [prepare_pending_topic_aliases_for_reconnect], which is not announced. *)
Definition sys_exec (a : Action) (s : System) : Result :=
  let sh := shared s in
  match a with
  | A_Start i publish =>
      match producers s !! i with
      | Some p =>
          match pr_pc p with
          | P_Returned _ => done (set_producer i (mkProducer publish None P_Begin) s)
          | _ => None
          end
      | None => done (set_producer i (mkProducer publish None P_Begin) s)
      end
  | A_Run i => match producers s !! i with Some p => run_producer i p s | None => None end
  | A_Wake i =>
      match producers s !! i with
      | Some p =>
          match waits_on p with
          | Some w => if wait_over (w_revision w) sh
                      then done (set_producer i (mkProducer (pr_publish p) None P_Begin) s) else None
          | None => None
          end
      | None => None
      end
  | A_InstallConnack connack =>
      if can_lock s then done (owe (set_shared (with_state (install_connack connack (sh_state sh)) sh) s))
      else None
  | A_RecordAlias publish =>
      if can_lock s
      then done (set_shared (with_state (record_outgoing_topic_alias publish (sh_state sh)) sh) s)
      else None
  | A_BeginRecovery =>
      if can_lock s then done (owe (set_fenced true (set_shared (set_recovery true sh) s))) else None
  | A_RecoveryPending pending =>
      let fenced' := pending && (fenced s || bool_decide (lock s = Some OwnerLoop)) in
      done (owe (set_fenced fenced' (set_shared (set_recovery pending sh) s)))
  | A_BeginCleanup =>
      if can_lock s
      then
        let fenced' := match sh_budget sh with Some b => recovery_pending b | None => fenced s end in
        done (set_fenced fenced' (set_lock (Some OwnerLoop) s))
      else None
  | A_EndCleanup =>
      if bool_decide (lock s = Some OwnerLoop)
      then done (owe (set_lock None (set_shared (with_state (cleanup_state (sh_state sh)) sh) s)))
      else None
  | A_Drain =>
      if bool_decide (lock s = Some OwnerLoop) || closed (sh_state sh)
      then done (set_held (held s ++ reservations_of (sh_queue sh)) (set_shared (with_queue [] sh) s))
      else None
  | A_DrainSilently =>
      done (set_silent (set_held (held s ++ reservations_of (sh_queue sh)) (set_shared (with_queue [] sh) s)))
  | A_Recv =>
      match sh_queue sh with
      | e :: queue =>
          done (owe (set_held (held s ++ reservations_of [e]) (set_shared (with_queue queue sh) s)))
      | [] => None
      end
  | A_ReserveReplay costs =>
      match sh_budget sh with
      | None => None
      | Some b =>
          match reserve_replay costs b with
          | (Ok l, b) => done (set_held (held s ++ l) (set_shared (with_budget (Some b) sh) s))
          | (Err _, b) => done (set_shared (with_budget (Some b) sh) s)
          | (Panic, _) => Some Panic
          end
      end
  | A_Release n =>
      match held s !! n with
      | None => None
      | Some bytes =>
          match release (E:=AdmissionFailure) (Some bytes) sh with
          | (Ok _, sh) => done (owe (set_held (delete n (held s)) (set_shared sh s)))
          | _ => Some Panic
          end
      end
  | A_Close =>
      if can_lock s
      then if closed (sh_state sh) then done s
           else done (owe (set_shared (with_state (closed_state (sh_state sh)) sh) s))
      else None
  | A_Disconnect => if closed (sh_state sh) then done (set_shared (disconnect sh) s) else None
  | A_Progress => done (deliver (owed s) s)
  | A_Notify => match owed s with S n => done (deliver n s) | O => None end
  end.

Definition sys_init (policy : PublishAdmissionPolicy) (limits : option PublishBudgetLimits)
    (recovery : bool) (capacity : nat) : System :=
  {| shared := configured policy limits recovery capacity; lock := None; producers := ∅; held := [];
     owed := 0; notices := 0; fenced := false; silent := false |}.

Definition limits_ok (limits : PublishBudgetLimits) : Prop :=
  0 ≤ max_outstanding limits ≤ usize_MAX ∧ 0 ≤ max_bytes limits ≤ usize_MAX.

Definition action_ok (a : Action) : Prop :=
  match a with A_ReserveReplay costs => Forall (λ n, 0 ≤ n) costs ∧ blen costs ≤ usize_MAX | _ => True end.

Inductive reachable : System → Prop :=
| reach_init policy limits recovery capacity :
    (∀ l, limits = Some l → limits_ok l) → reachable (sys_init policy limits recovery capacity)
| reach_step s a s' :
    reachable s → action_ok a → sys_exec a s = Some (Ok s') → reachable s'.
End Run.
