(* ===== verification/V5AdmissionSafety.v ===== *)
(** Invariants of the publish admission system: mutual exclusion, the accounting of the budget, what
    a producer inside the critical section knows, and that nobody waits for something that has
    already happened. *)

From S2P Require Import Prelude.
From S2P Require Import Utf8.
From S2P Require Import Primitives.
From S2P Require Import FixedBitSet.
From S2P Require Import V5Properties.
From S2P Require Import V5Publish.
From S2P Require Import V5ConnAck.
From S2P Require Import SessionIO.
From S2P Require Import V5SessionFormat.
From S2P Require Import V5Persist.
From S2P Require Import V5Admission.
From S2P Require Import V5AdmissionSystem.
#[local] Open Scope Z_scope.

(** ** The budget alone *)

Lemma publish_bytes_nonneg layout t n p :
  layout_ok layout → 0 ≤ t → 0 ≤ n → 0 ≤ publish_bytes layout t n p.
Proof.
  intros Hl Ht Hn. unfold publish_bytes. destruct p as [ps|]; [|lia]. pose proof (properties_bytes_nonneg layout ps Hl). lia.
Qed.

(** [l] lists the reservations that exist. *)
Definition budget_ok (budget : option PublishBudgetSnapshot) (l : list usize) : Prop :=
  match budget with
  | None => l = []
  | Some b =>
      limits_ok (limits b) ∧ Forall (λ n, 0 ≤ n) l ∧
      outstanding b = blen l ∧ retained_bytes b = total l ∧
      outstanding b ≤ max_outstanding (limits b) ∧ retained_bytes b ≤ max_bytes (limits b)
  end.

Lemma total_Permutation l k : l ≡ₚ k → total l = total k.
Proof. induction 1; simpl; lia. Qed.

Lemma budget_ok_perm budget l k : l ≡ₚ k → budget_ok budget l → budget_ok budget k.
Proof.
  intros Hp. destruct budget as [b|]; cbn.
  - intros (Hl & Hf & Ho & Hr & Hm & Hb). assert (blen l = blen k) by (unfold blen; by rewrite Hp).
    pose proof (total_Permutation _ _ Hp). split_and!; try done; [by rewrite <- Hp|congruence|congruence].
  - intros ->. symmetry in Hp. by apply Permutation_nil_r in Hp.
Qed.

Lemma reserve_spec n b l :
  budget_ok (Some b) l → 0 ≤ n ≤ max_bytes (limits b) →
  match reserve n b with
  | (Ok r, b') => r = n ∧ budget_ok (Some b') (n :: l) ∧ limits b' = limits b ∧
                  recovery_pending b = false ∧ recovery_pending b' = false
  | (Err reason, b') => b' = b ∧
      match reason with
      | RecoveryPending => recovery_pending b = true
      | CountExhausted => max_outstanding (limits b) ≤ blen l
      | BytesExhausted => max_bytes (limits b) - total l < n
      | TooLarge => False
      end
  | (Panic, _) => False
  end.
Proof.
  intros ([[Hm1 Hm2] [Hb1 Hb2]] & Hf & Ho & Hr & Hmo & Hmb) Hn. unfold reserve. rewrite bind_run. cbn [mget].
  destruct (recovery_pending b) eqn:Hp; [by split|].
  destruct (Z.leb_spec (max_outstanding (limits b)) (outstanding b)); [split; [done|lia]|].
  rewrite bind_run. unfold usize_sub. rewrite (proj2 (Z.ltb_ge _ _)) by lia. cbn [mret M_ret].
  destruct (Z.ltb_spec (max_bytes (limits b) - retained_bytes b) n); [split; [done|lia]|].
  rewrite bind_run. unfold usize_add. rewrite (proj2 (Z.ltb_ge _ _)) by lia. cbn [mret M_ret].
  rewrite bind_run. rewrite (proj2 (Z.ltb_ge _ _)) by lia. cbn.
  unfold total, limits_ok in *. rewrite blen_cons. split_and!; cbn [outstanding retained_bytes limits recovery_pending];
    first [done|lia|constructor; [lia|done]].
Qed.

Lemma reservation_drop_spec {E} n b l :
  budget_ok (Some b) (n :: l) →
  ∃ b', reservation_drop (E:=E) n b = (Ok tt, b') ∧ budget_ok (Some b') l ∧ limits b' = limits b ∧
        recovery_pending b' = recovery_pending b.
Proof.
  intros (Hlim & Hf & Ho & Hr & Hmo & Hmb). apply Forall_cons in Hf as [Hn Hf].
  pose proof (total_nonneg l Hf). pose proof (blen_nonneg l). rewrite blen_cons in Ho. change (total (n :: l)) with (n + total l) in Hr.
  unfold reservation_drop. rewrite bind_run. cbn [mget]. rewrite bind_run. unfold usize_sub.
  rewrite (proj2 (Z.ltb_ge _ _)) by lia. cbn [mret M_ret]. rewrite bind_run.
  rewrite (proj2 (Z.ltb_ge _ _)) by lia. cbn [mret M_ret]. eexists. split; [done|].
  unfold budget_ok. split_and!; cbn [outstanding retained_bytes limits recovery_pending]; done || lia.
Qed.

(** Replayed work is accepted as a whole, exactly when it fits beside what is reserved. *)
Lemma reserve_replay_spec costs b l :
  budget_ok (Some b) l → Forall (λ n, 0 ≤ n) costs → blen costs ≤ usize_MAX →
  match reserve_replay costs b with
  | (Ok r, b') => r = costs ∧ budget_ok (Some b') (costs ++ l) ∧ limits b' = limits b ∧
                  recovery_pending b' = recovery_pending b
  | (Err e, b') => b' = b ∧ e = PublishBudgetExceeded ∧
      (max_outstanding (limits b) < blen l + blen costs ∨ max_bytes (limits b) < total l + total costs)
  | (Panic, _) => False
  end.
Proof.
  intros ([[Hm1 Hm2] [Hb1 Hb2]] & Hf & Ho & Hr & Hmo & Hmb) Hc Hlen. unfold reserve_replay.
  rewrite bind_run. cbn [mget]. rewrite bind_run. unfold usize_sub at 1.
  rewrite (proj2 (Z.ltb_ge _ _)) by lia. cbn [mret M_ret].
  pose proof (total_nonneg costs Hc). pose proof (total_nonneg l Hf).
  pose proof (blen_nonneg costs). pose proof (blen_nonneg l).
  destruct (Z.ltb_spec (max_outstanding (limits b) - outstanding b) (blen costs));
    [split_and!; [done|done|lia]|].
  destruct (add_lens 0 costs) as [n|] eqn:Hs.
  - apply add_lens_spec in Hs as [-> Hs]; [|done|by vm_compute]. rewrite bind_run. unfold usize_sub.
    rewrite (proj2 (Z.ltb_ge _ _)) by lia. cbn [mret M_ret].
    destruct (Z.ltb_spec (max_bytes (limits b) - retained_bytes b) (0 + total costs));
      [split_and!; [done|done|lia]|].
    rewrite bind_run. unfold usize_add at 1. rewrite (proj2 (Z.ltb_ge _ _)) by lia. cbn [mret M_ret].
    rewrite bind_run. unfold usize_add. rewrite (proj2 (Z.ltb_ge _ _)) by lia. cbn [mret M_ret].
    rewrite bind_run. unfold counted, mmodify, mret, M_ret, budget_ok, limits_ok.
    rewrite blen_app, total_app, Forall_app.
    split_and!; cbn [outstanding retained_bytes limits recovery_pending]; done || lia.
  - split_and!; [done|done|]. right.
    assert (¬ total costs ≤ usize_MAX); [|lia]. intros Hle.
    assert (Hx : add_lens 0 costs = Some (0 + total costs)); [|congruence].
    apply add_lens_spec; [done|by vm_compute|split; [done|lia]].
Qed.

Lemma validate_capabilities_panic state p alias caps : validate_capabilities state p alias caps ≠ Panic.
Proof. unfold validate_capabilities. repeat case_match; done. Qed.

(** ** What holds at every point *)

Section Safety.
  Context (layout : Layout) (Hlayout : layout_ok layout).

Definition is_locked (pc : Pc) : bool :=
  match pc with P_Entered _ _ | P_Recovered _ _ | P_Validated _ _ _ | P_Reserved _ _ => true | _ => false end.

(** Reservations that have been sent, and the one a producer may hold inside its critical
    section. *)
Definition committed (s : System) : list usize := reservations_of (sh_queue (shared s)) ++ held s.
Definition reserved_of (pc : Pc) : list usize :=
  match pc with P_Reserved _ (Some n) => [n] | _ => [] end.
Definition transient (s : System) : list usize :=
  match lock s with
  | Some (OwnerProducer i) =>
      match producers s !! i with Some p => reserved_of (pr_pc p) | None => [] end
  | _ => []
  end.

Definition waiter_ok (n : Z) (w : Waiter) : Prop :=
  0 ≤ w_seen w ≤ n ∧ w_revision w = u64_wrap (w_seen w).

(** Every state change is announced, and the event loop is not in its cleanup. *)
Definition quiet (s : System) : Prop := owed s = O ∧ lock s ≠ Some OwnerLoop.

(** Trying again would end the same way. *)
Definition blocked (s : System) (publish : Publish) (r : Attempt) : Prop :=
  closed (sh_state (shared s)) = false ∧
  match r with
  | SendFailed Full => (sh_capacity (shared s) ≤ length (sh_queue (shared s)))%nat
  | Refused (CapabilitiesUnavailable _) _ =>
      sh_policy (shared s) = RequireNegotiatedCapabilities ∧ capabilities (sh_state (shared s)) = None ∧
      depends_on_capabilities publish = true
  | Refused (Budget reason (Some _)) _ =>
      ∃ b, sh_budget (shared s) = Some b ∧
        match reason with
        | RecoveryPending => recovery_pending b = true
        | CountExhausted => max_outstanding (limits b) ≤ blen (committed s)
        | BytesExhausted =>
            ∃ n, publish_charge layout publish = Some n ∧ max_bytes (limits b) - total (committed s) < n
        | TooLarge => False
        end
  | _ => False
  end.

(** The same, or room in the channel that was made without a notification. *)
Definition held_back (s : System) (publish : Publish) (r : Attempt) : Prop :=
  blocked s publish r ∨ (closed (sh_state (shared s)) = false ∧ r = SendFailed Full ∧ silent s = true).

Lemma held_back_ext s s' publish r :
  closed (sh_state (shared s')) = closed (sh_state (shared s)) → (silent s = true → silent s' = true) →
  (blocked s publish r → blocked s' publish r) → held_back s publish r → held_back s' publish r.
Proof. intros Hc Hs Hb [H|(H1 & -> & H3)]; [left; by apply Hb|right; rewrite Hc; auto]. Qed.

(** What the admission checks have established. *)
Definition negotiated_ok (sh : Shared) (publish : Publish) (negotiated : bool) : Prop :=
  if negotiated then
    sh_policy sh = RequireNegotiatedCapabilities ∧
    ∃ caps, capabilities (sh_state sh) = Some caps ∧
            validate_capabilities (sh_state sh) publish (publish_alias publish) caps = Ok tt
  else
    sh_policy sh = EventLoopValidated ∨
    (capabilities (sh_state sh) = None ∧ depends_on_capabilities publish = false).

Definition progress_ok (s : System) (progress : option Waiter) : Prop :=
  (is_Some progress ↔ is_Some (sh_budget (shared s))) ∧
  ∀ w, progress = Some w → waiter_ok (notices s) w.

Definition bytes_ok (s : System) (publish : Publish) (bytes : option usize) : Prop :=
  match sh_budget (shared s), bytes with
  | None, None => True
  | Some b, Some n => publish_charge layout publish = Some n ∧ 0 ≤ n ≤ max_bytes (limits b)
  | _, _ => False
  end.

(** The revision inside a failure is that of the waiter. *)
Definition failure_revision (f : AdmissionFailure) : option u64 :=
  match f with CapabilitiesUnavailable w => Some w | Budget _ w => w | _ => None end.

Definition pc_ok (s : System) (p : Producer) : Prop :=
  (∀ w, pr_progress p = Some w → waiter_ok (notices s) w) ∧
  match pr_pc p with
  | P_Begin => True
  | P_Armed => is_Some (pr_progress p)
  | P_Checking progress => is_Some (pr_progress p) ∧ progress_ok s progress
  | P_Locking progress bytes | P_Entered progress bytes | P_Recovered progress bytes =>
      is_Some (pr_progress p) ∧ progress_ok s progress ∧ bytes_ok s (pr_publish p) bytes
  | P_Validated progress bytes negotiated =>
      is_Some (pr_progress p) ∧ progress_ok s progress ∧ bytes_ok s (pr_publish p) bytes ∧
      negotiated_ok (shared s) (pr_publish p) negotiated
  | P_Reserved negotiated reservation =>
      is_Some (pr_progress p) ∧ (is_Some reservation ↔ is_Some (sh_budget (shared s))) ∧
      negotiated_ok (shared s) (pr_publish p) negotiated
  | P_Returned r =>
      (r = SendFailed Full → is_Some (pr_progress p)) ∧
      (∀ f w, r = Refused f w → failure_revision f = w_revision <$> w) ∧
      ∀ w, waits_on p = Some w → waiter_ok (notices s) w ∧
        (quiet s → w_seen w = notices s → held_back s (pr_publish p) r)
  end.

Record Inv (s : System) : Prop := {
  inv_locked i p : producers s !! i = Some p → is_locked (pr_pc p) = true →
    lock s = Some (OwnerProducer i);
  inv_owner i : lock s = Some (OwnerProducer i) →
    ∃ p, producers s !! i = Some p ∧ is_locked (pr_pc p) = true;
  inv_open i : lock s = Some (OwnerProducer i) → closed (sh_state (shared s)) = false;
  inv_budget : budget_ok (sh_budget (shared s)) (committed s ++ transient s);
  inv_pcs i p : producers s !! i = Some p → pc_ok s p;
  inv_revision : 0 ≤ notices s ∧ sh_revision (shared s) = u64_wrap (notices s);
  inv_fence : fenced s = true → ∀ b, sh_budget (shared s) = Some b →
    recovery_pending b = true ∧ transient s = [];
}.

Definition same_limits (b b' : option PublishBudgetSnapshot) : Prop :=
  limits <$> b = limits <$> b'.

(** What the other steps may do to a producer's knowledge. *)
Lemma pc_ok_frame s s' p :
  same_limits (sh_budget (shared s)) (sh_budget (shared s')) → notices s ≤ notices s' →
  (quiet s' → notices s' = notices s → quiet s ∧ ∀ publish r, held_back s publish r → held_back s' publish r) →
  (is_locked (pr_pc p) = true → sh_policy (shared s') = sh_policy (shared s) ∧ sh_state (shared s') = sh_state (shared s)) →
  pc_ok s p → pc_ok s' p.
Proof.
  intros Hlim Hn Hq Hstate [Hpr Hpc].
  assert (Hw : ∀ w, waiter_ok (notices s) w → waiter_ok (notices s') w)
    by (intros w [Hs ?]; split; [lia|done]).
  assert (Hsome : is_Some (sh_budget (shared s)) ↔ is_Some (sh_budget (shared s'))).
  { revert Hlim. unfold same_limits. destruct (sh_budget (shared s)), (sh_budget (shared s')); cbn;
      intros; (done || split; eauto). }
  assert (Hprog : ∀ pg, progress_ok s pg → progress_ok s' pg).
  { intros pg [H1 H2]. split; [by rewrite H1|eauto]. }
  assert (Hbytes : ∀ pub b, bytes_ok s pub b → bytes_ok s' pub b).
  { intros pub b. revert Hlim. unfold same_limits, bytes_ok.
    destruct (sh_budget (shared s)), (sh_budget (shared s')), b; cbn; try done. by intros [= <-]. }
  assert (Hneg : is_locked (pr_pc p) = true → ∀ neg,
    negotiated_ok (shared s) (pr_publish p) neg → negotiated_ok (shared s') (pr_publish p) neg).
  { intros Hl neg. destruct (Hstate Hl) as [E1 E2]. unfold negotiated_ok. by rewrite E1, E2. }
  split; [eauto|]. destruct (pr_pc p) eqn:Hp; cbn in *; try done.
  - naive_solver.
  - naive_solver.
  - naive_solver.
  - naive_solver.
  - naive_solver.
  - destruct Hpc as (? & Hr & ?). split_and!; [done|by rewrite Hr|by apply Hneg].
  - destruct Hpc as (Hfull & Hrev & Hwait). split_and!; [done|done|]. intros w Hw'. destruct (Hwait w Hw') as [H1 H2].
    split; [by apply Hw|]. intros Hq' Hseen. destruct H1 as [[? ?] ?].
    destruct (Hq Hq' ltac:(lia)) as [Hqs Hb]. apply Hb, H2; [done|lia].
Qed.

(** ** A step of a producer *)

(** [s'] is [s] after a step of producer [i], which is at [p'] afterwards. *)
Record producer_step (s s' : System) (i : nat) (p' : Producer) : Prop := {
  ps_producers : producers s' = <[i := p']> (producers s);
  ps_held : held s' = held s;
  ps_owed : owed s' = owed s;
  ps_notices : notices s' = notices s;
  ps_fenced : fenced s' = fenced s;
  ps_silent : silent s' = silent s;
  ps_lock :
    if is_locked (pr_pc p')
    then lock s' = Some (OwnerProducer i) ∧ (lock s = None ∨ lock s = Some (OwnerProducer i))
    else lock s' = if decide (lock s = Some (OwnerProducer i)) then None else lock s;
}.

Lemma transient_step s s' i p' :
  producer_step s s' i p' →
  transient s' = if is_locked (pr_pc p') then reserved_of (pr_pc p')
                 else if decide (lock s = Some (OwnerProducer i)) then [] else transient s.
Proof.
  intros [Hp _ _ _ _ _ Hl]. unfold transient. rewrite Hp. destruct (is_locked (pr_pc p')).
  - destruct Hl as [-> _]. by rewrite lookup_insert_eq.
  - rewrite Hl. destruct (decide (lock s = Some (OwnerProducer i))) as [|Hne]; [done|].
    destruct (lock s) as [[j|]|]; try done. rewrite lookup_insert_ne; [done|]. congruence.
Qed.

Lemma quiet_step s s' i p' : producer_step s s' i p' → quiet s' → quiet s.
Proof.
  intros [_ _ Ho _ _ _ Hl] [Hq1 Hq2]. rewrite Ho in Hq1. split; [done|]. destruct (is_locked _).
  - destruct Hl as [_ [-> | ->]]; done.
  - by destruct (decide _) as [->|]; [|rewrite <- Hl].
Qed.

Lemma Inv_producer s s' i p' :
  Inv s → producer_step s s' i p' →
  sh_revision (shared s') = sh_revision (shared s) → sh_policy (shared s') = sh_policy (shared s) →
  same_limits (sh_budget (shared s)) (sh_budget (shared s')) →
  (sh_state (shared s') = sh_state (shared s) ∨ lock s = Some (OwnerProducer i)) →
  (is_locked (pr_pc p') = true → closed (sh_state (shared s')) = false) →
  budget_ok (sh_budget (shared s')) (committed s' ++ transient s') →
  (∀ publish r, held_back s publish r → held_back s' publish r) →
  (fenced s = true → ∀ b', sh_budget (shared s') = Some b' → recovery_pending b' = true ∧ transient s' = []) →
  pc_ok s' p' → Inv s'.
Proof.
  intros Hi Hst Hrev Hpol Hlim Hstate Hopen Hbud Hblk Hfence Hpc. pose proof Hst as [Hp Hh Ho Hn Hf Hsi Hl].
  constructor.
  - intros j q. rewrite Hp. destruct (decide (i = j)) as [<-|Hne].
    + rewrite lookup_insert_eq. intros [= <-] Hlk. rewrite Hlk in Hl. by destruct Hl.
    + rewrite lookup_insert_ne by done. intros Hq Hlk. apply (inv_locked s Hi) in Hq; [|done].
      destruct (is_locked (pr_pc p')); [destruct Hl as [_ [?|?]]; congruence|].
      rewrite Hl. destruct (decide _) as [E|]; [congruence|done].
  - intros j Hj. rewrite Hp. destruct (decide (i = j)) as [<-|Hne].
    + rewrite lookup_insert_eq. eexists. split; [done|]. destruct (is_locked (pr_pc p')); [done|].
      rewrite Hl in Hj. by destruct (decide _).
    + rewrite lookup_insert_ne by done. destruct (is_locked (pr_pc p')); [destruct Hl; congruence|].
      rewrite Hl in Hj. destruct (decide _); [done|]. by apply (inv_owner s Hi).
  - intros j Hj. destruct (is_locked (pr_pc p')) eqn:E; [by apply Hopen|].
    rewrite Hl in Hj. destruct (decide _) as [|Hne]; [done|]. destruct Hstate as [->|?]; [|done].
    by apply (inv_open s Hi j).
  - done.
  - intros j q. rewrite Hp. destruct (decide (i = j)) as [<-|Hne].
    { rewrite lookup_insert_eq. by intros [= <-]. }
    rewrite lookup_insert_ne by done. intros Hq. apply (pc_ok_frame s); [done|lia| | |by apply (inv_pcs s Hi j)].
    + intros Hq' _. split; [by eapply quiet_step|done].
    + intros Hlk. split; [done|]. destruct Hstate as [?|Hli]; [done|].
      apply (inv_locked s Hi) in Hq; [|done]. congruence.
  - rewrite Hn, Hrev. apply Hi.
  - rewrite Hf. apply Hfence.
Qed.

(** A stage that reads only. *)
Lemma Inv_producer_read s s' i p p' :
  Inv s → producers s !! i = Some p → producer_step s s' i p' → shared s' = shared s →
  reserved_of (pr_pc p) = [] → reserved_of (pr_pc p') = [] →
  (is_locked (pr_pc p') = true → closed (sh_state (shared s)) = false) →
  pc_ok s' p' → Inv s'.
Proof.
  intros Hi Hpi Hst Hsh Hr Hr' Hopen Hpc.
  assert (Ht : transient s' = transient s).
  { rewrite (transient_step _ _ _ _ Hst), Hr'. unfold transient. destruct Hst as [_ _ _ _ _ _ Hl].
    destruct (is_locked _); [destruct Hl as [_ [-> | ->]]|destruct (decide _) as [->|]]; try done; by rewrite Hpi, Hr. }
  assert (Hc : committed s' = committed s) by (unfold committed; rewrite Hsh; by destruct Hst as [_ -> _ _ _ _ _]).
  apply (Inv_producer s s' i p'); rewrite ?Hsh; try done; [by left|rewrite Hc, Ht; apply Hi| |].
  - intros publish r. apply held_back_ext; [by rewrite Hsh|by destruct Hst as [_ _ _ _ _ -> _]|].
    unfold blocked. by rewrite Hsh, Hc.
  - intros Hf b Hb. rewrite Ht. by apply (inv_fence s Hi).
Qed.

Lemma unlocked_lock s i p :
  Inv s → producers s !! i = Some p → is_locked (pr_pc p) = false → lock s ≠ Some (OwnerProducer i).
Proof. intros Hi Hp Hl Hk. destruct (inv_owner s Hi i Hk) as (q & Hq & Hlq). congruence. Qed.

Lemma take_waiter_ok s : Inv s → waiter_ok (notices s) (take_waiter s).
Proof. intros Hi. destruct (inv_revision s Hi) as [? ?]. split; cbn; [lia|done]. Qed.

(** The lock is taken, kept or released as the program counter says. *)
Lemma producer_step_intro s i p' l sh :
  (if is_locked (pr_pc p')
   then l = Some (OwnerProducer i) ∧ (lock s = None ∨ lock s = Some (OwnerProducer i))
   else l = if decide (lock s = Some (OwnerProducer i)) then None else lock s) →
  producer_step s (mkSystem sh l (<[i := p']> (producers s)) (held s) (owed s) (notices s) (fenced s) (silent s)) i p'.
Proof. intros Hl. by constructor. Qed.

Lemma step_unlocked s i p p' sh :
  Inv s → producers s !! i = Some p → is_locked (pr_pc p) = false → is_locked (pr_pc p') = false →
  producer_step s (mkSystem sh (lock s) (<[i := p']> (producers s)) (held s) (owed s) (notices s) (fenced s) (silent s)) i p'.
Proof.
  intros Hi Hp Hl Hl'. apply producer_step_intro. rewrite Hl'.
  rewrite decide_False by (by eapply unlocked_lock). done.
Qed.

Lemma step_release s i p p' sh :
  Inv s → producers s !! i = Some p → is_locked (pr_pc p) = true → is_locked (pr_pc p') = false →
  producer_step s (mkSystem sh None (<[i := p']> (producers s)) (held s) (owed s) (notices s) (fenced s) (silent s)) i p'.
Proof.
  intros Hi Hp Hl Hl'. apply producer_step_intro. rewrite Hl'.
  by rewrite decide_True by (by apply (inv_locked s Hi i p)).
Qed.

Lemma step_keep s i p p' sh :
  Inv s → producers s !! i = Some p → is_locked (pr_pc p) = true → is_locked (pr_pc p') = true →
  producer_step s (mkSystem sh (lock s) (<[i := p']> (producers s)) (held s) (owed s) (notices s) (fenced s) (silent s)) i p'.
Proof.
  intros Hi Hp Hl Hl'. apply producer_step_intro. rewrite Hl'. pose proof (inv_locked s Hi i p Hp Hl). auto.
Qed.

(** *** Sending *)

Definition reservation_list (r : option usize) : list usize := match r with Some n => [n] | None => [] end.

(** What [send_and_commit] leaves behind: the publish and its reservation are queued, or the
    reservation is given back and nothing else has changed. *)
Definition sent_ok (sh : Shared) (publish : Publish) (reservation : option usize)
    (r : unit + TrySendError) (sh' : Shared) : Prop :=
  sh_revision sh' = sh_revision sh ∧ sh_policy sh' = sh_policy sh ∧
  same_limits (sh_budget sh) (sh_budget sh') ∧
  recovery_pending <$> sh_budget sh' = recovery_pending <$> sh_budget sh ∧
  sh_capacity sh' = sh_capacity sh ∧ closed (sh_state sh') = closed (sh_state sh) ∧
  capabilities (sh_state sh') = capabilities (sh_state sh) ∧
  match r with
  | inl _ => sh_queue sh' = sh_queue sh ++ [(publish, reservation)] ∧ sh_budget sh' = sh_budget sh
  | inr e =>
      sh_queue sh' = sh_queue sh ∧ sh_state sh' = sh_state sh ∧
      (∀ l, budget_ok (sh_budget sh) (reservation_list reservation ++ l) → budget_ok (sh_budget sh') l) ∧
      (e = Full → (sh_capacity sh ≤ length (sh_queue sh))%nat)
  end.

Lemma release_spec {E} reservation sh l :
  (is_Some reservation ↔ is_Some (sh_budget sh)) →
  budget_ok (sh_budget sh) (reservation_list reservation ++ l) →
  ∃ budget, release (E:=E) reservation sh = (Ok tt, with_budget budget sh) ∧
    same_limits (sh_budget sh) budget ∧ recovery_pending <$> budget = recovery_pending <$> sh_budget sh ∧
    ∀ k, budget_ok (sh_budget sh) (reservation_list reservation ++ k) → budget_ok budget k.
Proof.
  intros Hres Hb. unfold release. rewrite bind_run. cbn [mget].
  destruct reservation as [n|], (sh_budget sh) as [b|] eqn:Hsb.
  - destruct (reservation_drop_spec (E:=E) n b l Hb) as (b' & Hd & _ & Hlim & Hrp). rewrite Hd.
    exists (Some b'). split_and!; [done|unfold same_limits; cbn; by rewrite Hlim|cbn; by rewrite Hrp|].
    intros k Hk. destruct (reservation_drop_spec (E:=E) n b k Hk) as (b2 & Hd2 & Hk2 & _). congruence.
  - destruct (proj1 Hres) as [? ?]; [by eexists|done].
  - destruct (proj2 Hres) as [? ?]; [by eexists|done].
  - exists None. split_and!; try done. cbn. unfold with_budget. rewrite <- Hsb. by destruct sh.
Qed.

Lemma send_and_commit_spec sh publish negotiated reservation l :
  (is_Some reservation ↔ is_Some (sh_budget sh)) →
  budget_ok (sh_budget sh) (reservation_list reservation ++ l) →
  ∃ r sh', send_and_commit publish negotiated reservation sh = (Ok r, sh') ∧
           sent_ok sh publish reservation r sh'.
Proof.
  intros Hres Hb. unfold send_and_commit, try_send. rewrite bind_run.
  destruct (release_spec (E:=AdmissionFailure) reservation sh l Hres Hb) as (budget & Hrel & Hlim & Hrp & Hk).
  assert (Hfail : ∀ e, (e = Full → (sh_capacity sh ≤ length (sh_queue sh))%nat) →
    sent_ok sh publish reservation (inr e) (with_budget budget sh)) by (intros e He; by split_and!).
  rewrite bind_run. cbn [mget]. destruct (negb (sh_connected sh)).
  { rewrite bind_run, Hrel. cbn. rewrite andb_false_r. eexists _, _. split; [done|]. by apply Hfail. }
  destruct (Nat.leb_spec (sh_capacity sh) (length (sh_queue sh))).
  { rewrite bind_run, Hrel. cbn. rewrite andb_false_r. eexists _, _. split; [done|]. by apply Hfail. }
  rewrite bind_run. cbn [mput mret M_ret sum_is_ok]. rewrite andb_true_r, bind_run. destruct negotiated; [|eexists _, _; split; [done|]; by split_and!].
  unfold commit_alias. destruct (publish_alias publish) as [alias|];
    [case_bool_decide|]; (eexists _, _; split; [done|]; by split_and!).
Qed.

Lemma reservations_app q k : reservations_of (q ++ k) = reservations_of q ++ reservations_of k.
Proof. apply omap_app. Qed.

Definition returns (r : Result) (Q : System → Prop) : Prop :=
  match r with None => True | Some (Ok s) => Q s | Some _ => False end.

(** Sending never unblocks another producer. *)
Lemma blocked_sent s s' p reservation r publish a :
  sent_ok (shared s) p reservation r (shared s') → held s' = held s →
  Forall (λ n, 0 ≤ n) (reservation_list reservation) →
  blocked s publish a → blocked s' publish a.
Proof.
  intros (Hrev & Hpol & Hlim & Hrec & Hcap & Hclosed & Hcaps & Hr) Hh Hnn [Hc Ha].
  assert (Hgrow : (length (sh_queue (shared s)) ≤ length (sh_queue (shared s')))%nat ∧
    blen (committed s) ≤ blen (committed s') ∧ total (committed s) ≤ total (committed s')).
  { unfold committed. rewrite Hh. destruct r as [[]|e].
    - destruct Hr as [-> _]. rewrite reservations_app, length_app, !blen_app, !total_app.
      pose proof (blen_nonneg (reservations_of [(p, reservation)])).
      destruct reservation; cbn in *; [apply Forall_cons in Hnn as [? _]|]; lia.
    - destruct Hr as [-> _]. lia. }
  destruct Hgrow as (Hg1 & Hg2 & Hg3). split; [by rewrite Hclosed|].
  destruct a as [|[]|[w| |reason [w|]|] w0]; try done.
  - rewrite Hcap. lia.
  - by rewrite Hpol, Hcaps.
  - destruct Ha as (b & Hb & Ha). unfold same_limits in Hlim. rewrite Hb in Hlim, Hrec.
    destruct (sh_budget (shared s')) as [b'|]; [|done]. cbn in Hlim, Hrec. injection Hlim as Hlim. injection Hrec as Hrec.
    exists b'. split; [done|]. rewrite <- Hlim, Hrec. destruct reason; try done; [lia|].
    destruct Ha as (n & ? & ?). exists n. split; [done|lia].
Qed.

Section Run.
  Context (s : System) (i : nat) (p : Producer) (Hi : Inv s) (Hp : producers s !! i = Some p).

(** The knowledge of a producer after a refusal. *)
Lemma refused_ok sh l p' f w :
  pr_pc p' = P_Returned (Refused f w) → pr_publish p' = pr_publish p → pr_progress p' = pr_progress p →
  failure_revision f = w_revision <$> w → (∀ x, w = Some x → waiter_ok (notices s) x) →
  (∀ x, w = Some x →
    blocked (mkSystem sh l (<[i := p']> (producers s)) (held s) (owed s) (notices s) (fenced s) (silent s))
      (pr_publish p) (Refused f w)) →
  pc_ok (mkSystem sh l (<[i := p']> (producers s)) (held s) (owed s) (notices s) (fenced s) (silent s)) p'.
Proof.
  intros Hpc Hpub Hprog Hrev Hw Hb. split.
  - rewrite Hprog. apply (inv_pcs s Hi i p Hp).
  - rewrite Hpc. split_and!; [done|by intros ? ? [= <- <-]|].
    unfold waits_on. rewrite Hpc. intros x ->. split; [by apply Hw|]. intros _ _. rewrite Hpub. left. by eapply Hb.
Qed.

Lemma Inv_begin :
  pr_pc p = P_Begin → returns (run_producer layout i p s) Inv.
Proof.
  intros Hpc. unfold run_producer. rewrite Hpc. cbn [returns done].
  eapply (Inv_producer_read s _ i p); [done|done|apply (step_unlocked s i p); try done; by rewrite Hpc|done|by rewrite Hpc|done|done|].
  split; cbn; [|done]. intros w [= <-]. by apply take_waiter_ok.
Qed.

Lemma Inv_armed :
  pr_pc p = P_Armed → returns (run_producer layout i p s) Inv.
Proof.
  intros Hpc. unfold run_producer. rewrite Hpc. cbn. pose proof (inv_pcs s Hi i p Hp) as [Hpr Hk]. rewrite Hpc in Hk.
  eapply (Inv_producer_read s _ i p); [done|done|apply (step_unlocked s i p); try done; by rewrite Hpc|done|by rewrite Hpc|done|done|].
  split; cbn; [done|]. split; [done|]. destruct (sh_budget (shared s)) eqn:Hb; split; cbn; rewrite ?Hb.
  - split; by eexists.
  - intros w [= <-]. by apply take_waiter_ok.
  - done.
  - done.
Qed.

Lemma Inv_checking progress :
  pr_pc p = P_Checking progress → returns (run_producer layout i p s) Inv.
Proof.
  intros Hpc. unfold run_producer. rewrite Hpc. pose proof (inv_pcs s Hi i p Hp) as [Hpr Hk]. rewrite Hpc in Hk.
  destruct Hk as [Hs Hpg]. unfold stage, check_charge. rewrite bind_run. cbn [mget].
  assert (Hnext : ∀ bytes, bytes_ok s (pr_publish p) bytes →
    Inv (mkSystem (shared s) (lock s) (<[i := mkProducer (pr_publish p) (pr_progress p) (P_Locking progress bytes)]>
      (producers s)) (held s) (owed s) (notices s) (fenced s) (silent s))).
  { intros bytes Hb. eapply (Inv_producer_read s _ i p); [done|done|apply (step_unlocked s i p); try done; by rewrite Hpc|done|by rewrite Hpc|done|done|].
    by split. }
  destruct (sh_budget (shared s)) as [b|] eqn:Hb.
  - unfold check_size. destruct (publish_charge layout (pr_publish p)) as [n|] eqn:Hn;
      [destruct (Z.ltb_spec (max_bytes (limits b)) n)|].
    2:{ apply Hnext. unfold bytes_ok. rewrite Hb. pose proof Hn as Hn'. apply publish_charge_spec in Hn' as [Hv _]; [|done].
        split_and!; try done. rewrite Hv. apply publish_bytes_nonneg; [done|case_bool_decide; [done|apply blen_nonneg]|apply blen_nonneg]. }
    all: cbn; eapply (Inv_producer_read s _ i p); [done|done|apply (step_unlocked s i p); try done; by rewrite Hpc|done|by rewrite Hpc|done|done|];
      eapply refused_ok; done.
  - apply Hnext. unfold bytes_ok. by rewrite Hb.
Qed.

Lemma Inv_locking progress bytes :
  pr_pc p = P_Locking progress bytes → returns (run_producer layout i p s) Inv.
Proof.
  intros Hpc. unfold run_producer. rewrite Hpc. pose proof (inv_pcs s Hi i p Hp) as [Hpr Hk]. rewrite Hpc in Hk.
  unfold can_lock. case_bool_decide as Hlk; [|done]. unfold stage, closed_gate. rewrite bind_run. cbn [mget set_lock shared].
  destruct (closed (sh_state (shared s))) eqn:Hc; cbn.
  - eapply (Inv_producer_read s _ i p); [done|done|rewrite <- Hlk; apply (step_unlocked s i p); try done; by rewrite Hpc
      |done|by rewrite Hpc|done|done|by eapply refused_ok].
  - eapply (Inv_producer_read s _ i p); [done|done|apply (producer_step_intro s); cbn; by auto|done|by rewrite Hpc|done|done|by split].
Qed.

Lemma Inv_entered progress bytes :
  pr_pc p = P_Entered progress bytes → returns (run_producer layout i p s) Inv.
Proof.
  intros Hpc. unfold run_producer. rewrite Hpc. pose proof (inv_pcs s Hi i p Hp) as [Hpr Hk]. rewrite Hpc in Hk.
  destruct Hk as (Hs & Hpg & Hb). pose proof (inv_locked s Hi i p Hp ltac:(by rewrite Hpc)) as Hlk.
  assert (Hnext : Inv (mkSystem (shared s) (lock s) (<[i := mkProducer (pr_publish p) (pr_progress p) (P_Recovered progress bytes)]>
      (producers s)) (held s) (owed s) (notices s) (fenced s) (silent s))).
  { eapply (Inv_producer_read s _ i p); [done|done|apply (step_keep s i p); try done; by rewrite Hpc|done|by rewrite Hpc|done
      |intros _; by apply (inv_open s Hi i)|by split]. }
  unfold stage, recovery_gate. rewrite bind_run. cbn [mget].
  destruct (sh_budget (shared s)) as [b|] eqn:Hbud; [|exact Hnext].
  destruct (recovery_pending b) eqn:Hrp; [|exact Hnext].
  destruct Hpg as [Hiff Hw]. destruct progress as [w|]; cbn.
  - eapply (Inv_producer_read s _ i p); [done|done|apply (step_release s i p); try done; by rewrite Hpc|done|by rewrite Hpc|done|done|].
    eapply refused_ok; try done. intros x [= <-]. split; [by apply (inv_open s Hi i)|]. by exists b.
  - rewrite Hbud in Hiff. destruct (proj2 Hiff) as [? ?]; [by eexists|done].
Qed.

Lemma Inv_recovered progress bytes :
  pr_pc p = P_Recovered progress bytes → returns (run_producer layout i p s) Inv.
Proof.
  intros Hpc. unfold run_producer. rewrite Hpc. pose proof (inv_pcs s Hi i p Hp) as [Hpr Hk]. rewrite Hpc in Hk.
  destruct Hk as (Hs & Hpg & Hb). pose proof (inv_locked s Hi i p Hp ltac:(by rewrite Hpc)) as Hlk.
  pose proof (inv_open s Hi i Hlk) as Hopen.
  assert (Hnext : ∀ negotiated, negotiated_ok (shared s) (pr_publish p) negotiated →
    Inv (mkSystem (shared s) (lock s) (<[i := mkProducer (pr_publish p) (pr_progress p) (P_Validated progress bytes negotiated)]>
      (producers s)) (held s) (owed s) (notices s) (fenced s) (silent s))).
  { intros neg Hneg. eapply (Inv_producer_read s _ i p); [done|done|apply (step_keep s i p); try done; by rewrite Hpc
      |done|by rewrite Hpc|done|done|by split]. }
  assert (Hstop : ∀ f, failure_revision f = w_revision <$> failure_waiter progress (take_waiter s) f →
    (∀ x, failure_waiter progress (take_waiter s) f = Some x → waiter_ok (notices s) x ∧ blocked s (pr_publish p)
       (Refused f (failure_waiter progress (take_waiter s) f))) →
    Inv (mkSystem (shared s) None (<[i := mkProducer (pr_publish p) (pr_progress p)
      (P_Returned (Refused f (failure_waiter progress (take_waiter s) f)))]>
      (producers s)) (held s) (owed s) (notices s) (fenced s) (silent s))).
  { intros f Hrev Hw. eapply (Inv_producer_read s _ i p); [done|done|apply (step_release s i p); try done; by rewrite Hpc
      |done|by rewrite Hpc|done|done|]. eapply refused_ok; try done; [intros x Hx; apply (Hw x Hx)|intros x Hx; exact (proj2 (Hw x Hx))]. }
  unfold stage, capability_gate. rewrite bind_run. cbn [mget].
  case_bool_decide as Hpol; [apply Hnext; by left|].
  assert (Hreq : sh_policy (shared s) = RequireNegotiatedCapabilities) by (by destruct (sh_policy (shared s))).
  destruct (capabilities (sh_state (shared s))) as [caps|] eqn:Hcaps.
  - destruct (validate_capabilities _ _ _ _) as [[]|e|] eqn:Hv.
    + apply Hnext. split; [done|]. by exists caps.
    + by apply Hstop.
    + by apply validate_capabilities_panic in Hv.
  - destruct (depends_on_capabilities (pr_publish p)) eqn:Hd; [|apply Hnext; by right].
    apply Hstop; cbn; [done|]. intros x [= <-]. split; [by apply take_waiter_ok|]. by split_and!.
Qed.

Lemma Inv_validated progress bytes negotiated :
  pr_pc p = P_Validated progress bytes negotiated → returns (run_producer layout i p s) Inv.
Proof.
  intros Hpc. unfold run_producer. rewrite Hpc. pose proof (inv_pcs s Hi i p Hp) as [Hpr Hk]. rewrite Hpc in Hk.
  destruct Hk as (Hs & [Hiff Hw] & Hb & Hneg). pose proof (inv_locked s Hi i p Hp ltac:(by rewrite Hpc)) as Hlk.
  pose proof (inv_open s Hi i Hlk) as Hopen. pose proof (inv_budget s Hi) as Hbud.
  assert (Ht : transient s = []) by (unfold transient; by rewrite Hlk, Hp, Hpc). rewrite Ht, app_nil_r in Hbud.
  unfold stage, reserve_budget. rewrite bind_run. cbn [mget]. unfold bytes_ok in Hb.
  destruct (sh_budget (shared s)) as [b|] eqn:Hsb.
  2:{ eapply (Inv_producer_read s _ i p); [done|done|apply (step_keep s i p); try done; by rewrite Hpc
        |done|by rewrite Hpc|done|done|]. split; [done|]. split_and!; [done|by cbn; rewrite Hsb|done]. }
  destruct bytes as [n|]; [|done]. destruct Hb as [Hcharge Hn]. pose proof (reserve_spec n b _ Hbud Hn) as Hr.
  destruct (reserve n b) as [[r|reason|] b']; [| |done].
  - destruct Hr as (-> & Hok & Hlim & Hrp & Hrp'). cbn.
    set (p' := mkProducer (pr_publish p) (pr_progress p) (P_Reserved negotiated (Some n))).
    set (s' := mkSystem (with_budget (Some b') (shared s)) (lock s) (<[i := p']> (producers s)) (held s) (owed s)
      (notices s) (fenced s) (silent s)). change (Inv s').
    assert (Hst : producer_step s s' i p') by (apply (step_keep s i p); try done; by rewrite Hpc).
    eapply (Inv_producer s s' i p'); try done.
    + unfold same_limits. rewrite Hsb. cbn. by rewrite Hlim.
    + by left.
    + rewrite (transient_step _ _ _ _ Hst). apply (budget_ok_perm (Some b') (n :: committed s)); [|exact Hok].
      apply (Permutation_app_comm [n]).
    + intros publish a. apply held_back_ext; [done|done|]. intros [Hc Ha]. split; [done|]. destruct a as [| |[w| |reason [w|]|] w0]; try done.
      destruct Ha as (b0 & Hb0 & Ha). rewrite Hsb in Hb0. injection Hb0 as <-. exists b'. split; [done|].
      rewrite Hlim. destruct reason; try done. congruence.
    + intros Hf. destruct (inv_fence s Hi Hf b Hsb). congruence.
  - destruct Hr as [_ Hr]. destruct progress as [w|]; [|destruct (proj2 Hiff) as [? ?]; [by eexists|done]].
    assert (Hcw : can_wait reason = true) by (by destruct reason). rewrite Hcw. cbn.
    eapply (Inv_producer_read s _ i p); [done|done|apply (step_release s i p); try done; by rewrite Hpc
      |done|by rewrite Hpc|done|done|]. eapply refused_ok; try done.
    intros x _. split; [done|]. exists b. split; [done|]. destruct reason; try done. by exists n.
Qed.

Lemma Inv_reserved negotiated reservation :
  pr_pc p = P_Reserved negotiated reservation → returns (run_producer layout i p s) Inv.
Proof.
  intros Hpc. unfold run_producer. rewrite Hpc. pose proof (inv_pcs s Hi i p Hp) as [Hpr Hk]. rewrite Hpc in Hk.
  destruct Hk as (Hs & Hres & Hneg). pose proof (inv_locked s Hi i p Hp ltac:(by rewrite Hpc)) as Hlk.
  pose proof (inv_open s Hi i Hlk) as Hopen. pose proof (inv_budget s Hi) as Hbud.
  assert (Ht : transient s = reserved_of (P_Reserved negotiated reservation)) by (unfold transient; by rewrite Hlk, Hp, Hpc).
  assert (Hbud' : budget_ok (sh_budget (shared s)) (reservation_list reservation ++ committed s)).
  { eapply budget_ok_perm; [|exact Hbud]. rewrite Ht. destruct reservation; [apply Permutation_app_comm|cbn; by rewrite app_nil_r]. }
  destruct (send_and_commit_spec (shared s) (pr_publish p) negotiated reservation _ Hres Hbud') as (r & sh' & Hrun & Hsent).
  unfold stage. rewrite Hrun. cbn.
  set (p' := mkProducer (pr_publish p) (pr_progress p) (P_Returned (attempt_of r))).
  set (s' := mkSystem sh' None (<[i := p']> (producers s)) (held s) (owed s) (notices s) (fenced s) (silent s)).
  change (Inv s'). assert (Hst : producer_step s s' i p') by (apply (step_release s i p); try done; by rewrite Hpc).
  assert (Ht' : transient s' = []) by done.
  destruct Hsent as (Hrev & Hpol & Hlim & Hrec & Hcap & Hclosed & Hcaps & Hr).
  eapply (Inv_producer s s' i p'); try done; [by right| | | |].
  - rewrite Ht', app_nil_r. unfold committed. cbn. destruct r as [[]|e].
    + destruct Hr as [-> ->]. eapply budget_ok_perm; [|exact Hbud']. unfold committed. rewrite reservations_app.
      destruct reservation as [n|]; cbn; [|by rewrite app_nil_r]. rewrite <- (assoc_L (++)). apply Permutation_middle.
    + destruct Hr as (-> & _ & Hb & _). by apply Hb.
  - intros publish a. apply held_back_ext; [done|done|]. apply (blocked_sent s s' (pr_publish p) reservation r); [by split_and!|done|].
    destruct reservation; [|constructor]. destruct (sh_budget (shared s)) as [b|]; [|done].
    destruct Hbud' as (_ & Hf & _). apply Forall_app in Hf. apply Hf.
  - intros Hf b' Hb'. rewrite Ht'. split; [|done]. cbn in Hb'. rewrite Hb' in Hrec. destruct (sh_budget (shared s)) as [b|] eqn:Hsb; [|done].
    destruct (inv_fence s Hi Hf b Hsb). cbn in Hrec. congruence.
  - split; [done|]. cbn. destruct r as [[]|e]; cbn; [by split_and!|]. split_and!; [done|done|].
    unfold waits_on. cbn. destruct e; [|done]. intros w Hw. split; [by apply Hpr|]. intros _ _. left.
    split; [cbn; by rewrite Hclosed|]. cbn. destruct Hr as (-> & _ & _ & Hfull). rewrite Hcap. by apply Hfull.
Qed.
End Run.

Lemma Inv_run s i p : Inv s → producers s !! i = Some p → returns (run_producer layout i p s) Inv.
Proof.
  intros Hi Hp. destruct (pr_pc p) eqn:Hpc.
  - by apply Inv_begin.
  - by apply Inv_armed.
  - by eapply Inv_checking.
  - by eapply Inv_locking.
  - by eapply Inv_entered.
  - by eapply Inv_recovered.
  - by eapply Inv_validated.
  - by eapply Inv_reserved.
  - unfold run_producer. by rewrite Hpc.
Qed.

(** ** A step of the event loop *)

Lemma transient_loop s s' :
  producers s' = producers s →
  lock s' = lock s ∨ (lock s = None ∧ lock s' = Some OwnerLoop) ∨ (lock s = Some OwnerLoop ∧ lock s' = None) →
  transient s' = transient s.
Proof. intros Hp Hl. unfold transient. by destruct Hl as [->|[[-> ->]|[-> ->]]]; rewrite ?Hp. Qed.

Lemma Inv_loop s s' :
  Inv s → producers s' = producers s →
  lock s' = lock s ∨ (lock s = None ∧ lock s' = Some OwnerLoop) ∨ (lock s = Some OwnerLoop ∧ lock s' = None) →
  notices s ≤ notices s' → sh_revision (shared s') = u64_wrap (notices s') →
  sh_policy (shared s') = sh_policy (shared s) →
  same_limits (sh_budget (shared s)) (sh_budget (shared s')) →
  budget_ok (sh_budget (shared s')) (committed s' ++ transient s) →
  sh_state (shared s') = sh_state (shared s) ∨ (lock s = None ∨ lock s = Some OwnerLoop) →
  (quiet s' → notices s' = notices s → quiet s ∧ ∀ publish r, held_back s publish r → held_back s' publish r) →
  (fenced s' = true → ∀ b, sh_budget (shared s') = Some b → recovery_pending b = true ∧ transient s = []) →
  Inv s'.
Proof.
  intros Hi Hp Hl Hn Hrev Hpol Hlim Hbud Hst Hq Hf. pose proof (transient_loop _ _ Hp Hl) as Ht.
  assert (Hlk : ∀ i, lock s' = Some (OwnerProducer i) ↔ lock s = Some (OwnerProducer i))
    by (intros i; destruct Hl as [->|[[-> ->]|[-> ->]]]; done).
  constructor.
  - intros i p. rewrite Hp, Hlk. apply (inv_locked s Hi).
  - intros i. rewrite Hp, Hlk. apply (inv_owner s Hi).
  - intros i. rewrite Hlk. intros Hi'. destruct Hst as [->|[?|?]]; [by apply (inv_open s Hi i)|congruence..].
  - by rewrite Ht.
  - intros i p. rewrite Hp. intros Hpi. apply (pc_ok_frame s); try done; [|by apply (inv_pcs s Hi i)].
    intros Hlp. split; [done|]. destruct Hst as [?|Hno]; [done|].
    apply (inv_locked s Hi) in Hpi; [|done]. destruct Hno; congruence.
  - split; [|done]. destruct (inv_revision s Hi). lia.
  - by rewrite Ht.
Qed.

Lemma unquiet s s' : owed s' ≠ O → quiet s' → notices s' = notices s →
  quiet s ∧ ∀ publish r, held_back s publish r → held_back s' publish r.
Proof. by intros Ho [? _]. Qed.

Lemma u64_wrap_succ n : u64_wrap (u64_wrap n + 1) = u64_wrap (n + 1).
Proof. unfold u64_wrap. by rewrite Zplus_mod_idemp_l. Qed.

Lemma Inv_deliver s n : Inv s → Inv (deliver n s).
Proof.
  intros Hi. destruct (inv_revision s Hi) as [? Hr]. apply (Inv_loop s); try done; cbn.
  - by left.
  - lia.
  - by rewrite Hr, u64_wrap_succ.
  - apply Hi.
  - by left.
  - lia.
  - apply Hi.
Qed.

Lemma Inv_reset_producer s i publish :
  Inv s → (∀ p, producers s !! i = Some p → is_locked (pr_pc p) = false) →
  Inv (set_producer i (mkProducer publish None P_Begin) s).
Proof.
  intros Hi Hp. assert (Hlk : lock s ≠ Some (OwnerProducer i)).
  { intros Hk. destruct (inv_owner s Hi i Hk) as (q & Hq & Hlq). apply Hp in Hq. congruence. }
  assert (Hst : producer_step s (set_producer i (mkProducer publish None P_Begin) s) i (mkProducer publish None P_Begin)).
  { constructor; try done. cbn. by rewrite decide_False. }
  eapply Inv_producer; [done|exact Hst|done|done|done|by left|done| |done| |by split].
  - rewrite (transient_step _ _ _ _ Hst). cbn. rewrite decide_False by done. apply Hi.
  - rewrite (transient_step _ _ _ _ Hst). cbn. rewrite decide_False by done. apply (inv_fence s Hi).
Qed.

(** Changes of the admission state and of the recovery flag, under the admission lock. *)
Lemma Inv_set_state s state' :
  Inv s → lock s = None ∨ lock s = Some OwnerLoop →
  Inv (owe (set_shared (with_state state' (shared s)) s)).
Proof.
  intros Hi Hl. apply (Inv_loop s); try done.
  - by left.
  - apply Hi.
  - apply (inv_budget s Hi).
  - by right.
  - by apply unquiet.
  - apply (inv_fence s Hi).
Qed.

(** The binding of an alias is not announced: it never lifts a refusal that is waited for. *)
Lemma Inv_record s publish :
  Inv s → lock s = None →
  Inv (set_shared (with_state (record_outgoing_topic_alias publish (sh_state (shared s))) (shared s)) s).
Proof.
  intros Hi Hl.
  assert (Hsame : closed (record_outgoing_topic_alias publish (sh_state (shared s))) = closed (sh_state (shared s)) ∧
    capabilities (record_outgoing_topic_alias publish (sh_state (shared s))) = capabilities (sh_state (shared s)))
    by (unfold record_outgoing_topic_alias; repeat case_match; simplify_eq; done).
  destruct Hsame as [Hc Hcaps]. apply (Inv_loop s); try done.
  - by left.
  - apply Hi.
  - apply (inv_budget s Hi).
  - auto.
  - intros Hq _. split; [done|]. intros pub r. apply held_back_ext; [done|done|]. unfold blocked, committed. cbn. by rewrite Hc, Hcaps.
  - apply (inv_fence s Hi).
Qed.

Lemma Inv_disconnect s :
  Inv s → closed (sh_state (shared s)) = true → Inv (set_shared (disconnect (shared s)) s).
Proof.
  intros Hi _. apply (Inv_loop s); try done.
  - by left.
  - apply Hi.
  - apply (inv_budget s Hi).
  - by left.
  - apply (inv_fence s Hi).
Qed.

Lemma budget_ok_recovery pending b l :
  budget_ok b l → budget_ok (set_recovery_pending pending <$> b) l.
Proof. by destruct b. Qed.

Lemma Inv_set_recovery s pending fenced' :
  Inv s → (fenced' = true → pending = true ∧ transient s = []) →
  Inv (owe (set_fenced fenced' (set_shared (set_recovery pending (shared s)) s))).
Proof.
  intros Hi Hf. apply (Inv_loop s); try done.
  - by left.
  - apply Hi.
  - cbn. unfold same_limits. by destruct (sh_budget (shared s)).
  - apply budget_ok_recovery, (inv_budget s Hi).
  - by left.
  - by apply unquiet.
  - cbn. intros Hf' b. destruct (sh_budget (shared s)); [|done]. intros [= <-]. by apply Hf.
Qed.

Lemma transient_free s : lock s = None ∨ lock s = Some OwnerLoop → transient s = [].
Proof. unfold transient. by intros [-> | ->]. Qed.

Lemma Inv_begin_cleanup s :
  Inv s → lock s = None → returns (sys_exec layout A_BeginCleanup s) Inv.
Proof.
  intros Hi Hl. cbn. unfold can_lock. rewrite bool_decide_eq_true_2 by done. apply (Inv_loop s); try done.
  - right. left. by split.
  - apply Hi.
  - apply (inv_budget s Hi).
  - by left.
  - cbn. by intros [_ ?].
  - cbn. intros Hf b Hb. rewrite Hb in Hf. split; [done|]. apply transient_free. by left.
Qed.

Lemma Inv_end_cleanup s :
  Inv s → lock s = Some OwnerLoop → returns (sys_exec layout A_EndCleanup s) Inv.
Proof.
  intros Hi Hl. cbn. rewrite bool_decide_eq_true_2 by done. apply (Inv_loop s); try done.
  - right. right. by split.
  - apply Hi.
  - apply (inv_budget s Hi).
  - auto.
  - by apply unquiet.
  - apply (inv_fence s Hi).
Qed.

(** Moving what is queued to the event loop changes no reservation. *)
Lemma Inv_move s q1 q2 n si :
  Inv s → sh_queue (shared s) = q1 ++ q2 →
  (let s' := mkSystem (with_queue q2 (shared s)) (lock s) (producers s) (held s ++ reservations_of q1) n
       (notices s) (fenced s) si in
   (quiet s' → quiet s ∧ ∀ publish r, held_back s publish r → held_back s' publish r) → Inv s').
Proof.
  intros Hi Hq s' Hquiet. apply (Inv_loop s); try done.
  - by left.
  - apply Hi.
  - eapply budget_ok_perm; [|exact (inv_budget s Hi)]. unfold committed. cbn. rewrite Hq, reservations_app.
    apply Permutation_app_tail. rewrite <- (assoc_L (++)), (Permutation_app_comm (held s)).
    rewrite !(assoc_L (++)). apply Permutation_app_tail, Permutation_app_comm.
  - by left.
  - auto.
  - apply (inv_fence s Hi).
Qed.

Lemma Inv_drain s : Inv s → returns (sys_exec layout A_Drain s) Inv.
Proof.
  intros Hi. cbn. destruct (_ || _) eqn:Hc; [|done].
  apply (Inv_move s (sh_queue (shared s)) [] (owed s) (silent s)); [done|by rewrite app_nil_r|].
  intros [Ho Hl]. split; [by split|]. intros publish r Hb.
  assert (closed (sh_state (shared s)) = false) by (destruct Hb as [[? _]|[? _]]; done).
  apply orb_true_iff in Hc as [Hc|Hc]; [|congruence].
  by apply bool_decide_eq_true in Hc.
Qed.

(** Nobody is told about the room this makes; only a producer that waits for room is concerned. *)
Lemma Inv_drain_silently s : Inv s → returns (sys_exec layout A_DrainSilently s) Inv.
Proof.
  intros Hi. apply (Inv_move s (sh_queue (shared s)) [] (owed s) true); [done|by rewrite app_nil_r|].
  intros [Ho Hl]. split; [by split|]. intros publish r [[Hcl Hb]|(Hcl & -> & _)]; [|by right].
  destruct r as [|[]|]; [done|by right|done|]. left. split; [done|]. revert Hb.
  assert (Hp : committed (mkSystem (with_queue [] (shared s)) (lock s) (producers s)
    (held s ++ reservations_of (sh_queue (shared s))) (owed s) (notices s) (fenced s) true) ≡ₚ committed s)
    by (unfold committed; cbn; apply Permutation_app_comm).
  destruct failure as [| |reason [w|]|]; try done. intros (b & Hb & Ha). exists b. split; [done|].
  destruct reason; try done; [unfold blen in *; by rewrite Hp|]. by rewrite (total_Permutation _ _ Hp).
Qed.

Lemma Inv_recv s : Inv s → returns (sys_exec layout A_Recv s) Inv.
Proof.
  intros Hi. cbn. destruct (sh_queue (shared s)) as [|e q] eqn:Hq; [done|].
  by apply (Inv_move s [e] q (S (owed s)) (silent s)); [done|done|intros [? _]].
Qed.

Lemma Inv_replay s costs :
  Inv s → Forall (λ n, 0 ≤ n) costs ∧ blen costs ≤ usize_MAX →
  returns (sys_exec layout (A_ReserveReplay costs) s) Inv.
Proof.
  intros Hi [Hc Hlen]. cbn. destruct (sh_budget (shared s)) as [b|] eqn:Hsb; [|done].
  pose proof (inv_budget s Hi) as Hb. rewrite Hsb in Hb. pose proof (reserve_replay_spec costs b _ Hb Hc Hlen) as Hr.
  pose proof (inv_revision s Hi) as [_ Hrev]. pose proof (inv_fence s Hi) as Hfence.
  destruct (reserve_replay costs b) as [[l|e|] b'].
  - destruct Hr as (-> & Hok & Hlim & Hrp). apply (Inv_loop s); try done.
    + by left.
    + unfold same_limits. rewrite Hsb. cbn. by rewrite Hlim.
    + eapply budget_ok_perm; [|exact Hok]. unfold committed. cbn.
      rewrite (assoc_L (++)). apply Permutation_app_tail. rewrite (Permutation_app_comm costs).
      by rewrite <- (assoc_L (++)).
    + by left.
    + intros [Ho Hl] _. split; [by split|]. intros publish r. apply held_back_ext; [done|done|]. intros [Hcl Ha]. split; [done|].
      pose proof (total_nonneg _ Hc). pose proof (blen_nonneg costs).
      assert (Hg : blen (committed s) ≤ blen (reservations_of (sh_queue (shared s)) ++ held s ++ costs) ∧
        total (committed s) ≤ total (reservations_of (sh_queue (shared s)) ++ held s ++ costs))
        by (unfold committed; rewrite !blen_app, !total_app; lia).
      destruct r as [|[]|[w| |reason [w|]|] w0]; try done. destruct Ha as (b0 & Hb0 & Ha).
      rewrite Hsb in Hb0. injection Hb0 as <-. exists b'. split; [done|]. rewrite Hlim, Hrp.
      match goal with |- context [committed ?x] =>
        change (committed x) with (reservations_of (sh_queue (shared s)) ++ held s ++ costs) end.
      destruct reason; try done; [lia|]. destruct Ha as (n & ? & ?). exists n. split; [done|lia].
    + cbn. intros Hf b0 [= <-]. rewrite Hrp. by apply Hfence.
  - destruct Hr as (-> & _ & _). cbn. replace (set_shared _ s) with s; [done|].
    destruct s as [sh]. unfold set_shared, with_budget. cbn in *. rewrite <- Hsb. by destruct sh.
  - done.
Qed.

Lemma Inv_release s n : Inv s → returns (sys_exec layout (A_Release n) s) Inv.
Proof.
  intros Hi. cbn. destruct (held s !! n) as [bytes|] eqn:Hn; [|done].
  pose proof (inv_budget s Hi) as Hb.
  assert (Hperm : committed s ++ transient s ≡ₚ
    bytes :: (reservations_of (sh_queue (shared s)) ++ delete n (held s)) ++ transient s).
  { unfold committed. rewrite (delete_Permutation _ _ _ Hn) at 1. rewrite <- !(assoc_L (++)). by rewrite Permutation_middle. }
  destruct (sh_budget (shared s)) as [b|] eqn:Hsb.
  2:{ cbn in Hb. rewrite Hb in Hperm. by apply Permutation_nil_cons in Hperm. }
  apply (budget_ok_perm _ _ _ Hperm) in Hb.
  destruct (release_spec (E:=AdmissionFailure) (Some bytes) (shared s)
    ((reservations_of (sh_queue (shared s)) ++ delete n (held s)) ++ transient s)) as (budget & Hrel & Hlim & Hrp & Hk).
  { rewrite Hsb. by split; eexists. }
  { by rewrite Hsb. }
  rewrite Hrel. cbn. apply (Inv_loop s); try done.
  - by left.
  - apply Hi.
  - apply Hk. by rewrite Hsb.
  - by left.
  - by apply unquiet.
  - cbn. intros Hf b0 ->. destruct (inv_fence s Hi Hf b Hsb). rewrite Hsb in Hrp. injection Hrp as ->. done.
Qed.

(** Every action preserves the invariant, and none panics. *)
Lemma Inv_exec s a : Inv s → action_ok a → returns (sys_exec layout a s) Inv.
Proof.
  intros Hi Ha. destruct a as [i pub|i|i|c|pub| |pending| | | | | |costs|n| | | |].
  - cbn. destruct (producers s !! i) as [p|] eqn:Hp.
    + destruct (pr_pc p) eqn:Hpc; try done. apply Inv_reset_producer; [done|]. intros q Hq.
      rewrite Hp in Hq. injection Hq as <-. by rewrite Hpc.
    + apply Inv_reset_producer; [done|]. intros q Hq. congruence.
  - cbn. destruct (producers s !! i) as [p|] eqn:Hp; [|done]. by apply Inv_run.
  - cbn. destruct (producers s !! i) as [p|] eqn:Hp; [|done]. destruct (waits_on p) as [w|] eqn:Hw; [|done].
    destruct (wait_over _ _); [|done]. apply Inv_reset_producer; [done|]. intros q Hq.
    rewrite Hp in Hq. injection Hq as <-. unfold waits_on in Hw. by destruct (pr_pc p).
  - cbn. unfold can_lock. case_bool_decide; [|done]. apply Inv_set_state; auto.
  - cbn. unfold can_lock. case_bool_decide as Hl; [|done]. by apply Inv_record.
  - cbn. unfold can_lock. case_bool_decide as Hl; [|done]. apply Inv_set_recovery; [done|]. intros _.
    split; [done|]. apply transient_free. by left.
  - cbn. apply Inv_set_recovery; [done|]. intros [-> Hf]%andb_true_iff. split; [done|].
    apply orb_true_iff in Hf as [Hf|Hf%bool_decide_eq_true]; [|apply transient_free; by right].
    destruct (sh_budget (shared s)) as [b|] eqn:Hsb; [by apply (inv_fence s Hi Hf b)|].
    pose proof (inv_budget s Hi) as Hb. rewrite Hsb in Hb. by apply app_nil in Hb as [_ ?].
  - destruct (decide (lock s = None)); [by apply Inv_begin_cleanup|]. cbn. unfold can_lock. by rewrite bool_decide_eq_false_2.
  - destruct (decide (lock s = Some OwnerLoop)); [by apply Inv_end_cleanup|]. cbn. by rewrite bool_decide_eq_false_2.
  - by apply Inv_drain.
  - by apply Inv_drain_silently.
  - by apply Inv_recv.
  - by apply Inv_replay.
  - by apply Inv_release.
  - cbn. unfold can_lock. case_bool_decide; [|done]. destruct (closed _); [done|]. apply Inv_set_state; auto.
  - cbn. destruct (closed (sh_state (shared s))) eqn:Hc; [|done]. by apply Inv_disconnect.
  - by apply Inv_deliver.
  - cbn. destruct (owed s); [done|]. by apply Inv_deliver.
Qed.
End Safety.
