(* ===== verification/V5AdmissionLive.v ===== *)
(** What the publish admission of the MQTT 5 client guarantees under every interleaving of producers
    and event loop: the budget is exact and never overflows, only publishes that the negotiated
    capabilities allow are queued, a refused publish leaves no trace, and a producer that waits is
    woken. *)

From S2P Require Import Prelude.
From S2P Require Import Utf8.
From S2P Require Import Primitives.
From S2P Require Import FixedBitSet.
From S2P Require Import V5Properties.
From S2P Require Import V5Publish.
From S2P Require Import V5ConnAck.
From S2P Require Import SessionIO.
From S2P Require Import V5SessionFormat.
From S2P Require Import V5Persist.
From S2P Require Import V5Admission.
From S2P Require Import V5AdmissionSystem.
From S2P Require Import V5AdmissionSafety.
#[local] Open Scope Z_scope.

Lemma Inv_init layout policy limits recovery capacity :
  (∀ l, limits = Some l → limits_ok l) → Inv layout (sys_init policy limits recovery capacity).
Proof.
  intros Hl. constructor; try done. cbn. destruct limits as [l|]; [|done]. specialize (Hl l eq_refl).
  destruct Hl as [[? ?] [? ?]]. by split_and!.
Qed.

Lemma reachable_Inv layout s : layout_ok layout → reachable layout s → Inv layout s.
Proof.
  intros Hlay. induction 1 as [policy limits recovery capacity Hl|s a s' _ IH Ha Hs]; [by apply Inv_init|].
  pose proof (Inv_exec layout Hlay s a IH Ha) as H. by rewrite Hs in H.
Qed.

(** C17: the publish budget is exact and its arithmetic never overflows.  In every state that
    producers and the event loop can reach, the number of outstanding publishes is the number of
    reservations in existence (queued, owned by the event loop, or held by the one producer inside
    the critical section), the retained bytes are their sum, and both stay within their limits; no
    step of any thread can panic. *)
Theorem publish_budget_exact layout s :
  layout_ok layout → reachable layout s →
  (∀ b, sh_budget (shared s) = Some b →
     outstanding b = blen (committed s ++ transient s) ∧
     retained_bytes b = total (committed s ++ transient s) ∧
     0 ≤ outstanding b ≤ max_outstanding (limits b) ∧
     0 ≤ retained_bytes b ≤ max_bytes (limits b)) ∧
  ∀ a, action_ok a → sys_exec layout a s ≠ Some Panic.
Proof.
  intros Hlay Hr. pose proof (reachable_Inv layout s Hlay Hr) as Hi. split.
  - intros b Hb. pose proof (inv_budget layout s Hi) as H. rewrite Hb in H.
    destruct H as (_ & Hf & Ho & Ht & Hmo & Hmb). pose proof (total_nonneg _ Hf).
    pose proof (blen_nonneg (committed s ++ transient s)). split_and!; done || lia.
  - intros a Ha Hp. pose proof (Inv_exec layout Hlay s a Hi Ha) as H. by rewrite Hp in H.
Qed.

(** What the negotiated capabilities allow. *)
Definition allowed (state : AdmissionState) (publish : Publish) : Prop :=
  match capabilities state with
  | None => pub_qos publish = AtMostOnce ∧ retain publish = false ∧ publish_alias publish = None
  | Some caps =>
      (retain publish = true → retain_available caps = true) ∧
      qos_rank (pub_qos publish) ≤ qos_rank (maximum_qos caps) ∧
      ∀ alias, publish_alias publish = Some alias →
        alias ≠ 0 ∧ alias ≤ topic_alias_maximum caps ∧
        (topic publish = [] → is_Some (aliases state !! alias))
  end.

Lemma validate_capabilities_ok state publish caps :
  capabilities state = Some caps →
  validate_capabilities state publish (publish_alias publish) caps = Ok tt ↔ allowed state publish.
Proof.
  intros Hc. unfold allowed, validate_capabilities. rewrite Hc.
  destruct (retain publish), (retain_available caps); cbn [andb negb]; try (split; [done|naive_solver]).
  all: destruct (Z.ltb_spec (qos_rank (maximum_qos caps)) (qos_rank (pub_qos publish))); [split; [done|intros (_ & ? & _); lia]|].
  all: destruct (publish_alias publish) as [alias|]; [|split; [intros _; split_and!; [done|lia|done]|done]].
  all: destruct (Z.eqb_spec alias 0); [split; [done|intros (_ & _ & Ha); by destruct (Ha alias)]|].
  all: destruct (Z.ltb_spec (topic_alias_maximum caps) alias);
    [split; [done|intros (_ & _ & Ha); destruct (Ha alias) as (_ & ? & _); [done|lia]]|].
  all: destruct (decide (topic publish = [])) as [Ht|Ht];
    [rewrite (bool_decide_eq_true_2 _ Ht)|rewrite (bool_decide_eq_false_2 _ Ht)]; cbn [andb].
  all: try (split; [intros _; split_and!; [done|lia|by intros ? [= <-]; split_and!]|done]).
  all: case_bool_decide; cbn [negb];
    first [solve [split; [intros _; split_and!; [done|lia|by intros ? [= <-]; split_and!]|done]]
          |split; [done|]; intros (_ & _ & Ha); destruct (Ha alias) as (_ & _ & ?); tauto].
Qed.

Lemma negotiated_allowed sh publish negotiated :
  sh_policy sh = RequireNegotiatedCapabilities → negotiated_ok sh publish negotiated →
  allowed (sh_state sh) publish.
Proof.
  intros Hpol. destruct negotiated; cbn.
  - intros (_ & caps & Hc & Hv). by apply (validate_capabilities_ok _ _ caps Hc).
  - intros [?|[Hc Hd]]; [congruence|]. unfold allowed. rewrite Hc. revert Hd. unfold depends_on_capabilities.
    destruct (pub_qos publish), (retain publish), (publish_alias publish); done.
Qed.

(** Only the send stage queues a publish, and it queues the producer's own. *)
Lemma app_self_nil {A} (l : list A) x : l ≠ l ++ [x].
Proof. intros H. apply (f_equal length) in H. rewrite length_app in H. simpl in H. lia. Qed.

Lemma stage_read {A} (m : M Shared AdmissionFailure A) i p progress unlock next s s' :
  (∀ sh, sh_queue (m sh).2 = sh_queue sh) → stage m i p progress unlock next s = Some (Ok s') →
  sh_queue (shared s') = sh_queue (shared s).
Proof.
  intros Hm. unfold stage. specialize (Hm (shared s)). destruct (m (shared s)) as [[a|f|] sh]; cbn in Hm;
    [intros [= <-]|destruct unlock; intros [= <-]|done]; done.
Qed.

Lemma run_producer_queue layout s i p s' publish reservation :
  Inv layout s → producers s !! i = Some p → run_producer layout i p s = Some (Ok s') →
  sh_queue (shared s') = sh_queue (shared s) ++ [(publish, reservation)] →
  ∃ negotiated, pr_pc p = P_Reserved negotiated reservation ∧ publish = pr_publish p.
Proof.
  intros Hi Hp Hs Hq.
  assert (Hno : sh_queue (shared s') = sh_queue (shared s) → False)
    by (rewrite Hq; intros H; symmetry in H; by apply app_self_nil in H).
  pose proof (inv_pcs layout s Hi i p Hp) as [_ Hk].
  unfold run_producer in Hs. destruct (pr_pc p) as [| |pg|pg b|pg b|pg b|pg b neg|neg r|] eqn:Hpc; try done.
  - injection Hs as <-. by destruct Hno.
  - destruct Hno. eapply stage_read; [|exact Hs]. done.
  - destruct Hno. eapply stage_read; [|exact Hs]. intros sh. unfold check_charge, check_size. rewrite bind_run. cbn.
    repeat case_match; done.
  - destruct (can_lock s); [|done]. destruct Hno. eapply (stage_read closed_gate) in Hs; [done|]. intros sh. unfold closed_gate. rewrite bind_run. cbn [mget]. by destruct (closed _).
  - destruct Hno. eapply stage_read; [|exact Hs]. intros sh. unfold recovery_gate. rewrite bind_run. cbn. repeat case_match; done.
  - destruct Hno. eapply stage_read; [|exact Hs]. intros sh. unfold capability_gate. rewrite bind_run. cbn. repeat case_match; done.
  - destruct Hno. eapply stage_read; [|exact Hs]. intros sh. unfold reserve_budget. rewrite bind_run. cbn. repeat case_match; done.
  - exists neg. destruct Hk as (_ & Hres & _). pose proof (inv_budget layout s Hi) as Hbud.
    assert (Ht : transient s = reservation_list r).
    { unfold transient. rewrite (inv_locked layout s Hi i p Hp) by (by rewrite Hpc). by rewrite Hp, Hpc; destruct r. }
    rewrite Ht in Hbud. destruct (send_and_commit_spec (shared s) (pr_publish p) neg r (committed s) Hres) as (x & sh' & Hrun & Hsent).
    { eapply budget_ok_perm; [apply Permutation_app_comm|exact Hbud]. }
    unfold stage in Hs. rewrite Hrun in Hs. cbn in Hs. injection Hs as <-. cbn in Hq, Hno.
    destruct Hsent as (_ & _ & _ & _ & _ & _ & _ & Hx). destruct x as [[]|e]; [|destruct Hno; apply Hx].
    destruct Hx as [Hx _]. rewrite Hx in Hq. apply app_inj_tail in Hq as [_ [= <- <-]]. done.
Qed.

(** C18: only publishes that the connection allows enter the request channel.  Under strict admission,
    whenever a step of a producer queues a publish, the capabilities and alias bindings in force at
    that step allow it: retain and QoS are supported, a topic alias is in range, and an alias without
    a topic is bound.  Without a connection, only unretained QoS 0 publishes without an alias are
    queued.  No interleaving with reconnects or other producers breaks this. *)
Theorem queued_publish_allowed layout s i s' publish reservation :
  layout_ok layout → reachable layout s → sh_policy (shared s) = RequireNegotiatedCapabilities →
  sys_exec layout (A_Run i) s = Some (Ok s') →
  sh_queue (shared s') = sh_queue (shared s) ++ [(publish, reservation)] →
  allowed (sh_state (shared s)) publish.
Proof.
  intros Hlay Hr Hpol Hs Hq. pose proof (reachable_Inv layout s Hlay Hr) as Hi. cbn in Hs.
  destruct (producers s !! i) as [p|] eqn:Hp; [|done].
  destruct (run_producer_queue layout s i p s' publish reservation Hi Hp Hs Hq) as (negotiated & Hpc & ->).
  pose proof (inv_pcs layout s Hi i p Hp) as [_ Hk]. rewrite Hpc in Hk. destruct Hk as (_ & _ & Hneg).
  by apply (negotiated_allowed _ _ negotiated).
Qed.

(** C19: no wake-up is lost, except after the two drains that announce nothing.  If a producer waits
    after a refusal or a full channel and trying again could now end differently (the recovery has
    finished, a reservation was given back, capabilities arrived, the channel has room, or admission
    was closed), then its wait is over, or a notification is on its way, or the event loop is inside
    its cleanup, which ends with one; or it waits for room in the channel and
    [discard_pending_manual_acknowledgements] or [prepare_pending_topic_aliases_for_reconnect] has
    emptied the channel since the last notification; or the revision has gone through all [2^64]
    values since the waiter was taken. *)
Theorem no_lost_wakeup layout s i p r w :
  layout_ok layout → reachable layout s →
  producers s !! i = Some p → pr_pc p = P_Returned r → waits_on p = Some w →
  ¬ blocked layout s (pr_publish p) r →
  wait_over (w_revision w) (shared s) = true ∨ owed s ≠ O ∨ lock s = Some OwnerLoop ∨
  (r = SendFailed Full ∧ silent s = true) ∨
  w_seen w + 18446744073709551616 ≤ notices s.
Proof.
  intros Hlay Hr Hp Hpc Hw Hnb. pose proof (reachable_Inv layout s Hlay Hr) as Hi.
  pose proof (inv_pcs layout s Hi i p Hp) as [_ Hk]. rewrite Hpc in Hk. destruct Hk as (_ & _ & Hk).
  destruct (Hk w Hw) as [[Hseen Hrev] Hblk]. destruct (inv_revision layout s Hi) as [Hn Hr'].
  destruct (decide (owed s = O)) as [Ho|]; [|by auto]. destruct (decide (lock s = Some OwnerLoop)) as [|n]; [by auto|].
  destruct (decide (w_seen w = notices s)) as [He|Hne]; [destruct (Hblk (conj Ho n) He) as [?|(_ & -> & ?)]; [done|by auto 6]|].
  destruct (Z.le_gt_cases (w_seen w + 18446744073709551616) (notices s)); [by auto 6|]. left.
  unfold wait_over. rewrite Hr', Hrev. unfold u64_wrap. apply negb_true_iff, Z.eqb_neq. intros Hm.
  apply Hne. Z.div_mod_to_equations. lia.
Qed.

(** C21: restoring a session is judged against settled reservations only.  Once recovery has begun
    with the admission lock free ([begin_recovery], or a cleanup during recovery), no producer holds
    a reservation that may still be rolled back, so a checkpoint's publishes are refused exactly when
    they do not fit beside the publishes already sent. *)
Theorem replay_refused_exactly layout s costs b :
  layout_ok layout → reachable layout s → fenced s = true → sh_budget (shared s) = Some b →
  Forall (λ n, 0 ≤ n) costs → blen costs ≤ usize_MAX →
  transient s = [] ∧
  ((∃ b', reserve_replay costs b = (Ok costs, b')) ↔
   blen (committed s) + blen costs ≤ max_outstanding (limits b) ∧
   total (committed s) + total costs ≤ max_bytes (limits b)).
Proof.
  intros Hlay Hr Hf Hb Hc Hlen. pose proof (reachable_Inv layout s Hlay Hr) as Hi.
  destruct (inv_fence layout s Hi Hf b Hb) as [_ Ht]. split; [done|].
  pose proof (inv_budget layout s Hi) as Hbud. rewrite Hb, Ht, app_nil_r in Hbud.
  pose proof (reserve_replay_spec costs b _ Hbud Hc Hlen) as Hs.
  destruct (reserve_replay costs b) as [[l|e|] b']; [| |done].
  - destruct Hs as (-> & Hok & Hlim & _). split; [|by eexists]. intros _.
    destruct Hok as (_ & _ & Ho & Ht' & Hm1 & Hm2). rewrite blen_app in Ho. rewrite total_app in Ht'. rewrite Hlim in *. lia.
  - destruct Hs as (_ & _ & Hs). split; [by intros (? & [=])|lia].
Qed.

(** Giving a reservation back undoes it. *)
Lemma reserve_undo {E} n b b' r :
  reserve n b = (Ok r, b') → 0 ≤ outstanding b → 0 ≤ retained_bytes b →
  r = n ∧ reservation_drop (E:=E) n b' = (Ok tt, b).
Proof.
  unfold reserve. rewrite bind_run. cbn [mget]. destruct (recovery_pending b) eqn:Hp; [done|].
  destruct (_ <=? _); [done|]. rewrite bind_run. unfold usize_sub. destruct (_ <? _); [done|]. cbn [mret M_ret].
  destruct (_ <? _); [done|]. rewrite bind_run. unfold usize_add. destruct (_ <? _); [done|]. cbn [mret M_ret].
  rewrite bind_run. destruct (_ <? _); [done|]. intros [= <- <-] Ho Hr. split; [done|].
  unfold reservation_drop. rewrite bind_run. cbn [mget]. rewrite bind_run. unfold usize_sub.
  cbn [outstanding retained_bytes]. rewrite (proj2 (Z.ltb_ge _ _)) by lia. cbn [mret M_ret]. rewrite bind_run.
  rewrite (proj2 (Z.ltb_ge _ _)) by lia. unfold counted, mmodify. cbn [mret M_ret outstanding retained_bytes limits recovery_pending].
  f_equal. destruct b; cbn in *. f_equal; lia.
Qed.

Lemma with_budget_same sh : sh_budget sh = None → with_budget None sh = sh.
Proof. intros Hsb. unfold with_budget. rewrite <- Hsb. by destruct sh. Qed.

(** A publish that is sent takes its reservation along; otherwise nothing has changed. *)
Definition attempt_post (publish : Publish) (sh : Shared) (l : list usize) (r : unit + TrySendError)
    (sh' : Shared) : Prop :=
  match r with
  | inl _ => ∃ reservation, sh_queue sh' = sh_queue sh ++ [(publish, reservation)] ∧
               budget_ok (sh_budget sh') (reservation_list reservation ++ l)
  | inr _ => sh' = sh
  end.

(** The reserve and send stages together. *)
Lemma reserve_send publish negotiated progress bytes sh l :
  budget_ok (sh_budget sh) l → (sh_budget sh = None ∨ is_Some progress) →
  (∀ b, sh_budget sh = Some b → ∃ n, bytes = Some n ∧ 0 ≤ n ≤ max_bytes (limits b)) →
  wp (reservation ← reserve_budget progress bytes; send_and_commit publish negotiated reservation)
     (attempt_post publish sh l) (λ _ sh', sh' = sh) sh.
Proof.
  intros Hb Hprog Hbytes. unfold wp. rewrite bind_run. unfold reserve_budget. rewrite bind_run. cbn [mget].
  assert (Hdone : ∀ reservation budget, (is_Some reservation ↔ is_Some budget) →
    budget_ok budget (reservation_list reservation ++ l) →
    release (E:=AdmissionFailure) reservation (with_budget budget sh) = (Ok tt, sh) →
    match send_and_commit publish negotiated reservation (with_budget budget sh) with
    | (Ok (inl _), sh') => ∃ reservation, sh_queue sh' = sh_queue sh ++ [(publish, reservation)] ∧
                            budget_ok (sh_budget sh') (reservation_list reservation ++ l)
    | (Ok (inr _), sh') => sh' = sh
    | (Err _, sh') => sh' = sh
    | (Panic, _) => False
    end).
  { intros reservation budget Hiff Hok Hrel.
    destruct (send_and_commit_spec (with_budget budget sh) publish negotiated reservation l Hiff Hok) as (r & sh' & Hrun & Hsent).
    destruct Hsent as (_ & _ & _ & _ & _ & _ & _ & Hx). revert Hrun. unfold send_and_commit, try_send. rewrite !bind_run.
    cbn [mget]. destruct (negb _); [rewrite bind_run, Hrel; cbn; rewrite andb_false_r; by intros [= <- <-]|].
    destruct (_ <=? _)%nat; [rewrite bind_run, Hrel; cbn; rewrite andb_false_r; by intros [= <- <-]|].
    intros Hrun. rewrite Hrun. destruct r as [[]|e].
    2:{ exfalso. revert Hrun. rewrite bind_run. cbn [mput mret M_ret sum_is_ok]. rewrite bind_run.
        destruct (negotiated && true); [|done]. unfold commit_alias. destruct (publish_alias publish); [case_bool_decide|]; done. }
    destruct Hx as [Hq Hbud]. exists reservation. split; [done|]. rewrite Hbud. done. }
  destruct (sh_budget sh) as [b|] eqn:Hsb.
  - destruct (Hbytes b eq_refl) as (n & -> & Hn). pose proof (reserve_spec n b l Hb Hn) as Hr.
    destruct (reserve n b) as [[r|reason|] b'] eqn:Hrun; [| |done].
    + destruct Hr as (-> & Hok & _). cbn. specialize (Hdone (Some n) (Some b')).
      destruct Hb as (_ & Hf & Ho & Ht & _). pose proof (total_nonneg _ Hf). pose proof (blen_nonneg l).
      destruct (reserve_undo (E:=AdmissionFailure) n b b' n Hrun) as [_ Hd]; [lia|lia|].
      apply Hdone; [by split; eexists|done|]. unfold release. rewrite bind_run. cbn [mget with_budget sh_budget]. rewrite Hd.
      unfold mput, with_budget. cbn. rewrite <- Hsb. by destruct sh.
    + destruct Hprog as [?|[w ->]]; [done|]. by destruct (can_wait reason).
  - specialize (Hdone None None). rewrite (with_budget_same sh Hsb) in Hdone. by apply Hdone.
Qed.

Lemma managed_publish_wp layout publish sh l :
  layout_ok layout → budget_ok (sh_budget sh) l →
  wp (try_send_managed_publish layout publish) (attempt_post publish sh l) (λ _ sh', sh' = sh) sh.
Proof.
  intros Hlay Hb. unfold try_send_managed_publish, try_admit_reserved.
  unfold arm. do 2 apply wp_bind. apply wp_get, wp_ret. apply wp_bind. unfold check_charge. apply wp_bind, wp_get.
  set (progress := match sh_budget sh with Some _ => Some (sh_revision sh) | None => None end).
  assert (Hprog : sh_budget sh = None ∨ is_Some progress) by (unfold progress; destruct (sh_budget sh); eauto).
  assert (Hrest : ∀ bytes, (∀ b, sh_budget sh = Some b → ∃ n, bytes = Some n ∧ 0 ≤ n ≤ max_bytes (limits b)) →
    wp (closed_gate;; recovery_gate progress;; negotiated ← capability_gate publish;
        reservation ← reserve_budget progress bytes; send_and_commit publish negotiated reservation)
      (attempt_post publish sh l) (λ _ sh', sh' = sh) sh).
  { intros bytes Hbytes. apply wp_bind. unfold closed_gate. apply wp_bind, wp_get.
    destruct (closed _); [by apply wp_fail|]. apply wp_ret, wp_bind. unfold recovery_gate. apply wp_bind, wp_get.
    assert (Hcap : wp (negotiated ← capability_gate publish;
        reservation ← reserve_budget progress bytes; send_and_commit publish negotiated reservation)
      (attempt_post publish sh l) (λ _ sh', sh' = sh) sh).
    { apply wp_bind. unfold capability_gate. apply wp_bind, wp_get.
      case_bool_decide; [apply wp_ret; by apply reserve_send|].
      destruct (capabilities _); [destruct (validate_capabilities _ _ _ _) eqn:Hv;
        [apply wp_ret; by apply reserve_send|by apply wp_fail|by apply validate_capabilities_panic in Hv]|].
      destruct (depends_on_capabilities publish); [|apply wp_ret; by apply reserve_send].
      by apply wp_bind; unfold waiter; apply wp_bind, wp_get, wp_ret, wp_fail. }
    destruct (sh_budget sh) eqn:Hsb; [|by apply wp_ret]. destruct (recovery_pending _); [|by apply wp_ret].
    destruct Hprog as [?|[w Hw]]; [done|]. rewrite Hw. by apply wp_fail. }
  destruct (sh_budget sh) as [b|] eqn:Hsb; [|by apply wp_ret, Hrest].
  unfold check_size. destruct (publish_charge layout publish) as [n|] eqn:Hn; [|by apply wp_fail].
  destruct (Z.ltb_spec (max_bytes (limits b)) n); [by apply wp_fail|]. apply wp_ret, Hrest. intros ? [= <-].
  exists n. split; [done|]. split; [|done]. apply publish_charge_spec in Hn as [-> _]; [|done].
  apply publish_bytes_nonneg; [done|case_bool_decide; [done|apply blen_nonneg]|apply blen_nonneg].
Qed.

(** C20: a publish that is not admitted leaves no trace.  When [try_send_managed_publish] refuses a
    publish, or the channel does not take it, the budget, the alias bindings, the capabilities and
    the channel are what they were before. *)
Theorem refused_publish_unchanged layout publish sh l :
  layout_ok layout → budget_ok (sh_budget sh) l →
  match try_send_managed_publish layout publish sh with
  | (Ok (inl _), sh') =>
      ∃ reservation, sh_queue sh' = sh_queue sh ++ [(publish, reservation)] ∧
        budget_ok (sh_budget sh') (reservation_list reservation ++ l)
  | (Ok (inr _), sh') | (Err _, sh') => sh' = sh
  | (Panic, _) => False
  end.
Proof.
  intros Hlay Hb. pose proof (managed_publish_wp layout publish sh l Hlay Hb) as H. unfold wp in H.
  by destruct (try_send_managed_publish layout publish sh) as [[[]| |] ?].
Qed.

(** ** The stages compose to the function *)

(** [s] with producer [p] at [pc], the admission lock [l] and the shared object [sh]. *)
Definition at_pc (s : System) (i : nat) (p : Producer) (pc : Pc) (l : option Owner) (sh : Shared) : System :=
  mkSystem sh l (<[i := mkProducer (pr_publish p) (pr_progress p) pc]> (producers s)) (held s) (owed s)
    (notices s) (fenced s) (silent s).

Fixpoint run_steps (layout : Layout) (n : nat) (i : nat) (s : System) : option System :=
  match n with
  | O => Some s
  | S n => match sys_exec layout (A_Run i) s with Some (Ok s') => run_steps layout n i s' | _ => None end
  end.

Section Sequential.
  Context (layout : Layout) (s : System) (i : nat) (p : Producer).

(** Producer [i] can go from [pc] to its end without interruption, and returns what [m] returns. *)
Definition finishes (pc : Pc) (l : option Owner) (sh : Shared)
    (m : M Shared AdmissionFailure (unit + TrySendError)) : Prop :=
  ∃ n a, run_steps layout n i (at_pc s i p pc l sh) = Some (at_pc s i p (P_Returned a) None (m sh).2) ∧
    match (m sh).1 with
    | Ok r => a = attempt_of r
    | Err f => ∃ w, a = Refused f w
    | Panic => False
    end.

Lemma exec_at pc l sh :
  sys_exec layout (A_Run i) (at_pc s i p pc l sh) =
  run_producer layout i (mkProducer (pr_publish p) (pr_progress p) pc) (at_pc s i p pc l sh).
Proof. cbn. by rewrite lookup_insert_eq. Qed.

Lemma finishes_stage {A} (m : M Shared AdmissionFailure A) k pc l l1 sh progress unlock next :
  run_producer layout i (mkProducer (pr_publish p) (pr_progress p) pc) (at_pc s i p pc l sh) =
    stage m i (mkProducer (pr_publish p) (pr_progress p) pc) progress unlock next (at_pc s i p pc l1 sh) →
  (unlock = false → l1 = None) →
  ((m ≫= k) sh).1 ≠ Panic →
  (∀ a, m sh = (Ok a, (m sh).2) → finishes (next a) l1 (m sh).2 (k a)) →
  finishes pc l sh (m ≫= k).
Proof.
  intros Hrun Hl Hnp Hk. unfold finishes. rewrite bind_run in *.
  assert (Hins : ∀ sh' pc', set_producer i (mkProducer (pr_publish p) (pr_progress p) pc')
    (set_shared sh' (at_pc s i p pc l1 sh)) = at_pc s i p pc' l1 sh').
  { intros. unfold at_pc, set_producer, set_shared. cbn. by rewrite insert_insert_eq. }
  destruct (m sh) as [[a|f|] sh'] eqn:Hm; [| |done].
  - destruct (Hk a eq_refl) as (n & at' & Hn & Hres). exists (S n), at'. split; [|done]. cbn [run_steps].
    rewrite exec_at, Hrun. unfold stage. cbn [shared at_pc]. rewrite Hm. unfold done. cbn [pr_publish pr_progress].
    rewrite Hins. exact Hn.
  - eexists 1%nat, _. split; [|by eexists]. cbn [run_steps]. rewrite exec_at, Hrun. unfold stage. cbn [shared at_pc].
    rewrite Hm. unfold done. cbn [pr_publish pr_progress].
    rewrite Hins. destruct unlock; [done|]. by rewrite (Hl eq_refl).
Qed.

Lemma finishes_send negotiated reservation sh :
  (send_and_commit (pr_publish p) negotiated reservation sh).1 ≠ Panic →
  finishes (P_Reserved negotiated reservation) (Some (OwnerProducer i)) sh
    (send_and_commit (pr_publish p) negotiated reservation).
Proof.
  intros Hnp. unfold finishes. destruct (send_and_commit _ _ _ sh) as [[r|f|] sh'] eqn:Hm; [| |done];
    eexists 1%nat, _; (split; [cbn [run_steps]; rewrite exec_at; cbn [run_producer pr_pc]; unfold stage; cbn [shared at_pc pr_publish];
      rewrite Hm; unfold done, set_lock, set_producer, set_shared, at_pc; cbn; rewrite insert_insert_eq; done|]); by eexists.
Qed.

(** The part of a run that may still panic does not. *)
Lemma bind_no_panic {A C} (m : M Shared AdmissionFailure A) (k : A → M Shared AdmissionFailure C) sh a sh' :
  ((m ≫= k) sh).1 ≠ Panic → m sh = (Ok a, sh') → (k a sh').1 ≠ Panic.
Proof. intros Hnp Hm. by rewrite bind_run, Hm in Hnp. Qed.

Lemma finishes_attempt sh :
  (try_send_managed_publish layout (pr_publish p) sh).1 ≠ Panic →
  finishes P_Armed None sh (try_send_managed_publish layout (pr_publish p)).
Proof.
  unfold try_send_managed_publish, try_admit_reserved. intros Hnp.
  eapply finishes_stage; [done|done|exact Hnp|]. intros a Ha. pose proof (bind_no_panic _ _ _ _ _ Hnp Ha) as Hnp1. clear Hnp.
  set (pg := match a with Some _ => Some (take_waiter (at_pc s i p P_Armed None sh)) | None => None end).
  assert (Hpg : a = w_revision <$> pg).
  { unfold pg. unfold arm in Ha. rewrite bind_run in Ha. cbn in Ha. injection Ha as <-. by destruct (sh_budget sh). }
  change (finishes (P_Checking pg) None (arm sh).2 (bytes ← check_charge layout (pr_publish p); closed_gate;; recovery_gate a;;
    negotiated ← capability_gate (pr_publish p); reservation ← reserve_budget a bytes;
    send_and_commit (pr_publish p) negotiated reservation)). rewrite Hpg in Hnp1 |- *. clearbody pg.
  eapply finishes_stage; [done|done|exact Hnp1|]. intros bytes Hb. pose proof (bind_no_panic _ _ _ _ _ Hnp1 Hb) as Hnp2. clear Hnp1 Hb.
  eapply (finishes_stage _ _ _ _ (Some (OwnerProducer i))); [done|done|exact Hnp2|]. intros u Hu.
  pose proof (bind_no_panic _ _ _ _ _ Hnp2 Hu) as Hnp3. clear Hnp2 Hu.
  eapply finishes_stage; [done|done|exact Hnp3|]. intros u' Hu. pose proof (bind_no_panic _ _ _ _ _ Hnp3 Hu) as Hnp4. clear Hnp3 Hu.
  eapply finishes_stage; [done|done|exact Hnp4|]. intros neg Hu. pose proof (bind_no_panic _ _ _ _ _ Hnp4 Hu) as Hnp5. clear Hnp4 Hu.
  eapply finishes_stage; [done|done|exact Hnp5|]. intros r Hu. pose proof (bind_no_panic _ _ _ _ _ Hnp5 Hu) as Hnp6. clear Hnp5 Hu.
  by apply finishes_send.
Qed.
End Sequential.

(** The interleaved stages implement [try_send_managed_publish].  From any reachable state in
    which the admission lock is free, a producer that runs without interruption reaches exactly the
    shared state and the result of the sequential function, with the lock free again. *)
Theorem attempt_runs_function layout s i p :
  layout_ok layout → reachable layout s → lock s = None → producers s !! i = Some p → pr_pc p = P_Armed →
  ∃ n a s', run_steps layout n i s = Some s' ∧
    shared s' = (try_send_managed_publish layout (pr_publish p) (shared s)).2 ∧ lock s' = None ∧
    producers s' = <[i := mkProducer (pr_publish p) (pr_progress p) (P_Returned a)]> (producers s) ∧
    match (try_send_managed_publish layout (pr_publish p) (shared s)).1 with
    | Ok r => a = attempt_of r
    | Err f => ∃ w, a = Refused f w
    | Panic => False
    end.
Proof.
  intros Hlay Hr Hl Hp Hpc. pose proof (reachable_Inv layout s Hlay Hr) as Hi.
  assert (Hat : at_pc s i p P_Armed None (shared s) = s).
  { unfold at_pc. rewrite insert_id; [by rewrite <- Hl; destruct s|]. by rewrite Hp, <- Hpc; destruct p. }
  destruct (finishes_attempt layout s i p (shared s)) as (n & a & Hn & Hres).
  { pose proof (managed_publish_wp layout (pr_publish p) (shared s) _ Hlay (inv_budget layout s Hi)) as H.
    unfold wp in H. by destruct (try_send_managed_publish _ _ _) as [[]]. }
  rewrite Hat in Hn. by eexists n, a, _.
Qed.

(** ** A run: two producers with a budget of one outstanding publish *)

Fixpoint run_actions (layout : Layout) (l : list Action) (s : System) : option System :=
  match l with
  | [] => Some s
  | a :: l => match sys_exec layout a s with Some (Ok s') => run_actions layout l s' | _ => None end
  end.

Lemma reachable_run layout l s s' :
  reachable layout s → Forall action_ok l → run_actions layout l s = Some s' → reachable layout s'.
Proof.
  intros Hr Hl. revert s Hr. induction Hl as [|a l Ha _ IH]; intros s Hr; cbn; [by intros [= <-]|].
  destruct (sys_exec layout a s) as [[s1| |]|] eqn:Hs; [|done..]. apply IH. by eapply reach_step.
Qed.

Definition demo_limits : PublishBudgetLimits := mkPublishBudgetLimits 1 70000.
Definition demo_init : System := sys_init RequireNegotiatedCapabilities (Some demo_limits) false 2.
Definition demo_connack5 : ConnAck :=
  mkConnAck false CRC_Success (Some (mkConnAckProperties None None (Some 1) (Some 1) None None (Some 4) None []
    None None None None None None None None)).
Definition demo_publish5 : Publish :=
  mkPublish false AtLeastOnce true [97; 47; 98] 0 [1; 2]
    (Some (mkPublishProperties None None (Some 3) None None [] [] None)).
Definition demo_prefix : list Action :=
  [A_InstallConnack demo_connack5; A_Notify; A_Start 0 demo_publish5] ++ repeat (A_Run 0) 7.
Definition demo_second : list Action := [A_Run 0; A_Start 1 demo_publish5] ++ repeat (A_Run 1) 7.
Definition demo_state (l : list Action) : System :=
  match run_actions demo_layout5 l demo_init with Some s => s | None => demo_init end.

Lemma demo_layout5_ok : layout_ok demo_layout5.
Proof. vm_compute. intuition discriminate. Qed.

Lemma demo_limits_ok l : Some demo_limits = Some l → limits_ok l.
Proof. intros [= <-]. vm_compute. intuition discriminate. Qed.

Lemma admission_demo_reachable l :
  Forall action_ok l → is_Some (run_actions demo_layout5 l demo_init) → reachable demo_layout5 (demo_state l).
Proof.
  intros Hl [s Hs]. unfold demo_state. rewrite Hs. eapply reachable_run; [|exact Hl|exact Hs].
  apply reach_init, demo_limits_ok.
Qed.

Ltac demo := apply admission_demo_reachable; [repeat constructor|vm_compute; by eexists].

Lemma publish_budget_exact_witness :
  let s := demo_state (demo_prefix ++ demo_second) in
  (∃ b, sh_budget (shared s) = Some b ∧ outstanding b = 1 ∧ blen (committed s ++ transient s) = 1) ∧
  sys_exec demo_layout5 A_Recv s ≠ Some Panic.
Proof.
  destruct (publish_budget_exact demo_layout5 (demo_state (demo_prefix ++ demo_second)) demo_layout5_ok ltac:(demo))
    as [Hb Hp]. cbv zeta. split.
  - destruct (sh_budget (shared (demo_state (demo_prefix ++ demo_second)))) as [b|] eqn:Hs; [|vm_compute in Hs; discriminate].
    exists b. destruct (Hb b eq_refl) as (Ho & _). split; [reflexivity|]. rewrite Ho. split; reflexivity.
  - apply Hp. exact I.
Defined.

Lemma queued_publish_allowed_witness :
  allowed (sh_state (shared (demo_state demo_prefix))) demo_publish5.
Proof.
  apply (queued_publish_allowed demo_layout5 (demo_state demo_prefix) 0 (demo_state (demo_prefix ++ [A_Run 0]))
    demo_publish5 (Some 5) demo_layout5_ok ltac:(demo)); vm_compute; reflexivity.
Defined.

(** The second producer was refused; then the event loop takes the first publish and finishes it. *)
Lemma no_lost_wakeup_witness :
  let s := demo_state (demo_prefix ++ demo_second ++ [A_Recv; A_Release 0]) in
  ∃ p r w, producers s !! 1%nat = Some p ∧ pr_pc p = P_Returned r ∧ waits_on p = Some w ∧
    (wait_over (w_revision w) (shared s) = true ∨ owed s ≠ O ∨ lock s = Some OwnerLoop ∨
     (r = SendFailed Full ∧ silent s = true) ∨ w_seen w + 18446744073709551616 ≤ notices s).
Proof.
  cbv zeta. set (s := demo_state _).
  set (p := mkProducer demo_publish5 (Some (mkWaiter 1 1))
    (P_Returned (Refused (Budget CountExhausted (Some 1)) (Some (mkWaiter 1 1))))).
  exists p, (Refused (Budget CountExhausted (Some 1)) (Some (mkWaiter 1 1))), (mkWaiter 1 1).
  assert (Hp : producers s !! 1%nat = Some p) by (vm_compute; reflexivity).
  split; [exact Hp|]. split; [reflexivity|]. split; [reflexivity|].
  apply (no_lost_wakeup demo_layout5 s 1 p (Refused (Budget CountExhausted (Some 1)) (Some (mkWaiter 1 1))) (mkWaiter 1 1)
    demo_layout5_ok ltac:(demo) Hp eq_refl eq_refl).
  intros [_ (b & Hb & Hx)]. revert Hb Hx. vm_compute. intros [= <-] Hx. by apply Hx.
Defined.

(** The exception is real: with a channel for one publish, the second producer waits for room; the
    drain makes it, every reservation is as before, and nobody is told. *)
Lemma silent_drain_strands :
  let init := sys_init EventLoopValidated None false 1 in
  let run i := [A_Start i demo_publish5] ++ repeat (A_Run i) 8 in
  match run_actions demo_layout5 (run 0%nat ++ run 1%nat ++ [A_DrainSilently]) init with
  | Some s => ∃ p w, producers s !! 1%nat = Some p ∧ pr_pc p = P_Returned (SendFailed Full) ∧
      waits_on p = Some w ∧ sh_queue (shared s) = [] ∧ ¬ blocked demo_layout5 s (pr_publish p) (SendFailed Full) ∧
      wait_over (w_revision w) (shared s) = false ∧ owed s = O ∧ lock s = None
  | None => False
  end.
Proof. vm_compute. eexists _, _. split_and!; try done. intros [_ H]. by apply Nat.le_ngt in H; apply H; constructor. Qed.

Lemma replay_refused_exactly_witness :
  let s := demo_state [A_BeginRecovery] in
  ∃ b, sh_budget (shared s) = Some b ∧ ¬ ∃ b', reserve_replay [10; 20] b = (Ok [10; 20], b').
Proof.
  cbv zeta. set (s := demo_state _).
  destruct (sh_budget (shared s)) as [b|] eqn:Hb; [|vm_compute in Hb; discriminate]. exists b. split; [reflexivity|].
  destruct (replay_refused_exactly demo_layout5 s [10; 20] b demo_layout5_ok ltac:(demo) ltac:(reflexivity) Hb
    ltac:(repeat constructor; lia) ltac:(vm_compute; discriminate)) as [_ Hiff].
  rewrite Hiff. revert Hb. vm_compute. intros [= <-] [Hx _]. by apply Hx.
Defined.

Lemma refused_publish_unchanged_witness :
  (try_send_managed_publish demo_layout5 demo_publish5 (shared demo_init)).2 = shared demo_init.
Proof.
  pose proof (refused_publish_unchanged demo_layout5 demo_publish5 (shared demo_init) [] demo_layout5_ok
    (inv_budget demo_layout5 demo_init (Inv_init demo_layout5 _ _ _ _ demo_limits_ok))) as H.
  destruct (try_send_managed_publish demo_layout5 demo_publish5 (shared demo_init)) as [[[]|e|] sh] eqn:Hr;
    [vm_compute in Hr; discriminate|exact H|exact H|destruct H].
Defined.

Lemma attempt_runs_function_witness :
  let s := demo_state [A_InstallConnack demo_connack5; A_Notify; A_Start 0 demo_publish5; A_Run 0] in
  ∃ n s', run_steps demo_layout5 n 0 s = Some s' ∧ lock s' = None ∧
    shared s' = (try_send_managed_publish demo_layout5 demo_publish5 (shared s)).2.
Proof.
  cbv zeta. set (s := demo_state _).
  destruct (attempt_runs_function demo_layout5 s 0 (mkProducer demo_publish5 (Some (mkWaiter 1 1)) P_Armed)
    demo_layout5_ok ltac:(demo)) as (n & a & s' & Hn & Hs & Hl & _); [vm_compute; reflexivity..|].
  exists n, s'. split; [exact Hn|]. split; [exact Hl|exact Hs].
Defined.
