(* ===== verification/V5SessionTypes.v ===== *)
(** [rumqttc-v5/src/state.rs], [lib.rs], [notice.rs], [redirect.rs]: the data of the MQTT 5 client
    session other than the session state itself: events, errors, notices and their outcomes, the
    exchange of enhanced authentication.

    A notice handle is the sending half of a one-shot channel; it is identified by a number.  A
    string the code formats from an error is a [Text], which keeps what is formatted. *)

From Stdlib Require Import String.
From S2P Require Import Prelude.
From S2P Require Import Utf8.
From S2P Require Import Primitives.
From S2P Require Import V5Base.
From S2P Require Import V5Properties.
From S2P Require Import V5Acks.
From S2P Require Import V5SubAck.
From S2P Require Import V5Subscribe.
From S2P Require Import V5Publish.
From S2P Require Import V5ConnAck.
From S2P Require Import V5Disconnect.
From S2P Require Import V5Auth.
From S2P Require Import V5Packet.
From S2P Require Import V5Persist.
#[local] Open Scope Z_scope.

Abbreviation Instant := Z (only parsing).
Abbreviation NoticeTx := nat (only parsing).

#[global] Instance AckMode_eq_dec5 : EqDecision AckMode.
Proof. solve_decision. Defined.

(** ** Enhanced authentication ([lib.rs], [notice.rs]) *)

Inductive AuthExchangeKind := InitialConnect | Reauthentication.

#[global] Instance AuthExchangeKind_eq_dec : EqDecision AuthExchangeKind.
Proof. solve_decision. Defined.

Record AuthContext := mkAuthContext {
  ctx_client_id : Bytes;
  ctx_kind : AuthExchangeKind;
  ctx_method : Bytes;
}.

(** Strings: literals of the code, what an application gives, and what [to_string] and [format!]
    make of an error. *)
Inductive Text :=
| T_literal (s : string)
| T_application (s : Bytes)
| T_method_mismatch (actual expected : Bytes)
| T_authentication_error (inner : Text)
| T_AuthError (e : AuthError)
| T_AuthNoticeError (e : AuthNoticeError)
| T_AuthenticatorLockPoisoned
with AuthError :=
| AE_BrokerRejected (reason : ConnectReturnCode)
| AE_BrokerDisconnected (reason : DisconnectReasonCode)
| AE_Failed (message : Text)
with AuthNoticeError :=
| AN_BrokerRejected (reason : ConnectReturnCode)
| AN_BrokerDisconnected (reason : DisconnectReasonCode)
| AN_Recv
| AN_SessionReset
| AN_Redirected
| AN_ProtocolError
| AN_AuthenticationFailed (message : Text)
| AN_ConnectionClosed
| AN_OverlappingReauth
| AN_MissingAuthenticationMethod.

Inductive AuthAction := AA_Send (properties : AuthProperties) | AA_Complete | AA_Fail (message : Text).

Inductive AuthFailureReason :=
| AF_BrokerDisconnected (reason : DisconnectReasonCode)
| AF_SessionReset
| AF_Redirected
| AF_ProtocolError
| AF_AuthenticationFailed (message : Text)
| AF_ConnectionClosed
| AF_OverlappingReauth
| AF_MissingAuthenticationMethod
| AF_NoticeDropped.

Definition AuthFailureReason_from_notice_error (error : AuthNoticeError) : AuthFailureReason :=
  match error with
  | AN_BrokerRejected _ | AN_ConnectionClosed => AF_ConnectionClosed
  | AN_BrokerDisconnected reason => AF_BrokerDisconnected reason
  | AN_Recv => AF_NoticeDropped
  | AN_SessionReset => AF_SessionReset
  | AN_Redirected => AF_Redirected
  | AN_ProtocolError => AF_ProtocolError
  | AN_AuthenticationFailed message => AF_AuthenticationFailed message
  | AN_OverlappingReauth => AF_OverlappingReauth
  | AN_MissingAuthenticationMethod => AF_MissingAuthenticationMethod
  end.

Inductive AuthEvent :=
| AuthEv_Started (kind : AuthExchangeKind) (method : Bytes)
| AuthEv_Continue (kind : AuthExchangeKind) (method : Bytes)
| AuthEv_Succeeded (kind : AuthExchangeKind) (method : Bytes)
| AuthEv_Failed (kind : AuthExchangeKind) (method : Bytes) (reason : AuthFailureReason).

(** ** Events ([lib.rs], [eventloop.rs], [redirect.rs]) *)

Inductive RedirectReason := RR_UseAnotherServer | RR_ServerMoved.
Inductive RedirectSource := RS_ConnAck | RS_Disconnect.

Record RedirectOutcome := mkRedirectOutcome {
  ro_reason : RedirectReason;
  ro_server_reference : option Bytes;
  ro_source : RedirectSource;
}.

Inductive Outgoing :=
| O_Publish (pkid : u16)
| O_Subscribe (pkid : u16)
| O_Unsubscribe (pkid : u16)
| O_PubAck (pkid : u16)
| O_PubRec (pkid : u16)
| O_PubRel (pkid : u16)
| O_PubComp (pkid : u16)
| O_PingReq
| O_PingResp
| O_Disconnect
| O_AwaitAck (pkid : u16)
| O_Auth.

Inductive Event :=
| Ev_Incoming (packet : Packet)
| Ev_Outgoing (o : Outgoing)
| Ev_Auth (e : AuthEvent)
| Ev_Redirect (outcome : RedirectOutcome).

(** ** Notices ([notice.rs]) *)

Inductive NoticeFailureReason := NF_SessionReset | NF_Redirected.

Inductive PublishResult :=
| Qos0Flushed
| Qos1 (puback : PubAck)
| Qos2Completed (pubcomp : PubComp)
| Qos2Recovered (pubcomp : PubComp)
| Qos2PubRecRejected (pubrec : PubRec).

(** The errors of publish notices that the session state gives. *)
Inductive PublishNoticeError :=
| PN_SessionReset
| PN_Redirected
| PN_TopicAliasReplayUnavailable (alias : u16)
| PN_TopicAliasInvalid (alias maximum : u16)
| PN_TopicAliasMappingUnavailable (alias : u16).

(** Those of subscribe and of unsubscribe notices. *)
Inductive ControlNoticeError := CN_SessionReset | CN_Redirected.

Definition publish_error (self : NoticeFailureReason) : PublishNoticeError :=
  match self with NF_SessionReset => PN_SessionReset | NF_Redirected => PN_Redirected end.
Definition subscribe_error (self : NoticeFailureReason) : ControlNoticeError :=
  match self with NF_SessionReset => CN_SessionReset | NF_Redirected => CN_Redirected end.
Definition unsubscribe_error (self : NoticeFailureReason) : ControlNoticeError :=
  match self with NF_SessionReset => CN_SessionReset | NF_Redirected => CN_Redirected end.
Definition auth_error (self : NoticeFailureReason) : AuthNoticeError :=
  match self with NF_SessionReset => AN_SessionReset | NF_Redirected => AN_Redirected end.

Inductive TrackedNoticeTx :=
| TN_Publish (tx : NoticeTx)
| TN_Subscribe (tx : NoticeTx)
| TN_Unsubscribe (tx : NoticeTx)
| TN_Auth (tx : NoticeTx).

Inductive DeferredNotice :=
| DN_Publish (tx : NoticeTx) (result : PublishResult)
| DN_Subscribe (tx : NoticeTx) (suback : SubAck)
| DN_Unsubscribe (tx : NoticeTx) (unsuback : UnsubAck).

(** What a notice has been completed with. *)
Inductive Settlement :=
| S_Publish (result : PublishResult)
| S_PublishError (e : PublishNoticeError)
| S_Subscribe (suback : SubAck)
| S_SubscribeError (e : ControlNoticeError)
| S_Unsubscribe (unsuback : UnsubAck)
| S_UnsubscribeError (e : ControlNoticeError)
| S_AuthSuccess
| S_AuthError (e : AuthNoticeError).

Definition DeferredNotice_complete (self : DeferredNotice) : NoticeTx * Settlement :=
  match self with
  | DN_Publish tx result => (tx, S_Publish result)
  | DN_Subscribe tx suback => (tx, S_Subscribe suback)
  | DN_Unsubscribe tx unsuback => (tx, S_Unsubscribe unsuback)
  end.

(** ** Errors ([state.rs]) *)

Inductive ProtocolViolation :=
| DuplicateConnAck
| UnexpectedIncomingPacket (t : PacketType)
| SubAckReturnCodeCountMismatch (pkid : u16) (expected actual : usize)
| UnsubAckReasonCodeCountMismatch (pkid : u16) (expected actual : usize).

Inductive StateError :=
| SE_Io
| SE_Coversion
| InvalidState
| OutgoingPublishQuotaExceeded (maximum : u16)
| Unsolicited (pkid : u16)
| AwaitPingResp
| CollisionTimeout
| SE_EmptySubscription
| SE_EmptyUnsubscription
| Deserialization (e : Error)
| SE_ProtocolViolation (v : ProtocolViolation)
| InvalidAlias (alias max : u16)
| SE_RetainNotSupported
| SE_QoSNotSupported (requested maximum : QoS)
| SE_WildcardSubscriptionNotSupported
| SE_SubscriptionIdentifiersNotSupported
| SE_SharedSubscriptionNotSupported
| SE_OutgoingPacketTooLarge (pkt_size max : u32)
| SE_IncomingPacketTooLarge (pkt_size max : usize)
| ServerDisconnect (reason : DisconnectReasonCode) (reason_string : option Bytes)
| ServerRedirect (outcome : RedirectOutcome)
| ConnFail (reason : ConnectReturnCode)
| ConnectionAborted
| SE_AuthError (message : Text)
| AuthenticatorNotSet
| AuthenticatorLockPoisoned.

Inductive UnsupportedBrokerCapability :=
| RetainedPublish
| PublishQoS (requested maximum : QoS)
| SubscriptionIdentifiers
| SharedSubscription
| WildcardSubscription.

Definition UnsupportedBrokerCapability_state_error (self : UnsupportedBrokerCapability) : StateError :=
  match self with
  | RetainedPublish => SE_RetainNotSupported
  | PublishQoS requested maximum => SE_QoSNotSupported requested maximum
  | SubscriptionIdentifiers => SE_SubscriptionIdentifiersNotSupported
  | SharedSubscription => SE_SharedSubscriptionNotSupported
  | WildcardSubscription => SE_WildcardSubscriptionNotSupported
  end.

(** ** Keep alive ([state.rs]) *)

Inductive PingState := Idle (collision_count : usize) | AwaitingResp (collision_count : usize).

Definition PingState_new : PingState := Idle 0.

Definition PingState_await_pingresp (self : PingState) : bool :=
  match self with AwaitingResp _ => true | Idle _ => false end.

Definition PingState_collision_count (self : PingState) : usize :=
  match self with Idle collision_count | AwaitingResp collision_count => collision_count end.

(** The new count, and the new state. *)
Definition PingState_increment_collision_count (self : PingState) : usize * PingState :=
  let collision_count := PingState_collision_count self + 1 in
  (collision_count,
   match self with
   | Idle _ => Idle collision_count
   | AwaitingResp _ => AwaitingResp collision_count
   end).

Definition PingState_begin_waiting_for_resp (self : PingState) : PingState :=
  AwaitingResp (PingState_collision_count self).

Definition PingState_finish_waiting_for_resp (self : PingState) : PingState :=
  Idle (PingState_collision_count self).

Definition PingState_reset_collision_count (self : PingState) : PingState :=
  if PingState_await_pingresp self then AwaitingResp 0 else Idle 0.

(** ** Requests in progress, and what a handler returns ([state.rs]) *)

Record PendingSubscribe := mkPendingSubscribe {
  ps_subscribe : Subscribe;
  ps_notice : option NoticeTx;
}.

Record PendingUnsubscribe := mkPendingUnsubscribe {
  pu_unsubscribe : Unsubscribe;
  pu_notice : option NoticeTx;
}.

Record CleanRequest := mkCleanRequest {
  cr_request : Request;
  cr_notice : option TrackedNoticeTx;
  cr_replay : bool;
}.

Record IncomingPacketEffects := mkEffects {
  eff_outgoing : option Packet;
  eff_notices : list DeferredNotice;
}.

Definition effects_outgoing (outgoing : option Packet) : IncomingPacketEffects :=
  {| eff_outgoing := outgoing; eff_notices := [] |}.

Definition with_notice (self : IncomingPacketEffects) (notice : DeferredNotice)
  : IncomingPacketEffects :=
  {| eff_outgoing := eff_outgoing self; eff_notices := eff_notices self ++ [notice] |}.
