(* ===== verification/V5AuthLifecycle.v ===== *)
(** [rumqttc-v5/src/auth.rs]: the lifecycle of enhanced authentication, the trait [Authenticator] of
    [lib.rs] as a class, and the theorems about exchanges.

    The methods of [AuthLifecycle] are given the queue of events and complete notices; both are part
    of the state [AuthCx] they run on. *)

From Stdlib Require Import String.
From S2P Require Import Prelude.
From S2P Require Import Utf8.
From S2P Require Import Primitives.
From S2P Require Import V5Base.
From S2P Require Import V5Properties.
From S2P Require Import V5ConnAck.
From S2P Require Import V5Disconnect.
From S2P Require Import V5Auth.
From S2P Require Import V5Packet.
From S2P Require Import V5SessionTypes.
#[local] Open Scope Z_scope.

(** The application's authenticator behind its mutex.  Callbacks return; a callback that panics is
    what poisons the lock. *)
Class Authenticator (A : Type) := {
  lock_poisoned : A → bool;
  auth_start : A → AuthContext → (AuthError + option AuthProperties) * A;
  auth_continue : A → AuthContext → option AuthProperties → (AuthError + AuthAction) * A;
  auth_success : A → AuthContext → option AuthProperties → (AuthError + unit) * A;
  auth_failure : A → AuthContext → AuthError → A;
}.

Inductive AuthState :=
| AS_Idle
| AS_Initial (method : Bytes)
| AS_Reauth (method : Bytes) (request_id : u64) (notice : option NoticeTx).

Definition AuthState_kind (self : AuthState) : option AuthExchangeKind :=
  match self with
  | AS_Idle => None
  | AS_Initial _ => Some InitialConnect
  | AS_Reauth _ _ _ => Some Reauthentication
  end.

Definition AuthState_method (self : AuthState) : option Bytes :=
  match self with
  | AS_Idle => None
  | AS_Initial method | AS_Reauth method _ _ => Some method
  end.

Definition AuthState_clone (self : AuthState) : AuthState :=
  match self with
  | AS_Idle => AS_Idle
  | AS_Initial method => AS_Initial method
  | AS_Reauth method request_id _ => AS_Reauth method request_id None
  end.

Record AuthLifecycle := mkAuthLifecycle {
  al_method : option Bytes;
  al_state : AuthState;
  al_next_request_id : u64;
}.

Definition AuthLifecycle_new (method : option Bytes) : AuthLifecycle :=
  {| al_method := method; al_state := AS_Idle; al_next_request_id := 1 |}.

Definition AuthLifecycle_clone (self : AuthLifecycle) : AuthLifecycle :=
  {| al_method := al_method self; al_state := AuthState_clone (al_state self);
     al_next_request_id := al_next_request_id self |}.

Definition set_method (method : option Bytes) (self : AuthLifecycle) : AuthLifecycle :=
  {| al_method := method; al_state := al_state self;
     al_next_request_id := al_next_request_id self |}.

Definition active_exchange (self : AuthLifecycle) : option (AuthExchangeKind * Bytes) :=
  kind ← AuthState_kind (al_state self);
  method ← AuthState_method (al_state self);
  Some (kind, method).

(** The lifecycle, the events queued and the notices completed. *)
Record AuthCx := mkAuthCx {
  cx_auth : AuthLifecycle;
  cx_events : list Event;
  cx_settled : list (NoticeTx * Settlement);
}.

Abbreviation AM := (M AuthCx StateError).

Definition cx_set_state (state : AuthState) : AM unit :=
  mmodify (λ c, {| cx_auth := {| al_method := al_method (cx_auth c); al_state := state;
                                al_next_request_id := al_next_request_id (cx_auth c) |};
                   cx_events := cx_events c; cx_settled := cx_settled c |}).
Definition cx_push (e : AuthEvent) : AM unit :=
  mmodify (λ c, {| cx_auth := cx_auth c; cx_events := cx_events c ++ [Ev_Auth e];
                   cx_settled := cx_settled c |}).
Definition cx_settle (tx : NoticeTx) (r : Settlement) : AM unit :=
  mmodify (λ c, {| cx_auth := cx_auth c; cx_events := cx_events c;
                   cx_settled := cx_settled c ++ [(tx, r)] |}).
Definition cx_settle_opt (tx : option NoticeTx) (r : Settlement) : AM unit :=
  match tx with Some tx => cx_settle tx r | None => mret tt end.

Definition protocol_error : StateError := Deserialization ProtocolError.

Definition begin_connect (method : option Bytes) : AM unit :=
  mmodify (λ c, {| cx_auth := set_method method (cx_auth c); cx_events := cx_events c;
                   cx_settled := cx_settled c |});;
  match method with
  | None => cx_set_state AS_Idle
  | Some method =>
      cx_push (AuthEv_Started InitialConnect method);;
      cx_set_state (AS_Initial method)
  end.

(** The notice of an active exchange is completed and its failure queued. *)
Definition fail_active (reason : AuthNoticeError) : AM (list AuthEvent) :=
  c ← mget;
  match AuthState_kind (al_state (cx_auth c)) with
  | None => mret []
  | Some kind =>
      let method := default [] (AuthState_method (al_state (cx_auth c))) in
      (match al_state (cx_auth c) with
       | AS_Reauth m id notice =>
           cx_set_state (AS_Reauth m id None);;
           cx_settle_opt notice (S_AuthError reason)
       | _ => mret tt
       end);;
      mret [AuthEv_Failed kind method (AuthFailureReason_from_notice_error reason)]
  end.

Definition cx_extend (events : list AuthEvent) : AM unit :=
  mmodify (λ c, {| cx_auth := cx_auth c; cx_events := cx_events c ++ (Ev_Auth <$> events);
                   cx_settled := cx_settled c |}).

Definition auth_reset (reason : AuthNoticeError) : AM unit :=
  failed ← fail_active reason;
  cx_extend failed;;
  cx_set_state AS_Idle.

Definition reset_reauth (reason : AuthNoticeError) : AM (option (Bytes * AuthNoticeError)) :=
  c ← mget;
  match al_state (cx_auth c) with
  | AS_Reauth method _ _ =>
      failed ← fail_active reason;
      cx_extend failed;;
      cx_set_state AS_Idle;;
      mret (Some (method, reason))
  | _ => mret None
  end.

Definition validate_successful_connack (self : AuthLifecycle) (connack : ConnAck)
  : outcome StateError unit :=
  let actual := properties ← connack_properties connack; ca_authentication_method properties in
  match al_method self, actual with
  | Some expected, Some actual => if decide (expected = actual) then Ok tt else Err protocol_error
  | None, None => Ok tt
  | _, _ => Err protocol_error
  end.

Definition complete_initial_connack : AM unit :=
  c ← mget;
  match al_state (cx_auth c) with
  | AS_Initial method =>
      cx_push (AuthEv_Succeeded InitialConnect method);;
      cx_set_state AS_Idle
  | AS_Idle | AS_Reauth _ _ _ => mret tt
  end.

Definition normalize_auth_properties (expected : Bytes) (properties : option AuthProperties)
  : outcome StateError AuthProperties :=
  let properties := default AuthProperties_default properties in
  match auth_method properties with
  | Some actual =>
      if decide (actual = expected) then Ok properties
      else Err (SE_AuthError (T_method_mismatch actual expected))
  | None =>
      Ok {| auth_method := Some expected; auth_data := auth_data properties;
            auth_reason := auth_reason properties;
            auth_user_properties := auth_user_properties properties |}
  end.

(** [StateError::to_string] of the errors [normalize_auth_properties] gives. *)
Definition normalize_error_text (e : StateError) : Text :=
  match e with SE_AuthError message => T_authentication_error message | _ => T_literal "other" end.

Definition u64_MAX : Z := 18446744073709551615.

Definition begin_reauth (properties : option AuthProperties) (notice : option NoticeTx) : AM Auth :=
  c ← mget;
  match al_state (cx_auth c) with
  | AS_Idle =>
      match al_method (cx_auth c) with
      | None =>
          cx_settle_opt notice (S_AuthError AN_MissingAuthenticationMethod);;
          mfail (SE_AuthError (T_literal "AUTH packet requires a CONNECT Authentication Method"))
      | Some method =>
          match normalize_auth_properties method properties with
          | Err err =>
              cx_settle_opt notice (S_AuthError (AN_AuthenticationFailed (normalize_error_text err)));;
              mfail err
          | Panic => mpanic
          | Ok properties =>
              let request_id := al_next_request_id (cx_auth c) in
              mmodify (λ c, {| cx_auth :=
                                 {| al_method := al_method (cx_auth c);
                                    al_state := AS_Reauth method request_id notice;
                                    al_next_request_id := Z.min (request_id + 1) u64_MAX |};
                               cx_events := cx_events c; cx_settled := cx_settled c |});;
              cx_push (AuthEv_Started Reauthentication method);;
              mret (Auth_new ARC_ReAuthenticate (Some properties))
          end
      end
  | _ =>
      cx_settle_opt notice (S_AuthError AN_OverlappingReauth);;
      mfail (SE_AuthError
        (T_literal "cannot start re-authentication while an authentication exchange is active"))
  end.

Definition reauth_method (self : AuthLifecycle) : outcome AuthNoticeError Bytes :=
  match al_state self with
  | AS_Idle => ok_or (al_method self) AN_MissingAuthenticationMethod
  | _ => Err AN_OverlappingReauth
  end.

Inductive IncomingAuthEffect :=
| IA_Continue (kind : AuthExchangeKind)
| IA_Success (kind : AuthExchangeKind) (method : Bytes).

Definition active_method (self : AuthLifecycle) : outcome StateError Bytes :=
  ok_or (AuthState_method (al_state self)) protocol_error.

Definition validate_incoming_auth_method (expected : Bytes) (properties : option AuthProperties)
  : outcome StateError unit :=
  match (p ← properties; auth_method p) with
  | None => Err protocol_error
  | Some actual => if decide (actual = expected) then Ok tt else Err protocol_error
  end.

Definition incoming_success (self : AuthLifecycle) (auth : Auth) : outcome StateError IncomingAuthEffect :=
  match AuthState_kind (al_state self) with
  | Some Reauthentication =>
      method ← active_method self;
      validate_incoming_auth_method method (auth_properties auth);;
      mret (IA_Success Reauthentication method)
  | _ => Err protocol_error
  end.

Definition incoming_continue (auth : Auth) : AM IncomingAuthEffect :=
  c ← mget;
  match AuthState_kind (al_state (cx_auth c)) with
  | None => mfail protocol_error
  | Some kind =>
      method ← lift (active_method (cx_auth c));
      lift (validate_incoming_auth_method method (auth_properties auth));;
      cx_push (AuthEv_Continue kind method);;
      mret (IA_Continue kind)
  end.

Definition incoming_auth (auth : Auth) : AM IncomingAuthEffect :=
  match auth_code auth with
  | ARC_Success => c ← mget; lift (incoming_success (cx_auth c) auth)
  | ARC_Continue => incoming_continue auth
  | ARC_ReAuthenticate => mfail protocol_error
  end.

Definition complete_success (kind : AuthExchangeKind) (method : Bytes) : AM unit :=
  c ← mget;
  (match al_state (cx_auth c) with
   | AS_Reauth m id notice =>
       cx_set_state (AS_Reauth m id None);;
       cx_settle_opt notice S_AuthSuccess
   | _ => mret tt
   end);;
  cx_push (AuthEv_Succeeded kind method);;
  cx_set_state AS_Idle.

Definition outgoing_continue (self : AuthLifecycle) (properties : option AuthProperties)
  : outcome StateError Auth :=
  method ← active_method self;
  properties ← normalize_auth_properties method properties;
  mret (Auth_new ARC_Continue (Some properties)).

Definition into_continue_properties (self : AuthAction) : AuthError + option AuthProperties :=
  match self with
  | AA_Send properties => inr (Some properties)
  | AA_Complete => inr None
  | AA_Fail message => inl (AE_Failed message)
  end.
