(* ===== verification/V5TopicAlias.v ===== *)
(** [rumqttc-v5/src/state.rs]: topic aliases, in both directions.  The operations are those of
    [MqttState] that read and change only its field [topic_aliases]; here they are functions of that
    field.  A [HashMap] is a [gmap]. *)

From S2P Require Import Prelude.
From S2P Require Import Utf8.
From S2P Require Import Primitives.
From S2P Require Import PacketIds.
From S2P Require Import V5Base.
From S2P Require Import V5Properties.
From S2P Require Import V5Publish.
From S2P Require Import V5Persist.
From S2P Require Import V5SessionTypes.
#[local] Open Scope Z_scope.

Inductive TopicAliasPolicy := TAP_Disabled | TAP_Monotonic | TAP_Lru.

#[global] Instance TopicAliasPolicy_eq_dec : EqDecision TopicAliasPolicy.
Proof. solve_decision. Defined.

Record PendingAutoTopicAlias := mkPendingAutoTopicAlias {
  pending_topic : Bytes;
  pending_alias : u16;
  previous_topic : option Bytes;
}.

Inductive AutoTopicAliasAction :=
| Existing (original_topic : Bytes) (alias : u16)
| New (pending : PendingAutoTopicAlias).

Record TopicAliasState := mkTopicAliasState {
  ta_incoming : gmap Z (list Z);
  ta_outgoing : gmap Z (list Z);
  ta_auto_outgoing : gmap (list Z) Z;
  ta_next_auto : option u16;
  ta_auto_policy : TopicAliasPolicy;
  ta_auto_lru : list u16;
  ta_broker_max : u16;
  ta_client_max : u16;
}.

Definition TopicAliasState_new (auto_policy : TopicAliasPolicy) (client_max : u16) : TopicAliasState :=
  {| ta_incoming := ∅; ta_outgoing := ∅; ta_auto_outgoing := ∅; ta_next_auto := Some 1;
     ta_auto_policy := auto_policy; ta_auto_lru := []; ta_broker_max := 0;
     ta_client_max := client_max |}.

Definition reset_connection_scoped (self : TopicAliasState) : TopicAliasState :=
  {| ta_incoming := ∅; ta_outgoing := ∅; ta_auto_outgoing := ∅; ta_next_auto := Some 1;
     ta_auto_policy := ta_auto_policy self; ta_auto_lru := []; ta_broker_max := 0;
     ta_client_max := ta_client_max self |}.

Definition replay_aliases (self : TopicAliasState) : gmap Z (list Z) := ta_outgoing self.

(** Assignments to one field. *)
Definition set_incoming (v : gmap Z (list Z)) (t : TopicAliasState) : TopicAliasState :=
  mkTopicAliasState v (ta_outgoing t) (ta_auto_outgoing t) (ta_next_auto t) (ta_auto_policy t)
    (ta_auto_lru t) (ta_broker_max t) (ta_client_max t).
Definition set_outgoing (v : gmap Z (list Z)) (t : TopicAliasState) : TopicAliasState :=
  mkTopicAliasState (ta_incoming t) v (ta_auto_outgoing t) (ta_next_auto t) (ta_auto_policy t)
    (ta_auto_lru t) (ta_broker_max t) (ta_client_max t).
Definition set_auto_outgoing (v : gmap (list Z) Z) (t : TopicAliasState) : TopicAliasState :=
  mkTopicAliasState (ta_incoming t) (ta_outgoing t) v (ta_next_auto t) (ta_auto_policy t)
    (ta_auto_lru t) (ta_broker_max t) (ta_client_max t).
Definition set_next_auto (v : option u16) (t : TopicAliasState) : TopicAliasState :=
  mkTopicAliasState (ta_incoming t) (ta_outgoing t) (ta_auto_outgoing t) v (ta_auto_policy t)
    (ta_auto_lru t) (ta_broker_max t) (ta_client_max t).
Definition set_auto_lru (v : list u16) (t : TopicAliasState) : TopicAliasState :=
  mkTopicAliasState (ta_incoming t) (ta_outgoing t) (ta_auto_outgoing t) (ta_next_auto t)
    (ta_auto_policy t) v (ta_broker_max t) (ta_client_max t).
Definition set_broker_max (v : u16) (t : TopicAliasState) : TopicAliasState :=
  mkTopicAliasState (ta_incoming t) (ta_outgoing t) (ta_auto_outgoing t) (ta_next_auto t)
    (ta_auto_policy t) (ta_auto_lru t) v (ta_client_max t).
Definition set_client_max (v : u16) (t : TopicAliasState) : TopicAliasState :=
  mkTopicAliasState (ta_incoming t) (ta_outgoing t) (ta_auto_outgoing t) (ta_next_auto t)
    (ta_auto_policy t) (ta_auto_lru t) (ta_broker_max t) v.

(** ** Publishes *)

Definition with_topic (publish : Publish) (topic : Bytes) : Publish :=
  {| dup := dup publish; pub_qos := pub_qos publish; retain := retain publish; topic := topic;
     pub_pkid := pub_pkid publish; payload := payload publish;
     pub_properties := pub_properties publish |}.

Definition with_properties (publish : Publish) (properties : option PublishProperties) : Publish :=
  {| dup := dup publish; pub_qos := pub_qos publish; retain := retain publish;
     topic := topic publish; pub_pkid := pub_pkid publish; payload := payload publish;
     pub_properties := properties |}.

Definition with_topic_alias (properties : PublishProperties) (alias : option u16) : PublishProperties :=
  {| payload_format_indicator := payload_format_indicator properties;
     message_expiry_interval := message_expiry_interval properties;
     topic_alias := alias;
     response_topic := response_topic properties;
     correlation_data := correlation_data properties;
     pub_user_properties := pub_user_properties properties;
     subscription_identifiers := subscription_identifiers properties;
     content_type := content_type properties |}.

Definition publish_topic_alias (publish : Publish) : option u16 :=
  props ← pub_properties publish; topic_alias props.

Definition set_publish_topic_alias (publish : Publish) (alias : u16) : Publish :=
  let properties := default PublishProperties_default (pub_properties publish) in
  with_properties publish (Some (with_topic_alias properties (Some alias))).

Definition strip_publish_topic_alias (publish : Publish) : Publish :=
  match pub_properties publish with
  | Some props => with_properties publish (Some (with_topic_alias props None))
  | None => publish
  end.

Definition restore_for_replay (self : AutoTopicAliasAction) (publish : Publish) : Publish :=
  match self with
  | Existing original_topic _ => strip_publish_topic_alias (with_topic publish original_topic)
  | New _ => strip_publish_topic_alias publish
  end.

(** ** Automatic aliases *)

Definition next_available_auto_topic_alias (self : TopicAliasState) : option u16 :=
  next_auto_topic_alias ← ta_next_auto self;
  List.find (λ alias, is_none (ta_outgoing self !! alias))
    (seqZ next_auto_topic_alias (ta_broker_max self - next_auto_topic_alias + 1)).

(** The [for] loop, over the entries left. *)
Fixpoint least_recent_loop (self : TopicAliasState) (entries : list u16) : option (u16 * option Bytes) :=
  match entries with
  | [] => None
  | alias :: entries =>
      if (alias =? 0) || (ta_broker_max self <? alias) then least_recent_loop self entries
      else
        match ta_outgoing self !! alias with
        | None => least_recent_loop self entries
        | Some topic =>
            if bool_decide (ta_auto_outgoing self !! topic = Some alias) then Some (alias, Some topic)
            else least_recent_loop self entries
        end
  end.

Definition least_recent_auto_topic_alias (self : TopicAliasState) : option (u16 * option Bytes) :=
  least_recent_loop self (ta_auto_lru self).

Definition next_auto_topic_alias_assignment (self : TopicAliasState) : option (u16 * option Bytes) :=
  match next_available_auto_topic_alias self with
  | Some alias => Some (alias, None)
  | None =>
      if decide (ta_auto_policy self = TAP_Lru) then least_recent_auto_topic_alias self else None
  end.

(** The publish with its alias, and the action that assigned it. *)
Definition apply_auto_topic_alias (self : TopicAliasState) (publish : Publish)
  : Publish * option AutoTopicAliasAction :=
  if bool_decide (ta_auto_policy self = TAP_Disabled) || (ta_broker_max self =? 0)
     || bool_decide (topic publish = []) || is_some (publish_topic_alias publish)
  then (publish, None)
  else
    match ta_auto_outgoing self !! topic publish with
    | Some alias =>
        (with_topic (set_publish_topic_alias publish alias) [], Some (Existing (topic publish) alias))
    | None =>
        match next_auto_topic_alias_assignment self with
        | None => (publish, None)
        | Some (alias, previous) =>
            (set_publish_topic_alias publish alias,
             Some (New {| pending_topic := topic publish; pending_alias := alias;
                          previous_topic := previous |}))
        end
    end.

Definition record_auto_topic_alias_use (alias : u16) (self : TopicAliasState) : TopicAliasState :=
  if decide (ta_auto_policy self = TAP_Lru) then
    set_auto_lru (filter (λ entry, entry ≠ alias) (ta_auto_lru self) ++ [alias]) self
  else self.

(** The [while] loop from [alias] on; [None] also when [checked_add] overflows.  The loop leaves at
    the first alias past the maximum, after at most [broker_max - alias + 1] turns. *)
Fixpoint advance_loop (fuel : nat) (self : TopicAliasState) (alias : u16) : option u16 :=
  if (alias <=? ta_broker_max self) && is_some (ta_outgoing self !! alias) then
    match fuel with
    | O => None
    | S fuel => if alias =? u16_MAX then None else advance_loop fuel self (alias + 1)
    end
  else if alias <=? ta_broker_max self then Some alias else None.

Definition advance_next_auto_topic_alias (self : TopicAliasState) : TopicAliasState :=
  match ta_next_auto self with
  | None => self
  | Some alias =>
      set_next_auto (advance_loop (Z.to_nat (ta_broker_max self - alias + 1)) self alias) self
  end.

Definition record_auto_topic_alias (pending : PendingAutoTopicAlias) (self : TopicAliasState)
  : TopicAliasState :=
  let self := match previous_topic pending with
              | Some previous => set_auto_outgoing (delete previous (ta_auto_outgoing self)) self
              | None => self
              end in
  let self := set_auto_outgoing
                (<[pending_topic pending := pending_alias pending]> (ta_auto_outgoing self)) self in
  let self := set_outgoing
                (<[pending_alias pending := pending_topic pending]> (ta_outgoing self)) self in
  let self := record_auto_topic_alias_use (pending_alias pending) self in
  advance_next_auto_topic_alias self.

(** ** Aliases the application gives *)

Definition validate_outgoing_topic_alias (self : TopicAliasState) (publish : Publish)
  : outcome StateError unit :=
  match publish_topic_alias publish with
  | Some alias =>
      if (alias =? 0) || (ta_broker_max self <? alias)
      then Err (InvalidAlias alias (ta_broker_max self)) else Ok tt
  | None => Ok tt
  end.

Definition outgoing_topic_alias_error (self : TopicAliasState) (publish : Publish)
  : option PublishNoticeError :=
  alias ← publish_topic_alias publish;
  if (alias =? 0) || (ta_broker_max self <? alias)
  then Some (PN_TopicAliasInvalid alias (ta_broker_max self))
  else if bool_decide (topic publish = []) && is_none (ta_outgoing self !! alias)
  then Some (PN_TopicAliasMappingUnavailable alias)
  else None.

Definition record_outgoing_topic_alias (publish : Publish) (self : TopicAliasState) : TopicAliasState :=
  match publish_topic_alias publish with
  | Some alias =>
      if bool_decide (topic publish = []) then self
      else
        let previous := ta_outgoing self !! alias in
        let self := set_outgoing (<[alias := topic publish]> (ta_outgoing self)) self in
        let self := match previous with
                    | Some previous =>
                        if decide (previous = topic publish) then self
                        else
                          set_auto_lru (filter (λ entry, entry ≠ alias) (ta_auto_lru self))
                            (set_auto_outgoing (delete previous (ta_auto_outgoing self)) self)
                    | None => self
                    end in
        set_auto_outgoing
          (filter (λ '(t, mapped), mapped ≠ alias ∨ t = topic publish) (ta_auto_outgoing self)) self
  | None => self
  end.

(** ** Replay: the alias is replaced by the topic *)

Definition publish_for_replay_tracking (self : TopicAliasState) (publish : Publish) : Publish :=
  if bool_decide (topic publish = []) then
    match (alias ← publish_topic_alias publish; ta_outgoing self !! alias) with
    | Some t => with_topic publish t
    | None => publish
    end
  else publish.

Definition prepare_publish_for_replay_with_aliases (publish : Publish) (aliases : gmap Z (list Z))
  : (PublishNoticeError + Publish) * gmap Z (list Z) :=
  match publish_topic_alias publish with
  | None => (inr publish, aliases)
  | Some alias =>
      if negb (bool_decide (topic publish = [])) then
        (inr (strip_publish_topic_alias publish), <[alias := topic publish]> aliases)
      else
        match aliases !! alias with
        | Some t => (inr (strip_publish_topic_alias (with_topic publish t)), <[alias := t]> aliases)
        | None => (inl (PN_TopicAliasReplayUnavailable alias), aliases)
        end
  end.

Definition prepare_request_for_replay_with_aliases (request : Request) (aliases : gmap Z (list Z))
  : (PublishNoticeError + Request) * gmap Z (list Z) :=
  match request with
  | R_Publish publish =>
      match prepare_publish_for_replay_with_aliases publish aliases with
      | (inr publish, aliases) => (inr (R_Publish publish), aliases)
      | (inl e, aliases) => (inl e, aliases)
      end
  | _ => (inr request, aliases)
  end.
