(* ===== verification/V5StateRecord.v ===== *)
(** [rumqttc-v5/src/state.rs]: the record [MqttState] of the MQTT 5 session, and assignment to its
    fields.

    [B] is the type of bit sets, [A] that of the application's authenticator.  An asynchronous
    authenticator is an object of the application's that keeps nothing of the session: only whether
    there is one is recorded, and its answers are arguments of the operations that wait for them.
    [connection_failure_packet] is the slot [ConnectionFailurePacketSlot].  The last field is not in
    the struct: it holds the notices completed so far, in order. *)

From S2P Require Import Prelude.
From S2P Require Import Utf8.
From S2P Require Import Primitives.
From S2P Require Import FixedBitSet.
From S2P Require Import PacketIds.
From S2P Require Import V5Base.
From S2P Require Import V5Properties.
From S2P Require Import V5Publish.
From S2P Require Import V5Packet.
From S2P Require Import V5Persist.
From S2P Require Import V5SessionTypes.
From S2P Require Import V5AuthLifecycle.
From S2P Require Import V5TopicAlias.
#[local] Open Scope Z_scope.

Record MqttState (B A : Type) := mkMqttState {
  ping : PingState;
  last_incoming : Instant;
  last_outgoing : Instant;
  last_pkid : u16;
  inflight : u16;
  outgoing_publish_quota : B;
  outgoing_pub : list (option Publish);
  outgoing_pub_order : list u16;
  outgoing_pub_notice : list (option NoticeTx);
  outgoing_rel : B;
  outgoing_rel_order : list u16;
  outgoing_rel_recovery : B;
  outgoing_rel_replay : B;
  outgoing_rel_replay_order : list u16;
  outgoing_rel_notice : list (option NoticeTx);
  incoming_puback : B;
  incoming_pub : B;
  incoming_pubrec : B;
  incoming_publish_quota : B;
  incoming_inflight : u16;
  max_incoming_inflight : u16;
  outbound_pkid_in_use : B;
  outbound_pkid_count : u16;
  collision : option Publish;
  collision_notice : option NoticeTx;
  pending_subscribe : gmap Z PendingSubscribe;
  pending_unsubscribe : gmap Z PendingUnsubscribe;
  events : list Event;
  connection_failure_packet : option (option Packet);
  ack_mode : AckMode;
  topic_aliases : TopicAliasState;
  connack_received : bool;
  retain_available : bool;
  maximum_qos : QoS;
  wildcard_subscription_available : bool;
  subscription_identifiers_available : bool;
  shared_subscription_available : bool;
  max_outgoing_inflight : u16;
  max_outgoing_inflight_upper_limit : u16;
  authenticator : option A;
  async_authenticator : bool;
  auth_client_id : Bytes;
  auth : AuthLifecycle;
  settled : list (NoticeTx * Settlement);
}.
Arguments mkMqttState {B A}.
Arguments ping {B A} _.
Arguments last_incoming {B A} _.
Arguments last_outgoing {B A} _.
Arguments last_pkid {B A} _.
Arguments inflight {B A} _.
Arguments outgoing_publish_quota {B A} _.
Arguments outgoing_pub {B A} _.
Arguments outgoing_pub_order {B A} _.
Arguments outgoing_pub_notice {B A} _.
Arguments outgoing_rel {B A} _.
Arguments outgoing_rel_order {B A} _.
Arguments outgoing_rel_recovery {B A} _.
Arguments outgoing_rel_replay {B A} _.
Arguments outgoing_rel_replay_order {B A} _.
Arguments outgoing_rel_notice {B A} _.
Arguments incoming_puback {B A} _.
Arguments incoming_pub {B A} _.
Arguments incoming_pubrec {B A} _.
Arguments incoming_publish_quota {B A} _.
Arguments incoming_inflight {B A} _.
Arguments max_incoming_inflight {B A} _.
Arguments outbound_pkid_in_use {B A} _.
Arguments outbound_pkid_count {B A} _.
Arguments collision {B A} _.
Arguments collision_notice {B A} _.
Arguments pending_subscribe {B A} _.
Arguments pending_unsubscribe {B A} _.
Arguments events {B A} _.
Arguments connection_failure_packet {B A} _.
Arguments ack_mode {B A} _.
Arguments topic_aliases {B A} _.
Arguments connack_received {B A} _.
Arguments retain_available {B A} _.
Arguments maximum_qos {B A} _.
Arguments wildcard_subscription_available {B A} _.
Arguments subscription_identifiers_available {B A} _.
Arguments shared_subscription_available {B A} _.
Arguments max_outgoing_inflight {B A} _.
Arguments max_outgoing_inflight_upper_limit {B A} _.
Arguments authenticator {B A} _.
Arguments async_authenticator {B A} _.
Arguments auth_client_id {B A} _.
Arguments auth {B A} _.
Arguments settled {B A} _.

(** A state, field by field. *)
Definition eta {B A} (s : MqttState B A) : MqttState B A :=
  mkMqttState (ping s) (last_incoming s) (last_outgoing s) (last_pkid s) (inflight s)
    (outgoing_publish_quota s) (outgoing_pub s) (outgoing_pub_order s) (outgoing_pub_notice s)
    (outgoing_rel s) (outgoing_rel_order s) (outgoing_rel_recovery s) (outgoing_rel_replay s)
    (outgoing_rel_replay_order s) (outgoing_rel_notice s) (incoming_puback s) (incoming_pub s)
    (incoming_pubrec s) (incoming_publish_quota s) (incoming_inflight s) (max_incoming_inflight
    s) (outbound_pkid_in_use s) (outbound_pkid_count s) (collision s) (collision_notice s)
    (pending_subscribe s) (pending_unsubscribe s) (events s) (connection_failure_packet s)
    (ack_mode s) (topic_aliases s) (connack_received s) (retain_available s) (maximum_qos s)
    (wildcard_subscription_available s) (subscription_identifiers_available s)
    (shared_subscription_available s) (max_outgoing_inflight s)
    (max_outgoing_inflight_upper_limit s) (authenticator s) (async_authenticator s)
    (auth_client_id s) (auth s) (settled s).

(** Assignment to one field: [new] in the place of [old] in the state [whole]. *)
Ltac assign_field whole old new :=
  let fields := eval cbv beta delta [eta] in whole in
  match fields with context C [old] => let r := context C [new] in exact r end.

Definition set_ping {B A} (v : PingState) (s : MqttState B A) : MqttState B A :=
  ltac:(assign_field (eta s) (ping s) v).
Definition set_last_incoming {B A} (v : Instant) (s : MqttState B A) : MqttState B A :=
  ltac:(assign_field (eta s) (last_incoming s) v).
Definition set_last_outgoing {B A} (v : Instant) (s : MqttState B A) : MqttState B A :=
  ltac:(assign_field (eta s) (last_outgoing s) v).
Definition set_last_pkid {B A} (v : u16) (s : MqttState B A) : MqttState B A :=
  ltac:(assign_field (eta s) (last_pkid s) v).
Definition set_inflight {B A} (v : u16) (s : MqttState B A) : MqttState B A :=
  ltac:(assign_field (eta s) (inflight s) v).
Definition set_outgoing_publish_quota {B A} (v : B) (s : MqttState B A) : MqttState B A :=
  ltac:(assign_field (eta s) (outgoing_publish_quota s) v).
Definition set_outgoing_pub {B A} (v : list (option Publish)) (s : MqttState B A) : MqttState B A :=
  ltac:(assign_field (eta s) (outgoing_pub s) v).
Definition set_outgoing_pub_order {B A} (v : list u16) (s : MqttState B A) : MqttState B A :=
  ltac:(assign_field (eta s) (outgoing_pub_order s) v).
Definition set_outgoing_pub_notice {B A} (v : list (option NoticeTx)) (s : MqttState B A) : MqttState B A :=
  ltac:(assign_field (eta s) (outgoing_pub_notice s) v).
Definition set_outgoing_rel {B A} (v : B) (s : MqttState B A) : MqttState B A :=
  ltac:(assign_field (eta s) (outgoing_rel s) v).
Definition set_outgoing_rel_order {B A} (v : list u16) (s : MqttState B A) : MqttState B A :=
  ltac:(assign_field (eta s) (outgoing_rel_order s) v).
Definition set_outgoing_rel_recovery {B A} (v : B) (s : MqttState B A) : MqttState B A :=
  ltac:(assign_field (eta s) (outgoing_rel_recovery s) v).
Definition set_outgoing_rel_replay {B A} (v : B) (s : MqttState B A) : MqttState B A :=
  ltac:(assign_field (eta s) (outgoing_rel_replay s) v).
Definition set_outgoing_rel_replay_order {B A} (v : list u16) (s : MqttState B A) : MqttState B A :=
  ltac:(assign_field (eta s) (outgoing_rel_replay_order s) v).
Definition set_outgoing_rel_notice {B A} (v : list (option NoticeTx)) (s : MqttState B A) : MqttState B A :=
  ltac:(assign_field (eta s) (outgoing_rel_notice s) v).
Definition set_incoming_puback {B A} (v : B) (s : MqttState B A) : MqttState B A :=
  ltac:(assign_field (eta s) (incoming_puback s) v).
Definition set_incoming_pub {B A} (v : B) (s : MqttState B A) : MqttState B A :=
  ltac:(assign_field (eta s) (incoming_pub s) v).
Definition set_incoming_pubrec {B A} (v : B) (s : MqttState B A) : MqttState B A :=
  ltac:(assign_field (eta s) (incoming_pubrec s) v).
Definition set_incoming_publish_quota {B A} (v : B) (s : MqttState B A) : MqttState B A :=
  ltac:(assign_field (eta s) (incoming_publish_quota s) v).
Definition set_incoming_inflight {B A} (v : u16) (s : MqttState B A) : MqttState B A :=
  ltac:(assign_field (eta s) (incoming_inflight s) v).
Definition set_max_incoming_inflight {B A} (v : u16) (s : MqttState B A) : MqttState B A :=
  ltac:(assign_field (eta s) (max_incoming_inflight s) v).
Definition set_outbound_pkid_in_use {B A} (v : B) (s : MqttState B A) : MqttState B A :=
  ltac:(assign_field (eta s) (outbound_pkid_in_use s) v).
Definition set_outbound_pkid_count {B A} (v : u16) (s : MqttState B A) : MqttState B A :=
  ltac:(assign_field (eta s) (outbound_pkid_count s) v).
Definition set_collision {B A} (v : option Publish) (s : MqttState B A) : MqttState B A :=
  ltac:(assign_field (eta s) (collision s) v).
Definition set_collision_notice {B A} (v : option NoticeTx) (s : MqttState B A) : MqttState B A :=
  ltac:(assign_field (eta s) (collision_notice s) v).
Definition set_pending_subscribe {B A} (v : gmap Z PendingSubscribe) (s : MqttState B A) : MqttState B A :=
  ltac:(assign_field (eta s) (pending_subscribe s) v).
Definition set_pending_unsubscribe {B A} (v : gmap Z PendingUnsubscribe) (s : MqttState B A) : MqttState B A :=
  ltac:(assign_field (eta s) (pending_unsubscribe s) v).
Definition set_events {B A} (v : list Event) (s : MqttState B A) : MqttState B A :=
  ltac:(assign_field (eta s) (events s) v).
Definition set_connection_failure_packet {B A} (v : option (option Packet)) (s : MqttState B A) : MqttState B A :=
  ltac:(assign_field (eta s) (connection_failure_packet s) v).
Definition set_topic_aliases {B A} (v : TopicAliasState) (s : MqttState B A) : MqttState B A :=
  ltac:(assign_field (eta s) (topic_aliases s) v).
Definition set_connack_received {B A} (v : bool) (s : MqttState B A) : MqttState B A :=
  ltac:(assign_field (eta s) (connack_received s) v).
Definition set_retain_available {B A} (v : bool) (s : MqttState B A) : MqttState B A :=
  ltac:(assign_field (eta s) (retain_available s) v).
Definition set_maximum_qos {B A} (v : QoS) (s : MqttState B A) : MqttState B A :=
  ltac:(assign_field (eta s) (maximum_qos s) v).
Definition set_wildcard_subscription_available {B A} (v : bool) (s : MqttState B A) : MqttState B A :=
  ltac:(assign_field (eta s) (wildcard_subscription_available s) v).
Definition set_subscription_identifiers_available {B A} (v : bool) (s : MqttState B A) : MqttState B A :=
  ltac:(assign_field (eta s) (subscription_identifiers_available s) v).
Definition set_shared_subscription_available {B A} (v : bool) (s : MqttState B A) : MqttState B A :=
  ltac:(assign_field (eta s) (shared_subscription_available s) v).
Definition set_max_outgoing_inflight {B A} (v : u16) (s : MqttState B A) : MqttState B A :=
  ltac:(assign_field (eta s) (max_outgoing_inflight s) v).
Definition set_authenticator {B A} (v : option A) (s : MqttState B A) : MqttState B A :=
  ltac:(assign_field (eta s) (authenticator s) v).
Definition set_async_authenticator {B A} (v : bool) (s : MqttState B A) : MqttState B A :=
  ltac:(assign_field (eta s) (async_authenticator s) v).
Definition set_auth_client_id {B A} (v : Bytes) (s : MqttState B A) : MqttState B A :=
  ltac:(assign_field (eta s) (auth_client_id s) v).
Definition set_auth {B A} (v : AuthLifecycle) (s : MqttState B A) : MqttState B A :=
  ltac:(assign_field (eta s) (auth s) v).
Definition set_settled {B A} (v : list (NoticeTx * Settlement)) (s : MqttState B A) : MqttState B A :=
  ltac:(assign_field (eta s) (settled s) v).

(** Reduce the fields of a state built by assignments. *)
Ltac fields :=
  cbn [set_ping set_last_incoming set_last_outgoing set_last_pkid set_inflight
       set_outgoing_publish_quota set_outgoing_pub set_outgoing_pub_order
       set_outgoing_pub_notice set_outgoing_rel set_outgoing_rel_order set_outgoing_rel_recovery
       set_outgoing_rel_replay set_outgoing_rel_replay_order set_outgoing_rel_notice
       set_incoming_puback set_incoming_pub set_incoming_pubrec set_incoming_publish_quota
       set_incoming_inflight set_max_incoming_inflight set_outbound_pkid_in_use
       set_outbound_pkid_count set_collision set_collision_notice set_pending_subscribe
       set_pending_unsubscribe set_events set_connection_failure_packet set_topic_aliases
       set_connack_received set_retain_available set_maximum_qos
       set_wildcard_subscription_available set_subscription_identifiers_available
       set_shared_subscription_available set_max_outgoing_inflight set_authenticator
       set_async_authenticator set_auth_client_id set_auth set_settled ping last_incoming
       last_outgoing last_pkid inflight outgoing_publish_quota outgoing_pub outgoing_pub_order
       outgoing_pub_notice outgoing_rel outgoing_rel_order outgoing_rel_recovery
       outgoing_rel_replay outgoing_rel_replay_order outgoing_rel_notice incoming_puback
       incoming_pub incoming_pubrec incoming_publish_quota incoming_inflight
       max_incoming_inflight outbound_pkid_in_use outbound_pkid_count collision collision_notice
       pending_subscribe pending_unsubscribe events connection_failure_packet ack_mode
       topic_aliases connack_received retain_available maximum_qos
       wildcard_subscription_available subscription_identifiers_available
       shared_subscription_available max_outgoing_inflight max_outgoing_inflight_upper_limit
       authenticator async_authenticator auth_client_id auth settled] in *.
