(* ===== verification/V5State.v ===== *)
(** [rumqttc-v5/src/state.rs]: the operations of the MQTT 5 session state machine up to the incoming
    packets: construction, packet identifiers, quotas, authentication, outgoing requests.

    Every operation is a computation in [M (MqttState B A) StateError]: it returns a value, a
    [StateError] or a panic, always with the state it leaves behind.  [now] is [Instant::now()] at
    the end of the operation.  What the feature [bounded-publish] marks in a notice is not part of
    the session and is left out. *)

From Stdlib Require Import String.
From S2P Require Import Prelude.
From S2P Require Import Utf8.
From S2P Require Import Primitives.
From S2P Require Import Topic.
From S2P Require Import FixedBitSet.
From S2P Require Import PacketIds.
From S2P Require Import V5Base.
From S2P Require Import V5Properties.
From S2P Require Import V5Acks.
From S2P Require Import V5SubAck.
From S2P Require Import V5Subscribe.
From S2P Require Import V5Publish.
From S2P Require Import V5ConnAck.
From S2P Require Import V5Disconnect.
From S2P Require Import V5Auth.
From S2P Require Import V5Packet.
From S2P Require Import V5Persist.
From S2P Require Import V5SessionTypes.
From S2P Require Import V5AuthLifecycle.
From S2P Require Import V5TopicAlias.
From S2P Require Import V5StateRecord.
#[local] Open Scope Z_scope.

Section State.
  Context {B A : Type} `{FixedBitSet B} `{Authenticator A}.

Abbreviation State := (MqttState B A).
Abbreviation ST := (M State StateError).

Definition push_event (o : Outgoing) : ST unit :=
  mmodify (λ s, set_events (events s ++ [Ev_Outgoing o]) s).

(** Complete a notice. *)
Definition settle (tx : NoticeTx) (r : Settlement) : ST unit :=
  mmodify (λ s, set_settled (settled s ++ [(tx, r)]) s).
Definition settle_opt (tx : option NoticeTx) (r : Settlement) : ST unit :=
  match tx with Some tx => settle tx r | None => mret tt end.

(** ** Construction and tracking capacity *)

Definition new_internal (now : Instant) (max_inflight : u16) (ack_mode : AckMode)
    (auto_topic_alias_policy : TopicAliasPolicy) (client_topic_alias_max client_receive_maximum : u16)
    (authentication_method : option Bytes) (authenticator : option A) : State :=
  let tracking_len := warm_tracking_len max_inflight in
  {| ping := PingState_new; last_incoming := now; last_outgoing := now; last_pkid := 0;
     inflight := 0; outgoing_publish_quota := with_capacity full_packet_identifier_len;
     outgoing_pub := replicate (Z.to_nat tracking_len) None; outgoing_pub_order := [];
     outgoing_pub_notice := replicate (Z.to_nat tracking_len) None;
     outgoing_rel := with_capacity tracking_len; outgoing_rel_order := [];
     outgoing_rel_recovery := with_capacity 0;
     outgoing_rel_replay := with_capacity tracking_len; outgoing_rel_replay_order := [];
     outgoing_rel_notice := replicate (Z.to_nat tracking_len) None;
     incoming_puback := with_capacity (u16_MAX + 1);
     incoming_pub := with_capacity (u16_MAX + 1);
     incoming_pubrec := with_capacity (u16_MAX + 1);
     incoming_publish_quota := with_capacity full_packet_identifier_len;
     incoming_inflight := 0; max_incoming_inflight := client_receive_maximum;
     outbound_pkid_in_use := with_capacity full_packet_identifier_len;
     outbound_pkid_count := 0; collision := None; collision_notice := None;
     pending_subscribe := ∅; pending_unsubscribe := ∅; events := [];
     connection_failure_packet := None; ack_mode := ack_mode;
     topic_aliases := TopicAliasState_new auto_topic_alias_policy client_topic_alias_max;
     connack_received := false; retain_available := true; maximum_qos := ExactlyOnce;
     wildcard_subscription_available := true; subscription_identifiers_available := true;
     shared_subscription_available := true; max_outgoing_inflight := max_inflight;
     max_outgoing_inflight_upper_limit := max_inflight; authenticator := authenticator;
     async_authenticator := false; auth_client_id := [];
     auth := AuthLifecycle_new authentication_method; settled := [] |}.

Definition refresh_auth_client_id (client_id : Bytes) : ST unit :=
  mmodify (λ s, if is_some (authenticator s) || async_authenticator s
                then set_auth_client_id client_id s else set_auth_client_id [] s).

Definition set_authentication_method (authentication_method : option Bytes) : ST unit :=
  mmodify (λ s, set_auth (set_method authentication_method (auth s)) s).

Definition set_client_topic_alias_max (max : option u16) : ST unit :=
  mmodify (λ s, set_topic_aliases (set_client_max (default 0 max) (topic_aliases s)) s).

Definition set_client_receive_maximum (maximum : option u16) : ST unit :=
  mmodify (set_max_incoming_inflight (default u16_MAX maximum)).

Definition set_broker_topic_alias_max (max : u16) : ST unit :=
  mmodify (λ s, set_topic_aliases (set_broker_max max (topic_aliases s)) s).

Definition ensure_outgoing_tracking_capacity (target_len : usize) : ST unit :=
  mmodify (λ s,
    let s := if blen (outgoing_pub s) <? target_len
             then set_outgoing_pub (resize_none (outgoing_pub s) target_len) s else s in
    let s := if blen (outgoing_pub_notice s) <? target_len
             then set_outgoing_pub_notice (resize_none (outgoing_pub_notice s) target_len) s
             else s in
    let s := if blen (outgoing_rel_notice s) <? target_len
             then set_outgoing_rel_notice (resize_none (outgoing_rel_notice s) target_len) s
             else s in
    let s := if bits_len (outgoing_rel s) <? target_len
             then set_outgoing_rel (grow (outgoing_rel s) target_len) s else s in
    if bits_len (outgoing_rel_replay s) <? target_len
    then set_outgoing_rel_replay (grow (outgoing_rel_replay s) target_len) s else s).

Definition outbound_requests_drained (s : State) : bool :=
  (inflight s =? 0)
  && is_none (collision s)
  && is_none (collision_notice s)
  && bool_decide (pending_subscribe s = ∅)
  && bool_decide (pending_unsubscribe s = ∅)
  && forallb is_none (outgoing_pub s)
  && no_entries (outgoing_pub_order s)
  && forallb is_none (outgoing_pub_notice s)
  && forallb is_none (outgoing_rel_notice s)
  && no_ones (outgoing_rel s)
  && no_entries (outgoing_rel_order s)
  && no_ones (outgoing_rel_recovery s)
  && no_ones (outgoing_rel_replay s)
  && no_entries (outgoing_rel_replay_order s)
  && (outbound_pkid_count s =? 0).

Definition maybe_shrink_outgoing_tracking_capacity : ST unit :=
  mmodify (λ s,
    let target_len := warm_tracking_len (max_outgoing_inflight_upper_limit s) in
    if (blen (outgoing_pub s) <=? target_len) || negb (outbound_requests_drained s) then s
    else
      let n := Z.to_nat target_len in
      let s := set_outgoing_pub (take n (outgoing_pub s)) s in
      let s := set_outgoing_pub_notice (take n (outgoing_pub_notice s)) s in
      let s := set_outgoing_rel_notice (take n (outgoing_rel_notice s)) s in
      let s := set_outgoing_rel (with_capacity target_len) s in
      let s := set_outgoing_rel_order [] s in
      let s := set_outgoing_rel_recovery (with_capacity 0) s in
      let s := set_outgoing_rel_replay (with_capacity target_len) s in
      let s := set_outgoing_rel_replay_order [] s in
      set_last_pkid 0 s).

Definition reconcile_outgoing_tracking_capacity (pending_empty : bool) : ST unit :=
  if pending_empty then maybe_shrink_outgoing_tracking_capacity else mret tt.

Definition reset_connack_scoped_state : ST unit :=
  mmodify (λ s,
    let s := set_topic_aliases (reset_connection_scoped (topic_aliases s)) s in
    let s := set_retain_available true s in
    let s := set_maximum_qos ExactlyOnce s in
    let s := set_wildcard_subscription_available true s in
    let s := set_subscription_identifiers_available true s in
    let s := set_shared_subscription_available true s in
    set_max_outgoing_inflight (max_outgoing_inflight_upper_limit s) s).

Definition reset_connection_scoped_state : ST unit :=
  mmodify (set_connack_received false);;
  reset_connack_scoped_state;;
  mmodify (λ s, set_outgoing_publish_quota (clear_bits (outgoing_publish_quota s)) s);;
  mmodify (set_inflight 0);;
  mmodify (λ s, set_incoming_publish_quota (clear_bits (incoming_publish_quota s)) s);;
  mmodify (set_incoming_inflight 0).

(** ** Packet identifiers *)

Definition validate_outgoing_pkid (pkid : u16) : outcome StateError unit :=
  if pkid =? 0 then Err (Unsolicited pkid) else Ok tt.

Definition packet_identifier_in_use (s : State) (pkid : u16) : bool :=
  contains (outbound_pkid_in_use s) pkid.

Definition control_packet_identifier_available (s : State) : bool :=
  outbound_pkid_count s <? u16_MAX.

Definition find_free_outbound_pkid_in_range (s : State) (start end_ : usize) : option u16 :=
  find_free_in_range (outbound_pkid_in_use s) start end_.

Definition next_free_outbound_pkid_after (s : State) (last_pkid : u16) : option u16 :=
  next_free_in (outbound_pkid_in_use s) (control_packet_identifier_available s) last_pkid.

Definition next_publish_pkid (s : State) : option u16 :=
  next_free_outbound_pkid_after s (last_pkid s).

Definition next_pkid : ST (option u16) :=
  s ← mget;
  match next_publish_pkid s with
  | None => mret None
  | Some pkid => mmodify (set_last_pkid pkid);; mret (Some pkid)
  end.

Definition reserve_outbound_pkid (pkid : u16) : ST unit :=
  s ← mget;
  if (pkid =? 0) || packet_identifier_in_use s pkid then mfail InvalidState
  else
    in_use ← insert_bit (outbound_pkid_in_use s) pkid;
    mmodify (set_outbound_pkid_in_use in_use);;
    if u16_MAX <? outbound_pkid_count s + 1 then mfail InvalidState
    else mmodify (set_outbound_pkid_count (outbound_pkid_count s + 1)).

Definition accept_replayed_outbound_pkid (pkid : u16) : ST unit :=
  s ← mget;
  if (pkid =? 0) || negb (packet_identifier_in_use s pkid) then mfail InvalidState else mret tt.

Definition release_outbound_pkid (pkid : u16) : ST unit :=
  s ← mget;
  if (pkid =? 0) || negb (packet_identifier_in_use s pkid) then mret tt
  else
    in_use ← set_bit (outbound_pkid_in_use s) pkid false;
    mmodify (set_outbound_pkid_in_use in_use);;
    if outbound_pkid_count s <? 1 then mpanic
    else mmodify (set_outbound_pkid_count (outbound_pkid_count s - 1)).

Definition next_control_pkid : ST u16 :=
  s ← mget;
  match next_free_outbound_pkid_after s (last_pkid s) with
  | None => mfail InvalidState
  | Some pkid =>
      reserve_outbound_pkid pkid;;
      mmodify (set_last_pkid pkid);;
      mret pkid
  end.

Definition reserve_control_pkid (pkid : u16) : ST unit :=
  lift (validate_outgoing_pkid pkid);;
  reserve_outbound_pkid pkid;;
  mmodify (set_last_pkid pkid).

(** ** Quotas *)

Definition release_incoming_publish_quota (pkid : u16) : ST unit :=
  s ← mget;
  if contains (incoming_publish_quota s) pkid then
    bits ← set_bit (incoming_publish_quota s) pkid false;
    mmodify (set_incoming_publish_quota bits);;
    if incoming_inflight s <? 1 then mpanic
    else mmodify (set_incoming_inflight (incoming_inflight s - 1))
  else mret tt.

Definition acquire_outgoing_publish_quota (pkid : u16) : ST unit :=
  s ← mget;
  if negb (contains (outgoing_publish_quota s) pkid) then
    bits ← insert_bit (outgoing_publish_quota s) pkid;
    mmodify (set_outgoing_publish_quota bits);;
    if u16_MAX <? inflight s + 1 then mpanic else mmodify (set_inflight (inflight s + 1))
  else mret tt.

Definition release_outgoing_publish_quota (pkid : u16) : ST unit :=
  s ← mget;
  if contains (outgoing_publish_quota s) pkid then
    bits ← set_bit (outgoing_publish_quota s) pkid false;
    mmodify (set_outgoing_publish_quota bits);;
    if inflight s <? 1 then mpanic else mmodify (set_inflight (inflight s - 1))
  else mret tt.

(** ** Readiness *)

Definition has_pending_control (s : State) (pkid : u16) : bool :=
  is_some (pending_subscribe s !! pkid) || is_some (pending_unsubscribe s !! pkid).

Definition can_send_publish (s : State) (publish : Publish) : bool :=
  if decide (pub_qos publish = AtMostOnce) then true
  else if (max_outgoing_inflight s <=? inflight s) || is_some (collision s) then false
  else if pub_pkid publish =? 0 then is_some (next_publish_pkid s)
  else is_ok (validate_outgoing_pkid (pub_pkid publish))
       && negb (packet_identifier_in_use s (pub_pkid publish)).

Definition can_send_replayed_publish (s : State) (publish : Publish) : bool :=
  if decide (pub_qos publish = AtMostOnce) then true
  else if (max_outgoing_inflight s <=? inflight s) || is_some (collision s) then false
  else
    let pkid := pub_pkid publish in
    is_ok (validate_outgoing_pkid pkid)
    && packet_identifier_in_use s pkid
    && match vget (outgoing_pub s) pkid with Some slot => is_none slot | None => false end
    && negb (contains (outgoing_rel s) pkid)
    && negb (contains (outgoing_rel_replay s) pkid)
    && negb (has_pending_control s pkid).

Definition can_send_replayed_control_packet (s : State) (pkid : u16) : bool :=
  negb (pkid =? 0)
  && packet_identifier_in_use s pkid
  && negb (contains (outgoing_rel s) pkid)
  && negb (contains (outgoing_rel_replay s) pkid)
  && negb (has_pending_control s pkid).

Definition can_send_pubrel (s : State) (pkid : u16) : bool :=
  if pkid =? 0 then false
  else contains (outgoing_rel s) pkid || contains (outgoing_rel_replay s) pkid.

(** ** Enhanced authentication *)

(** A method of [self.auth] that is given [&mut self.events]. *)
Definition with_auth {R} (m : M AuthCx StateError R) : ST R := λ s,
  let '(r, c) := m {| cx_auth := auth s; cx_events := events s; cx_settled := settled s |} in
  (r, set_settled (cx_settled c) (set_events (cx_events c) (set_auth (cx_auth c) s))).

Definition auth_context (s : State) (kind : AuthExchangeKind) (method : Bytes) : AuthContext :=
  {| ctx_client_id := auth_client_id s; ctx_kind := kind; ctx_method := method |}.

(** [locked.failure(..)] on the authenticator, unless its lock is poisoned. *)
Definition authenticator_failure (kind : AuthExchangeKind) (method : Bytes) (error : AuthError)
  : ST unit :=
  mmodify (λ s,
    match authenticator s with
    | Some a =>
        if lock_poisoned a then s
        else set_authenticator (Some (auth_failure a (auth_context s kind method) error)) s
    | None => s
    end).

Definition fail_auth_exchange (notice_error : AuthNoticeError) (callback_error : AuthError) : ST unit :=
  s ← mget;
  match active_exchange (auth s) with
  | None => mret tt
  | Some (kind, method) =>
      authenticator_failure kind method callback_error;;
      with_auth (auth_reset notice_error)
  end.

Definition fail_authenticator (error : AuthError) : ST StateError :=
  let notice_error :=
    match error with
    | AE_BrokerRejected reason => AN_BrokerRejected reason
    | AE_BrokerDisconnected reason => AN_BrokerDisconnected reason
    | AE_Failed _ => AN_AuthenticationFailed (T_AuthError error)
    end in
  fail_auth_exchange notice_error error;;
  mret (SE_AuthError (T_AuthError error)).

(** [return Err(self.fail_authenticator(&error))]. *)
Definition fail_with {R} (error : AuthError) : ST R :=
  e ← fail_authenticator error; mfail e.

Definition abort_authentication (error : AuthError) : ST unit :=
  fail_auth_exchange (AN_AuthenticationFailed (T_AuthError error)) error.

Definition fail_auth_exchange_due_to_session_reset : ST unit :=
  fail_auth_exchange AN_SessionReset
    (AE_Failed (T_literal "authentication exchange was reset with the session")).

Definition fail_auth_exchange_due_to_redirect : ST unit :=
  fail_auth_exchange AN_Redirected
    (AE_Failed (T_literal "authentication exchange crossed a redirect boundary")).

Definition fail_auth_exchange_due_to_connection_closed : ST unit :=
  fail_auth_exchange AN_ConnectionClosed
    (AE_Failed (T_literal "connection closed before authentication completed")).

Definition fail_auth_exchange_due_to_broker_rejection (reason : ConnectReturnCode) : ST unit :=
  fail_auth_exchange (AN_BrokerRejected reason) (AE_BrokerRejected reason).

Definition fail_auth_exchange_due_to_client_disconnect : ST unit :=
  fail_auth_exchange AN_ConnectionClosed
    (AE_Failed (T_literal "authentication aborted by client disconnect")).

Definition fail_auth_exchange_due_to_authenticator_lock_poisoned : ST unit :=
  fail_auth_exchange (AN_AuthenticationFailed T_AuthenticatorLockPoisoned)
    (AE_Failed T_AuthenticatorLockPoisoned).

Definition fail_reauth_exchange_due_to (reason : NoticeFailureReason) : ST unit :=
  failed ← with_auth (reset_reauth (auth_error reason));
  match failed with
  | None => mret tt
  | Some (method, notice_error) =>
      authenticator_failure Reauthentication method (AE_Failed (T_AuthNoticeError notice_error))
  end.

(** The authenticator is called unless its lock is poisoned, which fails the exchange. *)
Definition call_authenticator {R} (a : A) (call : A → (AuthError + R) * A) : ST (AuthError + R) :=
  if lock_poisoned a then
    fail_auth_exchange_due_to_authenticator_lock_poisoned;;
    mfail AuthenticatorLockPoisoned
  else
    let '(result, a) := call a in
    mmodify (set_authenticator (Some a));;
    mret result.

Definition begin_authentication_connect (authentication_method : option Bytes)
  : ST (option AuthProperties) :=
  with_auth (begin_connect authentication_method);;
  s ← mget;
  match al_method (auth s), authenticator s with
  | Some method, Some a =>
      result ← call_authenticator a (λ a, auth_start a (auth_context s InitialConnect method));
      match result with
      | inl err => fail_with err
      | inr None => mret None
      | inr (Some properties) =>
          match normalize_auth_properties method (Some properties) with
          | Ok properties => mret (Some properties)
          | Err error => fail_with (AE_Failed (normalize_error_text error))
          | Panic => mpanic
          end
      end
  | _, _ => mret None
  end.

Definition authenticate_success (kind : AuthExchangeKind) (method : Bytes)
    (properties : option AuthProperties) : ST unit :=
  s ← mget;
  match authenticator s with
  | None => mret tt
  | Some a =>
      result ← call_authenticator a (λ a, auth_success a (auth_context s kind method) properties);
      match result with
      | inl error => fail_with error
      | inr _ => mret tt
      end
  end.

Definition outgoing_auth_packet (auth : Auth) : ST Packet :=
  if is_none (auth_properties auth) then mpanic
  else
    push_event O_Auth;;
    mret (P_Auth auth).

(** [begin_reauth] is run after the authenticator has been asked for properties. *)
Definition outgoing_auth (auth_ : Auth) (notice : option NoticeTx) : ST Packet :=
  s ← mget;
  match reauth_method (auth s) with
  | Err err =>
      settle_opt notice (S_AuthError err);;
      mfail (SE_AuthError (T_AuthNoticeError err))
  | Panic => mpanic
  | Ok method =>
      properties ←
        match authenticator s with
        | None => mret (auth_properties auth_)
        | Some a =>
            if lock_poisoned a then
              settle_opt notice (S_AuthError (AN_AuthenticationFailed T_AuthenticatorLockPoisoned));;
              mfail AuthenticatorLockPoisoned
            else
              let '(result, a) := auth_start a (auth_context s Reauthentication method) in
              mmodify (set_authenticator (Some a));;
              match result with
              | inl err =>
                  settle_opt notice (S_AuthError (AN_AuthenticationFailed (T_AuthError err)));;
                  mfail (SE_AuthError (T_AuthError err))
              | inr (Some properties) =>
                  mret (if is_none (auth_properties auth_) then Some properties
                        else auth_properties auth_)
              | inr None => mret (auth_properties auth_)
              end
        end;
      auth_ ← with_auth (begin_reauth properties notice);
      outgoing_auth_packet auth_
  end.

(** ** Outgoing packets *)

Definition with_pkid (publish : Publish) (pkid : u16) : Publish :=
  {| dup := dup publish; pub_qos := pub_qos publish; retain := retain publish;
     topic := topic publish; pub_pkid := pkid; payload := payload publish;
     pub_properties := pub_properties publish |}.

(** [QoS] is ordered as it is declared. *)
Definition qos_rank (qos : QoS) : Z :=
  match qos with AtMostOnce => 0 | AtLeastOnce => 1 | ExactlyOnce => 2 end.

Definition unsupported_publish_capability (s : State) (publish : Publish)
  : option UnsupportedBrokerCapability :=
  if retain publish && negb (retain_available s) then Some RetainedPublish
  else if qos_rank (maximum_qos s) <? qos_rank (pub_qos publish)
  then Some (PublishQoS (pub_qos publish) (maximum_qos s))
  else None.

(** ["$share/"], in bytes. *)
Definition SHARE_PREFIX : Bytes := [36; 115; 104; 97; 114; 101; 47].

Definition starts_with (prefix path : Bytes) : bool :=
  bool_decide (take (length prefix) path = prefix).

Definition unsupported_subscribe_capability (s : State) (subscribe : Subscribe)
  : option UnsupportedBrokerCapability :=
  if negb (subscription_identifiers_available s)
     && is_some (properties ← subscribe_properties subscribe; sub_id properties)
  then Some SubscriptionIdentifiers
  else if negb (shared_subscription_available s)
          && existsb (λ filter, starts_with SHARE_PREFIX (path filter)) (filters subscribe)
  then Some SharedSubscription
  else if negb (wildcard_subscription_available s)
          && existsb (λ filter, has_wildcards (path filter)) (filters subscribe)
  then Some WildcardSubscription
  else None.

Definition unsupported_broker_capability (s : State) (request : Request)
  : option UnsupportedBrokerCapability :=
  match request with
  | R_Publish publish => unsupported_publish_capability s publish
  | R_Subscribe subscribe => unsupported_subscribe_capability s subscribe
  | _ => None
  end.

(** A publish takes its slot, its place in the order, its notice and its quota. *)
Definition track_publish (pkid : u16) (publish : Publish) (notice : option NoticeTx) : ST unit :=
  s ← mget;
  pubs ← assign (outgoing_pub s) pkid (Some publish);
  mmodify (set_outgoing_pub pubs);;
  mmodify (λ s, set_outgoing_pub_order (outgoing_pub_order s ++ [pkid]) s);;
  s ← mget;
  notices ← assign (outgoing_pub_notice s) pkid notice;
  mmodify (set_outgoing_pub_notice notices);;
  acquire_outgoing_publish_quota pkid.

(** The flow-controlled block of [outgoing_publish_with_notice_internal], after the publish has its
    packet identifier: whether the publish is to be sent, or is held back on a collision. *)
Definition place_publish (publish : Publish) (action : option AutoTopicAliasAction)
    (notice : option NoticeTx) (replay : bool) : ST bool :=
  let pkid := pub_pkid publish in
  lift (validate_outgoing_pkid pkid);;
  ensure_outgoing_tracking_capacity (pkid + 1);;
  s ← mget;
  slot ← lift (ok_or (vget (outgoing_pub s) pkid) (Unsolicited pkid));
  if is_some slot then
    let publish := match action with
                   | Some action => restore_for_replay action publish
                   | None => publish
                   end in
    mmodify (set_collision (Some publish));;
    mmodify (set_collision_notice notice);;
    push_event (O_AwaitAck pkid);;
    mret false
  else if contains (outgoing_rel s) pkid || contains (outgoing_rel_replay s) pkid
          || has_pending_control s pkid
  then mfail InvalidState
  else
    (if replay then accept_replayed_outbound_pkid pkid else reserve_outbound_pkid pkid);;
    s ← mget;
    track_publish pkid (publish_for_replay_tracking (topic_aliases s) publish) notice;;
    mret true.

(** The packet identifier of a flow-controlled publish. *)
Definition assign_pkid (publish : Publish) (replay : bool) : ST Publish :=
  if pub_pkid publish =? 0 then
    if replay then mfail InvalidState
    else
      pkid ← next_pkid;
      match pkid with
      | None => mfail InvalidState
      | Some pkid => mret (with_pkid publish pkid)
      end
  else mret publish.

(** The alias of a publish that is sent is recorded. *)
Definition record_alias_of (action : option AutoTopicAliasAction) (publish : Publish) : ST unit :=
  mmodify (λ s, set_topic_aliases
    (match action with
     | Some (New pending) => record_auto_topic_alias pending (topic_aliases s)
     | Some (Existing _ alias) => record_auto_topic_alias_use alias (topic_aliases s)
     | None => topic_aliases s
     end) s);;
  mmodify (λ s, set_topic_aliases (record_outgoing_topic_alias publish (topic_aliases s)) s).

Definition outgoing_publish_with_notice_internal (publish : Publish) (notice : option NoticeTx)
    (replay : bool) : ST (option Packet * option NoticeTx) :=
  s ← mget;
  match unsupported_publish_capability s publish with
  | Some unsupported => mfail (UnsupportedBrokerCapability_state_error unsupported)
  | None =>
      if bool_decide (pub_qos publish ≠ AtMostOnce) && (max_outgoing_inflight s <=? inflight s)
      then mfail (OutgoingPublishQuotaExceeded (max_outgoing_inflight s))
      else
        let '(publish, action) := apply_auto_topic_alias (topic_aliases s) publish in
        lift (validate_outgoing_topic_alias (topic_aliases s) publish);;
        if decide (pub_qos publish = AtMostOnce) then
          record_alias_of action publish;;
          push_event (O_Publish (pub_pkid publish));;
          mret (Some (P_Publish publish), notice)
        else
          publish ← assign_pkid publish replay;
          sent ← place_publish publish action notice replay;
          if sent : bool then
            record_alias_of action publish;;
            push_event (O_Publish (pub_pkid publish));;
            mret (Some (P_Publish publish), None)
          else mret (None, None)
  end.

(** A release is stored, with its notice; one that is replayed becomes active. *)
Definition save_pubrel_with_notice (pubrel : PubRel) (notice : option NoticeTx) : ST PubRel :=
  let pkid := ack_pkid pubrel in
  lift (validate_outgoing_pkid pkid);;
  s ← mget;
  let replaying_pubrel := contains (outgoing_rel_replay s) pkid in
  if negb (contains (outgoing_rel s) pkid) && negb replaying_pubrel then mfail (Unsolicited pkid)
  else
    ensure_outgoing_tracking_capacity (pkid + 1);;
    (if replaying_pubrel then
       s ← mget;
       replay_bits ← set_bit (outgoing_rel_replay s) pkid false;
       mmodify (set_outgoing_rel_replay replay_bits);;
       mmodify (λ s, set_outgoing_rel_replay_order
                       (remove_ordered_pkid (outgoing_rel_replay_order s) pkid) s);;
       rel_bits ← insert_bit (outgoing_rel s) pkid;
       mmodify (set_outgoing_rel rel_bits);;
       mmodify (λ s, set_outgoing_rel_order (outgoing_rel_order s ++ [pkid]) s);;
       recovery_bits ← insert_bit (grow (outgoing_rel_recovery s) (pkid + 1)) pkid;
       mmodify (set_outgoing_rel_recovery recovery_bits)
     else mret tt);;
    s ← mget;
    current ← index (outgoing_rel_notice s) pkid;
    (if is_some notice || is_none current then
       notices ← assign (outgoing_rel_notice s) pkid notice;
       mmodify (set_outgoing_rel_notice notices)
     else mret tt);;
    mret pubrel.

Definition outgoing_pubrel_with_notice (pubrel : PubRel) (notice : option NoticeTx)
  : ST (option Packet * option NoticeTx) :=
  pubrel ← save_pubrel_with_notice pubrel notice;
  push_event (O_PubRel (ack_pkid pubrel));;
  mret (Some (P_PubRel (PubRel_new (ack_pkid pubrel) None)), None).

Definition outgoing_puback (puback : PubAck) : ST Packet :=
  let pkid := ack_pkid puback in
  s ← mget;
  if negb (contains (incoming_puback s) pkid) then mfail (Unsolicited pkid)
  else
    bits ← set_bit (incoming_puback s) pkid false;
    mmodify (set_incoming_puback bits);;
    release_incoming_publish_quota pkid;;
    push_event (O_PubAck pkid);;
    mret (P_PubAck puback).

Definition outgoing_pubrec_internal (pubrec : PubRec) (allow_duplicate : bool) : ST Packet :=
  let pkid := ack_pkid pubrec in
  s ← mget;
  if negb (contains (incoming_pub s) pkid) then mfail (Unsolicited pkid)
  else if contains (incoming_pubrec s) pkid then
    if allow_duplicate then push_event (O_PubRec pkid);; mret (P_PubRec pubrec)
    else mfail (Unsolicited pkid)
  else
    (if 0x80 <=? PubRecReason_code (ack_reason pubrec) then
       pub_bits ← set_bit (incoming_pub s) pkid false;
       mmodify (set_incoming_pub pub_bits);;
       rec_bits ← set_bit (incoming_pubrec s) pkid false;
       mmodify (set_incoming_pubrec rec_bits);;
       release_incoming_publish_quota pkid
     else
       rec_bits ← insert_bit (incoming_pubrec s) pkid;
       mmodify (set_incoming_pubrec rec_bits));;
    push_event (O_PubRec pkid);;
    mret (P_PubRec pubrec).

(** [outgoing_ping]; the elapsed times are only logged. *)
Definition outgoing_ping : ST (option Packet) :=
  s ← mget;
  timed_out ← (if is_some (collision s) then
                 let '(count, p) := PingState_increment_collision_count (ping s) in
                 mmodify (set_ping p);; mret (2 <=? count)
               else mret false);
  if timed_out : bool then mfail CollisionTimeout
  else
    s ← mget;
    if PingState_await_pingresp (ping s) then mfail AwaitPingResp
    else
      mmodify (set_ping (PingState_begin_waiting_for_resp (ping s)));;
      push_event O_PingReq;;
      mret (Some P_PingReq).

Definition validate_outgoing_subscribe (s : State) (subscription : Subscribe)
  : outcome StateError unit :=
  if no_entries (filters subscription) then Err SE_EmptySubscription
  else match unsupported_subscribe_capability s subscription with
       | Some unsupported => Err (UnsupportedBrokerCapability_state_error unsupported)
       | None => Ok tt
       end.

Definition save_outgoing_subscribe (subscription : Subscribe) (notice : option NoticeTx)
  : ST Packet :=
  push_event (O_Subscribe (subscribe_pkid subscription));;
  mmodify (λ s, set_pending_subscribe
    (<[subscribe_pkid subscription :=
        {| ps_subscribe := subscription; ps_notice := notice |}]> (pending_subscribe s)) s);;
  mret (P_Subscribe subscription).

Definition outgoing_subscribe (subscription : Subscribe) (notice : option NoticeTx)
  : ST (option Packet) :=
  s ← mget;
  lift (validate_outgoing_subscribe s subscription);;
  subscription ← (if subscribe_pkid subscription =? 0 then
                    pkid ← next_control_pkid;
                    mret {| subscribe_pkid := pkid; filters := filters subscription;
                            subscribe_properties := subscribe_properties subscription |}
                  else
                    reserve_control_pkid (subscribe_pkid subscription);;
                    mret subscription);
  packet ← save_outgoing_subscribe subscription notice;
  mret (Some packet).

Definition replay_outgoing_subscribe (subscription : Subscribe) (notice : option NoticeTx)
  : ST (option Packet) :=
  s ← mget;
  lift (validate_outgoing_subscribe s subscription);;
  accept_replayed_outbound_pkid (subscribe_pkid subscription);;
  packet ← save_outgoing_subscribe subscription notice;
  mret (Some packet).

Definition save_outgoing_unsubscribe (unsub : Unsubscribe) (notice : option NoticeTx)
  : ST Packet :=
  push_event (O_Unsubscribe (unsubscribe_pkid unsub));;
  mmodify (λ s, set_pending_unsubscribe
    (<[unsubscribe_pkid unsub :=
        {| pu_unsubscribe := unsub; pu_notice := notice |}]> (pending_unsubscribe s)) s);;
  mret (P_Unsubscribe unsub).

Definition outgoing_unsubscribe (unsub : Unsubscribe) (notice : option NoticeTx) : ST Packet :=
  if no_entries (unsubscribe_filters unsub) then mfail SE_EmptyUnsubscription
  else
    unsub ← (if unsubscribe_pkid unsub =? 0 then
               pkid ← next_control_pkid;
               mret {| unsubscribe_pkid := pkid; unsubscribe_filters := unsubscribe_filters unsub;
                       unsubscribe_properties := unsubscribe_properties unsub |}
             else
               reserve_control_pkid (unsubscribe_pkid unsub);;
               mret unsub);
    save_outgoing_unsubscribe unsub notice.

Definition replay_outgoing_unsubscribe (unsub : Unsubscribe) (notice : option NoticeTx)
  : ST Packet :=
  if no_entries (unsubscribe_filters unsub) then mfail SE_EmptyUnsubscription
  else
    accept_replayed_outbound_pkid (unsubscribe_pkid unsub);;
    save_outgoing_unsubscribe unsub notice.

Definition outgoing_disconnect (disconnect : Disconnect) : ST Packet :=
  fail_auth_exchange_due_to_client_disconnect;;
  push_event O_Disconnect;;
  mret (P_Disconnect disconnect).

Definition discard_last_outgoing_disconnect_event : ST unit :=
  mmodify (λ s, match last (events s) with
                | Some (Ev_Outgoing O_Disconnect) =>
                    set_events (take (length (events s) - 1) (events s)) s
                | _ => s
                end).

Definition publish_notice (notice : option TrackedNoticeTx) : option NoticeTx :=
  match notice with Some (TN_Publish notice) => Some notice | _ => None end.
Definition subscribe_notice (notice : option TrackedNoticeTx) : option NoticeTx :=
  match notice with Some (TN_Subscribe notice) => Some notice | _ => None end.
Definition unsubscribe_notice (notice : option TrackedNoticeTx) : option NoticeTx :=
  match notice with Some (TN_Unsubscribe notice) => Some notice | _ => None end.
Definition auth_notice (notice : option TrackedNoticeTx) : option NoticeTx :=
  match notice with Some (TN_Auth notice) => Some notice | _ => None end.

Definition handle_outgoing_packet_with_notice_internal (now : Instant) (request : Request)
    (notice : option TrackedNoticeTx) (replay : bool)
  : ST (option Packet * option NoticeTx) :=
  result ← match request with
    | R_Publish publish =>
        outgoing_publish_with_notice_internal publish (publish_notice notice) replay
    | R_PubRel pubrel => outgoing_pubrel_with_notice pubrel (publish_notice notice)
    | R_Subscribe subscribe =>
        packet ← (if replay : bool then replay_outgoing_subscribe subscribe (subscribe_notice notice)
                  else outgoing_subscribe subscribe (subscribe_notice notice));
        mret (packet, None)
    | R_Unsubscribe unsubscribe =>
        packet ← (if replay : bool then
                    replay_outgoing_unsubscribe unsubscribe (unsubscribe_notice notice)
                  else outgoing_unsubscribe unsubscribe (unsubscribe_notice notice));
        mret (Some packet, None)
    | R_PingReq => packet ← outgoing_ping; mret (packet, None)
    | R_Disconnect _ | R_DisconnectWithTimeout _ _ | R_DisconnectAfterQueued _
    | R_DisconnectAfterQueuedWithTimeout _ _ => mpanic
    | R_DisconnectNow disconnect => packet ← outgoing_disconnect disconnect; mret (Some packet, None)
    | R_PubAck puback => packet ← outgoing_puback puback; mret (Some packet, None)
    | R_PubRec pubrec => packet ← outgoing_pubrec_internal pubrec false; mret (Some packet, None)
    | R_Auth auth => packet ← outgoing_auth auth (auth_notice notice); mret (Some packet, None)
    | R_PubComp _ | R_PingResp | R_SubAck _ | R_UnsubAck _ => mfail InvalidState
    end;
  mmodify (set_last_outgoing now);;
  mret result.

Definition handle_outgoing_packet_with_notice (now : Instant) (request : Request)
    (notice : option TrackedNoticeTx) : ST (option Packet * option NoticeTx) :=
  handle_outgoing_packet_with_notice_internal now request notice false.

Definition handle_outgoing_packet (now : Instant) (request : Request) : ST (option Packet) :=
  '(packet, flush_notice) ← handle_outgoing_packet_with_notice now request None;
  settle_opt flush_notice (S_Publish Qos0Flushed);;
  mret packet.

(** With an asynchronous authenticator, which answers [answer] to the start of a re-authentication. *)
Definition handle_outgoing_packet_with_notice_async (answer : AuthError + AuthAction) (now : Instant)
    (request : Request) (notice : option TrackedNoticeTx) (replay : bool)
  : ST (option Packet * option NoticeTx) :=
  s ← mget;
  match request with
  | R_Auth auth_ =>
      if negb (async_authenticator s)
      then handle_outgoing_packet_with_notice_internal now request notice replay
      else
        let supplied_properties := is_some (auth_properties auth_) in
        auth_ ← with_auth (begin_reauth (auth_properties auth_) (auth_notice notice));
        match (properties ← auth_properties auth_; auth_method properties) with
        | None => mpanic
        | Some method =>
            auth_ ←
              match answer with
              | inr (AA_Send properties) =>
                  if supplied_properties then
                    fail_with (AE_Failed (T_literal
                      "reauthentication properties are owned by the configured authenticator"))
                  else
                    match normalize_auth_properties method (Some properties) with
                    | Ok properties =>
                        mret {| auth_code := auth_code auth_; auth_properties := Some properties |}
                    | Err error => fail_with (AE_Failed (normalize_error_text error))
                    | Panic => mpanic
                    end
              | inr AA_Complete => mret auth_
              | inr (AA_Fail message) | inl (AE_Failed message) =>
                  fail_auth_exchange (AN_AuthenticationFailed message) (AE_Failed message);;
                  mfail (SE_AuthError message)
              | inl error => fail_with error
              end;
            mmodify (set_last_outgoing now);;
            packet ← outgoing_auth_packet auth_;
            mret (Some packet, None)
        end
  | _ => handle_outgoing_packet_with_notice_internal now request notice replay
  end.
End State.
