(* ===== verification/V5Incoming.v ===== *)
(** [rumqttc-v5/src/state.rs]: incoming packets of the MQTT 5 session state machine. *)

From Stdlib Require Import String.
From S2P Require Import Prelude.
From S2P Require Import Utf8.
From S2P Require Import Primitives.
From S2P Require Import FixedBitSet.
From S2P Require Import PacketIds.
From S2P Require Import V5Base.
From S2P Require Import V5Properties.
From S2P Require Import V5Acks.
From S2P Require Import V5SubAck.
From S2P Require Import V5Subscribe.
From S2P Require Import V5Publish.
From S2P Require Import V5ConnAck.
From S2P Require Import V5Disconnect.
From S2P Require Import V5Auth.
From S2P Require Import V5Packet.
From S2P Require Import V5Persist.
From S2P Require Import V5SessionTypes.
From S2P Require Import V5AuthLifecycle.
From S2P Require Import V5TopicAlias.
From S2P Require Import V5StateRecord.
From S2P Require Import V5State.
#[local] Open Scope Z_scope.

Section Incoming.
  Context {B A : Type} `{FixedBitSet B} `{Authenticator A}.

Abbreviation State := (MqttState B A).
Abbreviation ST := (M State StateError).

(** ** Collisions *)

Definition check_collision (pkid : u16) : ST (option (Publish * option NoticeTx)) :=
  s ← mget;
  match collision s with
  | Some publish =>
      if pub_pkid publish =? pkid then
        mmodify (set_collision None);;
        mmodify (set_collision_notice None);;
        mret (Some (publish, collision_notice s))
      else mret None
  | None => mret None
  end.

(** [.expect(..)] on the result of an operation. *)
Definition expect_ok {R} (m : ST R) : ST R := λ s,
  match m s with (Err _, s) => (Panic, s) | r => r end.

Definition replay_collision_publish (pkid : u16) : ST (option Packet) :=
  found ← check_collision pkid;
  match found with
  | None => mret None
  | Some (publish, notice) =>
      let pkid := pub_pkid publish in
      s ← mget;
      let replay_publish := publish_for_replay_tracking (topic_aliases s) publish in
      ensure_outgoing_tracking_capacity (pkid + 1);;
      expect_ok (reserve_outbound_pkid pkid);;
      track_publish pkid replay_publish notice;;
      mmodify (λ s, set_topic_aliases (record_outgoing_topic_alias publish (topic_aliases s)) s);;
      push_event (O_Publish pkid);;
      mmodify (λ s, set_ping (PingState_reset_collision_count (ping s)) s);;
      mret (Some (P_Publish publish))
  end.

Definition clear_collision : ST unit :=
  mmodify (set_collision None);;
  mmodify (set_collision_notice None);;
  mmodify (λ s, set_ping (PingState_reset_collision_count (ping s)) s).

(** ** Acknowledgements of requests *)

Definition handle_incoming_suback (suback : SubAck) : ST IncomingPacketEffects :=
  let pkid := codes_pkid suback in
  s ← mget;
  match pending_subscribe s !! pkid with
  | None => mfail (Unsolicited pkid)
  | Some pending =>
      let expected := blen (filters (ps_subscribe pending)) in
      let actual := blen (return_codes suback) in
      if negb (actual =? expected)
      then mfail (SE_ProtocolViolation (SubAckReturnCodeCountMismatch pkid expected actual))
      else
        mmodify (set_pending_subscribe (delete pkid (pending_subscribe s)));;
        release_outbound_pkid pkid;;
        let effects := effects_outgoing None in
        mret (match ps_notice pending with
              | Some notice => with_notice effects (DN_Subscribe notice suback)
              | None => effects
              end)
  end.

Definition handle_incoming_unsuback (unsuback : UnsubAck) : ST IncomingPacketEffects :=
  let pkid := codes_pkid unsuback in
  s ← mget;
  match pending_unsubscribe s !! pkid with
  | None => mfail (Unsolicited pkid)
  | Some pending =>
      let expected := blen (unsubscribe_filters (pu_unsubscribe pending)) in
      let actual := blen (return_codes unsuback) in
      if negb (actual =? expected)
      then mfail (SE_ProtocolViolation (UnsubAckReasonCodeCountMismatch pkid expected actual))
      else
        mmodify (set_pending_unsubscribe (delete pkid (pending_unsubscribe s)));;
        release_outbound_pkid pkid;;
        let effects := effects_outgoing None in
        mret (match pu_notice pending with
              | Some notice => with_notice effects (DN_Unsubscribe notice unsuback)
              | None => effects
              end)
  end.

(** ** CONNACK and DISCONNECT *)

Definition validate_incoming_connack (s : State) (connack : ConnAck) : outcome StateError unit :=
  if connack_received s then Err (SE_ProtocolViolation DuplicateConnAck)
  else if bool_decide (code connack ≠ CRC_Success) then Err (ConnFail (code connack))
  else
    match connack_properties connack with
    | Some props =>
        if existsb exceeds_one
             [ca_max_qos props; ca_retain_available props; ca_wildcard_subscription_available props;
              ca_subscription_identifiers_available props; ca_shared_subscription_available props]
        then Err (Deserialization ProtocolError)
        else validate_successful_connack (auth s) connack
    | None => validate_successful_connack (auth s) connack
    end.

Definition connack_auth_properties (props : ConnAckProperties) : AuthProperties :=
  {| auth_method := ca_authentication_method props; auth_data := ca_authentication_data props;
     auth_reason := ca_reason_string props; auth_user_properties := ca_user_properties props |}.

(** [if let Some(x) = o { .. }] *)
Definition if_some {T} (o : option T) (f : T → State → State) (s : State) : State :=
  match o with Some x => f x s | None => s end.

(** The limits and capabilities the broker announces. *)
Definition apply_connack_properties (props : ConnAckProperties) (s : State) : State :=
  let s := if_some (ca_topic_alias_max props)
    (λ topic_alias_max s, set_topic_aliases (set_broker_max topic_alias_max (topic_aliases s)) s) s in
  let s := if_some (ca_receive_max props)
    (λ max_inflight s,
       set_max_outgoing_inflight (Z.min max_inflight (max_outgoing_inflight_upper_limit s)) s) s in
  let s := if_some (ca_retain_available props)
    (λ available s, set_retain_available (available =? 1) s) s in
  let s := if_some (ca_max_qos props)
    (λ maximum_qos s, set_maximum_qos (if maximum_qos =? 0 then AtMostOnce else AtLeastOnce) s) s in
  let s := if_some (ca_wildcard_subscription_available props)
    (λ available s, set_wildcard_subscription_available (available =? 1) s) s in
  let s := if_some (ca_subscription_identifiers_available props)
    (λ available s, set_subscription_identifiers_available (available =? 1) s) s in
  if_some (ca_shared_subscription_available props)
    (λ available s, set_shared_subscription_available (available =? 1) s) s.

Definition handle_incoming_connack (connack : ConnAck) : ST (option Packet) :=
  s ← mget;
  lift (validate_incoming_connack s connack);;
  (match active_exchange (auth s) with
   | Some (InitialConnect, method) =>
       authenticate_success InitialConnect method
         (connack_auth_properties <$> connack_properties connack)
   | _ => mret tt
   end);;
  reset_connack_scoped_state;;
  with_auth complete_initial_connack;;
  (match connack_properties connack with
   | Some props => mmodify (apply_connack_properties props)
   | None => mret tt
   end);;
  mmodify (set_connack_received true);;
  mret None.

Definition handle_incoming_disconn (disconn : Disconnect) : ST (option Packet) :=
  let redirect_reason :=
    match reason_code disconn with
    | DRC_UseAnotherServer => Some RR_UseAnotherServer
    | DRC_ServerMoved => Some RR_ServerMoved
    | _ => None
    end in
  match redirect_reason with
  | Some reason =>
      mfail (ServerRedirect
        {| ro_reason := reason;
           ro_server_reference := props ← disconnect_properties disconn; dp_server_reference props;
           ro_source := RS_Disconnect |})
  | None =>
      fail_auth_exchange (AN_BrokerDisconnected (reason_code disconn))
        (AE_BrokerDisconnected (reason_code disconn));;
      mfail (ServerDisconnect (reason_code disconn)
               (props ← disconnect_properties disconn; dp_reason_string props))
  end.

(** ** Publishes *)

Definition handle_protocol_error : ST (option Packet) :=
  packet ← outgoing_disconnect (Disconnect_new DRC_ProtocolError);
  mret (Some packet).

(** The answer to a publish that has been accepted. *)
Definition acknowledge_publish (publish : Publish) : ST (option Packet) :=
  let pkid := pub_pkid publish in
  match pub_qos publish with
  | AtMostOnce => mret None
  | AtLeastOnce =>
      s ← mget;
      bits ← insert_bit (incoming_puback s) pkid;
      mmodify (set_incoming_puback bits);;
      if decide (ack_mode s = Automatic) then
        packet ← outgoing_puback (PubAck_new pkid None);
        mret (Some packet)
      else mret None
  | ExactlyOnce =>
      s ← mget;
      bits ← insert_bit (incoming_pub s) pkid;
      mmodify (set_incoming_pub bits);;
      if bool_decide (ack_mode s = Automatic) || contains (incoming_pubrec s) pkid then
        packet ← outgoing_pubrec_internal (PubRec_new pkid None) true;
        mret (Some packet)
      else mret None
  end.

(** The publish with its topic, whose alias has been recorded; [None] for an alias without one. *)
Definition resolve_incoming_alias (publish : Publish) : ST (option Publish) :=
  s ← mget;
  let topic_alias := publish_topic_alias publish in
  if negb (bool_decide (topic publish = [])) then
    (match topic_alias with
     | Some alias =>
         mmodify (set_topic_aliases
           (set_incoming (<[alias := topic publish]> (ta_incoming (topic_aliases s)))
             (topic_aliases s)))
     | None => mret tt
     end);;
    mret (Some publish)
  else
    mret (match topic_alias with
          | Some alias => with_topic publish <$> ta_incoming (topic_aliases s) !! alias
          | None => Some publish
          end).

(** Also returns the publish, whose topic may have been filled in: the code changes it in place. *)
Definition handle_incoming_publish (publish : Publish) : ST (option Packet * Publish) :=
  s ← mget;
  if match publish_topic_alias publish with
     | Some alias => ta_client_max (topic_aliases s) <? alias
     | None => false
     end
  then
    packet ← outgoing_disconnect (Disconnect_new DRC_TopicAliasInvalid);
    mret (Some packet, publish)
  else
    resolved ← resolve_incoming_alias publish;
    match resolved with
    | None => packet ← handle_protocol_error; mret (packet, publish)
    | Some publish =>
        s ← mget;
        let quota_index := pub_pkid publish in
        let consumes_new_quota := bool_decide (pub_qos publish ≠ AtMostOnce)
                                  && negb (contains (incoming_publish_quota s) quota_index) in
        if consumes_new_quota && (max_incoming_inflight s <=? incoming_inflight s) then
          packet ← outgoing_disconnect (Disconnect_new DRC_ReceiveMaximumExceeded);
          mret (Some packet, publish)
        else
          (if consumes_new_quota then
             bits ← insert_bit (incoming_publish_quota s) quota_index;
             mmodify (set_incoming_publish_quota bits);;
             if u16_MAX <? incoming_inflight s + 1 then mpanic
             else mmodify (set_incoming_inflight (incoming_inflight s + 1))
           else mret tt);;
          packet ← acknowledge_publish publish;
          mret (packet, publish)
    end.

(** ** Acknowledgements of publishes *)

(** Take the publish out of its slot; an error when there is none to take. *)
Definition take_publish (pkid : u16) : ST unit :=
  s ← mget;
  slot ← lift (ok_or (vget (outgoing_pub s) pkid) (Unsolicited pkid));
  mmodify (set_outgoing_pub (vset (outgoing_pub s) pkid None));;
  if is_none slot then mfail (Unsolicited pkid)
  else mmodify (λ s, set_outgoing_pub_order (remove_ordered_pkid (outgoing_pub_order s) pkid) s).

Definition take_pub_notice (pkid : u16) : ST (option NoticeTx) :=
  s ← mget;
  notice ← index (outgoing_pub_notice s) pkid;
  mmodify (set_outgoing_pub_notice (vset (outgoing_pub_notice s) pkid None));;
  mret notice.

Definition take_rel_notice (pkid : u16) : ST (option NoticeTx) :=
  s ← mget;
  notice ← index (outgoing_rel_notice s) pkid;
  mmodify (set_outgoing_rel_notice (vset (outgoing_rel_notice s) pkid None));;
  mret notice.

(** The end of a publish flow, common to PUBACK, a refusing PUBREC, and PUBCOMP: a publish held
    back because of it is sent, and its notice is completed. *)
Definition finish_publish (pkid : u16) (notice : option NoticeTx) (result : PublishResult)
  : ST IncomingPacketEffects :=
  packet ← replay_collision_publish pkid;
  let effects := effects_outgoing packet in
  let effects := match notice with
                 | Some tx => with_notice effects (DN_Publish tx result)
                 | None => effects
                 end in
  (if is_none packet then maybe_shrink_outgoing_tracking_capacity else mret tt);;
  mret effects.

Definition handle_incoming_puback (puback : PubAck) : ST IncomingPacketEffects :=
  let pkid := ack_pkid puback in
  take_publish pkid;;
  release_outbound_pkid pkid;;
  notice ← take_pub_notice pkid;
  release_outgoing_publish_quota pkid;;
  finish_publish pkid notice (Qos1 puback).

Definition handle_incoming_pubrec (pubrec : PubRec) : ST IncomingPacketEffects :=
  let pkid := ack_pkid pubrec in
  take_publish pkid;;
  notice ← take_pub_notice pkid;
  if 0x80 <=? PubRecReason_code (ack_reason pubrec) then
    release_outbound_pkid pkid;;
    release_outgoing_publish_quota pkid;;
    finish_publish pkid notice (Qos2PubRecRejected pubrec)
  else
    s ← mget;
    bits ← insert_bit (outgoing_rel s) pkid;
    mmodify (set_outgoing_rel bits);;
    mmodify (λ s, set_outgoing_rel_order (outgoing_rel_order s ++ [pkid]) s);;
    s ← mget;
    notices ← assign (outgoing_rel_notice s) pkid notice;
    mmodify (set_outgoing_rel_notice notices);;
    push_event (O_PubRel pkid);;
    mret (effects_outgoing (Some (P_PubRel (PubRel_new pkid None)))).

Definition handle_incoming_pubrel (pubrel : PubRel) : ST (option Packet) :=
  let pkid := ack_pkid pubrel in
  s ← mget;
  if negb (contains (incoming_pub s) pkid) then
    push_event (O_PubComp pkid);;
    mret (Some (P_PubComp (mkAck pkid PCR_PacketIdentifierNotFound None)))
  else if negb (contains (incoming_pubrec s) pkid) then mfail (Unsolicited pkid)
  else
    pub_bits ← set_bit (incoming_pub s) pkid false;
    mmodify (set_incoming_pub pub_bits);;
    rec_bits ← set_bit (incoming_pubrec s) pkid false;
    mmodify (set_incoming_pubrec rec_bits);;
    push_event (O_PubComp pkid);;
    release_incoming_publish_quota pkid;;
    mret (Some (P_PubComp (PubComp_new pkid None))).

Definition handle_incoming_pubcomp (pubcomp : PubComp) : ST IncomingPacketEffects :=
  let pkid := ack_pkid pubcomp in
  s ← mget;
  if negb (contains (outgoing_rel s) pkid) then mfail (Unsolicited pkid)
  else
    bits ← set_bit (outgoing_rel s) pkid false;
    mmodify (set_outgoing_rel bits);;
    let recovered := contains (outgoing_rel_recovery s) pkid in
    (if recovered then
       recovery_bits ← set_bit (outgoing_rel_recovery s) pkid false;
       mmodify (set_outgoing_rel_recovery recovery_bits)
     else mret tt);;
    mmodify (λ s, set_outgoing_rel_order (remove_ordered_pkid (outgoing_rel_order s) pkid) s);;
    mmodify (λ s, if no_entries (outgoing_rel_order s)
                  then set_outgoing_rel_recovery (with_capacity 0) s else s);;
    notice ← take_rel_notice pkid;
    release_outbound_pkid pkid;;
    release_outgoing_publish_quota pkid;;
    finish_publish pkid notice
      (if recovered && bool_decide (ack_reason pubcomp = PCR_PacketIdentifierNotFound)
       then Qos2Recovered pubcomp else Qos2Completed pubcomp).

Definition handle_incoming_pingresp : ST (option Packet) :=
  mmodify (λ s, set_ping (PingState_finish_waiting_for_resp (ping s)) s);;
  mret None.

(** ** AUTH *)

Definition validate_incoming_auth (auth_ : Auth) : ST IncomingAuthEffect := λ s,
  match with_auth (incoming_auth auth_) s with
  | (Err (Deserialization ProtocolError), s) =>
      (fail_auth_exchange AN_ProtocolError
         (AE_Failed (T_literal "authentication protocol error"));;
       mfail (Deserialization ProtocolError)) s
  | r => r
  end.

Definition handle_incoming_auth (auth_ : Auth) : ST (option Packet) :=
  effect ← validate_incoming_auth auth_;
  match effect with
  | IA_Success kind method =>
      authenticate_success kind method (auth_properties auth_);;
      with_auth (complete_success kind method);;
      mret None
  | IA_Continue kind =>
      s ← mget;
      match authenticator s with
      | None => mfail AuthenticatorNotSet
      | Some a =>
          let method := default [] (props ← auth_properties auth_; auth_method props) in
          continue_result ← call_authenticator a
            (λ a, auth_continue a (auth_context s kind method) (auth_properties auth_));
          match continue_result with
          | inl err => fail_with err
          | inr action =>
              match into_continue_properties action with
              | inl err => fail_with err
              | inr out_auth_props =>
                  s ← mget;
                  client_auth ← lift (outgoing_continue (auth s) out_auth_props);
                  packet ← outgoing_auth_packet client_auth;
                  mret (Some packet)
              end
          end
      end
  end.

(** ** Dispatch *)

Definition is_duplicate_incoming_qos2_publish (s : State) (packet : Packet) : bool :=
  match packet with
  | P_Publish publish =>
      bool_decide (pub_qos publish = ExactlyOnce) && contains (incoming_pubrec s) (pub_pkid publish)
  | _ => false
  end.

(** [self.events.insert(at, Event::Incoming(packet))]. *)
Definition insert_event (at_ : Z) (e : Event) : ST unit :=
  s ← mget;
  if blen (events s) <? at_ then mpanic
  else mmodify (set_events (take (Z.to_nat at_) (events s) ++ e :: drop (Z.to_nat at_) (events s))).

(** The handler of a packet: its effects, and the packet as it is left. *)
Definition dispatch_incoming (packet : Packet) : ST (IncomingPacketEffects * Packet) :=
  match packet with
  | P_PingResp => outgoing ← handle_incoming_pingresp; mret (effects_outgoing outgoing, packet)
  | P_Publish publish =>
      '(outgoing, publish) ← handle_incoming_publish publish;
      mret (effects_outgoing outgoing, P_Publish publish)
  | P_SubAck suback => effects ← handle_incoming_suback suback; mret (effects, packet)
  | P_UnsubAck unsuback => effects ← handle_incoming_unsuback unsuback; mret (effects, packet)
  | P_PubAck puback => effects ← handle_incoming_puback puback; mret (effects, packet)
  | P_PubRec pubrec => effects ← handle_incoming_pubrec pubrec; mret (effects, packet)
  | P_PubRel pubrel =>
      outgoing ← handle_incoming_pubrel pubrel; mret (effects_outgoing outgoing, packet)
  | P_PubComp pubcomp => effects ← handle_incoming_pubcomp pubcomp; mret (effects, packet)
  | P_ConnAck connack =>
      outgoing ← handle_incoming_connack connack; mret (effects_outgoing outgoing, packet)
  | P_Disconnect disconn =>
      outgoing ← handle_incoming_disconn disconn; mret (effects_outgoing outgoing, packet)
  | P_Auth auth => outgoing ← handle_incoming_auth auth; mret (effects_outgoing outgoing, packet)
  | P_Connect _ _ _ | P_PingReq | P_Subscribe _ | P_Unsubscribe _ =>
      mfail (SE_ProtocolViolation (UnexpectedIncomingPacket (Packet_packet_type packet)))
  end.

(** A publish that is answered with DISCONNECT is not reported. *)
Definition refused_publish (packet : Packet) (effects : IncomingPacketEffects) : bool :=
  match packet, eff_outgoing effects with
  | P_Publish _, Some (P_Disconnect _) => true
  | _, _ => false
  end.

(** A refused CONNACK and a DISCONNECT are reported although handling them is an error. *)
Definition queued_on_error (packet : Packet) (e : StateError) : bool :=
  match packet, e with
  | P_ConnAck _, ConnFail _ => true
  | P_Disconnect _, ServerDisconnect _ _ => true
  | _, _ => false
  end.

Definition handle_incoming_packet_with_effects (now : Instant) (packet : Packet)
  : ST IncomingPacketEffects := λ s0,
  let s := match packet with
           | P_Disconnect _ => set_connection_failure_packet (Some (Some packet)) s0
           | _ => s0
           end in
  let events_len_before := blen (events s) in
  let duplicate := is_duplicate_incoming_qos2_publish s packet in
  match dispatch_incoming packet s with
  | (Ok (effects, packet), s) =>
      ((if refused_publish packet effects || duplicate then mret tt
        else insert_event events_len_before (Ev_Incoming packet));;
       mmodify (set_last_incoming now);;
       mret effects) s
  | (Err e, s) =>
      ((if queued_on_error packet e then insert_event events_len_before (Ev_Incoming packet)
        else mret tt);;
       mfail e) s
  | (Panic, s) => (Panic, s)
  end.

(** [complete_notices]: the deferred notices are completed in order. *)
Fixpoint complete_notices (notices : list DeferredNotice) : ST unit :=
  match notices with
  | [] => mret tt
  | notice :: notices =>
      (let '(tx, r) := DeferredNotice_complete notice in settle tx r);;
      complete_notices notices
  end.

Definition handle_incoming_packet (now : Instant) (packet : Packet) : ST (option Packet) :=
  effects ← handle_incoming_packet_with_effects now packet;
  complete_notices (eff_notices effects);;
  mret (eff_outgoing effects).

(** ** With an asynchronous authenticator

    [answer] is what the authenticator gives to the challenge the operation waits on. *)

Definition verify_connack_authentication_async (answer : AuthError + AuthAction) (connack : ConnAck)
  : ST unit :=
  s ← mget;
  match async_authenticator s, active_exchange (auth s) with
  | true, Some (InitialConnect, method) =>
      lift (validate_incoming_connack s connack);;
      match answer with
      | inl error => fail_with error
      | inr AA_Complete => mret tt
      | inr _ => fail_with (AE_Failed (T_literal "invalid CONNACK authentication response"))
      end
  | _, _ => mret tt
  end.

Definition handle_incoming_auth_async (answer : AuthError + AuthAction) (effect : IncomingAuthEffect)
  : ST (option Packet) :=
  match effect with
  | IA_Success kind method =>
      match answer with
      | inl error => fail_with error
      | inr AA_Complete => with_auth (complete_success kind method);; mret None
      | inr _ => fail_with (AE_Failed (T_literal "invalid success response"))
      end
  | IA_Continue kind =>
      s ← mget;
      match active_exchange (auth s) with
      | None => mpanic
      | Some _ =>
          match answer with
          | inl error => fail_with error
          | inr action =>
              match into_continue_properties action with
              | inl error => fail_with error
              | inr properties =>
                  s ← mget;
                  response ← lift (outgoing_continue (auth s) properties);
                  packet ← outgoing_auth_packet response;
                  mret (Some packet)
              end
          end
      end
  end.

Definition handle_incoming_packet_with_effects_async (answer : AuthError + AuthAction) (now : Instant)
    (packet : Packet) : ST IncomingPacketEffects :=
  (match packet with
   | P_ConnAck connack => verify_connack_authentication_async answer connack
   | _ => mret tt
   end);;
  s ← mget;
  match packet with
  | P_Auth auth_ =>
      if negb (async_authenticator s) then handle_incoming_packet_with_effects now packet
      else
        let events_len_before := blen (events s) in
        effect ← validate_incoming_auth auth_;
        insert_event events_len_before (Ev_Incoming packet);;
        outgoing ← handle_incoming_auth_async answer effect;
        mmodify (set_last_incoming now);;
        mret (effects_outgoing outgoing)
  | _ => handle_incoming_packet_with_effects now packet
  end.

Definition begin_authentication_connect_async (answer : AuthError + AuthAction) (method : option Bytes)
  : ST (option AuthProperties) :=
  result ← begin_authentication_connect method;
  s ← mget;
  match async_authenticator s, method with
  | true, Some method =>
      match answer with
      | inl error => fail_with error
      | inr (AA_Send properties) =>
          match normalize_auth_properties method (Some properties) with
          | Ok properties => mret (Some properties)
          | Err error => fail_with (AE_Failed (normalize_error_text error))
          | Panic => mpanic
          end
      | inr AA_Complete => mret None
      | inr (AA_Fail message) => fail_with (AE_Failed message)
      end
  | _, _ => mret result
  end.
End Incoming.
