(* ===== verification/V5Clean.v ===== *)
(** [rumqttc-v5/src/state.rs]: leaving a connection or a session of MQTT 5: collecting the unfinished
    requests ([clean]), failing their notices, resetting the session, the checkpoint of a session and
    restoring one, and the diagnostics. *)

From Stdlib Require Import String.
From S2P Require Import Prelude.
From S2P Require Import Utf8.
From S2P Require Import Primitives.
From S2P Require Import FixedBitSet.
From S2P Require Import PacketIds.
From S2P Require Import V5Base.
From S2P Require Import V5Properties.
From S2P Require Import V5Acks.
From S2P Require Import V5SubAck.
From S2P Require Import V5Subscribe.
From S2P Require Import V5Publish.
From S2P Require Import V5ConnAck.
From S2P Require Import V5Disconnect.
From S2P Require Import V5Auth.
From S2P Require Import V5Packet.
From S2P Require Import V5Persist.
From S2P Require Import V5SessionTypes.
From S2P Require Import V5AuthLifecycle.
From S2P Require Import V5TopicAlias.
From S2P Require Import V5StateRecord.
From S2P Require Import V5State.
From S2P Require Import V5Incoming.
From S2P Require Import SessionIO.
From S2P Require Import V5SessionFormat.
#[local] Open Scope Z_scope.

#[local] Open Scope Z_scope.

Section Clean.
  Context {B A : Type} `{FixedBitSet B} `{Authenticator A}.

Abbreviation State := (MqttState B A).
Abbreviation ST := (M State StateError).

(** ** [clean_with_notices_internal] *)

(** [u16::try_from(pkid).expect(..)]. *)
Definition expect_u16 (pkid : Z) : outcome StateError u16 :=
  if (0 <=? pkid) && (pkid <=? u16_MAX) then Ok pkid else Panic.

(** The first loop: tracked publishes missing from the order, from slot [pkid] on. *)
Fixpoint fill_pub_order (pubs : list (option Publish)) (pkid : Z) (order : list u16)
  : outcome StateError (list u16) :=
  match pubs with
  | [] => Ok order
  | publish :: rest =>
      id ← expect_u16 pkid;
      fill_pub_order rest (pkid + 1)
        (if is_some publish && negb (bool_decide (id ∈ order)) then order ++ [id] else order)
  end.

(** The second loop: released publishes missing from the order. *)
Fixpoint fill_rel_order (pkids : list Z) (order : list u16) : outcome StateError (list u16) :=
  match pkids with
  | [] => Ok order
  | pkid :: rest =>
      id ← expect_u16 pkid;
      fill_rel_order rest (if negb (bool_decide (id ∈ order)) then order ++ [id] else order)
  end.

Definition mark_dup (publish : Publish) : Publish :=
  if decide (pub_qos publish = AtMostOnce) then publish
  else {| dup := true; pub_qos := pub_qos publish; retain := retain publish;
          topic := topic publish; pub_pkid := pub_pkid publish; payload := payload publish;
          pub_properties := pub_properties publish |}.

(** The publishes, in order; also the identifiers to release. *)
Fixpoint clean_publishes (keep_replay_pkids_reserved : bool) (order : list u16)
  : ST (list CleanRequest * list u16) :=
  match order with
  | [] => mret ([], [])
  | pkid :: order =>
      s ← mget;
      slot ← index (outgoing_pub s) pkid;
      match slot with
      | None => clean_publishes keep_replay_pkids_reserved order
      | Some publish =>
          mmodify (set_outgoing_pub (vset (outgoing_pub s) pkid None));;
          notice ← take_pub_notice pkid;
          let publish := mark_dup publish in
          let clean := {| cr_request := R_Publish publish; cr_notice := TN_Publish <$> notice;
                          cr_replay := true |} in
          '(pending, released) ← clean_publishes keep_replay_pkids_reserved order;
          mret (clean :: pending,
                if keep_replay_pkids_reserved then released else pub_pkid publish :: released)
      end
  end.

Fixpoint release_all (pkids : list u16) : ST unit :=
  match pkids with
  | [] => mret tt
  | pkid :: pkids => release_outbound_pkid pkid;; release_all pkids
  end.

Definition clean_collision : ST (list CleanRequest) :=
  s ← mget;
  match collision s with
  | None => mret []
  | Some publish =>
      mmodify (set_collision None);;
      mmodify (set_collision_notice None);;
      mret [{| cr_request := R_Publish publish; cr_notice := TN_Publish <$> collision_notice s;
               cr_replay := false |}]
  end.

Fixpoint clean_pubrels (order : list u16) : ST (list CleanRequest) :=
  match order with
  | [] => mret []
  | pkid :: order =>
      notice ← take_rel_notice pkid;
      pending ← clean_pubrels order;
      mret ({| cr_request := R_PubRel (PubRel_new pkid None);
               cr_notice := TN_Publish <$> notice; cr_replay := true |} :: pending)
  end.

Fixpoint mark_pubrel_replay (pkids : list u16) : ST unit :=
  match pkids with
  | [] => mret tt
  | pkid :: pkids =>
      s ← mget;
      bits ← insert_bit (outgoing_rel_replay s) pkid;
      mmodify (set_outgoing_rel_replay bits);;
      mmodify (λ s, if bool_decide (pkid ∈ outgoing_rel_replay_order s) then s
                    else set_outgoing_rel_replay_order (outgoing_rel_replay_order s ++ [pkid]) s);;
      mark_pubrel_replay pkids
  end.

Fixpoint clean_subscribes (keep_replay_pkids_reserved : bool)
    (entries : list (Z * PendingSubscribe)) : ST (list CleanRequest) :=
  match entries with
  | [] => mret []
  | (pkid, pending_subscribe) :: entries =>
      (if keep_replay_pkids_reserved then mret tt else release_outbound_pkid pkid);;
      pending ← clean_subscribes keep_replay_pkids_reserved entries;
      let subscribe := ps_subscribe pending_subscribe in
      mret ({| cr_request := R_Subscribe {| subscribe_pkid := pkid; filters := filters subscribe;
                 subscribe_properties := subscribe_properties subscribe |};
               cr_notice := TN_Subscribe <$> ps_notice pending_subscribe;
               cr_replay := true |} :: pending)
  end.

Fixpoint clean_unsubscribes (keep_replay_pkids_reserved : bool)
    (entries : list (Z * PendingUnsubscribe)) : ST (list CleanRequest) :=
  match entries with
  | [] => mret []
  | (pkid, pending_unsubscribe) :: entries =>
      (if keep_replay_pkids_reserved then mret tt else release_outbound_pkid pkid);;
      pending ← clean_unsubscribes keep_replay_pkids_reserved entries;
      let unsubscribe := pu_unsubscribe pending_unsubscribe in
      mret ({| cr_request := R_Unsubscribe {| unsubscribe_pkid := pkid;
                 unsubscribe_filters := unsubscribe_filters unsubscribe;
                 unsubscribe_properties := unsubscribe_properties unsubscribe |};
               cr_notice := TN_Unsubscribe <$> pu_notice pending_unsubscribe;
               cr_replay := true |} :: pending)
  end.

Definition clean_with_notices_internal (keep_replay_pkids_reserved : bool)
  : ST (list CleanRequest) :=
  s ← mget;
  pub_order ← lift (fill_pub_order (tail (outgoing_pub s)) 1 (outgoing_pub_order s));
  mmodify (set_outgoing_pub_order pub_order);;
  rel_order ← lift (fill_rel_order (ones (outgoing_rel s)) (outgoing_rel_order s));
  mmodify (set_outgoing_rel_order rel_order);;
  mmodify (set_outgoing_pub_order []);;
  '(publishes, released) ← clean_publishes keep_replay_pkids_reserved pub_order;
  release_all released;;
  collisions ← clean_collision;
  mmodify (set_outgoing_rel_order []);;
  pubrels ← clean_pubrels rel_order;
  mark_pubrel_replay rel_order;;
  mmodify (λ s, set_outgoing_rel (clear_bits (outgoing_rel s)) s);;
  mmodify (set_outgoing_rel_recovery (with_capacity 0));;
  s ← mget;
  mmodify (set_pending_subscribe ∅);;
  subscribes ← clean_subscribes keep_replay_pkids_reserved (btree_entries (pending_subscribe s));
  s ← mget;
  mmodify (set_pending_unsubscribe ∅);;
  unsubscribes ← clean_unsubscribes keep_replay_pkids_reserved
                   (btree_entries (pending_unsubscribe s));
  mmodify (λ s, set_incoming_puback (clear_bits (incoming_puback s)) s);;
  mmodify (set_ping PingState_new);;
  mmodify (λ s, set_outgoing_publish_quota (clear_bits (outgoing_publish_quota s)) s);;
  mmodify (set_inflight 0);;
  let pending := publishes ++ collisions ++ pubrels ++ subscribes ++ unsubscribes in
  (if no_entries pending then maybe_shrink_outgoing_tracking_capacity else mret tt);;
  mret pending.

Definition clean_with_notices : ST (list (Request * option TrackedNoticeTx)) :=
  pending ← clean_with_notices_internal false;
  mret ((λ c, (cr_request c, cr_notice c)) <$> pending).

Definition clean_with_notices_for_reconnect : ST (list CleanRequest) :=
  clean_with_notices_internal true.

(** The requests that can be replayed on a new connection, where no alias has a topic. *)
Fixpoint prepare_requests (aliases : gmap Z (list Z)) (requests : list Request) : list Request :=
  match requests with
  | [] => []
  | request :: requests =>
      match prepare_request_for_replay_with_aliases request aliases with
      | (inr request, aliases) => request :: prepare_requests aliases requests
      | (inl _, aliases) => prepare_requests aliases requests
      end
  end.

Definition clean : ST (list Request) :=
  s ← mget;
  let replay_topic_aliases := replay_aliases (topic_aliases s) in
  pending ← clean_with_notices;
  reset_connection_scoped_state;;
  mret (prepare_requests replay_topic_aliases (fst <$> pending)).

(** ** Failing notices and resetting *)

Fixpoint drain_subscribes (reason : NoticeFailureReason) (entries : list (Z * PendingSubscribe))
  : ST unit :=
  match entries with
  | [] => mret tt
  | (pkid, pending_subscribe) :: entries =>
      release_outbound_pkid pkid;;
      settle_opt (ps_notice pending_subscribe) (S_SubscribeError (subscribe_error reason));;
      drain_subscribes reason entries
  end.

Fixpoint drain_unsubscribes (reason : NoticeFailureReason) (entries : list (Z * PendingUnsubscribe))
  : ST unit :=
  match entries with
  | [] => mret tt
  | (pkid, pending_unsubscribe) :: entries =>
      release_outbound_pkid pkid;;
      settle_opt (pu_notice pending_unsubscribe) (S_UnsubscribeError (unsubscribe_error reason));;
      drain_unsubscribes reason entries
  end.

Definition drain_tracked_requests_as_failed (reason : NoticeFailureReason) : ST usize :=
  s ← mget;
  let drained := Z.of_nat (size (pending_subscribe s)) + Z.of_nat (size (pending_unsubscribe s)) in
  mmodify (set_pending_subscribe ∅);;
  drain_subscribes reason (btree_entries (pending_subscribe s));;
  s ← mget;
  mmodify (set_pending_unsubscribe ∅);;
  drain_unsubscribes reason (btree_entries (pending_unsubscribe s));;
  mret drained.

(** Complete the publish notices of a vector of slots. *)
Fixpoint fail_slots (reason : NoticeFailureReason) (slots : list (option NoticeTx)) : ST unit :=
  match slots with
  | [] => mret tt
  | slot :: slots =>
      settle_opt slot (S_PublishError (publish_error reason));;
      fail_slots reason slots
  end.

Definition fail_pending_notices (reason : NoticeFailureReason) : ST unit :=
  s ← mget;
  mmodify (λ s, set_outgoing_pub_notice ((λ _, None) <$> outgoing_pub_notice s) s);;
  fail_slots reason (outgoing_pub_notice s);;
  mmodify (λ s, set_outgoing_rel_notice ((λ _, None) <$> outgoing_rel_notice s) s);;
  fail_slots reason (outgoing_rel_notice s);;
  mmodify (set_collision_notice None);;
  settle_opt (collision_notice s) (S_PublishError (publish_error reason));;
  drain_tracked_requests_as_failed reason;;
  clear_collision.

(** [*self = reset]: of the old state the events, the authentication and the completed notices
    survive. *)
Definition reset_session_state_with_reason (now : Instant) (reason : NoticeFailureReason) : ST unit :=
  fail_pending_notices reason;;
  mmodify (λ s,
    let auth_ := AuthLifecycle_clone (auth s) in
    let reset := new_internal now (max_outgoing_inflight_upper_limit s) (ack_mode s)
      (ta_auto_policy (topic_aliases s)) (ta_client_max (topic_aliases s)) (max_incoming_inflight s)
      (al_method auth_) (authenticator s) in
    let reset := set_auth_client_id (auth_client_id s) reset in
    let reset := set_async_authenticator (async_authenticator s) reset in
    let reset := set_events (events s) reset in
    let reset := set_auth auth_ reset in
    set_settled (settled s) reset).

Definition reset_session_state (now : Instant) : ST unit :=
  reset_session_state_with_reason now NF_SessionReset.

Definition discard_replayed_request (request : Request) : ST unit :=
  match request with
  | R_Publish publish =>
      if decide (pub_qos publish = AtMostOnce) then mret tt
      else release_outbound_pkid (pub_pkid publish)
  | R_PubRel pubrel =>
      s ← mget;
      bits ← set_bit (outgoing_rel_replay s) (ack_pkid pubrel) false;
      mmodify (set_outgoing_rel_replay bits);;
      mmodify (λ s, set_outgoing_rel_replay_order
                      (remove_ordered_pkid (outgoing_rel_replay_order s) (ack_pkid pubrel)) s);;
      release_outbound_pkid (ack_pkid pubrel)
  | R_Subscribe subscribe => release_outbound_pkid (subscribe_pkid subscribe)
  | R_Unsubscribe unsubscribe => release_outbound_pkid (unsubscribe_pkid unsubscribe)
  | _ => mret tt
  end.

(** ** The checkpoint of a session *)

(** The loop over the publishes; the index panics out of bounds. *)
Fixpoint persisted_publishes (s : State) (order : list u16)
  : outcome SessionRestoreError (list PersistedRequest) :=
  match order with
  | [] => Ok []
  | pkid :: order =>
      match vget (outgoing_pub s) pkid with
      | None => Panic
      | Some slot =>
          replay ← persisted_publishes s order;
          Ok (match slot ≫= persisted_publish with
              | Some persisted => PR_Publish persisted :: replay
              | None => replay
              end)
      end
  end.

Definition persisted_replay_requests (s : State)
  : outcome SessionRestoreError (list PersistedRequest) :=
  publishes ← persisted_publishes s (outgoing_pub_order s);
  Ok (publishes
      ++ map (λ pkid, PR_PubRel {| prel_pkid := pkid |}) (outgoing_rel_order s)
      ++ map (λ e, PR_Subscribe (persisted_subscribe (ps_subscribe e.2)))
           (btree_entries (pending_subscribe s))
      ++ map (λ e, PR_Unsubscribe (persisted_unsubscribe (pu_unsubscribe e.2)))
           (btree_entries (pending_unsubscribe s))).

Definition persisted_session (s : State) (options : SessionOptions) (expiry_interval : option u32)
    (replay_requests : list Request) : outcome SessionRestoreError PersistedSession :=
  replay ← persisted_replay_requests s;
  Ok {| session_format_version := 2;
        session_client_id := opt_client_id options;
        session_clean_start := opt_clean_start options;
        session_expiry_interval := expiry_interval;
        session_outgoing_inflight_upper_limit := opt_outgoing_inflight_upper_limit options;
        session_ack_mode := persisted_ack_mode (opt_ack_mode options);
        session_replay := replay ++ omap persisted_request_from_request replay_requests;
        session_incoming_qos2 :=
          omap (λ pkid, if pkid <=? u16_MAX then Some {| pi_pkid := pkid |} else None)
            (ones (incoming_pubrec s)) |}.

(** ** Restoring a session *)

Fixpoint validate_incoming (incoming : list PersistedIncomingQos2)
  : outcome SessionRestoreError unit :=
  match incoming with
  | [] => Ok tt
  | i :: incoming => validate_pkid (pi_pkid i);; validate_incoming incoming
  end.

Abbreviation RT := (M State SessionRestoreError).

(** The loop of [validate_persisted_session_packet_ids] over the requests: the number of publishes. *)
Fixpoint validate_replay (replay : list PersistedRequest) (packet_ids : B) (publish_count : usize)
  : RT usize :=
  match replay with
  | [] => mret publish_count
  | request :: replay =>
      pkid ← lift (validate_persisted_replay_request request);
      if contains packet_ids pkid then mfail (DuplicateOutgoingPacketIdentifier pkid)
      else
        packet_ids ← insert_bit packet_ids pkid;
        validate_replay replay packet_ids
          (match request with PR_Publish _ => publish_count + 1 | _ => publish_count end)
  end.

Definition validate_persisted_session_packet_ids (session : PersistedSession) : RT unit :=
  lift (validate_incoming (session_incoming_qos2 session));;
  publish_count ←
    validate_replay (session_replay session) (with_capacity full_packet_identifier_len) 0;
  s ← mget;
  if max_outgoing_inflight_upper_limit s <? publish_count
  then mfail (OutgoingPublishWindowExceeded publish_count (max_outgoing_inflight_upper_limit s))
  else mret tt.

(** An operation of the session state, which does not fail here. *)
Definition run {R} (m : ST R) : RT R := λ s,
  match m s with (Ok r, s) => (Ok r, s) | (Err _, s) | (Panic, s) => (Panic, s) end.

Fixpoint restore_incoming (incoming : list PersistedIncomingQos2) : RT unit :=
  match incoming with
  | [] => mret tt
  | i :: incoming =>
      s ← mget;
      pub_bits ← insert_bit (incoming_pub s) (pi_pkid i);
      mmodify (set_incoming_pub pub_bits);;
      rec_bits ← insert_bit (incoming_pubrec s) (pi_pkid i);
      mmodify (set_incoming_pubrec rec_bits);;
      restore_incoming incoming
  end.

Definition restore_request (request : PersistedRequest) : RT unit :=
  pkid ← match request with
    | PR_Publish publish =>
        run (ensure_outgoing_tracking_capacity (pp_pkid publish + 1));;
        mret (pp_pkid publish)
    | PR_PubRel pubrel =>
        run (ensure_outgoing_tracking_capacity (prel_pkid pubrel + 1));;
        s ← mget;
        bits ← insert_bit (outgoing_rel_replay s) (prel_pkid pubrel);
        mmodify (set_outgoing_rel_replay bits);;
        mmodify (λ s, set_outgoing_rel_replay_order
                        (outgoing_rel_replay_order s ++ [prel_pkid pubrel]) s);;
        mret (prel_pkid pubrel)
    | PR_Subscribe subscribe => mret (psub_pkid subscribe)
    | PR_Unsubscribe unsubscribe => mret (punsub_pkid unsubscribe)
    end;
  s ← mget;
  in_use ← insert_bit (outbound_pkid_in_use s) pkid;
  mmodify (set_outbound_pkid_in_use in_use).

Fixpoint restore_requests (replay : list PersistedRequest) : RT unit :=
  match replay with
  | [] => mret tt
  | request :: replay => restore_request request;; restore_requests replay
  end.

(** [iter().map(..).collect::<Result<Vec<_>, _>>()] *)
Fixpoint requests_from_persisted (replay : list PersistedRequest)
  : outcome SessionRestoreError (list Request) :=
  match replay with
  | [] => Ok []
  | request :: replay =>
      r ← request_from_persisted_request request;
      rest ← requests_from_persisted replay;
      Ok (r :: rest)
  end.

Definition restore_persisted_session (now : Instant) (options : SessionOptions)
    (session : PersistedSession) : RT (list Request) :=
  lift (validate_persisted_session_signature options session);;
  validate_persisted_session_packet_ids session;;
  run (reset_session_state now);;
  restore_incoming (session_incoming_qos2 session);;
  restore_requests (session_replay session);;
  s ← mget;
  in_use ← set_bit (outbound_pkid_in_use s) 0 false;
  mmodify (set_outbound_pkid_in_use in_use);;
  (let count := blen (ones in_use) in
   if u16_MAX <? count then mpanic else mmodify (set_outbound_pkid_count count));;
  lift (requests_from_persisted (session_replay session)).

(** ** Diagnostics *)

Record OutboundDiagnostics := mkDiagnostics {
  d_inflight : u16;
  d_max_inflight : u16;
  d_publish_window_full : bool;
  d_packet_identifiers_in_use : usize;
  d_collision : bool;
  d_collision_notice : bool;
  d_pending_subscribe : usize;
  d_pending_unsubscribe : usize;
  d_outgoing_publish : usize;
  d_outgoing_publish_notices : usize;
  d_outgoing_pubrel : usize;
  d_outgoing_pubrel_replay : usize;
  d_outgoing_pubrel_notices : usize;
  d_incoming_puback : usize;
  d_incoming_pub : usize;
  d_incoming_pubrec : usize;
  d_outbound_drained : bool;
}.

Definition count_some {T} (v : list (option T)) : usize := blen (omap id v).

Definition outbound_diagnostics (s : State) : OutboundDiagnostics :=
  let packet_identifiers_in_use := outbound_pkid_count s in
  let collision_ := is_some (collision s) in
  let collision_notice_ := is_some (collision_notice s) in
  let pending_subscribe_ := Z.of_nat (size (pending_subscribe s)) in
  let pending_unsubscribe_ := Z.of_nat (size (pending_unsubscribe s)) in
  let outgoing_publish := count_some (outgoing_pub s) in
  let outgoing_publish_notices := count_some (outgoing_pub_notice s) in
  let outgoing_pubrel := blen (ones (outgoing_rel s)) in
  let outgoing_pubrel_replay := blen (ones (outgoing_rel_replay s)) in
  let outgoing_pubrel_notices := count_some (outgoing_rel_notice s) in
  let outbound_drained :=
    (inflight s =? 0) && negb collision_ && negb collision_notice_
    && (pending_subscribe_ =? 0) && (pending_unsubscribe_ =? 0) && (outgoing_publish =? 0)
    && (outgoing_publish_notices =? 0) && (outgoing_pubrel =? 0)
    && (outgoing_pubrel_replay =? 0) && (outgoing_pubrel_notices =? 0)
    && (packet_identifiers_in_use =? 0) in
  {| d_inflight := inflight s;
     d_max_inflight := max_outgoing_inflight s;
     d_publish_window_full := max_outgoing_inflight s <=? inflight s;
     d_packet_identifiers_in_use := packet_identifiers_in_use;
     d_collision := collision_;
     d_collision_notice := collision_notice_;
     d_pending_subscribe := pending_subscribe_;
     d_pending_unsubscribe := pending_unsubscribe_;
     d_outgoing_publish := outgoing_publish;
     d_outgoing_publish_notices := outgoing_publish_notices;
     d_outgoing_pubrel := outgoing_pubrel;
     d_outgoing_pubrel_replay := outgoing_pubrel_replay;
     d_outgoing_pubrel_notices := outgoing_pubrel_notices;
     d_incoming_puback := blen (ones (incoming_puback s));
     d_incoming_pub := blen (ones (incoming_pub s));
     d_incoming_pubrec := blen (ones (incoming_pubrec s));
     d_outbound_drained := outbound_drained |}.
End Clean.
