(* ===== verification/V5AliasCache.v ===== *)
(** Topic aliases: the invariant of the client's tables, that they are the tables of the broker, and
    which aliases are assigned.

    Automatic topic aliases as a cache: which topics are sent by alias only, compared with a list of
    remembered topics — the first ones under the monotonic policy, the most recent ones under the
    least-recently-used policy. *)

From S2P Require Import Prelude.
From S2P Require Import Utf8.
From S2P Require Import Primitives.
From S2P Require Import PacketIds.
From S2P Require Import V5Base.
From S2P Require Import V5Properties.
From S2P Require Import V5Publish.
From S2P Require Import V5Persist.
From S2P Require Import V5SessionTypes.
From S2P Require Import V5TopicAlias.
#[local] Open Scope Z_scope.

(** ** The broker

    The receiver of a PUBLISH, as MQTT 5 has it (3.3.2.3.4): the topic the packet is about, if it has
    one, and the aliases of the connection after it. *)
Definition receive (aliases : gmap Z (list Z)) (p : Publish) : option Bytes * gmap Z (list Z) :=
  match publish_topic_alias p with
  | None => (if bool_decide (topic p = []) then None else Some (topic p), aliases)
  | Some alias =>
      if bool_decide (topic p = []) then (aliases !! alias, aliases)
      else (Some (topic p), <[alias := topic p]> aliases)
  end.

(** ** The invariant

    Automatic aliases are aliases; an alias is in the range the broker allows and has a topic; every
    alias below the next automatic one is taken; the automatic aliases are on the list of uses. *)
Record alias_inv (t : TopicAliasState) : Prop := {
  ai_max : 0 ≤ ta_broker_max t ≤ u16_MAX;
  ai_auto tp a : ta_auto_outgoing t !! tp = Some a → ta_outgoing t !! a = Some tp;
  ai_range a tp : ta_outgoing t !! a = Some tp → a ≠ 0 ∧ a ≤ ta_broker_max t ∧ tp ≠ [];
  ai_next a : match ta_next_auto t with
              | Some n => 1 ≤ n ∧ (1 ≤ a < n → is_Some (ta_outgoing t !! a))
              | None => 1 ≤ a ≤ ta_broker_max t → is_Some (ta_outgoing t !! a)
              end;
  ai_lru tp a : ta_auto_policy t = TAP_Lru → ta_auto_outgoing t !! tp = Some a → a ∈ ta_auto_lru t;
}.

(** ** Publishes *)

Lemma alias_set_publish p a : publish_topic_alias (set_publish_topic_alias p a) = Some a.
Proof. done. Qed.
Lemma topic_set_publish p a : topic (set_publish_topic_alias p a) = topic p.
Proof. done. Qed.

(** ** The search for a free alias *)

Lemma find_spec {T} (f : T → bool) l :
  match List.find f l with
  | Some x => x ∈ l ∧ f x = true
  | None => ∀ x, x ∈ l → f x = false
  end.
Proof.
  induction l as [|y l IH]; cbn [List.find]; [set_solver|].
  destruct (f y) eqn:Hy; [split; [set_solver|done]|].
  destruct (List.find f l); [set_solver|]. intros x [->|Hx]%elem_of_cons; [done|by apply IH].
Qed.

Lemma next_available_some t a :
  alias_inv t → next_available_auto_topic_alias t = Some a →
  1 ≤ a ≤ ta_broker_max t ∧ ta_outgoing t !! a = None.
Proof.
  intros I. unfold next_available_auto_topic_alias.
  pose proof (ai_next _ I 0) as Hn. destruct (ta_next_auto t) as [n|]; [|done]. cbn.
  pose proof (find_spec (λ alias, is_none (ta_outgoing t !! alias))
    (seqZ n (ta_broker_max t - n + 1))) as Hf.
  destruct (List.find _ _) as [b|]; [|done]. intros [= ->]. destruct Hf as [Hin Hnone].
  apply elem_of_seqZ in Hin. split; [lia|]. by destruct (ta_outgoing t !! a).
Qed.

Lemma next_available_none t a :
  alias_inv t → next_available_auto_topic_alias t = None → 1 ≤ a ≤ ta_broker_max t →
  is_Some (ta_outgoing t !! a).
Proof.
  intros I. unfold next_available_auto_topic_alias. pose proof (ai_next _ I a) as Hn.
  destruct (ta_next_auto t) as [n|]; [|tauto]. cbn.
  pose proof (find_spec (λ alias, is_none (ta_outgoing t !! alias))
    (seqZ n (ta_broker_max t - n + 1))) as Hf.
  destruct (List.find _ _); [done|]. intros _ Ha. destruct (decide (a < n)); [apply Hn; lia|].
  specialize (Hf a). rewrite elem_of_seqZ in Hf. destruct (ta_outgoing t !! a); [done|].
  by specialize (Hf ltac:(lia)).
Qed.

(** The loop over the uses finds the first entry that is an automatic alias. *)
Lemma least_recent_some t l a prev :
  alias_inv t → least_recent_loop t l = Some (a, prev) →
  a ∈ l ∧ ∃ tp, prev = Some tp ∧ ta_outgoing t !! a = Some tp ∧ ta_auto_outgoing t !! tp = Some a.
Proof.
  intros I. induction l as [|b l IH]; cbn [least_recent_loop]; [done|].
  destruct ((b =? 0) || (ta_broker_max t <? b)); [set_solver|].
  destruct (ta_outgoing t !! b) as [tp|] eqn:Hb; [|set_solver].
  case_bool_decide as Hauto; [|set_solver]. intros [= <- <-]. split; [set_solver|]. eauto.
Qed.

Lemma assignment_some t a prev :
  alias_inv t → next_auto_topic_alias_assignment t = Some (a, prev) →
  a ≠ 0 ∧ a ≤ ta_broker_max t ∧
  match prev with
  | None => ta_outgoing t !! a = None
  | Some tp => ta_outgoing t !! a = Some tp ∧ ta_auto_outgoing t !! tp = Some a
  end.
Proof.
  intros I. unfold next_auto_topic_alias_assignment.
  destruct (next_available_auto_topic_alias t) as [b|] eqn:Hn.
  - intros [= <- <-]. apply next_available_some in Hn; [|done]. split_and!; [lia..|tauto].
  - destruct (decide _); [|done]. intros Hl.
    apply (least_recent_some t) in Hl as (_ & tp & -> & Ho & Ha); [|done].
    apply (ai_range _ I) in Ho as Hr. tauto.
Qed.

(** ** Recording *)

Lemma advance_loop_spec fuel t n a :
  1 ≤ n → (∀ a, 1 ≤ a < n → is_Some (ta_outgoing t !! a)) →
  ta_broker_max t - n + 1 ≤ Z.of_nat fuel → ta_broker_max t ≤ u16_MAX →
  match advance_loop fuel t n with
  | Some m => 1 ≤ m ∧ (1 ≤ a < m → is_Some (ta_outgoing t !! a))
  | None => 1 ≤ a ≤ ta_broker_max t → is_Some (ta_outgoing t !! a)
  end.
Proof.
  revert n. induction fuel as [|fuel IH]; intros n Hn Hbelow Hfuel Hmax; cbn [advance_loop].
  - destruct (Z.leb_spec n (ta_broker_max t)); [lia|]. cbn [andb]. intros Ha. apply Hbelow. lia.
  - destruct (Z.leb_spec n (ta_broker_max t)) as [Hle|]; cbn [andb].
    2: { intros Ha. apply Hbelow. lia. }
    destruct (ta_outgoing t !! n) as [tp|] eqn:Ht; cbn [is_some is_none negb].
    2: { split; [done|]. apply Hbelow. }
    assert (Hbelow' : ∀ b, 1 ≤ b < n + 1 → is_Some (ta_outgoing t !! b)).
    { intros b Hb. destruct (decide (b = n)) as [->|]; [by rewrite Ht|apply Hbelow; lia]. }
    destruct (Z.eqb_spec n u16_MAX); [|apply IH; [lia|done|lia|done]].
    intros Ha. apply Hbelow'. lia.
Qed.

(** What the search and the loops read is not what advancing changes. *)
Lemma advance_inv t :
  (∀ a, match ta_next_auto t with
        | Some n => 1 ≤ n ∧ (1 ≤ a < n → is_Some (ta_outgoing t !! a))
        | None => 1 ≤ a ≤ ta_broker_max t → is_Some (ta_outgoing t !! a)
        end) → ta_broker_max t ≤ u16_MAX →
  ∀ a, match ta_next_auto (advance_next_auto_topic_alias t) with
       | Some n => 1 ≤ n ∧ (1 ≤ a < n → is_Some (ta_outgoing t !! a))
       | None => 1 ≤ a ≤ ta_broker_max t → is_Some (ta_outgoing t !! a)
       end.
Proof.
  intros Hn Hmax a. unfold advance_next_auto_topic_alias.
  destruct (ta_next_auto t) as [n|] eqn:Hna; [|rewrite Hna; apply Hn].
  cbn. apply advance_loop_spec; [apply (Hn 0)|intros b; apply (Hn b)|lia|done].
Qed.

Lemma record_use_lru a t b :
  b ∈ ta_auto_lru t ∨ b = a → ta_auto_policy t = TAP_Lru →
  b ∈ ta_auto_lru (record_auto_topic_alias_use a t).
Proof.
  intros Hb Hp. unfold record_auto_topic_alias_use. rewrite decide_True by done. cbn.
  rewrite elem_of_app, list_elem_of_filter, list_elem_of_singleton.
  destruct (decide (b = a)); [by right|]. left. naive_solver.
Qed.

(** The other fields of a table after a use. *)
Lemma record_use_fields a t :
  let t' := record_auto_topic_alias_use a t in
  ta_outgoing t' = ta_outgoing t ∧ ta_auto_outgoing t' = ta_auto_outgoing t ∧
  ta_next_auto t' = ta_next_auto t ∧ ta_broker_max t' = ta_broker_max t ∧
  ta_auto_policy t' = ta_auto_policy t ∧ ta_incoming t' = ta_incoming t ∧
  ta_client_max t' = ta_client_max t.
Proof. unfold record_auto_topic_alias_use. by case_decide. Qed.

Lemma record_use_inv a t : alias_inv t → alias_inv (record_auto_topic_alias_use a t).
Proof.
  intros I. destruct (record_use_fields a t) as (Ho & Ha & Hn & Hm & Hp & _).
  split; rewrite ?Ho, ?Ha, ?Hn, ?Hm, ?Hp; try apply I.
  intros tp b Hpol Hb. apply record_use_lru; [left; by eapply ai_lru|done].
Qed.

(** The automatic table after a new assignment: the topic evicted is gone, the new one is there. *)
Definition reassigned (pending : PendingAutoTopicAlias) (auto : gmap (list Z) Z) : gmap (list Z) Z :=
  <[pending_topic pending := pending_alias pending]>
    (match previous_topic pending with Some prev => delete prev auto | None => auto end).

Lemma record_auto_fields pending t :
  let t' := record_auto_topic_alias pending t in
  ta_outgoing t' = <[pending_alias pending := pending_topic pending]> (ta_outgoing t) ∧
  ta_auto_outgoing t' = reassigned pending (ta_auto_outgoing t) ∧
  ta_broker_max t' = ta_broker_max t ∧ ta_auto_policy t' = ta_auto_policy t ∧
  ta_incoming t' = ta_incoming t ∧ ta_client_max t' = ta_client_max t ∧
  ta_auto_lru t' = ta_auto_lru (record_auto_topic_alias_use (pending_alias pending) t).
Proof.
  unfold record_auto_topic_alias, record_auto_topic_alias_use, advance_next_auto_topic_alias.
  destruct pending as [tp a [prev|]]; cbn; case_decide; cbn; by destruct (ta_next_auto t).
Qed.

Lemma record_auto_inv t pending :
  alias_inv t → pending_alias pending ≠ 0 → pending_alias pending ≤ ta_broker_max t → pending_topic pending ≠ [] →
  match previous_topic pending with
  | None => ta_outgoing t !! pending_alias pending = None
  | Some tp => ta_outgoing t !! pending_alias pending = Some tp
  end →
  alias_inv (record_auto_topic_alias pending t).
Proof.
  intros I Hr0 Hr Htp Hprev. destruct (record_auto_fields pending t) as (Ho & Ha & Hm & Hp & _ & _ & Hl).
  assert (Hold : ∀ tp b, match previous_topic pending with
      | Some prev => delete prev (ta_auto_outgoing t) | None => ta_auto_outgoing t end !! tp = Some b →
      ta_auto_outgoing t !! tp = Some b ∧ b ≠ pending_alias pending).
  { intros tp b Hb. destruct (previous_topic pending) as [prev|].
    - apply lookup_delete_Some in Hb as [Hne Hb]. split; [done|]. intros ->.
      apply (ai_auto _ I) in Hb. congruence.
    - split; [done|]. intros ->. apply (ai_auto _ I) in Hb. congruence. }
  split; rewrite ?Ho, ?Ha, ?Hm, ?Hp.
  - apply I.
  - intros tp b Hb. unfold reassigned in Hb.
    apply lookup_insert_Some in Hb as [[<- <-]|[Hne Hb]]; [by rewrite lookup_insert_eq|].
    apply Hold in Hb as [Hb Hnb]. rewrite lookup_insert_ne by done. by apply I.
  - intros b tp [[<- <-]|[Hne Hb]]%lookup_insert_Some; [by split|by eapply ai_range].
  - intros b.
    set (u := set_outgoing (<[pending_alias pending := pending_topic pending]> (ta_outgoing t))
                (set_auto_outgoing (reassigned pending (ta_auto_outgoing t)) t)).
    assert (Hu : record_auto_topic_alias pending t =
      advance_next_auto_topic_alias (record_auto_topic_alias_use (pending_alias pending) u)).
    { unfold u, reassigned, record_auto_topic_alias. by destruct (previous_topic pending). }
    destruct (record_use_fields (pending_alias pending) u) as (Hou & _ & Hnu & Hmu & _).
    rewrite Hu. pose proof (advance_inv (record_auto_topic_alias_use (pending_alias pending) u)) as Hadv.
    rewrite Hou, Hnu, Hmu in Hadv. apply Hadv; [|apply I]. intros c. pose proof (ai_next _ I c) as Hc.
    cbn. destruct (ta_next_auto t) as [n|].
    + split; [tauto|]. intros Hc'. destruct Hc as [_ Hc].
      destruct (decide (c = pending_alias pending)) as [->|]; [by rewrite lookup_insert_eq|].
      rewrite lookup_insert_ne by done. by apply Hc.
    + intros Hc'. destruct (decide (c = pending_alias pending)) as [->|]; [by rewrite lookup_insert_eq|].
      rewrite lookup_insert_ne by done. by apply Hc.
  - intros tp b Hpol Hb. rewrite Hl. apply record_use_lru; [|done]. unfold reassigned in Hb.
    apply lookup_insert_Some in Hb as [[_ <-]|[_ Hb]]; [by right|].
    apply Hold in Hb as [Hb _]. left. by eapply ai_lru.
Qed.

(** A publish that carries a topic and an alias in range is recorded. *)
Lemma record_outgoing_view p t :
  ta_outgoing (record_outgoing_topic_alias p t) = (receive (ta_outgoing t) p).2.
Proof.
  unfold record_outgoing_topic_alias, receive. destruct (publish_topic_alias p) as [a|]; [|done].
  case_bool_decide; [done|]. cbn. destruct (ta_outgoing t !! a) as [prev|]; [|done]. by case_decide.
Qed.

Lemma record_outgoing_fields p t :
  let t' := record_outgoing_topic_alias p t in
  ta_next_auto t' = ta_next_auto t ∧ ta_broker_max t' = ta_broker_max t ∧
  ta_auto_policy t' = ta_auto_policy t ∧ ta_incoming t' = ta_incoming t ∧
  ta_client_max t' = ta_client_max t.
Proof.
  unfold record_outgoing_topic_alias. destruct (publish_topic_alias p) as [a|]; [|done].
  case_bool_decide; [done|]. cbn. destruct (ta_outgoing t !! a) as [prev|]; [|done]. by case_decide.
Qed.

Lemma record_outgoing_auto p t a tp b :
  publish_topic_alias p = Some a → topic p ≠ [] →
  ta_auto_outgoing (record_outgoing_topic_alias p t) !! tp = Some b →
  ta_auto_outgoing t !! tp = Some b ∧ (b ≠ a ∨ tp = topic p).
Proof.
  intros Ha Htp. unfold record_outgoing_topic_alias. rewrite Ha, bool_decide_eq_false_2 by done.
  cbn. rewrite map_lookup_filter_Some. intros [Hb Hor]. split; [|done].
  destruct (ta_outgoing t !! a) as [prev|]; [|done]. revert Hb. case_decide; cbn; [done|].
  rewrite lookup_delete_Some. tauto.
Qed.

Lemma record_outgoing_lru p t a b :
  publish_topic_alias p = Some a → b ∈ ta_auto_lru t →
  b ≠ a ∨ ta_outgoing t !! a = Some (topic p) →
  b ∈ ta_auto_lru (record_outgoing_topic_alias p t).
Proof.
  intros Ha Hb Hor. unfold record_outgoing_topic_alias. rewrite Ha. case_bool_decide; [done|]. cbn.
  destruct (ta_outgoing t !! a) as [prev|] eqn:Hp; [|done]. case_decide as Heq; [done|]. cbn.
  rewrite list_elem_of_filter. destruct Hor as [|Heq']; [done|]. congruence.
Qed.

Lemma receive_keeps aliases p b : is_Some (aliases !! b) → is_Some ((receive aliases p).2 !! b).
Proof.
  intros Hb. unfold receive. destruct (publish_topic_alias p) as [a|]; [|done].
  case_bool_decide; [done|]. cbn.
  destruct (decide (a = b)) as [->|]; [by rewrite lookup_insert_eq|by rewrite lookup_insert_ne].
Qed.

Lemma record_outgoing_inv p t :
  alias_inv t → validate_outgoing_topic_alias t p = Ok tt →
  alias_inv (record_outgoing_topic_alias p t).
Proof.
  intros I Hv. pose proof (record_outgoing_view p t) as Ho.
  destruct (record_outgoing_fields p t) as (Hn & Hm & Hp & _).
  unfold validate_outgoing_topic_alias in Hv.
  destruct (publish_topic_alias p) as [a|] eqn:Ha.
  2: { unfold record_outgoing_topic_alias. by rewrite Ha. }
  destruct (decide (topic p = [])) as [Htp|Htp].
  { unfold record_outgoing_topic_alias. by rewrite Ha, bool_decide_eq_true_2. }
  destruct ((a =? 0) || (ta_broker_max t <? a)) eqn:Hr; [done|].
  unfold receive in Ho. rewrite Ha, bool_decide_eq_false_2 in Ho by done. cbn in Ho.
  split; rewrite ?Hn, ?Hm, ?Hp.
  - apply I.
  - intros tp b Hb. apply (record_outgoing_auto p t a) in Hb as [Hb Hor]; [|done..].
    rewrite Ho. apply (ai_auto _ I) in Hb. destruct (decide (a = b)) as [->|].
    + destruct Hor as [Hor| ->]; [done|]. by rewrite lookup_insert_eq.
    + by rewrite lookup_insert_ne.
  - rewrite Ho. intros b tp [[<- <-]|[Hne Hb]]%lookup_insert_Some; [|by eapply ai_range].
    split_and!; [lia..|done].
  - intros b. pose proof (ai_next _ I b) as Hb. rewrite Ho.
    assert (Hk : is_Some (ta_outgoing t !! b) → is_Some (<[a := topic p]> (ta_outgoing t) !! b)).
    { destruct (decide (a = b)) as [->|]; [by rewrite lookup_insert_eq|by rewrite lookup_insert_ne]. }
    destruct (ta_next_auto t) as [n|]; [|tauto]. split; [tauto|]. intros ?. apply Hk. tauto.
  - intros tp b Hpol Hb. apply (record_outgoing_auto p t a) in Hb as [Hb Hor]; [|done..].
    apply record_outgoing_lru with a; [done|by eapply ai_lru|].
    destruct Hor as [Hor| ->]; [by left|]. apply (ai_auto _ I) in Hb.
    destruct (decide (b = a)) as [->|]; [by right|by left].
Qed.

(** ** Sending a publish *)

(** The tables after a publish has been sent, as [record_alias_of] of the session state leaves them. *)
Definition sent_tables (action : option AutoTopicAliasAction) (p : Publish) (t : TopicAliasState)
  : TopicAliasState :=
  record_outgoing_topic_alias p
    (match action with
     | Some (New pending) => record_auto_topic_alias pending t
     | Some (Existing _ alias) => record_auto_topic_alias_use alias t
     | None => t
     end).

Lemma validate_broker_max t t' p :
  ta_broker_max t' = ta_broker_max t →
  validate_outgoing_topic_alias t' p = validate_outgoing_topic_alias t p.
Proof. intros Hm. unfold validate_outgoing_topic_alias. by rewrite Hm. Qed.

(** What the broker is sent is what it is to know, and is about the topic of the request. *)
Lemma send_alias t p p' action :
  alias_inv t → apply_auto_topic_alias t p = (p', action) →
  validate_outgoing_topic_alias t p' = Ok tt →
  alias_inv (sent_tables action p' t) ∧
  ta_outgoing (sent_tables action p' t) = (receive (ta_outgoing t) p').2 ∧
  (topic p ≠ [] → (receive (ta_outgoing t) p').1 = Some (topic p)).
Proof.
  intros I Happ Hv. unfold sent_tables. rewrite record_outgoing_view.
  assert (Hplain : topic p ≠ [] → (receive (ta_outgoing t) p).1 = Some (topic p)).
  { intros Htp. unfold receive. by case_match; rewrite bool_decide_eq_false_2. }
  revert Happ. unfold apply_auto_topic_alias.
  destruct (bool_decide (topic p = [])) eqn:Hempty; rewrite ?orb_true_r; cbn [orb].
  { intros [= <- <-]. split; [by apply record_outgoing_inv|done]. }
  apply bool_decide_eq_false in Hempty.
  destruct (_ || is_some _); [intros [= <- <-]; split; [by apply record_outgoing_inv|done]|].
  destruct (ta_auto_outgoing t !! topic p) as [a|] eqn:Hauto.
  - intros [= <- <-]. destruct (record_use_fields a t) as (Ho & _ & _ & Hm & _).
    split; [apply record_outgoing_inv; [by apply record_use_inv|by rewrite (validate_broker_max t)]|].
    unfold receive. cbn. rewrite Ho. split; [done|]. intros _. by apply (ai_auto _ I).
  - destruct (next_auto_topic_alias_assignment t) as [[a prev]|] eqn:Hass.
    2: { intros [= <- <-]. split; [by apply record_outgoing_inv|done]. }
    intros [= <- <-]. apply (assignment_some t) in Hass as (Ha0 & Ha & Hprev); [|done].
    set (pending := {| pending_topic := topic p; pending_alias := a; previous_topic := prev |}).
    destruct (record_auto_fields pending t) as (Ho & _ & Hm & _).
    split; [apply record_outgoing_inv; [|by rewrite (validate_broker_max t)]|].
    + apply record_auto_inv; try done. cbn. destruct prev; [tauto|done].
    + unfold receive. cbn. rewrite bool_decide_eq_false_2 by done. cbn. rewrite Ho. cbn.
      split; [by rewrite insert_insert_eq|done].
Qed.

(** The tables of a new connection. *)
Lemma alias_inv_new t max :
  0 ≤ max ≤ u16_MAX → alias_inv (set_broker_max max (reset_connection_scoped t)).
Proof. intros Hm. split; cbn; try done; intros a; split; [lia|]; intros; lia. Qed.

(** A publish kept for replay has the topic the broker was told. *)
Lemma replay_tracking_topic t p :
  topic (publish_for_replay_tracking t p) = default [] (receive (ta_outgoing t) p).1.
Proof.
  unfold publish_for_replay_tracking, receive. case_bool_decide as Htp.
  - destruct (publish_topic_alias p) as [a|]; cbn; [|done].
    by destruct (ta_outgoing t !! a).
  - by destruct (publish_topic_alias p).
Qed.

(** ** The reference *)

(** The topics that have an alias after one for [tp] has been asked for; [n] are available. *)
Definition remember (policy : TopicAliasPolicy) (n : nat) (tp : Bytes) (l : list Bytes) : list Bytes :=
  match policy with
  | TAP_Disabled => l
  | TAP_Monotonic => if decide (tp ∈ l) then l else take n (l ++ [tp])
  | TAP_Lru => take n (tp :: filter (λ t, t ≠ tp) l)
  end.

(** Which of the topics are found remembered. *)
Fixpoint hits (policy : TopicAliasPolicy) (n : nat) (l ts : list Bytes) : list bool :=
  match ts with
  | [] => []
  | tp :: ts => bool_decide (tp ∈ l) :: hits policy n (remember policy n tp l) ts
  end.

(** ** The code *)

(** A publish as it is put on the wire, and the tables after it. *)
Definition send (t : TopicAliasState) (p : Publish) : Publish * TopicAliasState :=
  let '(p', action) := apply_auto_topic_alias t p in (p', sent_tables action p' t).

Fixpoint send_all (t : TopicAliasState) (ps : list Publish) : list Publish :=
  match ps with
  | [] => []
  | p :: ps => let '(p', t') := send t p in p' :: send_all t' ps
  end.

(** ** The tables hold the remembered topics *)

Record holds (n : nat) (t : TopicAliasState) (l : list Bytes) : Prop := {
  h_inv : alias_inv t;
  h_max : ta_broker_max t = Z.of_nat n;
  h_pos : (0 < n)%nat;
  h_policy : ta_auto_policy t ≠ TAP_Disabled;
  h_nodup : NoDup l;
  h_len : (length l ≤ n)%nat;
  h_mem tp : is_Some (ta_auto_outgoing t !! tp) ↔ tp ∈ l;
  h_auto a tp : ta_outgoing t !! a = Some tp → ta_auto_outgoing t !! tp = Some a;
  h_range a : is_Some (ta_outgoing t !! a) ↔ 1 ≤ a ≤ Z.of_nat (length l);
  h_lru : ta_auto_policy t = TAP_Lru →
          Forall2 (λ a tp, ta_outgoing t !! a = Some tp) (ta_auto_lru t) (reverse l);
}.

(** The search returns the first free alias. *)
Lemma find_first (f : Z → bool) m n x y :
  List.find f (seqZ m n) = Some x → m ≤ y < x → f y = false.
Proof.
  intros Hf Hy. destruct (Z_lt_le_dec 0 n) as [Hn|]; [|by rewrite seqZ_nil in Hf by lia].
  assert (Hn0 : 0 ≤ n) by lia. revert m Hf Hy Hn.
  pattern n. apply natlike_rec2; [intros; lia| |done]. clear n Hn0.
  intros n Hn IH m Hf Hy _. rewrite seqZ_cons in Hf by lia. cbn [List.find] in Hf.
  destruct (f m) eqn:Hm; [injection Hf as <-; lia|]. rewrite Z.pred_succ in Hf.
  destruct (decide (y = m)) as [->|]; [done|].
  destruct (Z_lt_le_dec 0 n); [|by rewrite seqZ_nil in Hf by lia].
  apply (IH (Z.succ m)); [done|lia|done].
Qed.

Lemma holds_next n t l :
  holds n t l →
  next_available_auto_topic_alias t =
    if decide (length l < n)%nat then Some (Z.of_nat (length l) + 1) else None.
Proof.
  intros [I Hm _ _ _ Hlen _ _ Hr _]. destruct (next_available_auto_topic_alias t) as [a|] eqn:Hn.
  - apply next_available_some in Hn as Ha; [|done]. destruct Ha as [Ha Hnone].
    assert (¬ (1 ≤ a ≤ Z.of_nat (length l))) by (rewrite <- Hr, Hnone; by intros [? ?]).
    rewrite decide_True by lia. f_equal. destruct (decide (a = Z.of_nat (length l) + 1)); [done|].
    exfalso. set (b := Z.of_nat (length l) + 1).
    assert (Hb : is_Some (ta_outgoing t !! b)); [|apply Hr in Hb; lia].
    revert Hn. unfold next_available_auto_topic_alias. pose proof (ai_next _ I b) as Hnext.
    destruct (ta_next_auto t) as [m|]; [|done]. cbn. intros Hf.
    destruct (Z_lt_le_dec b m); [apply Hnext; lia|].
    apply (find_first _ _ _ _ b) in Hf; [|lia]. cbn in Hf. by destruct (ta_outgoing t !! b) eqn:E; rewrite ?E in Hf.
  - case_decide; [|done]. exfalso.
    apply (next_available_none t (Z.of_nat (length l) + 1)) in Hn; [|done|lia]. apply Hr in Hn. lia.
Qed.

(** ** One publish *)

(** The tables after a new assignment. *)
Lemma new_tables t p a prev :
  alias_inv t → next_auto_topic_alias_assignment t = Some (a, prev) → topic p ≠ [] →
  ta_auto_outgoing t !! topic p = None →
  let pending := {| pending_topic := topic p; pending_alias := a; previous_topic := prev |} in
  let t' := sent_tables (Some (New pending)) (set_publish_topic_alias p a) t in
  ta_outgoing t' = <[a := topic p]> (ta_outgoing t) ∧
  ta_auto_outgoing t' = reassigned pending (ta_auto_outgoing t) ∧
  ta_auto_lru t' = ta_auto_lru (record_auto_topic_alias_use a t) ∧
  ta_auto_policy t' = ta_auto_policy t ∧ ta_broker_max t' = ta_broker_max t.
Proof.
  intros I Hass Htp Hnew pending. apply (assignment_some t) in Hass as (Ha0 & Ha & Hprev); [|done].
  destruct (record_auto_fields pending t) as (Ho & Hauto & Hm & Hp & _ & _ & Hl).
  unfold sent_tables. revert Ho Hauto Hm Hp Hl. generalize (record_auto_topic_alias pending t).
  intros u Ho Hauto Hm Hp Hl. unfold record_outgoing_topic_alias. cbn.
  rewrite (bool_decide_eq_false_2 (topic p = [])) by done. rewrite Ho. cbn.
  rewrite lookup_insert_eq, decide_True by done. cbn. rewrite Hauto, insert_insert_eq.
  split_and!; [done| |done..]. apply map_filter_id. intros tp b Hb. cbn.
  unfold reassigned in Hb. apply lookup_insert_Some in Hb as [[<- <-]|[Hne Hb]]; [by right|].
  left. intros ->. destruct prev as [prev|]; cbn in Hb.
  - apply lookup_delete_Some in Hb as [Hne' Hb]. apply (ai_auto _ I) in Hb. naive_solver.
  - apply (ai_auto _ I) in Hb. naive_solver.
Qed.

(** An alias of the tables is automatic, so using or assigning it moves its topic. *)
Lemma Forall2_filter_uses t a tp uses l :
  (∀ b tp', ta_outgoing t !! b = Some tp' → b = a ↔ tp' = tp) →
  Forall2 (λ b tp', ta_outgoing t !! b = Some tp') uses l →
  Forall2 (λ b tp', ta_outgoing t !! b = Some tp') (filter (λ b, b ≠ a) uses) (filter (λ x, x ≠ tp) l).
Proof.
  intros Hiff. induction 1 as [|b tp' uses l Hb Hl IH]; [constructor|].
  rewrite !filter_cons. specialize (Hiff b tp' Hb).
  destruct (decide (b ≠ a)), (decide (tp' ≠ tp)); [by constructor|tauto..|done].
Qed.

Lemma uses_other t a tp uses l :
  Forall2 (λ b tp', ta_outgoing t !! b = Some tp') uses l →
  (∀ tp', ta_outgoing t !! a = Some tp' → tp' ∉ l) →
  Forall2 (λ b tp', <[a := tp]> (ta_outgoing t) !! b = Some tp') (filter (λ b, b ≠ a) uses) l.
Proof.
  intros Hl. induction Hl as [|b tp' uses l Hb Hl IH]; intros Ha; [constructor|].
  assert (b ≠ a) by (intros ->; apply Ha in Hb; set_solver).
  rewrite filter_cons, decide_True by done. constructor; [by rewrite lookup_insert_ne|].
  apply IH. intros tp'' Hin%Ha. set_solver.
Qed.

Lemma filter_reverse {T} (P : T → Prop) `{∀ x, Decision (P x)} (l : list T) :
  filter P (reverse l) = reverse (filter P l).
Proof.
  induction l as [|x l IH]; [done|]. rewrite reverse_cons, filter_app, IH, !filter_cons, filter_nil.
  case_decide; [by rewrite reverse_cons|by rewrite app_nil_r].
Qed.

Lemma send_eligible n t l p :
  holds n t l → topic p ≠ [] → publish_topic_alias p = None →
  bool_decide (ta_auto_policy t = TAP_Disabled) || (ta_broker_max t =? 0)
  || bool_decide (topic p = []) || is_some (publish_topic_alias p) = false.
Proof.
  intros Hh Htp Ha. pose proof (h_max _ _ _ Hh). pose proof (h_pos _ _ _ Hh).
  rewrite (bool_decide_eq_false_2 (ta_auto_policy t = _)) by apply Hh.
  rewrite (bool_decide_eq_false_2 (topic p = [])), Ha by done. cbn. lia.
Qed.

(** The order matters to the list of uses only. *)
Lemma holds_perm n t t' l l' :
  holds n t l → l' ≡ₚ l → alias_inv t' → ta_outgoing t' = ta_outgoing t →
  ta_auto_outgoing t' = ta_auto_outgoing t → ta_broker_max t' = ta_broker_max t →
  ta_auto_policy t' = ta_auto_policy t →
  (ta_auto_policy t = TAP_Lru →
   Forall2 (λ a tp, ta_outgoing t !! a = Some tp) (ta_auto_lru t') (reverse l')) →
  holds n t' l'.
Proof.
  intros Hh Hl I' Ho Ha Hm Hp Hlru. destruct Hh as [I Hmax Hpos Hpol Hnd Hlen Hmem Hauto Hr _].
  apply Permutation_length in Hl as Hll.
  split; rewrite ?Ho, ?Ha, ?Hm, ?Hp, ?Hll; try done; [by rewrite Hl|]. intros tp. by rewrite Hl.
Qed.

Lemma moved_front (tp : Bytes) l : NoDup l → tp ∈ l → tp :: filter (λ t, t ≠ tp) l ≡ₚ l.
Proof.
  intros Hnd Hin. apply NoDup_Permutation; [|done|].
  - constructor; [rewrite list_elem_of_filter; tauto|by apply NoDup_filter].
  - intros x. rewrite elem_of_cons, list_elem_of_filter. destruct (decide (x = tp)) as [->|]; naive_solver.
Qed.

Lemma holds_hit n t l p :
  holds n t l → topic p ∈ l → topic p ≠ [] → publish_topic_alias p = None →
  topic (send t p).1 = [] ∧ holds n (send t p).2 (remember (ta_auto_policy t) n (topic p) l).
Proof.
  intros Hh Hin Htp Hal. unfold send, apply_auto_topic_alias.
  rewrite (send_eligible n t l) by done.
  apply (h_mem _ _ _ Hh) in Hin as Hauto. destruct Hauto as [a Hauto]. rewrite Hauto. split; [done|].
  assert (Hsent : sent_tables (Some (Existing (topic p) a)) (with_topic (set_publish_topic_alias p a) []) t
    = record_auto_topic_alias_use a t) by done.
  cbn [snd]. rewrite Hsent. clear Hsent.
  destruct (record_use_fields a t) as (Ho & Ha & _ & Hm & Hp & _).
  assert (Hperm : remember (ta_auto_policy t) n (topic p) l ≡ₚ l).
  { pose proof (moved_front (topic p) l (h_nodup _ _ _ Hh) Hin) as Hmv. unfold remember.
    destruct (ta_auto_policy t); [done|by rewrite decide_True|].
    rewrite take_ge; [done|]. rewrite Hmv. apply Hh. }
  eapply holds_perm; [exact Hh|exact Hperm|apply record_use_inv, Hh|done..|].
  intros Hlru. unfold remember. rewrite Hlru, take_ge.
  2: { rewrite moved_front; [apply Hh|apply Hh|done]. }
  unfold record_auto_topic_alias_use. rewrite decide_True by done. cbn [set_auto_lru ta_auto_lru].
  rewrite reverse_cons, <- filter_reverse. apply Forall2_app.
  - apply Forall2_filter_uses; [|by apply Hh]. intros b tp' Hb. apply (h_auto _ _ _ Hh) in Hb. split.
    + intros ->. apply (ai_auto _ (h_inv _ _ _ Hh)) in Hauto, Hb. congruence.
    + intros ->. congruence.
  - constructor; [|constructor]. by apply (ai_auto _ (h_inv _ _ _ Hh)).
Qed.

(** A new topic is given the next alias, or that of the last remembered topic. *)
Lemma holds_assignment n t l :
  holds n t l →
  next_auto_topic_alias_assignment t =
    if decide (length l < n)%nat then Some (Z.of_nat (length l) + 1, None)
    else if decide (ta_auto_policy t = TAP_Lru) then
      match ta_auto_lru t, last l with a :: _, Some tp => Some (a, Some tp) | _, _ => None end
    else None.
Proof.
  intros Hh. unfold next_auto_topic_alias_assignment. rewrite (holds_next n t l) by done.
  case_decide as Hfull; [done|]. case_decide as Hlru; [|done].
  unfold least_recent_auto_topic_alias. pose proof (h_lru _ _ _ Hh Hlru) as Hl.
  assert (Hlast : last l = head (reverse l)) by (by rewrite head_reverse). rewrite Hlast.
  destruct Hl as [|a tp uses l' Ha Hl]; [done|]. cbn.
  destruct (ai_range _ (h_inv _ _ _ Hh) _ _ Ha) as (Ha0 & Ham & _).
  assert ((a =? 0) || (ta_broker_max t <? a) = false) as -> by lia.
  rewrite Ha, bool_decide_eq_true_2; [done|]. by apply (h_auto _ _ _ Hh).
Qed.

(** Room for one more. *)
Lemma holds_grow n t l p a :
  holds n t l → topic p ∉ l → topic p ≠ [] → (length l < n)%nat → a = Z.of_nat (length l) + 1 →
  let t' := sent_tables (Some (New {| pending_topic := topic p; pending_alias := a;
                                      previous_topic := None |})) (set_publish_topic_alias p a) t in
  ∀ l', l' ≡ₚ topic p :: l → (ta_auto_policy t = TAP_Lru → l' = topic p :: l) → alias_inv t' →
  holds n t' l'.
Proof.
  intros Hh Hnin Htp Hlen Hnext t' l' Hl' Hlru I'.
  assert (Hass : next_auto_topic_alias_assignment t = Some (a, None)).
  { by rewrite (holds_assignment n t l), decide_True, Hnext. }
  assert (Hnew : ta_auto_outgoing t !! topic p = None).
  { apply eq_None_not_Some. by rewrite (h_mem _ _ _ Hh). }
  destruct (new_tables t p a None (h_inv _ _ _ Hh) Hass Htp Hnew) as (Ho & Ha & Hl & Hp & Hm).
  fold t' in Ho, Ha, Hl, Hp, Hm. clearbody t'. unfold reassigned in Ha. cbn in Ha.
  assert (Hfree : ta_outgoing t !! a = None).
  { apply eq_None_not_Some. rewrite (h_range _ _ _ Hh). lia. }
  apply Permutation_length in Hl' as Hlen'. cbn in Hlen'.
  split; rewrite ?Ho, ?Ha, ?Hm, ?Hp; try done; try apply Hh.
  - rewrite Hl'. constructor; [done|apply Hh].
  - lia.
  - intros tp. rewrite Hl', elem_of_cons, <- (h_mem _ _ _ Hh).
    destruct (decide (tp = topic p)) as [->|]; [rewrite lookup_insert_eq; naive_solver|].
    rewrite lookup_insert_ne by done. naive_solver.
  - intros b tp [[<- <-]|[Hne Hb]]%lookup_insert_Some; [by rewrite lookup_insert_eq|].
    apply (h_auto _ _ _ Hh) in Hb. rewrite lookup_insert_ne; [done|congruence].
  - intros b. rewrite Hlen'. destruct (decide (a = b)) as [<-|].
    + rewrite lookup_insert_eq. split; [lia|eauto].
    + rewrite lookup_insert_ne, (h_range _ _ _ Hh) by done. lia.
  - intros Hpol. rewrite (Hlru Hpol), reverse_cons, Hl. unfold record_auto_topic_alias_use.
    rewrite decide_True by done. cbn [set_auto_lru ta_auto_lru].
    pose proof (h_lru _ _ _ Hh Hpol) as Huses. apply Forall2_app.
    + apply uses_other; [exact Huses|]. by rewrite Hfree.
    + constructor; [by rewrite lookup_insert_eq|constructor].
Qed.

(** The last topic makes room. *)
Lemma holds_evict n t l p a uses last_ :
  holds n t l → topic p ∉ l → topic p ≠ [] → length l = n → ta_auto_policy t = TAP_Lru →
  ta_auto_lru t = a :: uses → last l = Some last_ →
  let t' := sent_tables (Some (New {| pending_topic := topic p; pending_alias := a;
              previous_topic := Some last_ |})) (set_publish_topic_alias p a) t in
  alias_inv t' → holds n t' (take n (topic p :: l)).
Proof.
  intros Hh Hnin Htp Hlen Hpol Huses Hlast t' I'.
  assert (Hass : next_auto_topic_alias_assignment t = Some (a, Some last_)).
  { rewrite (holds_assignment n t l), decide_False, decide_True by (done || lia).
    by rewrite Huses, Hlast. }
  assert (Hnew : ta_auto_outgoing t !! topic p = None).
  { apply eq_None_not_Some. by rewrite (h_mem _ _ _ Hh). }
  destruct (new_tables t p a _ (h_inv _ _ _ Hh) Hass Htp Hnew) as (Ho & Ha & Hl & Hp & Hm).
  fold t' in Ho, Ha, Hl, Hp, Hm. clearbody t'. unfold reassigned in Ha. cbn in Ha.
  apply last_Some in Hlast as [l0 ->]. rewrite length_app in Hlen. cbn in Hlen.
  assert (Htake : take n (topic p :: l0 ++ [last_]) = topic p :: l0).
  { rewrite <- Hlen, Nat.add_comm. cbn. f_equal. by rewrite take_app_length. }
  rewrite Htake. pose proof (h_lru _ _ _ Hh Hpol) as Hf. rewrite Huses, reverse_snoc in Hf.
  apply Forall2_cons in Hf as [Halast Hf].
  assert (Hauto : ta_auto_outgoing t !! last_ = Some a) by (by apply (h_auto _ _ _ Hh)).
  assert (Hnd := h_nodup _ _ _ Hh). apply NoDup_app in Hnd as (Hnd & Hdis & _).
  assert (Hothers : ∀ b tp, ta_outgoing t !! b = Some tp → tp ≠ last_ → b ≠ a) by congruence.
  assert (Htplast : topic p ≠ last_) by set_solver.
  split; rewrite ?Ho, ?Ha, ?Hm, ?Hp; try done; try apply Hh.
  - constructor; [set_solver|done].
  - cbn. lia.
  - intros tp. rewrite elem_of_cons. destruct (decide (tp = topic p)) as [->|].
    { rewrite lookup_insert_eq. naive_solver. }
    rewrite lookup_insert_ne by done. destruct (decide (tp = last_)) as [->|].
    { rewrite lookup_delete_eq. split; [by intros [? ?]|]. set_solver. }
    rewrite lookup_delete_ne, (h_mem _ _ _ Hh) by done. set_solver.
  - intros b tp [[<- <-]|[Hne Hb]]%lookup_insert_Some; [by rewrite lookup_insert_eq|].
    apply (h_auto _ _ _ Hh) in Hb. rewrite lookup_insert_ne, lookup_delete_ne; [done|congruence..].
  - intros b. destruct (decide (a = b)) as [<-|].
    + rewrite lookup_insert_eq. assert (is_Some (ta_outgoing t !! a)) as Hr by eauto.
      apply (h_range _ _ _ Hh) in Hr. rewrite length_app in Hr. cbn in *. split; [lia|eauto].
    + rewrite lookup_insert_ne, (h_range _ _ _ Hh), length_app by done. cbn. lia.
  - intros _. rewrite reverse_cons, Hl. unfold record_auto_topic_alias_use.
    rewrite decide_True, Huses by done. cbn [set_auto_lru ta_auto_lru].
    rewrite filter_cons, decide_False by (by intros []). apply Forall2_app.
    + apply uses_other; [exact Hf|]. rewrite Halast. intros tp [= <-].
      rewrite elem_of_reverse. intros Hin. apply (Hdis _ Hin). set_solver.
    + constructor; [by rewrite lookup_insert_eq|constructor].
Qed.

Lemma new_inv t p a prev :
  alias_inv t → next_auto_topic_alias_assignment t = Some (a, prev) → topic p ≠ [] →
  alias_inv (sent_tables (Some (New {| pending_topic := topic p; pending_alias := a;
                                       previous_topic := prev |})) (set_publish_topic_alias p a) t).
Proof.
  intros I Hass Htp. apply (assignment_some t) in Hass as (Ha0 & Ha & Hprev); [|done].
  set (pending := {| pending_topic := topic p; pending_alias := a; previous_topic := prev |}).
  destruct (record_auto_fields pending t) as (_ & _ & Hm & _).
  apply record_outgoing_inv; [apply record_auto_inv; try done; cbn; destruct prev; tauto|].
  unfold validate_outgoing_topic_alias. rewrite alias_set_publish, Hm.
  by assert ((a =? 0) || (ta_broker_max t <? a) = false) as -> by lia.
Qed.

Lemma filter_fresh (tp : Bytes) (l : list Bytes) : tp ∉ l → filter (λ t, t ≠ tp) l = l.
Proof.
  induction l as [|x l IH]; intros Hnin; [done|].
  rewrite filter_cons, decide_True, IH; [done|set_solver..].
Qed.

Lemma holds_miss n t l p :
  holds n t l → topic p ∉ l → topic p ≠ [] → publish_topic_alias p = None →
  topic (send t p).1 = topic p ∧ holds n (send t p).2 (remember (ta_auto_policy t) n (topic p) l).
Proof.
  intros Hh Hnin Htp Hal. pose proof (h_inv _ _ _ Hh) as I. pose proof (h_len _ _ _ Hh) as Hlen.
  unfold send, apply_auto_topic_alias. rewrite (send_eligible n t l) by done.
  assert (ta_auto_outgoing t !! topic p = None) as ->
    by (apply eq_None_not_Some; by rewrite (h_mem _ _ _ Hh)).
  destruct (next_auto_topic_alias_assignment t) as [[a prev]|] eqn:Hass; (split; [done|]); cbn [snd].
  - pose proof (new_inv t p a prev I Hass Htp) as I'. rewrite (holds_assignment n t l) in Hass by done.
    case_decide as Hroom; [|case_decide as Hpol; [|done]].
    + injection Hass as <- <-. apply (holds_grow n t l); try done; unfold remember.
      * destruct (ta_auto_policy t) eqn:E; [by destruct (h_policy _ _ _ Hh)| |].
        -- rewrite decide_False, take_ge by (done || (rewrite length_app; cbn; lia)).
           by rewrite Permutation_app_comm.
        -- rewrite filter_fresh, take_ge by (done || (cbn; lia)). done.
      * intros ->. rewrite filter_fresh, take_ge by (done || (cbn; lia)). done.
    + destruct (ta_auto_lru t) as [|a' uses] eqn:Huses; [done|].
      destruct (last l) as [tp|] eqn:Hlast; [|done]. injection Hass as <- <-.
      unfold remember. rewrite Hpol, filter_fresh by done.
      apply (holds_evict n t l p a' uses tp); try done. lia.
  - rewrite (holds_assignment n t l) in Hass by done.
    case_decide as Hroom; [done|]. unfold sent_tables, record_outgoing_topic_alias. rewrite Hal.
    enough (remember (ta_auto_policy t) n (topic p) l = l) as -> by done. unfold remember.
    case_decide as Hpol.
    + exfalso. pose proof (h_lru _ _ _ Hh Hpol) as Hf. pose proof (h_pos _ _ _ Hh).
      apply Forall2_length in Hf. rewrite length_reverse in Hf.
      destruct (ta_auto_lru t) as [|a uses]; cbn in Hf; [lia|].
      destruct (last l) eqn:Hlast; [done|]. apply last_None in Hlast as ->. done.
    + destruct (ta_auto_policy t); [done| |done]. rewrite decide_False by done.
      replace n with (length l) by lia. by rewrite take_app_length.
Qed.

(** ** Any sequence *)

Lemma remember_policy t p : ta_auto_policy (send t p).2 = ta_auto_policy t.
Proof.
  unfold send. destruct (apply_auto_topic_alias t p) as [p' action]. cbn [snd]. unfold sent_tables.
  match goal with |- ta_auto_policy (record_outgoing_topic_alias _ ?u) = _ =>
    destruct (record_outgoing_fields p' u) as (_ & _ & -> & _) end.
  destruct action as [[? a|pending]|]; [apply record_use_fields|apply record_auto_fields|done].
Qed.

Lemma send_all_hits n t l ps :
  holds n t l → Forall (λ p, topic p ≠ [] ∧ publish_topic_alias p = None) ps →
  (λ p, bool_decide (topic p = [])) <$> send_all t ps = hits (ta_auto_policy t) n l (topic <$> ps).
Proof.
  intros Hh Hps. revert t l Hh. induction Hps as [|p ps [Htp Hal] Hps IH]; intros t l Hh; [done|].
  cbn [send_all hits fmap list_fmap]. pose proof (remember_policy t p) as Hpol.
  destruct (decide (topic p ∈ l)) as [Hin|Hnin].
  - destruct (holds_hit n t l p Hh Hin Htp Hal) as [Hempty Hh'].
    destruct (send t p) as [p' t']. cbn in Hempty, Hh', Hpol |- *. rewrite <- Hpol in *.
    rewrite (IH t' _ Hh'), !bool_decide_eq_true_2 by done. done.
  - destruct (holds_miss n t l p Hh Hnin Htp Hal) as [Hempty Hh'].
    destruct (send t p) as [p' t']. cbn in Hempty, Hh', Hpol |- *. rewrite <- Hpol in *.
    rewrite (IH t' _ Hh'), !bool_decide_eq_false_2 by congruence. done.
Qed.

Lemma holds_fresh policy client_max n :
  policy ≠ TAP_Disabled → (0 < n)%nat → Z.of_nat n ≤ u16_MAX →
  holds n (set_broker_max (Z.of_nat n) (TopicAliasState_new policy client_max)) [].
Proof.
  intros Hpol Hpos Hn. split; cbn; try done; try lia.
  - apply (alias_inv_new (TopicAliasState_new policy client_max)). lia.
  - constructor.
  - intros tp. split; [by intros [? ?]|set_solver].
  - intros a. split; [by intros [? ?]|lia].
Qed.

(** C23: With automatic aliases and a broker that accepts [n] of them, on a new connection and over a
    run of publishes that all carry a topic and no alias of their own and are all sent, a publish is
    sent by alias alone exactly when its topic is remembered: among the first [n] different topics
    under the monotonic policy, among the [n] most recently used ones under the least-recently-used
    policy.  (Aliases of the application's own can take automatic aliases away: [alias_leaked].) *)
Theorem aliases_are_cache policy client_max n ps :
  policy ≠ TAP_Disabled → (0 < n)%nat → Z.of_nat n ≤ u16_MAX →
  Forall (λ p, topic p ≠ [] ∧ publish_topic_alias p = None) ps →
  (λ p, bool_decide (topic p = [])) <$>
    send_all (set_broker_max (Z.of_nat n) (TopicAliasState_new policy client_max)) ps =
  hits policy n [] (topic <$> ps).
Proof.
  intros Hpol Hpos Hn Hps. by rewrite (send_all_hits n _ []); [|by apply holds_fresh|].
Qed.

Lemma aliases_are_cache_witness :
  (λ p, bool_decide (topic p = [])) <$>
    send_all (set_broker_max 2 (TopicAliasState_new TAP_Lru 0))
      ((λ tp, Publish_new tp AtMostOnce [] None) <$> [[97]; [98]; [97]; [99]; [97]; [98]]) =
  [false; false; true; false; true; false].
Proof.
  rewrite (aliases_are_cache TAP_Lru 0 2); [reflexivity|done|lia|done|].
  repeat (constructor; [done|]). constructor.
Defined.

(** Aliases of the application's own can take the automatic alias of a topic away for the rest of the
    connection: when alias 2, once bound to topic [a], is bound to [b], the automatic alias 1 of [a]
    is forgotten although the broker keeps it, and it is not given to any topic again. *)
Example alias_leaked :
  let topic_a := Publish_new [97] AtMostOnce [] None in
  let topic_b := Publish_new [98] AtMostOnce [] None in
  (λ p, (topic p, publish_topic_alias p)) <$>
    send_all (set_broker_max 2 (TopicAliasState_new TAP_Lru 0))
      [topic_a; set_publish_topic_alias topic_a 2; set_publish_topic_alias topic_b 2;
       topic_a; topic_a; topic_b; topic_b] =
  [([97], Some 1); ([97], Some 2); ([98], Some 2); ([97], None); ([97], None);
   ([98], None); ([98], None)].
Proof. vm_compute. reflexivity. Qed.
