(* ===== verification/V5Frame.v ===== *)
(** What the operations of the MQTT 5 session state leave alone, whatever the state: facts that are
    closed under the constructs of the monad.  [along R m]: running [m] moves the state along the
    preorder [R], on every path.  The hint database [along] and the tactic [along_auto] apply the
    closure. *)

From Stdlib Require Import String.
From S2P Require Import Prelude.
From S2P Require Import Utf8.
From S2P Require Import Primitives.
From S2P Require Import FixedBitSet.
From S2P Require Import PacketIds.
From S2P Require Import V5Base.
From S2P Require Import V5Properties.
From S2P Require Import V5Acks.
From S2P Require Import V5SubAck.
From S2P Require Import V5Subscribe.
From S2P Require Import V5Publish.
From S2P Require Import V5ConnAck.
From S2P Require Import V5Disconnect.
From S2P Require Import V5Auth.
From S2P Require Import V5Packet.
From S2P Require Import V5Persist.
From S2P Require Import V5SessionTypes.
From S2P Require Import V5AuthLifecycle.
From S2P Require Import V5TopicAlias.
From S2P Require Import V5StateRecord.
From S2P Require Import V5State.
From S2P Require Import V5Incoming.
From S2P Require Import V5Clean.
#[local] Open Scope Z_scope.

#[local] Open Scope Z_scope.

Create HintDb along.

Definition along {S E T} (R : S → S → Prop) (m : M S E T) : Prop := ∀ s, R s (m s).2.

Section Along.
  Context {S E : Type} (R : S → S → Prop) `{!PreOrder R}.

Lemma along_bind {T U} (m : M S E T) (k : T → M S E U) :
  along R m → (∀ a, along R (k a)) → along R (m ≫= k).
Proof.
  intros Hm Hk s. rewrite bind_run. specialize (Hm s). destruct (m s) as [[a|e|] s']; try done.
  etrans; [exact Hm|apply Hk].
Qed.

Lemma along_lift {T} (r : outcome E T) : along R (lift r).
Proof. intros s. cbn. reflexivity. Qed.
Lemma along_ret {T} (a : T) : along R (mret a : M S E T).
Proof. intros s. cbn. reflexivity. Qed.
Lemma along_get : along R (mget : M S E S).
Proof. intros s. cbn. reflexivity. Qed.
Lemma along_modify f : (∀ s, R s (f s)) → along R (mmodify f : M S E unit).
Proof. intros Hf s. apply Hf. Qed.
Lemma along_set_bit `{FixedBitSet B} (b : B) i v : along R (set_bit b i v : M S E B).
Proof. unfold set_bit. case_match; intros s; cbn; reflexivity. Qed.
Lemma along_index {T} (v : list T) i : along R (index v i : M S E T).
Proof. unfold index. case_match; intros s; cbn; reflexivity. Qed.
Lemma along_assign {T} (v : list T) i x : along R (assign v i x : M S E (list T)).
Proof. unfold assign. case_match; intros s; cbn; reflexivity. Qed.
End Along.

(** Follow the structure of a computation; [solve_modify] is for assignments. *)
Ltac along_step solve_modify :=
  match goal with
  | |- along _ (_ ≫= _) => apply along_bind; [apply _| |intros ?]
  | |- along _ (mret _) => apply along_ret, _
  | |- along _ (mfail _) => apply along_lift, _
  | |- along _ (lift _) => apply along_lift, _
  | |- along _ mpanic => apply along_lift, _
  | |- along _ mget => apply along_get, _
  | |- along _ (set_bit _ _ _) => apply along_set_bit, _
  | |- along _ (insert_bit _ _) => apply along_set_bit, _
  | |- along _ (index _ _) => apply along_index, _
  | |- along _ (assign _ _ _) => apply along_assign, _
  | |- along _ (mmodify _) => apply along_modify; intros ?; solve_modify
  | |- along _ (match ?x with _ => _ end) => destruct x
  | |- along _ _ => solve [eauto with along]
  end.
Ltac along_auto solve_modify := repeat along_step solve_modify.

(** What a computation returns when it returns. *)
Definition returns {S E T} (P : T → Prop) (m : M S E T) : Prop :=
  ∀ s a, (m s).1 = Ok a → P a.

Lemma returns_bind {S E T U} (P : U → Prop) (m : M S E T) (k : T → M S E U) :
  (∀ a, returns P (k a)) → returns P (m ≫= k).
Proof.
  intros Hk s b. rewrite bind_run. destruct (m s) as [[a|e|] s']; [|done..]. apply Hk.
Qed.
Lemma returns_bind_with {S E T U} (Q : T → Prop) (P : U → Prop) (m : M S E T) (k : T → M S E U) :
  returns Q m → (∀ a, Q a → returns P (k a)) → returns P (m ≫= k).
Proof.
  intros Hm Hk s b. rewrite bind_run. specialize (Hm s). destruct (m s) as [[a|e|] s']; [|done..].
  by apply Hk, Hm.
Qed.
Lemma returns_ret {S E T} (P : T → Prop) (a : T) : P a → returns P (mret a : M S E T).
Proof. by intros Ha s b [= <-]. Qed.
Lemma returns_fail {S E T} (P : T → Prop) (e : E) : returns P (mfail e : M S E T).
Proof. by intros s b. Qed.
Lemma returns_panic {S E T} (P : T → Prop) : returns P (mpanic : M S E T).
Proof. by intros s b. Qed.

Create HintDb returns.

Ltac returns_step :=
  match goal with
  | |- returns _ _ => solve [eauto with returns]
  | |- returns _ (_ ≫= _) =>
      eapply returns_bind_with; [solve [eauto with returns]|intros ? ?]
  | |- returns _ (_ ≫= _) => apply returns_bind; intros ?
  | |- returns _ (mret _) => apply returns_ret
  | |- returns _ (mfail _) => apply returns_fail
  | |- returns _ mpanic => apply returns_panic
  | |- returns _ (match ?x with _ => _ end) => destruct x
  end.
Ltac returns_auto := repeat returns_step; try done.

(** ** Fields that keep their value *)

Definition keeping {S T} (f : S → T) (s s' : S) : Prop := f s' = f s.

#[global] Instance keeping_preorder {S T} (f : S → T) : PreOrder (keeping f).
Proof. split; [done|]. intros s1 s2 s3 H1 H2. unfold keeping in *. congruence. Qed.

Ltac keep_modify := unfold keeping; repeat case_match; reflexivity.
Ltac keeps := along_auto keep_modify.

Section Aliases.
  Context {B A : Type} `{FixedBitSet B} `{Authenticator A}.

Abbreviation ST := (M (MqttState B A) StateError).
(** The aliases, and the publish held back. *)
Abbreviation kept := (keeping (λ s : MqttState B A, (topic_aliases s, collision s))).

Lemma kept_with_auth {T} (m : M AuthCx StateError T) : along kept (with_auth m).
Proof. intros s. unfold with_auth. by destruct (m _). Qed.
Hint Resolve kept_with_auth : along.

Lemma kept_push o : along kept (push_event o).
Proof. unfold push_event. keeps. Qed.
Lemma kept_settle_opt tx r : along kept (settle_opt tx r).
Proof. unfold settle_opt, settle. keeps. Qed.
Lemma kept_ensure n : along kept (ensure_outgoing_tracking_capacity n).
Proof. unfold ensure_outgoing_tracking_capacity. keeps. Qed.
Lemma kept_shrink : along kept maybe_shrink_outgoing_tracking_capacity.
Proof. unfold maybe_shrink_outgoing_tracking_capacity. keeps. Qed.
Lemma kept_reserve k : along kept (reserve_outbound_pkid k).
Proof. unfold reserve_outbound_pkid. keeps. Qed.
Lemma kept_release k : along kept (release_outbound_pkid k).
Proof. unfold release_outbound_pkid. keeps. Qed.
Hint Resolve kept_push kept_settle_opt kept_ensure kept_shrink kept_reserve kept_release : along.

Lemma kept_accept k : along kept (accept_replayed_outbound_pkid k).
Proof. unfold accept_replayed_outbound_pkid. keeps. Qed.
Lemma kept_next_pkid : along kept next_pkid.
Proof. unfold next_pkid. keeps. Qed.
Lemma kept_next_control : along kept next_control_pkid.
Proof. unfold next_control_pkid. keeps. Qed.
Lemma kept_reserve_control k : along kept (reserve_control_pkid k).
Proof. unfold reserve_control_pkid. keeps. Qed.
Lemma kept_release_incoming k : along kept (release_incoming_publish_quota k).
Proof. unfold release_incoming_publish_quota. keeps. Qed.
Lemma kept_acquire k : along kept (acquire_outgoing_publish_quota k).
Proof. unfold acquire_outgoing_publish_quota. keeps. Qed.
Lemma kept_release_quota k : along kept (release_outgoing_publish_quota k).
Proof. unfold release_outgoing_publish_quota. keeps. Qed.
Hint Resolve kept_accept kept_next_pkid kept_next_control kept_reserve_control kept_release_incoming
  kept_acquire kept_release_quota : along.

(** Authentication. *)
Lemma kept_failure kind method e : along kept (authenticator_failure kind method e).
Proof. unfold authenticator_failure. keeps. Qed.
Hint Resolve kept_failure : along.
Lemma kept_fail_exchange n e : along kept (fail_auth_exchange n e).
Proof. unfold fail_auth_exchange. keeps. Qed.
Hint Resolve kept_fail_exchange : along.
Lemma kept_fail_with {T} e : along kept (fail_with (R:=T) e).
Proof. unfold fail_with, fail_authenticator. keeps. Qed.
Hint Resolve kept_fail_with : along.
Lemma kept_call {T} a (f : A → (AuthError + T) * A) : along kept (call_authenticator a f).
Proof. unfold call_authenticator, fail_auth_exchange_due_to_authenticator_lock_poisoned. keeps. Qed.
Hint Resolve kept_call : along.
Lemma kept_authenticate k m p : along kept (authenticate_success k m p).
Proof. unfold authenticate_success. keeps. Qed.
Lemma kept_outgoing_auth_packet a : along kept (outgoing_auth_packet a).
Proof. unfold outgoing_auth_packet. keeps. Qed.
Hint Resolve kept_authenticate kept_outgoing_auth_packet : along.
Lemma kept_outgoing_auth a n : along kept (outgoing_auth a n).
Proof. unfold outgoing_auth. keeps. Qed.
Lemma kept_validate_auth a : along kept (validate_incoming_auth a).
Proof.
  intros s. unfold validate_incoming_auth. pose proof (kept_with_auth (incoming_auth a) s) as Hk.
  destruct (with_auth (incoming_auth a) s) as [[e|e|] s']; try done.
  destruct e; try done. destruct e; try done. etrans; [exact Hk|].
  match goal with |- kept _ (?m s').2 => assert (Hf : along kept m) by keeps; apply Hf end.
Qed.
Hint Resolve kept_outgoing_auth kept_validate_auth : along.
Lemma kept_incoming_auth a : along kept (handle_incoming_auth a).
Proof. unfold handle_incoming_auth. keeps. Qed.
Hint Resolve kept_incoming_auth : along.

(** Outgoing requests other than publishes. *)
Lemma kept_disconnect d : along kept (outgoing_disconnect d).
Proof. unfold outgoing_disconnect, fail_auth_exchange_due_to_client_disconnect. keeps. Qed.
Lemma kept_track k p n : along kept (track_publish k p n).
Proof. unfold track_publish. keeps. Qed.
Lemma kept_assign_pkid p r : along kept (assign_pkid p r).
Proof. unfold assign_pkid. keeps. Qed.
Hint Resolve kept_disconnect kept_track kept_assign_pkid : along.
Lemma kept_pubrel p n : along kept (outgoing_pubrel_with_notice p n).
Proof. unfold outgoing_pubrel_with_notice, save_pubrel_with_notice. keeps. Qed.
Lemma kept_puback p : along kept (outgoing_puback p).
Proof. unfold outgoing_puback. keeps. Qed.
Lemma kept_pubrec p d : along kept (outgoing_pubrec_internal p d).
Proof. unfold outgoing_pubrec_internal. keeps. Qed.
Lemma kept_ping : along kept outgoing_ping.
Proof. unfold outgoing_ping. keeps. Qed.
Lemma kept_subscribe p n : along kept (outgoing_subscribe p n).
Proof. unfold outgoing_subscribe, save_outgoing_subscribe. keeps. Qed.
Lemma kept_replay_subscribe p n : along kept (replay_outgoing_subscribe p n).
Proof. unfold replay_outgoing_subscribe, save_outgoing_subscribe. keeps. Qed.
Lemma kept_unsubscribe p n : along kept (outgoing_unsubscribe p n).
Proof. unfold outgoing_unsubscribe, save_outgoing_unsubscribe. keeps. Qed.
Lemma kept_replay_unsubscribe p n : along kept (replay_outgoing_unsubscribe p n).
Proof. unfold replay_outgoing_unsubscribe, save_outgoing_unsubscribe. keeps. Qed.
Hint Resolve kept_pubrel kept_puback kept_pubrec kept_ping kept_subscribe
  kept_replay_subscribe kept_unsubscribe kept_replay_unsubscribe : along.

(** Incoming packets that neither are publishes nor end the flow of one, and are no CONNACK. *)
Lemma kept_insert_event n e : along kept (insert_event n e).
Proof. unfold insert_event. keeps. Qed.
Lemma kept_suback p : along kept (handle_incoming_suback p).
Proof. unfold handle_incoming_suback. keeps. Qed.
Lemma kept_unsuback p : along kept (handle_incoming_unsuback p).
Proof. unfold handle_incoming_unsuback. keeps. Qed.
Lemma kept_disconn p : along kept (handle_incoming_disconn p).
Proof. unfold handle_incoming_disconn. keeps. Qed.
Lemma kept_incoming_pubrel p : along kept (handle_incoming_pubrel p).
Proof. unfold handle_incoming_pubrel. keeps. Qed.
Lemma kept_pingresp : along kept handle_incoming_pingresp.
Proof. unfold handle_incoming_pingresp. keeps. Qed.
Lemma kept_acknowledge p : along kept (acknowledge_publish p).
Proof. unfold acknowledge_publish. keeps. Qed.
Lemma kept_protocol_error : along kept handle_protocol_error.
Proof. unfold handle_protocol_error. keeps. Qed.
Lemma kept_take_publish k : along kept (take_publish k).
Proof. unfold take_publish. keeps. Qed.
Lemma kept_take_pub_notice k : along kept (take_pub_notice k).
Proof. unfold take_pub_notice. keeps. Qed.
Lemma kept_take_rel_notice k : along kept (take_rel_notice k).
Proof. unfold take_rel_notice. keeps. Qed.
End Aliases.

#[export] Hint Resolve kept_with_auth kept_push kept_settle_opt kept_ensure kept_shrink kept_reserve kept_release
  kept_accept kept_next_pkid kept_next_control kept_reserve_control kept_release_incoming
  kept_acquire kept_release_quota kept_failure kept_fail_exchange kept_fail_with kept_call
  kept_authenticate kept_outgoing_auth_packet kept_outgoing_auth kept_validate_auth
  kept_incoming_auth kept_disconnect kept_track kept_assign_pkid kept_pubrel kept_puback
  kept_pubrec kept_ping kept_subscribe kept_replay_subscribe kept_unsubscribe
  kept_replay_unsubscribe kept_insert_event kept_suback kept_unsuback kept_disconn
  kept_incoming_pubrel kept_pingresp kept_acknowledge kept_protocol_error kept_take_publish
  kept_take_pub_notice kept_take_rel_notice : along.
