(* ===== verification/V5AliasAgreement.v ===== *)
(** Topic aliases of a session: over any sequence of requests and packets the client and the broker
    agree on what every alias of the connection means.

    Topic aliases of a connection: the broker, which folds what it receives, resolves every publish
    the client puts on the wire to the topic it was asked for, over any sequence of requests and
    packets after the CONNACK. *)

From Stdlib Require Import String.
From S2P Require Import Prelude.
From S2P Require Import Utf8.
From S2P Require Import Primitives.
From S2P Require Import FixedBitSet.
From S2P Require Import PacketIds.
From S2P Require Import V5Base.
From S2P Require Import V5Properties.
From S2P Require Import V5Acks.
From S2P Require Import V5SubAck.
From S2P Require Import V5Subscribe.
From S2P Require Import V5Publish.
From S2P Require Import V5ConnAck.
From S2P Require Import V5Disconnect.
From S2P Require Import V5Auth.
From S2P Require Import V5Packet.
From S2P Require Import V5Persist.
From S2P Require Import V5SessionTypes.
From S2P Require Import V5AuthLifecycle.
From S2P Require Import V5TopicAlias.
From S2P Require Import V5StateRecord.
From S2P Require Import V5State.
From S2P Require Import V5Incoming.
From S2P Require Import V5Clean.
From S2P Require Import V5AliasCache.
From S2P Require Import V5Frame.
#[local] Open Scope Z_scope.

#[local] Open Scope Z_scope.

(** A postcondition of every outcome. *)
Definition post {S E T} (m : M S E T) (Q : outcome E T → S → Prop) (s : S) : Prop :=
  Q (m s).1 (m s).2.

Lemma post_bind {S E T U} (m : M S E T) (k : T → M S E U) Q s :
  post m (λ r s', match r with
                  | Ok a => post (k a) Q s'
                  | Err e => Q (Err e) s'
                  | Panic => Q Panic s'
                  end) s → post (m ≫= k) Q s.
Proof. unfold post. rewrite bind_run. by destruct (m s) as [[]]. Qed.

Lemma post_along {S E T} (R : S → S → Prop) (m : M S E T) Q s :
  along R m → (∀ r s', R s s' → Q r s') → post m Q s.
Proof. intros Hm HQ. apply HQ, Hm. Qed.

Lemma post_mono {S E T} (m : M S E T) (Q Q' : outcome E T → S → Prop) s :
  post m Q s → (∀ r s', Q r s' → Q' r s') → post m Q' s.
Proof. unfold post. auto. Qed.

Section Sessions.
  Context {B A : Type} `{FixedBitSet B} `{Authenticator A}.

Abbreviation ST := (M (MqttState B A) StateError).
Abbreviation kept := (keeping (λ s : MqttState B A, (topic_aliases s, collision s))).
Implicit Types (s : MqttState B A).

(** The invariant of the tables; the alias of a publish held back is in range. *)
Record alias_ok s : Prop := {
  ao_tables : alias_inv (topic_aliases s);
  ao_collision q : collision s = Some q → validate_outgoing_topic_alias (topic_aliases s) q = Ok tt;
}.

(** What the client believes the broker's aliases to be. *)
Definition alias_view s : gmap Z (list Z) := ta_outgoing (topic_aliases s).

(** [q] was put on the wire in the state [s], which left [s']. *)
Definition sent s (q : Publish) s' : Prop :=
  alias_ok s' ∧ alias_view s' = (receive (alias_view s) q).2.

(** No publish was. *)
Definition quiet s s' : Prop := alias_ok s' ∧ alias_view s' = alias_view s.

(** A panic puts nothing on the wire and ends the session. *)
Definition sends (topic_of : Publish → Prop) (r : outcome StateError (option Packet)) s s' : Prop :=
  match r with
  | Ok (Some (P_Publish q)) => sent s q s' ∧ topic_of q
  | Panic => True
  | _ => quiet s s'
  end.

Lemma quiet_same s s' :
  alias_ok s → topic_aliases s' = topic_aliases s → collision s' = collision s → quiet s s'.
Proof.
  intros [I Hc] Ht Hcol. split; [split|]; rewrite ?Ht, ?Hcol; try done. unfold alias_view. by rewrite Ht.
Qed.

Lemma quiet_kept s s' : alias_ok s → kept s s' → quiet s s'.
Proof. intros I [= Ht Hc]. by apply quiet_same. Qed.

Lemma quiet_refl s : alias_ok s → quiet s s.
Proof. by split. Qed.

(** Fields that have nothing to do with the aliases may change afterwards. *)
Lemma alias_ok_kept s s' : alias_ok s → kept s s' → alias_ok s'.
Proof. intros I Hk. by apply (quiet_kept s). Qed.

Lemma sends_kept P r s s1 s2 : sends P r s s1 → kept s1 s2 → sends P r s s2.
Proof.
  intros Hs Hk. assert (alias_view s2 = alias_view s1) as Hv by (unfold alias_view; congruence).
  assert (Hq : quiet s s1 → quiet s s2).
  { intros [I Hq]. split; [by eapply alias_ok_kept|congruence]. }
  destruct r as [[[]|]|e|]; try exact (Hq Hs); [|done]. destruct Hs as [[I Hs] Ht].
  split; [|done]. split; [by eapply alias_ok_kept|congruence].
Qed.

Lemma receive_with_pkid aliases p k : receive aliases (with_pkid p k) = receive aliases p.
Proof. done. Qed.

Lemma record_alias_run action p s :
  record_alias_of action p s = (Ok tt, set_topic_aliases (sent_tables action p (topic_aliases s)) s).
Proof. done. Qed.

(** [assign_pkid] changes nothing but the identifier. *)
Lemma post_assign_pkid p replay s :
  post (assign_pkid p replay)
    (λ r s', kept s s' ∧ match r with Ok p' => p' = with_pkid p (pub_pkid p') | _ => True end) s.
Proof.
  pose proof (kept_assign_pkid p replay s) as Hk. split; [exact Hk|].
  unfold assign_pkid. destruct (pub_pkid p =? 0) eqn:E.
  - destruct replay; [done|]. rewrite bind_run. unfold next_pkid. rewrite bind_run. cbn.
    by destruct (next_publish_pkid s).
  - cbn. by destruct p.
Qed.

(** What is held back on a collision. *)
Definition held_back (action : option AutoTopicAliasAction) (p : Publish) : Publish :=
  match action with Some action => restore_for_replay action p | None => p end.

Lemma post_place p action notice replay s :
  post (place_publish p action notice replay)
    (λ r s', topic_aliases s' = topic_aliases s ∧
       (collision s' = collision s ∨ r = Ok false ∧ collision s' = Some (held_back action p))) s.
Proof.
  unfold place_publish. apply post_bind. unfold post at 1. cbn.
  destruct (validate_outgoing_pkid (pub_pkid p)) as [[]|e|]; [|by split; [|left]..].
  apply post_bind. eapply (post_along kept); [keeps|]. intros r s1 [= Ht Hc].
  destruct r as [[]|e|]; [|by split; [|left]..].
  apply post_bind. unfold post at 1. cbn. apply post_bind. unfold post at 1. cbn.
  destruct (ok_or _ _) as [slot|e|]; [|by split; [|left]..].
  destruct (is_some slot); [by split; [|right]|].
  match goal with |- post ?m _ _ => eapply (post_along kept m); [keeps|] end.
  intros r s2 [= Ht2 Hc2]. split; [congruence|left; congruence].
Qed.

Lemma strip_alias p : publish_topic_alias (strip_publish_topic_alias p) = None.
Proof. unfold strip_publish_topic_alias, publish_topic_alias. by destruct (pub_properties p) eqn:E; cbn; rewrite ?E. Qed.

Lemma held_back_valid t action p :
  validate_outgoing_topic_alias t p = Ok tt →
  validate_outgoing_topic_alias t (held_back action p) = Ok tt.
Proof.
  intros Hv. unfold held_back, validate_outgoing_topic_alias.
  destruct action as [[? ?|?]|]; [cbn; by rewrite strip_alias..|exact Hv].
Qed.

Lemma outgoing_publish_aliases p notice replay s :
  alias_ok s →
  post (outgoing_publish_with_notice_internal p notice replay)
    (λ r s', sends (λ q, topic p ≠ [] → (receive (alias_view s) q).1 = Some (topic p))
               (match r with Ok (q, _) => Ok q | Err e => Err e | Panic => Panic end) s s') s.
Proof.
  intros I. unfold outgoing_publish_with_notice_internal. apply post_bind. unfold post at 1. cbn.
  destruct (unsupported_publish_capability s p); [by apply quiet_refl|].
  destruct (bool_decide _ && _); [by apply quiet_refl|].
  destruct (apply_auto_topic_alias (topic_aliases s) p) as [p' action] eqn:Happ.
  apply post_bind. unfold post at 1. cbn.
  destruct (validate_outgoing_topic_alias (topic_aliases s) p') as [[]|e|] eqn:Hv;
    [|by apply quiet_refl|done].
  destruct (send_alias _ _ _ _ (ao_tables _ I) Happ Hv) as (I' & Hview & Htopic).
  assert (Hsent : ∀ s3 s4 p2, p2 = with_pkid p' (pub_pkid p2) → topic_aliases s3 = topic_aliases s →
    collision s4 = collision s → topic_aliases s4 = sent_tables action p2 (topic_aliases s3) →
    sent s p2 s4 ∧ (topic p ≠ [] → (receive (alias_view s) p2).1 = Some (topic p))).
  { intros s3 s4 p2 Hp2 Hta Hc4 Ht4.
    assert (Ht2 : topic_aliases s4 = sent_tables action p' (topic_aliases s)) by (by rewrite Ht4, Hta, Hp2).
    split; [split; [split|]|].
    - by rewrite Ht2.
    - intros q Hq. rewrite Hc4 in Hq. rewrite Ht2, (validate_broker_max (topic_aliases s)).
      + by apply I.
      + unfold sent_tables. destruct (record_outgoing_fields p' (match action with
          | Some (New pending) => record_auto_topic_alias pending (topic_aliases s)
          | Some (Existing _ alias) => record_auto_topic_alias_use alias (topic_aliases s)
          | None => topic_aliases s end)) as (_ & -> & _).
        destruct action as [[? ?|pending]|]; [|by destruct (record_auto_fields pending (topic_aliases s)) as (_ & _ & -> & _)|done].
        apply record_use_fields.
    - unfold alias_view at 1. rewrite Ht2, Hview, Hp2. by rewrite receive_with_pkid.
    - by rewrite Hp2, receive_with_pkid. }
  case_decide as Hq.
  - apply (Hsent s); [by destruct p'|done..].
  - apply post_bind. eapply post_mono; [apply post_assign_pkid|].
    intros r s2 [Hs2 Hp2]. destruct r as [p2|e|]; [|by apply quiet_kept|done]. injection Hs2 as Ht2 Hc2.
    apply post_bind. eapply post_mono; [apply post_place|]. intros r s3 [Ht3 Hc3]. cbn in Ht3, Hc3.
    assert (Hqt : topic_aliases s3 = topic_aliases s) by congruence.
    assert (Hquiet : r ≠ Ok true → quiet s s3).
    { intros _. destruct Hc3 as [Hc3|[_ Hc3]]; [apply quiet_same; congruence|].
      split; [split|]; rewrite ?Hqt; [apply I| |unfold alias_view; by rewrite Hqt].
      rewrite Hc3. intros q [= <-]. rewrite Hp2. apply held_back_valid. exact Hv. }
    destruct r as [[|]|e|]; [|by apply Hquiet..|done].
    destruct Hc3 as [Hc3|[? _]]; [|done].
    apply (Hsent s3); [done|done| |done]. change (collision s3 = collision s). congruence.
Qed.

(** The other requests. *)
Definition not_publish (packet : option Packet) : Prop :=
  match packet with Some (P_Publish _) => False | _ => True end.

Abbreviation other := (λ packet, not_publish (Some packet)).

Lemma other_puback p : returns other (outgoing_puback (B:=B) (A:=A) p).
Proof. unfold outgoing_puback. returns_auto. Qed.
Lemma other_pubrec p d : returns other (outgoing_pubrec_internal (B:=B) (A:=A) p d).
Proof. unfold outgoing_pubrec_internal. returns_auto. Qed.
Lemma other_disconnect d : returns other (outgoing_disconnect (B:=B) (A:=A) d).
Proof. unfold outgoing_disconnect. returns_auto. Qed.
Lemma other_auth_packet a : returns other (outgoing_auth_packet (B:=B) (A:=A) a).
Proof. unfold outgoing_auth_packet. returns_auto. Qed.
Lemma other_save_subscribe p n : returns other (save_outgoing_subscribe (B:=B) (A:=A) p n).
Proof. unfold save_outgoing_subscribe. returns_auto. Qed.
Lemma other_save_unsubscribe p n : returns other (save_outgoing_unsubscribe (B:=B) (A:=A) p n).
Proof. unfold save_outgoing_unsubscribe. returns_auto. Qed.
Hint Resolve other_puback other_pubrec other_disconnect other_auth_packet other_save_subscribe
  other_save_unsubscribe : returns.
Lemma other_auth a n : returns other (outgoing_auth (B:=B) (A:=A) a n).
Proof. unfold outgoing_auth. returns_auto. Qed.
Lemma other_ping : returns not_publish (outgoing_ping (B:=B) (A:=A)).
Proof. unfold outgoing_ping. returns_auto. Qed.
Lemma other_subscribe p n : returns not_publish (outgoing_subscribe (B:=B) (A:=A) p n).
Proof. unfold outgoing_subscribe. returns_auto. Qed.
Lemma other_replay_subscribe p n : returns not_publish (replay_outgoing_subscribe (B:=B) (A:=A) p n).
Proof. unfold replay_outgoing_subscribe. returns_auto. Qed.
Lemma other_unsubscribe p n : returns other (outgoing_unsubscribe (B:=B) (A:=A) p n).
Proof. unfold outgoing_unsubscribe. returns_auto. Qed.
Lemma other_replay_unsubscribe p n : returns other (replay_outgoing_unsubscribe (B:=B) (A:=A) p n).
Proof. unfold replay_outgoing_unsubscribe. returns_auto. Qed.
Lemma other_pubrel p n :
  returns (λ r, not_publish r.1) (outgoing_pubrel_with_notice (B:=B) (A:=A) p n).
Proof. unfold outgoing_pubrel_with_notice. returns_auto. Qed.
Hint Resolve other_auth other_ping other_subscribe other_replay_subscribe other_unsubscribe
  other_replay_unsubscribe other_pubrel : returns.

(** The packet of a request, without the notice to complete when it is flushed. *)
Definition packet_of (r : outcome StateError (option Packet * option nat))
  : outcome StateError (option Packet) :=
  match r with Ok (q, _) => Ok q | Err e => Err e | Panic => Panic end.

Lemma quiet_request P (m : ST (option Packet * option nat)) s :
  alias_ok s → along kept m → returns (λ r, not_publish r.1) m → post m (λ r s', sends P (packet_of r) s s') s.
Proof.
  intros I Hk Hr. unfold post. specialize (Hk s). specialize (Hr s). apply quiet_kept in Hk; [|done].
  destruct (m s) as [[[[[]|] n]|e|] s']; try done. by destruct (Hr _ eq_refl).
Qed.

Lemma quiet_effects P (m : ST (IncomingPacketEffects * Packet)) s :
  alias_ok s → along kept m → returns (λ r, not_publish (eff_outgoing r.1)) m →
  post m (λ r s', sends P (match r with Ok (e, _) => Ok (eff_outgoing e) | Err e => Err e | Panic => Panic end) s s') s.
Proof.
  intros I Hk Hr. unfold post. specialize (Hk s). specialize (Hr s). apply quiet_kept in Hk; [|done].
  destruct (m s) as [[[[[[]|] n] q]|e|] s']; try done. by destruct (Hr _ eq_refl).
Qed.

(** Every request: what is put on the wire is about the topic of the request. *)
Lemma handle_outgoing_aliases now request notice replay s :
  alias_ok s →
  post (handle_outgoing_packet_with_notice_internal now request notice replay)
    (λ r s', sends (λ q, ∃ p, request = R_Publish p ∧
                      (topic p ≠ [] → (receive (alias_view s) q).1 = Some (topic p)))
               (packet_of r) s s') s.
Proof.
  intros I. unfold handle_outgoing_packet_with_notice_internal. apply post_bind.
  match goal with |- post ?m _ _ => eapply (post_mono m (λ r s', sends _ (packet_of r) s s')) end.
  2: { intros [[q n]|e|] s' Hs; [|exact Hs|done]. cbn. eapply sends_kept; [exact Hs|done]. }
  destruct request as [p| | | | | | | | | | | | | | | | ].
  1: { eapply post_mono; [by apply outgoing_publish_aliases|]. intros [[q n]|e|] s' Hs; [|done..].
       cbn. destruct q as [[]|]; try done. destruct Hs as [Hs Ht]. split; [exact Hs|]. by exists p. }
  all: apply quiet_request; [done|keeps|destruct replay; returns_auto].
Qed.
End Sessions.

Section Incoming.
  Context {B A : Type} `{FixedBitSet B} `{Authenticator A}.

Abbreviation ST := (M (MqttState B A) StateError).
Abbreviation kept := (keeping (λ s : MqttState B A, (topic_aliases s, collision s))).
Implicit Types (s : MqttState B A).

(** The aliases of the broker's own publishes apart. *)
Abbreviation kept_out :=
  (keeping (λ s : MqttState B A, (set_incoming ∅ (topic_aliases s), collision s))).

Lemma along_kept_out {T} (m : ST T) : along kept m → along kept_out m.
Proof. intros Hm s. specialize (Hm s). injection Hm as Ht Hc. unfold keeping. by rewrite Ht, Hc. Qed.
Hint Resolve along_kept_out : along.

Lemma quiet_kept_out s s' : alias_ok s → kept_out s s' → quiet s s'.
Proof.
  intros [I Hv] [= Ho Ha Hn Hp Hl Hm _ Hc]. unfold quiet, alias_view.
  split; [split|done].
  - destruct I. split; rewrite ?Ho, ?Ha, ?Hn, ?Hp, ?Hl, ?Hm; done.
  - intros q. rewrite Hc, (validate_broker_max (topic_aliases s)) by done. apply Hv.
Qed.

Lemma kept_out_resolve p : along kept_out (resolve_incoming_alias p).
Proof.
  intros s. unfold resolve_incoming_alias. cbn. destruct (bool_decide _); [done|].
  by destruct (publish_topic_alias p).
Qed.
Hint Resolve kept_out_resolve : along.
Lemma kept_out_publish p : along kept_out (handle_incoming_publish p).
Proof. unfold handle_incoming_publish. keeps. Qed.

(** ** The publish held back *)

Definition held_topic s (q : Publish) : Prop := collision s = Some q.

Lemma kept_expect {T} (m : ST T) : along kept m → along kept (expect_ok m).
Proof. intros Hm s. specialize (Hm s). unfold expect_ok. by destruct (m s) as [[]]. Qed.
Hint Resolve kept_expect : along.

Lemma post_kept {T U} (m : ST T) (k : T → ST U) Q s s1 :
  along kept m → kept s s1 → (∀ e s2, kept s s2 → Q (Err e) s2) → (∀ s2, Q Panic s2) →
  (∀ a s2, kept s s2 → post (k a) Q s2) → post (m ≫= k) Q s1.
Proof.
  intros Hm Hs He Hp Hk. apply post_bind. eapply (post_along kept); [exact Hm|].
  intros [a|e|] s2 Hs2; [apply Hk|apply He|apply Hp]; by etrans.
Qed.

Lemma replay_collision_aliases pkid s :
  alias_ok s →
  post (replay_collision_publish pkid) (λ r s', sends (held_topic s) r s s') s.
Proof.
  intros I. unfold replay_collision_publish, check_collision. apply post_bind. unfold post at 1.
  rewrite bind_run. cbn [mget fst snd]. destruct (collision s) as [q|] eqn:Hq; [|by apply quiet_refl].
  destruct (pub_pkid q =? pkid); [|by apply quiet_refl]. cbn [fst snd].
  set (s1 := set_collision_notice None (set_collision None s)).
  assert (I1 : ∀ s2, kept s1 s2 → quiet s s2).
  { intros s2 [= Ht Hc]. destruct I as [I _]. unfold quiet, alias_view.
    split; [split|]; rewrite ?Ht, ?Hc; done. }
  apply post_bind. unfold post at 1. cbn [mget fst snd].
  eapply (post_kept _ _ _ s1); [keeps|reflexivity|intros; by apply I1|done|intros [] s2 Hs2].
  eapply (post_kept _ _ _ s1); [keeps|exact Hs2|intros; by apply I1|done|intros [] s3 Hs3].
  eapply (post_kept _ _ _ s1); [keeps|exact Hs3|intros; by apply I1|done|intros [] s4 Hs4].
  unfold post. cbn. injection Hs4 as Ht Hc.
  assert (Hta : topic_aliases s4 = topic_aliases s) by exact Ht.
  split; [|done]. split; [split|].
  - change (alias_inv (record_outgoing_topic_alias q (topic_aliases s4))). rewrite Hta.
    apply record_outgoing_inv; [apply I|]. by apply I.
  - intros p Hp. change (collision s4 = Some p) in Hp. congruence.
  - change (ta_outgoing (record_outgoing_topic_alias q (topic_aliases s4)) =
            (receive (ta_outgoing (topic_aliases s)) q).2).
    rewrite Hta. apply record_outgoing_view.
Qed.

(** ** Handlers *)

(** The packet to answer with. *)
Definition answer_of (r : outcome StateError (IncomingPacketEffects * Packet))
  : outcome StateError (option Packet) :=
  match r with Ok (e, _) => Ok (eff_outgoing e) | Err e => Err e | Panic => Panic end.

Abbreviation effect_of := (λ r : outcome StateError IncomingPacketEffects,
  match r with Ok e => Ok (eff_outgoing e) | Err e => Err e | Panic => Panic end).

Lemma sends_from r s s1 s2 :
  kept s s1 → sends (held_topic s1) r s1 s2 → sends (held_topic s) r s s2.
Proof. intros [= Ht Hc]. unfold sends, sent, quiet, held_topic, alias_view. by rewrite Ht, Hc. Qed.

Lemma finish_publish_aliases pkid notice result s s1 :
  alias_ok s → kept s s1 →
  post (finish_publish pkid notice result) (λ r s', sends (held_topic s) (effect_of r) s s') s1.
Proof.
  intros I Hk. assert (I1 : alias_ok s1) by (by apply (alias_ok_kept s)).
  unfold finish_publish. apply post_bind.
  eapply post_mono; [by apply replay_collision_aliases|]. intros r s2 Hs%(sends_from _ s); [|done].
  destruct r as [packet|e|]; [|done..].
  destruct notice, packet as [q|]; first [exact Hs|eapply sends_kept; [exact Hs|apply kept_shrink]].
Qed.

Lemma effects_quiet P (m : ST IncomingPacketEffects) s :
  alias_ok s → along kept m → returns (λ e, not_publish (eff_outgoing e)) m →
  post m (λ r s', sends P (effect_of r) s s') s.
Proof.
  intros I Hk Hr. unfold post. specialize (Hk s). specialize (Hr s). apply quiet_kept in Hk; [|done].
  destruct (m s) as [[[[[]|] n]|e|] s']; try done. by destruct (Hr _ eq_refl).
Qed.

Ltac kept_steps s I :=
  repeat match goal with
  | |- post (finish_publish _ _ _) _ _ => apply finish_publish_aliases; [exact I|eassumption]
  | |- post (if ?b then _ else _) _ _ => destruct b
  | |- post _ _ _ =>
      eapply (post_kept _ _ _ s); [keeps|first [eassumption|reflexivity]
        |intros; by apply quiet_kept|done|intros ? ? ?; cbv beta]
  end.

Lemma puback_aliases p s :
  alias_ok s → post (handle_incoming_puback p) (λ r s', sends (held_topic s) (effect_of r) s s') s.
Proof. intros I. unfold handle_incoming_puback. kept_steps s I. Qed.

Lemma pubcomp_aliases p s :
  alias_ok s → post (handle_incoming_pubcomp p) (λ r s', sends (held_topic s) (effect_of r) s s') s.
Proof. intros I. unfold handle_incoming_pubcomp. kept_steps s I. all: try by apply quiet_kept. Qed.

Lemma pubrec_aliases p s :
  alias_ok s → post (handle_incoming_pubrec p) (λ r s', sends (held_topic s) (effect_of r) s s') s.
Proof. intros I. unfold handle_incoming_pubrec. kept_steps s I. unfold post. cbn. by apply quiet_kept. Qed.

(** The other handlers answer with no publish. *)
Abbreviation other := (λ packet, not_publish (Some packet)).
Abbreviation quiet_answer := (λ e, not_publish (eff_outgoing e)).

Hint Resolve other_puback other_pubrec other_disconnect other_auth_packet : returns.

Lemma other_suback p : returns quiet_answer (handle_incoming_suback (B:=B) (A:=A) p).
Proof. unfold handle_incoming_suback. returns_auto. by destruct (ps_notice _). Qed.
Lemma other_unsuback p : returns quiet_answer (handle_incoming_unsuback (B:=B) (A:=A) p).
Proof. unfold handle_incoming_unsuback. returns_auto. by destruct (pu_notice _). Qed.
Lemma other_disconn p : returns not_publish (handle_incoming_disconn (B:=B) (A:=A) p).
Proof. unfold handle_incoming_disconn. returns_auto. Qed.
Lemma other_incoming_pubrel p : returns not_publish (handle_incoming_pubrel (B:=B) (A:=A) p).
Proof. unfold handle_incoming_pubrel. returns_auto. Qed.
Lemma other_pingresp : returns not_publish (handle_incoming_pingresp (B:=B) (A:=A)).
Proof. unfold handle_incoming_pingresp. returns_auto. Qed.
Lemma other_acknowledge p : returns not_publish (acknowledge_publish (B:=B) (A:=A) p).
Proof. unfold acknowledge_publish. returns_auto. Qed.
Lemma other_protocol_error : returns not_publish (handle_protocol_error (B:=B) (A:=A)).
Proof. unfold handle_protocol_error. returns_auto. Qed.
Hint Resolve other_acknowledge other_protocol_error : returns.
Lemma other_publish p : returns (λ r, not_publish r.1) (handle_incoming_publish (B:=B) (A:=A) p).
Proof. unfold handle_incoming_publish. returns_auto. Qed.
Lemma other_fail {T} e : returns (λ _ : T, False) (fail_with (B:=B) (A:=A) e).
Proof. unfold fail_with. returns_auto. Qed.
Lemma other_incoming_auth p : returns not_publish (handle_incoming_auth (B:=B) (A:=A) p).
Proof.
  unfold handle_incoming_auth. returns_auto. all: try (intros ?? Hf; by destruct (other_fail _ _ _ Hf)).
Qed.
Hint Resolve other_suback other_unsuback other_disconn other_incoming_pubrel other_pingresp
  other_publish other_incoming_auth : returns.

Definition is_connack (packet : Packet) : bool :=
  match packet with P_ConnAck _ => true | _ => false end.

Lemma dispatch_aliases packet s :
  alias_ok s → is_connack packet = false →
  post (dispatch_incoming packet) (λ r s', sends (held_topic s) (answer_of r) s s') s.
Proof.
  intros I Hp. destruct packet; try done; unfold dispatch_incoming.
  all: try solve [apply quiet_effects; [done|keeps|returns_auto]].
  1: { apply post_bind. unfold post at 1. pose proof (kept_out_publish publish s) as Hk.
       pose proof (other_publish publish s) as Hr. apply quiet_kept_out in Hk; [|done].
       destruct (handle_incoming_publish publish s) as [[[packet q]|e|] s']; [|done..].
       specialize (Hr _ eq_refl). by destruct packet as [[]|]. }
  all: apply post_bind; eapply post_mono;
    [by first [apply puback_aliases|apply pubrec_aliases|apply pubcomp_aliases]|].
  all: by intros [[[[]|] n]|e|] s' Hs.
Qed.

(** Recording the packet and completing its notices has nothing to do with aliases. *)
Lemma kept_complete_notices ns : along kept (complete_notices ns).
Proof.
  induction ns as [|n ns IH]; cbn [complete_notices]; [keeps|].
  destruct (DeferredNotice_complete n) as [tx r]. unfold settle. keeps.
Qed.
Hint Resolve kept_complete_notices : along.

Lemma sends_after {T} P (e : option Packet) (m : ST T) (f : T → option Packet) s s1 :
  sends P (Ok e) s s1 → along kept m → returns (λ r, f r = e) m → (∀ err, (m s1).1 ≠ Err err) →
  post m (λ r s', sends P (match r with Ok a => Ok (f a) | Err e => Err e | Panic => Panic end) s s') s1.
Proof.
  intros Hs Hk Hr He. unfold post. specialize (Hk s1). specialize (Hr s1).
  destruct (m s1) as [[r|err|] s2]; [|by destruct (He err)|done].
  cbn [fst snd]. rewrite (Hr _ eq_refl). by eapply sends_kept.
Qed.

Lemma with_effects_aliases now packet s :
  alias_ok s → is_connack packet = false →
  post (handle_incoming_packet_with_effects now packet)
    (λ r s', sends (held_topic s) (effect_of r) s s') s.
Proof.
  intros I Hp. unfold post, handle_incoming_packet_with_effects.
  set (s1 := match packet with P_Disconnect _ => _ | _ => s end).
  assert (Hk : kept s s1) by (by destruct packet).
  pose proof (dispatch_aliases packet s1 (alias_ok_kept _ _ I Hk) Hp) as Hd.
  unfold post in Hd. apply (sends_from _ s) in Hd; [|done].
  destruct (dispatch_incoming packet s1) as [[[e q]|e|] s2]; [| |done]; cbn [fst snd answer_of] in Hd.
  - match goal with |- sends _ (match (?m s2).1 with _ => _ end) _ _ =>
      apply (sends_after _ _ m eff_outgoing _ _ Hd) end; [keeps|by returns_auto|].
    intros err. destruct (_ || _); [done|]. unfold insert_event. rewrite !bind_run. cbn.
    by destruct (blen _ <? _).
  - destruct (queued_on_error packet e); [|exact Hd]. unfold insert_event. rewrite !bind_run. cbn.
    destruct (blen _ <? _); [done|]. eapply (sends_kept _ (Err e)); [exact Hd|done].
Qed.

Lemma never_fails_complete ns s err : (complete_notices ns s : outcome StateError unit * MqttState B A).1 ≠ Err err.
Proof.
  revert s. induction ns as [|n ns IH]; intros s; cbn [complete_notices]; [done|].
  destruct (DeferredNotice_complete n) as [tx r]. unfold settle. rewrite bind_run. apply IH.
Qed.

Lemma handle_incoming_aliases now packet s :
  alias_ok s → is_connack packet = false →
  post (handle_incoming_packet now packet) (λ r s', sends (held_topic s) r s s') s.
Proof.
  intros I Hp. unfold handle_incoming_packet. apply post_bind.
  eapply post_mono; [by apply with_effects_aliases|]. intros [e|e|] s1 Hs; [|done..].
  eapply post_mono; [eapply (sends_after _ _ _ id); [exact Hs|keeps|by returns_auto|]|].
  2: by intros [] ? ?.
  intros err. rewrite bind_run. pose proof (never_fails_complete (eff_notices e) s1 err) as Hn.
  destruct (complete_notices _ s1) as [[u|e'|] s2]; [done| |done].
  intros [= ->]. by apply Hn.
Qed.

(** ** The CONNACK *)

(** Aliases the broker accepts: none unless it says so. *)
Definition connack_alias_max (connack : ConnAck) : Z :=
  default 0 (props ← connack_properties connack; ca_topic_alias_max props).

Lemma kept_if_some {T} (o : option T) (f : T → MqttState B A → MqttState B A) s s' :
  kept s s' → (∀ x s, kept s (f x s)) → kept s (if_some o f s').
Proof. intros Hs Hf. destruct o; [etrans; [exact Hs|apply Hf]|exact Hs]. Qed.

Lemma apply_connack_aliases props s :
  kept (set_topic_aliases (from_option (λ m, set_broker_max m (topic_aliases s)) (topic_aliases s)
          (ca_topic_alias_max props)) s) (apply_connack_properties props s).
Proof.
  unfold apply_connack_properties. do 6 (apply kept_if_some; [|done]).
  by destruct (ca_topic_alias_max props).
Qed.

Lemma connack_tables connack s r s' :
  handle_incoming_connack connack s = (Ok r, s') →
  ∃ t, topic_aliases s' = set_broker_max (connack_alias_max connack) (reset_connection_scoped t) ∧
       collision s' = collision s.
Proof.
  unfold handle_incoming_connack. rewrite bind_run. cbn [mget].
  destruct (validate_incoming_connack s connack) as [[]|e|] eqn:Hv; [|done..].
  rewrite bind_run. cbn [lift].
  match goal with |- (?m ≫= _) s = _ → _ =>
    assert (Hk : along kept m) by keeps; rewrite bind_run; specialize (Hk s); destruct (m s) as [[u|e|] s1]
  end; [|done..].
  injection Hk as Ht1 Hc1. rewrite bind_run. unfold reset_connack_scoped_state. cbn [mmodify].
  set (s2 := set_max_outgoing_inflight _ _). rewrite bind_run.
  pose proof (kept_with_auth complete_initial_connack s2) as Hk.
  destruct (with_auth complete_initial_connack s2) as [[u'|e|] s3]; [|done..].
  injection Hk as Ht3 Hc3. intros Hrun. exists (topic_aliases s1).
  assert (Hs3 : topic_aliases s3 = set_broker_max 0 (reset_connection_scoped (topic_aliases s1)) ∧
                collision s3 = collision s) by (by rewrite Ht3, Hc3, <- Hc1).
  destruct Hs3 as [Hs3 Hc]. unfold connack_alias_max. revert Hrun.
  destruct (connack_properties connack) as [props|]; cbn; intros [= <- <-]; fields; [|by rewrite Hs3, Hc].
  pose proof (apply_connack_aliases props s3) as [= -> ->]. fields. rewrite Hs3, Hc.
  by destruct (ca_topic_alias_max props).
Qed.

(** ** A connection *)

Inductive Op :=
  | Op_request (now : Instant) (request : Request) (notice : option TrackedNoticeTx) (replay : bool)
  | Op_packet (now : Instant) (packet : Packet).

(** One operation: the packet it puts on the wire. *)
Definition exec (op : Op) : ST (option Packet) :=
  match op with
  | Op_request now request notice replay =>
      '(packet, _) ← handle_outgoing_packet_with_notice_internal now request notice replay;
      mret packet
  | Op_packet now packet => handle_incoming_packet now packet
  end.

Definition is_connack_op (op : Op) : bool :=
  match op with Op_packet _ packet => is_connack packet | _ => false end.

(** The topic a publish put on the wire is to be about: that of the request, or of the publish that
    was held back. *)
Definition subject s (op : Op) : option Bytes :=
  match op with
  | Op_request _ (R_Publish p) _ _ => Some (topic p)
  | Op_request _ _ _ _ => None
  | Op_packet _ _ => topic <$> collision s
  end.

(** The publishes of a connection in the order they are put on the wire, with their subjects; an
    error of an operation does not end it, a panic does. *)
Fixpoint transcript (ops : list Op) s : list (option Bytes * Publish) :=
  match ops with
  | [] => []
  | op :: ops =>
      match exec op s with
      | (Ok (Some (P_Publish q)), s') => (subject s op, q) :: transcript ops s'
      | (Panic, _) => []
      | (_, s') => transcript ops s'
      end
  end.

(** The broker, whose aliases are [aliases], takes every publish to be about its subject. *)
Fixpoint resolves (aliases : gmap Z (list Z)) (publishes : list (option Bytes * Publish)) : Prop :=
  match publishes with
  | [] => True
  | (subject, q) :: publishes =>
      (∃ tp, subject = Some tp ∧ (tp ≠ [] → (receive aliases q).1 = Some tp)) ∧
      resolves (receive aliases q).2 publishes
  end.

Lemma exec_aliases op s :
  alias_ok s → is_connack_op op = false →
  post (exec op)
    (λ r s', sends (λ q, ∃ tp, subject s op = Some tp ∧
                      (tp ≠ [] → (receive (alias_view s) q).1 = Some tp)) r s s') s.
Proof.
  intros I Hop. destruct op as [now request notice replay|now packet]; cbn [exec].
  - apply post_bind. eapply post_mono; [by apply handle_outgoing_aliases|].
    intros [[q n]|e|] s' Hs; [|done..]. cbn in Hs |- *. destruct q as [[]|]; try done.
    destruct Hs as [Hs (p & -> & Htp)]. split; [exact Hs|]. by exists (topic p).
  - eapply post_mono; [by apply handle_incoming_aliases|].
    intros [[[]|]|e|] s' Hs; try done. destruct Hs as [Hs Hq]. split; [exact Hs|].
    unfold held_topic in Hq. cbn. rewrite Hq. eexists; split; [done|]. intros Htp.
    unfold receive. by case_match; rewrite bool_decide_eq_false_2.
Qed.

Lemma transcript_resolves ops s :
  alias_ok s → Forall (λ op, is_connack_op op = false) ops →
  resolves (alias_view s) (transcript ops s).
Proof.
  intros I Hops. revert s I. induction Hops as [|op ops Hop Hops IH]; intros s I; [done|].
  cbn [transcript]. pose proof (exec_aliases op s I Hop) as Hs. unfold post in Hs.
  destruct (exec op s) as [[[[]|]|e|] s']; cbn [fst snd sends] in Hs; try done.
  all: try (destruct Hs as [I' <-]; by apply IH).
  destruct Hs as [[I' Hv] Hq]. cbn [resolves]. split; [done|]. rewrite <- Hv. by apply IH.
Qed.

(** The tables after a CONNACK that is accepted. *)
Lemma connack_aliases now connack s0 r s :
  collision s0 = None → 0 ≤ connack_alias_max connack ≤ u16_MAX →
  handle_incoming_packet now (P_ConnAck connack) s0 = (Ok r, s) →
  alias_ok s ∧ alias_view s = ∅.
Proof.
  intros Hc Hm. unfold handle_incoming_packet. rewrite bind_run.
  unfold handle_incoming_packet_with_effects. cbn [dispatch_incoming]. rewrite bind_run.
  destruct (handle_incoming_connack connack s0) as [[r1|e|] s1] eqn:Hrun.
  - apply connack_tables in Hrun as (t & Ht & Hc1).
    assert (I1 : alias_ok s1 ∧ alias_view s1 = ∅).
    { unfold alias_view. rewrite Ht. split; [|done]. split; [rewrite Ht; by apply alias_inv_new|].
      intros q. by rewrite Hc1, Hc. }
    cbn. unfold insert_event. rewrite !bind_run. cbn. destruct (blen _ <? _); [done|].
    intros [= _ <-]. destruct I1 as [I1 Hv]. split; [|exact Hv]. by eapply alias_ok_kept.
  - cbn. destruct (match e with ConnFail _ => true | _ => false end); [|done]. unfold insert_event. rewrite !bind_run. cbn.
    by destruct (blen _ <? _).
  - done.
Qed.

(** C22: After a CONNACK is accepted, over any requests and packets up to the next one, the broker, which
    starts without aliases and learns from what it receives, takes every PUBLISH of the client to be
    about the topic it was asked for: the client never refers to an alias that means another topic
    to the broker, whichever publishes carry aliases of their own, are evicted, refused or held back. *)
Theorem aliases_resolve now connack ops s0 r s :
  collision s0 = None → 0 ≤ connack_alias_max connack ≤ u16_MAX →
  exec (Op_packet now (P_ConnAck connack)) s0 = (Ok r, s) →
  Forall (λ op, is_connack_op op = false) ops →
  resolves ∅ (transcript ops s).
Proof.
  intros Hc Hm Hrun Hops. apply connack_aliases in Hrun as [I <-]; [|done..].
  by apply transcript_resolves.
Qed.
End Incoming.

(** ** A session *)

(** An authenticator that accepts everything. *)
#[local] Instance silent_authenticator : Authenticator unit := {|
  lock_poisoned _ := false;
  auth_start a _ := (inr None, a);
  auth_continue a _ _ := (inr AA_Complete, a);
  auth_success a _ _ := (inr tt, a);
  auth_failure a _ _ := a;
|}.

Definition sample_session : MqttState BitVector unit :=
  new_internal 0 10 Automatic TAP_Lru 0 10 None None.

(** One alias; a topic, the topic again, an alias of the application's own, the topic again. *)
Definition sample_connack : ConnAck :=
  {| session_present := false; code := CRC_Success;
     connack_properties := Some (mkConnAckProperties None None None None None None (Some 1) None []
       None None None None None None None None) |}.

Definition sample_ops : list Op :=
  [Op_request 1 (R_Publish (Publish_new [97] AtMostOnce [] None)) None false;
   Op_request 2 (R_Publish (Publish_new [97] AtLeastOnce [] None)) None false;
   Op_request 3 (R_Publish (set_publish_topic_alias (Publish_new [98] AtMostOnce [] None) 1)) None false;
   Op_packet 4 P_PingResp;
   Op_request 5 (R_Publish (Publish_new [97] AtLeastOnce [] None)) None false].

Lemma aliases_resolve_witness :
  let s := (exec (Op_packet 0 (P_ConnAck sample_connack)) sample_session).2 in
  (λ r, (r.1, topic r.2, publish_topic_alias r.2)) <$> transcript sample_ops s =
    [(Some [97], [97], Some 1); (Some [97], [], Some 1); (Some [98], [98], Some 1);
     (Some [97], [97], None)] ∧
  resolves ∅ (transcript sample_ops s).
Proof.
  cbv zeta. split; [vm_compute; reflexivity|].
  apply (aliases_resolve 0 sample_connack sample_ops sample_session None);
    [reflexivity|vm_compute; split; congruence| |repeat constructor].
  vm_compute. reflexivity.
Defined.
