(* ===== verification/V5Invariant.v ===== *)
(** The invariant of the MQTT 5 session state, and the rules of the operations on packet identifiers,
    quotas and tracking vectors.

    [R] is the set of packet identifiers reserved for requests that [clean] has collected and that
    have not been sent again: they are in the queues of the event loop.

    Operations that leave the session of the MQTT 5 client alone: they add events and complete notices,
    and above all do not panic.  [quiet P m]: [m] does not panic, changes nothing of the session and
    keeps the events there are; the hint database [quiet] and the tactic [quiet_auto] follow the
    structure of a computation. *)

From Stdlib Require Import String.
From S2P Require Import Prelude.
From S2P Require Import Utf8.
From S2P Require Import Primitives.
From S2P Require Import FixedBitSet.
From S2P Require Import PacketIds.
From S2P Require Import V5Base.
From S2P Require Import V5Properties.
From S2P Require Import V5Acks.
From S2P Require Import V5SubAck.
From S2P Require Import V5Subscribe.
From S2P Require Import V5Publish.
From S2P Require Import V5ConnAck.
From S2P Require Import V5Disconnect.
From S2P Require Import V5Auth.
From S2P Require Import V5Packet.
From S2P Require Import V5Persist.
From S2P Require Import V5SessionTypes.
From S2P Require Import V5AuthLifecycle.
From S2P Require Import V5TopicAlias.
From S2P Require Import V5StateRecord.
From S2P Require Import V5State.
From S2P Require Import V5Incoming.
From S2P Require Import V5Clean.
From S2P Require Import V5Frame.
#[local] Open Scope Z_scope.

(** A publish in a slot has the identifier of the slot, and flow control. *)
#[global] Instance publish5_tracked : TrackedPublish Publish := λ k p,
  pub_pkid p = k ∧ pub_qos p ≠ AtMostOnce.

(** Every identifier in use, once. *)
Definition live_of {V W} (R : gset Z) (pubs rels replays : list Z) (subs : gmap Z V)
    (unsubs : gmap Z W) : list Z :=
  pubs ++ rels ++ replays ++ keys subs ++ keys unsubs ++ elements R.

Abbreviation live_ids R s :=
  (live_of R (outgoing_pub_order s) (outgoing_rel_order s) (outgoing_rel_replay_order s)
    (pending_subscribe s) (pending_unsubscribe s)).

Section Inv.
  Context {B A : Type} `{FixedBitSetLaws B} `{Authenticator A}.

Abbreviation ST := (M (MqttState B A) StateError).
Implicit Types (s : MqttState B A) (R : gset Z).

Record limits_ok (upper outgoing incoming last : Z) : Prop := {
  lim_upper : upper ≤ u16_MAX;
  lim_outgoing : 0 ≤ outgoing ≤ upper;
  lim_incoming : 0 ≤ incoming ≤ u16_MAX;
  lim_last : is_u16 last;
}.

(** The publish quota: whose identifiers hold it.  A publish holds it from when it is sent until its
    flow ends; a release sent again on a new connection holds none. *)
Record quota_ok (pubs rels : list Z) (quota : B) (n limit : Z) (held : option Publish) : Prop := {
  quota_count : counted quota n;
  quota_max : n ≤ limit;
  quota_pub k : k ∈ pubs → contains quota k = true;
  quota_owner k : contains quota k = true → k ∈ pubs ∨ k ∈ rels;
  quota_held p : held = Some p → contains quota (pub_pkid p) = true ∧ pub_qos p ≠ AtMostOnce;
}.

Abbreviation state_lens s :=
  (lens_ok (outgoing_pub s) (outgoing_pub_notice s) (outgoing_rel_notice s) (outgoing_rel s)
    (outgoing_rel_replay s)).

Record inv R s : Prop := {
  inv_limits : limits_ok (max_outgoing_inflight_upper_limit s) (max_outgoing_inflight s)
    (max_incoming_inflight s) (last_pkid s);
  inv_lens : state_lens s;
  inv_incoming : incoming_ok (incoming_puback s) (incoming_pub s) (incoming_pubrec s);
  inv_received : counted (incoming_publish_quota s) (incoming_inflight s);
  inv_receiving : incoming_inflight s ≤ max_incoming_inflight s;
  inv_slots : slots_ok (outgoing_pub_order s) (outgoing_pub s);
  inv_rel : bits_ok (outgoing_rel_order s) (outgoing_rel s);
  inv_replay : bits_ok (outgoing_rel_replay_order s) (outgoing_rel_replay s);
  inv_ids : ids_ok (live_ids R s) (outbound_pkid_in_use s) (outbound_pkid_count s);
  inv_sub k p : pending_subscribe s !! k = Some p →
    subscribe_pkid (ps_subscribe p) = k ∧ filters (ps_subscribe p) ≠ [];
  inv_unsub k p : pending_unsubscribe s !! k = Some p →
    unsubscribe_pkid (pu_unsubscribe p) = k ∧ unsubscribe_filters (pu_unsubscribe p) ≠ [];
  inv_quota : quota_ok (outgoing_pub_order s) (outgoing_rel_order s) (outgoing_publish_quota s)
    (inflight s) (max_outgoing_inflight s) (collision s);
}.

(** ** Consequences *)

Lemma elem_live5 R s k :
  k ∈ live_ids R s ↔
  k ∈ outgoing_pub_order s ∨ k ∈ outgoing_rel_order s ∨ k ∈ outgoing_rel_replay_order s ∨
  is_Some (pending_subscribe s !! k) ∨ is_Some (pending_unsubscribe s !! k) ∨ k ∈ R.
Proof. unfold live_of. rewrite !elem_of_app, !keys_elem, elem_of_elements. tauto. Qed.

Lemma not_live5 R s k :
  k ∉ live_ids R s →
  k ∉ outgoing_pub_order s ∧ k ∉ outgoing_rel_order s ∧ k ∉ outgoing_rel_replay_order s ∧
  pending_subscribe s !! k = None ∧ pending_unsubscribe s !! k = None ∧ k ∉ R.
Proof. rewrite elem_live5. rewrite !eq_None_not_Some. tauto. Qed.

Section Facts.
  Context R s (I : inv R s).

Lemma inv5_live_range k : k ∈ live_ids R s → 1 ≤ k ≤ u16_MAX.
Proof. apply (ids_range _ _ _ (inv_ids _ _ I)). Qed.

Lemma inv5_in_use k : packet_identifier_in_use s k = bool_decide (k ∈ live_ids R s).
Proof. apply (ids_ok_contains _ _ (outbound_pkid_count s)), I. Qed.

Lemma inv5_orders_nodup :
  NoDup (outgoing_pub_order s) ∧ NoDup (outgoing_rel_order s) ∧
  NoDup (outgoing_rel_replay_order s) ∧
  (∀ k, k ∈ outgoing_pub_order s → k ∉ outgoing_rel_order s).
Proof.
  pose proof (ids_nodup _ _ _ (inv_ids _ _ I)) as Hn. unfold live_of in Hn.
  rewrite !NoDup_app in Hn. destruct Hn as (? & Hd & ? & ? & ? & ?). split_and!; try tauto.
  intros k Hk Hr. apply (Hd k Hk). set_solver.
Qed.

Lemma inv5_pub_range k : k ∈ outgoing_pub_order s → 1 ≤ k ≤ u16_MAX ∧ k < blen (outgoing_pub s).
Proof.
  intros Hk. split; [apply inv5_live_range; rewrite elem_live5; tauto|].
  apply (slots_order _ _ (inv_slots _ _ I)) in Hk as [? [p Hp]]. by eapply vget_range.
Qed.

Lemma inv5_rel_range k : k ∈ outgoing_rel_order s → 1 ≤ k ≤ u16_MAX ∧ k < blen (outgoing_pub s).
Proof.
  intros Hk. split; [apply inv5_live_range; rewrite elem_live5; tauto|].
  apply (bits_ok_range _ _ _ (inv_rel _ _ I)) in Hk.
  rewrite (len_rel _ _ _ _ _ (inv_lens _ _ I)) in Hk. lia.
Qed.

Lemma inv5_replay_range k :
  k ∈ outgoing_rel_replay_order s → 1 ≤ k ≤ u16_MAX ∧ k < blen (outgoing_pub s).
Proof.
  intros Hk. split; [apply inv5_live_range; rewrite elem_live5; tauto|].
  apply (bits_ok_range _ _ _ (inv_replay _ _ I)) in Hk.
  rewrite (len_replay _ _ _ _ _ (inv_lens _ _ I)) in Hk. lia.
Qed.

Lemma inv5_slot_none k :
  0 ≤ k < blen (outgoing_pub s) → k ∉ outgoing_pub_order s → vget (outgoing_pub s) k = Some None.
Proof.
  intros Hk Hno. destruct (vget_some _ _ Hk) as [[p|] Hx]; [|done].
  exfalso. apply Hno, (slots_order _ _ (inv_slots _ _ I)). split; [lia|eauto].
Qed.

Lemma inv5_slot_some k p :
  0 ≤ k → vget (outgoing_pub s) k = Some (Some p) → k ∈ outgoing_pub_order s.
Proof. intros Hk Hx. apply (slots_order _ _ (inv_slots _ _ I)). split; [done|eauto]. Qed.
End Facts.
End Inv.

(** ** Frames *)

(** Prove the fields of the invariant that did not change from [I]. *)
Ltac inv5_frame I :=
  constructor; fields;
  first [exact (inv_limits _ _ I)|exact (inv_lens _ _ I)|exact (inv_incoming _ _ I)
        |exact (inv_received _ _ I)|exact (inv_receiving _ _ I)|exact (inv_slots _ _ I)
        |exact (inv_rel _ _ I)|exact (inv_replay _ _ I)|exact (inv_ids _ _ I)
        |exact (inv_sub _ _ I)|exact (inv_unsub _ _ I)|exact (inv_quota _ _ I)|idtac].

(** Replace a hypothesis about the fields of a state built by assignments by the reduced one. *)
Ltac reduced H :=
  fields; let T := type of H in let H' := fresh in
  assert (H' : T) by exact H; clear H; rename H' into H.

Section Frames.
  Context {B A : Type} `{FixedBitSetLaws B} `{Authenticator A}.

Abbreviation ST := (M (MqttState B A) StateError).
Implicit Types (s : MqttState B A) (R : gset Z).
Abbreviation state_lens s :=
  (lens_ok (outgoing_pub s) (outgoing_pub_notice s) (outgoing_rel_notice s) (outgoing_rel s)
    (outgoing_rel_replay s)).

(** What the invariant says nothing about but the tracking vectors. *)
Definition session_of s :=
  ((max_outgoing_inflight s, max_outgoing_inflight_upper_limit s, max_incoming_inflight s),
   (incoming_puback s, incoming_pub s, incoming_pubrec s),
   (incoming_publish_quota s, incoming_inflight s),
   (outgoing_pub_order s, outgoing_rel_order s, outgoing_rel_replay_order s),
   (outbound_pkid_in_use s, outbound_pkid_count s),
   (pending_subscribe s, pending_unsubscribe s),
   (outgoing_publish_quota s, inflight s), collision s).

(** All the invariant is about. *)
Definition core s :=
  (session_of s, last_pkid s, (outgoing_pub s, outgoing_pub_notice s, outgoing_rel_notice s),
   (outgoing_rel s, outgoing_rel_replay s)).

Lemma inv5_session R s s' :
  inv R s → session_of s' = session_of s → is_u16 (last_pkid s') → state_lens s' →
  same_slots (outgoing_pub s) (outgoing_pub s') →
  bits_ok (outgoing_rel_order s) (outgoing_rel s') →
  bits_ok (outgoing_rel_replay_order s) (outgoing_rel_replay s') →
  inv R s'.
Proof.
  intros I Hs Hlast Hlens Hp Hrel Hrep. unfold session_of in Hs.
  injection Hs as Hm Hu Hmi Hpa Hip Hir Hiq Hii Hpo Hro Hrro Hiu Hc Hsub Hunsub Hq Hinf Hcol.
  constructor; unfold live_of;
    rewrite ?Hpa, ?Hip, ?Hir, ?Hiq, ?Hii, ?Hmi, ?Hpo, ?Hro, ?Hrro, ?Hiu, ?Hc, ?Hsub, ?Hunsub,
      ?Hm, ?Hu, ?Hq, ?Hinf, ?Hcol; try done; try apply I.
  - destruct (inv_limits _ _ I) as [H1' H2' H3' H4']. by split.
  - destruct (inv_slots _ _ I) as [Ho Hk]. split.
    + intros k. rewrite Ho. split; intros [? [p ?]]; (split; [done|exists p]); by apply (Hp k p).
    + intros k p ? ?. apply Hk; [done|]. by apply (Hp k p).
Qed.

Lemma inv5_core R s s' : inv R s → core s' = core s → inv R s'.
Proof.
  intros I Hc. pose proof (f_equal (λ x, x.1.1.1) Hc) as Hs.
  pose proof (f_equal (λ x, x.1.1.2) Hc) as Hl. pose proof (f_equal (λ x, x.1.2) Hc) as Hv.
  pose proof (f_equal (λ x, x.2) Hc) as Hb. cbn [core fst snd] in *.
  injection Hv as Hp Hpn Hrn. injection Hb as Hr Hrr.
  apply (inv5_session R s); try done; rewrite ?Hl, ?Hp, ?Hpn, ?Hrn, ?Hr, ?Hrr; try apply I.
  by intros k x Hk.
Qed.

(** A computation that touches nothing of it. *)
Lemma inv5_along {T} R (m : ST T) s : along (keeping core) m → inv R s → inv R (m s).2.
Proof. intros Hm I. apply (inv5_core R s); [done|]. apply Hm. Qed.

(** ** Tracking capacity *)

Lemma wp5_ensure R n (Q : unit → _ → Prop) X s :
  inv R s → n ≤ full_packet_identifier_len →
  (∀ s', inv R s' → session_of s' = session_of s → n ≤ blen (outgoing_pub s') → Q tt s') →
  wp (ensure_outgoing_tracking_capacity n) Q X s.
Proof.
  intros I Hn HQ. unfold ensure_outgoing_tracking_capacity. apply wp_modify.
  destruct (inv_lens _ _ I) as [Hl1 Hl2 Hl3 Hl4 Hl5].
  destruct (Z.ltb_spec (blen (outgoing_pub s)) n) as [Hlt|Hge].
  - assert (Hb : (blen (outgoing_pub s) <? n) = true) by lia.
    change (outgoing_pub_notice (set_outgoing_pub _ s)) with (outgoing_pub_notice s).
    rewrite Hl2, Hb. cbv beta iota.
    change (outgoing_rel_notice (set_outgoing_pub_notice _ _)) with (outgoing_rel_notice s).
    rewrite Hl3, Hb. cbv beta iota.
    change (outgoing_rel (set_outgoing_rel_notice _ _)) with (outgoing_rel s).
    rewrite Hl4, Hb. cbv beta iota.
    change (outgoing_rel_replay (set_outgoing_rel _ _)) with (outgoing_rel_replay s).
    rewrite Hl5, Hb. apply HQ; [|done|fields; rewrite blen_resize by lia; lia].
    apply (inv5_session R s); try done; fields.
    + apply I.
    + split; rewrite ?len_grow, ?blen_resize by lia; lia.
    + apply same_slots_resize.
    + apply bits_ok_grow, I.
    + apply bits_ok_grow, I.
  - assert (Hb : (blen (outgoing_pub s) <? n) = false) by lia.
    rewrite Hl2, Hb. cbv beta iota. rewrite Hl3, Hb. cbv beta iota. rewrite Hl4, Hb.
    cbv beta iota. rewrite Hl5, Hb. apply HQ; try done; lia.
Qed.

(** Shrinking happens only when nothing is outstanding, so it loses nothing. *)
Lemma wp5_shrink R (Q : unit → _ → Prop) X s :
  inv R s → (∀ s', inv R s' → session_of s' = session_of s → Q tt s') →
  wp maybe_shrink_outgoing_tracking_capacity Q X s.
Proof.
  intros I HQ. unfold maybe_shrink_outgoing_tracking_capacity. apply wp_modify.
  destruct (Z.leb_spec (blen (outgoing_pub s))
    (warm_tracking_len (max_outgoing_inflight_upper_limit s))) as [|Hlt]; [by apply HQ|].
  destruct (outbound_requests_drained s) eqn:Hd; [|by apply HQ]. cbn [orb negb].
  unfold outbound_requests_drained in Hd. rewrite !andb_true_iff in Hd.
  destruct Hd as [[[[[[[[[[[[[[_ _] _] _] _] Hpub] _] Hpn] Hrn] Hrel] Hro] Hrec] Hrep] Hrro] Hcount].
  destruct (outgoing_rel_order s) as [|] eqn:Ero; [|done].
  destruct (outgoing_rel_replay_order s) as [|] eqn:Erro; [|done].
  destruct (inv_limits _ _ I) as [Hu Hm _ _].
  pose proof (warm_tracking_len_range (max_outgoing_inflight_upper_limit s) ltac:(lia)) as Hw.
  destruct (inv_lens _ _ I) as [Hl1 Hl2 Hl3 Hl4 Hl5].
  assert (Hs : session_of s = session_of (set_outgoing_rel_order [] (set_outgoing_rel_replay_order [] s))).
  { unfold session_of. fields. by rewrite Ero, Erro. }
  apply HQ; [|by rewrite Hs]. apply (inv5_session R s); [done|by rewrite Hs|..]; fields.
  - done.
  - split; rewrite ?len_with_capacity, ?blen_take by lia; lia.
  - by apply same_slots_none.
  - rewrite Ero. apply bits_ok_empty.
  - rewrite Erro. apply bits_ok_empty.
Qed.

(** ** Packet identifiers *)

Abbreviation reserving s in_use count :=
  (set_outbound_pkid_count count (set_outbound_pkid_in_use in_use s)).

Lemma wp5_release ids k (Q : unit → _ → Prop) X s :
  ids_ok (k :: ids) (outbound_pkid_in_use s) (outbound_pkid_count s) →
  (∀ in_use count, ids_ok ids in_use count → Q tt (reserving s in_use count)) →
  wp (release_outbound_pkid k) Q X s.
Proof.
  intros Hok HQ. unfold release_outbound_pkid. apply wp_bind, wp_get.
  assert (Hk := ids_range _ _ _ Hok k ltac:(set_solver)).
  unfold packet_identifier_in_use. rewrite (ids_ok_contains _ _ _ k Hok).
  rewrite bool_decide_eq_true_2 by set_solver.
  destruct (Z.eqb_spec k 0); [lia|]. cbn [negb orb].
  assert (Hl := ids_len _ _ _ Hok). unfold full_packet_identifier_len in Hl.
  apply wp_set_bit; [lia|]. apply wp_bind, wp_modify.
  assert (Hc := ids_count _ _ _ Hok). rewrite blen_cons in Hc. pose proof (blen_nonneg ids).
  rewrite (proj2 (Z.ltb_ge _ _)) by lia. apply wp_modify. apply HQ.
  by apply ids_ok_remove.
Qed.

Lemma wp5_reserve ids k (Q : unit → _ → Prop) (X : StateError → _ → Prop) s :
  ids_ok ids (outbound_pkid_in_use s) (outbound_pkid_count s) → 0 ≤ k ≤ u16_MAX →
  (k = 0 ∨ k ∈ ids → X InvalidState s) →
  (∀ in_use count, k ≠ 0 → k ∉ ids → ids_ok (k :: ids) in_use count → Q tt (reserving s in_use count)) →
  wp (reserve_outbound_pkid k) Q X s.
Proof.
  intros Hok Hk HX HQ. unfold reserve_outbound_pkid. apply wp_bind, wp_get.
  unfold packet_identifier_in_use. rewrite (ids_ok_contains _ _ _ k Hok).
  destruct (Z.eqb_spec k 0); [apply wp_fail; by auto|]. cbn [orb].
  case_bool_decide as Hin; [apply wp_fail; by auto|].
  assert (Hl := ids_len _ _ _ Hok). unfold full_packet_identifier_len in Hl.
  unfold insert_bit. apply wp_set_bit; [lia|]. apply wp_bind, wp_modify.
  pose proof (ids_ok_insert _ _ _ k Hok ltac:(lia) Hin) as Hok'.
  pose proof (ids_ok_bound _ _ _ Hok') as Hb.
  rewrite (proj2 (Z.ltb_ge _ _)) by lia. apply wp_modify. by apply HQ.
Qed.

Lemma wp5_accept R k (Q : unit → _ → Prop) (X : StateError → _ → Prop) s :
  inv R s → k ∈ live_ids R s → Q tt s → wp (accept_replayed_outbound_pkid k) Q X s.
Proof.
  intros I Hk HQ. unfold accept_replayed_outbound_pkid. apply wp_bind, wp_get.
  rewrite (inv5_in_use R s I), bool_decide_eq_true_2 by done.
  destruct (Z.eqb_spec k 0); [apply (inv5_live_range R s I) in Hk; lia|]. by apply wp_ret.
Qed.

Lemma next_free5_ok R s :
  inv R s →
  match next_free_outbound_pkid_after s (last_pkid s) with
  | Some k => 1 ≤ k ≤ u16_MAX ∧ k ∉ live_ids R s
  | None => True
  end.
Proof.
  intros I. pose proof (next_free_in_ok _ _ _ (last_pkid s) (inv_ids _ _ I)
    (lim_last _ _ _ _ (inv_limits _ _ I))) as Hn.
  unfold next_free_outbound_pkid_after, control_packet_identifier_available.
  destruct (next_free_in _ _ _); [|done]. tauto.
Qed.

(** ** Quotas *)

Lemma wp5_release_incoming R k (Q : unit → _ → Prop) X s :
  inv R s → (∀ s', inv R s' → Q tt s') → wp (release_incoming_publish_quota k) Q X s.
Proof.
  intros I HQ. unfold release_incoming_publish_quota. apply wp_bind, wp_get.
  destruct (contains (incoming_publish_quota s) k) eqn:Hc; [|by apply wp_ret, HQ].
  apply wp_set_bit; [by apply contains_range|]. apply wp_bind, wp_modify.
  destruct (counted_remove _ _ _ (inv_received _ _ I) Hc) as [Hn Hcount].
  rewrite (proj2 (Z.ltb_ge _ _)) by lia. apply wp_modify, HQ.
  pose proof (inv_receiving _ _ I). inv5_frame I; [exact Hcount|lia].
Qed.
End Frames.

(** ** Events

    Operations only add events, and a packet received is added by the dispatch of packets alone. *)

Definition own_event (e : Event) : Prop := match e with Ev_Incoming _ => False | _ => True end.
Definition adds (l l' : list Event) : Prop := ∃ es, l' = l ++ es ∧ Forall own_event es.

#[global] Instance adds_preorder : PreOrder adds.
Proof.
  split; [intros l; exists []; by rewrite app_nil_r|].
  intros l1 l2 l3 (e1 & -> & H1) (e2 & -> & H2). exists (e1 ++ e2). rewrite <- app_assoc.
  split; [done|by apply Forall_app].
Qed.

Lemma adds_one l e : own_event e → adds l (l ++ [e]).
Proof. intros He. exists [e]. split; [done|by repeat constructor]. Qed.
Lemma adds_auth l es : adds l (l ++ (Ev_Auth <$> es)).
Proof. exists (Ev_Auth <$> es). split; [done|]. by apply Forall_fmap, Forall_true. Qed.
Lemma adds_blen l l' : adds l l' → blen l ≤ blen l'.
Proof. intros (es & -> & _). rewrite blen_app. pose proof (blen_nonneg es). lia. Qed.

Ltac solve_adds := first [reflexivity|by apply adds_one|apply adds_auth].

Section Quiet.
  Context {B A : Type} `{FixedBitSetLaws B} `{Authenticator A}.

Abbreviation ST := (M (MqttState B A) StateError).
Implicit Types (s : MqttState B A) (R : gset Z).

(** [s'] has the session and the connection of [s], and more events. *)
Record calm s s' : Prop := {
  calm_core : core s' = core s;
  calm_connack : connack_received s' = connack_received s;
  calm_events : adds (events s) (events s');
}.

#[global] Instance calm_preorder : PreOrder calm.
Proof.
  split; [by intros s; split|]. intros s1 s2 s3 [Hc1 Hr1 He1] [Hc2 Hr2 He2]. split; [congruence..|].
  by etrans.
Qed.

(** [m] does not panic and leaves the session alone; it returns a value of [P], if any. *)
Definition quiet {T} (P : T → Prop) (m : ST T) : Prop :=
  ∀ s, wp m (λ a s', P a ∧ calm s s') (λ _ s', calm s s') s.

Abbreviation quiet_any m := (quiet (λ _, True) m).

Lemma quiet_bind {T U} (P : T → Prop) (Q : U → Prop) (m : ST T) (k : T → ST U) :
  quiet P m → (∀ a, P a → quiet Q (k a)) → quiet Q (m ≫= k).
Proof.
  intros Hm Hk s. apply wp_bind. eapply wp_mono; [apply Hm| |done].
  intros a s' [Ha Hc]. eapply wp_mono; [by apply Hk|..].
  - intros b s'' [Hb Hc']. split; [done|]. by etrans.
  - intros e s'' Hc'. by etrans.
Qed.

Lemma quiet_bind_any {T U} (Q : U → Prop) (m : ST T) (k : T → ST U) :
  quiet_any m → (∀ a, quiet Q (k a)) → quiet Q (m ≫= k).
Proof. intros Hm Hk. eapply quiet_bind; eauto. Qed.

Lemma quiet_ret {T} (P : T → Prop) a : P a → quiet P (mret a : ST T).
Proof. intros Ha s. by apply wp_ret. Qed.
Lemma quiet_fail {T} (P : T → Prop) e : quiet P (mfail e : ST T).
Proof. intros s. by apply wp_fail. Qed.
Lemma quiet_get : quiet_any (mget : ST _).
Proof. intros s. by apply wp_get. Qed.
Lemma quiet_modify f : (∀ s, calm s (f s)) → quiet_any (mmodify f : ST unit).
Proof. intros Hf s. by apply wp_modify. Qed.
Lemma quiet_lift {T} (r : outcome StateError T) : r ≠ Panic → quiet_any (lift r : ST T).
Proof. intros Hr s. apply wp_lift. by destruct r. Qed.

Lemma calm5_same s s' :
  core s' = core s → connack_received s' = connack_received s → events s' = events s → calm s s'.
Proof. intros Hc Hr He. split; [done..|by rewrite He]. Qed.
Lemma calm_push s o : own_event o → calm s (set_events (events s ++ [o]) s).
Proof. intros Ho. split; [done..|]. by apply adds_one. Qed.

Lemma wp_quiet {T} R (P : T → Prop) (m : ST T) s :
  quiet P m → inv R s →
  wp m (λ a s', P a ∧ inv R s' ∧ calm s s') (λ _ s', inv R s' ∧ calm s s') s.
Proof.
  intros Hm I. eapply wp_mono; [apply Hm|..]; cbn.
  - intros a s' [Ha Hc]. split_and!; try done. by eapply inv5_core; [|apply Hc].
  - intros e s' Hc. split; [|done]. by eapply inv5_core; [|apply Hc].
Qed.
End Quiet.

Create HintDb quiet.

(** Follow the structure of a computation. *)
Ltac quiet_step :=
  match goal with
  | |- quiet _ _ => solve [eauto 3 with quiet]
  | |- quiet _ (_ ≫= _) => eapply quiet_bind; [solve [eauto 3 with quiet]|intros ? ?]
  | |- quiet _ (_ ≫= _) => apply quiet_bind_any; [|intros ?]
  | |- quiet _ (mret _) => apply quiet_ret
  | |- quiet _ (mfail _) => apply quiet_fail
  | |- quiet _ mget => apply quiet_get
  | |- quiet _ (mmodify _) =>
      apply quiet_modify; intros ?; first [by apply calm_push|repeat case_match; by apply calm5_same]
  | |- quiet _ (match ?x with _ => _ end) => destruct x eqn:?
  end.
Ltac quiet_auto := repeat quiet_step; try done.

(** ** Authentication *)

Section Lifecycle.
  Implicit Types (c : AuthCx).

(** The same of the methods of [AuthLifecycle], which only add events. *)
Definition orderly {T} (P : T → Prop) (m : M AuthCx StateError T) : Prop :=
  ∀ c, wp m (λ a c', P a ∧ adds (cx_events c) (cx_events c'))
            (λ _ c', adds (cx_events c) (cx_events c')) c.

Lemma orderly_bind {T U} (P : T → Prop) (Q : U → Prop) (m : M AuthCx StateError T)
    (k : T → M AuthCx StateError U) :
  orderly P m → (∀ a, P a → orderly Q (k a)) → orderly Q (m ≫= k).
Proof.
  intros Hm Hk c. apply wp_bind. eapply wp_mono; [apply Hm| |done].
  intros a c' [Ha Hc]. eapply wp_mono; [by apply Hk|..].
  - intros b c'' [Hb Hc']. split; [done|]. by etrans.
  - intros e c'' Hc'. by etrans.
Qed.
Lemma orderly_any {T U} (Q : U → Prop) (m : M AuthCx StateError T)
    (k : T → M AuthCx StateError U) :
  orderly (λ _, True) m → (∀ a, orderly Q (k a)) → orderly Q (m ≫= k).
Proof. intros Hm Hk. eapply orderly_bind; eauto. Qed.
Lemma orderly_modify f :
  (∀ c, adds (cx_events c) (cx_events (f c))) → orderly (λ _, True) (mmodify f).
Proof. intros Hf c. by apply wp_modify. Qed.
Lemma orderly_lift {T} (P : T → Prop) (r : outcome StateError T) :
  r ≠ Panic → (∀ a, r = Ok a → P a) → orderly P (lift r).
Proof. intros Hr HP c. apply wp_lift. destruct r; naive_solver. Qed.
End Lifecycle.

Ltac orderly_step :=
  match goal with
  | |- orderly _ (_ ≫= _) => apply orderly_any; [|intros ?]
  | |- orderly _ (mret _) => intros ?; by apply wp_ret
  | |- orderly _ (mfail _) => intros ?; by apply wp_fail
  | |- orderly _ mget => intros ?; by apply wp_get
  | |- orderly _ (mmodify _) =>
      apply orderly_modify; intros ?; cbn; solve_adds
  | |- orderly _ (lift _) => apply orderly_lift; [|by intros]
  | |- orderly _ (match ?x with _ => _ end) => destruct x eqn:?
  end.
Ltac orderly_auto :=
  unfold cx_push, cx_set_state, cx_settle_opt, cx_settle, cx_extend; repeat orderly_step; try done.

Section Auth.
  Context {B A : Type} `{FixedBitSetLaws B} `{Authenticator A}.

Abbreviation ST := (M (MqttState B A) StateError).
Implicit Types (s : MqttState B A) (R : gset Z).
Abbreviation quiet_any m := (quiet (λ _, True) m).

Lemma normalize_ok method properties : normalize_auth_properties method properties ≠ Panic.
Proof. unfold normalize_auth_properties. by repeat case_match. Qed.

Lemma normalize_method method properties props :
  normalize_auth_properties method properties = Ok props → auth_method props = Some method.
Proof. unfold normalize_auth_properties. repeat case_match; naive_solver. Qed.

Lemma active_method_ok self : active_method self ≠ Panic.
Proof. unfold active_method, ok_or. by case_match. Qed.

Lemma orderly_begin_connect m : orderly (λ _, True) (begin_connect m).
Proof. unfold begin_connect. orderly_auto. Qed.

Lemma orderly_fail_active r : orderly (λ _, True) (fail_active r).
Proof. unfold fail_active. orderly_auto. Qed.

Lemma orderly_reset r : orderly (λ _, True) (auth_reset r).
Proof. unfold auth_reset. apply orderly_any; [apply orderly_fail_active|intros]. orderly_auto. Qed.

Lemma orderly_reset_reauth r : orderly (λ _, True) (reset_reauth r).
Proof.
  unfold reset_reauth. apply orderly_any; [orderly_auto|intros c]. destruct (al_state _); [orderly_auto..|].
  apply orderly_any; [apply orderly_fail_active|intros]. orderly_auto.
Qed.

Lemma orderly_complete_initial : orderly (λ _, True) complete_initial_connack.
Proof. unfold complete_initial_connack. orderly_auto. Qed.

(** A re-authentication is sent with the properties of its method. *)
Lemma orderly_begin_reauth p n :
  orderly (λ a, ∃ props method, auth_properties a = Some props ∧ auth_method props = Some method)
    (begin_reauth p n).
Proof.
  unfold begin_reauth. orderly_auto; [|by edestruct normalize_ok].
  intros c. apply wp_ret. split; [|done]. cbn. eauto using normalize_method.
Qed.

Lemma validate_method_ok m p : validate_incoming_auth_method m p ≠ Panic.
Proof. unfold validate_incoming_auth_method. by repeat case_match. Qed.

Lemma incoming_success_ok self a : incoming_success self a ≠ Panic.
Proof.
  unfold incoming_success, active_method, validate_incoming_auth_method.
  destruct (al_state self); cbn; try done. by repeat case_match.
Qed.

Lemma orderly_incoming_auth a : orderly (λ _, True) (incoming_auth a).
Proof.
  unfold incoming_auth, incoming_continue.
  orderly_auto; auto using incoming_success_ok, active_method_ok, validate_method_ok.
Qed.

Lemma orderly_complete_success k m : orderly (λ _, True) (complete_success k m).
Proof. unfold complete_success. orderly_auto. Qed.

Lemma quiet_with_auth {T} (P : T → Prop) (m : M AuthCx StateError T) :
  orderly P m → quiet P (with_auth (B:=B) (A:=A) m).
Proof.
  intros Hm s. specialize (Hm {| cx_auth := auth s; cx_events := events s; cx_settled := settled s |}).
  unfold wp, with_auth in *. destruct (m _) as [[a|e|] c]; [|by split|done].
  destruct Hm. by split; [|split].
Qed.
End Auth.

(** ** Operations *)

#[export] Hint Resolve quiet_with_auth orderly_begin_connect orderly_reset orderly_reset_reauth
  orderly_complete_initial orderly_begin_reauth orderly_incoming_auth orderly_complete_success
  : quiet.

Section Operations.
  Context {B A : Type} `{FixedBitSetLaws B} `{Authenticator A}.

Abbreviation ST := (M (MqttState B A) StateError).
Implicit Types (s : MqttState B A) (R : gset Z).
Abbreviation quiet_any m := (quiet (B:=B) (A:=A) (λ _, True) m).

Lemma quiet_push o : quiet_any (push_event o).
Proof. unfold push_event. quiet_auto. Qed.
Lemma quiet_settle_opt tx r : quiet_any (settle_opt tx r).
Proof. unfold settle_opt, settle. quiet_auto. Qed.
Lemma quiet_failure kind method e : quiet_any (authenticator_failure kind method e).
Proof. unfold authenticator_failure. quiet_auto. Qed.
Hint Resolve quiet_push quiet_settle_opt quiet_failure : quiet.
Lemma quiet_fail_exchange n e : quiet_any (fail_auth_exchange n e).
Proof. unfold fail_auth_exchange. quiet_auto. Qed.
Hint Resolve quiet_fail_exchange : quiet.
Lemma quiet_fail_with {T} (P : T → Prop) e : quiet P (fail_with e : ST T).
Proof. unfold fail_with, fail_authenticator. quiet_auto. Qed.
Lemma quiet_call {T} a (f : A → (AuthError + T) * A) : quiet_any (call_authenticator a f).
Proof. unfold call_authenticator, fail_auth_exchange_due_to_authenticator_lock_poisoned. quiet_auto. Qed.
Hint Resolve quiet_fail_with quiet_call : quiet.
Lemma quiet_authenticate k m p : quiet_any (authenticate_success k m p).
Proof. unfold authenticate_success. quiet_auto. Qed.
Lemma quiet_auth_packet a : auth_properties a ≠ None → quiet_any (outgoing_auth_packet a).
Proof. intros Ha. unfold outgoing_auth_packet. destruct (auth_properties a); [|done]. quiet_auto. Qed.
Hint Resolve quiet_authenticate : quiet.

Lemma quiet_outgoing_auth a n : quiet_any (outgoing_auth a n).
Proof.
  unfold outgoing_auth. apply quiet_bind_any; [apply quiet_get|intros s].
  destruct (reauth_method _) as [m|e|] eqn:Hm; [|quiet_auto|].
  2: { exfalso. revert Hm. unfold reauth_method, ok_or. by repeat case_match. }
  apply quiet_bind_any; [quiet_auto|intros props].
  eapply quiet_bind; [eauto with quiet|]. intros a' (p & m' & Hp & _).
  apply quiet_auth_packet. by rewrite Hp.
Qed.

Lemma quiet_validate_auth a : quiet_any (validate_incoming_auth a).
Proof.
  intros s. unfold validate_incoming_auth.
  pose proof (quiet_with_auth _ _ (orderly_incoming_auth a) s) as Hw. unfold wp in *.
  destruct (with_auth (incoming_auth a) s) as [[e|e|] s']; try done.
  destruct e; try done. destruct e; try done.
  match goal with |- context [?m s'] =>
    assert (Hf : quiet (λ _, True) m) by quiet_auto; specialize (Hf s'); unfold wp in Hf;
    destruct (m s') as [[]] end; [destruct Hf; split; [done|]|..|done]; by etrans.
Qed.
Hint Resolve quiet_outgoing_auth quiet_validate_auth : quiet.

Lemma outgoing_continue_some self p a :
  outgoing_continue self p = Ok a → auth_properties a ≠ None.
Proof.
  unfold outgoing_continue. destruct (active_method self); cbn; [|done..].
  destruct (normalize_auth_properties _ _); cbn; [|done..]. by intros [= <-].
Qed.
Lemma outgoing_continue_ok self p : outgoing_continue self p ≠ Panic.
Proof.
  unfold outgoing_continue. destruct (active_method self) as [m| |] eqn:Hm; cbn; try done.
  - destruct (normalize_auth_properties m p) eqn:Hn; try done. by apply normalize_ok in Hn.
  - by apply active_method_ok in Hm.
Qed.

(** The answer to a challenge, which is sent on. *)
Lemma quiet_answer p :
  quiet_any (s ← mget; client_auth ← lift (outgoing_continue (auth s) p);
             packet ← outgoing_auth_packet client_auth; mret (Some packet)).
Proof.
  intros s. apply wp_bind, wp_get, wp_bind, wp_lift.
  destruct (outgoing_continue _ _) as [a| |] eqn:Ha; [|done|by apply outgoing_continue_ok in Ha].
  apply outgoing_continue_some in Ha. revert s.
  match goal with |- ∀ s, wp ?m _ _ s => change (quiet_any m) end.
  apply quiet_bind_any; [by apply quiet_auth_packet|]. quiet_auto.
Qed.
Hint Resolve quiet_answer : quiet.

Lemma quiet_incoming_auth a : quiet_any (handle_incoming_auth a).
Proof. unfold handle_incoming_auth. quiet_auto. Qed.

Lemma quiet_disconnect d : quiet_any (outgoing_disconnect d).
Proof. unfold outgoing_disconnect, fail_auth_exchange_due_to_client_disconnect. quiet_auto. Qed.
Lemma quiet_ping : quiet_any outgoing_ping.
Proof. unfold outgoing_ping. quiet_auto. Qed.
Lemma quiet_disconn p : quiet_any (handle_incoming_disconn p).
Proof. unfold handle_incoming_disconn. quiet_auto. Qed.
Lemma quiet_pingresp : quiet_any handle_incoming_pingresp.
Proof. unfold handle_incoming_pingresp. quiet_auto. Qed.
Lemma quiet_record_alias a p : quiet_any (record_alias_of a p).
Proof. unfold record_alias_of. quiet_auto. Qed.
Lemma quiet_resolve p :
  quiet (B:=B) (A:=A) (λ r, ∀ p', r = Some p' → pub_pkid p' = pub_pkid p) (resolve_incoming_alias p).
Proof.
  unfold resolve_incoming_alias. quiet_auto; try by intros ? [= <-].
  intros p'. case_match; [|by intros [= <-]]. by intros (t & _ & ->)%fmap_Some.
Qed.
End Operations.

#[export] Hint Resolve quiet_push quiet_settle_opt quiet_failure quiet_fail_exchange quiet_fail_with
  quiet_call quiet_authenticate quiet_outgoing_auth quiet_validate_auth quiet_answer
  quiet_incoming_auth quiet_disconnect quiet_ping quiet_disconn quiet_pingresp quiet_record_alias
  quiet_resolve : quiet.
