(* ===== verification/V5Handlers.v ===== *)
(** Every handler of the MQTT 5 session state preserves its invariant and cannot panic. *)

From Stdlib Require Import String.
From S2P Require Import Prelude.
From S2P Require Import Utf8.
From S2P Require Import Primitives.
From S2P Require Import FixedBitSet.
From S2P Require Import PacketIds.
From S2P Require Import V5Base.
From S2P Require Import V5Properties.
From S2P Require Import V5Acks.
From S2P Require Import V5SubAck.
From S2P Require Import V5Subscribe.
From S2P Require Import V5Publish.
From S2P Require Import V5ConnAck.
From S2P Require Import V5Disconnect.
From S2P Require Import V5Auth.
From S2P Require Import V5Packet.
From S2P Require Import V5Persist.
From S2P Require Import V5SessionTypes.
From S2P Require Import V5AuthLifecycle.
From S2P Require Import V5TopicAlias.
From S2P Require Import V5StateRecord.
From S2P Require Import V5State.
From S2P Require Import V5Incoming.
From S2P Require Import V5Clean.
From S2P Require Import V5Frame.
From S2P Require Import V5Invariant.
#[local] Open Scope Z_scope.


Section Handlers.
  Context {B A : Type} `{FixedBitSetLaws B} `{Authenticator A}.

Abbreviation ST := (M (MqttState B A) StateError).
Implicit Types (s : MqttState B A) (R : gset Z).

(** [s] with other identifiers in use. *)
Abbreviation reserving s in_use count :=
  (set_outbound_pkid_count count (set_outbound_pkid_in_use in_use s)).

Lemma reserving5_same s : reserving s (outbound_pkid_in_use s) (outbound_pkid_count s) = s.
Proof. by destruct s. Qed.

(** ** Identifiers of the lists *)

Lemma live5_pub_snoc R s k :
  live_ids R (set_outgoing_pub_order (outgoing_pub_order s ++ [k]) s) ≡ₚ k :: live_ids R s.
Proof. unfold live_of. fields. solve_Permutation. Qed.

(** [s] without the publish [k]. *)
Abbreviation without_pub s k :=
  (set_outgoing_pub_order (remove_ordered_pkid (outgoing_pub_order s) k)
    (set_outgoing_pub (vset (outgoing_pub s) k None) s)).

Lemma live5_pub_remove R s k :
  k ∈ outgoing_pub_order s → live_ids R s ≡ₚ k :: live_ids R (without_pub s k).
Proof. intros Hk. unfold live_of. fields. by rewrite (remove_ordered_perm _ k Hk) at 1. Qed.

(** [s] without the release [k]. *)
Abbreviation without_rel s k :=
  (set_outgoing_rel_order (remove_ordered_pkid (outgoing_rel_order s) k)
    (set_outgoing_rel (put_bit (outgoing_rel s) k false) s)).

Lemma live5_rel_remove R s k :
  k ∈ outgoing_rel_order s → live_ids R s ≡ₚ k :: live_ids R (without_rel s k).
Proof.
  intros Hk. unfold live_of. fields. rewrite (remove_ordered_perm _ k Hk) at 1. solve_Permutation.
Qed.

Lemma live5_replay_remove R s k :
  k ∈ outgoing_rel_replay_order s →
  live_ids R s ≡ₚ
  k :: live_ids R
    (set_outgoing_rel_replay_order (remove_ordered_pkid (outgoing_rel_replay_order s) k) s).
Proof.
  intros Hk. unfold live_of. fields. rewrite (remove_ordered_perm _ k Hk) at 1. solve_Permutation.
Qed.

Lemma live5_reserved_remove R s k : k ∈ R → live_ids R s ≡ₚ k :: live_ids (R ∖ {[k]}) s.
Proof. intros Hk. unfold live_of. rewrite (elements_remove R k Hk). solve_Permutation. Qed.

Lemma live5_sub_delete R s k x :
  pending_subscribe s !! k = Some x →
  live_ids R s ≡ₚ k :: live_ids R (set_pending_subscribe (delete k (pending_subscribe s)) s).
Proof. intros Hk. unfold live_of. fields. rewrite (keys_delete _ k x Hk). solve_Permutation. Qed.

Lemma live5_unsub_delete R s k x :
  pending_unsubscribe s !! k = Some x →
  live_ids R s ≡ₚ k :: live_ids R (set_pending_unsubscribe (delete k (pending_unsubscribe s)) s).
Proof. intros Hk. unfold live_of. fields. rewrite (keys_delete _ k x Hk). solve_Permutation. Qed.

(** An identifier taken out of the lists is in none of them. *)
Lemma inv5_fresh R R' s s1 k : inv R s → live_ids R s ≡ₚ k :: live_ids R' s1 → k ∉ live_ids R' s1.
Proof.
  intros I Hp. pose proof (ids_nodup _ _ _ (inv_ids _ _ I)) as Hnd. rewrite Hp in Hnd.
  by apply NoDup_cons in Hnd as [? _].
Qed.

(** Only flows that are under way hold quota. *)
Lemma inv5_no_quota R s k :
  inv R s → k ∉ outgoing_pub_order s → k ∉ outgoing_rel_order s →
  contains (outgoing_publish_quota s) k = false.
Proof.
  intros I Hp Hr. destruct (contains _ k) eqn:Hc; [|done].
  apply (quota_owner _ _ _ _ _ _ (inv_quota _ _ I)) in Hc. tauto.
Qed.

(** ** Quotas *)

(** [s] with another quota. *)
Abbreviation holding s quota n := (set_inflight n (set_outgoing_publish_quota quota s)).

Lemma wp5_acquire k (Q : unit → _ → Prop) X s :
  counted (outgoing_publish_quota s) (inflight s) → is_u16 k → inflight s < u16_MAX →
  contains (outgoing_publish_quota s) k = false →
  (∀ quota, counted quota (inflight s + 1) →
     (∀ j, contains quota j = true ↔ j = k ∨ contains (outgoing_publish_quota s) j = true) →
     Q tt (holding s quota (inflight s + 1))) →
  wp (acquire_outgoing_publish_quota k) Q X s.
Proof.
  intros Hc Hk Hn Hf HQ. unfold acquire_outgoing_publish_quota. apply wp_bind, wp_get.
  assert (Hr : 0 ≤ k < bits_len (outgoing_publish_quota s)).
  { rewrite (counted_len _ _ Hc). unfold is_u16, full_packet_identifier_len, u16_MAX in *. lia. }
  rewrite Hf. cbn [negb]. unfold insert_bit. apply wp_set_bit; [done|].
  apply wp_bind, wp_modify. rewrite (proj2 (Z.ltb_ge _ _)) by lia.
  apply wp_modify, HQ; [by apply counted_insert|]. intros j. rewrite contains_put_bit by done.
  destruct (Z.eqb_spec k j); naive_solver.
Qed.

(** The quota of [k], if it holds any, is given back. *)
Lemma wp5_release_quota k (Q : unit → _ → Prop) X s :
  counted (outgoing_publish_quota s) (inflight s) →
  (∀ quota n, counted quota n → n ≤ inflight s →
     (contains (outgoing_publish_quota s) k = true → n < inflight s) →
     (∀ j, contains quota j = true ↔ j ≠ k ∧ contains (outgoing_publish_quota s) j = true) →
     Q tt (holding s quota n)) →
  wp (release_outgoing_publish_quota k) Q X s.
Proof.
  intros Hc HQ. unfold release_outgoing_publish_quota. apply wp_bind, wp_get.
  destruct (contains (outgoing_publish_quota s) k) eqn:Hk.
  - pose proof (contains_range _ _ Hk) as Hr. apply wp_set_bit; [done|]. apply wp_bind, wp_modify.
    destruct (counted_remove _ _ _ Hc Hk) as [Hn Hc']. rewrite (proj2 (Z.ltb_ge _ _)) by lia.
    apply wp_modify, HQ; [done|lia|lia|]. intros j. rewrite contains_put_bit by done.
    destruct (Z.eqb_spec k j); naive_solver.
  - apply wp_ret. specialize (HQ (outgoing_publish_quota s) (inflight s)).
    replace (holding s (outgoing_publish_quota s) (inflight s)) with s in HQ by (by destruct s).
    apply HQ; [done|lia|done|]. intros j. split; [|tauto]. intros Hj. split; [congruence|done].
Qed.

(** ** Tracking a publish *)

Lemma tracking_ok t p k : publish_ok k p → publish_ok k (publish_for_replay_tracking t p).
Proof. unfold publish_for_replay_tracking. by repeat case_match. Qed.

(** The identifier of the publish has just been taken for it. *)
Lemma wp5_track R R' s in_use count k p notice (Q : unit → _ → Prop) X :
  inv R s → ids_ok (k :: live_ids R' s) in_use count → publish_ok k p →
  k < blen (outgoing_pub s) → inflight s < max_outgoing_inflight s →
  (∀ s', inv R' s' → Q tt s') →
  wp (track_publish k p notice) Q X (reserving s in_use count).
Proof.
  intros I Hids Hp Hlen Hinf HQ.
  assert (Hk := ids_range _ _ _ Hids k ltac:(set_solver)).
  assert (Hfresh : k ∉ live_ids R' s) by (by apply ids_nodup, NoDup_cons in Hids as [? _]).
  pose proof (not_live5 _ _ _ Hfresh) as (Hnp & Hnr & _).
  destruct (inv_lens _ _ I) as [Hl1 Hl2 Hl3 Hl4 Hl5]. destruct (inv_limits _ _ I) as [Hu Hm _ _].
  destruct (inv_quota _ _ I) as [Hc _ Hqp Hqo Hqh].
  unfold track_publish. apply wp_bind, wp_get. fields. apply wp_assign; [lia|].
  apply wp_bind, wp_modify, wp_bind, wp_modify, wp_bind, wp_get. fields.
  apply wp_assign; [lia|]. apply wp_bind, wp_modify.
  apply wp5_acquire; fields; [done|unfold is_u16, u16_MAX in *; lia|lia|by eapply inv5_no_quota|].
  intros quota Hq Hbit. apply HQ.
  inv5_frame I.
  - split; rewrite ?blen_vset; done.
  - apply slots_ok_put; try done; try lia; [apply I|]. by apply (inv5_slot_none R s I); [lia|].
  - rewrite (live5_pub_snoc R' s k). done.
  - split; [done|lia|..].
    + intros j. rewrite elem_of_app, list_elem_of_singleton, Hbit. naive_solver.
    + intros j. rewrite elem_of_app, list_elem_of_singleton, Hbit. naive_solver.
    + intros q Hcol. rewrite Hbit. naive_solver.
Qed.

(** ** The end of a publish flow *)

Lemma wp5_expect_ok {T} (m : ST T) Q X s : wp m Q (λ _ _, False) s → wp (expect_ok m) Q X s.
Proof. unfold wp, expect_ok. by destruct (m s) as [[] ?]. Qed.

Lemma wp5_quiet_bind {T U} R (P : T → Prop) (m : ST T) (c : T → ST U) Q (X : StateError → _ → Prop) s :
  quiet P m → inv R s →
  (∀ a s', P a → inv R s' → calm s s' → wp (c a) Q X s') → (∀ e s', inv R s' → X e s') →
  wp (m ≫= c) Q X s.
Proof.
  intros Hm I Hc HX. apply wp_bind. eapply wp_mono; [by apply (wp_quiet R)|..].
  - intros a s' (Ha & I' & Hq). by apply Hc.
  - intros e s' [I' _]. by apply HX.
Qed.

(** A publish held back in [s] because of a flow other than [k] stays so; one held back because of
    [k] can now be sent. *)
Definition held_until s (k : Z) : Prop :=
  ∀ p, collision s = Some p → pub_qos p ≠ AtMostOnce ∧
    if decide (pub_pkid p = k) then inflight s < max_outgoing_inflight s
    else contains (outgoing_publish_quota s) (pub_pkid p) = true.

Lemma wp5_replay_collision R k s (Q : option Packet → _ → Prop) X :
  inv R (set_collision None s) → 1 ≤ k ≤ u16_MAX → k ∉ live_ids R s → held_until s k →
  (∀ packet s', inv R s' → Q packet s') →
  wp (replay_collision_publish k) Q X s.
Proof.
  intros I Hk Hfresh Hheld HQ. unfold replay_collision_publish, check_collision.
  apply wp_bind, wp_bind, wp_get.
  assert (Hsame : (∀ p, collision s = Some p → pub_pkid p ≠ k) → inv R s).
  { intros Hne. destruct (inv_quota _ _ I) as [Hc Hm Hqp Hqo _]. fields. inv5_frame I.
    split; try done. intros p Hp. destruct (Hheld p Hp) as [Hq Hd].
    rewrite decide_False in Hd by (by apply Hne). done. }
  destruct (collision s) as [p|] eqn:Hcol; [|by apply wp_ret, wp_ret, HQ, Hsame].
  destruct (Z.eqb_spec (pub_pkid p) k) as [Hpk|Hne].
  2: { apply wp_ret, wp_ret, HQ, Hsame. by intros ? [= <-]. }
  destruct (Hheld p Hcol) as [Hq Hinf]. rewrite decide_True in Hinf by done.
  apply wp_bind, wp_modify, wp_bind, wp_modify, wp_ret, wp_bind, wp_get.
  apply wp_bind, (wp5_ensure R).
  { apply (inv5_core R (set_collision None s)); [done|]. unfold core, session_of. by fields. }
  { unfold full_packet_identifier_len. lia. }
  intros s3 I3 Hs3 Hlen. rewrite Hpk in *.
  assert (Hids : live_ids R s3 = live_ids R s).
  { unfold session_of, live_of in *. fields. congruence. }
  assert (Hlim : inflight s3 < max_outgoing_inflight s3).
  { unfold session_of in Hs3. fields. congruence. }
  apply wp_bind, wp5_expect_ok, (wp5_reserve (live_ids R s3)); [apply I3|lia|..].
  { rewrite Hids. intros [?|?]; [lia|done]. }
  intros in_use count _ _ Hids'. apply wp_bind.
  eapply (wp5_track R R); try done; [by apply tracking_ok|lia|].
  intros s4 I4. apply wp_bind, wp_modify, wp_bind, wp_modify, wp_bind, wp_modify, wp_ret, HQ.
  by apply (inv5_core R s4).
Qed.

Lemma wp5_finish_publish R k s notice result (Q : IncomingPacketEffects → _ → Prop) X :
  inv R (set_collision None s) → 1 ≤ k ≤ u16_MAX → k ∉ live_ids R s → held_until s k →
  (∀ eff s', inv R s' → Q eff s') →
  wp (finish_publish k notice result) Q X s.
Proof.
  intros I Hk Hfresh Hheld HQ. unfold finish_publish.
  apply wp_bind, (wp5_replay_collision R); [done..|]. intros packet s' I'. apply wp_bind.
  destruct packet; cbn [is_none]; [by apply wp_ret, wp_ret, HQ|].
  apply (wp5_shrink R); [done|]. intros s'' I'' _. by apply wp_ret, HQ.
Qed.

(** What is true of the quota when the flow of [k] has left the lists. *)
Record leaving (k : Z) s : Prop := {
  leaving_count : counted (outgoing_publish_quota s) (inflight s);
  leaving_max : inflight s ≤ max_outgoing_inflight s;
  leaving_pub j : j ∈ outgoing_pub_order s → contains (outgoing_publish_quota s) j = true;
  leaving_owner j : contains (outgoing_publish_quota s) j = true →
    j = k ∨ j ∈ outgoing_pub_order s ∨ j ∈ outgoing_rel_order s;
  leaving_held p : collision s = Some p →
    contains (outgoing_publish_quota s) (pub_pkid p) = true ∧ pub_qos p ≠ AtMostOnce;
}.

Lemma wp5_end_flow R k s notice result (Q : IncomingPacketEffects → _ → Prop) X :
  (∀ quota n, quota_ok (outgoing_pub_order s) (outgoing_rel_order s) quota n
                (max_outgoing_inflight s) None → inv R (set_collision None (holding s quota n))) →
  leaving k s → 1 ≤ k ≤ u16_MAX → k ∉ live_ids R s →
  (∀ eff s', inv R s' → Q eff s') →
  wp (release_outgoing_publish_quota k;; finish_publish k notice result) Q X s.
Proof.
  intros I [Hc Hm Hp Ho Hh] Hk Hfresh HQ.
  pose proof (not_live5 _ _ _ Hfresh) as (Hnp & Hnr & _).
  apply wp_bind, wp5_release_quota; [done|]. intros quota n Hq Hle Hlt Hbit.
  apply (wp5_finish_publish R); [|done|done| |done].
  - apply I. split; [done|lia|..|done].
    + intros j Hj. apply Hbit. split; [by intros ->|by apply Hp].
    + intros j [Hne Hj]%Hbit. apply Ho in Hj. tauto.
  - intros p Hcol. fields. destruct (Hh p Hcol) as [Hq' Hqos]. split; [done|].
    case_decide as Hd; [|by apply Hbit]. rewrite Hd in Hq'. apply Hlt in Hq'. lia.
Qed.

(** ** Acknowledgements of publishes *)

Lemma wp5_take_publish R s k (Q : unit → _ → Prop) (X : StateError → _ → Prop) :
  inv R s → is_u16 k → (∀ e, X e s) → (k ∈ outgoing_pub_order s → Q tt (without_pub s k)) →
  wp (take_publish k) Q X s.
Proof.
  intros I [Hk0 _] HX HQ. unfold take_publish. apply wp_bind, wp_get, wp_bind, wp_lift.
  destruct (vget (outgoing_pub s) k) as [[p|]|] eqn:Hs; cbn [ok_or]; [..|done].
  - apply wp_bind, wp_modify. cbn [is_none]. apply wp_modify, HQ.
    by apply (inv5_slot_some R s I k p).
  - apply wp_bind, wp_modify. cbn [is_none]. apply wp_fail. rewrite (vset_id _ _ _ Hs).
    by replace (set_outgoing_pub (outgoing_pub s) s) with s by (by destruct s).
Qed.

Lemma wp5_take_pub_notice {T} s k (c : option nat → ST T) Q X :
  0 ≤ k < blen (outgoing_pub_notice s) →
  (∀ notice, wp (c notice) Q X
     (set_outgoing_pub_notice (vset (outgoing_pub_notice s) k None) s)) →
  wp (take_pub_notice k ≫= c) Q X s.
Proof.
  intros Hk HQ. apply wp_bind. unfold take_pub_notice. apply wp_bind, wp_get.
  apply wp_index; [done|]. intros notice Hn. apply wp_bind, wp_modify, wp_ret. by apply HQ.
Qed.

Lemma wp5_take_rel_notice {T} s k (c : option nat → ST T) Q X :
  0 ≤ k < blen (outgoing_rel_notice s) →
  (∀ notice, wp (c notice) Q X
     (set_outgoing_rel_notice (vset (outgoing_rel_notice s) k None) s)) →
  wp (take_rel_notice k ≫= c) Q X s.
Proof.
  intros Hk HQ. apply wp_bind. unfold take_rel_notice. apply wp_bind, wp_get.
  apply wp_index; [done|]. intros notice Hn. apply wp_bind, wp_modify, wp_ret. by apply HQ.
Qed.

(** The publish [k] of [s] has left the lists and its identifier is free. *)
Lemma wp5_end_publish R s k notices in_use count notice result
    (Q : IncomingPacketEffects → _ → Prop) X :
  inv R s → k ∈ outgoing_pub_order s → blen notices = blen (outgoing_pub s) →
  ids_ok (live_ids R (without_pub s k)) in_use count →
  (∀ eff s', inv R s' → Q eff s') →
  wp (release_outgoing_publish_quota k;; finish_publish k notice result) Q X
    (set_outgoing_pub_notice notices (reserving (without_pub s k) in_use count)).
Proof.
  intros I Hk Hn Hids HQ. destruct (inv5_pub_range R s I k Hk) as [Hk1 Hlen].
  destruct (inv5_orders_nodup R s I) as (Hnd & _).
  assert (Hfresh : k ∉ live_ids R (without_pub s k)).
  { apply (inv5_fresh R R s); [done|]. by apply live5_pub_remove. }
  destruct (inv_quota _ _ I) as [Hc Hm Hqp Hqo Hqh].
  apply (wp5_end_flow R); [| |done|done|done].
  - intros quota n Hq. reduced Hq. inv5_frame I; try done.
    + destruct (inv_lens _ _ I) as [Hl1 Hl2 Hl3 Hl4 Hl5]. split; rewrite ?blen_vset; done.
    + apply slots_ok_take; [apply I|done..].
  - split; fields; try done.
    + intros j. rewrite remove_ordered_elem by done. intros [? _]. by apply Hqp.
    + intros j Hj. rewrite remove_ordered_elem by done. apply Hqo in Hj. destruct (decide (j = k)); tauto.
Qed.

Lemma wp5_incoming_puback R s ack (Q : IncomingPacketEffects → _ → Prop) (X : StateError → _ → Prop) :
  inv R s → is_u16 (ack_pkid ack) →
  (∀ eff s', inv R s' → Q eff s') → (∀ e, X e s) →
  wp (handle_incoming_puback ack) Q X s.
Proof.
  intros I Hk16 HQ HX. set (k := ack_pkid ack) in *. unfold handle_incoming_puback. fold k.
  apply wp_bind, (wp5_take_publish R); [done..|]. intros Hk.
  destruct (inv5_pub_range R s I k Hk) as [Hk1 Hlen].
  apply wp_bind, (wp5_release (live_ids R (without_pub s k))).
  { fields. pose proof (inv_ids _ _ I) as Hi. rewrite (live5_pub_remove R s k Hk) in Hi. exact Hi. }
  intros in_use count Hids. pose proof (len_pub_notice _ _ _ _ _ (inv_lens _ _ I)) as Hl.
  apply wp5_take_pub_notice; [fields; lia|]. intros notice.
  apply (wp5_end_publish R); try done. fields. by rewrite blen_vset.
Qed.

(** PUBREC moves the identifier, with its quota, from the publishes to the releases. *)
Lemma inv5_recorded R s k pubn reln v :
  inv R s → k ∈ outgoing_pub_order s →
  blen pubn = blen (outgoing_pub s) → blen reln = blen (outgoing_pub s) →
  inv R (set_events v (set_outgoing_rel_notice reln
    (set_outgoing_rel_order (outgoing_rel_order s ++ [k])
    (set_outgoing_rel (put_bit (outgoing_rel s) k true)
    (set_outgoing_pub_notice pubn (without_pub s k)))))).
Proof.
  intros I Hk Hpn Hrn. destruct (inv5_pub_range R s I k Hk) as [Hk1 Hlen].
  destruct (inv5_orders_nodup R s I) as (Hnd & _).
  destruct (inv_lens _ _ I) as [Hl1 Hl2 Hl3 Hl4 Hl5].
  destruct (inv_quota _ _ I) as [Hc Hm Hqp Hqo Hqh]. inv5_frame I.
  - split; rewrite ?blen_vset, ?len_put_bit; done.
  - apply slots_ok_take; [apply I|done..].
  - apply bits_ok_insert; [apply I|lia].
  - pose proof (inv_ids _ _ I) as Hi. rewrite (live5_pub_remove R s k Hk) in Hi. fields.
    unfold live_of in *. eapply ids_ok_proper; [|done|done|exact Hi]. solve_Permutation.
  - split; try done.
    + intros j. rewrite remove_ordered_elem by done. intros [? _]. by apply Hqp.
    + intros j Hj%Hqo. rewrite remove_ordered_elem, elem_of_app, list_elem_of_singleton by done.
      destruct (decide (j = k)); tauto.
Qed.

Lemma wp5_incoming_pubrec R s ack (Q : IncomingPacketEffects → _ → Prop) (X : StateError → _ → Prop) :
  inv R s → is_u16 (ack_pkid ack) →
  (∀ eff s', inv R s' → Q eff s') → (∀ e, X e s) →
  wp (handle_incoming_pubrec ack) Q X s.
Proof.
  intros I Hk16 HQ HX. set (k := ack_pkid ack) in *. unfold handle_incoming_pubrec. fold k.
  apply wp_bind, (wp5_take_publish R); [done..|]. intros Hk.
  destruct (inv5_pub_range R s I k Hk) as [Hk1 Hlen].
  destruct (inv_lens _ _ I) as [Hl1 Hl2 Hl3 Hl4 Hl5].
  apply wp5_take_pub_notice; [fields; lia|]. intros notice.
  destruct (0x80 <=? PubRecReason_code (ack_reason ack)).
  - apply wp_bind, (wp5_release (live_ids R (without_pub s k))).
    { fields. pose proof (inv_ids _ _ I) as Hi. rewrite (live5_pub_remove R s k Hk) in Hi. exact Hi. }
    intros in_use count Hids.
    apply (wp5_end_publish R s k (vset (outgoing_pub_notice s) k None) in_use count); try done.
    by rewrite blen_vset.
  - apply wp_bind, wp_get. unfold insert_bit. apply wp_set_bit; [fields; lia|].
    apply wp_bind, wp_modify, wp_bind, wp_modify, wp_bind, wp_get.
    apply wp_assign; [fields; lia|]. apply wp_bind, wp_modify, wp_bind, wp_modify, wp_ret, HQ.
    apply (inv5_recorded R s k (vset (outgoing_pub_notice s) k None)
      (vset (outgoing_rel_notice s) k notice)); try done; by rewrite blen_vset.
Qed.

Lemma wp5_end_release R s k notices recovery in_use count notice result
    (Q : IncomingPacketEffects → _ → Prop) X :
  inv R s → k ∈ outgoing_rel_order s → blen notices = blen (outgoing_pub s) →
  ids_ok (live_ids R (without_rel s k)) in_use count →
  (∀ eff s', inv R s' → Q eff s') →
  wp (release_outgoing_publish_quota k;; finish_publish k notice result) Q X
    (reserving (set_outgoing_rel_notice notices (set_outgoing_rel_recovery recovery (without_rel s k)))
      in_use count).
Proof.
  intros I Hk Hn Hids HQ. destruct (inv5_rel_range R s I k Hk) as [Hk1 Hlen].
  destruct (inv5_orders_nodup R s I) as (_ & Hnd & _ & Hdisj).
  assert (Hfresh : k ∉ live_ids R (without_rel s k)).
  { apply (inv5_fresh R R s); [done|]. by apply live5_rel_remove. }
  destruct (inv_quota _ _ I) as [Hc Hm Hqp Hqo Hqh].
  apply (wp5_end_flow R); [| |done|done|done].
  - intros quota n Hq. reduced Hq. inv5_frame I; try done.
    + destruct (inv_lens _ _ I) as [Hl1 Hl2 Hl3 Hl4 Hl5]. split; rewrite ?len_put_bit; done.
    + apply bits_ok_remove; [apply I|done..].
  - split; fields; try done.
    intros j Hj. rewrite remove_ordered_elem by done. apply Hqo in Hj. destruct (decide (j = k)); tauto.
Qed.

Lemma wp5_incoming_pubcomp R s ack (Q : IncomingPacketEffects → _ → Prop) (X : StateError → _ → Prop) :
  inv R s → is_u16 (ack_pkid ack) →
  (∀ eff s', inv R s' → Q eff s') → (∀ e, X e s) →
  wp (handle_incoming_pubcomp ack) Q X s.
Proof.
  intros I Hk16 HQ HX. set (k := ack_pkid ack) in *. unfold handle_incoming_pubcomp. fold k.
  apply wp_bind, wp_get. pose proof (inv_rel _ _ I k) as Hrk.
  destruct (contains (outgoing_rel s) k) eqn:Hc; cbn [negb]; [|apply wp_fail, HX].
  assert (Hk : k ∈ outgoing_rel_order s) by (by apply Hrk).
  destruct (inv5_rel_range R s I k Hk) as [Hk1 Hlen].
  destruct (inv_lens _ _ I) as [Hl1 Hl2 Hl3 Hl4 Hl5].
  apply wp_set_bit; [lia|]. apply wp_bind, wp_modify.
  set (result := if _ && _ then Qos2Recovered ack else Qos2Completed ack).
  assert (Hnext : ∀ recovery,
    wp (mmodify (λ s, set_outgoing_rel_order (remove_ordered_pkid (outgoing_rel_order s) k) s);;
        mmodify (λ s, if no_entries (outgoing_rel_order s)
                      then set_outgoing_rel_recovery (with_capacity 0) s else s);;
        notice ← take_rel_notice k; release_outbound_pkid k;; release_outgoing_publish_quota k;;
        finish_publish k notice result) Q X
      (set_outgoing_rel_recovery recovery
        (set_outgoing_rel (put_bit (outgoing_rel s) k false) s))).
  { intros recovery. apply wp_bind, wp_modify, wp_bind, wp_modify.
    set (recovery' := if no_entries (remove_ordered_pkid (outgoing_rel_order s) k)
                      then with_capacity 0 else recovery).
    replace (if no_entries _ then _ else _)
      with (set_outgoing_rel_recovery recovery' (without_rel s k))
      by (unfold recovery'; fields; by destruct (no_entries _)).
    apply wp5_take_rel_notice; [fields; lia|]. intros notice.
    apply wp_bind, (wp5_release (live_ids R (without_rel s k))).
    { fields. pose proof (inv_ids _ _ I) as Hi. rewrite (live5_rel_remove R s k Hk) in Hi. exact Hi. }
    intros in_use count Hids.
    apply (wp5_end_release R s k (vset (outgoing_rel_notice s) k None) recovery'); try done.
    by rewrite blen_vset. }
  destruct (contains (outgoing_rel_recovery s) k) eqn:Hrec.
  - apply wp_bind, wp_set_bit; [by apply contains_range|]. apply wp_modify, Hnext.
  - apply wp_bind, wp_ret. specialize (Hnext (outgoing_rel_recovery s)).
    replace (set_outgoing_rel_recovery (outgoing_rel_recovery s) _)
      with (set_outgoing_rel (put_bit (outgoing_rel s) k false) s) in Hnext by (by destruct s).
    exact Hnext.
Qed.

(** ** Acknowledgements of subscriptions *)

Lemma wp5_incoming_suback R s ack (Q : IncomingPacketEffects → _ → Prop) (X : StateError → _ → Prop) :
  inv R s → (∀ eff s', inv R s' → Q eff s') → (∀ e, X e s) →
  wp (handle_incoming_suback ack) Q X s.
Proof.
  intros I HQ HX. unfold handle_incoming_suback. set (k := codes_pkid ack). apply wp_bind, wp_get.
  destruct (pending_subscribe s !! k) as [p|] eqn:Hp; [|apply wp_fail, HX].
  destruct (negb _); [apply wp_fail, HX|]. apply wp_bind, wp_modify.
  apply wp_bind, (wp5_release (live_ids R
    (set_pending_subscribe (delete k (pending_subscribe s)) s))).
  { fields. pose proof (inv_ids _ _ I) as Hi. rewrite (live5_sub_delete R s k p Hp) in Hi. exact Hi. }
  intros in_use count Hids. reduced Hids. apply wp_ret, HQ. inv5_frame I; [done|].
  intros j q [_ Hj]%lookup_delete_Some. by apply (inv_sub _ _ I).
Qed.

Lemma wp5_incoming_unsuback R s ack (Q : IncomingPacketEffects → _ → Prop) (X : StateError → _ → Prop) :
  inv R s → (∀ eff s', inv R s' → Q eff s') → (∀ e, X e s) →
  wp (handle_incoming_unsuback ack) Q X s.
Proof.
  intros I HQ HX. unfold handle_incoming_unsuback. set (k := codes_pkid ack). apply wp_bind, wp_get.
  destruct (pending_unsubscribe s !! k) as [p|] eqn:Hp; [|apply wp_fail, HX].
  destruct (negb _); [apply wp_fail, HX|]. apply wp_bind, wp_modify.
  apply wp_bind, (wp5_release (live_ids R
    (set_pending_unsubscribe (delete k (pending_unsubscribe s)) s))).
  { fields. pose proof (inv_ids _ _ I) as Hi. rewrite (live5_unsub_delete R s k p Hp) in Hi. exact Hi. }
  intros in_use count Hids. reduced Hids. apply wp_ret, HQ. inv5_frame I; [done|].
  intros j q [_ Hj]%lookup_delete_Some. by apply (inv_unsub _ _ I).
Qed.

(** ** The receiving side *)

Lemma inv5_push R s v : inv R s → inv R (set_events v s).
Proof. intros I. by apply (inv5_core R s). Qed.

Lemma wp5_outgoing_puback R s ack (Q : Packet → _ → Prop) (X : StateError → _ → Prop) :
  inv R s → (∀ packet s', inv R s' → Q packet s') → (∀ e, X e s) →
  wp (outgoing_puback ack) Q X s.
Proof.
  intros I HQ HX. unfold outgoing_puback. apply wp_bind, wp_get.
  destruct (contains (incoming_puback s) _) eqn:Hc; cbn [negb]; [|apply wp_fail, HX].
  apply wp_set_bit; [by apply contains_range|]. apply wp_bind, wp_modify, wp_bind.
  apply (wp5_release_incoming R).
  { inv5_frame I. apply incoming_ok_puback, I. }
  intros s' I'. apply wp_bind, wp_modify, wp_ret, HQ. by apply inv5_push.
Qed.

Lemma wp5_outgoing_pubrec R s ack dup (Q : Packet → _ → Prop) (X : StateError → _ → Prop) :
  inv R s → is_u16 (ack_pkid ack) → (∀ packet s', inv R s' → Q packet s') → (∀ e, X e s) →
  wp (outgoing_pubrec_internal ack dup) Q X s.
Proof.
  intros I Hk HQ HX. unfold outgoing_pubrec_internal. apply wp_bind, wp_get.
  destruct (inv_incoming _ _ I) as [Hl1 Hl2 Hl3 _].
  assert (Hr : 0 ≤ ack_pkid ack < full_packet_identifier_len)
    by (unfold is_u16, full_packet_identifier_len, u16_MAX in *; lia).
  destruct (contains (incoming_pub s) _) eqn:Hc; cbn [negb]; [|apply wp_fail, HX].
  destruct (contains (incoming_pubrec s) _).
  { destruct dup; [|apply wp_fail, HX]. apply wp_bind, wp_modify, wp_ret, HQ. by apply inv5_push. }
  apply wp_bind. destruct (0x80 <=? _).
  - apply wp_set_bit; [lia|]. apply wp_bind, wp_modify. apply wp_set_bit; [lia|].
    apply wp_bind, wp_modify, (wp5_release_incoming R).
    { inv5_frame I. apply incoming_ok_pubrel; [apply I|done]. }
    intros s' I'. apply wp_bind, wp_modify, wp_ret, HQ. by apply inv5_push.
  - unfold insert_bit. apply wp_set_bit; [lia|]. apply wp_modify, wp_bind, wp_modify, wp_ret, HQ.
    apply inv5_push. inv5_frame I. apply incoming_ok_pubrec; [apply I|done..].
Qed.

Lemma wp5_acknowledge R s p (Q : option Packet → _ → Prop) (X : StateError → _ → Prop) :
  inv R s → is_u16 (pub_pkid p) → (∀ packet s', inv R s' → Q packet s') →
  (∀ e s', inv R s' → X e s') → wp (acknowledge_publish p) Q X s.
Proof.
  intros I Hk HQ HX. destruct (inv_incoming _ _ I) as [Hl1 Hl2 Hl3 _].
  assert (Hr : 0 ≤ pub_pkid p < full_packet_identifier_len)
    by (unfold is_u16, full_packet_identifier_len, u16_MAX in *; lia).
  unfold acknowledge_publish. destruct (pub_qos p); [by apply wp_ret, HQ|..];
    (apply wp_bind, wp_get; unfold insert_bit; apply wp_set_bit; [lia|]; apply wp_bind, wp_modify).
  - assert (I1 : inv R (set_incoming_puback (put_bit (incoming_puback s) (pub_pkid p) true) s)).
    { inv5_frame I. apply incoming_ok_puback, I. }
    case_decide; [|by apply wp_ret, HQ].
    apply wp_bind, (wp5_outgoing_puback R); [done| |by auto]. intros. by apply wp_ret, HQ.
  - assert (I1 : inv R (set_incoming_pub (put_bit (incoming_pub s) (pub_pkid p) true) s)).
    { inv5_frame I. apply incoming_ok_pub; [apply I|done]. }
    destruct (bool_decide _ || _); [|by apply wp_ret, HQ].
    apply wp_bind, (wp5_outgoing_pubrec R); [done|done| |by auto]. intros. by apply wp_ret, HQ.
Qed.

(** An incoming publish that is accepted counts against the receive maximum. *)
Lemma inv5_received R s k :
  inv R s → is_u16 k → contains (incoming_publish_quota s) k = false →
  incoming_inflight s < max_incoming_inflight s →
  inv R (set_incoming_inflight (incoming_inflight s + 1)
    (set_incoming_publish_quota (put_bit (incoming_publish_quota s) k true) s)).
Proof.
  intros I Hk Hc Hlt. inv5_frame I; [|lia]. apply counted_insert; [apply I|done..].
Qed.

Lemma wp5_incoming_publish R s p (Q : option Packet * Publish → _ → Prop) (X : StateError → _ → Prop) :
  inv R s → is_u16 (pub_pkid p) → (∀ r s', inv R s' → Q r s') → (∀ e s', inv R s' → X e s') →
  wp (handle_incoming_publish p) Q X s.
Proof.
  intros I Hk HQ HX. unfold handle_incoming_publish. apply wp_bind, wp_get.
  assert (Hclose : ∀ d q s', inv R s' →
    wp (packet ← outgoing_disconnect d; mret (Some packet, q)) Q X s').
  { intros d q s' I'. eapply (wp5_quiet_bind R (λ _, True)); [eauto with quiet|done| |done].
    intros. by apply wp_ret, HQ. }
  destruct (match publish_topic_alias p with Some _ => _ | None => _ end); [by apply Hclose|].
  eapply (wp5_quiet_bind R); [apply quiet_resolve|done| |done].
  intros [q|] s1 Hq I1 _.
  2: { unfold handle_protocol_error. eapply (wp5_quiet_bind R (λ _, True)); [quiet_auto|done| |done].
       intros. by apply wp_ret, HQ. }
  specialize (Hq q eq_refl). apply wp_bind, wp_get. rewrite Hq.
  destruct (bool_decide _ && negb (contains _ _)) eqn:Hnew; cbn [andb].
  - destruct (Z.leb_spec (max_incoming_inflight s1) (incoming_inflight s1)) as [|Hlt]; [by apply Hclose|].
    apply andb_true_iff in Hnew as [_ Hnew]. apply negb_true_iff in Hnew.
    apply wp_bind. unfold insert_bit. apply wp_set_bit.
    { rewrite (counted_len _ _ (inv_received _ _ I1)).
      unfold is_u16, full_packet_identifier_len, u16_MAX in *. lia. }
    apply wp_bind, wp_modify. destruct (inv_limits _ _ I1) as [_ _ Hm _].
    rewrite (proj2 (Z.ltb_ge _ _)) by lia. apply wp_modify, wp_bind, (wp5_acknowledge R).
    + by apply (inv5_received R s1).
    + by rewrite Hq.
    + intros. by apply wp_ret, HQ.
    + done.
  - apply wp_bind, wp_ret, wp_bind, (wp5_acknowledge R); [done|by rewrite Hq| |done].
    intros. by apply wp_ret, HQ.
Qed.

Lemma wp5_incoming_pubrel R s ack (Q : option Packet → _ → Prop) (X : StateError → _ → Prop) :
  inv R s → is_u16 (ack_pkid ack) → (∀ r s', inv R s' → Q r s') → (∀ e, X e s) →
  wp (handle_incoming_pubrel ack) Q X s.
Proof.
  intros I Hk HQ HX. unfold handle_incoming_pubrel. apply wp_bind, wp_get.
  destruct (contains (incoming_pub s) _) eqn:Hc; cbn [negb].
  2: { apply wp_bind, wp_modify, wp_ret, HQ. by apply inv5_push. }
  destruct (contains (incoming_pubrec s) _) eqn:Hr; cbn [negb]; [|apply wp_fail, HX].
  apply wp_set_bit; [by apply contains_range|]. apply wp_bind, wp_modify.
  apply wp_set_bit; [by apply contains_range|]. apply wp_bind, wp_modify, wp_bind, wp_modify, wp_bind.
  apply (wp5_release_incoming R).
  { apply inv5_push. inv5_frame I. apply incoming_ok_pubrel; [apply I|done]. }
  intros. by apply wp_ret, HQ.
Qed.
End Handlers.
