(* ===== verification/V5Requests.v ===== *)
(** The requests of the MQTT 5 session state, and the dispatch of packets and requests: they preserve
    the invariant and cannot panic. *)

From Stdlib Require Import String.
From S2P Require Import Prelude.
From S2P Require Import Utf8.
From S2P Require Import Primitives.
From S2P Require Import FixedBitSet.
From S2P Require Import PacketIds.
From S2P Require Import V5Base.
From S2P Require Import V5Properties.
From S2P Require Import V5Acks.
From S2P Require Import V5SubAck.
From S2P Require Import V5Subscribe.
From S2P Require Import V5Publish.
From S2P Require Import V5ConnAck.
From S2P Require Import V5Disconnect.
From S2P Require Import V5Auth.
From S2P Require Import V5Packet.
From S2P Require Import V5Persist.
From S2P Require Import V5SessionTypes.
From S2P Require Import V5AuthLifecycle.
From S2P Require Import V5TopicAlias.
From S2P Require Import V5StateRecord.
From S2P Require Import V5State.
From S2P Require Import V5Incoming.
From S2P Require Import V5Clean.
From S2P Require Import V5Frame.
From S2P Require Import V5Invariant.
From S2P Require Import V5Handlers.
#[local] Open Scope Z_scope.


Section Requests.
  Context {B A : Type} `{FixedBitSetLaws B} `{Authenticator A}.

Abbreviation ST := (M (MqttState B A) StateError).
Implicit Types (s : MqttState B A) (R : gset Z).

(** [s] with other identifiers in use. *)
Abbreviation reserving s in_use count :=
  (set_outbound_pkid_count count (set_outbound_pkid_in_use in_use s)).

(** ** CONNACK *)

Definition connack_receive_max_ok (connack : ConnAck) : Prop :=
  match (props ← connack_properties connack; ca_receive_max props) with
  | Some receive_max => is_u16 receive_max
  | None => True
  end.

(** Without publishes in flight the broker may announce any limit. *)
Lemma inv5_set_max R s limit :
  inv R s → inflight s = 0 → 0 ≤ limit ≤ max_outgoing_inflight_upper_limit s →
  inv R (set_max_outgoing_inflight limit s).
Proof.
  intros I H0' Hl. destruct (inv_limits _ _ I) as [Hu Hm Hi Hk].
  destruct (inv_quota _ _ I) as [Hc Hq Hqp Hqo Hqh]. inv5_frame I.
  - by split.
  - split; [done|lia|done..].
Qed.

(** The state between a CONNACK and the first publish. *)
Definition fresh_inv R s : Prop := inv R s ∧ inflight s = 0.

Lemma fresh_core R s s' : fresh_inv R s → core s' = core s → fresh_inv R s'.
Proof.
  intros [I Hi] Hc. split; [by eapply inv5_core|]. unfold core, session_of in Hc. congruence.
Qed.

Lemma fresh_set_max R s limit :
  fresh_inv R s → 0 ≤ limit ≤ max_outgoing_inflight_upper_limit s →
  fresh_inv R (set_max_outgoing_inflight limit s).
Proof. intros [I Hi] Hl. split; [by apply inv5_set_max|done]. Qed.

Lemma fresh_if_some {T} R (o : option T) f s :
  fresh_inv R s → (∀ x s', o = Some x → fresh_inv R s' → fresh_inv R (f x s')) →
  fresh_inv R (if_some o f s).
Proof. intros Hs Hf. destruct o; [by apply Hf|done]. Qed.

Lemma fresh_properties R s props :
  fresh_inv R s → (∀ m, ca_receive_max props = Some m → is_u16 m) →
  fresh_inv R (apply_connack_properties props s).
Proof.
  intros Hs Hm. unfold apply_connack_properties.
  repeat (apply fresh_if_some; [|intros x s' Hx Hs'; try by apply (fresh_core R s')]); [done|].
  apply Hm in Hx. unfold is_u16 in Hx. destruct (inv_limits _ _ (proj1 Hs')) as [_ Hl _ _].
  apply fresh_set_max; [done|lia].
Qed.

Lemma wp5_incoming_connack R s connack (Q : option Packet → _ → Prop) (X : StateError → _ → Prop) :
  inv R s → connack_receive_max_ok connack → connack_received s = true ∨ inflight s = 0 →
  (∀ r s', inv R s' → Q r s') → (∀ e s', inv R s' → X e s') →
  wp (handle_incoming_connack connack) Q X s.
Proof.
  intros I Hmax Hgate HQ HX. unfold handle_incoming_connack. apply wp_bind, wp_get, wp_bind, wp_lift.
  destruct (validate_incoming_connack s connack) as [[]|e|] eqn:Hv; [|by apply HX|].
  2: { exfalso. revert Hv. unfold validate_incoming_connack, validate_successful_connack.
       by repeat case_match. }
  assert (Hnew : connack_received s = false).
  { revert Hv. unfold validate_incoming_connack. by case_match. }
  assert (Hinf : inflight s = 0) by (destruct Hgate; congruence).
  eapply (wp5_quiet_bind R (λ _, True)); [quiet_auto|done| |done]. intros _ s1 _ I1 [Hc1 _ _].
  assert (Hinf1 : inflight s1 = 0).
  { unfold core, session_of in Hc1. congruence. }
  unfold reset_connack_scoped_state. apply wp_bind, wp_modify.
  destruct (inv_limits _ _ I1) as [Hu Hm Hi Hk].
  match goal with |- wp _ _ _ (set_max_outgoing_inflight _ ?x) => set (s2 := x) end.
  assert (I2 : fresh_inv R s2) by (by apply (fresh_core R s1)).
  apply (fresh_set_max R s2 (max_outgoing_inflight_upper_limit s2)) in I2; [|unfold s2; fields; lia].
  eapply (wp5_quiet_bind R (λ _, True)); [eauto with quiet|apply I2| |done].
  intros _ s3 _ _ [Hc3 _ _]. apply (fresh_core R _ s3 I2) in Hc3.
  destruct (connack_properties connack) as [props|] eqn:Hp.
  - apply wp_bind, wp_modify, wp_bind, wp_modify, wp_ret, HQ.
    apply (inv5_core R (apply_connack_properties props s3)); [|done].
    apply fresh_properties; [done|]. intros m Hm'. unfold connack_receive_max_ok in Hmax.
    rewrite Hp in Hmax. cbn in Hmax. by rewrite Hm' in Hmax.
  - apply wp_bind, wp_ret, wp_bind, wp_modify, wp_ret, HQ. by apply (inv5_core R s3); [apply Hc3|].
Qed.

(** ** Publishes *)

Lemma session5_eq s s' :
  session_of s' = session_of s →
  inflight s' = inflight s ∧ max_outgoing_inflight s' = max_outgoing_inflight s ∧
  ∀ R, live_ids R s' = live_ids R s.
Proof. unfold session_of. intros Hs. split_and!; intros; unfold live_of; congruence. Qed.

(** Whether the identifier is held by a flow other than a publish. *)
Lemma other_flow5 R s k :
  inv R s →
  contains (outgoing_rel s) k || contains (outgoing_rel_replay s) k || has_pending_control s k = true →
  k ∈ live_ids R s.
Proof.
  intros I. rewrite elem_live5, !orb_true_iff. unfold has_pending_control, is_some.
  rewrite (inv_rel _ _ I k), (inv_replay _ _ I k).
  destruct (pending_subscribe s !! k), (pending_unsubscribe s !! k); naive_solver.
Qed.

Definition restored (action : option AutoTopicAliasAction) (p : Publish) : Publish :=
  match action with Some action => restore_for_replay action p | None => p end.

Lemma restored_ok action p :
  pub_pkid (restored action p) = pub_pkid p ∧ pub_qos (restored action p) = pub_qos p.
Proof.
  unfold restored, restore_for_replay, strip_publish_topic_alias. by repeat case_match.
Qed.

Lemma applied_ok t p p' action :
  apply_auto_topic_alias t p = (p', action) → pub_pkid p' = pub_pkid p ∧ pub_qos p' = pub_qos p.
Proof. unfold apply_auto_topic_alias. repeat case_match; by intros [= <- _]. Qed.

(** The identifiers left for replay after the publish of [k]. *)
Definition unreserved (replay : bool) R (k : Z) : gset Z := if replay then R ∖ {[k]} else R.

Lemma wp5_place R s p action notice (replay : bool) (Q : bool → _ → Prop) (X : StateError → _ → Prop) :
  let k := pub_pkid p in
  inv R s → 1 ≤ k ≤ u16_MAX → pub_qos p ≠ AtMostOnce →
  inflight s < max_outgoing_inflight s → (replay = true → k ∈ R) →
  (∀ sent s', inv (unreserved replay R k) s' → Q sent s') → (∀ e s', inv R s' → X e s') →
  wp (place_publish p action notice replay) Q X s.
Proof.
  intros k I Hk Hq Hinf Hrep HQ HX. unfold place_publish. fold k.
  apply wp_bind, wp_lift. unfold validate_outgoing_pkid. rewrite (proj2 (Z.eqb_neq k 0)) by lia.
  apply wp_bind, (wp5_ensure R); [done|unfold full_packet_identifier_len; lia|].
  intros s1 I1 Hs1 Hlen. apply session5_eq in Hs1 as (Hinf1 & Hmax1 & _).
  apply wp_bind, wp_get, wp_bind, wp_lift.
  destruct (vget_some (outgoing_pub s1) k) as [slot Hslot]; [lia|]. rewrite Hslot. cbn [ok_or].
  destruct slot as [q|]; cbn [is_some is_none negb].
  - assert (Hin : k ∈ outgoing_pub_order s1) by (eapply (inv5_slot_some R s1 I1); [lia|done]).
    assert (HR : replay = false).
    { destruct replay; [|done]. exfalso. specialize (Hrep eq_refl).
      pose proof (ids_nodup _ _ _ (inv_ids _ _ I1)) as Hnd. unfold live_of in Hnd.
      apply NoDup_app in Hnd as (_ & Hnd & _). apply (Hnd k Hin).
      rewrite !elem_of_app, elem_of_elements. tauto. }
    subst replay. apply wp_bind, wp_modify, wp_bind, wp_modify, wp_bind, wp_modify, wp_ret, HQ.
    destruct (restored_ok action p) as [Hrp Hrq]. unfold restored in *.
    destruct (inv_quota _ _ I1) as [Hc Hm Hqp Hqo _]. inv5_frame I1.
    split; try done. intros ? [= <-]. rewrite Hrp, Hrq. split; [by apply Hqp|done].
  - destruct (_ || _) eqn:Hother; [by apply wp_fail, HX|]. apply wp_bind. destruct replay.
    + specialize (Hrep eq_refl). apply (wp5_accept R); [done|rewrite elem_live5; tauto|].
      apply wp_bind, wp_get, wp_bind. rewrite <- (reserving5_same s1) at 2.
      apply (wp5_track R (R ∖ {[k]})); [done| |by apply tracking_ok|lia|lia|].
      * pose proof (inv_ids _ _ I1) as Hi. by rewrite (live5_reserved_remove R s1 k Hrep) in Hi.
      * intros s2 I2. by apply wp_ret, HQ.
    + apply (wp5_reserve (live_ids R s1)); [apply I1|lia|by auto|].
      intros in_use count _ _ Hids. apply wp_bind, wp_get, wp_bind.
      apply (wp5_track R R); [done|done|by apply tracking_ok|lia|lia|].
      intros s2 I2. by apply wp_ret, HQ.
Qed.

Lemma wp5_assign_pkid R s p (replay : bool) (Q : Publish → _ → Prop) (X : StateError → _ → Prop) :
  inv R s → is_u16 (pub_pkid p) →
  (∀ p' s', inv R s' → session_of s' = session_of s → 1 ≤ pub_pkid p' ≤ u16_MAX →
     pub_qos p' = pub_qos p → (pub_pkid p ≠ 0 → p' = p) → Q p' s') →
  X InvalidState s → (replay = true → pub_pkid p ≠ 0) →
  wp (assign_pkid p replay) Q X s.
Proof.
  intros I Hk HQ HX Hrep. unfold is_u16 in Hk. unfold assign_pkid.
  destruct (Z.eqb_spec (pub_pkid p) 0) as [Hz|Hz].
  2: { apply wp_ret, HQ; try done. unfold u16_MAX. lia. }
  destruct replay; [by apply wp_fail|]. apply wp_bind. unfold next_pkid. apply wp_bind, wp_get.
  pose proof (next_free5_ok R s I) as Hn. unfold next_publish_pkid.
  destruct (next_free_outbound_pkid_after s (last_pkid s)) as [k|]; [|by apply wp_ret, wp_fail].
  apply wp_bind, wp_modify, wp_ret, wp_ret, HQ; try done; cbn; [|lia].
  destruct (inv_limits _ _ I) as [Hu Hm Hi _]. inv5_frame I. split; try done.
  unfold is_u16, u16_MAX in *. lia.
Qed.

Lemma wp5_outgoing_publish R s p notice (replay : bool) Q (X : StateError → _ → Prop) :
  inv R s → is_u16 (pub_pkid p) →
  (replay = true → pub_qos p ≠ AtMostOnce → pub_pkid p ∈ R) →
  (∀ r s', inv (if decide (pub_qos p = AtMostOnce) then R else unreserved replay R (pub_pkid p)) s' →
     Q r s') →
  (∀ e s', inv R s' → X e s') →
  wp (outgoing_publish_with_notice_internal p notice replay) Q X s.
Proof.
  intros I Hk Hrep HQ HX. unfold outgoing_publish_with_notice_internal. apply wp_bind, wp_get.
  destruct (unsupported_publish_capability s p); [by apply wp_fail, HX|].
  destruct (bool_decide (pub_qos p ≠ AtMostOnce) && _) eqn:Hwin; [by apply wp_fail, HX|].
  destruct (apply_auto_topic_alias (topic_aliases s) p) as [p1 action] eqn:Happ.
  apply applied_ok in Happ as [Hk1 Hq1]. apply wp_bind, wp_lift.
  destruct (validate_outgoing_topic_alias _ _) eqn:Hval; [|by apply HX|].
  2: { revert Hval. unfold validate_outgoing_topic_alias. by repeat case_match. }
  rewrite Hq1. destruct (decide (pub_qos p = AtMostOnce)) as [H0'|Hne].
  - eapply (wp5_quiet_bind R (λ _, True)); [eauto with quiet|done| |done]. intros _ s1 _ I1 _.
    apply wp_bind, wp_modify, wp_ret, HQ. by apply inv5_push.
  - rewrite bool_decide_eq_true_2 in Hwin by done. cbn [andb] in Hwin. apply Z.leb_gt in Hwin.
    assert (Hnz : replay = true → pub_pkid p ≠ 0).
    { intros Hr. specialize (Hrep Hr Hne). intros Hz.
      assert (Hin : pub_pkid p ∈ live_ids R s) by (rewrite elem_live5; tauto).
      apply (inv5_live_range R s I) in Hin. lia. }
    apply wp_bind, (wp5_assign_pkid R); [done|by rewrite Hk1| |by apply HX|by rewrite Hk1].
    intros p2 s2 I2 Hs2 Hk2 Hq2 Hsame. apply session5_eq in Hs2 as (Hi2 & Hm2 & _).
    assert (Hp2 : replay = true → pub_pkid p2 = pub_pkid p).
    { intros Hr. rewrite Hsame, Hk1; [done|]. rewrite Hk1. by apply Hnz. }
    apply wp_bind, (wp5_place R); [done|done|congruence|lia| | |done].
    { intros Hr. rewrite Hp2 by done. by apply Hrep. }
    intros sent s3 I3.
    assert (I3' : inv (unreserved replay R (pub_pkid p)) s3).
    { destruct replay; [|done]. cbn in I3 |- *. by rewrite Hp2 in I3. }
    destruct sent; [|by apply wp_ret, HQ]. unfold record_alias_of.
    apply wp_bind, wp_bind, wp_modify, wp_modify, wp_bind, wp_modify, wp_ret, HQ.
    by apply (inv5_core _ s3).
Qed.

(** ** Releases *)

(** A release sent again becomes an active one, which holds no quota. *)
Lemma inv5_reactivated R s k recovery :
  inv R s → k ∈ outgoing_rel_replay_order s →
  inv R (set_outgoing_rel_recovery recovery
    (set_outgoing_rel_order (outgoing_rel_order s ++ [k])
    (set_outgoing_rel (put_bit (outgoing_rel s) k true)
    (set_outgoing_rel_replay_order (remove_ordered_pkid (outgoing_rel_replay_order s) k)
    (set_outgoing_rel_replay (put_bit (outgoing_rel_replay s) k false) s))))).
Proof.
  intros I Hk. destruct (inv5_replay_range R s I k Hk) as [Hk1 Hlen].
  destruct (inv5_orders_nodup R s I) as (_ & _ & Hnd & _).
  destruct (inv_lens _ _ I) as [Hl1 Hl2 Hl3 Hl4 Hl5].
  destruct (inv_quota _ _ I) as [Hc Hm Hqp Hqo Hqh]. inv5_frame I.
  - split; rewrite ?len_put_bit; done.
  - apply bits_ok_insert; [apply I|lia].
  - apply bits_ok_remove; [apply I|done..].
  - pose proof (inv_ids _ _ I) as Hi. rewrite (live5_replay_remove R s k Hk) in Hi.
    unfold live_of in *. eapply ids_ok_proper; [|done|done|exact Hi]. fields. solve_Permutation.
  - split; try done. intros j Hj%Hqo. set_solver.
Qed.

Lemma inv5_set_rel_notice R s n :
  inv R s → blen n = blen (outgoing_pub s) → inv R (set_outgoing_rel_notice n s).
Proof.
  intros I Hn. destruct (inv_lens _ _ I) as [Hl1 Hl2 Hl3 Hl4 Hl5]. inv5_frame I. by split.
Qed.

Lemma wp5_outgoing_pubrel R s pubrel notice Q (X : StateError → _ → Prop) :
  inv R s → is_u16 (ack_pkid pubrel) → (∀ r s', inv R s' → Q r s') → (∀ e s', inv R s' → X e s') →
  wp (outgoing_pubrel_with_notice pubrel notice) Q X s.
Proof.
  intros I Hk HQ HX. unfold outgoing_pubrel_with_notice, save_pubrel_with_notice.
  set (k := ack_pkid pubrel) in *. unfold is_u16 in Hk.
  apply wp_bind, wp_bind, wp_lift. unfold validate_outgoing_pkid.
  destruct (Z.eqb_spec k 0); [by apply HX|]. apply wp_bind, wp_get.
  destruct (negb _ && negb _); [by apply wp_fail, HX|].
  apply wp_bind, (wp5_ensure R); [done|unfold full_packet_identifier_len, u16_MAX in *; lia|].
  intros s1 I1 Hs1 Hlen.
  assert (Hnotice : ∀ s2, inv R s2 → k + 1 ≤ blen (outgoing_pub s2) →
    wp (s ← mget; current ← index (outgoing_rel_notice s) k;
        (if is_some notice || is_none current then
           notices ← assign (outgoing_rel_notice s) k notice;
           mmodify (set_outgoing_rel_notice notices)
         else mret tt);;
        mret pubrel)
      (λ a s', wp (push_event (O_PubRel (ack_pkid a));;
                   mret (Some (P_PubRel (PubRel_new (ack_pkid a) None)), None)) Q X s') X s2).
  { intros s2 I2 Hlen2. pose proof (len_rel_notice _ _ _ _ _ (inv_lens _ _ I2)) as Hl.
    apply wp_bind, wp_get. apply wp_index; [lia|]. intros current _. apply wp_bind.
    destruct (_ || _).
    - apply wp_assign; [lia|]. apply wp_modify, wp_ret, wp_bind, wp_modify, wp_ret, HQ, inv5_push.
      apply inv5_set_rel_notice; [done|]. by rewrite blen_vset.
    - by apply wp_ret, wp_ret, wp_bind, wp_modify, wp_ret, HQ, inv5_push. }
  apply wp_bind. destruct (contains (outgoing_rel_replay s) k) eqn:Hc; [|by apply wp_ret, Hnotice].
  apply (inv_replay _ _ I) in Hc.
  replace (outgoing_rel_replay_order s) with (outgoing_rel_replay_order s1) in Hc
    by (unfold session_of in Hs1; congruence).
  destruct (inv_lens _ _ I1) as [Hl1 Hl2 Hl3 Hl4 Hl5].
  apply wp_bind, wp_get, wp_set_bit; [lia|]. apply wp_bind, wp_modify, wp_bind, wp_modify.
  unfold insert_bit. apply wp_set_bit; [fields; lia|]. apply wp_bind, wp_modify, wp_bind, wp_modify.
  apply wp_set_bit; [rewrite len_grow; lia|]. apply wp_modify, Hnotice.
  - by apply (inv5_reactivated R s1).
  - by fields.
Qed.

(** ** Subscriptions *)

(** [s] with the identifier [k] taken last. *)
Abbreviation taken s in_use count k := (set_last_pkid k (reserving s in_use count)).

Lemma wp5_next_control R s (Q : Z → _ → Prop) (X : StateError → _ → Prop) :
  inv R s → X InvalidState s →
  (∀ k in_use count, ids_ok (k :: live_ids R s) in_use count → Q k (taken s in_use count k)) →
  wp next_control_pkid Q X s.
Proof.
  intros I HX HQ. unfold next_control_pkid. apply wp_bind, wp_get.
  pose proof (next_free5_ok R s I) as Hn.
  destruct (next_free_outbound_pkid_after s (last_pkid s)) as [k|]; [|by apply wp_fail].
  destruct Hn as [Hk Hfree]. apply wp_bind, (wp5_reserve (live_ids R s)); [apply I|lia|done|].
  intros in_use count _ _ Hids. apply wp_bind, wp_modify, wp_ret. by apply HQ.
Qed.

Lemma wp5_reserve_control R s k (Q : unit → _ → Prop) (X : StateError → _ → Prop) :
  inv R s → is_u16 k → (∀ e, X e s) →
  (∀ in_use count, ids_ok (k :: live_ids R s) in_use count → Q tt (taken s in_use count k)) →
  wp (reserve_control_pkid k) Q X s.
Proof.
  intros I Hk HX HQ. unfold is_u16 in Hk. unfold reserve_control_pkid. apply wp_bind, wp_lift.
  unfold validate_outgoing_pkid. destruct (Z.eqb_spec k 0); [by apply HX|].
  apply wp_bind, (wp5_reserve (live_ids R s)); [apply I|unfold u16_MAX; lia|by auto|].
  intros in_use count _ _ Hids. apply wp_modify. by apply HQ.
Qed.

Lemma inv5_subscribed R R' s in_use count l v k p :
  inv R s → is_u16 l → ids_ok (k :: live_ids R' s) in_use count →
  subscribe_pkid (ps_subscribe p) = k → filters (ps_subscribe p) ≠ [] →
  inv R' (set_pending_subscribe (<[k := p]> (pending_subscribe s))
    (set_events v (taken s in_use count l))).
Proof.
  intros I Hl Hids Hk Hf. destruct (inv_limits _ _ I) as [Hu Hm Hi _].
  assert (Hnew : pending_subscribe s !! k = None).
  { apply ids_nodup, NoDup_cons in Hids as [Hn _]. apply not_live5 in Hn. tauto. }
  inv5_frame I.
  - by split.
  - unfold live_of in *. rewrite keys_insert by done.
    eapply ids_ok_proper; [|done|done|exact Hids]. solve_Permutation.
  - intros j q [[<- <-]|[_ Hj]]%lookup_insert_Some; [done|]. by apply (inv_sub _ _ I).
Qed.

Lemma inv5_unsubscribed R R' s in_use count l v k p :
  inv R s → is_u16 l → ids_ok (k :: live_ids R' s) in_use count →
  unsubscribe_pkid (pu_unsubscribe p) = k → unsubscribe_filters (pu_unsubscribe p) ≠ [] →
  inv R' (set_pending_unsubscribe (<[k := p]> (pending_unsubscribe s))
    (set_events v (taken s in_use count l))).
Proof.
  intros I Hl Hids Hk Hf. destruct (inv_limits _ _ I) as [Hu Hm Hi _].
  assert (Hnew : pending_unsubscribe s !! k = None).
  { apply ids_nodup, NoDup_cons in Hids as [Hn _]. apply not_live5 in Hn. tauto. }
  inv5_frame I.
  - by split.
  - unfold live_of in *. rewrite keys_insert by done.
    eapply ids_ok_proper; [|done|done|exact Hids]. solve_Permutation.
  - intros j q [[<- <-]|[_ Hj]]%lookup_insert_Some; [done|]. by apply (inv_unsub _ _ I).
Qed.

Lemma ids5_u16 ids in_use count k : ids_ok (B:=B) (k :: ids) in_use count → is_u16 k.
Proof.
  intros Hids. pose proof (ids_range _ _ _ Hids k ltac:(set_solver)).
  unfold is_u16, u16_MAX in *. lia.
Qed.

Lemma no_entries_nil {T} (l : list T) : no_entries l = false → l ≠ [].
Proof. by intros Hl ->. Qed.

Lemma validated_subscribe s u : validate_outgoing_subscribe s u = Ok tt → filters u ≠ [].
Proof.
  unfold validate_outgoing_subscribe. destruct (no_entries _) eqn:Hn; [done|].
  intros _. by apply no_entries_nil.
Qed.

Lemma validate_subscribe_ok s u : validate_outgoing_subscribe s u ≠ Panic.
Proof. unfold validate_outgoing_subscribe. by repeat case_match. Qed.

Lemma wp5_outgoing_subscribe R s u notice Q (X : StateError → _ → Prop) :
  inv R s → is_u16 (subscribe_pkid u) → (∀ r s', inv R s' → Q r s') → (∀ e, X e s) →
  wp (outgoing_subscribe u notice) Q X s.
Proof.
  intros I Hk HQ HX. unfold outgoing_subscribe. apply wp_bind, wp_get, wp_bind, wp_lift.
  destruct (validate_outgoing_subscribe s u) as [[]|e|] eqn:Hv;
    [|by apply HX|by apply validate_subscribe_ok in Hv].
  apply validated_subscribe in Hv. unfold save_outgoing_subscribe.
  assert (Hsave : ∀ u' in_use count, filters u' = filters u →
    ids_ok (subscribe_pkid u' :: live_ids R s) in_use count →
    wp (packet ← save_outgoing_subscribe u' notice; mret (Some packet)) Q X
      (taken s in_use count (subscribe_pkid u'))).
  { intros u' in_use count Hf Hids. pose proof (ids5_u16 _ _ _ _ Hids).
    apply wp_bind, wp_bind, wp_modify, wp_bind, wp_modify, wp_ret, wp_ret, HQ.
    apply (inv5_subscribed R R s); cbn; try done. by rewrite Hf. }
  apply wp_bind. destruct (subscribe_pkid u =? 0).
  - apply wp_bind, (wp5_next_control R); [done|by apply HX|]. intros k in_use count Hids. apply wp_ret.
    by apply (Hsave (mkSubscribe k (filters u) (subscribe_properties u))).
  - apply wp_bind, (wp5_reserve_control R); [done..|]. intros in_use count Hids.
    by apply wp_ret, Hsave.
Qed.

Lemma wp5_outgoing_unsubscribe R s u notice Q (X : StateError → _ → Prop) :
  inv R s → is_u16 (unsubscribe_pkid u) → (∀ r s', inv R s' → Q r s') → (∀ e, X e s) →
  wp (outgoing_unsubscribe u notice) Q X s.
Proof.
  intros I Hk HQ HX. unfold outgoing_unsubscribe.
  destruct (no_entries _) eqn:Hv; [apply wp_fail, HX|]. apply no_entries_nil in Hv.
  assert (Hsave : ∀ u' in_use count, unsubscribe_filters u' = unsubscribe_filters u →
    ids_ok (unsubscribe_pkid u' :: live_ids R s) in_use count →
    wp (save_outgoing_unsubscribe u' notice) Q X (taken s in_use count (unsubscribe_pkid u'))).
  { intros u' in_use count Hf Hids. pose proof (ids5_u16 _ _ _ _ Hids).
    apply wp_bind, wp_modify, wp_bind, wp_modify, wp_ret, HQ.
    apply (inv5_unsubscribed R R s); cbn; try done. by rewrite Hf. }
  apply wp_bind. destruct (unsubscribe_pkid u =? 0).
  - apply wp_bind, (wp5_next_control R); [done|by apply HX|]. intros k in_use count Hids. apply wp_ret.
    by apply (Hsave (mkUnsubscribe k (unsubscribe_filters u) (unsubscribe_properties u))).
  - apply wp_bind, (wp5_reserve_control R); [done..|]. intros in_use count Hids.
    by apply wp_ret, Hsave.
Qed.

(** A subscription sent again: its identifier is reserved for it. *)
Lemma wp5_replay_subscribe R s u notice Q (X : StateError → _ → Prop) :
  let k := subscribe_pkid u in
  inv R s → k ∈ R → (∀ r s', inv (R ∖ {[k]}) s' → Q r s') → (∀ e, X e s) →
  wp (replay_outgoing_subscribe u notice) Q X s.
Proof.
  intros k I HR HQ HX. unfold replay_outgoing_subscribe. apply wp_bind, wp_get, wp_bind, wp_lift.
  destruct (validate_outgoing_subscribe s u) as [[]|e|] eqn:Hv;
    [|by apply HX|by apply validate_subscribe_ok in Hv].
  apply validated_subscribe in Hv. fold k.
  apply wp_bind, (wp5_accept R); [done|rewrite elem_live5; tauto|].
  pose proof (inv_ids _ _ I) as Hids. rewrite (live5_reserved_remove R s k HR) in Hids.
  apply wp_bind, wp_bind, wp_modify, wp_bind, wp_modify, wp_ret, wp_ret, HQ.
  replace s with (taken s (outbound_pkid_in_use s) (outbound_pkid_count s) (last_pkid s)) at 3
    by (by destruct s).
  apply (inv5_subscribed R _ s); cbn; try done. apply (lim_last _ _ _ _ (inv_limits _ _ I)).
Qed.

Lemma wp5_replay_unsubscribe R s u notice Q (X : StateError → _ → Prop) :
  let k := unsubscribe_pkid u in
  inv R s → k ∈ R → (∀ r s', inv (R ∖ {[k]}) s' → Q r s') → (∀ e, X e s) →
  wp (replay_outgoing_unsubscribe u notice) Q X s.
Proof.
  intros k I HR HQ HX. unfold replay_outgoing_unsubscribe.
  destruct (no_entries _) eqn:Hv; [apply wp_fail, HX|]. apply no_entries_nil in Hv. fold k.
  apply wp_bind, (wp5_accept R); [done|rewrite elem_live5; tauto|].
  pose proof (inv_ids _ _ I) as Hids. rewrite (live5_reserved_remove R s k HR) in Hids.
  apply wp_bind, wp_modify, wp_bind, wp_modify, wp_ret, HQ.
  replace s with (taken s (outbound_pkid_in_use s) (outbound_pkid_count s) (last_pkid s)) at 3
    by (by destruct s).
  apply (inv5_unsubscribed R _ s); cbn; try done. apply (lim_last _ _ _ _ (inv_limits _ _ I)).
Qed.

(** ** Requests *)

Definition graceful_disconnect (request : Request) : bool :=
  match request with
  | R_Disconnect _ | R_DisconnectWithTimeout _ _ | R_DisconnectAfterQueued _
  | R_DisconnectAfterQueuedWithTimeout _ _ => true
  | _ => false
  end.

Definition request_u16 (request : Request) : Prop :=
  match request with
  | R_Publish p => is_u16 (pub_pkid p)
  | R_PubRel a => is_u16 (ack_pkid a)
  | R_PubRec a => is_u16 (ack_pkid a)
  | R_Subscribe u => is_u16 (subscribe_pkid u)
  | R_Unsubscribe u => is_u16 (unsubscribe_pkid u)
  | _ => True
  end.

(** A request collected by [clean] has its identifier reserved until it is sent again. *)
Definition replayable R (request : Request) : Prop :=
  match request with
  | R_Publish p => pub_qos p ≠ AtMostOnce → pub_pkid p ∈ R
  | R_Subscribe u => subscribe_pkid u ∈ R
  | R_Unsubscribe u => unsubscribe_pkid u ∈ R
  | _ => True
  end.

Definition sent_again R (request : Request) : gset Z :=
  match request with
  | R_Publish p => if decide (pub_qos p = AtMostOnce) then R else R ∖ {[pub_pkid p]}
  | R_Subscribe u => R ∖ {[subscribe_pkid u]}
  | R_Unsubscribe u => R ∖ {[unsubscribe_pkid u]}
  | _ => R
  end.

Lemma wp5_quiet_any {T} R (P : T → Prop) (m : ST T) (Q : T → _ → Prop) (X : StateError → _ → Prop) s :
  quiet P m → inv R s → (∀ a s', inv R s' → Q a s') → (∀ e s', inv R s' → X e s') → wp m Q X s.
Proof.
  intros Hm I HQ HX. eapply wp_mono; [by apply (wp_quiet R)|..].
  - intros a s' (_ & I' & _). by apply HQ.
  - intros e s' [I' _]. by apply HX.
Qed.

Lemma wp5_handle_request R now request notice (replay : bool) Q (X : StateError → _ → Prop) s :
  inv R s → request_u16 request → graceful_disconnect request = false →
  (replay = true → replayable R request) →
  (∀ r s', inv (if replay then sent_again R request else R) s' → Q r s') →
  (∀ e s', inv R s' → X e s') →
  wp (handle_outgoing_packet_with_notice_internal now request notice replay) Q X s.
Proof.
  intros I Hu Hg Hrep HQ HX. unfold handle_outgoing_packet_with_notice_internal.
  set (R' := if replay then sent_again R request else R) in *. apply wp_bind.
  assert (Hend : ∀ r s', inv R' s' → wp (mmodify (set_last_outgoing now);; mret r) Q X s').
  { intros r s' I'. apply wp_bind, wp_modify, wp_ret, HQ. by apply (inv5_core R' s'). }
  destruct request; cbn [graceful_disconnect request_u16 replayable sent_again] in *; try done.
  - apply (wp5_outgoing_publish R); [done..| |done]. intros r s' I'. apply Hend. unfold R'.
    cbn [sent_again]. by destruct replay, (decide _).
  - apply wp_bind, (wp5_outgoing_puback R); [done| |by auto]. intros r s' I'. apply wp_ret, Hend.
    by destruct replay.
  - apply wp_bind, (wp5_outgoing_pubrec R); [done|done| |by auto]. intros r s' I'. apply wp_ret, Hend.
    by destruct replay.
  - by apply wp_fail, HX.
  - apply (wp5_outgoing_pubrel R); [done..| |done]. intros r s' I'. apply Hend. by destruct replay.
  - apply wp_bind. eapply (wp5_quiet_any R (λ _, True)); [eauto with quiet|done| |done].
    intros r s' I'. apply wp_ret, Hend. by destruct replay.
  - by apply wp_fail, HX.
  - apply wp_bind. destruct replay.
    + apply (wp5_replay_subscribe R); [done|by apply Hrep| |by auto]. intros r s' I'. by apply wp_ret, Hend.
    + apply (wp5_outgoing_subscribe R); [done..| |by auto]. intros r s' I'. by apply wp_ret, Hend.
  - by apply wp_fail, HX.
  - apply wp_bind. destruct replay.
    + apply (wp5_replay_unsubscribe R); [done|by apply Hrep| |by auto]. intros r s' I'. by apply wp_ret, Hend.
    + apply (wp5_outgoing_unsubscribe R); [done..| |by auto]. intros r s' I'. by apply wp_ret, Hend.
  - by apply wp_fail, HX.
  - apply wp_bind. eapply (wp5_quiet_any R (λ _, True)); [eauto with quiet|done| |done].
    intros r s' I'. apply wp_ret, Hend. by destruct replay.
  - apply wp_bind. eapply (wp5_quiet_any R (λ _, True)); [eauto with quiet|done| |done].
    intros r s' I'. apply wp_ret, Hend. by destruct replay.
Qed.
End Requests.

(** ** Events are only added, and records of publishes received only lost by releasing them *)

Section Events.
  Context {B A : Type} `{FixedBitSetLaws B} `{Authenticator A}.

Abbreviation ST := (M (MqttState B A) StateError).
Implicit Types (s : MqttState B A) (R : gset Z).

(** [s'] is later than [s] in a session in which [k] has not been released. *)
Record later (k : Z) s s' : Prop := {
  later_events : adds (events s) (events s');
  later_recorded : contains (incoming_pubrec s) k = true → contains (incoming_pubrec s') k = true;
}.

#[global] Instance later_preorder k : PreOrder (later k).
Proof.
  split; [by intros s; split|]. intros s1 s2 s3 [He1 Hr1] [He2 Hr2].
  split; [by etrans|auto].
Qed.

Lemma later5_same k s s' :
  adds (events s) (events s') → incoming_pubrec s' = incoming_pubrec s → later k s s'.
Proof. intros He Hr. split; [done|by rewrite Hr]. Qed.

Lemma later_quiet {T} k (P : T → Prop) (m : ST T) : quiet P m → along (later k) m.
Proof.
  intros Hm s. specialize (Hm s). unfold wp in Hm.
  assert (Hcalm : ∀ s', calm s s' → later k s s').
  { intros s' [Hc _ He]. apply later5_same; [done|]. unfold core, session_of in Hc. congruence. }
  destruct (m s) as [[]]; cbn; [|by apply Hcalm|done]. by apply Hcalm, Hm.
Qed.

Lemma later_expect {T} k (m : ST T) : along (later k) m → along (later k) (expect_ok m).
Proof. intros Hm s. specialize (Hm s). unfold expect_ok. by destruct (m s) as [[]]. Qed.

(** Computations that read the state first. *)
Lemma later_get {T} k (f : MqttState B A → ST T) :
  (∀ s, later k s (f s s).2) → along (later k) (mget ≫= f).
Proof. intros Hf s. apply Hf. Qed.

Lemma later_bind_at {T U} k (m : ST T) (f : T → ST U) s s0 :
  later k s (m s0).2 → (∀ a, along (later k) (f a)) → later k s ((m ≫= f) s0).2.
Proof.
  intros Hm Hf. rewrite bind_run. destruct (m s0) as [[a|e|] s1]; try done.
  etrans; [exact Hm|apply Hf].
Qed.

(** Recording a publish, or releasing another one. *)
Lemma later5_set_bit {T} k j v s s0 (f : B → ST T) :
  later k s s0 → incoming_pubrec s0 = incoming_pubrec s →
  j ≠ k ∨ v = true ∨ contains (incoming_pubrec s) j = false → (∀ b, along (later k) (f b)) →
  later k s ((b ← set_bit (incoming_pubrec s) j v; mmodify (set_incoming_pubrec b);; f b) s0).2.
Proof.
  intros Hs Hp Hj Hf. rewrite bind_run. unfold set_bit.
  destruct ((0 <=? j) && (j <? bits_len (incoming_pubrec s))) eqn:Hr; [|done]. cbn [mret M_ret].
  rewrite bind_run. cbn [mmodify]. etrans; [|apply Hf]. etrans; [exact Hs|].
  rewrite andb_true_iff, Z.leb_le, Z.ltb_lt in Hr.
  split; [reflexivity|]. fields. rewrite Hp. intros Hc.
  rewrite contains_put_bit by lia. destruct (Z.eqb_spec j k); [|done]. naive_solver congruence.
Qed.
End Events.

Ltac later_modify := repeat case_match; (apply later5_same; [cbn; solve_adds|reflexivity]).
Ltac lasting :=
  repeat first [along_step later_modify
    |match goal with |- along _ (expect_ok _) => apply later_expect end
    |match goal with |- along _ _ =>
       first [apply (later_quiet _ (λ _, True)); solve [eauto 3 with quiet]
             |eapply later_quiet; solve [eauto 3 with quiet]] end].

Section Lasting.
  Context {B A : Type} `{FixedBitSetLaws B} `{Authenticator A}.

Abbreviation lasts k m := (along (later (B:=B) (A:=A) k) m).

Lemma lasts_release k i : lasts k (release_outbound_pkid i).
Proof. unfold release_outbound_pkid. lasting. Qed.
Lemma lasts_shrink k : lasts k maybe_shrink_outgoing_tracking_capacity.
Proof. unfold maybe_shrink_outgoing_tracking_capacity. lasting. Qed.
Lemma lasts_ensure k n : lasts k (ensure_outgoing_tracking_capacity n).
Proof. unfold ensure_outgoing_tracking_capacity. lasting. Qed.
Lemma lasts_reserve k i : lasts k (reserve_outbound_pkid i).
Proof. unfold reserve_outbound_pkid. lasting. Qed.
Lemma lasts_track k i p n : lasts k (track_publish i p n).
Proof. unfold track_publish, acquire_outgoing_publish_quota. lasting. Qed.
Lemma lasts_release_incoming k i : lasts k (release_incoming_publish_quota i).
Proof. unfold release_incoming_publish_quota. lasting. Qed.
Lemma lasts_release_quota k i : lasts k (release_outgoing_publish_quota i).
Proof. unfold release_outgoing_publish_quota. lasting. Qed.
Hint Resolve lasts_release lasts_shrink lasts_ensure lasts_reserve lasts_track
  lasts_release_incoming lasts_release_quota : along.

Lemma lasts_finish k i n r : lasts k (finish_publish i n r).
Proof. unfold finish_publish, replay_collision_publish, check_collision. lasting. Qed.
Lemma lasts_puback k a : lasts k (outgoing_puback a).
Proof. unfold outgoing_puback. lasting. Qed.

Lemma lasts_pubrec k a d : lasts k (outgoing_pubrec_internal a d).
Proof.
  unfold outgoing_pubrec_internal. apply later_get. intros s. destruct (negb _); [done|].
  destruct (contains (incoming_pubrec s) (ack_pkid a)) eqn:Hc.
  { destruct d; [|done]. match goal with |- later _ _ (?m s).2 => assert (Hm : lasts k m) by lasting end.
    apply Hm. }
  apply later_bind_at; [|intros; lasting]. case_match.
  - rewrite bind_run. unfold set_bit at 1. destruct (_ && _); [|done]. cbn [mret M_ret].
    rewrite bind_run. cbn [mmodify]. apply later5_set_bit; [by apply later5_same|done|by right; right|].
    intros b. lasting.
  - rewrite bind_run. unfold insert_bit, set_bit. 
    pose proof (later5_set_bit k (ack_pkid a) true s s (λ _, mret tt)) as Hl. unfold set_bit in Hl.
    rewrite bind_run in Hl. destruct (_ && _); [|done]. apply Hl; [done|done|by right; left|].
    intros b. lasting.
Qed.
Hint Resolve lasts_finish lasts_puback lasts_pubrec : along.

(** [PUBREL] of [k] apart. *)
Definition releases (k : Z) (packet : Packet) : bool :=
  match packet with P_PubRel a => ack_pkid a =? k | _ => false end.

Lemma lasts_incoming_pubrel k a : ack_pkid a ≠ k → lasts k (handle_incoming_pubrel a).
Proof.
  intros Hk. unfold handle_incoming_pubrel. apply later_get. intros s. destruct (negb _).
  { match goal with |- later _ _ (?m s).2 => assert (Hm : lasts k m) by lasting end. apply Hm. }
  destruct (negb _); [done|]. rewrite bind_run. unfold set_bit at 1.
  destruct (_ && _); [|done]. cbn [mret M_ret]. rewrite bind_run. cbn [mmodify].
  apply later5_set_bit; [by apply later5_same|done|by left|]. intros b. lasting.
Qed.

Lemma lasts_dispatch k packet : releases k packet = false → lasts k (dispatch_incoming packet).
Proof.
  intros Hk. destruct packet; cbn [dispatch_incoming];
    unfold handle_incoming_publish, handle_protocol_error, acknowledge_publish, handle_incoming_suback,
      handle_incoming_unsuback, handle_incoming_puback, handle_incoming_pubrec,
      handle_incoming_pubcomp, handle_incoming_connack, take_publish,
      take_pub_notice, take_rel_notice, reset_connack_scoped_state, apply_connack_properties, if_some;
    lasting.
  apply lasts_incoming_pubrel. by apply Z.eqb_neq.
Qed.

Lemma dispatch_adds packet (s : MqttState B A) :
  adds (events s) (events (dispatch_incoming packet s).2).
Proof.
  apply (lasts_dispatch (match packet with P_PubRel a => ack_pkid a + 1 | _ => 0 end)).
  destruct packet; try done. apply Z.eqb_neq. lia.
Qed.
End Lasting.

#[export] Hint Resolve lasts_release lasts_shrink lasts_ensure lasts_reserve lasts_track
  lasts_release_incoming lasts_release_quota lasts_finish lasts_puback lasts_pubrec : along.

Section Dispatch.
  Context {B A : Type} `{FixedBitSetLaws B} `{Authenticator A}.

Abbreviation ST := (M (MqttState B A) StateError).
Implicit Types (s : MqttState B A) (R : gset Z).

(** ** Packets *)

Definition packet_u16 (packet : Packet) : Prop :=
  match packet with
  | P_Publish p => is_u16 (pub_pkid p)
  | P_PubAck a => is_u16 (ack_pkid a)
  | P_PubRec a => is_u16 (ack_pkid a)
  | P_PubRel a => is_u16 (ack_pkid a)
  | P_PubComp a => is_u16 (ack_pkid a)
  | P_ConnAck connack => connack_receive_max_ok connack
  | _ => True
  end.

(** A CONNACK comes before the first publish of a connection, or is refused as a second one. *)
Definition packet_timely s (packet : Packet) : Prop :=
  match packet with
  | P_ConnAck _ => connack_received s = true ∨ inflight s = 0
  | _ => True
  end.

Lemma wp5_dispatch R s packet Q (X : StateError → _ → Prop) :
  inv R s → packet_u16 packet → packet_timely s packet →
  (∀ r s', inv R s' → Q r s') → (∀ e s', inv R s' → X e s') →
  wp (dispatch_incoming packet) Q X s.
Proof.
  intros I Hu Ht HQ HX.
  destruct packet; cbn [dispatch_incoming packet_u16 packet_timely] in *; try by apply wp_fail, HX.
  all: apply wp_bind.
  - eapply (wp5_quiet_any R (λ _, True)); [eauto with quiet|done| |done]. intros. by apply wp_ret, HQ.
  - apply (wp5_incoming_connack R); [done..| |by auto]. intros r s' I'. by apply wp_ret, HQ.
  - apply (wp5_incoming_publish R); [done..| |by auto]. intros [r p] s' I'. by apply wp_ret, HQ.
  - apply (wp5_incoming_puback R); [done..| |by auto]. intros r s' I'. by apply wp_ret, HQ.
  - eapply (wp5_quiet_any R (λ _, True)); [eauto with quiet|done| |done]. intros. by apply wp_ret, HQ.
  - apply (wp5_incoming_suback R); [done..| |by auto]. intros r s' I'. by apply wp_ret, HQ.
  - apply (wp5_incoming_pubrec R); [done..| |by auto]. intros r s' I'. by apply wp_ret, HQ.
  - apply (wp5_incoming_pubrel R); [done..| |by auto]. intros r s' I'. by apply wp_ret, HQ.
  - apply (wp5_incoming_pubcomp R); [done..| |by auto]. intros r s' I'. by apply wp_ret, HQ.
  - apply (wp5_incoming_unsuback R); [done..| |by auto]. intros r s' I'. by apply wp_ret, HQ.
  - eapply (wp5_quiet_any R (λ _, True)); [eauto with quiet|done| |done]. intros. by apply wp_ret, HQ.
Qed.

Lemma wp5_insert_event n e s (Q : unit → _ → Prop) X :
  n ≤ blen (events s) → (∀ v, Q tt (set_events v s)) → wp (insert_event n e) Q X s.
Proof.
  intros Hn HQ. unfold insert_event. apply wp_bind, wp_get. rewrite (proj2 (Z.ltb_ge _ _)) by lia.
  apply wp_modify, HQ.
Qed.

Lemma wp5_handle_packet R now packet Q (X : StateError → _ → Prop) s :
  inv R s → packet_u16 packet → packet_timely s packet →
  (∀ r s', inv R s' → Q r s') → (∀ e s', inv R s' → X e s') →
  wp (handle_incoming_packet_with_effects now packet) Q X s.
Proof.
  intros I Hu Ht HQ HX. unfold wp, handle_incoming_packet_with_effects.
  set (s0 := match packet with P_Disconnect _ => _ | _ => s end).
  assert (I0 : inv R s0) by (unfold s0; destruct packet; try done; by apply (inv5_core R s)).
  assert (Ht0 : packet_timely s0 packet) by (by destruct packet).
  assert (Hd : wp (dispatch_incoming packet) (λ _ s', inv R s') (λ _ s', inv R s') s0)
    by (apply (wp5_dispatch R); auto).
  unfold wp in Hd.
  pose proof (adds_blen _ _ (dispatch_adds packet s0)) as Hlen. clearbody s0.
  destruct (dispatch_incoming packet s0) as [[[eff p]|e|] s1]; [..|done]; cbn [snd] in Hlen.
  - match goal with |- match ?m s1 with _ => _ end => change (wp m Q X s1) end.
    apply wp_bind. destruct (_ || _).
    + apply wp_ret, wp_bind, wp_modify, wp_ret, HQ. by apply (inv5_core R s1).
    + apply wp5_insert_event; [done|]. intros v. apply wp_bind, wp_modify, wp_ret, HQ.
      by apply (inv5_core R s1).
  - match goal with |- match ?m s1 with _ => _ end => change (wp m Q X s1) end.
    apply wp_bind. destruct (queued_on_error packet e).
    + apply wp5_insert_event; [done|]. intros v. apply wp_fail, HX. by apply (inv5_core R s1).
    + by apply wp_ret, wp_fail, HX.
Qed.

(** ** With an asynchronous authenticator *)

Lemma quiet_reauth_async answer now auth_ notice :
  quiet (B:=B) (A:=A) (λ _, True)
    (auth' ← with_auth (begin_reauth (auth_properties auth_) (auth_notice notice));
     match (properties ← auth_properties auth'; auth_method properties) with
     | None => mpanic
     | Some method =>
         auth' ←
           match answer with
           | inr (AA_Send properties) =>
               if is_some (auth_properties auth_) then
                 fail_with (AE_Failed (T_literal
                   "reauthentication properties are owned by the configured authenticator"))
               else
                 match normalize_auth_properties method (Some properties) with
                 | Ok properties =>
                     mret {| auth_code := auth_code auth'; auth_properties := Some properties |}
                 | Err error => fail_with (AE_Failed (normalize_error_text error))
                 | Panic => mpanic
                 end
           | inr AA_Complete => mret auth'
           | inr (AA_Fail message) | inl (AE_Failed message) =>
               fail_auth_exchange (AN_AuthenticationFailed message) (AE_Failed message);;
               mfail (SE_AuthError message)
           | inl error => fail_with error
           end;
         mmodify (set_last_outgoing now);;
         packet ← outgoing_auth_packet auth';
         mret (Some packet, None : option NoticeTx)
     end).
Proof.
  eapply quiet_bind; [eauto with quiet|]. intros a (props & method & Hp & Hm).
  rewrite Hp. cbn. rewrite Hm.
  apply (quiet_bind (λ a, auth_properties a ≠ None)).
  - quiet_auto; try (by cbn; rewrite ?Hp); by edestruct normalize_ok.
  - intros a' Ha. apply quiet_bind_any; [quiet_auto|intros _].
    apply quiet_bind_any; [by apply quiet_auth_packet|]. quiet_auto.
Qed.

Lemma wp5_handle_request_async R answer now request notice (replay : bool) Q
    (X : StateError → _ → Prop) s :
  inv R s → request_u16 request → graceful_disconnect request = false →
  (replay = true → replayable R request) →
  (∀ r s', inv (if replay then sent_again R request else R) s' → Q r s') →
  (∀ e s', inv R s' → X e s') →
  wp (handle_outgoing_packet_with_notice_async answer now request notice replay) Q X s.
Proof.
  intros I Hu Hg Hrep HQ HX. unfold handle_outgoing_packet_with_notice_async.
  apply wp_bind, wp_get. destruct request; try by apply (wp5_handle_request R).
  destruct (async_authenticator s); cbn [negb]; [|by apply (wp5_handle_request R)].
  eapply (wp5_quiet_any R); [apply quiet_reauth_async|done| |done]. intros r s' I'. apply HQ.
  by destruct replay.
Qed.

Lemma quiet_verify_connack answer connack :
  quiet (B:=B) (A:=A) (λ _, True) (verify_connack_authentication_async answer connack).
Proof.
  unfold verify_connack_authentication_async. quiet_auto. apply quiet_lift.
  unfold validate_incoming_connack, validate_successful_connack. by repeat case_match.
Qed.

(** A challenge is continued while an exchange is active. *)
Lemma validate_auth_active a s eff s' :
  validate_incoming_auth (B:=B) (A:=A) a s = (Ok eff, s') →
  match eff with IA_Continue _ => active_exchange (auth s') ≠ None | _ => True end.
Proof.
  unfold validate_incoming_auth, with_auth.
  set (c := {| cx_auth := auth s; cx_events := events s; cx_settled := settled s |}).
  destruct (incoming_auth a c) as [r c'] eqn:Hi. cbn zeta beta iota.
  intros Hrun. destruct eff; [|done].
  assert (Hr : r = Ok (IA_Continue kind) ∧ auth s' = cx_auth c').
  { destruct r as [?|e|]; [by injection Hrun as -> <-|..|done]. exfalso. revert Hrun.
    destruct e; try done. destruct e; try done.
    match goal with |- (?m ≫= ?k) ?t = _ → _ => rewrite bind_run; by destruct (m t) as [[]] end. }
  destruct Hr as [-> ->]. clear Hrun. revert Hi. unfold incoming_auth, incoming_continue.
  destruct (auth_code a); [| |done]; rewrite bind_run; cbn [mget].
  - unfold incoming_success. destruct (AuthState_kind _) as [[]|]; cbn; try done.
    destruct (active_method _); cbn; try done. by destruct (validate_incoming_auth_method _ _).
  - cbn. destruct (al_state (auth s)) eqn:Hst; cbn; [done|..].
    all: unfold active_method; rewrite !bind_run, Hst; cbn [AuthState_method ok_or lift];
      rewrite bind_run; destruct (validate_incoming_auth_method _ _); cbn; [|done..];
      intros [= _ <-]; unfold active_exchange; cbn; by rewrite Hst.
Qed.

Lemma wp5_incoming_auth_async R answer effect s (Q : option Packet → _ → Prop)
    (X : StateError → _ → Prop) :
  inv R s →
  match effect with IA_Continue _ => active_exchange (auth s) ≠ None | _ => True end →
  (∀ r s', inv R s' → Q r s') → (∀ e s', inv R s' → X e s') →
  wp (handle_incoming_auth_async answer effect) Q X s.
Proof.
  intros I Hact HQ HX. unfold handle_incoming_auth_async. destruct effect.
  - apply wp_bind, wp_get. destruct (active_exchange _); [|done].
    eapply (wp5_quiet_any R (λ _, True)); [quiet_auto|done..].
  - eapply (wp5_quiet_any R (λ _, True)); [quiet_auto|done..].
Qed.

Lemma wp5_handle_packet_async R answer now packet Q (X : StateError → _ → Prop) s :
  inv R s → packet_u16 packet → packet_timely s packet →
  (∀ r s', inv R s' → Q r s') → (∀ e s', inv R s' → X e s') →
  wp (handle_incoming_packet_with_effects_async answer now packet) Q X s.
Proof.
  intros I Hu Ht HQ HX. unfold handle_incoming_packet_with_effects_async.
  eapply (wp5_quiet_bind R (λ _, True)); [|done| |done].
  { destruct packet; quiet_auto. apply quiet_verify_connack. }
  intros _ s1 _ I1 [Hc Hr _]. apply wp_bind, wp_get.
  assert (Ht1 : packet_timely s1 packet).
  { destruct packet; try done. cbn in *. rewrite Hr. destruct Ht as [?|Hz]; [by left|right].
    unfold core, session_of in Hc. congruence. }
  destruct packet; try by apply (wp5_handle_packet R).
  destruct (async_authenticator s1); cbn [negb]; [|by apply (wp5_handle_packet R)].
  apply wp_bind. pose proof (wp_quiet R _ _ s1 (quiet_validate_auth auth) I1) as Hv.
  pose proof (validate_auth_active auth s1) as Hact. unfold wp in Hv |- * at 1.
  destruct (validate_incoming_auth auth s1) as [[eff|e|] s2]; [|by apply HX; destruct Hv|done].
  destruct Hv as (_ & I2 & [_ _ Hev]). specialize (Hact eff s2 eq_refl).
  apply wp_bind, wp5_insert_event; [by apply adds_blen|]. intros v.
  apply wp_bind, (wp5_incoming_auth_async R); [by apply inv5_push|done| |done].
  intros r s3 I3. apply wp_bind, wp_modify, wp_ret, HQ. by apply (inv5_core R s3).
Qed.
End Dispatch.
