(* ===== verification/V5CleanProofs.v ===== *)
(** Leaving a connection or a session of the MQTT 5 client, and entering one: collecting the unfinished
    requests, resetting, discarding a request, preparing a connection and restoring a checkpoint
    preserve the invariant of the session state and cannot panic. *)

From Stdlib Require Import String.
From S2P Require Import Prelude.
From S2P Require Import Utf8.
From S2P Require Import Primitives.
From S2P Require Import FixedBitSet.
From S2P Require Import PacketIds.
From S2P Require Import V5Base.
From S2P Require Import V5Properties.
From S2P Require Import V5Acks.
From S2P Require Import V5SubAck.
From S2P Require Import V5Subscribe.
From S2P Require Import V5Publish.
From S2P Require Import V5ConnAck.
From S2P Require Import V5Disconnect.
From S2P Require Import V5Auth.
From S2P Require Import V5Packet.
From S2P Require Import V5Persist.
From S2P Require Import V5SessionTypes.
From S2P Require Import V5AuthLifecycle.
From S2P Require Import V5TopicAlias.
From S2P Require Import V5StateRecord.
From S2P Require Import V5State.
From S2P Require Import V5Incoming.
From S2P Require Import V5Clean.
From S2P Require Import V5Frame.
From S2P Require Import V5Invariant.
From S2P Require Import V5Handlers.
From S2P Require Import V5Requests.
From S2P Require Import SessionIO.
From S2P Require Import V5SessionFormat.
#[local] Open Scope Z_scope.

(** ** Leaving a connection *)

Section CleanProofs.
  Context {B A : Type} `{FixedBitSetLaws B} `{Authenticator A}.

Abbreviation ST := (M (MqttState B A) StateError).
Implicit Types (s : MqttState B A) (R : gset Z).

(** [s] with other identifiers in use. *)
Abbreviation reserving s in_use count :=
  (set_outbound_pkid_count count (set_outbound_pkid_in_use in_use s)).

Lemma fill_pub_order5 pubs k order :
  0 ≤ k → k + blen pubs ≤ full_packet_identifier_len →
  (∀ j p, 0 ≤ j → vget pubs j = Some (Some p) → k + j ∈ order) →
  fill_pub_order pubs k order = Ok order.
Proof.
  revert k. induction pubs as [|x pubs IH]; intros k Hk Hl Hall; [done|].
  rewrite blen_cons in Hl. pose proof (blen_nonneg pubs).
  unfold full_packet_identifier_len in *. cbn [fill_pub_order]. unfold expect_u16.
  rewrite (proj2 (Z.leb_le 0 k)), (proj2 (Z.leb_le k u16_MAX)) by lia. cbn [andb mbind outcome_bind].
  assert (Hno : is_some x && negb (bool_decide (k ∈ order)) = false).
  { destruct x as [p|]; [|done]. cbn [is_some is_none negb]. rewrite bool_decide_eq_true_2; [done|].
    specialize (Hall 0 p). rewrite Z.add_0_r in Hall. by apply Hall. }
  rewrite Hno. apply IH; [lia..|]. intros j p Hj Hp. specialize (Hall (1 + j) p).
  replace (k + 1 + j) with (k + (1 + j)) by lia. apply Hall; [lia|].
  unfold vget in *. replace (Z.to_nat (1 + j)) with (S (Z.to_nat j)) by lia. exact Hp.
Qed.

Lemma fill_rel_order5 pkids order :
  (∀ k, k ∈ pkids → 0 ≤ k ≤ u16_MAX ∧ k ∈ order) → fill_rel_order pkids order = Ok order.
Proof.
  induction pkids as [|k pkids IH]; intros Hall; [done|]. cbn [fill_rel_order]. unfold expect_u16.
  destruct (Hall k) as [Hk Hin]; [set_solver|].
  rewrite (proj2 (Z.leb_le 0 k)), (proj2 (Z.leb_le k u16_MAX)) by lia. cbn [andb mbind outcome_bind].
  rewrite bool_decide_eq_true_2 by done. apply IH. intros j Hj. apply Hall. set_solver.
Qed.

(** Every tracked publish and release is in its order already. *)
Lemma clean_orders5 R s :
  inv R s →
  fill_pub_order (tail (outgoing_pub s)) 1 (outgoing_pub_order s) = Ok (outgoing_pub_order s) ∧
  fill_rel_order (ones (outgoing_rel s)) (outgoing_rel_order s) = Ok (outgoing_rel_order s).
Proof.
  intros I. pose proof (len_pub _ _ _ _ _ (inv_lens _ _ I)) as Hl. split.
  - destruct (outgoing_pub s) as [|x pubs] eqn:Hp; [unfold blen in Hl; simpl in Hl; lia|].
    rewrite blen_cons in Hl. cbn [tail]. apply fill_pub_order5; [lia..|].
    intros j p Hj Hv. apply (inv5_slot_some R s I _ p); [lia|]. rewrite Hp.
    unfold vget in *. by replace (Z.to_nat (1 + j)) with (S (Z.to_nat j)) by lia.
  - apply fill_rel_order5. intros k Hk%elem_of_ones%(inv_rel _ _ I). split; [|done].
    apply (inv5_rel_range R s I) in Hk. lia.
Qed.

Lemma mark_dup5 p : pub_pkid (mark_dup p) = pub_pkid p.
Proof. unfold mark_dup. by case_decide. Qed.

Lemma wp5_clean_publishes (keep : bool) order s Q X :
  NoDup order → blen (outgoing_pub_notice s) = blen (outgoing_pub s) →
  (∀ k, k ∈ order → 0 ≤ k < blen (outgoing_pub s) ∧
     ∃ p, vget (outgoing_pub s) k = Some (Some p) ∧ pub_pkid p = k) →
  (∀ r v n, emptied order (outgoing_pub s) v → blen n = blen (outgoing_pub s) →
     Q (r, if keep then [] else order) (set_outgoing_pub_notice n (set_outgoing_pub v s))) →
  wp (clean_publishes keep order) Q X s.
Proof.
  revert s Q. induction order as [|k order IH]; intros s Q Hnd Hlen Hall HQ.
  { apply wp_ret.
    replace s with (set_outgoing_pub_notice (outgoing_pub_notice s)
      (set_outgoing_pub (outgoing_pub s) s)) at 1 by (by destruct s).
    replace (if keep then ([] : list Z) else []) with ([] : list Z) in HQ by (by destruct keep).
    apply HQ; [apply emptied_nil|done]. }
  apply NoDup_cons in Hnd as [Hk Hnd].
  destruct (Hall k) as (Hkr & p & Hp & Hpk); [by left|]. cbn [clean_publishes].
  apply wp_bind, wp_get. apply wp_index; [done|]. intros slot Hslot.
  rewrite Hp in Hslot. injection Hslot as <-. apply wp_bind, wp_modify.
  apply wp5_take_pub_notice; [fields; lia|]. intros notice. apply wp_bind.
  apply IH; [done|fields; by rewrite !blen_vset|..].
  - intros j Hj. fields. rewrite blen_vset. destruct (Hall j) as (Hjr & q & Hq & Hqk); [by right|].
    split; [done|]. exists q. rewrite vget_vset by lia.
    rewrite (proj2 (Z.eqb_neq k j)) by (by intros ->). done.
  - intros r v n Hv Hn. fields. apply wp_ret. rewrite mark_dup5, Hpk.
    specialize (HQ (mkCleanRequest (R_Publish (mark_dup p)) (TN_Publish <$> notice) true :: r) v n).
    replace (if keep then if keep then [] else order else k :: (if keep then [] else order))
      with (if keep then [] else k :: order) by (by destruct keep).
    rewrite blen_vset in Hn. by apply HQ; [apply emptied_cons|].
Qed.

Lemma wp5_release_all l ids s (Q : unit → _ → Prop) X :
  ids_ok (l ++ ids) (outbound_pkid_in_use s) (outbound_pkid_count s) →
  (∀ in_use count, ids_ok ids in_use count → Q tt (reserving s in_use count)) →
  wp (release_all l) Q X s.
Proof.
  revert s. induction l as [|k l IH]; intros s Hids HQ.
  - apply wp_ret. rewrite <- (reserving5_same s). by apply HQ.
  - cbn [release_all]. apply wp_bind, (wp5_release (l ++ ids)); [done|].
    intros in_use count Hids'. apply IH; [done|]. intros in_use' count' Hids''.
    by apply (HQ in_use' count').
Qed.

Lemma wp5_clean_collision s Q X :
  (∀ r cn, Q r (set_collision_notice cn (set_collision None s))) → wp clean_collision Q X s.
Proof.
  intros HQ. unfold clean_collision. apply wp_bind, wp_get.
  destruct (collision s) as [p|] eqn:Hc.
  - apply wp_bind, wp_modify, wp_bind, wp_modify, wp_ret, HQ.
  - apply wp_ret. specialize (HQ [] (collision_notice s)).
    by replace (set_collision_notice (collision_notice s) (set_collision None s)) with s in HQ
      by (destruct s; cbn in Hc; by subst).
Qed.

Lemma wp5_clean_pubrels order s Q X :
  (∀ k, k ∈ order → 0 ≤ k < blen (outgoing_rel_notice s)) →
  (∀ r n, blen n = blen (outgoing_rel_notice s) → Q r (set_outgoing_rel_notice n s)) →
  wp (clean_pubrels order) Q X s.
Proof.
  revert s Q. induction order as [|k order IH]; intros s Q Hall HQ.
  { apply wp_ret. replace s with (set_outgoing_rel_notice (outgoing_rel_notice s) s) at 1
      by (by destruct s). by apply HQ. }
  assert (Hkr := Hall k ltac:(by left)). cbn [clean_pubrels].
  apply wp5_take_rel_notice; [done|]. intros notice. apply wp_bind, IH.
  - intros j Hj. fields. rewrite blen_vset. apply Hall. by right.
  - intros r n Hlen. fields. rewrite blen_vset in Hlen. apply wp_ret. by apply (HQ _ n).
Qed.

Lemma wp5_mark_replay l s (Q : unit → _ → Prop) X :
  NoDup (outgoing_rel_replay_order s ++ l) →
  (∀ k, k ∈ l → 0 ≤ k < bits_len (outgoing_rel_replay s)) →
  bits_ok (outgoing_rel_replay_order s) (outgoing_rel_replay s) →
  (∀ bits, bits_len bits = bits_len (outgoing_rel_replay s) →
     bits_ok (outgoing_rel_replay_order s ++ l) bits →
     Q tt (set_outgoing_rel_replay_order (outgoing_rel_replay_order s ++ l)
            (set_outgoing_rel_replay bits s))) →
  wp (mark_pubrel_replay l) Q X s.
Proof.
  revert s. induction l as [|k l IH]; intros s Hnd Hall Hok HQ.
  { apply wp_ret. rewrite app_nil_r in HQ. specialize (HQ (outgoing_rel_replay s) eq_refl Hok).
    replace s with (set_outgoing_rel_replay_order (outgoing_rel_replay_order s)
      (set_outgoing_rel_replay (outgoing_rel_replay s) s)) by (by destruct s). done. }
  cbn [mark_pubrel_replay]. assert (Hk := Hall k ltac:(by left)).
  assert (Hnew : k ∉ outgoing_rel_replay_order s).
  { apply NoDup_app in Hnd as (_ & Hnd & _). intros Hin. by apply (Hnd k Hin); left. }
  apply wp_bind, wp_get, wp_set_bit; [done|]. apply wp_bind, wp_modify, wp_bind, wp_modify. fields.
  rewrite bool_decide_eq_false_2 by done.
  replace (outgoing_rel_replay_order s ++ k :: l) with ((outgoing_rel_replay_order s ++ [k]) ++ l)
    in * by (by rewrite <- (assoc_L (++))).
  apply IH; fields; [done|..].
  - intros j Hj. rewrite len_put_bit. apply Hall. by right.
  - by apply bits_ok_insert.
  - intros bits Hl Hb. by apply (HQ bits); [rewrite Hl, len_put_bit|].
Qed.

Lemma wp5_clean_subscribes (keep : bool) entries ids s Q X :
  ids_ok ((if keep then [] else entries.*1) ++ ids) (outbound_pkid_in_use s)
    (outbound_pkid_count s) →
  (∀ r in_use count, ids_ok ids in_use count → Q r (reserving s in_use count)) →
  wp (clean_subscribes keep entries) Q X s.
Proof.
  revert s Q. induction entries as [|[k p] entries IH]; intros s Q Hids HQ.
  { apply wp_ret. rewrite <- (reserving5_same s). apply HQ. by destruct keep. }
  cbn [clean_subscribes]. apply wp_bind. destruct keep; cbn [app fmap list_fmap fst] in Hids.
  - apply wp_ret, wp_bind, IH; [done|]. intros r in_use count Hids'. apply wp_ret. by apply HQ.
  - apply (wp5_release (entries.*1 ++ ids)); [done|]. intros in_use count Hids'.
    apply wp_bind, IH; [done|]. intros r in_use' count' Hids''. apply wp_ret.
    by apply (HQ _ in_use' count').
Qed.

Lemma wp5_clean_unsubscribes (keep : bool) entries ids s Q X :
  ids_ok ((if keep then [] else entries.*1) ++ ids) (outbound_pkid_in_use s)
    (outbound_pkid_count s) →
  (∀ r in_use count, ids_ok ids in_use count → Q r (reserving s in_use count)) →
  wp (clean_unsubscribes keep entries) Q X s.
Proof.
  revert s Q. induction entries as [|[k p] entries IH]; intros s Q Hids HQ.
  { apply wp_ret. rewrite <- (reserving5_same s). apply HQ. by destruct keep. }
  cbn [clean_unsubscribes]. apply wp_bind. destruct keep; cbn [app fmap list_fmap fst] in Hids.
  - apply wp_ret, wp_bind, IH; [done|]. intros r in_use count Hids'. apply wp_ret. by apply HQ.
  - apply (wp5_release (entries.*1 ++ ids)); [done|]. intros in_use count Hids'.
    apply wp_bind, IH; [done|]. intros r in_use' count' Hids''. apply wp_ret.
    by apply (HQ _ in_use' count').
Qed.

(** What stays reserved: on a reconnection the identifiers of the requests to send again. *)
Definition cleaned_R (keep : bool) R s : gset Z :=
  if keep then
    R ∪ list_to_set (outgoing_pub_order s) ∪ (dom (pending_subscribe s) ∪ dom (pending_unsubscribe s))
  else R.

(** The identifiers in use before, as those that are released and those that stay. *)
Lemma live5_clean (keep : bool) R s :
  NoDup (live_ids R s) →
  live_ids R s ≡ₚ
  (if keep then [] else outgoing_pub_order s) ++
  (if keep then [] else keys (pending_subscribe s)) ++
  (if keep then [] else keys (pending_unsubscribe s)) ++
  (outgoing_rel_replay_order s ++ outgoing_rel_order s) ++ elements (cleaned_R keep R s).
Proof.
  intros Hnd. unfold live_of, cleaned_R in *. destruct keep; [|solve_Permutation].
  rewrite !NoDup_app in Hnd. destruct Hnd as (Hn1 & Hd1 & _ & _ & _ & _ & _ & Hd4 & _ & Hd5 & _).
  assert (Hd : ∀ k, k ∈ R ∪ list_to_set (outgoing_pub_order s) →
    k ∈ dom (pending_subscribe s) ∪ dom (pending_unsubscribe s) → False).
  { intros k Hk Hc. rewrite elem_of_union, !elem_of_dom in Hc.
    rewrite elem_of_union, elem_of_list_to_set in Hk. destruct Hk as [Hk|Hk].
    - destruct Hc as [Hc|Hc].
      + apply (Hd4 k); [by apply keys_elem|]. rewrite elem_of_app, elem_of_elements. by right.
      + apply (Hd5 k); [by apply keys_elem|]. by rewrite elem_of_elements.
    - apply (Hd1 k Hk). rewrite !elem_of_app, !keys_elem. tauto. }
  rewrite (elements_disj_union (R ∪ _)) by (intros k; apply Hd).
  rewrite elements_union_list by (done || (intros k Hk Hin; apply (Hd1 k Hk);
    rewrite !elem_of_app, !elem_of_elements; tauto)).
  rewrite elements_disj_union, !elements_dom; [solve_Permutation|].
  intros k Hs%elem_of_dom Hu%elem_of_dom. apply (Hd4 k); [by apply keys_elem|].
  rewrite elem_of_app, keys_elem. by left.
Qed.

(** The state [clean] computes before it shrinks the vectors: [pubs], [pubn], [reln], [replay]
    are the new vectors, [in_use] and [count] the identifiers left. *)
Abbreviation collected s pubs pubn reln replay in_use count cn :=
  (set_inflight 0 (set_outgoing_publish_quota (clear_bits (outgoing_publish_quota s))
    (set_ping PingState_new (set_incoming_puback (clear_bits (incoming_puback s))
    (reserving (set_pending_unsubscribe ∅ (set_pending_subscribe ∅
      (set_outgoing_rel_recovery (with_capacity 0)
      (set_outgoing_rel (clear_bits (outgoing_rel s))
      (set_outgoing_rel_replay_order (outgoing_rel_replay_order s ++ outgoing_rel_order s)
      (set_outgoing_rel_replay replay (set_outgoing_rel_notice reln (set_outgoing_rel_order []
      (set_collision_notice cn (set_collision None
      (set_outgoing_pub_notice pubn (set_outgoing_pub pubs
      (set_outgoing_pub_order [] s))))))))))))) in_use count))))).

(** Nothing is in flight. *)
Definition settled_down s : Prop :=
  outgoing_pub_order s = [] ∧ outgoing_rel_order s = [] ∧ collision s = None.

Lemma inv5_collected (keep : bool) R s pubs pubn reln replay in_use count cn :
  inv R s → emptied (outgoing_pub_order s) (outgoing_pub s) pubs →
  blen pubn = blen (outgoing_pub s) → blen reln = blen (outgoing_pub s) →
  bits_len replay = blen (outgoing_pub s) →
  bits_ok (outgoing_rel_replay_order s ++ outgoing_rel_order s) replay →
  ids_ok ((outgoing_rel_replay_order s ++ outgoing_rel_order s) ++ elements (cleaned_R keep R s))
    in_use count →
  inv (cleaned_R keep R s) (collected s pubs pubn reln replay in_use count cn).
Proof.
  intros I He Hpn Hrn Hrl Hrep Hids. destruct (inv_lens _ _ I) as [Hl1 Hl2 Hl3 Hl4 Hl5].
  destruct (inv_limits _ _ I) as [Hu Hm Hi Hk]. inv5_frame I; try done.
  - destruct He as [He _]. split; rewrite ?len_clear; lia.
  - destruct (inv_incoming _ _ I) as [Hp Hip Hr Hri]. split; [|done..]. by rewrite len_clear.
  - by eapply slots_ok_emptied; [apply I|].
  - apply bits_ok_clear.
  - split; [|lia| |by intros k; rewrite contains_clear|done].
    + apply counted_clear, (counted_len _ _ (quota_count _ _ _ _ _ _ (inv_quota _ _ I))).
    + by intros k ?%not_elem_of_nil.
Qed.

Lemma clean_publish5_ok R s k :
  inv R s → k ∈ outgoing_pub_order s →
  0 ≤ k < blen (outgoing_pub s) ∧ ∃ p, vget (outgoing_pub s) k = Some (Some p) ∧ pub_pkid p = k.
Proof.
  intros I Hk. pose proof (inv5_pub_range R s I k Hk). split; [lia|].
  apply (slots_order _ _ (inv_slots _ _ I)) in Hk as [Hk [p Hp]]. exists p. split; [done|].
  by apply (slots_publish _ _ (inv_slots _ _ I) k p).
Qed.

Lemma wp5_clean (keep : bool) R s Q X :
  inv R s →
  (∀ r s', inv (cleaned_R keep R s) s' → settled_down s' → Q r s') →
  wp (clean_with_notices_internal keep) Q X s.
Proof.
  intros I HQ. destruct (inv_lens _ _ I) as [Hl1 Hl2 Hl3 Hl4 Hl5].
  destruct (inv5_orders_nodup R s I) as (Hn1 & Hn2 & Hn3 & _).
  pose proof (inv_ids _ _ I) as Hids. pose proof (ids_nodup _ _ _ Hids) as Hnd.
  rewrite (live5_clean keep R s Hnd) in Hids.
  assert (Hnr : NoDup (outgoing_rel_replay_order s ++ outgoing_rel_order s)).
  { apply ids_nodup in Hids. rewrite !NoDup_app in Hids. rewrite NoDup_app. tauto. }
  destruct (clean_orders5 R s I) as [Ho1 Ho2].
  unfold clean_with_notices_internal. apply wp_bind, wp_get. rewrite Ho1.
  apply wp_bind, wp_ret, wp_bind, wp_modify. rewrite Ho2. apply wp_bind, wp_ret.
  apply wp_bind, wp_modify, wp_bind, wp_modify, wp_bind.
  replace (set_outgoing_pub_order [] _) with (set_outgoing_pub_order [] s) by (by destruct s).
  apply wp5_clean_publishes; [done|done|by intros k; apply (clean_publish5_ok R s)|].
  intros publishes pubs pubn Hpubs Hpubn. apply wp_bind.
  eapply wp5_release_all; [exact Hids|]. intros u1 c1 Hids1.
  apply wp_bind, wp5_clean_collision. intros collisions cn. apply wp_bind, wp_modify, wp_bind.
  apply wp5_clean_pubrels.
  { intros k Hk. apply (inv5_rel_range R s I) in Hk. fields. lia. }
  intros pubrels reln Hreln. apply wp_bind, wp5_mark_replay; [done|..|apply I|].
  { intros k Hk. apply (inv5_rel_range R s I) in Hk. fields. lia. }
  intros replay Hrl Hrep. apply wp_bind, wp_modify, wp_bind, wp_modify.
  apply wp_bind, wp_get, wp_bind, wp_modify, wp_bind.
  apply (wp5_clean_subscribes _ _ ((if keep then [] else keys (pending_unsubscribe s)) ++
    (outgoing_rel_replay_order s ++ outgoing_rel_order s) ++ elements (cleaned_R keep R s))).
  { destruct keep; cbn [app] in Hids1 |- *; [exact Hids1|]. fields. rewrite keys_btree. exact Hids1. }
  intros subscribes u2 c2 Hids2. apply wp_bind, wp_get, wp_bind, wp_modify, wp_bind.
  apply (wp5_clean_unsubscribes _ _ ((outgoing_rel_replay_order s ++ outgoing_rel_order s) ++
    elements (cleaned_R keep R s))).
  { destruct keep; cbn [app] in Hids2 |- *; [exact Hids2|]. fields. rewrite keys_btree. exact Hids2. }
  intros unsubscribes u3 c3 Hids3. do 4 apply wp_bind, wp_modify.
  assert (I' : inv (cleaned_R keep R s) (collected s pubs pubn reln replay u3 c3 cn)).
  { reduced Hreln. reduced Hrl. reduced Hrep. apply inv5_collected; try done; lia. }
  apply wp_bind. destruct (no_entries _); [|by apply wp_ret, wp_ret, HQ].
  eapply wp5_shrink; [exact I'|]. intros s' I'' Hs. apply wp_ret, HQ; [done|].
  unfold session_of in Hs. unfold settled_down. fields. split_and!; congruence.
Qed.

(** Nothing in flight holds quota, so all of it can be given back. *)
Lemma inv5_reset_scoped R s s' :
  inv R s → settled_down s →
  core s' = core (set_incoming_inflight 0
    (set_incoming_publish_quota (clear_bits (incoming_publish_quota s))
    (set_inflight 0 (set_outgoing_publish_quota (clear_bits (outgoing_publish_quota s))
    (set_max_outgoing_inflight (max_outgoing_inflight_upper_limit s) s))))) →
  inv R s'.
Proof.
  intros I (Hp & Hr & Hc) Hs. eapply inv5_core; [|exact Hs].
  destruct (inv_limits _ _ I) as [Hu Hm Hi Hk]. inv5_frame I.
  - split; lia || done.
  - apply counted_clear, (counted_len _ _ (inv_received _ _ I)).
  - lia.
  - rewrite Hp, Hc. split; [|lia| |by intros k; rewrite contains_clear|done].
    + apply counted_clear, (counted_len _ _ (quota_count _ _ _ _ _ _ (inv_quota _ _ I))).
    + by intros k ?%not_elem_of_nil.
Qed.

Lemma wp5_reset_scoped R s (Q : unit → _ → Prop) X :
  inv R s → settled_down s →
  (∀ s', inv R s' → inflight s' = 0 → incoming_inflight s' = 0 → Q tt s') →
  wp reset_connection_scoped_state Q X s.
Proof.
  intros I Hd HQ. unfold reset_connection_scoped_state, reset_connack_scoped_state.
  do 5 apply wp_bind, wp_modify. apply wp_modify, HQ; [|done..]. by apply (inv5_reset_scoped R s).
Qed.

(** ** Failing and resetting *)

Lemma inv5_new now m am policy alias_max receive_max method (a : option A) :
  0 ≤ m ≤ u16_MAX → 0 ≤ receive_max ≤ u16_MAX →
  inv ∅ (new_internal (B:=B) now m am policy alias_max receive_max method a).
Proof.
  intros Hm Hr. pose proof (warm_tracking_len_range m Hm) as Hw. unfold new_internal.
  assert (Hb : ∀ T (x : T), blen (replicate (Z.to_nat (warm_tracking_len m)) x) = warm_tracking_len m).
  { intros T x. unfold blen. rewrite length_replicate. lia. }
  constructor; fields; try done.
  - split; unfold is_u16; lia.
  - split; rewrite ?len_with_capacity, ?Hb by lia; unfold full_packet_identifier_len, u16_MAX; lia.
  - split; [by rewrite len_with_capacity..|]. intros k. by rewrite contains_with_capacity.
  - apply counted_new.
  - lia.
  - apply slots_ok_empty.
  - apply bits_ok_empty.
  - apply bits_ok_empty.
  - unfold live_of. rewrite elements_empty. split; try done; [by apply len_with_capacity|constructor| |].
    + by intros k ?%not_elem_of_nil.
    + apply bits_ok_empty.
  - split; [apply counted_new|lia| |by intros k; rewrite contains_with_capacity|done].
    by intros k ?%not_elem_of_nil.
Qed.

(** Completing a notice changes no state but the list of completed notices. *)
Lemma wp5_settle_opt {T} tx r (c : ST T) Q X s :
  (∀ l, wp c Q X (set_settled l s)) → wp (settle_opt tx r;; c) Q X s.
Proof.
  intros Hc. apply wp_bind. destruct tx; cbn [settle_opt]; [apply wp_modify, Hc|]. apply wp_ret.
  specialize (Hc (settled s)). by replace (set_settled (settled s) s) with s in Hc by (by destruct s).
Qed.

(** [s] with other identifiers in use and other completed notices. *)
Abbreviation draining s in_use count l := (set_settled l (reserving s in_use count)).

Lemma draining_same s :
  draining s (outbound_pkid_in_use s) (outbound_pkid_count s) (settled s) = s.
Proof. by destruct s. Qed.

Lemma wp5_drain_subscribes reason entries ids s (Q : unit → _ → Prop) X :
  ids_ok (entries.*1 ++ ids) (outbound_pkid_in_use s) (outbound_pkid_count s) →
  (∀ in_use count l, ids_ok ids in_use count → Q tt (draining s in_use count l)) →
  wp (drain_subscribes reason entries) Q X s.
Proof.
  revert s. induction entries as [|[k p] entries IH]; intros s Hids HQ.
  { apply wp_ret. rewrite <- (draining_same s). by apply HQ. }
  cbn [drain_subscribes]. apply wp_bind, (wp5_release (entries.*1 ++ ids)); [done|].
  intros in_use count Hids'. apply wp5_settle_opt. intros l. apply IH; [done|].
  intros in_use' count' l' Hids''. by apply (HQ in_use' count' l').
Qed.

Lemma wp5_drain_unsubscribes reason entries ids s (Q : unit → _ → Prop) X :
  ids_ok (entries.*1 ++ ids) (outbound_pkid_in_use s) (outbound_pkid_count s) →
  (∀ in_use count l, ids_ok ids in_use count → Q tt (draining s in_use count l)) →
  wp (drain_unsubscribes reason entries) Q X s.
Proof.
  revert s. induction entries as [|[k p] entries IH]; intros s Hids HQ.
  { apply wp_ret. rewrite <- (draining_same s). by apply HQ. }
  cbn [drain_unsubscribes]. apply wp_bind, (wp5_release (entries.*1 ++ ids)); [done|].
  intros in_use count Hids'. apply wp5_settle_opt. intros l. apply IH; [done|].
  intros in_use' count' l' Hids''. by apply (HQ in_use' count' l').
Qed.

Lemma inv5_drained R s in_use count l :
  inv R s →
  ids_ok (outgoing_pub_order s ++ outgoing_rel_order s ++ outgoing_rel_replay_order s ++ elements R)
    in_use count →
  inv R (draining (set_pending_unsubscribe ∅ (set_pending_subscribe ∅ s)) in_use count l).
Proof. intros I Hids. inv5_frame I; done. Qed.

Lemma wp5_drain_tracked R reason s (Q : Z → _ → Prop) X :
  inv R s →
  (∀ n s', inv R s' → max_outgoing_inflight_upper_limit s' = max_outgoing_inflight_upper_limit s →
     max_incoming_inflight s' = max_incoming_inflight s → Q n s') →
  wp (drain_tracked_requests_as_failed reason) Q X s.
Proof.
  intros I HQ. unfold drain_tracked_requests_as_failed. apply wp_bind, wp_get.
  pose proof (inv_ids _ _ I) as Hids.
  assert (Hp : live_ids R s ≡ₚ (btree_entries (pending_subscribe s)).*1 ++
    (btree_entries (pending_unsubscribe s)).*1 ++ outgoing_pub_order s ++ outgoing_rel_order s ++
    outgoing_rel_replay_order s ++ elements R).
  { unfold live_of. rewrite !keys_btree. solve_Permutation. }
  rewrite Hp in Hids. apply wp_bind, wp_modify, wp_bind.
  eapply wp5_drain_subscribes; [exact Hids|]. intros u1 c1 l1 Hids1.
  apply wp_bind, wp_get, wp_bind, wp_modify, wp_bind.
  eapply wp5_drain_unsubscribes; [exact Hids1|]. intros u2 c2 l2 Hids2.
  apply wp_ret, HQ; [|done..].
  match goal with |- inv R ?x =>
    replace x with (draining (set_pending_unsubscribe ∅ (set_pending_subscribe ∅ s)) u2 c2 l2)
      by (by destruct s) end.
  by apply inv5_drained.
Qed.

Lemma wp5_fail_slots reason slots s (Q : unit → _ → Prop) X :
  (∀ l, Q tt (set_settled l s)) → wp (fail_slots reason slots) Q X s.
Proof.
  revert s. induction slots as [|slot slots IH]; intros s HQ.
  - apply wp_ret. specialize (HQ (settled s)).
    by replace (set_settled (settled s) s) with s in HQ by (by destruct s).
  - cbn [fail_slots]. apply wp5_settle_opt. intros l. apply IH. intros l'. by apply (HQ l').
Qed.

Lemma inv5_no_collision R s v n : inv R s → inv R (set_ping v (set_collision_notice n (set_collision None s))).
Proof.
  intros I. destruct (inv_quota _ _ I) as [Hc Hm Hqp Hqo _]. inv5_frame I. by split.
Qed.

Lemma blen_none {T} (v : list (option T)) : blen ((λ _, None : option T) <$> v) = blen v.
Proof. unfold blen. by rewrite length_fmap. Qed.

Lemma wp5_fail_pending R reason s (Q : unit → _ → Prop) X :
  inv R s → (∀ s', inv R s' → Q tt s') → wp (fail_pending_notices reason) Q X s.
Proof.
  intros I HQ. destruct (inv_lens _ _ I) as [Hl1 Hl2 Hl3 Hl4 Hl5]. unfold fail_pending_notices.
  apply wp_bind, wp_get, wp_bind, wp_modify, wp_bind, wp5_fail_slots. intros l1.
  apply wp_bind, wp_modify, wp_bind, wp5_fail_slots. intros l2.
  apply wp_bind, wp_modify, wp5_settle_opt. intros l3. apply wp_bind, (wp5_drain_tracked R).
  { inv5_frame I. split; rewrite ?blen_none; done. }
  intros n s5 I5 _ _. unfold clear_collision. do 2 apply wp_bind, wp_modify. apply wp_modify, HQ.
  by apply (inv5_no_collision R s5).
Qed.

(** The flows of a session, the releases to be sent again aside. *)
Definition flows_of s :=
  ((outgoing_pub_order s, outgoing_rel_order s, inflight s),
   (pending_subscribe s, pending_unsubscribe s, collision s),
   (incoming_pub s, incoming_pubrec s)).

Lemma wp5_reset R now reason s (Q : unit → _ → Prop) X :
  inv R s →
  (∀ s', inv ∅ s' → outgoing_rel_replay_order s' = [] →
     flows_of s' = (([], [], 0), (∅, ∅, None),
       (with_capacity (u16_MAX + 1), with_capacity (u16_MAX + 1))) → Q tt s') →
  wp (reset_session_state_with_reason now reason) Q X s.
Proof.
  intros I HQ. unfold reset_session_state_with_reason. apply wp_bind, (wp5_fail_pending R); [done|].
  intros s' I'. apply wp_modify, HQ; [|done..]. destruct (inv_limits _ _ I') as [Hu Hm Hi Hk].
  eapply inv5_core; [apply inv5_new|reflexivity]; lia.
Qed.

(** A request that is not sent again gives its identifier back. *)
Definition discardable R s (request : Request) : Prop :=
  match request with
  | R_PubRel a => ack_pkid a ∈ outgoing_rel_replay_order s
  | _ => replayable R request
  end.

Lemma inv5_unreserve R s k in_use count :
  inv R s → ids_ok (live_ids (R ∖ {[k]}) s) in_use count → inv (R ∖ {[k]}) (reserving s in_use count).
Proof. intros I Hids. inv5_frame I. done. Qed.

Lemma wp5_unreserve R s k (Q : unit → _ → Prop) X :
  inv R s → k ∈ R → (∀ s', inv (R ∖ {[k]}) s' → Q tt s') → wp (release_outbound_pkid k) Q X s.
Proof.
  intros I Hk HQ. apply (wp5_release (live_ids (R ∖ {[k]}) s)).
  - pose proof (inv_ids _ _ I) as Hi. by rewrite (live5_reserved_remove R s k Hk) in Hi.
  - intros in_use count Hids. apply HQ. by apply inv5_unreserve.
Qed.

Lemma inv5_discarded R s k in_use count :
  inv R s → k ∈ outgoing_rel_replay_order s →
  let s1 := set_outgoing_rel_replay_order (remove_ordered_pkid (outgoing_rel_replay_order s) k)
    (set_outgoing_rel_replay (put_bit (outgoing_rel_replay s) k false) s) in
  ids_ok (live_ids R s1) in_use count → inv R (reserving s1 in_use count).
Proof.
  intros I Hk s1 Hids. unfold s1 in *. reduced Hids.
  destruct (inv_lens _ _ I) as [Hl1 Hl2 Hl3 Hl4 Hl5].
  destruct (inv5_orders_nodup R s I) as (_ & _ & Hnd & _). inv5_frame I.
  - split; rewrite ?len_put_bit; done.
  - apply bits_ok_remove; [apply I|done..].
  - done.
Qed.

Lemma wp5_discard R s request (Q : unit → _ → Prop) (X : StateError → _ → Prop) :
  inv R s → discardable R s request → (∀ s', inv (sent_again R request) s' → Q tt s') →
  wp (discard_replayed_request request) Q X s.
Proof.
  intros I Hd HQ. unfold discard_replayed_request. destruct request; cbn in *; try by apply HQ.
  - case_decide; [by apply wp_ret, HQ|]. apply (wp5_unreserve R); [done|by apply Hd|done].
  - set (k := ack_pkid pubrel) in *. apply wp_bind, wp_get.
    destruct (inv5_replay_range R s I k Hd) as [Hk Hlen].
    pose proof (len_replay _ _ _ _ _ (inv_lens _ _ I)) as Hl. apply wp_set_bit; [lia|].
    apply wp_bind, wp_modify, wp_bind, wp_modify.
    match goal with |- wp _ _ _ ?x => apply (wp5_release (live_ids R x)) end.
    + fields. pose proof (inv_ids _ _ I) as Hi. rewrite (live5_replay_remove R s k Hd) in Hi. exact Hi.
    + intros in_use count Hids. apply HQ. by apply (inv5_discarded R s k).
  - by apply (wp5_unreserve R).
  - by apply (wp5_unreserve R).
Qed.

(** ** A new connection *)

Lemma quiet_begin_connect answer method :
  quiet (B:=B) (A:=A) (λ _, True) (begin_authentication_connect_async answer method).
Proof.
  unfold begin_authentication_connect_async, begin_authentication_connect.
  quiet_auto; by edestruct normalize_ok.
Qed.

(** What [mqtt_connect] does to the state before it sends CONNECT. *)
Definition prepare_connect (answer : AuthError + AuthAction) (client_id : Bytes)
    (topic_alias_max receive_maximum : option u16) (method : option Bytes)
  : ST (option AuthProperties) :=
  refresh_auth_client_id client_id;;
  mmodify (set_connection_failure_packet None);;
  set_client_topic_alias_max topic_alias_max;;
  set_client_receive_maximum receive_maximum;;
  begin_authentication_connect_async answer method.

Lemma wp5_prepare_connect R answer id alias_max receive_max method s Q (X : StateError → _ → Prop) :
  inv R s → incoming_inflight s = 0 → is_u16 (default u16_MAX receive_max) →
  (∀ r s', inv R s' → Q r s') → (∀ e s', inv R s' → X e s') →
  wp (prepare_connect answer id alias_max receive_max method) Q X s.
Proof.
  intros I Hz Hm HQ HX. unfold prepare_connect, refresh_auth_client_id, set_client_topic_alias_max,
    set_client_receive_maximum. do 4 apply wp_bind, wp_modify.
  eapply (wp5_quiet_any R); [apply quiet_begin_connect| |done..].
  set (limit := default u16_MAX receive_max) in *.
  apply (inv5_core R (set_max_incoming_inflight limit s)); [|by case_match].
  destruct (inv_limits _ _ I) as [Hu Hmo Hi Hk]. unfold is_u16 in Hm. inv5_frame I.
  - split; unfold u16_MAX in *; lia || done.
  - lia.
Qed.

(** ** Restoring a session *)

Abbreviation RT := (M (MqttState B A) SessionRestoreError).

Definition persisted_pkid (request : PersistedRequest) : Z :=
  match request with
  | PR_Publish p => pp_pkid p
  | PR_PubRel p => prel_pkid p
  | PR_Subscribe u => psub_pkid u
  | PR_Unsubscribe u => punsub_pkid u
  end.

(** The identifiers reserved for requests that are not releases. *)
Definition restored_R (replay : list PersistedRequest) : gset Z :=
  list_to_set (omap (λ r, match r with PR_PubRel _ => None | _ => Some (persisted_pkid r) end) replay).

(** The releases among the requests. *)
Definition released_pkids (replay : list PersistedRequest) : list Z :=
  omap (λ r, match r with PR_PubRel p => Some (prel_pkid p) | _ => None end) replay.

(** The identifiers of [s], whose number has not been stored yet. *)
Definition restoring R s : Prop := inv R (set_outbound_pkid_count (blen (live_ids R s)) s).

Lemma wp5_run {T} (m : ST T) (Q : T → _ → Prop) (X : SessionRestoreError → _ → Prop) s :
  wp m Q (λ _ _, False) s → wp (run m) Q X s.
Proof. unfold wp, run. by destruct (m s) as [[] ?]. Qed.

Lemma ensure5_count n c s :
  (ensure_outgoing_tracking_capacity n (set_outbound_pkid_count c s)).2 =
  set_outbound_pkid_count c (ensure_outgoing_tracking_capacity n s).2.
Proof.
  destruct s as [? ? ? ? ? ? pubs ? pubn rel ? ? replay ? reln].
  unfold ensure_outgoing_tracking_capacity, mmodify. cbn [snd]. fields.
  destruct (blen pubs <? n); fields; destruct (blen pubn <? n); fields;
    destruct (blen reln <? n); fields; destruct (bits_len rel <? n); fields;
    by destruct (bits_len replay <? n).
Qed.

Lemma wp5_restoring_ensure R k s (Q : unit → _ → Prop) (X : SessionRestoreError → _ → Prop) :
  restoring R s → k + 1 ≤ full_packet_identifier_len →
  (∀ s', restoring R s' → live_ids R s' = live_ids R s → k < blen (outgoing_pub s') →
     flows_of s' = flows_of s → outgoing_rel_replay_order s' = outgoing_rel_replay_order s → Q tt s') →
  wp (run (ensure_outgoing_tracking_capacity (k + 1))) Q X s.
Proof.
  intros I Hk HQ. apply wp5_run. change (Q tt (ensure_outgoing_tracking_capacity (k + 1) s).2).
  set (n := blen (live_ids R s)).
  assert (Hw : wp (ensure_outgoing_tracking_capacity (k + 1))
    (λ _ s', inv R s' ∧ session_of s' = session_of (set_outbound_pkid_count n s) ∧
       k + 1 ≤ blen (outgoing_pub s')) (λ _ _, False) (set_outbound_pkid_count n s)).
  { by apply (wp5_ensure R). }
  change (let s' := (ensure_outgoing_tracking_capacity (k + 1) (set_outbound_pkid_count n s)).2 in
    inv R s' ∧ session_of s' = session_of (set_outbound_pkid_count n s) ∧
    k + 1 ≤ blen (outgoing_pub s')) in Hw.
  rewrite ensure5_count in Hw. set (s' := (ensure_outgoing_tracking_capacity (k + 1) s).2) in *.
  cbv zeta in Hw. destruct Hw as (I' & Hs & Hlen). pose proof Hs as Hf.
  unfold session_of in Hf. reduced Hf. injection Hf as Hf.
  apply session5_eq in Hs as (_ & _ & Hlive).
  specialize (Hlive R). reduced Hlive. reduced Hlen. apply HQ; [|done|lia|unfold flows_of; congruence|done].
  unfold restoring. by rewrite Hlive.
Qed.

Lemma restoring_put R R' s k bits order replays :
  restoring R s →
  1 ≤ k ≤ u16_MAX → k ∉ live_ids R s →
  live_of R' (outgoing_pub_order s) (outgoing_rel_order s) order (pending_subscribe s)
    (pending_unsubscribe s) ≡ₚ k :: live_ids R s →
  bits = put_bit (outbound_pkid_in_use s) k true →
  bits_ok order replays → bits_len replays = bits_len (outgoing_rel_replay s) →
  restoring R' (set_outbound_pkid_in_use bits
    (set_outgoing_rel_replay_order order (set_outgoing_rel_replay replays s))).
Proof.
  intros I Hk Hfresh Hp -> Hb Hl. unfold restoring in *. inv5_frame I.
  - destruct (inv_lens _ _ I) as [Hl1 Hl2 Hl3 Hl4 Hl5]. fields. split; rewrite ?Hl; done.
  - done.
  - rewrite (blen_perm _ _ Hp), blen_cons, Z.add_comm, Hp. apply ids_ok_insert; [apply I|done..].
Qed.

Lemma restoring_len R s : restoring R s → bits_len (outbound_pkid_in_use s) = full_packet_identifier_len.
Proof. intros I. apply (ids_len _ _ _ (inv_ids _ _ I)). Qed.

(** A request whose identifier is free is restored: a release joins those to be sent again, any other
    request has its identifier reserved. *)
Definition restored_with R (request : PersistedRequest) : gset Z :=
  match request with PR_PubRel _ => R | _ => {[persisted_pkid request]} ∪ R end.

Lemma live5_add R s k : k ∉ live_ids R s → live_ids ({[k]} ∪ R) s ≡ₚ k :: live_ids R s.
Proof.
  intros Hk. apply not_live5 in Hk as (_ & _ & _ & _ & _ & Hk). unfold live_of.
  rewrite elements_union_singleton by done. solve_Permutation.
Qed.

Lemma wp5_restore_request R request s (Q : unit → _ → Prop) (X : SessionRestoreError → _ → Prop) :
  let k := persisted_pkid request in
  restoring R s → 1 ≤ k ≤ u16_MAX → k ∉ live_ids R s →
  (∀ s', restoring (restored_with R request) s' →
     (∀ j, j ∈ live_ids (restored_with R request) s' ↔ j = k ∨ j ∈ live_ids R s) →
     flows_of s' = flows_of s →
     outgoing_rel_replay_order s' = outgoing_rel_replay_order s ++ released_pkids [request] → Q tt s') →
  wp (restore_request request) Q X s.
Proof.
  intros k I Hk Hfresh HQ.
  assert (Hput : ∀ s1, restoring R s1 → live_ids R s1 = live_ids R s → flows_of s1 = flows_of s →
    outgoing_rel_replay_order s1 = outgoing_rel_replay_order s → released_pkids [request] = [] →
    restored_with R request = {[k]} ∪ R →
    wp (s ← mget; in_use ← insert_bit (outbound_pkid_in_use s) k;
        mmodify (set_outbound_pkid_in_use in_use)) Q X s1).
  { intros s1 I1 Hlive Hf Ho Hn HR. apply wp_bind, wp_get. unfold insert_bit.
    apply wp_set_bit; [rewrite (restoring_len R) by done; unfold full_packet_identifier_len; lia|].
    apply wp_modify. rewrite HR, Hn, app_nil_r in HQ. pose proof (live5_add R s1 k ltac:(by rewrite Hlive)) as Hp.
    apply HQ.
    - replace s1 with (set_outgoing_rel_replay_order (outgoing_rel_replay_order s1)
        (set_outgoing_rel_replay (outgoing_rel_replay s1) s1)) at 2 by (by destruct s1).
      apply (restoring_put R _ s1 k); try done; [by rewrite Hlive|apply I1].
    - intros j. fields. rewrite Hp, elem_of_cons, Hlive. done.
    - exact Hf.
    - exact Ho. }
  unfold restore_request. apply wp_bind. destruct request; cbn [persisted_pkid] in *.
  - apply wp_bind, (wp5_restoring_ensure R); [done|unfold full_packet_identifier_len; lia|].
    intros s1 I1 Hlive Hlen Hf Ho. by apply wp_ret, Hput.
  - apply wp_bind, (wp5_restoring_ensure R); [done|unfold full_packet_identifier_len; lia|].
    intros s1 I1 Hlive Hlen Hf Ho. apply wp_bind, wp_get. unfold insert_bit.
    pose proof (len_replay _ _ _ _ _ (inv_lens _ _ I1)) as Hl. reduced Hl.
    pose proof (inv_replay _ _ I1) as Hb. reduced Hb. pose proof (restoring_len R s1 I1) as Hu.
    apply wp_set_bit; [fold k; lia|]. apply wp_bind, wp_modify, wp_bind, wp_modify, wp_ret.
    apply wp_bind, wp_get. unfold insert_bit. fold k in Hlen |- *.
    apply wp_set_bit; [fields; rewrite Hu; unfold full_packet_identifier_len; lia|].
    apply wp_modify, HQ.
    + apply (restoring_put R R s1 k); try done; [by rewrite Hlive|unfold live_of; solve_Permutation| |].
      * apply bits_ok_insert; [done|lia].
      * by rewrite len_put_bit.
    + intros j. fields. rewrite <- Hlive. unfold live_of.
      rewrite !elem_of_app, list_elem_of_singleton. tauto.
    + exact Hf.
    + fields. by rewrite Ho.
  - by apply wp_ret, Hput.
  - by apply wp_ret, Hput.
Qed.

Abbreviation pkids_of replay := (persisted_pkid <$> replay).

Lemma restored_R_cons R r replay :
  restored_with R r ∪ restored_R replay = R ∪ restored_R (r :: replay).
Proof. unfold restored_R. destruct r; cbn; set_solver. Qed.

Lemma wp5_restore_requests R replay s (Q : unit → _ → Prop) (X : SessionRestoreError → _ → Prop) :
  restoring R s → NoDup (pkids_of replay) →
  (∀ k, k ∈ pkids_of replay → 1 ≤ k ≤ u16_MAX ∧ k ∉ live_ids R s) →
  (∀ s', restoring (R ∪ restored_R replay) s' → flows_of s' = flows_of s →
     outgoing_rel_replay_order s' = outgoing_rel_replay_order s ++ released_pkids replay → Q tt s') →
  wp (restore_requests replay) Q X s.
Proof.
  revert R s. induction replay as [|r replay IH]; intros R s I Hnd Hall HQ.
  { apply wp_ret, HQ; [|done|by rewrite app_nil_r]. unfold restored_R. cbn. by rewrite (right_id_L ∅ (∪)). }
  cbn [fmap list_fmap] in Hnd, Hall. apply NoDup_cons in Hnd as [Hr Hnd].
  destruct (Hall (persisted_pkid r)) as [Hk Hfresh]; [by left|]. cbn [restore_requests].
  apply wp_bind, (wp5_restore_request R); [done..|]. intros s1 I1 Hlive Hf Ho.
  apply (IH (restored_with R r)); [done|done|..].
  - intros k Hk'. destruct (Hall k) as [Hk1 Hk2]; [by right|]. split; [done|]. rewrite Hlive.
    intros [->|?]; done.
  - intros s2 I2 Hf2 Ho2. apply HQ; [by rewrite <- restored_R_cons|congruence|].
    rewrite Ho2, Ho, <- app_assoc. f_equal. by destruct r.
Qed.

(** What the checks of a persisted session establish. *)
Definition persisted_valid (r : PersistedRequest) : Prop :=
  persisted_pkid r ≠ 0 ∧ match r with PR_Publish p => pp_qos p ≠ PQ_AtMostOnce | _ => True end.

Definition persisted_publishes_of (replay : list PersistedRequest) : list PersistedPublish :=
  omap (λ r, match r with PR_Publish p => Some p | _ => None end) replay.

Definition signature_ok (options : SessionOptions) (session : PersistedSession) : Prop :=
  session_format_version session = 2 ∧ session_client_id session = opt_client_id options ∧
  session_clean_start session = opt_clean_start options ∧
  session_outgoing_inflight_upper_limit session = opt_outgoing_inflight_upper_limit options ∧
  session_ack_mode session = persisted_ack_mode (opt_ack_mode options).

Definition packet_ids_ok (m : Z) (session : PersistedSession) : Prop :=
  Forall (λ i, pi_pkid i ≠ 0) (session_incoming_qos2 session) ∧
  Forall persisted_valid (session_replay session) ∧ NoDup (pkids_of (session_replay session)) ∧
  blen (persisted_publishes_of (session_replay session)) ≤ m.

Lemma validate5_signature options session :
  match validate_persisted_session_signature options session with
  | Ok _ => signature_ok options session
  | Err _ => ¬ signature_ok options session
  | Panic => False
  end.
Proof.
  unfold validate_persisted_session_signature, signature_ok.
  destruct (Z.eqb_spec (session_format_version session) 2); cbn [negb]; [|tauto].
  repeat (case_bool_decide; cbn [negb]; [|tauto]). done.
Qed.

Lemma validate5_request r :
  match validate_persisted_replay_request r with
  | Ok k => k = persisted_pkid r ∧ persisted_valid r
  | Err _ => ¬ persisted_valid r
  | Panic => False
  end.
Proof.
  unfold validate_persisted_replay_request, validate_pkid, persisted_valid.
  destruct r; cbn [persisted_pkid];
    match goal with |- context [?k =? 0] => destruct (Z.eqb_spec k 0) end; cbn; try (done || tauto).
  case_bool_decide; tauto.
Qed.

Lemma validate5_incoming incoming :
  match validate_incoming incoming with
  | Ok _ => Forall (λ i, pi_pkid i ≠ 0) incoming
  | Err _ => ¬ Forall (λ i, pi_pkid i ≠ 0) incoming
  | Panic => False
  end.
Proof.
  induction incoming as [|i incoming IH]; [constructor|]. cbn [validate_incoming]. unfold validate_pkid.
  destruct (Z.eqb_spec (pi_pkid i) 0); cbn; [rewrite Forall_cons; tauto|].
  destruct (validate_incoming incoming); rewrite ?Forall_cons; tauto.
Qed.

Lemma wp5_validate_replay replay ids bits n s (Q : Z → _ → Prop) (X : SessionRestoreError → _ → Prop) :
  bits_len bits = full_packet_identifier_len → bits_ok ids bits → Forall is_u16 (pkids_of replay) →
  let valid := Forall persisted_valid replay ∧ NoDup (pkids_of replay) ∧
    (∀ k, k ∈ pkids_of replay → k ∉ ids) in
  (∀ e, ¬ valid → X e s) →
  (valid → Q (n + blen (persisted_publishes_of replay)) s) →
  wp (validate_replay replay bits n) Q X s.
Proof.
  revert ids bits n. induction replay as [|r replay IH]; intros ids bits n Hl Hb Hu valid HX HQ.
  { rewrite Z.add_0_r in HQ. apply wp_ret, HQ. split_and!; [constructor..|].
    by intros k ?%not_elem_of_nil. }
  cbn [fmap list_fmap] in *. apply Forall_cons in Hu as [Hr Hu]. cbn [validate_replay].
  pose proof (validate5_request r) as Hspec. apply wp_bind, wp_lift.
  assert (Hvalid : valid ↔ persisted_valid r ∧ Forall persisted_valid replay ∧
    persisted_pkid r ∉ pkids_of replay ∧ NoDup (pkids_of replay) ∧
    (∀ k, k ∈ persisted_pkid r :: pkids_of replay → k ∉ ids)).
  { unfold valid. rewrite Forall_cons, NoDup_cons. tauto. }
  clearbody valid.
  destruct (validate_persisted_replay_request r) as [k|e|]; [|apply HX; tauto|done].
  destruct Hspec as [-> Hv]. destruct (contains bits _) eqn:Hc.
  { apply wp_fail, HX. intros (_ & _ & _ & _ & Hf)%Hvalid. apply (Hf (persisted_pkid r)); [by left|by apply Hb]. }
  assert (Hrange : 0 ≤ persisted_pkid r < bits_len bits).
  { rewrite Hl. unfold is_u16, full_packet_identifier_len, u16_MAX in *. lia. }
  assert (Hnew : persisted_pkid r ∉ ids) by (intros Hin; apply Hb in Hin; congruence).
  assert (Hiff : (∀ k, k ∈ pkids_of replay → k ∉ ids ++ [persisted_pkid r]) ↔
    persisted_pkid r ∉ pkids_of replay ∧ ∀ k, k ∈ persisted_pkid r :: pkids_of replay → k ∉ ids).
  { set_solver. }
  unfold insert_bit. apply wp_set_bit; [done|].
  apply (IH (ids ++ [persisted_pkid r])); [by rewrite len_put_bit|by apply bits_ok_insert|done|..].
  - intros e Hn. rewrite Hiff in Hn. apply HX. tauto.
  - rewrite Hiff. intros Hok. replace (_ + _) with (n + blen (persisted_publishes_of (r :: replay))); [apply HQ; tauto|].
    destruct r; unfold persisted_publishes_of; cbn [omap list_omap]; rewrite ?blen_cons; lia.
Qed.

Lemma wp5_validate_packet_ids session s (Q : unit → _ → Prop) (X : SessionRestoreError → _ → Prop) :
  Forall is_u16 (pkids_of (session_replay session)) →
  let valid := packet_ids_ok (max_outgoing_inflight_upper_limit s) session in
  (∀ e, ¬ valid → X e s) → (valid → Q tt s) →
  wp (validate_persisted_session_packet_ids session) Q X s.
Proof.
  intros Hu valid HX HQ. unfold valid, packet_ids_ok in *. unfold validate_persisted_session_packet_ids.
  pose proof (validate5_incoming (session_incoming_qos2 session)) as Hvi. apply wp_bind, wp_lift.
  destruct (validate_incoming _); [|apply HX; tauto|done].
  apply wp_bind, (wp5_validate_replay _ []); [by rewrite len_with_capacity|apply bits_ok_empty|done|..].
  { intros e Hn. apply HX. intros (_ & Hv & Hnd & _). apply Hn. split_and!; [done..|].
    by intros k _ ?%not_elem_of_nil. }
  intros (Hv & Hnd & _). apply wp_bind, wp_get. destruct (Z.ltb_spec
    (max_outgoing_inflight_upper_limit s) (0 + blen (persisted_publishes_of (session_replay session)))).
  - apply wp_fail, HX. intros (_ & _ & _ & ?). lia.
  - apply wp_ret, HQ. split_and!; try done. 
Qed.

(** The QoS 2 publishes received are recorded. *)
Lemma wp5_restore_incoming R incoming s (Q : unit → _ → Prop) (X : SessionRestoreError → _ → Prop) :
  inv R s → Forall (λ i, is_u16 (pi_pkid i)) incoming →
  (∀ s' pubs pubrecs, inv R s' → s' = set_incoming_pubrec pubrecs (set_incoming_pub pubs s) →
     (∀ k, contains pubs k = bool_decide (k ∈ pi_pkid <$> incoming) || contains (incoming_pub s) k) →
     (∀ k, contains pubrecs k = bool_decide (k ∈ pi_pkid <$> incoming) || contains (incoming_pubrec s) k) →
     Q tt s') → wp (restore_incoming incoming) Q X s.
Proof.
  intros I Hu. revert s I. induction Hu as [|i incoming Hi _ IH]; intros s I HQ.
  { apply wp_ret, (HQ s (incoming_pub s) (incoming_pubrec s)); [done|by destruct s|done..]. }
  cbn [restore_incoming]. destruct (inv_incoming _ _ I) as [Hl1 Hl2 Hl3 Hsub].
  assert (Hr : 0 ≤ pi_pkid i < full_packet_identifier_len)
    by (unfold is_u16, full_packet_identifier_len, u16_MAX in *; lia).
  apply wp_bind, wp_get. unfold insert_bit. apply wp_set_bit; [lia|]. apply wp_bind, wp_modify.
  apply wp_set_bit; [lia|]. apply wp_bind, wp_modify. apply IH.
  { inv5_frame I. apply incoming_ok_pubrec; [by apply incoming_ok_pub|done|].
    by rewrite contains_put_bit, Z.eqb_refl by lia. }
  assert (Hadd : ∀ (b b' : B), 0 ≤ pi_pkid i < bits_len b →
    (∀ k, contains b' k = bool_decide (k ∈ pi_pkid <$> incoming) || contains (put_bit b (pi_pkid i) true) k) →
    ∀ k, contains b' k = bool_decide (k ∈ pi_pkid <$> i :: incoming) || contains b k).
  { intros b b' Hb Hk k. rewrite Hk, contains_put_bit by done. cbn [fmap list_fmap].
    rewrite (bool_decide_ext (k ∈ _ :: _) _ (elem_of_cons _ _ _)), bool_decide_or.
    destruct (Z.eqb_spec (pi_pkid i) k) as [->|Hne]; [by rewrite (bool_decide_eq_true_2 (k = k)), orb_true_r by done|].
    by rewrite (bool_decide_eq_false_2 (k = _)) by done. }
  intros s' pubs pubrecs I' Hs' Hp Hrec. reduced Hp. reduced Hrec.
  apply (HQ s' pubs pubrecs); [done|by rewrite Hs'; destruct s|..]; (eapply Hadd; [lia|done]).
Qed.

Lemma requests5_from_persisted replay :
  Forall persisted_valid replay →
  ∃ requests, requests_from_persisted replay = Ok requests ∧
    Ok <$> requests = request_from_persisted_request <$> replay ∧
    Forall (λ r, replayable (restored_R replay) r) requests.
Proof.
  intros Hv. assert (Hsub : ∀ (R R' : gset Z) requests, R ⊆ R' →
    Forall (λ r, replayable R r) requests → Forall (λ r, replayable R' r) requests).
  { intros R R' requests Hsub Hf. eapply Forall_impl; [exact Hf|]. intros [] Hr; cbn in *; set_solver. }
  induction Hv as [|r replay [Hk Hq] _ (requests & Hrun & Heq & Hall)]; [by exists []|].
  cbn [requests_from_persisted].
  assert (Hone : ∃ request, request_from_persisted_request r = Ok request ∧
    replayable (restored_R (r :: replay)) request).
  { unfold request_from_persisted_request, validate_pkid, restored_R.
    destruct r; cbn [persisted_pkid] in *; rewrite (proj2 (Z.eqb_neq _ _)) by done;
      (eexists; split; [reflexivity|]); cbn; set_solver. }
  destruct Hone as (request & Hr & Hrep). rewrite Hr. cbn [mbind outcome_bind]. rewrite Hrun.
  exists (request :: requests). split_and!; [done|cbn; by rewrite Hr, Heq|]. constructor; [done|].
  eapply Hsub; [|exact Hall]. unfold restored_R. destruct r; cbn; set_solver.
Qed.

(** The number of identifiers is that of the bits set. *)
Lemma ids5_ones ids in_use n :
  ids_ok (B:=B) ids in_use n → ids_ok ids (put_bit in_use 0 false) (blen (ones (put_bit in_use 0 false))).
Proof.
  intros [Hl Hnd Hr Hb _]. assert (Hb' : bits_ok ids (put_bit in_use 0 false)).
  { intros k. rewrite contains_put_bit by (rewrite Hl; unfold full_packet_identifier_len, u16_MAX; lia).
    rewrite <- (Hb k). destruct (Z.eqb_spec 0 k) as [<-|]; [|done]. split; [done|].
    intros H0'%Hb%Hr. lia. }
  split; try done; [by rewrite len_put_bit|]. apply blen_perm, NoDup_Permutation; [apply NoDup_ones|done|].
  intros k. by rewrite elem_of_ones, (Hb' k).
Qed.

Definition persisted_u16 (session : PersistedSession) : Prop :=
  Forall is_u16 (pkids_of (session_replay session)) ∧
  Forall (λ i, is_u16 (pi_pkid i)) (session_incoming_qos2 session).

(** The session state after a checkpoint is restored: nothing is in flight, the releases are queued to
    be sent again and the identifiers of the other requests are reserved, and exactly the recorded
    QoS 2 publishes are known as received. *)
Record restored (session : PersistedSession) s : Prop := {
  restored_inv : inv (restored_R (session_replay session)) s;
  restored_order : outgoing_pub_order s = [] ∧ outgoing_rel_order s = [] ∧ inflight s = 0;
  restored_replay : outgoing_rel_replay_order s = released_pkids (session_replay session);
  restored_pending : pending_subscribe s = ∅ ∧ pending_unsubscribe s = ∅ ∧ collision s = None;
  restored_incoming k :
    contains (incoming_pub s) k = bool_decide (k ∈ pi_pkid <$> session_incoming_qos2 session) ∧
    contains (incoming_pubrec s) k = bool_decide (k ∈ pi_pkid <$> session_incoming_qos2 session);
}.

(** A session is restored whole, with the requests to send again, or refused and nothing happens. *)
Lemma wp5_restore R now options session s :
  inv R s → persisted_u16 session →
  let valid := signature_ok options session ∧
    packet_ids_ok (max_outgoing_inflight_upper_limit s) session in
  wp (restore_persisted_session now options session)
    (λ requests s', valid ∧ restored session s' ∧
       Ok <$> requests = request_from_persisted_request <$> session_replay session ∧
       Forall (λ r, replayable (restored_R (session_replay session)) r) requests)
    (λ _ s', s' = s ∧ ¬ valid) s.
Proof.
  intros I [Hu Hi] valid. unfold restore_persisted_session. apply wp_bind, wp_lift.
  pose proof (validate5_signature options session) as Hsig.
  destruct (validate_persisted_session_signature options session); [|unfold valid; tauto|done].
  apply wp_bind, wp5_validate_packet_ids; [done|unfold valid; tauto|]. intros Hids0.
  pose proof Hids0 as (_ & Hv & Hnd & _).
  apply wp_bind, wp5_run, (wp5_reset R); [done|]. intros s1 I1 Hro1 Hf1.
  apply wp_bind, (wp5_restore_incoming ∅); [done..|]. intros s2 pubs pubrecs I2 Hs2 Hpub Hrec.
  unfold flows_of in Hf1. injection Hf1 as Hpo Hrel Hif Hsub Hunsub Hcol Hip Hir.
  rewrite Hip in Hpub. rewrite Hir in Hrec. setoid_rewrite contains_with_capacity in Hpub.
  setoid_rewrite contains_with_capacity in Hrec. setoid_rewrite orb_false_r in Hpub.
  setoid_rewrite orb_false_r in Hrec.
  assert (Hlive2 : live_ids ∅ s2 = []).
  { rewrite Hs2. fields. by rewrite Hpo, Hrel, Hro1, Hsub, Hunsub. }
  assert (Hr2 : restoring ∅ s2).
  { unfold restoring. pose proof (ids_count _ _ _ (inv_ids _ _ I2)) as Hc.
    rewrite <- Hc. by replace (set_outbound_pkid_count _ s2) with s2 by (by destruct s2). }
  apply wp_bind, (wp5_restore_requests ∅); [done|done|..].
  { intros k Hk. rewrite Hlive2. split; [|by intros ?%not_elem_of_nil].
    apply list_elem_of_fmap in Hk as (r & -> & Hr). rewrite Forall_forall in Hv.
    destruct (Hv r) as [Hnz _]; [done|]. rewrite Forall_fmap, Forall_forall in Hu.
    specialize (Hu r Hr). unfold is_u16, u16_MAX, compose in *. lia. }
  rewrite (left_id_L ∅ (∪)), Hs2. intros s3 I3 Hf3 Hro3. unfold flows_of in Hf3. reduced Hf3.
  reduced Hro3. rewrite Hpo, Hrel, Hif, Hsub, Hunsub, Hcol in Hf3. rewrite Hro1 in Hro3.
  injection Hf3 as Hpo3 Hrel3 Hif3 Hsub3 Hunsub3 Hcol3 Hip3 Hir3. apply wp_bind, wp_get.
  pose proof (ids5_ones _ _ _ (inv_ids _ _ I3)) as Hids. reduced Hids.
  apply wp_set_bit; [rewrite (restoring_len _ _ I3); unfold full_packet_identifier_len, u16_MAX; lia|].
  apply wp_bind, wp_modify, wp_bind. pose proof (ids_ok_bound _ _ _ Hids) as Hbound.
  rewrite (proj2 (Z.ltb_ge _ _)) by lia. apply wp_modify, wp_lift.
  destruct (requests5_from_persisted _ Hv) as (requests & -> & Heq & Hall).
  split_and!; [done..| |done|done]. split; fields; try done.
  - unfold restoring in I3. inv5_frame I3. done.
  - intros k. by rewrite Hip3, Hir3, Hpub, Hrec.
Qed.
End CleanProofs.
