(* ===== verification/V5SessionSafety.v ===== *)
(** The MQTT 5 session as a transition system: requests, replayed requests, packets, disconnections
    and resets in any order, with a synchronous or an asynchronous authenticator.  Every reachable
    state satisfies the invariant and no operation the event loop may call there panics; packet
    identifiers and quotas are exact. *)

From Stdlib Require Import String.
From S2P Require Import Prelude.
From S2P Require Import Utf8.
From S2P Require Import Primitives.
From S2P Require Import FixedBitSet.
From S2P Require Import PacketIds.
From S2P Require Import V5Base.
From S2P Require Import V5Properties.
From S2P Require Import V5Acks.
From S2P Require Import V5SubAck.
From S2P Require Import V5Subscribe.
From S2P Require Import V5Publish.
From S2P Require Import V5ConnAck.
From S2P Require Import V5Disconnect.
From S2P Require Import V5Auth.
From S2P Require Import V5Packet.
From S2P Require Import V5Persist.
From S2P Require Import V5SessionTypes.
From S2P Require Import V5AuthLifecycle.
From S2P Require Import V5TopicAlias.
From S2P Require Import V5StateRecord.
From S2P Require Import V5State.
From S2P Require Import V5Incoming.
From S2P Require Import V5Clean.
From S2P Require Import V5Frame.
From S2P Require Import V5Invariant.
From S2P Require Import V5Handlers.
From S2P Require Import V5Requests.
From S2P Require Import V5CleanProofs.
From S2P Require Import SessionIO.
From S2P Require Import V5SessionFormat.
#[local] Open Scope Z_scope.

(** ** The transition system *)

Inductive SessionOp :=
| SO_Connect (answer : AuthError + AuthAction) (client_id : Bytes)
    (topic_alias_max receive_maximum : option u16) (method : option Bytes)
| SO_Request (answer : AuthError + AuthAction) (now : Instant) (request : Request)
    (notice : option TrackedNoticeTx) (replay : bool)
| SO_Packet (answer : AuthError + AuthAction) (now : Instant) (packet : Packet)
| SO_PopEvent
| SO_Discard (request : Request)
| SO_FailTracked (reason : NoticeFailureReason)
| SO_Reconcile (pending_empty : bool)
| SO_Leave (keep_replay_pkids_reserved : bool)
| SO_Reset (now : Instant) (reason : NoticeFailureReason)
| SO_Restore (now : Instant) (options : SessionOptions) (session : PersistedSession).

Section Sessions.
  Context {B A : Type} `{FixedBitSetLaws B} `{Authenticator A}.

Abbreviation State := (MqttState B A).
Implicit Types (s : State) (R : gset Z).

(** An operation, with the packet it makes the client send. *)
Definition run_op (op : SessionOp) : M State (StateError + SessionRestoreError) (option Packet) :=
  match op with
  | SO_Connect answer client_id topic_alias_max receive_maximum method =>
      map_err inl (prepare_connect answer client_id topic_alias_max receive_maximum method);; mret None
  | SO_Request answer now request notice replay =>
      result ← map_err inl
        (handle_outgoing_packet_with_notice_async answer now request notice replay);
      mret result.1
  | SO_Packet answer now packet =>
      effects ← map_err inl (handle_incoming_packet_with_effects_async answer now packet);
      mret (eff_outgoing effects)
  | SO_PopEvent => mmodify (λ s, set_events (tail (events s)) s);; mret None
  | SO_Discard request => map_err inl (discard_replayed_request request);; mret None
  | SO_FailTracked reason => map_err inl (drain_tracked_requests_as_failed reason);; mret None
  | SO_Reconcile pending_empty =>
      map_err inl (reconcile_outgoing_tracking_capacity pending_empty);; mret None
  | SO_Leave keep =>
      map_err inl (clean_with_notices_internal keep);;
      map_err inl reset_connection_scoped_state;; mret None
  | SO_Reset now reason => map_err inl (reset_session_state_with_reason now reason);; mret None
  | SO_Restore now options session =>
      map_err inr (restore_persisted_session now options session);; mret None
  end.

(** What the event loop passes to the state: a receive maximum before anything is received; requests
    that are not graceful disconnects, which it handles itself; for replay, requests [clean] or
    [restore_persisted_session] returned and that were not sent again yet; packets the codec has
    read, CONNACK first. *)
Definition op_allowed R s (op : SessionOp) : Prop :=
  match op with
  | SO_Connect _ _ _ receive_maximum _ =>
      incoming_inflight s = 0 ∧ is_u16 (default u16_MAX receive_maximum)
  | SO_Request _ _ request _ replay =>
      request_u16 request ∧ graceful_disconnect request = false ∧
      (replay = true → replayable R request)
  | SO_Packet _ _ packet => packet_u16 packet ∧ packet_timely s packet
  | SO_Discard request => discardable R s request
  | SO_Restore _ _ session => persisted_u16 session
  | SO_PopEvent | SO_FailTracked _ | SO_Reconcile _ | SO_Leave _ | SO_Reset _ _ => True
  end.

(** The identifiers reserved for replay after an operation. *)
Definition reserved_after R s (op : SessionOp) : gset Z :=
  match op with
  | SO_Request _ _ request _ true => if is_ok (run_op op s).1 then sent_again R request else R
  | SO_Discard request => sent_again R request
  | SO_Leave keep => cleaned_R keep R s
  | SO_Reset _ _ => ∅
  | SO_Restore _ _ session =>
      if is_ok (run_op op s).1 then restored_R (session_replay session) else R
  | _ => R
  end.

(** A new session, with or without an asynchronous authenticator. *)
Definition initial now m am policy alias_max receive_max method (a : option A) (async : bool) : State :=
  set_async_authenticator async (new_internal now m am policy alias_max receive_max method a).

Inductive reachable (m : u16) : gset Z → State → Prop :=
| reach_initial now am policy alias_max receive_max method a async :
    is_u16 receive_max →
    reachable m ∅ (initial now m am policy alias_max receive_max method a async)
| reach_op R s op :
    reachable m R s → op_allowed R s op → reachable m (reserved_after R s op) (run_op op s).2.

Lemma wp_both {E T} (m : M State E T) P s :
  wp m (λ _ s', P s') (λ _ s', P s') s → (m s).1 ≠ Panic ∧ P (m s).2.
Proof. unfold wp. by destruct (m s) as [[]]. Qed.

(** An operation whose error is mapped, and whose value is not used. *)
Lemma wp_mapped {E T} (f : E → StateError + SessionRestoreError) (m : M State E T)
    (g : T → option Packet) P s :
  wp m (λ _ s', P s') (λ _ s', P s') s →
  wp (a ← map_err f m; mret (g a)) (λ _ s', P s') (λ _ s', P s') s.
Proof. intros Hm. apply wp_bind, wp_map_err. eapply wp_mono; [exact Hm|..]; done. Qed.

Lemma request_sound R s answer now request notice (replay : bool) :
  inv R s → op_allowed R s (SO_Request answer now request notice replay) →
  let op := SO_Request answer now request notice replay in
  (run_op op s).1 ≠ Panic ∧ inv (reserved_after R s op) (run_op op s).2.
Proof.
  intros I (Hu & Hg & Hr) op. set (R' := if replay then sent_again R request else R).
  assert (Hw : wp (run_op op) (λ _ s', inv R' s') (λ _ s', inv R s') s).
  { apply wp_bind, wp_map_err, (wp5_handle_request_async R); [done..| |done]. intros. by apply wp_ret. }
  unfold wp in Hw. unfold op in *. cbn [reserved_after]. unfold R' in *. clear R'.
  destruct (run_op _ s) as [[r|e|] s']; [..|done]; destruct replay; done.
Qed.

Lemma restore_sound R s now options session :
  inv R s → persisted_u16 session →
  let op := SO_Restore now options session in
  (run_op op s).1 ≠ Panic ∧ inv (reserved_after R s op) (run_op op s).2.
Proof.
  intros I Hu op.
  assert (Hw : wp (run_op op) (λ _ s', inv (restored_R (session_replay session)) s')
                 (λ _ s', inv R s') s).
  { apply wp_bind, wp_map_err. eapply wp_mono; [by apply (wp5_restore R)|..].
    - intros requests s' (_ & Hres & _). apply Hres.
    - by intros e s' [-> _]. }
  unfold wp in Hw. unfold op in *. cbn [reserved_after].
  by destruct (run_op _ s) as [[r|e|] s'].
Qed.

Lemma op_sound5 R s op :
  inv R s → op_allowed R s op →
  (run_op op s).1 ≠ Panic ∧ inv (reserved_after R s op) (run_op op s).2.
Proof.
  intros I Hop. destruct op; first [by apply request_sound|by apply restore_sound|idtac].
  all: cbn [op_allowed reserved_after] in *; apply wp_both.
  - apply wp_mapped. destruct Hop. by apply (wp5_prepare_connect R).
  - apply wp_mapped. destruct Hop. by apply (wp5_handle_packet_async R).
  - apply wp_bind, wp_modify, wp_ret. by apply inv5_push.
  - apply wp_mapped. by apply (wp5_discard R).
  - apply wp_mapped. by apply (wp5_drain_tracked R).
  - apply wp_mapped. unfold reconcile_outgoing_tracking_capacity. destruct pending_empty; [|by apply wp_ret].
    by apply (wp5_shrink R).
  - apply wp_bind, wp_map_err, (wp5_clean _ R); [done|]. intros r s' I' Hd.
    apply wp_mapped, (wp5_reset_scoped (cleaned_R keep_replay_pkids_reserved R s)); done.
  - apply wp_mapped. by apply (wp5_reset R).
Qed.

Lemma reachable5_inv m R s : 0 ≤ m ≤ u16_MAX → reachable m R s → inv R s.
Proof.
  intros Hm. induction 1 as [now am policy alias_max receive_max method a async Hr|R s op _ IH Hop].
  - eapply inv5_core; [apply inv5_new|reflexivity]; unfold is_u16, u16_MAX in *; lia.
  - by apply op_sound5.
Qed.

(** ** Theorems *)

(** C25: No operation the event loop may call in a reachable MQTT 5 session state panics, whatever
    the broker sends, the application requests, the authenticator answers or a checkpoint holds. *)
Theorem v5_session_no_panic m R s op :
  0 ≤ m ≤ u16_MAX → reachable m R s → op_allowed R s op → (run_op op s).1 ≠ Panic.
Proof. intros Hm Hs Hop. by apply (op_sound5 R); [eapply reachable5_inv|]. Qed.

(** C26: In every reachable MQTT 5 session state the packet identifiers of publishes, releases,
    releases to be sent again, subscriptions, unsubscriptions and requests waiting for replay are
    distinct, between 1 and 65,535, exactly the ones marked in use, and counted exactly. *)
Theorem v5_session_identifiers m R s :
  0 ≤ m ≤ u16_MAX → reachable m R s →
  NoDup (live_ids R s) ∧ (∀ k, k ∈ live_ids R s → 1 ≤ k ≤ u16_MAX) ∧
  (∀ k, packet_identifier_in_use s k = true ↔ k ∈ live_ids R s) ∧
  outbound_pkid_count s = blen (live_ids R s).
Proof.
  intros Hm Hs. apply reachable5_inv in Hs; [|done]. destruct (inv_ids _ _ Hs) as [_ Hnd Hr Hb Hc].
  split_and!; [done..| |done]. intros k. apply Hb.
Qed.

Lemma pub_order_quota R s : inv R s → blen (outgoing_pub_order s) ≤ inflight s.
Proof.
  intros I. destruct (inv_quota _ _ I) as [Hc _ Hp _ _]. rewrite (counted_ones _ _ Hc).
  destruct (inv5_orders_nodup R s I) as [Hnd _].
  assert (Hsub : outgoing_pub_order s ⊆+ ones (outgoing_publish_quota s)).
  { apply NoDup_submseteq; [done|]. intros k Hk. by apply elem_of_ones, Hp. }
  apply submseteq_length in Hsub. unfold blen. lia.
Qed.

(** C27: In every reachable MQTT 5 session state the publishes in flight are counted exactly, every
    unacknowledged publish is among them, and their number is at most the limit the broker announced
    and the client configured; the unfinished publishes received are counted exactly, too, and are
    at most the receive maximum of the client. *)
Theorem v5_receive_maximum m R s :
  0 ≤ m ≤ u16_MAX → reachable m R s →
  inflight s = blen (ones (outgoing_publish_quota s)) ∧
  (∀ k, k ∈ outgoing_pub_order s → k ∈ ones (outgoing_publish_quota s)) ∧
  (∀ k, k ∈ ones (outgoing_publish_quota s) → k ∈ outgoing_pub_order s ∨ k ∈ outgoing_rel_order s) ∧
  blen (outgoing_pub_order s) ≤ inflight s ≤ max_outgoing_inflight s ∧
  max_outgoing_inflight s ≤ max_outgoing_inflight_upper_limit s ≤ u16_MAX ∧
  incoming_inflight s = blen (ones (incoming_publish_quota s)) ∧
  incoming_inflight s ≤ max_incoming_inflight s ≤ u16_MAX.
Proof.
  intros Hm Hs. apply reachable5_inv in Hs as I; [|done]. pose proof (pub_order_quota R s I).
  destruct (inv_quota _ _ I) as [Hc Hq Hqp Hqo _]. destruct (inv_limits _ _ I) as [Hu Ho Hi _].
  pose proof (inv_receiving _ _ I). split_and!; try lia.
  - apply Hc.
  - intros k Hk. by apply elem_of_ones, Hqp.
  - intros k Hk. by apply Hqo, elem_of_ones.
  - apply (inv_received _ _ I).
Qed.

(** C28: Restoring a checkpoint in a reachable MQTT 5 session state is checked and atomic: it is
    accepted exactly when it has the current version and this client's configuration, no identifier
    is zero or used twice, no publish has QoS 0 and the window is respected.  A refused checkpoint
    changes nothing; an accepted one returns its requests in order, their identifiers reserved, in a
    state where nothing is in flight, the releases are queued and exactly the recorded QoS 2
    publishes are known as received. *)
Theorem v5_restore_all_or_nothing m R s now options session :
  0 ≤ m ≤ u16_MAX → reachable m R s → persisted_u16 session →
  let valid := signature_ok options session ∧
    packet_ids_ok (max_outgoing_inflight_upper_limit s) session in
  match restore_persisted_session now options session s with
  | (Ok requests, s') =>
      valid ∧ restored session s' ∧
      Ok <$> requests = request_from_persisted_request <$> session_replay session ∧
      Forall (λ r, replayable (restored_R (session_replay session)) r) requests
  | (Err _, s') => s' = s ∧ ¬ valid
  | (Panic, _) => False
  end.
Proof.
  intros Hm Hs Hu. apply (wp5_restore R); [by eapply reachable5_inv|done].
Qed.
End Sessions.

(** ** A session *)

Section Runs.
  Context {B A : Type} `{FixedBitSetLaws B} `{Authenticator A}.
  Implicit Types (s : MqttState B A) (R : gset Z).

Fixpoint run_ops (ops : list SessionOp) s : MqttState B A :=
  match ops with [] => s | op :: ops => run_ops ops (run_op op s).2 end.

(** Operations allowed in every state that reserve nothing. *)
Definition plain_op (op : SessionOp) : Prop :=
  match op with
  | SO_Request _ _ request _ replay =>
      request_u16 request ∧ graceful_disconnect request = false ∧ replay = false
  | SO_Packet _ _ (P_ConnAck _) => False
  | SO_Packet _ _ packet => packet_u16 packet
  | SO_PopEvent => True
  | _ => False
  end.

Lemma reachable5_plain m R s ops :
  reachable m R s → Forall plain_op ops → reachable m R (run_ops ops s).
Proof.
  intros Hs Hops. revert s Hs. induction Hops as [|op ops Hop _ IH]; intros s Hs; [done|].
  apply IH. pose proof (reach_op m R s op Hs) as Hstep. destruct op; try done.
  - destruct Hop as (Hu & Hg & ->). by apply Hstep.
  - destruct packet; try done; by apply Hstep.
  - by apply Hstep.
Qed.
End Runs.

(** An authenticator that accepts everything. *)
#[export] Instance accepting_authenticator : Authenticator unit := {|
  lock_poisoned _ := false;
  auth_start a _ := (inr None, a);
  auth_continue a _ _ := (inr AA_Complete, a);
  auth_success a _ _ := (inr tt, a);
  auth_failure a _ _ := a;
|}.

(** A broker that takes two publishes at a time; a QoS 1 and a QoS 2 publish, a subscription, and a
    QoS 2 publish received. *)
Definition demo_connack : ConnAck :=
  {| session_present := false; code := CRC_Success;
     connack_properties := Some (mkConnAckProperties None (Some 2) None None None None None None []
       None None None None None None None None) |}.

Definition demo_ops : list SessionOp :=
  let answer := inr AA_Complete in
  [SO_Request answer 1 (R_Publish (Publish_new [97] AtLeastOnce [1] None)) None false;
   SO_Request answer 2 (R_Publish (Publish_new [98] ExactlyOnce [2] None)) None false;
   SO_Request answer 3 (R_Publish (Publish_new [99] AtLeastOnce [3] None)) None false;
   SO_Request answer 4 (R_Subscribe (mkSubscribe 0
     [mkSubscribeFilter [97] AtLeastOnce false false OnEverySubscribe] None)) None false;
   SO_Packet answer 5 (P_PubRec (PubRec_new 2 None));
   SO_Packet answer 6 (P_Publish (with_pkid (Publish_new [100] ExactlyOnce [4] None) 7))].

Definition demo_initial : MqttState BitVector unit :=
  initial 0 10 Automatic TAP_Lru 0 10 None None false.

Definition demo_session : MqttState BitVector unit :=
  run_ops demo_ops (run_op (SO_Packet (inr AA_Complete) 0 (P_ConnAck demo_connack)) demo_initial).2.

Lemma demo_session_reachable : reachable 10 ∅ demo_session.
Proof.
  apply reachable5_plain; [|repeat constructor; done].
  apply (reach_op 10 ∅ demo_initial (SO_Packet (inr AA_Complete) 0 (P_ConnAck demo_connack))).
  - by apply reach_initial.
  - split; [done|]. right. reflexivity.
Qed.

(** The identifiers of the session are those of the publish, the release and the subscription. *)
Lemma demo_session_ids : live_ids ∅ demo_session = [1; 2; 3].
Proof. by vm_compute. Qed.

Lemma v5_session_no_panic_witness :
  outgoing_pub_order demo_session = [1] ∧
  (run_op (SO_Packet (inr AA_Complete) 7 (P_PubAck (PubAck_new 1 None))) demo_session).1 ≠ Panic.
Proof.
  split; [by vm_compute|].
  apply (v5_session_no_panic 10 ∅); [unfold u16_MAX; lia|apply demo_session_reachable|done].
Defined.

Lemma v5_session_identifiers_witness :
  live_ids ∅ demo_session = [1; 2; 3] ∧
  (∀ k, packet_identifier_in_use demo_session k = true ↔ k ∈ live_ids ∅ demo_session).
Proof.
  split; [by vm_compute|].
  apply (v5_session_identifiers 10 ∅); [unfold u16_MAX; lia|apply demo_session_reachable].
Defined.

Lemma v5_receive_maximum_witness :
  inflight demo_session = 2 ∧ max_outgoing_inflight demo_session = 2 ∧
  incoming_inflight demo_session = 1 ∧ max_incoming_inflight demo_session = 10 ∧
  inflight demo_session ≤ max_outgoing_inflight demo_session.
Proof.
  split_and!; [by vm_compute..|].
  destruct (v5_receive_maximum 10 ∅ demo_session) as (_ & _ & _ & [_ Hmax] & _);
    [unfold u16_MAX; lia|apply demo_session_reachable|exact Hmax].
Defined.

(** A checkpoint with a release, an unsubscription and a QoS 2 publish received. *)
Definition demo_options : SessionOptions :=
  {| opt_client_id := [99]; opt_clean_start := false; opt_outgoing_inflight_upper_limit := None;
     opt_ack_mode := Automatic |}.

Definition demo_checkpoint : PersistedSession :=
  {| session_format_version := 2; session_client_id := [99]; session_clean_start := false;
     session_expiry_interval := None; session_outgoing_inflight_upper_limit := None;
     session_ack_mode := PA_Automatic;
     session_replay := [PR_PubRel {| prel_pkid := 2 |};
       PR_Unsubscribe {| punsub_pkid := 3; punsub_filters := [[97]]; punsub_properties := None |}];
     session_incoming_qos2 := [{| pi_pkid := 7 |}] |}.

Lemma v5_restore_all_or_nothing_witness :
  match restore_persisted_session 8 demo_options demo_checkpoint demo_initial with
  | (Ok requests, s') =>
      map (λ r, match r with R_PubRel p => ack_pkid p | R_Unsubscribe u => unsubscribe_pkid u | _ => 0 end)
        requests = [2; 3] ∧ outgoing_rel_replay_order s' = [2] ∧
      restored demo_checkpoint s'
  | _ => False
  end.
Proof.
  pose proof (v5_restore_all_or_nothing 10 ∅ demo_initial 8 demo_options demo_checkpoint) as Hr.
  destruct (restore_persisted_session 8 demo_options demo_checkpoint demo_initial) as [o s'] eqn:E.
  vm_compute in E. injection E as <- <-. split_and!; [by vm_compute..|].
  apply Hr; [unfold u16_MAX; lia|by apply reach_initial|].
  split; cbn; unfold is_u16; rewrite ?Forall_cons, Forall_nil; cbn; lia.
Defined.
