(* ===== verification/V5Delivery.v ===== *)
(** The delivery guarantee of an MQTT 5 session for incoming QoS 2 publishes: what the client does
    with one that it does not know yet, and that it reports it once whatever follows, until it is
    released.

    [later] (of [V5Requests]) is closed under the constructs of the monad; here it is followed through
    the remaining operations of the transition system.  [silent] is coarser: packets received may be
    reported, but no QoS 2 publish with the identifier. *)

From Stdlib Require Import String.
From S2P Require Import Prelude.
From S2P Require Import Utf8.
From S2P Require Import Primitives.
From S2P Require Import FixedBitSet.
From S2P Require Import PacketIds.
From S2P Require Import V5Base.
From S2P Require Import V5Properties.
From S2P Require Import V5Acks.
From S2P Require Import V5SubAck.
From S2P Require Import V5Subscribe.
From S2P Require Import V5Publish.
From S2P Require Import V5ConnAck.
From S2P Require Import V5Disconnect.
From S2P Require Import V5Auth.
From S2P Require Import V5Packet.
From S2P Require Import V5Persist.
From S2P Require Import V5SessionTypes.
From S2P Require Import V5AuthLifecycle.
From S2P Require Import V5TopicAlias.
From S2P Require Import V5StateRecord.
From S2P Require Import V5State.
From S2P Require Import V5Incoming.
From S2P Require Import V5Clean.
From S2P Require Import V5Frame.
From S2P Require Import V5Invariant.
From S2P Require Import V5Handlers.
From S2P Require Import V5Requests.
From S2P Require Import V5CleanProofs.
From S2P Require Import SessionIO.
From S2P Require Import V5SessionFormat.
From S2P Require Import V5SessionSafety.
#[local] Open Scope Z_scope.

(** The publishes among events. *)
Definition incoming_publish (e : Event) : option Publish :=
  match e with Ev_Incoming (P_Publish p) => Some p | _ => None end.

(** A QoS 2 publish with identifier [k]. *)
Definition qos2_with (k : Z) (p : Publish) : Prop := pub_qos p = ExactlyOnce ∧ pub_pkid p = k.
#[global] Instance qos2_with_dec k p : Decision (qos2_with k p).
Proof. unfold qos2_with. apply _. Defined.

Section Operations.
  Context {B A : Type} `{FixedBitSetLaws B} `{Authenticator A}.

Abbreviation State := (MqttState B A).
Abbreviation ST := (M State StateError).
Abbreviation lasts k m := (along (later (B:=B) (A:=A) k) m).
Implicit Types (s : State).

(** ** Requests *)

Lemma lasts_publish k p n r : lasts k (outgoing_publish_with_notice_internal p n r).
Proof.
  unfold outgoing_publish_with_notice_internal, assign_pkid, place_publish,
    accept_replayed_outbound_pkid, next_pkid. lasting.
Qed.
Lemma lasts_pubrel k p n : lasts k (outgoing_pubrel_with_notice p n).
Proof. unfold outgoing_pubrel_with_notice, save_pubrel_with_notice. lasting. Qed.
Lemma lasts_next_control k : lasts k next_control_pkid.
Proof. unfold next_control_pkid. lasting. Qed.
Lemma lasts_reserve_control k i : lasts k (reserve_control_pkid i).
Proof. unfold reserve_control_pkid. lasting. Qed.
Lemma lasts_accept k i : lasts k (accept_replayed_outbound_pkid i).
Proof. unfold accept_replayed_outbound_pkid. lasting. Qed.
Hint Resolve lasts_publish lasts_pubrel lasts_next_control lasts_reserve_control lasts_accept : along.

Lemma lasts_request k now request n r :
  lasts k (handle_outgoing_packet_with_notice_internal now request n r).
Proof.
  unfold handle_outgoing_packet_with_notice_internal, outgoing_subscribe, replay_outgoing_subscribe,
    save_outgoing_subscribe, outgoing_unsubscribe, replay_outgoing_unsubscribe,
    save_outgoing_unsubscribe. lasting.
Qed.

Lemma lasts_request_async k answer now request n r :
  lasts k (handle_outgoing_packet_with_notice_async answer now request n r).
Proof.
  unfold handle_outgoing_packet_with_notice_async. apply along_bind; [apply _|lasting|intros s].
  destruct request; try apply lasts_request. destruct (negb _); [apply lasts_request|].
  eapply later_quiet, quiet_reauth_async.
Qed.

Lemma lasts_prepare_connect k answer id alias_max receive_max method :
  lasts k (prepare_connect answer id alias_max receive_max method).
Proof.
  unfold prepare_connect, refresh_auth_client_id, set_client_topic_alias_max,
    set_client_receive_maximum.
  do 4 (apply along_bind; [apply _|lasting|intros _]). eapply later_quiet, quiet_begin_connect.
Qed.

(** ** The end of a connection *)

Lemma lasts_release_all k l : lasts k (release_all l).
Proof. induction l; cbn [release_all]; lasting. Qed.
Lemma lasts_take_pub_notice k i : lasts k (take_pub_notice i).
Proof. unfold take_pub_notice. lasting. Qed.
Lemma lasts_take_rel_notice k i : lasts k (take_rel_notice i).
Proof. unfold take_rel_notice. lasting. Qed.
Hint Resolve lasts_release_all lasts_take_pub_notice lasts_take_rel_notice : along.
Lemma lasts_clean_publishes k keep l : lasts k (clean_publishes keep l).
Proof. induction l; cbn [clean_publishes]; lasting. Qed.
Lemma lasts_clean_pubrels k l : lasts k (clean_pubrels l).
Proof. induction l; cbn [clean_pubrels]; lasting. Qed.
Lemma lasts_mark_replay k l : lasts k (mark_pubrel_replay l).
Proof. induction l; cbn [mark_pubrel_replay]; lasting. Qed.
Lemma lasts_clean_subscribes k keep l : lasts k (clean_subscribes keep l).
Proof. induction l as [|[]]; cbn [clean_subscribes]; lasting. Qed.
Lemma lasts_clean_unsubscribes k keep l : lasts k (clean_unsubscribes keep l).
Proof. induction l as [|[]]; cbn [clean_unsubscribes]; lasting. Qed.
Lemma lasts_drain_subscribes k reason l : lasts k (drain_subscribes reason l).
Proof. induction l as [|[]]; cbn [drain_subscribes]; lasting. Qed.
Lemma lasts_drain_unsubscribes k reason l : lasts k (drain_unsubscribes reason l).
Proof. induction l as [|[]]; cbn [drain_unsubscribes]; lasting. Qed.
Hint Resolve lasts_clean_publishes lasts_clean_pubrels lasts_mark_replay lasts_clean_subscribes
  lasts_clean_unsubscribes lasts_drain_subscribes lasts_drain_unsubscribes : along.

Lemma lasts_clean k keep : lasts k (clean_with_notices_internal keep).
Proof. unfold clean_with_notices_internal, clean_collision. lasting. Qed.
Lemma lasts_reset_scoped k : lasts k reset_connection_scoped_state.
Proof. unfold reset_connection_scoped_state, reset_connack_scoped_state. lasting. Qed.
Lemma lasts_discard k request : lasts k (discard_replayed_request request).
Proof. unfold discard_replayed_request. lasting. Qed.
Lemma lasts_drain_tracked k reason : lasts k (drain_tracked_requests_as_failed reason).
Proof. unfold drain_tracked_requests_as_failed. lasting. Qed.
Lemma lasts_reconcile k e : lasts k (reconcile_outgoing_tracking_capacity e).
Proof. unfold reconcile_outgoing_tracking_capacity. lasting. Qed.

(** ** Packets *)

(** [s'] is later than [s], and no QoS 2 publish with identifier [k] has been reported since. *)
Record silent (k : Z) s s' : Prop := {
  silent_events : ∃ es, events s' = events s ++ es ∧ filter (qos2_with k) (omap incoming_publish es) = [];
  silent_recorded : contains (incoming_pubrec s) k = true → contains (incoming_pubrec s') k = true;
}.

#[global] Instance silent_preorder k : PreOrder (silent k).
Proof.
  split; [intros s; split; [|done]; exists []; by rewrite app_nil_r|].
  intros s1 s2 s3 [(e1 & He1 & Hf1) Hr1] [(e2 & He2 & Hf2) Hr2]. split; [|auto].
  exists (e1 ++ e2). by rewrite He2, He1, app_assoc, omap_app, filter_app, Hf1, Hf2.
Qed.

Lemma own_unreported es : Forall own_event es → omap incoming_publish es = [].
Proof. induction 1 as [|e es He _ IH]; [done|]. by destruct e. Qed.

Lemma later_silent k s s' : later k s s' → silent k s s'.
Proof.
  intros [(es & He & Hown) Hr]. split; [|done]. exists es. by rewrite (own_unreported es).
Qed.

Lemma silent_bind_at {T U} k (m : ST T) (f : T → ST U) s s0 :
  silent k s (m s0).2 → (∀ a, lasts k (f a)) → silent k s ((m ≫= f) s0).2.
Proof.
  intros Hm Hf. rewrite bind_run. destruct (m s0) as [[a|e|] s1]; try done.
  etrans; [exact Hm|]. apply later_silent, Hf.
Qed.

Lemma insert_event_run s s1 es e :
  events s1 = events s ++ es →
  insert_event (B:=B) (A:=A) (blen (events s)) e s1 = (Ok tt, set_events (events s ++ e :: es) s1).
Proof.
  intros He. unfold insert_event. rewrite bind_run. cbn [mget]. rewrite He, blen_app.
  rewrite (proj2 (Z.ltb_ge _ _)) by (pose proof (blen_nonneg es); lia).
  cbn. by rewrite blen_to_nat, take_app_length, drop_app_length.
Qed.

Lemma silent_insert k s s1 packet :
  later k s s1 → (∀ p, packet = P_Publish p → ¬ qos2_with k p) →
  silent k s (insert_event (blen (events s)) (Ev_Incoming packet) s1).2.
Proof.
  intros [(es & He & Hown) Hr] Hk. rewrite (insert_event_run _ _ _ _ He). cbn [snd].
  split; fields; [|done]. exists (Ev_Incoming packet :: es). split; [done|]. cbn [omap list_omap].
  rewrite (own_unreported es) by done. destruct packet; try done. cbn. rewrite decide_False; [done|].
  by apply Hk.
Qed.

(** The packet reported is the packet received, a publish perhaps with its topic filled in. *)
Definition same_packet (packet packet' : Packet) : Prop :=
  match packet with
  | P_Publish p => ∃ q, packet' = P_Publish q ∧ pub_qos q = pub_qos p ∧ pub_pkid q = pub_pkid p
  | _ => packet' = packet
  end.

Lemma resolve_same p :
  returns (λ r, match r with Some q => pub_qos q = pub_qos p ∧ pub_pkid q = pub_pkid p | None => True end)
    (resolve_incoming_alias (B:=B) (A:=A) p).
Proof.
  unfold resolve_incoming_alias. returns_auto.
  destruct (publish_topic_alias p) as [i|]; [|done].
  by destruct (ta_incoming _ !! i).
Qed.

Lemma dispatch_same packet :
  returns (λ r, same_packet packet r.2) (dispatch_incoming (B:=B) (A:=A) packet).
Proof.
  destruct packet; cbn [dispatch_incoming same_packet]; try by returns_auto.
  apply (returns_bind_with (λ r : option Packet * Publish,
    pub_qos r.2 = pub_qos publish ∧ pub_pkid r.2 = pub_pkid publish)).
  - unfold handle_incoming_publish. apply returns_bind. intros s. case_match; [returns_auto|].
    eapply returns_bind_with; [apply resolve_same|]. intros [q|] Hq; returns_auto.
  - intros [o q] Hq. apply returns_ret. by exists q.
Qed.

(** A publish that is recorded is not reported again. *)
Lemma silent_handle k now packet s :
  contains (incoming_pubrec s) k = true → releases k packet = false →
  silent k s (handle_incoming_packet_with_effects now packet s).2.
Proof.
  intros Hc Hk. unfold handle_incoming_packet_with_effects.
  set (s0 := match packet with P_Disconnect _ => _ | _ => s end).
  assert (Hs0 : events s0 = events s ∧ incoming_pubrec s0 = incoming_pubrec s)
    by (unfold s0; by destruct packet).
  destruct Hs0 as [He0 Hr0]. assert (Hs : later k s s0) by (apply later5_same; [by rewrite He0|done]).
  pose proof (lasts_dispatch k packet Hk s0) as Hl. pose proof (dispatch_same packet s0) as Hd.
  rewrite He0. clearbody s0. assert (Hdup : is_duplicate_incoming_qos2_publish s0 packet = true ∨
    ∀ p, packet = P_Publish p → ¬ qos2_with k p).
  { destruct packet; try (by right). cbn. destruct (decide (qos2_with k publish)) as [[Hq <-]|].
    - left. by rewrite bool_decide_eq_true_2, Hr0 by done.
    - right. by intros ? [= <-]. }
  destruct (dispatch_incoming packet s0) as [[[eff p]|e|] s1]; cbn [snd fst] in *;
    (assert (Hs1 : later k s s1) by (by etrans)).
  - specialize (Hd _ eq_refl). cbn in Hd. apply silent_bind_at; [|intros; lasting].
    destruct (refused_publish p eff || _) eqn:Hq; [by apply later_silent|].
    apply orb_false_iff in Hq as [_ Hq]. destruct Hdup as [Hdup|Hn]; [congruence|].
    apply silent_insert; [done|]. destruct packet; cbn in Hd; try (subst p; by intros).
    destruct Hd as (q & -> & Hqos & Hpk). intros ? [= <-] [H2 H3]. apply (Hn publish eq_refl).
    split; congruence.
  - apply silent_bind_at; [|intros; lasting]. destruct (queued_on_error packet e) eqn:Hq; [|by apply later_silent].
    apply silent_insert; [done|]. by destruct packet.
  - by apply later_silent.
Qed.

Lemma lasts_auth_async k answer effect : lasts k (handle_incoming_auth_async answer effect).
Proof. unfold handle_incoming_auth_async, outgoing_auth_packet. lasting. Qed.

Lemma silent_handle_async k answer now packet s :
  contains (incoming_pubrec s) k = true → releases k packet = false →
  silent k s (handle_incoming_packet_with_effects_async answer now packet s).2.
Proof.
  intros Hc Hk. unfold handle_incoming_packet_with_effects_async. rewrite bind_run.
  match goal with |- silent _ _ (match ?m s with _ => _ end).2 =>
    assert (Hm : lasts k m) by (destruct packet; lasting; eapply later_quiet, quiet_verify_connack);
    specialize (Hm s); destruct (m s) as [[[]|e|] s1]; cbn [snd] in Hm; try by apply later_silent end.
  assert (Hc1 : contains (incoming_pubrec s1) k = true) by (by apply Hm).
  rewrite bind_run. cbn [mget]. etrans; [by apply later_silent|].
  destruct packet; try by apply silent_handle.
  destruct (negb _); [by apply silent_handle|]. rewrite bind_run.
  pose proof (later_quiet k _ _ (quiet_validate_auth (B:=B) (A:=A) auth) s1) as Hv.
  destruct (validate_incoming_auth auth s1) as [[eff|e|] s2]; cbn [snd] in Hv; try by apply later_silent.
  apply silent_bind_at; [by apply silent_insert|]. intros _.
  apply along_bind; [apply _|apply lasts_auth_async|intros ?]. lasting.
Qed.

(** ** What a session reports *)

(** The publishes an operation reports to the user, and those a sequence of operations does. *)
Definition delivered (op : SessionOp) s : list Publish :=
  omap incoming_publish (drop (length (events s)) (events (run_op op s).2)).
Fixpoint delivered_by (ops : list SessionOp) s : list Publish :=
  match ops with
  | [] => []
  | op :: ops => delivered op s ++ delivered_by ops (run_op op s).2
  end.

(** An operation that neither releases [k] nor ends or replaces the session. *)
Definition keeps_recorded (k : Z) (op : SessionOp) : Prop :=
  match op with
  | SO_Packet _ _ packet => releases k packet = false
  | SO_Reset _ _ | SO_Restore _ _ _ => False
  | _ => True
  end.

Lemma mapped_run {E T U} (f : E → StateError + SessionRestoreError) (m : M State E T) (g : T → U) s :
  ((a ← map_err f m; mret (g a)) s).2 = (m s).2.
Proof. rewrite bind_run. unfold map_err. by destruct (m s) as [[]]. Qed.

Lemma recorded_op5 k op s :
  contains (incoming_pubrec s) k = true → keeps_recorded k op →
  contains (incoming_pubrec (run_op op s).2) k = true ∧
  filter (qos2_with k) (delivered op s) = [].
Proof.
  intros Hc Hop.
  assert (Hsilent : silent k s (run_op op s).2 →
    contains (incoming_pubrec (run_op op s).2) k = true ∧ filter (qos2_with k) (delivered op s) = []).
  { intros [(es & He & Hf) Hr]. split; [by apply Hr|]. unfold delivered.
    by rewrite He, drop_app_length. }
  destruct op; try done; cbn [run_op] in *; rewrite ?mapped_run in Hsilent |- *.
  - apply Hsilent, later_silent, lasts_prepare_connect.
  - apply Hsilent, later_silent, lasts_request_async.
  - apply Hsilent. by apply silent_handle_async.
  - split; [done|]. assert (Hd : drop (length (events s)) (tail (events s)) = []).
    { apply drop_ge. destruct (events s); cbn; lia. }
    change (filter (qos2_with k) (omap incoming_publish
      (drop (length (events s)) (tail (events s)))) = []). by rewrite Hd.
  - apply Hsilent, later_silent, lasts_discard.
  - apply Hsilent, later_silent, lasts_drain_tracked.
  - apply Hsilent, later_silent, lasts_reconcile.
  - apply Hsilent, later_silent. rewrite bind_run. unfold map_err at 1.
    pose proof (lasts_clean k keep_replay_pkids_reserved s) as Hl.
    destruct (clean_with_notices_internal _ s) as [[r|e|] s1]; try done.
    cbn [outcome_map_err]. rewrite mapped_run. etrans; [exact Hl|apply lasts_reset_scoped].
Qed.

Lemma recorded_ops5 k ops s :
  contains (incoming_pubrec s) k = true → Forall (keeps_recorded k) ops →
  filter (qos2_with k) (delivered_by ops s) = [].
Proof.
  intros Hc Hops. revert s Hc. induction Hops as [|op ops Hop _ IH]; intros s Hc; [done|].
  destruct (recorded_op5 k op s Hc Hop) as [Hc' Hd]. cbn [delivered_by]. rewrite filter_app, Hd.
  by apply IH.
Qed.

(** ** A new QoS 2 publish *)

(** The publish with its topic, if its alias has one. *)
Definition resolved_publish s p : option Publish :=
  if bool_decide (topic p = []) then
    match publish_topic_alias p with
    | Some i => with_topic p <$> ta_incoming (topic_aliases s) !! i
    | None => Some p
    end
  else Some p.

Lemma resolved_same s p q :
  resolved_publish s p = Some q → pub_qos q = pub_qos p ∧ pub_pkid q = pub_pkid p.
Proof.
  unfold resolved_publish. destruct (bool_decide _); [|by intros [= <-]].
  destruct (publish_topic_alias p) as [i|]; [|by intros [= <-]].
  destruct (_ !! i); [|done]. by intros [= <-].
Qed.

(** Why a QoS 2 publish is refused, if it is. *)
Definition refusal s p : option DisconnectReasonCode :=
  if match publish_topic_alias p with Some i => ta_client_max (topic_aliases s) <? i | None => false end
  then Some DRC_TopicAliasInvalid
  else if is_none (resolved_publish s p) then Some DRC_ProtocolError
  else if negb (contains (incoming_publish_quota s) (pub_pkid p))
          && (max_incoming_inflight s <=? incoming_inflight s)
  then Some DRC_ReceiveMaximumExceeded
  else None.

Lemma wp5_disconnect d s (Q : Packet → _ → Prop) (X : StateError → _ → Prop) :
  (∀ s', Q (P_Disconnect d) s') → wp (outgoing_disconnect (B:=B) (A:=A) d) Q X s.
Proof.
  intros HQ. unfold outgoing_disconnect, fail_auth_exchange_due_to_client_disconnect, fail_auth_exchange.
  apply wp_bind, wp_bind, wp_get.
  assert (Hdone : ∀ s, wp (push_event O_Disconnect;; mret (P_Disconnect d)) Q X s)
    by (intros; by apply wp_bind, wp_modify, wp_ret).
  destruct (active_exchange (auth s)) as [[kind method]|]; [|by apply wp_ret].
  apply wp_bind, wp_modify. set (s1 := match authenticator s with Some _ => _ | None => s end).
  clearbody s1. unfold wp, with_auth.
  assert (Hreset : ∀ c, ∃ c', auth_reset AN_ConnectionClosed c = (Ok tt, c')).
  { intros c. unfold auth_reset, fail_active. rewrite !bind_run. cbn.
    destruct (al_state (cx_auth c)) as [|?|? ? []]; cbn; eauto. }
  edestruct Hreset as [c' ->]. apply Hdone.
Qed.

Lemma wp5_resolve p s (Q : option Publish → _ → Prop) (X : StateError → _ → Prop) :
  (∀ aliases, Q (resolved_publish s p) (set_topic_aliases aliases s)) →
  wp (resolve_incoming_alias p) Q X s.
Proof.
  intros HQ. unfold resolve_incoming_alias, resolved_publish in *. apply wp_bind, wp_get.
  destruct (bool_decide (topic p = [])); cbn [negb].
  - apply wp_ret. specialize (HQ (topic_aliases s)). by destruct s.
  - apply wp_bind. destruct (publish_topic_alias p); [by apply wp_modify, wp_ret|].
    apply wp_ret, wp_ret. specialize (HQ (topic_aliases s)). by destruct s.
Qed.

(** A new QoS 2 publish is refused, or recorded and answered with PUBREC. *)
Lemma wp5_receive_qos2 R s p :
  inv R s → ack_mode s = Automatic → pub_qos p = ExactlyOnce → is_u16 (pub_pkid p) →
  contains (incoming_pubrec s) (pub_pkid p) = false →
  wp (handle_incoming_publish p)
    (λ r s1, match refusal s p with
             | Some code => r.1 = Some (P_Disconnect (Disconnect_new code))
             | None => r.1 = Some (P_PubRec (PubRec_new (pub_pkid p) None)) ∧
                 resolved_publish s p = Some r.2 ∧ contains (incoming_pubrec s1) (pub_pkid p) = true
             end) (λ _ _, False) s.
Proof.
  intros I Ha Hq Hk Hc. unfold handle_incoming_publish, refusal. apply wp_bind, wp_get.
  destruct (match publish_topic_alias p with Some _ => _ | None => false end).
  { apply wp_bind, wp5_disconnect. intros s'. by apply wp_ret. }
  apply wp_bind, wp5_resolve. intros aliases. pose proof (resolved_same s p) as Hres.
  destruct (resolved_publish s p) as [q|] eqn:Hr; cbn [is_none].
  2: { apply wp_bind. unfold handle_protocol_error. apply wp_bind, wp5_disconnect. intros s'.
       by apply wp_ret, wp_ret. }
  destruct (Hres q eq_refl) as [Hqos Hpk]. apply wp_bind, wp_get. fields.
  rewrite Hqos, Hpk, Hq, (bool_decide_eq_true_2 (ExactlyOnce ≠ AtMostOnce)) by done. cbn [andb].
  destruct (inv_incoming _ _ I) as [Hl1 Hl2 Hl3 _]. pose proof (inv_received _ _ I) as Hrec.
  assert (Hrange : 0 ≤ pub_pkid p < full_packet_identifier_len)
    by (unfold is_u16, full_packet_identifier_len, u16_MAX in *; lia).
  assert (Hack : ∀ s1, ack_mode s1 = ack_mode s → incoming_pub s1 = incoming_pub s →
    incoming_pubrec s1 = incoming_pubrec s →
    wp (packet ← acknowledge_publish q; mret (packet, q))
      (λ r s2, r.1 = Some (P_PubRec (PubRec_new (pub_pkid p) None)) ∧ Some q = Some r.2 ∧
         contains (incoming_pubrec s2) (pub_pkid p) = true) (λ _ _, False) s1).
  { intros s1 Ha1 Hp1 Hr1. apply wp_bind. unfold acknowledge_publish. rewrite Hqos, Hq, Hpk.
    apply wp_bind, wp_get. rewrite Ha1, Ha, Hp1. unfold insert_bit. apply wp_set_bit; [lia|].
    apply wp_bind, wp_modify. rewrite bool_decide_eq_true_2 by done. cbn [orb]. apply wp_bind.
    unfold outgoing_pubrec_internal. change (ack_pkid (PubRec_new (pub_pkid p) None)) with (pub_pkid p).
    apply wp_bind, wp_get. fields.
    rewrite contains_put_bit, Z.eqb_refl, Hr1, Hc by lia. cbn. unfold insert_bit.
    apply wp_bind, wp_set_bit; [lia|]. apply wp_modify, wp_bind, wp_modify, wp_ret.
    split_and!; [done..|]. fields. by rewrite contains_put_bit, Z.eqb_refl by lia. }
  destruct (contains (incoming_publish_quota s) (pub_pkid p)) eqn:Hquota; cbn [negb andb].
  { apply wp_bind, wp_ret. by apply Hack. }
  destruct (Z.leb_spec (max_incoming_inflight s) (incoming_inflight s)) as [|Hlt].
  { apply wp_bind, wp5_disconnect. intros s'. by apply wp_ret. }
  apply wp_bind. unfold insert_bit. apply wp_set_bit; [rewrite (counted_len _ _ Hrec); lia|].
  apply wp_bind, wp_modify. destruct (inv_limits _ _ I) as [_ _ Hm _].
  rewrite (proj2 (Z.ltb_ge _ _)) by lia. apply wp_modify. by apply Hack.
Qed.

(** How it is reported. *)
Lemma publish_run answer now p s out q s1 :
  is_duplicate_incoming_qos2_publish s (P_Publish p) = false →
  handle_incoming_publish p s = (Ok (out, q), s1) →
  let '(r, s2) := run_op (SO_Packet answer now (P_Publish p)) s in
  r = Ok out ∧ incoming_pubrec s2 = incoming_pubrec s1 ∧
  omap incoming_publish (drop (length (events s)) (events s2)) =
    if refused_publish (P_Publish q) (effects_outgoing out) then [] else [q].
Proof.
  intros Hdup Hrun. pose proof (later_events _ _ _ (lasts_dispatch 0 (P_Publish p) eq_refl s)) as He.
  cbn [run_op]. rewrite bind_run. unfold map_err at 1.
  change (handle_incoming_packet_with_effects_async answer now (P_Publish p) s)
    with (handle_incoming_packet_with_effects now (P_Publish p) s).
  unfold handle_incoming_packet_with_effects. cbn zeta. rewrite Hdup. cbn [dispatch_incoming] in He |- *.
  rewrite bind_run in He |- *. rewrite Hrun in He |- *. cbn in He. destruct He as (es & He & Hown).
  cbn [mret M_ret]. rewrite orb_false_r, bind_run. destruct (refused_publish _ _); cbn [mret M_ret].
  - rewrite bind_run. cbn [mmodify mret M_ret outcome_map_err]. split_and!; [done..|]. fields.
    by rewrite He, drop_app_length, own_unreported.
  - rewrite (insert_event_run _ _ _ _ He), bind_run. cbn [mmodify mret M_ret outcome_map_err].
    split_and!; [done..|]. fields. rewrite drop_app_length. cbn. by rewrite (own_unreported es).
Qed.

(** C24: QoS 2 is exactly once for MQTT 5, too.  A session with automatic acknowledgements that receives
    a QoS 2 publish [p] whose identifier is not recorded either refuses it with DISCONNECT, for a
    topic alias that is out of range or has no topic or because the receive maximum is exceeded, and
    reports nothing; or it answers with PUBREC and, whatever operations follow, further copies of
    [p], disconnections and asynchronous authentication included, reports a QoS 2 publish with this
    identifier exactly once, namely [p] with the topic of its alias, until its PUBREL arrives or the
    session is reset or replaced.  With automatic or manual acknowledgements, a publish whose
    identifier is recorded in [incoming_pubrec] is not reported again until then.
    (With manual acknowledgements a copy that arrives before the application has sent PUBREC is
    reported, too.) *)
Theorem v5_qos2_exactly_once m R s answer now p ops :
  0 ≤ m ≤ u16_MAX → reachable m R s →
  pub_qos p = ExactlyOnce → is_u16 (pub_pkid p) →
  Forall (keeps_recorded (pub_pkid p)) ops →
  let op := SO_Packet answer now (P_Publish p) in
  (contains (incoming_pubrec s) (pub_pkid p) = true →
     filter (qos2_with (pub_pkid p)) (delivered_by (op :: ops) s) = []) ∧
  (ack_mode s = Automatic → contains (incoming_pubrec s) (pub_pkid p) = false →
   match refusal s p with
   | Some code => (run_op op s).1 = Ok (Some (P_Disconnect (Disconnect_new code))) ∧ delivered op s = []
   | None => ∃ q, resolved_publish s p = Some q ∧
       (run_op op s).1 = Ok (Some (P_PubRec (PubRec_new (pub_pkid p) None))) ∧
       filter (qos2_with (pub_pkid p)) (delivered_by (op :: ops) s) = [q]
   end).
Proof.
  intros Hm Hs Hq Hk Hops. cbn zeta. set (op := SO_Packet _ _ _).
  split; [intros Hc; by apply recorded_ops5; [|constructor]|]. intros Ha Hc.
  pose proof (wp5_receive_qos2 R s p (reachable5_inv _ _ _ Hm Hs) Ha Hq Hk Hc) as Hw. unfold wp in Hw.
  assert (Hdup : is_duplicate_incoming_qos2_publish s (P_Publish p) = false)
    by (cbn; by rewrite Hc, andb_false_r).
  destruct (handle_incoming_publish p s) as [[[out q]|e|] s1] eqn:Hrun; try done. cbn [fst snd] in Hw.
  pose proof (publish_run answer now p s out q s1 Hdup Hrun) as Hop. fold op in Hop.
  cbn [delivered_by]. unfold delivered at 1 2. destruct (run_op op s) as [r s2]. cbn [fst snd] in *.
  destruct Hop as (-> & Hrec2 & ->). destruct (refusal s p) as [code|]; [by subst out|].
  destruct Hw as (-> & Hr & Hrec). exists q. split_and!; [done..|]. cbn [refused_publish].
  destruct (resolved_same _ _ _ Hr) as [Hqos Hpk]. cbn. rewrite decide_True by (split; congruence).
  by rewrite recorded_ops5 by (done || by rewrite Hrec2).
Qed.
End Operations.

(** ** A publish received three times, twice before and once after a reconnection *)

Definition demo_received : Publish := with_pkid (Publish_new [97] ExactlyOnce [1] None) 9.

Definition demo_copies : list SessionOp :=
  let copy := SO_Packet (inr AA_Complete) 11 (P_Publish demo_received) in
  [copy; SO_PopEvent; SO_Leave true; SO_Connect (inr AA_Complete) [99] None (Some 10) None;
   SO_Packet (inr AA_Complete) 12 (P_ConnAck demo_connack); copy].

Lemma v5_qos2_exactly_once_witness :
  refusal demo_session demo_received = None ∧
  filter (qos2_with 9) (delivered_by
    (SO_Packet (inr AA_Complete) 10 (P_Publish demo_received) :: demo_copies) demo_session)
    = [demo_received].
Proof.
  assert (Hn : refusal demo_session demo_received = None) by (by vm_compute). split; [done|].
  pose proof (v5_qos2_exactly_once 10 ∅ demo_session (inr AA_Complete) 10 demo_received demo_copies
    ltac:(unfold u16_MAX; lia) demo_session_reachable eq_refl
    ltac:(unfold is_u16; cbn; lia) ltac:(by repeat constructor)) as [_ Hw].
  specialize (Hw ltac:(by vm_compute) ltac:(by vm_compute)).
  cbn zeta in Hw. rewrite Hn in Hw. destruct Hw as (q & [= <-] & _ & Hf). exact Hf.
Defined.
