(* ===== verification/Reconnect.v ===== *)
(** The reconnect policy of the native wrappers, [native-wrappers/wrapper-core/src/reconnect.rs]:
    exponential backoff with a cap and jitter, a retry budget, and a stability interval after which
    both start over.

    [State] is the struct under the controller's lock, one definition per method; a [Controller]
    method is the method of [State] at the current time.  A [Duration] is its number of nanoseconds
    and an [Instant] a number of nanoseconds, too; [Instant::checked_add], whose range depends on the
    platform, is a parameter, as are the errors of the wrapper with their code and redacted copy. *)

From S2P Require Import Prelude.
From S2P Require Import Primitives.
#[local] Open Scope Z_scope.

(** [Duration::MAX]: 2^64 - 1 seconds and 999,999,999 nanoseconds. *)
Definition Duration_MAX : Z := 2 ^ 64 * 1000000000 - 1.
Definition u64_saturating_add (a b : Z) : Z := Z.min (a + b) (2 ^ 64 - 1).
Definition saturating_mul (d m : Z) : Z := Z.min (d * m) Duration_MAX.
Definition saturating_duration_since (due now : Z) : Z := Z.max (due - now) 0.

Inductive ReconnectJitter := RJ_None | RJ_Full.
#[global] Instance ReconnectJitter_eq_dec : EqDecision ReconnectJitter.
Proof. solve_decision. Defined.

Inductive RetryBudget := RB_Limited (limit : Z) | RB_Unlimited.

Record ReconnectConfig := mkReconnectConfig {
  initial_delay : Z;
  maximum_delay : Z;
  multiplier : Z;
  jitter : ReconnectJitter;
  budget : RetryBudget;
  stability_interval : Z;
}.

Inductive ReconnectPolicy := RP_Legacy | RP_Classified (config : ReconnectConfig).

Definition ReconnectConfig_default : ReconnectConfig :=
  {| initial_delay := 1000000000; maximum_delay := 60 * 1000000000; multiplier := 2;
     jitter := RJ_Full; budget := RB_Unlimited; stability_interval := 30 * 1000000000 |}.

Inductive ReconnectPhase := PH_Initial | PH_Attempting | PH_Connected | PH_Waiting | PH_Stopped.
#[global] Instance ReconnectPhase_eq_dec : EqDecision ReconnectPhase.
Proof. solve_decision. Defined.

Inductive ReconnectStopReason := SR_None | SR_Shutdown | SR_TerminalFailure | SR_Exhausted.

(** An error of the wrapper: whether its code is [ErrorCode::ReconnectExhausted], and
    [diagnostic_copy]. *)
Class WrapperError (E : Type) := {
  reconnect_exhausted_code : E → bool;
  diagnostic_copy : E → E;
}.

Section Reconnect.
  Context {E : Type} `{WrapperError E} (checked_add : Z → Z → option Z).

Record ReconnectExhaustion := mkReconnectExhaustion {
  ex_cycles_started : Z;
  ex_retries_since_reset : Z;
  ex_last_failure : option E;
}.

Record State := mkState {
  policy : ReconnectPolicy;
  phase : ReconnectPhase;
  cycles : Z;
  retries : Z;
  resets : Z;
  next_base : Z;
  due : option Z;
  stable_at : option Z;
  last : option E;
  stop : ReconnectStopReason;
}.

(** The errors of [start] and [check_budget]. *)
Inductive ReconnectError := PolicyStopped | Exhausted (details : ReconnectExhaustion).
Abbreviation RM := (M State ReconnectError).

(** Assignments to fields. *)
Definition set_phase v s := {| policy := policy s; phase := v; cycles := cycles s;
  retries := retries s; resets := resets s; next_base := next_base s; due := due s;
  stable_at := stable_at s; last := last s; stop := stop s |}.
Definition set_counts c r s := {| policy := policy s; phase := phase s; cycles := c; retries := r;
  resets := resets s; next_base := next_base s; due := due s; stable_at := stable_at s;
  last := last s; stop := stop s |}.
Definition set_next_base v s := {| policy := policy s; phase := phase s; cycles := cycles s;
  retries := retries s; resets := resets s; next_base := v; due := due s;
  stable_at := stable_at s; last := last s; stop := stop s |}.
Definition set_due v s := {| policy := policy s; phase := phase s; cycles := cycles s;
  retries := retries s; resets := resets s; next_base := next_base s; due := v;
  stable_at := stable_at s; last := last s; stop := stop s |}.
Definition set_stable_at v s := {| policy := policy s; phase := phase s; cycles := cycles s;
  retries := retries s; resets := resets s; next_base := next_base s; due := due s;
  stable_at := v; last := last s; stop := stop s |}.
Definition set_last v s := {| policy := policy s; phase := phase s; cycles := cycles s;
  retries := retries s; resets := resets s; next_base := next_base s; due := due s;
  stable_at := stable_at s; last := v; stop := stop s |}.
Definition set_stop v s := {| policy := policy s; phase := phase s; cycles := cycles s;
  retries := retries s; resets := resets s; next_base := next_base s; due := due s;
  stable_at := stable_at s; last := last s; stop := v |}.
Definition set_resets v s := {| policy := policy s; phase := phase s; cycles := cycles s;
  retries := retries s; resets := v; next_base := next_base s; due := due s;
  stable_at := stable_at s; last := last s; stop := stop s |}.

(** [ReconnectConfig::validate]; [now] is the time it is called at. *)
Definition validate (now : Z) (config : ReconnectConfig) : bool :=
  negb ((multiplier config =? 0) || (maximum_delay config <? initial_delay config))
  && negb (existsb (λ duration, bool_decide (checked_add now duration = None))
             [maximum_delay config; stability_interval config]).

Definition State_new (policy_ : ReconnectPolicy) : State :=
  {| policy := policy_; phase := PH_Initial; cycles := 0; retries := 0; resets := 0;
     next_base := match policy_ with RP_Legacy => 0 | RP_Classified config => initial_delay config end;
     due := None; stable_at := None; last := None; stop := SR_None |}.

(** [self.stable_at.is_some_and(|deadline| deadline <= now)] *)
Definition stable_due (s : State) (now : Z) : bool :=
  match stable_at s with Some deadline => deadline <=? now | None => false end.

Definition refresh (now : Z) (s : State) : State :=
  if stable_due s now then
    let s := set_stable_at None s in
    let s := set_counts (cycles s) 0 s in
    let s := set_resets (u64_saturating_add (resets s) 1) s in
    match policy s with
    | RP_Classified config => set_next_base (initial_delay config) s
    | RP_Legacy => s
    end
  else s.

Definition check_budget : RM unit :=
  s ← mget;
  if cycles s =? 0 then mret tt
  else
    match policy s with
    | RP_Classified config =>
        match budget config with
        | RB_Limited limit =>
            if limit <=? retries s then
              mmodify (set_stop SR_Exhausted);;
              mmodify (set_phase PH_Stopped);;
              mmodify (set_due None);;
              mfail (Exhausted {| ex_cycles_started := cycles s; ex_retries_since_reset := retries s;
                                  ex_last_failure := diagnostic_copy <$> last s |})
            else mret tt
        | RB_Unlimited => mret tt
        end
    | RP_Legacy => mret tt
    end.

Definition start (now : Z) : RM unit :=
  mmodify (refresh now);;
  s ← mget;
  if bool_decide (phase s = PH_Attempting) || bool_decide (phase s = PH_Connected) then mret tt
  else if bool_decide (phase s = PH_Stopped) then mfail PolicyStopped
  else
    check_budget;;
    mmodify (λ s, if 0 <? cycles s
                  then set_counts (cycles s) (u64_saturating_add (retries s) 1) s else s);;
    mmodify (λ s, set_counts (u64_saturating_add (cycles s) 1) (retries s) s);;
    mmodify (set_phase PH_Attempting);;
    mmodify (set_due None).

Definition connected (now : Z) (s : State) : State :=
  let s := set_phase PH_Connected s in
  let s := set_due None s in
  let s := set_stable_at
    match policy s with
    | RP_Legacy => None
    | RP_Classified config => checked_add now (stability_interval config)
    end s in
  refresh now s.

Definition connection_ended (now : Z) (s : State) : State :=
  let s := refresh now s in
  set_stable_at None s.

(** [sample] is the random delay below the base. *)
Definition failed (error : E) (now : Z) (sample : Z → Z) (s : State) : State :=
  let s := connection_ended now s in
  let s := set_last (Some (diagnostic_copy error)) s in
  let '(delay, s) :=
    match policy s with
    | RP_Legacy => (0, s)
    | RP_Classified config =>
        let base := Z.min (next_base s) (maximum_delay config) in
        let s := set_next_base
          (Z.min (saturating_mul base (multiplier config)) (maximum_delay config)) s in
        (match jitter config with
         | RJ_None => base
         | RJ_Full => Z.min (sample base) base
         end, s)
    end in
  let s := set_due (checked_add now delay) s in
  set_phase PH_Waiting s.

Definition abandoned (s : State) : State :=
  let s := set_phase PH_Waiting s in
  set_stable_at None s.

Definition terminate (now : Z) (failure : option E) (s : State) : State :=
  let s := refresh now s in
  let s := set_phase PH_Stopped s in
  let s := set_due None s in
  let s := set_stable_at None s in
  let s := set_stop
    match failure with
    | None => SR_Shutdown
    | Some error => if reconnect_exhausted_code error then SR_Exhausted else SR_TerminalFailure
    end s in
  match failure with
  | Some error =>
      if reconnect_exhausted_code error then s else set_last (Some (diagnostic_copy error)) s
  | None => s
  end.

Record ReconnectDiagnostics := mkReconnectDiagnostics {
  d_classified : bool;
  d_phase : ReconnectPhase;
  d_cycles_started : Z;
  d_retries_since_reset : Z;
  d_budget : RetryBudget;
  d_reset_count : Z;
  d_remaining_delay : option Z;
  d_remaining_stability : option Z;
  d_last_failure : option E;
  d_stop_reason : ReconnectStopReason;
  d_captured_at : Z;
}.

Definition snapshot (now : Z) (s : State) : ReconnectDiagnostics * State :=
  let s := refresh now s in
  ({| d_classified := match policy s with RP_Classified _ => true | RP_Legacy => false end;
      d_phase := phase s;
      d_cycles_started := cycles s;
      d_retries_since_reset := retries s;
      d_budget := match policy s with RP_Legacy => RB_Unlimited | RP_Classified config => budget config end;
      d_reset_count := resets s;
      d_remaining_delay := (λ due, saturating_duration_since due now) <$> due s;
      d_remaining_stability := (λ due, saturating_duration_since due now) <$> stable_at s;
      d_last_failure := last s;
      d_stop_reason := stop s;
      d_captured_at := now |}, s).
End Reconnect.

(** ** The policy as a transition system

    [f] and [g] count the failures and the retries started since the last reset. *)

Section Policy.
  Context {E : Type} `{WrapperError E} (checked_add : Z → Z → option Z) (config : ReconnectConfig).

Abbreviation State := (State (E:=E)).
Abbreviation connected := (connected checked_add).
Abbreviation failed := (failed checked_add).
Implicit Types (s : State) (f g : nat).

(** The fields are of their Rust types, and the configuration has been validated. *)
Definition config_ok : Prop :=
  0 ≤ initial_delay config ≤ maximum_delay config ∧ maximum_delay config ≤ Duration_MAX ∧
  1 ≤ multiplier config ∧
  match budget config with RB_Limited limit => 0 ≤ limit < 2 ^ 64 | RB_Unlimited => True end.

Inductive ReconnectOp :=
| RO_Start (now : Z)
| RO_CheckBudget
| RO_Abandoned
| RO_Connected (now : Z)
| RO_Ended (now : Z)
| RO_Failed (error : E) (now : Z) (sample : Z → Z)
| RO_Refresh (now : Z)
| RO_Snapshot (now : Z)
| RO_Terminate (now : Z) (failure : option E).

Definition run_op (op : ReconnectOp) s : State :=
  match op with
  | RO_Start now => (start now s).2
  | RO_CheckBudget => (check_budget s).2
  | RO_Abandoned => abandoned s
  | RO_Connected now => connected now s
  | RO_Ended now => connection_ended now s
  | RO_Failed error now sample => failed error now sample s
  | RO_Refresh now => refresh now s
  | RO_Snapshot now => (snapshot now s).2
  | RO_Terminate now failure => terminate now failure s
  end.

(** Whether the connection has been stable for long enough when the operation looks. *)
Definition resets_in (op : ReconnectOp) s : bool :=
  match op with
  | RO_Start now | RO_Ended now | RO_Failed _ now _ | RO_Refresh now | RO_Snapshot now
  | RO_Terminate now _ => stable_due s now
  | RO_Connected now =>
      match checked_add now (stability_interval config) with
      | Some deadline => deadline <=? now
      | None => false
      end
  | RO_CheckBudget | RO_Abandoned => false
  end.

(** Whether the operation starts a connection cycle after the first. *)
Definition retries_in (op : ReconnectOp) s : bool :=
  match op with
  | RO_Start _ => negb (bool_decide (phase s = PH_Attempting))
                  && bool_decide (phase (run_op op s) = PH_Attempting) && (0 <? cycles s)
  | _ => false
  end.

Definition fails_in (op : ReconnectOp) : bool :=
  match op with RO_Failed _ _ _ => true | _ => false end.

Inductive reachable : nat → nat → State → Prop :=
| reach_new : reachable 0 0 (State_new (RP_Classified config))
| reach_op f g s op :
    reachable f g s →
    reachable ((if resets_in op s then 0 else f) + Nat.b2n (fails_in op))
              ((if resets_in op s then 0 else g) + Nat.b2n (retries_in op s)) (run_op op s).

(** The delay after [n] failures since the last reset. *)
Definition backoff (n : nat) : Z :=
  Z.min (maximum_delay config) (initial_delay config * multiplier config ^ Z.of_nat n).

Lemma backoff_range n : config_ok → 0 ≤ backoff n ≤ maximum_delay config.
Proof.
  intros ((Hi & Him) & _ & Hm & _). unfold backoff.
  assert (0 ≤ initial_delay config * multiplier config ^ Z.of_nat n)
    by (apply Z.mul_nonneg_nonneg; [|apply Z.pow_nonneg]; lia). lia.
Qed.

Lemma backoff_0 : config_ok → backoff 0 = initial_delay config.
Proof. intros ((Hi & Him) & _). unfold backoff. cbn. lia. Qed.

(** The code multiplies the capped delay, and caps again. *)
Lemma backoff_S n :
  config_ok →
  Z.min (saturating_mul (Z.min (backoff n) (maximum_delay config)) (multiplier config))
    (maximum_delay config) = backoff (S n).
Proof.
  intros Hc. pose proof (backoff_range n Hc) as Hb. destruct Hc as ((Hi & Him) & HM & Hm & _).
  rewrite (Z.min_l (backoff n)) by lia. unfold saturating_mul, backoff in *.
  rewrite Nat2Z.inj_succ, Z.pow_succ_r by lia.
  set (x := initial_delay config * multiplier config ^ Z.of_nat n) in *.
  replace (initial_delay config * (multiplier config * multiplier config ^ Z.of_nat n))
    with (x * multiplier config) by (unfold x; ring).
  destruct (Z.le_ge_cases (maximum_delay config) x) as [Hx|Hx].
  - rewrite (Z.min_l (maximum_delay config) x) by done. nia.
  - rewrite (Z.min_r (maximum_delay config) x) by done. lia.
Qed.

Record policy_inv f g s : Prop := {
  pi_policy : policy s = RP_Classified config;
  pi_base : next_base s = backoff f;
  pi_cycles : 0 ≤ cycles s;
  pi_retries : match budget config with
               | RB_Limited limit => retries s = Z.of_nat g ∧ Z.of_nat g ≤ limit
               | RB_Unlimited => True
               end;
}.

Lemma policy_refresh f g s now :
  config_ok → policy_inv f g s →
  policy_inv (if stable_due s now then 0 else f) (if stable_due s now then 0 else g) (refresh now s).
Proof.
  intros Hc [Hp Hb Hcy Hr]. unfold refresh. destruct (stable_due s now); [|done].
  destruct s. cbn in *. subst. split; cbn; try done; [by rewrite backoff_0|].
  destruct Hc as (_ & _ & _ & Hl). destruct (budget config); [|done]. lia.
Qed.

Lemma policy_same f g s s' :
  policy_inv f g s → policy s' = policy s → next_base s' = next_base s → cycles s' = cycles s →
  retries s' = retries s → policy_inv f g s'.
Proof. intros [Hp Hb Hcy Hr] H1 H2 H3 H4. split; by rewrite ?H1, ?H2, ?H3, ?H4. Qed.

(** The budget is exhausted. *)
Definition exhausted g : bool :=
  match budget config with RB_Limited limit => limit <=? Z.of_nat g | RB_Unlimited => false end.

(** What [check_budget] does. *)
Lemma check_budget_run f g s :
  policy_inv f g s →
  check_budget s =
    if (0 <? cycles s) && exhausted g then
      (Err (Exhausted {| ex_cycles_started := cycles s; ex_retries_since_reset := Z.of_nat g;
                         ex_last_failure := diagnostic_copy <$> last s |}),
       set_due None (set_phase PH_Stopped (set_stop SR_Exhausted s)))
    else (Ok tt, s).
Proof.
  intros [Hp _ Hcy Hr]. unfold check_budget, exhausted. rewrite bind_run. cbn [mget].
  destruct (Z.eqb_spec (cycles s) 0) as [->|]; [done|].
  rewrite (proj2 (Z.ltb_lt 0 (cycles s))) by lia. cbn [andb]. rewrite Hp.
  destruct (budget config) as [limit|]; [|done]. destruct Hr as [-> _]. by destruct (limit <=? _).
Qed.

(** The state after a cycle has been granted. *)
Definition granted s : State :=
  set_due None (set_phase PH_Attempting (set_counts (u64_saturating_add (cycles s) 1)
    (if 0 <? cycles s then u64_saturating_add (retries s) 1 else retries s) s)).

Lemma refresh_phase now s : phase (refresh now s) = phase s ∧ cycles (refresh now s) = cycles s ∧
  last (refresh now s) = last s.
Proof. unfold refresh. destruct (stable_due s now); [|done]. destruct s as [[]]; done. Qed.

Lemma start_run f g s now :
  config_ok → policy_inv f g s →
  let s1 := refresh now s in
  let g1 := if stable_due s now then 0%nat else g in
  start now s =
    match phase s with
    | PH_Attempting | PH_Connected => (Ok tt, s1)
    | PH_Stopped => (Err PolicyStopped, s1)
    | PH_Initial | PH_Waiting =>
        if (0 <? cycles s) && exhausted g1 then
          (Err (Exhausted {| ex_cycles_started := cycles s; ex_retries_since_reset := Z.of_nat g1;
                             ex_last_failure := diagnostic_copy <$> last s |}),
           set_due None (set_phase PH_Stopped (set_stop SR_Exhausted s1)))
        else (Ok tt, granted s1)
    end.
Proof.
  intros Hc I s1 g1. pose proof (policy_refresh f g s now Hc I) as I1. fold s1 g1 in I1.
  destruct (refresh_phase now s) as (Hph & Hcy & Hla). fold s1 in Hph, Hcy, Hla.
  unfold start. rewrite bind_run. cbn [mmodify]. fold s1. rewrite bind_run. cbn [mget].
  rewrite Hph. destruct (phase s) eqn:E1; try done;
    repeat (case_bool_decide; [done|]); cbn [orb]; rewrite bind_run, (check_budget_run _ _ _ I1), Hcy, Hla;
    (destruct ((0 <? cycles s) && exhausted g1); [done|]); rewrite !bind_run; cbn [mmodify].
  all: unfold granted; rewrite Hcy; (destruct (0 <? cycles s); [done|]); by rewrite <- Hcy.
Qed.

Lemma policy_granted f g s :
  config_ok → policy_inv f g s → (0 <? cycles s) && exhausted g = false →
  policy_inv f (g + Nat.b2n (0 <? cycles s)) (granted s).
Proof.
  intros Hc [Hp Hb Hcy Hr] Hex. split; cbn; try done; [unfold u64_saturating_add; lia|].
  unfold exhausted in Hex. destruct Hc as (_ & _ & _ & Hl).
  destruct (budget config) as [limit|]; [|done]. destruct Hr as [-> Hg].
  destruct (0 <? cycles s); cbn [andb Nat.b2n] in *; [|by rewrite Nat.add_0_r].
  apply Z.leb_gt in Hex. unfold u64_saturating_add. lia.
Qed.

Lemma policy_start f g s now :
  config_ok → policy_inv f g s →
  policy_inv (if stable_due s now then 0 else f)
    ((if stable_due s now then 0 else g) + Nat.b2n (retries_in (RO_Start now) s)) (start now s).2.
Proof.
  intros Hc I. pose proof (policy_refresh f g s now Hc I) as I1.
  destruct (refresh_phase now s) as (Hph & Hcy & _). unfold retries_in, run_op.
  rewrite (start_run f g s now Hc I). rewrite <- Hcy.
  destruct (phase s) eqn:E1; cbn [snd]; rewrite ?Hph, ?(bool_decide_eq_true_2 (PH_Attempting = _)),
    ?(bool_decide_eq_false_2 (PH_Connected = _)), ?(bool_decide_eq_false_2 (PH_Stopped = _)) by done;
    cbn [negb andb Nat.b2n]; rewrite ?andb_false_r, ?Nat.add_0_r; try done;
    (destruct ((0 <? cycles _) && exhausted _) eqn:Ex; cbn [snd];
      [rewrite (bool_decide_eq_false_2 (phase _ = _)), andb_false_r, Nat.add_0_r by done;
       by eapply policy_same
      |rewrite (bool_decide_eq_false_2 (_ = PH_Attempting)) at 1 by done;
       rewrite (bool_decide_eq_true_2 (phase _ = _)) by done; by apply policy_granted]).
Qed.

Lemma policy_op f g s op :
  config_ok → policy_inv f g s →
  policy_inv ((if resets_in op s then 0 else f) + Nat.b2n (fails_in op))
    ((if resets_in op s then 0 else g) + Nat.b2n (retries_in op s)) (run_op op s).
Proof.
  intros Hc I. pose proof (policy_refresh f g s) as Href.
  destruct op; cbn [resets_in fails_in Nat.b2n]; try (specialize (Href now Hc I));
    match goal with |- context [retries_in (RO_Start _) _] => idtac | _ =>
      cbn [retries_in Nat.b2n]; rewrite ?Nat.add_0_r end.
  - rewrite Nat.add_0_r. by apply policy_start.
  - cbn [run_op]. rewrite (check_budget_run f g s) by done. destruct (_ && _); [|done].
    by apply (policy_same f g s).
  - by apply (policy_same f g s).
  - cbn [run_op]. unfold Reconnect.connected. cbn zeta.
    set (s1 := set_stable_at _ _).
    assert (I1 : policy_inv f g s1) by (by apply (policy_same f g s)).
    replace (match checked_add now (stability_interval config) with Some _ => _ | None => false end)
      with (stable_due s1 now); [by apply policy_refresh|].
    unfold stable_due, s1. cbn. by rewrite (pi_policy _ _ _ I).
  - by apply (policy_same _ _ (refresh now s)).
  - cbn [run_op]. unfold Reconnect.failed, connection_ended. destruct Href as [Hp Hb Hcy Hr].
    cbn. rewrite Hp. rewrite Nat.add_1_r. split; cbn; try done. by rewrite Hb, backoff_S.
  - done.
  - done.
  - cbn [run_op]. unfold terminate. destruct failure as [e|]; [destruct (reconnect_exhausted_code e)|];
      by apply (policy_same _ _ (refresh now s)).
Qed.

Lemma reachable_policy f g s : config_ok → reachable f g s → policy_inv f g s.
Proof.
  intros Hc. induction 1 as [|f g s op _ IH]; [|by apply policy_op].
  split; cbn; [done|by rewrite backoff_0|done|]. destruct Hc as (_ & _ & _ & Hl).
  destruct (budget config); [|done]. lia.
Qed.

(** A run with its counts. *)
Fixpoint run_counted (ops : list ReconnectOp) f g s : nat * nat * State :=
  match ops with
  | [] => (f, g, s)
  | op :: ops =>
      run_counted ops ((if resets_in op s then 0 else f) + Nat.b2n (fails_in op))
        ((if resets_in op s then 0 else g) + Nat.b2n (retries_in op s)) (run_op op s)
  end.

Lemma policy_reachable_run ops f g s :
  reachable f g s → let '(f', g', s') := run_counted ops f g s in reachable f' g' s'.
Proof.
  revert f g s. induction ops as [|op ops IH]; intros f g s Hr; [done|]. by apply IH, reach_op.
Qed.

(** ** Theorems *)

(** C36: The backoff is exponential and capped: in every state the policy can reach, a failure makes the
    client wait for the initial delay times the multiplier to the power of the failures since the
    last reset, or for the maximum delay if that is less; with jitter it waits for at most that long.
    The failures are counted from zero again exactly when the connection has been stable. *)
Theorem reconnect_backoff f g s error now sample :
  config_ok → reachable f g s →
  let s' := failed error now sample s in
  let base := backoff (if stable_due s now then 0 else f) in
  0 ≤ base ≤ maximum_delay config ∧ phase s' = PH_Waiting ∧ last s' = Some (diagnostic_copy error) ∧
  due s' = checked_add now (match jitter config with RJ_None => base | RJ_Full => Z.min (sample base) base end).
Proof.
  intros Hc Hr s' base. pose proof (policy_refresh f g s now Hc (reachable_policy f g s Hc Hr)) as [Hp Hb _ _].
  pose proof (backoff_range (if stable_due s now then 0 else f) Hc) as Hrange. fold base in Hrange.
  split; [done|]. unfold s', Reconnect.failed, connection_ended. cbn. rewrite Hp. cbn. split_and!; [done..|].
  rewrite Hb. fold base. by rewrite (Z.min_l base) by lia.
Qed.

(** C35: The retry budget is exact: over every run of the policy the retries since the last reset are
    counted exactly and never more than the budget.  A new connection cycle is refused exactly when
    the policy has been stopped, or when it is not the first one, no cycle is in progress and every
    retry of the budget has been used; then the policy is stopped and reports the cycles, the retries
    and the last failure.  Otherwise it is granted: a cycle in progress goes on, a new one is counted. *)
Theorem reconnect_budget f g s limit now :
  config_ok → budget config = RB_Limited limit → reachable f g s →
  let g1 := if stable_due s now then 0%nat else g in
  let r := (start now s).1 in
  let s' := (start now s).2 in
  retries s = Z.of_nat g ∧ Z.of_nat g ≤ limit ∧ 0 ≤ cycles s ∧
  match phase s with
  | PH_Stopped => r = Err PolicyStopped ∧ phase s' = PH_Stopped ∧ cycles s' = cycles s
  | PH_Attempting | PH_Connected => r = Ok tt ∧ phase s' = phase s ∧ cycles s' = cycles s
  | PH_Initial | PH_Waiting =>
      (cycles s = 0 ∨ Z.of_nat g1 < limit →
         r = Ok tt ∧ phase s' = PH_Attempting ∧ cycles s' = u64_saturating_add (cycles s) 1) ∧
      (0 < cycles s → Z.of_nat g1 = limit →
         r = Err (Exhausted {| ex_cycles_started := cycles s; ex_retries_since_reset := limit;
                               ex_last_failure := diagnostic_copy <$> last s |}) ∧
         phase s' = PH_Stopped ∧ stop s' = SR_Exhausted)
  end.
Proof.
  intros Hc Hlim Hr g1. pose proof (reachable_policy f g s Hc Hr) as I.
  pose proof (pi_retries _ _ _ I) as Hg. rewrite Hlim in Hg. destruct Hg as [Hg Hle].
  rewrite (start_run f g s now Hc I). fold g1. destruct (refresh_phase now s) as (Hph & Hcy & _).
  assert (Hex : exhausted g1 = (limit <=? Z.of_nat g1)) by (unfold exhausted; by rewrite Hlim).
  rewrite Hex. cbv zeta. split_and!; [done..|apply I|].
  destruct (phase s); cbn [fst snd]; rewrite ?Hph; try done;
    (split; [intros Hgo|intros Hpos ->; by rewrite (proj2 (Z.ltb_lt _ _) Hpos), Z.leb_refl]);
    (assert ((0 <? cycles s) && (limit <=? Z.of_nat g1) = false) as ->
       by (destruct Hgo as [->|Hlt]; [done|by rewrite (proj2 (Z.leb_gt _ _) Hlt), andb_false_r]));
    cbn; by rewrite Hcy.
Qed.
End Policy.

(** ** A run: 10 ms doubled up to 25 ms, two retries, 30 s of stability *)

#[local] Instance unit_error : WrapperError unit := {|
  reconnect_exhausted_code _ := false;
  diagnostic_copy e := e;
|}.

Definition demo_config : ReconnectConfig :=
  {| initial_delay := 10000000; maximum_delay := 25000000; multiplier := 2; jitter := RJ_None;
     budget := RB_Limited 2; stability_interval := 30000000000 |}.

Definition demo_add (now d : Z) : option Z := Some (now + d).

Definition demo_ops : list (ReconnectOp (E:=unit)) :=
  [RO_Start 0; RO_Failed tt 1 id; RO_Start 2; RO_Failed tt 3 id; RO_Start 4; RO_Failed tt 5 id].

Definition demo_run : nat * nat * State (E:=unit) :=
  run_counted demo_add demo_config demo_ops 0 0 (State_new (RP_Classified demo_config)).

Lemma demo_config_ok : config_ok demo_config.
Proof. unfold config_ok, Duration_MAX. cbn. lia. Qed.

Lemma demo_run_reachable : reachable demo_add demo_config demo_run.1.1 demo_run.1.2 demo_run.2.
Proof. exact (policy_reachable_run demo_add demo_config demo_ops 0 0 _ (reach_new _ _)). Qed.

(** The fourth failure waits for the maximum. *)
Lemma reconnect_backoff_witness :
  demo_run.1 = (3%nat, 2%nat) ∧
  due (failed demo_add tt 6 id demo_run.2) = Some (6 + 25000000).
Proof.
  split; [by vm_compute|].
  destruct (reconnect_backoff demo_add demo_config _ _ _ tt 6 id demo_config_ok demo_run_reachable)
    as (_ & _ & _ & ->). by vm_compute.
Defined.

(** Two retries have been used. *)
Lemma reconnect_budget_witness :
  (start 7 demo_run.2).1 = Err (Exhausted {| ex_cycles_started := 3; ex_retries_since_reset := 2;
                                            ex_last_failure := Some tt |}) ∧
  phase (start 7 demo_run.2).2 = PH_Stopped.
Proof.
  destruct (reconnect_budget demo_add demo_config _ _ _ 2 7 demo_config_ok eq_refl demo_run_reachable)
    as (_ & _ & _ & Hs).
  assert (Hph : phase demo_run.2 = PH_Waiting) by by vm_compute. rewrite Hph in Hs.
  destruct Hs as [_ Hs]. destruct Hs as (-> & -> & _); by vm_compute.
Defined.
