(* ===== verification/V5Srv.v ===== *)
(** DNS SRV answers for MQTT 5 redirects, [rumqttc-v5/src/srv.rs]: which records can be used, and
    the order in which their targets are tried.

    Names are lists of bytes.  The parser of IP addresses of the standard library is modelled as it
    is written.  The generator of random numbers, of the crate [rand], is a class with the documented
    behaviour of [shuffle] and [random_range]. *)

From stdpp Require Import sorting.
From S2P Require Import Prelude.
From S2P Require Import Primitives.
From S2P Require Import Topic.
#[local] Open Scope Z_scope.

(** ** ASCII *)

Definition is_ascii_digit (b : Z) : bool := (48 <=? b) && (b <=? 57).
Definition is_ascii_lowercase (b : Z) : bool := (97 <=? b) && (b <=? 122).
Definition is_ascii_uppercase (b : Z) : bool := (65 <=? b) && (b <=? 90).
Definition is_ascii_alphanumeric (b : Z) : bool :=
  is_ascii_digit b || is_ascii_lowercase b || is_ascii_uppercase b.
Definition ascii_lower (b : Z) : Z := if is_ascii_uppercase b then b + 32 else b.
Definition to_ascii_lowercase (s : Bytes) : Bytes := map ascii_lower s.

(** [char::to_digit] *)
Definition to_digit (radix b : Z) : option Z :=
  let d := if is_ascii_digit b then b - 48
           else if is_ascii_lowercase b then b - 87
           else if is_ascii_uppercase b then b - 55 else radix in
  if d <? radix then Some d else None.

(** [str::strip_suffix(c)] for a character. *)
Definition strip_suffix (c : Z) (s : Bytes) : option Bytes :=
  match reverse s with
  | b :: rest => if b =? c then Some (reverse rest) else None
  | [] => None
  end.

(** ** IP addresses ([core::net::parser])

    A parser returns its value and the rest of the input; one that fails leaves the input alone. *)

Definition Parser (A : Type) : Type := Bytes → option (A * Bytes).

Definition read_given_char (c : Z) : Parser unit := λ s,
  match s with b :: rest => if b =? c then Some (tt, rest) else None | [] => None end.

(** The digits in front, their number and their value. *)
Fixpoint read_digits (radix : Z) (s : Bytes) (count value : Z) : Z * Z * Bytes :=
  match s with
  | b :: rest =>
      match to_digit radix b with
      | Some d => read_digits radix rest (count + 1) (value * radix + d)
      | None => (count, value, s)
      end
  | [] => (count, value, s)
  end.

Definition read_number (radix max_digits max_value : Z) (allow_zero_prefix : bool) : Parser Z := λ s,
  let has_leading_zero := starts_with 48 s in
  let '(count, value, rest) := read_digits radix s 0 0 in
  if max_digits <? count then None
  else if max_value <? value then None
  else if count =? 0 then None
  else if negb allow_zero_prefix && has_leading_zero && (1 <? count) then None
  else Some (value, rest).

Definition read_separator {A} (sep index : Z) (inner : Parser A) : Parser A := λ s,
  if 0 <? index then
    match read_given_char sep s with Some (_, s) => inner s | None => None end
  else inner s.

(** The groups of an IPv4 address from [index] on. *)
Fixpoint read_ipv4_groups (groups : nat) (index : Z) : Parser (list Z) := λ s,
  match groups with
  | O => Some ([], s)
  | S groups =>
      match read_separator 46 index (read_number 10 3 255 false) s with
      | None => None
      | Some (slot, s) =>
          match read_ipv4_groups groups (index + 1) s with
          | None => None
          | Some (slots, s) => Some (slot :: slots, s)
          end
      end
  end.
Definition read_ipv4_addr : Parser (list Z) := read_ipv4_groups 4 0.

(** [read_groups] for [left] more groups from [index] on: the groups read, whether the last two are
    an IPv4 address, and the rest of the input. *)
Fixpoint read_groups (left : nat) (index : Z) (s : Bytes) : list Z * bool * Bytes :=
  match left with
  | O => ([], false, s)
  | S more =>
      match (if (0 <? more)%nat then read_separator 58 index read_ipv4_addr s else None) with
      | Some ([one; two; three; four], s) => ([one * 256 + two; three * 256 + four], true, s)
      | _ =>
          match read_separator 58 index (read_number 16 4 u16_MAX true) s with
          | None => ([], false, s)
          | Some (group, s) =>
              let '(groups, ipv4, s) := read_groups more (index + 1) s in (group :: groups, ipv4, s)
          end
      end
  end.

Definition read_ipv6_addr : Parser (list Z) := λ s,
  let '(head, head_ipv4, s1) := read_groups 8 0 s in
  if (length head =? 8)%nat then Some (head, s1)
  else if head_ipv4 : bool then None
  else
    match read_given_char 58 s1 with
    | None => None
    | Some (_, s2) =>
        match read_given_char 58 s2 with
        | None => None
        | Some (_, s3) =>
            let '(tail, _, s4) := read_groups (8 - (length head + 1)) 0 s3 in
            Some (head ++ replicate (8 - length head - length tail) 0 ++ tail, s4)
        end
    end.

Inductive IpAddr := V4 (octets : list Z) | V6 (segments : list Z).

(** The whole input must be read. *)
Definition parse_with {A} (inner : Parser A) (s : Bytes) : option A :=
  match inner s with Some (a, []) => Some a | _ => None end.

Definition parse_ipv6 (s : Bytes) : option (list Z) := parse_with read_ipv6_addr s.

Definition parse_ip (s : Bytes) : option IpAddr :=
  parse_with (λ s, match read_ipv4_addr s with
                   | Some (octets, s) => Some (V4 octets, s)
                   | None => match read_ipv6_addr s with
                             | Some (segments, s) => Some (V6 segments, s)
                             | None => None
                             end
                   end) s.

(** ** Records *)

Definition MAX_SRV_TARGETS : Z := 32.
Definition u32_MAX : Z := 2 ^ 32 - 1.

Record SrvRecord := mkSrvRecord {
  sr_priority : u16; sr_weight : u16; sr_port : u16; sr_target : Bytes;
}.

Record ResolvedSrvTarget := mkResolvedSrvTarget {
  priority : u16; weight : u16; port : u16; target : Bytes;
}.

Inductive SrvAnswerError :=
| ServiceUnavailable
| TooMany (count : Z)
| NoUsableTargets (rejected : Z).

(** The bytes of a label. *)
Definition label_ok (label : Bytes) : bool :=
  negb (bool_decide (label = [])) && (blen label <=? 63)
  && forallb (λ byte, is_ascii_alphanumeric byte || (byte =? 45)) label
  && match head label with Some b => is_ascii_alphanumeric b | None => false end
  && match last label with Some b => is_ascii_alphanumeric b | None => false end.

Definition normalize_target (target : Bytes) : option Bytes :=
  let target := default target (strip_suffix 46 target) in
  if bool_decide (target = []) || match parse_ip target with Some _ => true | None => false end then None
  else
    let labels := split_on 46 target in
    let total := Z.of_nat (list_sum (map length labels) + length labels) - 1 in
    if (253 <? total) || existsb (λ label, negb (label_ok label)) labels then None
    else Some (to_ascii_lowercase target).

(** [sort_by_key], a stable sort. *)
Fixpoint insert_by_key {T} (key : T → Z) (x : T) (l : list T) : list T :=
  match l with
  | [] => [x]
  | y :: l' => if key x <=? key y then x :: l else y :: insert_by_key key x l'
  end.
Definition sort_by_key {T} (key : T → Z) (l : list T) : list T := foldr (insert_by_key key) [] l.

(** The crate [rand]: [shuffle], and [random_range(0..=max)]. *)
Class Rng (G : Type) := {
  shuffle : list ResolvedSrvTarget → G → list ResolvedSrvTarget * G;
  random_range : Z → G → Z * G;
}.

Class RngLaws (G : Type) `{Rng G} : Prop := {
  shuffle_perm l g : (shuffle l g).1 ≡ₚ l;
  random_range_bounds max g : 0 ≤ max → 0 ≤ (random_range max g).1 ≤ max;
}.

Section Srv.
  Context {G : Type} `{Rng G}.

Abbreviation SM := (M G SrvAnswerError).

Definition draw_range (max : Z) : SM Z := λ g, let '(n, g) := random_range max g in (Ok n, g).
Definition shuffled (l : list ResolvedSrvTarget) : SM (list ResolvedSrvTarget) := λ g,
  let '(l, g) := shuffle l g in (Ok l, g).

(** [.map(..).sum::<u32>()], which panics on overflow. *)
Fixpoint sum_weights (group : list ResolvedSrvTarget) (sum : Z) : outcome SrvAnswerError Z :=
  match group with
  | [] => Ok sum
  | t :: group => if u32_MAX <? sum + weight t then Panic else sum_weights group (sum + weight t)
  end.

(** [.position(..)] with the running sum of the weights. *)
Fixpoint position_at (group : list ResolvedSrvTarget) (draw running : Z) (index : nat)
  : outcome SrvAnswerError (option nat) :=
  match group with
  | [] => Ok None
  | t :: group =>
      let running := running + weight t in
      if u32_MAX <? running then Panic
      else if draw <=? running then Ok (Some index)
      else position_at group draw running (S index)
  end.

(** The [while] loop; every turn but the last removes one target. *)
Fixpoint order_priority_group (turns : nat) (group ordered : list ResolvedSrvTarget)
  : SM (list ResolvedSrvTarget) :=
  match turns with
  | O => mret ordered
  | S turns =>
      if bool_decide (group = []) then mret ordered
      else if forallb (λ t, weight t =? 0) group then
        group ← shuffled group;
        mret (ordered ++ group)
      else
        let group := sort_by_key (λ t, Z.b2z (negb (weight t =? 0))) group in
        sum ← lift (sum_weights group 0);
        draw ← draw_range sum;
        position ← lift (position_at group draw 0 0);
        index ← lift (expect position);
        chosen ← lift (expect (group !! index));
        order_priority_group turns (delete index group) (ordered ++ [chosen])
  end.

(** The loop over the records: the usable targets and the number of malformed records. *)
Fixpoint usable_targets (records : list SrvRecord) (rejected : Z) (targets : list ResolvedSrvTarget)
  : Z * list ResolvedSrvTarget :=
  match records with
  | [] => (rejected, targets)
  | record :: records =>
      if bool_decide (sr_target record = [46]) then usable_targets records rejected targets
      else
        match normalize_target (sr_target record) with
        | None => usable_targets records (rejected + 1) targets
        | Some target =>
            if sr_port record =? 0 then usable_targets records (rejected + 1) targets
            else usable_targets records rejected
                   (targets ++ [{| priority := sr_priority record; weight := sr_weight record;
                                   port := sr_port record; target := target |}])
        end
  end.

(** The loop over the groups of equal priority, [targets[start..]] being left. *)
Fixpoint order_groups (turns : nat) (targets ordered : list ResolvedSrvTarget)
  : SM (list ResolvedSrvTarget) :=
  match turns, targets with
  | S turns, first :: _ =>
      let offset := default (length targets)
        (fst <$> list_find (λ t, priority t ≠ priority first) targets) in
      let group := take offset targets in
      ordered ← order_priority_group (length group) group ordered;
      order_groups turns (drop offset targets) ordered
  | _, _ => mret ordered
  end.

Definition prepare_srv_targets (records : list SrvRecord) : SM (list ResolvedSrvTarget) :=
  if match records with [record] => bool_decide (sr_target record = [46]) | _ => false end
  then mfail ServiceUnavailable
  else
    let '(rejected, targets) := usable_targets records 0 [] in
    if MAX_SRV_TARGETS <? blen targets then mfail (TooMany (blen targets))
    else if bool_decide (targets = []) then mfail (NoUsableTargets rejected)
    else
      let targets := sort_by_key priority targets in
      order_groups (length targets) targets [].
End Srv.

(** ** Stable sorting *)

Section Sorting.
  Context {T : Type} (key : T → Z).

Abbreviation ordered_by := (StronglySorted (λ a b, key a ≤ key b)).

Lemma insert_perm x l : insert_by_key key x l ≡ₚ x :: l.
Proof.
  induction l as [|y l IH]; cbn; [done|]. destruct (key x <=? key y); [done|].
  rewrite IH. apply Permutation_swap.
Qed.
Lemma sort_perm l : sort_by_key key l ≡ₚ l.
Proof. induction l as [|x l IH]; cbn; [done|]. by rewrite insert_perm, IH. Qed.

Lemma insert_sorted x l : ordered_by l → ordered_by (insert_by_key key x l).
Proof.
  induction 1 as [|y l Hs IH Hy]; cbn; [repeat constructor|].
  destruct (Z.leb_spec (key x) (key y)) as [Hle|Hlt].
  - constructor; [by constructor|]. constructor; [done|].
    eapply Forall_impl; [exact Hy|]. cbn. lia.
  - constructor; [done|]. rewrite insert_perm. constructor; [lia|done].
Qed.
Lemma sort_sorted l : ordered_by (sort_by_key key l).
Proof. induction l as [|x l IH]; cbn; [constructor|]. by apply insert_sorted. Qed.
End Sorting.

(** ** Weighted choice *)

Definition total_weight (group : list ResolvedSrvTarget) : Z := foldr (λ t s, weight t + s) 0 group.

Definition weight_u16 (t : ResolvedSrvTarget) : Prop := 0 ≤ weight t ≤ u16_MAX.

Lemma total_weight_cons t l : total_weight (t :: l) = weight t + total_weight l.
Proof. done. Qed.

Lemma total_weight_perm l l' : l ≡ₚ l' → total_weight l = total_weight l'.
Proof. unfold total_weight. induction 1; cbn [foldr] in *; lia. Qed.

Lemma total_weight_bounds l : Forall weight_u16 l → 0 ≤ total_weight l ≤ blen l * u16_MAX.
Proof.
  induction 1 as [|t l Ht _ IH]; [done|]. rewrite blen_cons, total_weight_cons. unfold weight_u16 in Ht. lia.
Qed.

Lemma sum_weights_ok l sum :
  Forall weight_u16 l → sum + total_weight l ≤ u32_MAX → sum_weights l sum = Ok (sum + total_weight l).
Proof.
  intros Hl. revert sum. induction Hl as [|t l Ht Hl IH]; intros sum Hs; cbn [sum_weights].
  { f_equal. cbn. lia. }
  rewrite total_weight_cons in *. pose proof (total_weight_bounds l Hl). unfold weight_u16 in Ht.
  rewrite (proj2 (Z.ltb_ge _ _)) by lia. rewrite IH by lia. f_equal. lia.
Qed.

(** The target chosen is the first whose running sum reaches the number drawn. *)
Lemma position_at_ok l draw running index :
  Forall weight_u16 l → l ≠ [] → running + total_weight l ≤ u32_MAX → draw ≤ running + total_weight l →
  ∃ i, position_at l draw running index = Ok (Some (index + i)%nat) ∧ (i < length l)%nat ∧
    draw ≤ running + total_weight (take (S i) l) ∧
    (i = 0%nat ∨ running + total_weight (take i l) < draw).
Proof.
  intros Hl. revert running index. induction Hl as [|t l Ht Hl IH]; intros running index Hne Hs Hd; [done|].
  rewrite total_weight_cons in Hs, Hd. pose proof (total_weight_bounds l Hl) as Hb.
  cbn [position_at]. unfold weight_u16 in Ht. rewrite (proj2 (Z.ltb_ge _ _)) by lia.
  destruct (Z.leb_spec draw (running + weight t)) as [Hle|Hlt].
  { exists 0%nat. rewrite Nat.add_0_r, firstn_cons, take_0, total_weight_cons. cbn. split_and!; [done|lia|lia|by left]. }
  destruct l as [|t' l']; [cbn in *; lia|].
  destruct (IH (running + weight t) (S index)) as (i & Hp & Hi & Hle & Hor); [done|lia|lia|].
  exists (S i). rewrite Hp. split_and!; [f_equal; f_equal; lia|cbn in *; lia|..].
  - rewrite firstn_cons, total_weight_cons. lia.
  - right. rewrite firstn_cons, total_weight_cons. destruct Hor as [->|Hor]; [cbn|]; lia.
Qed.

(** A draw chooses a target exactly when it falls into its share of the weights, a share that for
    the first target includes 0. *)
Lemma position_at_share l draw i :
  Forall weight_u16 l → total_weight l ≤ u32_MAX → (i < length l)%nat → 0 ≤ draw ≤ total_weight l →
  position_at l draw 0 0 = Ok (Some i) ↔
  draw ≤ total_weight (take (S i) l) ∧ (i = 0%nat ∨ total_weight (take i l) < draw).
Proof.
  intros Hl Hs Hi Hd. assert (Hmono : ∀ a c, (a ≤ c)%nat → total_weight (take a l) ≤ total_weight (take c l)).
  { intros a c Hac. rewrite <- (take_drop a (take c l)), take_take, Nat.min_l by lia.
    assert (Happ : ∀ x y, total_weight (x ++ y) = total_weight x + total_weight y).
    { intros x y. induction x as [|t x IH]; [done|]. cbn [app]. rewrite !total_weight_cons. lia. }
    rewrite Happ. assert (Forall weight_u16 (drop a (take c l))) as Hf by (by apply Forall_drop, Forall_take).
    apply total_weight_bounds in Hf. lia. }
  destruct (position_at_ok l draw 0 0) as (j & Hp & Hj & Hle & Hor); [done|destruct l; [cbn in Hi; lia|done]|lia..|].
  cbn [Nat.add] in Hp. rewrite Hp. split; [intros [= <-]; split; [lia|destruct Hor; [by left|right; lia]]|].
  intros [Hle' Hor']. do 2 f_equal. destruct (lt_eq_lt_dec i j) as [[Hlt|Heq]|Hlt]; [|done|].
  - destruct Hor as [->|Hor]; [lia|]. specialize (Hmono (S i) j ltac:(lia)). lia.
  - destruct Hor' as [->|Hor']; [lia|]. specialize (Hmono (S j) i ltac:(lia)). lia.
Qed.

(** ** The order of the targets *)

Section Order.
  Context {G : Type} `{RngLaws G}.

Abbreviation by_priority := (StronglySorted (λ a b : ResolvedSrvTarget, priority a ≤ priority b)).

Lemma wp_order_group turns group ordered (Q : list ResolvedSrvTarget → G → Prop) X g :
  (length group ≤ turns)%nat → Forall weight_u16 group → blen group ≤ MAX_SRV_TARGETS →
  (∀ l g', l ≡ₚ group → Q (ordered ++ l) g') →
  wp (order_priority_group turns group ordered) Q X g.
Proof.
  revert group ordered g. induction turns as [|turns IH]; intros group ordered g Ht Hw Hl HQ.
  { destruct group; [|cbn in *; lia]. apply wp_ret. rewrite <- (app_nil_r ordered). by apply HQ. }
  cbn [order_priority_group]. case_bool_decide as Hne.
  { subst. apply wp_ret. rewrite <- (app_nil_r ordered). by apply HQ. }
  destruct (forallb _ group).
  { apply wp_bind. unfold wp, shuffled. pose proof (shuffle_perm group g) as Hp.
    destruct (shuffle group g) as [l g']. by apply HQ. }
  set (sorted := sort_by_key _ group). assert (Hp : sorted ≡ₚ group) by apply sort_perm.
  clearbody sorted.
  assert (Hws : Forall weight_u16 sorted) by (by rewrite Hp).
  assert (Hlen : length sorted = length group) by (by rewrite Hp).
  pose proof (total_weight_bounds sorted Hws) as Hb.
  assert (Hblen : blen sorted = blen group) by (unfold blen; by rewrite Hlen).
  assert (Hsum : total_weight sorted ≤ u32_MAX).
  { unfold MAX_SRV_TARGETS, u32_MAX, u16_MAX in *. lia. }
  apply wp_bind, wp_lift. rewrite sum_weights_ok by (done || lia).
  apply wp_bind. unfold wp at 1, draw_range.
  pose proof (random_range_bounds (0 + total_weight sorted) g ltac:(lia)) as Hd.
  destruct (random_range _ g) as [draw g1]. cbn [fst] in Hd. apply wp_bind, wp_lift.
  destruct (position_at_ok sorted draw 0 0) as (i & -> & Hi & _); [done| |lia..|].
  { intros Hs. rewrite Hs in Hlen. by destruct group. }
  apply wp_bind, wp_lift. cbn [expect Nat.add]. destruct (lookup_lt_is_Some_2 sorted i Hi) as [t Hti].
  rewrite Hti. apply wp_bind, wp_lift. cbn [expect].
  assert (Hdel : t :: delete i sorted ≡ₚ group).
  { rewrite <- Hp. symmetry. by apply delete_Permutation in Hti. }
  apply IH.
  - apply Permutation_length in Hdel. cbn in Hdel. lia.
  - rewrite <- Hdel in Hw. by apply Forall_cons in Hw as [_ Hw].
  - apply Permutation_length in Hdel. unfold blen in *. cbn in Hdel. lia.
  - intros l g' Hl'. rewrite <- app_assoc. apply HQ. by rewrite <- Hdel, <- Hl'.
Qed.

(** The first group of equal priority, and what comes after it. *)
Lemma group_split t targets :
  by_priority (t :: targets) →
  let offset := default (length (t :: targets))
    (fst <$> list_find (λ t', priority t' ≠ priority t) (t :: targets)) in
  Forall (λ a, priority a = priority t) (take offset (t :: targets)) ∧ (0 < offset)%nat.
Proof.
  intros Hs. cbn zeta. destruct (list_find _ (t :: targets)) as [[i a]|] eqn:Hf; cbn [fmap option_fmap option_map default fst].
  - apply list_find_Some in Hf as (Hi & Ha & Hall). split.
    + apply Forall_lookup. intros j b Hb. apply lookup_take_Some in Hb as [Hb Hj].
      destruct (decide (priority b = priority t)); [done|]. by apply (Hall j b) in Hj.
    + destruct i; cbn in *; [congruence|lia].
  - apply list_find_None in Hf. rewrite firstn_all. split; [|cbn; lia].
    eapply Forall_impl; [exact Hf|]. intros a Ha. by destruct (decide (priority a = priority t)).
Qed.

Lemma wp_order_groups turns targets ordered (Q : list ResolvedSrvTarget → G → Prop) X g :
  (length targets ≤ turns)%nat → by_priority targets → Forall weight_u16 targets →
  blen targets ≤ MAX_SRV_TARGETS →
  (∀ l g', l ≡ₚ targets → by_priority l → Q (ordered ++ l) g') →
  wp (order_groups turns targets ordered) Q X g.
Proof.
  revert targets ordered g. induction turns as [|turns IH]; intros targets ordered g Ht Hs Hw Hl HQ.
  all: destruct targets as [|t targets];
    [apply wp_ret; rewrite <- (app_nil_r ordered); apply HQ; [done|constructor]|].
  { cbn in Ht. lia. }
  cbn [order_groups]. destruct (group_split t targets Hs) as [Hgroup Hoff]. cbn zeta in Hgroup, Hoff.
  set (offset := default _ _) in *. clearbody offset. set (all := t :: targets) in *.
  apply wp_bind, wp_order_group; [done|by apply Forall_take|unfold blen in *; rewrite length_take; lia|].
  intros l1 g1 Hl1. rewrite <- (take_drop offset all) in Hs. apply StronglySorted_app in Hs as (Hcross & _ & Hrest).
  apply IH; [rewrite length_drop; unfold all in *; cbn in *; lia|done|by apply Forall_drop
            |unfold blen in *; rewrite length_drop; lia|].
  intros l2 g2 Hl2 Hs2. rewrite <- app_assoc. apply HQ; [by rewrite Hl1, Hl2, take_drop|].
  apply StronglySorted_app. split_and!; [|..|done].
  - intros a b. rewrite Hl1, Hl2. intros Ha Hb. by apply Hcross.
  - rewrite <- Hl1 in Hgroup. clear -Hgroup. induction Hgroup as [|a l1 Ha Hg IH]; constructor; [done|].
    eapply Forall_impl; [exact Hg|]. cbn. intros b Hb. lia.
Qed.

(** The target a record names, if it can be used. *)
Definition usable (record : SrvRecord) : option ResolvedSrvTarget :=
  if bool_decide (sr_target record = [46]) then None
  else
    target ← normalize_target (sr_target record);
    if sr_port record =? 0 then None
    else Some {| priority := sr_priority record; weight := sr_weight record;
                 port := sr_port record; target := target |}.

(** A record that names a target, but not one that can be used. *)
Definition malformed (record : SrvRecord) : Prop := sr_target record ≠ [46] ∧ usable record = None.
#[global] Instance malformed_dec record : Decision (malformed record).
Proof.
  unfold malformed. apply and_dec; [apply _|].
  destruct (usable record); [by right|by left].
Defined.

Lemma usable_targets_run records rejected targets :
  usable_targets records rejected targets =
  (rejected + blen (filter malformed records), targets ++ omap usable records).
Proof.
  revert rejected targets. induction records as [|r records IH]; intros rejected targets.
  { cbn. by rewrite app_nil_r, Z.add_0_r. }
  rewrite filter_cons. cbn [usable_targets omap list_omap].
  destruct (decide (malformed r)) as [[Hdot Hu]|Hm].
  - rewrite Hu, bool_decide_eq_false_2, blen_cons, Z.add_assoc by done. unfold usable in Hu.
    rewrite bool_decide_eq_false_2 in Hu by done.
    destruct (normalize_target (sr_target r)); cbn in Hu; [destruct (sr_port r =? 0); [|done]|]; apply IH.
  - unfold malformed, usable in *. case_bool_decide as Hdot; [apply IH|].
    destruct (normalize_target (sr_target r)); cbn in *; [|tauto]. destruct (sr_port r =? 0); [tauto|].
    by rewrite IH, <- app_assoc.
Qed.

End Order.

(** ** An answer with two priorities *)

(** A generator that counts, for the witness. *)
#[local] Instance counting_rng : Rng Z := {|
  shuffle l g := (l, g + 1);
  random_range max g := (g mod (max + 1), g + 1);
|}.
#[local] Instance counting_rng_laws : RngLaws Z.
Proof.
  split; [done|]. intros max g Hmax. cbn. pose proof (Z.mod_pos_bound g (max + 1)). lia.
Qed.

Definition demo_records : list SrvRecord :=
  [{| sr_priority := 2; sr_weight := 0; sr_port := 1883; sr_target := [98; 46] |};
   {| sr_priority := 1; sr_weight := 0; sr_port := 1883; sr_target := [97; 46; 98] |};
   {| sr_priority := 1; sr_weight := 3; sr_port := 8883; sr_target := [65; 46; 67; 46] |};
   {| sr_priority := 1; sr_weight := 9; sr_port := 0; sr_target := [100] |}].

