(* ===== verification/V5Redirect.v ===== *)
(** Server references of MQTT 5 redirects, [rumqttc-v5/src/redirect.rs]: their parsing, and the keys
    by which the client recognises an endpoint it has already visited.

    Strings are the bytes of their UTF-8 encoding.  [http::Uri], of the crate [http], is a parameter:
    the parts of a URI it accepts. *)

From Stdlib Require Import String Ascii.
From S2P Require Import Prelude.
From S2P Require Import Primitives.
From S2P Require Import Topic.
From S2P Require Import V5Connect.
From S2P Require Import V5Srv.
#[local] Open Scope Z_scope.

(** The bytes of a literal. *)
Definition text (s : string) : Bytes :=
  map (λ c, Z.of_nat (nat_of_ascii c)) (list_ascii_of_string s).

(** ** Strings *)

(** [split_once] and [rsplit_once] for a character. *)
Fixpoint split_once (c : Z) (s : Bytes) : option (Bytes * Bytes) :=
  match s with
  | [] => None
  | b :: rest =>
      if b =? c then Some ([], rest)
      else match split_once c rest with Some (x, y) => Some (b :: x, y) | None => None end
  end.
Definition rsplit_once (c : Z) (s : Bytes) : option (Bytes * Bytes) :=
  match split_once c (reverse s) with
  | Some (x, y) => Some (reverse y, reverse x)
  | None => None
  end.

(** [split_once("://")] *)
Fixpoint split_scheme (s : Bytes) : option (Bytes * Bytes) :=
  match s with
  | 58 :: 47 :: 47 :: rest => Some ([], rest)
  | b :: rest => match split_scheme rest with Some (x, y) => Some (b :: x, y) | None => None end
  | [] => None
  end.

Definition contains_byte (c : Z) (s : Bytes) : bool := existsb (λ b, b =? c) s.
Definition strip_prefix (c : Z) (s : Bytes) : option Bytes :=
  match s with b :: rest => if b =? c then Some rest else None | [] => None end.
Definition ends_with (c : Z) (s : Bytes) : bool :=
  match strip_suffix c s with Some _ => true | None => false end.

(** [trim().is_empty()]: every character is white space. *)
Fixpoint only_white_space (s : Bytes) : bool :=
  match s with
  | [] => true
  | 0xC2 :: b :: rest => ((b =? 0x85) || (b =? 0xA0)) && only_white_space rest
  | 0xE1 :: 0x9A :: 0x80 :: rest => only_white_space rest
  | 0xE2 :: 0x80 :: b :: rest =>
      (((0x80 <=? b) && (b <=? 0x8A)) || (b =? 0xA8) || (b =? 0xA9) || (b =? 0xAF)) && only_white_space rest
  | 0xE2 :: 0x81 :: 0x9F :: rest => only_white_space rest
  | 0xE3 :: 0x80 :: 0x80 :: rest => only_white_space rest
  | b :: rest => (((9 <=? b) && (b <=? 13)) || (b =? 32)) && only_white_space rest
  end.

Definition is_ascii_whitespace (b : Z) : bool :=
  (b =? 9) || (b =? 10) || (b =? 12) || (b =? 13) || (b =? 32).

(** [split_ascii_whitespace]; [word] is the word being read. *)
Fixpoint split_ascii_whitespace (s word : Bytes) : list Bytes :=
  match s with
  | [] => if bool_decide (word = []) then [] else [word]
  | b :: rest =>
      if is_ascii_whitespace b then
        if bool_decide (word = []) then split_ascii_whitespace rest []
        else word :: split_ascii_whitespace rest []
      else split_ascii_whitespace rest (word ++ [b])
  end.

Definition is_hexdigit (b : Z) : bool := match to_digit 16 b with Some _ => true | None => false end.
Definition is_ascii_control (b : Z) : bool := (b <? 32) || (b =? 127).

(** [str::parse::<u16>]: a plus sign is accepted. *)
Fixpoint digits_value (s : Bytes) (value : Z) : option Z :=
  match s with
  | [] => Some value
  | b :: rest => if is_ascii_digit b then digits_value rest (value * 10 + (b - 48)) else None
  end.
Definition parse_u16 (s : Bytes) : option u16 :=
  let digits := match s with
                | b :: rest => if (b =? 43) && negb (bool_decide (rest = [])) then rest else s
                | [] => s
                end in
  match digits with
  | [] => None
  | _ => match digits_value digits 0 with
         | Some value => if value <=? u16_MAX then Some value else None
         | None => None
         end
  end.

(** [Display] of a number below 2^16. *)
Fixpoint decimal_digits (digits : nat) (n : Z) : Bytes :=
  match digits with
  | O => []
  | S digits => if n <? 10 then [48 + n] else decimal_digits digits (n / 10) ++ [48 + n mod 10]
  end.
Definition decimal (n : u16) : Bytes := decimal_digits 5 n.

(** ** References *)

Inductive RedirectScheme := Mqtt | Mqtts | Ws | Wss.
#[global] Instance RedirectScheme_eq_dec : EqDecision RedirectScheme.
Proof. solve_decision. Defined.

Definition scheme_text (scheme : RedirectScheme) : Bytes :=
  match scheme with Mqtt => text "mqtt" | Mqtts => text "mqtts" | Ws => text "ws" | Wss => text "wss" end.
Definition scheme_default_port (scheme : RedirectScheme) : u16 :=
  match scheme with Mqtt => 1883 | Mqtts => 8883 | Ws => 80 | Wss => 443 end.

(** [SrvOwner], its normalized name. *)
Inductive RedirectReferenceKind :=
| RK_Authority (host : Bytes) (port : option u16)
| RK_Uri (scheme : RedirectScheme) (host : Bytes) (port : option u16) (resource_name : Bytes)
| RK_Srv (owner : Bytes).

Record RedirectReference := mkRedirectReference { raw : Bytes; kind : RedirectReferenceKind }.

Inductive RedirectReferenceError :=
| RE_Missing
| RE_Empty
| RE_UnsupportedScheme (scheme : Bytes)
| RE_InvalidUri
| RE_NonAuthority
| RE_UserInformation
| RE_Fragment
| RE_InvalidResource
| RE_InvalidHost
| RE_InvalidPort
| RE_SrvExplicitPort.

Abbreviation RR := (outcome RedirectReferenceError).

Definition reference_scheme (r : RedirectReference) : option RedirectScheme :=
  match kind r with RK_Uri scheme _ _ _ => Some scheme | _ => None end.
Definition reference_host (r : RedirectReference) : Bytes :=
  match kind r with RK_Authority host _ => host | RK_Uri _ host _ _ => host | RK_Srv owner => owner end.
Definition reference_port (r : RedirectReference) : option u16 :=
  match kind r with RK_Authority _ port => port | RK_Uri _ _ port _ => port | RK_Srv _ => None end.
Definition websocket_resource_name (r : RedirectReference) : option Bytes :=
  match kind r with
  | RK_Uri Ws _ _ resource_name | RK_Uri Wss _ _ resource_name => Some resource_name
  | _ => None
  end.
Definition is_srv_name (r : RedirectReference) : bool :=
  match kind r with RK_Srv _ => true | _ => false end.

(** The transports of a build with every feature. *)
Inductive Transport := T_Tcp | T_Tls | T_Unix | T_Ws | T_Wss.

Definition redirect_identity (transport : Transport) : Bytes :=
  match transport with
  | T_Tcp => text "tcp" | T_Tls => text "tls" | T_Unix => text "unix" | T_Ws => text "ws" | T_Wss => text "wss"
  end.
Definition redirect_default_port (transport : Transport) : option u16 :=
  match transport with T_Tcp => Some 1883 | T_Tls => Some 8883 | T_Unix | T_Ws | T_Wss => None end.

Inductive RedirectPolicyFailure := Callback | PolicyPanic | Timeout | InvalidResponse | ResourceLimit | StoreInUse.

Inductive RedirectTargetError :=
| RT_Policy (failure : RedirectPolicyFailure)
| TransportMismatch (scheme : option RedirectScheme)
| WebsocketUnavailable
| TlsUnavailable
| NoTarget.

(** [websocket] and [tls] are the features of the build. *)
Definition ensure_supported (websocket tls : bool) (r : RedirectReference)
  : outcome RedirectTargetError unit :=
  match reference_scheme r with
  | Some (Ws | Wss) =>
      if negb websocket then Err WebsocketUnavailable
      else match reference_scheme r with
           | Some Wss => if negb tls then Err TlsUnavailable else Ok tt
           | _ => Ok tt
           end
  | Some Mqtts => if negb tls then Err TlsUnavailable else Ok tt
  | _ => Ok tt
  end.

Definition transport_matches_scheme (tls : bool) (r : RedirectReference) (transport : Transport) : bool :=
  match reference_scheme r, transport with
  | None, T_Tcp => true
  | None, T_Tls => tls
  | Some Mqtt, T_Tcp => true
  | Some Mqtts, T_Tls => true
  | Some Ws, T_Ws => true
  | Some Wss, T_Wss => true
  | _, _ => false
  end.

Definition effective_port (r : RedirectReference) (transport : Transport) : option u16 :=
  match reference_port r with
  | Some port => Some port
  | None =>
      match reference_scheme r with
      | Some scheme => Some (scheme_default_port scheme)
      | None => redirect_default_port transport
      end
  end.

(** ** Authorities *)

Definition parse_port (value : Bytes) : RR u16 :=
  match parse_u16 value with
  | None => Err RE_InvalidPort
  | Some port => if port =? 0 then Err RE_InvalidPort else Ok port
  end.

Definition valid_dns_labels (labels : list Bytes) : bool :=
  let total := Z.of_nat (list_sum (map length labels) + length labels) - 1 in
  (total <=? 253) && forallb label_ok labels.

Definition parse_srv_owner (host : Bytes) : option Bytes :=
  let normalized := to_ascii_lowercase host in
  let normalized := default normalized (strip_suffix 46 normalized) in
  match split_on 46 normalized with
  | service :: protocol :: domain =>
      if (253 <? blen normalized)
         || negb (starts_with 95 service)
         || (blen service =? 1) || (63 <? blen service)
         || negb (forallb (λ byte, is_ascii_alphanumeric byte || (byte =? 45))
                    (default [] (strip_prefix 95 service)))
         || negb (bool_decide (to_ascii_lowercase protocol = text "_tcp"))
         || bool_decide (domain = []) || negb (valid_dns_labels domain)
      then None
      else Some normalized
  | _ => None
  end.

Definition authority_char (b : Z) : bool :=
  is_ascii_alphanumeric b || (b =? 46) || (b =? 45) || (b =? 95).

(** The host and the port of an authority. *)
Definition split_authority (authority : Bytes) : RR (Bytes * option u16) :=
  match strip_prefix 91 authority with
  | Some bracketed =>
      match split_once 93 bracketed with
      | None => Err RE_InvalidHost
      | Some (host, suffix) =>
          match parse_ipv6 host with
          | None => Err RE_InvalidHost
          | Some _ =>
              port ← (if bool_decide (suffix = []) then Ok None
                      else match strip_prefix 58 suffix with
                           | None => Err RE_InvalidPort
                           | Some suffix => port ← parse_port suffix; Ok (Some port)
                           end);
              Ok (to_ascii_lowercase host, port)
          end
      end
  | None =>
      if contains_byte 91 authority || contains_byte 93 authority then Err RE_InvalidHost
      else
        '(host, port) ← match rsplit_once 58 authority with
          | Some (host, port) =>
              if contains_byte 58 host then Err RE_InvalidHost
              else port ← parse_port port; Ok (host, Some port)
          | None => Ok (authority, None)
          end;
        if bool_decide (host = []) || negb (forallb authority_char host) then Err RE_InvalidHost
        else Ok (to_ascii_lowercase host, port)
  end.

Definition parse_authority (authority : Bytes) : RR RedirectReference :=
  if existsb (λ b, (b =? 47) || (b =? 63) || (b =? 35) || (b =? 64)) authority then Err RE_NonAuthority
  else
    '(host, port) ← split_authority authority;
    kind ← match parse_srv_owner host, port with
      | Some _, Some _ => Err RE_SrvExplicitPort
      | Some owner, None => Ok (RK_Srv owner)
      | None, _ => Ok (RK_Authority host port)
      end;
    Ok {| raw := authority; kind := kind |}.

(** ** URIs *)

(** What the code uses of an [http::Uri]: the authority, the host, the port, and the path and query
    with their text. *)
Record HttpPathAndQuery := mkHttpPathAndQuery { pq_text : Bytes; pq_path : Bytes; pq_query : option Bytes }.
Record HttpUri := mkHttpUri {
  uri_authority : option Bytes;
  uri_host : option Bytes;
  uri_port_u16 : option u16;
  uri_path_and_query : option HttpPathAndQuery;
}.

Definition unbracket_host (host : Bytes) : Bytes :=
  match strip_prefix 91 host with
  | Some rest => default host (strip_suffix 93 rest)
  | None => host
  end.

Definition valid_scheme_name (scheme : Bytes) : bool :=
  match scheme with
  | first :: rest =>
      (is_ascii_lowercase first || is_ascii_uppercase first)
      && forallb (λ b, is_ascii_alphanumeric b || (b =? 43) || (b =? 45) || (b =? 46)) rest
  | [] => false
  end.

(** The part before the first slash or question mark. *)
Fixpoint before_path (s : Bytes) : Bytes :=
  match s with
  | [] => []
  | b :: rest => if (b =? 47) || (b =? 63) then [] else b :: before_path rest
  end.

Definition classify_uri_parse_error (raw_ : Bytes) : RedirectReferenceError :=
  let authority := match split_scheme raw_ with Some (_, rest) => before_path rest | None => [] end in
  match rsplit_once 58 authority with
  | Some (_, port) =>
      if negb (ends_with 93 authority) && (bool_decide (port = []) || forallb is_ascii_digit port)
      then RE_InvalidPort else RE_InvalidUri
  | None => RE_InvalidUri
  end.

Definition validate_uri_host (host : Bytes) : RR Bytes :=
  let bracketed := starts_with 91 host in
  let host := unbracket_host host in
  if bool_decide (host = []) then Err RE_InvalidHost
  else if bracketed then
    match parse_ipv6 host with None => Err RE_InvalidHost | Some _ => Ok (to_ascii_lowercase host) end
  else if contains_byte 58 host
          || negb (forallb (λ b, is_ascii_alphanumeric b || (b =? 46) || (b =? 45)) host)
  then Err RE_InvalidHost
  else Ok (to_ascii_lowercase host).

Definition parse_uri_port (authority : Bytes) (parsed : option u16) : RR (option u16) :=
  let suffix :=
    match rsplit_once 93 authority with
    | Some (_, suffix) => suffix
    | None => match rsplit_once 58 authority with Some (_, suffix) => suffix | None => [] end
    end in
  if ends_with 58 authority || (negb (bool_decide (suffix = [])) && bool_decide (parsed = None))
  then Err RE_InvalidPort
  else if bool_decide (parsed = Some 0) then Err RE_InvalidPort
  else Ok parsed.

Fixpoint validate_percent_triplets (s : Bytes) : RR unit :=
  match s with
  | [] => Ok tt
  | b :: rest =>
      if b =? 37 then
        match rest with
        | high :: low :: rest =>
            if is_hexdigit high && is_hexdigit low then validate_percent_triplets rest else Err RE_InvalidUri
        | _ => Err RE_InvalidUri
        end
      else validate_percent_triplets rest
  end.

Definition parse_scheme (scheme : Bytes) : RR RedirectScheme :=
  let scheme_name := to_ascii_lowercase scheme in
  if bool_decide (scheme_name = text "mqtt") then Ok Mqtt
  else if bool_decide (scheme_name = text "mqtts") then Ok Mqtts
  else if bool_decide (scheme_name = text "ws") then Ok Ws
  else if bool_decide (scheme_name = text "wss") then Ok Wss
  else if valid_scheme_name scheme then Err (RE_UnsupportedScheme scheme_name)
  else Err RE_InvalidUri.

Section Uri.
  Context (http_parse : Bytes → option HttpUri).

Definition parse_uri (raw_ : Bytes) : RR RedirectReference :=
  if existsb (λ b, is_ascii_control b || (b =? 92)) raw_ then Err RE_InvalidUri
  else
    validate_percent_triplets raw_;;
    if contains_byte 35 raw_ then Err RE_Fragment
    else
      match split_scheme raw_ with
      | None => Err RE_InvalidUri
      | Some (scheme, remainder) =>
          scheme ← parse_scheme scheme;
          match http_parse (scheme_text scheme ++ text "://" ++ remainder) with
          | None => Err (classify_uri_parse_error raw_)
          | Some uri =>
              match uri_authority uri with
              | None => Err RE_InvalidHost
              | Some authority =>
                  if contains_byte 64 authority then Err RE_UserInformation
                  else
                    match uri_host uri with
                    | None => Err RE_InvalidHost
                    | Some host =>
                        host ← validate_uri_host host;
                        port ← parse_uri_port authority (uri_port_u16 uri);
                        let '(path, query) := match uri_path_and_query uri with
                                              | Some pq => (pq_path pq, pq_query pq)
                                              | None => ([], None)
                                              end in
                        resource_name ← match scheme with
                          | Mqtt | Mqtts =>
                              if negb (bool_decide (path = []) || bool_decide (path = [47]))
                                 || bool_decide (query ≠ None)
                              then Err RE_InvalidResource
                              else Ok []
                          | Ws | Wss => Ok (match uri_path_and_query uri with
                                            | Some pq => pq_text pq
                                            | None => [47]
                                            end)
                          end;
                        Ok {| raw := raw_; kind := RK_Uri scheme host port resource_name |}
                    end
              end
          end
      end.

(** [.map(..).collect::<Result<Vec<_>, _>>()]; a token with [://] is a URI. *)
Fixpoint parse_tokens (tokens : list Bytes) : RR (list RedirectReference) :=
  match tokens with
  | [] => Ok []
  | token :: tokens =>
      r ← (match split_scheme token with Some _ => parse_uri token | None => parse_authority token end);
      rest ← parse_tokens tokens;
      Ok (r :: rest)
  end.

Definition parse_server_references (value : option Bytes) : RR (list RedirectReference) :=
  match value with
  | None => Err RE_Missing
  | Some value =>
      if only_white_space value then Err RE_Empty
      else parse_tokens (split_ascii_whitespace value [])
  end.
End Uri.

(** The crate's [uri_host]: an IPv6 address is bracketed. *)
Definition bracket_host (host : Bytes) : Bytes :=
  match parse_ipv6 host with Some _ => [91] ++ host ++ [93] | None => host end.
Definition port_suffix (port : option u16) : Bytes :=
  match port with Some port => 58 :: decimal port | None => [] end.
Definition websocket_url (r : RedirectReference) : option Bytes :=
  scheme ← reference_scheme r;
  resource ← websocket_resource_name r;
  Some (scheme_text scheme ++ text "://" ++ bracket_host (reference_host r)
        ++ port_suffix (reference_port r) ++ resource).

(** ** Endpoint keys *)

(** [char::push(byte as char)] *)
Definition push_byte (b : Z) : Bytes := if b <? 128 then [b] else [0xC0 + b / 64; 0x80 + b mod 64].
Definition hex_value (b : Z) : Z := default 0 (to_digit 16 b).
Definition ascii_upper (b : Z) : Z := if is_ascii_lowercase b then b - 32 else b.
Definition unreserved (b : Z) : bool :=
  is_ascii_alphanumeric b || (b =? 45) || (b =? 46) || (b =? 95) || (b =? 126).

Fixpoint normalize_percent_encoding (s : Bytes) : Bytes :=
  match s with
  | [] => []
  | b :: rest =>
      match (b =? 37), rest with
      | true, high :: low :: rest' =>
          if is_hexdigit high && is_hexdigit low then
            let decoded := hex_value high * 16 + hex_value low in
            (if unreserved decoded then [decoded] else [37; ascii_upper high; ascii_upper low])
            ++ normalize_percent_encoding rest'
          else push_byte b ++ normalize_percent_encoding rest
      | _, _ => push_byte b ++ normalize_percent_encoding rest
      end
  end.

Definition join_segments (segments : list Bytes) : Bytes :=
  match segments with
  | [] => []
  | first :: rest => first ++ concat (map (λ segment, 47 :: segment) rest)
  end.

(** The loop over the segments, the last of which is followed by nothing. *)
Fixpoint dot_segments (source segments : list Bytes) : list Bytes :=
  match source with
  | [] => segments
  | segment :: source =>
      let is_last := bool_decide (source = []) in
      if bool_decide (segment = [46]) then
        dot_segments source (if is_last then segments ++ [[]] else segments)
      else if bool_decide (segment = [46; 46]) then
        let segments := take (length segments - 1) segments in
        dot_segments source (if is_last then segments ++ [[]] else segments)
      else dot_segments source (segments ++ [segment])
  end.

Definition remove_dot_segments (path : Bytes) : Bytes :=
  let absolute := starts_with 47 path in
  let source := split_on 47 path in
  let segments := dot_segments (if absolute then tail source else source) [] in
  let output := (if absolute then [47] else []) ++ join_segments segments in
  if bool_decide (output = []) then [47] else output.

Definition normalize_resource_name (resource : Bytes) : Bytes :=
  let '(path, query) := match split_once 63 resource with
                        | Some (path, query) => (path, Some query)
                        | None => (resource, None)
                        end in
  let path := remove_dot_segments (if bool_decide (path = []) then [47] else path) in
  let normalized := normalize_percent_encoding path in
  match query with
  | Some query => normalized ++ [63] ++ normalize_percent_encoding query
  | None => normalized
  end.

(** [Display] of IP addresses ([core::net]). *)
Definition display_ipv4 (octets : list Z) : Bytes :=
  match octets with
  | [] => []
  | first :: rest => decimal first ++ concat (map (λ octet, 46 :: decimal octet) rest)
  end.

Fixpoint hex_digits (digits : nat) (n : Z) : Bytes :=
  let digit d := if d <? 10 then 48 + d else 87 + d in
  match digits with
  | O => []
  | S digits => if n <? 16 then [digit n] else hex_digits digits (n / 16) ++ [digit (n mod 16)]
  end.
Definition fmt_subslice (segments : list Z) : Bytes :=
  match segments with
  | [] => []
  | first :: rest => hex_digits 4 first ++ concat (map (λ segment, 58 :: hex_digits 4 segment) rest)
  end.

(** The longest run of zero segments: its start and its length. *)
Fixpoint zero_span (segments : list Z) (i : nat) (longest current : nat * nat) : nat * nat :=
  match segments with
  | [] => longest
  | segment :: segments =>
      if segment =? 0 then
        let current := (if (current.2 =? 0)%nat then i else current.1, S current.2) in
        zero_span segments (S i) (if (longest.2 <? current.2)%nat then current else longest) current
      else zero_span segments (S i) longest (0%nat, 0%nat)
  end.

Definition display_ipv6 (segments : list Z) : Bytes :=
  match segments with
  | [0; 0; 0; 0; 0; 0xFFFF; a; b] =>
      text "::ffff:" ++ display_ipv4 [a / 256; a mod 256; b / 256; b mod 256]
  | _ =>
      let '(start, len) := zero_span segments 0 (0%nat, 0%nat) (0%nat, 0%nat) in
      if (1 <? len)%nat
      then fmt_subslice (take start segments) ++ text "::" ++ fmt_subslice (drop (start + len) segments)
      else fmt_subslice segments
  end.

Definition normalized_endpoint_key (host : Bytes) (port : u16) : Bytes :=
  let unbracketed := unbracket_host host in
  match parse_ip unbracketed with
  | None =>
      let host := to_ascii_lowercase unbracketed in
      let host := default host (strip_suffix 46 host) in
      host ++ [58] ++ decimal port
  | Some (V4 address) => display_ipv4 address ++ [58] ++ decimal port
  | Some (V6 address) => [91] ++ display_ipv6 address ++ text "]:" ++ decimal port
  end.

Definition normalized_profile_key (host : Bytes) (port : u16) (transport : Transport) : Bytes :=
  redirect_identity transport ++ text "://" ++ normalized_endpoint_key host port.

Definition endpoint_key (r : RedirectReference) (transport : Transport) : option Bytes :=
  if is_srv_name r then None
  else
    port ← effective_port r transport;
    let endpoint := normalized_endpoint_key (reference_host r) port in
    match websocket_resource_name r with
    | None => Some (redirect_identity transport ++ text "://" ++ endpoint)
    | Some resource =>
        Some (redirect_identity transport ++ text "://" ++ endpoint ++ normalize_resource_name resource)
    end.

(** [BrokerInner] of a build with every feature; a path is the bytes of its text. *)
Inductive Broker :=
| B_Tcp (host : Bytes) (port : u16)
| B_Unix (path : Bytes)
| B_Websocket (url : Bytes) (secure : bool).

Definition broker_transport_matches (broker : Broker) (transport : Transport) : bool :=
  match transport, broker with
  | (T_Tcp | T_Tls), B_Tcp _ _ => true
  | T_Unix, B_Unix _ => true
  | T_Ws, B_Websocket _ false => true
  | T_Wss, B_Websocket _ _ => true
  | _, _ => false
  end.

Definition tcp_address (broker : Broker) : option (Bytes * u16) :=
  match broker with B_Tcp host port => Some (host, port) | _ => None end.
Definition broker_websocket_url (broker : Broker) : option Bytes :=
  match broker with B_Websocket url _ => Some url | _ => None end.

Definition normalized_broker_key (http_parse : Bytes → option HttpUri) (broker : Broker)
    (transport : Transport) : option Bytes :=
  match tcp_address broker with
  | Some (host, port) => Some (normalized_profile_key host port transport)
  | None =>
      url ← broker_websocket_url broker;
      uri ← http_parse url;
      host ← uri_host uri;
      port ← match uri_port_u16 uri with
             | Some port => Some port
             | None => match transport with T_Ws => Some 80 | T_Wss => Some 443 | _ => None end
             end;
      let resource := match uri_path_and_query uri with Some pq => pq_text pq | None => [47] end in
      Some (redirect_identity transport ++ text "://" ++ normalized_endpoint_key (unbracket_host host) port
            ++ normalize_resource_name resource)
  end.

(** ** Target profiles *)

Inductive RedirectClientId := Fresh | Reuse | Replace (id : Bytes).
Inductive RedirectSession := Isolated | ReuseSession (store_scope : Bytes).
Inductive RedirectProfileTarget := Direct (broker : Broker) | SrvPending (owner : Bytes).

(** [Store] are the session stores, instants are numbers. *)
Section Profile.
  Context {Store : Type}.

Record RedirectTargetProfile := mkRedirectTargetProfile {
  rt_reference : RedirectReference;
  rt_target : RedirectProfileTarget;
  rt_transport : Transport;
  rt_client_id : RedirectClientId;
  rt_session : RedirectSession;
  rt_authentication : option ConnectAuth;
  rt_reuse_authenticator : bool;
  rt_reuse_network_credentials : bool;
  rt_session_store : option Store;
  rt_decision_deadline : option Z;
}.

(** [unreachable!] is a panic; [websocket] and [tls] are the features of the build. *)
Definition isolated (websocket tls : bool) (reference : RedirectReference) (transport : Transport)
  : outcome RedirectTargetError RedirectTargetProfile :=
  ensure_supported websocket tls reference;;
  if negb (transport_matches_scheme tls reference transport)
  then Err (TransportMismatch (reference_scheme reference))
  else
    target ← match kind reference with
      | RK_Srv owner => Ok (SrvPending owner)
      | _ =>
          port ← ok_or (effective_port reference transport) (TransportMismatch (reference_scheme reference));
          broker ← match reference_scheme reference with
            | None | Some (Mqtt | Mqtts) => Ok (B_Tcp (reference_host reference) port)
            | Some (Ws | Wss) =>
                if websocket : bool then
                  match websocket_url reference with
                  | None => Panic
                  | Some url => Ok (B_Websocket url (bool_decide (reference_scheme reference = Some Wss)))
                  end
                else Panic
            end;
          if negb (broker_transport_matches broker transport)
          then Err (TransportMismatch (reference_scheme reference))
          else Ok (Direct broker)
      end;
    Ok {| rt_reference := reference; rt_target := target; rt_transport := transport; rt_client_id := Fresh;
          rt_session := Isolated; rt_authentication := None; rt_reuse_authenticator := false;
          rt_reuse_network_credentials := false; rt_session_store := None; rt_decision_deadline := None |}.

(** [profile.validate(options)] at the instant [now]; of the options, the client identifier and
    whether they have a session store. *)
Definition validate_profile (now : Z) (client_id : Bytes) (has_store : bool) (self : RedirectTargetProfile)
  : outcome RedirectTargetError unit :=
  if match rt_decision_deadline self with Some d => d <=? now | None => false end
  then Err (RT_Policy Timeout)
  else
    let client_id := match rt_client_id self with Fresh => [] | Reuse => client_id | Replace id => id end in
    let valid_string value := (blen value <=? u16_MAX) && negb (contains_byte 0 value) in
    if negb (valid_string client_id) then Err (RT_Policy InvalidResponse)
    else
      let '(username, password) :=
        match default Auth_None (rt_authentication self) with
        | Auth_None => (None, None)
        | Auth_Username username => (Some username, None)
        | Auth_Password password => (None, Some password)
        | Auth_UsernamePassword username password => (Some username, Some password)
        end in
      if match username with Some u => negb (valid_string u) | None => false end
         || match password with Some p => u16_MAX <? blen p | None => false end
      then Err (RT_Policy InvalidResponse)
      else if match rt_session self with ReuseSession _ => true | Isolated => false end
              && (has_store || match rt_session_store self with Some _ => true | None => false end)
              && bool_decide (client_id = [])
      then Err (RT_Policy InvalidResponse)
      else Ok tt.
End Profile.

(** ** Case does not matter *)

Lemma lower_cases b : ascii_lower b = b ∨ (65 ≤ b ≤ 90 ∧ ascii_lower b = b + 32).
Proof.
  unfold ascii_lower, is_ascii_uppercase.
  destruct (Z.leb_spec 65 b), (Z.leb_spec b 90); cbn; [right|left..]; lia.
Qed.

Lemma to_digit_lower radix b : to_digit radix (ascii_lower b) = to_digit radix b.
Proof.
  destruct (lower_cases b) as [->|[Hb ->]]; [done|].
  unfold to_digit, is_ascii_digit, is_ascii_lowercase, is_ascii_uppercase.
  repeat match goal with |- context [?x <=? ?y] =>
    first [rewrite (proj2 (Z.leb_le x y)) by lia|rewrite (proj2 (Z.leb_gt x y)) by lia] end.
  cbn [andb]. by replace (b + 32 - 87) with (b - 55) by lia.
Qed.

Lemma lower_eqb b c : (c < 65 ∨ 122 < c ∨ 90 < c < 97) → (ascii_lower b =? c) = (b =? c).
Proof. intros Hc. destruct (lower_cases b) as [->|[Hb ->]]; [done|]. destruct (Z.eqb_spec b c), (Z.eqb_spec (b + 32) c); lia. Qed.

Lemma lower_idempotent s : to_ascii_lowercase (to_ascii_lowercase s) = to_ascii_lowercase s.
Proof.
  unfold to_ascii_lowercase. rewrite map_map. apply map_ext. intros b.
  destruct (lower_cases b) as [Hb|[Hb Hl]]; [by rewrite !Hb|]. rewrite Hl. unfold ascii_lower, is_ascii_uppercase.
  by rewrite (proj2 (Z.leb_gt (b + 32) 90)), andb_false_r by lia.
Qed.

(** A parser that does not look at the case. *)
Definition on_lower {A} (r : option (A * Bytes)) : option (A * Bytes) :=
  match r with Some (a, s) => Some (a, to_ascii_lowercase s) | None => None end.
Definition caseless {A} (p : Parser A) : Prop := ∀ s, p (to_ascii_lowercase s) = on_lower (p s).

Lemma caseless_char c : (c < 65 ∨ 122 < c ∨ 90 < c < 97) → caseless (read_given_char c).
Proof. intros Hc [|b s]; [done|]. cbn. rewrite lower_eqb by done. by destruct (b =? c). Qed.

Lemma read_digits_lower radix s count value :
  read_digits radix (to_ascii_lowercase s) count value =
  let '(c, v, rest) := read_digits radix s count value in (c, v, to_ascii_lowercase rest).
Proof.
  revert count value. induction s as [|b s IH]; intros count value; [done|].
  cbn [to_ascii_lowercase map read_digits]. rewrite to_digit_lower. by destruct (to_digit radix b).
Qed.

Lemma caseless_number radix d m z : caseless (read_number radix d m z).
Proof.
  intros s. unfold read_number. rewrite read_digits_lower.
  destruct (read_digits radix s 0 0) as [[c v] rest].
  replace (starts_with 48 (to_ascii_lowercase s)) with (starts_with 48 s)
    by (destruct s; [done|]; cbn; by rewrite lower_eqb by lia).
  by repeat (match goal with |- (if ?x then _ else _) = _ => destruct x end; [done|]).
Qed.

Lemma caseless_separator {A} sep index (p : Parser A) :
  (sep < 65 ∨ 122 < sep ∨ 90 < sep < 97) → caseless p → caseless (read_separator sep index p).
Proof.
  intros Hs Hp s. unfold read_separator. destruct (0 <? index); [|apply Hp].
  rewrite (caseless_char sep Hs). destruct (read_given_char sep s) as [[[] rest]|]; [apply Hp|done].
Qed.

Lemma caseless_ipv4_groups n index : caseless (read_ipv4_groups n index).
Proof.
  revert index. induction n as [|n IH]; intros index s; [done|]. cbn [read_ipv4_groups].
  rewrite (caseless_separator 46 index _ ltac:(lia) (caseless_number _ _ _ _)).
  destruct (read_separator _ _ _ s) as [[v rest]|]; [|done]. cbn. rewrite IH.
  by destruct (read_ipv4_groups n (index + 1) rest) as [[]|].
Qed.

Lemma read_groups_lower left index s :
  read_groups left index (to_ascii_lowercase s) =
  let '(groups, ipv4, rest) := read_groups left index s in (groups, ipv4, to_ascii_lowercase rest).
Proof.
  revert index s. induction left as [|more IH]; intros index s; [done|]. cbn [read_groups].
  rewrite (caseless_separator 58 index _ ltac:(lia) (caseless_ipv4_groups 4 0)).
  rewrite (caseless_separator 58 index _ ltac:(lia) (caseless_number _ _ _ _)).
  assert (Hnum : match on_lower (read_separator 58 index (read_number 16 4 u16_MAX true) s) with
    | Some (group, s) => let '(groups, ipv4, s) := read_groups more (index + 1) s in (group :: groups, ipv4, s)
    | None => ([], false, to_ascii_lowercase s) end =
    let '(groups, ipv4, rest) := match read_separator 58 index (read_number 16 4 u16_MAX true) s with
      | Some (group, s) => let '(groups, ipv4, s) := read_groups more (index + 1) s in (group :: groups, ipv4, s)
      | None => ([], false, s) end in (groups, ipv4, to_ascii_lowercase rest)).
  { destruct (read_separator 58 index (read_number 16 4 u16_MAX true) s) as [[v rest]|]; [|done]. cbn.
    rewrite IH. by destruct (read_groups more (index + 1) rest) as [[]]. }
  fold read_ipv4_addr. destruct (0 <? more)%nat; [|exact Hnum].
  destruct (read_separator 58 index read_ipv4_addr s) as [[octets rest]|]; [|exact Hnum]. cbn [on_lower].
  destruct octets as [|one [|two [|three [|four [|]]]]]; try exact Hnum. done.
Qed.

Lemma caseless_ipv6 : caseless read_ipv6_addr.
Proof.
  intros s. unfold read_ipv6_addr. rewrite read_groups_lower.
  destruct (read_groups 8 0 s) as [[head ipv4] s1]. destruct (length head =? 8)%nat; [done|].
  destruct ipv4; [done|]. rewrite (caseless_char 58) by lia.
  destruct (read_given_char 58 s1) as [[[] s2]|]; [|done]. cbn [on_lower].
  rewrite (caseless_char 58) by lia. destruct (read_given_char 58 s2) as [[[] s3]|]; [|done].
  cbn [on_lower]. rewrite read_groups_lower. by destruct (read_groups _ 0 s3) as [[]].
Qed.

Lemma parse_ipv6_lower s : parse_ipv6 (to_ascii_lowercase s) = parse_ipv6 s.
Proof.
  unfold parse_ipv6, parse_with. rewrite caseless_ipv6.
  destruct (read_ipv6_addr s) as [[a rest]|]; [|done]. by destruct rest.
Qed.

Lemma parse_ip_lower s : parse_ip (to_ascii_lowercase s) = parse_ip s.
Proof.
  unfold parse_ip, parse_with. rewrite (caseless_ipv4_groups 4 0), caseless_ipv6. fold read_ipv4_addr.
  destruct (read_ipv4_addr s) as [[a [|]]|]; [done..|].
  by destruct (read_ipv6_addr s) as [[a [|]]|].
Qed.

(** ** An accepted authority is read back from its normal form *)

(** The authority of a reference that is not a URI, as [websocket_url] writes one. *)
Definition authority_text (r : RedirectReference) : Bytes :=
  bracket_host (reference_host r) ++ port_suffix (reference_port r).

Definition port_ok (port : option u16) : Prop :=
  match port with Some p => 1 <= p <= u16_MAX | None => True end.

Lemma digits_value_app s t v : digits_value (s ++ t) v = (digits_value s v ≫= λ w, digits_value t w).
Proof. revert v. induction s as [|b s IH]; intros v; cbn; [done|]. by destruct (is_ascii_digit b). Qed.

Lemma ascii_digit d : 0 <= d < 10 → is_ascii_digit (48 + d) = true.
Proof. intros Hd. unfold is_ascii_digit. apply andb_true_iff. by rewrite !Z.leb_le; lia. Qed.

Lemma decimal_digits_value digits n : (0 < digits)%nat → 0 <= n < 10 ^ Z.of_nat digits →
  forallb is_ascii_digit (decimal_digits digits n) ∧ digits_value (decimal_digits digits n) 0 = Some n.
Proof.
  revert n. induction digits as [|digits IH]; intros n Hd Hn; [lia|]. cbn [decimal_digits].
  destruct (Z.ltb_spec n 10) as [Hlt|Hge].
  - cbn. rewrite ascii_digit by lia. split; [done|]. f_equal. lia.
  - rewrite Nat2Z.inj_succ, Z.pow_succ_r in Hn by lia.
    pose proof (Z.div_mod n 10 ltac:(lia)) as Hdm. pose proof (Z.mod_pos_bound n 10 ltac:(lia)) as Hm.
    destruct (IH (n / 10)) as [Hf Hv].
    + destruct digits; [cbn in Hn; lia|lia].
    + split; [apply Z.div_pos; lia|apply Z.div_lt_upper_bound; lia].
    + rewrite forallb_app, digits_value_app, Hv. cbn. rewrite ascii_digit by lia.
      split; [by apply andb_True|]. f_equal. lia.
Qed.

Lemma decimal_port p : 1 <= p <= u16_MAX → parse_port (decimal p) = Ok p ∧ forallb is_ascii_digit (decimal p).
Proof.
  unfold u16_MAX. intros Hp. destruct (decimal_digits_value 5 p) as [Hf Hv]; [lia..|]. fold (decimal p) in Hf, Hv.
  split; [|done]. unfold parse_port, parse_u16. destruct (decimal p) as [|b rest] eqn:Hd; [injection Hv; lia|].
  assert (is_ascii_digit b = true) as Hb by (apply andb_True in Hf as [Hb _]; by apply Is_true_true).
  assert ((b =? 43) = false) as -> by (apply Z.eqb_neq; intros ->; discriminate).
  cbn [andb]. rewrite Hv, (proj2 (Z.leb_le p u16_MAX)) by (unfold u16_MAX; lia).
  by rewrite (proj2 (Z.eqb_neq p 0)) by lia.
Qed.

Lemma split_once_inv c s x y : split_once c s = Some (x, y) → s = x ++ c :: y ∧ c ∉ x.
Proof.
  revert x. induction s as [|b s IH]; intros x; [done|]. cbn. destruct (Z.eqb_spec b c) as [->|Hb].
  - intros [= <- <-]. split; [done|apply not_elem_of_nil].
  - destruct (split_once c s) as [[x' y']|]; [|done]. intros [= <- <-].
    destruct (IH x' eq_refl) as [-> Hx]. split; [done|]. by apply not_elem_of_cons.
Qed.

Lemma split_once_app c x y : c ∉ x → split_once c (x ++ c :: y) = Some (x, y).
Proof.
  induction x as [|b x IH]; cbn; [by rewrite Z.eqb_refl|]. intros [Hb Hx]%not_elem_of_cons.
  rewrite (proj2 (Z.eqb_neq b c)) by done. by rewrite IH.
Qed.

Lemma split_once_none c s : c ∉ s → split_once c s = None.
Proof.
  induction s as [|b s IH]; cbn; [done|]. intros [Hb Hx]%not_elem_of_cons.
  rewrite (proj2 (Z.eqb_neq b c)) by done. by rewrite IH.
Qed.

Lemma rsplit_once_inv c s x y : rsplit_once c s = Some (x, y) → s = x ++ c :: y.
Proof.
  unfold rsplit_once. destruct (split_once c (reverse s)) as [[a b]|] eqn:H; [|done].
  intros [= <- <-]. apply split_once_inv in H as [H _]. rewrite <-(reverse_involutive s), H.
  by rewrite reverse_app, reverse_cons, <-app_assoc.
Qed.

Lemma rsplit_once_app c x y : c ∉ y → rsplit_once c (x ++ c :: y) = Some (x, y).
Proof.
  intros Hy. unfold rsplit_once. rewrite reverse_app, reverse_cons, <-app_assoc. cbn.
  rewrite split_once_app by (by rewrite elem_of_reverse). by rewrite !reverse_involutive.
Qed.

Lemma rsplit_once_none c s : c ∉ s → rsplit_once c s = None.
Proof. intros Hs. unfold rsplit_once. by rewrite split_once_none by (by rewrite elem_of_reverse). Qed.

Lemma contains_byte_spec c s : contains_byte c s = bool_decide (c ∈ s).
Proof.
  unfold contains_byte. induction s as [|b s IH]; cbn; [done|]. rewrite IH.
  destruct (Z.eqb_spec b c) as [->|Hb].
  - symmetry. apply bool_decide_eq_true. left.
  - apply bool_decide_ext. rewrite elem_of_cons. naive_solver.
Qed.

(** The bytes of the rest are bytes of the input. *)
Lemma read_digits_rest radix s count value c v rest :
  read_digits radix s count value = (c, v, rest) → rest ⊆ s.
Proof.
  revert count value. induction s as [|b s IH]; intros count value; cbn; [by intros [= <- <- <-]|].
  destruct (to_digit radix b); [|by intros [= <- <- <-]]. intros H%IH. set_solver.
Qed.

Lemma read_number_rest radix d m z s v rest : read_number radix d m z s = Some (v, rest) → rest ⊆ s.
Proof.
  unfold read_number. destruct (read_digits radix s 0 0) as [[c v'] rest'] eqn:H.
  apply read_digits_rest in H. by repeat case_match; intros [= <- <-].
Qed.

Lemma given_char_absent c s : c ∉ s → read_given_char c s = None.
Proof.
  destruct s as [|b s]; [done|]. intros [Hb _]%not_elem_of_cons. cbn.
  by rewrite (proj2 (Z.eqb_neq b c)) by done.
Qed.

Lemma read_groups_no_colon left index s : 0 < index → 58 ∉ s → read_groups left index s = ([], false, s).
Proof.
  intros Hi Hs. destruct left as [|more]; [done|]. cbn [read_groups]. unfold read_separator.
  rewrite (proj2 (Z.ltb_lt 0 index) Hi), given_char_absent by done. by destruct (0 <? more)%nat.
Qed.

(** The first group, before which there is no colon. *)
Lemma read_groups_first more s :
  read_groups (S (S more)) 0 s =
  match read_ipv4_addr s with
  | Some ([one; two; three; four], s) => ([one * 256 + two; three * 256 + four], true, s)
  | _ => match read_number 16 4 u16_MAX true s with
         | None => ([], false, s)
         | Some (group, s) =>
             let '(groups, ipv4, s) := read_groups (S more) 1 s in (group :: groups, ipv4, s)
         end
  end.
Proof. done. Qed.

(** An IPv6 address has a colon. *)
Lemma ipv6_has_colon s : 58 ∉ s → parse_ipv6 s = None.
Proof.
  intros Hs. unfold parse_ipv6, parse_with, read_ipv6_addr.
  assert (H : ∃ groups ipv4 rest, read_groups 8 0 s = (groups, ipv4, rest) ∧ (length groups ≤ 2)%nat ∧
    (ipv4 = true ∨ 58 ∉ rest)).
  { rewrite (read_groups_first 6 s).
    assert (Hnum : ∃ groups ipv4 rest, match read_number 16 4 u16_MAX true s with
              | None => ([], false, s)
              | Some (group, s) =>
                  let '(groups, ipv4, s) := read_groups 7 1 s in (group :: groups, ipv4, s)
              end = (groups, ipv4, rest) ∧ (length groups ≤ 2)%nat ∧ (ipv4 = true ∨ 58 ∉ rest)).
    { destruct (read_number 16 4 u16_MAX true s) as [[g rest]|] eqn:H.
      - apply read_number_rest in H. rewrite read_groups_no_colon by (lia || set_solver).
        eexists _, _, _. split; [done|]. cbn. split; [lia|]. right. set_solver.
      - eexists _, _, _. split; [done|]. cbn. split; [lia|]. by right. }
    destruct (read_ipv4_addr s) as [[[|? [|? [|? [|? [|]]]]] ?]|]; try exact Hnum.
    eexists _, _, _. split; [done|]. cbn. split; [lia|by left]. }
  destruct H as (groups & ipv4 & rest & -> & Hlen & Hrest).
  rewrite (proj2 (Nat.eqb_neq (length groups) 8)) by lia. destruct ipv4; [done|].
  destruct Hrest as [|Hrest]; [done|]. by rewrite given_char_absent.
Qed.

(** What [split_authority] returns: a bracketed IPv6 address, or a name. *)
Definition ipv6_host (host : Bytes) : Prop :=
  is_Some (parse_ipv6 host) ∧ 93 ∉ host.
Definition name_host (host : Bytes) : Prop :=
  host ≠ [] ∧ forallb authority_char host.

Lemma lower_notin c s : (c < 65 ∨ 122 < c ∨ 90 < c < 97) → c ∉ s → c ∉ to_ascii_lowercase s.
Proof.
  intros Hc Hs. unfold to_ascii_lowercase. intros (b & Hb & Hin)%list_elem_of_fmap. apply Hs.
  assert (b = c) as <-; [|done]. apply Z.eqb_eq. rewrite <-(lower_eqb b c Hc). by apply Z.eqb_eq.
Qed.

Lemma lower_authority_char b : authority_char b → authority_char (ascii_lower b).
Proof.
  destruct (lower_cases b) as [->|[Hb ->]]; [done|]. intros _.
  unfold authority_char, is_ascii_alphanumeric, is_ascii_lowercase.
  rewrite (proj2 (Z.leb_le 97 (b + 32))), (proj2 (Z.leb_le (b + 32) 122)) by lia.
  by rewrite orb_true_r.
Qed.

Lemma lower_name s : forallb authority_char s → forallb authority_char (to_ascii_lowercase s).
Proof.
  induction s as [|b s IH]; [done|]. cbn. intros [Hb Hs]%andb_True. apply andb_True.
  split; [by apply lower_authority_char|by apply IH].
Qed.

Lemma parse_port_range s p : parse_port s = Ok p → 1 <= p <= u16_MAX.
Proof.
  unfold parse_port, parse_u16. set (digits := match s with [] => s | _ => _ end). clearbody digits.
  assert (Hpos : ∀ s v w, 0 <= v → digits_value s v = Some w → 0 <= w).
  { clear. induction s as [|b s IH]; cbn; intros v w Hv; [by intros [= <-]|].
    destruct (is_ascii_digit b) eqn:Hb; [|done]. apply IH.
    unfold is_ascii_digit in Hb. apply andb_true_iff in Hb as [Hb _]. apply Z.leb_le in Hb. lia. }
  destruct digits as [|b digits]; [done|]. destruct (digits_value (b :: digits) 0) as [v|] eqn:Hv; [|done].
  apply Hpos in Hv; [|lia]. destruct (Z.leb_spec v u16_MAX); [|done].
  destruct (Z.eqb_spec v 0); [done|]. intros [= <-]. lia.
Qed.

Lemma split_authority_inv authority host port : split_authority authority = Ok (host, port) →
  port_ok port ∧ to_ascii_lowercase host = host ∧
  ((ipv6_host host ∧ ∀ c, (c < 65 ∨ 122 < c ∨ 90 < c < 97) → c ∉ authority → c ∉ host) ∨ name_host host).
Proof.
  unfold split_authority. destruct (strip_prefix 91 authority) as [bracketed|] eqn:Hp.
  - destruct (split_once 93 bracketed) as [[h suffix]|] eqn:Hs; [|done].
    apply split_once_inv in Hs as [-> Hh].
    destruct authority as [|b authority]; [done|]. cbn in Hp. destruct (b =? 91); [|done].
    injection Hp as ->. destruct (parse_ipv6 h) as [a|] eqn:H6; [|done].
    assert (Hhost : ipv6_host (to_ascii_lowercase h) ∧
      ∀ c, (c < 65 ∨ 122 < c ∨ 90 < c < 97) → c ∉ b :: h ++ 93 :: suffix → c ∉ to_ascii_lowercase h).
    { split; [split; [by rewrite parse_ipv6_lower, H6|apply lower_notin; [lia|done]]|].
      intros c Hc Hin. apply lower_notin; [done|]. set_solver. }
    case_bool_decide; cbn.
    + intros [= <- <-]. rewrite lower_idempotent. split; [done|]. split; [done|by left].
    + destruct (strip_prefix 58 suffix) as [digits|]; [|done].
      destruct (parse_port digits) as [p| |] eqn:Hport; cbn; [|done..].
      intros [= <- <-]. rewrite lower_idempotent. split; [by apply parse_port_range in Hport|].
      split; [done|by left].
  - destruct (contains_byte 91 authority || contains_byte 93 authority); [done|].
    assert (Hname : ∀ h (p : option u16), port_ok p →
      (if bool_decide (h = []) || negb (forallb authority_char h) then Err RE_InvalidHost
       else Ok (to_ascii_lowercase h, p)) = Ok (host, port) →
      port_ok port ∧ to_ascii_lowercase host = host ∧ name_host host).
    { intros h p Hport. case_bool_decide as Hne; [done|]. destruct (forallb authority_char h) eqn:Hc; [|done].
      intros [= <- <-]. rewrite lower_idempotent. split; [done|]. split; [done|].
      split; [by destruct h|apply lower_name; by rewrite Hc]. }
    destruct (rsplit_once 58 authority) as [[h digits]|].
    + destruct (contains_byte 58 h); [done|].
      destruct (parse_port digits) as [p| |] eqn:Hport; cbn; [|done..].
      intros H%Hname; [|by apply parse_port_range in Hport]. naive_solver.
    + cbn. intros H%Hname; [|done]. naive_solver.
Qed.

Lemma absent (p : Z → bool) c s : p c = false → forallb p s → c ∉ s.
Proof.
  intros Hc Hs Hin. apply Is_true_true, forallb_forall with (x := c) in Hs; [congruence|].
  by apply list_elem_of_In.
Qed.

Lemma port_suffix_absent c port : is_ascii_digit c = false → c ≠ 58 → port_ok port → c ∉ port_suffix port.
Proof.
  intros Hd Hc Hp. destruct port as [p|]; [|apply not_elem_of_nil]. apply not_elem_of_cons. split; [done|].
  by eapply absent, decimal_port.
Qed.

Lemma split_authority_name host port : name_host host → to_ascii_lowercase host = host → port_ok port →
  split_authority (host ++ port_suffix port) = Ok (host, port).
Proof.
  intros [Hne Hname] Hlow Hp.
  assert (Ha : ∀ c, authority_char c = false → c ∉ host) by (intros; by eapply absent).
  assert (Hb : ∀ c, c = 91 ∨ c = 93 → c ∉ host ++ port_suffix port).
  { intros c Hc. rewrite elem_of_app. intros [H|H]; revert H;
      [apply Ha|apply port_suffix_absent; [| |done]]; by destruct Hc as [-> | ->]. }
  unfold split_authority. rewrite !contains_byte_spec, !bool_decide_eq_false_2 by (apply Hb; auto). cbn [orb].
  assert (strip_prefix 91 (host ++ port_suffix port) = None) as ->.
  { destruct host as [|b host]; [done|]. cbn. destruct (Z.eqb_spec b 91) as [->|]; [|done].
    exfalso. apply (Ha 91 eq_refl). left. }
  destruct port as [p|]; cbn [port_suffix].
  - destruct (decimal_port p Hp) as [Hport Hdig].
    rewrite rsplit_once_app by (by apply (absent is_ascii_digit)).
    rewrite contains_byte_spec, bool_decide_eq_false_2 by (by apply Ha). rewrite Hport. cbn.
    rewrite bool_decide_eq_false_2 by done. apply Is_true_true in Hname. rewrite Hname, Hlow. done.
  - rewrite app_nil_r, rsplit_once_none by (by apply Ha). cbn.
    rewrite bool_decide_eq_false_2 by done. apply Is_true_true in Hname. by rewrite Hname, Hlow.
Qed.

Lemma split_authority_ipv6 host port : ipv6_host host → to_ascii_lowercase host = host → port_ok port →
  split_authority (([91] ++ host ++ [93]) ++ port_suffix port) = Ok (host, port).
Proof.
  intros [[a Ha] Hh] Hlow Hp. unfold split_authority. rewrite <-!app_assoc. cbn [app strip_prefix Z.eqb Pos.eqb].
  rewrite split_once_app, Ha by done. destruct port as [p|]; cbn [port_suffix].
  - rewrite bool_decide_eq_false_2 by done. cbn [strip_prefix Z.eqb Pos.eqb].
    rewrite (proj1 (decimal_port p Hp)). cbn. by rewrite Hlow.
  - rewrite bool_decide_eq_true_2 by done. cbn. by rewrite Hlow.
Qed.

(** A string ending in a separator ends in an empty piece. *)
Lemma split_on_snoc c s : last (split_on c (s ++ [c])) = Some [].
Proof.
  induction s as [|b s IH]; cbn; [by rewrite Z.eqb_refl|]. destruct (b =? c).
  - destruct (split_on c (s ++ [c])) eqn:H; [by apply split_on_ne in H|]. done.
  - destruct (split_on c (s ++ [c])) as [|x [|y l]] eqn:H; [by apply split_on_ne in H| |done].
    cbn in IH. injection IH as ->. exfalso. revert H. clear.
    destruct s as [|b' s]; cbn; [by rewrite Z.eqb_refl|].
    destruct (b' =? c); [by destruct (split_on c (s ++ [c])) eqn:H2; [apply split_on_ne in H2|]|].
    by destruct (split_on c (s ++ [c])).
Qed.

Lemma strip_suffix_inv c s x : strip_suffix c s = Some x → s = x ++ [c].
Proof.
  unfold strip_suffix. destruct (reverse s) as [|b r] eqn:H; [done|]. destruct (Z.eqb_spec b c) as [->|]; [|done].
  intros [= <-]. by rewrite <-(reverse_involutive s), H, reverse_cons.
Qed.

Definition owner_of (host : Bytes) : Bytes :=
  default (to_ascii_lowercase host) (strip_suffix 46 (to_ascii_lowercase host)).

(** The test [parse_srv_owner] makes of the normalized name. *)
Definition owner_ok (normalized : Bytes) : bool :=
  match split_on 46 normalized with
  | service :: protocol :: domain =>
      negb ((253 <? blen normalized)
         || negb (starts_with 95 service)
         || (blen service =? 1) || (63 <? blen service)
         || negb (forallb (λ byte, is_ascii_alphanumeric byte || (byte =? 45))
                    (default [] (strip_prefix 95 service)))
         || negb (bool_decide (to_ascii_lowercase protocol = text "_tcp"))
         || bool_decide (domain = []) || negb (valid_dns_labels domain))
  | _ => false
  end.

Lemma parse_srv_owner_eq host : parse_srv_owner host = if owner_ok (owner_of host) then Some (owner_of host) else None.
Proof.
  unfold parse_srv_owner, owner_ok. fold (owner_of host).
  destruct (split_on 46 (owner_of host)) as [|service [|protocol domain]]; [done..|].
  match goal with |- (if ?b then _ else _) = _ => by destruct b end.
Qed.

Lemma owner_first owner : owner_ok owner → ∃ rest, owner = 95 :: rest.
Proof.
  unfold owner_ok. destruct owner as [|b rest]; [done|]. cbn [split_on].
  destruct (Z.eqb_spec b 46) as [->|Hb].
  - destruct (split_on 46 rest); [done|]. intros H. cbn [starts_with negb] in H. by rewrite orb_true_r in H.
  - destruct (split_on 46 rest) as [|x [|y l]]; [done..|]. intros H.
    destruct (Z.eqb_spec b 95) as [->|Hn]; [by eexists|]. exfalso.
    cbn [starts_with] in H. rewrite (proj2 (Z.eqb_neq b 95) Hn) in H. cbn [negb] in H.
    by rewrite orb_true_r in H.
Qed.

Lemma owner_no_dot owner : owner_ok owner → strip_suffix 46 owner = None.
Proof.
  intros H. destruct (strip_suffix 46 owner) as [x|] eqn:Hs; [|done]. exfalso.
  apply strip_suffix_inv in Hs as ->. pose proof (split_on_snoc 46 x) as Hlast. unfold owner_ok in H.
  destruct (split_on 46 (x ++ [46])) as [|service [|protocol domain]]; [done..|].
  destruct (bool_decide (domain = [])) eqn:Hd; [by rewrite orb_true_r in H|].
  apply bool_decide_eq_false in Hd.
  destruct (valid_dns_labels domain) eqn:Hv; [|by rewrite orb_true_r in H].
  unfold valid_dns_labels in Hv. apply andb_true_iff in Hv as [_ Hv].
  destruct domain as [|d domain]; [done|]. cbn in Hlast. change (last (d :: domain) = Some []) in Hlast.
  apply last_Some_elem_of, list_elem_of_In in Hlast. by apply (proj1 (forallb_forall _ _) Hv) in Hlast.
Qed.

Lemma owner_of_lower host : to_ascii_lowercase (owner_of host) = owner_of host.
Proof.
  unfold owner_of. destruct (strip_suffix 46 (to_ascii_lowercase host)) as [x|] eqn:H; [|apply lower_idempotent].
  apply strip_suffix_inv in H. cbn. pose proof (lower_idempotent host) as Hl. rewrite H in Hl.
  unfold to_ascii_lowercase in *. rewrite map_app in Hl. by apply app_inj_tail in Hl as [-> _].
Qed.

Lemma owner_of_fixed s : to_ascii_lowercase s = s → strip_suffix 46 s = None → owner_of s = s.
Proof. intros Hl Hs. unfold owner_of. by rewrite Hl, Hs. Qed.

Lemma owner_of_prefix host : owner_of host `prefix_of` to_ascii_lowercase host.
Proof.
  unfold owner_of. destruct (strip_suffix 46 (to_ascii_lowercase host)) as [x|] eqn:H; [|done].
  apply strip_suffix_inv in H. rewrite H. cbn. by eexists.
Qed.

Lemma srv_owner_again host owner : parse_srv_owner host = Some owner →
  owner = owner_of host ∧ parse_srv_owner owner = Some owner ∧ ∃ rest, owner = 95 :: rest.
Proof.
  rewrite parse_srv_owner_eq. destruct (owner_ok (owner_of host)) eqn:H; [|done]. intros [= <-].
  assert (Ho : owner_ok (owner_of host)) by (by rewrite H).
  split; [done|]. split; [|by apply owner_first].
  rewrite parse_srv_owner_eq, owner_of_fixed by (apply owner_of_lower || by apply owner_no_dot). by rewrite H.
Qed.

(** The bytes that make an authority not one. *)
Definition non_authority (b : Z) : bool := (b =? 47) || (b =? 63) || (b =? 35) || (b =? 64).

Lemma parse_authority_of host port owner : split_authority owner = Ok (host, port) →
  (∀ c, non_authority c → c ∉ owner) →
  parse_authority owner =
    (kind ← match parse_srv_owner host, port with
      | Some _, Some _ => Err RE_SrvExplicitPort
      | Some owner, None => Ok (RK_Srv owner)
      | None, _ => Ok (RK_Authority host port)
      end; Ok {| raw := owner; kind := kind |}).
Proof.
  intros Hs Hc. unfold parse_authority. fold non_authority. destruct (existsb _ owner) eqn:H.
  - exfalso. apply existsb_exists in H as (c & Hin & Hb). apply (Hc c); [by apply Is_true_true|].
    by apply list_elem_of_In.
  - by rewrite Hs.
Qed.

Lemma underscore_not_ipv6 rest : parse_ipv6 (95 :: rest) = None.
Proof. done. Qed.

Lemma name_without s : forallb authority_char s → 58 ∉ s ∧ (∀ c, non_authority c → c ∉ s).
Proof.
  intros Hs. split; [by apply (absent authority_char)|].
  intros c Hc. apply (absent authority_char); [|done]. unfold non_authority in Hc.
  apply Is_true_true in Hc. rewrite !orb_true_iff, !Z.eqb_eq in Hc.
  by destruct Hc as [[[->| ->]| ->]| ->].
Qed.

Lemma not_in_text host port c : non_authority c → port_ok port → c ∉ host → c ∉ host ++ port_suffix port.
Proof.
  intros Hc Hp Hh. rewrite elem_of_app. intros [|Hin]; [done|]. revert Hin. unfold non_authority in Hc.
  apply Is_true_true in Hc. rewrite !orb_true_iff, !Z.eqb_eq in Hc.
  apply port_suffix_absent; [..|done]; by destruct Hc as [[[->| ->]| ->]| ->].
Qed.

Lemma srv_reparsed host owner : parse_srv_owner host = Some owner → to_ascii_lowercase host = host →
  ipv6_host host ∨ name_host host →
  parse_authority (bracket_host owner ++ []) = Ok {| raw := bracket_host owner ++ []; kind := RK_Srv owner |}.
Proof.
  intros Hs Hlow Hhost. destruct (srv_owner_again host owner Hs) as (Ho & Hagain & rest & Hrest).
  pose proof (owner_of_prefix host) as [tail Hpre]. rewrite <-Ho, Hlow in Hpre.
  assert (bracket_host owner = owner) as -> by (by rewrite Hrest).
  destruct Hhost as [[[a Ha] _]|[_ Hname]]; [by rewrite Hpre, Hrest in Ha|].
  rewrite Hpre, forallb_app in Hname. apply andb_True in Hname as [Hname _].
  rewrite app_nil_r. erewrite parse_authority_of; [| |by apply name_without].
  2:{ rewrite <-(app_nil_r owner) at 1. apply (split_authority_name owner None); [|by rewrite Ho, owner_of_lower|done].
      split; [by rewrite Hrest|done]. }
  by rewrite Hagain.
Qed.

Lemma host_reparsed host port : parse_srv_owner host = None → to_ascii_lowercase host = host → port_ok port →
  (ipv6_host host ∧ ∀ c, non_authority c → c ∉ host) ∨ name_host host →
  parse_authority (bracket_host host ++ port_suffix port) =
    Ok {| raw := bracket_host host ++ port_suffix port; kind := RK_Authority host port |}.
Proof.
  intros Hs Hlow Hp [[Hhost Hc]|Hhost].
  - unfold bracket_host. pose proof Hhost as [[a Ha] _]. rewrite Ha. erewrite parse_authority_of.
    2: by apply split_authority_ipv6.
    + by rewrite Hs.
    + intros c Hn. apply not_in_text; [done..|]. specialize (Hc c Hn). unfold non_authority in Hn.
      apply Is_true_true in Hn. rewrite !orb_true_iff, !Z.eqb_eq in Hn. set_solver by lia.
  - pose proof Hhost as [Hne Hname]. destruct (name_without host Hname) as [H58 Hc].
    unfold bracket_host. rewrite ipv6_has_colon by done. erewrite parse_authority_of.
    2: by apply split_authority_name.
    + by rewrite Hs.
    + intros c Hn. apply not_in_text; auto.
Qed.

(** C38: An authority that is accepted as a server reference keeps its text and has a lower-case host
    and a port from 1 to 65535; and the reference is read back, with the same kind, host and port,
    from the authority it prints (an IPv6 address in brackets, a DNS SRV name without its last dot). *)
Theorem reference_reparsed authority r : parse_authority authority = Ok r →
  raw r = authority ∧ to_ascii_lowercase (reference_host r) = reference_host r ∧
  port_ok (reference_port r) ∧
  parse_authority (authority_text r) = Ok {| raw := authority_text r; kind := kind r |}.
Proof.
  unfold parse_authority at 1. fold non_authority. destruct (existsb non_authority authority) eqn:Hex; [done|].
  assert (Hc : ∀ c, non_authority c → c ∉ authority).
  { intros c Hc Hin. apply list_elem_of_In in Hin. apply Is_true_true in Hc.
    assert (existsb non_authority authority = true) by (apply existsb_exists; eauto). congruence. }
  destruct (split_authority authority) as [[host port]| |] eqn:Hs; cbn; [|done..].
  apply split_authority_inv in Hs as (Hp & Hlow & Hhost).
  assert (Hhost' : (ipv6_host host ∧ ∀ c, non_authority c → c ∉ host) ∨ name_host host).
  { destruct Hhost as [[H1 H2]|]; [left|by right]. split; [done|]. intros c Hn. apply H2; [|by apply Hc].
    unfold non_authority in Hn. apply Is_true_true in Hn. rewrite !orb_true_iff, !Z.eqb_eq in Hn. lia. }
  destruct (parse_srv_owner host) as [owner|] eqn:Ho; [destruct port; [done|]|]; intros [= <-];
    (split; [done|]); unfold authority_text; cbn -[bracket_host].
  - split; [|split; [done|]].
    + destruct (srv_owner_again host owner Ho) as [-> _]. apply owner_of_lower.
    + apply srv_reparsed with host; [done..|]. tauto.
  - split; [done|]. split; [done|]. by apply host_reparsed.
Qed.

Lemma reference_reparsed_witness :
  parse_authority (text "[2001:DB8::1]:+1883") =
    Ok {| raw := text "[2001:DB8::1]:+1883"; kind := RK_Authority (text "2001:db8::1") (Some 1883) |} ∧
  parse_authority (text "[2001:db8::1]:1883") =
    Ok {| raw := text "[2001:db8::1]:1883"; kind := RK_Authority (text "2001:db8::1") (Some 1883) |}.
Proof.
  split; [by vm_compute|].
  exact (proj2 (proj2 (proj2 (reference_reparsed (text "[2001:DB8::1]:+1883")
    {| raw := text "[2001:DB8::1]:+1883"; kind := RK_Authority (text "2001:db8::1") (Some 1883) |}
    ltac:(by vm_compute))))).
Defined.

(** ** Target profiles do not weaken the connection *)

(** The transports a reference may be followed on: its scheme decides, and an authority without one
    uses plain TCP or TLS. *)
Definition follows (scheme : option RedirectScheme) (transport : Transport) : bool :=
  match scheme, transport with
  | (None | Some Mqtt), T_Tcp | (None | Some Mqtts), T_Tls | Some Ws, T_Ws | Some Wss, T_Wss => true
  | _, _ => false
  end.

Definition is_secure (transport : Transport) : bool := match transport with T_Tls | T_Wss => true | _ => false end.

(** The connection a reference stands for. *)
Definition target_of (r : RedirectReference) (transport : Transport) : RedirectProfileTarget :=
  let port default_port := default default_port (reference_port r) in
  match kind r with
  | RK_Srv owner => SrvPending owner
  | RK_Authority host _ => Direct (B_Tcp host (port (if is_secure transport then 8883 else 1883)))
  | RK_Uri Mqtt host _ _ => Direct (B_Tcp host (port 1883))
  | RK_Uri Mqtts host _ _ => Direct (B_Tcp host (port 8883))
  | RK_Uri scheme host _ resource =>
      Direct (B_Websocket (scheme_text scheme ++ text "://" ++ bracket_host host
                           ++ port_suffix (reference_port r) ++ resource)
                (bool_decide (scheme = Wss)))
  end.

(** A build with TLS and websockets makes a profile for a reference and a transport exactly when
    the transport is the one of the reference's scheme, so that a secure reference is never followed
    over a plain transport; the profile stands for the reference's host and its port or the default
    one, carries no credentials, no client identifier, no session and no store, and is valid at every
    instant; every other transport is refused with a mismatch, and nothing panics. *)
Theorem isolated_profile {Store} r transport :
  let profile := {| rt_reference := r; rt_target := target_of r transport; rt_transport := transport;
       rt_client_id := Fresh; rt_session := Isolated; rt_authentication := None;
       rt_reuse_authenticator := false; rt_reuse_network_credentials := false;
       rt_session_store := None (A := Store); rt_decision_deadline := None |} in
  isolated true true r transport =
    (if follows (reference_scheme r) transport then Ok profile
     else Err (TransportMismatch (reference_scheme r))) ∧
  (∀ now client_id has_store, validate_profile now client_id has_store profile = Ok tt) ∧
  (follows (reference_scheme r) transport = true →
   reference_scheme r = Some Mqtts ∨ reference_scheme r = Some Wss → is_secure transport = true).
Proof.
  intros profile. split; [|split].
  - destruct r as [raw_ [host port|scheme host port resource|owner]]; [|destruct scheme|];
      destruct transport; try done; by destruct port.
  - done.
  - by intros H [E|E]; rewrite E in H; destruct transport.
Qed.

(** Dot segments are removed before percent triplets are decoded, so that two spellings of one
    resource have two keys. *)
Lemma encoded_dots_keep_key :
  normalize_resource_name (text "/a/../mqtt") = text "/mqtt" ∧
  normalize_resource_name (text "/a/%2e%2e/mqtt") = text "/a/../mqtt".
Proof. by vm_compute. Qed.

(** A port may have a plus sign. *)
Lemma port_with_plus : parse_authority (text "broker:+1883") =
  Ok {| raw := text "broker:+1883"; kind := RK_Authority (text "broker") (Some 1883) |}.
Proof. by vm_compute. Qed.
